(* ===== verification/_CoqProject ===== *)
-Q . S2P
Prelude.v
Doubles.v
Numeric.v
Hashing.v
JsString.v
Words.v
Regex.v
Collections.v
Keyset.v
PairTree.v
Merkle.v
MerkleLegacy.v
DrrScheduler.v
BatchingQueue.v
Window.v
RetryBudget.v
SorobanClient.v
OutboundClient.v
OAuthStates.v
CircuitBreaker.v
RateLimiter.v
SignupLimiter.v
AbusePrevention.v
UserRepository.v
Accounts.v
Idempotency.v
Backoff.v
AuditChain.v
DeadLetter.v
RazorpayWebhook.v
SecretRotation.v
TokenRefresh.v
Attestation.v
AttestationRepository.v
IntegrationStore.v
AccessControl.v
RazorpayConnect.v
ShopifyConnect.v
StripeConnect.v
RolePromotion.v
Periods.v
SorobanSubmission.v
DegradedQueue.v
FairQueue.v
StartupReplay.v
HedgedRequest.v
WebhookDelivery.v
TokenFamilies.v
MtlsRevocation.v
WebhookSubscriptions.v
Businesses.v
AttestationStream.v
Lifecycle.v
DbClient.v
RevenueReports.v
Reminders.v
BusinessInput.v
RequestAuth.v
Migrations.v
Anomaly.v
RevenuePipeline.v
SecretLoader.v
EgressIps.v
AuditJobs.v
AdaptiveBatch.v
Jwks.v
JwtTokens.v
AttestationRoutes.v
GraphqlGuard.v
Gdpr.v
WebhookSchema.v
PublicAttestations.v
Svid.v
RevenueConsumer.v
RazorpayFetch.v
Monitoring.v
Tracing.v
HttpMiddleware.v
IndexRebuild.v
ReleaseGates.v
