(* ===== verification/Prelude.v ===== *)
(** * Veritasor backend: a verification library

    The repository is the TypeScript backend of Veritasor: it collects the
    revenue of a business, commits to it with a Merkle root submitted to a
    Soroban contract, stores the attestation, and serves clients and payment
    webhooks behind rate limits, idempotency keys and audit logs.  This library
    models the parts that carry that logic and proves what makes each correct.
    Paths below are relative to [src/].

    ** The program's parts and their models

    - Merkle commitments.  [src/services/merkle/buildTree.ts] and
      [generateProof.ts]: file [Merkle] ([buildTree], [getRoot],
      [generateProof], [verifyProof] with its validation of untyped input).
      [src/services/merkle.ts], the buffer-based class: [MerkleLegacy].  The
      pairing both share is [PairTree].
    - Soroban submission.  [src/services/soroban/drrScheduler.ts]:
      [DrrScheduler]; [batchingQueue.ts]: [BatchingQueue], a state machine
      whose steps are the calls and the timeouts that may fire;
      [adaptiveBatchSize.ts]: [AdaptiveBatch]; [retry-budget.ts] and
      [src/services/integrations/retryBudget.ts]: [RetryBudget];
      [client.ts]: [SorobanClient]; [submitAttestation.ts]:
      [SorobanSubmission] (one submission and its deduplication window),
      [DegradedQueue] (the queue while the breaker is open) and [FairQueue]
      (the entry points around the scheduler).
      [src/startup/replayFailedSubmissions.ts]: [StartupReplay].
      [src/utils/hedged-request.ts]: [HedgedRequest].
    - Attestations.  [src/services/attestation/submit.ts], [revoke.ts] and
      the in-memory repository [src/repositories/attestation.ts]:
      [Attestation].  [src/repositories/attestationRepository.ts] and
      [revokeBatch.ts]: [AttestationRepository], modules [Repo] (rows,
      optimistic locking, conflict checks) and [Batch] (the transactional
      revocation).  [src/routes/attestations.ts]: [AttestationRoutes];
      [publicAttestations.ts] and [src/utils/cachePolicy.ts]:
      [PublicAttestations]; [src/ws/attestationStream.ts]:
      [AttestationStream].  [scripts/rebuild-indexer.ts], which fills the
      table from the events of the chain: [IndexRebuild].
    - Revenue.  [src/services/revenue/normalize.ts] and
      [src/services/attestation/integrateRevenueChecks.ts]:
      [RevenuePipeline]; [anomalyDetection.ts]: [Anomaly];
      [kafkaConsumer.ts]: [RevenueConsumer]; [razorpayFetch.ts]:
      [RazorpayFetch]; [src/services/analytics/]: [Periods] and
      [RevenueReports]; [src/jobs/attestationReminder.ts]: [Reminders].
    - Request protection.  [src/redis.ts]: [CircuitBreaker] (breaker, cluster
      redirections).  [src/middleware/rateLimiter.ts]: [RateLimiter].
      [src/utils/signupRateLimiter.ts]: [SignupLimiter];
      [abusePrevention.ts]: [AbusePrevention].
      [src/middleware/idempotency.ts]: [Idempotency]; [errorHandler.ts],
      [compression.ts] and [apiVersion.ts]: [HttpMiddleware]; the guards of the GraphQL endpoints: [GraphqlGuard].  The
      timestamp logs several of them keep are [Window].
    - Identity and authority.  [src/utils/jwt.ts]: [JwtTokens] and
      [TokenFamilies]; [jwks.ts]: [Jwks];
      [src/services/auth/refresh.ts] and [usedTokenStore.ts]:
      [TokenRefresh]; [signup.ts], [login.ts], [forgotPassword.ts] and
      [resetPassword.ts]: [Accounts] over [UserRepository];
      [src/middleware/permissions.ts] and the guards beside it:
      [AccessControl] and [RequestAuth]; [src/routes/admin.ts] and role
      requests: [RolePromotion]; [src/middleware/mtls.ts] and
      [mtlsRevocation.ts]: [MtlsRevocation]; [src/spiffe/]: [Svid].
    - Businesses and integrations.  [src/repositories/business.ts]:
      [Businesses]; [src/services/business/]: [BusinessInput];
      [src/repositories/integration.ts]: [IntegrationStore]; the OAuth flows
      of [src/services/integrations/]: [OAuthStates], [RazorpayConnect],
      [ShopifyConnect], [StripeConnect]; [clientWrapper.ts]:
      [OutboundClient].
    - Webhooks.  [src/services/webhooks/razorpayHandler.ts] and
      [idempotency.ts]: [RazorpayWebhook]; [deadLetterQueue.ts]:
      [DeadLetter]; [secretRotation.ts]: [SecretRotation]; [dispatcher.ts]:
      [WebhookDelivery]; subscriptions: [WebhookSubscriptions] and
      [WebhookSchema]; [egressIpAllowList.ts]: [EgressIps];
      [src/utils/backoff.ts]: [Backoff].
    - Records and operations.  [src/repositories/auditLogRepository.ts]:
      [AuditChain]; its jobs: [AuditJobs]; the export of a user's data:
      [Gdpr]; [src/utils/secret-loader.ts]: [SecretLoader]; [src/db/]:
      [DbClient] and [Migrations]; [src/startup/readiness.ts] and
      [src/shutdown.ts]: [Lifecycle]; [src/routes/health.ts] and the
      PgBouncer scraper: [Monitoring]; [src/tracing/] and the logger:
      [Tracing]; the checks of a release ([src/utils/normalizeSpec.ts],
      [scripts/compare-k6.ts], [scripts/verify-provenance.ts]):
      [ReleaseGates].

    [Prelude] (this file), [Doubles] (binary64 through [SpecFloat]),
    [Numeric] (integers, products of random draws, [parseInt]), [Hashing]
    (hex, buffers, digests, constant-time comparison), [JsString], [Words] and
    [Regex] (texts), [Collections] and [Keyset] (insertion-ordered maps, the
    stable sort, pages) and the module [Simulation] (refinement of state
    machines) hold what the components share.
    Components interact as in the code: the submission flow builds a
    [MerkleLegacy] tree and the package of the revenue pipeline a [Merkle]
    one, the batch revocation and the anchor use [AuditChain], the webhook
    handler runs under [Backoff] and fills [DeadLetter], the Redis stores of
    [RateLimiter] and [Idempotency] go through [CircuitBreaker], the startup
    replay and the RPC client charge [RetryBudget], access tokens are
    verified with the keys of [Jwks].

    ** Conventions

    A function that throws returns a [result]; a method that changes its object
    takes and returns the state.  Synchronous code is one step.  An [await]
    ends a step, so a function that awaits between a check and a write is
    split there and other calls may run in between; where that matters, the
    theorems say which interleavings they cover.  A step takes one reading of
    [Date.now()] unless its definition takes several.  Random draws, clock
    readings, random identifiers and the answers of external services are
    arguments.  A Redis command that fails may or may not have been applied
    ([Replies]: a reply, a refusal, or no answer), and what has a time to live
    is gone after it.  What a request body holds is what JSON can hold where
    the code does not validate it (the role of [RolePromotion]).  SHA-256, HMAC, S3, KMS, JWT signing, Redis and the Soroban
    network are parameters, with the documented behaviour the code relies on
    as class laws or hypotheses ([HexDigest], [ObjectStore], [KeyService]);
    no collision resistance is assumed: statements about forgery end in "or
    here are two inputs with one digest".  PostgreSQL tables are finite maps
    or lists of rows with the constraints of their migrations.  Sizes and
    counters are [Z] or [nat]; amounts of revenue, fees and statistics are
    binary64 and computed as such, and a product with a random draw is rounded
    ([fl53]).  Strings are ASCII.

    ** What the theorems show

    - Merkle: generated proofs verify, have one step per level, and accepted
      proofs bind the leaf up to a collision; the builder accepts exactly the
      valid inputs and terminates; the legacy class round-trips; a package
      made from revenue carries a valid proof for each entry.
    - Scheduler: [dequeueBatch] ends and returns the next items in order, a
      full round serves by weight, and the head tenant can fill every batch;
      with its entry points it refines one FIFO queue per tenant, payload by
      payload.  Queue: every item is pending, in flight, completed or
      rejected, and while items wait and no batch is in flight a timeout is
      armed, due by the latency bound of the oldest, whose firing starts a
      batch.
    - Calls of the chain: a submission fails plainly on a bad configuration,
      before anything is sent, and with its taxonomy afterwards; a request
      ends within its number of attempts and a
      bound on its time, the shared budget holds under every interleaving, an
      attestation is not sent twice within the window, a drain loses nothing
      unless two overlap, the replay accounts for every failed submission.
    - Budgets and limiters: no window ever holds more than the limit (twice
      for the fixed window), keys do not interfere, blocks last, the breakers
      open, space their probes and recover; retry loops end.
    - Idempotency: once an answer is cached it is replayed, while other keys
      run in between, until it expires; first requests that overlap all run,
      and tenants do not share keys.
    - Tokens and accounts: a refresh token works once, reuse kills its family,
      the kinds of token do not pass for each other, keys that a reload drops
      verify for the grace window and no longer, racing signups make one
      account, a reset token works once, roles change only with authority,
      which a user whose stored role was cleared can claim in a header.
    - Audit log: what is written verifies, what verifies is what was written
      (up to a collision, and for fields without the separator), an anchor pins the history before
      it, and pages enumerate the selection.
    - Attestations: records are stored exactly when the chain accepted the
      root of the month totals; retries follow the error taxonomy; stale
      versions are never applied; batch revocation is all or nothing on rows;
      a request that revokes had the row of its business and not revoked, and
      two that overlap can both succeed; a rebuild from the chain
      that is interrupted and resumed comes to the same entries.
    - Revenue: committed offsets were handled or dead-lettered and no message
      stalls a partition; paged fetching gives the whole list.
    - Integrations: the three state stores refine a book of one-shot entries,
      a callback connects only what was asked for, and one that is well signed
      uses up its state whatever comes of it.
    - Webhooks: signatures under both secrets, one processing per event, the
      archive round trip, subscriptions that are what their history says,
      deliveries a consumer accepts.
    - Operations: exports that say completed have their archive until it
      expires, identities
      stay within the trust domain through failures, introspection is found
      through fragments, compression is transparent, denylisted members are
      never exported, the contract snapshot ignores the order of members, a
      verified artifact is attested.

    Theorems that state a defect are kept beside the others and say what the
    code does ([revoke_has_no_effect], [overlapping_refreshes_both_succeed],
    [head_tenant_monopolises], [rollback_keeps_success_entries],
    [generated_key_cannot_sign], ...).

    ** Fuel

    Loops over data are structural.  Fuel is used where the source loops on a
    condition, and is proved sufficient: the Merkle loops take the number of
    leaves ([MerkleTree_new_terminates], [buildTree_accepts]); [dequeueBatch]
    one round per pending item and active tenant ([dequeueBatch_serves]); the
    Redis loops [maxRedirections + 1], or [maxRetries + maxRedirections + 1],
    turns ([redis_stores_answer]); retry loops the number of attempts the
    policy allows ([attempts_from] of [SorobanClient] takes [maxRetries + 1],
    [request_outcome]); following audit pages one page per entry
    ([pages_enumerate_selection]); fetching payments one page each and one
    more ([pages_give_everything]), and reading the events of the chain one
    each event and one more, where running out of it is an interruption
    ([rebuild_content]); the search for introspection the depth of
    the spreads ([introspection_is_found]).  [scan_loop] of [Idempotency]
    follows the server's cursors and has no bound of its own.

    ** Not modelled

    The wiring of the Express application and its handlers without logic of
    their own, the reading of configuration, and the OpenAPI document are
    declarations.  Stellar SDK calls, KafkaJS, bcrypt, the resolvers of the
    GraphQL schemas, transports of metrics and traces, e-mail and the CDN hand
    data to libraries and services whose code is not here; where their answers
    matter they are inputs of the models.  Load tests, scripts that only call
    tools or print what another part computes, and the SQL of migrations are
    outside the program. *)

From stdpp Require Export base option gmap strings list fin_maps.
From Stdlib Require Export ZArith Lia Bool Ascii.

(** ** Results

    JavaScript functions that [throw] are modelled as functions into
    [result E A]: [Ok] is a normal return and [Err] a thrown error. *)

Inductive result (E A : Type) : Type :=
| Ok (a : A)
| Err (e : E).

Arguments Ok {E A} a.
Arguments Err {E A} e.

#[export] Instance result_ret {E} : MRet (result E) := fun A a => Ok a.
#[export] Instance result_bind {E} : MBind (result E) := fun A B f m =>
  match m with Ok a => f a | Err e => Err e end.
#[export] Instance result_fmap {E} : FMap (result E) := fun A B f m =>
  match m with Ok a => Ok (f a) | Err e => Err e end.

Definition is_ok {E A} (r : result E A) : bool :=
  match r with Ok _ => true | Err _ => false end.

Lemma bind_Ok_inv {E A B} (m : result E A) (f : A → result E B) (b : B) :
  m ≫= f = Ok b → ∃ a, m = Ok a ∧ f a = Ok b.
Proof. destruct m as [a|e]; cbn; [eauto | discriminate]. Qed.

(** ** Booleans and comparisons

    Conditions of the source are kept as booleans. [bool_lia] hands the
    comparison facts of the context and the goal to [lia]. *)

Ltac destruct_bools :=
  repeat match goal with
  | H : (_ && _)%bool = true |- _ => apply andb_true_iff in H as [? ?]
  | H : (_ || _)%bool = false |- _ => apply orb_false_iff in H as [? ?]
  | H : negb _ = true |- _ => apply negb_true_iff in H
  | H : negb _ = false |- _ => apply negb_false_iff in H
  end.

Ltac bool_lia := destruct_bools; lia.

(** [case_if] splits on the first [if] of the goal and records the test. *)
Ltac case_if :=
  match goal with
  | |- context [if ?b then _ else _] => destruct b eqn:?
  end.

(** [case_if_in H] does the same in a hypothesis. *)
Ltac case_if_in H :=
  match type of H with
  | context [if ?b then _ else _] => destruct b eqn:?
  end.

(** ** Hint databases

    [js_core] holds the facts every component's automation may use. *)
Create HintDb js_core discriminated.
#[export] Hint Constructors result : js_core.

(** ** Lists *)

Section ListLemmas.
Context {A : Type}.
Implicit Types (l : list A).

(** The last element of a non-empty list, as [arr[arr.length - 1]]. *)
Lemma last_app_cons l l' (x : A) : last (l ++ x :: l') = last (x :: l').
Proof.
  induction l as [|y l IH]; [done|].
  rewrite <- app_comm_cons. destruct (l ++ x :: l') eqn:E.
  - destruct l; discriminate.
  - cbn [last]. exact IH.
Qed.

End ListLemmas.

(** ** Executable search: [Array.prototype.includes] on strings *)
Definition includes (x : string) (l : list string) : bool :=
  existsb (String.eqb x) l.

Lemma includes_spec x l : includes x l = true ↔ x ∈ l.
Proof.
  unfold includes. rewrite existsb_exists. split.
  - intros (y & Hy & He). apply String.eqb_eq in He as ->. by apply list_elem_of_In.
  - intros Hx. exists x. split; [by apply list_elem_of_In | apply String.eqb_refl].
Qed.

Lemma includes_false x l : includes x l = false ↔ x ∉ l.
Proof.
  rewrite <- includes_spec. destruct (includes x l); split; congruence.
Qed.

(** ** Naturals inside [Z] *)

Lemma even_of_nat n : Z.even (Z.of_nat n) = Nat.even n.
Proof.
  apply eq_true_iff_eq. rewrite Z.even_spec, Nat.even_spec.
  split; intros [m Hm]; [exists (Z.to_nat m) | exists (Z.of_nat m)]; lia.
Qed.

(** ** Refinement by forward simulation.

    A system is a labelled transition system; its traces are the sequences of
    labels it can perform.  An implementation refines a specification when
    each of its traces is a trace of the specification; a simulation relation
    proves it.  The components with an abstract specification instantiate
    this. *)
Module Replies.
(** How a command to another system ends: answered; failed, without effect;
    or applied although the caller gets an error, as when the connection is
    lost before the answer. *)
Inductive reply := Answered | Refused | Unanswered.
Definition answered (r : reply) : bool := match r with Answered => true | _ => false end.
Definition applied (r : reply) : bool := match r with Refused => false | _ => true end.
End Replies.

Module Simulation.

Record lts (E : Type) := {
  state : Type;
  initial : state → Prop;
  transition : state → E → state → Prop
}.
Arguments state {E} _.
Arguments initial {E} _ _.
Arguments transition {E} _ _ _ _.

Section Traces.
Context {E : Type}.
Implicit Types (C A : lts E).

(** [steps C s t s']: [C] goes from [s] to [s'] performing [t]. *)
Inductive steps C : state C → list E → state C → Prop :=
| steps_nil s : steps C s [] s
| steps_cons s e s' t s'' : transition C s e s' → steps C s' t s'' → steps C s (e :: t) s''.

Definition trace C (t : list E) : Prop := ∃ s s', initial C s ∧ steps C s t s'.

Definition refines C A : Prop := ∀ t, trace C t → trace A t.

Record simulation C A (R : state C → state A → Prop) : Prop := {
  sim_initial : ∀ s, initial C s → ∃ a, initial A a ∧ R s a;
  sim_step : ∀ s e s' a, R s a → transition C s e s' → ∃ a', transition A a e a' ∧ R s' a'
}.

Lemma simulation_steps C A R s t s' a :
  simulation C A R → R s a → steps C s t s' → ∃ a', steps A a t a' ∧ R s' a'.
Proof.
  intros HR Hs Hc. revert a Hs. induction Hc as [s|s e s' t s'' Hst _ IH]; intros a Hs.
  - exists a. split; [constructor|done].
  - destruct (sim_step _ _ _ HR _ _ _ _ Hs Hst) as (a1 & H1 & HR1).
    destruct (IH a1 HR1) as (a2 & H2 & HR2). exists a2. split; [by econstructor|done].
Qed.

Lemma simulation_refines C A R : simulation C A R → refines C A.
Proof.
  intros HR t (s & s' & Hi & Hs). destruct (sim_initial _ _ _ HR s Hi) as (a & Ha & HRa).
  destruct (simulation_steps _ _ _ _ _ _ _ HR HRa Hs) as (a' & Hsa & _). by exists a, a'.
Qed.

Lemma refines_trans C A B : refines C A → refines A B → refines C B.
Proof. intros H1 H2 t Ht. by apply H2, H1. Qed.

(** An invariant of every reachable state. *)
Lemma invariant_steps C (I : state C → Prop) :
  (∀ s e s', I s → transition C s e s' → I s') → ∀ s t s', I s → steps C s t s' → I s'.
Proof. intros Hp s t s' Hi Hs. induction Hs; eauto. Qed.
End Traces.
End Simulation.
