(* ===== verification/Doubles.v ===== *)
(** * Numbers of JavaScript: binary64, with the operations of the Standard
    Library's [SpecFloat] and the functions of [Math] the program calls.

    Comparison is the order of a key. *)

From Stdlib Require Import Floats.SpecFloat.
From Stdlib Require Export Floats.SpecFloat.
From S2P Require Import Prelude.
#[local] Open Scope Z_scope.

Abbreviation double := spec_float.
Abbreviation NaN := S754_nan.

Declare Scope double_scope.
Delimit Scope double_scope with double.

Definition dadd : double → double → double := SFadd 53 1024.
Definition dsub : double → double → double := SFsub 53 1024.
Definition dmul : double → double → double := SFmul 53 1024.
Definition ddiv : double → double → double := SFdiv 53 1024.
Definition dsqrt : double → double := SFsqrt 53 1024.

Notation "x + y" := (dadd x y) : double_scope.
Notation "x - y" := (dsub x y) : double_scope.
Notation "x * y" := (dmul x y) : double_scope.
Notation "x / y" := (ddiv x y) : double_scope.
Notation "- x" := (SFopp x) : double_scope.
Notation "x <? y" := (SFltb x y) : double_scope.
Notation "x <=? y" := (SFleb x y) : double_scope.
Notation "x =? y" := (SFeqb x y) : double_scope.

(** An integer, and a decimal literal [n / d] with both exact. *)
Definition of_Z (n : Z) : double := binary_normalize 53 1024 n 0 false.
Definition literal (n d : Z) : double := ddiv (of_Z n) (of_Z d).

Definition is_nan (x : double) : bool := match x with S754_nan => true | _ => false end.
Definition isFinite (x : double) : bool := match x with S754_zero _ | S754_finite _ _ _ => true | _ => false end.
Definition sign (x : double) : bool := match x with S754_zero s | S754_infinity s | S754_finite s _ _ => s | S754_nan => false end.

(** [Math.min] and [Math.max]: not a number as soon as one is; the zeros are
    ordered by their signs. *)
Definition Math_min (a b : double) : double :=
  if is_nan a || is_nan b then NaN else if (a <? b)%double then a else if (b <? a)%double then b else if sign a then a else b.
Definition Math_max (a b : double) : double :=
  if is_nan a || is_nan b then NaN else if (a <? b)%double then b else if (b <? a)%double then a else if sign a then b else a.

(** [Math.round]: half towards positive infinity, keeping the sign of zero. *)
Definition Math_round (x : double) : double :=
  match x with
  | S754_finite s m e =>
      if 0 <=? e then x
      else
        let n := cond_Zopp s (Zpos m) in
        let k := (2 * n + 2 ^ (- e)) / 2 ^ (1 - e) in
        if k =? 0 then S754_zero s else of_Z k
  | _ => x
  end.

Example round_half : Math_round (literal 5 2) = of_Z 3 ∧ Math_round (literal (-5) 2) = of_Z (-2) ∧ Math_round (literal (-1) 4) = S754_zero true.
Proof. vm_compute. done. Qed.

Example point_three : dadd (literal 1 10) (literal 2 10) ≠ literal 3 10.
Proof. vm_compute. discriminate. Qed.

(** ** Order *)

(** Numbers are ordered by their keys. *)
Definition key (x : double) : option (Z * Z * Z) :=
  match x with
  | S754_nan => None
  | S754_infinity true => Some (-2, 0, 0)
  | S754_finite true m e => Some (-1, - e, - Zpos m)
  | S754_zero _ => Some (0, 0, 0)
  | S754_finite false m e => Some (1, e, Zpos m)
  | S754_infinity false => Some (2, 0, 0)
  end.

Definition key_lt (a b : Z * Z * Z) : Prop :=
  a.1.1 < b.1.1 ∨ (a.1.1 = b.1.1 ∧ (a.1.2 < b.1.2 ∨ (a.1.2 = b.1.2 ∧ a.2 < b.2))).

Lemma compare_key x y : SFcompare x y =
  match key x, key y with
  | Some a, Some b => Some (match a.1.1 ?= b.1.1 with Eq => match a.1.2 ?= b.1.2 with Eq => a.2 ?= b.2 | c => c end | c => c end)
  | _, _ => None
  end.
Proof.
  destruct x as [[]|[]| |[] m e], y as [[]|[]| |[] m' e']; try reflexivity; cbn -[Z.opp Z.compare].
  - rewrite !Z.compare_opp, (Z.compare_antisym e e'). change (Pos.compare_cont Eq m m') with (m ?= m')%positive.
    destruct (e ?= e') eqn:E; try reflexivity. cbn. rewrite (Pos.compare_antisym m m'). reflexivity.
Qed.

Lemma lt_key x y : (x <? y)%double = true ↔ ∃ a b, key x = Some a ∧ key y = Some b ∧ key_lt a b.
Proof.
  unfold SFltb. rewrite compare_key. destruct (key x) as [[[a1 a2] a3]|], (key y) as [[[b1 b2] b3]|];
    try (split; [done|by intros (? & ? & ? & ? & _)]). cbn. split.
  - intros H. eexists _, _. split_and!; [done..|]. unfold key_lt. cbn.
    destruct (Z.compare_spec a1 b1), (Z.compare_spec a2 b2), (Z.compare_spec a3 b3); try discriminate; lia.
  - intros (a & b & [= <-] & [= <-] & H). unfold key_lt in H. cbn in H.
    destruct (Z.compare_spec a1 b1), (Z.compare_spec a2 b2), (Z.compare_spec a3 b3); try reflexivity; lia.
Qed.

Lemma le_key x y : (x <=? y)%double = true ↔ ∃ a b, key x = Some a ∧ key y = Some b ∧ ¬ key_lt b a.
Proof.
  unfold SFleb. rewrite compare_key. destruct (key x) as [[[a1 a2] a3]|], (key y) as [[[b1 b2] b3]|];
    try (split; [done|by intros (? & ? & ? & ? & _)]). cbn. split.
  - intros H. eexists _, _. split_and!; [done..|]. unfold key_lt. cbn.
    destruct (Z.compare_spec a1 b1), (Z.compare_spec a2 b2), (Z.compare_spec a3 b3); try discriminate; lia.
  - intros (a & b & [= <-] & [= <-] & H). unfold key_lt in H. cbn in H.
    destruct (Z.compare_spec a1 b1), (Z.compare_spec a2 b2), (Z.compare_spec a3 b3); try reflexivity; lia.
Qed.

Lemma key_nan x : is_nan x = false ↔ ∃ a, key x = Some a.
Proof. destruct x as [|[]| |[]]; cbn; (split; [intros H; try discriminate H; eauto|intros [a H]; try discriminate H; done]). Qed.

(** Solves comparisons between doubles through their keys. *)
Ltac by_keys :=
  repeat match goal with
  | H : (_ <? _)%double = true |- _ => apply lt_key in H as (? & ? & ? & ? & ?)
  | H : (_ <=? _)%double = true |- _ => apply le_key in H as (? & ? & ? & ? & ?)
  | H : is_nan _ = false |- _ => apply key_nan in H as (? & ?)
  end; simplify_eq.

Lemma lt_irrefl x : (x <? x)%double = false.
Proof. apply not_true_iff_false. intros H. by_keys. unfold key_lt in *. lia. Qed.

Lemma lt_trans x y z : (x <? y)%double = true → (y <? z)%double = true → (x <? z)%double = true.
Proof. intros H1 H2. by_keys. apply lt_key. eexists _, _. split_and!; [done..|]. unfold key_lt in *. lia. Qed.

Lemma lt_le x y : (x <? y)%double = true → (x <=? y)%double = true.
Proof. intros H. by_keys. apply le_key. eexists _, _. split_and!; [done..|]. unfold key_lt in *. lia. Qed.

Lemma le_trans x y z : (x <=? y)%double = true → (y <=? z)%double = true → (x <=? z)%double = true.
Proof. intros H1 H2. by_keys. apply le_key. eexists _, _. split_and!; [done..|]. unfold key_lt in *. lia. Qed.

Lemma lt_le_trans x y z : (x <? y)%double = true → (y <=? z)%double = true → (x <? z)%double = true.
Proof. intros H1 H2. by_keys. apply lt_key. eexists _, _. split_and!; [done..|]. unfold key_lt in *. lia. Qed.

Lemma le_lt_trans x y z : (x <=? y)%double = true → (y <? z)%double = true → (x <? z)%double = true.
Proof. intros H1 H2. by_keys. apply lt_key. eexists _, _. split_and!; [done..|]. unfold key_lt in *. lia. Qed.

Lemma le_refl x : is_nan x = false → (x <=? x)%double = true.
Proof. intros H. by_keys. apply le_key. eexists _, _. split_and!; [done..|]. unfold key_lt in *. lia. Qed.

(** Of two numbers, the first is below the second or not below it. *)
Lemma not_lt_le x y : is_nan x = false → is_nan y = false → (x <? y)%double = false → (y <=? x)%double = true.
Proof.
  intros [a Hx]%key_nan [b Hy]%key_nan H. apply le_key. exists b, a. split_and!; [done..|]. intros Hlt.
  apply not_true_iff_false in H. apply H, lt_key. by exists a, b.
Qed.

Lemma le_not_lt x y : (x <=? y)%double = true → (y <? x)%double = false.
Proof. intros H. apply not_true_iff_false. intros H'. by_keys. done. Qed.

Lemma lt_nan x y : (x <? y)%double = true → is_nan x = false ∧ is_nan y = false.
Proof. intros (a & b & Hx & Hy & _)%lt_key. split; apply key_nan; eauto. Qed.

Lemma le_nan x y : (x <=? y)%double = true → is_nan x = false ∧ is_nan y = false.
Proof. intros (a & b & Hx & Hy & _)%le_key. split; apply key_nan; eauto. Qed.

(** Negation and absolute value. *)
Lemma key_opp x : key (SFopp x) = (λ a, (- a.1.1, - a.1.2, - a.2)) <$> key x.
Proof. destruct x as [|[]| |[]]; cbn; try done; by rewrite Z.opp_involutive. Qed.

Lemma opp_le x y : (x <=? - y)%double = true → (y <=? - x)%double = true.
Proof.
  intros (a & b & Hx & Hy & H)%le_key. rewrite key_opp in Hy. apply fmap_Some in Hy as ([[b1 b2] b3] & Hy & ->). apply le_key.
  destruct a as [[a1 a2] a3]. exists (b1, b2, b3), (- a1, - a2, - a3). rewrite key_opp, Hx. split_and!; [done..|]. unfold key_lt in *. cbn in *. lia.
Qed.

Definition zero : double := S754_zero false.

Lemma abs_nonneg x : is_nan x = false → (zero <=? SFabs x)%double = true.
Proof. by destruct x as [|[]| |[]]. Qed.

Lemma abs_neg x : (x <? zero)%double = true → SFabs x = SFopp x.
Proof. by destruct x as [[]|[]| |[]]. Qed.

Lemma abs_pos x : (zero <? x)%double = true → SFabs x = x.
Proof. by destruct x as [[]|[]| |[]]. Qed.

Lemma opp_neg x : (zero <? x)%double = true → (SFopp x <? zero)%double = true.
Proof. by destruct x as [[]|[]| |[]]. Qed.

(** ** Minimum and maximum *)

Lemma min_cases a b : is_nan a = false → is_nan b = false →
  (Math_min a b = a ∧ (a <=? b)%double = true) ∨ (Math_min a b = b ∧ (b <=? a)%double = true).
Proof.
  intros Ha Hb. unfold Math_min. rewrite Ha, Hb. cbn. destruct (a <? b)%double eqn:E1; [left; auto using lt_le|].
  destruct (b <? a)%double eqn:E2; [right; auto using lt_le|]. destruct (sign a); [left|right]; auto using not_lt_le.
Qed.

Lemma max_cases a b : is_nan a = false → is_nan b = false →
  (Math_max a b = a ∧ (b <=? a)%double = true) ∨ (Math_max a b = b ∧ (a <=? b)%double = true).
Proof.
  intros Ha Hb. unfold Math_max. rewrite Ha, Hb. cbn. destruct (a <? b)%double eqn:E1; [right; auto using lt_le|].
  destruct (b <? a)%double eqn:E2; [left; auto using lt_le|]. destruct (sign a); [right|left]; auto using not_lt_le.
Qed.

Lemma min_nan a b : is_nan (Math_min a b) = is_nan a || is_nan b.
Proof.
  destruct (is_nan a) eqn:Ha; [unfold Math_min; by rewrite Ha|]. destruct (is_nan b) eqn:Hb; [unfold Math_min; by rewrite Ha, Hb|].
  destruct (min_cases a b Ha Hb) as [[-> _]|[-> _]]; done.
Qed.

Lemma max_nan a b : is_nan (Math_max a b) = is_nan a || is_nan b.
Proof.
  destruct (is_nan a) eqn:Ha; [unfold Math_max; by rewrite Ha|]. destruct (is_nan b) eqn:Hb; [unfold Math_max; by rewrite Ha, Hb|].
  destruct (max_cases a b Ha Hb) as [[-> _]|[-> _]]; done.
Qed.

(** A number clamped to an interval is in it. *)
Lemma clamp_bounds lo hi x : (lo <=? hi)%double = true → is_nan x = false →
  (lo <=? Math_max lo (Math_min hi x))%double = true ∧ (Math_max lo (Math_min hi x) <=? hi)%double = true.
Proof.
  intros Hlh Hx. destruct (le_nan _ _ Hlh) as [Hlo Hhi].
  assert (is_nan (Math_min hi x) = false) as Hm by (by rewrite min_nan, Hhi, Hx).
  assert ((Math_min hi x <=? hi)%double = true) as Hmin by (destruct (min_cases hi x Hhi Hx) as [[-> ?]|[-> ?]]; auto using le_refl).
  destruct (max_cases lo (Math_min hi x) Hlo Hm) as [[-> ?]|[-> ?]]; auto using le_refl.
Qed.
