(* ===== verification/Numeric.v ===== *)
(** * Numbers of the JavaScript runtime.

    Integers (counters, sizes, millisecond timestamps) are [Z].  The
    products the code forms with [Math.random()] are binary64 products:
    [fl53] is the rounding of a non-negative dyadic to 53 significant bits,
    nearest with ties to even, so that [random() * c] with
    [random() = r / 2^53] is exactly [fl53 (r * c) / 2^53].
    The file also holds [parseInt(s, 10)], [Math.ceil(x / d)] and the
    environment readers built on them. *)

From S2P Require Import Prelude.
#[local] Open Scope Z_scope.

(** ** Rounding to 53 significant bits *)

(** [rne_shift m s]: [m / 2^s] rounded to the nearest integer, ties to even. *)
Definition rne_shift (m s : Z) : Z :=
  let q := m / 2 ^ s in
  let r := m mod 2 ^ s in
  let half := 2 ^ (s - 1) in
  if r <? half then q
  else if half <? r then q + 1
  else if Z.even q then q else q + 1.

Definition fl53 (m : Z) : Z :=
  let s := Z.log2 m - 52 in
  if s <=? 0 then m else rne_shift m s * 2 ^ s.

(** [Math.floor(random() * c)] and [Math.round(random() * c)] for
    [random() = r / 2^53] and an integer [c]. *)
Definition floor_random_mul (r c : Z) : Z := fl53 (r * c) / 2 ^ 53.
Definition round_random_mul (r c : Z) : Z := (2 * fl53 (r * c) + 2 ^ 53) / 2 ^ 54.

(** The values [Math.random()] takes, as multiples of [2^-53]. *)
Definition is_draw (r : Z) : bool := (0 <=? r) && (r <? 2 ^ 53).

Lemma pow2_split s : 0 < s → 2 ^ s = 2 * 2 ^ (s - 1).
Proof. intros Hs. rewrite <- Z.pow_succ_r by lia. f_equal. lia. Qed.

Lemma rne_shift_error m s :
  0 < s → m - 2 ^ (s - 1) ≤ rne_shift m s * 2 ^ s ≤ m + 2 ^ (s - 1).
Proof.
  intros Hs. pose proof (pow2_split s Hs) as H2.
  assert (0 < 2 ^ (s - 1)) as Hp by (apply Z.pow_pos_nonneg; lia).
  pose proof (Z.div_mod m (2 ^ s)) as Hdm.
  pose proof (Z.mod_pos_bound m (2 ^ s)) as Hmb.
  unfold rne_shift. repeat case_if; nia.
Qed.

Lemma fl53_nonneg m : 0 ≤ m → 0 ≤ fl53 m.
Proof.
  intros Hm. unfold fl53. case_if; [done|].
  assert (0 < 2 ^ (Z.log2 m - 52)) by (apply Z.pow_pos_nonneg; lia).
  apply Z.mul_nonneg_nonneg; [|lia]. unfold rne_shift.
  assert (0 ≤ m / 2 ^ (Z.log2 m - 52)) by (apply Z.div_pos; lia).
  repeat case_if; lia.
Qed.

Lemma fl53_le_err m : fl53 m ≤ m ∨ (0 < Z.log2 m - 52 ∧ fl53 m ≤ m + 2 ^ (Z.log2 m - 53)).
Proof.
  unfold fl53. case_if; [left; lia|]. right. split; [lia|].
  pose proof (rne_shift_error m (Z.log2 m - 52)) as He.
  replace (Z.log2 m - 52 - 1) with (Z.log2 m - 53) in He by lia. lia.
Qed.

(** Rounding never crosses a coarser multiple below. *)
Lemma fl53_ge_multiple m q k :
  Z.log2 m - 52 ≤ k → 0 ≤ k → q * 2 ^ k ≤ m → q * 2 ^ k ≤ fl53 m.
Proof.
  intros Hk Hk0 Hm. unfold fl53. case_if; [done|]. set (s := Z.log2 m - 52) in *.
  assert (0 < 2 ^ s) as Hp by (apply Z.pow_pos_nonneg; lia).
  assert (2 ^ k = 2 ^ (k - s) * 2 ^ s) as Hpow by (rewrite <- Z.pow_add_r by lia; f_equal; lia).
  rewrite Hpow, Z.mul_assoc in Hm |- *. apply Z.mul_le_mono_pos_r; [done|].
  assert (q * 2 ^ (k - s) ≤ m / 2 ^ s) by (apply Z.div_le_lower_bound; lia).
  unfold rne_shift. repeat case_if; lia.
Qed.

(** ... and never crosses one above. *)
Lemma fl53_le_multiple m q k :
  Z.log2 m - 52 ≤ k → 0 ≤ k → m ≤ q * 2 ^ k → fl53 m ≤ q * 2 ^ k.
Proof.
  intros Hk Hk0 Hm. unfold fl53. case_if; [done|]. set (s := Z.log2 m - 52) in *.
  assert (0 < 2 ^ s) as Hp by (apply Z.pow_pos_nonneg; lia).
  assert (2 ^ k = 2 ^ (k - s) * 2 ^ s) as Hpow by (rewrite <- Z.pow_add_r by lia; f_equal; lia).
  rewrite Hpow, Z.mul_assoc in Hm |- *. apply Z.mul_le_mono_pos_r; [done|].
  set (c := q * 2 ^ (k - s)) in *.
  pose proof (Z.div_mod m (2 ^ s)) as Hdm. pose proof (Z.mod_pos_bound m (2 ^ s) Hp) as Hmb.
  assert (0 < 2 ^ (s - 1)) by (apply Z.pow_pos_nonneg; lia).
  assert (m / 2 ^ s < c ∨ m / 2 ^ s = c ∧ m mod 2 ^ s = 0) as [Hlt|[He Hz]] by nia.
  - unfold rne_shift. repeat case_if; lia.
  - unfold rne_shift. rewrite Hz. assert ((0 <? 2 ^ (s - 1)) = true) as -> by lia. lia.
Qed.

(** The product of a draw below one and a positive integer [c] never rounds
    up to [c]. *)
Lemma fl53_draw_lt r c : 0 ≤ r < 2 ^ 53 → 0 < c → fl53 (r * c) < c * 2 ^ 53.
Proof.
  intros Hr Hc. set (p := r * c).
  assert (p ≤ c * 2 ^ 53 - c) as Hp by (unfold p; nia).
  assert (0 ≤ p) by (unfold p; nia).
  destruct (fl53_le_err p) as [|[Hs Hle]]; [lia|].
  enough (2 ^ (Z.log2 p - 53) < c) by lia.
  set (b := Z.log2 c).
  assert (0 ≤ b) by apply Z.log2_nonneg.
  pose proof (Z.log2_spec c Hc) as [Hb1 Hb2]. fold b in Hb1, Hb2.
  assert (0 < p) as Hp0.
  { destruct (Z.eq_dec p 0) as [E|]; [rewrite E in Hs; cbn in Hs; lia | lia]. }
  pose proof (Z.log2_spec p Hp0) as [Hl1 Hl2].
  destruct (Z.eq_dec c (2 ^ b)) as [Ec|Ec].
  - assert (Z.log2 p < b + 53) as Hlt.
    { apply (Z.pow_lt_mono_r_iff 2); [lia|lia|]. rewrite Z.pow_add_r by lia. nia. }
    eapply Z.lt_le_trans; [|exact Hb1]. apply Z.pow_lt_mono_r; lia.
  - assert (Z.log2 p < b + 54) as Hlt.
    { apply (Z.pow_lt_mono_r_iff 2); [lia|lia|].
      replace (b + 54) with (Z.succ b + 53) by lia. rewrite Z.pow_add_r by lia. nia. }
    eapply Z.le_lt_trans; [apply (Z.pow_le_mono_r 2 _ b); lia | lia].
Qed.

Lemma floor_random_mul_bounds r c :
  is_draw r = true → 0 < c → 0 ≤ floor_random_mul r c < c.
Proof.
  unfold is_draw, floor_random_mul. intros Hr Hc.
  assert (0 ≤ r < 2 ^ 53) as Hr' by bool_lia.
  pose proof (fl53_draw_lt r c Hr' Hc).
  pose proof (fl53_nonneg (r * c) ltac:(nia)).
  split; [apply Z.div_pos; lia | apply Z.div_lt_upper_bound; lia].
Qed.

Lemma round_random_mul_bounds r c :
  is_draw r = true → 0 < c → 0 ≤ round_random_mul r c ≤ c.
Proof.
  unfold is_draw, round_random_mul. intros Hr Hc.
  assert (0 ≤ r < 2 ^ 53) as Hr' by bool_lia.
  pose proof (fl53_draw_lt r c Hr' Hc).
  pose proof (fl53_nonneg (r * c) ltac:(nia)).
  split; [apply Z.div_pos; lia |].
  apply Z.lt_succ_r. apply Z.div_lt_upper_bound; lia.
Qed.

(** ** [Math.ceil(x / d)] on integers *)

Definition ceil_div (x d : Z) : Z := - ((- x) / d).

Lemma ceil_div_spec x d : 0 < d → d * (ceil_div x d - 1) < x ≤ d * ceil_div x d.
Proof.
  intros Hd. unfold ceil_div.
  pose proof (Z.div_mod (- x) d ltac:(lia)). pose proof (Z.mod_pos_bound (- x) d Hd). nia.
Qed.

(** ** [Number.parseInt(s, 10)] *)

Definition digit_val (c : ascii) : option Z :=
  let n := Z.of_nat (nat_of_ascii c) in
  if (48 <=? n) && (n <=? 57) then Some (n - 48) else None.

Definition is_space (c : ascii) : bool :=
  let n := Z.of_nat (nat_of_ascii c) in ((9 <=? n) && (n <=? 13)) || (n =? 32).

Fixpoint trim_start (s : string) : string :=
  match s with
  | String c r => if is_space c then trim_start r else s
  | EmptyString => s
  end.

(** Reads the longest prefix of digits; [None] when there is none. *)
Fixpoint digits_prefix (acc : option Z) (s : string) : option Z :=
  match s with
  | EmptyString => acc
  | String c r =>
      match digit_val c with
      | Some d => digits_prefix (Some (10 * default 0 acc + d)) r
      | None => acc
      end
  end.

(** [None] is [NaN]. *)
Definition parse_int (s : string) : option Z :=
  match trim_start s with
  | String "-" r => Z.opp <$> digits_prefix None r
  | String "+" r => digits_prefix None r
  | r => digits_prefix None r
  end.

Example parse_int_prefix : parse_int " 42ms" = Some 42.
Proof. reflexivity. Qed.
Example parse_int_neg : parse_int "-7" = Some (-7).
Proof. reflexivity. Qed.
Example parse_int_nan : parse_int "x1" = None.
Proof. reflexivity. Qed.

(** The environment reader the queue modules share: unset, unparseable and
    non-positive values give the fallback. *)
Definition parse_positive_int_env (raw : option string) (fallback : Z) : Z :=
  match raw with
  | None => fallback
  | Some r =>
      match parse_int r with
      | Some v => if v <=? 0 then fallback else v
      | None => fallback
      end
  end.

Lemma parse_positive_int_env_pos raw fallback :
  0 < fallback → 0 < parse_positive_int_env raw fallback.
Proof.
  intros H. unfold parse_positive_int_env.
  destruct raw as [r|]; [|done]. destruct (parse_int r) as [v|]; [|done].
  case_if; lia.
Qed.
#[export] Hint Resolve parse_positive_int_env_pos : js_core.
