(* ===== verification/Hashing.v ===== *)
(** * Digests, hexadecimal strings and buffers.

    SHA-256 and HMAC-SHA-256 come from the runtime and stay parameters: a
    component receives a function [string → string] (or on buffers) and, when
    it relies on the shape of [digest('hex')], the interface [HexDigest].
    The file holds the hexadecimal codec of [Buffer.toString('hex')] and
    [Buffer.from(s, 'hex')], and a concrete digest for examples. *)

From Stdlib Require Import Strings.Byte.
From S2P Require Import Prelude Numeric.
#[local] Open Scope Z_scope.

(** ** Hexadecimal characters *)

Definition code (c : ascii) : Z := Z.of_nat (nat_of_ascii c).
Definition in_range (lo hi : Z) (c : ascii) : bool := (lo <=? code c) && (code c <=? hi).

Definition is_lower_hex_char (c : ascii) : bool := in_range 48 57 c || in_range 97 102 c.
Definition is_hex_char (c : ascii) : bool := is_lower_hex_char c || in_range 65 70 c.

Definition lower_char (c : ascii) : ascii :=
  if in_range 65 90 c then ascii_of_nat (nat_of_ascii c + 32) else c.

Fixpoint string_forallb (p : ascii → bool) (s : string) : bool :=
  match s with EmptyString => true | String c r => p c && string_forallb p r end.

Fixpoint string_map (f : ascii → ascii) (s : string) : string :=
  match s with EmptyString => EmptyString | String c r => String (f c) (string_map f r) end.

(** [String.prototype.toLowerCase] on ASCII text. *)
Definition to_lower (s : string) : string := string_map lower_char s.

(** 64 lowercase hexadecimal characters: a SHA-256 [digest('hex')]. *)
Definition is_digest_hex (s : string) : bool :=
  (String.length s =? 64)%nat && string_forallb is_lower_hex_char s.

(** ** The interface of a hexadecimal SHA-256 digest *)

Class HexDigest (hash : string → string) : Prop :=
  digest_hex : ∀ s, is_digest_hex (hash s) = true.

Lemma digest_length hash `{!HexDigest hash} s : String.length (hash s) = 64%nat.
Proof.
  pose proof (digest_hex s) as H. unfold is_digest_hex in H.
  apply andb_true_iff in H as [H _]. by apply Nat.eqb_eq in H.
Qed.
#[export] Hint Resolve digest_length : js_core.

Lemma lower_hex_char_fixed c : is_lower_hex_char c = true → lower_char c = c.
Proof.
  unfold is_lower_hex_char, lower_char, in_range. intros H.
  destruct ((65 <=? code c) && (code c <=? 90)) eqn:E; [exfalso|done].
  apply andb_true_iff in E as [E1 E2].
  apply orb_true_iff in H as [H|H]; apply andb_true_iff in H as [H1 H2]; lia.
Qed.

Lemma lower_hex_to_lower s : string_forallb is_lower_hex_char s = true → to_lower s = s.
Proof.
  induction s as [|c s IH]; cbn; [done|]. intros [Hc Hs]%andb_true_iff.
  unfold to_lower in IH. by rewrite IH, lower_hex_char_fixed.
Qed.

Lemma lower_hex_is_hex s :
  string_forallb is_lower_hex_char s = true → string_forallb is_hex_char s = true.
Proof.
  induction s as [|c s IH]; cbn; [done|]. intros [Hc Hs]%andb_true_iff.
  rewrite IH by done. unfold is_hex_char at 1. by rewrite Hc.
Qed.

(** ** String concatenation *)

Lemma string_app_inj (a a' b b' : string) :
  String.length a = String.length a' → a +:+ b = a' +:+ b' → a = a' ∧ b = b'.
Proof.
  revert a'. induction a as [|c a IH]; intros [|c' a'] Hl He; cbn in *; try lia; [done|].
  injection He as -> He. destruct (IH a' ltac:(lia) He) as [-> ->]. done.
Qed.

(** ** Buffers and their hexadecimal form *)

Definition hex_digit (n : nat) : ascii :=
  ascii_of_nat (if (n <? 10)%nat then 48 + n else 87 + n)%nat.

Definition hex_val (c : ascii) : option nat :=
  if in_range 48 57 c then Some (nat_of_ascii c - 48)%nat
  else if in_range 97 102 c then Some (nat_of_ascii c - 87)%nat
  else if in_range 65 70 c then Some (nat_of_ascii c - 55)%nat
  else None.

(** [buf.toString('hex')]. *)
Fixpoint buffer_to_hex (b : list byte) : string :=
  match b with
  | [] => EmptyString
  | x :: r =>
      let n := Byte.to_nat x in
      String (hex_digit (n / 16)) (String (hex_digit (n mod 16)) (buffer_to_hex r))
  end.

(** [Buffer.from(s, 'hex')]: stops at the first pair that is not two
    hexadecimal characters, and drops an odd trailing character. *)
Fixpoint buffer_from_hex (s : string) : list byte :=
  match s with
  | String c (String d r) =>
      match hex_val c, hex_val d with
      | Some h, Some l =>
          match Byte.of_nat (16 * h + l) with
          | Some x => x :: buffer_from_hex r
          | None => []
          end
      | _, _ => []
      end
  | _ => []
  end.

Lemma buffer_from_to_hex b : buffer_from_hex (buffer_to_hex b) = b.
Proof.
  induction b as [|x b IH]; [done|].
  assert (buffer_from_hex (buffer_to_hex (x :: b)) = x :: buffer_from_hex (buffer_to_hex b)) as ->
    by (destruct x; reflexivity).
  by rewrite IH.
Qed.

(** The characters of an ASCII/UTF-8 string as bytes: [Buffer.from(s)]. *)
Definition buffer_from_string (s : string) : list byte := String.list_byte_of_string s.

Lemma buffer_to_hex_length b : String.length (buffer_to_hex b) = (2 * length b)%nat.
Proof. induction b as [|x b IH]; [done|]. cbn [buffer_to_hex String.length length]. lia. Qed.

(** ** Comparison of buffers *)

Fixpoint buffer_eqb (a b : list byte) : bool :=
  match a, b with
  | [], [] => true
  | x :: a, y :: b => Byte.eqb x y && buffer_eqb a b
  | _, _ => false
  end.

Lemma buffer_eqb_eq a b : buffer_eqb a b = true ↔ a = b.
Proof.
  revert b. induction a as [|x a IH]; intros [|y b]; cbn; try done.
  rewrite andb_true_iff, IH. split.
  - intros [Hx ->]. apply Byte.byte_dec_bl in Hx as ->. done.
  - intros [= -> ->]. split; [by apply Byte.byte_dec_lb|done].
Qed.

(** [crypto.timingSafeEqual] throws on buffers of different lengths. *)
Inductive timing_error := InputBuffersDiffer.

Definition timingSafeEqual (a b : list byte) : result timing_error bool :=
  if (length a =? length b)%nat then Ok (buffer_eqb a b) else Err InputBuffersDiffer.

Lemma timingSafeEqual_refl a : timingSafeEqual a a = Ok true.
Proof. unfold timingSafeEqual. rewrite Nat.eqb_refl. f_equal. by apply buffer_eqb_eq. Qed.

Lemma timingSafeEqual_true a b : timingSafeEqual a b = Ok true → a = b.
Proof. unfold timingSafeEqual. case_if; [|done]. intros [= H]. by apply buffer_eqb_eq. Qed.

(** Decoding a lowercase hexadecimal string of even length loses nothing. *)
Lemma hex_digit_val c :
  is_lower_hex_char c = true → ∃ n, hex_val c = Some n ∧ (n < 16)%nat ∧ hex_digit n = c.
Proof.
  unfold is_lower_hex_char, hex_val. intros Hc.
  destruct (in_range 48 57 c) eqn:E1; [|destruct (in_range 97 102 c) eqn:E2; [|discriminate]].
  - exists (nat_of_ascii c - 48)%nat. unfold in_range, code in E1. apply andb_true_iff in E1 as [? ?].
    split_and!; [done|lia|]. unfold hex_digit. assert ((nat_of_ascii c - 48 <? 10)%nat = true) as ->
      by (apply Nat.ltb_lt; lia).
    rewrite <- (ascii_nat_embedding c) at 2. f_equal. lia.
  - exists (nat_of_ascii c - 87)%nat. unfold in_range, code in E2. apply andb_true_iff in E2 as [? ?].
    split_and!; [done|lia|]. unfold hex_digit. assert ((nat_of_ascii c - 87 <? 10)%nat = false) as ->
      by (apply Nat.ltb_ge; lia).
    rewrite <- (ascii_nat_embedding c) at 2. f_equal. lia.
Qed.

Lemma buffer_to_from_hex n s :
  String.length s = (2 * n)%nat → string_forallb is_lower_hex_char s = true →
  buffer_to_hex (buffer_from_hex s) = s.
Proof.
  revert s. induction n as [|n IH]; intros s Hl Hf; [by destruct s|].
  destruct s as [|c [|d s]]; cbn [String.length] in Hl; try lia.
  cbn [string_forallb] in Hf. apply andb_true_iff in Hf as [Hc Hf]. apply andb_true_iff in Hf as [Hd Hf].
  destruct (hex_digit_val c Hc) as (h & Eh & Hh & Dh). destruct (hex_digit_val d Hd) as (l & El & Hl' & Dl).
  cbn [buffer_from_hex]. rewrite Eh, El.
  destruct (Byte.of_nat (16 * h + l)) as [x|] eqn:Ex.
  - apply Byte.to_of_nat in Ex. cbn [buffer_to_hex]. rewrite Ex.
    replace ((16 * h + l) / 16)%nat with h by (apply (Nat.div_unique _ 16 h l); lia).
    replace ((16 * h + l) mod 16)%nat with l by (apply (Nat.mod_unique _ 16 h l); lia).
    rewrite Dh, Dl, IH by (done || lia). done.
  - apply Byte.of_nat_None_iff in Ex. lia.
Qed.

Lemma digest_buffer_inj a b :
  is_digest_hex a = true → is_digest_hex b = true → buffer_from_hex a = buffer_from_hex b → a = b.
Proof.
  unfold is_digest_hex. intros [Ha Hfa]%andb_true_iff [Hb Hfb]%andb_true_iff H.
  apply Nat.eqb_eq in Ha, Hb.
  by rewrite <- (buffer_to_from_hex 32 a), <- (buffer_to_from_hex 32 b), H.
Qed.

Lemma hex_digit_lower n : (n < 16)%nat → is_lower_hex_char (hex_digit n) = true.
Proof. intros H. do 16 (destruct n as [|n]; [done|]). lia. Qed.

Lemma buffer_to_hex_lower b : string_forallb is_lower_hex_char (buffer_to_hex b) = true.
Proof.
  induction b as [|x b IH]; [done|]. cbn [buffer_to_hex string_forallb]. rewrite IH.
  pose proof (Byte.to_nat_bounded x) as Hb.
  rewrite !hex_digit_lower; [done|apply Nat.mod_upper_bound; lia|apply Nat.Div0.div_lt_upper_bound; lia].
Qed.

(** ** A concrete digest for the examples: a small polynomial checksum,
    padded with zeros to the 64 characters of a SHA-256 digest. *)

Fixpoint checksum (acc : Z) (s : string) : Z :=
  match s with
  | EmptyString => acc
  | String c r => checksum (Z.land (acc * 33 + code c) 16777215) r
  end.

Fixpoint hex_digits (n : nat) (z : Z) : string :=
  match n with
  | O => EmptyString
  | S m => String (hex_digit (Z.to_nat (Z.land (Z.shiftr z (4 * Z.of_nat m)) 15))) (hex_digits m z)
  end.

Fixpoint zeros (n : nat) (s : string) : string :=
  match n with O => s | S m => String "0" (zeros m s) end.

Definition toy_hash (s : string) : string := zeros 58 (hex_digits 6 (checksum 5381 s)).

Lemma hex_digits_hex n z :
  String.length (hex_digits n z) = n ∧ string_forallb is_lower_hex_char (hex_digits n z) = true.
Proof.
  induction n as [|m [IHl IHf]]; cbn [hex_digits String.length string_forallb]; [done|].
  split; [by rewrite IHl|]. rewrite IHf, hex_digit_lower; [done|].
  change 15 with (Z.ones 4). rewrite Z.land_ones by lia.
  pose proof (Z.mod_pos_bound (Z.shiftr z (4 * Z.of_nat m)) 16). change (2 ^ 4) with 16. lia.
Qed.

Lemma zeros_hex n s :
  String.length (zeros n s) = (n + String.length s)%nat ∧
  string_forallb is_lower_hex_char (zeros n s) = string_forallb is_lower_hex_char s.
Proof. induction n as [|n [IHl IHf]]; [done|]. cbn. by rewrite IHl, IHf. Qed.

#[export] Instance toy_hash_digest : HexDigest toy_hash.
Proof.
  intros s. unfold is_digest_hex, toy_hash.
  destruct (hex_digits_hex 6 (checksum 5381 s)) as [Hl Hf].
  destruct (zeros_hex 58 (hex_digits 6 (checksum 5381 s))) as [-> ->]. by rewrite Hl, Hf.
Qed.
