(* ===== verification/JsString.v ===== *)
(** * String operations of the JavaScript runtime, on ASCII text.

    [trim], [split], prefix tests, case conversion and the matching of the
    character-class repetitions ([\s+], [\d+]) the program's regular
    expressions use. *)

From S2P Require Import Prelude Numeric Hashing.
#[local] Open Scope Z_scope.

(** ** Trimming *)

Fixpoint trim_end (s : string) : string :=
  match s with
  | EmptyString => EmptyString
  | String c r =>
      match trim_end r with
      | EmptyString => if is_space c then EmptyString else String c EmptyString
      | r' => String c r'
      end
  end.

Definition trim (s : string) : string := trim_end (trim_start s).

Definition is_empty (s : string) : bool :=
  match s with EmptyString => true | _ => false end.

(** ** Greedy repetition of a character class: the longest prefix, and the
    rest. *)
Fixpoint span (p : ascii → bool) (s : string) : string * string :=
  match s with
  | String c r => if p c then let '(a, b) := span p r in (String c a, b) else (EmptyString, s)
  | EmptyString => (EmptyString, EmptyString)
  end.

Definition is_digit (c : ascii) : bool := in_range 48 57 c.

(** ** Prefixes *)

Fixpoint strip_prefix (p s : string) : option string :=
  match p, s with
  | EmptyString, _ => Some s
  | String c p, String d s => if Ascii.eqb c d then strip_prefix p s else None
  | String _ _, EmptyString => None
  end.

(** [s.includes(sub)] *)
Fixpoint contains (sub s : string) : bool :=
  match strip_prefix sub s with
  | Some _ => true
  | None => match s with EmptyString => false | String _ r => contains sub r end
  end.

(** Comparison without case, as a regular expression with the [i] flag. *)
Fixpoint strip_prefix_ci (p s : string) : option string :=
  match p, s with
  | EmptyString, _ => Some s
  | String c p, String d s =>
      if Ascii.eqb (lower_char c) (lower_char d) then strip_prefix_ci p s else None
  | String _ _, EmptyString => None
  end.

(** ** [s.split(sep)] for a one-character separator *)
Fixpoint split_on (sep : ascii) (s : string) : list string :=
  match s with
  | EmptyString => [EmptyString]
  | String c r =>
      if Ascii.eqb c sep then EmptyString :: split_on sep r
      else match split_on sep r with
           | w :: ws => String c w :: ws
           | [] => [String c EmptyString]
           end
  end.

(** [arr.join(sep)]. *)
Fixpoint join (sep : string) (l : list string) : string :=
  match l with
  | [] => EmptyString
  | [w] => w
  | w :: ws => w +:+ sep +:+ join sep ws
  end.

(** ** Decimal printing: [n.toString()] *)

Fixpoint decimal_aux (fuel : nat) (n : Z) (acc : string) : string :=
  match fuel with
  | O => acc
  | S f =>
      let acc := String (ascii_of_nat (Z.to_nat (48 + n mod 10))) acc in
      if n / 10 =? 0 then acc else decimal_aux f (n / 10) acc
  end.

(** Twenty digits hold every integer of the program's range. *)
Definition show_Z (n : Z) : string :=
  if n <? 0 then String "-" (decimal_aux 20 (- n) EmptyString) else decimal_aux 20 n EmptyString.

Example show_some : show_Z 1704067200000 = "1704067200000" ∧ show_Z 0 = "0" ∧ show_Z (-5) = "-5".
Proof. done. Qed.

(** [String(n).padStart(2, "0")] *)
Definition pad2 (s : string) : string :=
  match s with
  | EmptyString => "00"
  | String c EmptyString => String "0" (String c EmptyString)
  | _ => s
  end.

(** ** Lemmas *)

Lemma string_app_nil_r (s : string) : s +:+ EmptyString = s.
Proof. induction s as [|c s IH]; [done|]. exact (f_equal (String c) IH). Qed.

Lemma string_app_assoc (a b c : string) : a +:+ (b +:+ c) = (a +:+ b) +:+ c.
Proof. induction a as [|x a IH]; [done|]. exact (f_equal (String x) IH). Qed.

Lemma string_cons_app x (a b : string) : String x a +:+ b = String x (a +:+ b).
Proof. done. Qed.

(** The span of [a ++ b] when [a] is all of the class and [b] does not start
    with it. *)
Definition stops (p : ascii → bool) (b : string) : bool :=
  match b with String c _ => negb (p c) | EmptyString => true end.

Lemma span_app p (a b : string) :
  string_forallb p a = true → stops p b = true → span p (a +:+ b) = (a, b).
Proof.
  intros Ha Hb. induction a as [|c a IH].
  - change (EmptyString +:+ b) with b. destruct b as [|d b]; [done|]. cbn in *.
    by destruct (p d).
  - cbn in Ha. apply andb_true_iff in Ha as [Hc Ha]. rewrite string_cons_app. cbn.
    by rewrite Hc, IH.
Qed.

Lemma trim_end_keeps (s : string) (c : ascii) :
  is_space c = false → trim_end (s +:+ String c EmptyString) = s +:+ String c EmptyString.
Proof.
  intros Hc. induction s as [|d s IH].
  - change (EmptyString +:+ String c EmptyString) with (String c EmptyString). cbn. by rewrite Hc.
  - rewrite string_cons_app. cbn [trim_end]. rewrite IH. by destruct s.
Qed.

Lemma trim_start_keeps c (s : string) : is_space c = false → trim_start (String c s) = String c s.
Proof. intros H. cbn. by rewrite H. Qed.

Lemma digit_not_space c : is_digit c = true → is_space c = false.
Proof.
  unfold is_digit, in_range, is_space, code. intros H. apply andb_true_iff in H as [H1 H2].
  apply orb_false_iff. split; [apply andb_false_iff; right; lia|lia].
Qed.
#[export] Hint Resolve digit_not_space : js_core.

(** Cutting at the first separator is unambiguous. *)
Lemma sep_split (p : ascii → bool) c (a a' b b' : string) :
  p c = false → string_forallb p a = true → string_forallb p a' = true →
  a +:+ String c b = a' +:+ String c b' → a = a' ∧ b = b'.
Proof.
  intros Hc. revert a'. induction a as [|x a IH]; intros [|x' a'] Ha Ha' He;
    rewrite ?string_cons_app in He; cbn [string_forallb] in *.
  - by injection He as He.
  - injection He as <- _. apply andb_true_iff in Ha' as [H _]. congruence.
  - injection He as -> _. apply andb_true_iff in Ha as [H _]. congruence.
  - injection He as -> He. apply andb_true_iff in Ha as [_ Ha]. apply andb_true_iff in Ha' as [_ Ha'].
    destruct (IH a' Ha Ha' He) as [-> ->]. done.
Qed.

Definition lacks (c : ascii) (s : string) : bool := string_forallb (λ d, negb (Ascii.eqb d c)) s.

(** Joining pieces that lack the separator loses nothing. *)
Lemma join_inj c (l l' : list string) :
  length l = length l' → Forall (λ s, lacks c s = true) l → Forall (λ s, lacks c s = true) l' →
  join (String c EmptyString) l = join (String c EmptyString) l' → l = l'.
Proof.
  revert l'. induction l as [|w l IH]; intros [|w' l'] Hlen Hl Hl' He; try discriminate; [done|].
  apply Forall_cons in Hl as [Hw Hl]. apply Forall_cons in Hl' as [Hw' Hl'].
  destruct l as [|v l], l' as [|v' l']; try discriminate; [by cbn in He; subst|].
  change (w +:+ String c (join (String c EmptyString) (v :: l)) =
          w' +:+ String c (join (String c EmptyString) (v' :: l'))) in He.
  apply (sep_split (λ d, negb (Ascii.eqb d c))) in He as [-> He]; [|by rewrite Ascii.eqb_refl|done|done].
  f_equal. apply IH; [cbn in Hlen |- *; lia|done..].
Qed.

(** *** Printing and parsing decimals *)

Lemma decimal_aux_app f : ∀ n (acc rest : string), decimal_aux f n acc +:+ rest = decimal_aux f n (acc +:+ rest).
Proof.
  induction f as [|f IH]; intros n acc rest; [done|]. cbn [decimal_aux]. case_if; [done|]. by rewrite IH.
Qed.

Lemma digit_val_of d : 0 ≤ d < 10 → digit_val (ascii_of_nat (Z.to_nat (48 + d))) = Some d.
Proof.
  intros H. assert (∃ k : nat, d = Z.of_nat k ∧ (k < 10)%nat) as (k & -> & Hk) by (exists (Z.to_nat d); lia).
  do 10 (destruct k as [|k]; [done|]). lia.
Qed.

(** Reading back what [decimal_aux] wrote. *)
Lemma digits_decimal f : ∀ n acc a, 0 ≤ n < 10 ^ Z.of_nat f → (0 < f)%nat →
  ∃ k, digits_prefix a (decimal_aux f n acc) = digits_prefix (Some (default 0 a * k + n)) acc.
Proof.
  induction f as [|f IH]; intros n acc a Hn Hf; [lia|]. cbn [decimal_aux].
  assert (Hd : ∀ b, digits_prefix b (String (ascii_of_nat (Z.to_nat (48 + n mod 10))) acc) =
                    digits_prefix (Some (10 * default 0 b + n mod 10)) acc).
  { intros b. cbn [digits_prefix]. rewrite digit_val_of by (apply Z.mod_pos_bound; lia). done. }
  rewrite Nat2Z.inj_succ, Z.pow_succ_r in Hn by lia. pose proof (Z_div_mod_eq_full n 10).
  pose proof (Z.mod_pos_bound n 10 ltac:(lia)). destruct (Z.eqb_spec (n / 10) 0) as [Hz|Hz].
  - exists 10. rewrite Hd. do 2 f_equal. lia.
  - destruct (IH (n / 10) (String (ascii_of_nat (Z.to_nat (48 + n mod 10))) acc) a) as [k Hk].
    + split; [apply Z.div_pos; lia|apply Z.div_lt_upper_bound; lia].
    + destruct f; [|lia]. cbn in Hn. assert (n / 10 = 0) by (apply Z.div_small; lia). lia.
    + exists (10 * k). rewrite Hk, Hd. cbn [default from_option]. unfold id. do 2 f_equal. lia.
Qed.

Lemma decimal_head f n acc : (0 < f)%nat → ∃ d r, 0 ≤ d < 10 ∧ decimal_aux f n acc = String (ascii_of_nat (Z.to_nat (48 + d))) r.
Proof.
  revert n acc. induction f as [|f IH]; intros n acc Hf; [lia|]. cbn [decimal_aux].
  pose proof (Z.mod_pos_bound n 10 ltac:(lia)). case_if; [by exists (n mod 10), acc|]. destruct f as [|f].
  - by exists (n mod 10), acc.
  - apply IH. lia.
Qed.

(** [parseInt] reads a printed number back, whatever follows it that is not a
    digit. *)
Lemma parse_show n (rest : string) :
  0 ≤ n < 10 ^ 20 → stops (λ c, match digit_val c with Some _ => true | None => false end) rest = true →
  parse_int (show_Z n +:+ rest) = Some n.
Proof.
  intros Hn Hr. unfold show_Z. rewrite (proj2 (Z.ltb_ge n 0)) by lia. rewrite decimal_aux_app.
  change (EmptyString +:+ rest) with rest.
  destruct (decimal_head 20 n rest ltac:(lia)) as (d & r & Hd & Hh).
  assert (parse_int (decimal_aux 20 n rest) = digits_prefix None (decimal_aux 20 n rest)) as ->.
  { rewrite Hh. assert (∃ k : nat, d = Z.of_nat k ∧ (k < 10)%nat) as (k & -> & Hk) by (exists (Z.to_nat d); lia).
    do 10 (destruct k as [|k]; [done|]). lia. }
  destruct (digits_decimal 20 n rest None ltac:(lia) ltac:(lia)) as [k ->].
  change (default 0 None * k + n) with (0 * k + n). rewrite Z.mul_0_l, Z.add_0_l.
  destruct rest as [|c rest]; [done|]. cbn in Hr |- *. by destruct (digit_val c).
Qed.

(** ** Characters of a string *)
Lemma string_forallb_app p (a b : string) : string_forallb p (a +:+ b) = string_forallb p a && string_forallb p b.
Proof. induction a as [|c a IH]; [done|]. rewrite string_cons_app. cbn. by rewrite IH, andb_assoc. Qed.

Lemma string_forallb_impl (p q : ascii → bool) s :
  (∀ c, p c = true → q c = true) → string_forallb p s = true → string_forallb q s = true.
Proof.
  intros Hpq. induction s as [|c s IH]; [done|]. cbn. intros [Hc Hs]%andb_true_iff. by rewrite (Hpq c Hc), IH.
Qed.

(** Strings without an upper-case letter. *)
Lemma lower_char_idem c : lower_char (lower_char c) = lower_char c.
Proof. by destruct c as [[] [] [] [] [] [] [] []]. Qed.

Definition is_lowered (c : ascii) : bool := Ascii.eqb (lower_char c) c.

Lemma to_lower_lowered s : string_forallb is_lowered (to_lower s) = true.
Proof.
  induction s as [|c s IH]; [done|]. unfold to_lower in *. cbn. rewrite IH. unfold is_lowered.
  by rewrite lower_char_idem, Ascii.eqb_refl.
Qed.

Lemma lowered_fixed s : string_forallb is_lowered s = true → to_lower s = s.
Proof.
  induction s as [|c s IH]; [done|]. cbn. intros [Hc Hs]%andb_true_iff. unfold to_lower in *. cbn.
  apply Ascii.eqb_eq in Hc. by rewrite Hc, IH.
Qed.

(** Nothing to trim in a text without white space. *)
Lemma trim_fixed s : string_forallb (λ c, negb (is_space c)) s = true → trim s = s.
Proof.
  intros H. unfold trim. assert (trim_start s = s) as ->.
  { destruct s as [|c s]; [done|]. cbn in H |- *. by destruct (is_space c). }
  induction s as [|c s IH]; [done|]. cbn in H |- *. apply andb_true_iff in H as [Hc Hs]. rewrite (IH Hs).
  destruct s; [|done]. by destruct (is_space c).
Qed.

(** ** Suffixes: [endsWith] *)

(** [s] without a suffix it ends with. *)
Definition strip_suffix (suffix s : string) : option string :=
  let n := (String.length s - String.length suffix)%nat in
  if String.eqb (String.substring n (String.length suffix) s) suffix && (String.length suffix <=? String.length s)%nat
  then Some (String.substring 0 n s) else None.

Lemma substring_all (s : string) : String.substring 0 (String.length s) s = s.
Proof. induction s as [|c s IH]; [done|]. cbn. by rewrite IH. Qed.

Lemma substring_split n (s : string) :
  (n ≤ String.length s)%nat → String.substring 0 n s +:+ String.substring n (String.length s - n) s = s.
Proof.
  revert s. induction n as [|n IH]; intros s Hn.
  - rewrite Nat.sub_0_r, substring_all. by destruct s.
  - destruct s as [|c s]; cbn in Hn; [lia|]. cbn [String.substring String.length Nat.sub].
    rewrite string_cons_app. f_equal. apply IH. lia.
Qed.

Lemma strip_suffix_app suffix s p : strip_suffix suffix s = Some p → s = p +:+ suffix.
Proof.
  unfold strip_suffix. case_if; [|done]. intros [= <-]. apply andb_true_iff in Heqb as [He%String.eqb_eq Hl%Nat.leb_le].
  set (n := (String.length s - String.length suffix)%nat) in *.
  assert (n ≤ String.length s)%nat as Hn by lia. pose proof (substring_split n s Hn) as Hs.
  replace (String.length s - n)%nat with (String.length suffix) in Hs by lia. by rewrite He in Hs.
Qed.
