(* ===== verification/Words.v ===== *)
(** * Splitting and joining text: [trim], [split(/\s+/)], [split(sep)] and
    [join], and when they undo each other. *)

From S2P Require Import Prelude Numeric Hashing JsString.

(** [s.split(/\s+/)]: a run of white space is one separator. *)
Fixpoint split_spaces (s : string) : list string :=
  match s with
  | EmptyString => [EmptyString]
  | String c r =>
      let pieces := split_spaces r in
      if is_space c then
        match r with
        | String d _ => if is_space d then pieces else EmptyString :: pieces
        | EmptyString => EmptyString :: pieces
        end
      else match pieces with p :: ps => String c p :: ps | [] => [String c EmptyString] end
  end.

Example split_runs : split_spaces " a  b" = [EmptyString; "a"; "b"] ∧ split_spaces "  " = [EmptyString; EmptyString].
Proof. done. Qed.

(** [.filter((part) => part.length > 0)] *)
Definition nonempty (s : string) : bool := negb (is_empty s).
Definition words (s : string) : list string := List.filter nonempty (split_spaces s).

Definition unspaced (s : string) : bool := string_forallb (λ c, negb (is_space c)) s.
Definition is_word (s : string) : bool := nonempty s && unspaced s.

(** ** Pieces *)

Lemma split_spaces_cons s : ∃ p ps, split_spaces s = p :: ps.
Proof.
  induction s as [|c s (p & ps & IH)]; [by exists EmptyString, []|]. cbn. rewrite IH.
  destruct (is_space c); [|by eexists _, _]. destruct s as [|d s]; [by eexists _, _|]. destruct (is_space d); by eexists _, _.
Qed.

Lemma split_spaces_unspaced s : Forall (λ w, unspaced w = true) (split_spaces s).
Proof.
  induction s as [|c s IH]; [by repeat constructor|]. cbn. destruct (is_space c) eqn:Hc.
  - destruct s as [|d s]; [by repeat constructor|]. destruct (is_space d); [done|by constructor].
  - destruct (split_spaces_cons s) as (p & ps & Hs). rewrite Hs in *. apply Forall_cons in IH as [Hp IH].
    constructor; [|done]. unfold unspaced in *. cbn. by rewrite Hc, Hp.
Qed.

Lemma words_are_words s : Forall (λ w, is_word w = true) (words s).
Proof.
  apply List.Forall_forall. intros w [Hw Hn]%filter_In. pose proof (split_spaces_unspaced s) as Hu.
  rewrite List.Forall_forall in Hu. unfold is_word. by rewrite Hn, (Hu w Hw).
Qed.

Lemma split_one w : unspaced w = true → split_spaces w = [w].
Proof.
  induction w as [|c w IH]; [done|]. unfold unspaced in *. cbn. intros [Hc%negb_true_iff Hw]%andb_true_iff. by rewrite Hc, IH.
Qed.

Lemma split_word w r : unspaced w = true → stops is_space r = true → split_spaces (w +:+ String " " r) = w :: split_spaces r.
Proof.
  intros Hw Hr. induction w as [|c w IH].
  - change (EmptyString +:+ String " " r) with (String " " r). destruct r as [|d r]; [done|]. cbn in Hr. apply negb_true_iff in Hr.
    cbn [split_spaces]. by rewrite Hr.
  - unfold unspaced in *. cbn in Hw. apply andb_true_iff in Hw as [Hc%negb_true_iff Hw]. rewrite string_cons_app. cbn [split_spaces].
    by rewrite Hc, (IH Hw).
Qed.

Lemma word_stops w r : is_word w = true → stops is_space (w +:+ r) = true.
Proof. destruct w as [|c w]; [done|]. rewrite string_cons_app. unfold is_word, unspaced. cbn. intros [Hc _]%andb_true_iff. by destruct (is_space c). Qed.

Lemma join_stops l : Forall (λ w, is_word w = true) l → stops is_space (join " " l) = true.
Proof.
  destruct 1 as [|w [|v l] Hw _]; [done| |].
  - cbn. rewrite <- (string_app_nil_r w). by apply word_stops.
  - change (stops is_space (w +:+ " " +:+ join " " (v :: l)) = true). by apply word_stops.
Qed.

(** Words joined by one space are split back. *)
Lemma words_join l : Forall (λ w, is_word w = true) l → words (join " " l) = l.
Proof.
  intros Hl. unfold words. assert (l = [] ∨ split_spaces (join " " l) = l) as [->|H].
  { induction Hl as [|w l Hw Hl IH]; [by left|right]. pose proof Hw as [_ Hu]%andb_true_iff. destruct l as [|v l]; [by apply split_one|].
    change (split_spaces (w +:+ String " " (join " " (v :: l))) = w :: v :: l).
    rewrite split_word by (done || by apply join_stops). destruct IH as [IH|IH]; [discriminate|by rewrite IH]. }
  - done.
  - rewrite H. clear H. induction Hl as [|w l [Hw _]%andb_true_iff _ IH]; [done|]. cbn. by rewrite Hw, IH.
Qed.

(** A text has no word only when it is all white space. *)
Lemma words_nil s : words s = [] → trim_end s = EmptyString.
Proof.
  induction s as [|c s IH]; [done|]. unfold words in *. cbn [split_spaces trim_end]. destruct (split_spaces_cons s) as (p & ps & Hs).
  rewrite Hs in *. destruct (is_space c).
  - intros H. rewrite IH; [done|]. destruct s as [|d s]; [done|]. by destruct (is_space d).
  - done.
Qed.

(** ** Trimming *)

Lemma trim_start_stops s : stops is_space (trim_start s) = true.
Proof. induction s as [|c s IH]; [done|]. cbn. destruct (is_space c) eqn:Hc; [done|]. cbn. by rewrite Hc. Qed.

Lemma trim_start_fixed s : stops is_space s = true → trim_start s = s.
Proof. destruct s as [|c s]; [done|]. cbn. by destruct (is_space c). Qed.

Lemma trim_end_idem s : trim_end (trim_end s) = trim_end s.
Proof.
  induction s as [|c s IH]; [done|]. cbn. destruct (trim_end s) as [|d r] eqn:E.
  - destruct (is_space c) eqn:Hc; [done|]. cbn. by rewrite Hc.
  - change (match trim_end (String d r) with EmptyString => if is_space c then EmptyString else String c EmptyString
            | String _ _ as r' => String c r' end = String c (String d r)). by rewrite IH.
Qed.

Lemma trim_end_stops s : stops is_space s = true → stops is_space (trim_end s) = true.
Proof.
  destruct s as [|c s]; [done|]. cbn. destruct (is_space c) eqn:Hc; [done|]. intros _. destruct (trim_end s); cbn; by rewrite Hc.
Qed.

Lemma trim_stops s : stops is_space (trim s) = true.
Proof. apply trim_end_stops, trim_start_stops. Qed.

Lemma trim_idem s : trim (trim s) = trim s.
Proof. unfold trim at 1. rewrite (trim_start_fixed (trim s)) by apply trim_stops. apply trim_end_idem. Qed.

(** What a trimmed text ends with is trimmed at its end. *)
Lemma trim_end_suffix a b : trim_end (a +:+ b) = a +:+ b → trim_end b = b.
Proof.
  induction a as [|c a IH]; [done|]. rewrite !string_cons_app. cbn. intros H. apply IH.
  destruct (trim_end (a +:+ b)) as [|d r] eqn:E; [|by injection H].
  destruct (is_space c); [done|]. injection H as H. by rewrite <- H in *.
Qed.

Lemma trim_end_app a b : nonempty b = true → trim_end b = b → trim_end (a +:+ b) = a +:+ b.
Proof.
  intros Hb He. induction a as [|c a IH]; [done|]. rewrite string_cons_app. cbn. rewrite IH. by destruct a, b.
Qed.

Lemma word_trim_end w : is_word w = true → trim_end w = w.
Proof.
  induction w as [|c w IH]; [done|]. unfold is_word, unspaced. cbn. intros [Hc%negb_true_iff Hw]%andb_true_iff. destruct w as [|d w]; [cbn; by rewrite Hc|].
  rewrite IH; [done|]. unfold is_word, unspaced. cbn in *. by rewrite Hw.
Qed.

(** Joining trimmed pieces. *)
Lemma join_app sep l w : l ≠ [] → join sep (l ++ [w]) = join sep l +:+ sep +:+ w.
Proof.
  induction l as [|v l IH]; [done|]. intros _. destruct l as [|u l]; [done|].
  change (v +:+ sep +:+ join sep ((u :: l) ++ [w]) = (v +:+ sep +:+ join sep (u :: l)) +:+ sep +:+ w).
  rewrite IH by done. by rewrite !string_app_assoc.
Qed.

Lemma join_trim_end sep l w : nonempty w = true → trim_end w = w → trim_end (join sep (l ++ [w])) = join sep (l ++ [w]).
Proof.
  intros Hn Hw. destruct l as [|v l]; [done|]. rewrite join_app, string_app_assoc by done. by apply trim_end_app.
Qed.

Lemma join_words_trim l : Forall (λ w, is_word w = true) l → trim (join " " l) = join " " l.
Proof.
  intros Hl. unfold trim. rewrite trim_start_fixed by by apply join_stops.
  destruct l as [|w l _] using rev_ind; [done|]. apply Forall_app in Hl as [_ Hw]. apply Forall_cons in Hw as [Hw _].
  apply join_trim_end; [by apply andb_true_iff in Hw as [? _]|by apply word_trim_end].
Qed.

(** ** Splitting at a character *)

Lemma split_on_cons c s : ∃ p ps, split_on c s = p :: ps.
Proof.
  induction s as [|d s (p & ps & IH)]; [by exists EmptyString, []|]. cbn. rewrite IH. destruct (Ascii.eqb d c); by eexists _, _.
Qed.

Lemma split_on_lacks c s : Forall (λ w, lacks c w = true) (split_on c s).
Proof.
  induction s as [|d s IH]; [by repeat constructor|]. cbn. destruct (Ascii.eqb d c) eqn:Hd; [by constructor|].
  destruct (split_on_cons c s) as (p & ps & Hs). rewrite Hs in *. apply Forall_cons in IH as [Hp IH]. constructor; [|done].
  unfold lacks in *. cbn. by rewrite Hd, Hp.
Qed.

Lemma join_split_on c s : join (String c EmptyString) (split_on c s) = s.
Proof.
  induction s as [|d s IH]; [done|]. cbn. destruct (split_on_cons c s) as (p & ps & Hs). rewrite Hs in *.
  destruct (Ascii.eqb d c) eqn:Hd.
  - apply Ascii.eqb_eq in Hd as ->. change (EmptyString +:+ String c EmptyString +:+ join (String c EmptyString) (p :: ps) = String c s).
    by rewrite IH.
  - destruct ps as [|q ps]; [cbn in *; by rewrite IH|].
    change (String d p +:+ String c EmptyString +:+ join (String c EmptyString) (q :: ps) = String d s). rewrite string_cons_app. f_equal. exact IH.
Qed.

Lemma split_on_app c w r : lacks c w = true → split_on c (w +:+ String c r) = w :: split_on c r.
Proof.
  induction w as [|d w IH]; intros Hw.
  - change (EmptyString +:+ String c r) with (String c r). cbn. by rewrite Ascii.eqb_refl.
  - unfold lacks in *. cbn in Hw. apply andb_true_iff in Hw as [Hd%negb_true_iff Hw]. rewrite string_cons_app. cbn. by rewrite Hd, (IH Hw).
Qed.

Lemma split_on_one c w : lacks c w = true → split_on c w = [w].
Proof.
  induction w as [|d w IH]; [done|]. unfold lacks in *. cbn. intros [Hd%negb_true_iff Hw]%andb_true_iff. by rewrite Hd, IH.
Qed.

(** Pieces that lack the separator are split back. *)
Lemma split_on_join c l : l ≠ [] → Forall (λ w, lacks c w = true) l → split_on c (join (String c EmptyString) l) = l.
Proof.
  intros Hn Hl. induction Hl as [|w l Hw Hl IH]; [done|]. destruct l as [|v l]; [by apply split_on_one|].
  change (split_on c (w +:+ String c (join (String c EmptyString) (v :: l))) = w :: v :: l). rewrite split_on_app by done. by rewrite IH.
Qed.

Lemma lacks_app c a b : lacks c (a +:+ b) = lacks c a && lacks c b.
Proof. apply string_forallb_app. Qed.

(** ** Characters and lengths *)

Lemma string_length_app (a b : string) : String.length (a +:+ b) = (String.length a + String.length b)%nat.
Proof. induction a as [|c a IH]; [done|]. rewrite string_cons_app. cbn. by rewrite IH. Qed.

Lemma trim_start_forallb p s : string_forallb p s = true → string_forallb p (trim_start s) = true.
Proof.
  induction s as [|d s IH]; [done|]. intros H. cbn [trim_start]. destruct (is_space d); [|exact H]. cbn in H. apply andb_true_iff in H as [_ H]. auto.
Qed.

Lemma trim_end_forallb p s : string_forallb p s = true → string_forallb p (trim_end s) = true.
Proof.
  induction s as [|d s IH]; [done|]. cbn. intros [Hd Hs]%andb_true_iff. specialize (IH Hs).
  destruct (trim_end s); [destruct (is_space d); [done|]; cbn; by rewrite Hd|]. cbn in *. by rewrite Hd, IH.
Qed.

Lemma trim_forallb p s : string_forallb p s = true → string_forallb p (trim s) = true.
Proof. intros H. by apply trim_end_forallb, trim_start_forallb. Qed.

Lemma trim_length s : (String.length (trim s) ≤ String.length s)%nat.
Proof.
  unfold trim. assert (∀ s, (String.length (trim_start s) ≤ String.length s)%nat) as Hs.
  { clear s. induction s as [|c s IH]; [done|]. cbn. destruct (is_space c); cbn; lia. }
  assert (∀ s, (String.length (trim_end s) ≤ String.length s)%nat) as He.
  { clear s. induction s as [|c s IH]; [done|]. cbn. destruct (trim_end s); [destruct (is_space c)|]; cbn in *; lia. }
  etransitivity; [apply He|apply Hs].
Qed.

Lemma split_spaces_forallb p s : string_forallb p s = true → Forall (λ w, string_forallb p w = true) (split_spaces s).
Proof.
  induction s as [|c s IH]; [by repeat constructor|]. cbn. intros [Hc Hs]%andb_true_iff. specialize (IH Hs).
  destruct (split_spaces_cons s) as (q & qs & Hq). rewrite Hq in *. destruct (is_space c).
  - destruct s as [|d s]; [by constructor|]. destruct (is_space d); [done|by constructor].
  - apply Forall_cons in IH as [Hq' IH]. constructor; [|done]. cbn. by rewrite Hc, Hq'.
Qed.

Lemma words_forallb p s : string_forallb p s = true → Forall (λ w, string_forallb p w = true) (words s).
Proof.
  intros H%split_spaces_forallb. rewrite List.Forall_forall in H |- *. intros w [Hw _]%filter_In. auto.
Qed.

Lemma join_forallb p sep l : string_forallb p sep = true → Forall (λ w, string_forallb p w = true) l → string_forallb p (join sep l) = true.
Proof.
  intros Hsep. induction 1 as [|w l Hw Hl IH]; [done|]. destruct l as [|v l]; [done|].
  change (string_forallb p (w +:+ sep +:+ join sep (v :: l)) = true). by rewrite !string_forallb_app, Hw, Hsep, IH.
Qed.

Lemma split_on_forallb p c s : string_forallb p s = true → Forall (λ w, string_forallb p w = true) (split_on c s).
Proof.
  induction s as [|d s IH]; [by repeat constructor|]. cbn. intros [Hd Hs]%andb_true_iff. specialize (IH Hs).
  destruct (Ascii.eqb d c); [by constructor|]. destruct (split_on_cons c s) as (q & qs & Hq). rewrite Hq in *.
  apply Forall_cons in IH as [Hq' IH]. constructor; [|done]. cbn. by rewrite Hd, Hq'.
Qed.

(** ** One space between words *)

(** [s.split(/\s+/).filter(nonempty).join(' ')] *)
Definition single_spaced (s : string) : string := join " " (words s).

Lemma single_spaced_words s : words (single_spaced s) = words s.
Proof. apply words_join, words_are_words. Qed.

Lemma single_spaced_trim s : trim (single_spaced s) = single_spaced s.
Proof. apply join_words_trim, words_are_words. Qed.

Lemma single_spaced_nonempty s : trim_end s ≠ EmptyString → nonempty (single_spaced s) = true.
Proof.
  intros Hs. unfold single_spaced. pose proof (words_are_words s) as Hw. destruct (words s) as [|w l] eqn:E; [by apply words_nil in E|].
  apply Forall_cons in Hw as [[Hw _]%andb_true_iff _]. destruct w as [|c w]; [done|]. by destruct l.
Qed.

Lemma single_spaced_lacks c s : Ascii.eqb " " c = false → lacks c s = true → lacks c (single_spaced s) = true.
Proof. intros Hc Hs. apply join_forallb; [cbn [string_forallb]; by rewrite Hc|by apply words_forallb]. Qed.

(** ** A [Set] of texts, in the order of insertion *)

Definition set_add (l : list string) (t : string) : list string := if existsb (String.eqb t) l then l else l ++ [t].

Lemma set_adds l acc :
  NoDup acc → NoDup (fold_left set_add l acc) ∧ (∃ more, fold_left set_add l acc = acc ++ more) ∧
  ∀ t, t ∈ fold_left set_add l acc ↔ t ∈ acc ∨ t ∈ l.
Proof.
  revert acc. induction l as [|t l IH]; intros acc Hn; cbn.
  - split_and!; [done|exists []; by rewrite app_nil_r|]. intros t. rewrite elem_of_nil. tauto.
  - assert (existsb (String.eqb t) acc = true ↔ t ∈ acc) as Hin.
    { rewrite existsb_exists. setoid_rewrite String.eqb_eq. setoid_rewrite <- list_elem_of_In. split; [by intros (u & Hu & ->)|by exists t]. }
    unfold set_add at 2 4 6. destruct (existsb (String.eqb t) acc) eqn:E.
    + destruct (IH acc Hn) as (H1 & H2 & H3). split_and!; [done..|]. intros u. rewrite H3, elem_of_cons. intuition (subst; auto).
    + assert (t ∉ acc) as Hni by (rewrite <- Hin; congruence).
      destruct (IH (acc ++ [t])) as (H1 & [more H2] & H3); [apply NoDup_app; split_and!; [done|by intros u Hu ->%list_elem_of_singleton|apply NoDup_singleton]|].
      split_and!; [done|exists (t :: more); by rewrite H2, <- app_assoc|]. intros u. rewrite H3, elem_of_app, list_elem_of_singleton, elem_of_cons. tauto.
Qed.

Lemma set_adds_known l acc : Forall (λ t, t ∈ acc) l → fold_left set_add l acc = acc.
Proof.
  induction 1 as [|t l Ht _ IH]; [done|]. cbn. unfold set_add at 2. assert (existsb (String.eqb t) acc = true) as ->; [|done].
  apply existsb_exists. exists t. rewrite <- list_elem_of_In. by rewrite String.eqb_refl.
Qed.

Lemma set_adds_fresh l acc : NoDup (acc ++ l) → fold_left set_add l acc = acc ++ l.
Proof.
  revert acc. induction l as [|t l IH]; intros acc Hn; cbn; [by rewrite app_nil_r|]. unfold set_add at 2.
  assert (existsb (String.eqb t) acc = false) as ->.
  { apply not_true_iff_false. rewrite existsb_exists. intros (u & Hu & <-%String.eqb_eq). apply NoDup_app in Hn as (_ & Hd & _).
    apply (Hd t); [by apply list_elem_of_In|by left]. }
  rewrite IH; rewrite <- app_assoc; done.
Qed.

(** ** Texts of [JSON.stringify]: strings, arrays of strings and objects, and
    that they can be read back. *)
Module JsonText.
#[local] Open Scope Z_scope.

Definition quotation_mark : ascii := ascii_of_nat 34.
Definition backslash : ascii := ascii_of_nat 92.

Definition escape_char (c : ascii) : string :=
  let two d := String backslash (String d EmptyString) in
  if Ascii.eqb c quotation_mark || Ascii.eqb c backslash then two c
  else match nat_of_ascii c with
       | 8 => two "b" | 9 => two "t" | 10 => two "n" | 12 => two "f" | 13 => two "r"
       | n => if (n <? 32)%nat then String backslash ("u00" +:+ String (hex_digit (n / 16)) (String (hex_digit (n mod 16)) EmptyString))
              else String c EmptyString
       end%nat%char.

Fixpoint escape (s : string) : string :=
  match s with EmptyString => EmptyString | String c r => escape_char c +:+ escape r end.

Definition json_string (s : string) : string := String quotation_mark (escape s +:+ String quotation_mark EmptyString).
Definition json_array (l : list string) : string := "[" +:+ join "," l +:+ "]".
Definition json_member (kv : string * string) : string := json_string kv.1 +:+ ":" +:+ kv.2.
Definition json_object (fields : list (string * string)) : string := "{" +:+ join "," (map json_member fields) +:+ "}".

(** ** Reading *)

Definition unescape (c : ascii) : ascii :=
  if Ascii.eqb c "b" then ascii_of_nat 8 else if Ascii.eqb c "t" then ascii_of_nat 9 else if Ascii.eqb c "n" then ascii_of_nat 10
  else if Ascii.eqb c "f" then ascii_of_nat 12 else if Ascii.eqb c "r" then ascii_of_nat 13 else c.

Definition hex_value (c : ascii) : nat := let n := nat_of_ascii c in if (n <? 58)%nat then n - 48 else n - 87.

(** The text of a string up to its closing mark, and what follows. *)
Fixpoint read_chars (s : string) : option (string * string) :=
  match s with
  | EmptyString => None
  | String c r =>
      if Ascii.eqb c quotation_mark then Some (EmptyString, r)
      else if Ascii.eqb c backslash then
        match r with
        | String "u" (String _ (String _ (String h (String l r)))) =>
            prod_map (String (ascii_of_nat (16 * hex_value h + hex_value l))) id <$> read_chars r
        | String e r => prod_map (String (unescape e)) id <$> read_chars r
        | EmptyString => None
        end
      else prod_map (String c) id <$> read_chars r
  end.

Lemma read_escaped_char c r : read_chars (escape_char c +:+ r) = prod_map (String c) id <$> read_chars r.
Proof. destruct c as [[] [] [] [] [] [] [] []]; reflexivity. Qed.

Lemma read_escaped s r : read_chars (escape s +:+ String quotation_mark r) = Some (s, r).
Proof.
  induction s as [|c s IH]; [done|]. cbn [escape]. rewrite <- string_app_assoc, read_escaped_char, IH. done.
Qed.

(** The text of a string is delimited: what precedes the rest is known. *)
Lemma json_string_inj s s' r r' : json_string s +:+ r = json_string s' +:+ r' → s = s' ∧ r = r'.
Proof.
  unfold json_string. rewrite !string_cons_app, <- !string_app_assoc, !string_cons_app. intros [= H].
  apply (f_equal read_chars) in H. change (EmptyString +:+ r) with r in H. change (EmptyString +:+ r') with r' in H.
  rewrite !read_escaped in H. by injection H.
Qed.

Lemma json_string_nonempty s r : ∃ t, json_string s +:+ r = String quotation_mark t.
Proof. unfold json_string. rewrite string_cons_app. by eexists. Qed.

Lemma string_app_cancel (a b c : string) : a +:+ b = a +:+ c → b = c.
Proof. by intros [_ H]%string_app_inj. Qed.

Lemma json_strings_head s l r : ∃ t, join "," (map json_string (s :: l)) +:+ r = String quotation_mark t.
Proof. destruct l; cbn [map join]; rewrite <- ?string_app_assoc; apply json_string_nonempty. Qed.

Lemma json_strings_inj l l' r r' :
  join "," (map json_string l) +:+ String "]" r = join "," (map json_string l') +:+ String "]" r' → l = l' ∧ r = r'.
Proof.
  revert l'. induction l as [|s l IH]; intros [|s' l'] H.
  - by injection H as ->.
  - destruct (json_strings_head s' l' (String "]" r')) as [t Ht]. by rewrite Ht in H.
  - destruct (json_strings_head s l (String "]" r)) as [t Ht]. by rewrite Ht in H.
  - destruct l as [|t l], l' as [|t' l']; cbn [map join] in H; rewrite <- ?string_app_assoc in H; apply json_string_inj in H as [-> H].
    + by injection H as ->.
    + by rewrite !string_cons_app in H.
    + by rewrite !string_cons_app in H.
    + apply string_app_cancel in H. destruct (IH (t' :: l')) as [[= -> ->] ->]; [done|done].
Qed.
End JsonText.
