(* ===== verification/Regex.v ===== *)
(** * Anchored regular expressions: [pattern.test(s)] for a pattern
    [/^...$/].

    An anchored test asks whether the whole text is in the pattern's
    language, so a matcher by derivatives decides it; [matches_spec] says it
    decides the language.  Only what the program's patterns use is here. *)

From S2P Require Import Prelude Hashing JsString.

Inductive regex :=
| Void
| Eps
| Class (p : ascii → bool)
| Seq (a b : regex)
| Alt (a b : regex)
| Star (a : regex).

Fixpoint nullable (r : regex) : bool :=
  match r with
  | Void | Class _ => false
  | Eps | Star _ => true
  | Seq a b => nullable a && nullable b
  | Alt a b => nullable a || nullable b
  end.

(** What remains to be matched after one character. *)
Fixpoint derive (c : ascii) (r : regex) : regex :=
  match r with
  | Void | Eps => Void
  | Class p => if p c then Eps else Void
  | Seq a b => if nullable a then Alt (Seq (derive c a) b) (derive c b) else Seq (derive c a) b
  | Alt a b => Alt (derive c a) (derive c b)
  | Star a => Seq (derive c a) (Star a)
  end.

Fixpoint matches (r : regex) (s : string) : bool :=
  match s with EmptyString => nullable r | String c s => matches (derive c r) s end.

(** ** The forms the patterns are written in *)
Definition char (c : ascii) : regex := Class (Ascii.eqb c).
Fixpoint lit (s : string) : regex :=
  match s with EmptyString => Eps | String c s => Seq (char c) (lit s) end.
Definition opt (r : regex) : regex := Alt Eps r.
Definition plus (r : regex) : regex := Seq r (Star r).

(** ** The language of an expression *)
Inductive in_lang : regex → string → Prop :=
| in_eps : in_lang Eps EmptyString
| in_class p c : p c = true → in_lang (Class p) (String c EmptyString)
| in_seq a b s t : in_lang a s → in_lang b t → in_lang (Seq a b) (s +:+ t)
| in_left a b s : in_lang a s → in_lang (Alt a b) s
| in_right a b s : in_lang b s → in_lang (Alt a b) s
| in_star_nil a : in_lang (Star a) EmptyString
| in_star_cons a s t : in_lang a s → in_lang (Star a) t → in_lang (Star a) (s +:+ t).
Create HintDb regex.
#[export] Hint Constructors in_lang : regex.

Lemma in_seq_inv a b s : in_lang (Seq a b) s → ∃ t u, s = t +:+ u ∧ in_lang a t ∧ in_lang b u.
Proof. inversion 1; subst. by eexists _, _. Qed.

Lemma in_alt_inv a b s : in_lang (Alt a b) s → in_lang a s ∨ in_lang b s.
Proof. inversion 1; subst; auto. Qed.

Lemma in_class_inv p s : in_lang (Class p) s → ∃ c, s = String c EmptyString ∧ p c = true.
Proof. inversion 1; subst. eauto. Qed.

Lemma in_eps_inv s : in_lang Eps s → s = EmptyString.
Proof. by inversion 1. Qed.

Lemma app_empty (a b : string) : a +:+ b = EmptyString → a = EmptyString ∧ b = EmptyString.
Proof. by destruct a. Qed.

Lemma nullable_spec r : nullable r = true ↔ in_lang r EmptyString.
Proof.
  induction r as [| |p|a IHa b IHb|a IHa b IHb|a _]; cbn.
  - split; [done|by inversion 1].
  - split; auto with regex.
  - split; [done|by intros (c & ? & _)%in_class_inv].
  - rewrite andb_true_iff, IHa, IHb. split.
    + intros [Ha Hb]. exact (in_seq a b EmptyString EmptyString Ha Hb).
    + intros (t & u & He & Ht & Hu)%in_seq_inv. symmetry in He. by apply app_empty in He as [-> ->].
  - rewrite orb_true_iff, IHa, IHb. split; [intros [H|H]; auto with regex|by intros [H|H]%in_alt_inv; auto].
  - split; auto with regex.
Qed.

(** A word of [Star a] that is not empty starts with one of [a] that is not. *)
Lemma star_first a s : in_lang (Star a) s →
  ∀ c s', s = String c s' → ∃ t u, s' = t +:+ u ∧ in_lang a (String c t) ∧ in_lang (Star a) u.
Proof.
  remember (Star a) as r eqn:Hr. intros H. induction H as [| | | | |b|b s t Hs _ Ht IH]; try discriminate.
  injection Hr as ->. intros c s' He. destruct s as [|d s]; [by apply (IH eq_refl)|]. rewrite string_cons_app in He. injection He as -> <-. by exists s, t.
Qed.

Lemma derive_spec r c s : in_lang (derive c r) s ↔ in_lang r (String c s).
Proof.
  revert s. induction r as [| |p|a IHa b IHb|a IHa b IHb|a IHa]; intros s; cbn.
  - split; by inversion 1.
  - split; by inversion 1.
  - split.
    + destruct (p c) eqn:Hp; [|by inversion 1]. intros ->%in_eps_inv. by apply in_class.
    + intros (d & [= <- ->] & Hd)%in_class_inv. rewrite Hd. constructor.
  - assert (Hseq : ∀ s, in_lang (Seq (derive c a) b) s ↔ ∃ t u, s = t +:+ u ∧ in_lang a (String c t) ∧ in_lang b u).
    { intros s'. split.
      - intros (t & u & -> & Ht & Hu)%in_seq_inv. apply IHa in Ht. eauto.
      - intros (t & u & -> & Ht & Hu). apply IHa in Ht. by constructor. }
    assert (Hcons : in_lang (Seq a b) (String c s) ↔
      (∃ t u, s = t +:+ u ∧ in_lang a (String c t) ∧ in_lang b u) ∨ (in_lang a EmptyString ∧ in_lang b (String c s))).
    { split.
      - intros (t & u & He & Ht & Hu)%in_seq_inv. destruct t as [|d t].
        + right. change (EmptyString +:+ u) with u in He. by subst u.
        + left. rewrite string_cons_app in He. injection He as <- ->. eauto.
      - intros [(t & u & -> & Ht & Hu)|[Ha Hb]].
        + exact (in_seq a b (String c t) u Ht Hu).
        + exact (in_seq a b EmptyString (String c s) Ha Hb). }
    rewrite Hcons. destruct (nullable a) eqn:Hn.
    + apply nullable_spec in Hn. split.
      * intros [H%Hseq|H%IHb]%in_alt_inv; auto.
      * intros [H|[_ H]]; [apply in_left; by apply Hseq|apply in_right; by apply IHb].
    + rewrite Hseq. split; [auto|]. intros [H|[H _]]; [done|]. apply nullable_spec in H. congruence.
  - split.
    + intros [H%IHa|H%IHb]%in_alt_inv; auto with regex.
    + intros [H%IHa|H%IHb]%in_alt_inv; auto with regex.
  - split.
    + intros (t & u & -> & Ht & Hu)%in_seq_inv. apply IHa in Ht. exact (in_star_cons a (String c t) u Ht Hu).
    + intros H. destruct (star_first a _ H c s eq_refl) as (t & u & -> & Ht & Hu). apply IHa in Ht. by constructor.
Qed.

(** The matcher decides the language. *)
Lemma matches_spec r s : matches r s = true ↔ in_lang r s.
Proof.
  revert r. induction s as [|c s IH]; intros r; cbn; [apply nullable_spec|]. rewrite IH. apply derive_spec.
Qed.

(** ** Characters of the words of a language *)

Fixpoint classes_in (q : ascii → bool) (r : regex) : Prop :=
  match r with
  | Void | Eps => True
  | Class p => ∀ c, p c = true → q c = true
  | Seq a b | Alt a b => classes_in q a ∧ classes_in q b
  | Star a => classes_in q a
  end.

Lemma in_lang_forallb q r s : classes_in q r → in_lang r s → string_forallb q s = true.
Proof.
  intros Hq H. induction H as [|p c Hc|a b s t _ IHa _ IHb|a b s _ IH|a b s _ IH|a|a s t _ IHa _ IHb]; cbn in Hq; try done.
  - cbn. by rewrite (Hq c Hc).
  - destruct Hq as [Ha Hb]. by rewrite string_forallb_app, (IHa Ha), (IHb Hb).
  - destruct Hq. auto.
  - destruct Hq. auto.
  - rewrite string_forallb_app, (IHa Hq). by apply IHb.
Qed.

Lemma in_lit s t : in_lang (lit s) t ↔ t = s.
Proof.
  revert t. induction s as [|c s IH]; intros t; cbn [lit].
  - split; [apply in_eps_inv|intros ->; constructor].
  - split.
    + intros (u & v & -> & (d & -> & <-%Ascii.eqb_eq)%in_class_inv & ->%IH)%in_seq_inv. done.
    + intros ->. apply (in_seq _ _ (String c EmptyString) s); [|by apply IH]. apply in_class. apply Ascii.eqb_refl.
Qed.

Lemma in_opt r s : in_lang (opt r) s ↔ s = EmptyString ∨ in_lang r s.
Proof.
  unfold opt. split.
  - intros [->%in_eps_inv|H]%in_alt_inv; auto.
  - intros [->|H]; auto with regex.
Qed.

Lemma in_star_class p s : in_lang (Star (Class p)) s ↔ string_forallb p s = true.
Proof.
  split; [apply in_lang_forallb; by intros c|]. induction s as [|c s IH]; [constructor|]. cbn. intros [Hc Hs]%andb_true_iff.
  apply (in_star_cons _ (String c EmptyString) s); [by constructor|auto].
Qed.
