(* ===== verification/Collections.v ===== *)
(** * Collections of the JavaScript runtime.

    Insertion-ordered maps ([Map], and plain objects used as maps) and the
    stable sort of arrays, with the lemmas the components share. *)

From Stdlib Require Import Sorting.Sorted Sorting.Permutation.
From S2P Require Import Prelude.
#[local] Open Scope Z_scope.

(** ** Insertion-ordered maps *)
Section OrderedMap.
Context {V : Type}.

Fixpoint map_get (k : string) (m : list (string * V)) : option V :=
  match m with
  | [] => None
  | (k', v) :: m => if String.eqb k k' then Some v else map_get k m
  end.

Fixpoint map_set (k : string) (v : V) (m : list (string * V)) : list (string * V) :=
  match m with
  | [] => [(k, v)]
  | (k', v') :: m => if String.eqb k k' then (k, v) :: m else (k', v') :: map_set k v m
  end.

Definition map_delete (k : string) (m : list (string * V)) : list (string * V) :=
  List.filter (λ kv, negb (String.eqb k kv.1)) m.

Lemma map_get_set k k' v m : map_get k (map_set k' v m) = if String.eqb k k' then Some v else map_get k m.
Proof.
  induction m as [|[j w] m IH]; cbn; [done|].
  destruct (String.eqb_spec k' j) as [->|Hj]; cbn.
  - by destruct (String.eqb k j).
  - rewrite IH. destruct (String.eqb_spec k j) as [->|Hk]; [|done].
    by destruct (String.eqb_spec j k') as [->|].
Qed.

Lemma map_get_delete k k' m : map_get k (map_delete k' m) = if String.eqb k k' then None else map_get k m.
Proof.
  unfold map_delete. induction m as [|[j w] m IH]; cbn; [by destruct (String.eqb k k')|].
  destruct (String.eqb_spec k' j) as [->|Hj]; cbn; rewrite IH.
  - by destruct (String.eqb k j).
  - destruct (String.eqb_spec k j) as [->|Hk]; [|done]. by destruct (String.eqb_spec j k') as [->|].
Qed.

(** Keys occur once. *)
Lemma map_set_nodup k v m : NoDup m.*1 → NoDup (map_set k v m).*1.
Proof.
  induction m as [|[j w] m IH]; intros Hn; cbn.
  - apply NoDup_singleton.
  - apply NoDup_cons in Hn as [Hj Hn]. destruct (String.eqb_spec k j) as [->|Hk]; cbn; apply NoDup_cons.
    + by split.
    + split; [|by apply IH]. intros Hin. apply Hj. clear IH Hn Hj.
      induction m as [|[i u] m IHm]; cbn in *; [by apply list_elem_of_singleton in Hin|].
      destruct (String.eqb_spec k i) as [->|]; cbn in Hin; [done|].
      apply elem_of_cons in Hin as [->|Hin]; apply elem_of_cons; [by left|right; by apply IHm].
Qed.

Lemma map_delete_nodup k m : NoDup m.*1 → NoDup (map_delete k m).*1.
Proof.
  unfold map_delete. induction m as [|[j w] m IH]; intros Hn; cbn; [done|]. apply NoDup_cons in Hn as [Hj Hn].
  case_if; [|by apply IH]. cbn. apply NoDup_cons. split; [|by apply IH].
  intros Hin. apply Hj. apply list_elem_of_fmap in Hin as ([i u] & He & Hin).
  apply list_elem_of_In, filter_In in Hin as [Hin _]. cbn in He. subst.
  apply list_elem_of_fmap. exists (i, u). split; [done|]. by apply list_elem_of_In.
Qed.

Lemma map_get_elem k v m : NoDup m.*1 → (k, v) ∈ m → map_get k m = Some v.
Proof.
  induction m as [|[j w] m IH]; intros Hn Hin; [by apply elem_of_nil in Hin|].
  apply NoDup_cons in Hn as [Hj Hn]. cbn. apply elem_of_cons in Hin as [[= <- <-]|Hin].
  - by rewrite String.eqb_refl.
  - destruct (String.eqb_spec k j) as [->|]; [|by apply IH].
    destruct Hj. apply list_elem_of_fmap. by exists (j, v).
Qed.

Lemma map_get_Some k v m : map_get k m = Some v → (k, v) ∈ m.
Proof.
  induction m as [|[j w] m IH]; cbn; [done|]. destruct (String.eqb_spec k j) as [->|].
  - intros [= ->]. by left.
  - intros H. right. by apply IH.
Qed.
End OrderedMap.

(** ** Stable sorting: [arr.sort(cmp)]; the new element goes after those that
    compare at most 0 with it. *)
Section Sort.
Context {A : Type} (cmp : A → A → Z).

Fixpoint sort_insert (x : A) (l : list A) : list A :=
  match l with
  | [] => [x]
  | y :: r => if cmp y x <=? 0 then y :: sort_insert x r else x :: l
  end.

Definition js_sort (l : list A) : list A := fold_left (λ acc x, sort_insert x acc) l [].

Lemma sort_insert_perm x l : sort_insert x l ≡ₚ x :: l.
Proof. induction l as [|y l IH]; [done|]. cbn. case_if; [|done]. rewrite IH. constructor. Qed.

Lemma js_sort_perm l : js_sort l ≡ₚ l.
Proof.
  unfold js_sort. enough (∀ acc, fold_left (λ acc x, sort_insert x acc) l acc ≡ₚ acc ++ l) as H by apply H.
  induction l as [|x l IH]; intros acc; cbn; [by rewrite app_nil_r|].
  rewrite IH, sort_insert_perm. apply Permutation_middle.
Qed.

(** [lt] is the order the comparison decides on the elements that occur. *)
Context (P : A → Prop) (lt : A → A → Prop).
Hypothesis lt_trans : ∀ x y z, lt x y → lt y z → lt x z.
Hypothesis cmp_le : ∀ x y, P x → P y → cmp x y ≤ 0 → x ≠ y → lt x y.
Hypothesis cmp_gt : ∀ x y, P x → P y → 0 < cmp x y → lt y x.

Lemma sort_insert_sorted x l :
  P x → Forall P l → x ∉ l → StronglySorted lt l → StronglySorted lt (sort_insert x l).
Proof.
  intros Hx. induction l as [|y l IH]; intros Hp Hn Hs; cbn; [by repeat constructor|].
  apply Forall_cons in Hp as [Hy Hp]. apply StronglySorted_inv in Hs as [Hs Hf].
  apply not_elem_of_cons in Hn as [Hxy Hn]. case_if.
  - constructor; [by apply IH|]. apply List.Forall_forall. intros z Hz.
    apply list_elem_of_In in Hz. rewrite sort_insert_perm in Hz. apply elem_of_cons in Hz as [->|Hz].
    + apply cmp_le; [done..|lia|done].
    + rewrite List.Forall_forall in Hf. by apply Hf, list_elem_of_In.
  - assert (lt x y) as Hlt by (apply cmp_gt; [done..|lia]).
    constructor; [by constructor|]. constructor; [done|].
    eapply List.Forall_impl; [|exact Hf]. intros z Hz. by eapply lt_trans.
Qed.

Lemma js_sort_sorted l : Forall P l → NoDup l → StronglySorted lt (js_sort l).
Proof.
  unfold js_sort.
  enough (∀ acc, StronglySorted lt acc → Forall P (acc ++ l) → NoDup (acc ++ l) →
            StronglySorted lt (fold_left (λ acc x, sort_insert x acc) l acc)) as H.
  { intros Hp Hd. apply H; [constructor|done|done]. }
  induction l as [|x l IH]; intros acc Hs Hp Hd; [done|]. cbn.
  assert (sort_insert x acc ++ l ≡ₚ acc ++ x :: l) as Hperm.
  { rewrite sort_insert_perm. cbn. apply Permutation_middle. }
  apply IH; [|by rewrite Hperm..].
  apply Forall_app in Hp as [Hpa Hpx]. apply Forall_cons in Hpx as [Hx _].
  apply sort_insert_sorted; [done..| |done].
  apply NoDup_app in Hd as (_ & Hd & _). intros Hin. by apply (Hd x Hin); left.
Qed.
End Sort.

(** The sort looks at the comparison only. *)
Lemma js_sort_ext {A} (f g : A → A → Z) l : (∀ x y, f x y = g x y) → js_sort f l = js_sort g l.
Proof.
  intros H. assert (∀ x l, sort_insert f x l = sort_insert g x l) as Hi.
  { intros x l'. induction l' as [|y l' IH]; [done|]. cbn. by rewrite H, IH. }
  unfold js_sort. generalize ([] : list A). induction l as [|x l IH]; intros acc; [done|]. cbn. by rewrite Hi, IH.
Qed.

(** ** Sorting a sorted list *)
Lemma sort_insert_last {A} (cmp : A → A → Z) x l :
  Forall (λ y, cmp y x ≤ 0) l → sort_insert cmp x l = l ++ [x].
Proof.
  induction 1 as [|y l Hy Hl IH]; [done|]. cbn.
  assert ((cmp y x <=? 0) = true) as -> by lia. by rewrite IH.
Qed.

Lemma js_sort_fixed {A} (cmp : A → A → Z) l :
  StronglySorted (λ a b, cmp a b ≤ 0) l → js_sort cmp l = l.
Proof.
  intros Hs. unfold js_sort.
  enough (∀ acc, StronglySorted (λ a b, cmp a b ≤ 0) (acc ++ l) →
            fold_left (λ acc x, sort_insert cmp x acc) l acc = acc ++ l) as H by by apply (H []).
  clear Hs. induction l as [|x l IH]; intros acc Hs; cbn; [by rewrite app_nil_r|].
  rewrite sort_insert_last.
  - rewrite (IH (acc ++ [x])); [by rewrite <- (assoc_L app)|]. by rewrite <- (assoc_L app).
  - clear IH. induction acc as [|y acc IHa]; [done|]. cbn in Hs. apply StronglySorted_inv in Hs as [Hs Hf].
    constructor; [|by apply IHa]. rewrite List.Forall_forall in Hf. apply Hf, in_or_app. right. by left.
Qed.
