(* ===== verification/Keyset.v ===== *)
(** * Keyset pagination.

    The theory the repositories share that page through a table by the sort
    key of the last row: the rows are strictly ordered, a page is what comes
    after a cursor, up to a limit.  It covers both ways of deciding whether to
    hand out another cursor: asking for one row more than the limit, and
    taking a full page as a sign of more. *)

From Stdlib Require Import Sorting.Sorted Sorting.Permutation.
From stdpp Require Import sorting.
From S2P Require Import Prelude Collections.

Lemma filter_all {A} f (l : list A) : Forall (λ x, f x = true) l → List.filter f l = l.
Proof. induction 1 as [|x l Hx _ IH]; cbn; [done|]. by rewrite Hx, IH. Qed.

Lemma filter_everything {A} (l : list A) : List.filter (λ _, true) l = l.
Proof. apply filter_all. by apply Forall_true. Qed.

Section Keyset.
Context {R C : Type} (lt : R → R → Prop) (cursor_of : R → C) (after : C → R → bool).

Record page := { items : list R; next : option C }.

Definition beyond (c : option C) (r : R) : bool := match c with None => true | Some c => after c r end.

(** [LIMIT limit + 1]: the extra row only says that there is more. *)
Definition peek_page (limit : nat) (rows : list R) : page :=
  let fetched := take (S limit) rows in
  let hasMore := (limit <? length fetched)%nat in
  let shown := if hasMore then take limit fetched else fetched in
  {| items := shown; next := if hasMore then cursor_of <$> last shown else None |}.

(** [LIMIT limit]: a full page has a cursor. *)
Definition full_page (limit : nat) (rows : list R) : page :=
  let fetched := take limit rows in
  {| items := fetched; next := if (length fetched =? limit)%nat then cursor_of <$> last fetched else None |}.

(** Follows the cursors for at most [fuel] pages; [None] when that is not
    enough. *)
Fixpoint collect (get : option C → page) (fuel : nat) (c : option C) : option (list R) :=
  match fuel with
  | O => None
  | S fuel =>
      let p := get c in
      match next p with
      | None => Some (items p)
      | Some c => (app (items p)) <$> collect get fuel (Some c)
      end
  end.

(** ** Enumeration *)
Context (lt_trans : ∀ x y z, lt x y → lt y z → lt x z) (lt_irrefl : ∀ x, ¬ lt x x).

(** The cursor of [x] selects, among the rows [P], what comes after [x]. *)
Context (P : R → Prop) (after_spec : ∀ x r, P x → P r → after (cursor_of x) r = true ↔ lt x r).

Lemma sorted_split l x l' :
  StronglySorted lt (l ++ x :: l') → Forall (λ y, lt y x) l ∧ Forall (lt x) l'.
Proof.
  induction l as [|y l IH]; cbn; intros [Hs Hf]%StronglySorted_inv; [by split|].
  destruct (IH Hs) as [H1 H2]. split; [|done]. constructor; [|done].
  rewrite Forall_forall in Hf. apply Hf, elem_of_app. right. by left.
Qed.

Lemma after_own_row l x l' :
  Forall P (l ++ x :: l') → StronglySorted lt (l ++ x :: l') →
  List.filter (after (cursor_of x)) (l ++ x :: l') = l'.
Proof.
  intros Hp Hs. apply sorted_split in Hs as [H1 H2]. apply Forall_app in Hp as [Hp1 [Hx Hp2]%Forall_cons].
  assert (Hno : ∀ y, P y → ¬ lt x y → after (cursor_of x) y = false).
  { intros y Hy Hn. destruct (after (cursor_of x) y) eqn:E; [|done]. by apply after_spec in E. }
  rewrite List.filter_app. cbn. rewrite (Hno x Hx (lt_irrefl x)).
  assert (List.filter (after (cursor_of x)) l = []) as ->.
  { induction l as [|y l IH]; [done|]. apply Forall_cons in H1 as [Hy H1], Hp1 as [Hpy Hp1]. cbn.
    rewrite Hno; [by apply IH|done|]. intros Hlt. by apply (lt_irrefl x), (lt_trans _ y). }
  clear H1 Hp1. induction l' as [|y l' IH]; [done|]. apply Forall_cons in H2 as [Hy H2], Hp2 as [Hpy Hp2].
  cbn in *. apply (after_spec x y Hx Hpy) in Hy. by rewrite Hy, IH.
Qed.

(** A page shows a first part of the rows; without a cursor it shows them all,
    with one it shows at least the row the cursor is of. *)
Definition honest (get : list R → page) : Prop :=
  ∀ rows, match next (get rows) with
          | None => items (get rows) = rows
          | Some c => ∃ l x l', rows = l ++ x :: l' ∧ items (get rows) = l ++ [x] ∧ c = cursor_of x
          end.

Lemma last_split (l : list R) : l = [] ∨ ∃ l' x, l = l' ++ [x] ∧ last l = Some x.
Proof.
  destruct l as [|x l _] using rev_ind; [by left|]. right. exists l, x. by rewrite last_snoc.
Qed.

Lemma peek_honest limit : (0 < limit)%nat → honest (peek_page limit).
Proof.
  intros Hl rows. unfold peek_page. cbn [next items]. rewrite length_take.
  destruct (limit <? S limit `min` length rows)%nat eqn:Hm.
  - apply Nat.ltb_lt in Hm. rewrite take_take, (Nat.min_l limit (S limit)) by lia.
    destruct (last_split (take limit rows)) as [Hn|(l & x & He & Hla)].
    + apply (f_equal length) in Hn. rewrite length_take in Hn. cbn in Hn. lia.
    + rewrite Hla. cbn. exists l, x, (drop limit rows). split_and!; [|done|done].
      by rewrite <- (take_drop limit rows) at 1; rewrite He, <- (assoc_L app).
  - apply Nat.ltb_ge in Hm. apply take_ge. lia.
Qed.

Lemma full_honest limit : (0 < limit)%nat → honest (full_page limit).
Proof.
  intros Hl rows. unfold full_page. cbn [next items]. rewrite length_take.
  destruct (limit `min` length rows =? limit)%nat eqn:Hm.
  - apply Nat.eqb_eq in Hm. destruct (last_split (take limit rows)) as [Hn|(l & x & He & Hla)].
    + apply (f_equal length) in Hn. rewrite length_take in Hn. cbn in Hn. lia.
    + rewrite Hla. cbn. exists l, x, (drop limit rows). split_and!; [|done|done].
      by rewrite <- (take_drop limit rows) at 1; rewrite He, <- (assoc_L app).
  - apply Nat.eqb_neq in Hm. apply take_ge. lia.
Qed.

Lemma collect_suffix get rows fuel pre suf c :
  honest get → Forall P rows → StronglySorted lt rows → rows = pre ++ suf →
  List.filter (beyond c) rows = suf → (length suf < fuel)%nat →
  collect (λ c, get (List.filter (beyond c) rows)) fuel c = Some suf.
Proof.
  intros Hh Hp Hs. revert pre suf c. induction fuel as [|fuel IH]; intros pre suf c Hr Hc Hf; [lia|].
  cbn [collect]. rewrite Hc. specialize (Hh suf). destruct (next (get suf)) as [c'|]; [|by rewrite Hh].
  destruct Hh as (l & x & l' & He & Hi & ->).
  assert (rows = (pre ++ l) ++ x :: l') as Hrows by by rewrite Hr, He, (assoc_L app).
  rewrite (IH ((pre ++ l) ++ [x]) l' (Some (cursor_of x))).
  - cbn. by rewrite Hi, He, <- (assoc_L app).
  - by rewrite <- (assoc_L app).
  - cbn [beyond]. rewrite Hrows in Hp, Hs |- *. by apply after_own_row.
  - rewrite He, length_app in Hf. cbn in Hf. lia.
Qed.

(** Following the cursors from the first page enumerates the rows, each once,
    in order. *)
Lemma collect_all get rows :
  honest get → Forall P rows → StronglySorted lt rows →
  collect (λ c, get (List.filter (beyond c) rows)) (S (length rows)) None = Some rows.
Proof.
  intros Hh Hp Hs. apply (collect_suffix get rows _ [] rows None Hh Hp Hs eq_refl); [apply filter_everything|lia].
Qed.
End Keyset.

Arguments items {R C}. Arguments next {R C}.

Lemma collect_ext {R C} (get get' : option C → page (R := R) (C := C)) (Q : C → Prop) fuel c :
  (∀ c, match c with Some c => Q c | None => True end → get c = get' c ∧ ∀ c', next (get c) = Some c' → Q c') →
  match c with Some c => Q c | None => True end → collect get fuel c = collect get' fuel c.
Proof.
  intros H. revert c. induction fuel as [|fuel IH]; intros c Hc; [done|]. cbn.
  destruct (H c Hc) as [He Hn]. rewrite He in Hn |- *.
  destruct (next (get' c)) as [c'|]; [|done]. by rewrite IH by by apply Hn.
Qed.

(** ** Sorted selections

    A table is a list of rows in no particular order; a query sorts what it
    selects.  When the comparison decides a strict total order, selecting
    after sorting is the same. *)
Section Select.
Context {R : Type} (cmp : R → R → Z) (lt : R → R → Prop).
Context (lt_trans : ∀ x y z, lt x y → lt y z → lt x z) (lt_irrefl : ∀ x, ¬ lt x x).

Definition decides (t : list R) : Prop :=
  (∀ x y, x ∈ t → y ∈ t → (cmp x y <= 0)%Z → x ≠ y → lt x y) ∧ (∀ x y, x ∈ t → y ∈ t → (0 < cmp x y)%Z → lt y x).

Definition select (sel : R → bool) (t : list R) : list R := js_sort cmp (List.filter sel t).

Lemma filter_in sel (t : list R) x : x ∈ List.filter sel t ↔ x ∈ t ∧ sel x = true.
Proof. by rewrite !list_elem_of_In, filter_In, <- list_elem_of_In. Qed.

Lemma filter_nodup sel (t : list R) : NoDup t → NoDup (List.filter sel t).
Proof.
  induction 1 as [|x t Hx Hn IH]; cbn; [constructor|]. destruct (sel x); [|done]. constructor; [|done].
  intros [Hin _]%filter_in. by apply Hx.
Qed.

Lemma select_sorted sel t : decides t → NoDup t → StronglySorted lt (select sel t).
Proof.
  intros [Hle Hgt] Hn. apply (js_sort_sorted cmp (λ x, x ∈ t) lt lt_trans); [by apply Hle|by apply Hgt| |by apply filter_nodup].
  apply Forall_forall. by intros x [Hx _]%filter_in.
Qed.

Lemma select_in sel t x : x ∈ select sel t ↔ x ∈ t ∧ sel x = true.
Proof. unfold select. by rewrite js_sort_perm, filter_in. Qed.

Lemma filter_strongly_sorted sel (l : list R) : StronglySorted lt l → StronglySorted lt (List.filter sel l).
Proof.
  induction 1 as [|x l Hs IH Hf]; cbn; [constructor|]. destruct (sel x); [|done]. constructor; [done|].
  rewrite Forall_forall in Hf |- *. intros y [Hy _]%filter_in. by apply Hf.
Qed.

Lemma select_and sel sel' t :
  decides t → NoDup t → select (λ r, sel r && sel' r) t = List.filter sel' (select sel t).
Proof.
  intros Hd Hn. apply (StronglySorted_unique_strong lt).
  - intros x y _ _ H1 H2. destruct (lt_irrefl x). by apply (lt_trans _ y).
  - by apply select_sorted.
  - by apply filter_strongly_sorted, select_sorted.
  - apply NoDup_Permutation.
    + unfold select. rewrite js_sort_perm. by apply filter_nodup.
    + apply filter_nodup. unfold select. rewrite js_sort_perm. by apply filter_nodup.
    + intros x. rewrite select_in, filter_in, select_in, andb_true_iff. tauto.
Qed.
End Select.
