(* ===== verification/PairTree.v ===== *)
(** * Pairwise levels.

    Both Merkle implementations build parents from consecutive pairs of
    nodes, pairing the last node of an odd level with itself, and pick the
    sibling of a node the same way.  This file holds that recursion over an
    arbitrary [join] and its lemmas. *)

From S2P Require Import Prelude.
#[local] Open Scope nat_scope.

Section Pairing.
Context {A : Type} `{!Inhabited A} (join : A → A → A).
Implicit Types level : list A.

(** The [for (i = 0; i < level.length; i += 2)] loop. *)
Fixpoint pair_level (level : list A) : list A :=
  match level with
  | [] => []
  | [l] => [join l l]
  | l :: r :: rest => join l r :: pair_level rest
  end.

(** The sibling selected at [index]: the other child of the pair, or the
    node itself when the pair is incomplete. *)
Definition sibling_index (index : nat) : nat :=
  if Nat.even index then (index + 1) else (index - 1).

Definition sibling_of (level : list A) (index : nat) : A :=
  if (sibling_index index <? length level)
  then level !!! sibling_index index else level !!! index.

Lemma pairs_ind (P : list A → Prop) :
  P [] → (∀ l, P [l]) → (∀ l r rest, P rest → P (l :: r :: rest)) → ∀ level, P level.
Proof.
  intros Hnil Hone Hpair. fix IH 1.
  intros [|l [|r rest]]; [exact Hnil | apply Hone | apply Hpair, IH].
Qed.

Lemma pair_level_length level : length (pair_level level) = (length level + 1) / 2.
Proof.
  induction level as [|l|l r rest IH] using pairs_ind; [done..|].
  cbn [pair_level length]. rewrite IH.
  replace (S (S (length rest)) + 1) with (length rest + 1 + 1 * 2) by lia.
  rewrite Nat.div_add; lia.
Qed.

(** The right child of node [k]: the left one again past the end. *)
Definition right_child (level : list A) (k : nat) : A :=
  if (2 * k + 1 <? length level) then level !!! (2 * k + 1) else level !!! (2 * k).

Lemma pair_level_lookup level k :
  2 * k < length level →
  pair_level level !!! k = join (level !!! (2 * k)) (right_child level k).
Proof.
  revert k. induction level as [|l|l r rest IH] using pairs_ind; intros k Hk.
  - cbn in Hk. lia.
  - cbn in Hk. by replace k with 0 by lia.
  - destruct k as [|k]; [done|].
    cbn [pair_level]. cbn [length] in Hk.
    change ((join l r :: pair_level rest) !!! S k) with (pair_level rest !!! k).
    rewrite IH by lia. unfold right_child. cbn [length].
    replace (2 * S k) with (S (S (2 * k))) by lia.
    replace (S (S (2 * k)) + 1) with (S (S (2 * k + 1))) by lia.
    change (S (S (2 * k + 1)) <? S (S (length rest))) with (2 * k + 1 <? length rest).
    done.
Qed.

Lemma pair_level_all (P : A → Prop) level :
  (∀ l r, P (join l r)) → Forall P (pair_level level).
Proof.
  intros HP. induction level as [|l|l r rest IH] using pairs_ind; cbn; auto.
Qed.

(** One step up: joining a node with its sibling, in the order of the
    parity of its index, gives the parent. *)
Lemma parent_lookup level index :
  index < length level →
  pair_level level !!! (index / 2)
  = if Nat.even index then join (level !!! index) (sibling_of level index)
    else join (sibling_of level index) (level !!! index).
Proof.
  intros Hi. pose proof (Nat.div_mod_eq index 2) as Hdm.
  pose proof (Nat.mod_upper_bound index 2 ltac:(lia)).
  rewrite pair_level_lookup by lia. unfold sibling_of, sibling_index, right_child.
  destruct (Nat.even index) eqn:Ev.
  - apply Nat.even_spec in Ev as [m Hm].
    replace (index / 2) with m by lia. replace (2 * m) with index by lia. done.
  - assert (Nat.odd index = true) as Ho by (unfold Nat.odd; by rewrite Ev).
    apply Nat.odd_spec in Ho as [m Hm].
    replace (index / 2) with m by lia.
    replace (index - 1) with (2 * m) by lia.
    assert ((2 * m <? length level) = true) as -> by (apply Nat.ltb_lt; lia).
    assert ((2 * m + 1 <? length level) = true) as -> by (apply Nat.ltb_lt; lia).
    by rewrite Hm.
Qed.

Lemma sibling_in level index : index < length level → sibling_of level index ∈ level.
Proof.
  intros Hi. unfold sibling_of.
  destruct (_ <? length level) eqn:Es; [apply Nat.ltb_lt in Es|];
    eapply list_elem_of_lookup_2, list_lookup_lookup_total_lt; assumption.
Qed.

Lemma half_lt_length level index :
  index < length level → index / 2 < length (pair_level level).
Proof.
  intros Hi. rewrite pair_level_length.
  pose proof (Nat.div_mod_eq index 2). pose proof (Nat.mod_upper_bound index 2).
  pose proof (Nat.div_mod_eq (length level + 1) 2).
  pose proof (Nat.mod_upper_bound (length level + 1) 2). lia.
Qed.

Lemma pair_level_shorter level :
  1 < length level → length (pair_level level) < length level ∧ 0 < length (pair_level level).
Proof.
  intros H. rewrite pair_level_length.
  pose proof (Nat.div_mod_eq (length level + 1) 2).
  pose proof (Nat.mod_upper_bound (length level + 1) 2). lia.
Qed.
End Pairing.

Lemma log2_up_half n : 1 < n → Nat.log2_up n = S (Nat.log2_up ((n + 1) / 2)).
Proof.
  intros Hn. rewrite Nat.log2_up_eqn by lia. f_equal.
  pose proof (Nat.div_mod_eq (n + 1) 2) as Hdm.
  pose proof (Nat.mod_upper_bound (n + 1) 2 ltac:(lia)).
  remember ((n + 1) / 2) as h eqn:Eh. remember ((n + 1) mod 2) as b eqn:Eb. clear Eh Eb.
  destruct (Nat.eq_dec h 1) as [->|].
  { replace n with 2 by lia. done. }
  rewrite Nat.log2_up_eqn by lia.
  destruct (Nat.eq_dec b 0) as [E|E].
  - replace (Nat.pred n) with (2 * Nat.pred h) by lia. apply Nat.log2_double. lia.
  - replace (Nat.pred n) with (2 * Nat.pred h + 1) by lia. apply Nat.log2_succ_double. lia.
Qed.
