(* ===== verification/Merkle.v ===== *)
(** * Merkle trees: [src/services/merkle/buildTree.ts] and
    [src/services/merkle/generateProof.ts].

    The flat tree builder, the proof generator and the guarded verifier.
    [hash] is SHA-256 in lowercase hexadecimal ([HexDigest]). *)

From S2P Require Import Prelude Numeric Hashing PairTree.
#[local] Open Scope nat_scope.

(** ** Data *)

Inductive position := PosLeft | PosRight.

#[export] Instance position_eq_dec : EqDecision position.
Proof. solve_decision. Defined.

Record proof_step := { step_sibling : string; step_position : position }.

(** The values the type guards receive as [unknown].  [None] for a field is
    a value that is not a string. *)
Inductive unknown_step :=
| NotAnObject
| StepObject (position_field sibling_field : option string).

Inductive unknown_proof :=
| NotAnArray
| ProofArray (steps : list unknown_step).

Inductive build_error := NoLeaves | TooManyLeaves | BadLeaf | BuildDiverged.

Inductive proof_error :=
| LeavesNotNonEmpty | IndexNotInteger | IndexOutOfRange | ProofDiverged.

Inductive config_error := BadMaxLeaves.

Definition MERKLE_PROOF_MAX_STEPS : nat := 256.

(** The environment guardrail; [number] is the [Number] conversion restricted
    to integer results. *)
Definition resolve_max_leaves (number : string → option Z) (raw : option string)
  : result config_error Z :=
  match raw with
  | None | Some EmptyString => Ok 1048576%Z
  | Some r =>
      match number r with
      | Some v => if (v <=? 0)%Z || (16777216 <? v)%Z then Err BadMaxLeaves else Ok v
      | None => Err BadMaxLeaves
      end
  end.

(** ** Guards on hexadecimal hashes *)

Definition stripHexPrefix (value : string) : string :=
  match value with
  | String "0" (String "x" r) | String "0" (String "X" r) => r
  | _ => value
  end.

Definition normalizeHashHex (value : option string) : option string :=
  match value with
  | None => None
  | Some v =>
      let stripped := stripHexPrefix v in
      if (String.length stripped =? 64) && string_forallb is_hex_char stripped
      then Some (to_lower stripped) else None
  end.

Definition isHashHex (value : option string) : bool :=
  match normalizeHashHex value with Some _ => true | None => false end.

Definition isProofStep (value : unknown_step) : bool :=
  match value with
  | NotAnObject => false
  | StepObject p s =>
      match p with
      | Some "left" | Some "right" => isHashHex s
      | _ => false
      end
  end.

Definition isProof (value : unknown_proof) : bool :=
  match value with
  | NotAnArray => false
  | ProofArray steps =>
      if MERKLE_PROOF_MAX_STEPS <? length steps then false
      else forallb isProofStep steps
  end.

Definition position_name (p : position) : string :=
  match p with PosLeft => "left" | PosRight => "right" end.

Definition forget_step (s : proof_step) : unknown_step :=
  StepObject (Some (position_name (step_position s))) (Some (step_sibling s)).

Definition forget_proof (p : list proof_step) : unknown_proof :=
  ProofArray (forget_step <$> p).

Section Functional.
Context (hash : string → string).

(** ** Tree construction *)

(** One pass of the inner [for] loop: parents of consecutive pairs, the last
    node paired with itself when the level is odd. *)
Definition next_level (level : list string) : list string :=
  pair_level (λ l r, hash (l +:+ r)) level.

(** The [while (level.length > 1)] loop of [buildTree]. *)
Fixpoint build_loop (fuel : nat) (level tree : list string) : option (list string) :=
  match fuel with
  | O => None
  | S f =>
      if 1 <? length level
      then let next := next_level level in build_loop f next (tree ++ next)
      else Some tree
  end.

Definition buildTree (max_leaves : Z) (leaves : list string)
  : result build_error (list string) :=
  if length leaves =? 0 then Err NoLeaves
  else if (max_leaves <? Z.of_nat (length leaves))%Z then Err TooManyLeaves
  else if existsb (λ leaf, String.length leaf =? 0) leaves then Err BadLeaf
  else
    let level := hash <$> leaves in
    match build_loop (length leaves) level level with
    | Some tree => Ok tree
    | None => Err BuildDiverged
    end.

Definition getRoot (tree : list string) : string := default "" (last tree).

(** ** Proof generation *)

Fixpoint proof_loop (fuel : nat) (level : list string) (index : nat)
    (proof : list proof_step) : option (list proof_step) :=
  match fuel with
  | O => None
  | S f =>
      if 1 <? length level
      then
        let siblingIndex := if Nat.even index then (index + 1) else (index - 1) in
        let sibling :=
          if (siblingIndex <? length level) then level !!! siblingIndex
          else level !!! index in
        let step :=
          {| step_sibling := sibling;
             step_position := if Nat.even index then PosRight else PosLeft |} in
        proof_loop f (next_level level) (index / 2) (proof ++ [step])
      else Some proof
  end.

(** [leafIndex] is [None] for a number that is not an integer. *)
Definition generateProof (leaves : list string) (leafIndex : option Z)
  : result proof_error (list proof_step) :=
  if length leaves =? 0 then Err LeavesNotNonEmpty
  else match leafIndex with
  | None => Err IndexNotInteger
  | Some i =>
      if (i <? 0)%Z || (Z.of_nat (length leaves) <=? i)%Z then Err IndexOutOfRange
      else match proof_loop (length leaves) (hash <$> leaves) (Z.to_nat i) [] with
      | Some p => Ok p
      | None => Err ProofDiverged
      end
  end.

(** ** Verification *)

Fixpoint verify_loop (current : string) (steps : list unknown_step) : option string :=
  match steps with
  | [] => Some current
  | NotAnObject :: _ => None
  | StepObject p s :: rest =>
      match normalizeHashHex s with
      | None => None
      | Some sibling =>
          verify_loop
            (match p with
             | Some "right" => hash (current +:+ sibling)
             | _ => hash (sibling +:+ current)
             end) rest
      end
  end.

Definition verifyProof (leaf : option string) (proof : unknown_proof)
    (root : option string) : bool :=
  match leaf with
  | None => false
  | Some l =>
      match normalizeHashHex root with
      | None => false
      | Some normalizedRoot =>
          if negb (isProof proof) then false
          else match proof with
          | NotAnArray => false
          | ProofArray steps =>
              match verify_loop (hash l) steps with
              | Some current => String.eqb current normalizedRoot
              | None => false
              end
          end
      end
  end.
End Functional.

(** ** Paths: a proof applied to a node *)

Section Levels.
Context (hash : string → string).

Definition apply_step (current : string) (s : proof_step) : string :=
  match step_position s with
  | PosRight => hash (current +:+ step_sibling s)
  | PosLeft => hash (step_sibling s +:+ current)
  end.

(** The step [proof_loop] pushes at [index]. *)
Definition level_step (level : list string) (index : nat) : proof_step :=
  {| step_sibling := sibling_of level index;
     step_position := if Nat.even index then PosRight else PosLeft |}.

Lemma apply_level_step level index :
  index < length level →
  apply_step (level !!! index) (level_step level index) = next_level hash level !!! (index / 2).
Proof.
  intros Hi. unfold next_level. rewrite parent_lookup by done.
  unfold level_step, apply_step. cbn [step_position step_sibling]. by destruct (Nat.even index).
Qed.

Lemma next_level_shorter level :
  1 < length level →
  length (next_level hash level) < length level ∧ 0 < length (next_level hash level).
Proof. apply pair_level_shorter. Qed.
End Levels.

(** ** The two loops: totality, agreement, height *)

Section Loops.
Context (hash : string → string).

Lemma build_loop_total fuel level tree :
  0 < length level → length level ≤ fuel →
  ∃ rest, build_loop hash fuel level tree = Some (tree ++ rest).
Proof.
  revert level tree. induction fuel as [|f IH]; intros level tree Hpos Hle; [lia|].
  cbn [build_loop]. destruct (1 <? length level) eqn:E.
  - apply Nat.ltb_lt in E. destruct (next_level_shorter hash level E) as [Hs Hp].
    destruct (IH (next_level hash level) (tree ++ next_level hash level) Hp ltac:(lia)) as [r Hr].
    eexists. rewrite Hr, <- (assoc_L app). done.
  - exists []. by rewrite app_nil_r.
Qed.

(** Running both loops from the same level: the proof pushed by
    [proof_loop] carries the node at [index] to the last node of the tree. *)
Lemma loops_agree fuel level tree index acc :
  index < length level → length level ≤ fuel → last tree = last level →
  ∃ t p, build_loop hash fuel level tree = Some t
    ∧ proof_loop hash fuel level index acc = Some (acc ++ p)
    ∧ last t = Some (foldl (apply_step hash) (level !!! index) p)
    ∧ length p = Nat.log2_up (length level).
Proof.
  revert level tree index acc.
  induction fuel as [|f IH]; intros level tree index acc Hi Hle Hlast; [lia|].
  cbn [build_loop proof_loop]. destruct (1 <? length level) eqn:E.
  - apply Nat.ltb_lt in E. destruct (next_level_shorter hash level E) as [Hs Hp].
    destruct (IH (next_level hash level) (tree ++ next_level hash level) (index / 2)
      (acc ++ [level_step level index])) as (t & p & Hb & Hg & Hl & Hh);
      [by apply half_lt_length | lia | |].
    { destruct (next_level hash level); [cbn in Hp; lia | apply last_app_cons]. }
    exists t, (level_step level index :: p).
    split; [exact Hb|]. split; [rewrite <- (assoc_L app) in Hg; exact Hg|].
    split; [cbn [foldl]; by rewrite (apply_level_step hash level index Hi)|].
    cbn [length]. unfold next_level in *. rewrite Hh, pair_level_length, (log2_up_half (length level)); lia.
  - apply Nat.ltb_ge in E. exists tree, []. rewrite app_nil_r. split_and!; [done..| |].
    + destruct level as [|x [|y level]]; cbn in *; [lia| |lia].
      replace index with 0 by lia. by rewrite Hlast.
    + by replace (length level) with 1 by lia.
Qed.

Lemma proof_loop_siblings (P : string → Prop) fuel level index acc p :
  (∀ s, P (hash s)) → Forall P level → index < length level →
  Forall (P ∘ step_sibling) acc →
  proof_loop hash fuel level index acc = Some p → Forall (P ∘ step_sibling) p.
Proof.
  intros HP. revert level index acc.
  induction fuel as [|f IH]; intros level index acc Hl Hi Hacc Hp; [discriminate|].
  cbn [proof_loop] in Hp. destruct (1 <? length level) eqn:E; [|by simplify_eq].
  eapply IH in Hp; [exact Hp|by apply pair_level_all|by apply half_lt_length|].
  apply Forall_app. split; [exact Hacc|]. constructor; [|constructor].
  rewrite Forall_forall in Hl. by apply Hl, sibling_in.
Qed.
End Loops.

(** ** Verifying a typed proof *)

(** The strings hashed while climbing from [current], in order. *)
Fixpoint path_inputs (hash : string → string) (current : string) (p : list proof_step)
  : list string :=
  match p with
  | [] => []
  | s :: rest =>
      let input := match step_position s with
                   | PosRight => current +:+ step_sibling s
                   | PosLeft => step_sibling s +:+ current
                   end in
      input :: path_inputs hash (hash input) rest
  end.

(** Everything a verification run hashes: the leaf, then the path. *)
Definition verify_inputs (hash : string → string) (leaf : string) (p : list proof_step)
  : list string :=
  leaf :: path_inputs hash (hash leaf) p.

(** The steps of a proof as the verifier normalises them. *)
Definition normal_step (s : proof_step) : proof_step :=
  {| step_sibling := default "" (normalizeHashHex (Some (step_sibling s)));
     step_position := step_position s |}.

Section Verification.
Context (hash : string → string) `{!HexDigest hash}.

Lemma digest_not_prefixed s : is_digest_hex s = true → stripHexPrefix s = s.
Proof.
  unfold is_digest_hex. intros [_ Hf]%andb_true_iff.
  destruct s as [|c [|d r]]; [done| |].
  - destruct c as [[] [] [] [] [] [] [] []]; done.
  - cbn in Hf. apply andb_true_iff in Hf as [_ [Hd _]%andb_true_iff].
    destruct c as [[] [] [] [] [] [] [] []]; try done.
    destruct d as [[] [] [] [] [] [] [] []]; try done; discriminate Hd.
Qed.

Lemma normalize_digest s : is_digest_hex s = true → normalizeHashHex (Some s) = Some s.
Proof.
  intros H. unfold normalizeHashHex. rewrite digest_not_prefixed by done.
  unfold is_digest_hex in H. apply andb_true_iff in H as [Hl Hf].
  rewrite Hl, lower_hex_is_hex, lower_hex_to_lower by done. done.
Qed.

Lemma normalize_length v s : normalizeHashHex v = Some s → String.length s = 64.
Proof.
  unfold normalizeHashHex. destruct v as [v|]; [|done].
  case_if; [|done]. intros [= <-]. apply andb_true_iff in Heqb as [Hl%Nat.eqb_eq _].
  rewrite <- Hl. unfold to_lower. generalize (stripHexPrefix v). intros w.
  induction w as [|c w IH]; [done|]. exact (f_equal S IH).
Qed.

Lemma isProofStep_forget s :
  isProofStep (forget_step s) = isHashHex (Some (step_sibling s)).
Proof. destruct s as [sib []]; done. Qed.

Lemma verify_loop_typed current p :
  forallb isProofStep (forget_step <$> p) = true →
  verify_loop hash current (forget_step <$> p)
    = Some (foldl (apply_step hash) current (normal_step <$> p)).
Proof.
  revert current. induction p as [|s p IH]; intros current Hp; [done|].
  cbn [fmap list_fmap forallb] in Hp. apply andb_true_iff in Hp as [Hs Hp].
  rewrite isProofStep_forget in Hs. unfold isHashHex in Hs.
  cbn [fmap list_fmap verify_loop forget_step foldl].
  destruct (normalizeHashHex (Some (step_sibling s))) as [sib|] eqn:E; [|done].
  rewrite IH by done. do 2 f_equal.
  unfold apply_step, normal_step. cbn [step_sibling step_position]. rewrite E.
  by destruct (step_position s).
Qed.

Lemma normal_step_digest s :
  is_digest_hex (step_sibling s) = true → normal_step s = s.
Proof. destruct s as [sib pos]. intros H. unfold normal_step. cbn [step_sibling step_position] in *.
  by rewrite normalize_digest.
Qed.

(** Two climbs with the same positions that meet at the top started at the
    same node, or hashed two different strings to the same digest. *)
Lemma climbs_meet p q c d :
  step_position <$> p = step_position <$> q →
  Forall (λ s, String.length (step_sibling s) = 64) p →
  Forall (λ s, String.length (step_sibling s) = 64) q →
  String.length c = 64 → String.length d = 64 →
  foldl (apply_step hash) c p = foldl (apply_step hash) d q →
  c = d ∨ ∃ x y, x ∈ path_inputs hash c p ∧ y ∈ path_inputs hash d q
    ∧ x ≠ y ∧ hash x = hash y.
Proof.
  revert q c d. induction p as [|s p IH]; intros [|t q] c d Hpos Hp Hq Hc Hd Heq;
    cbn in Hpos; try discriminate; [by left|].
  injection Hpos as Hst Hpos. inversion_clear Hp as [|? ? Hs Hp'].
  inversion_clear Hq as [|? ? Ht Hq'].
  cbn [foldl] in Heq. unfold apply_step in Heq at 2 4. cbn [path_inputs].
  rewrite <- Hst in *.
  set (x := match step_position s with PosLeft => step_sibling s +:+ c
            | PosRight => c +:+ step_sibling s end).
  set (y := match step_position s with PosLeft => step_sibling t +:+ d
            | PosRight => d +:+ step_sibling t end).
  assert (foldl (apply_step hash) (hash x) p = foldl (apply_step hash) (hash y) q) as Heq'
    by (subst x y; by destruct (step_position s)).
  destruct (IH q (hash x) (hash y)) as [Hxy|(u & v & Hu & Hv & Hne)];
    [done|done|done|by apply digest_length|by apply digest_length|done| |].
  - destruct (decide (x = y)) as [E|E].
    + left. subst x y. destruct (step_position s);
        apply string_app_inj in E; rewrite ?Hs, ?Ht, ?Hc, ?Hd; tauto.
    + right. exists x, y. split_and!; [constructor..|done|done].
  - right. exists u, v. split_and!; [by constructor 2..|by destruct Hne|by destruct Hne].
Qed.
End Verification.

(** ** Properties *)

Section Properties.
Context (hash : string → string) `{!HexDigest hash}.

Lemma buildTree_inv max leaves tree :
  buildTree hash max leaves = Ok tree →
  0 < length leaves ∧ (Z.of_nat (length leaves) ≤ max)%Z
  ∧ build_loop hash (length leaves) (hash <$> leaves) (hash <$> leaves) = Some tree.
Proof.
  unfold buildTree. intros H. repeat case_if_in H; try discriminate.
  destruct (build_loop _ _ _ _) as [t|] eqn:E; [|discriminate]. injection H as ->.
  apply Nat.eqb_neq in Heqb. split_and!; [lia|lia|done].
Qed.

(** Both entry points run the loops from the hashed leaves. *)
Lemma tree_and_proof max leaves tree i :
  buildTree hash max leaves = Ok tree → i < length leaves →
  ∃ p, generateProof hash leaves (Some (Z.of_nat i)) = Ok p
    ∧ getRoot tree = foldl (apply_step hash) (hash (leaves !!! i)) p
    ∧ length p = Nat.log2_up (length leaves)
    ∧ Forall (λ s, is_digest_hex (step_sibling s) = true) p.
Proof.
  intros (Hpos & _ & Hb)%buildTree_inv Hi.
  destruct (loops_agree hash (length leaves) (hash <$> leaves) (hash <$> leaves) i [])
    as (t & p & Hb' & Hp & Hlast & Hlen); [by rewrite length_fmap..|done|].
  cbn [app] in Hp. exists p. rewrite Hb in Hb'. injection Hb' as <-.
  rewrite length_fmap in Hlen. split_and!; [| |done|].
  - unfold generateProof. repeat case_if; [apply Nat.eqb_eq in Heqb; lia| |].
    + apply orb_true_iff in Heqb0 as [|]; lia.
    + by rewrite Nat2Z.id, Hp.
  - unfold getRoot. rewrite Hlast. cbn. f_equal. by apply list_lookup_total_fmap.
  - eapply (proof_loop_siblings hash (λ s, is_digest_hex s = true)); [| | | |exact Hp].
    + apply digest_hex.
    + rewrite Forall_fmap. apply Forall_true. intros x. apply digest_hex.
    + by rewrite length_fmap.
    + constructor.
Qed.

Lemma height_bound n : (Z.of_nat n ≤ 16777216)%Z → Nat.log2_up n ≤ MERKLE_PROOF_MAX_STEPS.
Proof.
  intros H. transitivity (Nat.log2_up (2 ^ 24)).
  - apply Nat.log2_up_le_mono, Nat2Z.inj_le. rewrite Nat2Z.inj_pow. exact H.
  - rewrite Nat.log2_up_pow2 by lia. unfold MERKLE_PROOF_MAX_STEPS. lia.
Qed.

Lemma digest_steps_valid p :
  Forall (λ s, is_digest_hex (step_sibling s) = true) p →
  forallb isProofStep (forget_step <$> p) = true ∧ normal_step <$> p = p.
Proof.
  induction 1 as [|s p Hs Hp [IH1 IH2]]; [done|].
  rewrite !fmap_cons. cbn [forallb]. rewrite IH1, IH2, normal_step_digest by done.
  split; [|done].
  rewrite isProofStep_forget. unfold isHashHex. by rewrite normalize_digest.
Qed.

Lemma verify_typed leaf p root :
  length p ≤ MERKLE_PROOF_MAX_STEPS →
  Forall (λ s, is_digest_hex (step_sibling s) = true) p → is_digest_hex root = true →
  verifyProof hash (Some leaf) (forget_proof p) (Some root)
    = String.eqb (foldl (apply_step hash) (hash leaf) p) root.
Proof.
  intros Hlen Hp Hr. destruct (digest_steps_valid p Hp) as [Hv Hn].
  unfold verifyProof. rewrite normalize_digest by done.
  unfold isProof, forget_proof. rewrite length_fmap.
  assert ((MERKLE_PROOF_MAX_STEPS <? length p) = false) as -> by (by apply Nat.ltb_ge).
  by rewrite Hv, verify_loop_typed, Hn.
Qed.

Lemma climb_digest c p :
  is_digest_hex c = true → is_digest_hex (foldl (apply_step hash) c p) = true.
Proof.
  revert c. induction p as [|s p IH]; intros c Hc; [done|].
  cbn. apply IH. unfold apply_step. destruct (step_position s); apply digest_hex.
Qed.

Lemma proof_of_leaf max leaves tree i :
  (max ≤ 16777216)%Z →
  buildTree hash max leaves = Ok tree → i < length leaves →
  ∃ p, generateProof hash leaves (Some (Z.of_nat i)) = Ok p
    ∧ verifyProof hash (Some (leaves !!! i)) (forget_proof p) (Some (getRoot tree)) = true
    ∧ length p = Nat.log2_up (length leaves).
Proof.
  intros Hmax Hb Hi. pose proof (buildTree_inv _ _ _ Hb) as (_ & Hle & _).
  destruct (tree_and_proof max leaves tree i Hb Hi) as (p & Hg & Hr & Hl & Hs).
  exists p. split_and!; [done| |done].
  rewrite verify_typed, Hr, String.eqb_refl; [done| |done|].
  - rewrite Hl. apply height_bound. lia.
  - rewrite Hr. apply climb_digest, digest_hex.
Qed.

(** C1. The proof generated for any leaf of a tree the builder accepts is
    accepted by the verifier against the tree's root, and has one step per
    level of the tree. *)
Theorem generated_proof_verifies max leaves tree i :
  (max ≤ 16777216)%Z →
  buildTree hash max leaves = Ok tree → i < length leaves →
  ∃ p, generateProof hash leaves (Some (Z.of_nat i)) = Ok p
    ∧ verifyProof hash (Some (leaves !!! i)) (forget_proof p) (Some (getRoot tree)) = true
    ∧ length p = Nat.log2_up (length leaves).
Proof. apply proof_of_leaf. Qed.

(** C2. Binding: a proof with the shape of leaf [i]'s proof (same positions)
    that the verifier accepts for some string either proves [leaves[i]]
    itself, or exhibits, among the strings the two verification runs hash,
    two different strings with the same digest. *)
Theorem accepted_leaf_is_bound max leaves tree i p q leaf :
  buildTree hash max leaves = Ok tree → i < length leaves →
  generateProof hash leaves (Some (Z.of_nat i)) = Ok p →
  step_position <$> q = step_position <$> p →
  verifyProof hash (Some leaf) (forget_proof q) (Some (getRoot tree)) = true →
  leaf = leaves !!! i
  ∨ ∃ x y, x ∈ verify_inputs hash leaf (normal_step <$> q)
      ∧ y ∈ verify_inputs hash (leaves !!! i) p ∧ x ≠ y ∧ hash x = hash y.
Proof.
  intros Hb Hi Hg Hpos Hv.
  destruct (tree_and_proof max leaves tree i Hb Hi) as (p' & Hg' & Hr & _ & Hs).
  rewrite Hg in Hg'. injection Hg' as <-.
  unfold verifyProof in Hv.
  rewrite (normalize_digest (getRoot tree)) in Hv
    by (rewrite Hr; apply climb_digest, digest_hex).
  destruct (isProof (forget_proof q)) eqn:Hq; [|discriminate]. cbn [negb forget_proof] in Hv.
  unfold isProof, forget_proof in Hq. case_if_in Hq; [discriminate|].
  rewrite verify_loop_typed in Hv by done. apply String.eqb_eq in Hv. rewrite Hr in Hv.
  destruct (climbs_meet hash (normal_step <$> q) p (hash leaf) (hash (leaves !!! i)))
    as [Hh|(x & y & Hx & Hy & Hne & Heq)]; [| | |by apply digest_length..|done| |].
  - rewrite <- Hpos. clear. induction q as [|s q IH]; [done|].
    cbn [fmap list_fmap]. f_equal. exact IH.
  - apply Forall_fmap, Forall_forall. intros s Hin.
    rewrite forallb_forall in Hq. unfold compose, normal_step. cbn [step_sibling].
    assert (isProofStep (forget_step s) = true) as Hstep
      by (apply Hq, list_elem_of_In, list_elem_of_fmap; eauto).
    rewrite isProofStep_forget in Hstep. unfold isHashHex in Hstep.
    destruct (normalizeHashHex _) eqn:E; [|done]. by apply normalize_length in E.
  - eapply Forall_impl; [exact Hs|]. cbn. intros s Hd.
    unfold is_digest_hex in Hd. apply andb_true_iff in Hd as [Hd _]. by apply Nat.eqb_eq in Hd.
  - destruct (decide (leaf = leaves !!! i)) as [|Hne]; [by left|].
    right. exists leaf, (leaves !!! i). split_and!; [constructor..|done|done].
  - right. exists x, y. split_and!; [by constructor 2..|done|done].
Qed.

(** The builder accepts exactly the non-empty leaf lists within the
    limit whose leaves are all non-empty; the loop always terminates; the
    flat array starts with the hashed leaves. *)
Theorem buildTree_accepts max leaves :
  match buildTree hash max leaves with
  | Ok tree =>
      0 < length leaves ∧ (Z.of_nat (length leaves) ≤ max)%Z ∧ Forall (λ l, l ≠ "") leaves
      ∧ take (length leaves) tree = hash <$> leaves
  | Err NoLeaves => leaves = []
  | Err TooManyLeaves => (max < Z.of_nat (length leaves))%Z
  | Err BadLeaf => "" ∈ leaves
  | Err BuildDiverged => False
  end.
Proof.
  unfold buildTree.
  destruct (length leaves =? 0) eqn:E0; [apply Nat.eqb_eq in E0; by destruct leaves|].
  apply Nat.eqb_neq in E0. case_if; [lia|].
  destruct (existsb _ leaves) eqn:Ex.
  - apply existsb_exists in Ex as (l & Hl & Hz%Nat.eqb_eq).
    destruct l; [by apply list_elem_of_In | discriminate].
  - destruct (build_loop_total hash (length leaves) (hash <$> leaves) (hash <$> leaves))
      as [r ->]; [rewrite length_fmap; lia..|].
    split_and!; [lia|lia| |].
    + apply Forall_forall. intros l Hl ->. enough (existsb (λ leaf, String.length leaf =? 0) leaves = true) by congruence.
      apply existsb_exists. exists "". split; [by apply list_elem_of_In|done].
    + rewrite take_app_le by (by rewrite length_fmap). by rewrite take_ge by (by rewrite length_fmap).
Qed.

(** No domain separation: the string hashed at the first step of a
    leaf's proof (two child digests concatenated) is itself accepted as a
    leaf, with the rest of the proof. *)
Theorem inner_node_accepted_as_leaf max leaves tree i s rest :
  (max ≤ 16777216)%Z →
  buildTree hash max leaves = Ok tree → i < length leaves →
  generateProof hash leaves (Some (Z.of_nat i)) = Ok (s :: rest) →
  verifyProof hash
    (Some (match step_position s with
           | PosRight => hash (leaves !!! i) +:+ step_sibling s
           | PosLeft => step_sibling s +:+ hash (leaves !!! i)
           end))
    (forget_proof rest) (Some (getRoot tree)) = true.
Proof.
  intros Hmax Hb Hi Hg. pose proof (buildTree_inv _ _ _ Hb) as (_ & Hle & _).
  destruct (tree_and_proof max leaves tree i Hb Hi) as (p & Hg' & Hr & Hl & Hs).
  rewrite Hg in Hg'. injection Hg' as <-. inversion_clear Hs as [|? ? _ Hs'].
  rewrite verify_typed; [| |done|].
  - apply String.eqb_eq. rewrite Hr. cbn. by unfold apply_step at 3; destruct (step_position s).
  - cbn in Hl. pose proof (height_bound (length leaves)). lia.
  - rewrite Hr. apply climb_digest, digest_hex.
Qed.
End Properties.

(** ** Witnesses: a tree of five leaves under the example digest *)

Definition sample_leaves : list string := ["2025-01:10.00"; "2025-02:11.50"; "2025-03:9.75"; "2025-04:12.00"; "2025-05:3.20"].
Definition sample_tree : list string :=
  match buildTree toy_hash 1048576 sample_leaves with Ok t => t | Err _ => [] end.
Definition sample_proof (i : Z) : list proof_step :=
  match generateProof toy_hash sample_leaves (Some i) with Ok p => p | Err _ => [] end.

Lemma sample_tree_built : buildTree toy_hash 1048576 sample_leaves = Ok sample_tree.
Proof. vm_compute. reflexivity. Qed.

Lemma generated_proof_verifies_witness :
  ∃ p, generateProof toy_hash sample_leaves (Some 4%Z) = Ok p
    ∧ verifyProof toy_hash (Some "2025-05:3.20") (forget_proof p) (Some (getRoot sample_tree)) = true
    ∧ length p = Nat.log2_up 5.
Proof.
  apply (generated_proof_verifies toy_hash 1048576 sample_leaves sample_tree 4).
  - lia.
  - exact sample_tree_built.
  - cbn. lia.
Defined.

Lemma accepted_leaf_is_bound_witness :
  "2025-02:11.50" = sample_leaves !!! 1
  ∨ ∃ x y, x ∈ verify_inputs toy_hash "2025-02:11.50" (normal_step <$> sample_proof 1)
      ∧ y ∈ verify_inputs toy_hash (sample_leaves !!! 1) (sample_proof 1) ∧ x ≠ y
      ∧ toy_hash x = toy_hash y.
Proof.
  apply (accepted_leaf_is_bound toy_hash 1048576 sample_leaves sample_tree 1
           (sample_proof 1) (sample_proof 1)).
  - exact sample_tree_built.
  - cbn. lia.
  - vm_compute. reflexivity.
  - reflexivity.
  - vm_compute. reflexivity.
Defined.

Lemma inner_node_accepted_as_leaf_witness :
  verifyProof toy_hash
    (Some (toy_hash "2025-01:10.00" +:+ toy_hash "2025-02:11.50"))
    (forget_proof (tail (sample_proof 0))) (Some (getRoot sample_tree)) = true.
Proof.
  apply (inner_node_accepted_as_leaf toy_hash 1048576 sample_leaves sample_tree 0
           {| step_sibling := toy_hash "2025-02:11.50"; step_position := PosRight |}
           (tail (sample_proof 0))).
  - lia.
  - exact sample_tree_built.
  - cbn. lia.
  - vm_compute. reflexivity.
Defined.
