(* ===== verification/MerkleLegacy.v ===== *)
(** * The Buffer-based [MerkleTree] class of [src/services/merkle.ts].

    Levels are stored root first, as the constructor [unshift]s them.  [sha]
    is SHA-256 on buffers. *)

From Stdlib Require Import Strings.Byte.
From S2P Require Import Prelude Numeric Hashing PairTree.
#[local] Open Scope nat_scope.

Inductive leaf_value := LeafString (s : string) | LeafBuffer (b : list byte).

Inductive tree_error := RequiresOneLeaf | LeafCountExceeds | EmptyStringLeaf | TreeDiverged.

Section MerkleTree.
Context (sha : list byte → list byte).

Definition leaf_bytes (l : leaf_value) : list byte :=
  match l with LeafString s => buffer_from_string s | LeafBuffer b => b end.

Definition is_empty_string (l : leaf_value) : bool :=
  match l with LeafString "" => true | _ => false end.

Definition join_buffers (l r : list byte) : list byte := sha (l ++ r).

Fixpoint level_loop (fuel : nat) (level : list (list byte)) (levels : list (list (list byte)))
  : option (list (list (list byte))) :=
  match fuel with
  | O => None
  | S f =>
      if 1 <? length level
      then let next := pair_level join_buffers level in level_loop f next (next :: levels)
      else Some levels
  end.

(** The constructor; the result is [this.levels]. *)
Definition MerkleTree_new (max_leaves : Z) (leaves : list leaf_value)
  : result tree_error (list (list (list byte))) :=
  if length leaves =? 0 then Err RequiresOneLeaf
  else if (max_leaves <? Z.of_nat (length leaves))%Z then Err LeafCountExceeds
  else if existsb is_empty_string leaves then Err EmptyStringLeaf
  else
    let level := (λ l, sha (leaf_bytes l)) <$> leaves in
    match level_loop (length leaves) level [level] with
    | Some levels => Ok levels
    | None => Err TreeDiverged
    end.

Definition MerkleTree_getRoot (levels : list (list (list byte))) : string :=
  match levels with
  | [] => ""
  | top :: _ => buffer_to_hex (top !!! 0)
  end.

(** The [for (lvl = levels.length - 1; lvl > 0; lvl--)] loop over the levels
    below the root, bottom first. *)
Fixpoint proof_up (below : list (list (list byte))) (index : nat) : list string :=
  match below with
  | [] => []
  | level :: up => buffer_to_hex (sibling_of level index) :: proof_up up (index / 2)
  end.

Definition MerkleTree_getProof (levels : list (list (list byte))) (leafIndex : Z) : list string :=
  match last levels with
  | None => []
  | Some bottom =>
      if (leafIndex <? 0)%Z || (Z.of_nat (length bottom) <=? leafIndex)%Z then []
      else proof_up (reverse (tail levels)) (Z.to_nat leafIndex)
  end.

Fixpoint verify_up (hash : list byte) (index : Z) (proof : list string) : list byte :=
  match proof with
  | [] => hash
  | sibHex :: rest =>
      let sibling := buffer_from_hex sibHex in
      verify_up
        (if Z.even index then sha (hash ++ sibling) else sha (sibling ++ hash))
        (index / 2)%Z rest
  end.

Definition MerkleTree_verifyProof (leaf : leaf_value) (proof : list string)
    (rootHex : string) (leafIndex : Z) : bool :=
  String.eqb (buffer_to_hex (verify_up (sha (leaf_bytes leaf)) leafIndex proof)) rootHex.

(** ** Lemmas *)

(** Climbing from the level [level] through [k] more levels. *)
Lemma level_loop_climb fuel level levels index :
  index < length level → length level ≤ fuel →
  ∃ above, level_loop fuel level levels = Some (reverse above ++ levels)
    ∧ match reverse above ++ [level] with
      | top :: _ =>
          top !!! 0 = verify_up (level !!! index) (Z.of_nat index)
            (proof_up (take (length above) (level :: above)) index)
      | [] => False
      end.
Proof.
  revert level levels index. induction fuel as [|f IH]; intros level levels index Hi Hle; [lia|].
  cbn [level_loop]. destruct (1 <? length level) eqn:E.
  - apply Nat.ltb_lt in E.
    destruct (pair_level_shorter join_buffers level E) as [Hs Hp].
    set (next := pair_level join_buffers level) in *.
    destruct (IH next (next :: levels) (index / 2)) as (above & Hl & Htop);
      [by apply half_lt_length|lia|].
    exists (next :: above). rewrite reverse_cons, <- (assoc_L app). split; [exact Hl|].
    rewrite <- (assoc_L app). cbn [app length take proof_up verify_up].
    rewrite buffer_from_to_hex.
    assert ((if Z.even (Z.of_nat index)
             then sha ((level !!! index) ++ sibling_of level index)
             else sha (sibling_of level index ++ (level !!! index))) = next !!! (index / 2)) as ->.
    { unfold next. rewrite parent_lookup by done. by rewrite even_of_nat. }
    replace (Z.of_nat index / 2)%Z with (Z.of_nat (index / 2)) by (by rewrite Nat2Z.inj_div).
    destruct (reverse above ++ [next]) as [|t r] eqn:Er; [done|].
    change (reverse above ++ next :: [level]) with (reverse above ++ [next] ++ [level]).
    rewrite (assoc_L app), Er. exact Htop.
  - apply Nat.ltb_ge in E. exists []. split; [done|]. cbn.
    by replace index with 0 by lia.
Qed.

(** For every leaf of a constructed tree, [verifyProof] accepts the
    proof [getProof] returns against [getRoot]; the constructor's loop
    always terminates. *)
Theorem legacy_proof_verifies max leaves levels i :
  MerkleTree_new max leaves = Ok levels → i < length leaves →
  ∃ l, leaves !! i = Some l
    ∧ MerkleTree_verifyProof l (MerkleTree_getProof levels (Z.of_nat i))
        (MerkleTree_getRoot levels) (Z.of_nat i) = true.
Proof.
  unfold MerkleTree_new. intros Hnew Hi. repeat case_if_in Hnew; try discriminate.
  destruct (level_loop _ _ _) as [ls|] eqn:E; [|discriminate]. injection Hnew as <-.
  destruct (lookup_lt_is_Some_2 leaves i Hi) as [l Hl]. exists l. split; [done|].
  set (bottom := (λ l, sha (leaf_bytes l)) <$> leaves) in *.
  assert (length bottom = length leaves) as Hlen by (by unfold bottom; rewrite length_fmap).
  destruct (level_loop_climb (length leaves) bottom [bottom] i) as (above & Hab & Htop); [lia..|].
  rewrite E in Hab. injection Hab as ->.
  unfold MerkleTree_verifyProof. apply String.eqb_eq.
  unfold MerkleTree_getProof. rewrite last_snoc.
  assert (((Z.of_nat i <? 0) || (Z.of_nat (length bottom) <=? Z.of_nat i))%Z = false) as ->
    by (apply orb_false_iff; lia).
  rewrite Nat2Z.id. destruct (reverse above ++ [bottom]) as [|top rest] eqn:Er; [done|].
  unfold MerkleTree_getRoot. cbn [tail]. rewrite Htop. f_equal.
  assert (reverse (top :: rest) = bottom :: above) as Hrev
    by (by rewrite <- Er, reverse_app, reverse_involutive).
  rewrite reverse_cons in Hrev.
  assert (reverse rest = take (length above) (bottom :: above)) as ->.
  { rewrite <- Hrev. rewrite take_app_le; [rewrite take_ge; [done|]|];
      apply (f_equal length) in Hrev; rewrite length_app in Hrev; cbn in Hrev; lia. }
  f_equal. unfold bottom. symmetry. apply list_lookup_total_correct.
  by rewrite list_lookup_fmap, Hl.
Qed.

(** The constructor never runs out of levels. *)
Lemma MerkleTree_new_terminates max leaves : MerkleTree_new max leaves ≠ Err TreeDiverged.
Proof.
  unfold MerkleTree_new. repeat case_if; try discriminate.
  apply Nat.eqb_neq in Heqb.
  destruct (level_loop_climb (length leaves) ((λ l, sha (leaf_bytes l)) <$> leaves)
    [(λ l, sha (leaf_bytes l)) <$> leaves] 0) as (above & -> & _);
    [rewrite length_fmap; lia..|discriminate].
Qed.
End MerkleTree.

(** ** Witness *)

Definition toy_sha (b : list byte) : list byte :=
  buffer_from_hex (toy_hash (String.string_of_list_byte b)).

Definition legacy_leaves : list leaf_value :=
  [LeafString "2025-10:1200.00"; LeafString "2025-11:900.00"; LeafBuffer [x00; xff]].
Definition legacy_levels : list (list (list byte)) :=
  match MerkleTree_new toy_sha 1048576 legacy_leaves with Ok l => l | Err _ => [] end.

Lemma legacy_proof_verifies_witness :
  ∃ l, legacy_leaves !! 2 = Some l
    ∧ MerkleTree_verifyProof toy_sha l (MerkleTree_getProof legacy_levels 2)
        (MerkleTree_getRoot legacy_levels) 2 = true.
Proof.
  apply (legacy_proof_verifies toy_sha 1048576 legacy_leaves legacy_levels 2).
  - vm_compute. reflexivity.
  - cbn. lia.
Defined.
