(* ===== verification/DrrScheduler.v ===== *)
(** * The deficit round-robin scheduler: [src/services/soroban/drrScheduler.ts].

    [tenants] is the [Map] of tenant states, [activeOrder] the round-robin
    list.  [dequeueBatch] is the pair of nested loops of the source: rounds,
    tenants of the round, items of a tenant.  Metrics and log lines are left
    out: they read the state and never change it. *)

From Stdlib Require Import QArith Qround.
From S2P Require Import Prelude Numeric.
#[local] Open Scope Z_scope.

(** ** Weights *)

Definition DEFAULT_DRR_QUANTUM : Z := 10.
Definition FALLBACK_WEIGHT : Z := 1.

Definition DEFAULT_TIER_WEIGHTS : gmap string Z :=
  list_to_map [("free", 1); ("starter", 2); ("growth", 4); ("enterprise", 8)].

(** What [JSON.parse] gave for [DRR_SCHEDULER_TIER_WEIGHTS]; an entry's value
    is [None] when it is not an integer number. *)
Inductive tier_env :=
| EnvUnset
| EnvUnparseable
| EnvNotObject
| EnvObject (entries : list (string * option Z)).

(** One entry of either override loop. *)
Definition apply_weight (base : gmap string Z) (entry : string * option Z) : gmap string Z :=
  match entry.2 with
  | Some v => if 0 <? v then <[entry.1 := v]> base else <[entry.1 := FALLBACK_WEIGHT]> base
  | None => <[entry.1 := FALLBACK_WEIGHT]> base
  end.

Definition resolveTierWeights (env : tier_env) (overrides : option (list (string * option Z)))
  : gmap string Z :=
  let base := match env with
              | EnvObject entries => foldl apply_weight DEFAULT_TIER_WEIGHTS entries
              | _ => DEFAULT_TIER_WEIGHTS
              end in
  match overrides with
  | Some entries => foldl apply_weight base entries
  | None => base
  end.

Definition resolveWeight (tierWeights : gmap string Z) (tier : string) : Z :=
  match tierWeights !! tier with
  | Some w => if 0 <? w then w else FALLBACK_WEIGHT
  | None => FALLBACK_WEIGHT
  end.

(** [quantum > 0 ? Math.floor(quantum) : DEFAULT_DRR_QUANTUM] on a finite
    number. *)
Definition resolve_quantum (quantum : Q) : Z :=
  if Qle_bool quantum 0 then DEFAULT_DRR_QUANTUM else Qfloor quantum.

(** ** State *)

Record item (T : Type) := {
  tenantId : string;
  tier : string;
  payload : T;
  enqueuedAt : Z
}.
Arguments tenantId {T} _.
Arguments tier {T} _.
Arguments payload {T} _.
Arguments enqueuedAt {T} _.

Record tenant_state (T : Type) := {
  queue : list (item T);
  deficit : Z;
  weight : Z
}.
Arguments queue {T} _.
Arguments deficit {T} _.
Arguments weight {T} _.

Record scheduler (T : Type) := {
  tenants : gmap string (tenant_state T);
  activeOrder : list string;
  tierWeights : gmap string Z;
  quantum : Z;
  rounds : Z
}.
Arguments tenants {T} _.
Arguments activeOrder {T} _.
Arguments tierWeights {T} _.
Arguments quantum {T} _.
Arguments rounds {T} _.

Section Scheduler.
Context {T : Type}.
Implicit Types (s : scheduler T) (it : item T) (st : tenant_state T).

Definition new_scheduler (env : tier_env) (overrides : option (list (string * option Z)))
    (q : Q) : scheduler T :=
  {| tenants := ∅; activeOrder := [];
     tierWeights := resolveTierWeights env overrides;
     quantum := resolve_quantum q; rounds := 0 |}.

(** ** Operations *)

Definition enqueue (it : item T) (s : scheduler T) : scheduler T :=
  let w := resolveWeight (tierWeights s) (tier it) in
  let st := match tenants s !! tenantId it with
            | Some old => {| queue := queue old ++ [it]; deficit := deficit old; weight := w |}
            | None => {| queue := [it]; deficit := 0; weight := w |}
            end in
  {| tenants := <[tenantId it := st]> (tenants s);
     activeOrder := if includes (tenantId it) (activeOrder s) then activeOrder s
                    else activeOrder s ++ [tenantId it];
     tierWeights := tierWeights s; quantum := quantum s; rounds := rounds s |}.

(** The innermost loop: [while (deficit >= 1 && queue.length > 0 &&
    result.length < batchSize)]. *)
Fixpoint consume (batchSize : Z) (q : list (item T)) (d : Z) (result : list (item T))
  : list (item T) * Z * list (item T) :=
  match q with
  | [] => ([], d, result)
  | it :: rest =>
      if (1 <=? d) && (Z.of_nat (length result) <? batchSize)
      then consume batchSize rest (d - 1) (result ++ [it])
      else (q, d, result)
  end.

(** The [for (const tenantId of roundOrder)] loop. *)
Fixpoint visit (batchSize quantum : Z) (order : list string)
    (ts : gmap string (tenant_state T)) (result : list (item T)) (exhausted : list string)
  : gmap string (tenant_state T) * list (item T) * list string :=
  match order with
  | [] => (ts, result, exhausted)
  | id :: rest =>
      if batchSize <=? Z.of_nat (length result) then (ts, result, exhausted)
      else match ts !! id with
      | None => visit batchSize quantum rest ts result (exhausted ++ [id])
      | Some st =>
          match queue st with
          | [] => visit batchSize quantum rest ts result (exhausted ++ [id])
          | _ =>
              let '(q, d, result') :=
                consume batchSize (queue st) (deficit st + weight st * quantum) result in
              let ts' := <[id := {| queue := q; deficit := d; weight := weight st |}]> ts in
              visit batchSize quantum rest ts' result'
                (match q with [] => exhausted ++ [id] | _ => exhausted end)
          end
      end
  end.

(** One iteration of the outer [while]. *)
Definition round (batchSize : Z) (s : scheduler T) (result : list (item T))
  : scheduler T * list (item T) :=
  let '(ts, result', exhausted) :=
    visit batchSize (quantum s) (activeOrder s) (tenants s) result [] in
  ({| tenants := ts;
      activeOrder := List.filter (λ id, negb (includes id exhausted)) (activeOrder s);
      tierWeights := tierWeights s; quantum := quantum s; rounds := rounds s + 1 |},
   result').

Fixpoint dequeue_loop (fuel : nat) (batchSize : Z) (s : scheduler T) (result : list (item T))
  : option (scheduler T * list (item T)) :=
  if (Z.of_nat (length result) <? batchSize) && negb (length (activeOrder s) =? 0)%nat
  then match fuel with
       | O => None
       | S f => let '(s', result') := round batchSize s result in dequeue_loop f batchSize s' result'
       end
  else Some (s, result).

(** [None] stands for a loop that has not ended after [fuel] rounds. *)
Definition dequeueBatch (fuel : nat) (batchSize : Z) (s : scheduler T)
  : option (scheduler T * list (item T)) :=
  if batchSize <=? 0 then Some (s, []) else dequeue_loop fuel batchSize s [].

Definition totalDepth (s : scheduler T) : nat :=
  map_fold (λ _ st total, (total + length (queue st))%nat) 0%nat (tenants s).

(** [stats().tenants]: depth, deficit and weight per tenant. *)
Definition stats_tenants (s : scheduler T) : gmap string (nat * Z * Z) :=
  (λ st, (length (queue st), deficit st, weight st)) <$> tenants s.

Definition reset (s : scheduler T) : scheduler T :=
  {| tenants := ∅; activeOrder := []; tierWeights := tierWeights s;
     quantum := quantum s; rounds := 0 |}.

End Scheduler.

(** ** Well-formed schedulers *)

Definition items_of {T} (id : string) (l : list (item T)) : list (item T) :=
  List.filter (λ it, String.eqb (tenantId it) id) l.

Definition queue_of {T} (ts : gmap string (tenant_state T)) (id : string) : list (item T) :=
  match ts !! id with Some st => queue st | None => [] end.

Definition tenant_ok {T} (id : string) (st : tenant_state T) : Prop :=
  1 ≤ weight st ∧ 0 ≤ deficit st ∧ Forall (λ it, tenantId it = id) (queue st).

(** The invariant: credits are positive, deficits never negative, every item
    sits in its own tenant's queue, the round-robin list has no duplicates and
    lists every tenant with pending items. *)
Record wf {T} (s : scheduler T) : Prop := {
  wf_quantum : 1 ≤ quantum s;
  wf_tenants : map_Forall tenant_ok (tenants s);
  wf_active : ∀ id, queue_of (tenants s) id ≠ [] → id ∈ activeOrder s;
  wf_nodup : NoDup (activeOrder s)
}.

Definition depth_of {T} (ts : gmap string (tenant_state T)) : nat :=
  map_fold (λ _ st total, (total + length (queue st))%nat) 0%nat ts.

Section Depth.
Context {T : Type}.
Implicit Types (ts : gmap string (tenant_state T)).

Lemma depth_of_insert_new ts id st :
  ts !! id = None → depth_of (<[id := st]> ts) = (depth_of ts + length (queue st))%nat.
Proof.
  intros H. unfold depth_of. rewrite map_fold_insert_L; [done| |done].
  intros. lia.
Qed.

Lemma depth_of_delete ts id st :
  ts !! id = Some st → depth_of ts = (depth_of (delete id ts) + length (queue st))%nat.
Proof.
  intros H. rewrite <- (insert_delete_id ts id st H) at 1.
  apply depth_of_insert_new, lookup_delete_eq.
Qed.

Lemma depth_of_update ts id st st' :
  ts !! id = Some st →
  (depth_of (<[id := st']> ts) + length (queue st))%nat
  = (depth_of ts + length (queue st'))%nat.
Proof.
  intros H. rewrite <- (insert_delete_eq ts id st').
  rewrite depth_of_insert_new by apply lookup_delete_eq.
  pose proof (depth_of_delete ts id st H). lia.
Qed.

Lemma depth_of_zero ts : (∀ id, queue_of ts id = []) → depth_of ts = 0%nat.
Proof.
  induction ts as [|id st ts Hid IH] using map_ind; intros H; [done|].
  rewrite depth_of_insert_new by done.
  pose proof (H id) as Hq. unfold queue_of in Hq. rewrite lookup_insert_eq in Hq. rewrite Hq.
  rewrite IH; [done|]. intros id'. pose proof (H id') as H'. unfold queue_of in *.
  destruct (decide (id = id')) as [<-|]; [by rewrite Hid|]. by rewrite lookup_insert_ne in H'.
Qed.

Lemma queue_of_insert_eq ts id st : queue_of (<[id := st]> ts) id = queue st.
Proof. unfold queue_of. by rewrite lookup_insert_eq. Qed.

Lemma queue_of_insert_ne ts id id' st :
  id ≠ id' → queue_of (<[id := st]> ts) id' = queue_of ts id'.
Proof. intros H. unfold queue_of. by rewrite lookup_insert_ne. Qed.
End Depth.

Section Rounds.
Context {T : Type}.
Implicit Types (s : scheduler T) (ts : gmap string (tenant_state T)) (r : list (item T)).

Lemma items_of_app id r r' : items_of id (r ++ r') = items_of id r ++ items_of id r'.
Proof. apply List.filter_app. Qed.

Lemma items_of_same id (l : list (item T)) :
  Forall (λ it, tenantId it = id) l → items_of id l = l.
Proof.
  induction 1 as [|it l Hit Hl IH]; [done|]. unfold items_of in *. cbn [List.filter].
  by rewrite Hit, String.eqb_refl, IH.
Qed.

Lemma items_of_other id id' (l : list (item T)) :
  id ≠ id' → Forall (λ it, tenantId it = id) l → items_of id' l = [].
Proof.
  intros Hne. induction 1 as [|it l Hit Hl IH]; [done|]. unfold items_of in *. cbn [List.filter].
  rewrite Hit. apply String.eqb_neq in Hne. by rewrite Hne, IH.
Qed.

(** What the innermost loop takes: a prefix of the queue, as long as credits
    and room allow. *)
Lemma consume_spec bs q d r q' d' r' :
  consume bs q d r = (q', d', r') →
  ∃ taken, q = taken ++ q' ∧ r' = r ++ taken ∧ d' = d - Z.of_nat (length taken)
    ∧ Z.of_nat (length taken)
      = Z.max 0 (Z.min (Z.of_nat (length q)) (Z.min d (bs - Z.of_nat (length r)))).
Proof.
  revert d r. induction q as [|it q IH]; intros d r; cbn [consume].
  - intros [= <- <- <-]. exists []. cbn [app length].
    split_and!; rewrite ?app_nil_r; (done || lia).
  - case_if; intros H.
    + apply IH in H as (taken & -> & -> & -> & Hlen).
      exists (it :: taken). rewrite <- (assoc_L app). rewrite !length_app in Hlen.
      cbn [app length] in *. rewrite ?length_app. split_and!; (done || bool_lia).
    + injection H as <- <- <-. exists []. apply andb_false_iff in Heqb. cbn [app length].
      split_and!; rewrite ?app_nil_r; (done || lia || (destruct Heqb; lia)).
Qed.

(** Induction over the tenants visited in a round. *)
Lemma visit_ind (P : gmap string (tenant_state T) → list (item T) → Prop) bs qn order ts r e ts' r' e' :
  (∀ ts r id st q d r', ts !! id = Some st → queue st ≠ [] → Z.of_nat (length r) < bs →
     consume bs (queue st) (deficit st + weight st * qn) r = (q, d, r') → P ts r →
     P (<[id := {| queue := q; deficit := d; weight := weight st |}]> ts) r') →
  visit bs qn order ts r e = (ts', r', e') → P ts r → P ts' r'.
Proof.
  intros Hstep. revert ts r e. induction order as [|id order IH]; intros ts r e Hv HP; cbn [visit] in Hv.
  - by simplify_eq.
  - case_if_in Hv; [by simplify_eq|]. apply Z.leb_gt in Heqb.
    destruct (ts !! id) as [st|] eqn:Hid; [|by eapply IH].
    destruct (queue st) as [|it q0] eqn:Hq; [by eapply IH|]. rewrite <- Hq in Hv.
    destruct (consume _ _ _ _) as [[q d] r1] eqn:Hc.
    eapply IH; [exact Hv|]. apply (Hstep ts r id st q d r1); [done|by rewrite Hq|lia|exact Hc|done].
Qed.

(** Every tenant's stream of items, served then pending, is unchanged. *)
Definition stream (ts : gmap string (tenant_state T)) r (id : string) : list (item T) :=
  items_of id r ++ queue_of ts id.

Lemma visit_stream bs qn order ts r e ts' r' e' :
  1 ≤ qn → visit bs qn order ts r e = (ts', r', e') → map_Forall tenant_ok ts →
  map_Forall tenant_ok ts' ∧ (∀ id, stream ts' r' id = stream ts r id)
  ∧ (length r' + depth_of ts')%nat = (length r + depth_of ts)%nat.
Proof.
  intros Hqn Hv Hok.
  apply (visit_ind (λ ts1 r1, map_Forall tenant_ok ts1 ∧ (∀ id, stream ts1 r1 id = stream ts r id)
    ∧ (length r1 + depth_of ts1)%nat = (length r + depth_of ts)%nat)) in Hv; [done| |done].
  clear Hv. intros ts1 r1 id st q d r2 Hid _ Hroom Hc (Hok1 & Hst & Hdep).
  destruct (Hok1 id st Hid) as (Hw & Hd & Hq).
  apply consume_spec in Hc as (taken & Hsplit & -> & -> & Hlen). split_and!.
  - apply map_Forall_insert_2; [|done]. split_and!; cbn [weight deficit queue]; [done|nia|].
    rewrite Hsplit in Hq. by apply Forall_app in Hq as [_ ?].
  - intros id'. rewrite <- Hst. unfold stream. rewrite items_of_app.
    rewrite Hsplit in Hq. apply Forall_app in Hq as [Ht _].
    destruct (decide (id = id')) as [<-|Hne].
    + rewrite queue_of_insert_eq, (items_of_same id taken) by done. cbn [queue].
      unfold queue_of. rewrite Hid, Hsplit. by rewrite (assoc_L app).
    + rewrite queue_of_insert_ne, (items_of_other id id' taken) by done. by rewrite app_nil_r.
  - pose proof (depth_of_update ts1 id st {| queue := q; deficit := deficit st + weight st * qn - Z.of_nat (length taken); weight := weight st |} Hid) as Hu.
    cbn [queue] in Hu. rewrite Hsplit, length_app in Hu. rewrite length_app. lia.
Qed.

Lemma visit_room bs qn order ts r e ts' r' e' :
  visit bs qn order ts r e = (ts', r', e') → Z.of_nat (length r) ≤ bs →
  Z.of_nat (length r) ≤ Z.of_nat (length r') ≤ bs.
Proof.
  intros Hv Hr. apply (visit_ind (λ _ r1, Z.of_nat (length r) ≤ Z.of_nat (length r1) ≤ bs)) in Hv;
    [done| |lia].
  clear Hv. intros _ r1 _ st q d r2 _ _ Hroom Hc Hle.
  apply consume_spec in Hc as (taken & _ & -> & _ & Hlen). rewrite length_app. lia.
Qed.

Lemma visit_shrinks bs qn order ts r e ts' r' e' :
  visit bs qn order ts r e = (ts', r', e') →
  ∀ id, ∃ l, queue_of ts id = l ++ queue_of ts' id.
Proof.
  intros Hv. refine (visit_ind (λ ts1 _, ∀ id, ∃ l, queue_of ts id = l ++ queue_of ts1 id)
    bs qn order ts r e ts' r' e' _ Hv _); [|by exists []].
  clear Hv. intros ts1 r1 id st q d r2 Hid _ _ Hc Hs id'.
  apply consume_spec in Hc as (taken & Hsplit & _ & _ & _).
  destruct (Hs id') as [l Hl]. destruct (decide (id = id')) as [<-|Hne].
  - exists (l ++ taken). rewrite queue_of_insert_eq, Hl. cbn [queue].
    unfold queue_of. by rewrite Hid, Hsplit, (assoc_L app).
  - exists l. by rewrite queue_of_insert_ne.
Qed.

(** The exhausted list only grows, within the round order, by tenants whose
    queue is empty afterwards. *)
Lemma visit_exhausted bs qn order ts r e ts' r' e' :
  visit bs qn order ts r e = (ts', r', e') →
  (∀ id, id ∈ e → id ∈ e') ∧ ∀ id, id ∈ e' → id ∈ e ∨ (id ∈ order ∧ queue_of ts' id = []).
Proof.
  revert ts r e. induction order as [|id order IH]; intros ts r e Hv; cbn [visit] in Hv.
  - simplify_eq. split; [done|]. tauto.
  - case_if_in Hv; [simplify_eq; split; [done|tauto]|].
    assert (∀ ts1 r1, visit bs qn order ts1 r1 (e ++ [id]) = (ts', r', e') → queue_of ts1 id = [] →
      (∀ id0, id0 ∈ e → id0 ∈ e') ∧
      ∀ id0, id0 ∈ e' → id0 ∈ e ∨ (id0 ∈ id :: order ∧ queue_of ts' id0 = [])) as Hpush.
    { intros ts1 r1 Hv1 Hq. destruct (visit_shrinks _ _ _ _ _ _ _ _ _ Hv1 id) as [l Hl].
      rewrite Hq in Hl. symmetry in Hl. apply app_nil in Hl as [_ Hl].
      destruct (IH _ _ _ Hv1) as [Hm Hi].
      split; [intros id0 Hin; apply Hm, elem_of_app; by left|].
      intros id0 [[H|H]%elem_of_app|[H1 H2]]%Hi; [by left| |].
      - apply list_elem_of_singleton in H as ->. right. split; [by left|done].
      - right. split; [by right|done]. }
    destruct (ts !! id) as [st|] eqn:Hid.
    + destruct (queue st) as [|it q0] eqn:Hq.
      * apply (Hpush _ _ Hv). unfold queue_of. by rewrite Hid.
      * rewrite <- Hq in Hv. destruct (consume _ _ _ _) as [[q d] r1] eqn:Hc.
        destruct q as [|it' q'].
        -- apply (Hpush _ _ Hv). by rewrite queue_of_insert_eq.
        -- destruct (IH _ _ _ Hv) as [Hm Hi]. split; [done|].
           intros id0 [|[]]%Hi; [by left|right; split; [by right|done]].
    + apply (Hpush _ _ Hv). unfold queue_of. by rewrite Hid.
Qed.

(** A round that starts with room and a tenant to visit serves an item or
    retires a tenant. *)
Lemma visit_progress bs qn id order ts r ts' r' e' :
  1 ≤ qn → map_Forall tenant_ok ts → Z.of_nat (length r) < bs →
  visit bs qn (id :: order) ts r [] = (ts', r', e') →
  (length r < length r')%nat ∨ id ∈ e'.
Proof.
  intros Hqn Hok Hroom Hv. cbn [visit] in Hv. case_if_in Hv; [lia|].
  destruct (ts !! id) as [st|] eqn:Hid.
  - destruct (Hok id st Hid) as (Hw & Hd & _).
    destruct (queue st) as [|it q0] eqn:Hq.
    + right. apply visit_exhausted in Hv as [Hm _]. apply Hm. by left.
    + left. rewrite <- Hq in Hv. destruct (consume _ _ _ _) as [[q d] r1] eqn:Hc.
      apply consume_spec in Hc as (taken & _ & -> & _ & Hlen).
      rewrite Hq in Hlen. cbn [length] in Hlen.
      apply visit_room in Hv; rewrite length_app in *; nia.
  - right. apply visit_exhausted in Hv as [Hm _]. apply Hm. by left.
Qed.
End Rounds.

(** ** The operations preserve the invariant *)

Section Operations.
Context {T : Type}.
Implicit Types (s : scheduler T).

Lemma resolveWeight_pos tw tier : 1 ≤ resolveWeight tw tier.
Proof.
  unfold resolveWeight, FALLBACK_WEIGHT. destruct (tw !! tier) as [w|]; [|lia]. case_if; lia.
Qed.

Lemma new_scheduler_wf env overrides q :
  (1 <= q)%Q → wf (new_scheduler (T := T) env overrides q).
Proof.
  intros Hq. constructor; cbn; [| apply map_Forall_empty | | constructor].
  - unfold resolve_quantum, DEFAULT_DRR_QUANTUM. case_if; [lia|].
    change 1 with (Qfloor 1). by apply Qfloor_resp_le.
  - intros id. unfold queue_of. by rewrite lookup_empty.
Qed.

Lemma enqueue_wf it s : wf s → wf (enqueue it s).
Proof.
  intros [Hq Ht Ha Hn]. unfold enqueue. constructor; cbn [quantum tenants activeOrder].
  - done.
  - apply map_Forall_insert_2; [|done].
    destruct (tenants s !! tenantId it) as [old|] eqn:E;
      (split_and!; cbn [weight deficit queue]; [apply resolveWeight_pos| |]).
    + by destruct (Ht _ _ E) as (_ & ? & _).
    + destruct (Ht _ _ E) as (_ & _ & Hf). apply Forall_app. by split; [|constructor].
    + lia.
    + by constructor.
  - intros id Hne. destruct (includes (tenantId it) (activeOrder s)) eqn:Hi.
    + destruct (decide (tenantId it = id)) as [<-|Hid]; [by apply includes_spec|].
      rewrite queue_of_insert_ne in Hne by done. by apply Ha.
    + destruct (decide (tenantId it = id)) as [<-|Hid]; [set_solver|].
      rewrite queue_of_insert_ne in Hne by done. apply Ha in Hne. set_solver.
  - case_if; [done|]. apply NoDup_app. split_and!; [done| |apply NoDup_singleton].
    intros x Hx ->%list_elem_of_singleton. by apply includes_false in Heqb.
Qed.

Lemma reset_wf s : wf s → wf (reset s).
Proof.
  intros [Hq _ _ _]. constructor; cbn; [done|apply map_Forall_empty| |constructor].
  intros id. unfold queue_of. by rewrite lookup_empty.
Qed.

Lemma filter_negb_length (P : string → bool) (l : list string) x :
  x ∈ l → P x = false → (length (List.filter P l) < length l)%nat.
Proof.
  induction l as [|y l IH]; intros Hx HP; [by apply elem_of_nil in Hx|].
  cbn [List.filter]. apply elem_of_cons in Hx as [->|Hx].
  - rewrite HP. cbn. pose proof (List.filter_length_le P l). lia.
  - specialize (IH Hx HP). case_if; cbn; lia.
Qed.

Lemma list_filter_nodup (P : string → bool) (l : list string) :
  NoDup l → NoDup (List.filter P l).
Proof.
  rewrite !NoDup_ListNoDup. apply List.NoDup_filter.
Qed.

(** One round keeps the invariant and every tenant's stream, stays within
    the batch, and makes progress. *)
Lemma round_spec bs s r s' r' :
  wf s → round bs s r = (s', r') →
  Z.of_nat (length r) < bs → activeOrder s ≠ [] →
  wf s' ∧ (∀ id, stream (tenants s') r' id = stream (tenants s) r id)
  ∧ (length r' + depth_of (tenants s'))%nat = (length r + depth_of (tenants s))%nat
  ∧ Z.of_nat (length r') ≤ bs
  ∧ (depth_of (tenants s') + length (activeOrder s')
     < depth_of (tenants s) + length (activeOrder s))%nat.
Proof.
  intros [Hq Ht Ha Hn] Hr Hroom Hact. unfold round in Hr.
  destruct (visit _ _ _ _ _ _) as [[ts r1] e] eqn:Hv. injection Hr as <- <-.
  destruct (visit_stream _ _ _ _ _ _ _ _ _ Hq Hv Ht) as (Hok & Hst & Hdep).
  destruct (visit_room _ _ _ _ _ _ _ _ _ Hv ltac:(lia)) as [Hge Hle].
  destruct (visit_exhausted _ _ _ _ _ _ _ _ _ Hv) as [_ Hex].
  pose proof (visit_shrinks _ _ _ _ _ _ _ _ _ Hv) as Hsh.
  cbn [tenants activeOrder]. split_and!; [|done|done|done|].
  - constructor; cbn [quantum tenants activeOrder]; [done..| |by apply list_filter_nodup].
    intros id Hne. apply list_elem_of_In, filter_In. split.
    + apply list_elem_of_In, Ha. destruct (Hsh id) as [l Hl]. rewrite Hl.
      intros [_ ?]%app_nil. done.
    + apply negb_true_iff, includes_false. intros [Hin|[_ Hz]]%Hex; [by apply elem_of_nil in Hin|done].
  - destruct (activeOrder s) as [|id order] eqn:Eo; [done|]. rewrite <- Eo in *.
    pose proof (List.filter_length_le (λ id, negb (includes id e)) (activeOrder s)).
    rewrite Eo in Hv. destruct (visit_progress _ _ _ _ _ _ _ _ _ Hq Ht Hroom Hv) as [Hp|Hp]; [lia|].
    assert (length (List.filter (λ id, negb (includes id e)) (activeOrder s))
            < length (activeOrder s))%nat; [|lia].
    apply (filter_negb_length _ _ id); [rewrite Eo; by left|].
    apply negb_false_iff. by apply includes_spec.
Qed.

Lemma dequeue_loop_spec fuel bs s r :
  wf s → Z.of_nat (length r) ≤ bs →
  (depth_of (tenants s) + length (activeOrder s) ≤ fuel)%nat →
  ∃ s' r', dequeue_loop fuel bs s r = Some (s', r') ∧ wf s'
    ∧ (∀ id, stream (tenants s') r' id = stream (tenants s) r id)
    ∧ (length r' + depth_of (tenants s'))%nat = (length r + depth_of (tenants s))%nat
    ∧ Z.of_nat (length r') ≤ bs
    ∧ (Z.of_nat (length r') < bs → depth_of (tenants s') = 0%nat).
Proof.
  revert s r. induction fuel as [|f IH]; intros s r Hwf Hle Hfuel; cbn [dequeue_loop].
  all: destruct (_ && _) eqn:Hg.
  - apply andb_true_iff in Hg as [_ Hg]. apply negb_true_iff, Nat.eqb_neq in Hg. lia.
  - exists s, r. split_and!; try done. intros Hlt.
    apply andb_false_iff in Hg as [Hg|Hg]; [lia|]. apply negb_false_iff, Nat.eqb_eq in Hg. lia.
  - apply andb_true_iff in Hg as [Hlt Hg]. apply negb_true_iff, Nat.eqb_neq in Hg.
    destruct (round bs s r) as [s1 r1] eqn:Hr.
    destruct (round_spec bs s r s1 r1 Hwf Hr) as (Hwf1 & Hst1 & Hd1 & Hle1 & Hm);
      [lia|by intros E; rewrite E in Hg|].
    destruct (IH s1 r1 Hwf1 Hle1 ltac:(lia)) as (s' & r' & Hdq & Hwf' & Hst' & Hd' & Hle' & Hz).
    exists s', r'. split_and!; try done; [|lia]. intros id. by rewrite Hst'.
  - exists s, r. split_and!; try done. intros Hlt.
    apply andb_false_iff in Hg as [Hg|Hg]; [lia|]. apply negb_false_iff, Nat.eqb_eq in Hg.
    apply depth_of_zero. intros id. destruct (queue_of (tenants s) id) eqn:Eq; [done|].
    assert (id ∈ activeOrder s) as Hin by (apply Hwf; by rewrite Eq).
    destruct (activeOrder s); [by apply elem_of_nil in Hin|discriminate].
Qed.
End Operations.

(** ** Properties *)

(** C17. On a well-formed scheduler, as many rounds as there are pending items
    and active tenants suffice for [dequeueBatch] to return; it returns
    exactly [min(batchSize, pending)] items, keeps the invariant, and for each
    tenant the items returned followed by the items still queued are the items
    that were queued, in order: nothing is lost, duplicated or reordered. *)
Theorem dequeueBatch_serves {T} (s : scheduler T) (bs : Z) fuel :
  wf s → 0 < bs → (totalDepth s + length (activeOrder s) ≤ fuel)%nat →
  ∃ s' batch, dequeueBatch fuel bs s = Some (s', batch)
    ∧ Z.of_nat (length batch) = Z.min bs (Z.of_nat (totalDepth s))
    ∧ wf s'
    ∧ ∀ id, queue_of (tenants s) id = items_of id batch ++ queue_of (tenants s') id.
Proof.
  intros Hwf Hbs Hfuel. unfold dequeueBatch.
  assert ((bs <=? 0) = false) as -> by lia.
  destruct (dequeue_loop_spec fuel bs s [] Hwf ltac:(cbn; lia) Hfuel)
    as (s' & r' & Hdq & Hwf' & Hst & Hd & Hle & Hz).
  exists s', r'. split_and!; [done| |done|].
  - change (depth_of (tenants s)) with (totalDepth s) in Hd. cbn [length] in Hd.
    destruct (Z.lt_ge_cases (Z.of_nat (length r')) bs) as [Hlt|Hge]; [rewrite Hz in Hd by done|]; lia.
  - intros id. symmetry. apply (Hst id).
Qed.

(** Enqueueing appends to the item's tenant only, counts one more pending
    item, and keeps the invariant. *)
Theorem enqueue_appends {T} (it : item T) (s : scheduler T) :
  wf s →
  wf (enqueue it s)
  ∧ queue_of (tenants (enqueue it s)) (tenantId it) = queue_of (tenants s) (tenantId it) ++ [it]
  ∧ (∀ id, id ≠ tenantId it → queue_of (tenants (enqueue it s)) id = queue_of (tenants s) id)
  ∧ totalDepth (enqueue it s) = S (totalDepth s).
Proof.
  intros Hwf. split; [by apply enqueue_wf|]. unfold enqueue. cbn [tenants]. split_and!.
  - rewrite queue_of_insert_eq. unfold queue_of. by destruct (tenants s !! tenantId it).
  - intros id Hid. by apply queue_of_insert_ne.
  - change (depth_of (<[tenantId it := match tenants s !! tenantId it with
      | Some old => {| queue := queue old ++ [it]; deficit := deficit old; weight := resolveWeight (tierWeights s) (tier it) |}
      | None => {| queue := [it]; deficit := 0; weight := resolveWeight (tierWeights s) (tier it) |} end]> (tenants s))
      = S (depth_of (tenants s))).
    destruct (tenants s !! tenantId it) as [old|] eqn:E.
    + pose proof (depth_of_update (tenants s) (tenantId it) old {| queue := queue old ++ [it];
        deficit := deficit old; weight := resolveWeight (tierWeights s) (tier it) |} E) as H.
      cbn [queue] in H. rewrite length_app in H. cbn [length] in H. lia.
    + rewrite depth_of_insert_new by done. cbn. lia.
Qed.

(** ** Fairness of a round *)

(** The state of a tenant after a round that had room for it. *)
Definition serve_full {T} (qn : Z) (st : tenant_state T) : tenant_state T :=
  let credit := deficit st + weight st * qn in
  let served := Z.min (Z.of_nat (length (queue st))) credit in
  {| queue := drop (Z.to_nat served) (queue st);
     deficit := credit - served; weight := weight st |}.

Section Fairness.
Context {T : Type}.
Implicit Types (s : scheduler T) (ts : gmap string (tenant_state T)) (r : list (item T)).

Lemma visit_untouched bs qn order ts r e ts' r' e' id :
  visit bs qn order ts r e = (ts', r', e') → id ∉ order → ts' !! id = ts !! id.
Proof.
  revert ts r e. induction order as [|id0 order IH]; intros ts r e Hv Hid; cbn [visit] in Hv.
  - by simplify_eq.
  - apply not_elem_of_cons in Hid as [Hne Hid]. case_if_in Hv; [by simplify_eq|].
    destruct (ts !! id0) as [st|]; [|by eapply IH].
    destruct (queue st); [by eapply IH|].
    destruct (consume _ _ _ _) as [[q d] r1]. rewrite (IH _ _ _ Hv Hid).
    by rewrite lookup_insert_ne.
Qed.

Lemma visit_full bs qn order ts r e ts' r' e' :
  0 ≤ qn → NoDup order → map_Forall tenant_ok ts →
  visit bs qn order ts r e = (ts', r', e') → Z.of_nat (length r') < bs →
  ∀ id st, id ∈ order → ts !! id = Some st → queue st ≠ [] → ts' !! id = Some (serve_full qn st).
Proof.
  intros Hqn. revert ts r e.
  induction order as [|id0 order IH]; intros ts r e Hn Hok Hv Hlt id st Hin Hid Hne;
    [by apply elem_of_nil in Hin|].
  apply NoDup_cons in Hn as [Hnin Hn]. cbn [visit] in Hv.
  case_if_in Hv; [simplify_eq; lia|].
  destruct (decide (id = id0)) as [->|Hdiff].
  - rewrite Hid in Hv. destruct (queue st) as [|it q0] eqn:Eq; [done|]. rewrite <- Eq in *.
    destruct (consume _ _ _ _) as [[q d] r1] eqn:Hc.
    rewrite (visit_untouched _ _ _ _ _ _ _ _ _ id0 Hv Hnin), lookup_insert_eq. f_equal.
    apply consume_spec in Hc as (taken & Hsplit & -> & -> & Hlen).
    destruct (visit_room _ _ _ _ _ _ _ _ _ Hv) as [Hge _]; [rewrite length_app; lia|].
    rewrite length_app in Hge. destruct (Hok _ _ Hid) as (Hw & Hd & _).
    unfold serve_full. assert (Z.min (Z.of_nat (length (queue st))) (deficit st + weight st * qn)
      = Z.of_nat (length taken)) as -> by nia.
    rewrite Nat2Z.id. rewrite Hsplit at 1. by rewrite drop_app_length.
  - apply elem_of_cons in Hin as [|Hin]; [done|].
    destruct (ts !! id0) as [st0|] eqn:Hid0; [|by eapply IH].
    destruct (queue st0) as [|it0 q0] eqn:Eq; [by eapply IH|]. rewrite <- Eq in *.
    destruct (consume _ _ _ _) as [[q d] r1] eqn:Hc.
    eapply IH; [done| |exact Hv|done|done| |done].
    + apply consume_spec in Hc as (taken & Hsplit & -> & -> & Hlen).
      destruct (Hok _ _ Hid0) as (Hw & Hd & Hq). rewrite Hsplit in Hq.
      apply Forall_app in Hq as [_ Hq].
      apply map_Forall_insert_2; [|done]. split_and!; cbn; [done|nia|done].
    + by rewrite lookup_insert_ne.
Qed.
End Fairness.

(** Proportional share: in a round that does not fill the batch, every
    active tenant with pending items is served the smaller of its queue and
    its credit [deficit + weight * quantum], and keeps the unspent credit. *)
Theorem round_serves_by_weight {T} (s s' : scheduler T) (bs : Z) (r r' : list (item T)) id st :
  wf s → round bs s r = (s', r') → Z.of_nat (length r') < bs →
  tenants s !! id = Some st → queue st ≠ [] →
  tenants s' !! id = Some (serve_full (quantum s) st).
Proof.
  intros [Hq Ht Ha Hn] Hr Hlt Hid Hne. unfold round in Hr.
  destruct (visit _ _ _ _ _ _) as [[ts r1] e] eqn:Hv. injection Hr as <- <-.
  cbn [tenants]. eapply visit_full; [| | |exact Hv|done| |done|done]; [lia|done|done|].
  apply Ha. unfold queue_of. by rewrite Hid.
Qed.

(** Successive calls of [dequeueBatch], the batches concatenated. *)
Fixpoint dequeue_times {T} (n fuel : nat) (bs : Z) (s : scheduler T)
  : option (scheduler T * list (item T)) :=
  match n with
  | O => Some (s, [])
  | S m =>
      match dequeueBatch fuel bs s with
      | Some (s1, b) =>
          match dequeue_times m fuel bs s1 with
          | Some (s2, bs') => Some (s2, b ++ bs')
          | None => None
          end
      | None => None
      end
  end.

Lemma dequeue_head_only {T} (s : scheduler T) (bs : Z) id rest st :
  0 < bs → activeOrder s = id :: rest → tenants s !! id = Some st →
  bs ≤ weight st * quantum s → 0 ≤ deficit st → bs < Z.of_nat (length (queue st)) →
  ∃ s', dequeueBatch 1 bs s = Some (s', take (Z.to_nat bs) (queue st))
    ∧ activeOrder s' = id :: rest ∧ quantum s' = quantum s
    ∧ tenants s' !! id = Some {| queue := drop (Z.to_nat bs) (queue st);
        deficit := deficit st + weight st * quantum s - bs; weight := weight st |}.
Proof.
  intros Hbs Ho Hid Hc Hd Hlen. unfold dequeueBatch.
  assert ((bs <=? 0) = false) as -> by lia. cbn [dequeue_loop].
  rewrite Ho. cbn [length]. assert ((Z.of_nat 0 <? bs) = true) as -> by (by apply Z.ltb_lt). cbn [andb negb Nat.eqb].
  unfold round. rewrite Ho. cbn [visit length].
  assert ((bs <=? Z.of_nat 0) = false) as -> by (by apply Z.leb_gt). rewrite Hid.
  destruct (queue st) as [|it0 q0] eqn:Eq; [cbn in Hlen; lia|]. rewrite <- Eq in *.
  destruct (consume _ _ _ _) as [[q d] r1] eqn:Hcons.
  apply consume_spec in Hcons as (taken & Hsplit & -> & -> & Htk). cbn [length app] in *.
  assert (length taken = Z.to_nat bs) as Hl by lia.
  assert (take (Z.to_nat bs) (queue st) = taken) as -> by (by rewrite Hsplit, <- Hl, take_app_length).
  assert (drop (Z.to_nat bs) (queue st) = q) as -> by (by rewrite Hsplit, <- Hl, drop_app_length).
  assert (q ≠ []) as Hq by (intros ->; rewrite app_nil_r in Hsplit; rewrite Hsplit in Hlen; lia).
  destruct q as [|it1 q1] eqn:Eqq; [done|]. rewrite <- Eqq in *.
  assert (visit bs (quantum s) rest
    (<[id := {| queue := q; deficit := deficit st + weight st * quantum s - Z.of_nat (length taken);
        weight := weight st |}]> (tenants s)) taken [] =
    (<[id := {| queue := q; deficit := deficit st + weight st * quantum s - Z.of_nat (length taken);
        weight := weight st |}]> (tenants s), taken, [])) as ->.
  { destruct rest as [|id' rest']; [done|]. cbn [visit].
    assert ((bs <=? Z.of_nat (length taken)) = true) as -> by lia. done. }
  assert ((Z.of_nat (length taken) <? bs) = false) as Hfull by lia.
  cbn [dequeue_loop]. rewrite Hfull. cbn [andb].
  assert (Hf : ∀ l, List.filter (λ id0, negb (includes id0 [])) l = l)
    by (intros l; induction l as [|x l IH]; [done|]; cbn in *; by rewrite IH).
  eexists. split; [reflexivity|]. cbn [activeOrder quantum tenants]. rewrite Hf. split_and!; [done..|].
  rewrite lookup_insert_eq. do 2 f_equal. lia.
Qed.

(** The round-robin position is not carried from one batch to the next:
    when a round's credit of the tenant at the head of [activeOrder] covers
    the batch size, every batch is filled from that tenant alone for as long
    as its queue lasts, whatever the other tenants have pending. *)
Theorem head_tenant_monopolises {T} (n : nat) (s : scheduler T) (bs : Z) id rest st :
  0 < bs → activeOrder s = id :: rest → tenants s !! id = Some st →
  bs ≤ weight st * quantum s → 0 ≤ deficit st →
  Z.of_nat n * bs < Z.of_nat (length (queue st)) →
  ∃ s', dequeue_times n 1 bs s = Some (s', take (n * Z.to_nat bs) (queue st))
    ∧ activeOrder s' = id :: rest.
Proof.
  intros Hbs. revert s st. induction n as [|n IH]; intros s st Ho Hid Hc Hd Hlen.
  - exists s. by rewrite Nat.mul_0_l.
  - destruct (dequeue_head_only s bs id rest st Hbs Ho Hid Hc Hd) as (s1 & H1 & Ho1 & Hq1 & Hid1);
      [nia|].
    destruct (IH s1 _ Ho1 Hid1) as (s2 & H2 & Ho2); cbn [weight deficit queue];
      [by rewrite Hq1|lia|rewrite length_drop; nia|].
    exists s2. cbn [dequeue_times]. rewrite H1, H2. split; [|done].
    cbn [queue]. do 2 f_equal. by rewrite take_take_drop, Nat.mul_succ_l, Nat.add_comm.
Qed.

(** A quantum strictly between 0 and 1 is floored to zero credits per
    round: [dequeueBatch] on a scheduler with one pending item never ends. *)
Theorem fractional_quantum_never_returns {T} (it : item T) env overrides (q : Q) bs fuel :
  (0 < q)%Q → (q < 1)%Q → 0 < bs →
  dequeueBatch fuel bs (enqueue it (new_scheduler env overrides q)) = None.
Proof.
  intros Hq0 Hq1 Hbs. unfold dequeueBatch. assert ((bs <=? 0) = false) as -> by lia.
  assert (resolve_quantum q = 0) as Hzero.
  { unfold resolve_quantum. destruct (Qle_bool q 0) eqn:E.
    - apply Qle_bool_iff in E. by apply Qle_not_lt in E.
    - assert (Qfloor q < 1) by (rewrite Zlt_Qlt; eapply Qle_lt_trans; [apply Qfloor_le|done]).
      assert (0 <= Qfloor q) by (change 0 with (Qfloor 0); by apply Qfloor_resp_le, Qlt_le_weak). lia. }
  set (w := resolveWeight (resolveTierWeights env overrides) (tier it)).
  enough (∀ n, dequeue_loop fuel bs {| tenants := {[tenantId it := {| queue := [it]; deficit := 0; weight := w |}]};
      activeOrder := [tenantId it]; tierWeights := resolveTierWeights env overrides;
      quantum := 0; rounds := n |} [] = None) as Hall.
  { unfold enqueue, new_scheduler. cbn [tenants activeOrder tierWeights quantum rounds].
    rewrite lookup_empty, Hzero, insert_empty. apply Hall. }
  assert ((Z.of_nat 0 <? bs) = true) as Hlt by (by apply Z.ltb_lt).
  assert ((bs <=? Z.of_nat 0) = false) as Hle by (by apply Z.leb_gt).
  induction fuel as [|f IH]; intros n; cbn [dequeue_loop length activeOrder];
    rewrite Hlt; cbn [andb negb Nat.eqb]; [done|].
  unfold round. cbn [tenants activeOrder tierWeights quantum rounds visit length].
  rewrite Hle, lookup_singleton_eq. cbn [queue deficit weight].
  replace (0 + w * 0) with 0 by lia. cbn [consume Z.leb andb List.filter includes existsb negb].
  change (1 <=? 0) with false. cbn [andb]. rewrite insert_singleton_eq. apply IH.
Qed.

(** ** Witnesses *)

Definition mk_item (t tr : string) (p : nat) : item nat :=
  {| tenantId := t; tier := tr; payload := p; enqueuedAt := 0 |}.

(** The documentation example: five items of an enterprise tenant, five of a
    free tenant. *)
Definition sample_scheduler : scheduler nat :=
  foldl (λ s it, enqueue it s) (new_scheduler EnvUnset None 10%Q)
    ((mk_item "alice" "enterprise" <$> seq 0 5) ++ (mk_item "bob" "free" <$> seq 5 5)).

Lemma sample_scheduler_wf : wf sample_scheduler.
Proof.
  unfold sample_scheduler.
  assert (∀ l (s : scheduler nat), wf s → wf (foldl (λ s it, enqueue it s) s l)) as H.
  { induction l as [|it l IH]; intros s Hs; [done|]. cbn. by apply IH, enqueue_wf. }
  apply H, new_scheduler_wf. discriminate.
Qed.

Lemma dequeueBatch_serves_witness :
  ∃ s' batch, dequeueBatch 12 8 sample_scheduler = Some (s', batch)
    ∧ Z.of_nat (length batch) = Z.min 8 (Z.of_nat (totalDepth sample_scheduler))
    ∧ wf s'
    ∧ ∀ id, queue_of (tenants sample_scheduler) id = items_of id batch ++ queue_of (tenants s') id.
Proof.
  apply (dequeueBatch_serves sample_scheduler 8 12).
  - exact sample_scheduler_wf.
  - lia.
  - vm_compute. lia.
Defined.

Lemma enqueue_appends_witness :
  wf (enqueue (mk_item "bob" "free" 99) sample_scheduler)
  ∧ queue_of (tenants (enqueue (mk_item "bob" "free" 99) sample_scheduler)) "bob"
    = queue_of (tenants sample_scheduler) "bob" ++ [mk_item "bob" "free" 99]
  ∧ (∀ id, id ≠ "bob" → queue_of (tenants (enqueue (mk_item "bob" "free" 99) sample_scheduler)) id
                      = queue_of (tenants sample_scheduler) id)
  ∧ totalDepth (enqueue (mk_item "bob" "free" 99) sample_scheduler) = S (totalDepth sample_scheduler).
Proof. exact (enqueue_appends (mk_item "bob" "free" 99) sample_scheduler sample_scheduler_wf). Defined.

Definition alice_state : tenant_state nat :=
  {| queue := mk_item "alice" "enterprise" <$> seq 0 5; deficit := 0; weight := 8 |}.

Lemma round_serves_by_weight_witness :
  tenants (round 20 sample_scheduler []).1 !! "alice" = Some (serve_full 10 alice_state).
Proof.
  apply (round_serves_by_weight sample_scheduler _ 20 [] (round 20 sample_scheduler []).2 "alice" alice_state).
  - exact sample_scheduler_wf.
  - vm_compute. reflexivity.
  - vm_compute. reflexivity.
  - vm_compute. reflexivity.
  - discriminate.
Defined.

Lemma head_tenant_monopolises_witness :
  ∃ s', dequeue_times 2 1 2 sample_scheduler = Some (s', take (2 * Z.to_nat 2) (queue alice_state))
    ∧ activeOrder s' = ["alice"; "bob"].
Proof.
  apply (head_tenant_monopolises 2 sample_scheduler 2 "alice" ["bob"] alice_state).
  - lia.
  - vm_compute. reflexivity.
  - vm_compute. reflexivity.
  - vm_compute. discriminate.
  - vm_compute. discriminate.
  - vm_compute. reflexivity.
Defined.

Lemma fractional_quantum_never_returns_witness :
  dequeueBatch 1000 1 (enqueue (mk_item "alice" "free" 0) (new_scheduler EnvUnset None (1 # 2))) = None.
Proof.
  apply (fractional_quantum_never_returns (mk_item "alice" "free" 0) EnvUnset None (1 # 2) 1 1000);
    reflexivity.
Defined.
