(* ===== verification/BatchingQueue.v ===== *)
(** * The adaptive flush-window queue: [src/services/soroban/batchingQueue.ts].

    Every method is a function of the clock reading it makes.  [doFlush] is
    cut at its [await]: [begin_flush] runs up to the call of the flush
    callback and [finish_flush] is the [finally] block when the callback's
    promise settles; in between, other methods and timers may run.  The
    interleavings are the step relation [step].  [latencyTimer] holds the due
    time of the armed latency timeout, [deferred] the cooldown timeouts. *)

From S2P Require Import Prelude Numeric.
#[local] Open Scope Z_scope.

(** ** Configuration *)

Record config := {
  maxBatchSize : Z;
  maxLatencyMs : Z;
  backpressureThreshold : Z;
  flushCooldownMs : Z
}.

Record partial_config := {
  p_maxBatchSize : option Z;
  p_maxLatencyMs : option Z;
  p_backpressureThreshold : option Z;
  p_flushCooldownMs : option Z
}.

Definition DEFAULT_BATCHING_QUEUE_CONFIG : config :=
  {| maxBatchSize := 50; maxLatencyMs := 5000; backpressureThreshold := 100; flushCooldownMs := 100 |}.

(** [env] is [process.env]. *)
Definition resolveBatchingQueueConfig (env : string → option string) (overrides : partial_config)
  : config :=
  let size := parse_positive_int_env (env "SOROBAN_BATCH_MAX_SIZE")
                (maxBatchSize DEFAULT_BATCHING_QUEUE_CONFIG) in
  let latency := parse_positive_int_env (env "SOROBAN_BATCH_MAX_LATENCY_MS")
                   (maxLatencyMs DEFAULT_BATCHING_QUEUE_CONFIG) in
  let pressure := parse_positive_int_env (env "SOROBAN_BATCH_BACKPRESSURE_THRESHOLD")
                    (backpressureThreshold DEFAULT_BATCHING_QUEUE_CONFIG) in
  let cooldown := parse_positive_int_env (env "SOROBAN_BATCH_FLUSH_COOLDOWN_MS")
                    (flushCooldownMs DEFAULT_BATCHING_QUEUE_CONFIG) in
  let pressure := if pressure <? size then size else pressure in
  {| maxBatchSize := default size (p_maxBatchSize overrides);
     maxLatencyMs := default latency (p_maxLatencyMs overrides);
     backpressureThreshold := default pressure (p_backpressureThreshold overrides);
     flushCooldownMs := default cooldown (p_flushCooldownMs overrides) |}.

(** ** State *)

Inductive trigger := TSize | TLatency | TBackpressure | TManual.

(** A queued item; [promise] identifies the promise its callbacks settle. *)
Record item (T : Type) := { payload : T; enqueuedAt : Z; promise : nat }.
Arguments payload {T} _.
Arguments enqueuedAt {T} _.
Arguments promise {T} _.

Record state (T : Type) := {
  queue : list (item T);
  latencyTimer : option Z;
  deferred : list (Z * trigger);
  lastFlushTime : Z;
  flushing : bool;
  (** the batch the flush callback is working on *)
  inflight : option (list (item T));
  (** batches whose callback has settled, and items the queue rejected *)
  completed : list (list (item T));
  rejected : list (item T)
}.
Arguments queue {T} _.
Arguments latencyTimer {T} _.
Arguments deferred {T} _.
Arguments lastFlushTime {T} _.
Arguments flushing {T} _.
Arguments inflight {T} _.
Arguments completed {T} _.
Arguments rejected {T} _.

Section Queue.
Context {T : Type} (cfg : config).
Implicit Types (s : state T) (it : item T).

Definition initial : state T :=
  {| queue := []; latencyTimer := None; deferred := []; lastFlushTime := 0;
     flushing := false; inflight := None; completed := []; rejected := [] |}.

Definition set_queue (q : list (item T)) s : state T :=
  {| queue := q; latencyTimer := latencyTimer s; deferred := deferred s;
     lastFlushTime := lastFlushTime s; flushing := flushing s; inflight := inflight s;
     completed := completed s; rejected := rejected s |}.

Definition set_timer (t : option Z) s : state T :=
  {| queue := queue s; latencyTimer := t; deferred := deferred s;
     lastFlushTime := lastFlushTime s; flushing := flushing s; inflight := inflight s;
     completed := completed s; rejected := rejected s |}.

Definition set_deferred (d : list (Z * trigger)) s : state T :=
  {| queue := queue s; latencyTimer := latencyTimer s; deferred := d;
     lastFlushTime := lastFlushTime s; flushing := flushing s; inflight := inflight s;
     completed := completed s; rejected := rejected s |}.

(** ** Operations *)

Definition clearLatencyTimer s : state T := set_timer None s.

Definition scheduleLatencyFlush (now : Z) s : state T :=
  let s := clearLatencyTimer s in
  match queue s with
  | [] => s
  | oldest :: _ =>
      let remaining := maxLatencyMs cfg - (now - enqueuedAt oldest) in
      if remaining <=? 0 then set_timer (Some now) s else set_timer (Some (now + remaining)) s
  end.

(** Whether the trigger is subject to the cooldown. *)
Definition cooled (tr : trigger) : bool :=
  match tr with TSize | TLatency => true | TBackpressure | TManual => false end.

(** [doFlush] up to [await this.flushFn(batch)]. *)
Definition begin_flush (now : Z) (tr : trigger) s : state T :=
  if flushing s || (length (queue s) =? 0)%nat then s
  else
    let sinceLastFlush := now - lastFlushTime s in
    if cooled tr && (sinceLastFlush <? flushCooldownMs cfg)
    then set_deferred (deferred s ++ [(now + (flushCooldownMs cfg - sinceLastFlush), tr)]) s
    else
      let batchSize := Z.to_nat (Z.min (maxBatchSize cfg) (Z.of_nat (length (queue s)))) in
      {| queue := drop batchSize (queue s); latencyTimer := None; deferred := deferred s;
         lastFlushTime := now; flushing := true; inflight := Some (take batchSize (queue s));
         completed := completed s; rejected := rejected s |}.

Definition checkTriggers (now : Z) s : state T :=
  if flushing s then s
  else
    let depth := Z.of_nat (length (queue s)) in
    if backpressureThreshold cfg <=? depth then begin_flush now TBackpressure s
    else if maxBatchSize cfg <=? depth then begin_flush now TSize s
    else s.

(** The [catch]/[finally] of [doFlush]: [threw] when the callback's promise
    rejected, in which case every item of the batch is rejected. *)
Definition finish_flush (now : Z) (threw : bool) (batch : list (item T)) s : state T :=
  let s := {| queue := queue s; latencyTimer := latencyTimer s; deferred := deferred s;
              lastFlushTime := lastFlushTime s; flushing := false; inflight := None;
              completed := if threw then completed s else completed s ++ [batch];
              rejected := if threw then rejected s ++ batch else rejected s |} in
  let s := if (length (queue s) =? 0)%nat then s else scheduleLatencyFlush now s in
  checkTriggers now s.

Definition enqueue (now : Z) it s : state T :=
  let s := set_queue (queue s ++ [it]) s in
  let s := if (length (queue s) =? 1)%nat then scheduleLatencyFlush now s else s in
  checkTriggers now s.

Definition flushNow (now : Z) s : state T := begin_flush now TManual s.

(** The callback of the latency timeout. *)
Definition latency_fires (now : Z) s : state T :=
  let s := set_timer None s in
  if negb (length (queue s) =? 0)%nat && negb (flushing s) then begin_flush now TLatency s else s.

(** The callback of a cooldown timeout, removed from the pending ones. *)
Definition deferred_fires (now : Z) (tr : trigger) (others : list (Z * trigger)) s : state T :=
  let s := set_deferred others s in
  if negb (length (queue s) =? 0)%nat && negb (flushing s) then begin_flush now tr s else s.

Definition oldestWaitMs (now : Z) s : Z :=
  match queue s with [] => 0 | oldest :: _ => now - enqueuedAt oldest end.

Definition drain s : state T :=
  {| queue := []; latencyTimer := None; deferred := deferred s;
     lastFlushTime := lastFlushTime s; flushing := flushing s; inflight := inflight s;
     completed := completed s; rejected := rejected s ++ queue s |}.

(** [reset] forgets the queue without settling its promises. *)
Definition reset s : state T :=
  {| queue := []; latencyTimer := None; deferred := deferred s;
     lastFlushTime := 0; flushing := false; inflight := inflight s;
     completed := completed s; rejected := rejected s |}.

(** ** Interleavings *)

(** [fires due now s s']: the timeout that [s] has armed for [due], the latency
    timeout or a cooldown timeout, fires at [now]. *)
Inductive fires (due now : Z) : state T → state T → Prop :=
| fires_latency s :
    latencyTimer s = Some due → due ≤ now → fires due now s (latency_fires now s)
| fires_deferred tr before after s :
    deferred s = before ++ (due, tr) :: after → due ≤ now →
    fires due now s (deferred_fires now tr (before ++ after) s).

(** [step now s s' enq]: what happens at the clock reading [now]. *)
Inductive step (now : Z) : state T → state T → list (item T) → Prop :=
| step_enqueue it s : step now s (enqueue now it s) [it]
| step_flush_now s : step now s (flushNow now s) []
| step_fires due s s' : fires due now s s' → step now s s' []
| step_finish threw batch s :
    inflight s = Some batch → step now s (finish_flush now threw batch s) []
| step_drain s : step now s (drain s) [].

(** [run s s' enq]: [s'] is reachable from [s]; [enq] lists the items
    enqueued on the way. *)
Inductive run : state T → state T → list (item T) → Prop :=
| run_refl s : run s s []
| run_step now s1 s2 s3 enq more : run s1 s2 enq → step now s2 s3 more → run s1 s3 (enq ++ more).

(** [timed_run now s]: [s] is reached by the time [now] when the clock never
    goes back. *)
Inductive timed_run : Z → state T → Prop :=
| timed_start now : 0 ≤ now → timed_run now initial
| timed_wait now later s : timed_run now s → now ≤ later → timed_run later s
| timed_step now s s' enq : timed_run now s → step now s s' enq → timed_run now s'.
End Queue.

(** ** Invariant *)

Section Invariant.
Context {T : Type} (cfg : config).
Implicit Types (s : state T) (it : item T).

(** The flag and the batch with the callback agree. *)
Definition flag_ok s : Prop := flushing s = true ↔ is_Some (inflight s).

(** A flush is in progress exactly when a batch is with the callback, and a
    pending item always has something that will look at it again: the flush in
    progress, the latency timer or a cooldown timeout. *)
Record inv s : Prop := {
  inv_flushing : flag_ok s;
  inv_wakeup : queue s ≠ [] → flushing s = true ∨ is_Some (latencyTimer s) ∨ deferred s ≠ []
}.

(** Every item the queue still owes or has settled. *)
Definition accounted s : list (item T) :=
  concat (completed s) ++ rejected s ++ default [] (inflight s) ++ queue s.

Lemma length_zero_iff {A} (l : list A) : (length l =? 0)%nat = true ↔ l = [].
Proof. destruct l; done. Qed.

Lemma length_nonzero_iff {A} (l : list A) : (length l =? 0)%nat = false ↔ l ≠ [].
Proof. destruct l; done. Qed.

(** All branches of [doFlush]'s synchronous part. *)
Lemma begin_flush_cases now tr s :
  (begin_flush cfg now tr s = s ∧ (flushing s = true ∨ queue s = []))
  ∨ (queue s ≠ [] ∧ flushing s = false ∧ cooled tr = true
     ∧ now - lastFlushTime s < flushCooldownMs cfg
     ∧ begin_flush cfg now tr s
       = set_deferred (deferred s ++ [(lastFlushTime s + flushCooldownMs cfg, tr)]) s)
  ∨ (queue s ≠ [] ∧ flushing s = false
     ∧ (cooled tr = true → flushCooldownMs cfg ≤ now - lastFlushTime s)
     ∧ ∃ n, n = Z.to_nat (Z.min (maxBatchSize cfg) (Z.of_nat (length (queue s))))
       ∧ begin_flush cfg now tr s
         = {| queue := drop n (queue s); latencyTimer := None; deferred := deferred s;
              lastFlushTime := now; flushing := true; inflight := Some (take n (queue s));
              completed := completed s; rejected := rejected s |}).
Proof.
  unfold begin_flush. destruct (flushing s) eqn:Ef; cbn [orb]; [by left; eauto|].
  destruct (length (queue s) =? 0)%nat eqn:El; [apply length_zero_iff in El; by left; eauto|].
  apply length_nonzero_iff in El. right.
  destruct (cooled tr && _) eqn:Ec.
  - left. apply andb_true_iff in Ec as [? ?]. split_and!; [done..|lia|].
    do 4 f_equal. lia.
  - right. split_and!; [done..| |by eexists].
    intros Hc. rewrite Hc in Ec. cbn in Ec. lia.
Qed.

Lemma begin_flush_inv now tr s :
  flag_ok s → inv (begin_flush cfg now tr s)
  ∨ (begin_flush cfg now tr s = s ∧ (flushing s = true ∨ queue s = [])).
Proof.
  intros Hf. destruct (begin_flush_cases now tr s) as [?|[(Hq & Hn & _ & _ & ->)|(Hq & Hn & _ & n & _ & ->)]].
  - by right.
  - left. constructor; cbn; [done|]. intros _. right; right. by destruct (deferred s).
  - left. constructor; cbn; [split; eauto|]. by left.
Qed.

(** Starting a flush wakes the queue up, even with no timer armed. *)
Lemma begin_flush_wakes now tr s :
  flag_ok s → inv (begin_flush cfg now tr s).
Proof.
  intros Hf. destruct (begin_flush_inv now tr s Hf) as [?|[-> Hq]]; [done|].
  constructor; [done|]. intros Hne. destruct Hq; [by left|done].
Qed.

Lemma begin_flush_accounted now tr s :
  flag_ok s →
  accounted (begin_flush cfg now tr s) = accounted s.
Proof.
  intros Hf. destruct (begin_flush_cases now tr s) as [[-> _]|[(_ & _ & _ & _ & ->)|(_ & Hn & _ & n & _ & ->)]];
    [done..|].
  unfold accounted. cbn. destruct (inflight s) as [b|] eqn:Ei.
  - assert (flushing s = true) by (apply Hf; eauto). congruence.
  - cbn. by rewrite take_drop.
Qed.

Lemma checkTriggers_inv now s : inv s → inv (checkTriggers cfg now s).
Proof.
  intros Hi. unfold checkTriggers. pose proof (inv_flushing s Hi) as Hf.
  repeat case_if; first [done | by apply begin_flush_wakes].
Qed.

Lemma checkTriggers_accounted now s :
  flag_ok s → accounted (checkTriggers cfg now s) = accounted s.
Proof.
  intros Hf. unfold checkTriggers. repeat case_if; first [done | by apply begin_flush_accounted].
Qed.

Lemma schedule_spec now s :
  ∃ t, scheduleLatencyFlush cfg now s = set_timer t s ∧ (queue s ≠ [] → is_Some t).
Proof.
  unfold scheduleLatencyFlush. cbn. destruct (queue s) as [|it q].
  - by exists None.
  - case_if; eexists; (split; [reflexivity|eauto]).
Qed.

Lemma enqueue_inv now it s :
  inv s → inv (enqueue cfg now it s) ∧ accounted (enqueue cfg now it s) = accounted s ++ [it].
Proof.
  intros [Hf Hw]. unfold enqueue.
  assert (accounted (set_queue (queue s ++ [it]) s) = accounted s ++ [it]) as Ha
    by (unfold accounted; cbn; by rewrite !(assoc_L app)).
  case_if.
  - destruct (schedule_spec now (set_queue (queue s ++ [it]) s)) as (t & -> & Ht).
    split; [|by rewrite checkTriggers_accounted].
    apply checkTriggers_inv. constructor; [done|]. intros _. right; left.
    apply Ht. cbn. by destruct (queue s).
  - split; [|by rewrite checkTriggers_accounted].
    apply checkTriggers_inv. constructor; [done|]. intros _. cbn. apply Hw.
    intros E. cbn in Heqb. by rewrite E in Heqb.
Qed.

Lemma finish_inv now threw batch s :
  inv s → inflight s = Some batch →
  inv (finish_flush cfg now threw batch s)
  ∧ accounted (finish_flush cfg now threw batch s) ≡ₚ accounted s.
Proof.
  intros [Hf Hw] Hb. unfold finish_flush.
  set (s1 := {| queue := queue s |}).
  assert (accounted s1 ≡ₚ accounted s) as Ha.
  { unfold accounted. cbn. rewrite Hb. cbn. destruct threw.
    - by rewrite <- !(assoc_L app).
    - rewrite concat_app. cbn. rewrite app_nil_r, <- !(assoc_L app).
      apply Permutation_app_head, Permutation_app_swap_app. }
  assert (flag_ok s1) as Hf1 by (split; [done|by intros []]).
  destruct (length (queue s1) =? 0)%nat eqn:El.
  - apply length_zero_iff in El. split; [|by rewrite (checkTriggers_accounted now s1 Hf1)].
    apply checkTriggers_inv. by constructor.
  - apply length_nonzero_iff in El. destruct (schedule_spec now s1) as (t & -> & Ht).
    split; [|by rewrite (checkTriggers_accounted now (set_timer t s1) Hf1)].
    apply checkTriggers_inv. constructor; [exact Hf1|]. intros _. right; left. by apply Ht.
Qed.

Lemma fires_inv now tr s0 s :
  inv s0 → queue s = queue s0 → flushing s = flushing s0 → inflight s = inflight s0 →
  inv (if negb (length (queue s) =? 0)%nat && negb (flushing s) then begin_flush cfg now tr s else s).
Proof.
  intros [Hf Hw] Hq Hfl Hin. case_if.
  - apply begin_flush_wakes. unfold flag_ok. by rewrite Hfl, Hin.
  - constructor; [unfold flag_ok; by rewrite Hfl, Hin|]. intros Hne. left.
    apply andb_false_iff in Heqb as [Hb|Hb]; apply negb_false_iff in Hb; [|done].
    by apply length_zero_iff in Hb.
Qed.

Lemma step_inv now s s' more :
  step cfg now s s' more → inv s → inv s' ∧ accounted s' ≡ₚ accounted s ++ more.
Proof.
  intros Hs Hi. pose proof (inv_flushing s Hi) as Hf. destruct Hs as
    [it s|s|due s s' [s2 Ht _|tr before after s2 Hd _]|threw batch s Hb|s];
    rewrite ?app_nil_r.
  - destruct (enqueue_inv now it s Hi) as [? ->]. done.
  - split; [by apply begin_flush_wakes|]. unfold flushNow. by rewrite begin_flush_accounted.
  - split; [by apply (fires_inv now TLatency s2)|]. unfold latency_fires. case_if; [|done].
    by rewrite begin_flush_accounted.
  - split; [by apply (fires_inv now tr s2)|]. unfold deferred_fires. case_if; [|done].
    by rewrite begin_flush_accounted.
  - by apply finish_inv.
  - split; [constructor; [done|by intros ?]|]. unfold accounted. cbn. rewrite app_nil_r.
    rewrite <- !(assoc_L app). do 2 apply Permutation_app_head. apply Permutation_app_comm.
Qed.

Lemma run_inv s s' enq :
  run cfg s s' enq → inv s → inv s' ∧ accounted s' ≡ₚ accounted s ++ enq.
Proof.
  induction 1 as [s|now s1 s2 s3 enq more _ IH Hs]; intros Hi; [by rewrite app_nil_r|].
  destruct (IH Hi) as [Hi2 Ha]. destruct (step_inv _ _ _ _ Hs Hi2) as [Hi3 Ha3].
  split; [done|]. by rewrite Ha3, Ha, (assoc_L app).
Qed.

Lemma initial_inv : inv initial.
Proof. constructor; [|done]. split; [done|by intros []]. Qed.

(** When the armed timeouts are due: a cooldown timeout at the end of the
    cooldown at the latest, the latency timeout when the oldest item has
    waited long enough, or right away. *)
Record timely now s : Prop := {
  timely_last : lastFlushTime s ≤ now;
  timely_deferred : Forall (λ d, cooled d.2 = true ∧ d.1 ≤ lastFlushTime s + flushCooldownMs cfg) (deferred s);
  timely_latency : ∀ due, latencyTimer s = Some due →
    ∃ oldest, head (queue s) = Some oldest ∧ due ≤ Z.max now (enqueuedAt oldest + maxLatencyMs cfg)
}.

Lemma timely_wait now later s : timely now s → now ≤ later → timely later s.
Proof.
  intros [Hl Hd Ht] Hle. split; [lia|done|]. intros due Hdue. destruct (Ht due Hdue) as (it & Hh & Hb).
  exists it. split; [done|lia].
Qed.

Lemma timely_flush now tr s : timely now s → timely now (begin_flush cfg now tr s).
Proof.
  intros [Hl Hd Ht]. destruct (begin_flush_cases now tr s) as [[-> _]|[(_ & _ & Hc & _ & ->)|(_ & _ & _ & n & _ & ->)]];
    [done| |].
  - split; [done| |done]. cbn. apply Forall_app. split; [done|]. by repeat constructor.
  - split; cbn; [lia| |done]. eapply Forall_impl; [exact Hd|]. cbn. intros d [? Hle]. split; [done|lia].
Qed.

Lemma timely_schedule now s : timely now s → timely now (scheduleLatencyFlush cfg now s).
Proof.
  intros [Hl Hd Ht]. unfold scheduleLatencyFlush. cbn. destruct (queue s) as [|it q] eqn:Eq; [by split|].
  case_if; (split; [done|done|]); cbn; rewrite Eq; intros due [= <-]; exists it; (split; [done|lia]).
Qed.

Lemma timely_check now s : timely now s → timely now (checkTriggers cfg now s).
Proof. intros Hs. unfold checkTriggers. repeat case_if; first [done|by apply timely_flush]. Qed.

Lemma timely_callback now tr s :
  timely now s → timely now (if negb (length (queue s) =? 0)%nat && negb (flushing s) then begin_flush cfg now tr s else s).
Proof. intros Hs. case_if; [by apply timely_flush|done]. Qed.

Lemma timely_untimed now q i c r f s :
  timely now s →
  timely now {| queue := q; latencyTimer := None; deferred := deferred s; lastFlushTime := lastFlushTime s;
                flushing := f; inflight := i; completed := c; rejected := r |}.
Proof. intros [Hl Hd _]. by split. Qed.

Lemma timely_step now s s' enq : timely now s → step cfg now s s' enq → timely now s'.
Proof.
  intros Hs Hstep. destruct Hstep as
    [it s|s|due s s' [s2 Ht _|tr before after s2 Hd _]|threw batch s Hb|s].
  - unfold enqueue. apply timely_check. destruct Hs as [Hl Hd Ht]. case_if.
    + apply Nat.eqb_eq in Heqb. unfold scheduleLatencyFlush. cbn in *. rewrite length_app in Heqb.
      destruct (queue s) as [|? ?]; [|cbn in Heqb; lia]. cbn.
      case_if; (split; [done|done|]); cbn; intros due [= <-]; exists it; (split; [done|lia]).
    + split; [done|done|]. intros due Hdue. destruct (Ht due Hdue) as (o & Ho & Hle). exists o.
      split; [|done]. cbn. by destruct (queue s).
  - by apply timely_flush.
  - apply timely_callback. by apply timely_untimed.
  - apply timely_callback. destruct Hs as [Hl Hdef Ht]. rewrite Hd in Hdef. split; [done| |done].
    apply Forall_app in Hdef as [? [_ ?]%Forall_cons]. by apply Forall_app.
  - unfold finish_flush. apply timely_check. case_if; [|apply timely_schedule]; destruct Hs as [Hl Hd Ht]; by split.
  - by apply timely_untimed.
Qed.

Lemma timed_run_facts now s : timed_run cfg now s → inv s ∧ timely now s.
Proof.
  induction 1 as [now Hn|now later s _ [IHi IHt] Hle|now s s' enq _ [IHi IHt] Hs].
  - split; [apply initial_inv|]. by split.
  - split; [done|]. by eapply timely_wait.
  - split; [by eapply step_inv|by eapply timely_step].
Qed.

(** What the callback of a timeout does on a pending queue: it hands the
    oldest items over, or within the cooldown arms a timeout for its end. *)
Lemma callback_spec now tr s :
  queue s ≠ [] → flushing s = false → cooled tr = true →
  let s' := if negb (length (queue s) =? 0)%nat && negb (flushing s) then begin_flush cfg now tr s else s in
  let n := Z.to_nat (Z.min (maxBatchSize cfg) (Z.of_nat (length (queue s)))) in
  let ready := lastFlushTime s + flushCooldownMs cfg in
  (ready ≤ now → inflight s' = Some (take n (queue s)) ∧ queue s' = drop n (queue s)) ∧
  (now < ready → queue s' = queue s ∧ flushing s' = false ∧ lastFlushTime s' = lastFlushTime s ∧
     ∃ tr', (ready, tr') ∈ deferred s').
Proof.
  intros Hq Hf Htr. apply length_nonzero_iff in Hq as Hn. rewrite Hn, Hf. cbn [negb andb].
  destruct (begin_flush_cases now tr s) as [[_ [?|?]]|[(_ & _ & _ & Hw & ->)|(_ & _ & Hw & n & -> & ->)]];
    [congruence|done| |]; cbn.
  - split; [lia|]. intros _. split_and!; [done..|]. exists tr. apply elem_of_app. right. by left.
  - split; [done|]. specialize (Hw Htr). lia.
Qed.
End Invariant.

(** ** Properties *)

(** C5. Exactly once: in every interleaving of enqueues, timers, manual
    flushes, callback completions and drains, the items settled, rejected, in
    flight and queued are together a permutation of the items enqueued, and a
    batch is in flight exactly while [flushing] is set. *)
Theorem every_item_accounted {T} (cfg : config) (s : state T) enq :
  run cfg initial s enq →
  accounted s ≡ₚ enq ∧ (flushing s = true ↔ is_Some (inflight s)).
Proof.
  intros Hr. destruct (run_inv cfg _ _ _ Hr initial_inv) as [[Hf _] Ha]. split; [exact Ha|exact Hf].
Qed.

(** C6. No lost wake-up.  When items are pending and no flush is in progress,
    the queue itself has armed a timeout, latency or cooldown, that is due
    at the latest now, at the end of the cooldown or when the oldest item has
    waited [maxLatencyMs].  When that timeout fires, whenever that is, it hands
    the oldest items to the callback; or, if the cooldown is still running, it
    changes nothing but to arm another for its end. *)
Theorem pending_items_get_flushed {T} (cfg : config) now (s : state T) oldest rest :
  timed_run cfg now s → queue s = oldest :: rest → flushing s = false →
  let ready := lastFlushTime s + flushCooldownMs cfg in
  let n := Z.to_nat (Z.min (maxBatchSize cfg) (Z.of_nat (length (queue s)))) in
  ∃ due, due ≤ Z.max now (Z.max ready (enqueuedAt oldest + maxLatencyMs cfg)) ∧
    ∀ t, due ≤ t → ∃ s', fires cfg due t s s' ∧
      (ready ≤ t → inflight s' = Some (take n (queue s)) ∧ queue s' = drop n (queue s)) ∧
      (t < ready → queue s' = queue s ∧ flushing s' = false ∧ lastFlushTime s' = lastFlushTime s ∧
         ∃ tr, (ready, tr) ∈ deferred s').
Proof.
  intros Hr Hq Hf ready n. destruct (timed_run_facts cfg _ _ Hr) as [[_ Hw] [_ Hd Ht]].
  assert (queue s ≠ []) as Hne by congruence.
  destruct (Hw Hne) as [?|[[due Hdue]|Hdef]]; [congruence| |].
  - exists due. destruct (Ht due Hdue) as (o & Ho & Hle). rewrite Hq in Ho. injection Ho as <-.
    split; [lia|]. intros t Hle'. exists (latency_fires cfg t s). split; [by constructor|].
    by apply (callback_spec cfg t TLatency (set_timer None s)).
  - destruct (deferred s) as [|[due tr] others] eqn:Ed; [done|]. apply Forall_cons in Hd as [[Htr Hd] _].
    exists due. cbn [fst] in Hd. split; [lia|]. intros t Hle.
    exists (deferred_fires cfg t tr others s). split; [by apply (fires_deferred cfg due t tr [])|].
    apply (callback_spec cfg t tr (set_deferred others s)); [done..|exact Htr].
Qed.

(** What a flush request does: nothing while a flush is in progress or the
    queue is empty; size and latency requests within the cooldown are put off
    to its end; otherwise the oldest [min(maxBatchSize, depth)] items leave
    the queue, in order, as the only batch in flight.  Manual and
    backpressure requests are never put off. *)
Theorem flush_request_cases {T} (cfg : config) now tr (s : state T) :
  if flushing s || (length (queue s) =? 0)%nat then begin_flush cfg now tr s = s
  else if cooled tr && (now <? lastFlushTime s + flushCooldownMs cfg)
  then queue (begin_flush cfg now tr s) = queue s
    ∧ flushing (begin_flush cfg now tr s) = false
    ∧ deferred (begin_flush cfg now tr s)
      = deferred s ++ [(lastFlushTime s + flushCooldownMs cfg, tr)]
  else ∃ batch, queue s = batch ++ queue (begin_flush cfg now tr s)
    ∧ inflight (begin_flush cfg now tr s) = Some batch
    ∧ (0 ≤ maxBatchSize cfg →
       Z.of_nat (length batch) = Z.min (maxBatchSize cfg) (Z.of_nat (length (queue s))))
    ∧ lastFlushTime (begin_flush cfg now tr s) = now
    ∧ latencyTimer (begin_flush cfg now tr s) = None.
Proof.
  destruct (begin_flush_cases cfg now tr s) as [[E [Hf|Hf]]|[(Hq & Hfl & -> & Hc & ->)|(Hq & Hfl & Hc & n & Hn & ->)]];
    [by rewrite Hf|rewrite Hf; by rewrite orb_true_r| |];
    apply length_nonzero_iff in Hq; rewrite Hq, Hfl; cbn [orb].
  - case_if; [by split_and!|]. cbn in Heqb. lia.
  - case_if; [destruct (cooled tr); [specialize (Hc eq_refl); cbn in Heqb; lia|done]|].
    eexists. cbn. split_and!; [by rewrite take_drop|done| |done|done].
    intros Hmax. rewrite length_take. lia.
Qed.

(** ** Witnesses *)

Definition cfg2 : config :=
  {| maxBatchSize := 2; maxLatencyMs := 50; backpressureThreshold := 3; flushCooldownMs := 100 |}.
Definition mk (n : nat) (t : Z) : item string := {| payload := "p"; enqueuedAt := t; promise := n |}.

(** Two items fill a batch at time 1000; a third arrives while the callback
    works and a fourth after it is done. *)
Definition sample_state : state string :=
  enqueue cfg2 1020 (mk 4 1020)
    (finish_flush cfg2 1015 false [mk 1 1000; mk 2 1001]
      (enqueue cfg2 1010 (mk 3 1010)
        (enqueue cfg2 1001 (mk 2 1001) (enqueue cfg2 1000 (mk 1 1000) initial)))).

Lemma sample_run :
  run cfg2 initial sample_state [mk 1 1000; mk 2 1001; mk 3 1010; mk 4 1020].
Proof.
  unfold sample_state.
  eapply (run_step _ 1020 _ _ _ [mk 1 1000; mk 2 1001; mk 3 1010] [mk 4 1020]); [|apply step_enqueue].
  eapply (run_step _ 1015 _ _ _ [mk 1 1000; mk 2 1001; mk 3 1010] []); [|apply step_finish; reflexivity].
  eapply (run_step _ 1010 _ _ _ [mk 1 1000; mk 2 1001] [mk 3 1010]); [|apply step_enqueue].
  eapply (run_step _ 1001 _ _ _ [mk 1 1000] [mk 2 1001]); [|apply step_enqueue].
  eapply (run_step _ 1000 _ _ _ [] [mk 1 1000]); [apply run_refl|apply step_enqueue].
Qed.

(** Waits from [t0] to the clock reading [t] and takes the next step there. *)
Ltac timed t0 t := eapply (timed_step _ t); [apply (timed_wait _ t0 t); [|lia]|].

Lemma sample_timed_run : timed_run cfg2 1020 sample_state.
Proof.
  unfold sample_state.
  timed 1015 1020; [|apply step_enqueue].
  timed 1010 1015; [|apply step_finish; reflexivity].
  timed 1001 1010; [|apply step_enqueue].
  timed 1000 1001; [|apply step_enqueue].
  timed 0 1000; [by apply (timed_start _ 0)|apply step_enqueue].
Qed.

Lemma every_item_accounted_witness :
  accounted sample_state ≡ₚ [mk 1 1000; mk 2 1001; mk 3 1010; mk 4 1020]
  ∧ (flushing sample_state = true ↔ is_Some (inflight sample_state)).
Proof. exact (every_item_accounted cfg2 sample_state _ sample_run). Defined.

Lemma pending_items_get_flushed_witness :
  ∃ due, due ≤ Z.max 1020 (Z.max 1101 1060) ∧
    ∀ t, due ≤ t → ∃ s', fires cfg2 due t sample_state s' ∧
      (1101 ≤ t → inflight s' = Some [mk 3 1010; mk 4 1020] ∧ queue s' = []) ∧
      (t < 1101 → queue s' = queue sample_state ∧ flushing s' = false ∧ lastFlushTime s' = 1001 ∧
         ∃ tr, (1101, tr) ∈ deferred s').
Proof.
  exact (pending_items_get_flushed cfg2 1020 sample_state (mk 3 1010) [mk 4 1020] sample_timed_run eq_refl eq_refl).
Defined.
