(* ===== verification/Window.v ===== *)
(** * Sliding logs of timestamps.

    The retry budgets and the sliding-window limiter keep a list of
    timestamps, drop the expired ones and compare the length with a limit.
    [prune_front] is the [while (log[0] < cutoff) log.shift()] loop; the
    lemmas bound the number of admitted events in every window. *)

From S2P Require Import Prelude Numeric.
#[local] Open Scope Z_scope.

Fixpoint prune_front (cutoff : Z) (log : list Z) : list Z :=
  match log with
  | t :: rest => if t <? cutoff then prune_front cutoff rest else log
  | [] => []
  end.

(** The events of [log] between [a] and [b], both included. *)
Definition in_window (a b : Z) (log : list Z) : list Z :=
  List.filter (λ t, (a <=? t) && (t <=? b)) log.

Lemma prune_front_suffix c log : ∃ old, log = old ++ prune_front c log ∧ Forall (λ t, t < c) old.
Proof.
  induction log as [|t log IH]; [by exists []|]. cbn. case_if.
  - destruct IH as (old & He & Hf). exists (t :: old). cbn. rewrite He at 1.
    split; [done|]. constructor; [lia|done].
  - by exists [].
Qed.

Lemma filter_length_mono {A} (P Q : A → bool) (l : list A) :
  (∀ x, x ∈ l → P x = true → Q x = true) →
  (length (List.filter P l) ≤ length (List.filter Q l))%nat.
Proof.
  induction l as [|x l IH]; intros H; [done|]. cbn.
  assert (∀ y, y ∈ l → P y = true → Q y = true) as Hl by (intros; apply H; [by right|done]).
  specialize (IH Hl). destruct (P x) eqn:E; [rewrite (H x) by (by left || done); cbn; lia|].
  destruct (Q x); cbn; lia.
Qed.

Lemma sublist_list_filter {A} (P : A → bool) (l l' : list A) :
  sublist l l' → sublist (List.filter P l) (List.filter P l').
Proof. induction 1; cbn; [done|case_if; [by constructor|done]|case_if; [by constructor|done]]. Qed.

Lemma in_window_app a b l l' : in_window a b (l ++ l') = in_window a b l ++ in_window a b l'.
Proof. apply List.filter_app. Qed.

(** ** Admission against a sliding log

    An event at [now] is admitted when fewer than [limit] logged events are at
    or after [now - w]; the log records the admitted events. *)
Definition windows_bounded (w limit : Z) (history : list Z) : Prop :=
  ∀ a, Z.of_nat (length (in_window a (a + w) history)) ≤ limit.

(** [log] still holds every event of [history] that a later window can see. *)
Definition log_covers (w now : Z) (log history : list Z) : Prop :=
  ∃ gone, history = gone ++ log ∧ Forall (λ t, t < now - w) gone.

Lemma log_covers_refl w now log : log_covers w now log log.
Proof. exists []. by split. Qed.

Lemma log_covers_later w now now' log history :
  now ≤ now' → log_covers w now log history → log_covers w now' log history.
Proof.
  intros Hle (gone & -> & Hg). exists gone. split; [done|].
  eapply Forall_impl; [exact Hg|]. cbn. lia.
Qed.

Lemma log_covers_prune w now now' log history :
  now ≤ now' → log_covers w now log history →
  log_covers w now' (prune_front (now' - w) log) history.
Proof.
  intros Hle Hc. apply (log_covers_later _ _ now') in Hc; [|done].
  destruct Hc as (gone & -> & Hg). destruct (prune_front_suffix (now' - w) log) as (old & He & Hold).
  exists (gone ++ old). rewrite <- (assoc_L app), <- He. split; [done|]. by apply Forall_app.
Qed.

Lemma log_covers_push w now log history t :
  log_covers w now log history → log_covers w now (log ++ [t]) (history ++ [t]).
Proof.
  intros (gone & -> & Hg). exists gone. by rewrite (assoc_L app).
Qed.

(** Admitting one more event keeps every window within the limit. *)
Lemma admit_bounded w limit now log history :
  0 ≤ w → windows_bounded w limit history → log_covers w now log history →
  Z.of_nat (length log) < limit → windows_bounded w limit (history ++ [now]).
Proof.
  intros Hw Hb (gone & -> & Hg) Hlt a. rewrite in_window_app, length_app.
  specialize (Hb a). unfold in_window at 2. cbn [List.filter].
  destruct ((a <=? now) && (now <=? a + w)) eqn:E; cbn [length]; [|lia].
  rewrite in_window_app, length_app.
  assert (in_window a (a + w) gone = []) as ->.
  { clear Hb. induction Hg as [|t gone Ht Hg IH]; [done|]. cbn.
    destruct ((a <=? t) && (t <=? a + w)) eqn:Et; [bool_lia|done]. }
  cbn [length]. pose proof (List.filter_length_le (λ t, (a <=? t) && (t <=? a + w)) log) as Hlen.
  unfold in_window. lia.
Qed.
