(* ===== verification/RetryBudget.v ===== *)
(** * Retry budgets: [src/services/soroban/retry-budget.ts] and
    [src/services/integrations/retryBudget.ts].

    [Soroban] is the synchronous 60-second budget and the full-jitter delay;
    [Global] is the asynchronous outbound budget with its optional Redis
    backing.  Each method takes the clock readings it makes, in order. *)

From S2P Require Import Prelude Numeric Window.
#[local] Open Scope Z_scope.

Module Soroban.

(** ** Backoff *)

Record BackoffConfig := { baseMs : Z; maxMs : Z }.

Inductive backoff_error := BadBase | BadMax | BaseExceedsMax.

(** [base], [cap]: the two environment variables. *)
Definition getBackoffConfig (base cap : option string) : result backoff_error BackoffConfig :=
  match parse_int (default "200" base) with
  | None => Err BadBase
  | Some b =>
      let m := parse_int (default "30000" cap) in
      if b <=? 0 then Err BadBase
      else match m with
      | None => Err BadMax
      | Some m =>
          if m <=? 0 then Err BadMax
          else if m <? b then Err BaseExceedsMax
          else Ok {| baseMs := b; maxMs := m |}
      end
  end.

Inductive jitter_error := BadAttempt | BadBaseMs | BadCapMs.

(** [draw] is [Math.random()] as a multiple of [2^-53]. *)
Definition fullJitter (attempt base cap draw : Z) : result jitter_error Z :=
  if attempt <? 0 then Err BadAttempt
  else if base <=? 0 then Err BadBaseMs
  else if cap <=? 0 then Err BadCapMs
  else
    let exponential := base * 2 ^ attempt in
    let capped := Z.min exponential cap in
    Ok (floor_random_mul draw capped).

(** ** The budget *)

Definition windowMs : Z := 60000.

Record budget := { attempts : list Z; maxRetries : Z }.

Inductive budget_error := NegativeMaxRetries.

Definition new (max : Z) : result budget_error budget :=
  if max <? 0 then Err NegativeMaxRetries else Ok {| attempts := []; maxRetries := max |}.

Definition pruneExpiredAttempts (now : Z) (b : budget) : budget :=
  {| attempts := prune_front (now - windowMs) (attempts b); maxRetries := maxRetries b |}.

Definition canRetry (now : Z) (b : budget) : bool * budget :=
  let b := pruneExpiredAttempts now b in
  (Z.of_nat (length (attempts b)) <? maxRetries b, b).

(** [now]: the reading of the prune; [stamp]: the one pushed. *)
Definition recordRetry (now stamp : Z) (b : budget) : budget :=
  let b := pruneExpiredAttempts now b in
  {| attempts := attempts b ++ [stamp]; maxRetries := maxRetries b |}.

Definition getRetryCount (now : Z) (b : budget) : Z * budget :=
  let b := pruneExpiredAttempts now b in (Z.of_nat (length (attempts b)), b).

Definition reset (b : budget) : budget := {| attempts := []; maxRetries := maxRetries b |}.

(** ** Use: a retry is recorded only after [canRetry] agreed, as
    [src/services/soroban/client.ts] does, with no [await] in between.
    A call reads the clock at the check, at the prune of [recordRetry] and
    at its push. *)
Record readings := { at_check : Z; at_prune : Z; at_push : Z }.

Definition guarded_retry (c : readings) (b : budget) : bool * budget :=
  let '(ok, b1) := canRetry (at_check c) b in
  if ok then (true, recordRetry (at_prune c) (at_push c) b1) else (false, b1).

(** The stamps granted along a list of guarded retries. *)
Fixpoint guarded_run (calls : list readings) (b : budget) : list Z * budget :=
  match calls with
  | [] => ([], b)
  | c :: rest =>
      let '(ok, b1) := guarded_retry c b in
      let '(granted, b2) := guarded_run rest b1 in
      ((if ok then at_push c :: granted else granted), b2)
  end.

(** The clock readings never go back. *)
Fixpoint monotone (from : Z) (calls : list readings) : Prop :=
  match calls with
  | [] => True
  | c :: rest =>
      from ≤ at_check c ∧ at_check c ≤ at_prune c ∧ at_prune c ≤ at_push c ∧ monotone (at_push c) rest
  end.

Lemma monotone_from_le from from' calls :
  from' ≤ from → monotone from calls → monotone from' calls.
Proof. destruct calls as [|c calls]; [done|]. cbn. intros ? (? & ? & ? & ?). split_and!; (done || lia). Qed.

Lemma prune_front_length_le c log : (length (prune_front c log) ≤ length log)%nat.
Proof.
  destruct (prune_front_suffix c log) as (old & He & _).
  rewrite He at 2. rewrite length_app. lia.
Qed.

Lemma guarded_run_bounded calls b history from :
  monotone from calls → 0 ≤ maxRetries b →
  log_covers windowMs from (attempts b) history →
  windows_bounded windowMs (maxRetries b) history →
  windows_bounded windowMs (maxRetries b) (history ++ (guarded_run calls b).1).
Proof.
  revert b history from. induction calls as [|c calls IH]; intros b history from Hm H0 Hc Hb;
    cbn [guarded_run].
  { by rewrite app_nil_r. }
  destruct Hm as (Hfrom & Hp & Hs & Hm). unfold guarded_retry, canRetry.
  pose proof (log_covers_prune windowMs from (at_check c) _ _ Hfrom Hc) as Hc1.
  set (b1 := pruneExpiredAttempts (at_check c) b) in *.
  destruct (Z.of_nat (length (attempts b1)) <? maxRetries b1) eqn:E.
  - pose proof (log_covers_prune windowMs _ (at_prune c) _ _ Hp Hc1) as Hc2.
    apply (log_covers_later _ _ (at_push c)) in Hc2; [|done].
    destruct (guarded_run calls (recordRetry (at_prune c) (at_push c) b1)) as [granted b2] eqn:Eg.
    cbn [fst]. rewrite (cons_middle (at_push c) history granted), (assoc_L app).
    change granted with ((granted, b2).1). rewrite <- Eg.
    apply (IH (recordRetry (at_prune c) (at_push c) b1) (history ++ [at_push c]) (at_push c)); [done..| |].
    + by apply log_covers_push.
    + eapply admit_bounded; [unfold windowMs; lia|exact Hb|exact Hc2|].
      pose proof (prune_front_length_le (at_prune c - windowMs) (prune_front (at_check c - windowMs) (attempts b))).
      cbn in E |- *. lia.
  - destruct (guarded_run calls b1) as [granted b2] eqn:Eg. cbn [fst].
    change granted with ((granted, b2).1). rewrite <- Eg.
    apply (IH b1 history (at_check c)); [|done..].
    eapply monotone_from_le; [|exact Hm]. lia.
Qed.

(** ** Properties *)

(** A budget built with a non-negative [maxRetries] grants, over any
    sequence of guarded retries with a clock that does not go back, at most
    [maxRetries] retries in every 60-second window, wherever the window
    starts. *)
Theorem retries_within_budget max b calls start :
  new max = Ok b → monotone start calls →
  windows_bounded windowMs max (guarded_run calls b).1.
Proof.
  unfold new. case_if; [done|]. intros [= <-] Hm.
  apply (guarded_run_bounded calls {| attempts := []; maxRetries := max |} [] start); cbn.
  - done.
  - lia.
  - apply log_covers_refl.
  - intros a. cbn. lia.
Qed.

Definition three_calls : list readings :=
  [{| at_check := 0; at_prune := 0; at_push := 1 |};
   {| at_check := 5; at_prune := 6; at_push := 6 |};
   {| at_check := 60002; at_prune := 60002; at_push := 60003 |}].

Lemma retries_within_budget_witness :
  windows_bounded windowMs 1 [1; 60003].
Proof.
  apply (retries_within_budget 1 {| attempts := []; maxRetries := 1 |} three_calls 0).
  - reflexivity.
  - cbn. split_and!; (done || lia).
Defined.

(** [fullJitter] rejects a negative attempt, a non-positive base and a
    non-positive cap, in this order, and otherwise returns a delay of at least
    0 and strictly below both the cap and [base * 2^attempt], for every value
    [Math.random()] can take. *)
Theorem fullJitter_cases attempt base cap draw :
  is_draw draw = true →
  match fullJitter attempt base cap draw with
  | Err BadAttempt => attempt < 0
  | Err BadBaseMs => 0 ≤ attempt ∧ base ≤ 0
  | Err BadCapMs => 0 ≤ attempt ∧ 0 < base ∧ cap ≤ 0
  | Ok d => 0 ≤ attempt ∧ 0 < base ∧ 0 ≤ d < cap ∧ d < base * 2 ^ attempt
  end.
Proof.
  intros Hd. unfold fullJitter. repeat case_if; try lia.
  assert (0 < 2 ^ attempt) by (apply Z.pow_pos_nonneg; lia).
  pose proof (floor_random_mul_bounds draw (Z.min (base * 2 ^ attempt) cap) Hd ltac:(nia)). lia.
Qed.

Lemma fullJitter_cases_witness :
  fullJitter 7 200 30000 (2 ^ 53 - 1) = Ok 25599 ∧ 0 ≤ 25599 < 30000.
Proof.
  pose proof (fullJitter_cases 7 200 30000 (2 ^ 53 - 1) eq_refl) as H.
  split; [reflexivity|]. change (fullJitter 7 200 30000 (2 ^ 53 - 1)) with (@Ok jitter_error Z 25599) in H.
  exact (proj1 (proj2 (proj2 H))).
Defined.
End Soroban.

Module Global.

(** ** Configuration *)

Definition DEFAULT_RETRY_BUDGET_MAX_RETRIES : Z := 50.
Definition DEFAULT_RETRY_BUDGET_WINDOW_MS : Z := 60000.

Record RetryBudgetSettings := { s_maxRetries : Z; s_windowMs : Z }.

(** The two optional fields of [config.integrations.retryBudget]. *)
Definition retryBudgetSettings (maxRetries windowMs : option Z) : RetryBudgetSettings :=
  {| s_maxRetries := default DEFAULT_RETRY_BUDGET_MAX_RETRIES maxRetries;
     s_windowMs := default DEFAULT_RETRY_BUDGET_WINDOW_MS windowMs |}.

Record budget := { windowMs : Z; maxRetries : Z; localAttempts : list Z; remainingMetric : Z }.

Inductive budget_error := NegativeMaxRetries | NonPositiveWindow.

Definition new (settings : RetryBudgetSettings) (max window : option Z) : result budget_error budget :=
  let m := default (s_maxRetries settings) max in
  let w := default (s_windowMs settings) window in
  if m <? 0 then Err NegativeMaxRetries
  else if w <=? 0 then Err NonPositiveWindow
  else Ok {| windowMs := w; maxRetries := m; localAttempts := []; remainingMetric := m |}.

Definition set_attempts (l : list Z) (g : budget) : budget :=
  {| windowMs := windowMs g; maxRetries := maxRetries g; localAttempts := l;
     remainingMetric := remainingMetric g |}.

Definition updateRemainingMetric (r : Z) (g : budget) : budget :=
  {| windowMs := windowMs g; maxRetries := maxRetries g; localAttempts := localAttempts g;
     remainingMetric := r |}.

Definition localPrune (now : Z) (g : budget) : budget :=
  set_attempts (prune_front (now - windowMs g) (localAttempts g)) g.

(** ** Operations

    [redis] is the count Redis replies, [None] when it is not configured or a
    command throws; Redis itself is not modelled. *)

Definition getRetryCount (now : Z) (redis : option Z) (g : budget) : Z * budget :=
  match redis with
  | Some count => (count, g)
  | None => let g := localPrune now g in (Z.of_nat (length (localAttempts g)), g)
  end.

Definition canRetry (now : Z) (redis : option Z) (g : budget) : bool * budget :=
  let '(currentCount, g) := getRetryCount now redis g in
  let allowed := currentCount <? maxRetries g in
  let remaining := Z.max 0 (maxRetries g - (if allowed then currentCount else maxRetries g)) in
  (allowed, updateRemainingMetric remaining g).

(** [recordRetry] after the check: the store ([redisSaved] tells that both
    Redis commands succeeded), and the report. *)
Definition record_store (now : Z) (redisSaved : bool) (g : budget) : budget :=
  if redisSaved then g
  else
    let g := localPrune now g in
    set_attempts (localAttempts g ++ [now]) g.

Definition record_report (now : Z) (redis : option Z) (g : budget) : budget :=
  let '(newCount, g) := getRetryCount now redis g in
  updateRemainingMetric (Z.max 0 (maxRetries g - newCount)) g.

(** What the environment answers to one [recordRetry] call. *)
Record call := {
  check_now : Z; check_redis : option Z;
  again_now : Z; again_redis : option Z;
  store_now : Z; store_saved : bool;
  report_now : Z; report_redis : option Z }.

(** [Err (count, limit, window)] is [GlobalRetryBudgetExceededError]. *)
Definition recordRetry (c : call) (g : budget) : result (Z * Z * Z) unit * budget :=
  let '(allowed, g) := canRetry (check_now c) (check_redis c) g in
  if negb allowed then
    let '(count, g) := getRetryCount (again_now c) (again_redis c) g in
    (Err (count, maxRetries g, windowMs g), g)
  else
    let g := record_store (store_now c) (store_saved c) g in
    (Ok tt, record_report (report_now c) (report_redis c) g).

Definition getRemainingBudget (now : Z) (redis : option Z) (g : budget) : Z * budget :=
  let '(count, g) := getRetryCount now redis g in
  let remaining := Z.max 0 (maxRetries g - count) in
  (remaining, updateRemainingMetric remaining g).

Definition reset (g : budget) : budget :=
  updateRemainingMetric (maxRetries g) (set_attempts [] g).

(** ** Runs *)

Fixpoint run (calls : list call) (g : budget) : list Z * budget :=
  match calls with
  | [] => ([], g)
  | c :: rest =>
      let '(r, g1) := recordRetry c g in
      let '(granted, g2) := run rest g1 in
      ((if is_ok r then store_now c :: granted else granted), g2)
  end.

(** The process has no Redis, and its clock does not go back. *)
Definition local_call (c : call) : Prop :=
  check_redis c = None ∧ again_redis c = None ∧ store_saved c = false ∧ report_redis c = None.

Fixpoint local_monotone (from : Z) (calls : list call) : Prop :=
  match calls with
  | [] => True
  | c :: rest =>
      local_call c ∧ from ≤ check_now c ∧ check_now c ≤ again_now c ∧ check_now c ≤ store_now c ∧
      store_now c ≤ report_now c ∧ local_monotone (Z.max (again_now c) (report_now c)) rest
  end.

(** A call that was checked at [check_now] and whose store has not run. *)
Definition check_only (now : Z) (g : budget) : bool * budget := canRetry now None g.

(** [n] calls whose checks all run before the first store: each [await] of
    [recordRetry] lets the next call start. *)
Fixpoint checks (n : nat) (now : Z) (g : budget) : list bool * budget :=
  match n with
  | O => ([], g)
  | S n => let '(ok, g1) := check_only now g in
           let '(oks, g2) := checks n now g1 in (ok :: oks, g2)
  end.

Fixpoint stores (oks : list bool) (now : Z) (g : budget) : budget :=
  match oks with
  | [] => g
  | ok :: rest => stores rest now (if ok then record_store now false g else g)
  end.

(** ** Lemmas *)

(** A budget whose log covers [history] up to [now], no window of it being
    over the limit. *)
Record covered (now : Z) (history : list Z) (w m : Z) (g : budget) : Prop := {
  cov_window : windowMs g = w;
  cov_max : maxRetries g = m;
  cov_log : log_covers w now (localAttempts g) history;
  cov_bound : windows_bounded w m history
}.

Lemma covered_later from now history w m g : from ≤ now → covered from history w m g → covered now history w m g.
Proof. intros Hle [? ? Hl ?]. split; [done|done| |done]. by apply (log_covers_later _ from). Qed.

Lemma getRetryCount_covered now from history w m g :
  from ≤ now → covered from history w m g → covered now history w m (getRetryCount now None g).2.
Proof.
  intros Hle [<- <- Hl Hb]. split; [done|done| |done]. cbn. by apply (log_covers_prune _ from).
Qed.

Lemma canRetry_covered now from history w m g :
  from ≤ now → covered from history w m g → covered now history w m (canRetry now None g).2.
Proof.
  intros Hle [<- <- Hl Hb]. split; [done|done| |done]. cbn. by apply (log_covers_prune _ from).
Qed.

Lemma recordRetry_covered c from history w m g :
  local_call c → from ≤ check_now c → check_now c ≤ again_now c → check_now c ≤ store_now c →
  store_now c ≤ report_now c → 0 < w → covered from history w m g →
  let '(r, g') := recordRetry c g in
  covered (Z.max (again_now c) (report_now c)) (history ++ if is_ok r then [store_now c] else []) w m g'.
Proof.
  intros (Hr1 & Hr2 & Hr3 & Hr4) Hf Ha Hs Hp Hw [Ew Em Hl Hb]. subst w m.
  unfold recordRetry, canRetry, getRetryCount, record_report, record_store.
  rewrite Hr1, Hr2, Hr3, Hr4. cbn.
  pose proof (log_covers_prune (windowMs g) from (check_now c) _ _ Hf Hl) as Hc1.
  set (w := windowMs g) in *. set (l1 := prune_front (check_now c - w) (localAttempts g)) in *.
  destruct (Z.of_nat (length l1) <? maxRetries g) eqn:E; cbn.
  - pose proof (log_covers_prune w _ (store_now c) _ _ Hs Hc1) as Hc2. split; [done|done| |]; cbn.
    + apply (log_covers_later _ (report_now c)); [lia|]. apply (log_covers_prune w (store_now c)); [done|].
      by apply log_covers_push.
    + eapply admit_bounded; [|exact Hb|exact Hc2|]; [lia|].
      pose proof (Soroban.prune_front_length_le (store_now c - w) l1). lia.
  - rewrite app_nil_r. split; [done|done| |done]. cbn.
    apply (log_covers_later _ (again_now c)); [lia|]. by apply (log_covers_prune w (check_now c)).
Qed.

Lemma budget_run_bounded calls g history from w m :
  local_monotone from calls → 0 < w → covered from history w m g →
  windows_bounded w m (history ++ (run calls g).1).
Proof.
  revert g history from. induction calls as [|c calls IH]; intros g history from Hm Hw Hc; cbn [run].
  { rewrite app_nil_r. apply Hc. }
  destruct Hm as (Hloc & Hf & Ha & Hs & Hp & Hm).
  pose proof (recordRetry_covered c from history w m g Hloc Hf Ha Hs Hp Hw Hc) as H1.
  destruct (recordRetry c g) as [r g1]. specialize (IH g1 _ _ Hm Hw H1).
  destruct (run calls g1) as [gr g2]. destruct r; cbn in *.
  - by rewrite <- (assoc_L app) in IH.
  - by rewrite app_nil_r in IH.
Qed.

Lemma new_covered settings max window g start :
  new settings max window = Ok g → 0 < windowMs g ∧ covered start [] (windowMs g) (maxRetries g) g.
Proof.
  unfold new. repeat case_if; try done. intros [= <-]. split; [cbn; lia|].
  split; [done|done|apply log_covers_refl|]. intros a. cbn. lia.
Qed.

Lemma prune_front_all_ge c l : Forall (λ t, c ≤ t) l → prune_front c l = l.
Proof. intros H. destruct H as [|t l Ht H]; [done|]. cbn. by assert ((t <? c) = false) as -> by lia. Qed.

Definition fresh (now : Z) (g : budget) : Prop :=
  0 < windowMs g ∧ Forall (λ t, now - windowMs g ≤ t) (localAttempts g).

Lemma checks_all_pass n now g :
  fresh now g → Z.of_nat (length (localAttempts g)) < maxRetries g →
  ∃ g', checks n now g = (repeat true n, g') ∧ fresh now g' ∧ localAttempts g' = localAttempts g.
Proof.
  revert g. induction n as [|n IH]; intros g [Hw Hf] Hlt; cbn [checks repeat].
  { exists g. by repeat split. }
  unfold check_only, canRetry, getRetryCount, localPrune. rewrite prune_front_all_ge by done. cbn.
  assert ((Z.of_nat (length (localAttempts g)) <? maxRetries g) = true) as E by lia. rewrite E.
  edestruct (IH (updateRemainingMetric (Z.max 0 (maxRetries g - Z.of_nat (length (localAttempts g))))
                   (set_attempts (localAttempts g) g))) as (g' & Hc & Hf' & Hl'); [by split|done|].
  exists g'. rewrite Hc. done.
Qed.

Lemma stores_all n now g :
  fresh now g →
  localAttempts (stores (repeat true n) now g) = localAttempts g ++ repeat now n.
Proof.
  revert g. induction n as [|n IH]; intros g [Hw Hf]; cbn [stores repeat]; [by rewrite app_nil_r|].
  unfold record_store, localPrune. rewrite prune_front_all_ge by done.
  rewrite IH; cbn; [by rewrite <- (assoc_L app)|].
  split; [done|]. cbn. apply Forall_app. split; [done|]. constructor; [lia|done].
Qed.

(** ** Properties *)

(** With Redis absent, calls of [recordRetry] that run one after the other
    are granted at most [maxRetries] times in every window of [windowMs],
    whatever window and cap the constructor accepted. *)
Theorem sequential_calls_within_budget settings max window g calls start :
  new settings max window = Ok g → local_monotone start calls →
  windows_bounded (windowMs g) (maxRetries g) (run calls g).1.
Proof.
  intros Hn Hm. destruct (new_covered _ _ _ _ start Hn) as [Hw Hc]. by apply (budget_run_bounded calls g [] start).
Qed.

Definition local_at (t : Z) : call :=
  {| check_now := t; check_redis := None; again_now := t; again_redis := None;
     store_now := t; store_saved := false; report_now := t; report_redis := None |}.

Lemma sequential_calls_within_budget_witness :
  windows_bounded 1000 2 [10; 20; 1011].
Proof.
  refine (sequential_calls_within_budget (retryBudgetSettings None None) (Some 2) (Some 1000)
            {| windowMs := 1000; maxRetries := 2; localAttempts := []; remainingMetric := 2 |}
            [local_at 10; local_at 20; local_at 30; local_at 1011] 0 _ _).
  - reflexivity.
  - cbn. unfold local_call. cbn. split_and!; (done || lia).
Defined.

(** The check and the store of [recordRetry] are separate steps: when any
    number of concurrent calls finish their checks before the first of them
    stores, a budget with one retry left grants them all, and its log ends up
    with all of them. *)
Theorem concurrent_calls_overshoot n now g :
  fresh now g → Z.of_nat (length (localAttempts g)) < maxRetries g →
  let '(oks, g1) := checks n now g in
  oks = repeat true n ∧
  length (localAttempts (stores oks now g1)) = (length (localAttempts g) + n)%nat.
Proof.
  intros Hf Hlt. destruct (checks_all_pass n now g Hf Hlt) as (g' & -> & Hf' & Hl).
  split; [done|]. rewrite stores_all by done. by rewrite Hl, length_app, repeat_length.
Qed.

Lemma concurrent_calls_overshoot_witness :
  let g := {| windowMs := 1000; maxRetries := 1; localAttempts := []; remainingMetric := 1 |} in
  length (localAttempts (stores (repeat true 5) 7 (snd (checks 5 7 g)))) = 5%nat.
Proof.
  intros g. pose proof (concurrent_calls_overshoot 5 7 g) as H.
  destruct (checks 5 7 g) as [oks g1]. destruct H as [-> H]; [by split|done|]. exact H.
Defined.
End Global.
