(* ===== verification/SorobanClient.v ===== *)
(** * The Soroban RPC client: [src/services/soroban/client.ts]

    The circuit breaker, the retry policy, the loop of attempts with its
    timeout, and the methods of a server.  What the network answers, the
    random draws and [Number] are arguments.  Everything between two awaits
    is one function of the shared state, the breaker and the retry budget of
    [RetryBudget.Soroban], so that calls in flight interleave at those. *)

From S2P Require Import Prelude Numeric Hashing JsString Words Doubles Window.
From S2P Require RetryBudget.
Import RetryBudget.Soroban(budget, canRetry, recordRetry, getRetryCount, fullJitter).
#[local] Open Scope Z_scope.

(** ** The circuit breaker *)

Inductive CircuitBreakerState := CLOSED | OPEN | HALF_OPEN.

Record CircuitBreaker := { state : CircuitBreakerState; failureCount : Z; lastFailureTime : Z; threshold : Z; resetTimeoutMs : Z }.

Definition new_breaker (threshold resetTimeoutMs : Z) : CircuitBreaker :=
  {| state := CLOSED; failureCount := 0; lastFailureTime := 0; threshold := threshold; resetTimeoutMs := resetTimeoutMs |}.

Definition transitionTo (s : CircuitBreakerState) (b : CircuitBreaker) : CircuitBreaker :=
  {| state := s; failureCount := failureCount b; lastFailureTime := lastFailureTime b; threshold := threshold b; resetTimeoutMs := resetTimeoutMs b |}.

Definition recordSuccess (b : CircuitBreaker) : CircuitBreaker :=
  let b := match state b with HALF_OPEN => transitionTo CLOSED b | _ => b end in
  {| state := state b; failureCount := 0; lastFailureTime := lastFailureTime b; threshold := threshold b; resetTimeoutMs := resetTimeoutMs b |}.

Definition recordFailure (now : Z) (b : CircuitBreaker) : CircuitBreaker :=
  let b := {| state := state b; failureCount := failureCount b + 1; lastFailureTime := now; threshold := threshold b; resetTimeoutMs := resetTimeoutMs b |} in
  match state b with
  | CLOSED => if threshold b <=? failureCount b then transitionTo OPEN b else b
  | HALF_OPEN => transitionTo OPEN b
  | OPEN => b
  end.

Definition canProceed (now : Z) (b : CircuitBreaker) : bool * CircuitBreaker :=
  match state b with
  | CLOSED => (true, b)
  | OPEN => if resetTimeoutMs b <=? now - lastFailureTime b then (true, transitionTo HALF_OPEN b) else (false, b)
  | HALF_OPEN => (true, b)
  end.

(** ** The policy *)

Record SorobanRetryPolicy := {
  timeoutMs : Z; maxRetries : Z; retryBaseDelayMs : Z; retryMaxDelayMs : Z; retryJitterRatio : double; circuitBreakerThreshold : Z; circuitBreakerResetMs : Z
}.
Definition DEFAULT_RETRY_POLICY : SorobanRetryPolicy :=
  {| timeoutMs := 5000; maxRetries := 2; retryBaseDelayMs := 200; retryMaxDelayMs := 1500; retryJitterRatio := literal 2 10;
     circuitBreakerThreshold := 5; circuitBreakerResetMs := 30000 |}.

Definition MIN_TIMEOUT_MS : Z := 100.
Definition MAX_TIMEOUT_MS : Z := 60000.
Definition MAX_RETRIES : Z := 5.
Definition MIN_DELAY_MS : Z := 1.
Definition MAX_DELAY_MS : Z := 30000.
Definition MIN_CIRCUIT_BREAKER_THRESHOLD : Z := 1.
Definition MAX_CIRCUIT_BREAKER_THRESHOLD : Z := 20.
Definition MIN_CIRCUIT_BREAKER_RESET_MS : Z := 1000.
Definition MAX_CIRCUIT_BREAKER_RESET_MS : Z := 300000.

(** ** The configuration *)

Definition DEFAULT_RPC_URL : string := "https://soroban-testnet.stellar.org".

Record SorobanClientConfig := { rpcUrl : string; contractId : string; networkPassphrase : string }.

Inductive config_error := MissingVariable (name : string) | InvalidContract.

Section Config.
(** [TESTNET] and [isValidContract] are the SDK's. *)
Context (TESTNET : string) (isValidContract : string → bool) (env : string → option string).

Definition getRequiredEnv (name : string) : result config_error string :=
  match env name with
  | None | Some EmptyString => Err (MissingVariable name)
  | Some value => Ok value
  end.

Definition getSorobanConfig : result config_error SorobanClientConfig :=
  id ← getRequiredEnv "SOROBAN_CONTRACT_ID";
  if negb (isValidContract id) then Err InvalidContract
  else Ok {| rpcUrl := default DEFAULT_RPC_URL (env "SOROBAN_RPC_URL"); contractId := id;
             networkPassphrase := default TESTNET (env "SOROBAN_NETWORK_PASSPHRASE") |}.
End Config.

(** What [createSorobanRpcServer] passes to the SDK's constructor. *)
Definition allowHttp (url : string) : bool := String.prefix "http://localhost" url || String.prefix "http://127.0.0.1" url.

Inductive policy_error := InvalidVariable (name : string) | BaseExceedsMax.

Section Policy.
Context (Number : string → double) (env : string → option string).

Definition is_integer_text (s : string) : bool := nonempty s && string_forallb is_digit s.

Definition parseIntegerEnv (name : string) (fallback min max : Z) : result policy_error Z :=
  match env name with
  | None => Ok fallback
  | Some rawValue =>
      if negb (is_integer_text (trim rawValue)) then Err (InvalidVariable name)
      else let value := default 0 (parse_int rawValue) in
           if (value <? min) || (max <? value) then Err (InvalidVariable name) else Ok value
  end.

Definition parseDecimalEnv (name : string) (fallback min max : double) : result policy_error double :=
  match env name with
  | None => Ok fallback
  | Some rawValue =>
      let value := Number rawValue in
      if negb (isFinite value) || (value <? min)%double || (max <? value)%double then Err (InvalidVariable name) else Ok value
  end.

(** [overrides]: the fields that are given. *)
Record overrides := {
  o_timeoutMs : option Z; o_maxRetries : option Z; o_retryBaseDelayMs : option Z; o_retryMaxDelayMs : option Z; o_retryJitterRatio : option double;
  o_circuitBreakerThreshold : option Z; o_circuitBreakerResetMs : option Z
}.
Definition no_overrides : overrides :=
  {| o_timeoutMs := None; o_maxRetries := None; o_retryBaseDelayMs := None; o_retryMaxDelayMs := None; o_retryJitterRatio := None;
     o_circuitBreakerThreshold := None; o_circuitBreakerResetMs := None |}.

Definition getSorobanRetryPolicy (o : overrides) : result policy_error SorobanRetryPolicy :=
  timeout ← parseIntegerEnv "SOROBAN_RPC_TIMEOUT_MS" (timeoutMs DEFAULT_RETRY_POLICY) MIN_TIMEOUT_MS MAX_TIMEOUT_MS;
  retries ← parseIntegerEnv "SOROBAN_RPC_MAX_RETRIES" (maxRetries DEFAULT_RETRY_POLICY) 0 MAX_RETRIES;
  base' ← parseIntegerEnv "SOROBAN_RPC_RETRY_BASE_DELAY_MS" (retryBaseDelayMs DEFAULT_RETRY_POLICY) MIN_DELAY_MS MAX_DELAY_MS;
  base ← parseIntegerEnv "SOROBAN_BACKOFF_BASE_MS" base' MIN_DELAY_MS MAX_DELAY_MS;
  cap' ← parseIntegerEnv "SOROBAN_RPC_RETRY_MAX_DELAY_MS" (retryMaxDelayMs DEFAULT_RETRY_POLICY) MIN_DELAY_MS MAX_DELAY_MS;
  cap ← parseIntegerEnv "SOROBAN_BACKOFF_MAX_MS" cap' MIN_DELAY_MS MAX_DELAY_MS;
  ratio ← parseDecimalEnv "SOROBAN_RPC_RETRY_JITTER_RATIO" (retryJitterRatio DEFAULT_RETRY_POLICY) zero (of_Z 1);
  failures ← parseIntegerEnv "SOROBAN_RPC_CIRCUIT_BREAKER_THRESHOLD" (circuitBreakerThreshold DEFAULT_RETRY_POLICY) MIN_CIRCUIT_BREAKER_THRESHOLD MAX_CIRCUIT_BREAKER_THRESHOLD;
  reset ← parseIntegerEnv "SOROBAN_RPC_CIRCUIT_BREAKER_RESET_MS" (circuitBreakerResetMs DEFAULT_RETRY_POLICY) MIN_CIRCUIT_BREAKER_RESET_MS MAX_CIRCUIT_BREAKER_RESET_MS;
  let policy := {|
    timeoutMs := default timeout (o_timeoutMs o); maxRetries := default retries (o_maxRetries o); retryBaseDelayMs := default base (o_retryBaseDelayMs o);
    retryMaxDelayMs := default cap (o_retryMaxDelayMs o); retryJitterRatio := default ratio (o_retryJitterRatio o);
    circuitBreakerThreshold := default failures (o_circuitBreakerThreshold o); circuitBreakerResetMs := default reset (o_circuitBreakerResetMs o) |} in
  if retryMaxDelayMs policy <? retryBaseDelayMs policy then Err BaseExceedsMax else Ok policy.
End Policy.

(** ** Errors *)

Inductive rpc_error :=
| TimedOut (ms : Z)
| Thrown (name : string) (code : option string) (message : string)
| ThrownValue
| BudgetExceeded (count limit : Z)
| BreakerOpen (s : CircuitBreakerState)
| InvalidBackoff
| UnexpectedPath.

(** [error.code] and [error.message], when it is an [Error]. *)
Definition error_code (e : rpc_error) : string :=
  match e with Thrown _ (Some c) _ => c | BudgetExceeded _ _ => "SOROBAN_RETRY_BUDGET_EXCEEDED" | _ => EmptyString end.
Definition error_message (e : rpc_error) : string :=
  match e with
  | Thrown _ _ m => m
  | BudgetExceeded n l => "Soroban retry budget exhausted: " +:+ show_Z n +:+ "/" +:+ show_Z l +:+ " retries in the last 60 seconds."
  | InvalidBackoff => "capMs must be a positive number"
  | _ => EmptyString
  end.
Definition is_error (e : rpc_error) : bool := match e with ThrownValue => false | _ => true end.
Definition isAbortError (e : rpc_error) : bool := match e with Thrown n _ _ => String.eqb n "AbortError" | _ => false end.

Definition hasRetryableCode (e : rpc_error) : bool :=
  includes (error_code e)
    ["ECONNRESET"; "ECONNREFUSED"; "EHOSTUNREACH"; "ENETUNREACH"; "ETIMEDOUT"; "EAI_AGAIN"; "ENOTFOUND"; "UND_ERR_CONNECT_TIMEOUT"; "UND_ERR_HEADERS_TIMEOUT";
     "UND_ERR_BODY_TIMEOUT"; "UND_ERR_SOCKET"; "UND_ERR_CLOSED"; "ENETDOWN"; "EHOSTDOWN"; "ECONNABORTED"].

Definition transient_words : list string :=
  ["timeout"; "timed out"; "temporarily unavailable"; "try again later"; "socket hang up"; "network error"; "connection reset"; "connection refused";
   "connection timeout"; "dns"; "name resolution"; "503"; "504"; "429"; "rate limit"; "too many requests"; "fetch failed"; "undici"].

Definition isRetryableSorobanError (e : rpc_error) : bool :=
  match e with
  | TimedOut _ => true
  | _ =>
      if isAbortError e then true
      else if negb (is_error e) then false
      else if hasRetryableCode e then true
      else existsb (λ w, contains w (to_lower (error_message e))) transient_words
  end.

(** ** Attempts *)

(** What an attempt meets: an answer or a rejection after some milliseconds,
    or nothing. *)
Inductive answer (A : Type) := Responds (delay : Z) (r : A) | Rejects (delay : Z) (e : rpc_error) | Hangs.
Arguments Responds {A} delay r.
Arguments Rejects {A} delay e.
Arguments Hangs {A}.

Definition withSorobanTimeout {A} (timeoutMs : Z) (a : answer A) : Z * result rpc_error A :=
  match a with
  | Responds d r => if d <? timeoutMs then (d, Ok r) else (timeoutMs, Err (TimedOut timeoutMs))
  | Rejects d e => if d <? timeoutMs then (d, Err e) else (timeoutMs, Err (TimedOut timeoutMs))
  | Hangs => (timeoutMs, Err (TimedOut timeoutMs))
  end.

Inductive hook := RequestStart (attempt : Z) | RequestSuccess (attempt duration : Z) | RequestFailure (attempt duration : Z) (e : rpc_error)
| RetryRecorded (at_ : Z) | OnRetry (attempt delay : Z).

Record shared := { circuit : CircuitBreaker; retry_budget : budget; hooks : list hook }.
Definition with_circuit (f : CircuitBreaker → CircuitBreaker) (s : shared) : shared := {| circuit := f (circuit s); retry_budget := retry_budget s; hooks := hooks s |}.
Definition with_budget (b : budget) (s : shared) : shared := {| circuit := circuit s; retry_budget := b; hooks := hooks s |}.
Definition emit (h : hook) (s : shared) : shared := {| circuit := circuit s; retry_budget := retry_budget s; hooks := hooks s ++ [h] |}.

(** The rest of an iteration: return, or sleep and go on. *)
Inductive next (A : Type) := Return (r : result rpc_error A) | Sleep (delay : Z).
Arguments Return {A} r.
Arguments Sleep {A} delay.

Section Execute.
Context {A : Type} (policy : SorobanRetryPolicy) (limit : Z) (shouldRetryResult : A → bool).

(** The budget is asked, charged, and the delay drawn. *)
Definition charge (now attempt draw : Z) (s : shared) : result rpc_error Z * shared :=
  let '(ok, b) := canRetry now (retry_budget s) in
  if negb ok then let '(n, b) := getRetryCount now b in (Err (BudgetExceeded n limit), with_budget b s)
  else
    let s := emit (RetryRecorded now) (with_budget (recordRetry now now b) s) in
    match fullJitter (attempt - 1) (retryBaseDelayMs policy) (retryMaxDelayMs policy) draw with
    | Err _ => (Err InvalidBackoff, s)
    | Ok d => (Ok d, emit (OnRetry attempt d) s)
    end.

(** The [catch] block. *)
Definition on_error (now attempt duration draw : Z) (e : rpc_error) (s : shared) : next A * shared :=
  if negb (isRetryableSorobanError e && (attempt <=? maxRetries policy))
  then (Return (Err e), emit (RequestFailure attempt duration e) (with_circuit (recordFailure now) s))
  else match charge now attempt draw s with
       | (Err e', s) => (Return (Err e'), s)
       | (Ok d, s) => (Sleep d, s)
       end.

(** What follows the await of an attempt; what the [try] block throws is
    caught. *)
Definition settle (now attempt duration draw : Z) (r : result rpc_error A) (s : shared) : next A * shared :=
  match r with
  | Err e => on_error now attempt duration draw e s
  | Ok v =>
      let s := emit (RequestSuccess attempt duration) (with_circuit recordSuccess s) in
      if negb (shouldRetryResult v && (attempt <=? maxRetries policy)) then (Return (Ok v), s)
      else match charge now attempt draw s with
           | (Err e, s) => on_error now attempt duration draw e s
           | (Ok d, s) => (Sleep d, s)
           end
  end.

(** A request: what its attempts meet, and the draws. *)
Context (answers : Z → answer A) (draws : Z → Z).

Fixpoint attempts_from (tries : nat) (attempt now : Z) (s : shared) : result rpc_error A * Z * shared :=
  match tries with
  | O => (Err UnexpectedPath, now, s)
  | S tries =>
      let '(duration, r) := withSorobanTimeout (timeoutMs policy) (answers attempt) in
      let now := now + duration in
      match settle now attempt duration (draws attempt) r (emit (RequestStart attempt) s) with
      | (Return r, s) => (r, now, s)
      | (Sleep d, s) => attempts_from tries (attempt + 1) (now + d) s
      end
  end.

Definition executeSorobanRequest (now : Z) (s : shared) : result rpc_error A * Z * shared :=
  let '(ok, c) := canProceed now (circuit s) in
  let s := with_circuit (λ _, c) s in
  if negb ok then (Err (BreakerOpen (state c)), now, emit (RequestFailure 0 0 (BreakerOpen (state c))) s)
  else attempts_from (Z.to_nat (maxRetries policy + 1)) 1 now s.
End Execute.

(** ** The methods of a server *)

Inductive ServerMethodName := getAccount | prepareTransaction | sendTransaction | simulateTransaction.

(** [wrapServerMethod]: the responses that are retried. *)
Definition shouldRetryResponse {A} (status : A → string) (m : ServerMethodName) (r : A) : bool :=
  match m with sendTransaction => String.eqb (status r) "TRY_AGAIN_LATER" | _ => false end.

Definition createSorobanRpcServer (policy : SorobanRetryPolicy) (b : budget) : shared :=
  {| circuit := new_breaker (circuitBreakerThreshold policy) (circuitBreakerResetMs policy); retry_budget := b; hooks := [] |}.

(** ** The breaker *)

Definition fail_all (times : list Z) (b : CircuitBreaker) : CircuitBreaker := fold_left (λ b t, recordFailure t b) times b.

Lemma fail_all_spec times b : state b = CLOSED → failureCount b < threshold b →
  failureCount (fail_all times b) = failureCount b + Z.of_nat (length times) ∧ threshold (fail_all times b) = threshold b ∧
  resetTimeoutMs (fail_all times b) = resetTimeoutMs b ∧ lastFailureTime (fail_all times b) = default (lastFailureTime b) (last times) ∧
  state (fail_all times b) = if threshold b <=? failureCount b + Z.of_nat (length times) then OPEN else CLOSED.
Proof.
  intros Hs Hc. unfold fail_all. induction times as [|t times IH] using rev_ind; cbn [fold_left length last].
  - rewrite Z.add_0_r, Hs. destruct (Z.leb_spec (threshold b) (failureCount b)); [lia|done].
  - rewrite fold_left_app, last_snoc, length_app. cbn [fold_left default length]. destruct IH as (E1 & E2 & E3 & E4 & E5).
    set (c := fold_left _ times b) in *. unfold recordFailure. cbn [state]. rewrite E5.
    destruct (Z.leb_spec (threshold b) (failureCount b + Z.of_nat (length times))); cbn [state].
    + cbn. rewrite E1, E2, E3. split_and!; try done; [lia|]. destruct (Z.leb_spec (threshold b) (failureCount b + Z.of_nat (length times + 1))); [done|lia].
    + cbn. rewrite E2, E1, E3.
      destruct (Z.leb_spec (threshold b) (failureCount b + Z.of_nat (length times) + 1)), (Z.leb_spec (threshold b) (failureCount b + Z.of_nat (length times + 1)));
        cbn; rewrite ?E1, ?E2, ?E3; split_and!; try done; lia.
Qed.

(** The breaker opens at the [threshold]-th failure in a row and not
    before, then refuses every request until the reset time has passed since
    the last failure; the request it then lets through closes it again or
    opens it again. *)
Theorem breaker_opens_at_threshold b times t now :
  state b = CLOSED → failureCount b = 0 → 0 < threshold b → last times = Some t →
  let c := fail_all times b in
  (Z.of_nat (length times) < threshold b → state c = CLOSED ∧ canProceed now c = (true, c)) ∧
  (threshold b ≤ Z.of_nat (length times) → state c = OPEN ∧
    (now < t + resetTimeoutMs b → canProceed now c = (false, c)) ∧
    (t + resetTimeoutMs b ≤ now → ∃ d, canProceed now c = (true, d) ∧ state d = HALF_OPEN ∧
      state (recordSuccess d) = CLOSED ∧ failureCount (recordSuccess d) = 0 ∧ ∀ u, state (recordFailure u d) = OPEN)).
Proof.
  intros Hs Hf Ht Hl c. destruct (fail_all_spec times b Hs ltac:(lia)) as (E1 & E2 & E3 & E4 & E5). fold c in E1, E2, E3, E4, E5.
  rewrite Hl in E4. cbn in E4. rewrite Hf in E5. unfold canProceed. split.
  - intros Hn. destruct (Z.leb_spec (threshold b) (0 + Z.of_nat (length times))); [lia|]. by rewrite E5.
  - intros Hn. destruct (Z.leb_spec (threshold b) (0 + Z.of_nat (length times))); [|lia]. rewrite E5, E3, E4. split; [done|]. split.
    + intros Hnow. destruct (Z.leb_spec (resetTimeoutMs b) (now - t)); [lia|done].
    + intros Hnow. destruct (Z.leb_spec (resetTimeoutMs b) (now - t)); [|lia]. by exists (transitionTo HALF_OPEN c).
Qed.

(** ** A request *)

(** A policy as the environment gives it. *)
Record policy_ok (p : SorobanRetryPolicy) : Prop := {
  timeout_pos : 0 < timeoutMs p; retries_nonneg : 0 ≤ maxRetries p; base_pos : 0 < retryBaseDelayMs p; base_le_cap : retryBaseDelayMs p ≤ retryMaxDelayMs p
}.

Lemma parse_integer_bounds env name fallback lo hi v :
  parseIntegerEnv env name fallback lo hi = Ok v → lo ≤ fallback ≤ hi → lo ≤ v ≤ hi.
Proof.
  unfold parseIntegerEnv. destruct (env name) as [raw|]; [|by intros [= ->]]. destruct (negb _); [done|].
  destruct (Z.ltb_spec (default 0 (parse_int raw)) lo), (Z.ltb_spec hi (default 0 (parse_int raw))); cbn; try done. intros [= <-]. lia.
Qed.

(** A policy read from the environment has every number in its range, and
    its base delay within its cap, or the variable is refused. *)
Theorem environment_policy_ok Number env p :
  getSorobanRetryPolicy Number env no_overrides = Ok p →
  policy_ok p ∧ MIN_TIMEOUT_MS ≤ timeoutMs p ≤ MAX_TIMEOUT_MS ∧ maxRetries p ≤ MAX_RETRIES ∧ retryMaxDelayMs p ≤ MAX_DELAY_MS ∧
  MIN_CIRCUIT_BREAKER_THRESHOLD ≤ circuitBreakerThreshold p ≤ MAX_CIRCUIT_BREAKER_THRESHOLD ∧
  MIN_CIRCUIT_BREAKER_RESET_MS ≤ circuitBreakerResetMs p ≤ MAX_CIRCUIT_BREAKER_RESET_MS.
Proof.
  unfold getSorobanRetryPolicy. intros H. repeat (apply bind_Ok_inv in H as (? & ? & H)).
  repeat match goal with
  | E : parseIntegerEnv _ _ _ _ _ = Ok _ |- _ => apply parse_integer_bounds in E; [|cbn; unfold MIN_TIMEOUT_MS, MAX_TIMEOUT_MS, MAX_RETRIES, MIN_DELAY_MS, MAX_DELAY_MS,
      MIN_CIRCUIT_BREAKER_THRESHOLD, MAX_CIRCUIT_BREAKER_THRESHOLD, MIN_CIRCUIT_BREAKER_RESET_MS, MAX_CIRCUIT_BREAKER_RESET_MS in *; lia]
  end.
  cbn in H. destruct (Z.ltb_spec x4 x2); [done|]. injection H as <-. cbn. split; [split; cbn; unfold MIN_TIMEOUT_MS, MIN_DELAY_MS in *; lia|]. lia.
Qed.

(** The attempts that were started, from the hooks. *)
Definition started (s : shared) : list Z := omap (λ h, match h with RequestStart a => Some a | _ => None end) (hooks s).
(** The retries that the budget was charged with. *)
Definition recorded (s : shared) : list Z := omap (λ h, match h with RetryRecorded t => Some t | _ => None end) (hooks s).

Section Request.
Context {A : Type} (policy : SorobanRetryPolicy) (limit : Z) (shouldRetryResult : A → bool).

(** What may be tried again: a retryable error or a retryable response. *)
Definition transient (r : result rpc_error A) : bool :=
  match r with Ok v => shouldRetryResult v | Err e => isRetryableSorobanError e end.

Lemma started_emit h s : started (emit h s) = started s ++ match h with RequestStart a => [a] | _ => [] end.
Proof. unfold started, emit. cbn [hooks]. rewrite omap_app. by destruct h. Qed.

Lemma recorded_emit h s : recorded (emit h s) = recorded s ++ match h with RetryRecorded a => [a] | _ => [] end.
Proof. unfold recorded, emit. cbn [hooks]. rewrite omap_app. by destruct h. Qed.

Lemma charge_spec now attempt draw s :
  policy_ok policy → 1 ≤ attempt → is_draw draw = true →
  started (charge policy limit now attempt draw s).2 = started s ∧ circuit (charge policy limit now attempt draw s).2 = circuit s ∧
  match (charge policy limit now attempt draw s).1 with
  | Ok d => 0 ≤ d < retryMaxDelayMs policy ∧ d < retryBaseDelayMs policy * 2 ^ (attempt - 1)
  | Err e => ∃ n, e = BudgetExceeded n limit
  end.
Proof.
  intros [Hp1 Hp2 Hp3 Hp4] Ha Hd. unfold charge. destruct (canRetry now (retry_budget s)) as [[] b]; cbn [negb].
  - unfold fullJitter. destruct (Z.ltb_spec (attempt - 1) 0); [lia|]. destruct (Z.leb_spec (retryBaseDelayMs policy) 0); [lia|].
    destruct (Z.leb_spec (retryMaxDelayMs policy) 0); [lia|]. cbn [fst snd]. rewrite !started_emit, !app_nil_r. split; [done|]. split; [done|].
    assert (0 < 2 ^ (attempt - 1)) by (apply Z.pow_pos_nonneg; lia).
    pose proof (floor_random_mul_bounds draw (Z.min (retryBaseDelayMs policy * 2 ^ (attempt - 1)) (retryMaxDelayMs policy)) Hd ltac:(nia)). lia.
  - destruct (getRetryCount now b) as [n b']. cbn. split_and!; [done|done|by exists n].
Qed.

(** What an iteration does. *)
Definition decision_ok (attempt : Z) (r : result rpc_error A) (n : next A) : Prop :=
  match n with
  | Return (Ok v) => r = Ok v ∧ (shouldRetryResult v = false ∨ maxRetries policy < attempt)
  | Return (Err e) =>
      r = Err e ∧ (isRetryableSorobanError e = false ∨ maxRetries policy < attempt) ∨
      transient r = true ∧ attempt ≤ maxRetries policy ∧ ∃ n, e = BudgetExceeded n limit
  | Sleep d => transient r = true ∧ attempt ≤ maxRetries policy ∧ 0 ≤ d < retryMaxDelayMs policy
  end.

Lemma settle_spec now attempt duration draw r s :
  policy_ok policy → 1 ≤ attempt → is_draw draw = true →
  started (settle policy limit shouldRetryResult now attempt duration draw r s).2 = started s ∧
  decision_ok attempt r (settle policy limit shouldRetryResult now attempt duration draw r s).1.
Proof.
  intros Hp Ha Hd.
  assert (∀ e s, started (on_error (A := A) policy limit now attempt duration draw e s).2 = started s ∧
    match (on_error (A := A) policy limit now attempt duration draw e s).1 with
    | Return (Ok v) => False
    | Return (Err e') => e' = e ∧ (isRetryableSorobanError e = false ∨ maxRetries policy < attempt) ∨
        isRetryableSorobanError e = true ∧ attempt ≤ maxRetries policy ∧ ∃ n, e' = BudgetExceeded n limit
    | Sleep d => isRetryableSorobanError e = true ∧ attempt ≤ maxRetries policy ∧ 0 ≤ d < retryMaxDelayMs policy
    end) as He.
  { intros e s'. unfold on_error. destruct (isRetryableSorobanError e) eqn:Er, (Z.leb_spec (attempt) (maxRetries policy)); cbn [andb negb];
      try (cbn [fst snd]; rewrite started_emit, app_nil_r; split; [done|left; split; [done|]; by (left + right)]).
    destruct (charge_spec now attempt draw s' Hp Ha Hd) as (Hst & _ & Hc). destruct (charge policy limit now attempt draw s') as [[d|e'] s'']; cbn [fst snd] in *.
    - split; [done|]. split_and!; (done || lia).
    - split; [done|]. right. split_and!; (done || lia). }
  unfold settle. destruct r as [v|e].
  - destruct (shouldRetryResult v) eqn:Es, (Z.leb_spec (attempt) (maxRetries policy)); cbn [andb negb];
      try (cbn [fst snd]; rewrite started_emit, app_nil_r; split; [done|split; [done|]; by (left + right)]).
    set (s1 := emit _ _). assert (started s1 = started s) as E1 by (unfold s1; by rewrite started_emit, app_nil_r).
    destruct (charge_spec now attempt draw s1 Hp Ha Hd) as (Hst & _ & Hc). destruct (charge policy limit now attempt draw s1) as [[d|e'] s''] eqn:Ec; cbn [fst snd] in Hst, Hc.
    + cbn [fst snd]. rewrite Hst, E1. split; [done|]. cbn. split_and!; (done || lia).
    + destruct Hc as [n ->]. destruct (He (BudgetExceeded n limit) s'') as [H1 H2]. rewrite H1, Hst, E1. split; [done|].
      destruct (on_error _ _ _ _ _ _ _ _) as [[[v'|e']|d] s3]; cbn [fst snd decision_ok transient] in *; [done| |destruct H2 as (_ & H2 & H3); split_and!; (done || lia)].
      right. split; [done|]. split; [done|]. destruct H2 as [[-> _]|(_ & _ & Hn)]; [by exists n|done].
  - destruct (He e s) as [H1 H2]. rewrite H1. split; [done|]. destruct (on_error _ _ _ _ _ _ _ _) as [[[v'|e']|d] s3]; cbn [fst snd decision_ok transient] in *; [done| |done].
    destruct H2 as [[-> H2]|H2]; [by left|by right].
Qed.

Context (answers : Z → answer A) (draws : Z → Z).

Definition met (attempt : Z) : result rpc_error A := (withSorobanTimeout (timeoutMs policy) (answers attempt)).2.

(** The answers take their time, and the draws are random numbers. *)
Record request_ok : Prop := {
  delays_nonneg : ∀ i, match answers i with Responds d _ | Rejects d _ => 0 ≤ d | Hangs => True end;
  draws_ok : ∀ i, is_draw (draws i) = true
}.

Lemma timeout_spec i : request_ok → 0 < timeoutMs policy → 0 ≤ (withSorobanTimeout (timeoutMs policy) (answers i)).1 ≤ timeoutMs policy.
Proof.
  intros [Hd _] Ht. specialize (Hd i). unfold withSorobanTimeout. destruct (answers i) as [d r|d e|]; [| |cbn; lia];
    destruct (Z.ltb_spec d (timeoutMs policy)); cbn; lia.
Qed.

(** How a request ends, at the last attempt it made. *)
Definition ended_at (n : Z) (r : result rpc_error A) : Prop :=
  match r with
  | Ok v => met n = Ok v ∧ (shouldRetryResult v = false ∨ n = maxRetries policy + 1)
  | Err e =>
      met n = Err e ∧ (isRetryableSorobanError e = false ∨ n = maxRetries policy + 1) ∨
      transient (met n) = true ∧ n ≤ maxRetries policy ∧ ∃ k, e = BudgetExceeded k limit
  end.

Lemma attempts_spec tries : ∀ attempt now s, policy_ok policy → request_ok → 1 ≤ attempt → Z.of_nat tries = maxRetries policy + 2 - attempt → (0 < tries)%nat →
  let '(r, t, s') := attempts_from policy limit shouldRetryResult answers draws tries attempt now s in
  ∃ k : nat, (1 ≤ k ≤ tries)%nat ∧ started s' = started s ++ map (λ i, attempt + Z.of_nat i) (seq 0 k) ∧
    (∀ i, attempt ≤ i < attempt + Z.of_nat k - 1 → transient (met i) = true) ∧ ended_at (attempt + Z.of_nat k - 1) r ∧
    now ≤ t ≤ now + Z.of_nat k * timeoutMs policy + (Z.of_nat k - 1) * retryMaxDelayMs policy.
Proof.
  induction tries as [|tries IH]; intros attempt now s Hp Hr Ha Ht Hpos; [lia|]. cbn [attempts_from].
  pose proof (timeout_spec attempt Hr (timeout_pos _ Hp)) as Hto. destruct (withSorobanTimeout (timeoutMs policy) (answers attempt)) as [duration r] eqn:Ew.
  assert (met attempt = r) as Hmet by (unfold met; by rewrite Ew). cbn in Hto.
  destruct (settle_spec (now + duration) attempt duration (draws attempt) r (emit (RequestStart attempt) s) Hp Ha (draws_ok Hr attempt)) as [Hst Hdec].
  rewrite started_emit in Hst.
  destruct (settle policy limit shouldRetryResult (now + duration) attempt duration (draws attempt) r (emit (RequestStart attempt) s)) as [[res|d] s1]; cbn [fst snd] in Hst, Hdec.
  - exists 1%nat. assert (attempt + Z.of_nat 1 - 1 = attempt) as -> by lia. split; [lia|]. rewrite Hst. split; [cbn; by rewrite Z.add_0_r|].
    split; [lia|]. split; [|lia].
    unfold ended_at. rewrite Hmet. destruct res as [v|e].
    + destruct Hdec as [-> Hdec]. split; [done|]. destruct Hdec; [by left|right; lia].
    + destruct Hdec as [[-> Hdec]|Hdec]; [left|by right]. split; [done|]. destruct Hdec; [by left|right; lia].
  - destruct Hdec as (Htr & Hle & Hd). specialize (IH (attempt + 1) (now + duration + d) s1 Hp Hr ltac:(lia) ltac:(lia) ltac:(lia)).
    destruct (attempts_from policy limit shouldRetryResult answers draws tries (attempt + 1) (now + duration + d) s1) as [[res t] s'].
    destruct IH as (k & Hk & Hs' & Hbefore & Hend & Htime). exists (S k). split; [lia|]. split.
    { rewrite Hs', Hst, <- app_assoc. f_equal. cbn [seq map]. rewrite <- seq_shift, map_map. cbn. rewrite Z.add_0_r. f_equal. apply map_ext. intros i. lia. }
    split; [|split].
    + intros i Hi. destruct (decide (i = attempt)) as [->|]; [by rewrite Hmet|]. apply Hbefore. lia.
    + replace (attempt + Z.of_nat (S k) - 1) with (attempt + 1 + Z.of_nat k - 1) by lia. done.
    + destruct Hp. nia.
Qed.

(** C7. A request that the breaker admits makes between one and
    [maxRetries + 1] attempts, each after one that met a transient failure,
    and ends with what the last one met, or because the budget is spent; it
    takes at most a timeout for every attempt and the cap for every pause. *)
Theorem request_outcome now s :
  policy_ok policy → request_ok → (canProceed now (circuit s)).1 = true →
  let '(r, t, s') := executeSorobanRequest policy limit shouldRetryResult answers draws now s in
  ∃ n, 1 ≤ n ≤ maxRetries policy + 1 ∧ started s' = started s ++ map (λ i, 1 + Z.of_nat i) (seq 0 (Z.to_nat n)) ∧
    (∀ i, 1 ≤ i < n → transient (met i) = true) ∧ ended_at n r ∧
    now ≤ t ≤ now + n * timeoutMs policy + (n - 1) * retryMaxDelayMs policy.
Proof.
  intros Hp Hr Hc. unfold executeSorobanRequest. destruct (canProceed now (circuit s)) as [ok c]. cbn in Hc. subst ok. cbn [negb].
  pose proof (retries_nonneg _ Hp) as Hm.
  pose proof (attempts_spec (Z.to_nat (maxRetries policy + 1)) 1 now (with_circuit (λ _, c) s) Hp Hr ltac:(lia) ltac:(lia) ltac:(lia)) as H.
  destruct (attempts_from _ _ _ _ _ _ _ _ _) as [[r t] s']. destruct H as (k & Hk & Hs & Hb & He & Ht). exists (Z.of_nat k).
  rewrite Nat2Z.id. replace (1 + Z.of_nat k - 1) with (Z.of_nat k) in * by lia. split_and!; (done || lia).
Qed.
End Request.

(** An open breaker refuses without an attempt, and says so. *)
Theorem open_breaker_refuses {A} policy limit should (answers : Z → answer A) draws now s :
  state (circuit s) = OPEN → now < lastFailureTime (circuit s) + resetTimeoutMs (circuit s) →
  executeSorobanRequest policy limit should answers draws now s =
  (Err (BreakerOpen OPEN), now, emit (RequestFailure 0 0 (BreakerOpen OPEN)) s).
Proof.
  intros Hs Hn. unfold executeSorobanRequest, canProceed. rewrite Hs. destruct (Z.leb_spec (resetTimeoutMs (circuit s)) (now - lastFailureTime (circuit s))); [lia|].
  cbn. rewrite Hs. by destruct s.
Qed.

(** ** The budget, under any interleaving *)

(** An iteration that comes back from its await. *)
Record settling (A : Type) := {
  s_now : Z; s_policy : SorobanRetryPolicy; s_attempt : Z; s_duration : Z; s_draw : Z; s_result : result rpc_error A; s_should : A → bool
}.
Arguments s_now {A}. Arguments s_policy {A}. Arguments s_attempt {A}. Arguments s_duration {A}. Arguments s_draw {A}. Arguments s_result {A}. Arguments s_should {A}.

Definition run_settling {A} (limit : Z) (x : settling A) (s : shared) : shared :=
  (settle (s_policy x) limit (s_should x) (s_now x) (s_attempt x) (s_duration x) (s_draw x) (s_result x) s).2.

Fixpoint in_time {A} (from : Z) (l : list (settling A)) : Prop :=
  match l with [] => True | x :: l => from ≤ s_now x ∧ in_time (s_now x) l end.

(** The books of the budget: it covers what was recorded. *)
Record budget_ok (max now : Z) (s : shared) : Prop := {
  budget_limit : RetryBudget.Soroban.maxRetries (retry_budget s) = max;
  budget_covers : log_covers RetryBudget.Soroban.windowMs now (RetryBudget.Soroban.attempts (retry_budget s)) (recorded s);
  budget_bounded : windows_bounded RetryBudget.Soroban.windowMs max (recorded s)
}.

Lemma budget_same max now s s' : retry_budget s' = retry_budget s → recorded s' = recorded s → budget_ok max now s → budget_ok max now s'.
Proof. intros E1 E2 [H1 H2 H3]. by split; rewrite ?E1, ?E2. Qed.

Lemma charge_budget max policy limit from now attempt draw s :
  from ≤ now → budget_ok max from s → budget_ok max now (charge policy limit now attempt draw s).2.
Proof.
  intros Hle [H1 H2 H3]. unfold charge, canRetry, getRetryCount.
  pose proof (log_covers_prune _ _ now _ _ Hle H2) as Hc. set (b1 := RetryBudget.Soroban.pruneExpiredAttempts now (retry_budget s)).
  change (prune_front _ _) with (RetryBudget.Soroban.attempts b1) in Hc.
  destruct (Z.ltb_spec (Z.of_nat (length (RetryBudget.Soroban.attempts b1))) (RetryBudget.Soroban.maxRetries b1)) as [Hlt|]; cbn [negb].
  - set (s1 := emit _ _). enough (budget_ok max now s1) as Hs1.
    { destruct (fullJitter _ _ _ _); [|done]. eapply budget_same; [| |done]; [done|]. cbn [fst snd]. by rewrite recorded_emit, app_nil_r. }
    assert (recorded s1 = recorded s ++ [now]) as Er by (unfold s1; by rewrite recorded_emit).
    pose proof (log_covers_prune _ _ now _ _ (Z.le_refl now) Hc) as Hc2. split; [exact H1| |]; rewrite Er.
    + apply log_covers_push. exact Hc2.
    + eapply admit_bounded; [unfold RetryBudget.Soroban.windowMs; lia|exact H3|exact Hc2|].
      pose proof (RetryBudget.Soroban.prune_front_length_le (now - RetryBudget.Soroban.windowMs) (RetryBudget.Soroban.attempts b1)).
      change (RetryBudget.Soroban.maxRetries b1) with (RetryBudget.Soroban.maxRetries (retry_budget s)) in Hlt. lia.
  - pose proof (log_covers_prune _ _ now _ _ (Z.le_refl now) Hc) as Hc2. by split.
Qed.

Lemma settle_budget {A} max limit (x : settling A) from s : from ≤ s_now x → budget_ok max from s → budget_ok max (s_now x) (run_settling limit x s).
Proof.
  intros Hle Hs. unfold run_settling. set (now := s_now x) in *.
  assert (∀ from e s, from ≤ now → budget_ok max from s → budget_ok max now (on_error (A := A) (s_policy x) limit now (s_attempt x) (s_duration x) (s_draw x) e s).2) as He.
  { intros f e s' Hf Hs'. unfold on_error. destruct (negb _).
    - destruct Hs' as [H1 H2 H3]. split; [done| |]; cbn [snd]; rewrite recorded_emit, app_nil_r; [by eapply log_covers_later|done].
    - pose proof (charge_budget max (s_policy x) limit f now (s_attempt x) (s_draw x) s' Hf Hs') as H. by destruct (charge _ _ _ _ _ _) as [[d|e'] s'']. }
  unfold settle. destruct (s_result x) as [v|e]; [|by eapply He]. set (s1 := emit _ _).
  assert (budget_ok max from s1) as Hs1 by (eapply budget_same, Hs; [done|]; unfold s1; by rewrite recorded_emit, app_nil_r).
  destruct (negb _); [destruct Hs1; split; [done|by eapply log_covers_later|done]|].
  pose proof (charge_budget max (s_policy x) limit from now (s_attempt x) (s_draw x) s1 Hle Hs1) as H.
  destruct (charge _ _ _ _ _ _) as [[d|e'] s'']; cbn in H; [done|]. eapply He; [apply Z.le_refl|exact H].
Qed.

(** C8. However the attempts of any number of requests, of any servers with any
    policies, interleave, the budget they share grants at most its limit of
    retries in every 60 seconds. *)
Theorem shared_budget_holds {A} max b policy limit (l : list (settling A)) start :
  RetryBudget.Soroban.new max = Ok b → in_time start l →
  windows_bounded RetryBudget.Soroban.windowMs max (recorded (fold_left (λ s x, run_settling limit x s) l (createSorobanRpcServer policy b))).
Proof.
  intros Hb Hl. unfold RetryBudget.Soroban.new in Hb. destruct (Z.ltb_spec max 0); [done|]. injection Hb as <-.
  set (s0 := createSorobanRpcServer _ _). assert (budget_ok max start s0) as H0 by (split; [done|apply log_covers_refl|intros a; cbn; lia]).
  generalize dependent s0. revert start Hl. induction l as [|x l IH]; intros start Hl s0 H0; [by destruct H0|]. destruct Hl as [Hx Hl]. cbn [fold_left].
  by eapply IH, settle_budget.
Qed.

(** ** Where breaker and budget meet *)

(** A transport failure that may be retried, when the budget is spent, fails
    the request and leaves the breaker as it is: during an outage with a
    spent budget the breaker never opens. *)
Theorem spent_budget_hides_failures {A} policy limit should now attempt duration draw e s :
  isRetryableSorobanError e = true → attempt ≤ maxRetries policy → (canRetry now (retry_budget s)).1 = false →
  ∃ n s', settle (A := A) policy limit should now attempt duration draw (Err e) s = (Return (Err (BudgetExceeded n limit)), s') ∧ circuit s' = circuit s.
Proof.
  intros He Ha Hb. unfold settle, on_error, charge. rewrite He. destruct (Z.leb_spec attempt (maxRetries policy)); [|lia]. cbn [andb negb].
  destruct (canRetry now (retry_budget s)) as [ok b]. cbn in Hb. subst ok. cbn [negb]. destruct (getRetryCount now b) as [n b']. by exists n, (with_budget b' s).
Qed.

(** ** Examples and witnesses *)

Definition toy_budget (max : Z) : budget := RetryBudget.Soroban.Build_budget [] max.
Definition quick : SorobanRetryPolicy :=
  {| timeoutMs := 100; maxRetries := 2; retryBaseDelayMs := 10; retryMaxDelayMs := 15; retryJitterRatio := zero; circuitBreakerThreshold := 1; circuitBreakerResetMs := 1000 |}.
Definition all_hang (i : Z) : answer string := Hangs.
Definition second_time (i : Z) : answer string := if i =? 1 then Responds 5 "TRY_AGAIN_LATER" else Responds 7 "PENDING".
Definition half (i : Z) : Z := 2 ^ 52.
Definition send := shouldRetryResponse (λ x : string, x) sendTransaction.

Example second_attempt_sent :
  executeSorobanRequest quick 9 send second_time half 1000 (createSorobanRpcServer quick (toy_budget 9))
  = (Ok "PENDING", 1017, {| circuit := new_breaker 1 1000; retry_budget := RetryBudget.Soroban.Build_budget [1005] 9;
      hooks := [RequestStart 1; RequestSuccess 1 5; RetryRecorded 1005; OnRetry 1 5; RequestStart 2; RequestSuccess 2 7] |}).
Proof. vm_compute. reflexivity. Qed.

(** An outage with a spent budget: requests fail one by one, and the breaker,
    which opens at the first failure, stays closed. *)
Example outage_keeps_circuit_closed :
  let '(r, _, s) := executeSorobanRequest quick 0 send all_hang half 1000 (createSorobanRpcServer quick (toy_budget 0)) in
  r = Err (BudgetExceeded 0 0) ∧ state (circuit s) = CLOSED ∧ failureCount (circuit s) = 0.
Proof. vm_compute. done. Qed.

(** A budget that is spent when a good answer asks for another try is a
    failure of the breaker. *)
Example answered_request_opens_circuit :
  let '(r, _, s) := executeSorobanRequest quick 0 send second_time half 1000 (createSorobanRpcServer quick (toy_budget 0)) in
  r = Err (BudgetExceeded 0 0) ∧ state (circuit s) = OPEN.
Proof. vm_compute. done. Qed.

(** A number in the text of a deterministic error makes it retryable. *)
Example contract_error_retried : isRetryableSorobanError (Thrown "Error" None "HostError: Error(Contract, #1) amount 15030") = true.
Proof. vm_compute. reflexivity. Qed.

Lemma quick_ok : policy_ok quick.
Proof. split; cbn; lia. Qed.
Lemma hang_ok : request_ok all_hang half.
Proof. by split. Qed.

Lemma breaker_opens_at_threshold_witness :
  let c := fail_all [10; 20] (new_breaker 2 1000) in
  (2 < 2 → state c = CLOSED ∧ canProceed 500 c = (true, c)) ∧
  (2 ≤ 2 → state c = OPEN ∧ (500 < 1020 → canProceed 500 c = (false, c)) ∧
    (1020 ≤ 500 → ∃ d, canProceed 500 c = (true, d) ∧ state d = HALF_OPEN ∧ state (recordSuccess d) = CLOSED ∧ failureCount (recordSuccess d) = 0 ∧
      ∀ u, state (recordFailure u d) = OPEN)).
Proof. apply (breaker_opens_at_threshold (new_breaker 2 1000) [10; 20] 20 500); [done|done|done|done]. Defined.

Lemma environment_policy_ok_witness :
  policy_ok DEFAULT_RETRY_POLICY ∧ MIN_TIMEOUT_MS ≤ 5000 ≤ MAX_TIMEOUT_MS ∧ 2 ≤ MAX_RETRIES ∧ 1500 ≤ MAX_DELAY_MS ∧
  MIN_CIRCUIT_BREAKER_THRESHOLD ≤ 5 ≤ MAX_CIRCUIT_BREAKER_THRESHOLD ∧ MIN_CIRCUIT_BREAKER_RESET_MS ≤ 30000 ≤ MAX_CIRCUIT_BREAKER_RESET_MS.
Proof. apply (environment_policy_ok (λ _, zero) (λ _, None) DEFAULT_RETRY_POLICY). reflexivity. Defined.

Lemma request_outcome_witness :
  let '(r, t, s') := executeSorobanRequest quick 9 send all_hang half 1000 (createSorobanRpcServer quick (toy_budget 9)) in
  ∃ n, 1 ≤ n ≤ 3 ∧ started s' = [] ++ map (λ i, 1 + Z.of_nat i) (seq 0 (Z.to_nat n)) ∧
    (∀ i, 1 ≤ i < n → transient send (met quick all_hang i) = true) ∧ ended_at quick 9 send all_hang n r ∧ 1000 ≤ t ≤ 1000 + n * 100 + (n - 1) * 15.
Proof.
  exact (request_outcome quick 9 send all_hang half 1000 (createSorobanRpcServer quick (toy_budget 9)) quick_ok hang_ok eq_refl).
Defined.

Definition hung (now : Z) : settling string :=
  {| s_now := now; s_policy := quick; s_attempt := 1; s_duration := 100; s_draw := 2 ^ 52; s_result := Err (TimedOut 100); s_should := send |}.

Lemma shared_budget_holds_witness :
  windows_bounded 60000 2 [10; 20; 60011] ∧
  recorded (fold_left (λ s x, run_settling 2 x s) [hung 10; hung 20; hung 30; hung 60011] (createSorobanRpcServer quick (toy_budget 2))) = [10; 20; 60011].
Proof.
  assert (recorded (fold_left (λ s x, run_settling 2 x s) [hung 10; hung 20; hung 30; hung 60011] (createSorobanRpcServer quick (toy_budget 2))) = [10; 20; 60011]) as E
    by (vm_compute; reflexivity).
  split; [|exact E]. rewrite <- E. apply (shared_budget_holds 2 (toy_budget 2) quick 2 _ 0); [reflexivity|cbn; lia].
Defined.

Lemma open_breaker_refuses_witness :
  let s := with_circuit (recordFailure 500) (createSorobanRpcServer quick (toy_budget 9)) in
  executeSorobanRequest quick 9 send all_hang half 1000 s = (Err (BreakerOpen OPEN), 1000, emit (RequestFailure 0 0 (BreakerOpen OPEN)) s).
Proof. apply open_breaker_refuses; [reflexivity|vm_compute; reflexivity]. Defined.
