(* ===== verification/OutboundClient.v ===== *)
(** * Calls of external services: [src/services/integrations/clientWrapper.ts].

    [executeWithRetry] repeats a call under the global retry budget.  The
    answers of the call, the clock, the replies of Redis and the random draws
    are arguments; [Err] is a rejected promise.  The sleeps are recorded, in
    the milliseconds the timer is armed with. *)

From S2P Require Import Prelude Numeric Window RetryBudget.
Import RetryBudget.Global.
#[local] Open Scope Z_scope.

(** The options of a call that decide anything; [provider] and [operation]
    only label metrics. *)
Record RetryOptions := { o_maxRetries : Z; baseDelayMs : Z; maxDelayMs : Z; jitter : bool }.

(** The defaults, and [maxRetries: 2] as every caller passes it. *)
Definition default_options : RetryOptions :=
  {| o_maxRetries := 3; baseDelayMs := 100; maxDelayMs := 1000; jitter := true |}.
Definition caller_options : RetryOptions :=
  {| o_maxRetries := 2; baseDelayMs := 100; maxDelayMs := 1000; jitter := true |}.

(** [DEFAULT_SHOULD_RETRY] on a response, by its status. *)
Definition DEFAULT_SHOULD_RETRY (status : Z) : bool := (500 <=? status) || (status =? 429).

(** [delay * (0.5 + Math.random() * 0.5)] for a draw [r / 2^53], as
    [setTimeout] truncates it: the sum and the product are each rounded. *)
Definition jittered (delay r : Z) : Z :=
  let factor := fl53 (2 ^ 53 + r) in
  fl53 (delay * factor) / 2 ^ 54.

(** The sleep before attempt [attempt]; a timer is at least 1 ms. *)
Definition retry_delay (o : RetryOptions) (attempt r : Z) : Z :=
  let delay := Z.min (maxDelayMs o) (baseDelayMs o * 2 ^ (attempt - 1)) in
  Z.max 1 (if jitter o then jittered delay r else delay).

Inductive client_error (E : Type) :=
| Thrown (e : E)
| GlobalRetryBudgetExceeded (currentRetryCount budgetLimit windowMs : Z).
Arguments Thrown {E} e. Arguments GlobalRetryBudgetExceeded {E}.

(** What one retry reads from its environment. *)
Record retry_env := {
  ask_now : Z; ask_redis : option Z;
  record_call : call;
  count_now : Z; count_redis : option Z
}.

Section Client.
Context {E A : Type} (fn : Z → result E A) (shouldRetry : A → bool).
Context (o : RetryOptions) (env : Z → retry_env) (draw : Z → Z).

Definition is_failure (r : result E A) : bool :=
  match r with Err _ => true | Ok a => shouldRetry a end.

Definition answer (r : result E A) : result (client_error E) A :=
  match r with Ok a => Ok a | Err e => Err (Thrown e) end.

(** The [while (true)] loop with [n] retries left. *)
Fixpoint retry_loop (n : nat) (attempt : Z) (g : budget) : result (client_error E) A * budget * list Z :=
  let r := fn attempt in
  if negb (is_failure r) then (answer r, g, [])
  else match n with
  | O => (answer r, g, [])
  | S n =>
      let v := env attempt in
      let '(allowed, g) := canRetry (ask_now v) (ask_redis v) g in
      if negb allowed then
        let '(_, g) := recordRetry (record_call v) g in
        let '(count, g) := getRetryCount (count_now v) (count_redis v) g in
        (Err (GlobalRetryBudgetExceeded count 50 DEFAULT_RETRY_BUDGET_WINDOW_MS), g, [])
      else match recordRetry (record_call v) g with
      | (Err (count, limit, window), g) => (Err (GlobalRetryBudgetExceeded count limit window), g, [])
      | (Ok _, g) =>
          let attempt := attempt + 1 in
          let '(r, g, slept) := retry_loop n attempt g in
          (r, g, retry_delay o attempt (draw attempt) :: slept)
      end
  end.

Definition executeWithRetry (g : budget) : result (client_error E) A * budget * list Z :=
  retry_loop (Z.to_nat (o_maxRetries o)) 0 g.

(** The attempts [a], ..., [a + k - 1] all fail. *)
Definition failing (a : Z) (k : nat) : Prop := ∀ i, a ≤ i < a + Z.of_nat k → is_failure (fn i) = true.

(** The loop ends with the answer of attempt [a + k], where [k] is the number
    of sleeps: every earlier attempt failed, and this one did not fail or was
    the last; or the budget refused the retry after it. *)
Lemma retry_loop_ends n a g :
  let '(r, _, slept) := retry_loop n a g in
  let k := length slept in
  (k ≤ n)%nat ∧ failing a k ∧
  ((r = answer (fn (a + Z.of_nat k)) ∧ (is_failure (fn (a + Z.of_nat k)) = false ∨ k = n)) ∨
   (∃ c l w, r = Err (GlobalRetryBudgetExceeded c l w)) ∧ is_failure (fn (a + Z.of_nat k)) = true ∧ (k < n)%nat).
Proof.
  revert a g. induction n as [|n IH]; intros a g; cbn [retry_loop].
  { destruct (is_failure (fn a)) eqn:Hf; cbn [negb length]; rewrite Z.add_0_r;
      (split; [lia|]; split; [intros i Hi; lia|left; auto]). }
  destruct (is_failure (fn a)) eqn:Hf; cbn [negb].
  2: { cbn [length]. rewrite Z.add_0_r. split; [lia|]. split; [intros i Hi; lia|]. left. auto. }
  destruct (canRetry _ _ g) as [allowed g1]. destruct allowed; cbn [negb].
  - destruct (recordRetry _ g1) as [[u|[[c l] w]] g2].
    + specialize (IH (a + 1) g2). destruct (retry_loop n (a + 1) g2) as [[r g3] slept].
      destruct IH as (Hk & Hall & Hend). cbn [length].
      replace (a + Z.of_nat (S (length slept))) with (a + 1 + Z.of_nat (length slept)) by lia.
      split; [lia|]. split.
      * intros i Hi. destruct (Z.eq_dec i a) as [->|]; [done|]. apply Hall. lia.
      * destruct Hend as [[-> [He|He]]|(He & Hf' & Hlt)]; [left; auto|left; split; [done|right; lia]|right].
        split_and!; [done|done|lia].
    + cbn [length]. rewrite Z.add_0_r. split; [lia|]. split; [intros i Hi; lia|]. right.
      split; [by do 3 eexists|]. split; [done|lia].
  - destruct (recordRetry _ g1) as [u g2]. destruct (getRetryCount _ _ g2) as [count g3].
    cbn [length]. rewrite Z.add_0_r. split; [lia|]. split; [intros i Hi; lia|]. right.
    split; [by do 3 eexists|]. split; [done|lia].
Qed.

(** ** The sleeps *)
Lemma jittered_bounds d r : 0 < d < 2 ^ 51 → is_draw r = true → d / 2 ≤ jittered d r ≤ d.
Proof.
  intros Hd Hr. unfold is_draw in Hr. assert (0 ≤ r < 2 ^ 53) as Hr' by bool_lia. clear Hr.
  unfold jittered. set (f := fl53 (2 ^ 53 + r)).
  assert (Z.log2 (2 ^ 53 + r) = 53) as Hl by (apply Z.log2_unique; lia).
  assert (2 ^ 53 ≤ f ≤ 2 ^ 54) as Hf.
  { unfold f. split.
    - change (2 ^ 53) with (2 ^ 52 * 2 ^ 1) at 1. apply fl53_ge_multiple; lia.
    - change (2 ^ 54) with (2 ^ 53 * 2 ^ 1). apply fl53_le_multiple; lia. }
  assert (Z.log2 (d * f) < 105) as Hlog by (apply Z.log2_lt_pow2; nia).
  assert (d * 2 ^ 53 ≤ fl53 (d * f)) by (apply fl53_ge_multiple; nia).
  assert (fl53 (d * f) ≤ d * 2 ^ 54) by (apply fl53_le_multiple; nia).
  split; [|apply Z.div_le_upper_bound; lia].
  apply Z.div_le_lower_bound; [lia|]. pose proof (Z.mul_div_le d 2). lia.
Qed.

Lemma retry_delay_bounds a :
  0 < baseDelayMs o → 0 < maxDelayMs o < 2 ^ 51 → (∀ i, is_draw (draw i) = true) → 1 ≤ a →
  1 ≤ retry_delay o a (draw a) ≤ maxDelayMs o ∧
  Z.min (maxDelayMs o) (baseDelayMs o * 2 ^ (a - 1)) / 2 ≤ retry_delay o a (draw a).
Proof.
  intros Hb Hm Hd Ha. unfold retry_delay. set (d := Z.min _ _).
  assert (0 < 2 ^ (a - 1)) by (apply Z.pow_pos_nonneg; lia).
  assert (0 < d ≤ maxDelayMs o) by (unfold d; nia).
  pose proof (jittered_bounds d (draw a) ltac:(lia) (Hd a)).
  pose proof (Z.div_le_upper_bound d 2 d). destruct (jitter o); lia.
Qed.

Lemma retry_loop_delays n a g i d :
  (retry_loop n a g).2 !! i = Some d → d = retry_delay o (a + Z.of_nat i + 1) (draw (a + Z.of_nat i + 1)).
Proof.
  revert a g i. induction n as [|n IH]; intros a g i; cbn [retry_loop]; [by case_if|].
  case_if; [done|]. destruct (canRetry _ _ g) as [[] g1]; cbn [negb].
  - destruct (recordRetry _ g1) as [[u|[[c l] w]] g2]; [|done].
    specialize (IH (a + 1) g2). destruct (retry_loop n (a + 1) g2) as [[r g3] slept]. cbn [snd] in *.
    destruct i as [|i]; cbn [lookup list_lookup]; [intros [= <-]; f_equal; f_equal; lia|].
    intros Hi. apply IH in Hi as ->. f_equal; [|f_equal]; lia.
  - destruct (recordRetry _ g1) as [u g2]. by destruct (getRetryCount _ _ g2).
Qed.

(** ** The budget *)

(** The times at which the loop was granted a retry, and the times it made
    the budget log one: when the budget has just refused, [recordRetry] is
    called once more and may find room. *)
Fixpoint granted (n : nat) (attempt : Z) (g : budget) : list Z :=
  if negb (is_failure (fn attempt)) then []
  else match n with
  | O => []
  | S n =>
      let v := env attempt in
      let '(allowed, g) := canRetry (ask_now v) (ask_redis v) g in
      match recordRetry (record_call v) g with
      | (Ok _, g) => if allowed then store_now (record_call v) :: granted n (attempt + 1) g else []
      | (Err _, _) => []
      end
  end.

Fixpoint recorded (n : nat) (attempt : Z) (g : budget) : list Z :=
  if negb (is_failure (fn attempt)) then []
  else match n with
  | O => []
  | S n =>
      let v := env attempt in
      let '(allowed, g) := canRetry (ask_now v) (ask_redis v) g in
      match recordRetry (record_call v) g with
      | (Ok _, g) => store_now (record_call v) :: if allowed then recorded n (attempt + 1) g else []
      | (Err _, _) => []
      end
  end.

Lemma granted_sleeps n a g : length (granted n a g) = length (retry_loop n a g).2.
Proof.
  revert a g. induction n as [|n IH]; intros a g; cbn [granted retry_loop]; [by case_if|].
  case_if; [done|]. destruct (canRetry _ _ g) as [[] g1]; cbn [negb].
  - destruct (recordRetry _ g1) as [[u|[[c l] w]] g2]; [|done].
    specialize (IH (a + 1) g2). destruct (retry_loop n (a + 1) g2) as [[r g3] slept]. cbn in *. by rewrite IH.
  - destruct (recordRetry _ g1) as [[u|e] g2]; by destruct (getRetryCount _ _ g2).
Qed.

Lemma granted_recorded n a g : sublist (granted n a g) (recorded n a g).
Proof.
  revert a g. induction n as [|n IH]; intros a g; cbn [granted recorded]; [by case_if|].
  case_if; [done|]. destruct (canRetry _ _ g) as [[] g1]; destruct (recordRetry _ g1) as [[u|e] g2]; try done.
  - by constructor.
  - apply sublist_nil_l.
Qed.

(** ** The budget over one call

    Redis is absent and the clock does not go back. *)
Definition env_local (v : retry_env) : Prop :=
  ask_redis v = None ∧ count_redis v = None ∧ local_call (record_call v) ∧
  ask_now v ≤ check_now (record_call v) ∧ check_now (record_call v) ≤ again_now (record_call v) ∧
  check_now (record_call v) ≤ store_now (record_call v) ∧ store_now (record_call v) ≤ report_now (record_call v) ∧
  Z.max (again_now (record_call v)) (report_now (record_call v)) ≤ count_now v.

(** The retries after attempts [a], [a + 1], ... read the clock one after the
    other, the first not before [from]; [env_end] is a bound on the last. *)
Fixpoint env_chain (n : nat) (a from : Z) : Prop :=
  match n with
  | O => True
  | S n => env_local (env a) ∧ from ≤ ask_now (env a) ∧ env_chain n (a + 1) (count_now (env a))
  end.

Fixpoint env_end (n : nat) (a from : Z) : Z :=
  match n with O => from | S n => env_end n (a + 1) (count_now (env a)) end.

Lemma env_end_later n a from : env_chain n a from → from ≤ env_end n a from.
Proof.
  revert a from. induction n as [|n IH]; intros a from; cbn; [lia|]. unfold env_local.
  intros (Hl & Hf & Hc). specialize (IH _ _ Hc). lia.
Qed.

Lemma retry_loop_covered n a g from history w m :
  env_chain n a from → 0 < w → covered from history w m g →
  covered (env_end n a from) (history ++ recorded n a g) w m (retry_loop n a g).1.2.
Proof.
  revert a g from history. induction n as [|n IH]; intros a g from history Hch Hw Hc.
  { cbn. destruct (negb _); by rewrite app_nil_r. }
  pose proof (env_end_later (S n) a from Hch) as Hend. destruct Hch as ((Ha & Hcn & Hloc & Hts) & Hf & Hch).
  cbn [env_end] in *. pose proof (env_end_later n _ _ Hch) as Hend'. cbn [retry_loop recorded].
  destruct (negb (is_failure (fn a))); [rewrite app_nil_r; by apply (covered_later from)|].
  rewrite Ha. pose proof (canRetry_covered (ask_now (env a)) from history w m g Hf Hc) as H1.
  destruct (canRetry _ None g) as [allowed g1]. cbn [snd] in H1.
  pose proof (recordRetry_covered (record_call (env a)) (ask_now (env a)) history w m g1 Hloc
                ltac:(lia) ltac:(lia) ltac:(lia) ltac:(lia) Hw H1) as H2.
  assert (Hlast : Z.max (again_now (record_call (env a))) (report_now (record_call (env a))) ≤ env_end n (a + 1) (count_now (env a))) by lia.
  destruct allowed; cbn [negb].
  - destruct (recordRetry _ g1) as [[u|[[c l] w']] g2]; cbn [is_ok] in H2.
    + apply (covered_later _ (count_now (env a))) in H2; [|lia].
      specialize (IH (a + 1) g2 _ _ Hch Hw H2). rewrite <- (assoc_L app) in IH.
      by destruct (retry_loop n (a + 1) g2) as [[r g3] slept].
    + by apply (covered_later _ _ _ _ _ _ Hlast).
  - rewrite Hcn. assert (Z.max (again_now (record_call (env a))) (report_now (record_call (env a))) ≤ count_now (env a)) as Hm by apply Hts.
    destruct (recordRetry _ g1) as [[u|e] g2]; cbn [is_ok] in H2;
      apply (getRetryCount_covered _ _ _ _ _ _ Hm) in H2; destruct (getRetryCount _ None g2);
      by apply (covered_later _ _ _ _ _ _ Hend').
Qed.

End Client.
(** ** Calls one after the other

    One call of [executeWithRetry]: what it calls and what it reads. *)
Record invocation := {
  i_fn : Z → result string Z;
  i_options : RetryOptions;
  i_env : Z → retry_env
}.

Definition invoke (x : invocation) (g : budget) : budget :=
  (executeWithRetry (i_fn x) DEFAULT_SHOULD_RETRY (i_options x) (i_env x) (λ _, 0) g).1.2.

Definition retries (x : invocation) : nat := Z.to_nat (o_maxRetries (i_options x)).

(** The retries granted to each of them, and all the times the budget
    recorded. *)
Fixpoint all_granted (xs : list invocation) (g : budget) : list Z :=
  match xs with
  | [] => []
  | x :: xs => granted (i_fn x) DEFAULT_SHOULD_RETRY (i_env x) (retries x) 0 g ++ all_granted xs (invoke x g)
  end.

Fixpoint all_recorded (xs : list invocation) (g : budget) : list Z :=
  match xs with
  | [] => []
  | x :: xs => recorded (i_fn x) DEFAULT_SHOULD_RETRY (i_env x) (retries x) 0 g ++ all_recorded xs (invoke x g)
  end.

Fixpoint in_sequence (xs : list invocation) (from : Z) : Prop :=
  match xs with
  | [] => True
  | x :: xs => env_chain (i_env x) (retries x) 0 from ∧ in_sequence xs (env_end (i_env x) (retries x) 0 from)
  end.

Lemma all_granted_recorded xs g : sublist (all_granted xs g) (all_recorded xs g).
Proof.
  revert g. induction xs as [|x xs IH]; intros g; cbn [all_granted all_recorded]; [done|].
  apply sublist_app; [apply granted_recorded|apply IH].
Qed.

Lemma all_recorded_bounded xs g from history w m :
  in_sequence xs from → 0 < w → covered from history w m g → windows_bounded w m (history ++ all_recorded xs g).
Proof.
  revert g from history. induction xs as [|x xs IH]; intros g from history Hs Hw Hc; cbn [all_recorded].
  { rewrite app_nil_r. apply Hc. }
  destruct Hs as [Hx Hs]. rewrite (assoc_L app). eapply IH; [exact Hs|done|].
  unfold invoke, executeWithRetry. by apply retry_loop_covered.
Qed.

(** ** Properties *)

(** A call of [executeWithRetry] ends, after at most [maxRetries] retries,
    each after a sleep.  All attempts but the last failed; the result is the
    last attempt's, which did not fail or exhausted the retries, or it is the
    budget's refusal of one more.  Every sleep is between half the capped
    exponential delay and the cap. *)
Theorem outbound_call_ends {E A} (fn : Z → result E A) shouldRetry o env draw g :
  let '(r, _, slept) := executeWithRetry fn shouldRetry o env draw g in
  let k := length slept in
  Z.of_nat k ≤ Z.max 0 (o_maxRetries o) ∧
  (∀ i, 0 ≤ i < Z.of_nat k → is_failure shouldRetry (fn i) = true) ∧
  ((r = answer (fn (Z.of_nat k)) ∧
    (is_failure shouldRetry (fn (Z.of_nat k)) = false ∨ Z.of_nat k = Z.max 0 (o_maxRetries o))) ∨
   (∃ c l w, r = Err (GlobalRetryBudgetExceeded c l w)) ∧ is_failure shouldRetry (fn (Z.of_nat k)) = true) ∧
  (0 < baseDelayMs o → 0 < maxDelayMs o < 2 ^ 51 → (∀ i, is_draw (draw i) = true) →
   ∀ i d, slept !! i = Some d →
     1 ≤ d ≤ maxDelayMs o ∧ Z.min (maxDelayMs o) (baseDelayMs o * 2 ^ Z.of_nat i) / 2 ≤ d).
Proof.
  unfold executeWithRetry.
  pose proof (retry_loop_ends fn shouldRetry o env draw (Z.to_nat (o_maxRetries o)) 0 g) as He.
  pose proof (retry_loop_delays fn shouldRetry o env draw (Z.to_nat (o_maxRetries o)) 0 g) as Hd.
  destruct (retry_loop _ _ _ _ _ _ _ g) as [[r g'] slept]. cbn [snd] in Hd.
  destruct He as (Hk & Hall & Hend). rewrite Z.add_0_l in Hend. split_and!; [lia|exact Hall| |].
  - destruct Hend as [[-> [?|?]]|(? & ? & ?)]; [left|left|right]; auto. split; [done|right; lia].
  - intros Hb Hm Hr i d Hi. apply Hd in Hi as ->. pose proof (retry_delay_bounds o draw (0 + Z.of_nat i + 1) Hb Hm Hr ltac:(lia)) as Hbd.
    by replace (0 + Z.of_nat i + 1 - 1) with (Z.of_nat i) in Hbd by lia.
Qed.

(** Over any sequence of calls, in a process without Redis, no window of the
    budget's length holds more retries than the budget allows, and the budget
    has recorded every retry. *)
Theorem outbound_retries_within_budget settings max window g xs start :
  new settings max window = Ok g → in_sequence xs start →
  windows_bounded (windowMs g) (maxRetries g) (all_granted xs g) ∧
  windows_bounded (windowMs g) (maxRetries g) (all_recorded xs g).
Proof.
  intros Hn Hs. assert (windows_bounded (windowMs g) (maxRetries g) (all_recorded xs g)) as Hb.
  { destruct (new_covered _ _ _ _ start Hn) as [Hw Hc]. by apply (all_recorded_bounded xs g start []). }
  split; [|done]. intros a. specialize (Hb a).
  assert (sublist (in_window a (a + windowMs g) (all_granted xs g)) (in_window a (a + windowMs g) (all_recorded xs g))) as Hl.
  { apply sublist_list_filter, all_granted_recorded. }
  apply sublist_length in Hl. lia.
Qed.

(** ** Concrete calls *)

(** A service that answers 503 twice, then 200. *)
Definition flaky (k : Z) : result string Z := Ok (if k <? 2 then 503 else 200).

Definition env_at (t : Z) (k : Z) : retry_env :=
  {| ask_now := t + k; ask_redis := None; record_call := local_at (t + k); count_now := t + k; count_redis := None |}.

Definition small_budget (max : Z) : budget :=
  {| windowMs := 1000; maxRetries := max; localAttempts := []; remainingMetric := max |}.

(** With room in the budget the third attempt answers; with room for one
    retry the second attempt is the last, and the report names the limit 50. *)
Example flaky_call_answers :
  let call max := executeWithRetry flaky DEFAULT_SHOULD_RETRY caller_options (env_at 0) (λ _, 0) (small_budget max) in
  ((call 2).1.1, (call 2).2) = (Ok 200, [50; 100]) ∧
  ((call 1).1.1, (call 1).2) = (Err (GlobalRetryBudgetExceeded 1 50 60000), [50]).
Proof. split; vm_compute; reflexivity. Qed.

Lemma outbound_retries_within_budget_witness :
  let x t := {| i_fn := flaky; i_options := caller_options; i_env := env_at t |} in
  all_granted [x 0; x 10; x 1500] (small_budget 3) = [0; 1; 10; 1500; 1501] ∧
  windows_bounded 1000 3 [0; 1; 10; 1500; 1501].
Proof.
  intros x. split; [vm_compute; reflexivity|].
  refine (proj1 (outbound_retries_within_budget (retryBudgetSettings None None) (Some 3) (Some 1000) (small_budget 3)
            [x 0; x 10; x 1500] 0 _ _)).
  - reflexivity.
  - cbn. unfold env_local, local_call. cbn. split_and!; (done || lia).
Defined.
