(* ===== verification/OAuthStates.v ===== *)
(** * OAuth state tokens of the three integrations.

    [src/services/integrations/razorpay/connect.ts] (the state store and
    [validateRazorpayState]), [shopify/store.ts] and [stripe/store.ts] each
    keep the state parameters they issued in a [Map].  The class
    [StateStore] is what the three have in common; it is enough to show that
    each refines one specification, a book of one-shot entries with an expiry
    time. *)

From S2P Require Import Prelude Hashing Numeric JsString.
Import Prelude.Simulation.
#[local] Open Scope Z_scope.

(** ** The interface *)

(** What a store does with a token it is handed: it leaves its entries alone,
    removes the one under this key, or stores an entry. *)
Inductive verdict (E : Type) := Ignored | Dropped | Stored (e : E).
Arguments Ignored {E}. Arguments Dropped {E}. Arguments Stored {E} e.

Definition live {E} (now : Z) (p : option (E * Z)) : option E :=
  match p with Some (e, exp) => if now <=? exp then Some e else None | None => None end.

(** [pending t s] is the entry under the token, with its expiry time. *)
Class StateStore (S E : Type) := {
  empty_store : S;
  key : string → string;
  verdict_of : Z → string → E → Z → verdict E;
  issue : Z → string → E → Z → S → S;
  consume : Z → string → S → option E * S;
  cleanup : Z → S → S;
  pending : string → S → option (E * Z);
  pending_empty t : pending t empty_store = None;
  pending_issue now t e exp s t' :
    pending t' (issue now t e exp s) =
    if String.eqb (key t') (key t)
    then match verdict_of now t e exp with Ignored => pending t' s | Dropped => None | Stored e' => Some (e', exp) end
    else pending t' s;
  consume_answer now t s : (consume now t s).1 = live now (pending t s);
  pending_consume now t s t' :
    pending t' (consume now t s).2 = if String.eqb (key t') (key t) then None else pending t' s;
  cleanup_pending now s t :
    pending t (cleanup now s) = pending t s ∨
    (pending t (cleanup now s) = None ∧ ∃ e exp, pending t s = Some (e, exp) ∧ exp < now)
}.

(** ** The specification *)
Inductive event (E : Type) :=
| Issued (now : Z) (t : string) (e : E) (exp : Z)
| Consumed (now : Z) (t : string) (answer : option E)
| Cleaned (now : Z).
Arguments Issued {E}. Arguments Consumed {E}. Arguments Cleaned {E}.

Definition time {E} (x : event E) : Z :=
  match x with Issued n _ _ _ | Consumed n _ _ | Cleaned n => n end.

Section Spec.
Context {S E : Type} `{StateStore S E}.

(** The book after an event: what was stored last under a key and not
    consumed since, expired or not. *)
Definition book_step (x : event E) (m : gmap string (E * Z)) : gmap string (E * Z) :=
  match x with
  | Issued now t e exp =>
      match verdict_of now t e exp with
      | Ignored => m
      | Dropped => delete (key t) m
      | Stored e' => <[key t := (e', exp)]> m
      end
  | Consumed _ t _ => delete (key t) m
  | Cleaned _ => m
  end.

(** What the book answers. *)
Definition book_answers (x : event E) (m : gmap string (E * Z)) : Prop :=
  match x with Consumed now t answer => answer = live now (m !! key t) | _ => True end.

(** Both systems carry the time of the last event, which does not go back. *)
Definition book : lts (event E) := {|
  Simulation.state := Z * gmap string (E * Z);
  initial s := s.2 = ∅;
  transition s x s' := s.1 ≤ time x ∧ book_answers x s.2 ∧ s' = (time x, book_step x s.2)
|}.

Definition store_step (x : event E) (s s' : S) : Prop :=
  match x with
  | Issued now t e exp => s' = issue now t e exp s
  | Consumed now t answer => (answer, s') = consume now t s
  | Cleaned now => s' = cleanup now s
  end.

Definition store_system : lts (event E) := {|
  Simulation.state := Z * S;
  initial s := s.2 = empty_store;
  transition s x s' := s.1 ≤ time x ∧ s'.1 = time x ∧ store_step x s.2 s'.2
|}.

(** The store has what the book has, but for entries it expired. *)
Definition agrees (now : Z) (p b : option (E * Z)) : Prop :=
  p = b ∨ (p = None ∧ ∃ e exp, b = Some (e, exp) ∧ exp < now).

Lemma agrees_later now now' p b : now ≤ now' → agrees now p b → agrees now' p b.
Proof. intros Hle [->|(-> & e & exp & -> & Hx)]; [by left|right]. split; [done|]. exists e, exp. split; [done|lia]. Qed.

Lemma agrees_live now p b : agrees now p b → live now p = live now b.
Proof. intros [->|(-> & e & exp & -> & Hx)]; [done|]. cbn. by assert ((now <=? exp) = false) as -> by lia. Qed.

Lemma store_simulates :
  simulation store_system book (λ c a, c.1 = a.1 ∧ ∀ t, agrees c.1 (pending t c.2) (a.2 !! key t)).
Proof.
  split.
  - intros [n s] Hs. cbn in Hs. subst s. exists (n, ∅). split; [done|]. split; [done|]. intros t. left.
    cbn. by rewrite pending_empty, lookup_empty.
  - intros [n s] x [n' s'] [na m] [Hn Ha] (Hle & Hn' & Hst). cbn in *. subst na n'.
    assert (∀ t, agrees (time x) (pending t s) (m !! key t)) as Hl by (intros t; by apply (agrees_later n)).
    exists (time x, book_step x m). split; [split_and!; [done| |done]|split; [done|]].
    + destruct x as [| now t answer|]; [done| |done]. cbn in *.
      pose proof (consume_answer now t s) as Hc. rewrite <- Hst in Hc. cbn in Hc. subst answer.
      by apply agrees_live.
    + intros t'. destruct x as [now t e exp|now t answer|now]; cbn in *.
      * subst s'. rewrite pending_issue. destruct (String.eqb_spec (key t') (key t)) as [He|Hne].
        -- rewrite He. destruct (verdict_of now t e exp); [by rewrite <- He|left; by rewrite lookup_delete_eq|left; by rewrite lookup_insert_eq].
        -- destruct (verdict_of now t e exp); [done|by rewrite lookup_delete_ne|by rewrite lookup_insert_ne].
      * pose proof (pending_consume now t s t') as Hp. rewrite <- Hst in Hp. cbn in Hp. rewrite Hp.
        destruct (String.eqb_spec (key t') (key t)) as [->|Hne]; [left; by rewrite lookup_delete_eq|by rewrite lookup_delete_ne].
      * subst s'. destruct (cleanup_pending now s t') as [->|(-> & e & exp & Hp & Hx)]; [done|].
        destruct (Hl t') as [Hb|(_ & Hb)]; [|by right]. right. split; [done|]. exists e, exp. by rewrite <- Hb.
Qed.

(** ** Histories *)

(** The event may change the entry under [k]. *)
Definition touches (k : string) (x : event E) : Prop :=
  match x with
  | Issued now t e exp => key t = k ∧ verdict_of now t e exp ≠ Ignored
  | Consumed _ t _ => key t = k
  | Cleaned _ => False
  end.

(** [pre] stored [e] under [k], to expire at [exp], and nothing touched it
    since. *)
Definition stored_last (pre : list (event E)) (k : string) (e : E) (exp : Z) : Prop :=
  ∃ p1 now t0 e0 p2, pre = p1 ++ Issued now t0 e0 exp :: p2 ∧ key t0 = k ∧
    verdict_of now t0 e0 exp = Stored e ∧ Forall (λ x, ¬ touches k x) p2.

Definition book_of (pre : list (event E)) : gmap string (E * Z) := fold_left (λ m x, book_step x m) pre ∅.

Lemma book_of_snoc pre x : book_of (pre ++ [x]) = book_step x (book_of pre).
Proof. unfold book_of. by rewrite fold_left_app. Qed.

Lemma book_step_untouched x m k : ¬ touches k x → book_step x m !! k = m !! k.
Proof.
  destruct x as [now t e exp|now t answer|now]; cbn; intros Ht; [|by rewrite lookup_delete_ne|done].
  destruct (verdict_of now t e exp) eqn:Hv; [done| |].
  - rewrite lookup_delete_ne; [done|]. intros Hk. by apply Ht.
  - rewrite lookup_insert_ne; [done|]. intros Hk. by apply Ht.
Qed.

Lemma stored_last_snoc_untouched pre x k e exp :
  ¬ touches k x → stored_last (pre ++ [x]) k e exp ↔ stored_last pre k e exp.
Proof.
  intros Ht. split.
  - intros (p1 & now & t0 & e0 & p2 & He & Hk & Hv & Hp). destruct p2 as [|y p2 _] using rev_ind.
    + apply app_inj_tail in He as [-> ->]. destruct Ht. cbn. by rewrite Hv.
    + rewrite app_comm_cons, (assoc_L app) in He. apply app_inj_tail in He as [-> ->].
      apply Forall_app in Hp as [Hp _]. by exists p1, now, t0, e0, p2.
  - intros (p1 & now & t0 & e0 & p2 & -> & Hk & Hv & Hp). exists p1, now, t0, e0, (p2 ++ [x]).
    rewrite <- (assoc_L app). split_and!; [done|done|done|]. apply Forall_app. split; [done|by constructor].
Qed.

Lemma stored_last_snoc_touched pre x k e exp :
  touches k x → stored_last (pre ++ [x]) k e exp ↔
  ∃ now t0 e0, x = Issued now t0 e0 exp ∧ verdict_of now t0 e0 exp = Stored e.
Proof.
  intros Ht. split.
  - intros (p1 & now & t0 & e0 & p2 & He & Hk & Hv & Hp). destruct p2 as [|y p2 _] using rev_ind.
    + apply app_inj_tail in He as [-> ->]. by exists now, t0, e0.
    + rewrite app_comm_cons, (assoc_L app) in He. apply app_inj_tail in He as [-> ->].
      apply Forall_app in Hp as [_ Hy]. inversion Hy as [|? ? Hn _]; subst. destruct (Hn Ht).
  - intros (now & t0 & e0 & -> & Hv). exists pre, now, t0, e0, []. split_and!; [done| |done|constructor].
    by destruct Ht.
Qed.

#[export] Instance touches_dec k x : Decision (touches k x).
Proof.
  destruct x as [now t e exp|now t a|now]; cbn; [|apply _|apply _].
  destruct (verdict_of now t e exp); [right; by intros [_ ?]|..];
    (destruct (decide (key t = k)); [by left|right; by intros [? _]]).
Defined.

Lemma book_of_lookup pre k e exp : book_of pre !! k = Some (e, exp) ↔ stored_last pre k e exp.
Proof.
  induction pre as [|x pre IH] using rev_ind.
  { cbn. rewrite lookup_empty. split; [done|]. intros (p1 & now & t0 & e0 & p2 & He & _).
    by destruct p1. }
  rewrite book_of_snoc. destruct (decide (touches k x)) as [Ht|Ht].
  - rewrite stored_last_snoc_touched by done. destruct x as [now t e0 x0|now t a|now]; cbn in *; [|subst k; rewrite lookup_delete_eq|done].
    + destruct Ht as [<- Hv]. destruct (verdict_of now t e0 x0) as [| |e'] eqn:Hv'; [done| |].
      * rewrite lookup_delete_eq. split; [done|]. intros (n1 & t1 & e1 & He & Hv1). congruence.
      * rewrite lookup_insert_eq. split.
        -- intros [= -> ->]. by exists now, t, e0.
        -- intros (n1 & t1 & e1 & He & Hv1). congruence.
    + split; [done|]. intros (n1 & t1 & e1 & He & _). congruence.
  - by rewrite book_step_untouched, stored_last_snoc_untouched.
Qed.

Lemma book_steps s t s' : steps book s t s' → s'.2 = fold_left (λ m x, book_step x m) t s.2.
Proof. intros Hs. induction Hs as [s|s x s' t s'' (_ & _ & ->) _ IH]; [done|exact IH]. Qed.

Lemma steps_app_inv {C : lts (event E)} s t1 t2 s' :
  steps C s (t1 ++ t2) s' → ∃ s1, steps C s t1 s1 ∧ steps C s1 t2 s'.
Proof.
  revert s. induction t1 as [|x t1 IH]; intros s Hs; cbn in Hs.
  { exists s. split; [constructor|done]. }
  inversion Hs as [|? ? s0 ? ? Hst Hrest]; subst. destruct (IH _ Hrest) as (s1 & H1 & H2).
  exists s1. split; [by econstructor|done].
Qed.

Lemma store_refines_book : refines store_system book.
Proof. exact (simulation_refines _ _ _ store_simulates). Qed.

(** A token is accepted exactly while what was stored last under its key is
    unexpired and untouched. *)
Lemma accepted_iff pre now t a post e :
  trace store_system (pre ++ Consumed now t a :: post) →
  a = Some e ↔ ∃ exp, stored_last pre (key t) e exp ∧ now ≤ exp.
Proof.
  intros (s & s' & Hi & Hs)%store_refines_book. apply steps_app_inv in Hs as (s1 & H1 & H2).
  inversion H2 as [|? ? s2 ? ? (_ & Ha & _) _]; subst. cbn in Ha. apply book_steps in H1. cbn in Hi.
  rewrite Hi in H1. change (fold_left _ _ _) with (book_of pre) in H1. rewrite H1 in Ha. subst a. split.
  - destruct (book_of pre !! key t) as [[e1 x1]|] eqn:Hb; cbn; [|done]. destruct (now <=? x1) eqn:Hle; [|done].
    intros [= ->]. apply book_of_lookup in Hb. exists x1. split; [done|lia].
  - intros (exp & Hst & Hle). apply book_of_lookup in Hst. rewrite Hst. cbn. by assert ((now <=? exp) = true) as -> by lia.
Qed.
End Spec.

(** ** Razorpay: [razorpay/connect.ts] *)
Module Razorpay.

Record OAuthStateEntry := { userId : string; redirectUrl : string; createdAt : Z; expiresAt : Z }.

Abbreviation oauthStateStore := (gmap string OAuthStateEntry).

Definition _clearOAuthStateStore (s : oauthStateStore) : oauthStateStore := ∅.
Definition _seedOAuthState (token : string) (e : OAuthStateEntry) (s : oauthStateStore) : oauthStateStore :=
  <[token := e]> s.

Definition STATE_TTL_MS : Z := 600000.
Definition STATE_MAX_LENGTH : Z := 512.

Definition consumeStateToken (now : Z) (token : string) (s : oauthStateStore)
  : option OAuthStateEntry * oauthStateStore :=
  let entry := s !! token in
  let s := delete token s in
  match entry with
  | None => (None, s)
  | Some e => if expiresAt e <? now then (None, s) else (Some e, s)
  end.

(** The characters of the class [[\u0000-\u001f\u007f]]. *)
Definition is_control (c : ascii) : bool := in_range 0 31 c || (code c =? 127).
Definition has_control (s : string) : bool := negb (string_forallb (λ c, negb (is_control c)) s).

Inductive state_error := MissingState | InvalidState.

(** [rawState] is [None] when it is not a string. *)
Definition validateRazorpayState (now : Z) (rawState : option string) (s : oauthStateStore)
  : result state_error OAuthStateEntry * oauthStateStore :=
  match rawState with
  | None | Some EmptyString => (Err MissingState, s)
  | Some raw =>
      if STATE_MAX_LENGTH <? Z.of_nat (String.length raw) then (Err InvalidState, s)
      else if has_control raw then (Err InvalidState, s)
      else match consumeStateToken now raw s with
           | (None, s) => (Err InvalidState, s)
           | (Some e, s) => (Ok e, s)
           end
  end.

(** The entry [initiateRazorpayConnect] stores. *)
Definition new_entry (now : Z) (e : OAuthStateEntry) (exp : Z) : OAuthStateEntry :=
  {| userId := userId e; redirectUrl := redirectUrl e; createdAt := now; expiresAt := exp |}.

#[export] Program Instance razorpay_states : StateStore oauthStateStore OAuthStateEntry := {
  empty_store := ∅;
  key t := t;
  verdict_of now t e exp := Stored (new_entry now e exp);
  issue now t e exp s := <[t := new_entry now e exp]> s;
  consume := consumeStateToken;
  cleanup _ s := s;
  pending t s := (λ e, (e, expiresAt e)) <$> s !! t
}.
Next Obligation. done. Qed.
Next Obligation.
  intros now t e exp s t'. cbn. destruct (String.eqb_spec t' t) as [->|]; [by rewrite lookup_insert_eq|by rewrite lookup_insert_ne].
Qed.
Next Obligation.
  intros now t s. unfold consumeStateToken. destruct (s !! t) as [e|]; cbn; [|done].
  rewrite (Z.leb_antisym (expiresAt e) now). by destruct (expiresAt e <? now).
Qed.
Next Obligation.
  intros now t s t'. cbn. assert ((consumeStateToken now t s).2 = delete t s) as ->.
  { unfold consumeStateToken. destruct (s !! t) as [e|]; [|done]. by destruct (expiresAt e <? now). }
  destruct (String.eqb_spec t' t) as [->|]; [by rewrite lookup_delete_eq|by rewrite lookup_delete_ne].
Qed.
Next Obligation. intros now s t. by left. Qed.
End Razorpay.

(** ** Shopify: [shopify/store.ts] *)
Module Shopify.

Record ShopifyOAuthState := { shop : string; userId : string; businessId : string; expiresAt : Z }.

Abbreviation stateToShop := (gmap string ShopifyOAuthState).

Definition MYSHOPIFY : string := ".myshopify.com".

Definition normalizeShop (s : string) : string :=
  let trimmed := to_lower (trim s) in
  if is_empty trimmed then EmptyString
  else match strip_suffix MYSHOPIFY trimmed with Some _ => trimmed | None => trimmed +:+ MYSHOPIFY end.

Definition is_alnum (c : ascii) : bool := is_digit c || in_range 97 122 c || in_range 65 90 c.
Definition host_char (c : ascii) : bool := is_alnum c || Ascii.eqb c "."%char || Ascii.eqb c "-"%char.

(** [SHOP_HOST_REGEX]: the suffix, after an alphanumeric character and others
    of a host name. *)
Definition isValidShopHost (s : string) : bool :=
  match strip_suffix MYSHOPIFY s with
  | Some (String c rest) => is_alnum c && string_forallb host_char rest
  | _ => false
  end.

Definition setOAuthState (now : Z) (state sh user business : string) (exp : Z) (s : stateToShop) : stateToShop :=
  let normalizedState := trim state in
  let normalizedShop := normalizeShop sh in
  if is_empty normalizedState || is_empty normalizedShop || negb (isValidShopHost normalizedShop) then s
  else if exp <=? now then delete normalizedState s
  else <[normalizedState := {| shop := normalizedShop; userId := user; businessId := business; expiresAt := exp |}]> s.

Definition consumeOAuthState (now : Z) (state : string) (s : stateToShop) : option ShopifyOAuthState * stateToShop :=
  let lookupKey := trim state in
  match s !! lookupKey with
  | None => (None, s)
  | Some record =>
      let s := delete lookupKey s in
      if expiresAt record <? now then (None, s) else (Some record, s)
  end.

Definition shopify_verdict (now : Z) (t : string) (e : ShopifyOAuthState) (exp : Z) : verdict ShopifyOAuthState :=
  let host := normalizeShop (shop e) in
  if is_empty (trim t) || is_empty host || negb (isValidShopHost host) then Ignored
  else if exp <=? now then Dropped
  else Stored {| shop := host; userId := userId e; businessId := businessId e; expiresAt := exp |}.

#[export] Program Instance shopify_states : StateStore stateToShop ShopifyOAuthState := {
  empty_store := ∅;
  key := trim;
  verdict_of := shopify_verdict;
  issue now t e exp s := setOAuthState now t (shop e) (userId e) (businessId e) exp s;
  consume := consumeOAuthState;
  cleanup _ s := s;
  pending t s := (λ e, (e, expiresAt e)) <$> s !! trim t
}.
Next Obligation. done. Qed.
Next Obligation.
  intros now t e exp s t'. cbn beta. unfold shopify_verdict, setOAuthState.
  destruct (_ || _ || _); [by destruct (String.eqb _ _)|]. destruct (exp <=? now).
  - destruct (String.eqb_spec (trim t') (trim t)) as [->|]; [by rewrite lookup_delete_eq|by rewrite lookup_delete_ne].
  - destruct (String.eqb_spec (trim t') (trim t)) as [->|]; [by rewrite lookup_insert_eq|by rewrite lookup_insert_ne].
Qed.
Next Obligation.
  intros now t s. cbn beta. unfold consumeOAuthState. destruct (s !! trim t) as [e|]; cbn; [|done].
  rewrite (Z.leb_antisym (expiresAt e) now). by destruct (expiresAt e <? now).
Qed.
Next Obligation.
  intros now t s t'. cbn beta. unfold consumeOAuthState. destruct (s !! trim t) as [e|] eqn:He.
  - assert ((if expiresAt e <? now then (None, delete (trim t) s) else (Some e, delete (trim t) s)).2 = delete (trim t) s) as ->
      by by destruct (expiresAt e <? now).
    destruct (String.eqb_spec (trim t') (trim t)) as [->|]; [by rewrite lookup_delete_eq|by rewrite lookup_delete_ne].
  - cbn. destruct (String.eqb_spec (trim t') (trim t)) as [->|]; [by rewrite He|done].
Qed.
Next Obligation. intros now s t. by left. Qed.
End Shopify.

(** ** Stripe: [stripe/store.ts]

    The file declares all of its exports twice; this is either copy. *)
Module Stripe.

(** The field [expiresAt] of [StateRecord]. *)
Abbreviation stateStore := (gmap string Z).

(** [StripeStoreValidationError] on a field. *)
Definition assertNonEmptyString (value field : string) : result string unit :=
  if is_empty (trim value) then Err field else Ok tt.

Definition setOAuthState (state : string) (expiresAt : Z) (s : stateStore) : result string unit * stateStore :=
  match assertNonEmptyString state "state" with
  | Err f => (Err f, s)
  | Ok _ => (Ok tt, <[state := expiresAt]> s)
  end.

Definition consumeOAuthState (now : Z) (state : string) (s : stateStore) : bool * stateStore :=
  let record := s !! state in
  let s := delete state s in
  match record with
  | None => (false, s)
  | Some expiresAt => if expiresAt <? now then (false, s) else (true, s)
  end.

Definition cleanupExpiredStates (now : Z) (s : stateStore) : stateStore :=
  filter (λ '(_, expiresAt), ¬ expiresAt < now) s.

#[export] Program Instance stripe_states : StateStore stateStore unit := {
  empty_store := ∅;
  key t := t;
  verdict_of now t e exp := if is_ok (assertNonEmptyString t "state") then Stored tt else Ignored;
  issue now t _ exp s := (setOAuthState t exp s).2;
  consume now t s := let '(ok, s) := consumeOAuthState now t s in (if ok then Some tt else None, s);
  cleanup := cleanupExpiredStates;
  pending t s := (λ exp, (tt, exp)) <$> s !! t
}.
Next Obligation. done. Qed.
Next Obligation.
  intros now t e exp s t'. cbn beta. unfold setOAuthState.
  destruct (assertNonEmptyString t "state"); cbn; [|by destruct (String.eqb t' t)].
  destruct (String.eqb_spec t' t) as [->|]; [by rewrite lookup_insert_eq|by rewrite lookup_insert_ne].
Qed.
Next Obligation.
  intros now t s. cbn beta. unfold consumeOAuthState. destruct (s !! t) as [exp|]; cbn; [|done].
  rewrite (Z.leb_antisym exp now). by destruct (exp <? now).
Qed.
Next Obligation.
  intros now t s t'. cbn beta. unfold consumeOAuthState.
  destruct (s !! t) as [x|]; [destruct (x <? now)|]; cbn;
    (destruct (String.eqb_spec t' t) as [->|]; [by rewrite lookup_delete_eq|by rewrite lookup_delete_ne]).
Qed.
Next Obligation.
  intros now s t. cbn beta. unfold cleanupExpiredStates. destruct (s !! t) as [exp|] eqn:Ht.
  - destruct (decide (exp < now)) as [Hx|Hx].
    + right. split; [|by exists tt, exp]. rewrite fmap_None. apply map_lookup_filter_None. right.
      intros x. rewrite Ht. by intros [= <-] [].
    + left. f_equal. by apply map_lookup_filter_Some.
  - left. f_equal. apply map_lookup_filter_None. by left.
Qed.
End Stripe.

(** ** Properties *)

(** C19. The three stores refine the book of one-shot entries: every sequence of
    issued, consumed and cleaned-up tokens they can go through, with the
    answers they give, is one of the book's, as long as the clock does not go
    back. *)
Theorem state_stores_refine_book :
  refines (store_system (H := Razorpay.razorpay_states)) (book (H := Razorpay.razorpay_states)) ∧
  refines (store_system (H := Shopify.shopify_states)) (book (H := Shopify.shopify_states)) ∧
  refines (store_system (H := Stripe.stripe_states)) (book (H := Stripe.stripe_states)).
Proof. split_and!; apply store_refines_book. Qed.

(** A state is accepted exactly while it is the last one stored under its
    key, unexpired and not presented before; so two acceptances of one key
    have a new issue of it in between. *)
Theorem oauth_state_accepted_iff {S E} `{H : StateStore S E} pre now t a post :
  trace (store_system (H := H)) (pre ++ Consumed now t a :: post) →
  (∀ e, a = Some e ↔ ∃ exp, stored_last pre (key t) e exp ∧ now ≤ exp) ∧
  (∀ p1 now1 t1 e1 p2 e, pre = p1 ++ Consumed now1 t1 (Some e1) :: p2 → key t1 = key t → a = Some e →
     ∃ n t0 e0 exp, Issued n t0 e0 exp ∈ p2 ∧ key t0 = key t ∧ verdict_of n t0 e0 exp = Stored e).
Proof.
  intros Ht. pose proof (λ e, accepted_iff pre now t a post e Ht) as Hiff. split; [exact Hiff|].
  intros p1 now1 t1 e1 p2 e -> Hk Ha. apply Hiff in Ha as (exp & Hst & _). clear -Hst Hk.
  induction p2 as [|x p2 IH] using rev_ind.
  - apply (stored_last_snoc_touched _ (Consumed now1 t1 (Some e1))) in Hst; [|done]. by destruct Hst as (? & ? & ? & ? & _).
  - rewrite app_comm_cons, (assoc_L app) in Hst. destruct (decide (touches (key t) x)) as [Hx|Hx].
    + apply stored_last_snoc_touched in Hst as (n & t0 & e0 & -> & Hv); [|done].
      exists n, t0, e0, exp. split_and!; [apply elem_of_app; right; by apply list_elem_of_singleton|by destruct Hx|done].
    + apply stored_last_snoc_untouched in Hst; [|done]. destruct (IH Hst) as (n & t0 & e0 & x0 & Hin & ?).
      exists n, t0, e0, x0. split; [apply elem_of_app; by left|done].
Qed.

(** A Shopify state, presented with blanks around it within its ten minutes,
    and presented again. *)
Definition shopify_run : list (event Shopify.ShopifyOAuthState) :=
  let s host := {| Shopify.shop := host; Shopify.userId := "u"; Shopify.businessId := "b"; Shopify.expiresAt := 600000 |} in
  [Issued 0 "st" (s "Acme") 600000; Consumed 5 " st " (Some (s "acme.myshopify.com")); Consumed 6 "st" None].

Lemma oauth_state_accepted_iff_witness :
  ∃ exp, stored_last (H := Shopify.shopify_states) (take 1 shopify_run) "st"
           {| Shopify.shop := "acme.myshopify.com"; Shopify.userId := "u"; Shopify.businessId := "b"; Shopify.expiresAt := 600000 |} exp ∧
         5 ≤ exp.
Proof.
  refine (proj1 (proj1 (oauth_state_accepted_iff (H := Shopify.shopify_states) (take 1 shopify_run) 5 " st " _ (drop 2 shopify_run) _) _) eq_refl).
  exists (0, ∅), (6, ∅). split; [done|]. unfold shopify_run. cbn [take drop app].
  apply (steps_cons (store_system (H := Shopify.shopify_states)) _ _ (0, Shopify.setOAuthState 0 "st" "Acme" "u" "b" 600000 ∅)); [split_and!; reflexivity || lia|].
  apply (steps_cons (store_system (H := Shopify.shopify_states)) _ _ (5, ∅)); [split_and!; [cbn; lia|done|vm_compute; reflexivity]|].
  apply (steps_cons (store_system (H := Shopify.shopify_states)) _ _ (6, ∅)); [split_and!; [cbn; lia|done|reflexivity]|]. constructor.
Defined.
