(* ===== verification/CircuitBreaker.v ===== *)
(** * The Redis circuit breaker and cluster redirections: [src/redis.ts].

    [parseClusterRedirectionError] recognises MOVED and ASK replies.
    [RedisCircuitBreaker.execute] awaits the operation between its admission
    and its accounting, so it is two steps here: [begin_execute] and
    [finish_execute]; other calls may run in between. *)

From S2P Require Import Prelude Numeric Hashing JsString.
#[local] Open Scope Z_scope.

(** ** Keys *)

Definition hashTag (businessId : string) : string := "{" +:+ businessId +:+ "}".

(** ** Redirections *)

Inductive redirection := MOVED | ASK.

Record ClusterRedirectionInfo := {
  r_type : redirection;
  slot : Z;
  targetHost : string;
  targetPort : Z;
  targetAddress : string;
}.

(** One or more characters of a class. *)
Definition span1 (p : ascii → bool) (s : string) : option (string * string) :=
  let '(a, b) := span p s in if is_empty a then None else Some (a, b).

Definition host_char (c : ascii) : bool := negb (is_space c) && negb (Ascii.eqb c ":").

Definition redirection_keyword (s : string) : option (redirection * string) :=
  match strip_prefix_ci "MOVED" s with
  | Some r => Some (MOVED, r)
  | None => match strip_prefix_ci "ASK" s with Some r => Some (ASK, r) | None => None end
  end.

(** The match of [/^(MOVED|ASK)\s+(\d+)\s+([^\s:]+):(\d+)/i] on the trimmed
    message; consecutive classes are disjoint, so no backtracking helps. *)
Definition parseClusterRedirectionError (message : string) : option ClusterRedirectionInfo :=
  '(t, r) ← redirection_keyword (trim message);
  '(_, r) ← span1 is_space r;
  '(slotStr, r) ← span1 is_digit r;
  '(_, r) ← span1 is_space r;
  '(host, r) ← span1 host_char r;
  r ← strip_prefix ":" r;
  '(portStr, _) ← span1 is_digit r;
  Some {| r_type := t; slot := default 0 (parse_int slotStr); targetHost := host;
          targetPort := default 0 (parse_int portStr); targetAddress := host +:+ ":" +:+ portStr |}.

Definition isClusterRedirectionError (message : string) : bool :=
  match parseClusterRedirectionError message with Some _ => true | None => false end.

(** ** The breaker *)

Inductive CircuitState := CLOSED | OPEN | HALF_OPEN.

(** The test [===] on states. *)
Definition state_eqb (x y : CircuitState) : bool :=
  match x, y with
  | CLOSED, CLOSED | OPEN, OPEN | HALF_OPEN, HALF_OPEN => true
  | _, _ => false
  end.

Record breaker := {
  state : CircuitState;
  failures : Z;
  nextAttemptMs : Z;
  failureThreshold : Z;
  resetTimeoutMs : Z;
}.

Definition new (threshold timeout : option Z) : breaker :=
  {| state := CLOSED; failures := 0; nextAttemptMs := 0;
     failureThreshold := default 5 threshold; resetTimeoutMs := default 10000 timeout |}.

Definition set_next (t : Z) (b : breaker) : breaker :=
  {| state := state b; failures := failures b; nextAttemptMs := t;
     failureThreshold := failureThreshold b; resetTimeoutMs := resetTimeoutMs b |}.

Definition set_failures (n : Z) (b : breaker) : breaker :=
  {| state := state b; failures := n; nextAttemptMs := nextAttemptMs b;
     failureThreshold := failureThreshold b; resetTimeoutMs := resetTimeoutMs b |}.

Definition set_state (s : CircuitState) (b : breaker) : breaker :=
  {| state := s; failures := failures b; nextAttemptMs := nextAttemptMs b;
     failureThreshold := failureThreshold b; resetTimeoutMs := resetTimeoutMs b |}.

Definition transition (now : Z) (newState : CircuitState) (b : breaker) : breaker :=
  let b := set_state newState b in
  match newState with
  | CLOSED => set_next 0 (set_failures 0 b)
  | OPEN => set_next (now + resetTimeoutMs b) b
  | HALF_OPEN => b
  end.

(** What [execute] does before the operation: start it, or refuse (the
    fallback when there is one, else [RedisCircuitBreakerError]). *)
Inductive admission := Started | RefusedOpen | RefusedProbing.

Definition begin_execute (now : Z) (b : breaker) : admission * breaker :=
  let half b :=
    if state_eqb (state b) HALF_OPEN then
      if now <? nextAttemptMs b then (RefusedProbing, b)
      else (Started, set_next (now + resetTimeoutMs b) b)
    else (Started, b) in
  if state_eqb (state b) OPEN then
    if nextAttemptMs b <=? now then half (transition now HALF_OPEN b)
    else (RefusedOpen, b)
  else half b.

Definition recordFailure (now : Z) (b : breaker) : breaker :=
  match state b with
  | HALF_OPEN => transition now OPEN b
  | CLOSED =>
      let b := set_failures (failures b + 1) b in
      if failureThreshold b <=? failures b then transition now OPEN b else b
  | OPEN => b
  end.

(** The operation's end: it resolves, or rejects with a message. *)
Inductive outcome := Resolved | Rejected (message : string).

Definition finish_execute (now : Z) (o : outcome) (b : breaker) : breaker :=
  match o with
  | Resolved =>
      match state b with
      | HALF_OPEN => transition now CLOSED b
      | CLOSED => set_failures 0 b
      | OPEN => b
      end
  | Rejected m => if isClusterRedirectionError m then b else recordFailure now b
  end.

Definition reset (now : Z) (b : breaker) : breaker := transition now CLOSED b.

(** ** Traces: any interleaving of admissions and ends of operations *)

Inductive event := EBegin (now : Z) | EFinish (now : Z) (o : outcome).

Definition time_of (e : event) : Z := match e with EBegin now | EFinish now _ => now end.

(** The times at which operations were started. *)
Fixpoint started (es : list event) (b : breaker) : list Z * breaker :=
  match es with
  | [] => ([], b)
  | EBegin now :: es =>
      let '(a, b) := begin_execute now b in
      let '(ts, b') := started es b in
      (match a with Started => now :: ts | _ => ts end, b')
  | EFinish now o :: es => started es (finish_execute now o b)
  end.

Fixpoint clock_ok (from : Z) (es : list event) : Prop :=
  match es with
  | [] => True
  | e :: es => from ≤ time_of e ∧ clock_ok (time_of e) es
  end.

Definition no_success (e : event) : Prop := match e with EFinish _ Resolved => False | _ => True end.

(** Start times, each at least [gap] after the previous one. *)
Fixpoint spaced (gap from : Z) (ts : list Z) : Prop :=
  match ts with
  | [] => True
  | t :: ts => from ≤ t ∧ spaced gap (t + gap) ts
  end.

(** Operations of a healthy breaker that fail one after the other. *)
Definition failing (messages : list (Z * string)) : list event :=
  flat_map (λ '(now, m), [EBegin now; EFinish now (Rejected m)]) messages.

(** ** Lemmas *)

Lemma spaced_from_le gap from from' ts : from' ≤ from → spaced gap from ts → spaced gap from' ts.
Proof. destruct ts as [|t ts]; [done|]. cbn. intros ? [? ?]. split; [lia|done]. Qed.

(** Without a success the breaker stays broken, and starts are spaced by the
    reset timeout. *)
Lemma broken_spaced es b from :
  state b ≠ CLOSED → nextAttemptMs b ≤ from + resetTimeoutMs b →
  clock_ok from es → Forall no_success es →
  spaced (resetTimeoutMs b) (nextAttemptMs b) (started es b).1 ∧ state (started es b).2 ≠ CLOSED.
Proof.
  revert b from. induction es as [|e es IH]; intros b from Hs Hn Hc Hf; [by split|].
  destruct Hc as [Hfrom Hc]. apply Forall_cons in Hf as [He Hf].
  destruct e as [now|now o]; cbn [started time_of] in *.
  - unfold begin_execute. destruct b as [st fl nx th rt]; cbn in *.
    destruct st; cbn; try done.
    + case_if.
      * assert ((now <? nx) = false) as -> by lia. cbn.
        edestruct (IH {| state := HALF_OPEN; failures := fl; nextAttemptMs := now + rt;
                         failureThreshold := th; resetTimeoutMs := rt |} now) as [H1 H2]; cbn; [done|lia|done|done|].
        destruct (started es _) as [ts b']. cbn in *. split; [split; [lia|done]|done].
      * edestruct (IH {| state := OPEN; failures := fl; nextAttemptMs := nx;
                         failureThreshold := th; resetTimeoutMs := rt |} now) as [H1 H2]; cbn; [done|lia|done|done|].
        destruct (started es _) as [ts b']. by split.
    + case_if; cbn.
      * edestruct (IH {| state := HALF_OPEN; failures := fl; nextAttemptMs := nx;
                         failureThreshold := th; resetTimeoutMs := rt |} now) as [H1 H2]; cbn; [done|lia|done|done|].
        destruct (started es _) as [ts b']. by split.
      * edestruct (IH {| state := HALF_OPEN; failures := fl; nextAttemptMs := now + rt;
                         failureThreshold := th; resetTimeoutMs := rt |} now) as [H1 H2]; cbn; [done|lia|done|done|].
        destruct (started es _) as [ts b']. cbn in *. split; [split; [lia|done]|done].
  - destruct o as [|m]; [done|]. cbn [finish_execute]. case_if; [eapply IH; [done| |exact Hc|done]; lia|].
    unfold recordFailure. destruct b as [st fl nx th rt]; cbn in *. destruct st; cbn; [done| |].
    + eapply (IH {| state := OPEN; failures := fl; nextAttemptMs := nx;
                    failureThreshold := th; resetTimeoutMs := rt |}); cbn; [done| |exact Hc|done]; lia.
    + destruct (IH {| state := OPEN; failures := fl; nextAttemptMs := now + rt;
                      failureThreshold := th; resetTimeoutMs := rt |} now) as [H1 H2]; cbn; [done|lia|done|done|].
      cbn in H1. split; [|done]. eapply spaced_from_le; [|exact H1]. lia.
Qed.

Lemma failing_closed ms b :
  state b = CLOSED → Forall (λ '(_, m), isClusterRedirectionError m = false) ms →
  failures b + Z.of_nat (length ms) < failureThreshold b →
  (started (failing ms) b).2 = set_failures (failures b + Z.of_nat (length ms)) b.
Proof.
  revert b. induction ms as [|[now m] ms IH]; intros b Hs Hm Hlt; destruct b as [st fl nx th rt]; cbn in *.
  { unfold set_failures. cbn. by rewrite Z.add_0_r. }
  subst st. apply Forall_cons in Hm as [Hm1 Hm]. cbn in Hm1. cbn. rewrite Hm1. cbn.
  unfold set_failures. cbn.
  assert ((th <=? fl + 1) = false) as -> by lia.
  pose proof (IH {| state := CLOSED; failures := fl + 1; nextAttemptMs := nx;
                    failureThreshold := th; resetTimeoutMs := rt |} eq_refl Hm ltac:(cbn; lia)) as IHb.
  unfold set_failures in IHb. cbn in IHb. unfold failing in IHb.
  destruct (started _ _) as [ts b'] eqn:E. cbn in *. rewrite IHb. f_equal. lia.
Qed.

Lemma started_app es es' b :
  (started (es ++ es') b).2 = (started es' (started es b).2).2.
Proof.
  revert b. induction es as [|e es IH]; intros b; [done|].
  destruct e as [now|now o]; cbn [app started]; [|apply IH].
  destruct (begin_execute now b) as [a b1]. specialize (IH b1).
  destruct (started (es ++ es') b1), (started es b1). done.
Qed.

Lemma failing_snoc ms now m : failing (ms ++ [(now, m)]) = failing ms ++ [EBegin now; EFinish now (Rejected m)].
Proof. unfold failing. by rewrite flat_map_app. Qed.

Lemma span1_app p (a b : string) :
  string_forallb p a = true → a ≠ EmptyString → stops p b = true → span1 p (a +:+ b) = Some (a, b).
Proof. intros H1 H2 H3. unfold span1. rewrite span_app by done. by destruct a. Qed.

Lemma span1_all p (a : string) :
  string_forallb p a = true → a ≠ EmptyString → span1 p a = Some (a, EmptyString).
Proof. intros H1 H2. rewrite <- (string_app_nil_r a) at 1. by apply span1_app. Qed.

Lemma string_last (s : string) (p : ascii → bool) :
  string_forallb p s = true → s ≠ EmptyString →
  ∃ r c, s = r +:+ String c EmptyString ∧ p c = true.
Proof.
  induction s as [|c s IH]; intros Hf Hn; [done|]. cbn in Hf. apply andb_true_iff in Hf as [Hc Hf].
  destruct s as [|d s]; [by exists EmptyString, c|].
  destruct (IH Hf ltac:(done)) as (r & e & -> & He). by exists (String c r), e.
Qed.

Lemma trim_ends c (s : string) d :
  is_space c = false → is_space d = false →
  trim (String c (s +:+ String d EmptyString)) = String c (s +:+ String d EmptyString).
Proof.
  intros Hc Hd. unfold trim. rewrite trim_start_keeps by done.
  rewrite <- string_cons_app. by apply trim_end_keeps.
Qed.

Lemma stops_digit (p : ascii → bool) a b :
  (∀ c, is_digit c = true → p c = false) → string_forallb is_digit a = true → a ≠ EmptyString →
  stops p (a +:+ b) = true.
Proof.
  intros Hp Ha Hn. destruct a as [|c a]; [done|]. rewrite string_cons_app. cbn in *.
  apply andb_true_iff in Ha as [Hc _]. by rewrite Hp.
Qed.

Lemma stops_host (p : ascii → bool) a b :
  (∀ c, host_char c = true → p c = false) → string_forallb host_char a = true → a ≠ EmptyString →
  stops p (a +:+ b) = true.
Proof.
  intros Hp Ha Hn. destruct a as [|c a]; [done|]. rewrite string_cons_app. cbn in *.
  apply andb_true_iff in Ha as [Hc _]. by rewrite Hp.
Qed.

Lemma host_char_not_space c : host_char c = true → is_space c = false.
Proof. unfold host_char. intros [H _]%andb_true_iff. by apply negb_true_iff in H. Qed.

(** The message with its last character exposed, to trim it. *)
Lemma parse_redirection kw slotStr host portStr :
  string_forallb is_digit slotStr = true → slotStr ≠ EmptyString →
  string_forallb host_char host = true → host ≠ EmptyString →
  string_forallb is_digit portStr = true → portStr ≠ EmptyString →
  parseClusterRedirectionError
    ((match kw with MOVED => "MOVED " | ASK => "ASK " end) +:+ slotStr +:+ " " +:+ host +:+ ":" +:+ portStr) =
  Some {| r_type := kw; slot := default 0 (parse_int slotStr); targetHost := host;
          targetPort := default 0 (parse_int portStr); targetAddress := host +:+ ":" +:+ portStr |}.
Proof.
  intros Hs Hs0 Hh Hh0 Hp Hp0. unfold parseClusterRedirectionError.
  set (rest := slotStr +:+ " " +:+ host +:+ ":" +:+ portStr).
  assert (∃ m d, rest = m +:+ String d EmptyString ∧ is_space d = false) as (m & d & Hr & Hd).
  { destruct (string_last portStr is_digit Hp Hp0) as (r & c & Hr & Hc).
    exists (slotStr +:+ " " +:+ host +:+ ":" +:+ r), c. split; [|auto with js_core].
    unfold rest. rewrite Hr. by rewrite !string_app_assoc. }
  assert (∀ k c, is_space c = false → trim (String c (k +:+ rest)) = String c (k +:+ rest)) as Ht.
  { intros k c Hc. rewrite Hr, string_app_assoc. by apply trim_ends. }
  assert (redirection_keyword (trim ((match kw with MOVED => "MOVED " | ASK => "ASK " end) +:+ rest))
          = Some (kw, " " +:+ rest)) as ->.
  { destruct kw; [rewrite (Ht "OVED " "M"%char eq_refl : trim ("MOVED " +:+ rest) = "MOVED " +:+ rest)
                 |rewrite (Ht "SK " "A"%char eq_refl : trim ("ASK " +:+ rest) = "ASK " +:+ rest)];
    reflexivity. }
  cbn [mbind option_bind]. unfold rest.
  rewrite (span1_app is_space " ") by (done || (apply stops_digit; auto with js_core)).
  cbn [mbind option_bind]. rewrite (span1_app is_digit slotStr) by done.
  cbn [mbind option_bind].
  rewrite (span1_app is_space " ") by (done || (apply stops_host; auto using host_char_not_space)).
  cbn [mbind option_bind]. rewrite (span1_app host_char host) by done.
  cbn [mbind option_bind]. change (strip_prefix ":" (":" +:+ portStr)) with (strip_prefix EmptyString portStr).
  cbn [strip_prefix mbind option_bind]. by rewrite span1_all.
Qed.

(** ** Properties *)

(** Opening: from a closed breaker with no failure counted, operations
    that fail one after the other with errors other than redirections leave it
    closed while there are fewer than [failureThreshold] of them, and the
    [failureThreshold]-th opens it until [resetTimeoutMs] later; until then
    every call is refused and changes nothing, at that time a call is let
    through, and if it resolves the breaker is closed with a clean count. *)
Theorem breaker_opens_and_recovers b ms now m :
  state b = CLOSED → failures b = 0 → 0 ≤ resetTimeoutMs b →
  Forall (λ '(_, m), isClusterRedirectionError m = false) ms → isClusterRedirectionError m = false →
  Z.of_nat (length ms) + 1 = failureThreshold b →
  let before := (started (failing ms) b).2 in
  let opened := (started (failing (ms ++ [(now, m)])) b).2 in
  state before = CLOSED ∧ failures before = Z.of_nat (length ms) ∧
  state opened = OPEN ∧ nextAttemptMs opened = now + resetTimeoutMs b ∧
  (∀ t, t < now + resetTimeoutMs b → begin_execute t opened = (RefusedOpen, opened)) ∧
  (∀ t, now + resetTimeoutMs b ≤ t →
     ∃ probing, begin_execute t opened = (Started, probing) ∧ state probing = HALF_OPEN ∧
       ∀ t', state (finish_execute t' Resolved probing) = CLOSED ∧
             failures (finish_execute t' Resolved probing) = 0).
Proof.
  intros Hs Hf Hr Hms Hm Hlen before opened.
  assert (before = set_failures (Z.of_nat (length ms)) b) as Hb.
  { unfold before. rewrite failing_closed by (done || lia). by rewrite Hf. }
  assert (opened = set_next (now + resetTimeoutMs b) (set_state OPEN (set_failures (Z.of_nat (length ms) + 1) b))) as Ho.
  { unfold opened. rewrite failing_snoc, started_app. fold before. rewrite Hb.
    destruct b as [st fl nx th rt]; cbn in *; subst st. cbn. rewrite Hm. cbn.
    unfold set_failures. cbn. by assert ((th <=? Z.of_nat (length ms) + 1) = true) as -> by lia. }
  rewrite Hb, Ho. split_and!; [done..| |].
  - intros t Ht. unfold begin_execute. cbn.
    by assert ((now + resetTimeoutMs b <=? t) = false) as -> by lia.
  - intros t Ht. unfold begin_execute. cbn.
    assert ((now + resetTimeoutMs b <=? t) = true) as -> by lia.
    assert ((t <? now + resetTimeoutMs b) = false) as -> by lia.
    eexists. split; [reflexivity|]. done.
Qed.

Lemma breaker_opens_and_recovers_witness :
  state (begin_execute 10001 (started (failing [(0, "ETIMEDOUT"); (1, "ETIMEDOUT")]) (new (Some 2) None)).2).2 = HALF_OPEN.
Proof.
  destruct (breaker_opens_and_recovers (new (Some 2) None) [(0, "ETIMEDOUT")] 1 "ETIMEDOUT"
              eq_refl eq_refl ltac:(cbn; lia) ltac:(by repeat constructor) eq_refl eq_refl)
    as (_ & _ & _ & _ & _ & H).
  destruct (H 10001 ltac:(cbn; lia)) as (p & Hp & Hh & _).
  change ([(0, "ETIMEDOUT")] ++ [(1, "ETIMEDOUT")]) with [(0, "ETIMEDOUT"); (1, "ETIMEDOUT")] in Hp.
  by rewrite Hp.
Defined.

(** C38. Probing: once a failure at [t0] has opened the breaker, in any
    interleaving of later calls and ends of operations in which none resolves,
    the breaker does not close and starts operations only from
    [t0 + resetTimeoutMs] on, each at least [resetTimeoutMs] after the one
    before: at most one probe per timeout reaches Redis, however many calls
    are made. *)
Theorem probes_are_spaced es b t0 :
  state b ≠ OPEN → state (recordFailure t0 b) = OPEN → clock_ok t0 es → Forall no_success es →
  let '(starts, final) := started es (recordFailure t0 b) in
  spaced (resetTimeoutMs b) (t0 + resetTimeoutMs b) starts ∧ state final ≠ CLOSED.
Proof.
  intros Hb Ho Hc Hf.
  assert (nextAttemptMs (recordFailure t0 b) = t0 + resetTimeoutMs b ∧
          resetTimeoutMs (recordFailure t0 b) = resetTimeoutMs b) as [Hn Hr].
  { destruct b as [[] fl nx th rt]; cbn in *; [|done|done]. unfold recordFailure in *. cbn in *.
    by destruct (th <=? fl + 1). }
  destruct (broken_spaced es (recordFailure t0 b) t0) as [H1 H2]; [by rewrite Ho|lia|done|done|].
  rewrite Hn, Hr in H1. by destruct (started es _).
Qed.

Definition probing_trace : list event :=
  [EBegin 50; EBegin 100; EBegin 120; EFinish 130 (Rejected "x"); EBegin 140; EBegin 230].

Definition about_to_open : breaker :=
  {| state := CLOSED; failures := 4; nextAttemptMs := 0; failureThreshold := 5; resetTimeoutMs := 100 |}.

Lemma probes_are_spaced_witness :
  started probing_trace (recordFailure 0 about_to_open) = ([100; 230],
    {| state := HALF_OPEN; failures := 5; nextAttemptMs := 330; failureThreshold := 5; resetTimeoutMs := 100 |})
  ∧ spaced 100 100 [100; 230].
Proof.
  pose proof (probes_are_spaced probing_trace about_to_open 0 ltac:(discriminate) eq_refl
                ltac:(cbn; split_and!; (done || lia)) ltac:(by repeat constructor)) as H.
  assert (started probing_trace (recordFailure 0 about_to_open) = ([100; 230],
    {| state := HALF_OPEN; failures := 5; nextAttemptMs := 330; failureThreshold := 5; resetTimeoutMs := 100 |}))
    as Hs by reflexivity.
  rewrite Hs in H. exact (conj Hs (proj1 H)).
Defined.

(** A MOVED or ASK reply is recognised whatever its slot, host and
    port: the fields are read back, and the breaker does not count
    the rejection as a failure. *)
Theorem redirection_recognised (kw : redirection) slotStr host portStr now b :
  string_forallb is_digit slotStr = true → slotStr ≠ EmptyString →
  string_forallb host_char host = true → host ≠ EmptyString →
  string_forallb is_digit portStr = true → portStr ≠ EmptyString →
  let message := (match kw with MOVED => "MOVED " | ASK => "ASK " end) +:+ slotStr +:+ " " +:+ host +:+ ":" +:+ portStr in
  parseClusterRedirectionError message =
    Some {| r_type := kw; slot := default 0 (parse_int slotStr); targetHost := host;
            targetPort := default 0 (parse_int portStr); targetAddress := host +:+ ":" +:+ portStr |} ∧
  finish_execute now (Rejected message) b = b.
Proof.
  intros Hs Hs0 Hh Hh0 Hp Hp0 message.
  assert (parseClusterRedirectionError message =
    Some {| r_type := kw; slot := default 0 (parse_int slotStr); targetHost := host;
            targetPort := default 0 (parse_int portStr); targetAddress := host +:+ ":" +:+ portStr |}) as He
    by (by apply parse_redirection).
  split; [done|]. cbn [finish_execute]. unfold isClusterRedirectionError. by rewrite He.
Qed.

Lemma redirection_recognised_witness :
  finish_execute 7 (Rejected ("ASK " +:+ "3999" +:+ " " +:+ "127.0.0.1" +:+ ":" +:+ "6381")) (new None None)
  = new None None.
Proof.
  exact (proj2 (redirection_recognised ASK "3999" "127.0.0.1" "6381" 7 (new None None)
           eq_refl ltac:(discriminate) eq_refl ltac:(discriminate) eq_refl ltac:(discriminate))).
Defined.
