(* ===== verification/RateLimiter.v ===== *)
(** * Rate limiting: [src/middleware/rateLimiter.ts].

    The two in-memory stores (fixed window and sliding log) implement the
    interface [RateLimitStore]; the middleware is written against it.  The two
    Redis stores are their retry and redirection loops over the replies of the
    server, which are inputs. *)

From S2P Require Import Prelude Numeric Hashing JsString Window CircuitBreaker.
#[local] Open Scope Z_scope.

(** ** Stores *)

Record RateLimitRecord := { count : Z; resetTime : Z }.

(** What a store promises to the middleware: the answer to [increment] on a
    key depends on that key's entry alone, and changes that entry alone; the
    periodic cleanup acts entry by entry. *)
Class RateLimitStore (S : Type) := {
  entry : Type;
  view : string → S → entry;
  increment_entry : Z → Z → entry → RateLimitRecord * entry;
  increment : Z → string → Z → S → RateLimitRecord * S;
  increment_record now k w s : (increment now k w s).1 = (increment_entry now w (view k s)).1;
  increment_same now k w s : view k (increment now k w s).2 = (increment_entry now w (view k s)).2;
  increment_other now k k' w s : k ≠ k' → view k' (increment now k w s).2 = view k' s;
  cleanup : Z → S → S;
  cleanup_entry : Z → entry → entry;
  cleanup_view now k s : view k (cleanup now s) = cleanup_entry now (view k s);
}.

(** [MemoryStore]. *)
Abbreviation MemoryStore := (gmap string RateLimitRecord).

Definition fixed_step (now windowMs : Z) (e : option RateLimitRecord) : RateLimitRecord :=
  let fresh := {| count := 0; resetTime := now + windowMs |} in
  let record := match e with
                | None => fresh
                | Some r => if resetTime r <? now then fresh else r
                end in
  {| count := count record + 1; resetTime := resetTime record |}.

Definition memory_increment (now : Z) (key : string) (windowMs : Z) (store : MemoryStore)
  : RateLimitRecord * MemoryStore :=
  let record := fixed_step now windowMs (store !! key) in (record, <[key := record]> store).

Definition memory_cleanup (now : Z) (store : MemoryStore) : MemoryStore :=
  filter (λ '(_, r), ¬ resetTime r < now) store.

(** [SlidingWindowMemoryStore]. *)
Abbreviation SlidingStore := (gmap string (list Z)).

Definition sliding_step (now windowMs : Z) (timestamps : list Z) : list Z :=
  List.filter (λ t, now - windowMs <? t) timestamps ++ [now].

Definition sliding_increment (now : Z) (key : string) (windowMs : Z) (store : SlidingStore)
  : RateLimitRecord * SlidingStore :=
  let timestamps := sliding_step now windowMs (default [] (store !! key)) in
  ({| count := Z.of_nat (length timestamps); resetTime := now + windowMs |},
   <[key := timestamps]> store).

Definition DEFAULT_WINDOW_MS : Z := 15 * 60 * 1000.
Definition DEFAULT_MAX : Z := 100.

(** [cleanupSlidingStore]: the interval passes no window, hence the default. *)
Definition cleanupSlidingStore (now windowMs : Z) (store : SlidingStore) : SlidingStore :=
  omap (λ timestamps,
          let pruned := List.filter (λ t, now - windowMs <? t) timestamps in
          match pruned with [] => None | _ => Some pruned end) store.

(** The two interval callbacks: [cleanupRateLimiterStore()] and
    [cleanupSlidingStore()]. *)
Definition cleanupRateLimiterStore (now : Z) (store : MemoryStore) : MemoryStore :=
  memory_cleanup now store.

Definition sliding_cleanup (now : Z) (store : SlidingStore) : SlidingStore :=
  cleanupSlidingStore now DEFAULT_WINDOW_MS store.

#[export] Instance memory_store : RateLimitStore MemoryStore.
Proof.
  refine {| view k s := s !! k; increment := memory_increment;
            increment_entry now w e := let r := fixed_step now w e in (r, Some r);
            cleanup := cleanupRateLimiterStore;
            cleanup_entry now e := match e with
                                   | Some r => if resetTime r <? now then None else Some r
                                   | None => None
                                   end |}.
  - done.
  - intros. cbn. apply lookup_insert_eq.
  - intros. cbn. by apply lookup_insert_ne.
  - intros now k s. cbn. unfold cleanupRateLimiterStore, memory_cleanup.
    rewrite map_lookup_filter. destruct (s !! k) as [r|]; [|done]. cbn.
    destruct (resetTime r <? now) eqn:E; case_guard; (done || lia).
Defined.

#[export] Instance sliding_store : RateLimitStore SlidingStore.
Proof.
  refine {| view k s := default [] (s !! k); increment := sliding_increment;
            increment_entry now w e :=
              let ts := sliding_step now w e in
              ({| count := Z.of_nat (length ts); resetTime := now + w |}, ts);
            cleanup := sliding_cleanup;
            cleanup_entry now e := List.filter (λ t, now - DEFAULT_WINDOW_MS <? t) e |}.
  - done.
  - intros. unfold sliding_increment. cbn [snd]. by rewrite lookup_insert_eq.
  - intros. unfold sliding_increment. cbn [snd]. by rewrite lookup_insert_ne.
  - intros now k s. unfold sliding_cleanup, cleanupSlidingStore. rewrite lookup_omap.
    destruct (s !! k) as [ts|]; [|done]. cbn. by destruct (List.filter _ ts).
Defined.

(** ** Requests and keys *)

Record request := {
  userId : option string;
  forwardedFor : option string;
  ip : option string;
  remoteAddress : option string;
  routePath : option string;
  path : string;
  originalUrl : string;
  method : string;
  baseUrl : string;
  businessId : option string;
}.

(** [a || b] on strings: an absent or empty [a] gives [b]. *)
Definition or_str (a : option string) (b : string) : string :=
  match a with Some (String _ _ as s) => s | _ => b end.

Definition truthy (a : option string) : bool :=
  match a with Some (String _ _) => true | _ => false end.

Definition parsePositiveInteger (value : option string) (fallback : Z) : Z :=
  match parse_int (default EmptyString value) with
  | Some n => if 0 <? n then n else fallback
  | None => fallback
  end.

Definition getClientIdentifier (req : request) : string :=
  if truthy (userId req) then "user:" +:+ or_str (userId req) EmptyString
  else match forwardedFor req with
       | Some f =>
           if negb (is_empty (trim f)) then "ip:" +:+ trim (default EmptyString (head (split_on "," f)))
           else "ip:" +:+ or_str (ip req) (or_str (remoteAddress req) "unknown")
       | None => "ip:" +:+ or_str (ip req) (or_str (remoteAddress req) "unknown")
       end.

Definition getDefaultBucket (req : request) : string :=
  let normalizedRoute :=
    match routePath req with
    | Some p => p
    | None => or_str (Some (path req)) (or_str (Some (originalUrl req)) "unknown")
    end in
  method req +:+ ":" +:+ baseUrl req +:+ normalizedRoute.

Inductive bucket_resolver := BNone | BString (s : string) | BFunction (f : request → string).

Definition resolveBucket (req : request) (bucket : bucket_resolver) : string :=
  match bucket with
  | BFunction f =>
      let resolved := trim (f req) in
      if is_empty resolved then getDefaultBucket req else resolved
  | BString s => if is_empty (trim s) then getDefaultBucket req else trim s
  | BNone => getDefaultBucket req
  end.

Definition limiter_key (req : request) (bucket : bucket_resolver) : string :=
  let b := resolveBucket req bucket in
  let identifier := getClientIdentifier req in
  if truthy (businessId req) then
    "rate-limit:" +:+ b +:+ ":" +:+ hashTag (or_str (businessId req) EmptyString) +:+ ":" +:+ identifier
  else "rate-limit:" +:+ b +:+ ":" +:+ identifier.

(** ** The middleware *)

Record headers := {
  retryAfter : Z; h_bucket : string; h_limit : Z; h_remaining : Z; h_reset : Z }.

Definition applyRateLimitHeaders (bucket : string) (max cnt reset now : Z) : headers :=
  {| retryAfter := Z.max 1 (ceil_div (reset - now) 1000); h_bucket := bucket; h_limit := max;
     h_remaining := Z.max 0 (max - cnt); h_reset := reset |}.

(** [Next]: the request goes on; [TooMany]: status 429. *)
Inductive verdict := Next | TooMany.

Record options := { o_windowMs : option Z; o_max : option Z; o_bucket : bucket_resolver }.

Record limiter := { windowMs : Z; max : Z; bucket : bucket_resolver }.

Definition new_limiter (env_window env_max : option string) (o : options) : limiter :=
  {| windowMs := default (parsePositiveInteger env_window DEFAULT_WINDOW_MS) (o_windowMs o);
     max := default (parsePositiveInteger env_max DEFAULT_MAX) (o_max o);
     bucket := o_bucket o |}.

Definition decide_record (l : limiter) (req : request) (now : Z) (r : RateLimitRecord) : verdict * headers :=
  (if max l <? count r then TooMany else Next,
   applyRateLimitHeaders (resolveBucket req (bucket l)) (max l) (count r) (resetTime r) now).

(** The in-memory path; [now] is the middleware's clock reading, [at_incr]
    the store's. *)
Definition rateLimiter {S} `{!RateLimitStore S} (l : limiter) (req : request) (now at_incr : Z) (store : S)
  : (verdict * headers) * S :=
  let '(r, store) := increment at_incr (limiter_key req (bucket l)) (windowMs l) store in
  (decide_record l req now r, store).

(** The Redis path: [redis] is what the Redis store's [increment] settled
    with; when it rejected, the in-memory store is used. *)
Definition rateLimiter_async {S E} `{!RateLimitStore S} (l : limiter) (req : request) (now at_incr : Z)
    (redis : result E RateLimitRecord) (store : S) : (verdict * headers) * S :=
  match redis with
  | Ok r => (decide_record l req now r, store)
  | Err _ => rateLimiter l req now at_incr store
  end.

Definition resetRateLimiterStore : MemoryStore * SlidingStore := (∅, ∅).

(** ** The Redis stores

    Each attempt goes to the server; its reply, and the clock around it, are
    inputs indexed by the attempt. *)

Inductive store_error :=
| LoopDetected (key address : string)
| TooManyAborts (key : string)
| Thrown (message : string).

Definition DEFAULT_MAX_REDIRECTIONS : Z := 5.
Definition DEFAULT_MAX_WATCH_RETRIES : Z := 10.

Definition target_key (r : ClusterRedirectionInfo) : string :=
  (match r_type r with MOVED => "MOVED" | ASK => "ASK" end) +:+ ":" +:+ targetAddress r.

(** What happens to a caught error: follow the redirection (with the new
    list of visited targets), report a loop, or leave it to the caller. *)
Inductive redirect_step := Follow (visited : list string) | Loop (address : string) | NotRedirected.

Definition on_error (maxRedirections redirectionCount : Z) (visited : list string) (message : string)
  : redirect_step :=
  match parseClusterRedirectionError message with
  | Some redirect =>
      if redirectionCount <? maxRedirections then
        if includes (target_key redirect) visited then Loop (targetAddress redirect)
        else Follow (target_key redirect :: visited)
      else NotRedirected
  | None => NotRedirected
  end.

(** [eval]'s outcome: the pair [count, pttl], or a rejection. *)
Record eval_env := { at_begin : Z; at_end : Z; eval_reply : result string (Z * Z) }.

(** The breaker around one [eval]. *)
Definition eval_through (e : eval_env) (b : breaker) : result string (Z * Z) * breaker :=
  let '(a, b) := begin_execute (at_begin e) b in
  match a with
  | RefusedOpen => (Err "Redis circuit breaker is OPEN", b)
  | RefusedProbing => (Err "Redis circuit breaker is HALF_OPEN (probe in flight)", b)
  | Started =>
      match eval_reply e with
      | Ok r => (Ok r, finish_execute (at_end e) Resolved b)
      | Err m => (Err m, finish_execute (at_end e) (Rejected m) b)
      end
  end.

(** [RedisStore.increment]; [None] when the fuel runs out.  The last number
    counts the attempts made. *)
Fixpoint redis_loop (fuel : nat) (maxRedirections : Z) (key : string) (windowMs now : Z)
    (replies : nat → eval_env) (i : nat) (redirectionCount : Z) (visited : list string) (b : breaker)
  : option (result store_error RateLimitRecord * breaker * nat) :=
  match fuel with
  | O => None
  | S fuel =>
      let '(r, b) := eval_through (replies i) b in
      match r with
      | Ok (cnt, pttl) =>
          let remainingTtl := if 0 <? pttl then pttl else windowMs in
          Some (Ok {| count := cnt; resetTime := now + remainingTtl |}, b, S i)
      | Err m =>
          match on_error maxRedirections redirectionCount visited m with
          | Follow visited =>
              redis_loop fuel maxRedirections key windowMs now replies (S i) (redirectionCount + 1) visited b
          | Loop address => Some (Err (LoopDetected key address), b, S i)
          | NotRedirected => Some (Err (Thrown m), b, S i)
          end
      end
  end.

Definition redis_increment (fuel : nat) (maxRedirections : Z) (key : string) (windowMs now : Z)
    (replies : nat → eval_env) (b : breaker) :=
  redis_loop fuel maxRedirections key windowMs now replies 0 0 [] b.

(** One WATCH/MULTI/EXEC round: it throws, EXEC returns [null], or the four
    results. *)
Inductive exec_reply := Threw (message : string) | Aborted | Results (l : list (option string * Z)).

(** The error the code throws for a list of results, or the count. *)
Definition read_results (l : list (option string * Z)) : result string Z :=
  let redirect := List.find (λ r, match r.1 with Some m => isClusterRedirectionError m | None => false end) l in
  match redirect with
  | Some (Some m, _) => Err m
  | _ =>
      match l !! 2%nat with
      | None => Err "results[2] is not iterable"
      | Some (Some m, _) => Err m
      | Some (None, cnt) => Ok cnt
      end
  end.

Definition attempt_result (r : exec_reply) : option (result string Z) :=
  match r with
  | Threw m => Some (Err m)
  | Aborted => None
  | Results l => Some (read_results l)
  end.

(** [SlidingWindowRedisStore.increment]: an aborted or failed round counts
    against [maxRetries], a followed redirection does not. *)
Fixpoint sliding_redis_loop (fuel : nat) (maxRetries maxRedirections : Z) (key : string) (windowMs now : Z)
    (replies : nat → exec_reply) (i : nat) (attempt redirectionCount : Z) (visited : list string)
  : option (result store_error RateLimitRecord * nat) :=
  match fuel with
  | O => None
  | S fuel =>
      if attempt <=? maxRetries then
        match attempt_result (replies i) with
        | None =>
            sliding_redis_loop fuel maxRetries maxRedirections key windowMs now replies (S i)
              (attempt + 1) redirectionCount visited
        | Some (Ok cnt) => Some (Ok {| count := cnt; resetTime := now + windowMs |}, S i)
        | Some (Err m) =>
            match on_error maxRedirections redirectionCount visited m with
            | Follow visited =>
                sliding_redis_loop fuel maxRetries maxRedirections key windowMs now replies (S i)
                  attempt (redirectionCount + 1) visited
            | Loop address => Some (Err (LoopDetected key address), S i)
            | NotRedirected =>
                if attempt =? maxRetries then Some (Err (Thrown m), S i)
                else sliding_redis_loop fuel maxRetries maxRedirections key windowMs now replies (S i)
                       (attempt + 1) redirectionCount visited
            end
        end
      else Some (Err (TooManyAborts key), i)
  end.

Definition sliding_redis_increment (fuel : nat) (maxRetries maxRedirections : Z) (key : string)
    (windowMs now : Z) (replies : nat → exec_reply) :=
  sliding_redis_loop fuel maxRetries maxRedirections key windowMs now replies 0 0 0 [].

(** ** Runs of the middleware *)

Inductive event :=
| Request (l : limiter) (req : request) (now at_incr : Z)
| Cleanup (now : Z).

Definition event_time (e : event) : Z :=
  match e with Request _ _ _ at_incr => at_incr | Cleanup now => now end.

Definition event_key (l : limiter) (req : request) : string := limiter_key req (bucket l).

(** The events that can matter to key [k]. *)
Definition concerns (k : string) (e : event) : bool :=
  match e with Request l req _ _ => String.eqb (event_key l req) k | Cleanup _ => true end.

Section Runs.
Context {St : Type} `{!RateLimitStore St}.

(** The verdicts on the requests with key [k], with their times. *)
Fixpoint decisions (k : string) (es : list event) (s : St) : list (Z * verdict) :=
  match es with
  | [] => []
  | Cleanup now :: es => decisions k es (cleanup now s)
  | Request l req now at_incr :: es =>
      let '((v, _), s) := rateLimiter l req now at_incr s in
      let rest := decisions k es s in
      if String.eqb (event_key l req) k then (at_incr, v) :: rest else rest
  end.

(** The same on the entry of the key alone. *)
Fixpoint entry_decisions (k : string) (es : list event) (e : entry) : list (Z * verdict) :=
  match es with
  | [] => []
  | Cleanup now :: es => entry_decisions k es (cleanup_entry now e)
  | Request l req now at_incr :: es =>
      if String.eqb (event_key l req) k then
        let '(r, e) := increment_entry at_incr (windowMs l) e in
        (at_incr, if max l <? count r then TooMany else Next) :: entry_decisions k es e
      else entry_decisions k es e
  end.

Lemma decisions_entry k es s : decisions k es s = entry_decisions k es (view k s).
Proof.
  revert s. induction es as [|[l req now at_incr|now] es IH]; intros s; [done| |].
  - cbn [decisions entry_decisions]. unfold rateLimiter.
    change (limiter_key req (bucket l)) with (event_key l req).
    pose proof (increment_record at_incr (event_key l req) (windowMs l) s) as Hr.
    pose proof (increment_same at_incr (event_key l req) (windowMs l) s) as Hs.
    pose proof (increment_other at_incr (event_key l req) k (windowMs l) s) as Ho.
    destruct (increment at_incr (event_key l req) (windowMs l) s) as [r s']. cbn [fst snd decide_record] in Hr, Hs, Ho |- *.
    destruct (String.eqb_spec (event_key l req) k) as [Heq|Hne]; rewrite IH.
    + rewrite Heq in Hr, Hs. subst r. rewrite Hs. by destruct (increment_entry _ _ _).
    + by rewrite Ho.
  - cbn [decisions entry_decisions]. by rewrite IH, cleanup_view.
Qed.

Lemma entry_decisions_filter k es e :
  entry_decisions k es e = entry_decisions k (List.filter (concerns k) es) e.
Proof.
  revert e. induction es as [|[l req now at_incr|now] es IH]; intros e; cbn; [done| |apply IH].
  destruct (String.eqb (event_key l req) k) eqn:E; [|apply IH]. cbn. rewrite E.
  destruct (increment_entry at_incr (windowMs l) e) as [r e']. by rewrite IH.
Qed.
End Runs.

Definition admitted (ds : list (Z * verdict)) : list Z :=
  omap (λ '(t, v), match v with Next => Some t | TooMany => None end) ds.

(** The clock does not go back; the requests with key [k] come from limiters
    with one window and maximum. *)
Fixpoint run_ok (k : string) (w m from : Z) (es : list event) : Prop :=
  match es with
  | [] => True
  | e :: es =>
      from ≤ event_time e ∧
      match e with
      | Request l req _ _ => event_key l req = k → windowMs l = w ∧ max l = m
      | Cleanup _ => True
      end ∧ run_ok k w m (event_time e) es
  end.

(** ** The sliding log *)

Definition since (x : Z) (l : list Z) : nat := length (List.filter (λ t, x <=? t) l).

(** Past [now - w], the log holds at least the admitted requests. *)
Definition log_dominates (w now : Z) (log history : list Z) : Prop :=
  ∀ x, now - w < x → (since x history ≤ since x log)%nat.

Lemma since_app x l l' : since x (l ++ l') = (since x l + since x l')%nat.
Proof. unfold since. by rewrite List.filter_app, length_app. Qed.

Lemma since_filter x c l : c < x → since x (List.filter (λ t, c <? t) l) = since x l.
Proof.
  intros Hc. unfold since. induction l as [|t l IH]; [done|]. cbn.
  destruct (c <? t) eqn:E1; cbn; destruct (x <=? t) eqn:E2; cbn; try lia; by rewrite ?IH.
Qed.

Lemma since_le x l : (since x l ≤ length l)%nat.
Proof. unfold since. apply List.filter_length_le. Qed.

Lemma window_le_since a b l : (length (in_window a b l) ≤ since a l)%nat.
Proof. apply filter_length_mono. intros t _ H. by apply andb_true_iff in H as [? _]. Qed.

Lemma sliding_admit w m now log history :
  0 < w → log_dominates w now log history → windows_bounded (w - 1) m history →
  Z.of_nat (length log) < m → windows_bounded (w - 1) m (history ++ [now]).
Proof.
  intros Hw Hd Hb Hlt a. rewrite in_window_app, length_app. specialize (Hb a).
  destruct ((a <=? now) && (now <=? a + (w - 1))) eqn:E.
  - pose proof (window_le_since a (a + (w - 1)) history). specialize (Hd a ltac:(bool_lia)).
    pose proof (since_le a log).
    pose proof (List.filter_length_le (λ t, (a <=? t) && (t <=? a + (w - 1))) [now]).
    unfold in_window in *. cbn [length] in *. lia.
  - unfold in_window at 2. cbn [List.filter]. rewrite E. cbn [length]. lia.
Qed.

Lemma sliding_run_bounded k w m es log history from :
  0 < w ≤ DEFAULT_WINDOW_MS → run_ok k w m from es →
  log_dominates w from log history → windows_bounded (w - 1) m history →
  windows_bounded (w - 1) m (history ++ admitted (entry_decisions (St := SlidingStore) k es log)).
Proof.
  intros Hw. revert log history from. induction es as [|[l req now t|t] es IH]; intros log history from Hr Hd Hb.
  { by rewrite app_nil_r. }
  - destruct Hr as (Ht & Hlm & Hr). cbn [event_time] in *. cbn [entry_decisions].
    destruct (String.eqb_spec (event_key l req) k) as [Hk|_].
    2:{ eapply IH; [exact Hr| |done]. intros x Hx. apply Hd. lia. }
    destruct (Hlm Hk) as [-> ->]. cbn [increment_entry sliding_store].
    set (kept := List.filter (λ u, t - w <? u) log).
    assert (log_dominates w t kept history) as Hd'.
    { intros x Hx. unfold kept. rewrite since_filter by lia. apply Hd. lia. }
    assert (∀ extra, (length extra ≤ 1)%nat → (∀ x, (since x extra ≤ since x [t])%nat) →
            log_dominates w t (sliding_step t w log) (history ++ extra)) as Hstep.
    { intros extra _ He x Hx. unfold sliding_step. rewrite !since_app. specialize (Hd' x Hx).
      specialize (He x). unfold kept in Hd'. lia. }
    cbn [admitted omap list_omap count]. destruct (m <? Z.of_nat (length (sliding_step t w log))) eqn:E.
    + eapply (IH _ history t); [done| |done]. rewrite <- (app_nil_r history).
      apply Hstep; [cbn; lia|]. intros x. cbn. lia.
    + change (list_omap _ _ _ _) with (admitted (entry_decisions (St := SlidingStore) k es (sliding_step t w log))).
      rewrite (cons_middle t history), (assoc_L app).
      apply (IH _ (history ++ [t]) t); [done|by apply Hstep|].
      eapply sliding_admit; [lia|exact Hd'|done|].
      unfold sliding_step in E. rewrite length_app in E. fold kept in E. cbn [length] in E. apply Z.ltb_ge in E. lia.
  - destruct Hr as (Ht & _ & Hr). cbn [event_time] in *. cbn [entry_decisions].
    eapply IH; [exact Hr| |done]. intros x Hx. cbn [cleanup_entry sliding_store].
    rewrite since_filter by lia. apply Hd. lia.
Qed.

(** ** The fixed window *)

(** What is known of the admitted requests of a key at time [now]: those
    before the previous window cannot be seen by a later window of width [w]. *)
Definition fixed_inv (w m now : Z) (e : option RateLimitRecord) (history : list Z) : Prop :=
  match e with
  | None => ∃ gone prev, history = gone ++ prev ∧ Forall (λ t, t < now - w) gone ∧
                         Forall (λ t, t < now) prev ∧ Z.of_nat (length prev) ≤ m
  | Some r => ∃ gone prev cur, history = gone ++ prev ++ cur ∧
      resetTime r - w ≤ now ∧
      Forall (λ t, t < resetTime r - w - w) gone ∧ Forall (λ t, t < resetTime r - w) prev ∧
      Forall (λ t, t ≤ resetTime r) cur ∧
      Z.of_nat (length prev) ≤ m ∧ Z.of_nat (length cur) ≤ m ∧ Z.of_nat (length cur) ≤ count r
  end.

Ltac weaken_times := eapply Forall_impl; [eassumption|]; cbn; lia.

Lemma fixed_inv_later w m now now' e history :
  now ≤ now' → fixed_inv w m now e history → fixed_inv w m now' e history.
Proof.
  intros Hle. destruct e as [r|].
  - intros (gone & prev & cur & -> & H1 & H2). exists gone, prev, cur. split; [done|]. split; [lia|done].
  - intros (gone & prev & -> & Hg & Ht & Hp). exists gone, prev. split_and!; [done| | |done]; weaken_times.
Qed.

(** An expired window is as good as none. *)
Lemma fixed_inv_expired w m now r history :
  0 ≤ w → resetTime r < now → fixed_inv w m now (Some r) history → fixed_inv w m now None history.
Proof.
  intros Hw Hx (gone & prev & cur & -> & H1 & Hg & Hp & Hc & Hlp & Hlc & _).
  exists (gone ++ prev), cur. rewrite (assoc_L app). split_and!; [done| |weaken_times|done].
  apply Forall_app. split; weaken_times.
Qed.

Lemma fixed_inv_fresh w m now history :
  0 ≤ w → 0 ≤ m → fixed_inv w m now None history →
  fixed_inv w m now (Some {| count := 0; resetTime := now + w |}) history.
Proof.
  intros Hw Hm (gone & prev & -> & Hg & Ht & Hp). exists gone, prev, []. cbn.
  rewrite app_nil_r. split_and!; try (done || lia); weaken_times.
Qed.

(** The record an increment starts from. *)
Lemma fixed_step_base w m now e history :
  0 ≤ w → 0 ≤ m → fixed_inv w m now e history →
  ∃ r, fixed_step now w e = {| count := count r + 1; resetTime := resetTime r |} ∧
       now ≤ resetTime r ∧ fixed_inv w m now (Some r) history.
Proof.
  intros Hw Hm Hi. unfold fixed_step. destruct e as [r|].
  - destruct (resetTime r <? now) eqn:E.
    + exists {| count := 0; resetTime := now + w |}. split; [done|]. split; [cbn; lia|].
      apply fixed_inv_fresh; [done..|]. apply (fixed_inv_expired w m now r); (done || lia).
    + exists r. split; [done|]. split; [lia|done].
  - exists {| count := 0; resetTime := now + w |}. split; [done|]. split; [cbn; lia|].
    by apply fixed_inv_fresh.
Qed.

Lemma fixed_admit w m now r history :
  0 ≤ w → now ≤ resetTime r → count r + 1 ≤ m → fixed_inv w m now (Some r) history →
  windows_bounded w (2 * m) history →
  windows_bounded w (2 * m) (history ++ [now]) ∧
  fixed_inv w m now (Some {| count := count r + 1; resetTime := resetTime r |}) (history ++ [now]).
Proof.
  intros Hw Hnow Hcnt (gone & prev & cur & -> & H1 & Hg & Hp & Hc & Hlp & Hlc & Hlr) Hb. split.
  - apply (admit_bounded w (2 * m) now (prev ++ cur)); [done|done| |rewrite length_app; lia].
    exists gone. split; [done|weaken_times].
  - exists gone, prev, (cur ++ [now]). cbn. rewrite length_app. cbn [length].
    split_and!; try (done || lia).
    + by rewrite <- !(assoc_L app).
    + apply Forall_app. split; [done|]. by constructor.
Qed.

Lemma fixed_reject w m now r history :
  fixed_inv w m now (Some r) history →
  fixed_inv w m now (Some {| count := count r + 1; resetTime := resetTime r |}) history.
Proof.
  intros (gone & prev & cur & -> & H1 & Hg & Hp & Hc & Hlp & Hlc & Hlr).
  exists gone, prev, cur. cbn. split_and!; (done || lia).
Qed.

Lemma fixed_run_bounded k w m es e history from :
  0 ≤ w → 0 ≤ m → run_ok k w m from es →
  fixed_inv w m from e history → windows_bounded w (2 * m) history →
  windows_bounded w (2 * m) (history ++ admitted (entry_decisions (St := MemoryStore) k es e)).
Proof.
  intros Hw Hm. revert e history from. induction es as [|[l req now t|t] es IH]; intros e history from Hr Hi Hb.
  { by rewrite app_nil_r. }
  - destruct Hr as (Ht & Hlm & Hr). cbn [event_time] in *. cbn [entry_decisions].
    apply (fixed_inv_later _ _ _ t) in Hi; [|done].
    destruct (String.eqb_spec (event_key l req) k) as [Hk|_]; [|by eapply IH].
    destruct (Hlm Hk) as [-> ->]. cbn [increment_entry memory_store].
    destruct (fixed_step_base w m t e history Hw Hm Hi) as (r & -> & Hnow & Hr').
    cbn [admitted omap list_omap count]. destruct (m <? count r + 1) eqn:E.
    + eapply (IH _ history t); [done|by apply fixed_reject|done].
    + match goal with |- context [_ ++ t :: ?l] => change l with
        (admitted (entry_decisions (St := MemoryStore) k es (Some {| count := count r + 1; resetTime := resetTime r |}))) end.
      rewrite (cons_middle t history), (assoc_L app).
      destruct (fixed_admit w m t r history) as [H1 H2]; [done|done|lia|done|done|].
      by apply (IH _ (history ++ [t]) t).
  - destruct Hr as (Ht & _ & Hr). cbn [event_time] in *. cbn [entry_decisions cleanup_entry memory_store].
    apply (fixed_inv_later _ _ _ t) in Hi; [|done].
    destruct e as [r|]; [|by eapply IH]. destruct (resetTime r <? t) eqn:E; [|by eapply IH].
    eapply IH; [exact Hr| |done]. apply (fixed_inv_expired w m t r); (done || lia).
Qed.

(** ** The redirection loops *)

Lemma redis_loop_ends fuel maxR key w now replies i rc visited b :
  0 ≤ rc → maxR - rc < Z.of_nat fuel → rc ≤ maxR →
  ∃ r b' n, redis_loop fuel maxR key w now replies i rc visited b = Some (r, b', n) ∧
            (n ≤ i + Z.to_nat (maxR - rc) + 1)%nat.
Proof.
  revert i rc visited b. induction fuel as [|fuel IH]; intros i rc visited b H0 Hf Hle; [lia|].
  cbn [redis_loop]. destruct (eval_through (replies i) b) as [[[cnt pttl]|m] b1].
  { do 3 eexists. split; [done|]. lia. }
  unfold on_error. destruct (parseClusterRedirectionError m) as [rd|];
    [|do 3 eexists; split; [done|lia]].
  destruct (rc <? maxR) eqn:E; [|do 3 eexists; split; [done|lia]].
  destruct (includes (target_key rd) visited); [do 3 eexists; split; [done|lia]|].
  destruct (IH (S i) (rc + 1) (target_key rd :: visited) b1) as (r & b' & n & Hr & Hn); [lia..|].
  exists r, b', n. split; [done|]. lia.
Qed.

Lemma sliding_redis_loop_ends fuel maxT maxR key w now replies i att rc visited :
  0 ≤ rc ≤ maxR → 0 ≤ att ≤ maxT + 1 → (maxT + 1 - att) + (maxR - rc) < Z.of_nat fuel →
  ∃ r n, sliding_redis_loop fuel maxT maxR key w now replies i att rc visited = Some (r, n) ∧
         Z.of_nat n ≤ Z.of_nat i + (maxT + 1 - att) + (maxR - rc).
Proof.
  revert i att rc visited. induction fuel as [|fuel IH]; intros i att rc visited Hrc Hatt Hf; [lia|].
  cbn [sliding_redis_loop]. destruct (att <=? maxT) eqn:Ea; [|do 2 eexists; split; [done|lia]].
  assert (∃ r n, sliding_redis_loop fuel maxT maxR key w now replies (S i) (att + 1) rc visited = Some (r, n) ∧
            Z.of_nat n ≤ Z.of_nat i + (maxT + 1 - att) + (maxR - rc)) as Hnext.
  { destruct (IH (S i) (att + 1) rc visited) as (r & n & Hr & Hn); [lia..|]. exists r, n. split; [done|lia]. }
  destruct (attempt_result (replies i)) as [[cnt|m]|]; [do 2 eexists; split; [done|lia]| |done].
  assert (∃ r n, (if att =? maxT then Some (Err (Thrown m), S i)
                  else sliding_redis_loop fuel maxT maxR key w now replies (S i) (att + 1) rc visited) = Some (r, n) ∧
            Z.of_nat n ≤ Z.of_nat i + (maxT + 1 - att) + (maxR - rc)) as Hstop.
  { destruct (att =? maxT) eqn:Et; [|done]. do 2 eexists. split; [done|]. lia. }
  unfold on_error. destruct (parseClusterRedirectionError m) as [rd|]; [|done].
  destruct (rc <? maxR) eqn:E; [|done].
  destruct (includes (target_key rd) visited); [do 2 eexists; split; [done|lia]|].
  destruct (IH (S i) att (rc + 1) (target_key rd :: visited)) as (r & n & Hr & Hn); [lia..|].
  exists r, n. split; [done|lia].
Qed.

(** ** Properties *)

(** C21. No boundary burst: with the sliding store, for every key, in any
    sequence of requests (on any keys and limiters) and periodic cleanups, the
    requests of the key let through in any span of [windowMs] milliseconds
    are at most [max], as long as the window is not longer than the 15 minutes
    the cleanup keeps. *)
Theorem sliding_limit_holds k w m es start :
  0 < w ≤ DEFAULT_WINDOW_MS → 0 ≤ m → run_ok k w m start es →
  windows_bounded (w - 1) m (admitted (decisions (St := SlidingStore) k es ∅)).
Proof.
  intros Hw Hm Hr. rewrite decisions_entry.
  apply (sliding_run_bounded k w m es [] [] start); [done|done|by intros x _|].
  intros a. cbn. lia.
Qed.

(** With the fixed-window store the requests of a key let through in any
    span of [windowMs] are at most [2 * max]: the documented burst across a
    window boundary is the worst case. *)
Theorem fixed_limit_holds k w m es start :
  0 ≤ w → 0 ≤ m → run_ok k w m start es →
  windows_bounded w (2 * m) (admitted (decisions (St := MemoryStore) k es ∅)).
Proof.
  intros Hw Hm Hr. rewrite decisions_entry.
  apply (fixed_run_bounded k w m es None [] start); [done..| |].
  - exists [], []. cbn. split_and!; (done || constructor || lia).
  - intros a. cbn. lia.
Qed.

(** Isolation: with any store that implements the interface, the verdicts
    on the requests of a key are the same when all requests with other keys
    are left out of the run. *)
Theorem keys_do_not_interfere {St} `{!RateLimitStore St} k es (s : St) :
  decisions k es s = decisions k (List.filter (concerns k) es) s.
Proof. by rewrite !decisions_entry, <- entry_decisions_filter. Qed.

(** Both Redis stores answer whatever the servers reply: the fixed-window
    one after at most [maxRedirections + 1] attempts, the sliding one after at
    most [maxRetries + 1 + maxRedirections]. *)
Theorem redis_stores_answer maxT maxR key w now evals execs b :
  0 ≤ maxR → 0 ≤ maxT →
  (∃ r b' n, redis_increment (Z.to_nat maxR + 1) maxR key w now evals b = Some (r, b', n) ∧
             Z.of_nat n ≤ maxR + 1) ∧
  (∃ r n, sliding_redis_increment (Z.to_nat (maxT + maxR) + 2) maxT maxR key w now execs = Some (r, n) ∧
          Z.of_nat n ≤ maxT + 1 + maxR).
Proof.
  intros HR HT. split.
  - destruct (redis_loop_ends (Z.to_nat maxR + 1) maxR key w now evals 0 0 [] b) as (r & b' & n & Hr & Hn); [lia..|].
    exists r, b', n. split; [done|]. lia.
  - destruct (sliding_redis_loop_ends (Z.to_nat (maxT + maxR) + 2) maxT maxR key w now execs 0 0 0 [])
      as (r & n & Hr & Hn); [lia..|].
    exists r, n. split; [done|]. lia.
Qed.

(** ** Examples *)

Definition sample_request (client : string) : request :=
  {| userId := None; forwardedFor := Some client; ip := None; remoteAddress := None; routePath := Some "/login";
     path := "/login"; originalUrl := "/login"; method := "POST"; baseUrl := "/auth"; businessId := None |}.

Definition sample_limiter (w m : Z) : limiter := {| windowMs := w; max := m; bucket := BString "auth:login" |}.

Definition sample_key : string := "rate-limit:auth:login:ip:10.0.0.1".

Definition request_at (l : limiter) (t : Z) : event := Request l (sample_request "10.0.0.1, 10.9.9.9") t t.

Lemma sliding_limit_holds_witness :
  windows_bounded 99 2 [0; 10; 130].
Proof.
  refine (sliding_limit_holds sample_key 100 2
            [request_at (sample_limiter 100 2) 0; request_at (sample_limiter 100 2) 10;
             request_at (sample_limiter 100 2) 20; Cleanup 25; request_at (sample_limiter 100 2) 130] 0 _ _ _).
  - unfold DEFAULT_WINDOW_MS. lia.
  - lia.
  - cbn. split_and!; (done || lia).
Defined.

Lemma fixed_limit_holds_witness :
  windows_bounded 100 4 [90; 100; 191; 192].
Proof.
  refine (fixed_limit_holds sample_key 100 2
            [request_at (sample_limiter 100 2) 90; request_at (sample_limiter 100 2) 100;
             request_at (sample_limiter 100 2) 110; request_at (sample_limiter 100 2) 191;
             request_at (sample_limiter 100 2) 192] 0 _ _ _).
  - lia.
  - lia.
  - cbn. split_and!; (done || lia).
Defined.

Definition always_moved : nat → eval_env := λ i,
  {| at_begin := 0; at_end := 0;
     eval_reply := Err ("MOVED 1 10.0.0." +:+ show_Z (Z.of_nat i) +:+ ":6379") |}.

Lemma redis_stores_answer_witness :
  (∃ r b' n, redis_increment (Z.to_nat 5 + 1) 5 "k" 100 0 always_moved (new None None) = Some (r, b', n) ∧
             Z.of_nat n ≤ 5 + 1) ∧
  (∃ r n, sliding_redis_increment (Z.to_nat (10 + 5) + 2) 10 5 "k" 100 0 (λ _, Aborted) = Some (r, n) ∧
          Z.of_nat n ≤ 10 + 1 + 5).
Proof. apply (redis_stores_answer 10 5 "k" 100 0 always_moved (λ _, Aborted) (new None None)); lia. Defined.

(** The periodic cleanup of the sliding log keeps 15 minutes whatever the
    limiter's window: with a one-hour window and a maximum of one, a cleanup
    between two requests 16 minutes apart lets both through. *)
Theorem cleanup_forgets_long_windows :
  let hour := 60 * 60 * 1000 in
  let l := sample_limiter hour 1 in
  let second := 16 * 60 * 1000 in
  admitted (decisions (St := SlidingStore) sample_key [request_at l 0; request_at l second] ∅) = [0] ∧
  admitted (decisions (St := SlidingStore) sample_key
              [request_at l 0; Cleanup second; request_at l second] ∅) = [0; second] ∧
  ¬ windows_bounded (hour - 1) 1 [0; second].
Proof.
  split; [reflexivity|]. split; [reflexivity|]. intros H. specialize (H 0). vm_compute in H. by apply H.
Qed.
