(* ===== verification/SignupLimiter.v ===== *)
(** * Signup rate limiting: [src/utils/signupRateLimiter.ts], with
    [normalizeEmail] of [src/utils/abusePrevention.ts].

    [SignupRateLimitStore] keeps a record per client address, a record per
    e-mail address and a global record.  Every method is synchronous; a method
    takes one clock reading. *)

From S2P Require Import Prelude Numeric Hashing JsString Window.
#[local] Open Scope Z_scope.

(** ** Identifiers *)

(** The part before the first [c] and the part after it. *)
Fixpoint cut_at (c : ascii) (s : string) : option (string * string) :=
  match s with
  | EmptyString => None
  | String d r =>
      if Ascii.eqb d c then Some (EmptyString, r)
      else match cut_at c r with Some (a, b) => Some (String d a, b) | None => None end
  end.

(** [s.split(c)[0]]. *)
Definition before (c : ascii) (s : string) : string :=
  match cut_at c s with Some (a, _) => a | None => s end.

(** [s.replace(/\./g, '')]. *)
Fixpoint remove_char (c : ascii) (s : string) : string :=
  match s with
  | EmptyString => EmptyString
  | String d r => if Ascii.eqb d c then remove_char c r else String d (remove_char c r)
  end.

Definition normalizeEmail (email : string) (removeGmailDots : bool) : string :=
  let normalized := to_lower (trim email) in
  match cut_at "@" normalized with
  | None => normalized
  | Some (localPart, domain) =>
      let localPart := before "+" localPart in
      if removeGmailDots && (String.eqb domain "gmail.com" || String.eqb domain "googlemail.com")
      then remove_char "." localPart +:+ "@" +:+ domain
      else localPart +:+ "@" +:+ domain
  end.

(** [isIP6]: whether [net.isIP] answers 6. *)
Definition normalizeIp (isIP6 : string → bool) (ip : string) : string :=
  let ipOnly := if (2 <? length (split_on ":" ip))%nat then ip
                else default EmptyString (head (split_on ":" ip)) in
  let parsed := if isIP6 ipOnly then ipOnly else ip in
  if isIP6 parsed then
    match strip_prefix "::ffff:" parsed with
    | Some v4 => v4
    | None => to_lower parsed
    end
  else parsed.

(** ** Records and configuration *)

Record SignupRateRecord := {
  attemptCount : Z;
  failedAttempts : Z;
  windowStart : Z;
  expiresAt : Z;
  isBlocked : bool;
  blockReason : option string;
}.

Record SignupRateLimitConfig := {
  windowMs : Z;
  maxAttemptsPerIp : Z;
  maxAttemptsPerEmail : Z;
  maxGlobalAttempts : Z;
  blockDurationMs : Z;
  progressiveDelayThreshold : Z;
  enableProgressiveDelay : bool;
}.

Definition DEFAULT_SIGNUP_RATE_LIMIT_CONFIG : SignupRateLimitConfig :=
  {| windowMs := 60 * 60 * 1000; maxAttemptsPerIp := 5; maxAttemptsPerEmail := 3;
     maxGlobalAttempts := 1000; blockDurationMs := 24 * 60 * 60 * 1000;
     progressiveDelayThreshold := 2; enableProgressiveDelay := true |}.

Record RateLimitCheckResult := {
  allowed : bool;
  remainingAttempts : Z;
  resetIn : Z;
  r_isBlocked : bool;
  r_blockReason : option string;
  suggestedDelayMs : Z;
  h_limit : Z;
  h_remaining : Z;
  h_reset : Z;
  h_retryAfter : option Z;
}.

Abbreviation records := (gmap string SignupRateRecord).

Record store := { ipStore : records; emailStore : records; globalRecord : SignupRateRecord }.

Section Store.
Context (isIP6 : string → bool) (cfg : SignupRateLimitConfig).

Definition fresh (now : Z) : SignupRateRecord :=
  {| attemptCount := 0; failedAttempts := 0; windowStart := now; expiresAt := now + windowMs cfg;
     isBlocked := false; blockReason := None |}.

(** The global record of a new store uses the default window. *)
Definition new_store (now : Z) : store :=
  {| ipStore := ∅; emailStore := ∅;
     globalRecord := {| attemptCount := 0; failedAttempts := 0; windowStart := now;
                        expiresAt := now + windowMs DEFAULT_SIGNUP_RATE_LIMIT_CONFIG;
                        isBlocked := false; blockReason := None |} |}.

Definition live (now : Z) (e : option SignupRateRecord) : SignupRateRecord :=
  match e with
  | Some r => if expiresAt r <? now then fresh now else r
  | None => fresh now
  end.

Definition getOrCreateRecord (now : Z) (m : records) (identifier : string) : SignupRateRecord * records :=
  let r := live now (m !! identifier) in (r, <[identifier := r]> m).

(** Fetch the record and mutate it. *)
Definition update (now : Z) (identifier : string) (f : SignupRateRecord → SignupRateRecord) (m : records)
  : records :=
  let '(r, m) := getOrCreateRecord now m identifier in <[identifier := f r]> m.

Definition prune (now : Z) (m : records) : records := filter (λ '(_, r), ¬ expiresAt r < now) m.

Definition cleanup (now : Z) (s : store) : store :=
  {| ipStore := prune now (ipStore s); emailStore := prune now (emailStore s);
     globalRecord := if expiresAt (globalRecord s) <? now then fresh now else globalRecord s |}.

Definition calculateProgressiveDelay (failed : Z) : Z :=
  Z.min (1000 * 2 ^ (failed - progressiveDelayThreshold cfg)) 60000.

Definition refusal (limit : Z) (blocked : bool) (reason : string) (now : Z) (r : SignupRateRecord)
  : RateLimitCheckResult :=
  {| allowed := false; remainingAttempts := 0; resetIn := expiresAt r - now; r_isBlocked := blocked;
     r_blockReason := Some reason; suggestedDelayMs := expiresAt r - now;
     h_limit := limit; h_remaining := 0; h_reset := ceil_div (expiresAt r) 1000;
     h_retryAfter := Some (ceil_div (expiresAt r - now) 1000) |}.

Definition createBlockedResult (now : Z) (r : SignupRateRecord) (reason : string) : RateLimitCheckResult :=
  refusal 0 true reason now r.

Definition acceptance (now : Z) (ipRecord emailRecord global : SignupRateRecord) : RateLimitCheckResult :=
  let remaining := Z.min (Z.min (maxAttemptsPerIp cfg - attemptCount ipRecord)
                                (maxAttemptsPerEmail cfg - attemptCount emailRecord))
                         (maxGlobalAttempts cfg - attemptCount global) in
  let delay := if enableProgressiveDelay cfg && (progressiveDelayThreshold cfg <=? failedAttempts ipRecord)
               then calculateProgressiveDelay (failedAttempts ipRecord) else 0 in
  let reset := Z.min (Z.min (expiresAt ipRecord - now) (expiresAt emailRecord - now)) (expiresAt global - now) in
  {| allowed := true; remainingAttempts := remaining; resetIn := reset; r_isBlocked := false;
     r_blockReason := None; suggestedDelayMs := delay; h_limit := maxAttemptsPerIp cfg;
     h_remaining := remaining; h_reset := ceil_div (now + reset) 1000; h_retryAfter := None |}.

Definition checkLimit (now : Z) (ip email : string) (s : store) : RateLimitCheckResult * store :=
  let normIp := normalizeIp isIP6 ip in
  let normEmail := normalizeEmail email false in
  let '(ipRecord, ips) := getOrCreateRecord now (ipStore s) normIp in
  let '(emailRecord, emails) := getOrCreateRecord now (emailStore s) normEmail in
  let g := globalRecord s in
  (if isBlocked ipRecord then createBlockedResult now ipRecord "IP is temporarily blocked"
   else if isBlocked emailRecord then createBlockedResult now emailRecord "Email is temporarily blocked"
   else if maxGlobalAttempts cfg <=? attemptCount g then
     refusal (maxGlobalAttempts cfg) false "Global rate limit exceeded" now g
   else if maxAttemptsPerIp cfg <=? attemptCount ipRecord then
     refusal (maxAttemptsPerIp cfg) false "Too many signup attempts from this IP" now ipRecord
   else if maxAttemptsPerEmail cfg <=? attemptCount emailRecord then
     refusal (maxAttemptsPerEmail cfg) false "Too many signup attempts for this email" now emailRecord
   else acceptance now ipRecord emailRecord g,
   {| ipStore := ips; emailStore := emails; globalRecord := g |}).

Definition count_attempt (now : Z) (r : SignupRateRecord) : SignupRateRecord :=
  {| attemptCount := attemptCount r + 1; failedAttempts := failedAttempts r; windowStart := windowStart r;
     expiresAt := now + windowMs cfg; isBlocked := isBlocked r; blockReason := blockReason r |}.

Definition recordAttempt (now : Z) (ip email : string) (s : store) : store :=
  let g := globalRecord s in
  {| ipStore := update now (normalizeIp isIP6 ip) (count_attempt now) (ipStore s);
     emailStore := update now (normalizeEmail email false) (count_attempt now) (emailStore s);
     globalRecord :=
       if expiresAt g <? now then
         {| attemptCount := 1; failedAttempts := 0; windowStart := now; expiresAt := now + windowMs cfg;
            isBlocked := false; blockReason := None |}
       else {| attemptCount := attemptCount g + 1; failedAttempts := failedAttempts g;
               windowStart := windowStart g; expiresAt := expiresAt g; isBlocked := isBlocked g;
               blockReason := blockReason g |} |}.

Definition set_failed (n : Z) (r : SignupRateRecord) : SignupRateRecord :=
  {| attemptCount := attemptCount r; failedAttempts := n; windowStart := windowStart r;
     expiresAt := expiresAt r; isBlocked := isBlocked r; blockReason := blockReason r |}.

Definition set_block (reason : string) (until : Z) (r : SignupRateRecord) : SignupRateRecord :=
  {| attemptCount := attemptCount r; failedAttempts := failedAttempts r; windowStart := windowStart r;
     expiresAt := until; isBlocked := true; blockReason := Some reason |}.

Definition count_failure (now max : Z) (blockOnThreshold : bool) (r : SignupRateRecord) : SignupRateRecord :=
  let r := set_failed (failedAttempts r + 1) r in
  if blockOnThreshold && (max * 2 <=? failedAttempts r)
  then set_block "Too many failed signup attempts" (now + blockDurationMs cfg) r else r.

Definition recordFailure (now : Z) (ip email : string) (blockOnThreshold : bool) (s : store) : store :=
  {| ipStore := update now (normalizeIp isIP6 ip)
                  (count_failure now (maxAttemptsPerIp cfg) blockOnThreshold) (ipStore s);
     emailStore := update now (normalizeEmail email false)
                     (count_failure now (maxAttemptsPerEmail cfg) blockOnThreshold) (emailStore s);
     globalRecord := set_failed (failedAttempts (globalRecord s) + 1) (globalRecord s) |}.

Definition recordSuccess (ip email : string) (s : store) : store :=
  {| ipStore := alter (set_failed 0) (normalizeIp isIP6 ip) (ipStore s);
     emailStore := alter (set_failed 0) (normalizeEmail email false) (emailStore s);
     globalRecord := globalRecord s |}.

Inductive id_type := IdIp | IdEmail.

(** Apply an update to the store of the given type. *)
Definition on_store (ty : id_type) (identifier : string) (f : string → records → records) (s : store) : store :=
  match ty with
  | IdIp => {| ipStore := f (normalizeIp isIP6 identifier) (ipStore s);
               emailStore := emailStore s; globalRecord := globalRecord s |}
  | IdEmail => {| ipStore := ipStore s;
                  emailStore := f (normalizeEmail identifier false) (emailStore s);
                  globalRecord := globalRecord s |}
  end.

Definition block (now : Z) (ty : id_type) (identifier reason : string) (durationMs : option Z) (s : store)
  : store :=
  on_store ty identifier
    (λ id, update now id (set_block reason (now + default (blockDurationMs cfg) durationMs))) s.

Definition clear_block (r : SignupRateRecord) : SignupRateRecord :=
  {| attemptCount := attemptCount r; failedAttempts := failedAttempts r; windowStart := windowStart r;
     expiresAt := expiresAt r; isBlocked := false; blockReason := None |}.

Definition unblock (ty : id_type) (identifier : string) (s : store) : store :=
  on_store ty identifier (alter clear_block) s.

Record stats := {
  ipRecords : nat; emailRecords : nat; globalAttempts : Z; globalFailedAttempts : Z;
  blockedIps : nat; blockedEmails : nat }.

Definition count_blocked (m : records) : nat := size (filter (λ '(_, r), isBlocked r = true) m).

Definition getStats (s : store) : stats :=
  {| ipRecords := size (ipStore s); emailRecords := size (emailStore s);
     globalAttempts := attemptCount (globalRecord s);
     globalFailedAttempts := failedAttempts (globalRecord s);
     blockedIps := count_blocked (ipStore s); blockedEmails := count_blocked (emailStore s) |}.

Definition reset (now : Z) (s : store) : store :=
  {| ipStore := ∅; emailStore := ∅; globalRecord := fresh now |}.

(** ** Runs

    A signup checks the limit and, when it is allowed, records its attempt. *)
Inductive op :=
| OSignup (ip email : string)
| OFailure (ip email : string) (blockOnThreshold : bool)
| OSuccess (ip email : string)
| OBlock (ty : id_type) (identifier reason : string) (durationMs : option Z)
| OUnblock (ty : id_type) (identifier : string)
| OCleanup.

Definition step (now : Z) (o : op) (s : store) : bool * store :=
  match o with
  | OSignup ip email =>
      let '(r, s) := checkLimit now ip email s in
      if allowed r then (true, recordAttempt now ip email s) else (false, s)
  | OFailure ip email b => (false, recordFailure now ip email b s)
  | OSuccess ip email => (false, recordSuccess ip email s)
  | OBlock ty id reason d => (false, block now ty id reason d s)
  | OUnblock ty id => (false, unblock ty id s)
  | OCleanup => (false, cleanup now s)
  end.

(** Admitted signups, as pairs of a time and the operation. *)
Fixpoint run (ops : list (Z * op)) (s : store) : list (Z * op) * store :=
  match ops with
  | [] => ([], s)
  | (now, o) :: ops =>
      let '(ok, s) := step now o s in
      let '(adm, s) := run ops s in
      ((if ok then (now, o) :: adm else adm), s)
  end.

Definition of_ip (k : string) (e : Z * op) : option Z :=
  match e.2 with
  | OSignup ip _ => if String.eqb (normalizeIp isIP6 ip) k then Some e.1 else None
  | _ => None
  end.

Definition of_email (k : string) (e : Z * op) : option Z :=
  match e.2 with
  | OSignup _ email => if String.eqb (normalizeEmail email false) k then Some e.1 else None
  | _ => None
  end.

(** The clock does not go back, and manual blocks last at least the window. *)
Fixpoint ops_ok (from : Z) (ops : list (Z * op)) : Prop :=
  match ops with
  | [] => True
  | (now, o) :: ops =>
      from ≤ now ∧
      match o with OBlock _ _ _ (Some d) => windowMs cfg ≤ d | _ => True end ∧ ops_ok now ops
  end.
End Store.

(** ** The attempts of one identifier

    [entry_inv]: the attempts admitted for the identifier that a window ending
    at [now] or later can still see are counted by its record. *)
Section Attempts.
Context (cfg : SignupRateLimitConfig).

Definition entry_inv (now : Z) (e : option SignupRateRecord) (history : list Z) : Prop :=
  match e with
  | None => Forall (λ t, t < now - windowMs cfg) history
  | Some r => Forall (λ t, t ≤ now ∧ t + windowMs cfg ≤ expiresAt r) history ∧ 0 ≤ attemptCount r ∧
              ∃ log, log_covers (windowMs cfg) now log history ∧ Z.of_nat (length log) ≤ attemptCount r
  end.

Lemma entry_inv_later now now' e history :
  now ≤ now' → entry_inv now e history → entry_inv now' e history.
Proof.
  intros Hle. destruct e as [r|]; cbn.
  - intros (Hall & H0 & log & Hc & Hl). split_and!; [|done|].
    + eapply Forall_impl; [exact Hall|]. cbn. lia.
    + exists log. split; [by eapply log_covers_later|done].
  - intros H. eapply Forall_impl; [exact H|]. cbn. lia.
Qed.

(** An expired record has only attempts out of reach. *)
Lemma entry_inv_live now e history :
  0 ≤ windowMs cfg → entry_inv now e history → entry_inv now (Some (live cfg now e)) history.
Proof.
  intros Hw. assert (∀ h, Forall (λ t, t < now - windowMs cfg) h → entry_inv now (Some (fresh cfg now)) h) as Hfresh.
  { intros h H. split_and!; cbn; [eapply Forall_impl; [exact H|]; cbn; lia|lia|].
    exists []. split; [|cbn; lia]. exists h. by rewrite app_nil_r. }
  destruct e as [r|]; cbn [live]; [|apply Hfresh].
  intros Hi. destruct (expiresAt r <? now) eqn:E; [|done].
  apply Hfresh. destruct Hi as [Hall _]. eapply Forall_impl; [exact Hall|]. cbn. lia.
Qed.

(** A mutation that neither forgets attempts nor shortens the record's life
    below the window. *)
Definition keeps (now : Z) (f : SignupRateRecord → SignupRateRecord) : Prop :=
  ∀ r, attemptCount r ≤ attemptCount (f r) ∧
       (expiresAt r ≤ expiresAt (f r) ∨ now + windowMs cfg ≤ expiresAt (f r)).

Lemma entry_inv_keeps now f r history :
  keeps now f → entry_inv now (Some r) history → entry_inv now (Some (f r)) history.
Proof.
  intros Hf (Hall & H0 & log & Hc & Hl). destruct (Hf r) as [Ha He]. split_and!.
  - eapply Forall_impl; [exact Hall|]. cbn. lia.
  - lia.
  - exists log. split; [done|lia].
Qed.

Lemma entry_inv_admit now max r history :
  0 ≤ windowMs cfg → attemptCount r < max → entry_inv now (Some r) history →
  windows_bounded (windowMs cfg) max history →
  windows_bounded (windowMs cfg) max (history ++ [now]) ∧
  entry_inv now (Some (count_attempt cfg now r)) (history ++ [now]).
Proof.
  intros Hw Hlt (Hall & H0 & log & Hc & Hl) Hb. split; [eapply admit_bounded; try done; lia|].
  split_and!; cbn.
  - apply Forall_app. split; [|repeat constructor; lia].
    eapply Forall_impl; [exact Hall|]. cbn. lia.
  - lia.
  - exists (log ++ [now]). split; [by apply log_covers_push|]. rewrite length_app. cbn [length]. lia.
Qed.

(** ** The same on a store *)

Definition tracks (now : Z) (m : records) (k : string) (history : list Z) : Prop :=
  entry_inv now (m !! k) history.

Lemma tracks_get now m id k history :
  0 ≤ windowMs cfg → tracks now m k history → tracks now (getOrCreateRecord cfg now m id).2 k history.
Proof.
  intros Hw Ht. unfold tracks, getOrCreateRecord in *. cbn.
  destruct (decide (id = k)) as [->|Hne].
  - rewrite lookup_insert_eq. by apply entry_inv_live.
  - by rewrite lookup_insert_ne.
Qed.

Lemma update_lookup now m id f k :
  update cfg now id f m !! k = if decide (id = k) then Some (f (live cfg now (m !! k))) else m !! k.
Proof.
  unfold update, getOrCreateRecord. destruct (decide (id = k)) as [->|Hne].
  - by rewrite lookup_insert_eq.
  - by rewrite !lookup_insert_ne.
Qed.

Lemma tracks_update now m id f k history :
  0 ≤ windowMs cfg → keeps now f → tracks now m k history → tracks now (update cfg now id f m) k history.
Proof.
  intros Hw Hf Ht. unfold tracks in *. rewrite update_lookup.
  destruct (decide (id = k)) as [->|Hne]; [|done].
  apply entry_inv_keeps; [done|]. by apply entry_inv_live.
Qed.

Lemma tracks_alter now m id f k history :
  keeps now f → tracks now m k history → tracks now (alter f id m) k history.
Proof.
  intros Hf Ht. unfold tracks in *. destruct (decide (id = k)) as [->|Hne].
  - rewrite lookup_alter_eq. destruct (m !! k); [|done]. by apply entry_inv_keeps.
  - by rewrite lookup_alter_ne.
Qed.

Lemma tracks_prune now m k history :
  tracks now m k history → tracks now (prune now m) k history.
Proof.
  unfold tracks, prune. rewrite map_lookup_filter. destruct (m !! k) as [r|]; [|done].
  intros Hi. cbn. case_guard as Hr; [done|]. cbn.
  destruct Hi as [Hall _]. eapply Forall_impl; [exact Hall|]. cbn. lia.
Qed.

(** Recording an admitted attempt of [id]. *)
Lemma tracks_attempt now m id k max history :
  0 ≤ windowMs cfg → attemptCount (live cfg now (m !! id)) < max → tracks now m k history →
  windows_bounded (windowMs cfg) max history →
  let h' := history ++ (if String.eqb id k then [now] else []) in
  windows_bounded (windowMs cfg) max h' ∧
  tracks now (update cfg now id (count_attempt cfg now) (getOrCreateRecord cfg now m id).2) k h'.
Proof.
  intros Hw Hlt Ht Hb. cbn zeta. unfold tracks in *. rewrite update_lookup. cbn [getOrCreateRecord snd].
  destruct (String.eqb_spec id k) as [->|Hne].
  - rewrite decide_True by done. rewrite lookup_insert_eq.
    assert (live cfg now (Some (live cfg now (m !! k))) = live cfg now (m !! k)) as ->.
    { unfold live at 1. case_if; [|done]. exfalso. unfold live in Heqb.
      destruct (m !! k) as [r|]; [destruct (expiresAt r <? now) eqn:E; cbn in *; [lia|congruence]|cbn in *; lia]. }
    apply entry_inv_admit; [done|done| |done]. by apply entry_inv_live.
  - rewrite decide_False by done. rewrite lookup_insert_ne by done. by rewrite app_nil_r.
Qed.
End Attempts.
#[export] Hint Resolve tracks_get tracks_update tracks_alter tracks_prune : js_core.

Section Bounds.
Context (isIP6 : string → bool) (cfg : SignupRateLimitConfig).
Hypothesis window_nonneg : 0 ≤ windowMs cfg.
Hypothesis block_covers_window : windowMs cfg ≤ blockDurationMs cfg.

Lemma keeps_failure now max b : keeps cfg now (count_failure cfg now max b).
Proof. intros r. unfold count_failure. case_if; cbn; lia. Qed.

Lemma keeps_failed now n : keeps cfg now (set_failed n).
Proof. intros r. cbn. lia. Qed.

Lemma keeps_clear now : keeps cfg now clear_block.
Proof. intros r. cbn. lia. Qed.

Lemma keeps_block now reason until : now + windowMs cfg ≤ until → keeps cfg now (set_block reason until).
Proof. intros H r. cbn. lia. Qed.

(** Both stores at once, for one address and one e-mail. *)
Definition both (now : Z) (s : store) (ki ke : string) (hi he : list Z) : Prop :=
  tracks cfg now (ipStore s) ki hi ∧ tracks cfg now (emailStore s) ke he.

Definition bounded (hi he : list Z) : Prop :=
  windows_bounded (windowMs cfg) (maxAttemptsPerIp cfg) hi ∧
  windows_bounded (windowMs cfg) (maxAttemptsPerEmail cfg) he.

Definition added (ok : bool) (x : option Z) : list Z :=
  if ok then match x with Some t => [t] | None => [] end else [].

Lemma both_later now now' s ki ke hi he :
  now ≤ now' → both now s ki ke hi he → both now' s ki ke hi he.
Proof. intros Hle [H1 H2]. split; by eapply entry_inv_later. Qed.

Lemma step_other now o s ki ke hi he :
  match o with OSignup _ _ => False | OBlock _ _ _ (Some d) => windowMs cfg ≤ d | _ => True end →
  both now s ki ke hi he → both now (step isIP6 cfg now o s).2 ki ke hi he.
Proof.
  intros Ho [H1 H2].
  destruct o as [ip em|ip em b|ip em|ty id rs d|ty id|]; [done| | | | |]; cbn [step snd].
  - split; cbn [ipStore emailStore recordFailure]; auto using keeps_failure with js_core.
  - split; cbn [ipStore emailStore recordSuccess]; auto using keeps_failed with js_core.
  - assert (now + windowMs cfg ≤ now + default (blockDurationMs cfg) d) by (destruct d; cbn; lia).
    split; destruct ty; cbn [ipStore emailStore block on_store]; auto using keeps_block with js_core.
  - split; destruct ty; cbn [ipStore emailStore unblock on_store]; auto using keeps_clear with js_core.
  - split; cbn [ipStore emailStore cleanup]; auto with js_core.
Qed.

Lemma allowed_room now ip em s :
  allowed (checkLimit isIP6 cfg now ip em s).1 = true →
  attemptCount (live cfg now (ipStore s !! normalizeIp isIP6 ip)) < maxAttemptsPerIp cfg ∧
  attemptCount (live cfg now (emailStore s !! normalizeEmail em false)) < maxAttemptsPerEmail cfg.
Proof.
  unfold checkLimit, getOrCreateRecord. cbn [fst]. repeat (case_if; [done|]). intros _. lia.
Qed.

Lemma step_signup now ip em s ki ke hi he :
  both now s ki ke hi he → bounded hi he →
  let '(ok, s') := step isIP6 cfg now (OSignup ip em) s in
  both now s' ki ke (hi ++ added ok (of_ip isIP6 ki (now, OSignup ip em)))
                    (he ++ added ok (of_email ke (now, OSignup ip em))) ∧
  bounded (hi ++ added ok (of_ip isIP6 ki (now, OSignup ip em)))
          (he ++ added ok (of_email ke (now, OSignup ip em))).
Proof.
  intros [H1 H2] [B1 B2]. cbn [step].
  pose proof (allowed_room now ip em s) as Hroom.
  assert (Hs : (checkLimit isIP6 cfg now ip em s).2 =
    {| ipStore := (getOrCreateRecord cfg now (ipStore s) (normalizeIp isIP6 ip)).2;
       emailStore := (getOrCreateRecord cfg now (emailStore s) (normalizeEmail em false)).2;
       globalRecord := globalRecord s |}) by done.
  destruct (checkLimit isIP6 cfg now ip em s) as [r s1]. cbn [fst snd] in Hroom, Hs. subst s1.
  destruct (allowed r).
  - destruct (Hroom eq_refl) as [R1 R2]. clear Hroom.
    destruct (tracks_attempt cfg now (ipStore s) _ ki _ hi window_nonneg R1 H1 B1) as [I1 I2].
    destruct (tracks_attempt cfg now (emailStore s) _ ke _ he window_nonneg R2 H2 B2) as [E1 E2].
    unfold added, of_ip, of_email. cbn [fst snd].
    destruct (String.eqb (normalizeIp isIP6 ip) ki), (String.eqb (normalizeEmail em false) ke);
      (split; split; [exact I2|exact E2|exact I1|exact E1]).
  - cbn [added]. rewrite !app_nil_r. split; [split|done]; cbn [ipStore emailStore]; auto with js_core.
Qed.

Lemma added_omap ok o (f : Z * op → option Z) now (adm : list (Z * op)) :
  added ok (f (now, o)) ++ omap f adm = omap f (if ok then (now, o) :: adm else adm).
Proof. unfold added. destruct ok; [|done]. cbn. by destruct (f (now, o)). Qed.

Lemma run_bounded ops s from ki ke hi he :
  ops_ok cfg from ops → both from s ki ke hi he → bounded hi he →
  let adm := (run isIP6 cfg ops s).1 in
  bounded (hi ++ omap (of_ip isIP6 ki) adm) (he ++ omap (of_email ke) adm).
Proof.
  revert s from hi he. induction ops as [|[now o] ops IH]; intros s from hi he Hok Hb Hw; cbn [run].
  { cbn. by rewrite !app_nil_r. }
  destruct Hok as (Hle & Ho & Hok). apply (both_later from now) in Hb; [|done].
  assert (∃ ok s', step isIP6 cfg now o s = (ok, s') ∧
    both now s' ki ke (hi ++ added ok (of_ip isIP6 ki (now, o))) (he ++ added ok (of_email ke (now, o))) ∧
    bounded (hi ++ added ok (of_ip isIP6 ki (now, o))) (he ++ added ok (of_email ke (now, o))))
    as (ok & s' & Hs & Hb' & Hw').
  { destruct o as [ip em|ip em b|ip em|ty id rs d|ty id|];
      [pose proof (step_signup now ip em s ki ke hi he Hb Hw) as H;
       destruct (step isIP6 cfg now (OSignup ip em) s) as [ok s']; by exists ok, s'
      |match goal with |- context [step _ _ now ?o s] =>
         pose proof (step_other now o s ki ke hi he Ho Hb) as H end;
       eexists false, _; split; [reflexivity|]; cbn [added]; rewrite !app_nil_r; split; [exact H|done]..]. }
  rewrite Hs. specialize (IH s' now _ _ Hok Hb' Hw').
  destruct (run isIP6 cfg ops s') as [adm s2]. cbn [fst] in IH |- *.
  by rewrite <- !(assoc_L app), !added_omap in IH.
Qed.
End Bounds.

(** ** Blocks *)
Section Blocks.
Context (isIP6 : string → bool) (cfg : SignupRateLimitConfig).

(** [k] is blocked in [m] at least up to [until]. *)
Definition blocked_until (m : records) (k : string) (until : Z) : Prop :=
  ∃ r, m !! k = Some r ∧ isBlocked r = true ∧ until ≤ expiresAt r.

Lemma blocked_live now m k until :
  now ≤ until → blocked_until m k until →
  ∃ r, live cfg now (m !! k) = r ∧ m !! k = Some r ∧ isBlocked r = true ∧ until ≤ expiresAt r.
Proof.
  intros Hle (r & Hr & Hb & He). exists r. split; [|done]. rewrite Hr. cbn.
  by assert ((expiresAt r <? now) = false) as -> by lia.
Qed.

Lemma blocked_get now m id k until :
  now ≤ until → blocked_until m k until → blocked_until (getOrCreateRecord cfg now m id).2 k until.
Proof.
  intros Hle Hb. unfold getOrCreateRecord. cbn [snd]. destruct (decide (id = k)) as [->|Hne].
  - destruct (blocked_live now m k until Hle Hb) as (r & -> & _ & ? & ?). exists r.
    by rewrite lookup_insert_eq.
  - destruct Hb as (r & ? & ? & ?). exists r. by rewrite lookup_insert_ne.
Qed.

(** Mutations that keep a block in force. *)
Definition keeps_blocked (until : Z) (f : SignupRateRecord → SignupRateRecord) : Prop :=
  ∀ r, isBlocked r = true → until ≤ expiresAt r → isBlocked (f r) = true ∧ until ≤ expiresAt (f r).

Lemma blocked_update now m id f k until :
  now ≤ until → (id = k → keeps_blocked until f) → blocked_until m k until →
  blocked_until (update cfg now id f m) k until.
Proof.
  intros Hle Hf Hb. unfold blocked_until. rewrite update_lookup.
  destruct (decide (id = k)) as [->|Hne]; [|done].
  destruct (blocked_live now m k until Hle Hb) as (r & -> & _ & H1 & H2).
  exists (f r). split; [done|]. by apply Hf.
Qed.

Lemma blocked_alter m id f k until :
  (id = k → keeps_blocked until f) → blocked_until m k until → blocked_until (alter f id m) k until.
Proof.
  intros Hf (r & Hr & H1 & H2). destruct (decide (id = k)) as [->|Hne].
  - exists (f r). rewrite lookup_alter_eq, Hr. split; [done|]. by apply Hf.
  - exists r. by rewrite lookup_alter_ne.
Qed.

Lemma blocked_prune now m k until :
  now ≤ until → blocked_until m k until → blocked_until (prune now m) k until.
Proof.
  intros Hle (r & Hr & H1 & H2). exists r. split; [|done]. unfold prune.
  rewrite map_lookup_filter, Hr. cbn. case_guard; [done|lia].
Qed.

(** The operations that may lift or shorten a block of the address [k]. *)
Definition spares_block (k : string) (until now : Z) (o : op) : Prop :=
  match o with
  | OBlock IdIp id _ d => normalizeIp isIP6 id = k → until ≤ now + default (blockDurationMs cfg) d
  | OUnblock IdIp id => normalizeIp isIP6 id ≠ k
  | _ => True
  end.

Lemma refused_while_blocked now ip em s until :
  now ≤ until → blocked_until (ipStore s) (normalizeIp isIP6 ip) until →
  allowed (checkLimit isIP6 cfg now ip em s).1 = false ∧
  r_isBlocked (checkLimit isIP6 cfg now ip em s).1 = true.
Proof.
  intros Hle Hb. unfold checkLimit, getOrCreateRecord. cbn [fst].
  destruct (blocked_live now _ _ until Hle Hb) as (r & -> & _ & -> & _). done.
Qed.

Lemma step_keeps_block now o s k until :
  now ≤ until → until ≤ now + blockDurationMs cfg → spares_block k until now o →
  blocked_until (ipStore s) k until →
  blocked_until (ipStore (step isIP6 cfg now o s).2) k until.
Proof.
  intros Hle Hdur Ho Hb. destruct o as [ip em|ip em b|ip em|ty id rs d|ty id|]; cbn [step snd].
  - pose proof (refused_while_blocked now ip em s until Hle) as Href.
    assert (Hs : ipStore (checkLimit isIP6 cfg now ip em s).2 =
                 (getOrCreateRecord cfg now (ipStore s) (normalizeIp isIP6 ip)).2) by done.
    destruct (checkLimit isIP6 cfg now ip em s) as [r s1]. cbn [fst snd] in *.
    assert (blocked_until (ipStore s1) k until) as Hb1 by (rewrite Hs; by apply blocked_get).
    destruct (allowed r) eqn:Ea; [|done]. cbn [snd recordAttempt ipStore].
    apply blocked_update; [done| |done]. intros Hk. subst k. destruct (Href Hb) as [? _]. congruence.
  - cbn [recordFailure ipStore]. apply blocked_update; [done| |done]. intros _ r H1 H2.
    unfold count_failure. case_if; cbn; [split; [done|lia]|done].
  - cbn [recordSuccess ipStore]. apply blocked_alter; [|done]. by intros _ r H1 H2.
  - destruct ty; cbn [block on_store ipStore]; [|done]. apply blocked_update; [done| |done].
    intros Hk r _ _. cbn. split; [done|]. by apply Ho.
  - destruct ty; cbn [unblock on_store ipStore]; [|done]. apply blocked_alter; [|done].
    intros Hk. by destruct (Ho Hk).
  - cbn [cleanup ipStore]. by apply blocked_prune.
Qed.

(** The operations run between [from] and [until] and spare the block. *)
Fixpoint spared (k : string) (until from : Z) (ops : list (Z * op)) : Prop :=
  match ops with
  | [] => True
  | (now, o) :: ops =>
      from ≤ now ∧ now ≤ until ∧ spares_block k until now o ∧ spared k until now ops
  end.

Lemma run_keeps_block ops s k until from :
  until ≤ from + blockDurationMs cfg → spared k until from ops →
  blocked_until (ipStore s) k until → blocked_until (ipStore (run isIP6 cfg ops s).2) k until.
Proof.
  revert s from. induction ops as [|[now o] ops IH]; intros s from Hd Hs Hb; [done|].
  destruct Hs as (H1 & H2 & H3 & Hs). cbn [run].
  pose proof (step_keeps_block now o s k until H2 ltac:(lia) H3 Hb) as Hb1.
  destruct (step isIP6 cfg now o s) as [ok s1]. cbn [snd] in Hb1.
  specialize (IH s1 now ltac:(lia) Hs Hb1). by destruct (run isIP6 cfg ops s1).
Qed.
End Blocks.

(** ** Properties *)

(** In any sequence of signups, failures, successes, blocks, unblocks and
    cleanups on a new store, the signups let through from one normalised
    address are at most [maxAttemptsPerIp], and those for one normalised
    e-mail at most [maxAttemptsPerEmail], in every span of [windowMs], when
    blocks last at least the window. *)
Theorem signups_within_limits isIP6 cfg ops start ki ke :
  0 ≤ windowMs cfg → windowMs cfg ≤ blockDurationMs cfg →
  0 ≤ maxAttemptsPerIp cfg → 0 ≤ maxAttemptsPerEmail cfg → ops_ok cfg start ops →
  let admitted := (run isIP6 cfg ops (new_store start)).1 in
  windows_bounded (windowMs cfg) (maxAttemptsPerIp cfg) (omap (of_ip isIP6 ki) admitted) ∧
  windows_bounded (windowMs cfg) (maxAttemptsPerEmail cfg) (omap (of_email ke) admitted).
Proof.
  intros Hw Hbl Hi He Hok.
  apply (run_bounded isIP6 cfg Hw Hbl ops (new_store start) start ki ke [] []); [done|split; constructor|].
  split; intros a; cbn; lia.
Qed.

(** A block of a client address stays in force until its end: after
    [block] at [t0] for [d] (at most [blockDurationMs]), whatever signups,
    failures, successes, cleanups and blocks of at least that end follow, as
    long as the address is not unblocked, a check of that address up to
    [t0 + d] is refused as blocked, for every e-mail. *)
Theorem block_lasts isIP6 cfg s t0 ip reason d ops t em :
  0 ≤ d ≤ blockDurationMs cfg → t ≤ t0 + d →
  spared isIP6 cfg (normalizeIp isIP6 ip) (t0 + d) t0 ops →
  let s' := (run isIP6 cfg ops (block isIP6 cfg t0 IdIp ip reason (Some d) s)).2 in
  allowed (checkLimit isIP6 cfg t ip em s').1 = false ∧
  r_isBlocked (checkLimit isIP6 cfg t ip em s').1 = true.
Proof.
  intros Hd Ht Hs. apply (refused_while_blocked _ _ _ _ _ _ (t0 + d)); [done|].
  apply (run_keeps_block _ _ _ _ _ _ t0); [lia|done|].
  unfold block, on_store, blocked_until. cbn [ipStore]. rewrite update_lookup, decide_True by done.
  eexists. split; [reflexivity|]. cbn. split; [done|lia].
Qed.

Definition not_ip6 : string → bool := λ s, (2 <? length (split_on ":" s))%nat.

Lemma signups_within_limits_witness :
  let cfg := DEFAULT_SIGNUP_RATE_LIMIT_CONFIG in
  let ops := [(0, OSignup "10.0.0.1" "a@x.io"); (1, OSignup "10.0.0.1" "A+t@x.io");
              (2, OSignup "10.0.0.1" " a@x.io"); (3, OSignup "10.0.0.2" "a@x.io")] in
  omap (of_email "a@x.io") (run not_ip6 cfg ops (new_store 0)).1 = [0; 1; 2] ∧
  windows_bounded 3600000 3 [0; 1; 2].
Proof.
  intros cfg ops. split; [reflexivity|].
  exact (proj2 (signups_within_limits not_ip6 cfg ops 0 "10.0.0.1" "a@x.io"
    ltac:(cbn; lia) ltac:(cbn; lia) ltac:(cbn; lia) ltac:(cbn; lia) ltac:(cbn; split_and!; (done || lia)))).
Defined.

Lemma block_lasts_witness :
  let cfg := DEFAULT_SIGNUP_RATE_LIMIT_CONFIG in
  let s := run not_ip6 cfg [(5, OSignup "10.0.0.1" "a@x.io"); (9, OFailure "10.0.0.1" "b@x.io" true)]
             (block not_ip6 cfg 0 IdIp "10.0.0.1" "abuse" (Some 100) (new_store 0)) in
  r_isBlocked (checkLimit not_ip6 cfg 100 "10.0.0.1" "c@x.io" s.2).1 = true.
Proof.
  intros cfg s.
  apply (block_lasts not_ip6 cfg (new_store 0) 0 "10.0.0.1" "abuse" 100
           [(5, OSignup "10.0.0.1" "a@x.io"); (9, OFailure "10.0.0.1" "b@x.io" true)] 100 "c@x.io").
  - cbn. lia.
  - lia.
  - cbn. split_and!; (done || lia).
Defined.
