(* ===== verification/AbusePrevention.v ===== *)
(** * Sign-up heuristics: [src/utils/abusePrevention.ts].

    Validation of e-mail addresses and passwords.  Strings are ASCII; the
    quotients and products the source compares with decimal fractions are
    exact enough at string lengths for the comparison of integers used here.
    [normalizeEmail] is in [SignupLimiter]; [calculateBackoffDelay], which
    nothing calls, and [addTimingDelay], which only waits, are left out. *)

From S2P Require Import Prelude Numeric Hashing JsString Collections.
From S2P Require Import SignupLimiter.
#[local] Open Scope Z_scope.

(** ** Lists *)

Definition DISPOSABLE_EMAIL_DOMAINS : list string := [
    "10minutemail.com"; "10minutemail.net"; "10minutemail.org"; "10minute-mail.com"; "tempmail.com";
    "temp-mail.org"; "temp-mail.com"; "temporary-mail.org"; "guerrillamail.com"; "guerrillamail.org";
    "guerrillamail.net"; "guerrillamail.info"; "mailinator.com"; "mailinator.net"; "mailinator.org";
    "throwaway.email"; "throwawaymail.com"; "throwawaymail.org"; "fakeinbox.com"; "fakeinbox.org";
    "maildrop.cc"; "maildrop.org"; "getairmail.com"; "getairmail.org"; "yopmail.com"; "yopmail.fr";
    "yopmail.net"; "emailondeck.com"; "spambox.us"; "spamfree24.org"; "spamfree24.com"; "dispostable.com";
    "mailnesia.com"; "mintemail.com"; "mohmal.com"; "mytemp.email"; "mytempemail.com"; "tempail.com";
    "tempinbox.com"; "tempm.com"; "tempmailer.com"; "trashmail.com"; "trashmail.org"; "trashmail.net";
    "guerrillamailblock.com"; "pokemail.net"; "sharklasers.com"; "grr.la"; "guerrillamail.de";
    "guerrillamail.es"; "guerrillamail.eu"; "mail.com"; "email.com"; "mail.org"; "bumpymail.com";
    "cashflow35.com"; "crossover.net"; "deadaddress.com"; "docfiles.org"; "drivetagdev.com"; "dropcake.de";
    "dropmail.me"; "duck2.club"; "e-mail.com"; "e-mail.org"; "email.net"; "emailfake.com"; "emailsensei.com";
    "emailfake.net"; "emailfreedom.com"; "emailgenerator.de"; "emailgo.de"; "emailizable.com";
    "emailmenow.info"; "emailproxsy.com"; "emailsingularity.net"; "emailtech.info"; "emailtemporanea.com";
    "emailtemporar.ro"; "emailtmp.com"; "emailure.net"; "emailzombie.com"; "emz.net"; "enterto.com";
    "ephemail.net"; "etranquil.com"; "etranquil.net"; "etranquil.org"; "evopo.com"; "explodemail.com";
    "express.net.ua"; "extreme14.com"; "fake-email.com"; "fake-mail.com"; "fakedemail.com"; "fakeinbox.info";
    "fakemail.fr"; "fakemailgenerator.com"; "fakemailz.com"; "fallinhay.com"; "fantasymail.de"; "fast-mail.org";
    "fastacuras.com"; "fastchevy.com"; "fastchrysler.com"; "fastkawasaki.com"; "fastmazda.com";
    "fastmitsubishi.com"; "fastnissan.com"; "fastsubaru.com"; "fastsuzuki.com"; "fasttoyota.com";
    "fastyamaha.com"; "fatflap.com"; "fdfdsfds.com"; "fightallspam.com"; "fiifke.de"; "filbert4u.com";
    "filberts4u.com"; "flowu.com"; "footard.com"; "forecastertests.com"; "forgetmail.com"; "fornow.eu";
    "forspam.net"; "foxja.com"; "foxtrotter.info"; "free-email.to"; "free-mail.cc"; "free-mail.com";
    "freealt.net"; "freebullets.com"; "freecat.net"; "freedom4you.net"; "freefattymovies.com";
    "freehotmail.net"; "freeinbox.email"; "freelance-france.eu"; "freemail1997.com"; "freemailhq.com";
    "freeplumpervideos.com"; "freemail.org"; "freeschool.org"; "freeshipping.org"; "freeteek.com";
    "freezepea.com"; "freundin.ru"; "front14.org"; "ftp.sh"; "ftpaccess.cc"; "ftpinc.ca"; "fuckedcompany.com";
    "fullangle.org"; "fullmarkz.com"; "funnycollection.com"; "funnycrap.com"; "furz.com"; "fxnxs.com";
    "fyii.de"; "g.hmail.us"; "g4hdrop.us"; "gafy.net"; "galaxy.tv"; "gally.jp"; "gamail.com"; "game.com";
    "gamequeer.com"; "gamg.ru"; "garasikomputer.com"; "garbage.com"; "garbagemail.org"; "garliclife.com";
    "garrifulio.mailexpire.com"; "garrymoo.org"; "gav0.com"; "gbcmail.win"; "gcmail.org"; "gdmail.top";
    "gedmail.win"; "geezmail.ga"; "gegeweb.com"; "geldwaschmaschine.de"; "gelitik.in"; "gen.uu.gl";
    "genmail.gen.in"; "geronra.com"; "geschent.biz"; "get-mail.org"; "get.pp.ua"; "get1mail.com"; "get2mail.fr";
    "getairmail.cf"; "getairmail.ga"; "getairmail.gq"; "getairmail.ml"; "getairmail.tk"; "geteit.com";
    "getfun.men"; "getmails.eu"; "getnanny.com"; "getnowtoday.com"; "getsimpleemail.com"; "gett.icu";
    "gexik.com"; "ggmal.ml"; "giantmail.de"; "ginzi.be"; "ginzi.co.uk"; "ginzi.es"; "ginzi.net"; "ginzi.org";
    "ginzi.us"; "girlsalbum.com"; "girlx.org"; "giveh2o.com"; "givememail.org"; "givmail.com"; "gixenmixen.com";
    "glitch.sx"; "globaltourtravel.com"; "glubex.com"; "glucosegrin.com"; "gmal.com"; "gmatch.org"; "gmial.com";
    "gmx.us.com"; "gnctr-calgari.com"; "gnctr-denizli.com"; "go.irc.so"; "go2site.com"; "go2vn.com";
    "goemailgo.com"; "golem.zgu.de"; "gomail.pgojual.com"; "gomail2020.com"; "gonrei.de"; "goooogle.com";
    "goplaygame.nl"; "gorillaswithdirtyarmpits.com"; "goround.info"; "gosuslugi-spravka.ru"; "gothere4.com";
    "gotmail.com"; "gotmail.net"; "gotmail.org"; "gowikibooks.com"; "gowikicampus.com"; "gowikicars.com";
    "gowikifilms.com"; "gowikigames.com"; "gowikimusic.com"; "gowikinetwork.com"; "gowikitravel.com";
    "gowikitv.com"; "grandmamail.com"; "grandmasmail.com"; "great-host.in"; "greencafe24.com"; "greendays.com";
    "greenhousemail.com"; "greensloth.com"; "greggamel.com"; "greggamel.net"; "gregorsky.zone";
    "gregorygamel.com"; "gregorygamel.net"; "grish.de"; "griuc.schule"; "grobmail.com"; "grossmail.com";
    "groupbuffet.com"; "grugrug.ru"; "gruz-m.ru"; "gs-6976.myds.me"; "gsx2.ga"; "gudanglowongan.com";
    "guerrillamail.au"; "guerrillamail.hu"; "guerrillamail.jp"; "guerrillamail.ru"; "guerrillamail.se";
    "guerrillamail.us"; "guerrillamail.co"; "guerrillamail.nl"; "guerrillamail.pl"; "guerrillamail.co.uk";
    "guerrillamail.com.de"; "guerrillamail.de.com"; "guerrillamail.org"; "guerrillamail.info";
    "guerrillamail.net"; "guerrillamail.biz"; "guerrillamail.org"
].

Definition COMMON_WEAK_PASSWORDS : list string := [
    "password"; "password1"; "password123"; "password123!"; "password1234"; "password12345"; "123456";
    "1234567"; "12345678"; "123456789"; "1234567890"; "password123!"; "password1234!"; "qwerty"; "qwerty123";
    "qwertyuiop"; "abc123"; "letmein"; "welcome"; "welcome1"; "admin"; "admin123"; "administrator"; "root";
    "toor"; "login"; "login123"; "passw0rd"; "iloveyou"; "monkey"; "dragon"; "master"; "master123"; "sunshine";
    "princess"; "football"; "baseball"; "soccer"; "hockey"; "batman"; "superman"; "trustno1"; "shadow";
    "shadow123"; "ashley"; "bailey"; "passw0rd"; "qwertyuiop"; "mustang"; "michael"; "jennifer"; "jordan";
    "hunter"; "hunter2"; "amanda"; "summer"; "love"; "hello"; "hello123"; "charlie"; "donald"; "password!";
    "qwerty1"; "whatever"; "freedom"; "nothing"; "cheese"; "computer"; "starwars"
].

Record EmailValidationResult := {
  e_isValid : bool; normalizedEmail : string; domain : string; e_errors : list string; e_warnings : list string;
  isDisposable : bool; isSuspicious : bool; suspicionScore : Z
}.

Record PasswordValidationResult := {
  p_isValid : bool; p_errors : list string; p_warnings : list string; strengthScore : Z
}.

Record AbusePreventionConfig := {
  minPasswordLength : Z; maxPasswordLength : Z; requireUppercase : bool; requireLowercase : bool;
  requireNumbers : bool; requireSpecialChars : bool; blockDisposableEmails : bool; maxEmailLength : Z;
  suspiciousPatternThreshold : Z
}.

Definition DEFAULT_ABUSE_PREVENTION_CONFIG : AbusePreventionConfig :=
  {| minPasswordLength := 8; maxPasswordLength := 128; requireUppercase := true; requireLowercase := true;
     requireNumbers := true; requireSpecialChars := true; blockDisposableEmails := true; maxEmailLength := 254;
     suspiciousPatternThreshold := 50 |}.

(** ** Strings *)

Definition len (s : string) : Z := Z.of_nat (String.length s).

Fixpoint string_existsb (p : ascii → bool) (s : string) : bool :=
  match s with EmptyString => false | String c r => p c || string_existsb p r end.

Fixpoint count_chars (p : ascii → bool) (s : string) : Z :=
  match s with EmptyString => 0 | String c r => (if p c then 1 else 0) + count_chars p r end.

(** [new Set(s).size] *)
Fixpoint distinct_chars (s : string) : Z :=
  match s with
  | EmptyString => 0
  | String c r => (if string_existsb (Ascii.eqb c) r then 0 else 1) + distinct_chars r
  end.

(** The part after the last [c]. *)
Fixpoint after_last (c : ascii) (s : string) : option string :=
  match s with
  | EmptyString => None
  | String d r => match after_last c r with
                  | Some t => Some t
                  | None => if Ascii.eqb d c then Some r else None
                  end
  end.

(** [s.split(".").pop()] *)
Definition last_segment (s : string) : string := default s (after_last "." s).

Definition starts_with (p s : string) : bool := match strip_prefix p s with Some _ => true | None => false end.

Definition ends_with_at (s : string) : bool :=
  match after_last "@" s with Some EmptyString => true | _ => false end.

Fixpoint rev_string (s : string) : string :=
  match s with EmptyString => EmptyString | String c r => rev_string r +:+ String c EmptyString end.

(** A run of [k] more characters of the class. *)
Fixpoint has_run (p : ascii → bool) (k : nat) (s : string) : bool :=
  match k with
  | O => true
  | S k => match s with EmptyString => false | String c r => p c && has_run p k r end
  end.

Fixpoint somewhere (p : string → bool) (s : string) : bool :=
  p s || match s with EmptyString => false | String _ r => somewhere p r end.

(** ** E-mail addresses *)

Definition extractEmailDomain (email : string) : string :=
  let normalized := normalizeEmail email false in
  match after_last "@" normalized with Some d => d | None => EmptyString end.

Definition isDisposableDomain (d : string) : bool := includes (to_lower d) DISPOSABLE_EMAIL_DOMAINS.

(** The negated class of the source: no white space, and none of at sign,
    quote, angle brackets, parentheses, square brackets, backslash, comma,
    semicolon, colon. *)
Definition email_char (c : ascii) : bool :=
  negb (is_space c || bool_decide (code c ∈ [64; 34; 60; 62; 40; 41; 91; 93; 92; 44; 59; 58])).

(** A dot with something before and behind it. *)
Definition inner_dot (s : string) : bool :=
  match s with
  | EmptyString => false
  | String _ r => somewhere (λ t, match t with String "." (String _ _) => true | _ => false end) r
  end.

Definition emailRegex (s : string) : bool :=
  match cut_at "@" s with
  | None => false
  | Some (a, b) => negb (is_empty a) && string_forallb email_char a && string_forallb email_char b && inner_dot b
  end.

Definition is_consonant (c : ascii) : bool :=
  in_range 97 122 (lower_char c) && negb (bool_decide (code (lower_char c) ∈ [97; 101; 105; 111; 117])).
Definition is_vowel (c : ascii) : bool := bool_decide (code (lower_char c) ∈ [97; 101; 105; 111; 117]).

Definition looksLikeRandomString (s : string) : bool :=
  if len s <? 8 then false
  else
    let consonants := count_chars is_consonant s in
    let vowels := count_chars is_vowel s in
    if (vowels =? 0) && (6 <? consonants) then true
    else
      let uniqueChars := distinct_chars (to_lower s) in
      if (10 <? len s) && (4 * len s <? 5 * uniqueChars) then true
      else somewhere (has_run is_consonant 4) s.

Definition hasRepeatingPattern (s : string) : bool :=
  let lower := to_lower s in
  existsb (λ n, starts_with (String.substring 0 n lower) (String.substring n (String.length lower) lower))
          (seq 3 (Z.to_nat (len s / 2 - 2))) ||
  string_existsb (λ c, len s <? 2 * count_chars (Ascii.eqb c) lower) lower.

(** An error or warning, when its condition holds. *)
Definition when (b : bool) (m : string) : list string := if b then [m] else [].

Definition validateEmail (email : string) (cfg : AbusePreventionConfig) : EmailValidationResult :=
  if is_empty email then
    {| e_isValid := false; normalizedEmail := EmptyString; domain := EmptyString; e_errors := ["Email is required"];
       e_warnings := []; isDisposable := false; isSuspicious := false; suspicionScore := 100 |}
  else
    let normalized := normalizeEmail email false in
    let d := extractEmailDomain normalized in
    let disposable := blockDisposableEmails cfg && isDisposableDomain d in
    let errors :=
      when (maxEmailLength cfg <? len normalized) ("Email must not exceed " +:+ show_Z (maxEmailLength cfg) +:+ " characters") ++
      when (negb (emailRegex normalized)) "Invalid email format" ++
      when (starts_with "@" normalized || ends_with_at normalized) "Email cannot start or end with @" ++
      when (contains "@@" normalized) "Email cannot contain consecutive @ symbols" ++
      (if is_empty d then ["Email must have a valid domain"]
       else when (negb (contains "." d) || (len (last_segment d) <? 2)) "Email domain must have a valid TLD" ++
            when disposable "Disposable email addresses are not allowed") in
    let localPart := before "@" normalized in
    let long := 64 <? len localPart in
    let random := looksLikeRandomString localPart in
    let numeric := negb (is_empty localPart) && string_forallb is_digit localPart in
    let repeating := hasRepeatingPattern localPart in
    let score := (if negb (is_empty d) && disposable then 80 else 0) + (if long then 20 else 0) +
                 (if random then 30 else 0) + (if numeric then 40 else 0) + (if repeating then 15 else 0) in
    {| e_isValid := (length errors =? 0)%nat; normalizedEmail := normalized; domain := d; e_errors := errors;
       e_warnings := when long "Email local part is unusually long" ++
                     when random "Email local part appears randomly generated" ++
                     when numeric "Email local part consists only of numbers" ++
                     when repeating "Email contains repeating patterns";
       isDisposable := isDisposableDomain d;
       isSuspicious := suspiciousPatternThreshold cfg <=? score; suspicionScore := score |}.

(** ** Passwords *)

Fixpoint hasSequential (s : string) : bool :=
  match s with
  | String a ((String b (String c _)) as r) =>
      ((code b =? code a + 1) && (code c =? code b + 1)) || ((code b =? code a - 1) && (code c =? code b - 1)) ||
      hasSequential r
  | _ => false
  end.

Definition hasSequentialChars (s : string) : bool := hasSequential (to_lower s).

Definition keyboard_patterns : list string :=
  ["qwerty"; "asdfgh"; "zxcvbn"; "qwertz"; "azerty"; "12345"; "54321"; "09876"].

Definition hasKeyboardPattern (s : string) : bool :=
  let lower := to_lower s in
  existsb (λ p, contains p lower || contains (rev_string p) lower) keyboard_patterns.

Definition is_upper (c : ascii) : bool := in_range 65 90 c.
Definition is_lower (c : ascii) : bool := in_range 97 122 c.

(** The class of special characters: the printable ASCII characters other
    than letters, digits and the space. *)
Definition is_special (c : ascii) : bool :=
  in_range 33 47 c || in_range 58 64 c || in_range 91 96 c || in_range 123 126 c.

(** One requirement: its errors and its share of the score. *)
Definition require (required has : bool) (m : string) (points : Z) : list string * Z :=
  if required && negb has then ([m], 0) else if has then ([], points) else ([], 0).

Definition validatePassword (password : string) (cfg : AbusePreventionConfig) : PasswordValidationResult :=
  if is_empty password then
    {| p_isValid := false; p_errors := ["Password is required"]; p_warnings := []; strengthScore := 0 |}
  else
    let n := len password in
    let short := n <? minPasswordLength cfg in
    let '(e1, s1) := require (requireUppercase cfg) (string_existsb is_upper password)
                       "Password must contain at least one uppercase letter" 15 in
    let '(e2, s2) := require (requireLowercase cfg) (string_existsb is_lower password)
                       "Password must contain at least one lowercase letter" 15 in
    let '(e3, s3) := require (requireNumbers cfg) (string_existsb is_digit password)
                       "Password must contain at least one number" 15 in
    let '(e4, s4) := require (requireSpecialChars cfg) (string_existsb is_special password)
                       "Password must contain at least one special character" 15 in
    let common := includes (to_lower password) COMMON_WEAK_PASSWORDS in
    let sequential := hasSequentialChars password in
    let keyboard := hasKeyboardPattern password in
    let errors :=
      when short ("Password must be at least " +:+ show_Z (minPasswordLength cfg) +:+ " characters") ++
      when (maxPasswordLength cfg <? n) ("Password must not exceed " +:+ show_Z (maxPasswordLength cfg) +:+ " characters") ++
      e1 ++ e2 ++ e3 ++ e4 ++
      when common "Password is too common. Please choose a more unique password" ++
      when sequential "Password must not contain sequential characters (e.g., 'abc', '123')" ++
      when keyboard "Password must not contain keyboard patterns (e.g., 'qwerty')" in
    let score := (if short then 0 else 20) + s1 + s2 + s3 + s4 in
    let score := if common then Z.min score 10 else score in
    let score := if sequential then score - 10 else score in
    let score := if keyboard then score - 10 else score in
    let score := if 12 <=? n then score + 10 else score in
    let score := if 16 <=? n then score + 10 else score in
    let uniqueChars := distinct_chars (to_lower password) in
    let score := if 3 * n <=? 5 * uniqueChars then score + 10 else score in
    {| p_isValid := (length errors =? 0)%nat; p_errors := errors; p_warnings := [];
       strengthScore := Z.max 0 (Z.min 100 score) |}.

(** ** Comparison *)

(** The loop over strings of one length. *)
Fixpoint xor_loop (a b : string) (result : Z) : Z :=
  match a, b with
  | String c a, String d b => xor_loop a b (Z.lor result (Z.lxor (code c) (code d)))
  | _, _ => result
  end.

Definition timingSafeEqual (a b : string) : bool :=
  if negb (String.length a =? String.length b)%nat then false else xor_loop a b 0 =? 0.

Definition getDisposableEmailStats : Z := Z.of_nat (length (remove_dups DISPOSABLE_EMAIL_DOMAINS)).
Definition getWeakPasswordStats : Z := Z.of_nat (length (remove_dups COMMON_WEAK_PASSWORDS)).

Example good_password : validatePassword "Tr0ub4dor&3x" DEFAULT_ABUSE_PREVENTION_CONFIG =
  {| p_isValid := true; p_errors := []; p_warnings := []; strengthScore := 100 |}.
Proof. vm_compute. reflexivity. Qed.
Example disposable_address :
  e_errors (validateEmail " X+y@Mailinator.com" DEFAULT_ABUSE_PREVENTION_CONFIG) =
  ["Disposable email addresses are not allowed"].
Proof. vm_compute. reflexivity. Qed.

(** ** Lemmas *)

Lemma cut_at_spec c s a b : cut_at c s = Some (a, b) → s = a +:+ String c b ∧ lacks c a = true.
Proof.
  revert a. induction s as [|d s IH]; intros a; cbn; [done|]. destruct (Ascii.eqb_spec d c) as [->|Hd].
  - by intros [= <- <-].
  - destruct (cut_at c s) as [[x y]|]; [|done]. intros [= <- <-]. destruct (IH x eq_refl) as [-> Hx].
    split; [done|]. unfold lacks. cbn. by rewrite (proj2 (Ascii.eqb_neq d c) Hd).
Qed.

Lemma cut_at_app c (a b : string) : lacks c a = true → cut_at c (a +:+ String c b) = Some (a, b).
Proof.
  induction a as [|d a IH]; intros Ha.
  - change (EmptyString +:+ String c b) with (String c b). cbn. by rewrite Ascii.eqb_refl.
  - rewrite string_cons_app. unfold lacks in Ha. cbn in Ha |- *. apply andb_true_iff in Ha as [Hd Ha].
    apply negb_true_iff in Hd. rewrite Hd. unfold lacks in IH. by rewrite IH.
Qed.

Lemma cut_at_None c s : lacks c s = true → cut_at c s = None.
Proof.
  induction s as [|d s IH]; [done|]. unfold lacks. cbn. intros [Hd Hs]%andb_true_iff.
  apply negb_true_iff in Hd. rewrite Hd. by rewrite IH.
Qed.

Lemma before_lacks c s : lacks c (before c s) = true.
Proof.
  unfold before. destruct (cut_at c s) as [[a b]|] eqn:E; [by apply cut_at_spec in E as [_ H]|].
  induction s as [|d s IH]; [done|]. cbn in E. unfold lacks. cbn. destruct (Ascii.eqb d c); [done|].
  destruct (cut_at c s) as [[]|]; [done|]. exact (IH eq_refl).
Qed.

Lemma before_fixed c s : lacks c s = true → before c s = s.
Proof. intros H. unfold before. by rewrite cut_at_None. Qed.

(** Characters of [before c s] are characters of [s]. *)
Lemma before_forallb p c s : string_forallb p s = true → string_forallb p (before c s) = true.
Proof.
  unfold before. destruct (cut_at c s) as [[a b]|] eqn:E; [|done]. apply cut_at_spec in E as [-> _].
  rewrite string_forallb_app. by intros [H _]%andb_true_iff.
Qed.

Lemma email_char_no_space c : email_char c = true → is_space c = false.
Proof. unfold email_char. by destruct (is_space c). Qed.

(** The parts of a normalised address. *)
Lemma normalizeEmail_parts e l d :
  cut_at "@" (normalizeEmail e false) = Some (l, d) →
  lacks "+" l = true ∧ string_forallb is_lowered l = true ∧ string_forallb is_lowered d = true.
Proof.
  unfold normalizeEmail. cbn [andb]. pose proof (to_lower_lowered (trim e)) as Hlow.
  destruct (cut_at "@" (to_lower (trim e))) as [[a b]|] eqn:E; [|congruence].
  apply cut_at_spec in E as [E Ha]. rewrite E, string_forallb_app in Hlow. apply andb_true_iff in Hlow as [Hla Hlb].
  change (before "+" a +:+ "@" +:+ b) with (before "+" a +:+ String "@" b).
  rewrite cut_at_app by by apply before_forallb. intros [= <- <-]. cbn in Hlb.
  split_and!; [apply before_lacks|by apply before_forallb|done].
Qed.

Lemma when_nil b m : when b m = [] ↔ b = false.
Proof. by destruct b. Qed.

Lemma app_nil_iff {A} (a b : list A) : a ++ b = [] ↔ a = [] ∧ b = [].
Proof. split; [apply app_eq_nil|by intros [-> ->]]. Qed.

Lemma require_nil r h m n : (require r h m n).1 = [] ↔ (r = true → h = true).
Proof. destruct r, h; cbn; split; try done. intros H. by specialize (H eq_refl). Qed.

(** ** Theorems *)

(** An address the validator accepts is usable as a key: its normal form
    is a local part, an at sign and a domain, both of plain characters,
    without upper case or plus tag, within the length limit, under a domain
    that is not disposable when those are blocked; and it is its own normal
    form. *)
Theorem accepted_email_shape e cfg :
  e_isValid (validateEmail e cfg) = true →
  let n := normalizedEmail (validateEmail e cfg) in
  ∃ l d, n = l +:+ String "@" d ∧ l ≠ EmptyString ∧ lacks "+" l = true ∧
    string_forallb email_char l = true ∧ string_forallb email_char d = true ∧ inner_dot d = true ∧
    d = domain (validateEmail e cfg) ∧ len n ≤ maxEmailLength cfg ∧
    (blockDisposableEmails cfg = true → isDisposableDomain d = false) ∧ normalizeEmail n false = n.
Proof.
  unfold validateEmail. destruct (is_empty e); [done|]. set (n := normalizeEmail e false).
  cbn [e_isValid normalizedEmail domain]. intros Hv. apply Nat.eqb_eq, length_zero_iff_nil in Hv.
  rewrite !app_nil_iff, !when_nil in Hv. destruct Hv as (Hlen & Hre & _ & _ & Hd).
  apply negb_false_iff in Hre. unfold emailRegex in Hre. destruct (cut_at "@" n) as [[l d]|] eqn:Hc; [|done].
  apply andb_true_iff in Hre as [Hre Hdot]. apply andb_true_iff in Hre as [Hre Hed]. apply andb_true_iff in Hre as [Hl Hel].
  destruct (normalizeEmail_parts e l d Hc) as (Hplus & Hlow & Hlowd).
  pose proof (cut_at_spec _ _ _ _ Hc) as [Hn Hat].
  assert (Hfix : normalizeEmail n false = n).
  { unfold normalizeEmail at 1. cbn [andb]. rewrite trim_fixed.
    - rewrite lowered_fixed; [rewrite Hc, before_fixed by done; by rewrite Hn|].
      rewrite Hn, string_forallb_app. cbn. by rewrite Hlow, Hlowd.
    - rewrite Hn, string_forallb_app. cbn [string_forallb]. apply andb_true_iff. split; [|apply andb_true_iff; split; [done|]].
      + eapply string_forallb_impl; [|exact Hel]. intros c Hch. by rewrite email_char_no_space.
      + eapply string_forallb_impl; [|exact Hed]. intros c Hch. by rewrite email_char_no_space. }
  assert (Hdom : extractEmailDomain n = d).
  { unfold extractEmailDomain. rewrite Hfix, Hn. clear -Hed.
    assert (after_last "@" d = None) as Hnone.
    { induction d as [|c d IH]; [done|]. cbn in Hed |- *. apply andb_true_iff in Hed as [Hc Hd]. rewrite (IH Hd).
      destruct (Ascii.eqb_spec c "@") as [->|]; [by vm_compute in Hc|done]. }
    assert (after_last "@" (l +:+ String "@" d) = Some d) as ->; [|done].
    induction l as [|c l IH]; [|rewrite string_cons_app; cbn; by rewrite IH].
    change (EmptyString +:+ String "@" d) with (String "@" d). cbn. by rewrite Hnone. }
  rewrite Hdom in Hd. exists l, d. split_and!; try done.
  - by destruct l.
  - lia.
  - intros Hb. destruct (is_empty d); [done|]. rewrite app_nil_iff, !when_nil in Hd. destruct Hd as [_ Hd].
    by rewrite Hb in Hd.
Qed.

Lemma accepted_email_shape_witness :
  ∃ l d, normalizedEmail (validateEmail " Ann+news@Example.org" DEFAULT_ABUSE_PREVENTION_CONFIG) = l +:+ String "@" d ∧
    lacks "+" l = true.
Proof.
  destruct (accepted_email_shape " Ann+news@Example.org" DEFAULT_ABUSE_PREVENTION_CONFIG eq_refl)
    as (l & d & H & _ & Hp & _). exists l, d. exact (conj H Hp).
Defined.

(** A password is accepted exactly when it meets every requirement of the
    configuration, and the strength score is between 0 and 100. *)
Theorem accepted_password_iff p cfg :
  (p_isValid (validatePassword p cfg) = true ↔
   p ≠ EmptyString ∧ minPasswordLength cfg ≤ len p ≤ maxPasswordLength cfg ∧
   (requireUppercase cfg = true → string_existsb is_upper p = true) ∧
   (requireLowercase cfg = true → string_existsb is_lower p = true) ∧
   (requireNumbers cfg = true → string_existsb is_digit p = true) ∧
   (requireSpecialChars cfg = true → string_existsb is_special p = true) ∧
   (to_lower p ∉ COMMON_WEAK_PASSWORDS) ∧ hasSequentialChars p = false ∧ hasKeyboardPattern p = false) ∧
  0 ≤ strengthScore (validatePassword p cfg) ≤ 100.
Proof.
  unfold validatePassword. destruct p as [|c p']; [cbn; split; [split; [done|by intros [[] _]]|lia]|]. set (p := String c p').
  change (is_empty p) with false. cbv iota.
  pose proof (require_nil (requireUppercase cfg) (string_existsb is_upper p) "Password must contain at least one uppercase letter" 15) as H1.
  pose proof (require_nil (requireLowercase cfg) (string_existsb is_lower p) "Password must contain at least one lowercase letter" 15) as H2.
  pose proof (require_nil (requireNumbers cfg) (string_existsb is_digit p) "Password must contain at least one number" 15) as H3.
  pose proof (require_nil (requireSpecialChars cfg) (string_existsb is_special p) "Password must contain at least one special character" 15) as H4.
  destruct (require (requireUppercase cfg) _ _ _) as [e1 s1], (require (requireLowercase cfg) _ _ _) as [e2 s2],
    (require (requireNumbers cfg) _ _ _) as [e3 s3], (require (requireSpecialChars cfg) _ _ _) as [e4 s4]. cbn [fst] in *.
  cbn [p_isValid strengthScore]. split; [|lia].
  rewrite Nat.eqb_eq, length_zero_iff_nil, !app_nil_iff, !when_nil, H1, H2, H3, H4, includes_false, !Z.ltb_ge.
  assert (p ≠ EmptyString) by done. clearbody p. intuition lia.
Qed.

(** The constant-time comparison is equality, on strings of one-byte
    characters. *)
Theorem timingSafeEqual_correct a b : timingSafeEqual a b = String.eqb a b.
Proof.
  unfold timingSafeEqual.
  enough (∀ acc, 0 ≤ acc → String.length a = String.length b →
            (xor_loop a b acc =? 0) = (acc =? 0) && String.eqb a b) as H.
  { destruct (Nat.eqb_spec (String.length a) (String.length b)) as [E|E]; cbn [negb].
    - rewrite H by (done || lia). done.
    - symmetry. apply String.eqb_neq. by intros ->. }
  revert b. induction a as [|c a IH]; intros [|d b] acc Hacc Hlen; try discriminate; [cbn; by rewrite andb_true_r|].
  cbn in Hlen. cbn [xor_loop String.eqb].
  assert (0 ≤ code c ∧ 0 ≤ code d) as [Hc Hd] by (unfold code; lia).
  assert (0 ≤ Z.lxor (code c) (code d)) as Hx by (apply Z.lxor_nonneg; lia).
  rewrite IH; [|apply Z.lor_nonneg; lia|lia].
  assert ((Z.lor acc (Z.lxor (code c) (code d)) =? 0) = (acc =? 0) && Ascii.eqb c d) as ->.
  2:{ destruct (acc =? 0), (Ascii.eqb c d); done. }
  apply eq_true_iff_eq. rewrite andb_true_iff, !Z.eqb_eq, Ascii.eqb_eq, Z.lor_eq_0_iff, Z.lxor_eq_0_iff.
  unfold code. split; intros [-> H]; (split; [done|]); [|by rewrite H].
  apply Nat2Z.inj in H. rewrite <- (ascii_nat_embedding c), <- (ascii_nat_embedding d). by rewrite H.
Qed.
