(* ===== verification/UserRepository.v ===== *)
(** * Users: [src/repositories/userRepository.ts].

    Two in-memory [Map]s: the users by id, in insertion order, and the index
    from e-mail addresses to ids.  Records are cloned on the way in and out
    and are values.  Dates are milliseconds. *)

From S2P Require Import Prelude JsString Collections.
#[local] Open Scope Z_scope.

(** A role.  The type of the source names three texts, but an update stores
    what the body of a request has, any JSON value but [null]: of a value that
    is not a text only its truth and its [String] matter. *)
Inductive UserRole := Text (s : string) | NotText (truthy : bool) (text : string).

#[export] Instance UserRole_eq_dec : EqDecision UserRole.
Proof. solve_decision. Defined.

Definition user : UserRole := Text "user".
Definition admin : UserRole := Text "admin".
Definition business_admin : UserRole := Text "business_admin".

Record User := {
  id : string; email : string; passwordHash : string; createdAt : Z; updatedAt : Z;
  resetToken : option string; resetTokenExpiry : option Z; role : UserRole
}.

(** A field of [updates] that is [undefined], [null] or given. *)
Inductive patch (A : Type) := Keep | Clear | Put (a : A).
Arguments Keep {A}.
Arguments Clear {A}.
Arguments Put {A} a.

(** For [email], [passwordHash] and [role], [null] keeps as [undefined]
    does. *)
Record UpdateUserData := {
  u_email : option string; u_passwordHash : option string;
  u_resetToken : patch string; u_resetTokenExpiry : patch Z; u_role : option UserRole
}.

Definition no_updates : UpdateUserData :=
  {| u_email := None; u_passwordHash := None; u_resetToken := Keep; u_resetTokenExpiry := Keep; u_role := None |}.

Definition patched {A} (p : patch A) (current : option A) : option A :=
  match p with Keep => current | Clear => None | Put a => Some a end.

Record store := { users : list (string * User); emailIndex : list (string * string) }.

Definition empty_store : store := {| users := []; emailIndex := [] |}.

Definition saveUser (u : User) (s : store) : store :=
  {| users := map_set (id u) u (users s); emailIndex := map_set (email u) (id u) (emailIndex s) |}.

(** [fresh] is the random id. *)
Definition createUser (fresh : string) (now : Z) (mail hash : string) (s : store) : User * store :=
  let u := {| id := fresh; email := mail; passwordHash := hash; createdAt := now; updatedAt := now;
              resetToken := None; resetTokenExpiry := None; role := user |} in
  (u, saveUser u s).

Definition findUserByEmail (mail : string) (s : store) : option User :=
  match map_get mail (emailIndex s) with
  | Some userId => if is_empty userId then None else map_get userId (users s)
  | None => None
  end.

Definition findUserById (i : string) (s : store) : option User := map_get i (users s).

Definition apply_updates (now : Z) (d : UpdateUserData) (current : User) : User :=
  {| id := id current; email := default (email current) (u_email d);
     passwordHash := default (passwordHash current) (u_passwordHash d);
     createdAt := createdAt current; updatedAt := now;
     resetToken := patched (u_resetToken d) (resetToken current);
     resetTokenExpiry := patched (u_resetTokenExpiry d) (resetTokenExpiry current);
     role := default (role current) (u_role d) |}.

Definition updateUser (now : Z) (userId : string) (d : UpdateUserData) (s : store) : option User * store :=
  match map_get userId (users s) with
  | None => (None, s)
  | Some current =>
      let next := apply_updates now d current in
      let s := if negb (String.eqb (email current) (email next))
               then {| users := users s; emailIndex := map_delete (email current) (emailIndex s) |} else s in
      (Some next, saveUser next s)
  end.

Inductive promotion := Promoted (u : User) | AlreadyBusinessAdmin (u : User) | InvalidCurrentRole (u : User) | NotFound.

Definition set_role (now : Z) (r : UserRole) (u : User) : User :=
  {| id := id u; email := email u; passwordHash := passwordHash u; createdAt := createdAt u; updatedAt := now;
     resetToken := resetToken u; resetTokenExpiry := resetTokenExpiry u; role := r |}.

Definition promoteUserToBusinessAdmin (now : Z) (userId : string) (s : store) : promotion * store :=
  match map_get userId (users s) with
  | None => (NotFound, s)
  | Some current =>
      if bool_decide (role current = business_admin) then (AlreadyBusinessAdmin current, s)
      else if negb (bool_decide (role current = user)) then (InvalidCurrentRole current, s)
      else let next := set_role now business_admin current in (Promoted next, saveUser next s)
  end.

Definition updateUserPassword (now : Z) (userId hash : string) (s : store) : option User * store :=
  updateUser now userId {| u_email := None; u_passwordHash := Some hash; u_resetToken := Clear;
                           u_resetTokenExpiry := Clear; u_role := None |} s.

Definition setResetToken (now : Z) (userId tokenHash : string) (expiryMinutes : Z) (s : store) : option User * store :=
  updateUser now userId {| u_email := None; u_passwordHash := None; u_resetToken := Put tokenHash;
                           u_resetTokenExpiry := Put (now + expiryMinutes * 60 * 1000); u_role := None |} s.

(** The stored token matches and has not expired. *)
Definition holds_token (now : Z) (tokenHash : string) (u : User) : bool :=
  match resetToken u, resetTokenExpiry u with
  | Some t, Some e => String.eqb t tokenHash && (now <? e)
  | _, _ => false
  end.

Definition findUserByResetTokenHash (now : Z) (tokenHash : string) (s : store) : option User :=
  List.find (holds_token now tokenHash) (map snd (users s)).

Definition deleteUser (userId : string) (s : store) : bool * store :=
  match map_get userId (users s) with
  | None => (false, s)
  | Some u => (true, {| users := map_delete userId (users s); emailIndex := map_delete (email u) (emailIndex s) |})
  end.

(** A missing id gives an [Error]. *)
Definition findUsersByIds (ids : list string) (s : store) : list (result string User) :=
  map (λ i, match map_get i (users s) with Some u => Ok u | None => Err ("User not found: " +:+ i) end) ids.

Definition getAllUsers (s : store) : list User := map snd (users s).

Definition clearAllUsers (s : store) : store := empty_store.

(** ** Operations as steps *)

Inductive op :=
| Create (fresh : string) (now : Z) (mail hash : string)
| Update (now : Z) (userId : string) (d : UpdateUserData)
| Promote (now : Z) (userId : string)
| Delete (userId : string).

Definition step (o : op) (s : store) : store :=
  match o with
  | Create fresh now mail hash => (createUser fresh now mail hash s).2
  | Update now i d => (updateUser now i d s).2
  | Promote now i => (promoteUserToBusinessAdmin now i s).2
  | Delete i => (deleteUser i s).2
  end.

Definition run (os : list op) (s : store) : store := fold_left (λ s o, step o s) os s.

(** A new id is neither empty nor in use. *)
Definition fresh_id (o : op) (s : store) : bool :=
  match o with
  | Create fresh _ _ _ => negb (is_empty fresh) && match map_get fresh (users s) with None => true | Some _ => false end
  | _ => true
  end.

(** The address an operation introduces is not in use by another user. *)
Definition email_free (mail i : string) (s : store) : bool :=
  forallb (λ u, negb (String.eqb (email u) mail) || String.eqb (id u) i) (getAllUsers s).

Definition unused_email (o : op) (s : store) : bool :=
  match o with
  | Create fresh _ mail _ => email_free mail fresh s
  | Update _ i {| u_email := Some mail |} => email_free mail i s
  | _ => true
  end.

Fixpoint run_ok (check : op → store → bool) (os : list op) (s : store) : bool :=
  match os with [] => true | o :: os => fresh_id o s && check o s && run_ok check os (step o s) end.

(** ** Invariants *)

(** Users are stored under their ids, and the index leads to a user with the
    address it was asked for. *)
Record sound (s : store) : Prop := {
  s_nodup : NoDup (users s).*1;
  s_id : ∀ i u, map_get i (users s) = Some u → id u = i ∧ i ≠ EmptyString;
  s_index : ∀ m i, map_get m (emailIndex s) = Some i → ∃ u, map_get i (users s) = Some u ∧ email u = m
}.

(** Every user is found under the address of the record. *)
Definition complete (s : store) : Prop :=
  ∀ i u, map_get i (users s) = Some u → map_get (email u) (emailIndex s) = Some i.

Lemma sound_empty : sound empty_store ∧ complete empty_store.
Proof. split; [split; [apply NoDup_nil_2|done|done]|done]. Qed.

Lemma save_sound u s :
  sound s → id u ≠ EmptyString →
  (∀ m, map_get m (emailIndex s) = Some (id u) → m = email u) → sound (saveUser u s).
Proof.
  intros [Hn Hi Hx] Hu Hm. split; cbn.
  - by apply map_set_nodup.
  - intros i v. rewrite map_get_set. destruct (String.eqb_spec i (id u)) as [->|]; [by intros [= <-]|apply Hi].
  - intros m i. rewrite !map_get_set. destruct (String.eqb_spec m (email u)) as [->|Hne].
    + intros [= <-]. rewrite String.eqb_refl. by exists u.
    + intros Hg. destruct (Hx m i Hg) as (v & Hv & He). destruct (String.eqb_spec i (id u)) as [->|]; [|by exists v].
      exfalso. by apply Hne, Hm.
Qed.

(** The index without the address of user [u]. *)
Lemma delete_index_sound m s : sound s → sound {| users := users s; emailIndex := map_delete m (emailIndex s) |}.
Proof.
  intros [Hn Hi Hx]. split; [done|done|]. cbn. intros m' i. rewrite map_get_delete. case_if; [done|apply Hx].
Qed.

Lemma updateUser_sound now i d s : sound s → sound (updateUser now i d s).2.
Proof.
  intros Hs. unfold updateUser. destruct (map_get i (users s)) as [c|] eqn:Hc; [|done]. cbn [snd].
  destruct (s_id _ Hs i c Hc) as [Hid Hne].
  assert (∀ m, map_get m (emailIndex s) = Some i → m = email c) as Hm.
  { intros m Hg. destruct (s_index _ Hs m i Hg) as (u & Hu & <-). congruence. }
  set (n := apply_updates now d c) in *. assert (id n = i) as Hn by done.
  destruct (String.eqb_spec (email c) (email n)) as [He|He]; cbn [negb].
  - apply save_sound; [done|by rewrite Hn|]. rewrite Hn. intros m Hg. rewrite <- He. by apply Hm.
  - apply save_sound; [by apply delete_index_sound|by rewrite Hn|]. rewrite Hn. cbn.
    intros m. rewrite map_get_delete. destruct (String.eqb_spec m (email c)) as [->|Hmc]; [done|].
    intros Hg. by destruct Hmc; apply Hm.
Qed.

Lemma step_sound o s : sound s → fresh_id o s = true → sound (step o s).
Proof.
  intros Hs Hf. destruct o as [fresh now mail hash|now i d|now i|i]; cbn in *.
  - apply andb_true_iff in Hf as [Hne Hf]. apply save_sound; [done|by destruct fresh|]. cbn.
    intros m Hg. destruct (s_index _ Hs m fresh Hg) as (u & Hu & _). by rewrite Hu in Hf.
  - by apply updateUser_sound.
  - unfold promoteUserToBusinessAdmin. destruct (map_get i (users s)) as [c|] eqn:Hc; [|done].
    destruct (s_id _ Hs i c Hc) as [Hid Hne]. case_if; [done|]. case_if; [done|]. cbn.
    apply save_sound; [done|by cbn; rewrite Hid|]. cbn. rewrite Hid. intros m Hg.
    destruct (s_index _ Hs m i Hg) as (u & Hu & <-). congruence.
  - unfold deleteUser. destruct (map_get i (users s)) as [c|] eqn:Hc; [|done]. cbn.
    destruct Hs as [Hn Hi Hx]. split; cbn.
    + by apply map_delete_nodup.
    + intros j u. rewrite map_get_delete. case_if; [done|apply Hi].
    + intros m j. rewrite !map_get_delete. case_if; [done|]. intros Hg.
      destruct (Hx m j Hg) as (u & Hu & He). destruct (String.eqb_spec j i) as [->|]; [|by exists u].
      exfalso. assert (u = c) as -> by congruence. by rewrite He, String.eqb_refl in Heqb.
Qed.

(** An address is free when no other user has it. *)
Lemma email_free_spec mail i s :
  email_free mail i s = true → ∀ j u, map_get j (users s) = Some u → id u = j → email u = mail → j = i.
Proof.
  intros Hf j u Hj Hid He. unfold email_free in Hf. rewrite forallb_forall in Hf.
  assert (In u (getAllUsers s)) as Hin.
  { unfold getAllUsers. apply in_map_iff. exists (j, u). split; [done|]. by apply list_elem_of_In, map_get_Some. }
  specialize (Hf u Hin). apply orb_true_iff in Hf as [Hf|Hf].
  - by rewrite He, String.eqb_refl in Hf.
  - apply String.eqb_eq in Hf. congruence.
Qed.

(** Saving a user whose address is nobody else's keeps the index complete. *)
Lemma save_complete u s :
  sound s → email_free (email u) (id u) s = true →
  (∀ j v, j ≠ id u → map_get j (users s) = Some v → map_get (email v) (emailIndex s) = Some j) →
  complete (saveUser u s).
Proof.
  intros Hs Hf Hc i v. cbn. rewrite !map_get_set. destruct (String.eqb_spec i (id u)) as [->|Hi].
  - intros [= <-]. by rewrite String.eqb_refl.
  - intros Hv. destruct (String.eqb_spec (email v) (email u)) as [He|]; [|by apply Hc].
    exfalso. apply Hi. apply (email_free_spec _ _ _ Hf i v Hv); [by apply (s_id _ Hs)|done].
Qed.

Lemma email_free_self i c s : sound s → complete s → map_get i (users s) = Some c → email_free (email c) i s = true.
Proof.
  intros Hs Hc Hi. unfold email_free. apply forallb_forall. intros u Hu. apply orb_true_iff.
  unfold getAllUsers in Hu. apply in_map_iff in Hu as ([j u'] & Hju & Hin). cbn in Hju. subst u'.
  apply list_elem_of_In, (map_get_elem j u (users s) (s_nodup _ Hs)) in Hin.
  destruct (String.eqb_spec (email u) (email c)) as [He|]; [right|by left].
  apply String.eqb_eq. pose proof (Hc _ _ Hin) as Hj. rewrite He, (Hc _ _ Hi) in Hj. injection Hj as <-.
  apply (s_id _ Hs i u Hin).
Qed.

Lemma updateUser_complete now i d s :
  sound s → complete s → match u_email d with Some m => email_free m i s = true | None => True end →
  complete (updateUser now i d s).2.
Proof.
  intros Hs Hc Hd. unfold updateUser. destruct (map_get i (users s)) as [c|] eqn:Hi; [|done]. cbn [snd].
  destruct (s_id _ Hs i c Hi) as [Hid Hne]. set (n := apply_updates now d c).
  assert (email_free (email n) (id n) s = true) as Hf.
  { cbn. rewrite Hid. destruct (u_email d) as [m|]; [done|]. by apply email_free_self. }
  destruct (String.eqb_spec (email c) (email n)) as [He|He]; cbn [negb].
  - apply save_complete; [done|done|]. intros j v _. apply Hc.
  - apply save_complete; [by apply delete_index_sound|done|]. cbn. intros j v Hj Hv. rewrite map_get_delete.
    destruct (String.eqb_spec (email v) (email c)) as [Hvc|]; [|by apply Hc].
    exfalso. apply Hj. rewrite Hid. pose proof (Hc _ _ Hv) as Hx. rewrite Hvc, (Hc _ _ Hi) in Hx. by injection Hx.
Qed.

Lemma step_complete o s :
  sound s → complete s → fresh_id o s = true → unused_email o s = true → complete (step o s).
Proof.
  intros Hs Hc Hf Hu. destruct o as [fresh now mail hash|now i d|now i|i]; cbn in *.
  - apply save_complete; [done|done|]. intros j v _. apply Hc.
  - apply updateUser_complete; [done|done|]. by destruct d as [[m|] ? ? ? ?].
  - unfold promoteUserToBusinessAdmin. destruct (map_get i (users s)) as [c|] eqn:Hi; [|done].
    destruct (s_id _ Hs i c Hi) as [Hid Hne]. case_if; [done|]. case_if; [done|]. cbn.
    apply save_complete; [done| |intros j v _; apply Hc]. cbn. rewrite Hid. by apply email_free_self.
  - unfold deleteUser. destruct (map_get i (users s)) as [c|] eqn:Hi; [|done]. cbn. intros j v. cbn.
    rewrite !map_get_delete. destruct (String.eqb_spec j i) as [->|Hj]; [done|]. intros Hv.
    destruct (String.eqb_spec (email v) (email c)) as [He|]; [|by apply Hc].
    exfalso. apply Hj. pose proof (Hc _ _ Hv) as Hx. rewrite He, (Hc _ _ Hi) in Hx. by injection Hx.
Qed.

Lemma run_sound os s : sound s → run_ok (λ _ _, true) os s = true → sound (run os s).
Proof.
  revert s. induction os as [|o os IH]; intros s Hs; cbn; [done|]. rewrite andb_true_r.
  intros [Hf Ho]%andb_true_iff. apply IH; [by apply step_sound|done].
Qed.

Lemma run_complete os s :
  sound s → complete s → run_ok unused_email os s = true → sound (run os s) ∧ complete (run os s).
Proof.
  revert s. induction os as [|o os IH]; intros s Hs Hc; cbn; [done|].
  intros [[Hf Hu]%andb_true_iff Ho]%andb_true_iff. apply IH; [by apply step_sound|by apply step_complete|done].
Qed.

Lemma find_email_sound m u s : sound s → findUserByEmail m s = Some u → map_get (id u) (users s) = Some u ∧ email u = m.
Proof.
  intros Hs. unfold findUserByEmail. destruct (map_get m (emailIndex s)) as [i|] eqn:Hm; [|done]. case_if; [done|].
  destruct (s_index _ Hs m i Hm) as (v & Hv & He). intros Hu. assert (v = u) as -> by congruence.
  split; [|done]. by rewrite (proj1 (s_id _ Hs i u Hu)).
Qed.

(** Under both invariants the lookup is exact. *)
Lemma find_email_exact m u s :
  sound s → complete s → findUserByEmail m s = Some u ↔ map_get (id u) (users s) = Some u ∧ email u = m.
Proof.
  intros Hs Hc. split; [by apply find_email_sound|]. intros [Hu <-]. unfold findUserByEmail. rewrite (Hc _ _ Hu).
  destruct (s_id _ Hs _ _ Hu) as [_ Hne]. by destruct (id u).
Qed.

Lemma find_email_free m i s : sound s → complete s → findUserByEmail m s = None → email_free m i s = true.
Proof.
  intros Hs Hc Hn. unfold email_free. apply forallb_forall. intros u Hu. apply orb_true_iff. left.
  apply negb_true_iff, String.eqb_neq. intros He. unfold getAllUsers in Hu.
  apply in_map_iff in Hu as ([j v] & Hv & Hin). cbn in Hv. subst v.
  apply list_elem_of_In, (map_get_elem j u (users s) (s_nodup _ Hs)) in Hin.
  assert (findUserByEmail m s = Some u) as Hf; [|congruence].
  apply find_email_exact; [done|done|]. by rewrite (proj1 (s_id _ Hs j u Hin)).
Qed.

(** Looking up after the creation of an account under a new id. *)
Lemma find_after_create fresh now mail hash m s :
  sound s → fresh ≠ EmptyString → map_get fresh (users s) = None →
  let '(u, s') := createUser fresh now mail hash s in
  findUserByEmail m s' = if String.eqb m mail then Some u else findUserByEmail m s.
Proof.
  intros Hs Hne Hf. unfold createUser, findUserByEmail. cbn. rewrite map_get_set.
  destruct (String.eqb_spec m mail) as [->|Hm].
  - rewrite map_get_set, String.eqb_refl. by destruct fresh.
  - destruct (map_get m (emailIndex s)) as [i|] eqn:Hi; [|done]. case_if; [done|].
    destruct (s_index _ Hs m i Hi) as (u & Hu & _). rewrite map_get_set.
    by destruct (String.eqb_spec i fresh) as [->|]; [congruence|].
Qed.

(** An update changes the record it names and no other. *)
Lemma updateUser_get now i d s j :
  sound s →
  map_get j (users (updateUser now i d s).2) =
  if String.eqb j i then apply_updates now d <$> map_get i (users s) else map_get j (users s).
Proof.
  intros Hs. unfold updateUser. destruct (map_get i (users s)) as [c|] eqn:Hc; cbn [snd].
  - destruct (s_id _ Hs i c Hc) as [Hid _].
    case_if; cbn -[apply_updates]; rewrite map_get_set; cbn; rewrite Hid; reflexivity.
  - destruct (String.eqb_spec j i) as [->|]; done.
Qed.

(** ** Theorems *)

(** Looking a user up by address is exact as long as no operation gives a
    user an address that another one has: the answer is the stored user with
    that address, and every stored user is found.  Without that condition the
    answer is still a stored user with the address. *)
Theorem email_lookup_exact os m :
  (run_ok (λ _ _, true) os empty_store = true →
     ∀ u, findUserByEmail m (run os empty_store) = Some u →
       map_get (id u) (users (run os empty_store)) = Some u ∧ email u = m) ∧
  (run_ok unused_email os empty_store = true →
     ∀ u, findUserByEmail m (run os empty_store) = Some u ↔
       map_get (id u) (users (run os empty_store)) = Some u ∧ email u = m).
Proof.
  destruct sound_empty as [He Hce]. split.
  - intros Ho u. apply find_email_sound. by apply run_sound.
  - intros Ho u. destruct (run_complete os empty_store He Hce Ho) as [Hs Hc].
    by apply find_email_exact.
Qed.

(** Giving a user the address of another one, which the administration
    route does without a check, takes the account away from its owner: the
    address leads to the other user, and after that one is deleted to nobody,
    while the owner is still stored. *)
Theorem duplicate_email_hides_user s now i j u v :
  sound s → complete s → map_get i (users s) = Some u → map_get j (users s) = Some v → i ≠ j → email u ≠ email v →
  let s1 := (updateUser now j {| u_email := Some (email u); u_passwordHash := None; u_resetToken := Keep;
                                 u_resetTokenExpiry := Keep; u_role := None |} s).2 in
  let s2 := (deleteUser j s1).2 in
  findUserByEmail (email u) s = Some u ∧
  (id <$> findUserByEmail (email u) s1) = Some j ∧
  findUserByEmail (email u) s2 = None ∧ findUserById i s2 = Some u.
Proof.
  intros Hs Hc Hu Hv Hij Hne s1 s2.
  destruct (s_id _ Hs i u Hu) as [Hui Hi0], (s_id _ Hs j v Hv) as [Hvj Hj0].
  assert (is_empty i = false ∧ is_empty j = false) as [Hie Hje] by (by destruct i, j).
  assert (Hs1 : s1 = saveUser (apply_updates now {| u_email := Some (email u); u_passwordHash := None; u_resetToken := Keep;
            u_resetTokenExpiry := Keep; u_role := None |} v)
            {| users := users s; emailIndex := map_delete (email v) (emailIndex s) |}).
  { unfold s1, updateUser. rewrite Hv. unfold Datatypes.id. cbn [snd apply_updates email u_email default from_option Datatypes.id].
    destruct (String.eqb_spec (email v) (email u)) as [He|]; [congruence|done]. }
  split_and!.
  - unfold findUserByEmail. by rewrite (Hc i u Hu), Hie.
  - rewrite Hs1. unfold findUserByEmail. cbn. rewrite map_get_set, String.eqb_refl, Hvj, Hje, map_get_set, String.eqb_refl. cbn. by rewrite Hvj.
  - unfold s2, deleteUser. rewrite Hs1. cbn -[map_delete]. rewrite Hvj, map_get_set, String.eqb_refl. cbn -[map_delete].
    unfold findUserByEmail. cbn -[map_delete]. by rewrite map_get_delete, String.eqb_refl.
  - unfold s2, deleteUser, findUserById. rewrite Hs1. cbn -[map_delete]. rewrite Hvj, map_get_set, String.eqb_refl. cbn -[map_delete].
    rewrite map_get_delete. destruct (String.eqb_spec i j) as [|]; [done|].
    rewrite map_get_set. by destruct (String.eqb_spec i j).
Qed.

(** ** Witnesses *)

Definition two_users : list op := [Create "u1" 0 "a@x.io" "h1"; Create "u2" 1 "b@x.io" "h2"].

Lemma email_lookup_exact_witness :
  email <$> findUserByEmail "b@x.io" (run two_users empty_store) = Some "b@x.io".
Proof.
  destruct (email_lookup_exact two_users "b@x.io") as [_ H].
  pose (u := (createUser "u2" 1 "b@x.io" "h2" empty_store).1).
  rewrite (proj2 (H eq_refl u) (conj eq_refl eq_refl)). reflexivity.
Defined.

Lemma duplicate_email_hides_user_witness :
  let s := run two_users empty_store in
  let s1 := (updateUser 5 "u2" {| u_email := Some "a@x.io"; u_passwordHash := None; u_resetToken := Keep;
                                  u_resetTokenExpiry := Keep; u_role := None |} s).2 in
  findUserByEmail "a@x.io" (deleteUser "u2" s1).2 = None.
Proof.
  intros s s1. destruct (run_complete two_users empty_store (proj1 sound_empty) (proj2 sound_empty) eq_refl) as [Hs Hc].
  exact (proj1 (proj2 (proj2 (duplicate_email_hides_user s 5 "u1" "u2"
    (createUser "u1" 0 "a@x.io" "h1" empty_store).1 (createUser "u2" 1 "b@x.io" "h2" empty_store).1
    Hs Hc eq_refl eq_refl ltac:(discriminate) ltac:(discriminate))))).
Defined.
