(* ===== verification/Accounts.v ===== *)
(** * Accounts: [src/services/auth/signup.ts], [login.ts],
    [forgotPassword.ts] and [resetPassword.ts].

    Each service is cut at its [await]s on password hashing, timers and
    e-mail; between two steps other requests run.  Hashing and comparing
    passwords, signing tokens and sending mail are parameters or answers.  The
    user repository, the limiter and the validators are the modelled ones. *)

From S2P Require Import Prelude Numeric Hashing JsString Collections.
From S2P Require SignupLimiter AbusePrevention.
From S2P Require Import UserRepository.
Import SignupLimiter(normalizeEmail).
#[local] Open Scope Z_scope.

(** ** Signup *)

(** An untyped field of the request. *)
Inductive field := Missing | NonString | Text (s : string).

Record SignupRequest := {
  s_email : field; s_password : field; ipAddress : option string; website : option string
}.

Inductive SignupErrorType :=
| VALIDATION_ERROR | EMAIL_INVALID | EMAIL_DISPOSABLE | EMAIL_EXISTS | PASSWORD_WEAK
| RATE_LIMITED | HONEYPOT_TRIGGERED | SUSPICIOUS_ACTIVITY.

Record SignupServiceConfig := {
  abusePrevention : AbusePrevention.AbusePreventionConfig;
  rateLimit : SignupLimiter.SignupRateLimitConfig;
  enableHoneypot : bool
}.

Definition truthy (s : option string) : bool := match s with Some (String _ _) => true | _ => false end.

(** A field that is absent, not a string, or empty. *)
Definition missing_email (f : field) : bool :=
  match f with Text s => is_empty (trim s) | _ => true end.
Definition missing_password (f : field) : bool :=
  match f with Text s => is_empty s | _ => true end.

(** The normalised address, or the first error. *)
Definition validateSignupRequest (r : SignupRequest) (cfg : SignupServiceConfig) : result SignupErrorType string :=
  if enableHoneypot cfg && truthy (website r) then Err HONEYPOT_TRIGGERED
  else match s_email r, s_password r with
       | Text mail, Text password =>
           if missing_email (s_email r) || missing_password (s_password r) then Err VALIDATION_ERROR
           else
             let ev := AbusePrevention.validateEmail mail (abusePrevention cfg) in
             let pv := AbusePrevention.validatePassword password (abusePrevention cfg) in
             if negb (AbusePrevention.e_isValid ev) then
               if AbusePrevention.isDisposable ev then Err EMAIL_DISPOSABLE else Err EMAIL_INVALID
             else if negb (AbusePrevention.p_isValid pv) then Err PASSWORD_WEAK
             else Ok (AbusePrevention.normalizedEmail ev)
       | _, _ => Err VALIDATION_ERROR
       end.

Definition client_ip (r : SignupRequest) : string :=
  match ipAddress r with Some (String c s) => String c s | _ => "unknown" end.

(** The address a failed validation is recorded under. *)
Definition failure_email (r : SignupRequest) : string :=
  match s_email r with Text mail => normalizeEmail mail false | _ => EmptyString end.

(** Where a signup is after its first step: waiting to record a failure
    ([again]: the [catch] will record it once more), refused, or hashing the
    password. *)
Inductive signup_state :=
| Failing (e : SignupErrorType) (mail : string)
| RateLimited
| Hashing (mail : string).

Section Signup.
Context (isIP6 : string → bool) (cfg : SignupServiceConfig).

(** Phases 1 to 3, and the result of the existence check. *)
Definition signup_start (now : Z) (r : SignupRequest) (l : SignupLimiter.store) (s : store)
  : signup_state * SignupLimiter.store :=
  match validateSignupRequest r cfg with
  | Err e => (Failing e (failure_email r), l)
  | Ok mail =>
      let '(check, l) := SignupLimiter.checkLimit isIP6 (rateLimit cfg) now (client_ip r) mail l in
      if negb (SignupLimiter.allowed check) then (RateLimited, l)
      else
        let l := SignupLimiter.recordAttempt isIP6 (rateLimit cfg) now (client_ip r) mail l in
        match findUserByEmail mail s with
        | Some _ => (Failing EMAIL_EXISTS mail, l)
        | None => (Hashing mail, l)
        end
  end.

(** After the timing delay of a failure. *)
Definition signup_fail (now : Z) (r : SignupRequest) (mail : string) (l : SignupLimiter.store) : SignupLimiter.store :=
  SignupLimiter.recordFailure isIP6 (rateLimit cfg) now (client_ip r) mail false l.

(** Phase 4, after the hash: the second check and the insertion, in one
    step: only resolved promises lie between them, and bcryptjs completes
    every hash in a task of its own.  When an account appeared meanwhile the failure is recorded here,
    after a delay, and again by the [catch]. *)
Definition signup_finish (now : Z) (fresh hash mail : string) (r : SignupRequest) (l : SignupLimiter.store) (s : store)
  : result SignupErrorType User * SignupLimiter.store * store :=
  match findUserByEmail mail s with
  | Some _ => (Err EMAIL_EXISTS, signup_fail now r mail (signup_fail now r mail l), s)
  | None =>
      let '(u, s) := createUser fresh now mail hash s in
      (Ok u, SignupLimiter.recordSuccess isIP6 (client_ip r) mail l, s)
  end.
End Signup.

(** ** Login *)

(** The address as [loginInputSchema] passes it on. *)
Definition login_email (mail : string) : string := to_lower (trim mail).

(** [verifyPassword] is bcrypt's comparison; [None] is the
    [AuthenticationError]. *)
Definition login (verifyPassword : string → string → bool) (mail password : string) (s : store) : option User :=
  match findUserByEmail mail s with
  | None => None
  | Some u => if verifyPassword password (passwordHash u) then Some u else None
  end.

(** ** Password reset *)

Inductive reset_error :=
| EmailRequired | TokenRequired | PasswordRequired | PasswordTooShort (min : Z)
| INVALID_RESET_TOKEN | RESET_EMAIL_RETRYABLE_FAILURE | RESET_EMAIL_UNAVAILABLE.

(** [RESET_TOKEN_TTL_MINUTES] *)
Definition resolveTokenTtlMinutes (raw : option string) : Z :=
  match raw with
  | None | Some EmptyString => 15
  | Some raw => match parse_int raw with
                | None => 15
                | Some parsed => if (parsed <=? 0) || (60 <? parsed) then 15 else parsed
                end
  end.

(** [RESET_MIN_PASSWORD_LENGTH] *)
Definition resolveMinPasswordLength (raw : option string) : Z :=
  match raw with
  | None | Some EmptyString => 8
  | Some raw => match parse_int raw with
                | None => 8
                | Some parsed => if parsed <? 8 then 8 else parsed
                end
  end.

Section Reset.
Context (sha256 : string → string).

Definition hashResetToken (rawToken : string) : string := sha256 rawToken.
Definition tokenLogPrefix (rawToken : string) (length : nat) : string := String.substring 0 length rawToken.

(** [forgotPassword] up to its first [await]: the user found. *)
Definition forgot_lookup (mail : string) (s : store) : result reset_error (option User) :=
  if is_empty (trim mail) then Err EmailRequired else Ok (findUserByEmail (to_lower (trim mail)) s).

(** The token is stored; the mail goes out next. *)
Definition forgot_issue (now ttlMinutes : Z) (u : User) (rawToken : string) (s : store) : store :=
  (setResetToken now (id u) (hashResetToken rawToken) ttlMinutes s).2.

(** How the delivery ended. *)
Inductive delivery := Delivered | Retryable | Permanent.

Definition forgot_finish (now : Z) (u : User) (d : delivery) (s : store) : result reset_error unit * store :=
  match d with
  | Delivered => (Ok tt, s)
  | _ =>
      let s := (updateUser now (id u) {| u_email := None; u_passwordHash := None; u_resetToken := Clear;
                                         u_resetTokenExpiry := Clear; u_role := None |} s).2 in
      (Err (match d with Retryable => RESET_EMAIL_RETRYABLE_FAILURE | _ => RESET_EMAIL_UNAVAILABLE end), s)
  end.

(** [resetPassword] up to the hashing of the new password. *)
Definition reset_lookup (now minLength : Z) (token newPassword : string) (s : store) : result reset_error User :=
  if is_empty (trim token) then Err TokenRequired
  else if is_empty (trim newPassword) then Err PasswordRequired
  else if Z.of_nat (String.length newPassword) <? minLength then Err (PasswordTooShort minLength)
  else match findUserByResetTokenHash now (hashResetToken token) s with
       | None => Err INVALID_RESET_TOKEN
       | Some u => Ok u
       end.

(** The rest; [hash] is the hash of the new password. *)
Definition reset_commit (now : Z) (u : User) (hash : string) (s : store) : store :=
  (updateUserPassword now (id u) hash s).2.

(** A call that nothing overlaps. *)
Definition resetPassword (now minLength : Z) (token newPassword hash : string) (s : store)
  : result reset_error unit * store :=
  match reset_lookup now minLength token newPassword s with
  | Err e => (Err e, s)
  | Ok u => (Ok tt, reset_commit now u hash s)
  end.
End Reset.

(** ** Signups in any order *)

Inductive signup_event :=
| Finish (now : Z) (fresh hash mail : string) (r : SignupRequest).

Section Signups.
Context (isIP6 : string → bool) (cfg : SignupServiceConfig).

(** Every signup that reached its last step finishes at some point, whatever
    its first step saw. *)
Fixpoint finish_all (es : list signup_event) (l : SignupLimiter.store) (s : store)
  : list (result SignupErrorType User) * store :=
  match es with
  | [] => ([], s)
  | Finish now fresh hash mail r :: es =>
      let '(a, l, s) := signup_finish isIP6 cfg now fresh hash mail r l s in
      let '(rest, s) := finish_all es l s in (a :: rest, s)
  end.

(** The random ids are new. *)
Fixpoint fresh_ids (es : list signup_event) (s : store) : bool :=
  match es with
  | [] => true
  | Finish _ fresh _ _ _ :: es =>
      negb (is_empty fresh) && forallb (λ '(Finish _ f _ _ _), negb (String.eqb f fresh)) es &&
      (match map_get fresh (users s) with None => true | Some _ => false end) && fresh_ids es s
  end.
End Signups.

(** ** Lemmas *)

(** The local part of the address has a plus. *)
Definition plus_address (mail : string) : bool :=
  match SignupLimiter.cut_at "@" (login_email mail) with
  | Some (localPart, _) => negb (lacks "+" localPart)
  | None => false
  end.

Lemma validated_address r cfg m mail :
  validateSignupRequest r cfg = Ok m → s_email r = Text mail →
  m = normalizeEmail mail false ∧ is_empty (trim mail) = false.
Proof.
  unfold validateSignupRequest. intros Hv Hr. rewrite Hr in Hv. revert Hv. case_if; [done|].
  destruct (s_password r); [done|done|]. cbn [missing_email].
  destruct (is_empty (trim mail)) eqn:Hne; [done|]. cbn [orb]. case_if; [done|].
  destruct (AbusePrevention.e_isValid _) eqn:Hv; cbn [negb]; [|by case_if]. case_if; [done|].
  intros [= <-]. split; [|done]. unfold AbusePrevention.validateEmail in *. destruct mail; done.
Qed.

(** The two normalisations agree exactly on the other addresses. *)
Lemma normalisations_agree mail : normalizeEmail mail false = login_email mail ↔ plus_address mail = false.
Proof.
  unfold normalizeEmail, plus_address. cbn [andb]. unfold login_email.
  destruct (SignupLimiter.cut_at "@" (to_lower (trim mail))) as [[l d]|] eqn:E; [|done].
  pose proof (AbusePrevention.cut_at_spec _ _ _ _ E) as [Hs Hl]. rewrite Hs.
  change (SignupLimiter.before "+" l +:+ "@" +:+ d) with (SignupLimiter.before "+" l +:+ String "@" d).
  rewrite negb_false_iff. split.
  - intros He. apply (f_equal (SignupLimiter.cut_at "@")) in He.
    rewrite !AbusePrevention.cut_at_app in He; [|done|by apply AbusePrevention.before_forallb].
    injection He as <-. apply AbusePrevention.before_lacks.
  - intros Hp. by rewrite AbusePrevention.before_fixed.
Qed.

(** Lookups by a reset token. *)
Definition unheld (h : string) (s : store) : Prop := Forall (λ p, resetToken p.2 ≠ Some h) (users s).

Lemma unheld_find h now s : unheld h s → findUserByResetTokenHash now h s = None.
Proof.
  unfold unheld, findUserByResetTokenHash. induction 1 as [|[i u] l Hu Hl IH]; [done|]. cbn [map snd List.find].
  unfold holds_token at 1. cbn in Hu. destruct (resetToken u) as [t|]; [|exact IH].
  destruct (resetTokenExpiry u); [|exact IH]. by destruct (String.eqb_spec t h) as [->|].
Qed.

Lemma unheld_get h s :
  NoDup (users s).*1 → (∀ i u, map_get i (users s) = Some u → resetToken u ≠ Some h) → unheld h s.
Proof.
  intros Hn Hu. apply Forall_forall. intros [i u] Hin. apply (Hu i). by apply map_get_elem.
Qed.

Lemma map_get_unheld h s i u : unheld h s → map_get i (users s) = Some u → resetToken u ≠ Some h.
Proof. intros Hu Hi. apply map_get_Some in Hi. unfold unheld in Hu. rewrite Forall_forall in Hu. exact (Hu _ Hi). Qed.

Lemma found_by_token h now s u :
  sound s → findUserByResetTokenHash now h s = Some u →
  map_get (id u) (users s) = Some u ∧ resetToken u = Some h ∧ (∃ e, resetTokenExpiry u = Some e ∧ now < e).
Proof.
  intros Hs Hf. unfold findUserByResetTokenHash in Hf. apply find_some in Hf as [Hin Hh].
  apply in_map_iff in Hin as ([i v] & Hv & Hin). cbn in Hv. subst v.
  apply list_elem_of_In, (map_get_elem i u (users s) (s_nodup _ Hs)) in Hin.
  unfold holds_token in Hh. destruct (resetToken u) as [t|], (resetTokenExpiry u) as [e|]; [|done|done|done].
  apply andb_true_iff in Hh as [->%String.eqb_eq He%Z.ltb_lt]. rewrite (proj1 (s_id _ Hs i u Hin)). naive_solver.
Qed.

Lemma looked_up sha256 now min token pw s u :
  reset_lookup sha256 now min token pw s = Ok u → findUserByResetTokenHash now (hashResetToken sha256 token) s = Some u.
Proof.
  unfold reset_lookup. do 3 (case_if; [done|]). by destruct (findUserByResetTokenHash _ _ s); [intros [= ->]|].
Qed.

Lemma unheld_refused sha256 now min token pw hash s :
  unheld (hashResetToken sha256 token) s → ∃ e, resetPassword sha256 now min token pw hash s = (Err e, s).
Proof.
  intros Hu. unfold resetPassword, reset_lookup. rewrite unheld_find by done. repeat case_if; by eexists.
Qed.

(** No operation of [os] stores the hash [h] as a reset token. *)
Definition issues (h : string) (o : op) : bool :=
  match o with
  | Update _ _ d => match u_resetToken d with Put t => String.eqb t h | _ => false end
  | _ => false
  end.

Lemma saveUser_unheld h u s : unheld h s → resetToken u ≠ Some h → unheld h (saveUser u s).
Proof.
  unfold unheld, saveUser. cbn. intros Hs Hu. induction Hs as [|[k v] l Hv Hl IH]; cbn.
  - by apply Forall_singleton.
  - case_if; by constructor.
Qed.

Lemma step_unheld h o s : unheld h s → issues h o = false → unheld h (step o s).
Proof.
  intros Hu Hi. destruct o as [fresh now mail hash|now i d|now i|i]; cbn in *.
  - by apply saveUser_unheld.
  - unfold updateUser. destruct (map_get i (users s)) as [c|] eqn:Hc; [|done]. cbn [snd].
    pose proof (map_get_unheld h s i c Hu Hc) as Hch.
    apply saveUser_unheld; [by case_if|]. cbn. destruct (u_resetToken d) as [| |t]; [done|done|]. cbn.
    intros [= ->]. by rewrite String.eqb_refl in Hi.
  - unfold promoteUserToBusinessAdmin. destruct (map_get i (users s)) as [c|] eqn:Hc; [|done].
    pose proof (map_get_unheld h s i c Hu Hc) as Hch. case_if; [done|]. case_if; [done|]. by apply saveUser_unheld.
  - unfold deleteUser. destruct (map_get i (users s)); [|done]. unfold unheld in *. cbn. clear -Hu.
    induction Hu as [|[k v] l Hv Hl IH]; cbn; [done|]. destruct (negb (String.eqb i k)); [by constructor|done].
Qed.

Lemma run_unheld h os s : unheld h s → forallb (λ o, negb (issues h o)) os = true → unheld h (run os s).
Proof.
  revert s. induction os as [|o os IH]; intros s Hu; cbn; [done|]. intros [Ho Hos]%andb_true_iff.
  apply IH; [|done]. apply step_unheld; [done|]. by apply negb_true_iff.
Qed.

Definition event_mail (e : signup_event) : string := let '(Finish _ _ _ mail _) := e in mail.
Definition created (a : result SignupErrorType User) : bool := match a with Ok _ => true | Err _ => false end.

(** Creating an account uses up its id only. *)
Lemma fresh_ids_save es u s :
  forallb (λ '(Finish _ f _ _ _), negb (String.eqb f (id u))) es = true → fresh_ids es s = true →
  fresh_ids es (saveUser u s) = true.
Proof.
  induction es as [|[n f h m r] es IH]; cbn; [done|].
  intros [Hx Hy]%andb_true_iff [[[Ha Hb]%andb_true_iff Hg]%andb_true_iff Hr]%andb_true_iff.
  rewrite Ha, Hb, map_get_set. apply negb_true_iff in Hx. rewrite Hx, Hg. by apply IH.
Qed.

(** What the last step of one signup does. *)
Lemma finish_one isIP6 cfg now fresh hash mail r es l s :
  sound s → complete s → fresh_ids (Finish now fresh hash mail r :: es) s = true →
  let '(a, _, s1) := signup_finish isIP6 cfg now fresh hash mail r l s in
  (sound s1 ∧ complete s1 ∧ fresh_ids es s1 = true) ∧
  (created a = true ↔ findUserByEmail mail s = None) ∧
  (∀ i u, map_get i (users s) = Some u → map_get i (users s1) = Some u) ∧
  (∀ m, findUserByEmail m s1 = None ↔ findUserByEmail m s = None ∧ mail ≠ m).
Proof.
  intros Hs Hc Hf. cbn [fresh_ids] in Hf. apply andb_true_iff in Hf as [[[Hne Hdis]%andb_true_iff Hnew]%andb_true_iff Hf].
  assert (Hfe : fresh ≠ EmptyString) by (by destruct fresh).
  assert (Hfn : map_get fresh (users s) = None) by (by destruct (map_get fresh (users s))).
  unfold signup_finish. destruct (findUserByEmail mail s) as [u|] eqn:Hm.
  { split_and!; [done|done|done|done|done|]. intros m. split; [|by intros [? _]]. intros Hn. split; congruence. }
  pose proof (find_after_create fresh now mail hash) as Hfa. unfold createUser in *.
  set (u := {| id := fresh; email := mail; passwordHash := hash; createdAt := now; updatedAt := now;
               resetToken := None; resetTokenExpiry := None; role := user |}) in *.
  pose proof (find_email_free mail fresh s Hs Hc Hm) as Hfree. cbn zeta. split_and!.
  - apply (step_sound (Create fresh now mail hash)); [done|]. cbn. by rewrite Hne, Hfn.
  - apply (step_complete (Create fresh now mail hash)); [done|done| |done]. cbn. by rewrite Hne, Hfn.
  - by apply fresh_ids_save.
  - done.
  - intros i v Hi. cbn. rewrite map_get_set. destruct (String.eqb_spec i fresh) as [->|]; [congruence|done].
  - intros m. rewrite (Hfa m s Hs Hfe Hfn). destruct (String.eqb_spec m mail) as [->|Hmm].
    { split; [done|]. by intros [_ ?]. }
    split; [intros Hn; split; congruence|by intros [? _]].
Qed.

(** The store a list of finishing signups leaves. *)
Lemma finish_all_store isIP6 cfg es l s :
  sound s → complete s → fresh_ids es s = true →
  let s' := (finish_all isIP6 cfg es l s).2 in
  sound s' ∧ complete s' ∧ (∀ i u, map_get i (users s) = Some u → map_get i (users s') = Some u).
Proof.
  revert l s. induction es as [|[now fresh hash mail r] es IH]; intros l s Hs Hc Hf; cbn zeta; [by cbn|].
  pose proof (finish_one isIP6 cfg now fresh hash mail r es l s Hs Hc Hf) as H1. cbn [finish_all].
  destruct (signup_finish isIP6 cfg now fresh hash mail r l s) as [[a l1] s1].
  destruct H1 as ((Hs1 & Hc1 & Hf1) & _ & Hk & _). destruct (IH l1 s1 Hs1 Hc1 Hf1) as (H1 & H2 & H3).
  destruct (finish_all isIP6 cfg es l1 s1) as [rest s2]. cbn [snd] in *. split_and!; [done|done|].
  intros i u Hi. by apply H3, Hk.
Qed.

(** Which of them created an account. *)
Lemma finish_all_answers isIP6 cfg es l s k e :
  sound s → complete s → fresh_ids es s = true → es !! k = Some e →
  ∃ a, (finish_all isIP6 cfg es l s).1 !! k = Some a ∧
    (created a = true ↔ findUserByEmail (event_mail e) s = None ∧
       ∀ j e', (j < k)%nat → es !! j = Some e' → event_mail e' ≠ event_mail e).
Proof.
  revert l s k. induction es as [|[now fresh hash mail r] es IH]; intros l s k Hs Hc Hf Hk; [done|].
  pose proof (finish_one isIP6 cfg now fresh hash mail r es l s Hs Hc Hf) as H1. cbn [finish_all].
  destruct (signup_finish isIP6 cfg now fresh hash mail r l s) as [[a l1] s1].
  destruct H1 as ((Hs1 & Hc1 & Hf1) & Ha & _ & Hm). destruct k as [|k].
  - injection Hk as <-. destruct (finish_all isIP6 cfg es l1 s1) as [rest s2]. exists a. split; [done|]. cbn [event_mail].
    rewrite Ha. split; [intros Hn; split; [done|lia]|by intros [? _]].
  - destruct (IH l1 s1 k Hs1 Hc1 Hf1 Hk) as (b & Hb & Hbs).
    destruct (finish_all isIP6 cfg es l1 s1) as [rest s2]. exists b. split; [done|]. rewrite Hbs, Hm. split.
    + intros [[Hn Hne] Hj]. split; [done|]. intros [|j] e' Hlt He'; [by injection He' as <-|apply (Hj j e'); [lia|done]].
    + intros [Hn Hj]. split; [split; [done|apply (Hj 0%nat _ ltac:(lia) eq_refl)]|].
      intros j e' Hlt He'. apply (Hj (S j) e'); [lia|done].
Qed.

(** ** Theorems *)

(** C28. Signups that passed their first check in any state and finish in any
    order leave at most one account per address, and exactly the first to
    finish for an address that had no account creates it; every other one is
    refused, and no existing account changes. *)
Theorem signups_one_account isIP6 cfg es l s :
  sound s → complete s → fresh_ids es s = true →
  let '(answers, s') := finish_all isIP6 cfg es l s in
  (∀ i j u v, map_get i (users s') = Some u → map_get j (users s') = Some v → email u = email v → i = j) ∧
  (∀ k e, es !! k = Some e → ∃ a, answers !! k = Some a ∧
     (created a = true ↔ findUserByEmail (event_mail e) s = None ∧
        ∀ j e', (j < k)%nat → es !! j = Some e' → event_mail e' ≠ event_mail e)) ∧
  (∀ i u, map_get i (users s) = Some u → map_get i (users s') = Some u).
Proof.
  intros Hs Hc Hf. pose proof (finish_all_store isIP6 cfg es l s Hs Hc Hf) as (Hs' & Hc' & Hk).
  pose proof (λ k e, finish_all_answers isIP6 cfg es l s k e Hs Hc Hf) as Ha.
  destruct (finish_all isIP6 cfg es l s) as [answers s']. cbn [fst snd] in *. split_and!; [|exact Ha|exact Hk].
  intros i j u v Hi Hj He. apply Hc' in Hi, Hj. congruence.
Qed.

(** After a successful signup the owner logs in with the password, and
    can ask for a reset mail, when the local part of the address has no plus.
    When it has one, neither works with the address the account was requested
    for, unless another account has exactly that address. *)
Theorem signup_address_logs_in isIP6 cfg verify now fresh hash mail m r l s u password :
  sound s → fresh ≠ EmptyString → map_get fresh (users s) = None →
  s_email r = Text mail → validateSignupRequest r cfg = Ok m → verify password hash = true →
  let '(a, _, s') := signup_finish isIP6 cfg now fresh hash m r l s in
  a = Ok u →
  if plus_address mail
  then findUserByEmail (login_email mail) s = None →
       login verify (login_email mail) password s' = None ∧ forgot_lookup mail s' = Ok None
  else login verify (login_email mail) password s' = Some u ∧ forgot_lookup mail s' = Ok (Some u).
Proof.
  intros Hs Hfe Hfn Hr Hv Hver. destruct (validated_address r cfg m mail Hv Hr) as [-> Hne]. unfold signup_finish.
  destruct (findUserByEmail (normalizeEmail mail false) s) eqn:Hm; [done|].
  pose proof (find_after_create fresh now (normalizeEmail mail false) hash (login_email mail) s Hs Hfe Hfn) as Hf.
  destruct (createUser fresh now (normalizeEmail mail false) hash s) as [u' s'] eqn:Hcr.
  assert (passwordHash u' = hash) as Hp by (unfold createUser in Hcr; by injection Hcr as <- _).
  intros [= ->]. unfold login, forgot_lookup. rewrite Hne. change (to_lower (trim mail)) with (login_email mail).
  rewrite Hf. pose proof (normalisations_agree mail) as Hag. rewrite String.eqb_sym. destruct (plus_address mail).
  - intros Hn. destruct (String.eqb_spec (normalizeEmail mail false) (login_email mail)) as [He|]; [|by rewrite Hn].
    by apply Hag in He.
  - rewrite (proj2 Hag eq_refl), String.eqb_refl, Hp, Hver. done.
Qed.

(** C29. A reset replaces the password of the one user whose unexpired token
    it presents, and nothing of anybody else; after that the token is dead:
    whatever happens to the users meanwhile, as long as the same hash is not
    issued again, presenting it changes nothing and is refused. *)
Theorem reset_token_single_use sha256 now minLength token pw hash s s' :
  sound s → resetPassword sha256 now minLength token pw hash s = (Ok tt, s') →
  ∃ u, map_get (id u) (users s) = Some u ∧ resetToken u = Some (hashResetToken sha256 token) ∧
    (∃ e, resetTokenExpiry u = Some e ∧ now < e) ∧
    (∀ verify password, verify password hash = true → findUserByEmail (email u) s = Some u →
       id <$> login verify (email u) password s' = Some (id u)) ∧
    (∀ j, j ≠ id u → map_get j (users s') = map_get j (users s)) ∧
    ((∀ j v, map_get j (users s) = Some v → resetToken v = Some (hashResetToken sha256 token) → j = id u) →
     ∀ os now2 min2 pw2 hash2,
       forallb (λ o, negb (issues (hashResetToken sha256 token) o)) os = true →
       ∃ e, resetPassword sha256 now2 min2 token pw2 hash2 (run os s') = (Err e, run os s')).
Proof.
  intros Hs. unfold resetPassword at 1. destruct (reset_lookup sha256 now minLength token pw s) as [u|] eqn:Hl; [|done].
  intros [= <-]. apply looked_up in Hl as Hf. destruct (found_by_token _ _ _ _ Hs Hf) as (Hu & Ht & He).
  exists u. unfold reset_commit, updateUserPassword. set (d := {| u_email := None; u_passwordHash := Some hash |}).
  pose proof (updateUser_get now (id u) d s) as Hget. split_and!; [done|done|done| | |].
  - intros verify password Hver Hm. unfold login, findUserByEmail in *. unfold updateUser. rewrite Hu.
    destruct (map_get (email u) (emailIndex s)) as [i|] eqn:Hi; [|done]. destruct (is_empty i) eqn:Hie; [done|].
    rewrite String.eqb_refl. cbn [negb snd].
    assert (i = id u) as -> by (symmetry; exact (proj1 (s_id _ Hs i u Hm))).
    cbn -[map_set]. rewrite map_get_set, String.eqb_refl, Hie, map_get_set, String.eqb_refl. cbn [passwordHash apply_updates u_passwordHash d default from_option Datatypes.id]. by rewrite Hver.
  - intros j Hj. rewrite Hget by done. by destruct (String.eqb_spec j (id u)).
  - intros Honly os now2 min2 pw2 hash2 Hos.
    assert (unheld (hashResetToken sha256 token) (run os (updateUser now (id u) d s).2)) as Hun.
    { apply run_unheld; [|done]. apply unheld_get; [by apply s_nodup, updateUser_sound|].
      intros j v. rewrite Hget by done. destruct (String.eqb_spec j (id u)) as [->|Hj].
      - rewrite Hu. by intros [= <-].
      - intros Hv Hh. by apply Hj, (Honly j v). }
    by apply unheld_refused.
Qed.

(** Two resets that both looked the token up before the first one stored
    its password both succeed, and the later password stays. *)
Theorem overlapping_resets_both_succeed sha256 now1 now2 min token pw1 pw2 hash1 hash2 u1 u2 s :
  sound s → reset_lookup sha256 now1 min token pw1 s = Ok u1 → reset_lookup sha256 now2 min token pw2 s = Ok u2 →
  (∀ j v, map_get j (users s) = Some v → resetToken v = Some (hashResetToken sha256 token) → j = id u1) →
  let s' := reset_commit now2 u2 hash2 (reset_commit now1 u1 hash1 s) in
  u1 = u2 ∧ passwordHash <$> findUserById (id u1) s' = Some hash2.
Proof.
  intros Hs H1 H2 Honly. apply looked_up in H1 as Hf1. apply looked_up in H2 as Hf2.
  destruct (found_by_token _ _ _ _ Hs Hf1) as (Hu1 & Ht1 & _), (found_by_token _ _ _ _ Hs Hf2) as (Hu2 & Ht2 & _).
  pose proof (Honly _ _ Hu2 Ht2) as Hid. assert (u2 = u1) as -> by congruence. cbn zeta. split; [done|].
  unfold findUserById, reset_commit, updateUserPassword.
  rewrite updateUser_get by by apply updateUser_sound. rewrite String.eqb_refl, updateUser_get by done.
  by rewrite String.eqb_refl, Hu1.
Qed.

(** When two reset mails are requested and the delivery of the first one
    fails after the second token was stored, the link of the second mail is
    dead, although it was delivered. *)
Theorem failed_delivery_kills_newer_token sha256 now1 now2 now3 now4 ttl u token1 token2 d min pw hash s :
  sound s → map_get (id u) (users s) = Some u → d ≠ Delivered →
  (∀ j v, map_get j (users s) = Some v → j ≠ id u → resetToken v ≠ Some (hashResetToken sha256 token2)) →
  let s2 := forgot_issue sha256 now2 ttl u token2 (forgot_issue sha256 now1 ttl u token1 s) in
  let s3 := (forgot_finish now3 u d s2).2 in
  (∀ now, now < now2 + ttl * 60 * 1000 →
     id <$> findUserByResetTokenHash now (hashResetToken sha256 token2) s2 = Some (id u)) ∧
  ∃ e, resetPassword sha256 now4 min token2 pw hash s3 = (Err e, s3).
Proof.
  intros Hs Hu Hd Honly. cbn zeta. set (s2 := forgot_issue sha256 now2 ttl u token2 _).
  assert (sound s2) as Hs2 by by apply updateUser_sound, updateUser_sound.
  assert (Hother : ∀ j, j ≠ id u → map_get j (users s2) = map_get j (users s)).
  { intros j Hj. subst s2. unfold forgot_issue, setResetToken. pose proof (proj2 (String.eqb_neq j (id u)) Hj) as Hb.
    rewrite updateUser_get, Hb by by apply updateUser_sound. by rewrite updateUser_get, Hb. }
  assert (Hown : ∃ v, map_get (id u) (users s2) = Some v ∧ id v = id u ∧ resetToken v = Some (hashResetToken sha256 token2) ∧
            resetTokenExpiry v = Some (now2 + ttl * 60 * 1000)).
  { subst s2. unfold forgot_issue, setResetToken. rewrite updateUser_get by by apply updateUser_sound. rewrite updateUser_get by done.
    rewrite String.eqb_refl, Hu. cbn. eexists. by split_and!. }
  destruct Hown as (v & Hv & Hid & Ht & He). split.
  - intros now Hnow. destruct (findUserByResetTokenHash now (hashResetToken sha256 token2) s2) as [w|] eqn:Hf.
    + destruct (found_by_token _ _ _ _ Hs2 Hf) as (Hw & Htw & _). cbn. f_equal.
      destruct (decide (id w = id u)) as [|Hne]; [done|]. exfalso. rewrite Hother in Hw by done. by apply (Honly _ _ Hw Hne).
    + exfalso. unfold findUserByResetTokenHash in Hf.
      apply (find_none _ _) with (x := v) in Hf; [|apply in_map_iff; exists (id u, v); split; [done|];
        by apply list_elem_of_In, map_get_Some].
      unfold holds_token in Hf. rewrite Ht, He, String.eqb_refl, (proj2 (Z.ltb_lt _ _) Hnow) in Hf. done.
  - assert (unheld (hashResetToken sha256 token2) (forgot_finish now3 u d s2).2) as Hun.
    { destruct d; [done| |]; (apply unheld_get; [by apply s_nodup, updateUser_sound|]);
        intros j w; cbn [forgot_finish snd]; rewrite updateUser_get by done;
        (destruct (String.eqb_spec j (id u)) as [->|Hj];
         [rewrite Hv; by intros [= <-]|rewrite Hother by done; intros Hw; by apply (Honly j w)]). }
    by apply unheld_refused.
Qed.

(** ** Witnesses *)

Definition sample_config : SignupServiceConfig :=
  {| abusePrevention := AbusePrevention.DEFAULT_ABUSE_PREVENTION_CONFIG;
     rateLimit := SignupLimiter.DEFAULT_SIGNUP_RATE_LIMIT_CONFIG; enableHoneypot := true |}.

Definition request_of (mail : string) : SignupRequest :=
  {| s_email := Text mail; s_password := Text "Vx7!kQ2#mZ9p"; ipAddress := Some "10.0.0.1"; website := None |}.

(** One account, whose holder has just asked for a reset. *)
Definition one_account : store := (createUser "u1" 0 "ann@x.io" "old" empty_store).2.
Definition reset_asked : store := (setResetToken 0 "u1" "t" 15 one_account).2.

Lemma one_account_sound : sound one_account ∧ complete one_account.
Proof.
  exact (run_complete [Create "u1" 0 "ann@x.io" "old"] empty_store (proj1 sound_empty) (proj2 sound_empty) eq_refl).
Qed.

Lemma reset_asked_sound : sound reset_asked.
Proof. apply updateUser_sound, one_account_sound. Qed.

Lemma reset_asked_only j v :
  map_get j (users reset_asked) = Some v → j = "u1".
Proof. destruct (String.eqb_spec j "u1") as [|Hj]; [done|]. cbn. by rewrite (proj2 (String.eqb_neq j "u1") Hj). Qed.

Lemma signups_one_account_witness :
  let es := [Finish 1 "a" "h1" "bob@x.io" (request_of "bob@x.io"); Finish 2 "b" "h2" "bob@x.io" (request_of "bob@x.io")] in
  ∃ a, (finish_all (λ _, false) sample_config es (SignupLimiter.new_store 0) one_account).1 !! 1%nat = Some a ∧
       created a ≠ true.
Proof.
  intros es. destruct one_account_sound as [Hs Hc].
  pose proof (signups_one_account (λ _, false) sample_config es (SignupLimiter.new_store 0) one_account Hs Hc eq_refl) as H.
  destruct (finish_all (λ _, false) sample_config es (SignupLimiter.new_store 0) one_account) as [answers s'].
  destruct H as (_ & Ha & _). destruct (Ha 1%nat _ eq_refl) as (a & Hk & Hcr). exists a. split; [exact Hk|].
  intros Ht. apply Hcr in Ht as [_ Hj]. exact (Hj 0%nat _ ltac:(lia) eq_refl eq_refl).
Defined.

Lemma signup_address_logs_in_witness :
  let mail := "Bob+shop@x.io" in
  let s' := (signup_finish (λ _, false) sample_config 1 "a" "h" "bob@x.io" (request_of mail) (SignupLimiter.new_store 0) one_account).2 in
  email <$> findUserByEmail "bob@x.io" s' = Some "bob@x.io" ∧
  login (λ _ _, true) (login_email mail) "Vx7!kQ2#mZ9p" s' = None.
Proof.
  intros mail s'. split; [reflexivity|].
  exact (proj1 (signup_address_logs_in (λ _, false) sample_config (λ _ _, true) 1 "a" "h" mail "bob@x.io" (request_of mail)
    (SignupLimiter.new_store 0) one_account (createUser "a" 1 "bob@x.io" "h" one_account).1 "Vx7!kQ2#mZ9p"
    (proj1 one_account_sound) ltac:(discriminate) eq_refl eq_refl ltac:(vm_compute; reflexivity) eq_refl eq_refl eq_refl)).
Defined.

Lemma reset_token_single_use_witness :
  let s' := (resetPassword (λ t, t) 5 8 "t" "new-password" "new" reset_asked).2 in
  ∃ e, resetPassword (λ t, t) 6 8 "t" "other-password" "other" (run [Promote 7 "u1"] s') = (Err e, run [Promote 7 "u1"] s').
Proof.
  destruct (reset_token_single_use (λ t, t) 5 8 "t" "new-password" "new" reset_asked _ reset_asked_sound eq_refl)
    as (u & Hu & _ & _ & _ & _ & H).
  apply H; [|reflexivity]. intros j v Hj _. rewrite (reset_asked_only j v Hj), (reset_asked_only _ _ Hu). reflexivity.
Defined.

Lemma overlapping_resets_both_succeed_witness :
  let u := default (createUser "" 0 "" "" empty_store).1 (findUserById "u1" reset_asked) in
  passwordHash <$> findUserById "u1" (reset_commit 7 u "thief" (reset_commit 6 u "owner" reset_asked)) = Some "thief".
Proof.
  refine (proj2 (overlapping_resets_both_succeed (λ t, t) 5 5 8 "t" "new-password" "other-password" "owner" "thief" _ _
    reset_asked reset_asked_sound eq_refl eq_refl _)).
  intros j v Hj _. exact (reset_asked_only j v Hj).
Defined.

Lemma failed_delivery_kills_newer_token_witness :
  let u := default (createUser "" 0 "" "" empty_store).1 (findUserById "u1" one_account) in
  let s2 := forgot_issue (λ t, t) 2 15 u "t2" (forgot_issue (λ t, t) 1 15 u "t1" one_account) in
  id <$> findUserByResetTokenHash 10 "t2" s2 = Some "u1" ∧
  ∃ e, resetPassword (λ t, t) 9 8 "t2" "new-password" "new" (forgot_finish 3 u Retryable s2).2 =
       (Err e, (forgot_finish 3 u Retryable s2).2).
Proof.
  intros u s2.
  destruct (failed_delivery_kills_newer_token (λ t, t) 1 2 3 9 15 u "t1" "t2" Retryable 8 "new-password" "new" one_account
    (proj1 one_account_sound) eq_refl ltac:(discriminate)) as [Hfound Hdead].
  - intros j v Hj Hne. destruct Hne. revert Hj. cbn. destruct (String.eqb_spec j "u1"); done.
  - split; [apply Hfound; reflexivity|exact Hdead].
Defined.
