(* ===== verification/Idempotency.v ===== *)
(** * Idempotent requests: [src/middleware/idempotency.ts].

    The middleware looks a key up, answers from the cache or lets the route
    handler run, and caches the handler's 2xx answer.  The lookup and the
    caching are separate steps with the handler in between.  Bodies are a type
    [Body] with its [JSON.stringify]; SHA-256 is a parameter. *)

From S2P Require Import Prelude Numeric Hashing JsString CircuitBreaker.
#[local] Open Scope Z_scope.

(** ** Keys *)

Definition DEFAULT_TTL_MS : Z := 24 * 60 * 60 * 1000.
Definition MIN_KEY_LENGTH : nat := 8.
Definition MAX_KEY_LENGTH : nat := 256.

(** [n] hexadecimal characters, then the rest. *)
Fixpoint take_hex (n : nat) (s : string) : option string :=
  match n, s with
  | O, _ => Some s
  | S n, String c r => if is_hex_char c then take_hex n r else None
  | S _, EmptyString => None
  end.

(** [/^[0-9a-f]{8}-[0-9a-f]{4}-[0-9a-f]{4}-[0-9a-f]{4}-[0-9a-f]{12}$/i] *)
Definition UUID_PATTERN (s : string) : bool :=
  match (r ← take_hex 8 s; r ← strip_prefix "-" r; r ← take_hex 4 r; r ← strip_prefix "-" r;
         r ← take_hex 4 r; r ← strip_prefix "-" r; r ← take_hex 4 r; r ← strip_prefix "-" r;
         take_hex 12 r) with
  | Some EmptyString => true
  | _ => false
  end.

Definition isValidKeyFormat (key : string) (strict : bool) : bool :=
  if (String.length key <? MIN_KEY_LENGTH)%nat || (MAX_KEY_LENGTH <? String.length key)%nat then false
  else if strict && negb (UUID_PATTERN key) then false
  else true.

Definition tenant_char (c : ascii) : bool :=
  in_range 97 122 c || in_range 65 90 c || in_range 48 57 c || Ascii.eqb c "-" || Ascii.eqb c "_".

(** [/^[a-zA-Z0-9\-_]{1,100}$/] *)
Definition TENANT_RE (s : string) : bool :=
  (1 <=? String.length s)%nat && (String.length s <=? 100)%nat && string_forallb tenant_char s.

Definition generateStoreKey (scope userKey keyValue : string) : string :=
  let tenantTag := if TENANT_RE userKey then "{" +:+ userKey +:+ "}" else userKey in
  "idempotency:" +:+ scope +:+ ":" +:+ tenantTag +:+ ":" +:+ keyValue.

(** ** Entries and the in-memory store *)

Record IdempotencyEntry (Body : Type) := {
  status : Z; body : Body; requestHash : string; createdAt : Z }.
Arguments status {Body} _. Arguments body {Body} _. Arguments requestHash {Body} _.
Arguments createdAt {Body} _. Arguments Build_IdempotencyEntry {Body}.

Definition MAX_MEMORY_STORE_SIZE : nat := Z.to_nat 10000.

Section MemoryStore.
Context {Body : Type}.

Abbreviation rows := (gmap string (IdempotencyEntry Body * Z)).

Definition live_rows (now : Z) (m : rows) : rows := filter (λ '(_, v), ¬ v.2 < now) m.

(** The pruned store and the number of evictions. *)
Definition pruneExpiredMemoryStore (now : Z) (m : rows) : nat * rows :=
  let m' := live_rows now m in ((size m - size m')%nat, m').

Definition store_get (now : Z) (key : string) (m : rows) : option (IdempotencyEntry Body) * rows :=
  match m !! key with
  | None => (None, m)
  | Some (entry, expiresAt) => if expiresAt <? now then (None, delete key m) else (Some entry, m)
  end.

Definition store_set (now : Z) (key : string) (entry : IdempotencyEntry Body) (ttlMs : Z) (m : rows) : rows :=
  let insert_row m := <[key := (entry, now + ttlMs)]> m in
  if (MAX_MEMORY_STORE_SIZE <=? size m)%nat then
    let m := (pruneExpiredMemoryStore now m).2 in
    if (MAX_MEMORY_STORE_SIZE <=? size m)%nat then m else insert_row m
  else insert_row m.

Definition store_delete (key : string) (m : rows) : rows := delete key m.
Definition store_clear (m : rows) : rows := ∅.
Definition sweepExpired (now : Z) (m : rows) : nat * rows := pruneExpiredMemoryStore now m.
Definition store_count (m : rows) : nat := size m.
End MemoryStore.
Abbreviation rows Body := (gmap string (IdempotencyEntry Body * Z)).

(** ** The middleware *)

(** The [idempotency-key] header: absent, a string, or repeated. *)
Inductive header_value := HNone | HString (s : string) | HArray (l : list string).

Record request (Body : Type) := {
  r_header : header_value;
  r_user : option string;   (* [req.user.id] *)
  r_ip : option string;
  r_body : option Body;     (* [None]: no body, or a falsy one *)
}.
Arguments r_header {Body} _. Arguments r_user {Body} _. Arguments r_ip {Body} _. Arguments r_body {Body} _.
Arguments Build_request {Body}.

Section Middleware.
Context {Body : Type} (stringify : Body → string) (hash : string → string).

Record options := {
  scope : string;
  o_ttlMs : option Z;
  getUserKey : option (request Body → string);
  strictKeyFormat : bool;
  validateKey : option (string → bool);
  skipIf : request Body → bool;
}.

Definition generateRequestHash (b : option Body) : string :=
  hash (match b with Some b => stringify b | None => EmptyString end).

Definition default_user_key (req : request Body) : string :=
  match r_user req with Some id => id | None => default "anonymous" (r_ip req) end.

Definition key_value (h : header_value) : string :=
  match h with
  | HString s => trim s
  | HArray l => default EmptyString (trim <$> head l)
  | HNone => EmptyString
  end.

(** The answers the middleware gives itself. *)
Inductive refusal := KeyRequired | KeyInvalid | KeyCollision.

Definition refusal_status (r : refusal) : Z :=
  match r with KeyRequired | KeyInvalid => 400 | KeyCollision => 422 end.

(** Up to the lookup: go on unprotected, refuse, or look a key up. *)
Inductive received := Skip | Refuse (r : refusal) | Lookup (storeKey hash : string).

Definition receive (o : options) (req : request Body) : received :=
  if skipIf o req then Skip
  else
    let keyValue := key_value (r_header req) in
    if is_empty keyValue then Refuse KeyRequired
    else if negb (default (λ k, isValidKeyFormat k (strictKeyFormat o)) (validateKey o) keyValue)
    then Refuse KeyInvalid
    else
      let userKey := default default_user_key (getUserKey o) req in
      Lookup (generateStoreKey (scope o) userKey keyValue) (generateRequestHash (r_body req)).

(** What the client or the handler gets. *)
Inductive outcome :=
| Refused (r : refusal)
| Replayed (status : Z) (body : Body)
| RunHandler (storeKey : option (string * string)).

Definition resume (storeKey h : string) (cached : option (IdempotencyEntry Body)) : outcome :=
  match cached with
  | Some e => if negb (String.eqb (requestHash e) h) then Refused KeyCollision
              else Replayed (status e) (body e)
  | None => RunHandler (Some (storeKey, h))
  end.

Definition idempotencyMiddleware (o : options) (now : Z) (req : request Body) (m : rows Body)
  : outcome * rows Body :=
  match receive o req with
  | Skip => (RunHandler None, m)
  | Refuse r => (Refused r, m)
  | Lookup storeKey h =>
      let '(cached, m) := store_get now storeKey m in (resume storeKey h cached, m)
  end.

(** [res.json(b)] by the handler, after the last [res.status(code)] if any. *)
Definition handler_responds (o : options) (now : Z) (key : string * string) (code : option Z) (b : Body)
    (m : rows Body) : rows Body :=
  let statusCode := default 200 code in
  if (200 <=? statusCode) && (statusCode <? 300) then
    store_set now key.1
      {| status := statusCode; body := b; requestHash := key.2; createdAt := now |}
      (default DEFAULT_TTL_MS (o_ttlMs o)) m
  else m.

(** ** Interleavings

    Requests arrive, handlers answer, the sweeper runs, in any order. *)
Inductive event :=
| Arrive (o : options) (now : Z) (req : request Body)
| Answer (o : options) (now : Z) (key : string * string) (code : option Z) (b : Body)
| Sweep (now : Z).

Definition event_time (e : event) : Z :=
  match e with Arrive _ now _ | Answer _ now _ _ _ | Sweep now => now end.

Definition apply (e : event) (m : rows Body) : rows Body :=
  match e with
  | Arrive o now req => (idempotencyMiddleware o now req m).2
  | Answer o now key code b => handler_responds o now key code b m
  | Sweep now => (sweepExpired now m).2
  end.

Fixpoint run (es : list event) (m : rows Body) : rows Body :=
  match es with [] => m | e :: es => run es (apply e m) end.

(** ** Lemmas *)

Lemma live_rows_lookup now m k :
  live_rows (Body := Body) now m !! k =
  match m !! k with Some v => if v.2 <? now then None else Some v | None => None end.
Proof.
  unfold live_rows. rewrite map_lookup_filter. destruct (m !! k) as [[e t]|]; [|done]. cbn.
  destruct (t <? now) eqn:E; case_guard; (done || lia).
Qed.

Lemma live_rows_size now (m : rows Body) : (size (live_rows now m) ≤ size m)%nat.
Proof. apply map_subseteq_size. apply map_filter_subseteq. Qed.

Lemma store_set_size now k e ttl (m : rows Body) :
  (size m ≤ MAX_MEMORY_STORE_SIZE)%nat → (size (store_set now k e ttl m) ≤ MAX_MEMORY_STORE_SIZE)%nat.
Proof.
  intros Hm. unfold store_set, pruneExpiredMemoryStore. cbn [snd].
  assert (∀ m' : rows Body, (size m' < MAX_MEMORY_STORE_SIZE)%nat →
            (size (<[k := (e, (now + ttl)%Z)]> m') ≤ MAX_MEMORY_STORE_SIZE)%nat) as Hins.
  { intros m' H. destruct (m' !! k) eqn:E; [rewrite map_size_insert_Some by (by rewrite E)|rewrite map_size_insert_None by done]; lia. }
  pose proof (live_rows_size now m).
  repeat case_if; [lia|apply Hins|apply Hins];
    match goal with H : (_ <=? _)%nat = false |- _ => apply Nat.leb_gt in H; lia end.
Qed.

Lemma get_size now k (m : rows Body) : (size (store_get now k m).2 ≤ size m)%nat.
Proof.
  unfold store_get. destruct (m !! k) as [[e t]|] eqn:E; [|done]. case_if; [|done]. cbn [snd].
  apply map_subseteq_size, delete_subseteq.
Qed.

Lemma apply_size e m :
  (size m ≤ MAX_MEMORY_STORE_SIZE)%nat → (size (apply e m) ≤ MAX_MEMORY_STORE_SIZE)%nat.
Proof.
  intros Hm. destruct e as [o now req|o now key code b|now]; cbn [apply].
  - unfold idempotencyMiddleware. destruct (receive o req) as [|r|k h]; [done..|].
    pose proof (get_size now k m). destruct (store_get now k m). cbn [snd] in *. lia.
  - unfold handler_responds. case_if; [by apply store_set_size|done].
  - cbn [sweepExpired pruneExpiredMemoryStore snd]. pose proof (live_rows_size now m). lia.
Qed.

(** The 2xx answers under a key; the others are not cached.  A row that has
    not expired is kept by every other step. *)
Definition caches (k : string) (e : event) : bool :=
  match e with
  | Answer _ _ key code _ => String.eqb key.1 k && (200 <=? default 200 code) && (default 200 code <? 300)
  | _ => false
  end.

Lemma apply_keeps e m k entry until :
  event_time e ≤ until → caches k e = false → m !! k = Some (entry, until) →
  apply e m !! k = Some (entry, until).
Proof.
  intros Ht Hc Hk. destruct e as [o now req|o now key code b|now]; cbn [apply event_time caches] in *.
  - unfold idempotencyMiddleware. destruct (receive o req) as [|r|k' h]; [done..|].
    unfold store_get. destruct (m !! k') as [[e' t']|] eqn:E; [|done]. case_if; [|done]. cbn [snd].
    rewrite lookup_delete_ne; [done|]. intros ->. rewrite Hk in E. injection E as <- <-. lia.
  - assert (live_rows now m !! k = Some (entry, until)) as Hl.
    { rewrite live_rows_lookup, Hk. cbn. by assert ((until <? now) = false) as -> by lia. }
    unfold handler_responds. destruct ((200 <=? default 200 code) && (default 200 code <? 300)) eqn:H2; [|done].
    assert (key.1 ≠ k) by (intros E; by rewrite <- andb_assoc, E, String.eqb_refl, H2 in Hc).
    unfold store_set, pruneExpiredMemoryStore. cbn [snd].
    repeat case_if; rewrite ?lookup_insert_ne by done; done.
  - cbn [sweepExpired pruneExpiredMemoryStore snd]. rewrite live_rows_lookup, Hk. cbn.
    by assert ((until <? now) = false) as -> by lia.
Qed.

Lemma run_keeps es m k entry until :
  Forall (λ e, event_time e ≤ until ∧ caches k e = false) es → m !! k = Some (entry, until) →
  run es m !! k = Some (entry, until).
Proof.
  revert m. induction es as [|e es IH]; intros m Hf Hk; [done|]. apply Forall_cons in Hf as [[H1 H2] Hf].
  cbn [run]. apply IH; [done|]. by apply apply_keeps.
Qed.

Lemma store_set_stored now k e ttl (m : rows Body) :
  (size m < MAX_MEMORY_STORE_SIZE)%nat → store_set now k e ttl m !! k = Some (e, now + ttl).
Proof.
  intros H. unfold store_set. destruct (MAX_MEMORY_STORE_SIZE <=? size m)%nat eqn:E;
    [apply Nat.leb_le in E; lia|]. apply lookup_insert_eq.
Qed.
End Middleware.

(** ** The Redis store

    Replies of the two clients are inputs. *)

(** A string is falsy when it is absent or empty. *)
Definition present (raw : option string) : option string :=
  match raw with Some EmptyString | None => None | Some s => Some s end.

(** [RedisIdempotencyStore.get]: [readonly] is the reply of the read replica
    when there is one; [parse] is [JSON.parse]. *)
Definition redis_get {E} (parse : string → option E) (readonly : option (option string))
    (primary : option string) : option E :=
  let raw := match readonly with
             | Some r => match present r with Some s => Some s | None => present primary end
             | None => present primary
             end in
  match raw with Some s => parse s | None => None end.

(** [executeBatch] with a pipeline: every item of the batch is settled with
    its own result, or all are rejected when the pipeline fails.  Result [i]
    is absent when the reply is too short, which throws. *)
Inductive settled := Resolve (val : option string) | Reject (error : string).

Definition pipeline_item (r : option string * option string) : settled :=
  match r.1 with Some err => Reject err | None => Resolve r.2 end.

Definition executeBatch (batch : list string) (reply : result string (option (list (option string * option string))))
  : list (string * settled) :=
  match reply with
  | Err e => map (λ k, (k, Reject e)) batch
  | Ok None => map (λ k, (k, Reject "Pipeline returned empty results")) batch
  | Ok (Some results) =>
      (* an item settles once: the later rejection of the whole batch only
         reaches those without a result *)
      imap (λ i k, (k, match results !! i with
                       | Some r => pipeline_item r
                       | None => Reject "results[i] is not iterable"
                       end)) batch
  end.

(** [count]: pages of SCAN until the cursor is 0; a refused or malformed page
    ([None]) ends the walk with the total so far. *)
Fixpoint scan_loop (fuel : nat) (replies : nat → option (string * nat)) (i : nat) (total : nat) : option nat :=
  match fuel with
  | O => None
  | S fuel =>
      match replies i with
      | None => Some total
      | Some (next, keys) =>
          if String.eqb next "0" then Some (total + keys)%nat
          else scan_loop fuel replies (S i) (total + keys)%nat
      end
  end.

Definition redis_count (fuel : nat) (has_scan : bool) (replies : nat → option (string * nat)) : option Z :=
  if has_scan then Z.of_nat <$> scan_loop fuel replies 0 0 else Some (-1).

(** ** The sweeper *)

Definition DEFAULT_SWEEP_INTERVAL_MS : Z := 60000.
Definition MIN_SWEEP_INTERVAL_MS : Z := 1000.

Definition resolveSweepIntervalMs (raw : option string) : Z :=
  match present raw with
  | None => DEFAULT_SWEEP_INTERVAL_MS
  | Some r =>
      match parse_int r with
      | Some n => if n <=? 0 then DEFAULT_SWEEP_INTERVAL_MS else Z.max MIN_SWEEP_INTERVAL_MS n
      | None => DEFAULT_SWEEP_INTERVAL_MS
      end
  end.

Record sweeper := {
  intervalMs : Z;
  runImmediately : bool;
  intervalHandle : bool;
  timeoutHandle : bool;
  inflight : bool;
  stopped : bool;
}.

Definition new_sweeper (interval : option Z) (immediately : option bool) : sweeper :=
  {| intervalMs := Z.max MIN_SWEEP_INTERVAL_MS (default DEFAULT_SWEEP_INTERVAL_MS interval);
     runImmediately := default true immediately; intervalHandle := false; timeoutHandle := false;
     inflight := false; stopped := false |}.

Definition isRunning (s : sweeper) : bool := intervalHandle s.

Definition start (s : sweeper) : sweeper :=
  if isRunning s then s
  else {| intervalMs := intervalMs s; runImmediately := runImmediately s; intervalHandle := true;
          timeoutHandle := if runImmediately s then true else timeoutHandle s;
          inflight := inflight s; stopped := false |}.

(** Up to the [await] of the running cycle. *)
Definition stop (s : sweeper) : sweeper :=
  if stopped s && negb (inflight s) then s
  else {| intervalMs := intervalMs s; runImmediately := runImmediately s; intervalHandle := false;
          timeoutHandle := false; inflight := inflight s; stopped := true |}.

(** [runOnce]: whether a new cycle was started. *)
Definition runOnce (s : sweeper) : bool * sweeper :=
  if inflight s then (false, s)
  else (true, {| intervalMs := intervalMs s; runImmediately := runImmediately s;
                 intervalHandle := intervalHandle s; timeoutHandle := timeoutHandle s;
                 inflight := true; stopped := stopped s |}).

Definition timeout_fires (s : sweeper) : bool * sweeper :=
  runOnce {| intervalMs := intervalMs s; runImmediately := runImmediately s;
             intervalHandle := intervalHandle s; timeoutHandle := false;
             inflight := inflight s; stopped := stopped s |}.

Definition cycle_ends (s : sweeper) : sweeper :=
  {| intervalMs := intervalMs s; runImmediately := runImmediately s; intervalHandle := intervalHandle s;
     timeoutHandle := timeoutHandle s; inflight := false; stopped := stopped s |}.

Record SweepResult := { evicted : Z; keys : Z; errored : bool }.

(** [executeCycle]: the replies of [sweepExpired] and [count] when the store
    has them; the gauge is set by a non-negative count. *)
Definition executeCycle (swept counted : option (result string Z)) (gauge : Z) : SweepResult * Z :=
  match swept with
  | Some (Err _) => ({| evicted := 0; keys := -1; errored := true |}, gauge)
  | _ =>
      let ev := match swept with Some (Ok n) => n | _ => 0 end in
      match counted with
      | Some (Err _) => ({| evicted := ev; keys := -1; errored := true |}, gauge)
      | Some (Ok n) => ({| evicted := ev; keys := n; errored := false |}, if 0 <=? n then n else gauge)
      | None => ({| evicted := ev; keys := -1; errored := false |}, gauge)
      end
  end.

(** A stopped sweeper has no timer armed, so no cycle starts by itself; a
    cycle starts only when none is in flight. *)
Definition disarmed (s : sweeper) : Prop :=
  stopped s = true → intervalHandle s = false ∧ timeoutHandle s = false.

Lemma sweeper_disarmed s :
  disarmed s →
  disarmed (start s) ∧ disarmed (stop s) ∧ disarmed (runOnce s).2 ∧ disarmed (timeout_fires s).2 ∧
  disarmed (cycle_ends s) ∧ stopped (stop s) = true ∧
  ((runOnce s).1 = true ↔ inflight s = false) ∧ inflight (runOnce s).2 = true.
Proof.
  unfold disarmed. destruct s as [i r ih th fl st]; cbn. intros H.
  unfold start, isRunning, stop, runOnce, timeout_fires, runOnce; cbn.
  destruct ih, th, fl, st, r; cbn in *; try (destruct (H eq_refl); discriminate); intuition congruence.
Qed.

(** ** More lemmas *)

Lemma string_app_inj_l (a b b' : string) : a +:+ b = a +:+ b' → b = b'.
Proof. intros H. by apply (string_app_inj a a b b' eq_refl) in H as [_ ?]. Qed.

(** ** Properties *)

(** C20. Replay: when a handler has answered under a key with a 2xx status
    while the store has room, and until another 2xx answer under the same key
    comes, from a request whose handler was already running, every request
    that the middleware maps to the same store key within the time to live is
    answered without running the handler: with the cached status and body when
    its body hashes the same, with 422 otherwise; whatever other requests,
    answers under other keys, failed answers under this one and sweeps happen
    in between. *)
Theorem cached_response_is_replayed {Body} (stringify : Body → string) hash
    (o o' : options) t k h code b es now req (m : rows Body) h' :
  200 ≤ default 200 code < 300 → (size m < MAX_MEMORY_STORE_SIZE)%nat →
  let until := t + default DEFAULT_TTL_MS (o_ttlMs o) in
  Forall (λ e, event_time e ≤ until ∧ caches k e = false) es → now ≤ until →
  receive stringify hash o' req = Lookup k h' →
  let m' := run stringify hash es (handler_responds o t (k, h) code b m) in
  idempotencyMiddleware stringify hash o' now req m' =
    (if String.eqb h h' then Replayed (default 200 code) b else Refused KeyCollision, m').
Proof.
  intros Hc Hs until Hf Hn Hr m'.
  assert (m' !! k = Some ({| status := default 200 code; body := b; requestHash := h; createdAt := t |}, until)) as Hk.
  { apply run_keeps; [done|]. unfold handler_responds.
    assert ((200 <=? default 200 code) && (default 200 code <? 300) = true) as -> by lia.
    by apply store_set_stored. }
  unfold idempotencyMiddleware. rewrite Hr. unfold store_get. rewrite Hk.
  assert ((until <? now) = false) as -> by lia. cbn. by destruct (String.eqb h h').
Qed.

(** Tenants do not share entries: within a scope, two requests of users
    with tenant-style identifiers have the same store key only when both the
    user and the client's key are the same. *)
Theorem store_key_separates_tenants scope u u' k k' :
  TENANT_RE u = true → TENANT_RE u' = true →
  generateStoreKey scope u k = generateStoreKey scope u' k' → u = u' ∧ k = k'.
Proof.
  intros Hu Hu'. unfold generateStoreKey. rewrite Hu, Hu'. intros He.
  apply string_app_inj_l, string_app_inj_l, string_app_inj_l in He.
  unfold TENANT_RE in Hu, Hu'. destruct_bools.
  apply (f_equal (λ s, match s with String _ r => r | _ => s end)) in He.
  change ((u +:+ "}") +:+ ":" +:+ k = (u' +:+ "}") +:+ ":" +:+ k') in He.
  rewrite <- !string_app_assoc in He.
  apply (sep_split tenant_char) in He as [-> He]; [|done..].
  split; [done|]. by apply (string_app_inj_l ":") in He.
Qed.

(** Memory: in every run from an empty store, the in-memory store holds at
    most [MAX_MEMORY_STORE_SIZE] entries. *)
Theorem store_size_bounded {Body} (stringify : Body → string) hash es :
  (size (run stringify hash es (∅ : rows Body)) ≤ MAX_MEMORY_STORE_SIZE)%nat.
Proof.
  assert (size (∅ : rows Body) ≤ MAX_MEMORY_STORE_SIZE)%nat as H by (rewrite map_size_empty; lia).
  revert H. generalize (∅ : rows Body). induction es as [|e es IH]; intros m Hm; [done|].
  cbn [run]. apply IH. by apply apply_size.
Qed.

(** There is no lock on a key: while no answer under its key has been
    cached, every request is handed to the handler, however many with the same
    key are already being handled. *)
Theorem concurrent_first_requests_all_run {Body} (stringify : Body → string) hash
    (reqs : list (options * Z * request Body)) (m : rows Body) k h :
  m !! k = None → Forall (λ '(o, _, req), receive stringify hash o req = Lookup k h) reqs →
  Forall (λ '(o, now, req),
    idempotencyMiddleware stringify hash o now req
      (run stringify hash (map (λ '(o, now, req), Arrive o now req) reqs) m) =
    (RunHandler (Some (k, h)), m)) reqs.
Proof.
  intros Hk Hr.
  assert (∀ l, Forall (λ '(o, _, req), receive stringify hash o req = Lookup k h) l →
            run stringify hash (map (λ '(o, now, req), Arrive o now req) l) m = m) as Hrun.
  { induction l as [|[[o now] req] l IH]; intros Hl; [done|]. apply Forall_cons in Hl as [H Hl].
    cbn [map run apply]. unfold idempotencyMiddleware. rewrite H. unfold store_get. rewrite Hk. cbn. by apply IH. }
  rewrite Hrun by done. eapply Forall_impl; [exact Hr|]. intros [[o now] req] H.
  unfold idempotencyMiddleware. rewrite H. unfold store_get. by rewrite Hk.
Qed.

(** ** Examples *)

Definition sample_options : options (Body := string) :=
  {| scope := "attestations"; o_ttlMs := Some 1000; getUserKey := None; strictKeyFormat := false;
     validateKey := None; skipIf := λ _, false |}.

Definition sample_req (b : string) : request string :=
  {| r_header := HString " key-00001 "; r_user := Some "biz-1"; r_ip := None; r_body := Some b |}.

Definition sample_key : string := generateStoreKey "attestations" "biz-1" "key-00001".

Lemma cached_response_is_replayed_witness :
  let hash := λ s, s in
  let m := run id hash [Sweep 50; Answer sample_options 55 (sample_key, "x") (Some 500) "failed"; Arrive sample_options 60 (sample_req "y")]
             (handler_responds sample_options 10 (sample_key, "x") (Some 201) "done" ∅) in
  idempotencyMiddleware id hash sample_options 1010 (sample_req "x") m = (Replayed 201 "done", m).
Proof.
  intros hash m.
  refine (cached_response_is_replayed id hash sample_options sample_options 10 sample_key "x" (Some 201) "done"
            [Sweep 50; Answer sample_options 55 (sample_key, "x") (Some 500) "failed"; Arrive sample_options 60 (sample_req "y")] 1010 (sample_req "x") ∅ "x" _ _ _ _ _).
  - cbn. lia.
  - apply Nat.ltb_lt. reflexivity.
  - repeat constructor; cbn; lia.
  - cbn. lia.
  - reflexivity.
Defined.

Lemma store_key_separates_tenants_witness :
  generateStoreKey "s" "biz-1" "k" = generateStoreKey "s" "biz-1" "k" ∧ "k" = "k".
Proof.
  split; [reflexivity|]. exact (proj2 (store_key_separates_tenants "s" "biz-1" "biz-1" "k" "k" eq_refl eq_refl eq_refl)).
Defined.

Lemma concurrent_first_requests_all_run_witness :
  let reqs := [(sample_options, 1, sample_req "x"); (sample_options, 2, sample_req "x")] in
  Forall (λ '(o, now, req),
    idempotencyMiddleware id id o now req (run id id (map (λ '(o, now, req), Arrive o now req) reqs) ∅) =
    (RunHandler (Some (sample_key, "x")), ∅)) reqs.
Proof.
  intros reqs. apply (concurrent_first_requests_all_run id id reqs ∅ sample_key "x").
  - reflexivity.
  - repeat constructor.
Defined.
