(* ===== verification/Backoff.v ===== *)
(** * Retrying with backoff: [src/utils/backoff.ts].

    [withBackoff] runs an operation that may change a state [S] and may throw;
    the state is threaded through the attempts.  [draw] gives the values of
    [Math.random()]. *)

From S2P Require Import Prelude Numeric.
#[local] Open Scope Z_scope.

Record BackoffOptions := { baseDelayMs : Z; maxDelayMs : Z; maxAttempts : Z }.

Definition DEFAULT_BACKOFF_OPTIONS : BackoffOptions :=
  {| baseDelayMs := 200; maxDelayMs := 10000; maxAttempts := 3 |}.

Definition calculateBackoffDelay (attemptNumber : Z) (o : BackoffOptions) (draw : Z) : Z :=
  let temp := Z.min (maxDelayMs o) (baseDelayMs o * 2 ^ attemptNumber) in
  Z.max 1 (round_random_mul draw temp).

(** What [withBackoff] throws: a [BackoffError] with its attempt count and
    cause, or the operation's own error. *)
Inductive backoff_failure (E : Type) :=
| BackoffError (attemptCount : Z) (cause : option E)
| Rethrown (e : E).
Arguments BackoffError {E}. Arguments Rethrown {E}.

Section Backoff.
Context {S E A : Type} (fn : Z → S → result E A * S) (o : BackoffOptions) (draw : Z → Z).

(** A retry: the failed attempt, the delay slept and the error. *)
Abbreviation retry := (Z * Z * E)%type.

(** The [for] loop with [n] attempts left, the next being [attempt]. *)
Fixpoint attempts (n : nat) (attempt : Z) (lastError : option E) (s : S)
  : result (option E) A * S * list retry :=
  match n with
  | O => (Err lastError, s, [])
  | Datatypes.S n =>
      let '(r, s) := fn attempt s in
      match r with
      | Ok a => (Ok a, s, [])
      | Err e =>
          let '(r', s', retries) := attempts n (attempt + 1) (Some e) s in
          (r', s', if attempt <? maxAttempts o
                   then (attempt, calculateBackoffDelay attempt o (draw attempt), e) :: retries
                   else retries)
      end
  end.

Definition withBackoff (s : S) : result (backoff_failure E) A * S * list retry :=
  if maxAttempts o <=? 0 then (Err (BackoffError 0 None), s, [])
  else
    let '(r, s, retries) := attempts (Z.to_nat (maxAttempts o)) 1 None s in
    (match r with
     | Ok a => Ok a
     | Err last =>
         if maxAttempts o <=? 1 then
           match last with Some e => Err (Rethrown e) | None => Err (BackoffError 1 None) end
         else Err (BackoffError (maxAttempts o) last)
     end, s, retries).

(** ** What a run does *)

(** The state after the attempts from [attempt] on, [n] of them, all failing. *)
Inductive all_fail : Z → nat → S → S → list E → Prop :=
| all_fail_nil a s : all_fail a 0 s s []
| all_fail_cons a n s s1 s2 e es :
    fn a s = (Err e, s1) → all_fail (a + 1) n s1 s2 es → all_fail a (Datatypes.S n) s s2 (e :: es).

(** The retries of a list of failed attempts. *)
Fixpoint retries_of (a : Z) (es : list E) : list retry :=
  match es with
  | [] => []
  | e :: es => (a, calculateBackoffDelay a o (draw a), e) :: retries_of (a + 1) es
  end.

Lemma attempts_success k n a s s1 s2 es x last :
  all_fail a k s s1 es → fn (a + Z.of_nat k) s1 = (Ok x, s2) → (k < n)%nat →
  a + Z.of_nat n - 1 = maxAttempts o →
  attempts n a last s = (Ok x, s2, retries_of a es).
Proof.
  intros Hf. revert n last. induction Hf as [a s|a k s s1 s3 e es He Hf IH]; intros n last Hx Hk Hn;
    (destruct n as [|n]; [lia|]); cbn [attempts retries_of].
  - rewrite Z.add_0_r in Hx. by rewrite Hx.
  - rewrite He. rewrite (IH n (Some e)); [| |lia|lia].
    + by assert ((a <? maxAttempts o) = true) as -> by lia.
    + replace (a + 1 + Z.of_nat k) with (a + Z.of_nat (Datatypes.S k)) by lia. done.
Qed.

(** Every failed attempt but the last sleeps. *)
Lemma attempts_failure n a s s1 es e last :
  all_fail a n s s1 (es ++ [e]) → a + Z.of_nat n - 1 = maxAttempts o →
  attempts n a last s = (Err (Some e), s1, retries_of a es).
Proof.
  intros Hf. remember (es ++ [e]) as all eqn:Hall. revert es last Hall.
  induction Hf as [a s|a n s s1 s2 e' es' He Hf IH]; intros es last Hall Hn; [by destruct es|].
  cbn [attempts]. rewrite He. destruct es as [|e0 es]; cbn in Hall; injection Hall as -> Hall.
  - subst es'. inversion Hf; subst. cbn [attempts retries_of].
    by assert ((a <? maxAttempts o) = false) as -> by lia.
  - rewrite (IH es (Some e0) Hall) by lia. cbn [retries_of].
    assert (Z.of_nat (length es') = Z.of_nat n) as Hlen.
    { clear -Hf. f_equal. induction Hf; cbn; lia. }
    subst es'. rewrite length_app in Hlen. cbn [length] in Hlen.
    by assert ((a <? maxAttempts o) = true) as -> by lia.
Qed.

Lemma retries_of_delays a es :
  0 ≤ a → 0 < baseDelayMs o → 0 < maxDelayMs o → (∀ i, is_draw (draw i) = true) →
  Forall (λ '(i, d, _), 1 ≤ d ≤ maxDelayMs o ∧ d ≤ baseDelayMs o * 2 ^ i) (retries_of a es).
Proof.
  intros Ha Hb Hm Hd. revert a Ha. induction es as [|e es IH]; intros a Ha; cbn; constructor; [|apply IH; lia].
  unfold calculateBackoffDelay. assert (0 < 2 ^ a) by (apply Z.pow_pos_nonneg; lia).
  pose proof (round_random_mul_bounds (draw a) (Z.min (maxDelayMs o) (baseDelayMs o * 2 ^ a)) (Hd a) ltac:(nia)).
  assert (1 ≤ baseDelayMs o * 2 ^ a) by nia. lia.
Qed.
End Backoff.

(** ** Properties *)

(** [withBackoff] with [maxAttempts] attempts: if the first [k] attempts
    throw and the next one, within the limit, returns, its value is returned
    in its state after exactly [k] sleeps; if all attempts throw, the last
    error is rethrown (one attempt) or wrapped with the attempt count, after
    one sleep fewer than attempts.  Every delay is between 1 ms and both
    [maxDelayMs] and [baseDelayMs * 2^attempt]. *)
Theorem withBackoff_outcomes {S E A} (fn : Z → S → result E A * S) o draw s :
  0 < maxAttempts o → 0 < baseDelayMs o → 0 < maxDelayMs o → (∀ i, is_draw (draw i) = true) →
  (∀ k s1 s2 es x, all_fail fn 1 k s s1 es → fn (1 + Z.of_nat k) s1 = (Ok x, s2) →
     Z.of_nat k < maxAttempts o →
     withBackoff fn o draw s = (Ok x, s2, retries_of o draw 1 es)) ∧
  (∀ s1 es e, all_fail fn 1 (Z.to_nat (maxAttempts o)) s s1 (es ++ [e]) →
     withBackoff fn o draw s =
       (Err (if maxAttempts o =? 1 then Rethrown e else BackoffError (maxAttempts o) (Some e)),
        s1, retries_of o draw 1 es)) ∧
  (∀ es, Forall (λ '(i, d, _), 1 ≤ d ≤ maxDelayMs o ∧ d ≤ baseDelayMs o * 2 ^ i) (retries_of (E := E) o draw 1 es)).
Proof.
  intros Hm Hb Hd Hdraw. assert ((maxAttempts o <=? 0) = false) as H0 by lia. split_and!.
  - intros k s1 s2 es x Hf Hx Hk. unfold withBackoff. rewrite H0.
    by rewrite (attempts_success fn o draw k _ 1 s s1 s2 es x None Hf Hx) by lia.
  - intros s1 es e Hf. unfold withBackoff. rewrite H0.
    rewrite (attempts_failure fn o draw _ 1 s s1 es e None Hf) by lia.
    destruct (maxAttempts o =? 1) eqn:E1; [by assert ((maxAttempts o <=? 1) = true) as -> by lia
                                          |by assert ((maxAttempts o <=? 1) = false) as -> by lia].
  - intros es. apply retries_of_delays; (done || lia).
Qed.

(** Fails while the counter is below two. *)
Definition flaky (attempt : Z) (s : Z) : result string Z * Z :=
  if s <? 2 then (Err "down", s + 1) else (Ok s, s).

Lemma withBackoff_outcomes_witness :
  withBackoff flaky DEFAULT_BACKOFF_OPTIONS (λ _, 0) 0 = (Ok 2, 2, [(1, 1, "down"); (2, 1, "down")]).
Proof.
  refine (proj1 (withBackoff_outcomes flaky DEFAULT_BACKOFF_OPTIONS (λ _, 0) 0 eq_refl eq_refl eq_refl (λ _, eq_refl))
            2%nat 2 2 ["down"; "down"] 2 _ eq_refl eq_refl).
  repeat econstructor.
Defined.
