(* ===== verification/AuditChain.v ===== *)
(** * The tamper-evident audit log: [src/repositories/auditLogRepository.ts].

    Entries carry an HMAC over the previous entry's hash and a canonical
    string.  [hmac] (keyed with the chain secret) and [sha256] are parameters;
    [metadata] is its [JSON.stringify] form, timestamps are milliseconds with
    their [toISOString] as a parameter.  A cursor is the pair of a timestamp
    and an id that its base64 JSON form encodes. *)

From Stdlib Require Import Sorting.Sorted Sorting.Permutation.
From S2P Require Import Prelude Numeric Hashing JsString Collections.
#[local] Open Scope Z_scope.

Definition GENESIS_SENTINEL : string := zeros 64 EmptyString.

Record AuditLog := {
  id : string;
  userId : string;
  action : string;
  resource : string;
  resourceId : option string;
  metadata : option string;
  contentHash : option string;
  timestamp : Z;
  chainHash : string;
  seq : Z;
}.

Record AuditLogInput := {
  in_userId : string;
  in_action : string;
  in_resource : string;
  in_resourceId : option string;
  in_metadata : option string;
  in_contentHash : option string;
}.

Record ChainVerificationResult := {
  valid : bool;
  checkedCount : Z;
  brokenAtIndex : option Z;
  brokenAtId : option string;
  chainRoot : option string;
}.

Section Chain.
Context (hmac sha256 : string → string) (toISOString : Z → string).

(** ** Hashing *)

(** [entry.metadata ? ... : '']: a serialised value is truthy unless absent. *)
Definition metaHash (e : AuditLog) : string :=
  match metadata e with Some m => sha256 m | None => EmptyString end.

Definition canonical_fields (e : AuditLog) : list string :=
  [show_Z (seq e); id e; userId e; action e; resource e; default EmptyString (resourceId e);
   default EmptyString (contentHash e); toISOString (timestamp e); metaHash e].

(** [chainHash] is not read. *)
Definition canonicaliseEntry (e : AuditLog) : string := join "|" (canonical_fields e).

Definition computeChainHash (e : AuditLog) (prevHash : string) : string :=
  hmac (prevHash +:+ "|" +:+ canonicaliseEntry e).

(** ** Writing *)

Definition last_hash (logs : list AuditLog) : string :=
  match last logs with Some e => chainHash e | None => GENESIS_SENTINEL end.

Definition with_hash (h : string) (e : AuditLog) : AuditLog :=
  {| id := id e; userId := userId e; action := action e; resource := resource e;
     resourceId := resourceId e; metadata := metadata e; contentHash := contentHash e;
     timestamp := timestamp e; chainHash := h; seq := seq e |}.

(** [fresh]: the random id; [now]: the clock; [payloadHash]: the hash of
    [content] when there is some. *)
Definition createAuditLog (fresh : string) (now : Z) (log : AuditLogInput) (payloadHash : option string)
    (auditLogs : list AuditLog) : AuditLog * list AuditLog :=
  let partial :=
    {| id := fresh; userId := in_userId log; action := in_action log; resource := in_resource log;
       resourceId := in_resourceId log; metadata := in_metadata log;
       contentHash := match payloadHash with Some h => Some h | None => in_contentHash log end;
       timestamp := now; chainHash := EmptyString; seq := Z.of_nat (length auditLogs) |} in
  let newLog := with_hash (computeChainHash partial (last_hash auditLogs)) partial in
  (newLog, auditLogs ++ [newLog]).

(** ** Verifying *)

Fixpoint verify_loop (entries : list AuditLog) (i : Z) (prevHash : string) (root : option string)
  : result timing_error ChainVerificationResult :=
  match entries with
  | [] => Ok {| valid := true; checkedCount := i; brokenAtIndex := None; brokenAtId := None; chainRoot := root |}
  | e :: rest =>
      let expected := computeChainHash e prevHash in
      match timingSafeEqual (buffer_from_hex expected) (buffer_from_hex (chainHash e)) with
      | Err x => Err x
      | Ok false => Ok {| valid := false; checkedCount := i; brokenAtIndex := Some i;
                          brokenAtId := Some (id e); chainRoot := root |}
      | Ok true => verify_loop rest (i + 1) (chainHash e) root
      end
  end.

Definition verifyChain (logs : list AuditLog) : result timing_error ChainVerificationResult :=
  match logs with
  | [] => Ok {| valid := true; checkedCount := 0; brokenAtIndex := None; brokenAtId := None; chainRoot := None |}
  | _ =>
      let ordered := js_sort (λ a b, seq a - seq b) logs in
      verify_loop ordered 0 GENESIS_SENTINEL (chainHash <$> last ordered)
  end.

Definition getCurrentChainRoot (logs : list AuditLog) : option string := chainHash <$> last logs.

Definition clearAllAuditLogs (logs : list AuditLog) : list AuditLog := [].

(** ** Reading *)

Definition getAllAuditLogs (logs : list AuditLog) : list AuditLog :=
  js_sort (λ a b, timestamp b - timestamp a) logs.

Definition getAuditLogsByUser (user : string) (logs : list AuditLog) : list AuditLog :=
  js_sort (λ a b, timestamp b - timestamp a) (List.filter (λ l, String.eqb (userId l) user) logs).
End Chain.

(** ** Queries *)

Inductive cursor_arg := NoCursor | BadCursor | Cursor (ts : Z) (cid : string).
Inductive date_arg := NoDate | BadDate | Date (ms : Z).

Record AuditLogQuery := {
  actorId : option string;
  q_action : option string;
  q_resource : option string;
  from : date_arg;
  to : date_arg;
  limit : option Z;
  cursor : cursor_arg;
}.

Inductive query_error := BadFrom | BadTo | FromAfterTo | CursorInvalid.

Record PaginatedAuditResult := { data : list AuditLog; nextCursor : option (Z * string); hasMore : bool }.

(** JavaScript's [<] on ASCII strings. *)
Fixpoint str_lt (a b : string) : bool :=
  match a, b with
  | _, EmptyString => false
  | EmptyString, String _ _ => true
  | String c a, String d b => (code c <? code d) || ((code c =? code d) && str_lt a b)
  end.

Section Query.
(** [localeCompare] of the runtime. *)
Context (localeCompare : string → string → Z).

Definition resolve_limit (l : option Z) : Z :=
  let l := match l with Some n => if n =? 0 then 20 else n | None => 20 end in
  Z.min 100 (if l <=? 0 then 20 else l).

(** A filter that is absent or empty is skipped. *)
Definition matches (f : option string) (x : string) : bool :=
  match f with None | Some EmptyString => true | Some s => String.eqb x s end.

Definition row_compare (a b : AuditLog) : Z :=
  if negb (timestamp a =? timestamp b) then timestamp b - timestamp a else localeCompare (id b) (id a).

Definition selected (q : AuditLogQuery) (r : AuditLog) : bool :=
  matches (actorId q) (userId r) && matches (q_action q) (action r) && matches (q_resource q) (resource r) &&
  match from q with Date t => t <=? timestamp r | _ => true end &&
  match to q with Date t => timestamp r <=? t | _ => true end.

Definition after_cursor (c : cursor_arg) (r : AuditLog) : bool :=
  match c with
  | Cursor ts cid => (timestamp r <? ts) || ((timestamp r =? ts) && str_lt (id r) cid)
  | _ => true
  end.

Definition queryAuditLogs (q : AuditLogQuery) (auditLogs : list AuditLog)
  : result query_error PaginatedAuditResult :=
  let limit := resolve_limit (limit q) in
  match from q, to q, cursor q with
  | BadDate, _, _ => Err BadFrom
  | _, BadDate, _ => Err BadTo
  | _, _, _ =>
      if match from q, to q with Date f, Date t => t <? f | _, _ => false end then Err FromAfterTo
      else match cursor q with
      | BadCursor | Cursor _ EmptyString => Err CursorInvalid
      | c =>
          let rows := js_sort row_compare (List.filter (selected q) auditLogs) in
          let rows := List.filter (after_cursor c) rows in
          let more := limit <? Z.of_nat (length rows) in
          let slice := take (Z.to_nat (Z.min limit 100)) rows in
          Ok {| data := slice;
                nextCursor := if more then (λ r, (timestamp r, id r)) <$> last slice else None;
                hasMore := more |}
      end
  end.

Definition at_cursor (q : AuditLogQuery) (c : cursor_arg) : AuditLogQuery :=
  {| actorId := actorId q; q_action := q_action q; q_resource := q_resource q; from := from q; to := to q;
     limit := limit q; cursor := c |}.

(** Following the cursors from page to page. *)
Fixpoint follow (fuel : nat) (q : AuditLogQuery) (logs : list AuditLog) : option (list (list AuditLog)) :=
  match fuel with
  | O => None
  | S fuel =>
      match queryAuditLogs q logs with
      | Err _ => None
      | Ok page =>
          match nextCursor page with
          | None => Some [data page]
          | Some (ts, cid) => cons (data page) <$> follow fuel (at_cursor q (Cursor ts cid)) logs
          end
      end
  end.
End Query.

(** ** Chains *)
Section Chains.
Context (hmac sha256 : string → string) (toISOString : Z → string) `{!HexDigest hmac}.
Abbreviation hash_of := (computeChainHash hmac sha256 toISOString).
Abbreviation create := (createAuditLog hmac sha256 toISOString).
Abbreviation verify := (verifyChain hmac sha256 toISOString).
Abbreviation canonical := (canonicaliseEntry sha256 toISOString).

(** The arguments of a sequence of [createAuditLog] calls. *)
Record write := { w_id : string; w_now : Z; w_log : AuditLogInput; w_payload : option string }.

Definition write_all (ws : list write) : list AuditLog :=
  fold_left (λ logs w, (create (w_id w) (w_now w) (w_log w) (w_payload w) logs).2) ws [].

Lemma hash_of_digest e prev : is_digest_hex (hash_of e prev) = true.
Proof. unfold computeChainHash. apply digest_hex. Qed.

(** Every hash is the one of its predecessor and entry. *)
Fixpoint linked (prev : string) (l : list AuditLog) : Prop :=
  match l with
  | [] => True
  | e :: r => chainHash e = hash_of e prev ∧ linked (chainHash e) r
  end.

Definition end_hash (prev : string) (l : list AuditLog) : string :=
  match last l with Some e => chainHash e | None => prev end.

Lemma end_hash_cons prev e l : end_hash prev (e :: l) = end_hash (chainHash e) l.
Proof. unfold end_hash. rewrite last_cons. by destruct (last l). Qed.

Lemma linked_snoc prev l e :
  linked prev (l ++ [e]) ↔ linked prev l ∧ chainHash e = hash_of e (end_hash prev l).
Proof.
  revert prev. induction l as [|x l IH]; intros prev; cbn [app linked].
  - unfold end_hash. cbn. tauto.
  - rewrite IH, end_hash_cons. tauto.
Qed.

(** The strings the hashes of a list are taken of. *)
Fixpoint chain_inputs (prev : string) (l : list AuditLog) : list string :=
  match l with
  | [] => []
  | e :: r => (prev +:+ "|" +:+ canonical e) :: chain_inputs (chainHash e) r
  end.

Lemma chain_inputs_snoc prev l e :
  chain_inputs prev (l ++ [e]) = chain_inputs prev l ++ [end_hash prev l +:+ "|" +:+ canonical e].
Proof.
  revert prev. induction l as [|x l IH]; intros prev; cbn [app chain_inputs]; [done|].
  by rewrite IH, end_hash_cons.
Qed.

Definition numbered (l : list AuditLog) : Prop := ∀ i e, l !! i = Some e → seq e = Z.of_nat i.

Lemma write_all_snoc ws w :
  write_all (ws ++ [w]) = (create (w_id w) (w_now w) (w_log w) (w_payload w) (write_all ws)).2.
Proof. unfold write_all. by rewrite fold_left_app. Qed.

Lemma write_all_ok ws :
  linked GENESIS_SENTINEL (write_all ws) ∧ numbered (write_all ws) ∧
  Forall (λ e, is_digest_hex (chainHash e) = true) (write_all ws).
Proof.
  induction ws as [|w ws (IHl & IHn & IHd)] using rev_ind; [by repeat split; try constructor; intros ? ?|].
  rewrite write_all_snoc. cbn [createAuditLog snd]. split_and!.
  - apply linked_snoc. split; [done|]. reflexivity.
  - intros i e He. apply lookup_app_Some in He as [He|[Hlen He]]; [by apply IHn|].
    destruct (i - length (write_all ws))%nat as [|k] eqn:Ek; [|by rewrite lookup_nil in He || discriminate].
    injection He as <-. cbn. lia.
  - apply Forall_app. split; [done|]. repeat constructor. cbn. apply hash_of_digest.
Qed.

Lemma numbered_sorted l : numbered l → StronglySorted (λ a b, seq a - seq b ≤ 0) l.
Proof.
  intros Hn.
  enough (∀ n l, (∀ i e, l !! i = Some e → seq e = Z.of_nat (n + i)) →
            StronglySorted (λ a b, seq a - seq b ≤ 0) l) as H by (apply (H 0%nat l); exact Hn).
  clear l Hn. intros n l. revert n. induction l as [|e l IH]; intros n Hn; constructor.
  - apply (IH (S n)). intros i x Hx. rewrite (Hn (S i) x Hx). f_equal. lia.
  - apply List.Forall_forall. intros x Hx. apply list_elem_of_In in Hx.
    apply list_elem_of_lookup in Hx as [i Hi].
    rewrite (Hn 0%nat e eq_refl), (Hn (S i) x Hi). lia.
Qed.

Lemma verify_loop_linked l i prev root :
  linked prev l →
  verify_loop hmac sha256 toISOString l i prev root =
  Ok {| valid := true; checkedCount := i + Z.of_nat (length l); brokenAtIndex := None; brokenAtId := None;
        chainRoot := root |}.
Proof.
  revert i prev. induction l as [|e l IH]; intros i prev Hl; cbn [verify_loop length].
  - by rewrite Z.add_0_r.
  - destruct Hl as [He Hl]. rewrite <- He, timingSafeEqual_refl, IH by done. do 2 f_equal. lia.
Qed.

Lemma linked_verifies l :
  linked GENESIS_SENTINEL l → numbered l →
  verify l = Ok {| valid := true; checkedCount := Z.of_nat (length l); brokenAtIndex := None; brokenAtId := None;
                   chainRoot := getCurrentChainRoot l |}.
Proof.
  intros Hl Hn. unfold verifyChain, getCurrentChainRoot. rewrite js_sort_fixed by by apply numbered_sorted.
  destruct l as [|e l']; [done|]. by rewrite verify_loop_linked.
Qed.

Lemma verify_loop_valid l i prev root r :
  Forall (λ e, is_digest_hex (chainHash e) = true) l →
  verify_loop hmac sha256 toISOString l i prev root = Ok r → valid r = true →
  linked prev l ∧ checkedCount r = i + Z.of_nat (length l) ∧ chainRoot r = root.
Proof.
  revert i prev. induction l as [|e l IH]; intros i prev Hd Hv Hok; cbn [verify_loop length] in *.
  - injection Hv as <-. split_and!; [done|cbn; lia|done].
  - apply Forall_cons in Hd as [He Hd].
    destruct (timingSafeEqual _ _) as [[]|] eqn:E; [|by injection Hv as <-|done].
    apply timingSafeEqual_true, digest_buffer_inj in E; [|apply hash_of_digest|done].
    destruct (IH _ _ Hd Hv Hok) as (H1 & H2 & H3). split_and!; [by split|lia|done].
Qed.

Lemma verify_valid l r :
  Forall (λ e, is_digest_hex (chainHash e) = true) l → verify l = Ok r → valid r = true →
  let o := js_sort (λ a b, seq a - seq b) l in
  linked GENESIS_SENTINEL o ∧ checkedCount r = Z.of_nat (length o) ∧ chainRoot r = chainHash <$> last o.
Proof.
  intros Hd Hv Hok o.
  destruct l as [|e l]; [by injection Hv as <-|].
  unfold verifyChain in Hv. apply verify_loop_valid in Hv as (H1 & H2 & H3); [by split_and!| |done].
  subst o. by rewrite js_sort_perm.
Qed.

Lemma linked_digest prev l :
  linked prev l → Forall (λ e, is_digest_hex (chainHash e) = true) l.
Proof.
  revert prev. induction l as [|e l IH]; intros prev Hl; [constructor|]. destruct Hl as [He Hl].
  constructor; [rewrite He; apply hash_of_digest|by eapply IH].
Qed.

Lemma end_hash_length prev l :
  String.length prev = 64%nat → linked prev l → String.length (end_hash prev l) = 64%nat.
Proof.
  intros Hp Hl. unfold end_hash. destruct (last l) as [e|] eqn:E; [|done].
  apply linked_digest in Hl. rewrite Forall_forall in Hl. apply last_Some_elem_of in E.
  specialize (Hl e E). unfold is_digest_hex in Hl. apply andb_true_iff in Hl as [Hl _]. by apply Nat.eqb_eq.
Qed.

(** Two different strings of the two lists with the same hash. *)
Definition collision (l l' : list string) : Prop := ∃ x y, x ∈ l ∧ y ∈ l' ∧ x ≠ y ∧ hmac x = hmac y.

Lemma collision_mono l1 l1' l2 l2' : collision l1 l1' → collision (l1 ++ l2) (l1' ++ l2').
Proof.
  intros (x & y & Hx & Hy & Hn & He). exists x, y. split_and!; [apply elem_of_app; by left|apply elem_of_app; by left|done..].
Qed.

(** Equal end hashes of two linked lists of one length force equal entries. *)
Lemma linked_binding l l' prev :
  String.length prev = 64%nat → length l = length l' → linked prev l → linked prev l' →
  end_hash prev l = end_hash prev l' →
  collision (chain_inputs prev l) (chain_inputs prev l') ∨
  Forall2 (λ e e', canonical e = canonical e' ∧ chainHash e = chainHash e') l l'.
Proof.
  intros Hp. revert l'. induction l as [|e l IH] using rev_ind; intros l' Hlen Hl Hl' Hend.
  { destruct l'; [by right|discriminate]. }
  destruct l' as [|e' l' _] using rev_ind; [rewrite length_app in Hlen; cbn in Hlen; lia|].
  rewrite !length_app in Hlen. cbn in Hlen.
  apply linked_snoc in Hl as [Hl He]. apply linked_snoc in Hl' as [Hl' He'].
  unfold end_hash in Hend. rewrite !last_snoc in Hend.
  rewrite !chain_inputs_snoc.
  destruct (decide (end_hash prev l +:+ "|" +:+ canonical e = end_hash prev l' +:+ "|" +:+ canonical e'))
    as [Heq|Hne].
  - apply string_app_inj in Heq as [Hprev Hcanon]; [|by rewrite !end_hash_length].
    apply (string_app_inj "|" "|") in Hcanon as [_ Hcanon]; [|done].
    destruct (IH l' ltac:(lia) Hl Hl' Hprev) as [Hc|Hf]; [left; by apply collision_mono|].
    right. apply Forall2_app; [done|]. by repeat constructor.
  - left. do 2 eexists. split_and!; [apply elem_of_app; right; apply elem_of_cons; by left|apply elem_of_app; right; apply elem_of_cons; by left|exact Hne|].
    rewrite He, He' in Hend. exact Hend.
Qed.
End Chains.

(** ** Pagination *)

Lemma str_lt_irrefl a : str_lt a a = false.
Proof. induction a as [|c a IH]; [done|]. cbn. by rewrite Z.ltb_irrefl, Z.eqb_refl, IH. Qed.

Lemma str_lt_trans a b c : str_lt a b = true → str_lt b c = true → str_lt a c = true.
Proof.
  revert b c. induction a as [|x a IH]; intros [|y b] [|z c]; cbn; try done.
  rewrite !orb_true_iff, !andb_true_iff. intros [H1|[H1 H1']] [H2|[H2 H2']]; [left; lia|left; lia|left; lia|].
  right. split; [lia|]. by apply (IH b).
Qed.

Definition newer (a b : AuditLog) : Prop :=
  timestamp b < timestamp a ∨ (timestamp a = timestamp b ∧ str_lt (id b) (id a) = true).

Lemma newer_trans a b c : newer a b → newer b c → newer a c.
Proof.
  unfold newer. intros [H1|[H1 H1']] [H2|[H2 H2']]; [left; lia|left; lia|left; lia|].
  right. split; [lia|]. by apply (str_lt_trans _ (id b)).
Qed.

Lemma newer_asym a b : newer a b → ¬ newer b a.
Proof.
  intros H1 H2. pose proof (newer_trans a b a H1 H2) as [H|[_ H]]; [lia|]. by rewrite str_lt_irrefl in H.
Qed.

Lemma after_cursor_newer x r : after_cursor (Cursor (timestamp x) (id x)) r = true ↔ newer x r.
Proof.
  unfold after_cursor, newer. rewrite orb_true_iff, andb_true_iff.
  split; (intros [H|[H H']]; [left; lia|right; split; [lia|done]]).
Qed.

(** After a row of a sorted list come exactly the rows that follow it. *)
Lemma after_row (l1 l2 : list AuditLog) x :
  StronglySorted newer (l1 ++ x :: l2) →
  List.filter (after_cursor (Cursor (timestamp x) (id x))) (l1 ++ x :: l2) = l2.
Proof.
  intros Hs. rewrite List.filter_app.
  assert (∀ y, ¬ newer x y → after_cursor (Cursor (timestamp x) (id x)) y = false) as Hno.
  { intros y Hy. destruct (after_cursor _ y) eqn:E; [|done]. by apply after_cursor_newer in E. }
  assert (List.filter (after_cursor (Cursor (timestamp x) (id x))) l1 = []) as ->.
  { induction l1 as [|y l1 IH]; [done|]. cbn [app] in Hs. apply StronglySorted_inv in Hs as [Hs Hf].
    cbn [List.filter]. rewrite Hno; [by apply IH|]. apply newer_asym.
    rewrite List.Forall_forall in Hf. apply Hf, in_or_app. right. by left. }
  cbn [app List.filter]. rewrite Hno by (intros H; by apply (newer_asym x x)).
  assert (Forall (newer x) l2) as Hf.
  { clear Hno. induction l1 as [|y l1 IH]; cbn [app] in Hs; apply StronglySorted_inv in Hs as [Hs Hf]; [exact Hf|by apply IH]. }
  clear Hs Hno. induction Hf as [|y l2 Hy Hf IH]; [done|]. cbn [List.filter].
  apply after_cursor_newer in Hy. by rewrite Hy, IH.
Qed.

Section Pages.
Context (localeCompare : string → string → Z).

(** What is used of [localeCompare]: on the ids of the log it orders as [<]
    does, and calls only equal ids equal. *)
Definition locale_ok (logs : list AuditLog) : Prop :=
  ∀ a b, a ∈ logs → b ∈ logs →
    (localeCompare (id a) (id b) < 0 ↔ str_lt (id a) (id b) = true) ∧
    (localeCompare (id a) (id b) = 0 → id a = id b) ∧
    (0 < localeCompare (id a) (id b) ↔ str_lt (id b) (id a) = true).

Lemma rows_sorted logs sel :
  locale_ok logs → NoDup (id <$> logs) →
  StronglySorted newer (js_sort (row_compare localeCompare) (List.filter sel logs)).
Proof.
  intros Hloc Hnd.
  assert (Hsub : ∀ x, x ∈ List.filter sel logs → x ∈ logs).
  { intros x Hx. apply list_elem_of_In, filter_In in Hx as [Hx _]. by apply list_elem_of_In. }
  assert (Hinj : ∀ x y, x ∈ logs → y ∈ logs → id x = id y → x = y).
  { intros x y [i Hi]%list_elem_of_lookup [j Hj]%list_elem_of_lookup He.
    assert (i = j) as ->; [|congruence].
    apply (NoDup_lookup (id <$> logs) i j (id x) Hnd); rewrite list_lookup_fmap; [by rewrite Hi|by rewrite Hj, He]. }
  apply (js_sort_sorted (row_compare localeCompare) (λ x, x ∈ logs) newer newer_trans).
  - intros x y Hx Hy Hc Hne. unfold row_compare in Hc. unfold newer.
    destruct (timestamp x =? timestamp y) eqn:E; cbn in Hc; [|left; lia].
    right. split; [lia|]. destruct (Hloc y x Hy Hx) as (H1 & H2 & H3).
    apply H1. destruct (Z.lt_trichotomy (localeCompare (id y) (id x)) 0) as [?|[H0|?]]; [done| |lia].
    by destruct Hne; symmetry; apply Hinj; [..|apply H2].
  - intros x y Hx Hy Hc. unfold row_compare in Hc. unfold newer.
    destruct (timestamp x =? timestamp y) eqn:E; cbn in Hc; [|left; lia].
    right. split; [lia|]. destruct (Hloc y x Hy Hx) as (H1 & H2 & H3). by apply H3.
  - apply Forall_forall. exact Hsub.
  - apply NoDup_fmap_1 in Hnd. clear Hsub Hinj Hloc. induction Hnd as [|x l Hx Hnd IH]; [constructor|].
    cbn. destruct (sel x); [|done]. constructor; [|done].
    intros Hin. apply list_elem_of_In, filter_In in Hin as [Hin _]. by apply Hx, list_elem_of_In.
Qed.

(** Dates that parse and are in order. *)
Definition dates_ok (q : AuditLogQuery) : Prop :=
  match from q, to q with
  | BadDate, _ | _, BadDate => False
  | Date f, Date t => f ≤ t
  | _, _ => True
  end.

Definition usable (c : cursor_arg) : Prop :=
  match c with NoCursor => True | BadCursor => False | Cursor _ cid => cid ≠ EmptyString end.

Lemma resolve_limit_bounds l : 1 ≤ resolve_limit l ≤ 100.
Proof. unfold resolve_limit. destruct l as [n|]; repeat case_if; lia. Qed.

Abbreviation sorted_rows q logs := (js_sort (row_compare localeCompare) (List.filter (selected q) logs)).

Lemma query_page q c logs :
  dates_ok q → usable c →
  let rows := List.filter (after_cursor c) (sorted_rows q logs) in
  let L := resolve_limit (limit q) in
  queryAuditLogs localeCompare (at_cursor q c) logs =
  Ok {| data := take (Z.to_nat L) rows;
        nextCursor := if L <? Z.of_nat (length rows)
                      then (λ r, (timestamp r, id r)) <$> last (take (Z.to_nat L) rows) else None;
        hasMore := L <? Z.of_nat (length rows) |}.
Proof.
  intros Hd Hc rows L. pose proof (resolve_limit_bounds (limit q)) as HL.
  assert (Z.min L 100 = L) as Hmin by (unfold L; lia).
  assert (Hfin : Ok {| data := take (Z.to_nat (Z.min L 100)) rows;
            nextCursor := if L <? Z.of_nat (length rows)
              then (λ r, (timestamp r, id r)) <$> last (take (Z.to_nat (Z.min L 100)) rows) else None;
            hasMore := L <? Z.of_nat (length rows) |} =
          @Ok query_error _ {| data := take (Z.to_nat L) rows;
            nextCursor := if L <? Z.of_nat (length rows)
              then (λ r, (timestamp r, id r)) <$> last (take (Z.to_nat L) rows) else None;
            hasMore := L <? Z.of_nat (length rows) |}) by by rewrite Hmin.
  unfold dates_ok in Hd. unfold queryAuditLogs. cbn [from to cursor limit at_cursor].
  destruct (from q) as [| |f] eqn:Ef, (to q) as [| |t] eqn:Et; try done;
    try (assert ((t <? f) = false) as -> by lia);
    (destruct c as [| |ts [|ch cid]]; [exact Hfin|done|done|exact Hfin]).
Qed.

Lemma follow_pages fuel q c logs pre rest :
  locale_ok logs → NoDup (id <$> logs) → Forall (λ e, id e ≠ EmptyString) logs → dates_ok q → usable c →
  sorted_rows q logs = pre ++ rest → List.filter (after_cursor c) (sorted_rows q logs) = rest →
  (length rest < fuel)%nat →
  ∃ pages, follow localeCompare fuel (at_cursor q c) logs = Some pages ∧ concat pages = rest.
Proof.
  intros Hloc Hnd Hids Hd. revert c pre rest. induction fuel as [|fuel IH]; intros c pre rest Hc Hsplit Hrest Hlt; [lia|].
  cbn [follow]. rewrite query_page by done. rewrite Hrest. cbn [data nextCursor].
  pose proof (resolve_limit_bounds (limit q)) as HL. set (L := resolve_limit (limit q)) in *.
  destruct (L <? Z.of_nat (length rest)) eqn:E.
  2:{ exists [take (Z.to_nat L) rest]. split; [done|]. cbn. rewrite app_nil_r. apply take_ge. lia. }
  destruct (last (take (Z.to_nat L) rest)) as [x|] eqn:Ex.
  2:{ apply last_None in Ex. apply (f_equal length) in Ex. rewrite length_take in Ex. cbn in Ex. lia. }
  cbn [fmap option_fmap option_map]. apply last_Some in Ex as [s Hs].
  pose proof (rows_sorted logs (selected q) Hloc Hnd) as Hsorted.
  assert (sorted_rows q logs = (pre ++ s) ++ x :: drop (Z.to_nat L) rest) as Hrows.
  { rewrite Hsplit. rewrite <- (take_drop (Z.to_nat L) rest) at 1. rewrite Hs, <- !(assoc_L app). done. }
  assert (x ∈ logs) as Hx.
  { assert (x ∈ List.filter (selected q) logs) as Hin.
    { rewrite <- (js_sort_perm (row_compare localeCompare)). rewrite Hrows. apply elem_of_app. right. by left. }
    apply list_elem_of_In, filter_In in Hin as [Hin _]. by apply list_elem_of_In. }
  rewrite Forall_forall in Hids.
  destruct (IH (Cursor (timestamp x) (id x)) ((pre ++ s) ++ [x]) (drop (Z.to_nat L) rest)) as (pages & Hp & Hcat).
  - cbn. by apply Hids.
  - rewrite Hrows. by rewrite <- !(assoc_L app).
  - rewrite Hrows. apply after_row. by rewrite <- Hrows.
  - rewrite length_drop. lia.
  - exists (take (Z.to_nat L) rest :: pages). change (at_cursor (at_cursor q c)) with (at_cursor q).
    rewrite Hp. split; [done|]. cbn. rewrite Hcat. apply take_drop.
Qed.
End Pages.

(** ** Properties *)

(** Every log written by [createAuditLog] calls is accepted by
    [verifyChain], which reports all entries checked and the current chain
    root. *)
Theorem written_chain_verifies hmac sha256 toISOString `{!HexDigest hmac} ws :
  let logs := write_all hmac sha256 toISOString ws in
  verifyChain hmac sha256 toISOString logs =
  Ok {| valid := true; checkedCount := Z.of_nat (length logs); brokenAtIndex := None; brokenAtId := None;
        chainRoot := getCurrentChainRoot logs |}.
Proof.
  destruct (write_all_ok hmac sha256 toISOString ws) as (Hl & Hn & _). by apply linked_verifies.
Qed.

(** C3. Tamper evidence: a list of entries with well-formed hashes that
    [verifyChain] accepts with the number of entries and the chain root of a
    written log has, in sequence order, the same hashes and the same canonical
    fields entry by entry (when no field contains the separator), or the two
    chains exhibit two different strings with the same HMAC. *)
Theorem accepted_chain_is_authentic hmac sha256 toISOString `{!HexDigest hmac} ws forged r :
  let logs := write_all hmac sha256 toISOString ws in
  let o := js_sort (λ a b, seq a - seq b) forged in
  let fields := canonical_fields sha256 toISOString in
  Forall (λ e, is_digest_hex (chainHash e) = true) forged →
  Forall (λ e, Forall (λ s, lacks "|" s = true) (fields e)) (logs ++ forged) →
  verifyChain hmac sha256 toISOString forged = Ok r → valid r = true →
  checkedCount r = Z.of_nat (length logs) → chainRoot r = getCurrentChainRoot logs →
  collision hmac (chain_inputs sha256 toISOString GENESIS_SENTINEL logs)
                 (chain_inputs sha256 toISOString GENESIS_SENTINEL o) ∨
  Forall2 (λ e e', fields e = fields e' ∧ chainHash e = chainHash e') logs o.
Proof.
  intros logs o fields Hd Hp Hv Hok Hcount Hroot.
  destruct (verify_valid hmac sha256 toISOString forged r Hd Hv Hok) as (Hlo & Hco & Hro). fold o in Hlo, Hco, Hro.
  destruct (write_all_ok hmac sha256 toISOString ws) as (Hl & _ & _). fold logs in Hl.
  assert (end_hash GENESIS_SENTINEL logs = end_hash GENESIS_SENTINEL o) as Hend.
  { unfold end_hash, getCurrentChainRoot in *. rewrite Hro in Hroot.
    destruct (last o), (last logs); cbn in Hroot; congruence. }
  destruct (linked_binding hmac sha256 toISOString logs o GENESIS_SENTINEL) as [Hc|Hf]; try done; [lia|by left|].
  right. assert (Forall (λ e, Forall (λ s, lacks "|" s = true) (fields e)) (logs ++ o)) as Hp'.
  { unfold o. by rewrite js_sort_perm. }
  apply Forall_app in Hp' as [Hp1 Hp2]. clear -Hf Hp1 Hp2.
  induction Hf as [|e e' l l' [He Hh] Hf IH]; [constructor|].
  apply Forall_cons in Hp1 as [H1 Hp1]. apply Forall_cons in Hp2 as [H2 Hp2].
  constructor; [|by apply IH]. split; [|done]. by apply (join_inj "|").
Qed.

(** Deleting the newest entries is not detected: every prefix of a
    written log verifies. *)
Theorem truncation_not_detected hmac sha256 toISOString `{!HexDigest hmac} ws n :
  ∃ r, verifyChain hmac sha256 toISOString (take n (write_all hmac sha256 toISOString ws)) = Ok r ∧ valid r = true.
Proof.
  assert (take n (write_all hmac sha256 toISOString ws) = write_all hmac sha256 toISOString (take n ws)) as ->.
  { induction ws as [|w ws IH] using rev_ind; [by destruct n|].
    assert (length (write_all hmac sha256 toISOString ws) = length ws) as Hlen.
    { clear IH. induction ws as [|v ws IHl] using rev_ind; [done|].
      rewrite write_all_snoc. cbn [createAuditLog snd]. rewrite !length_app. cbn. lia. }
    rewrite write_all_snoc. cbn [createAuditLog snd]. destruct (decide (n ≤ length ws)%nat) as [Hle|Hgt].
    - rewrite !take_app_le by lia. exact IH.
    - rewrite !take_ge by (rewrite length_app; cbn; lia). by rewrite write_all_snoc. }
  destruct (write_all_ok hmac sha256 toISOString (take n ws)) as (Hl & Hn & _).
  eexists. split; [by apply linked_verifies|done].
Qed.

(** Pagination is complete: on a log with distinct non-empty ids, following
    the cursors of a valid query from its first page ends, within one page per
    entry, and the pages in order are exactly the selected rows, newest first,
    none missing and none twice. *)
Theorem pages_enumerate_selection localeCompare q logs :
  locale_ok localeCompare logs → NoDup (id <$> logs) → Forall (λ e, id e ≠ EmptyString) logs →
  dates_ok q → cursor q = NoCursor →
  ∃ pages, follow localeCompare (S (length logs)) q logs = Some pages ∧
    concat pages ≡ₚ List.filter (selected q) logs ∧ StronglySorted newer (concat pages).
Proof.
  intros Hloc Hnd Hids Hd Hc.
  assert (Hf : ∀ l, List.filter (after_cursor NoCursor) l = l).
  { intros l. induction l as [|x l IH]; [done|]. cbn in *. by rewrite IH. }
  destruct (follow_pages localeCompare (S (length logs)) q NoCursor logs []
              (js_sort (row_compare localeCompare) (List.filter (selected q) logs))) as (pages & Hp & Hcat);
    try done.
  { rewrite js_sort_perm. pose proof (List.filter_length_le (selected q) logs). lia. }
  exists pages. rewrite Hcat. split_and!.
  - rewrite <- Hp. f_equal. destruct q. cbn in Hc. by subst.
  - apply js_sort_perm.
  - by apply rows_sorted.
Qed.

(** The separator is not escaped: moving it between two fields changes the
    entry and keeps its canonical string, hence its hash. *)
Example pipe_moves_between_fields sha256 toISOString t :
  let mk u a := {| id := "1"; userId := u; action := a; resource := "r"; resourceId := None; metadata := None;
                   contentHash := None; timestamp := t; chainHash := EmptyString; seq := 0 |} in
  mk "a|b" "c" ≠ mk "a" "b|c" ∧
  canonicaliseEntry sha256 toISOString (mk "a|b" "c") = canonicaliseEntry sha256 toISOString (mk "a" "b|c").
Proof. split; [discriminate|reflexivity]. Qed.

(** ** Examples *)

Definition sample_write (i : string) (t : Z) : write :=
  {| w_id := i; w_now := t;
     w_log := {| in_userId := "u1"; in_action := "revoke"; in_resource := "attestation"; in_resourceId := Some "a1";
                 in_metadata := None; in_contentHash := None |};
     w_payload := None |}.

Definition sample_log : list AuditLog :=
  write_all toy_hash toy_hash show_Z [sample_write "01" 5; sample_write "02" 5].

Lemma written_chain_verifies_witness :
  verifyChain toy_hash toy_hash show_Z sample_log =
  Ok {| valid := true; checkedCount := 2; brokenAtIndex := None; brokenAtId := None;
        chainRoot := getCurrentChainRoot sample_log |}.
Proof.
  exact (written_chain_verifies toy_hash toy_hash show_Z [sample_write "01" 5; sample_write "02" 5]).
Defined.

Lemma accepted_chain_is_authentic_witness :
  let fields := canonical_fields toy_hash show_Z in
  collision toy_hash (chain_inputs toy_hash show_Z GENESIS_SENTINEL sample_log)
                     (chain_inputs toy_hash show_Z GENESIS_SENTINEL (js_sort (λ a b, seq a - seq b) (rev sample_log))) ∨
  Forall2 (λ e e', fields e = fields e' ∧ chainHash e = chainHash e')
          sample_log (js_sort (λ a b, seq a - seq b) (rev sample_log)).
Proof.
  refine (accepted_chain_is_authentic toy_hash toy_hash show_Z [sample_write "01" 5; sample_write "02" 5]
            (rev sample_log)
            {| valid := true; checkedCount := 2; brokenAtIndex := None; brokenAtId := None;
               chainRoot := getCurrentChainRoot sample_log |} _ _ _ _ _ _).
  - apply (bool_decide_unpack _). vm_compute. exact I.
  - apply (bool_decide_unpack _). vm_compute. exact I.
  - vm_compute. reflexivity.
  - reflexivity.
  - reflexivity.
  - reflexivity.
Defined.

Definition sample_locale (a b : string) : Z := if str_lt a b then -1 else if str_lt b a then 1 else 0.

Definition sample_query : AuditLogQuery :=
  {| actorId := Some "u1"; q_action := None; q_resource := None; from := NoDate; to := Date 9; limit := Some 1;
     cursor := NoCursor |}.

Lemma pages_enumerate_selection_witness :
  ∃ pages, follow sample_locale 3 sample_query sample_log = Some pages ∧
    concat pages ≡ₚ List.filter (selected sample_query) sample_log ∧ StronglySorted newer (concat pages).
Proof.
  apply (pages_enumerate_selection sample_locale sample_query sample_log).
  - intros a b [->|[->|[]%elem_of_nil]%elem_of_cons]%elem_of_cons
               [->|[->|[]%elem_of_nil]%elem_of_cons]%elem_of_cons; vm_compute; repeat split; intros; done.
  - apply (bool_decide_unpack _). vm_compute. exact I.
  - repeat constructor; discriminate.
  - exact I.
  - reflexivity.
Defined.
