(* ===== verification/DeadLetter.v ===== *)
(** * Dead letters: [src/services/webhooks/deadLetterQueue.ts].

    The archive of old entries in an object store, their restoration, and the
    upsert of failed webhook events.  S3 and KMS are behind interfaces with
    the laws the code relies on; the JSON form of an archived entry is a
    parameter. Tables are finite maps on their keys. *)

From S2P Require Import Prelude Numeric Hashing JsString Collections.
#[local] Open Scope Z_scope.

(** ** External services *)

(** An object store: what was put under a bucket and key can be fetched. *)
Class ObjectStore (S : Type) := {
  put_object : string → string → list Byte.byte → S → S;
  get_object : string → string → S → option (list Byte.byte);
  get_put b k d s : get_object b k (put_object b k d s) = Some d;
}.

(** KMS under one key: decryption undoes encryption. *)
Class KeyService := {
  kms_encrypt : string → list Byte.byte → list Byte.byte;
  kms_decrypt : list Byte.byte → option (list Byte.byte);
  decrypt_encrypt key d : kms_decrypt (kms_encrypt key d) = Some d;
}.

#[export] Instance map_store : ObjectStore (gmap (string * string) (list Byte.byte)).
Proof.
  refine {| put_object b k d s := <[(b, k) := d]> s; get_object b k s := s !! (b, k) |}.
  intros. apply lookup_insert_eq.
Defined.

(** ** Data *)

Record DLQEntry := {
  id : string;
  type : string;
  payload : string;
  error : string;
  attempts : Z;
  created_at : Z;
  updated_at : Z;
  archived : bool;
  archive_location : option string;
  archive_encrypted : bool;
}.

(** The fields that go to the archive. *)
Record archive_body := {
  b_id : string; b_type : string; b_payload : string; b_error : string;
  b_attempts : Z; b_created_at : Z; b_updated_at : Z }.

Record dlq_config := { bucket : string; prefix : string; ttlDays : Z; batchSize : Z; kmsKeyId : string }.

(** [a || b] on an environment variable. *)
Definition env_or (a : option string) (b : string) : string :=
  match a with Some (String _ _ as s) => s | _ => b end.

(** [parseInt] of the two numbers; [None] is [NaN]. *)
Definition new_config (bucket_env prefix_env ttl_env batch_env kms_env : option string)
  : option dlq_config :=
  t ← parse_int (env_or ttl_env "30");
  n ← parse_int (env_or batch_env "100");
  Some {| bucket := env_or bucket_env "veritasor-dlq-archive"; prefix := env_or prefix_env "dlq/";
          ttlDays := t; batchSize := n; kmsKeyId := env_or kms_env EmptyString |}.

Abbreviation table := (gmap string DLQEntry).

(** ** URLs *)

Definition not_slash (c : ascii) : bool := negb (Ascii.eqb c "/").
Definition not_newline (c : ascii) : bool := negb (Ascii.eqb c "010").

(** [/^s3:\/\/([^/]+)\/(.+)$/] *)
Definition parseS3Url (url : string) : option (string * string) :=
  r ← strip_prefix "s3://" url;
  let '(b, r) := span not_slash r in
  r ← strip_prefix "/" r;
  if is_empty b || is_empty r || negb (string_forallb not_newline r) then None else Some (b, r).

Definition s3_url (b k : string) : string := "s3://" +:+ b +:+ "/" +:+ k.

Section Queue.
Context {S : Type} `{!ObjectStore S} {KMS : KeyService}.
(** [JSON.stringify] and [JSON.parse] of the archived fields, and the date
    part of [toISOString]. *)
Context (stringify : archive_body → list Byte.byte) (parse : list Byte.byte → option archive_body).
Context (iso_date : Z → string).
Context (cfg : dlq_config).

(** ** Private methods *)

Definition generateArchiveKey (uuid : string) (e : DLQEntry) : string :=
  prefix cfg +:+ iso_date (created_at e) +:+ "/" +:+ uuid +:+ ".json.enc".

Definition archive_fields (e : DLQEntry) : archive_body :=
  {| b_id := id e; b_type := type e; b_payload := payload e; b_error := error e;
     b_attempts := attempts e; b_created_at := created_at e; b_updated_at := updated_at e |}.

Definition encryptEntry (e : DLQEntry) : list Byte.byte :=
  let data := stringify (archive_fields e) in
  if is_empty (kmsKeyId cfg) then data else kms_encrypt (kmsKeyId cfg) data.

Definition uploadToS3 (b k : string) (data : list Byte.byte) (s : S) : string * S :=
  (s3_url b k, put_object b k data s).

Definition downloadAndDecrypt (url : string) (s : S) : option archive_body :=
  '(b, k) ← parseS3Url url;
  data ← get_object b k s;
  decrypted ← (if is_empty (kmsKeyId cfg) then Some data else kms_decrypt data);
  parse decrypted.

(** The update that marks a row archived. *)
Definition mark_archived (url : string) (now : Z) (e : DLQEntry) : DLQEntry :=
  {| id := id e; type := type e; payload := payload e; error := error e; attempts := attempts e;
     created_at := created_at e; updated_at := now; archived := true;
     archive_location := Some url; archive_encrypted := true |}.

Definition mark_restored (d : archive_body) (now : Z) (e : DLQEntry) : DLQEntry :=
  {| id := id e; type := type e; payload := b_payload d; error := b_error d; attempts := b_attempts d;
     created_at := created_at e; updated_at := now; archived := false;
     archive_location := None; archive_encrypted := false |}.

(** ** Archiving *)

Inductive dlq_error := NotFound | AlreadyArchived | NotArchived | NoLocation | RestoreFailed.

Definition archiveEntry (entryId uuid : string) (now : Z) (t : table) (s : S)
  : result dlq_error string * table * S :=
  match t !! entryId with
  | None => (Err NotFound, t, s)
  | Some e =>
      if archived e then (Err AlreadyArchived, t, s)
      else
        let '(url, s) := uploadToS3 (bucket cfg) (generateArchiveKey uuid e) (encryptEntry e) s in
        (Ok url, <[entryId := mark_archived url now e]> t, s)
  end.

(** What can happen to one entry of the batch: all steps succeed, the upload
    (or the encryption before it) fails, or the update after it fails. *)
Inductive fate := Done | UploadFails | UpdateFails.

(** The loop of [archiveOldEntries] over the selected entries. *)
Fixpoint archive_loop (archiveBucket : string) (entries : list (DLQEntry * string * fate)) (now : Z)
    (t : table) (s : S) (done failed : Z) : Z * Z * table * S :=
  match entries with
  | [] => (done, failed, t, s)
  | (e, uuid, f) :: rest =>
      match f with
      | UploadFails => archive_loop archiveBucket rest now t s done (failed + 1)
      | _ =>
          let '(url, s) := uploadToS3 archiveBucket (generateArchiveKey uuid e) (encryptEntry e) s in
          match f with
          | UpdateFails => archive_loop archiveBucket rest now t s done (failed + 1)
          | _ => archive_loop archiveBucket rest now (alter (mark_archived url now) (id e) t) s (done + 1) failed
          end
      end
  end.

(** The rows a batch may hold: older than the cutoff and not archived. *)
Definition due (cutoff : Z) (e : DLQEntry) : bool := (created_at e <? cutoff) && negb (archived e).

(** [rows]: what the query returned, with the outside world's answers. *)
Definition archiveOldEntries (bucket_opt : option string) (rows : list (DLQEntry * string * fate)) (now : Z)
    (t : table) (s : S) : Z * Z * Z * table * S :=
  let '(done, failed, t, s) := archive_loop (env_or bucket_opt (bucket cfg)) rows now t s 0 0 in
  (done, failed, Z.of_nat (length rows), t, s).

Definition restoreEntry (entryId : string) (now : Z) (t : table) (s : S) : result dlq_error DLQEntry * table :=
  match t !! entryId with
  | None => (Err NotFound, t)
  | Some e =>
      if negb (archived e) then (Err NotArchived, t)
      else match archive_location e with
           | None | Some EmptyString => (Err NoLocation, t)
           | Some url =>
               match downloadAndDecrypt url s with
               | None => (Err RestoreFailed, t)
               | Some d =>
                   (Ok {| id := b_id d; type := b_type d; payload := b_payload d; error := b_error d;
                          attempts := b_attempts d; created_at := b_created_at d; updated_at := now;
                          archived := false; archive_location := None; archive_encrypted := false |},
                    <[entryId := mark_restored d now e]> t)
               end
           end
  end.

(** ** Reading *)

Record entries_query := {
  page : option Z; pageSize : option Z; q_type : option string; q_archived : option bool;
  startDate : option Z; endDate : option Z }.

Definition query_matches (q : entries_query) (e : DLQEntry) : bool :=
  (match q_type q with Some (String _ _ as x) => String.eqb (type e) x | _ => true end) &&
  (match q_archived q with Some a => Bool.eqb (archived e) a | None => true end) &&
  (match startDate q with Some d => d <=? created_at e | None => true end) &&
  (match endDate q with Some d => created_at e <=? d | None => true end).

(** [rows] is the table in the order the database scans it. *)
Definition getEntries (q : entries_query) (rows : list DLQEntry) : list DLQEntry * Z :=
  let size := default 50 (pageSize q) in
  let offset := (default 1 (page q) - 1) * size in
  let selected := List.filter (query_matches q) rows in
  (take (Z.to_nat size) (drop (Z.to_nat offset) (js_sort (λ a b, created_at b - created_at a) selected)),
   Z.of_nat (length selected)).

Record archive_stats := { totalArchived : Z; totalActive : Z; oldestEntry : option Z; newestEntry : option Z }.

Definition getArchiveStats (rows : list DLQEntry) : archive_stats :=
  let old := List.filter archived rows in
  {| totalArchived := Z.of_nat (length old);
     totalActive := Z.of_nat (length (List.filter (λ e, negb (archived e)) rows));
     oldestEntry := created_at <$> head (js_sort (λ a b, created_at a - created_at b) old);
     newestEntry := created_at <$> head (js_sort (λ a b, created_at b - created_at a) old) |}.

(** ** The routes: [src/routes/dlqRoutes.ts]

    A query's texts are parsed, and [archived] is compared with [true]. *)
Record route_query := { rq_page : option string; rq_pageSize : option string; rq_type : option string; rq_archived : option string;
                        rq_startDate : option Z; rq_endDate : option Z }.

(** [parseInt(s, 10) || d]; the default stands for a missing text. *)
Definition int_or (d : Z) (s : option string) : Z :=
  match s with None => d | Some s => match parse_int s with Some n => if n =? 0 then d else n | None => d end end.

Definition route_page (q : route_query) : Z := int_or 1 (rq_page q).
Definition route_size (q : route_query) : Z := Z.min (int_or 50 (rq_pageSize q)) 200.

Definition entries_route (q : route_query) (rows : list DLQEntry) : list DLQEntry * Z :=
  getEntries {| page := Some (route_page q); pageSize := Some (route_size q); q_type := rq_type q; q_archived := String.eqb "true" <$> rq_archived q;
                startDate := rq_startDate q; endDate := rq_endDate q |} rows.

(** [GET /entries/:id] looks through the first page of one entry. *)
Definition entry_route (i : string) (rows : list DLQEntry) : option DLQEntry :=
  List.find (λ e, String.eqb (id e) i)
    (getEntries {| page := Some 1; pageSize := Some 1; q_type := None; q_archived := None; startDate := None; endDate := None |} rows).1.

(** ** Lemmas *)

Lemma parseS3Url_url b k :
  string_forallb not_slash b = true → b ≠ EmptyString →
  string_forallb not_newline k = true → k ≠ EmptyString →
  parseS3Url (s3_url b k) = Some (b, k).
Proof.
  intros Hb Hb0 Hk Hk0. unfold parseS3Url, s3_url.
  change (strip_prefix "s3://" ("s3://" +:+ b +:+ "/" +:+ k)) with (Some (b +:+ "/" +:+ k)).
  cbn [mbind option_bind]. rewrite (span_app not_slash b ("/" +:+ k)) by done.
  change (strip_prefix "/" ("/" +:+ k)) with (Some k). cbn [mbind option_bind].
  rewrite Hk. by destruct b, k.
Qed.

Lemma archive_loop_counts b entries now t s d f :
  let '(d', f', _, _) := archive_loop b entries now t s d f in
  d' + f' = d + f + Z.of_nat (length entries).
Proof.
  revert t s d f. induction entries as [|[[e u] x] rest IH]; intros t s d f; cbn [archive_loop length].
  - rewrite Z.add_0_r. done.
  - destruct x; cbn [uploadToS3];
      [specialize (IH (alter (mark_archived (s3_url b (generateArchiveKey u e)) now) (id e) t)
                      (put_object b (generateArchiveKey u e) (encryptEntry e) s) (d + 1) f)
      |specialize (IH t s d (f + 1))
      |specialize (IH t (put_object b (generateArchiveKey u e) (encryptEntry e) s) d (f + 1))];
      destruct (archive_loop _ _ _ _ _ _ _) as [[[d' f'] t'] s']; lia.
Qed.
End Queue.

(** ** Webhook dead letters *)

Record dead_letter := {
  provider : string; event_id : string; payload_hash : string; error_code : string; attempt_count : Z;
  dl_updated_at : option Z }.

(** What [saveDeadLetter] looks at in the thrown value. *)
Inductive thrown := WithCode (code : string) | PlainError (name : string) | NotAnError.

Definition errorCode (e : thrown) : string :=
  match e with WithCode c => c | PlainError n => n | NotAnError => "unknown" end.

(** Insert, or merge into the row with the same provider and event. *)
Definition saveDeadLetter (sha256 : string → string) (provider eventId payloadJson : string) (e : thrown)
    (attempts : Z) (now : Z) (t : gmap (string * string) dead_letter) : gmap (string * string) dead_letter :=
  let row u := {| provider := provider; event_id := eventId; payload_hash := sha256 payloadJson;
                  error_code := errorCode e; attempt_count := attempts; dl_updated_at := u |} in
  match t !! (provider, eventId) with
  | None => <[(provider, eventId) := row None]> t
  | Some _ => <[(provider, eventId) := row (Some now)]> t
  end.

(** ** Properties *)

(** Archiving and restoring loses nothing: for an entry that is not
    archived, [archiveEntry] followed by [restoreEntry], with or without a
    KMS key, returns the entry's fields and leaves the row as it was but for
    [updated_at] (and the archive columns empty), for any store and key
    service that keep their promises. *)
Theorem archive_restore_roundtrip {S} `{!ObjectStore S} {KMS : KeyService} stringify parse iso_date cfg
    e uuid t1 t2 (t : table) (s : S) :
  parse (stringify (archive_fields e)) = Some (archive_fields e) →
  t !! id e = Some e → archived e = false →
  string_forallb not_slash (bucket cfg) = true → bucket cfg ≠ EmptyString →
  string_forallb not_newline (generateArchiveKey iso_date cfg uuid e) = true →
  generateArchiveKey iso_date cfg uuid e ≠ EmptyString →
  let '(url, t', s') := archiveEntry stringify iso_date cfg (id e) uuid t1 t s in
  let back := {| id := id e; type := type e; payload := payload e; error := error e; attempts := attempts e;
                 created_at := created_at e; updated_at := t2; archived := false;
                 archive_location := None; archive_encrypted := false |} in
  url = Ok (s3_url (bucket cfg) (generateArchiveKey iso_date cfg uuid e)) ∧
  restoreEntry parse cfg (id e) t2 t' s' = (Ok back, <[id e := back]> t).
Proof.
  intros Hjson He Ha Hb Hb0 Hk Hk0. unfold archiveEntry. rewrite He, Ha. cbn [uploadToS3].
  split; [done|]. unfold restoreEntry. rewrite lookup_insert_eq. cbn [mark_archived archived negb archive_location].
  assert (∃ c r, s3_url (bucket cfg) (generateArchiveKey iso_date cfg uuid e) = String c r) as (c & r & Hurl)
    by (by do 2 eexists).
  assert (downloadAndDecrypt parse cfg (String c r)
            (put_object (bucket cfg) (generateArchiveKey iso_date cfg uuid e) (encryptEntry stringify cfg e) s)
          = Some (archive_fields e)) as Hd.
  { rewrite <- Hurl. unfold downloadAndDecrypt. rewrite parseS3Url_url by done. cbn [mbind option_bind].
    rewrite get_put. cbn [mbind option_bind]. unfold encryptEntry.
    destruct (is_empty (kmsKeyId cfg)); [exact Hjson|].
    rewrite decrypt_encrypt. exact Hjson. }
  rewrite Hurl, Hd. rewrite insert_insert_eq. done.
Qed.

(** A key service for the examples: a reversal of the bytes. *)
Definition reverse_kms : KeyService.
Proof.
  refine {| kms_encrypt _ d := rev d; kms_decrypt d := Some (rev d) |}.
  intros _ d. by rewrite rev_involutive.
Defined.

Definition sample_entry : DLQEntry :=
  {| id := "e1"; type := "webhook"; payload := "{}"; error := "timeout"; attempts := 3; created_at := 10;
     updated_at := 20; archived := false; archive_location := None; archive_encrypted := false |}.

Definition sample_config (key : string) : dlq_config :=
  {| bucket := "b"; prefix := "dlq/"; ttlDays := 30; batchSize := 100; kmsKeyId := key |}.

(** A serialisation that knows the sample entry. *)
Definition sample_stringify (b : archive_body) : list Byte.byte := buffer_from_string (b_payload b).
Definition sample_parse (d : list Byte.byte) : option archive_body :=
  if buffer_eqb d (buffer_from_string "{}") then Some (archive_fields sample_entry) else None.

Lemma archive_restore_roundtrip_witness :
  let '(_, t', s') := archiveEntry (S := gmap (string * string) (list Byte.byte)) (KMS := reverse_kms)
                        sample_stringify show_Z (sample_config "k") "e1" "u" 30 {["e1" := sample_entry]} ∅ in
  is_ok (restoreEntry (KMS := reverse_kms) sample_parse (sample_config "k") "e1" 40 t' s').1 = true.
Proof.
  pose proof (archive_restore_roundtrip (S := gmap (string * string) (list Byte.byte)) (KMS := reverse_kms)
    sample_stringify sample_parse show_Z (sample_config "k") sample_entry "u" 30 40 {["e1" := sample_entry]} ∅
    eq_refl eq_refl eq_refl eq_refl ltac:(discriminate) eq_refl ltac:(discriminate)) as H.
  change (id sample_entry) with "e1" in H.
  destruct (archiveEntry _ _ _ _ _ _ _ _) as [[url t'] s']. destruct H as [_ H]. by rewrite H.
Defined.

(** Without a KMS key the archived object is the plain serialisation, and the
    row is marked encrypted all the same. *)
Lemma plaintext_archive_marked_encrypted {S} `{!ObjectStore S} {KMS : KeyService} stringify iso_date cfg e uuid now
    (t : table) (s : S) :
  kmsKeyId cfg = EmptyString → t !! id e = Some e → archived e = false →
  let '(_, t', s') := archiveEntry stringify iso_date cfg (id e) uuid now t s in
  get_object (bucket cfg) (generateArchiveKey iso_date cfg uuid e) s' = Some (stringify (archive_fields e)) ∧
  archive_encrypted <$> t' !! id e = Some true.
Proof.
  intros Hk He Ha. unfold archiveEntry. rewrite He, Ha. cbn [uploadToS3].
  unfold encryptEntry. rewrite Hk. cbn [is_empty]. by rewrite get_put, lookup_insert_eq.
Qed.

(** ** The routes *)

Section NewestFirst.
Context {A : Type} (f : A → Z).

Lemma insert_newest x l : Sorted.StronglySorted (λ a b, f b ≤ f a) l → Sorted.StronglySorted (λ a b, f b ≤ f a) (sort_insert (λ a b, f b - f a) x l).
Proof.
  induction l as [|y l IH]; intros Hs; cbn; [by repeat constructor|]. apply Sorted.StronglySorted_inv in Hs as [Hs Hy].
  destruct (Z.leb_spec (f x - f y) 0) as [Hxy|Hxy].
  - constructor; [by apply IH|]. apply List.Forall_forall. intros z Hz%list_elem_of_In. rewrite sort_insert_perm in Hz.
    apply elem_of_cons in Hz as [->|Hz]; [lia|]. rewrite List.Forall_forall in Hy. by apply Hy, list_elem_of_In.
  - constructor; [by constructor|]. constructor; [lia|]. eapply List.Forall_impl; [|exact Hy]. cbn. lia.
Qed.

Lemma newest_first l : Sorted.StronglySorted (λ a b, f b ≤ f a) (js_sort (λ a b, f b - f a) l).
Proof.
  unfold js_sort. assert (Sorted.StronglySorted (λ a b, f b ≤ f a) []) as H by constructor. revert H. generalize (@nil A).
  induction l as [|x l IH]; intros acc H; [done|]. cbn. by apply IH, insert_newest.
Qed.
End NewestFirst.

(** The route of one entry finds the newest entry and no other. *)
Theorem only_newest_entry_is_found i rows e : entry_route i rows = Some e → id e = i ∧ e ∈ rows ∧ ∀ e', e' ∈ rows → created_at e' ≤ created_at e.
Proof.
  unfold entry_route, getEntries. cbn [page pageSize default fst]. set (l := List.filter _ rows). change (Z.to_nat 1) with 1%nat. cbn [Z.mul Z.sub Z.to_nat].
  intros H. apply List.find_some in H as [Hin Hi%String.eqb_eq]. split; [done|]. assert (l = rows) as Hl by (unfold l; clear; induction rows as [|x r IH]; [done|]; cbn; by rewrite IH).
  rewrite Hl in Hin. clear l Hl. pose proof (newest_first created_at rows) as Hs. pose proof (js_sort_perm (λ a b, created_at b - created_at a) rows) as Hp.
  destruct (js_sort _ rows) as [|y r]; [done|]. cbn in Hin. destruct Hin as [->|[]]. apply Sorted.StronglySorted_inv in Hs as [_ Hs].
  split; [rewrite <- Hp; by left|]. intros e' He. rewrite <- Hp in He. apply elem_of_cons in He as [->|He]; [lia|]. rewrite List.Forall_forall in Hs. by apply Hs, list_elem_of_In.
Qed.

Lemma only_newest_entry_is_found_witness :
  let e i t := {| id := i; type := "webhook"; payload := "{}"; error := "e"; attempts := 1; created_at := t; updated_at := t;
                  archived := false; archive_location := None; archive_encrypted := false |} in
  entry_route "b" [e "a" 1; e "b" 2] = Some (e "b" 2) ∧ entry_route "a" [e "a" 1; e "b" 2] = None ∧
  id (e "b" 2) = "b" ∧ e "b" 2 ∈ [e "a" 1; e "b" 2] ∧ ∀ e', e' ∈ [e "a" 1; e "b" 2] → created_at e' ≤ created_at (e "b" 2).
Proof. intros e. split; [reflexivity|]. split; [reflexivity|]. apply (only_newest_entry_is_found "b" [e "a" 1; e "b" 2]). reflexivity. Defined.

(** A page has 200 entries at most; nothing keeps its size and number
    positive. *)
Lemma route_size_bound q rows : route_size q ≤ 200 ∧ (length (entries_route q rows).1 ≤ 200)%nat.
Proof.
  assert (route_size q ≤ 200) as H by (unfold route_size; lia). split; [done|]. unfold entries_route, getEntries. cbn [fst pageSize default]. rewrite length_take. change Datatypes.id with (λ x : Z, x). cbv beta. lia.
Qed.

Example negative_page : route_size {| rq_page := None; rq_pageSize := Some "-5"; rq_type := None; rq_archived := None; rq_startDate := None; rq_endDate := None |} = -5.
Proof. reflexivity. Qed.
