(* ===== verification/RazorpayWebhook.v ===== *)
(** * Razorpay webhooks: [src/services/webhooks/razorpayHandler.ts] and the
    processed-event store of [src/services/webhooks/idempotency.ts].

    HMAC-SHA-256 and [JSON.parse] are parameters; the event schema is checked
    on a JSON value.  A JSON number is an exact rational. *)

From Stdlib Require Import QArith.
From S2P Require Import Prelude Numeric Hashing JsString Backoff DeadLetter.
#[local] Open Scope Z_scope.

(** ** Signatures *)

(** [/^[a-f0-9]{64}$/i] *)
Definition is_signature (s : string) : bool :=
  (String.length s =? 64)%nat && string_forallb is_hex_char s.

Section Signatures.
Context (hmac : string → string → list Byte.byte).

Definition verifyRazorpaySignature (rawBody signature secret : string) : bool :=
  if is_empty secret || negb (is_signature signature) then false
  else
    let expectedSignature := hmac secret rawBody in
    let providedSignature := buffer_from_hex signature in
    if negb (length expectedSignature =? length providedSignature)%nat then false
    else match timingSafeEqual expectedSignature providedSignature with Ok b => b | Err _ => false end.

Inductive key_label := Primary | Secondary.

(** [None] is [valid: false]. *)
Definition verifyRazorpaySignatureWithRotation (rawBody signature primary : string) (secondary : option string)
  : option key_label :=
  if verifyRazorpaySignature rawBody signature primary then Some Primary
  else match secondary with
       | Some (String _ _ as s) => if verifyRazorpaySignature rawBody signature s then Some Secondary else None
       | _ => None
       end.
End Signatures.

(** ** Events *)

#[local] Unset Elimination Schemes.
Inductive json :=
| JNull | JBool (b : bool) | JNum (q : Q) | JString (s : string)
| JArray (l : list json) | JObject (fields : list (string * json)).

#[local] Set Elimination Schemes.

(** A field of an object; [None] is [undefined]. *)
Definition field (k : string) (fields : list (string * json)) : option json :=
  snd <$> List.find (λ kv, String.eqb kv.1 k) fields.

Definition is_integer (q : Q) : option Z :=
  let n := Qnum q in let d := Zpos (Qden q) in if n mod d =? 0 then Some (n / d) else None.

(** [z.string().min(1)] and [z.number()] on a required field. *)
Definition non_empty_string (j : option json) : option string :=
  match j with Some (JString (String c r)) => Some (String c r) | _ => None end.
Definition number (j : option json) : option Q := match j with Some (JNum q) => Some q | _ => None end.

Record payment_entity := {
  pay_id : string; order_id : string; pay_status : string; amount : Q; currency : string }.

Definition paymentEntitySchema (j : option json) : option payment_entity :=
  match j with
  | Some (JObject fs) =>
      i ← non_empty_string (field "id" fs);
      o ← non_empty_string (field "order_id" fs);
      st ← non_empty_string (field "status" fs);
      a ← number (field "amount" fs);
      c ← non_empty_string (field "currency" fs);
      Some {| pay_id := i; order_id := o; pay_status := st; amount := a; currency := c |}
  | _ => None
  end.

(** [payload.payment], and the default of [payload]. *)
Definition paymentSchema (j : option json) : option (option payment_entity) :=
  match j with
  | None => Some None
  | Some (JObject fs) => Some <$> paymentEntitySchema (field "entity" fs)
  | Some _ => None
  end.

Definition payloadSchema (j : option json) : option (option payment_entity) :=
  match j with
  | None => Some None
  | Some (JObject fs) => paymentSchema (field "payment" fs)
  | Some _ => None
  end.

(** [z.number().int().positive().optional()] *)
Definition createdAtSchema (j : option json) : option (option Z) :=
  match j with
  | None => Some None
  | Some (JNum q) => match is_integer q with
                     | Some n => if 0 <? n then Some (Some n) else None
                     | None => None
                     end
  | Some _ => None
  end.

Definition HANDLED_EVENT_TYPES : list string := ["payment.captured"; "payment.failed"; "order.paid"].

Record RazorpayEvent := {
  ev_id : string; event : string; created_at : option Z; payment : option payment_entity }.

Definition razorpayEventSchema (j : json) : option RazorpayEvent :=
  match j with
  | JObject fs =>
      i ← non_empty_string (field "id" fs);
      e ← non_empty_string (field "event" fs);
      c ← createdAtSchema (field "created_at" fs);
      p ← payloadSchema (field "payload" fs);
      if includes e HANDLED_EVENT_TYPES && match p with None => true | Some _ => false end then None
      else Some {| ev_id := i; event := e; created_at := c; payment := p |}
  | _ => None
  end.

Inductive webhook_error := InvalidPayload | InvalidEvent | InvalidTimestamp.

Definition DEFAULT_MAX_FUTURE_SKEW_MS : Z := 5 * 60 * 1000.
Definition DEFAULT_MAX_AGE_MS : Z := 5 * 60 * 1000.
Definition DEFAULT_TTL_MS : Z := 24 * 60 * 60 * 1000.

(** [parse]: [JSON.parse], [None] when it throws. *)
Definition parseRazorpayEvent (parse : string → option json) (rawBody : string) (nowMs : Z)
    (maxFutureSkewMs : option Z) : result webhook_error RazorpayEvent :=
  match parse rawBody with
  | None => Err InvalidPayload
  | Some payload =>
      match razorpayEventSchema payload with
      | None => Err InvalidEvent
      | Some ev =>
          match created_at ev with
          | Some c =>
              if nowMs + default DEFAULT_MAX_FUTURE_SKEW_MS maxFutureSkewMs <? c * 1000
              then Err InvalidTimestamp else Ok ev
          | None => Ok ev
          end
      end
  end.

(** ** Processed events *)

(** The expiry of each marked event. *)
Abbreviation processed := (gmap string Z).

Definition sweep (now : Z) (m : processed) : processed := filter (λ '(_, x), ¬ x < now) m.

Definition isEventProcessed (now : Z) (eventId : string) (m : processed) : bool * processed :=
  if is_empty eventId then (false, m)
  else match m !! eventId with
       | None => (false, m)
       | Some expiresAt => if expiresAt <? now then (false, delete eventId m) else (true, m)
       end.

Definition markEventProcessed (now : Z) (eventId : string) (m : processed) : processed :=
  <[eventId := now + DEFAULT_TTL_MS]> m.

Inductive tolerance := InTolerance | TooOld | TooFarInFuture.

Definition checkTimestampTolerance (now : Z) (createdAt : option Z) : tolerance :=
  match createdAt with
  | None => InTolerance
  | Some c =>
      let eventTimeMs := c * 1000 in
      if DEFAULT_MAX_AGE_MS <? now - eventTimeMs then TooOld
      else if DEFAULT_MAX_FUTURE_SKEW_MS <? eventTimeMs - now then TooFarInFuture
      else InTolerance
  end.

(** ** Handling *)

Inductive event_status := SOk | SDuplicate | SIgnored.

(** The state: the set [processedEvents] of the handler module and the store. *)
Record state := { processedEvents : gset string; store : processed }.

Definition resetProcessedRazorpayEvents (s : state) : state := {| processedEvents := ∅; store := store s |}.

Definition processRazorpayEvent (now : Z) (ev : RazorpayEvent) (s : state)
  : result webhook_error event_status * state :=
  if bool_decide (ev_id ev ∈ processedEvents s) then (Ok SOk, s)
  else match checkTimestampTolerance now (created_at ev) with
       | InTolerance =>
           let '(seen, m) := isEventProcessed now (ev_id ev) (store s) in
           if seen then (Ok SDuplicate, {| processedEvents := processedEvents s; store := m |})
           else
             let s := {| processedEvents := processedEvents s; store := markEventProcessed now (ev_id ev) m |} in
             (Ok (if includes (event ev) HANDLED_EVENT_TYPES then SOk else SIgnored), s)
       | _ => (Err InvalidTimestamp, s)
       end.

(** The [code] of the error class. *)
Definition error_code_of (e : webhook_error) : string :=
  match e with
  | InvalidPayload => "invalid_payload" | InvalidEvent => "invalid_event" | InvalidTimestamp => "invalid_timestamp"
  end.

Definition thrown_of (cause : option webhook_error) : thrown :=
  match cause with Some e => WithCode (error_code_of e) | None => NotAnError end.

Abbreviation dead_letters := (gmap (string * string) dead_letter).

(** [clock]: the reading of each attempt; [event_json]: [JSON.stringify] of
    the event; [db_ok], [db_now]: whether the dead-letter write succeeds, and
    when. *)
Definition handleRazorpayEvent (sha256 : string → string) (event_json : RazorpayEvent → string)
    (ev : RazorpayEvent) (o : BackoffOptions) (clock draw : Z → Z) (db_ok : bool) (db_now : Z)
    (s : state) (dl : dead_letters)
  : result (backoff_failure webhook_error) event_status * state * dead_letters :=
  let '(r, s, _) := withBackoff (λ attempt s, processRazorpayEvent (clock attempt) ev s) o draw s in
  match r with
  | Ok x => (Ok x, s, dl)
  | Err e =>
      let '(cause, attemptCount) :=
        match e with BackoffError n c => (c, n) | Rethrown e => (Some e, 1) end in
      (Err e, s,
       if is_empty (ev_id ev) || negb db_ok then dl
       else saveDeadLetter sha256 "razorpay" (ev_id ev) (event_json ev) (thrown_of cause) attemptCount db_now dl)
  end.

(** ** Lemmas *)

Lemma hex_buffer_length n s :
  String.length s = (2 * n)%nat → string_forallb is_hex_char s = true → length (buffer_from_hex s) = n.
Proof.
  revert s. induction n as [|n IH]; intros s Hl Hf; [by destruct s|].
  destruct s as [|c [|d s]]; cbn [String.length] in Hl; try lia.
  cbn [string_forallb] in Hf. apply andb_true_iff in Hf as [Hc Hf]. apply andb_true_iff in Hf as [Hd Hf].
  assert (∀ x, is_hex_char x = true → ∃ v, hex_val x = Some v ∧ (v < 16)%nat) as Hv.
  { intros x Hx. unfold is_hex_char in Hx. apply orb_true_iff in Hx as [Hx|Hx].
    - destruct (hex_digit_val x Hx) as (v & ? & ? & _). by exists v.
    - unfold hex_val. destruct (in_range 48 57 x) eqn:E1;
        [unfold in_range, code in *; destruct_bools; eexists; split; [done|lia]|].
      destruct (in_range 97 102 x) eqn:E2; [unfold in_range, code in *; destruct_bools; eexists; split; [done|lia]|].
      rewrite Hx. unfold in_range, code in Hx. destruct_bools. eexists; split; [done|lia]. }
  destruct (Hv c Hc) as (h & Eh & ?). destruct (Hv d Hd) as (l & El & ?).
  cbn [buffer_from_hex]. rewrite Eh, El. destruct (Byte.of_nat (16 * h + l)) as [x|] eqn:Ex.
  - cbn [length]. rewrite IH; [done|lia|done].
  - apply Byte.of_nat_None_iff in Ex. lia.
Qed.

Lemma verify_spec hmac body sig secret :
  (∀ k b, length (hmac k b) = 32%nat) →
  verifyRazorpaySignature hmac body sig secret = true ↔
  secret ≠ EmptyString ∧ is_signature sig = true ∧ buffer_from_hex sig = hmac secret body.
Proof.
  intros Hlen. unfold verifyRazorpaySignature. destruct secret as [|c r]; [cbn; intuition congruence|]. cbn [is_empty orb].
  destruct (is_signature sig) eqn:Es; [|cbn; intuition congruence]. cbn [negb].
  assert (length (buffer_from_hex sig) = 32%nat) as Hs.
  { unfold is_signature in Es. apply andb_true_iff in Es as [H1 H2]. apply Nat.eqb_eq in H1.
    by apply hex_buffer_length. }
  rewrite Hs, Hlen. cbn [Nat.eqb negb]. split.
  - destruct (timingSafeEqual _ _) as [[]|] eqn:Et; [|done|done]. intros _.
    apply timingSafeEqual_true in Et. by rewrite Et.
  - intros (_ & _ & ->). by rewrite timingSafeEqual_refl.
Qed.

(** ** Once per day *)

(** What happens to the store: an attempt to process an event, or the hourly
    sweep. *)
Inductive webhook_event := Attempt (now : Z) (ev : RazorpayEvent) | HourlySweep (now : Z).

Definition wtime (e : webhook_event) : Z := match e with Attempt now _ | HourlySweep now => now end.

Definition wstep (e : webhook_event) (s : state) : state :=
  match e with
  | Attempt now ev => (processRazorpayEvent now ev s).2
  | HourlySweep now => {| processedEvents := processedEvents s; store := sweep now (store s) |}
  end.

Definition wrun (es : list webhook_event) (s : state) : state := fold_left (λ s e, wstep e s) es s.

Lemma wstep_keeps e s k until :
  wtime e ≤ until → until ≤ wtime e + DEFAULT_TTL_MS → store s !! k = Some until → processedEvents s = ∅ →
  k ≠ EmptyString → store (wstep e s) !! k = Some until ∧ processedEvents (wstep e s) = ∅.
Proof.
  intros Ht Hu Hk Hp Hne. destruct e as [now ev|now]; cbn [wstep wtime store processedEvents] in *.
  - unfold processRazorpayEvent. rewrite Hp. rewrite bool_decide_false by set_solver.
    destruct (checkTimestampTolerance now (created_at ev)); [|done..].
    unfold isEventProcessed. destruct (is_empty (ev_id ev)) eqn:E.
    { cbn. unfold markEventProcessed. destruct (ev_id ev); [|done]. by rewrite lookup_insert_ne. }
    destruct (decide (ev_id ev = k)) as [->|Hd].
    + rewrite Hk. assert ((until <? now) = false) as -> by lia. done.
    + destruct (store s !! ev_id ev) as [x|]; [destruct (x <? now)|]; cbn; unfold markEventProcessed;
        rewrite ?lookup_insert_ne, ?lookup_delete_ne by done; done.
  - split; [|done]. unfold sweep. rewrite map_lookup_filter, Hk. cbn. case_guard; [done|lia].
Qed.

Lemma wrun_keeps es s k until :
  Forall (λ e, wtime e ≤ until ∧ until ≤ wtime e + DEFAULT_TTL_MS) es →
  store s !! k = Some until → processedEvents s = ∅ → k ≠ EmptyString →
  store (wrun es s) !! k = Some until ∧ processedEvents (wrun es s) = ∅.
Proof.
  revert s. induction es as [|e es IH]; intros s Hf Hk Hp Hne; [done|]. apply Forall_cons in Hf as [[H1 H2] Hf].
  cbn. destruct (wstep_keeps e s k until H1 H2 Hk Hp Hne) as [Hk' Hp']. by apply IH.
Qed.

(** ** Properties *)

(** Signatures: with a 32-byte HMAC, verification with rotation accepts
    exactly the 64-digit hexadecimal signatures (either case) of the body
    under the non-empty primary secret, or else under the non-empty secondary
    one, and labels them so; the signature a holder of the primary secret
    computes is accepted. *)
Theorem rotation_accepts_exactly hmac body sig primary secondary :
  (∀ k b, length (hmac k b) = 32%nat) →
  let signed secret := secret ≠ EmptyString ∧ is_signature sig = true ∧ buffer_from_hex sig = hmac secret body in
  match verifyRazorpaySignatureWithRotation hmac body sig primary secondary with
  | Some Primary => signed primary
  | Some Secondary => ¬ signed primary ∧ ∃ s, secondary = Some s ∧ signed s
  | None => ¬ signed primary ∧ ∀ s, secondary = Some s → ¬ signed s
  end ∧
  (primary ≠ EmptyString →
   verifyRazorpaySignatureWithRotation hmac body (buffer_to_hex (hmac primary body)) primary secondary = Some Primary).
Proof.
  intros Hlen signed. split.
  - unfold verifyRazorpaySignatureWithRotation.
    pose proof (verify_spec hmac body sig primary Hlen) as H1. fold (signed primary) in H1.
    destruct (verifyRazorpaySignature hmac body sig primary); [by apply H1|].
    assert (¬ signed primary) as Hn by (rewrite <- H1; done).
    destruct secondary as [[|c r]|]; [by split; [done|intros s [= <-] (? & _)]| |by split].
    pose proof (verify_spec hmac body sig (String c r) Hlen) as H2. fold (signed (String c r)) in H2.
    destruct (verifyRazorpaySignature hmac body sig (String c r)).
    + split; [done|]. exists (String c r). split; [done|by apply H2].
    + split; [done|]. intros s [= <-]. rewrite <- H2. done.
  - intros Hp. unfold verifyRazorpaySignatureWithRotation.
    assert (verifyRazorpaySignature hmac body (buffer_to_hex (hmac primary body)) primary = true) as ->; [|done].
    apply verify_spec; [done|]. split_and!; [done| |apply buffer_from_to_hex].
    unfold is_signature. rewrite buffer_to_hex_length, Hlen, lower_hex_is_hex; [done|apply buffer_to_hex_lower].
Qed.

(** C37. At most once: after an event has been processed at [t] (not as a
    duplicate), whatever attempts on any events and hourly sweeps follow
    within the 24-hour time to live, processing an event with the same id
    again in that time reports a duplicate or rejects its timestamp. *)
Theorem event_processed_once ev ev' t s st es now :
  ev_id ev ≠ EmptyString → ev_id ev' = ev_id ev → processedEvents s = ∅ →
  (processRazorpayEvent t ev s).1 = Ok st → st ≠ SDuplicate →
  Forall (λ e, t ≤ wtime e ≤ t + DEFAULT_TTL_MS) es → t ≤ now ≤ t + DEFAULT_TTL_MS →
  let s' := wrun es (processRazorpayEvent t ev s).2 in
  (processRazorpayEvent now ev' s').1 = Ok SDuplicate ∨
  (processRazorpayEvent now ev' s').1 = Err InvalidTimestamp.
Proof.
  intros Hne Hid Hp Hst Hnd Hf Hnow s'.
  assert (store (processRazorpayEvent t ev s).2 !! ev_id ev = Some (t + DEFAULT_TTL_MS) ∧
          processedEvents (processRazorpayEvent t ev s).2 = ∅) as [Hk Hpe].
  { revert Hst. unfold processRazorpayEvent. rewrite Hp, bool_decide_false by set_solver.
    destruct (checkTimestampTolerance t (created_at ev)); [|done..].
    destruct (isEventProcessed t (ev_id ev) (store s)) as [[] m]; cbn; [congruence|].
    intros _. split; [apply lookup_insert_eq|done]. }
  destruct (wrun_keeps es (processRazorpayEvent t ev s).2 (ev_id ev) (t + DEFAULT_TTL_MS)) as [Hk' Hpe']; [|done..|].
  { eapply Forall_impl; [exact Hf|]. cbn. lia. }
  fold s' in Hk', Hpe'. unfold processRazorpayEvent. rewrite Hpe', bool_decide_false by set_solver.
  destruct (checkTimestampTolerance now (created_at ev')); [left|by right..].
  unfold isEventProcessed. rewrite Hid. destruct (ev_id ev); [done|]. cbn [is_empty].
  rewrite Hk'. by assert ((t + DEFAULT_TTL_MS <? now) = false) as -> by lia.
Qed.

(** A stale event is retried and dead-lettered: when every attempt finds
    the event out of tolerance, [handleRazorpayEvent] uses all attempts, leaves
    the stores unchanged, throws a [BackoffError] around the timestamp error
    and writes a dead letter with the full attempt count. *)
Theorem stale_event_is_dead_lettered sha256 event_json ev o clock draw db_now s dl :
  1 < maxAttempts o → ev_id ev ≠ EmptyString → ev_id ev ∉ processedEvents s →
  (∀ i, 1 ≤ i ≤ maxAttempts o → checkTimestampTolerance (clock i) (created_at ev) ≠ InTolerance) →
  let '(r, s', dl') := handleRazorpayEvent sha256 event_json ev o clock draw true db_now s dl in
  r = Err (BackoffError (maxAttempts o) (Some InvalidTimestamp)) ∧ s' = s ∧
  ∃ row, dl' !! ("razorpay", ev_id ev) = Some row ∧ attempt_count row = maxAttempts o ∧
         error_code row = "invalid_timestamp" ∧ payload_hash row = sha256 (event_json ev).
Proof.
  intros Hm Hid Hset Hstale. unfold handleRazorpayEvent.
  set (fn := λ attempt s, processRazorpayEvent (clock attempt) ev s).
  assert (∀ i, 1 ≤ i ≤ maxAttempts o → fn i s = (Err InvalidTimestamp, s)) as Hfn.
  { intros i Hi. unfold fn, processRazorpayEvent. rewrite bool_decide_false by done.
    specialize (Hstale i Hi). by destruct (checkTimestampTolerance (clock i) (created_at ev)). }
  assert (∀ n a, 1 ≤ a → a + Z.of_nat n - 1 ≤ maxAttempts o →
            all_fail fn a n s s (repeat InvalidTimestamp n)) as Hall.
  { induction n as [|n IH]; intros a Ha Hle; cbn [repeat]; econstructor; [apply Hfn; lia|apply IH; lia]. }
  unfold withBackoff. assert ((maxAttempts o <=? 0) = false) as -> by lia.
  rewrite (attempts_failure fn o draw (Z.to_nat (maxAttempts o)) 1 s s
             (repeat InvalidTimestamp (Z.to_nat (maxAttempts o) - 1)) InvalidTimestamp).
  - assert ((maxAttempts o <=? 1) = false) as -> by lia. split; [done|]. split; [done|].
    destruct (ev_id ev) as [|c r] eqn:E; [done|]. cbn [is_empty orb negb].
    unfold saveDeadLetter. destruct (dl !! _); rewrite lookup_insert_eq; by eexists.
  - specialize (Hall (Z.to_nat (maxAttempts o)) 1 ltac:(lia) ltac:(lia)).
    destruct (Z.to_nat (maxAttempts o)) as [|n] eqn:En; [lia|].
    rewrite <- repeat_cons. by rewrite Nat.sub_1_r.
  - lia.
Qed.

(** ** Examples *)

Definition toy_hmac (secret body : string) : list Byte.byte :=
  buffer_from_hex (toy_hash (secret +:+ body)).

Lemma toy_hmac_length k b : length (toy_hmac k b) = 32%nat.
Proof.
  unfold toy_hmac. apply hex_buffer_length; [apply digest_length, _|].
  pose proof (digest_hex (hash := toy_hash) (k +:+ b)) as H. unfold is_digest_hex in H. apply andb_true_iff in H as [_ H].
  by apply lower_hex_is_hex.
Qed.

Lemma rotation_accepts_exactly_witness :
  verifyRazorpaySignatureWithRotation toy_hmac "{}" (buffer_to_hex (toy_hmac "old" "{}")) "old" (Some "new") = Some Primary.
Proof.
  apply (rotation_accepts_exactly toy_hmac "{}" EmptyString "old" (Some "new")).
  - exact toy_hmac_length.
  - discriminate.
Defined.

Definition sample_event (c : option Z) : RazorpayEvent :=
  {| ev_id := "evt_1"; event := "order.settled"; created_at := c; payment := None |}.

Definition empty_state : state := {| processedEvents := ∅; store := ∅ |}.

Lemma event_processed_once_witness :
  let s' := wrun [HourlySweep 50; Attempt 60 (sample_event None)]
              (processRazorpayEvent 10 (sample_event None) empty_state).2 in
  (processRazorpayEvent 3600000 (sample_event None) s').1 = Ok SDuplicate ∨
  (processRazorpayEvent 3600000 (sample_event None) s').1 = Err InvalidTimestamp.
Proof.
  refine (event_processed_once (sample_event None) (sample_event None) 10 empty_state SIgnored
            [HourlySweep 50; Attempt 60 (sample_event None)] 3600000 _ _ _ _ _ _ _).
  - discriminate.
  - reflexivity.
  - reflexivity.
  - reflexivity.
  - discriminate.
  - repeat constructor; cbn; unfold DEFAULT_TTL_MS; lia.
  - unfold DEFAULT_TTL_MS. lia.
Defined.

Lemma stale_event_is_dead_lettered_witness :
  let '(r, _, dl') := handleRazorpayEvent toy_hash (λ e, ev_id e) (sample_event (Some 1)) DEFAULT_BACKOFF_OPTIONS
                        (λ i, 1000000 + i) (λ _, 0) true 9 empty_state ∅ in
  r = Err (BackoffError 3 (Some InvalidTimestamp)) ∧
  attempt_count <$> dl' !! ("razorpay", "evt_1") = Some 3.
Proof.
  pose proof (stale_event_is_dead_lettered toy_hash (λ e, ev_id e) (sample_event (Some 1)) DEFAULT_BACKOFF_OPTIONS
                (λ i, 1000000 + i) (λ _, 0) 9 empty_state ∅) as H.
  destruct (handleRazorpayEvent _ _ _ _ _ _ _ _ _ _) as [[r s'] dl'].
  destruct H as (Hr & _ & row & Hrow & Hc & _); [done|done|set_solver| |].
  - intros i [H1 H2]. cbn in H2. unfold checkTimestampTolerance. cbn [created_at sample_event].
    assert ((DEFAULT_MAX_AGE_MS <? 1000000 + i - 1 * 1000) = true) as -> by (unfold DEFAULT_MAX_AGE_MS; lia).
    discriminate.
  - split; [exact Hr|]. cbn in Hrow. rewrite Hrow. cbn. by rewrite Hc.
Defined.
