(* ===== verification/SecretRotation.v ===== *)
(** * Webhook secret rotation status: [src/services/webhooks/secretRotation.ts].

    The registry is a JavaScript [Map]: an association list in insertion
    order, where setting an existing key keeps its place.  The Prometheus
    gauge is a finite map on its labels. *)

From S2P Require Import Prelude Collections.
#[local] Open Scope Z_scope.

(** ** The tracker *)

Record SubscriptionVersionReport := { subscriptionId : string; businessId : string; currentVersion : Z }.

Inductive adoption := Current | Lagging.

#[export] Instance adoption_eq_dec : EqDecision adoption.
Proof. solve_decision. Defined.
#[export] Instance adoption_countable : Countable adoption.
Proof.
  refine (inj_countable' (λ a, match a with Current => true | Lagging => false end)
            (λ b, if b then Current else Lagging) _). by intros [].
Defined.

(** Labels: subscription, business, status. *)
Abbreviation gauge_map := (gmap (string * string * adoption) Z).

Record tracker := {
  latestSecretVersion : Z;
  subscriptionVersions : list (string * SubscriptionVersionReport);
  gauge : gauge_map;
}.

Definition initial : tracker := {| latestSecretVersion := 0; subscriptionVersions := []; gauge := ∅ |}.

Definition setLatestSecretVersion (version : Z) (t : tracker) : tracker :=
  {| latestSecretVersion := if latestSecretVersion t <? version then version else latestSecretVersion t;
     subscriptionVersions := subscriptionVersions t; gauge := gauge t |}.

Definition reportSubscriptionVersion (sub biz : string) (version : Z) (t : tracker) : tracker :=
  {| latestSecretVersion := latestSecretVersion t;
     subscriptionVersions := map_set sub {| subscriptionId := sub; businessId := biz; currentVersion := version |}
                               (subscriptionVersions t);
     gauge := gauge t |}.

Definition removeSubscription (sub : string) (t : tracker) : tracker :=
  {| latestSecretVersion := latestSecretVersion t;
     subscriptionVersions := map_delete sub (subscriptionVersions t); gauge := gauge t |}.

Definition is_current (latest : Z) (r : SubscriptionVersionReport) : bool :=
  (latest =? 0) || (latest <=? currentVersion r).

Definition isSubscriptionCurrent (sub : string) (t : tracker) : option bool :=
  match map_get sub (subscriptionVersions t) with
  | None => None
  | Some r => if latestSecretVersion t =? 0 then Some true else Some (latestSecretVersion t <=? currentVersion r)
  end.

Definition getAdoptionSnapshot (t : tracker) : list (SubscriptionVersionReport * bool) :=
  map (λ kv, (kv.2, is_current (latestSecretVersion t) kv.2)) (subscriptionVersions t).

Definition set_status (latest : Z) (g : gauge_map) (r : SubscriptionVersionReport) : gauge_map :=
  let c := is_current latest r in
  <[(subscriptionId r, businessId r, Lagging) := if c then 0 else 1]>
    (<[(subscriptionId r, businessId r, Current) := if c then 1 else 0]> g).

Definition emitRotationStatus (t : tracker) : tracker :=
  {| latestSecretVersion := latestSecretVersion t; subscriptionVersions := subscriptionVersions t;
     gauge := fold_left (set_status (latestSecretVersion t)) (map snd (subscriptionVersions t)) ∅ |}.

Definition reset (t : tracker) : tracker := initial.

(** ** Runs *)

Inductive op :=
| OLatest (v : Z) | OReport (sub biz : string) (v : Z) | ORemove (sub : string) | OEmit | OReset.

Definition apply (o : op) (t : tracker) : tracker :=
  match o with
  | OLatest v => setLatestSecretVersion v t
  | OReport sub biz v => reportSubscriptionVersion sub biz v t
  | ORemove sub => removeSubscription sub t
  | OEmit => emitRotationStatus t
  | OReset => reset t
  end.

Definition run (ops : list op) : tracker := fold_left (λ t o, apply o t) ops initial.

Record wf (t : tracker) : Prop := {
  wf_nodup : NoDup (subscriptionVersions t).*1;
  wf_key : ∀ k r, map_get k (subscriptionVersions t) = Some r → subscriptionId r = k;
}.

Lemma apply_wf o t : wf t → wf (apply o t).
Proof.
  intros [Hn Hk]. destruct o as [v|sub biz v|sub| |]; cbn; constructor; cbn; try done.
  - by apply map_set_nodup.
  - intros k r. rewrite map_get_set. destruct (String.eqb_spec k sub) as [->|]; [by intros [= <-]|apply Hk].
  - by apply map_delete_nodup.
  - intros k r. rewrite map_get_delete. case_if; [done|apply Hk].
  - constructor.
Qed.

Lemma run_wf ops : wf (run ops).
Proof.
  unfold run. induction ops as [|o ops IH] using rev_ind.
  - constructor; [constructor|done].
  - rewrite fold_left_app. by apply apply_wf.
Qed.

(** The gauge after emitting a list of reports with distinct subscriptions. *)
Lemma emit_lookup latest rs g sub biz st :
  NoDup (map subscriptionId rs) →
  fold_left (set_status latest) rs g !! (sub, biz, st) =
  match List.find (λ r, String.eqb (subscriptionId r) sub && String.eqb (businessId r) biz) rs with
  | Some r => Some (match st with Current => if is_current latest r then 1 else 0
                                | Lagging => if is_current latest r then 0 else 1 end)
  | None => g !! (sub, biz, st)
  end.
Proof.
  revert g. induction rs as [|r rs IH]; intros g Hn; [done|]. cbn [fold_left List.find map] in *.
  apply NoDup_cons in Hn as [Hr Hn]. rewrite IH by done.
  destruct (String.eqb_spec (subscriptionId r) sub) as [Hs|Hs]; cbn [andb].
  - destruct (List.find _ rs) as [r'|] eqn:E.
    { apply find_some in E as [Hin He]. apply andb_true_iff in He as [He _]. apply String.eqb_eq in He.
      destruct Hr. rewrite Hs, <- He. apply list_elem_of_In, in_map. done. }
    destruct (String.eqb_spec (businessId r) biz) as [Hb|Hb].
    + subst. unfold set_status. destruct st; [rewrite lookup_insert_ne by done|]; by rewrite lookup_insert_eq.
    + unfold set_status. by rewrite !lookup_insert_ne by congruence.
  - destruct (List.find _ rs); [done|]. unfold set_status. by rewrite !lookup_insert_ne by congruence.
Qed.

(** A report found by its labels is the one its subscription maps to. *)
Lemma find_tracked t sub (p : SubscriptionVersionReport → bool) r :
  wf t → (∀ r, p r = true → subscriptionId r = sub) →
  List.find p (map snd (subscriptionVersions t)) = Some r → map_get sub (subscriptionVersions t) = Some r.
Proof.
  intros [Hn Hk] Hp Ef. apply find_some in Ef as [Hin He]. apply Hp in He.
  apply in_map_iff in Hin as ([k r0] & Hr0 & Hin). cbn in Hr0. subst r0.
  assert (map_get k (subscriptionVersions t) = Some r) as Hk'
    by (apply map_get_elem; [done|by apply list_elem_of_In]).
  assert (k = sub) as -> by (rewrite <- He; symmetry; by apply Hk). done.
Qed.

(** ** Properties *)

(** After [emitRotationStatus], in every run of the tracker, the gauge
    reports each tracked subscription under its business with exactly one of
    the two statuses set, the one [isSubscriptionCurrent] answers, and has no
    series for a subscription that is not tracked. *)
Theorem gauge_reflects_tracker ops sub biz :
  let t := emitRotationStatus (run ops) in
  match map_get sub (subscriptionVersions t), isSubscriptionCurrent sub t with
  | Some r, Some c =>
      businessId r = biz →
      gauge t !! (sub, biz, Current) = Some (if c then 1 else 0) ∧
      gauge t !! (sub, biz, Lagging) = Some (if c then 0 else 1)
  | None, None => gauge t !! (sub, biz, Current) = None ∧ gauge t !! (sub, biz, Lagging) = None
  | _, _ => False
  end.
Proof.
  intros t. pose proof (run_wf ops) as Hwf. destruct Hwf as [Hn Hk] eqn:EH. clear EH.
  assert (NoDup (map subscriptionId (map snd (subscriptionVersions (run ops))))) as Hids.
  { assert (map subscriptionId (map snd (subscriptionVersions (run ops))) = (subscriptionVersions (run ops)).*1) as ->;
      [|done].
    rewrite List.map_map. apply map_ext_in. intros [k r] Hin. cbn. apply (Hk k r).
    apply map_get_elem; [done|]. by apply list_elem_of_In. }
  assert (∀ r, String.eqb (subscriptionId r) sub && String.eqb (businessId r) biz = true → subscriptionId r = sub) as Hp.
  { intros r [He _]%andb_true_iff. by apply String.eqb_eq. }
  unfold isSubscriptionCurrent. unfold t. cbn [emitRotationStatus subscriptionVersions gauge latestSecretVersion].
  rewrite !emit_lookup by done.
  destruct (List.find _ _) as [r'|] eqn:Ef.
  - rewrite (find_tracked (run ops) sub _ r' Hwf Hp Ef). unfold is_current. by case_if.
  - destruct (map_get sub (subscriptionVersions (run ops))) as [r|] eqn:E; [|by rewrite !lookup_empty].
    pose proof (Hk sub r E) as Hsub. case_if; intros <-; exfalso;
      (assert (In r (map snd (subscriptionVersions (run ops)))) as Hin
         by (apply in_map_iff; exists (sub, r); split; [done|]; by apply list_elem_of_In, map_get_Some));
      pose proof (find_none _ _ Ef r Hin) as Hf; cbn in Hf; by rewrite Hsub, !String.eqb_refl in Hf.
Qed.
