(* ===== verification/TokenRefresh.v ===== *)
(** * Refresh-token rotation: [src/services/auth/refresh.ts] and
    [src/services/auth/usedTokenStore.ts].

    The store of consumed token ids is an interface with the two
    implementations of the source.  [refresh] awaits the store and the user
    lookup, so it is two steps: [refresh_begin] up to the replay check and
    [refresh_finish] after it.  JWT verification and signing and the user
    repository are parameters. *)

From S2P Require Import Prelude.
#[local] Open Scope Z_scope.

(** ** The store *)

Class UsedTokenStore (S : Type) := {
  has : string → S → bool;
  mark : string → string → Z → S → S;
  clear : S → S;
  has_mark jti user exp s : has jti (mark jti user exp s) = true;
  has_mark_ne jti jti' user exp s : jti ≠ jti' → has jti' (mark jti user exp s) = has jti' s;
  has_clear jti s : has jti (clear s) = false;
}.

(** [InMemoryUsedTokenStore]. *)
#[export] Instance InMemoryUsedTokenStore : UsedTokenStore (gset string).
Proof.
  refine {| has jti s := bool_decide (jti ∈ s); mark jti _ _ s := {[jti]} ∪ s; clear _ := ∅ |}.
  - intros. apply bool_decide_true. set_solver.
  - intros jti jti' _ _ s Hne. apply bool_decide_ext.
    rewrite elem_of_union, elem_of_singleton. intuition congruence.
  - intros. apply bool_decide_false. set_solver.
Defined.

(** [DbUsedTokenStore]: rows by [jti]; the insert does nothing on conflict. *)
Abbreviation used_refresh_tokens := (gmap string (string * Z)).

Definition db_mark (jti user : string) (expiresAt : Z) (t : used_refresh_tokens) : used_refresh_tokens :=
  match t !! jti with Some _ => t | None => <[jti := (user, expiresAt)]> t end.

Definition db_has (jti : string) (t : used_refresh_tokens) : bool :=
  match t !! jti with Some _ => true | None => false end.

#[export] Instance DbUsedTokenStore : UsedTokenStore used_refresh_tokens.
Proof.
  refine {| has := db_has; mark := db_mark; clear _ := ∅ |}.
  - intros. unfold db_has, db_mark. destruct (s !! jti) eqn:E; [by rewrite E|].
    by rewrite lookup_insert_eq.
  - intros. unfold db_has, db_mark. destruct (s !! jti); [done|].
    by rewrite lookup_insert_ne.
  - intros. unfold db_has. by rewrite lookup_empty.
Defined.

(** ** Refresh *)

Record user := { user_id : string; email : string }.
Record RefreshResponse := { accessToken : string; refreshToken : string }.

Inductive refresh_error :=
| TokenRequired | InvalidOrExpired | MissingClaims | InvalidRefreshToken | UserNotFound | StoreUnavailable.

Section Refresh.
Context {S : Type} `{!UsedTokenStore S}.
(** [verifyRefreshToken] (the user id of a valid token), [jwt.decode] (its
    [jti] and [exp] when present and truthy), [findUserById] and the two
    signing functions, which may use the clock and randomness ([nonce]). *)
Context (verifyRefreshToken : string → option string).
Context (decode : string → option string * option Z).
Context (findUserById : string → option user).
Context (generateToken generateRefreshToken : Z → user → string).

Definition extractJtiAndExp (token : string) : result refresh_error (string * Z) :=
  match decode token with
  | (Some (String _ _ as jti), Some exp) => if exp =? 0 then Err MissingClaims else Ok (jti, exp)
  | _ => Err MissingClaims
  end.

(** A request whose replay check has passed. *)
Record checked := { c_jti : string; c_exp : Z; c_userId : string }.

(** [up]: whether the store answers. *)
Definition refresh_begin (token : string) (up : bool) (s : S) : result refresh_error checked :=
  match token with
  | EmptyString => Err TokenRequired
  | _ =>
      match verifyRefreshToken token with
      | None => Err InvalidOrExpired
      | Some userId =>
          '(jti, exp) ← extractJtiAndExp token;
          if negb up then Err StoreUnavailable
          else if has jti s then Err InvalidRefreshToken
          else Ok {| c_jti := jti; c_exp := exp; c_userId := userId |}
      end
  end.

Definition refresh_finish (c : checked) (up : bool) (nonce : Z) (s : S) : result refresh_error RefreshResponse * S :=
  match findUserById (c_userId c) with
  | None => (Err UserNotFound, s)
  | Some u =>
      if negb up then (Err StoreUnavailable, s)
      else (Ok {| accessToken := generateToken nonce u; refreshToken := generateRefreshToken nonce u |},
            mark (c_jti c) (user_id u) (c_exp c * 1000) s)
  end.

(** A call of which the two steps run without another call in between. *)
Record call := { token : string; up_has : bool; up_mark : bool; nonce : Z }.

Definition refresh (c : call) (s : S) : result refresh_error RefreshResponse * S :=
  match refresh_begin (token c) (up_has c) s with
  | Err e => (Err e, s)
  | Ok k => refresh_finish k (up_mark c) (nonce c) s
  end.

Definition run (cs : list call) (s : S) : S := fold_left (λ s c, (refresh c s).2) cs s.

(** ** Lemmas *)

Lemma refresh_finish_keeps jti c up n s :
  has jti s = true → has jti (refresh_finish c up n s).2 = true.
Proof.
  intros H. unfold refresh_finish. destruct (findUserById (c_userId c)) as [u|]; [|done].
  destruct up; [|done]. cbn. destruct (decide (c_jti c = jti)) as [->|Hne]; [apply has_mark|].
  by rewrite has_mark_ne.
Qed.

Lemma refreshes_keep jti cs s : has jti s = true → has jti (run cs s) = true.
Proof.
  revert s. induction cs as [|c cs IH]; intros s H; [done|]. cbn. apply IH. unfold refresh.
  destruct (refresh_begin (token c) (up_has c) s); [by apply refresh_finish_keeps|done].
Qed.

Lemma refresh_begin_jti t up s k :
  refresh_begin t up s = Ok k → ∃ exp, extractJtiAndExp t = Ok (c_jti k, exp) ∧ has (c_jti k) s = false.
Proof.
  unfold refresh_begin. destruct t as [|ch t]; [done|]. destruct (verifyRefreshToken _); [|done].
  intros H. apply bind_Ok_inv in H as ([jti exp] & He & H).
  destruct up; cbn in H; [|done]. destruct (has jti s) eqn:E; [done|]. injection H as <-. by exists exp.
Qed.

Lemma refresh_begin_used t up s jti exp :
  extractJtiAndExp t = Ok (jti, exp) → has jti s = true → is_ok (refresh_begin t up s) = false.
Proof.
  intros He Hh. destruct (refresh_begin t up s) as [k|] eqn:E; [|done].
  apply refresh_begin_jti in E as (exp' & He' & Hn). congruence.
Qed.

(** ** Properties *)

(** Single use: once a refresh of a token has succeeded, after any
    sequence of further refreshes that do not overlap, refreshing a token with
    the same [jti] fails and changes nothing, with any store that implements
    the interface and whether or not the store answers in between. *)
Theorem refresh_token_single_use c c' cs s r jti exp exp' :
  extractJtiAndExp (token c) = Ok (jti, exp) → extractJtiAndExp (token c') = Ok (jti, exp') →
  (refresh c s).1 = Ok r →
  let s' := run cs (refresh c s).2 in
  is_ok (refresh c' s').1 = false ∧ (refresh c' s').2 = s'.
Proof.
  intros Hj Hj' Hr s'.
  assert (has jti (refresh c s).2 = true) as Hm.
  { unfold refresh in *. destruct (refresh_begin (token c) (up_has c) s) as [k|] eqn:E; [|done].
    apply refresh_begin_jti in E as (e & He & _). assert (c_jti k = jti) as <- by congruence.
    unfold refresh_finish in *. destruct (findUserById (c_userId k)); [|done]. destruct (up_mark c); [|done].
    apply has_mark. }
  pose proof (refresh_begin_used (token c') (up_has c') s' jti exp' Hj' (refreshes_keep jti cs _ Hm)) as Hb.
  unfold refresh. destruct (refresh_begin (token c') (up_has c') s'); done.
Qed.

(** The replay check and the mark are not atomic: when two refreshes of
    one token both pass the check before either marks it, both succeed and
    issue a token pair, with any store that implements the interface, the
    insert-or-ignore table of production included. *)
Theorem overlapping_refreshes_both_succeed t k u n1 n2 s :
  refresh_begin t true s = Ok k → findUserById (c_userId k) = Some u →
  let '(r1, s1) := refresh_finish k true n1 s in
  let '(r2, s2) := refresh_finish k true n2 s1 in
  refresh_begin t true s = Ok k ∧
  r1 = Ok {| accessToken := generateToken n1 u; refreshToken := generateRefreshToken n1 u |} ∧
  r2 = Ok {| accessToken := generateToken n2 u; refreshToken := generateRefreshToken n2 u |} ∧
  has (c_jti k) s2 = true.
Proof.
  intros Hb Hu. unfold refresh_finish. rewrite Hu. cbn. split_and!; [done..|]. apply has_mark.
Qed.
End Refresh.

(** ** Examples *)

Definition sample_verify (t : string) : option string := if String.eqb t "tok" then Some "u1" else None.
Definition sample_decode (t : string) : option string * option Z := (Some ("jti-" +:+ t), Some 100).
Definition sample_find (i : string) : option user := Some {| user_id := i; email := "a@x.io" |}.
Definition sample_sign (n : Z) (u : user) : string := user_id u.
Definition sample_call (n : Z) : call := {| token := "tok"; up_has := true; up_mark := true; nonce := n |}.

Lemma refresh_token_single_use_witness :
  let go := refresh (S := used_refresh_tokens) sample_verify sample_decode sample_find sample_sign sample_sign in
  is_ok (go (sample_call 1) ∅).1 = true ∧
  is_ok (go (sample_call 2) (go (sample_call 1) ∅).2).1 = false.
Proof.
  intros go. split; [reflexivity|].
  exact (proj1 (refresh_token_single_use (S := used_refresh_tokens) sample_verify sample_decode sample_find
    sample_sign sample_sign (sample_call 1) (sample_call 2) [] ∅
    {| accessToken := "u1"; refreshToken := "u1" |} "jti-tok" 100 100 eq_refl eq_refl eq_refl)).
Defined.

Lemma overlapping_refreshes_both_succeed_witness :
  let k := {| c_jti := "jti-tok"; c_exp := 100; c_userId := "u1" |} in
  let fin := refresh_finish (S := used_refresh_tokens) sample_find sample_sign sample_sign in
  is_ok (fin k true 1 ∅).1 = true ∧
  is_ok (fin k true 2 (fin k true 1 ∅).2).1 = true.
Proof.
  intros k fin.
  pose proof (overlapping_refreshes_both_succeed (S := used_refresh_tokens) sample_verify sample_decode sample_find
    sample_sign sample_sign "tok" k {| user_id := "u1"; email := "a@x.io" |} 1 2 ∅
    eq_refl eq_refl) as H.
  unfold fin. destruct (refresh_finish _ _ _ k true 1 _) as [r1 s1]. cbn [fst snd].
  destruct (refresh_finish _ _ _ k true 2 s1) as [r2 s2]. destruct H as (_ & -> & -> & _). split; reflexivity.
Defined.
