(* ===== verification/Attestation.v ===== *)
(** * Attestations: [src/services/attestation/submit.ts], [revoke.ts] and
    [revokeBatch.ts].

    [Submit] is the submission flow from the revenue entries to the Merkle
    root, the retried Soroban call and the repository record; [Revoke] the
    single revocation; [RevokeBatch] the transactional one with its audit
    entries.  Revenue fetching, the Soroban call and amounts (a number type
    with addition and [toFixed(2)]) are parameters. *)

From Stdlib Require Import Strings.Byte.
From S2P Require Import Prelude Numeric Hashing JsString PairTree Collections MerkleLegacy.
#[local] Open Scope Z_scope.

Module Submit.

(** ** Periods *)

Definition is_leap (y : Z) : bool := ((y mod 4 =? 0) && negb (y mod 100 =? 0)) || (y mod 400 =? 0).

Definition days_in_month (y m : Z) : Z :=
  if m =? 2 then (if is_leap y then 29 else 28)
  else if (m =? 4) || (m =? 6) || (m =? 9) || (m =? 11) then 30 else 31.

(** [new Date(y, m, 0).getDate()]: the last day of month [m] (1-based), with
    months out of range carried into the year and years 0 to 99 read as
    1900 to 1999; [None] is [NaN].  Exact for the years a [Date] holds. *)
Definition last_day (y m : option Z) : option Z :=
  match y, m with
  | Some y, Some m =>
      let y := if (0 <=? y) && (y <=? 99) then 1900 + y else y in
      Some (days_in_month (y + (m - 1) / 12) ((m - 1) mod 12 + 1))
  | _, _ => None
  end.

Definition show_num (n : option Z) : string := match n with Some n => show_Z n | None => "NaN" end.

(** The parts around the first occurrence of [sep]. *)
Fixpoint split_str (sep s : string) : option (string * string) :=
  match strip_prefix sep s with
  | Some r => Some (EmptyString, r)
  | None => match s with
            | EmptyString => None
            | String c r => match split_str sep r with Some (a, b) => Some (String c a, b) | None => None end
            end
  end.

Record period_range := { startDate : string; endDate : string }.

(** [month] of the second form is the text after the first [-], up to the
    next one; a missing part is the text "undefined". *)
Definition parsePeriod (period : string) : period_range :=
  match split_str "-Q" period with
  | Some (year, rest) =>
      let q := match split_str "-Q" rest with Some (q, _) => q | None => rest end in
      let startMonth := (λ n, (n - 1) * 3 + 1) <$> parse_int q in
      let endMonth := (λ n, n + 2) <$> startMonth in
      let endDay := last_day (parse_int year) endMonth in
      {| startDate := year +:+ "-" +:+ pad2 (show_num startMonth) +:+ "-01T00:00:00Z";
         endDate := year +:+ "-" +:+ pad2 (show_num endMonth) +:+ "-" +:+ pad2 (show_num endDay) +:+ "T23:59:59Z" |}
  | None =>
      let parts := split_on "-" period in
      let year := default EmptyString (head parts) in
      let month := default "undefined" (parts !! 1%nat) in
      let endDay := last_day (parse_int year) (parse_int month) in
      {| startDate := year +:+ "-" +:+ month +:+ "-01T00:00:00Z";
         endDate := year +:+ "-" +:+ month +:+ "-" +:+ pad2 (show_num endDay) +:+ "T23:59:59Z" |}
  end.

Example quarter_range :
  parsePeriod "2025-Q4" = {| startDate := "2025-10-01T00:00:00Z"; endDate := "2025-12-31T23:59:59Z" |}.
Proof. reflexivity. Qed.
Example leap_month :
  parsePeriod "2024-02" = {| startDate := "2024-02-01T00:00:00Z"; endDate := "2024-02-29T23:59:59Z" |}.
Proof. reflexivity. Qed.

(** ** Revenue *)
Section Revenue.
Context {num : Type} (zero : num) (add : num → num → num) (falsy : num → bool) (toFixed2 : num → string).

Record RevenueEntry := { date : string; amount : num; currency : string }.
Record NormalizedRevenue := { n_date : string; month : string; n_amount : num; n_currency : string }.

Definition normalizeRevenue (entries : list RevenueEntry) : list NormalizedRevenue :=
  map (λ e, {| n_date := date e; month := String.substring 0 7 (date e); n_amount := amount e;
               n_currency := currency e |}) entries.

(** One step of the loop: a missing or falsy total restarts at zero. *)
Definition add_entry (acc : list (string * num)) (e : NormalizedRevenue) : list (string * num) :=
  let total := match map_get (month e) acc with
               | Some t => if falsy t then zero else t
               | None => zero
               end in
  map_set (month e) (add total (n_amount e)) acc.

Definition aggregateByMonth (normalized : list NormalizedRevenue) : list (string * num) :=
  fold_left add_entry normalized [].

(** [sort(localeCompare)] on the months, then the leaf strings. *)
Definition leaves_of (localeCompare : string → string → Z) (aggregated : list (string * num)) : list leaf_value :=
  map (λ '(m, a), LeafString (m +:+ ":" +:+ toFixed2 a))
      (js_sort (λ a b, localeCompare a.1 b.1) aggregated).

(** The total of a month: its amounts added in order. *)
Definition month_total (m : string) (l : list NormalizedRevenue) : num :=
  fold_left (λ t e, if String.eqb (month e) m then add t (n_amount e) else t) l zero.

Definition has_month (m : string) (l : list NormalizedRevenue) : bool :=
  existsb (λ e, String.eqb (month e) m) l.
End Revenue.
Arguments RevenueEntry num : clear implicits.
Arguments NormalizedRevenue num : clear implicits.

(** ** The Soroban call *)

Inductive SorobanErrorCode :=
| NETWORK_TIMEOUT | NETWORK_ERROR | RPC_UNAVAILABLE | NONCE_CONFLICT | FEE_BUMP_REQUIRED | TRANSACTION_PENDING
| INVALID_SIGNATURE | INVALID_ACCOUNT | INSUFFICIENT_BALANCE | CONTRACT_ERROR
| RATE_LIMITED | SERVICE_UNAVAILABLE | INTERNAL_ERROR.

(** A thrown error: its message and its code, if any; a code outside the
    taxonomy is [OtherCode]. *)
Inductive code := Known (c : SorobanErrorCode) | OtherCode.
Record soroban_error := { message : string; e_code : option code }.

Definition isRetryableError (e : soroban_error) : bool :=
  match e_code e with
  | None => true
  | Some OtherCode => false
  | Some (Known c) =>
      match c with
      | INVALID_SIGNATURE | INVALID_ACCOUNT | INSUFFICIENT_BALANCE | CONTRACT_ERROR => false
      | _ => true
      end
  end.

Record RetryConfig := { maxAttempts : Z; baseDelayMs : Z; maxDelayMs : Z; backoffMultiplier : Z }.

Definition DEFAULT_RETRY_CONFIG : RetryConfig :=
  {| maxAttempts := 3; baseDelayMs := 1000; maxDelayMs := 30000; backoffMultiplier := 2 |}.

(** [0.5 + Math.random() * 0.5] in units of [2^-54], rounded to a double. *)
Definition jitter (draw : Z) : Z := fl53 (2 ^ 53 + draw).

Definition calculateDelay (attempt : Z) (config : RetryConfig) (draw : Z) : Z :=
  let exponentialDelay := baseDelayMs config * backoffMultiplier config ^ (attempt - 1) in
  let cappedDelay := Z.min exponentialDelay (maxDelayMs config) in
  fl53 (cappedDelay * jitter draw) / 2 ^ 54.

(** A thrown value: an [AppError] (or [ExternalServiceError], a subclass)
    with its status and code, any other [Error], or [undefined]. *)
Inductive thrown :=
| App (m : string) (status : Z) (vrt : string)
| Plain (m : string)
| Undefined.

Definition convert_error (e : soroban_error) : thrown :=
  match e_code e with
  | Some (Known INSUFFICIENT_BALANCE) =>
      App "Insufficient balance for transaction fees. Please fund your account." 400 "INSUFFICIENT_BALANCE"
  | Some (Known INVALID_SIGNATURE) => App "Invalid signature provided for transaction." 400 "INVALID_SIGNATURE"
  | Some (Known CONTRACT_ERROR) =>
      App "Contract execution failed. Please check your parameters." 400 "CONTRACT_ERROR"
  | _ => App ("Soroban submission failed: " +:+ message e) 503 "VRT-0008"
  end.

(** What a submission did: its answer, the delays slept, and the Soroban calls
    it made, as their root, attempt and answer. *)
Abbreviation soroban_call := (string * Z * result soroban_error string)%type.
Record attempts := { answer : result thrown string; delays : list Z; calls : list soroban_call }.

(** [n] attempts left, the next being [attempt]; [call] is the Soroban call of
    each attempt.  Without any attempt the unassigned [lastError] is thrown. *)
Fixpoint submit_loop (root : string) (call : Z → result soroban_error string) (config : RetryConfig) (draw : Z → Z)
    (n : nat) (attempt : Z) : attempts :=
  match n with
  | O => {| answer := Err Undefined; delays := []; calls := [] |}
  | S n =>
      let made := (root, attempt, call attempt) in
      match call attempt with
      | Ok tx => {| answer := Ok tx; delays := []; calls := [made] |}
      | Err e =>
          if (attempt =? maxAttempts config) || negb (isRetryableError e)
          then {| answer := Err (convert_error e); delays := []; calls := [made] |}
          else
            let delay := calculateDelay attempt config (draw attempt) in
            let o := submit_loop root call config draw n (attempt + 1) in
            {| answer := answer o; delays := delay :: delays o; calls := made :: calls o |}
      end
  end.

Definition submitToSorobanWithRetry (root : string) (call : Z → result soroban_error string) (config : RetryConfig) (draw : Z → Z)
  : attempts :=
  submit_loop root call config draw (Z.to_nat (maxAttempts config)) 1.

(** ** The flow *)

(** [src/repositories/attestation.ts]: the in-memory records; a missing
    [status] is [None]. *)
Inductive status := Active | Revoked.
Record Attestation := {
  att_id : string; businessId : string; period : string; attestedAt : Z;
  att_status : option status; revokedAt : option Z; revokeReason : option string
}.

(** [create], on the fields the flow gives; [fresh] is the random UUID. *)
Definition create (biz per fresh : string) (now : Z) (store : list Attestation) : Attestation * list Attestation :=
  let a := {| att_id := "att_" +:+ fresh; businessId := biz; period := per; attestedAt := now;
              att_status := None; revokedAt := None; revokeReason := None |} in
  (a, store ++ [a]).

Definition findById (i : string) (store : list Attestation) : option Attestation :=
  List.find (λ a, String.eqb (att_id a) i) store.

(** The message of the [MerkleTree] constructor's error. *)
Definition tree_message (max_leaves : Z) (count : nat) (e : tree_error) : string :=
  match e with
  | RequiresOneLeaf | TreeDiverged => "MerkleTree requires at least one leaf"
  | LeafCountExceeds =>
      "MerkleTree leaf count " +:+ show_Z (Z.of_nat count) +:+ " exceeds the maximum allowed (" +:+
      show_Z max_leaves +:+ "). Raise MERKLE_MAX_LEAVES env var if intentional."
  | EmptyStringLeaf => "MerkleTree leaf values must be non-empty strings"
  end.

Section Flow.
Context {num : Type} (zero : num) (add : num → num → num) (falsy : num → bool) (toFixed2 : num → string).
Context (sha : list byte → list byte) (max_leaves : Z) (localeCompare : string → string → Z).

(** Steps 1 to 4: the Merkle root of the fetched revenue, or the error
    thrown on the way. *)
Definition revenue_root (per : string) (fetched : result string (list (RevenueEntry num))) : result thrown string :=
  match fetched with
  | Err m => Err (Plain ("Failed to fetch revenue: " +:+ m))
  | Ok [] => Err (Plain ("No revenue found for the period " +:+ per))
  | Ok raw =>
      let normalized := normalizeRevenue raw in
      let aggregated := aggregateByMonth zero add falsy normalized in
      let leaves := leaves_of toFixed2 localeCompare aggregated in
      match MerkleTree_new sha max_leaves leaves with
      | Err e => Err (Plain (tree_message max_leaves (length leaves) e))
      | Ok levels =>
          let root := MerkleTree_getRoot levels in
          if String.eqb root EmptyString then Err (Plain "Failed to generate Merkle root from aggregated data.")
          else Ok root
      end
  end.

(** The outer [catch]: an [AppError] goes through, anything else is wrapped;
    reading [message] of [undefined] throws a [TypeError] in turn. *)
Definition wrap (e : thrown) : thrown :=
  match e with
  | App _ _ _ => e
  | Plain m => App ("Attestation submission failed: " +:+ m) 500 "ATTESTATION_SUBMIT_FAILED"
  | Undefined => Plain "Cannot read properties of undefined (reading 'message')"
  end.

(** [fetch]: [fetchRazorpayRevenue] on the range; [call]: the Soroban call on
    the root, per attempt; [fresh], [now]: the id and time of the new record.
    Besides the answer and the records, the calls made are returned. *)
Definition doSubmitAttestation (fetch : period_range → result string (list (RevenueEntry num)))
    (call : string → Z → result soroban_error string) (draw : Z → Z)
    (biz per fresh : string) (now : Z) (store : list Attestation)
  : result thrown (string * string) * list soroban_call * list Attestation :=
  match revenue_root per (fetch (parsePeriod per)) with
  | Err e => (Err (wrap e), [], store)
  | Ok root =>
      let o := submitToSorobanWithRetry root (call root) DEFAULT_RETRY_CONFIG draw in
      match answer o with
      | Err e => (Err (wrap e), calls o, store)
      | Ok tx =>
          let '(attestation, store) := create biz per fresh now store in
          (Ok (att_id attestation, tx), calls o, store)
      end
  end.
End Flow.

(** ** Lemmas *)

Section RevenueLemmas.
Context {num : Type} (zero : num) (add : num → num → num) (falsy : num → bool).
Hypothesis falsy_zero : ∀ x, falsy x = true → x = zero.

Lemma has_month_snoc m (l : list (NormalizedRevenue num)) e :
  has_month m (l ++ [e]) = has_month m l || String.eqb (month e) m.
Proof. unfold has_month. rewrite existsb_app. cbn. by rewrite orb_false_r. Qed.

Lemma month_total_absent m (l : list (NormalizedRevenue num)) :
  has_month m l = false → month_total zero add m l = zero.
Proof.
  unfold month_total. generalize zero as z. induction l as [|e l IH]; intros z H; [done|].
  cbn in *. apply orb_false_iff in H as [He H]. rewrite He. by apply IH.
Qed.
End RevenueLemmas.

Lemma jitter_range r : is_draw r = true → 2 ^ 53 ≤ jitter r ≤ 2 ^ 54.
Proof.
  unfold is_draw, jitter. intros H. assert (0 ≤ r < 2 ^ 53) as Hr by bool_lia.
  assert (Z.log2 (2 ^ 53 + r) = 53) as Hl by (apply Z.log2_unique; lia).
  split.
  - rewrite <- (Z.mul_1_l (2 ^ 53)) at 1. apply fl53_ge_multiple; lia.
  - assert ((2 ^ 53 + r) / 2 < 2 ^ 53) by (apply Z.div_lt_upper_bound; lia).
    unfold fl53. rewrite Hl. change (53 - 52) with 1. unfold rne_shift. change (2 ^ 1) with 2.
    repeat case_if; lia.
Qed.

(** The failures a retry follows. *)
Definition retryable_failure (r : result soroban_error string) : Prop :=
  ∃ e, r = Err e ∧ isRetryableError e = true.

(** What the loop did, seen from its last attempt [k]. *)
Definition ended_at (root : string) (call : Z → result soroban_error string) (config : RetryConfig) (draw : Z → Z)
    (first k : Z) (out : attempts) : Prop :=
  (∀ j, first ≤ j < k → retryable_failure (call j)) ∧
  calls out = map (λ i, (root, i, call i)) (seqZ first (k - first + 1)) ∧
  delays out = map (λ i, calculateDelay i config (draw i)) (seqZ first (k - first)) ∧
  match call k with
  | Ok tx => answer out = Ok tx
  | Err e => (k = maxAttempts config ∨ isRetryableError e = false) ∧ answer out = Err (convert_error e)
  end.

Lemma seqZ_one a : seqZ a (a - a + 1) = [a].
Proof. by rewrite Z.sub_diag. Qed.

Lemma submit_loop_ends root call config draw n attempt :
  (0 < n)%nat → attempt + Z.of_nat n - 1 = maxAttempts config →
  ∃ k, attempt ≤ k ≤ maxAttempts config ∧
       ended_at root call config draw attempt k (submit_loop root call config draw n attempt).
Proof.
  revert attempt. induction n as [|n IH]; intros a Hn Hm; [lia|]. cbn [submit_loop].
  destruct (call a) as [tx|e] eqn:Hc.
  { exists a. split; [lia|]. unfold ended_at. cbn. rewrite Hc, seqZ_one, Z.sub_diag. split_and!; [lia|cbn; by rewrite Hc|done|done]. }
  case_if.
  - exists a. split; [lia|]. unfold ended_at. cbn. rewrite Hc, seqZ_one, Z.sub_diag. split_and!; [lia|cbn; by rewrite Hc|done| |done].
    apply orb_true_iff in Heqb as [?|?%negb_true_iff]; [left; lia|by right].
  - apply orb_false_iff in Heqb as [Ha Hr]. apply negb_false_iff in Hr.
    destruct (IH (a + 1)) as (k & Hk & Hb & Hcs & Hd & Ho); [lia|lia|]. exists k. split; [lia|].
    split_and!; cbn; [| | |exact Ho].
    + intros j Hj. destruct (decide (j = a)) as [->|]; [by exists e|]. apply Hb. lia.
    + rewrite Hcs, (seqZ_cons a (k - a + 1)) by lia. cbn. rewrite Hc. do 3 f_equal; lia.
    + rewrite Hd, (seqZ_cons a (k - a)) by lia. cbn. do 3 f_equal. lia.
Qed.

Lemma default_retries root call draw :
  ∃ k, 1 ≤ k ≤ 3 ∧ ended_at root call DEFAULT_RETRY_CONFIG draw 1 k
                      (submitToSorobanWithRetry root call DEFAULT_RETRY_CONFIG draw).
Proof. exact (submit_loop_ends root call DEFAULT_RETRY_CONFIG draw 3 1 ltac:(lia) eq_refl). Qed.

(** Calls with one [root] of which the last failed and the others met
    retryable failures: none was accepted. *)
Lemma none_accepted root call k e :
  1 ≤ k → (∀ j, 1 ≤ j < k → retryable_failure (call j)) → call k = Err e →
  Forall (λ c : soroban_call, is_ok c.2 = false) (map (λ i, (root, i, call i)) (seqZ 1 (k - 1 + 1))).
Proof.
  intros Hk Hj Hc. apply Forall_fmap, Forall_forall. intros i Hi%elem_of_seqZ. cbn.
  destruct (decide (i = k)) as [->|]; [by rewrite Hc|]. by destruct (Hj i ltac:(lia)) as (e' & -> & _).
Qed.

(** ** Theorems *)

(** The aggregation is exact: a month has an entry exactly when some
    revenue entry falls in it, and its amount is the sum, in order, of the
    amounts of those entries.  (A falsy total restarts at zero, which is the
    same number unless the sum is NaN.) *)
Theorem aggregate_totals {num} (zero : num) (add : num → num → num) (falsy : num → bool)
    (entries : list (RevenueEntry num)) m :
  (∀ x, falsy x = true → x = zero) →
  let normalized := normalizeRevenue entries in
  map_get m (aggregateByMonth zero add falsy normalized) =
  if has_month m normalized then Some (month_total zero add m normalized) else None.
Proof.
  intros Hz normalized. generalize normalized as l. clear normalized. intros l.
  induction l as [|e l IH] using rev_ind; [done|].
  unfold aggregateByMonth, month_total in *. rewrite !fold_left_app, has_month_snoc. cbn [fold_left].
  set (acc := fold_left (add_entry zero add falsy) l []) in *. unfold add_entry. rewrite map_get_set.
  rewrite (String.eqb_sym m). destruct (String.eqb_spec (month e) m) as [<-|]; [|by rewrite orb_false_r].
  rewrite orb_true_r, IH. destruct (has_month (month e) l) eqn:Hm.
  - set (t := fold_left _ l zero). destruct (falsy t) eqn:Ht; [|done]. by rewrite (Hz t Ht).
  - do 2 f_equal. symmetry. by apply month_total_absent.
Qed.

Lemma aggregate_totals_witness :
  let e d a := {| date := d; amount := a; currency := "INR" |} in
  map_get "2025-10" (aggregateByMonth 0 Z.add (Z.eqb 0)
    (normalizeRevenue [e "2025-10-01" 5; e "2025-11-03" 7; e "2025-10-09" (-5); e "2025-10-10" 3])) = Some 3.
Proof.
  intros e. rewrite aggregate_totals; [reflexivity|]. intros x H. apply Z.eqb_eq in H. by symmetry.
Defined.

(** The Soroban call is retried until it first succeeds, fails with a
    non-retryable error, or has been made [maxAttempts] times: every earlier
    attempt failed with a retryable error and was followed by its backoff
    delay, and the answer is that success, or the last error converted by the
    taxonomy. *)
Theorem retry_outcome root call config draw :
  1 ≤ maxAttempts config →
  ∃ k, 1 ≤ k ≤ maxAttempts config ∧
       ended_at root call config draw 1 k (submitToSorobanWithRetry root call config draw).
Proof. intros H. apply submit_loop_ends; lia. Qed.

Lemma retry_outcome_witness :
  let call n := if n <? 3 then Err {| message := "t"; e_code := Some (Known NETWORK_TIMEOUT) |} else Ok "tx" in
  ∃ k, 1 ≤ k ≤ 3 ∧ ended_at "r" call DEFAULT_RETRY_CONFIG (λ _, 0) 1 k
    {| answer := Ok "tx"; delays := [500; 1000]; calls := [("r", 1, call 1); ("r", 2, call 2); ("r", 3, call 3)] |}.
Proof. intros call. exact (retry_outcome "r" call DEFAULT_RETRY_CONFIG (λ _, 0) ltac:(cbn; lia)). Defined.

(** Each backoff delay lies between half and the whole of the capped
    exponential delay, in binary64 arithmetic. *)
Theorem calculateDelay_range attempt config r :
  let capped := Z.min (baseDelayMs config * backoffMultiplier config ^ (attempt - 1)) (maxDelayMs config) in
  is_draw r = true → 0 ≤ capped < 2 ^ 51 →
  capped / 2 ≤ calculateDelay attempt config r ≤ capped.
Proof.
  intros capped Hd Hc. unfold calculateDelay. fold capped. pose proof (jitter_range r Hd) as Hj. clearbody capped.
  set (j := jitter r) in *. destruct (Z.eq_dec capped 0) as [->|Hc0]; [by vm_compute|].
  assert (capped * 2 ^ 53 ≤ capped * j ≤ capped * 2 ^ 54) as Hp
    by (split; apply Z.mul_le_mono_nonneg_l; lia).
  assert (Z.log2 (capped * j) < 105) as Hl by (apply Z.log2_lt_pow2; lia).
  split.
  - apply Z.div_le_lower_bound; [lia|].
    pose proof (fl53_ge_multiple (capped * j) capped 53 ltac:(lia) ltac:(lia) ltac:(lia)).
    pose proof (Z.mul_div_le capped 2). lia.
  - apply Z.lt_succ_r, Z.div_lt_upper_bound; [lia|].
    destruct (fl53_le_err (capped * j)) as [|[_ He]]; [lia|].
    assert (2 ^ (Z.log2 (capped * j) - 53) ≤ 2 ^ 51) by (apply Z.pow_le_mono_r; lia). lia.
Qed.

Lemma calculateDelay_range_witness : 2000 ≤ calculateDelay 3 DEFAULT_RETRY_CONFIG 12345 ≤ 4000.
Proof. exact (calculateDelay_range 3 DEFAULT_RETRY_CONFIG 12345 eq_refl ltac:(cbn; lia)). Defined.

(** C12. A record is stored exactly when one of the calls made was accepted.
    On success the root sent is the root of the Merkle tree over the month
    totals of the fetched revenue, the calls made are the attempts up to the
    [k]-th, at most three, which was accepted after retryable failures, and the
    returned id is that of the one new record.  On failure nothing is stored,
    none of the calls made was accepted, and the error is an [AppError]. *)
Theorem submission_recorded_iff_accepted {num} zero add falsy toFixed2 sha max_leaves localeCompare
    (fetch : period_range → result string (list (RevenueEntry num))) call draw biz per fresh now store :
  let '(r, made, store') := doSubmitAttestation zero add falsy toFixed2 sha max_leaves localeCompare
                        fetch call draw biz per fresh now store in
  match r with
  | Ok (i, tx) =>
      ∃ raw levels k a,
        let root := MerkleTree_getRoot levels in
        fetch (parsePeriod per) = Ok raw ∧ raw ≠ [] ∧
        MerkleTree_new sha max_leaves
          (leaves_of toFixed2 localeCompare (aggregateByMonth zero add falsy (normalizeRevenue raw))) = Ok levels ∧
        1 ≤ k ≤ 3 ∧ made = map (λ j, (root, j, call root j)) (seqZ 1 k) ∧ call root k = Ok tx ∧
        (∀ j, 1 ≤ j < k → retryable_failure (call root j)) ∧
        store' = store ++ [a] ∧ att_id a = i ∧ businessId a = biz ∧ period a = per
  | Err e => store' = store ∧ Forall (λ c : soroban_call, is_ok c.2 = false) made ∧ ∃ m s c, e = App m s c
  end.
Proof.
  unfold doSubmitAttestation. destruct (revenue_root _ _ _ _ _ _ _ _ _) as [root|e] eqn:Hr.
  - destruct (default_retries root (call root) draw) as (k & Hk & Hb & Hcs & _ & Ho).
    unfold revenue_root in Hr. destruct (fetch (parsePeriod per)) as [[|x raw]|] eqn:Hf; [done| |done].
    destruct (MerkleTree_new _ _ _) as [levels|] eqn:Hn; [|done]. case_if_in Hr; [done|]. injection Hr as <-.
    destruct (call _ k) as [tx|e] eqn:Hc.
    + rewrite Ho. cbn. eexists _, levels, k, _. rewrite Hcs. replace (k - 1 + 1) with k by lia. split_and!; try done; lia.
    + destruct Ho as [_ ->]. split_and!; [done| |].
      * rewrite Hcs. apply (none_accepted _ _ _ e); [lia|done..].
      * unfold convert_error. destruct (e_code e) as [[[]|]|]; cbn; eauto.
  - split_and!; [done|done|]. unfold revenue_root in Hr. destruct (fetch (parsePeriod per)) as [[|x raw]|]; simplify_eq; cbn; [eauto| |eauto].
    destruct (MerkleTree_new _ _ _); simplify_eq; cbn; [|eauto]. case_if_in Hr; simplify_eq. cbn. eauto.
Qed.

End Submit.

(** ** Revocation: [src/services/attestation/revoke.ts] *)
Module Revoke.
Import Submit.

Inductive revoke_error := NotFound (i : string) | Unauthorized | AlreadyRevoked (i : string).

(** [update] of the in-memory repository: the fields of [data] that are
    present overwrite those of the first record with the id. *)
Record partial := { p_status : option status; p_revokedAt : option Z; p_reason : option string }.

Definition merge (d : partial) (a : Attestation) : Attestation :=
  {| att_id := att_id a; businessId := businessId a; period := period a; attestedAt := attestedAt a;
     att_status := match p_status d with Some x => Some x | None => att_status a end;
     revokedAt := match p_revokedAt d with Some x => Some x | None => revokedAt a end;
     revokeReason := match p_reason d with Some x => Some x | None => revokeReason a end |}.

Fixpoint update (i : string) (d : partial) (store : list Attestation) : option Attestation * list Attestation :=
  match store with
  | [] => (None, [])
  | a :: rest =>
      if String.eqb (att_id a) i then (Some (merge d a), merge d a :: rest)
      else let '(r, rest') := update i d rest in (r, a :: rest')
  end.

(** What the function leaves behind: the store and the URLs purged, with the
    status recorded for each. *)
Inductive purge_status := PurgeSuccess | PurgeFailed.
Record effects := { store : list Attestation; purges : list (string * purge_status) }.

(** [ownerOf]: the owner of a business, if it exists; [purge]: the CDN
    client's answer; [now], [reason] feed the update that is prepared in
    [updateData] and, as in the source, passed to nothing. *)
Definition revokeAttestation (ownerOf : string → option string) (purge : string → bool) (cdnBase : string)
    (attestationId userId : string) (reason : option string) (now : Z) (e : effects)
  : result revoke_error unit * effects :=
  match findById attestationId (store e) with
  | None => (Err (NotFound attestationId), e)
  | Some attestation =>
      match ownerOf (businessId attestation) with
      | None => (Err Unauthorized, e)
      | Some owner =>
          if negb (String.eqb owner userId) then (Err Unauthorized, e)
          else
            match att_status attestation with
            | Some Revoked => (Err (AlreadyRevoked attestationId), e)
            | _ =>
                let updateData := {| p_status := Some Revoked; p_revokedAt := Some now;
                                    p_reason := match reason with Some EmptyString => None | r => r end |} in
                let purgeUrl := cdnBase +:+ "/attestations/" +:+ attestationId in
                let st := if purge purgeUrl then PurgeSuccess else PurgeFailed in
                (Ok tt, {| store := store e; purges := purges e ++ [(purgeUrl, st)] |})
            end
      end
  end.

(** A revocation that reports success leaves every record as it was: the
    attestation stays unrevoked, so the same user can revoke it again, as
    often as wanted, and is told each time that it worked; all that changes
    is the cached copy purged from the CDN. *)
Theorem revoke_has_no_effect ownerOf purge cdn i user reason now e e' :
  revokeAttestation ownerOf purge cdn i user reason now e = (Ok tt, e') →
  store e' = store e ∧ length (purges e') = S (length (purges e)) ∧
  (∃ a, findById i (store e') = Some a ∧ att_status a ≠ Some Revoked) ∧
  ∀ reason' now', (revokeAttestation ownerOf purge cdn i user reason' now' e').1 = Ok tt.
Proof.
  unfold revokeAttestation. intros H. destruct (findById i (store e)) as [a|] eqn:Hf; [|done].
  destruct (ownerOf (businessId a)) as [owner|] eqn:Ho; [|done]. case_if_in H; [done|].
  destruct (att_status a) as [[]|] eqn:Hs; try done; injection H as <-; cbn.
  all: split_and!; [done|rewrite length_app; cbn; lia|exists a; split; [done|congruence]|].
  all: intros; unfold findById in Hf; rewrite Hf, Ho, Heqb, Hs; done.
Qed.

Definition sample_store : list Attestation :=
  [{| att_id := "att_1"; businessId := "biz_1"; period := "2025-10"; attestedAt := 1762000000000;
      att_status := Some Active; revokedAt := None; revokeReason := None |}].

Lemma revoke_has_no_effect_witness :
  let e := {| store := sample_store; purges := [] |} in
  store (revokeAttestation (λ _, Some "u1") (λ _, true) "https://cdn" "att_1" "u1" None 0 e).2 = sample_store.
Proof.
  intros e. destruct (revokeAttestation _ _ _ _ _ _ _ _) as [r e'] eqn:E.
  refine (proj1 (revoke_has_no_effect (λ _, Some "u1") (λ _, true) "https://cdn" "att_1" "u1" None 0 e e' _)).
  rewrite E. f_equal. vm_compute in E. by injection E as <- _.
Defined.

(** Only the owner of the attestation's business gets that far, and only for
    an existing attestation. *)
Lemma revoke_requires_owner ownerOf purge cdn i user reason now e e' :
  revokeAttestation ownerOf purge cdn i user reason now e = (Ok tt, e') →
  ∃ a, findById i (store e) = Some a ∧ ownerOf (businessId a) = Some user.
Proof.
  unfold revokeAttestation. intros H. destruct (findById i (store e)) as [a|]; [|done].
  destruct (ownerOf (businessId a)) as [owner|] eqn:Ho; [|done]. case_if_in H; [done|].
  apply negb_false_iff, String.eqb_eq in Heqb as ->. by exists a.
Qed.

(** Had the prepared update been written, the record found by the id would be
    revoked. *)
Lemma update_revokes i now reason st a :
  findById i st = Some a →
  ∃ a', findById i (update i {| p_status := Some Revoked; p_revokedAt := Some now; p_reason := reason |} st).2 = Some a' ∧
        att_status a' = Some Revoked.
Proof.
  induction st as [|b st IH]; [done|]. unfold findById. cbn. intros H.
  destruct (String.eqb (att_id b) i) eqn:E; cbn.
  - rewrite E. eexists. by split.
  - destruct (update i _ st) as [r rest]. cbn in *. rewrite E. by apply IH.
Qed.
End Revoke.
