(* ===== verification/AttestationRepository.v ===== *)
(** * Attestation rows: [src/repositories/attestationRepository.ts] and
    [src/services/attestation/revokeBatch.ts].

    The [attestations] table is the list of its rows, with the constraints of
    its migration (primary key [id], unique [(business_id, period)], the
    trigger on [updated_at]); each SQL statement of the repository is a
    definition on it.  Statements succeed or fail by those constraints only;
    [now] is PostgreSQL's [NOW()].  [Batch] is the transactional revocation
    with the audit entries it writes. *)

From S2P Require Import Prelude JsString AuditChain.
#[local] Open Scope Z_scope.

Module Repo.

Inductive AttestationStatus := pending | submitted | confirmed | failed | revoked.

#[export] Instance AttestationStatus_eq_dec : EqDecision AttestationStatus.
Proof. solve_decision. Defined.

(** A row; [mapRowToAttestation] renames its columns one to one. *)
Record Attestation := {
  id : string; businessId : string; period : string; merkleRoot : string; txHash : string;
  status : AttestationStatus; version : Z; createdAt : Z; updatedAt : Z
}.

Abbreviation table := (list Attestation).

Inductive ConflictErrorType := CONFLICT_TYPE_DUPLICATE | CONFLICT_TYPE_VERSION.
Inductive repo_error := Conflict (t : ConflictErrorType) | NoValidFields.

(** ** SQL *)

Definition has_id (i : string) (r : Attestation) : bool := String.eqb (id r) i.
Definition has_key (biz per : string) (r : Attestation) : bool :=
  String.eqb (businessId r) biz && String.eqb (period r) per.

(** [WHERE id = $i] or [WHERE id = $i AND version = $v]. *)
Definition where_id (i : string) (expected : option Z) (r : Attestation) : bool :=
  has_id i r && match expected with Some v => version r =? v | None => true end.

(** [UPDATE ... SET version = version + 1, ... WHERE ... RETURNING *]: the
    first returned row and the new table. *)
Definition sql_update (set : Attestation → Attestation) (wh : Attestation → bool) (t : table)
  : option Attestation * table :=
  (head (map set (List.filter wh t)), map (λ r, if wh r then set r else r) t).

(** ** Operations *)

Record CreateAttestationInput := {
  c_businessId : string; c_period : string; c_merkleRoot : string; c_txHash : string; c_status : AttestationStatus
}.

(** [fresh] is [gen_random_uuid()]; both unique constraints report 23505. *)
Definition create (fresh : string) (now : Z) (d : CreateAttestationInput) (t : table)
  : result repo_error Attestation * table :=
  if existsb (has_key (c_businessId d) (c_period d)) t || existsb (has_id fresh) t
  then (Err (Conflict CONFLICT_TYPE_DUPLICATE), t)
  else
    let r := {| id := fresh; businessId := c_businessId d; period := c_period d; merkleRoot := c_merkleRoot d;
                txHash := c_txHash d; status := c_status d; version := 1; createdAt := now; updatedAt := now |} in
    (Ok r, t ++ [r]).

(** [getById] and [getByBusinessAndPeriod] at the default consistency. *)
Definition getById (i : string) (t : table) : option Attestation := List.find (has_id i) t.
Definition getByBusinessAndPeriod (biz per : string) (t : table) : option Attestation :=
  List.find (has_key biz per) t.

(** The end of [updateStatus] and [update]: no row updated is a version
    conflict when the row exists under another version. *)
Definition updated_or_conflict (i : string) (expected : option Z) (out : option Attestation * table)
  : result repo_error (option Attestation) * table :=
  match out with
  | (Some r, t) => (Ok (Some r), t)
  | (None, t) =>
      match expected, getById i t with
      | Some _, Some _ => (Err (Conflict CONFLICT_TYPE_VERSION), t)
      | _, _ => (Ok None, t)
      end
  end.

Definition set_status (now : Z) (s : AttestationStatus) (r : Attestation) : Attestation :=
  {| id := id r; businessId := businessId r; period := period r; merkleRoot := merkleRoot r; txHash := txHash r;
     status := s; version := version r + 1; createdAt := createdAt r; updatedAt := now |}.

(** The status argument is of the enumeration type, so its runtime check
    always passes. *)
Definition updateStatus (now : Z) (i : string) (s : AttestationStatus) (expected : option Z) (t : table)
  : result repo_error (option Attestation) * table :=
  updated_or_conflict i expected (sql_update (set_status now s) (where_id i expected) t).

(** The fields of [Partial<Attestation>] that [update] may write; the others
    are skipped by it. *)
Record updates := { u_merkleRoot : option string; u_txHash : option string; u_status : option AttestationStatus }.

Definition set_fields (now : Z) (u : updates) (r : Attestation) : Attestation :=
  {| id := id r; businessId := businessId r; period := period r;
     merkleRoot := default (merkleRoot r) (u_merkleRoot u); txHash := default (txHash r) (u_txHash u);
     status := default (status r) (u_status u); version := version r + 1;
     createdAt := createdAt r; updatedAt := now |}.

Definition no_fields (u : updates) : bool :=
  match u_merkleRoot u, u_txHash u, u_status u with None, None, None => true | _, _, _ => false end.

Definition update (now : Z) (i : string) (u : updates) (expected : option Z) (t : table)
  : result repo_error (option Attestation) * table :=
  if no_fields u then (Err NoValidFields, t)
  else updated_or_conflict i expected (sql_update (set_fields now u) (where_id i expected) t).

Definition remove (i : string) (t : table) : bool * table :=
  (existsb (has_id i) t, List.filter (λ r, negb (has_id i r)) t).

(** [verifyConsistency]: [chain] is what [getAttestation] answers, [None] for
    an error, [Some None] for no record, [Some (Some root)] for a record with
    that Merkle root. *)
Definition verifyConsistency (now : Z) (chain : option (option string)) (local : Attestation) (t : table)
  : Attestation * table :=
  match chain with
  | None | Some None => (local, t)
  | Some (Some chainRoot) =>
      match status local with
      | pending | submitted =>
          match updateStatus now (id local) confirmed None t with
          | (Ok (Some updated), t') => (updated, t')
          | (_, t') => (local, t')
          end
      | _ => (local, t)
      end
  end.

(** [createWithConflictCheck]: [others n] is what other sessions do to the
    table before the [n]-th query of this call, [fresh] the ids its inserts
    generate; [n] counts the queries made, [rem] the attempts left. *)
Record conflict_options := { returnExistingOnConflict : bool; retryOnConflict : bool; maxRetries : Z }.

Fixpoint create_loop (others : nat → table → table) (fresh : nat → string) (now : Z)
    (d : CreateAttestationInput) (o : conflict_options) (rem n : nat) (t : table)
  : option (result repo_error Attestation) * table :=
  match rem with
  | O => (None, t)
  | S rem =>
      match create (fresh n) now d (others n t) with
      | (Ok r, t) => (Some (Ok r), t)
      | (Err e, t) =>
          match e with
          | Conflict CONFLICT_TYPE_DUPLICATE =>
              if retryOnConflict o && (0 <? rem)%nat then
                let t := others (S n) t in
                match getByBusinessAndPeriod (c_businessId d) (c_period d) t with
                | Some recheck =>
                    if returnExistingOnConflict o then (Some (Ok recheck), t) else (Some (Err e), t)
                | None => create_loop others fresh now d o rem (S (S n)) t
                end
              else (Some (Err e), t)
          | _ => (Some (Err e), t)
          end
      end
  end.

(** [None]: no attempt was allowed ([maxRetries] not positive) and [null] is thrown. *)
Definition createWithConflictCheck (others : nat → table → table) (fresh : nat → string) (now : Z)
    (d : CreateAttestationInput) (o : conflict_options) (t : table)
  : option (result repo_error Attestation) * table :=
  let t := others O t in
  match getByBusinessAndPeriod (c_businessId d) (c_period d) t with
  | Some existing =>
      if returnExistingOnConflict o then (Some (Ok existing), t)
      else (Some (Err (Conflict CONFLICT_TYPE_DUPLICATE)), t)
  | None =>
      let maxAttempts := if retryOnConflict o then Z.to_nat (maxRetries o) else 1%nat in
      create_loop others fresh now d o maxAttempts 1 t
  end.

(** ** The table's constraints *)

Definition key (r : Attestation) : string * string := (businessId r, period r).

Record wf (t : table) : Prop := { wf_ids : NoDup (map id t); wf_keys : NoDup (map key t) }.

(** One statement that changes the table. *)
Inductive op :=
| Create (fresh : string) (now : Z) (d : CreateAttestationInput)
| UpdateStatus (now : Z) (i : string) (s : AttestationStatus) (expected : option Z)
| Update (now : Z) (i : string) (u : updates) (expected : option Z)
| Remove (i : string).

Definition step (o : op) (t : table) : table :=
  match o with
  | Create fresh now d => (create fresh now d t).2
  | UpdateStatus now i s expected => (updateStatus now i s expected t).2
  | Update now i u expected => (update now i u expected t).2
  | Remove i => (remove i t).2
  end.

Definition run (ops : list op) (t : table) : table := fold_left (λ t o, step o t) ops t.

Definition creates (i : string) (o : op) : bool :=
  match o with Create fresh _ _ => String.eqb fresh i | _ => false end.

(** ** Lemmas *)

(** An [UPDATE] of this repository keeps ids and keys and never lowers a version. *)
Record bumps (f : Attestation → Attestation) : Prop := {
  bumps_id : ∀ r, id (f r) = id r;
  bumps_key : ∀ r, key (f r) = key r;
  bumps_version : ∀ r, version (f r) = version r + 1
}.

Lemma set_status_bumps now s : bumps (set_status now s).
Proof. by split. Qed.
Lemma set_fields_bumps now u : bumps (set_fields now u).
Proof. by split. Qed.

Lemma updated_table i expected out : (updated_or_conflict i expected out).2 = out.2.
Proof. destruct out as [[r|] t]; [done|]. cbn. by destruct expected, (getById i t). Qed.

Lemma sql_update_ids f wh t : bumps f → map id (sql_update f wh t).2 = map id t.
Proof. intros Hf. cbn. rewrite map_map. apply map_ext. intros r. case_if; [apply Hf|done]. Qed.

Lemma sql_update_keys f wh t : bumps f → map key (sql_update f wh t).2 = map key t.
Proof. intros Hf. cbn. rewrite map_map. apply map_ext. intros r. case_if; [apply Hf|done]. Qed.

Lemma existsb_id i t : existsb (has_id i) t = false → i ∉ map id t.
Proof.
  intros H Hin. apply list_elem_of_In, in_map_iff in Hin as (r & Hr & Hin).
  enough (existsb (has_id i) t = true) by congruence. apply existsb_exists. exists r.
  split; [done|]. by apply String.eqb_eq.
Qed.

Lemma existsb_key biz per t : existsb (has_key biz per) t = false → (biz, per) ∉ map key t.
Proof.
  intros H Hin. apply list_elem_of_In, in_map_iff in Hin as (r & [= Hb Hp] & Hin).
  enough (existsb (has_key biz per) t = true) by congruence. apply existsb_exists. exists r.
  split; [done|]. unfold has_key. by rewrite Hb, Hp, !String.eqb_refl.
Qed.

Lemma NoDup_snoc {A} (l : list A) x : NoDup l → x ∉ l → NoDup (l ++ [x]).
Proof.
  intros Hl Hx. apply NoDup_app. split_and!; [done| |apply NoDup_singleton].
  intros y Hy Hy'. apply list_elem_of_singleton in Hy' as ->. done.
Qed.

Lemma filter_map_NoDup {A B} (f : A → B) p l : NoDup (map f l) → NoDup (map f (List.filter p l)).
Proof.
  induction l as [|x l IH]; [done|]. cbn. intros [Hx Hl]%NoDup_cons. case_if; [|by apply IH].
  cbn. apply NoDup_cons. split; [|by apply IH]. intros Hin. apply Hx.
  apply list_elem_of_In, in_map_iff in Hin as (y & <- & Hy%filter_In).
  apply list_elem_of_In, in_map. apply Hy.
Qed.

Lemma step_wf o t : wf t → wf (step o t).
Proof.
  intros [Hi Hk]. destruct o as [fresh now d|now i s e|now i u e|i]; cbn [step].
  - unfold create. destruct (_ || _) eqn:E; [by split|]. apply orb_false_iff in E as [Ek Ei].
    cbn. split; rewrite map_app; apply NoDup_snoc; try done; [by apply existsb_id|by apply existsb_key].
  - unfold updateStatus. rewrite updated_table. pose proof (set_status_bumps now s).
    split; [by rewrite sql_update_ids|by rewrite sql_update_keys].
  - unfold update. case_if; [by split|]. rewrite updated_table. pose proof (set_fields_bumps now u).
    split; [by rewrite sql_update_ids|by rewrite sql_update_keys].
  - split; by apply filter_map_NoDup.
Qed.

(** The versions of the rows with id [i] are all above [v]. *)
Definition newer_than (i : string) (v : Z) (t : table) : Prop :=
  Forall (λ r, id r = i → v < version r) t.

Lemma sql_update_newer f wh i v t : bumps f → newer_than i v t → newer_than i v (sql_update f wh t).2.
Proof.
  intros Hf. unfold newer_than. cbn. rewrite Forall_map. intros H. eapply Forall_impl; [exact H|]. intros r Hr. cbn.
  case_if; [|done]. rewrite (bumps_id f Hf), (bumps_version f Hf). intros Hi. specialize (Hr Hi). lia.
Qed.

Lemma step_newer o i v t : creates i o = false → newer_than i v t → newer_than i v (step o t).
Proof.
  intros Hc Hn. destruct o as [fresh now d|now j s e|now j u e|j]; cbn [step].
  - unfold create. case_if; [done|]. cbn. apply Forall_app. split; [done|].
    apply Forall_singleton. cbn in *. intros <-. by rewrite String.eqb_refl in Hc.
  - unfold updateStatus. rewrite updated_table. apply sql_update_newer; [apply set_status_bumps|done].
  - unfold update. case_if; [done|]. rewrite updated_table. apply sql_update_newer; [apply set_fields_bumps|done].
  - cbn. unfold newer_than in *. rewrite List.Forall_forall in *. intros r [Hr _]%filter_In. by apply Hn.
Qed.

Lemma run_newer ops i v t :
  forallb (λ o, negb (creates i o)) ops = true → newer_than i v t → newer_than i v (run ops t).
Proof.
  revert t. induction ops as [|o ops IH]; intros t; [done|]. cbn. intros [Ho Hops]%andb_true_iff Hn.
  apply IH; [done|]. apply step_newer; [by apply negb_true_iff|done].
Qed.

(** A conditional update that matches nothing leaves the table alone. *)
Lemma sql_update_newer_none f i v t :
  newer_than i v t → sql_update f (where_id i (Some v)) t = (None, t).
Proof.
  unfold newer_than, sql_update. intros H.
  assert (∀ r, In r t → where_id i (Some v) r = false) as Hw.
  { intros r Hr. rewrite List.Forall_forall in H. specialize (H r Hr). unfold where_id, has_id.
    destruct (String.eqb_spec (id r) i) as [Hi|]; [|done]. cbn. specialize (H Hi). lia. }
  f_equal.
  - replace (List.filter _ t) with (@nil Attestation); [done|]. clear H. induction t as [|r t IH]; [done|].
    cbn. rewrite Hw by by left. apply IH. intros r' Hr'. apply Hw. by right.
  - rewrite <- map_id. apply map_ext_in. intros r Hr. by rewrite Hw.
Qed.

Lemma updated_newer f i v t r :
  bumps f → NoDup (map id t) → (sql_update f (where_id i (Some v)) t).1 = Some r →
  newer_than i v (sql_update f (where_id i (Some v)) t).2.
Proof.
  intros Hf Hnd. unfold newer_than. cbn. rewrite Forall_map. intros Hr.
  assert (∃ x, In x t ∧ where_id i (Some v) x = true) as (x & Hx & Hwx).
  { destruct (List.filter _ t) as [|x l] eqn:E; [done|]. exists x. apply filter_In. rewrite E. by left. }
  rewrite List.Forall_forall. intros y Hy. destruct (where_id i (Some v) y) eqn:Hwy.
  - rewrite (bumps_version f Hf). unfold where_id in Hwy. cbn in Hwy. bool_lia.
  - intros Hi. exfalso. apply andb_true_iff in Hwx as [Hix Hvx]. apply String.eqb_eq in Hix.
    assert (x = y) as ->; [|unfold where_id, has_id in Hwy; by rewrite Hi, String.eqb_refl, Hvx in Hwy].
    clear -Hnd Hx Hy Hi Hix. induction t as [|z t IH]; [done|]. cbn in Hnd.
    apply NoDup_cons in Hnd as [Hz Hnd]. rewrite list_elem_of_In in Hz.
    destruct Hx as [->|Hx], Hy as [->|Hy]; [done| | |by apply IH]; exfalso; apply Hz.
    + rewrite Hix, <- Hi. by apply in_map.
    + rewrite Hi, <- Hix. by apply in_map.
Qed.

(** ** Theorems *)

(** Ids and (business, period) pairs stay unique under every sequence of
    [create], [updateStatus], [update] and [remove] calls. *)
Theorem table_stays_unique ops t : wf t → wf (run ops t).
Proof. revert t. induction ops as [|o ops IH]; intros t H; [done|]. by apply IH, step_wf. Qed.

Definition sample_row (i per : string) (s : AttestationStatus) : Attestation :=
  {| id := i; businessId := "b1"; period := per; merkleRoot := "r"; txHash := "tx"; status := s; version := 1;
     createdAt := 0; updatedAt := 0 |}.
Definition sample_table : table := [sample_row "a" "2025-10" submitted; sample_row "b" "2025-11" confirmed].

Lemma sample_table_wf : wf sample_table.
Proof. by split; apply (bool_decide_unpack _); vm_compute. Qed.

Lemma table_stays_unique_witness :
  wf (run [Remove "a"; Create "c" 5 {| c_businessId := "b1"; c_period := "2025-10"; c_merkleRoot := "r2";
                                        c_txHash := "t2"; c_status := pending |}] sample_table).
Proof. apply table_stays_unique, sample_table_wf. Defined.

(** C24. No lost update: once a status update that expected version [v] of a
    row has succeeded, whatever statements follow, another update of that row
    that still expects [v] changes nothing and does not report a row; it
    reports a version conflict if the row still exists. *)
Theorem stale_version_never_applied now i s v r t t1 ops now' s' :
  wf t → updateStatus now i s (Some v) t = (Ok (Some r), t1) →
  forallb (λ o, negb (creates i o)) ops = true →
  let t2 := run ops t1 in
  updateStatus now' i s' (Some v) t2 =
  (match getById i t2 with Some _ => Err (Conflict CONFLICT_TYPE_VERSION) | None => Ok None end, t2).
Proof.
  intros [Hnd _] Hu Hops t2. unfold updateStatus in *.
  assert (newer_than i v t1) as Hn.
  { destruct (sql_update _ _ t) as [o t'] eqn:E. destruct o as [x|].
    - cbn in Hu. injection Hu as -> <-.
      pose proof (updated_newer (set_status now s) i v t r (set_status_bumps now s) Hnd) as H. rewrite E in H. by apply H.
    - cbn in Hu. by destruct (getById i t'). }
  rewrite sql_update_newer_none by by apply run_newer. cbn. by destruct (getById i t2).
Qed.

Lemma stale_version_never_applied_witness :
  let t1 := (updateStatus 5 "a" confirmed (Some 1) sample_table).2 in
  (updateStatus 9 "a" failed (Some 1) (run [UpdateStatus 7 "b" revoked None] t1)).1 =
  Err (Conflict CONFLICT_TYPE_VERSION).
Proof.
  intros t1.
  rewrite (stale_version_never_applied 5 "a" confirmed 1
             (set_status 5 confirmed (sample_row "a" "2025-10" submitted)) sample_table t1
             [UpdateStatus 7 "b" revoked None] 9 failed sample_table_wf eq_refl eq_refl).
  reflexivity.
Defined.

(** The [others] of [createWithConflictCheck] are runs of other sessions. *)
Lemma getByKey_snoc biz per t r :
  existsb (has_key biz per) t = false → has_key biz per r = true →
  getByBusinessAndPeriod biz per (t ++ [r]) = Some r.
Proof.
  unfold getByBusinessAndPeriod. induction t as [|x t IH]; cbn; [by intros _ ->|].
  intros [-> H]%orb_false_iff Hr. by apply IH.
Qed.

Lemma create_found fresh now d t r t' :
  create fresh now d t = (Ok r, t') → getByBusinessAndPeriod (c_businessId d) (c_period d) t' = Some r.
Proof.
  unfold create. destruct (_ || _) eqn:E; [done|]. intros [= <- <-]. apply orb_false_iff in E as [E _].
  apply getByKey_snoc; [done|]. unfold has_key. cbn. by rewrite !String.eqb_refl.
Qed.

Lemma create_loop_found others fresh now d o rem n t r t' :
  create_loop others fresh now d o rem n t = (Some (Ok r), t') →
  getByBusinessAndPeriod (c_businessId d) (c_period d) t' = Some r.
Proof.
  revert n t. induction rem as [|rem IH]; intros n t; [done|]. cbn.
  destruct (create _ _ _ _) as [[x|e] t1] eqn:Hc.
  - intros [= -> ->]. by eapply create_found.
  - destruct e as [[]|]; [|done|done]. case_if; [|done].
    destruct (getByBusinessAndPeriod _ _ (others _ _)) as [x|] eqn:Hg; [|apply IH].
    case_if; [|done]. by intros [= -> <-].
Qed.

Lemma create_loop_some others fresh now d o rem n t :
  (0 < rem)%nat → is_Some (create_loop others fresh now d o rem n t).1.
Proof.
  revert n t. induction rem as [|rem IH]; intros n t H; [lia|]. cbn [create_loop].
  destruct (create _ _ _ _) as [[x|e] t1]; [done|]. destruct e as [[]|]; [|done|done]. case_if; [|done].
  destruct (getByBusinessAndPeriod _ _ _); [by case_if|]. apply IH.
  apply andb_true_iff in Heqb as [_ Hr]. by apply Nat.ltb_lt.
Qed.

(** However other sessions interleave, [createWithConflictCheck] answers
    (when at least one attempt is allowed), and a record it returns is the
    row stored for that business and period when it returns, whether this
    call inserted it or found it. *)
Theorem createWithConflictCheck_returns_stored others fresh now d o t :
  1 ≤ maxRetries o →
  let '(out, t') := createWithConflictCheck others fresh now d o t in
  match out with
  | Some (Ok r) => getByBusinessAndPeriod (c_businessId d) (c_period d) t' = Some r
  | Some (Err e) => True
  | None => False
  end.
Proof.
  intros Hm. unfold createWithConflictCheck.
  destruct (getByBusinessAndPeriod _ _ (others 0%nat t)) as [x|] eqn:Hg; [by case_if|].
  set (n := if retryOnConflict o then _ else _).
  assert (0 < n)%nat as Hn by (unfold n; case_if; lia).
  destruct (create_loop_some others fresh now d o n 1 (others 0%nat t) Hn) as [r Hr].
  destruct (create_loop _ _ _ _ _ n 1 _) as [out t'] eqn:E. cbn in Hr. subst out.
  destruct r as [r|]; [|done]. by eapply create_loop_found.
Qed.

Lemma createWithConflictCheck_returns_stored_witness :
  let d := {| c_businessId := "b1"; c_period := "2025-12"; c_merkleRoot := "r2"; c_txHash := "t2"; c_status := pending |} in
  let o := {| returnExistingOnConflict := true; retryOnConflict := true; maxRetries := 2 |} in
  let others n t := if (n =? 1)%nat then (create "z" 3 d t).2 else t in
  let t' := (createWithConflictCheck others (λ _, "c") 4 d o sample_table).2 in
  id <$> getByBusinessAndPeriod "b1" "2025-12" t' = Some "z".
Proof.
  intros d o others t'.
  pose proof (createWithConflictCheck_returns_stored others (λ _, "c") 4 d o sample_table ltac:(cbn; lia)) as H.
  unfold t'. destruct (createWithConflictCheck _ _ _ _ _ _) as [out t1] eqn:E. vm_compute in E. injection E as <- <-.
  cbn [c_businessId c_period d snd] in H |- *. by rewrite H.
Defined.

(** A strongly consistent read of a submitted attestation marks it confirmed
    even when the chain holds another Merkle root. *)
Theorem mismatched_root_confirmed now chainRoot local t :
  wf t → local ∈ t → status local = submitted → chainRoot ≠ merkleRoot local →
  (verifyConsistency now (Some (Some chainRoot)) local t).1 = set_status now confirmed local.
Proof.
  intros [Hnd _] Hin Hs _. unfold verifyConsistency. rewrite Hs. unfold updateStatus, sql_update.
  enough (List.filter (where_id (id local) None) t = [local]) as -> by done.
  apply list_elem_of_In in Hin. induction t as [|x t IH]; [done|]. cbn in Hnd |- *.
  apply NoDup_cons in Hnd as [Hx Hnd]. unfold where_id at 1, has_id. rewrite andb_true_r.
  destruct Hin as [->|Hin].
  - rewrite String.eqb_refl. f_equal. clear IH. rewrite list_elem_of_In in Hx.
    assert (∀ y, In y t → where_id (id local) None y = false) as Hw.
    { intros y Hy. unfold where_id, has_id. rewrite andb_true_r. apply String.eqb_neq. intros He.
      apply Hx. rewrite <- He. by apply in_map. }
    clear Hx Hnd. induction t as [|y t IH]; [done|]. cbn. rewrite Hw by by left.
    apply IH. intros z Hz. apply Hw. by right.
  - rewrite list_elem_of_In in Hx. destruct (String.eqb_spec (id x) (id local)) as [He|]; [|by apply IH].
    destruct Hx. rewrite He. by apply in_map.
Qed.
End Repo.

(** ** [revokeBatchAttestations] *)
Module Batch.
Import Repo.

Section Batch.
Context (hmac sha256 : string → string) (toISOString : Z → string).

Inductive batch_error :=
| NoAttestations | BatchTooLarge | NotFound (i : string) | AlreadyRevoked (i : string) | SorobanFailure (m : string).

Definition quoted (s : string) : string :=
  let q := String (Ascii.ascii_of_nat 34) EmptyString in q +:+ s +:+ q.

(** [JSON.stringify({ outcome: "success", batch: true })] *)
Definition success_metadata : string :=
  "{" +:+ quoted "outcome" +:+ ":" +:+ quoted "success" +:+ "," +:+ quoted "batch" +:+ ":true}".

Definition audit_input (adminId i : string) : AuditLogInput :=
  {| in_userId := adminId; in_action := "REVOKE_ATTESTATION"; in_resource := "attestation";
     in_resourceId := Some i; in_metadata := Some success_metadata; in_contentHash := None |}.

(** The loop inside the transaction.  [fresh] and [clock] give the id and time
    of the [n]-th audit entry, [now] the transaction's [NOW()]; the rows read
    are collected in [atts]. *)
Fixpoint revoke_loop (now : Z) (fresh : nat → string) (clock : nat → Z) (adminId : string)
    (ids : list string) (n : nat) (t : table) (logs : list AuditLog) (atts : list Attestation)
  : result batch_error (list Attestation) * table * list AuditLog :=
  match ids with
  | [] => (Ok atts, t, logs)
  | i :: rest =>
      match getById i t with
      | None => (Err (NotFound i), t, logs)
      | Some att =>
          if decide (status att = revoked) then (Err (AlreadyRevoked i), t, logs)
          else
            let t := (updateStatus now i revoked None t).2 in
            let logs := (createAuditLog hmac sha256 toISOString (fresh n) (clock n) (audit_input adminId i) None logs).2 in
            revoke_loop now fresh clock adminId rest (S n) t logs (atts ++ [att])
      end
  end.

(** [soroban]: the outcome of the chain transaction on the rows read, also
    when no source secret is configured and nothing is sent.  [COMMIT] keeps
    the transaction's table and [ROLLBACK] the one it began with; the audit
    log is in memory, outside the transaction. *)
Definition revokeBatchAttestations (soroban : list Attestation → result string unit)
    (now : Z) (fresh : nat → string) (clock : nat → Z)
    (attestationIds : list string) (adminId : string) (t : table) (logs : list AuditLog)
  : result batch_error (list Attestation) * table * list AuditLog :=
  if (length attestationIds =? 0)%nat then (Err NoAttestations, t, logs)
  else if (500 <? length attestationIds)%nat then (Err BatchTooLarge, t, logs)
  else
    match revoke_loop now fresh clock adminId attestationIds 0 t logs [] with
    | (Err e, _, logs) => (Err e, t, logs)
    | (Ok atts, t', logs) =>
        match soroban atts with
        | Err m => (Err (SorobanFailure m), t, logs)
        | Ok _ => (Ok atts, t', logs)
        end
    end.

(** ** Lemmas *)

(** The rows of [ids] revoked, the others untouched. *)
Definition mark (now : Z) (ids : list string) (t : table) : table :=
  map (λ r, if includes (id r) ids then set_status now revoked r else r) t.

Lemma updateStatus_mark now i t : (updateStatus now i revoked None t).2 = mark now [i] t.
Proof.
  unfold updateStatus. rewrite updated_table. cbn. apply map_ext. intros r.
  unfold where_id, has_id, includes. cbn. by rewrite orb_false_r, andb_true_r.
Qed.

Lemma mark_cons now i ids t : i ∉ ids → mark now ids (mark now [i] t) = mark now (i :: ids) t.
Proof.
  intros Hi. unfold mark. rewrite map_map. apply map_ext. intros r. unfold includes at 2 4. cbn.
  rewrite orb_false_r. destruct (String.eqb_spec (id r) i) as [He|]; cbn; [|done].
  rewrite He. by apply includes_false in Hi as ->.
Qed.

Lemma getById_mark now ids i t :
  getById i (mark now ids t) =
  (λ r, if includes i ids then set_status now revoked r else r) <$> getById i t.
Proof.
  unfold getById, mark. induction t as [|r t IH]; [done|]. cbn.
  replace (has_id i (if includes (id r) ids then set_status now revoked r else r)) with (has_id i r)
    by by case_if.
  unfold has_id. destruct (String.eqb_spec (id r) i) as [->|]; [done|]. apply IH.
Qed.

(** What a successful loop has found. *)
Definition revocable (t : table) (i : string) : Prop :=
  ∃ r, getById i t = Some r ∧ status r ≠ revoked.

Lemma getById_other now i t j : j ≠ i → getById j (mark now [i] t) = getById j t.
Proof.
  intros Hn. rewrite getById_mark. assert (includes j [i] = false) as ->.
  { apply includes_false. by intros ?%list_elem_of_singleton. }
  by destruct (getById j t).
Qed.

Lemma revocable_other now i r t j :
  getById i t = Some r → revocable (mark now [i] t) j → j ≠ i ∧ getById j (mark now [i] t) = getById j t.
Proof.
  intros Hg (r' & Hr' & Hs'). assert (j ≠ i) as Hn; [|by split; [|apply getById_other]].
  intros ->. rewrite getById_mark, Hg in Hr'. cbn in Hr'. rewrite String.eqb_refl in Hr'. by injection Hr' as <-.
Qed.

Lemma revoke_loop_Ok now fresh clock admin ids n t logs atts atts' t' logs' :
  revoke_loop now fresh clock admin ids n t logs atts = (Ok atts', t', logs') →
  NoDup ids ∧ Forall (revocable t) ids ∧ t' = mark now ids t ∧
  map Some atts' = map Some atts ++ map (λ i, getById i t) ids.
Proof.
  revert n t logs atts. induction ids as [|i ids IH]; intros n t logs atts H.
  { cbn in H. injection H as <- <- _. split_and!; [constructor|done| |by rewrite app_nil_r].
    symmetry. apply map_id. }
  cbn [revoke_loop] in H. destruct (getById i t) as [r|] eqn:Hg; [|done].
  rewrite updateStatus_mark in H.
  destruct (decide (status r = revoked)) as [|Hs]; [done|]. apply IH in H as (Hnd & Hall & -> & Hatts).
  rewrite Forall_forall in Hall.
  assert (∀ j, j ∈ ids → j ≠ i ∧ getById j (mark now [i] t) = getById j t) as Hother.
  { intros j Hj. apply (revocable_other now i r t j Hg). by apply Hall. }
  assert (i ∉ ids) as Hi by (intros Hi; by destruct (Hother i Hi)).
  split_and!; [by constructor| |by apply mark_cons|].
  - constructor; [by exists r|]. rewrite Forall_forall. intros j Hj.
    destruct (Hother j Hj) as [_ He]. unfold revocable. rewrite <- He. by apply Hall.
  - rewrite Hatts, map_app, <- app_assoc. cbn [map app]. rewrite Hg. do 2 f_equal. apply map_ext_in.
    intros j Hj. by apply Hother, list_elem_of_In.
Qed.

Lemma revoke_loop_runs now fresh clock admin ids n t logs atts :
  NoDup ids → Forall (revocable t) ids →
  (revoke_loop now fresh clock admin ids n t logs atts).1.1 = Ok (atts ++ omap (λ i, getById i t) ids).
Proof.
  revert n t logs atts. induction ids as [|i ids IH]; intros n t logs atts Hnd Hall; [by rewrite app_nil_r|].
  apply NoDup_cons in Hnd as [Hi Hnd]. apply Forall_cons in Hall as [(r & Hr & Hs) Hall].
  cbn [revoke_loop omap list_omap]. rewrite Hr. destruct (decide _) as [|_]; [done|]. rewrite updateStatus_mark.
  assert (∀ j, j ∈ ids → getById j (mark now [i] t) = getById j t) as Hsame.
  { intros j Hj. apply getById_other. by intros ->. }
  rewrite IH; [|done|].
  - rewrite <- app_assoc. cbn. do 3 f_equal. clear IH Hnd Hi Hall. induction ids as [|j ids IH]; [done|].
    cbn. rewrite (Hsame j) by (by left). rewrite IH; [done|]. intros k Hk. apply Hsame. by right.
  - rewrite Forall_forall in *. intros j Hj. unfold revocable. rewrite Hsame by done. by apply Hall.
Qed.

(** An audit entry that says the admin revoked attestation [i]. *)
Definition claims_success (admin i : string) (e : AuditLog) : Prop :=
  AuditChain.userId e = admin ∧ action e = "REVOKE_ATTESTATION" ∧ resourceId e = Some i ∧
  metadata e = Some success_metadata.

Lemma revoke_loop_logs now fresh clock admin ids n t logs atts r t' logs' :
  revoke_loop now fresh clock admin ids n t logs atts = (r, t', logs') →
  ∃ new done_ids, logs' = logs ++ new ∧ Forall2 (claims_success admin) done_ids new ∧ done_ids `prefix_of` ids ∧
    (is_ok r = true → done_ids = ids).
Proof.
  revert n t logs atts. induction ids as [|i ids IH]; intros n t logs atts H.
  { injection H as <- _ <-. exists [], []. split_and!; [by rewrite app_nil_r|constructor|done|done]. }
  cbn [revoke_loop] in H. destruct (getById i t) as [x|].
  2: { injection H as <- _ <-. exists [], []. split_and!; [by rewrite app_nil_r|constructor|apply prefix_nil|done]. }
  destruct (decide _).
  { injection H as <- _ <-. exists [], []. split_and!; [by rewrite app_nil_r|constructor|apply prefix_nil|done]. }
  apply IH in H as (new & dn & -> & Hf & Hp & Ho). cbn [createAuditLog snd].
  eexists (_ :: new), (i :: dn). split_and!.
  - by rewrite <- app_assoc.
  - constructor; [by split_and!|done].
  - by apply prefix_cons.
  - intros Hr. by rewrite (Ho Hr).
Qed.

(** ** Theorems *)

(** C9. A batch is revoked entirely or not at all.  It succeeds exactly when
    it names between 1 and 500 distinct, existing attestations, none of them
    revoked, and the chain transaction on those rows succeeds; then exactly
    those rows are revoked and one audit entry is written for each, in order.
    Otherwise no row changes. *)
Theorem batch_all_or_nothing soroban now fresh clock ids admin t logs :
  let '(r, t', logs') := revokeBatchAttestations soroban now fresh clock ids admin t logs in
  let acceptable := (1 ≤ length ids ≤ 500)%nat ∧ NoDup ids ∧ Forall (revocable t) ids ∧
                    soroban (omap (λ i, getById i t) ids) = Ok tt in
  match r with
  | Ok atts => acceptable ∧ atts = omap (λ i, getById i t) ids ∧ t' = mark now ids t ∧
               ∃ new, logs' = logs ++ new ∧ Forall2 (claims_success admin) ids new
  | Err _ => ¬ acceptable ∧ t' = t
  end.
Proof.
  unfold revokeBatchAttestations.
  destruct (Nat.eqb_spec (length ids) 0); [split; [|done]; intros [? _]; lia|].
  destruct (Nat.ltb_spec 500 (length ids)); [split; [|done]; intros [? _]; lia|].
  destruct (revoke_loop _ _ _ _ ids 0 t logs []) as [[r t'] logs'] eqn:E.
  destruct r as [atts|e].
  - pose proof (revoke_loop_Ok _ _ _ _ _ _ _ _ _ _ _ _ E) as (Hnd & Hall & -> & _).
    pose proof (revoke_loop_runs now fresh clock admin ids 0 t logs [] Hnd Hall) as Hr.
    rewrite E in Hr. cbn in Hr. injection Hr as ->.
    destruct (soroban _) as [[]|m] eqn:Hs; [|split; [|done]; by intros (_ & _ & _ & ?)].
    destruct (revoke_loop_logs _ _ _ _ _ _ _ _ _ _ _ _ E) as (new & dn & -> & Hf & _ & Ho).
    rewrite (Ho eq_refl) in Hf. split_and!; [lia|lia|done..|by exists new].
  - split; [|done]. intros (_ & Hnd & Hall & _).
    pose proof (revoke_loop_runs now fresh clock admin ids 0 t logs [] Hnd Hall) as Hr. by rewrite E in Hr.
Qed.

(** The audit log is not rolled back: when the chain transaction of an
    otherwise acceptable batch fails, no row is revoked, and the log still
    gains, for every id of the batch, an entry saying that it was revoked
    successfully. *)
Theorem rollback_keeps_success_entries soroban now fresh clock ids admin t logs m :
  (1 ≤ length ids ≤ 500)%nat → NoDup ids → Forall (revocable t) ids →
  soroban (omap (λ i, getById i t) ids) = Err m →
  let '(r, t', logs') := revokeBatchAttestations soroban now fresh clock ids admin t logs in
  r = Err (SorobanFailure m) ∧ t' = t ∧
  ∃ new, logs' = logs ++ new ∧ Forall2 (claims_success admin) ids new.
Proof.
  intros Hlen Hnd Hall Hs. unfold revokeBatchAttestations.
  destruct (Nat.eqb_spec (length ids) 0); [lia|]. destruct (Nat.ltb_spec 500 (length ids)); [lia|].
  pose proof (revoke_loop_runs now fresh clock admin ids 0 t logs [] Hnd Hall) as Hr.
  destruct (revoke_loop _ _ _ _ ids 0 t logs []) as [[r t'] logs'] eqn:E. cbn in Hr. subst r.
  rewrite Hs. split_and!; [done..|].
  destruct (revoke_loop_logs _ _ _ _ _ _ _ _ _ _ _ _ E) as (new & dn & -> & Hf & _ & Ho).
  rewrite (Ho eq_refl) in Hf. by exists new.
Qed.
End Batch.

Lemma rollback_keeps_success_entries_witness :
  let '(r, t', logs') := revokeBatchAttestations (λ s, s) (λ s, s) show_Z (λ _, Err "timeout") 9
      (λ _, "log1") (λ _, 9) ["a"; "b"] "admin" sample_table [] in
  r = Err (SorobanFailure "timeout") ∧ t' = sample_table ∧
  ∃ new, logs' = [] ++ new ∧ Forall2 (claims_success "admin") ["a"; "b"] new.
Proof.
  refine (rollback_keeps_success_entries (λ s, s) (λ s, s) show_Z (λ _, Err "timeout") 9
      (λ _, "log1") (λ _, 9) ["a"; "b"] "admin" sample_table [] "timeout" _ _ _ eq_refl).
  - cbn. lia.
  - by apply (bool_decide_unpack _); vm_compute.
  - repeat constructor; eexists; split; [reflexivity|done|reflexivity|done].
Defined.
End Batch.
