(* ===== verification/IntegrationStore.v ===== *)
(** * Connected integrations: [src/repositories/integration.ts].

    The in-memory [Map] keeps its insertion order; records are cloned on the
    way in and out, so callers never share them with the store and a record is
    a value.  Tokens and metadata are a type [J]. *)

From S2P Require Import Prelude Collections.
#[local] Open Scope Z_scope.

Section Store.
Context {J : Type}.

Record Integration := {
  id : string; userId : string; businessId : string; provider : string; externalId : string;
  token : J; metadata : J; createdAt : Z; updatedAt : Z
}.

Abbreviation integrations := (list (string * Integration)).

Definition listByUserId (u : string) (m : integrations) : list Integration :=
  List.filter (λ i, String.eqb (userId i) u) (map snd m).

Definition listByBusinessId (b : string) (m : integrations) : list Integration :=
  List.filter (λ i, String.eqb (businessId i) b) (map snd m).

Definition getById (i : string) (m : integrations) : option Integration := map_get i m.

Record CreateIntegrationData := {
  c_userId : string; c_businessId : string; c_provider : string; c_externalId : string; c_token : J; c_metadata : J
}.

(** [fresh] is [crypto.randomUUID()]. *)
Definition create (fresh : string) (now : Z) (d : CreateIntegrationData) (m : integrations)
  : Integration * integrations :=
  let r := {| id := fresh; userId := c_userId d; businessId := c_businessId d; provider := c_provider d;
              externalId := c_externalId d; token := c_token d; metadata := c_metadata d;
              createdAt := now; updatedAt := now |} in
  (r, map_set fresh r m).

Definition update (now : Z) (b i : string) (tok meta : option J) (m : integrations)
  : option Integration * integrations :=
  match map_get i m with
  | None => (None, m)
  | Some r =>
      if negb (String.eqb (businessId r) b) then (None, m)
      else
        let r := {| id := id r; userId := userId r; businessId := businessId r; provider := provider r;
                    externalId := externalId r; token := default (token r) tok;
                    metadata := default (metadata r) meta; createdAt := createdAt r; updatedAt := now |} in
        (Some r, map_set i r m)
  end.

Definition deleteById (b i : string) (m : integrations) : bool * integrations :=
  match map_get i m with
  | None => (false, m)
  | Some r => if negb (String.eqb (businessId r) b) then (false, m) else (true, map_delete i m)
  end.

Definition clearAll (m : integrations) : integrations := [].

(** ** Well-formed stores *)

(** Keys are distinct and are the ids of their records. *)
Record wf (m : integrations) : Prop := {
  wf_nodup : NoDup m.*1;
  wf_key : ∀ k r, map_get k m = Some r → id r = k
}.

Lemma map_set_wf k r m : wf m → id r = k → wf (map_set k r m).
Proof.
  intros [Hn Hk] Hr. split; [by apply map_set_nodup|]. intros k' r'. rewrite map_get_set.
  destruct (String.eqb_spec k' k) as [->|]; [by intros [= <-]|apply Hk].
Qed.

Lemma map_delete_wf k m : wf m → wf (map_delete k m).
Proof.
  intros [Hn Hk]. split; [by apply map_delete_nodup|]. intros k' r'. rewrite map_get_delete.
  case_if; [done|apply Hk].
Qed.

(** ** Operations of one tenant *)
Inductive op :=
| Create (fresh : string) (now : Z) (d : CreateIntegrationData)
| Update (now : Z) (b i : string) (tok meta : option J)
| Delete (b i : string).

Definition tenant (o : op) : string :=
  match o with Create _ _ d => c_businessId d | Update _ b _ _ _ | Delete b _ => b end.

Definition step (o : op) (m : integrations) : integrations :=
  match o with
  | Create fresh now d => (create fresh now d m).2
  | Update now b i tok meta => (update now b i tok meta m).2
  | Delete b i => (deleteById b i m).2
  end.

(** A fresh identifier is not in use. *)
Definition fresh_ok (o : op) (m : integrations) : bool :=
  match o with
  | Create fresh _ _ => match map_get fresh m with None => true | Some _ => false end
  | _ => true
  end.

Fixpoint run_ok (os : list op) (m : integrations) : bool :=
  match os with [] => true | o :: os => fresh_ok o m && run_ok os (step o m) end.

Definition run (os : list op) (m : integrations) : integrations := fold_left (λ m o, step o m) os m.

Lemma op_wf o m : wf m → wf (step o m).
Proof.
  intros Hw. destruct o as [fresh now d|now b i tok meta|b i]; cbn.
  - by apply map_set_wf.
  - unfold update. destruct (map_get i m) as [r|] eqn:Hg; [|done]. case_if; [done|]. cbn.
    apply map_set_wf; [done|]. exact (wf_key _ Hw i r Hg).
  - unfold deleteById. destruct (map_get i m) as [r|]; [|done]. case_if; [done|]. by apply map_delete_wf.
Qed.

(** The records of business [b] under a key are untouched by the operations
    of other tenants. *)
Lemma op_other o m k r :
  fresh_ok o m = true → tenant o ≠ businessId r → map_get k m = Some r → map_get k (step o m) = Some r.
Proof.
  intros Hf Ht Hg. destruct o as [fresh now d|now b i tok meta|b i]; cbn in *.
  - rewrite map_get_set. destruct (String.eqb_spec k fresh) as [->|]; [|done]. by rewrite Hg in Hf.
  - unfold update. destruct (map_get i m) as [x|] eqn:Hi; [|done]. case_if; [done|].
    apply negb_false_iff, String.eqb_eq in Heqb0. cbn. rewrite map_get_set.
    destruct (String.eqb_spec k i) as [->|]; [|done]. congruence.
  - unfold deleteById. destruct (map_get i m) as [x|] eqn:Hi; [|done]. case_if; [done|].
    apply negb_false_iff, String.eqb_eq in Heqb0. cbn. rewrite map_get_delete.
    destruct (String.eqb_spec k i) as [->|]; [|done]. congruence.
Qed.

Lemma step_gains o m k r :
  map_get k (step o m) = Some r → businessId r ≠ tenant o → map_get k m = Some r.
Proof.
  destruct o as [fresh now d|now b i tok meta|b i]; cbn.
  - rewrite map_get_set. case_if; [|done]. by intros [= <-].
  - unfold update. destruct (map_get i m) as [x|] eqn:Hi; [|done]. case_if; [done|]. cbn. rewrite map_get_set.
    apply negb_false_iff, String.eqb_eq in Heqb0. case_if; [|done]. by intros [= <-].
  - unfold deleteById. destruct (map_get i m) as [x|]; [|done]. case_if; [done|]. cbn. rewrite map_get_delete.
    by case_if.
Qed.
End Store.
Arguments Integration J : clear implicits.
Arguments CreateIntegrationData J : clear implicits.
Arguments op J : clear implicits.

(** Tenant isolation: the records of a business are the same, key by
    key, after any sequence of creations, updates and deletions made for other
    businesses; none is changed, removed or added. *)
Theorem tenants_isolated {J} (os : list (op J)) b (m : list (string * Integration J)) k r :
  run_ok os m = true → Forall (λ o, tenant o ≠ b) os → businessId r = b →
  map_get k (run os m) = Some r ↔ map_get k m = Some r.
Proof.
  intros Ho Ht Hb. revert m Ho. induction Ht as [|o os Ho' Ht IH]; intros m Ho; [done|].
  cbn in Ho. apply andb_true_iff in Ho as [Hf Ho]. cbn. rewrite (IH _ Ho). split.
  - intros Hg. apply (step_gains o); [done|]. congruence.
  - intros Hg. apply op_other; [done|congruence|done].
Qed.

Lemma tenants_isolated_witness :
  let d b := {| c_userId := "u"; c_businessId := b; c_provider := "stripe"; c_externalId := "x";
                c_token := tt; c_metadata := tt |} in
  let m := (create "i1" 1 (d "b1") []).2 in
  businessId <$> map_get "i1" (run [Delete "b2" "i1"; Create "i2" 2 (d "b2"); Update 3 "b2" "i1" None None] m) = Some "b1".
Proof.
  intros d m. pose (r := (create "i1" 1 (d "b1") []).1).
  pose proof (tenants_isolated [Delete "b2" "i1"; Create "i2" 2 (d "b2"); Update 3 "b2" "i1" None None] "b1" m "i1" r
    eq_refl ltac:(repeat constructor; discriminate) eq_refl) as H.
  rewrite (proj2 H eq_refl). reflexivity.
Defined.
