(* ===== verification/AccessControl.v ===== *)
(** * Access control: [src/types/permissions.ts],
    [src/middleware/permissions.ts], [requireBusinessAuth.ts], [requireAuth.ts]
    and the routes of [src/routes/integrations.ts] they guard.

    A middleware maps a request to the response it sends or to the request it
    passes on.  Token verification and the repositories are parameters; a
    lookup that throws inside a [try] is [None].  Header values and route
    parameters are strings; a header that was sent twice is one string. *)

From S2P Require Import Prelude Numeric Hashing JsString Collections.
From S2P Require Import IntegrationStore.
#[local] Open Scope Z_scope.

(** ** Permissions *)

Inductive IntegrationPermission :=
| READ_AVAILABLE | READ_CONNECTED | READ_OWN
| CONNECT | DISCONNECT_OWN | DISCONNECT_ANY
| MANAGE_OWN | MANAGE_ANY
| ADMIN | ADMIN_READ_STATS | ADMIN_MANAGE_USERS | ADMIN_READ_AUDIT_LOGS.

#[export] Instance IntegrationPermission_eq_dec : EqDecision IntegrationPermission.
Proof. solve_decision. Defined.

Definition all_permissions : list IntegrationPermission :=
  [READ_AVAILABLE; READ_CONNECTED; READ_OWN; CONNECT; DISCONNECT_OWN; DISCONNECT_ANY; MANAGE_OWN; MANAGE_ANY;
   ADMIN; ADMIN_READ_STATS; ADMIN_MANAGE_USERS; ADMIN_READ_AUDIT_LOGS].

Definition permission_value (p : IntegrationPermission) : string :=
  match p with
  | READ_AVAILABLE => "integrations:read:available"
  | READ_CONNECTED => "integrations:read:connected"
  | READ_OWN => "integrations:read:own"
  | CONNECT => "integrations:connect"
  | DISCONNECT_OWN => "integrations:disconnect:own"
  | DISCONNECT_ANY => "integrations:disconnect:any"
  | MANAGE_OWN => "integrations:manage:own"
  | MANAGE_ANY => "integrations:manage:any"
  | ADMIN => "integrations:admin"
  | ADMIN_READ_STATS => "admin:read:stats"
  | ADMIN_MANAGE_USERS => "admin:manage:users"
  | ADMIN_READ_AUDIT_LOGS => "admin:read:audit_logs"
  end.

(** The names [ROLE_PERMISSIONS[role]] finds on [Object.prototype]; none of
    the values is iterable. *)
Definition object_prototype : list string :=
  ["constructor"; "__defineGetter__"; "__defineSetter__"; "hasOwnProperty"; "__lookupGetter__"; "__lookupSetter__";
   "isPrototypeOf"; "propertyIsEnumerable"; "toString"; "valueOf"; "__proto__"; "toLocaleString"].

Definition user_permissions : list IntegrationPermission :=
  [READ_AVAILABLE; READ_CONNECTED; READ_OWN; CONNECT; DISCONNECT_OWN; MANAGE_OWN].
Definition business_admin_permissions : list IntegrationPermission :=
  [READ_AVAILABLE; READ_CONNECTED; READ_OWN; CONNECT; DISCONNECT_OWN; DISCONNECT_ANY; MANAGE_OWN; MANAGE_ANY].

(** [[...(ROLE_PERMISSIONS[role] || [])]]; [None] is the [TypeError] of
    spreading an inherited member. *)
Definition getUserPermissions (role : string) : option (list IntegrationPermission) :=
  if String.eqb role "user" then Some user_permissions
  else if String.eqb role "business_admin" then Some business_admin_permissions
  else if String.eqb role "admin" then Some all_permissions
  else if includes role object_prototype then None
  else Some [].

Definition has_permission (l : list IntegrationPermission) (p : IntegrationPermission) : bool :=
  existsb (λ q, bool_decide (p = q)) l.

Definition missing (userPermissions required : list IntegrationPermission) : list IntegrationPermission :=
  List.filter (λ p, negb (has_permission userPermissions p)) required.

Record PermissionCheck := { check_allowed : bool; check_reason : option string }.

Definition checkPermissions (userPermissions required : list IntegrationPermission) : PermissionCheck :=
  let m := missing userPermissions required in
  {| check_allowed := (length m =? 0)%nat;
     check_reason := if (0 <? length m)%nat
                     then Some ("Missing required permissions: " +:+ join ", " (map permission_value m)) else None |}.

Record UserPermissionContext := {
  ctx_userId : string; ctx_businessId : option string; ctx_role : string; ctx_permissions : list IntegrationPermission
}.

Definition createContext (userId role : string) (businessId : option string) : option UserPermissionContext :=
  (λ ps, {| ctx_userId := userId; ctx_businessId := businessId; ctx_role := role; ctx_permissions := ps |})
    <$> getUserPermissions role.

(** ** Requests and responses *)

Record user := { u_id : string; u_userId : string; u_role : option string }.
Record business := { b_id : string; b_userId : string; suspended : bool }.

Record request := {
  authorization : option string;
  x_user_role : option string;
  x_business_id : option string;
  body : string → option string;
  params : string → option string;
  r_user : option user;
  r_business : option business;
  permissionContext : option UserPermissionContext
}.

Definition with_user (u : user) (r : request) : request :=
  {| authorization := authorization r; x_user_role := x_user_role r; x_business_id := x_business_id r;
     body := body r; params := params r; r_user := Some u; r_business := r_business r;
     permissionContext := permissionContext r |}.
Definition with_business (b : business) (r : request) : request :=
  {| authorization := authorization r; x_user_role := x_user_role r; x_business_id := x_business_id r;
     body := body r; params := params r; r_user := r_user r; r_business := Some b;
     permissionContext := permissionContext r |}.
Definition with_context (c : UserPermissionContext) (r : request) : request :=
  {| authorization := authorization r; x_user_role := x_user_role r; x_business_id := x_business_id r;
     body := body r; params := params r; r_user := r_user r; r_business := r_business r;
     permissionContext := Some c |}.

(** A response: its status and the message or code that tells the cases
    apart. *)
Record response := { status : Z; detail : string }.

Inductive outcome := Next (r : request) | Respond (x : response).

Definition respond (s : Z) (d : string) : outcome := Respond {| status := s; detail := d |}.

(** The middlewares of a route run one after the other. *)
Definition andThen (a b : request → outcome) (r : request) : outcome :=
  match a r with Next r => b r | Respond x => Respond x end.

(** [s || t] on an optional string. *)
Definition or_else (s t : option string) : option string :=
  match s with Some (String _ _) => s | _ => t end.

(** A string that is present and not empty. *)
Definition non_empty (s : option string) : option string := or_else s None.

(** ** [requirePermissions] *)

(** [checkIntegrationOwnership]; the user is not consulted. *)
Definition checkIntegrationOwnership (userId integrationId : string) (businessId : option string) : bool :=
  match non_empty businessId with
  | None => true
  | Some b => contains b integrationId
  end.

Record permission_options := {
  checkOwnership : bool;
  customCheck : option (request → UserPermissionContext → option bool)
}.
Definition no_options : permission_options := {| checkOwnership := false; customCheck := None |}.

(** The [catch] answers 500 for a spread that fails or a [customCheck] that
    throws ([None]). *)
Definition requirePermissions (permissions : list IntegrationPermission) (o : permission_options) (r : request)
  : outcome :=
  match r_user r with
  | None => respond 401 "Authentication required"
  | Some u =>
      if is_empty (u_userId u) then respond 401 "Authentication required"
      else
        let role := default "user" (or_else (u_role u) (non_empty (x_user_role r))) in
        match createContext (u_userId u) role (x_business_id r) with
        | None => respond 500 "Error checking permissions"
        | Some context =>
            let r := with_context context r in
            let check := checkPermissions (ctx_permissions context) permissions in
            if negb (check_allowed check) then respond 403 (default EmptyString (check_reason check))
            else
              let integrationId := or_else (params r "id") (non_empty (params r "provider")) in
              let owned :=
                match checkOwnership o, integrationId with
                | true, Some i => checkIntegrationOwnership (u_userId u) i (ctx_businessId context)
                | _, _ => true
                end in
              if negb owned then respond 403 "You do not have permission to access this integration"
              else match customCheck o with
                   | None => Next r
                   | Some f => match f r context with
                               | None => respond 500 "Error checking permissions"
                               | Some true => Next r
                               | Some false => respond 403 "Custom permission check failed"
                               end
                   end
        end
  end.

Definition requireBusinessTierRolePromotionPermission : request → outcome :=
  requirePermissions [ADMIN_MANAGE_USERS] no_options.

(** [addPermissionContext]; a role found on [Object.prototype] throws. *)
Definition addPermissionContext (r : request) : option request :=
  match r_user r with
  | Some u =>
      if is_empty (u_userId u) then Some r
      else let role := default "user" (non_empty (x_user_role r)) in
           (λ c, with_context c r) <$> createContext (u_userId u) role (x_business_id r)
  | None => Some r
  end.

(** ** Policies *)

Inductive effect := Allow | Deny.
Inductive tenant_scope := SameTenant | AnyTenant.

#[export] Instance effect_eq_dec : EqDecision effect.
Proof. solve_decision. Defined.

Record PolicyRule := {
  rule_id : string; rule_effect : effect; actions : list string; resources : list string;
  roles : option (list string); tenantScope : option tenant_scope
}.

Record PolicyRequest := {
  action : string; resource : string; role : string;
  actorTenantId : option string; resourceTenantId : option string
}.

Record PolicyDecision := { allowed : bool; reason : string; ruleId : option string }.

Definition DEFAULT_POLICY : list PolicyRule :=
  [{| rule_id := "integration-user-own"; rule_effect := Allow; actions := ["read"; "create"; "update"; "delete"];
      resources := ["integration"]; roles := Some ["user"]; tenantScope := Some SameTenant |};
   {| rule_id := "integration-business-admin"; rule_effect := Allow; actions := ["*"];
      resources := ["integration"]; roles := Some ["business_admin"]; tenantScope := Some SameTenant |};
   {| rule_id := "platform-admin"; rule_effect := Allow; actions := ["*"];
      resources := ["*"]; roles := Some ["admin"]; tenantScope := Some AnyTenant |}].

Definition value_matches (value : string) (values : list string) : bool :=
  includes "*" values || includes value values.

Definition opt_eqb (a b : option string) : bool :=
  match a, b with
  | Some x, Some y => String.eqb x y
  | None, None => true
  | _, _ => false
  end.

Definition ruleMatches (rule : PolicyRule) (q : PolicyRequest) : bool :=
  if negb (value_matches (action q) (actions rule)) || negb (value_matches (resource q) (resources rule)) then false
  else if match roles rule with Some rs => negb (includes (role q) rs) | None => false end then false
  else match tenantScope rule with
       | Some SameTenant =>
           match non_empty (actorTenantId q) with
           | Some _ => opt_eqb (actorTenantId q) (resourceTenantId q)
           | None => false
           end
       | _ => true
       end.

Definition has_effect (e : effect) (rule : PolicyRule) : bool := bool_decide (rule_effect rule = e).

Definition evaluatePolicy (q : PolicyRequest) (rules : list PolicyRule) : PolicyDecision :=
  let matching := List.filter (λ rule, ruleMatches rule q) rules in
  match List.find (has_effect Deny) matching with
  | Some deny => {| allowed := false; ruleId := Some (rule_id deny);
                    reason := "Denied by policy rule: " +:+ rule_id deny |}
  | None =>
      match List.find (has_effect Allow) matching with
      | Some allow => {| allowed := true; ruleId := Some (rule_id allow);
                         reason := "Allowed by policy rule: " +:+ rule_id allow |}
      | None =>
          let tenantMismatch :=
            match resourceTenantId q with
            | Some _ => negb (opt_eqb (actorTenantId q) (resourceTenantId q))
            | None => false
            end in
          {| allowed := false; ruleId := None;
             reason := if tenantMismatch then "Denied: resource belongs to a different tenant"
                       else "Denied: no matching policy rule" |}
      end
  end.

(** [rules] and [tenantOf] are [options.rules] and
    [options.resourceTenantId]; the audit of the decision cannot
    change it. *)
Definition requirePolicy (act res : string) (rules : list PolicyRule) (tenantOf : request → option string) (r : request) : outcome :=
  match r_user r with
  | None => respond 401 "Authentication required"
  | Some u =>
      if is_empty (u_userId u) then respond 401 "Authentication required"
      else
        let q := {| action := act; resource := res; role := default "user" (non_empty (u_role u));
                    actorTenantId := b_id <$> r_business r; resourceTenantId := tenantOf r |} in
        let decision := evaluatePolicy q rules in
        if negb (allowed decision) then respond 403 (reason decision) else Next r
  end.

(** ** Authentication *)
Section Auth.
(** [verifyToken]: the user id of a valid token; [findUserById]: the role of
    an existing user; [getBusiness]: [businessRepository.getById]. *)
Context (verifyToken : string → option string) (findUserById : string → option string)
        (getBusiness : string → option business).

(** [/^[a-zA-Z0-9\-_]{1,50}$/] *)
Definition id_char (c : ascii) : bool :=
  in_range 97 122 c || in_range 65 90 c || in_range 48 57 c || Ascii.eqb c "-" || Ascii.eqb c "_".
Definition ID_RE (s : string) : bool :=
  (1 <=? String.length s)%nat && (String.length s <=? 50)%nat && string_forallb id_char s.

(** A trimmed candidate that is an identifier. *)
Definition candidate (v : option string) : option string :=
  match non_empty v with
  | None => None
  | Some s => let trimmed := trim s in if negb (is_empty trimmed) && ID_RE trimmed then Some trimmed else None
  end.

Definition extractBusinessId (r : request) : option string :=
  match candidate (x_business_id r) with
  | Some i => Some i
  | None => match candidate (body r "business_id") with
            | Some i => Some i
            | None => candidate (body r "businessId")
            end
  end.

Definition validateUserToken (token : string) : option user :=
  match verifyToken token with
  | None => None
  | Some uid => match findUserById uid with
                | None => None
                | Some _ => Some {| u_id := uid; u_userId := uid; u_role := None |}
                end
  end.

(** The token of an [Authorization] header. *)
Definition bearer (h : option string) : option string := h ≫= strip_prefix "Bearer ".

Definition requireBusinessAuth (r : request) : outcome :=
  match bearer (authorization r) with
  | None => respond 401 "MISSING_AUTH"
  | Some token =>
      match validateUserToken token with
      | None => respond 401 "INVALID_TOKEN"
      | Some u =>
          match extractBusinessId r with
          | None => respond 400 "MISSING_BUSINESS_ID"
          | Some businessId =>
              match getBusiness businessId with
              | None => respond 403 "BUSINESS_NOT_FOUND"
              | Some b =>
                  if negb (String.eqb (b_userId b) (u_id u)) then respond 403 "BUSINESS_NOT_FOUND"
                  else if suspended b then respond 403 "BUSINESS_SUSPENDED"
                  else Next (with_business b (with_user u r))
              end
          end
      end
  end.

Definition requireAuth (r : request) : outcome :=
  match bearer (authorization r) with
  | None => respond 401 "Missing or invalid authorization header"
  | Some token =>
      match verifyToken token with
      | None => respond 401 "Invalid or expired token"
      | Some uid =>
          match findUserById uid with
          | None => respond 401 "User not found"
          | Some role => Next (with_user {| u_id := uid; u_userId := uid; u_role := Some role |} r)
          end
      end
  end.

(** ** Routes of [integrations.ts] *)
Context {J : Type}.

(** The guards of [DELETE /:integrationId] and [GET /:integrationId]; the
    tenant of the integration is looked up in the store. *)
Definition integration_guards (perm : IntegrationPermission) (act : string)
    (m : list (string * Integration J)) : request → outcome :=
  andThen requireBusinessAuth
    (andThen (requirePermissions [perm] {| checkOwnership := true; customCheck := None |})
       (requirePolicy act "integration" DEFAULT_POLICY
          (λ r, params r "integrationId" ≫= λ i, businessId <$> getById i m))).

(** The handler of the deletion, after its guards. *)
Definition delete_handler (r : request) (m : list (string * Integration J))
  : response * list (string * Integration J) :=
  match non_empty (params r "integrationId"), r_business r with
  | None, _ => ({| status := 400; detail := "Integration ID is required" |}, m)
  | _, None => ({| status := 500; detail := "Failed to disconnect integration" |}, m)
  | Some i, Some b =>
      match List.find (λ x, String.eqb (id x) i) (listByBusinessId (b_id b) m) with
      | None => ({| status := 404; detail := "Integration not found or access denied" |}, m)
      | Some x =>
          match deleteById (b_id b) i m with
          | (false, m) => ({| status := 500; detail := "Failed to disconnect integration" |}, m)
          | (true, m) => ({| status := 200; detail := "Integration disconnected successfully" |}, m)
          end
      end
  end.

Definition delete_integration (r : request) (m : list (string * Integration J))
  : response * list (string * Integration J) :=
  match integration_guards DISCONNECT_OWN "delete" m r with
  | Respond x => (x, m)
  | Next r => delete_handler r m
  end.
End Auth.

(** ** Specification vocabulary *)

(** The combining rule the policy documents: some rule allows and none denies. *)
Definition deny_overrides (q : PolicyRequest) (rules : list PolicyRule) : bool :=
  existsb (λ r, has_effect Allow r && ruleMatches r q) rules &&
  negb (existsb (λ r, has_effect Deny r && ruleMatches r q) rules).

(** Actor and resource have one and the same tenant. *)
Definition same_tenant (q : PolicyRequest) : bool :=
  match actorTenantId q, resourceTenantId q with
  | Some a, Some b => negb (is_empty a) && String.eqb a b
  | _, _ => false
  end.

(** The role [requirePermissions] works with. *)
Definition effective_role (u : user) (r : request) : string :=
  default "user" (or_else (u_role u) (non_empty (x_user_role r))).

Definition with_role_header (h : option string) (r : request) : request :=
  {| authorization := authorization r; x_user_role := h; x_business_id := x_business_id r;
     body := body r; params := params r; r_user := r_user r; r_business := r_business r;
     permissionContext := permissionContext r |}.

Definition passes (o : outcome) : bool := match o with Next _ => true | Respond _ => false end.

Definition blank_request : request :=
  {| authorization := None; x_user_role := None; x_business_id := None; body := λ _, None; params := λ _, None;
     r_user := None; r_business := None; permissionContext := None |}.

(** ** Lemmas *)

Lemma has_permission_spec l p : has_permission l p = true ↔ p ∈ l.
Proof.
  unfold has_permission. rewrite existsb_exists. split.
  - intros (q & Hq & Hd). apply bool_decide_eq_true in Hd as ->. by apply list_elem_of_In.
  - intros Hp. exists p. split; [by apply list_elem_of_In|]. by apply bool_decide_eq_true.
Qed.

(** A check passes exactly when every required permission is held. *)
Lemma checkPermissions_allowed held required :
  check_allowed (checkPermissions held required) = true ↔ Forall (λ p, p ∈ held) required.
Proof.
  unfold checkPermissions, missing. cbn. rewrite Nat.eqb_eq. induction required as [|p l IH]; [by split|].
  cbn. rewrite Forall_cons, <- IH, <- (has_permission_spec held p). destruct (has_permission held p); cbn.
  - intuition.
  - split; [lia|by intros [? _]].
Qed.

Lemma find_existsb {A} (p : A → bool) l : existsb p l = match List.find p l with Some _ => true | None => false end.
Proof. induction l as [|x l IH]; [done|]. cbn. by destruct (p x). Qed.

Lemma existsb_filter {A} (p q : A → bool) l : existsb p (List.filter q l) = existsb (λ x, p x && q x) l.
Proof.
  induction l as [|x l IH]; [done|]. cbn. destruct (q x); cbn; rewrite IH; [by rewrite andb_true_r|].
  by rewrite andb_false_r.
Qed.

Lemma existsb_perm {A} (p : A → bool) l l' : l ≡ₚ l' → existsb p l = existsb p l'.
Proof.
  intros H. apply eq_true_iff_eq. rewrite !existsb_exists. split; intros (x & Hx & Hp); exists x; (split; [|done]).
  - by apply (Permutation_in _ H).
  - by apply (Permutation_in _ (symmetry H)).
Qed.

Lemma evaluatePolicy_allowed q rules : allowed (evaluatePolicy q rules) = deny_overrides q rules.
Proof.
  unfold evaluatePolicy, deny_overrides. rewrite <- !existsb_filter, !find_existsb.
  destruct (List.find (has_effect Deny) _); cbn; [by rewrite andb_false_r|].
  by destruct (List.find (has_effect Allow) _).
Qed.

Lemma requirePermissions_plain perms r u :
  r_user r = Some u → is_empty (u_userId u) = false →
  requirePermissions perms no_options r =
  match createContext (u_userId u) (effective_role u r) (x_business_id r) with
  | None => respond 500 "Error checking permissions"
  | Some c =>
      if check_allowed (checkPermissions (ctx_permissions c) perms) then Next (with_context c r)
      else respond 403 (default EmptyString (check_reason (checkPermissions (ctx_permissions c) perms)))
  end.
Proof.
  intros Hu He. unfold requirePermissions. rewrite Hu, He. fold (effective_role u r).
  destruct (createContext _ _ _) as [c|]; [|done]. cbn [checkOwnership customCheck no_options negb].
  by destruct (check_allowed _).
Qed.

Lemma business_auth_user verify find getb r r' :
  requireBusinessAuth verify find getb r = Next r' →
  ∃ token uid b bid,
    bearer (authorization r) = Some token ∧ verify token = Some uid ∧ is_Some (find uid) ∧
    extractBusinessId r = Some bid ∧ getb bid = Some b ∧ b_userId b = uid ∧ suspended b = false ∧
    r' = with_business b (with_user {| u_id := uid; u_userId := uid; u_role := None |} r).
Proof.
  unfold requireBusinessAuth. destruct (bearer _) as [token|]; [|done].
  unfold validateUserToken. destruct (verify token) as [uid|] eqn:Hv; [|done].
  destruct (find uid) as [ro|] eqn:Hf; [|done]. destruct (extractBusinessId r) as [bid|]; [|done].
  destruct (getb bid) as [b|] eqn:Hb; [|done]. cbn [u_id].
  destruct (String.eqb_spec (b_userId b) uid) as [He|]; [|done]. cbn [negb].
  destruct (suspended b) eqn:Hs; [done|]. intros [= <-]. exists token, uid, b, bid. by split_and!.
Qed.

(** [requirePermissions] only adds the context. *)
Lemma requirePermissions_next perms o r r' :
  requirePermissions perms o r = Next r' → ∃ c, r' = with_context c r.
Proof.
  unfold requirePermissions. intros H. destruct (r_user r); [|done]. case_if_in H; [done|].
  destruct (createContext _ _ _) as [c|]; [|done]. exists c.
  repeat case_if_in H; try done. destruct (customCheck o) as [f|]; [|by injection H].
  destruct (f _ c) as [[]|]; [by injection H|done|done].
Qed.

Lemma requirePolicy_next act res rules f r r' :
  requirePolicy act res rules f r = Next r' →
  ∃ u, r' = r ∧ r_user r = Some u ∧
    deny_overrides {| action := act; resource := res; role := default "user" (non_empty (u_role u));
                      actorTenantId := b_id <$> r_business r; resourceTenantId := f r |} rules = true.
Proof.
  unfold requirePolicy. destruct (r_user r) as [u|]; [|done]. intros H. case_if_in H; [done|].
  rewrite evaluatePolicy_allowed in H. exists u. destruct (deny_overrides _ _) eqn:E; [|done].
  cbn in H. by injection H as <-.
Qed.

Lemma same_tenant_eq q :
  match non_empty (actorTenantId q) with
  | Some _ => opt_eqb (actorTenantId q) (resourceTenantId q)
  | None => false
  end = same_tenant q.
Proof.
  unfold same_tenant. destruct (actorTenantId q) as [a|]; [|done].
  destruct a as [|c a]; cbn [non_empty or_else is_empty negb]; by destruct (resourceTenantId q).
Qed.

Lemma non_empty_Some s : is_empty s = false → non_empty (Some s) = Some s.
Proof. by destruct s. Qed.

(** The guards refuse with a status of 400 or more. *)
Lemma requirePermissions_status perms o r x : requirePermissions perms o r = Respond x → 400 <= status x.
Proof.
  unfold requirePermissions, respond. intros H.
  repeat (case_match; try discriminate); injection H as <-; cbn; lia.
Qed.

Lemma requirePolicy_status act res rules f r x : requirePolicy act res rules f r = Respond x → 400 <= status x.
Proof.
  unfold requirePolicy, respond. intros H.
  repeat (case_match; try discriminate); injection H as <-; cbn; lia.
Qed.

Lemma requireBusinessAuth_status verify find getb r x :
  requireBusinessAuth verify find getb r = Respond x → 400 <= status x.
Proof.
  unfold requireBusinessAuth, respond. intros H.
  repeat (case_match; try discriminate); injection H as <-; cbn; lia.
Qed.

Lemma integration_guards_refusal {J} verify find getb p act (m : list (string * Integration J)) r x :
  integration_guards verify find getb p act m r = Respond x → status x ≠ 200.
Proof.
  unfold integration_guards, andThen. intros H.
  destruct (requireBusinessAuth _ _ _ _) eqn:E1; [|injection H as <-; apply requireBusinessAuth_status in E1; lia].
  destruct (requirePermissions _ _ _) eqn:E2; [|injection H as <-; apply requirePermissions_status in E2; lia].
  apply requirePolicy_status in H. lia.
Qed.

Lemma integration_guards_next {J} verify find getb p act (m : list (string * Integration J)) r r' :
  integration_guards verify find getb p act m r = Next r' →
  ∃ t uid b bid, bearer (authorization r) = Some t ∧ verify t = Some uid ∧ extractBusinessId r = Some bid ∧
    getb bid = Some b ∧ b_userId b = uid ∧ params r' = params r ∧ r_business r' = Some b.
Proof.
  unfold integration_guards, andThen. intros H.
  destruct (requireBusinessAuth _ _ _ _) as [r1|] eqn:E1; [|done].
  destruct (requirePermissions _ _ _) as [r2|] eqn:E2; [|done].
  destruct (business_auth_user _ _ _ _ _ E1) as (t & uid & b & bid & ? & ? & _ & ? & ? & ? & _ & ->).
  apply requirePermissions_next in E2 as [c ->]. apply requirePolicy_next in H as (u & -> & _).
  exists t, uid, b, bid. by split_and!.
Qed.

(** The owner's request falls under the rule for users. *)
Lemma default_policy_allows_owner b :
  is_empty b = false →
  allowed (evaluatePolicy {| action := "delete"; resource := "integration"; role := "user";
                             actorTenantId := Some b; resourceTenantId := Some b |} DEFAULT_POLICY) = true.
Proof.
  intros Hb. rewrite evaluatePolicy_allowed. unfold deny_overrides, DEFAULT_POLICY, ruleMatches. cbn.
  destruct b; [done|]. cbn. by rewrite Ascii.eqb_refl, String.eqb_refl.
Qed.

(** A stored record is found in its owner's listing. *)
Lemma find_own {J} (m : list (string * Integration J)) i rec :
  wf m → map_get i m = Some rec →
  is_Some (List.find (λ x, String.eqb (id x) i) (listByBusinessId (businessId rec) m)).
Proof.
  intros Hw Hg. destruct (List.find _ _) eqn:E; [by eexists|].
  assert (rec ∈ listByBusinessId (businessId rec) m) as Hin.
  { apply list_elem_of_In, filter_In. rewrite String.eqb_refl. split; [|done].
    apply in_map_iff. exists (i, rec). split; [done|]. by apply list_elem_of_In, map_get_Some. }
  apply list_elem_of_In in Hin. apply (List.find_none _ _ E) in Hin. by rewrite (wf_key _ Hw i rec Hg), String.eqb_refl in Hin.
Qed.

(** ** Theorems *)

(** The policy evaluator computes "deny overrides": a request is allowed
    exactly when some rule matches it with effect allow and none with effect
    deny, whatever the order of the rules; the rule it reports is one of the
    rules that match. *)
Theorem evaluatePolicy_deny_overrides q rules rules' :
  rules ≡ₚ rules' →
  allowed (evaluatePolicy q rules) = deny_overrides q rules ∧
  allowed (evaluatePolicy q rules') = deny_overrides q rules ∧
  ∀ i, ruleId (evaluatePolicy q rules) = Some i →
    ∃ r, r ∈ rules ∧ rule_id r = i ∧ ruleMatches r q = true ∧
         rule_effect r = if allowed (evaluatePolicy q rules) then Allow else Deny.
Proof.
  intros Hp. rewrite !evaluatePolicy_allowed. split_and!; [done| |].
  { unfold deny_overrides. by rewrite <- !(existsb_perm _ _ _ Hp). }
  intros i. rewrite <- evaluatePolicy_allowed. unfold evaluatePolicy.
  assert (∀ e x, List.find (has_effect e) (List.filter (λ r, ruleMatches r q) rules) = Some x →
            x ∈ rules ∧ ruleMatches x q = true ∧ rule_effect x = e) as Hfind.
  { intros e x Hx. apply List.find_some in Hx as [Hin He]. apply filter_In in Hin as [Hin Hm].
    apply bool_decide_eq_true in He. split_and!; [by apply list_elem_of_In|done|done]. }
  destruct (List.find (has_effect Deny) _) as [x|] eqn:Hd.
  - intros [= <-]. destruct (Hfind Deny x Hd) as (? & ? & ?). by exists x.
  - destruct (List.find (has_effect Allow) _) as [x|] eqn:Ha; [|done].
    intros [= <-]. destruct (Hfind Allow x Ha) as (? & ? & ?). by exists x.
Qed.

Lemma evaluatePolicy_deny_overrides_witness :
  let q := {| action := "read"; resource := "integration"; role := "admin"; actorTenantId := None;
              resourceTenantId := Some "b1" |} in
  let freeze := {| rule_id := "freeze"; rule_effect := Deny; actions := ["*"]; resources := ["integration"];
                   roles := None; tenantScope := None |} in
  allowed (evaluatePolicy q (freeze :: DEFAULT_POLICY)) = false ∧
  allowed (evaluatePolicy q (DEFAULT_POLICY ++ [freeze])) = false.
Proof.
  intros q freeze.
  destruct (evaluatePolicy_deny_overrides q (freeze :: DEFAULT_POLICY) (DEFAULT_POLICY ++ [freeze])
              ltac:(apply Permutation_cons_append)) as (H1 & H2 & _).
  by rewrite H1, H2.
Defined.

(** The default policy is least privilege: apart from platform admins,
    only a business admin or a user acting for a tenant on an integration of
    that same tenant is allowed, and a user only to read, create, update or
    delete. *)
Theorem default_policy_least_privilege q :
  allowed (evaluatePolicy q DEFAULT_POLICY) = true ↔
  role q = "admin" ∨
  resource q = "integration" ∧ same_tenant q = true ∧
  (role q = "business_admin" ∨ role q = "user" ∧ action q ∈ ["read"; "create"; "update"; "delete"]).
Proof.
  rewrite evaluatePolicy_allowed. unfold deny_overrides, DEFAULT_POLICY.
  unfold has_effect. cbn [existsb rule_effect].
  change (bool_decide (Allow = Allow)) with true. change (bool_decide (Allow = Deny)) with false. cbn [andb orb negb].
  rewrite andb_true_r, orb_false_r, !orb_true_iff. unfold ruleMatches.
  cbn [actions resources roles tenantScope]. rewrite !same_tenant_eq.
  unfold value_matches. rewrite <- (includes_spec (action q)).
  set (inc := includes (action q) ["read"; _; _; _]). unfold includes. cbn [existsb].
  cbn [String.eqb Ascii.eqb Bool.eqb orb negb]. rewrite !orb_false_r.
  destruct (String.eqb_spec (resource q) "integration"), (String.eqb_spec (role q) "admin"),
    (String.eqb_spec (role q) "business_admin"), (String.eqb_spec (role q) "user"),
    (same_tenant q), inc; cbn; intuition congruence.
Qed.

(** [requirePermissions] lets an authenticated request pass exactly when
    the permissions of its effective role include every required one, and then
    attaches the context of that role; otherwise it answers 403, or 500 when
    the role is a name of [Object.prototype]. *)
Theorem requirePermissions_passes perms r u :
  r_user r = Some u → is_empty (u_userId u) = false →
  match getUserPermissions (effective_role u r) with
  | None => requirePermissions perms no_options r = respond 500 "Error checking permissions"
  | Some held =>
      (Forall (λ p, p ∈ held) perms →
         requirePermissions perms no_options r =
         Next (with_context {| ctx_userId := u_userId u; ctx_businessId := x_business_id r;
                               ctx_role := effective_role u r; ctx_permissions := held |} r)) ∧
      (¬ Forall (λ p, p ∈ held) perms →
         ∃ d, requirePermissions perms no_options r = respond 403 d)
  end.
Proof.
  intros Hu He. rewrite (requirePermissions_plain perms r u Hu He). unfold createContext.
  destruct (getUserPermissions _) as [held|]; [|done]. cbn [fmap option_fmap option_map ctx_permissions].
  rewrite <- (checkPermissions_allowed held perms).
  destruct (check_allowed _); (split; [|]); try done. intros _. eauto.
Qed.

Lemma requirePermissions_passes_witness :
  let u := {| u_id := "u1"; u_userId := "u1"; u_role := Some "user" |} in
  let r := with_user u blank_request in
  requirePermissions [CONNECT; READ_OWN] no_options r ≠ respond 403 EmptyString ∧
  ∃ d, requirePermissions [ADMIN] no_options r = respond 403 d.
Proof.
  intros u r. pose proof (requirePermissions_passes [CONNECT; READ_OWN] r u eq_refl eq_refl) as [H _].
  pose proof (requirePermissions_passes [ADMIN] r u eq_refl eq_refl) as [_ H'].
  split; [rewrite H by (apply (bool_decide_unpack _); vm_compute; exact I); discriminate|].
  apply H'. apply (bool_decide_unpack _). vm_compute. exact I.
Defined.

(** Which authentication ran decides whether the role is trusted:
    [requireBusinessAuth] attaches no role, so a client that sends
    [x-user-role: admin] passes every permission check behind it; after
    [requireAuth] on a stored account with a role the header changes nothing
    but what later code reads from it. *)
Theorem role_header_escalates verify find getb r r1 perms :
  (requireBusinessAuth verify find getb r = Next r1 → (∀ t uid, verify t = Some uid → is_empty uid = false) →
   x_user_role r = Some "admin" → ∃ r2, requirePermissions perms no_options r1 = Next r2) ∧
  (∀ h, requireAuth verify find r = Next r1 → (∀ uid, find uid ≠ Some EmptyString) →
   passes (requirePermissions perms no_options (with_role_header h r1)) =
   passes (requirePermissions perms no_options r1)).
Proof.
  split.
  - intros Ha Hv Hh. destruct (business_auth_user _ _ _ _ _ Ha) as (t & uid & b & bid & _ & Ht & _ & _ & _ & _ & _ & ->).
    rewrite (requirePermissions_plain perms _ {| u_id := uid; u_userId := uid; u_role := None |}) by (try done; by apply (Hv t)).
    unfold effective_role. cbn [u_role or_else x_user_role with_business with_user u_userId]. rewrite Hh.
    cbn [non_empty or_else default]. unfold createContext, Datatypes.id. cbn [getUserPermissions String.eqb Ascii.eqb Bool.eqb].
    cbn [fmap option_fmap option_map ctx_permissions].
    assert (check_allowed (checkPermissions all_permissions perms) = true) as ->; [|by eexists].
    apply checkPermissions_allowed, Forall_forall. intros p _. apply (bool_decide_unpack _). by destruct p.
  - intros h Ha Hf. unfold requireAuth in Ha. destruct (bearer _) as [t|]; [|done].
    destruct (verify t) as [uid|]; [|done]. destruct (find uid) as [ro|] eqn:Hr; [|done]. injection Ha as <-.
    unfold requirePermissions. cbn [r_user with_user with_role_header u_userId x_user_role u_role no_options checkOwnership customCheck].
    destruct (is_empty uid); [done|]. destruct ro as [|c ro]; [by destruct (Hf uid)|]. cbn [or_else default x_business_id].
    destruct (createContext _ _ _) as [c'|]; [|done]. cbn [negb]. by destruct (check_allowed _).
Qed.

Lemma role_header_escalates_witness :
  let r := {| authorization := Some "Bearer t"; x_user_role := Some "admin"; x_business_id := Some "b1";
              body := λ _, None; params := λ _, None; r_user := None; r_business := None; permissionContext := None |} in
  ∃ r1 r2, requireBusinessAuth (λ _, Some "u1") (λ _, Some "user")
             (λ i, Some {| b_id := i; b_userId := "u1"; suspended := false |}) r = Next r1 ∧
    requirePermissions [ADMIN; ADMIN_MANAGE_USERS] no_options r1 = Next r2.
Proof.
  intros r. eexists.
  assert (∀ (t uid : string), Some "u1" = Some uid → is_empty uid = false) as Hv by (by intros t uid [= <-]).
  destruct (proj1 (role_header_escalates (λ _, Some "u1") (λ _, Some "user")
             (λ i, Some {| b_id := i; b_userId := "u1"; suspended := false |}) r _ [ADMIN; ADMIN_MANAGE_USERS])
             eq_refl Hv eq_refl) as (r2 & H2).
  exists r2. split; [reflexivity|exact H2].
Defined.

(** Deleting an integration is safe and effective: whatever the request,
    the store only changes by the removal of one record, answered with 200,
    and then the bearer token belongs to the user who owns the business of
    that record; and a plain request of that owner does remove it. *)
Theorem delete_integration_own_only {J} verify find getb r (m : list (string * Integration J)) :
  (∀ x m', delete_integration verify find getb r m = (x, m') → m' ≠ m ∨ status x = 200 →
     ∃ i rec t uid bid b,
       params r "integrationId" = Some i ∧ map_get i m = Some rec ∧ m' = map_delete i m ∧ status x = 200 ∧
       bearer (authorization r) = Some t ∧ verify t = Some uid ∧
       extractBusinessId r = Some bid ∧ getb bid = Some b ∧ b_userId b = uid ∧ businessId rec = b_id b) ∧
  (∀ i rec t uid bid b,
     wf m → params r "integrationId" = Some i → is_empty i = false → map_get i m = Some rec →
     bearer (authorization r) = Some t → verify t = Some uid → is_empty uid = false → is_Some (find uid) →
     extractBusinessId r = Some bid → getb bid = Some b → b_userId b = uid → suspended b = false →
     is_empty (b_id b) = false → businessId rec = b_id b →
     params r "id" = None → params r "provider" = None → x_user_role r = None →
     (delete_integration verify find getb r m).2 = map_delete i m).
Proof.
  split.
  - intros x m' Hd Hch. unfold delete_integration in Hd.
    destruct (integration_guards verify find getb DISCONNECT_OWN "delete" m r) as [r'|y] eqn:Hg.
    2:{ injection Hd as <- <-. destruct Hch as [|Hch]; [done|].
        destruct (integration_guards_refusal _ _ _ _ _ _ _ _ Hg Hch). }
    destruct (integration_guards_next _ _ _ _ _ _ _ _ Hg) as (t & uid & b & bid & Hb & Hv & Hx & Hgb & Hu & Hp & Hr').
    unfold delete_handler in Hd. rewrite Hp, Hr' in Hd.
    destruct (params r "integrationId") as [i|] eqn:Hi; [|by injection Hd as <- <-; destruct Hch].
    destruct i as [|c i]; [by injection Hd as <- <-; destruct Hch|]. cbn [non_empty or_else] in Hd.
    destruct (List.find _ _) as [y|]; [|by injection Hd as <- <-; destruct Hch].
    unfold deleteById in Hd. destruct (map_get (String c i) m) as [rec|] eqn:Hm; [|by injection Hd as <- <-; destruct Hch].
    case_if_in Hd; [by injection Hd as <- <-; destruct Hch|]. injection Hd as <- <-.
    apply negb_false_iff, String.eqb_eq in Heqb0. by exists (String c i), rec, t, uid, bid, b.
  - intros i rec t uid bid b Hw Hi Hie Hm Hb Hv Hue Hf Hx Hgb Hu Hs Hbe Hr Hid Hpr Hro.
    unfold delete_integration, integration_guards, andThen, requireBusinessAuth, validateUserToken.
    destruct Hf as [ro Hf]. rewrite Hb, Hv, Hf, Hx, Hgb. cbn [u_id]. rewrite Hu, String.eqb_refl, Hs. cbn [negb].
    unfold requirePermissions. cbn [r_user with_business with_user u_userId]. rewrite Hue.
    cbn [u_role or_else x_user_role with_business with_user]. rewrite Hro. cbn [non_empty or_else default].
    unfold createContext, Datatypes.id. cbn [getUserPermissions String.eqb Ascii.eqb Bool.eqb fmap option_fmap option_map ctx_permissions].
    assert (check_allowed (checkPermissions user_permissions [DISCONNECT_OWN]) = true) as -> by done.
    cbn [negb with_context with_business with_user params checkOwnership customCheck].
    rewrite Hid, Hpr. cbn [non_empty or_else negb].
    unfold requirePolicy. cbn [r_user with_context with_business with_user u_userId r_business params u_role]. rewrite Hue, Hi.
    cbn [non_empty or_else default mbind option_bind fmap option_fmap option_map]. unfold getById. rewrite Hm. cbn [fmap option_fmap option_map].
    rewrite Hr, default_policy_allows_owner by done. cbn [negb].
    unfold delete_handler. cbn [params r_business with_context with_business with_user]. rewrite Hi.
    rewrite non_empty_Some, <- Hr by done. destruct (find_own m i rec Hw Hm) as [y ->].
    unfold deleteById. by rewrite Hm, String.eqb_refl.
Qed.

Lemma delete_integration_own_only_witness :
  let d b := {| c_userId := "u"; c_businessId := b; c_provider := "stripe"; c_externalId := "x";
                c_token := tt; c_metadata := tt |} in
  let m := (create "i2" 1 (d "b2") (create "i1" 1 (d "b1") []).2).2 in
  let r := {| authorization := Some "Bearer t"; x_user_role := None; x_business_id := Some "b1";
              body := λ _, None; params := λ k, if String.eqb k "integrationId" then Some "i1" else None;
              r_user := None; r_business := None; permissionContext := None |} in
  map fst (delete_integration (λ _, Some "u1") (λ _, Some "user")
             (λ i, Some {| b_id := i; b_userId := "u1"; suspended := false |}) r m).2 = ["i2"].
Proof.
  intros d m r.
  assert (wf m) as Hw.
  { apply map_set_wf; [|done]. apply map_set_wf; [|done]. split; [apply NoDup_nil_2|done]. }
  rewrite (proj2 (delete_integration_own_only (λ _, Some "u1") (λ _, Some "user")
             (λ i, Some {| b_id := i; b_userId := "u1"; suspended := false |}) r m)
             "i1" (create "i1" 1 (d "b1") []).1 "t" "u1" "b1" {| b_id := "b1"; b_userId := "u1"; suspended := false |}
             Hw eq_refl eq_refl eq_refl eq_refl eq_refl eq_refl ltac:(by eexists)
             eq_refl eq_refl eq_refl eq_refl eq_refl eq_refl eq_refl eq_refl eq_refl).
  reflexivity.
Defined.

(** ** The reading and connecting routes of [src/routes/integrations.ts]

    Tokens and metadata are lists of named values here.  The URL check of
    [zod] and [encodeURIComponent] are arguments, as is the shop domain of the
    environment; a body is the provider and the redirect it names. *)
Module IntegrationRoutes.

Inductive slug := stripe | razorpay | shopify.
Definition slug_text (s : slug) : string := match s with stripe => "stripe" | razorpay => "razorpay" | shopify => "shopify" end.
Inductive auth_type := oauth2 | api_key.
Inductive availability := available | coming_soon | deprecated.
Record IntegrationType := { name : string; type_slug : slug; authType : auth_type; type_status : availability }.

Definition AVAILABLE_INTEGRATIONS : list IntegrationType :=
  [{| name := "Stripe"; type_slug := stripe; authType := oauth2; type_status := available |};
   {| name := "Razorpay"; type_slug := razorpay; authType := api_key; type_status := available |};
   {| name := "Shopify"; type_slug := shopify; authType := oauth2; type_status := available |}].

Section Routes.
Context {V : Type}.
Abbreviation record := (Integration (list (string * V))).
Context (verifyToken : string → option string) (findUserById : string → option string) (getBusiness : string → option business).
Context (is_url : string → bool) (encodeURIComponent : string → string) (shopDomain : option string).

(** The members of the metadata that are shown, to the owner and on the
    public list. *)
Definition hidden (k : string) : bool := contains "token" k || contains "secret" k || contains "key" k.
Definition shown_metadata (l : list (string * V)) : list (string * V) := List.filter (λ kv, negb (hidden kv.1)) l.
Definition listed_metadata (l : list (string * V)) : list (string * V) :=
  List.filter (λ kv, negb (existsb (String.eqb kv.1) ["token"; "accessToken"; "refreshToken"])) l.

Record view := { v_id : string; v_provider : string; v_externalId : string; v_createdAt : Z; v_updatedAt : option Z; v_metadata : list (string * V) }.
Definition safe_view (x : record) : view :=
  {| v_id := id x; v_provider := provider x; v_externalId := externalId x; v_createdAt := createdAt x; v_updatedAt := Some (updatedAt x);
     v_metadata := shown_metadata (metadata x) |}.
Definition listed_view (x : record) : view :=
  {| v_id := id x; v_provider := provider x; v_externalId := externalId x; v_createdAt := createdAt x; v_updatedAt := None;
     v_metadata := listed_metadata (metadata x) |}.

(** [GET /]: [None] when nobody is signed in. *)
Definition index_route (user : option string) (m : list (string * record)) : list (IntegrationType * bool) * option (list view) :=
  match non_empty user with
  | None => (map (λ t, (t, false)) AVAILABLE_INTEGRATIONS, None)
  | Some u =>
      let connected := listByUserId u m in
      (map (λ t, (t, existsb (λ i, String.eqb (provider i) (slug_text (type_slug t))) connected)) AVAILABLE_INTEGRATIONS, Some (map listed_view connected))
  end.

(** The guards of [GET /connected] and [POST /connect], whose tenant is the
    business of the request. *)
Definition business_guards (perm : IntegrationPermission) (act : string) : request → outcome :=
  andThen (requireBusinessAuth verifyToken findUserById getBusiness)
    (andThen (requirePermissions [perm] no_options) (requirePolicy act "integration" DEFAULT_POLICY (λ r, b_id <$> r_business r))).

Definition connected_route (r : request) (m : list (string * record)) : result response (list view) :=
  match business_guards READ_CONNECTED "read" r with
  | Respond x => Err x
  | Next r => match r_business r with
              | None => Err {| status := 500; detail := "Failed to fetch connected integrations" |}
              | Some b => Ok (map safe_view (listByBusinessId (b_id b) m))
              end
  end.

Definition details_route (r : request) (m : list (string * record)) : result response view :=
  match integration_guards verifyToken findUserById getBusiness READ_OWN "read" m r with
  | Respond x => Err x
  | Next r =>
      match non_empty (params r "integrationId"), r_business r with
      | None, _ => Err {| status := 400; detail := "Integration ID is required" |}
      | _, None => Err {| status := 500; detail := "Failed to fetch integration details" |}
      | Some i, Some b =>
          match List.find (λ x, String.eqb (id x) i) (listByBusinessId (b_id b) m) with
          | None => Err {| status := 404; detail := "Integration not found or access denied" |}
          | Some x => Ok (safe_view x)
          end
      end
  end.

Definition generateAuthUrl (p : slug) (state : string) (redirectUri : option string) : string :=
  let baseUrl := default "http://localhost:3000/integrations/callback" (non_empty redirectUri) in
  match p with
  | stripe => "https://connect.stripe.com/oauth/authorize?client_id=mock_stripe_client_id&state=" +:+ state +:+ "&redirect_uri=" +:+ encodeURIComponent baseUrl +:+ "&scope=read_write"
  | shopify => "https://" +:+ default "example" (non_empty shopDomain) +:+ ".myshopify.com/admin/oauth/authorize?client_id=mock_shopify_client_id&state=" +:+ state +:+
               "&redirect_uri=" +:+ encodeURIComponent baseUrl +:+ "&scope=read_products,read_orders"
  | razorpay => baseUrl +:+ "?provider=razorpay&state=" +:+ state
  end.

Record connect_body := { cb_provider : option string; cb_redirectUri : option string }.
Definition parse_connect (b : connect_body) : option (slug * option string) :=
  match match cb_provider b with
        | Some "stripe" => Some stripe | Some "razorpay" => Some razorpay | Some "shopify" => Some shopify | _ => None
        end with
  | None => None
  | Some p => match cb_redirectUri b with Some u => if is_url u then Some (p, Some u) else None | None => Some (p, None) end
  end.

Record connect_answer := { ca_provider : slug; ca_authType : auth_type; ca_authUrl : string; ca_state : string; ca_expiresAt : Z }.

(** [now] and [now'] are the two readings of the clock. *)
Definition connect_route (now now' : Z) (b : connect_body) (r : request) (m : list (string * record)) : result response connect_answer :=
  match business_guards CONNECT "create" r with
  | Respond x => Err x
  | Next r =>
      match parse_connect b with
      | None => Err {| status := 400; detail := "Validation Error" |}
      | Some (p, redirectUri) =>
          match List.find (λ t, bool_decide (slug_text (type_slug t) = slug_text p)) AVAILABLE_INTEGRATIONS with
          | None => Err {| status := 404; detail := "Not Found" |}
          | Some t =>
              match type_status t, r_business r, r_user r with
              | available, Some biz, Some u =>
                  match List.find (λ i, String.eqb (provider i) (slug_text p)) (listByBusinessId (b_id biz) m) with
                  | Some _ => Err {| status := 409; detail := "Conflict" |}
                  | None =>
                      let state := slug_text p +:+ "_" +:+ u_userId u +:+ "_" +:+ show_Z now in
                      Ok {| ca_provider := p; ca_authType := authType t; ca_authUrl := generateAuthUrl p state redirectUri; ca_state := state;
                            ca_expiresAt := now' + 10 * 60 * 1000 |}
                  end
              | available, _, _ => Err {| status := 500; detail := "Failed to initiate connection" |}
              | _, _, _ => Err {| status := 400; detail := "Bad Request" |}
              end
          end
      end
  end.

(** *** Properties *)

Lemma business_guards_next p act r r' : business_guards p act r = Next r' →
  ∃ t uid b bid, bearer (authorization r) = Some t ∧ verifyToken t = Some uid ∧ extractBusinessId r = Some bid ∧
    getBusiness bid = Some b ∧ b_userId b = uid ∧ suspended b = false ∧ r_business r' = Some b ∧
    r_user r' = Some {| u_id := uid; u_userId := uid; u_role := None |}.
Proof.
  unfold business_guards, andThen. intros H.
  destruct (requireBusinessAuth _ _ _ _) as [r1|] eqn:E1; [|done].
  destruct (requirePermissions _ _ _) as [r2|] eqn:E2; [|done].
  destruct (business_auth_user _ _ _ _ _ E1) as (t & uid & b & bid & ? & ? & _ & ? & ? & ? & ? & ->).
  apply requirePermissions_next in E2 as [c ->]. apply requirePolicy_next in H as (u & -> & _).
  exists t, uid, b, bid. by split_and!.
Qed.

Lemma shown_not_hidden l : Forall (λ kv, hidden kv.1 = false) (shown_metadata l).
Proof. apply Forall_forall. intros kv Hin%list_elem_of_In. apply filter_In in Hin as [_ H]. by apply negb_true_iff. Qed.

Lemma of_business b (m : list (string * record)) x : x ∈ listByBusinessId b m → businessId x = b ∧ x ∈ map snd m.
Proof. intros Hin%list_elem_of_In. apply filter_In in Hin as [Hin ->%String.eqb_eq]. split; [done|by apply list_elem_of_In]. Qed.

(** What the two routes for businesses show is of the one business of the
    request, which the bearer of a valid token owns and which is not
    suspended, with no metadata under a name with [token], [secret] or
    [key] in it. *)
Theorem shown_integrations_own r m :
  ∀ views, connected_route r m = Ok views ∨ (∃ v, details_route r m = Ok v ∧ views = [v]) →
  ∃ t uid b bid, bearer (authorization r) = Some t ∧ verifyToken t = Some uid ∧ extractBusinessId r = Some bid ∧ getBusiness bid = Some b ∧
    b_userId b = uid ∧ Forall (λ v, (∃ x, x ∈ map snd m ∧ businessId x = b_id b ∧ v = safe_view x) ∧ Forall (λ kv, hidden kv.1 = false) (v_metadata v)) views.
Proof.
  intros views [H|(v & H & ->)].
  - unfold connected_route in H. destruct (business_guards _ _ r) as [r'|] eqn:E; [|done].
    apply business_guards_next in E as (t & uid & b & bid & H1 & H2 & H3 & H4 & H5 & _ & Hb & _). rewrite Hb in H. injection H as <-.
    exists t, uid, b, bid. split_and!; try done. apply Forall_forall. intros v Hv%list_elem_of_In. apply in_map_iff in Hv as (x & <- & Hx%list_elem_of_In).
    apply of_business in Hx as [Hx Hin]. split; [by exists x|]. apply shown_not_hidden.
  - unfold details_route in H. destruct (integration_guards _ _ _ _ _ _ _) as [r'|] eqn:E; [|done].
    destruct (integration_guards_next _ _ _ _ _ _ _ _ E) as (t & uid & b & bid & H1 & H2 & H3 & H4 & H5 & Hp & Hb). rewrite Hb in H.
    destruct (non_empty (params r' "integrationId")) as [i|]; [|done]. destruct (List.find _ _) as [x|] eqn:Ef; [|done]. injection H as <-.
    exists t, uid, b, bid. split_and!; try done. apply Forall_singleton. apply List.find_some in Ef as [Hx _]. apply list_elem_of_In, of_business in Hx as [Hx Hin].
    split; [by exists x|]. apply shown_not_hidden.
Qed.

(** A connection is offered only to the owner of the business, for a
    provider it has not connected, and the state names provider, user and
    time. *)
Theorem offered_connection_is_new now now' body r m a : connect_route now now' body r m = Ok a →
  ∃ t uid b bid, bearer (authorization r) = Some t ∧ verifyToken t = Some uid ∧ extractBusinessId r = Some bid ∧ getBusiness bid = Some b ∧ b_userId b = uid ∧
    Forall (λ x, provider x ≠ slug_text (ca_provider a)) (listByBusinessId (b_id b) m) ∧
    ca_state a = slug_text (ca_provider a) +:+ "_" +:+ uid +:+ "_" +:+ show_Z now ∧ cb_provider body = Some (slug_text (ca_provider a)).
Proof.
  unfold connect_route. destruct (business_guards _ _ r) as [r'|] eqn:E; [|done].
  apply business_guards_next in E as (t & uid & b & bid & H1 & H2 & H3 & H4 & H5 & _ & Hb & Hu). rewrite Hb, Hu.
  destruct (parse_connect body) as [[p uri]|] eqn:Ep; [|done]. destruct (List.find (λ t, bool_decide _) _) as [ty|]; [|done].
  destruct (type_status ty); try done. destruct (List.find _ (listByBusinessId _ _)) eqn:Ef; [done|]. intros [= <-]. cbn [ca_state ca_provider u_userId].
  exists t, uid, b, bid. split_and!; try done.
  - apply Forall_forall. intros x Hx%list_elem_of_In Heq. apply (List.find_none _ _ Ef) in Hx. by rewrite Heq, String.eqb_refl in Hx.
  - unfold parse_connect in Ep. destruct (match cb_provider body with Some _ => _ | None => None end) as [q|] eqn:Eq; [|done].
    assert (q = p) as -> by (destruct (cb_redirectUri body) as [u|]; [destruct (is_url u); [by injection Ep|done]|by injection Ep]).
    clear -Eq. repeat case_match; try done; injection Eq as <-; by subst.
Qed.
End Routes.

(** The filter knows lower case only: the token names of the public list
    pass it. *)
Example camel_case_tokens_are_shown :
  shown_metadata [("accessToken", 1); ("refreshToken", 2); ("apiKey", 3); ("access_token", 4); ("shop", 5)] =
  [("accessToken", 1); ("refreshToken", 2); ("apiKey", 3); ("shop", 5)].
Proof. reflexivity. Qed.

(** Where a provider uses keys, the address of the answer is the caller's. *)
Example razorpay_url_is_the_callers :
  generateAuthUrl (λ s, s) None razorpay "s" (Some "https://elsewhere.example") = "https://elsewhere.example?provider=razorpay&state=s".
Proof. reflexivity. Qed.

Lemma shown_integrations_own_witness :
  let d := {| c_userId := "u1"; c_businessId := "b1"; c_provider := "stripe"; c_externalId := "x"; c_token := []; c_metadata := [("secretKey", 1); ("shop", 2)] |} in
  let m := (create "i1" 1 d []).2 in
  let r := {| authorization := Some "Bearer t"; x_user_role := None; x_business_id := Some "b1"; body := λ _, None; params := λ _, None;
              r_user := None; r_business := None; permissionContext := None |} in
  let getb i := Some {| b_id := i; b_userId := "u1"; suspended := false |} in
  connected_route (λ _, Some "u1") (λ _, Some "user") getb r m = Ok [safe_view (create "i1" 1 d []).1] ∧
  ∃ t uid b bid, bearer (authorization r) = Some t ∧ (λ _ : string, Some "u1") t = Some uid ∧ extractBusinessId r = Some bid ∧ getb bid = Some b ∧ b_userId b = uid ∧
    Forall (λ v, (∃ x, x ∈ map snd m ∧ businessId x = b_id b ∧ v = safe_view x) ∧ Forall (λ kv, hidden kv.1 = false) (v_metadata v)) [safe_view (create "i1" 1 d []).1].
Proof.
  intros d m r getb. assert (connected_route (λ _, Some "u1") (λ _, Some "user") getb r m = Ok [safe_view (create "i1" 1 d []).1]) as H by reflexivity.
  split; [exact H|apply (shown_integrations_own (λ _, Some "u1") (λ _, Some "user") getb r m _ (or_introl H))].
Defined.

Lemma offered_connection_is_new_witness :
  let r := {| authorization := Some "Bearer t"; x_user_role := None; x_business_id := Some "b1"; body := λ _, None; params := λ _, None;
              r_user := None; r_business := None; permissionContext := None |} in
  let getb i := Some {| b_id := i; b_userId := "u1"; suspended := false |} in
  let b := {| cb_provider := Some "stripe"; cb_redirectUri := None |} in
  ∃ a, connect_route (V := Z) (λ _, Some "u1") (λ _, Some "user") getb (λ _, true) (λ s, s) None 7 8 b r [] = Ok a ∧
  ∃ t uid biz bid, bearer (authorization r) = Some t ∧ (λ _ : string, Some "u1") t = Some uid ∧ extractBusinessId r = Some bid ∧ getb bid = Some biz ∧ b_userId biz = uid ∧
    Forall (λ x, provider x ≠ slug_text (ca_provider a)) (listByBusinessId (J := list (string * Z)) (b_id biz) []) ∧
    ca_state a = slug_text (ca_provider a) +:+ "_" +:+ uid +:+ "_" +:+ show_Z 7 ∧ cb_provider b = Some (slug_text (ca_provider a)).
Proof.
  intros r getb b. eexists. split; [reflexivity|].
  apply (offered_connection_is_new (V := Z) (λ _, Some "u1") (λ _, Some "user") getb (λ _, true) (λ s, s) None 7 8 b r []). reflexivity.
Defined.
End IntegrationRoutes.
