(* ===== verification/RazorpayConnect.v ===== *)
(** * Connecting Razorpay: [src/services/integrations/razorpay/connect.ts],
    [disconnect.ts] and the store [src/repositories/integrations.ts].

    The handlers behind [requireBusinessAuth], cut where [connectRazorpay]
    awaits the verification of the credentials.  URL parsing, zod's [url()]
    and SHA-256 are parameters. *)

From S2P Require Import Prelude Numeric Hashing JsString RetryBudget OutboundClient OAuthStates.
From S2P Require Import AccessControl.
Import OAuthStates.Razorpay.
#[local] Open Scope Z_scope.

(** ** The array of connected integrations *)

(** [meta] as [connectRazorpay], the only caller of [create], fills it. *)
Record razorpay_meta := { apiKeyId : string; apiKeySecret : string; credentialFingerprint : string; verifiedAt : Z }.

Record ConnectedIntegration := {
  ci_id : string; ci_provider : string; ci_userId : string; ci_businessId : string;
  ci_meta : razorpay_meta; ci_createdAt : Z
}.

Abbreviation connected := (list ConnectedIntegration).

Definition create (fresh : string) (now : Z) (provider user biz : string) (meta : razorpay_meta) (m : connected)
  : ConnectedIntegration * connected :=
  let rec := {| ci_id := fresh; ci_provider := provider; ci_userId := user; ci_businessId := biz;
                ci_meta := meta; ci_createdAt := now |} in
  (rec, m ++ [rec]).

Definition findById (i : string) (m : connected) : option ConnectedIntegration :=
  List.find (λ s, String.eqb (ci_id s) i) m.

Definition findByUserAndProvider (u p : string) (m : connected) : option ConnectedIntegration :=
  List.find (λ s, String.eqb (ci_userId s) u && String.eqb (ci_provider s) p) m.

Definition findByBusinessAndProvider (b p : string) (m : connected) : option ConnectedIntegration :=
  List.find (λ s, String.eqb (ci_businessId s) b && String.eqb (ci_provider s) p) m.

Definition listByUser (u : string) (m : connected) : list ConnectedIntegration :=
  List.filter (λ s, String.eqb (ci_userId s) u) m.

Definition listByBusiness (b : string) (m : connected) : list ConnectedIntegration :=
  List.filter (λ s, String.eqb (ci_businessId s) b) m.

(** [findIndex] and [splice(idx, 1)]. *)
Fixpoint deleteById (i : string) (m : connected) : bool * connected :=
  match m with
  | [] => (false, [])
  | s :: m => if String.eqb (ci_id s) i then (true, m) else let '(ok, m) := deleteById i m in (ok, s :: m)
  end.

(** ** Connecting with an API key *)

Definition MAX_CREDENTIAL_LENGTH : Z := 256.

(** [None] for a value that is not a string. *)
Definition parseCredential (value : option string) : option string :=
  match value with
  | None => None
  | Some s =>
      if is_empty s || (MAX_CREDENTIAL_LENGTH <? Z.of_nat (String.length s)) then None
      else if negb (String.eqb (trim s) s) then None
      else if has_control s then None
      else Some s
  end.

(** What Razorpay answers: the status, and whether the body is the JSON
    payload [isRazorpayVerificationPayload] recognises. *)
Record http := { h_status : Z; h_payload : bool }.

Definition http_ok (h : http) : bool := (200 <=? h_status h) && (h_status h <? 300).

Section Connect.
Context (sha256 : string → string).

Definition fingerprintCredentials (k s : string) : string := sha256 (k +:+ ":" +:+ s).

(** Up to the [await]: a response, or the credentials to verify. *)
Definition connect_begin (user biz k s : option string) (m : connected) : response + (string * string * string * string) :=
  match non_empty user, non_empty biz with
  | Some user, Some biz =>
      match parseCredential k, parseCredential s with
      | Some k, Some s =>
          match findByBusinessAndProvider biz "razorpay" m with
          | Some _ => inl {| status := 409; detail := "Razorpay integration already connected" |}
          | None => inr (user, biz, k, s)
          end
      | _, _ => inl {| status := 400; detail := "apiKeyId and apiKeySecret must be non-empty strings without surrounding whitespace" |}
      end
  | _, _ => inl {| status := 401; detail := "Unauthorized" |}
  end.

(** After it. *)
Definition connect_finish {E} (fresh : string) (now : Z) (user biz k s : string) (r : result (client_error E) http)
    (m : connected) : response * connected :=
  match r with
  | Err (GlobalRetryBudgetExceeded _ _ _) => ({| status := 503; detail := "Global outbound retry budget exhausted" |}, m)
  | Err (Thrown _) => ({| status := 502; detail := "Failed to reach Razorpay API" |}, m)
  | Ok h =>
      if negb (http_ok h) then
        (if (h_status h =? 401) || (h_status h =? 403)
         then {| status := 400; detail := "Invalid Razorpay credentials" |}
         else {| status := 502; detail := "Razorpay credential verification failed" |}, m)
      else if negb (h_payload h) then ({| status := 502; detail := "Unexpected Razorpay verification response" |}, m)
      else
        let '(record, m) :=
          create fresh now "razorpay" user biz
            {| apiKeyId := k; apiKeySecret := s; credentialFingerprint := fingerprintCredentials k s; verifiedAt := now |} m in
        ({| status := 201; detail := ci_id record |}, m)
  end.

(** One request, nothing else running meanwhile; [fetch k s] are the answers
    of the verification with these credentials. *)
Definition connectRazorpay {E} (fetch : string → string → Z → result E http) (env : Z → retry_env) (draw : Z → Z)
    (fresh : string) (now : Z) (user biz k s : option string) (m : connected) (g : Global.budget)
  : response * connected * Global.budget :=
  match connect_begin user biz k s m with
  | inl x => (x, m, g)
  | inr (user, biz, k, s) =>
      let '(r, g, _) := executeWithRetry (fetch k s) (λ h, DEFAULT_SHOULD_RETRY (h_status h)) caller_options env draw g in
      (connect_finish fresh now user biz k s r m, g)
  end.

(** ** Disconnecting *)
Definition disconnectRazorpay (user biz id : option string) (m : connected) : response * connected :=
  match non_empty user, non_empty biz with
  | Some _, Some biz =>
      match non_empty id with
      | None => ({| status := 400; detail := "id is required" |}, m)
      | Some i =>
          match findById i m with
          | None => ({| status := 404; detail := "Integration not found" |}, m)
          | Some rec =>
              if negb (String.eqb (ci_provider rec) "razorpay") || negb (String.eqb (ci_businessId rec) biz)
              then ({| status := 404; detail := "Integration not found" |}, m)
              else match deleteById i m with
                   | (false, m) => ({| status := 500; detail := "Failed to delete integration" |}, m)
                   | (true, m) => ({| status := 200; detail := "ok" |}, m)
                   end
          end
      end
  | _, _ => ({| status := 401; detail := "Unauthorized" |}, m)
  end.
End Connect.

(** ** Starting the OAuth flow *)

(** The parts of a parsed URL the code reads. *)
Record url := { protocol : string; origin : string; href : string }.

Section Initiate.
Context (parse_url : string → option url) (zod_url : string → bool).

(** [RAZORPAY_ALLOWED_REDIRECT_ORIGINS], split, trimmed, without blanks. *)
Definition getAllowedOrigins (raw : option string) : list string :=
  List.filter (λ s, negb (is_empty s)) (map trim (split_on "," (default EmptyString raw))).

Inductive redirect_error := NotAbsolute | BadScheme | OriginNotAllowed (origin : string).

Definition validateRedirectUrl (allowed : option string) (rawUrl : string) : result redirect_error url :=
  match parse_url rawUrl with
  | None => Err NotAbsolute
  | Some parsed =>
      if negb (String.eqb (protocol parsed) "https:") && negb (String.eqb (protocol parsed) "http:") then Err BadScheme
      else if negb (includes (origin parsed) (getAllowedOrigins allowed)) then Err (OriginNotAllowed (origin parsed))
      else Ok parsed
  end.

(** [token] is the fresh state token; the answer carries it with its expiry
    time, in the body and inside the authorization URL. *)
Definition initiateRazorpayConnect (allowed clientId : option string) (token : string) (now : Z)
    (user redirectUrl : option string) (s : oauthStateStore) : response * option (string * Z) * oauthStateStore :=
  match non_empty user with
  | None => ({| status := 401; detail := "Unauthorized" |}, None, s)
  | Some user =>
      match redirectUrl with
      | None => ({| status := 400; detail := "Validation error" |}, None, s)
      | Some raw =>
          if negb (zod_url raw) then ({| status := 400; detail := "Validation error" |}, None, s)
          else match validateRedirectUrl allowed raw with
          | Err _ => ({| status := 400; detail := "redirectUrl" |}, None, s)
          | Ok u =>
              let s := <[token := {| userId := user; redirectUrl := href u; createdAt := now;
                                     expiresAt := now + STATE_TTL_MS |}]> s in
              match non_empty clientId with
              | None => ({| status := 503; detail := "Razorpay OAuth is not configured" |}, None, delete token s)
              | Some _ => ({| status := 200; detail := "" |}, Some (token, now + STATE_TTL_MS), s)
              end
          end
      end
  end.

(** The two operations of the flow, and the store after a sequence of them. *)
Inductive flow_op :=
| Initiate (token : string) (now : Z) (user redirectUrl : option string)
| Validate (now : Z) (rawState : option string).

Definition flow_step (allowed clientId : option string) (o : flow_op) (s : oauthStateStore) : oauthStateStore :=
  match o with
  | Initiate token now user redirect => (initiateRazorpayConnect allowed clientId token now user redirect s).2
  | Validate now raw => (validateRazorpayState now raw s).2
  end.

Definition flow_run (allowed clientId : option string) (os : list flow_op) : oauthStateStore :=
  fold_left (λ s o, flow_step allowed clientId o s) os ∅.

(** A well-formed token, as [generateStateToken] makes them. *)
Definition token_ok (t : string) : bool :=
  negb (is_empty t) && (Z.of_nat (String.length t) <=? STATE_MAX_LENGTH) && negb (has_control t).

(** ** Lemmas *)
Lemma validate_spec now t s :
  token_ok t = true →
  validateRazorpayState now (Some t) s =
  (match s !! t with Some e => if now <=? expiresAt e then Ok e else Err InvalidState | None => Err InvalidState end,
   delete t s).
Proof.
  intros [[Ht1 Ht2]%andb_true_iff Ht3]%andb_true_iff. unfold validateRazorpayState.
  destruct t as [|c t]; [done|]. apply negb_true_iff in Ht3. rewrite Ht3.
  assert ((STATE_MAX_LENGTH <? Z.of_nat (String.length (String c t))) = false) as -> by lia.
  unfold consumeStateToken. destruct (s !! String c t) as [e|] eqn:He; [|done].
  rewrite (Z.leb_antisym (expiresAt e) now). by destruct (expiresAt e <? now).
Qed.

Lemma validate_subset now raw s : (validateRazorpayState now raw s).2 ⊆ s.
Proof.
  unfold validateRazorpayState, consumeStateToken. destruct raw as [[|c t]|]; [done| |done].
  repeat case_if; [done|done|]. destruct (s !! String c t) as [e|]; [destruct (expiresAt e <? now)|];
    cbn; apply delete_subseteq.
Qed.

(** Where the entries of the store come from. *)
Definition entry_origin (allowed : option string) (os : list flow_op) (t : string) (e : OAuthStateEntry) : Prop :=
  ∃ now redirect u, Initiate t now (Some (userId e)) (Some redirect) ∈ os ∧ is_empty (userId e) = false ∧
    validateRedirectUrl allowed redirect = Ok u ∧ redirectUrl e = href u ∧ expiresAt e = now + STATE_TTL_MS.

Lemma flow_origins allowed clientId os t e :
  flow_run allowed clientId os !! t = Some e → entry_origin allowed os t e.
Proof.
  revert t e. induction os as [|o os IH] using rev_ind; intros t e; [done|].
  unfold flow_run. rewrite fold_left_app. cbn [fold_left]. change (fold_left _ os ∅) with (flow_run allowed clientId os).
  assert (Hold : flow_run allowed clientId os !! t = Some e → entry_origin allowed (os ++ [o]) t e).
  { intros He%IH. destruct He as (now & r & u & Hin & ?). exists now, r, u. split; [apply elem_of_app; by left|done]. }
  destruct o as [tok now user redirect|now raw]; cbn [flow_step].
  - unfold initiateRazorpayConnect. destruct user as [[|c user]|]; cbn [non_empty or_else]; [exact Hold| |exact Hold].
    destruct redirect as [raw|]; [|exact Hold]. case_if; [exact Hold|].
    destruct (validateRedirectUrl allowed raw) as [u|] eqn:Hv; [|exact Hold].
    destruct (non_empty clientId); cbn [snd].
    + destruct (decide (tok = t)) as [->|]; [rewrite lookup_insert_eq|by rewrite lookup_insert_ne].
      intros [= <-]. exists now, raw, u. split_and!; try done. apply elem_of_app. right. by apply list_elem_of_singleton.
    + destruct (decide (tok = t)) as [->|]; [by rewrite lookup_delete_eq|]. by rewrite lookup_delete_ne, lookup_insert_ne.
  - intros Hl. apply Hold. by eapply lookup_weaken, validate_subset.
Qed.
End Initiate.

(** ** Sequences of requests *)

(** The requests of the two routes, one after the other or overlapping: an
    API-key connect ends in its own [Finish], for whatever verified
    credentials [connect_begin] let through. *)
Inductive op :=
| ConnectWhole (fresh : string) (now : Z) (user biz k s : option string) (r : result (client_error unit) http)
| Disconnect (user biz id : option string).

Definition connect_whole sha256 fresh now user biz k s (r : result (client_error unit) http) (m : connected)
  : response * connected :=
  match connect_begin user biz k s m with
  | inl x => (x, m)
  | inr (user, biz, k, s) => connect_finish sha256 fresh now user biz k s r m
  end.

Definition op_step (sha256 : string → string) (o : op) (m : connected) : response * connected :=
  match o with
  | ConnectWhole fresh now user biz k s r => connect_whole sha256 fresh now user biz k s r m
  | Disconnect user biz id => disconnectRazorpay user biz id m
  end.

Definition ops_run sha256 (os : list op) (m : connected) : connected :=
  fold_left (λ m o, (op_step sha256 o m).2) os m.

Definition razorpay_of (b : string) (m : connected) : list ConnectedIntegration :=
  List.filter (λ s, String.eqb (ci_businessId s) b && String.eqb (ci_provider s) "razorpay") m.

(** ** Lemmas on the store *)
Lemma delete_sublist i m : sublist (deleteById i m).2 m.
Proof.
  induction m as [|s m IH]; cbn; [done|]. case_if; [by constructor|].
  destruct (deleteById i m). cbn in *. by constructor.
Qed.

Lemma delete_splits i m rec :
  findById i m = Some rec → ∃ a b, m = a ++ rec :: b ∧ deleteById i m = (true, a ++ b) ∧ ci_id rec = i.
Proof.
  induction m as [|s m IH]; cbn; [done|]. destruct (String.eqb_spec (ci_id s) i) as [He|Hn].
  - intros [= <-]. by exists [], m.
  - intros Hf. destruct (IH Hf) as (a & b & -> & Hd & Hi). exists (s :: a), b. by rewrite Hd.
Qed.

Lemma find_none_filter b m : findByBusinessAndProvider b "razorpay" m = None ↔ razorpay_of b m = [].
Proof.
  unfold findByBusinessAndProvider, razorpay_of. induction m as [|s m IH]; cbn; [done|]. by case_if.
Qed.

Lemma connect_begin_inr user biz k s m u b k' s' :
  connect_begin user biz k s m = inr (u, b, k', s') →
  user = Some u ∧ biz = Some b ∧ is_empty u = false ∧ is_empty b = false ∧
  parseCredential k = Some k' ∧ parseCredential s = Some s' ∧ razorpay_of b m = [].
Proof.
  unfold connect_begin. destruct user as [[|c1 user]|]; [done| |done].
  destruct biz as [[|c2 biz]|]; [done| |done]. cbn [non_empty or_else].
  destruct (parseCredential k) as [k1|]; [|done]. destruct (parseCredential s) as [s1|]; [|done].
  destruct (findByBusinessAndProvider _ _ m) eqn:Hf; [done|]. intros [= <- <- <- <-].
  by apply find_none_filter in Hf.
Qed.

Lemma connect_begin_inl user biz k s m x : connect_begin user biz k s m = inl x → status x ≠ 201.
Proof.
  unfold connect_begin. destruct (non_empty user), (non_empty biz); try by intros [= <-].
  destruct (parseCredential k), (parseCredential s); try by intros [= <-].
  destruct (findByBusinessAndProvider _ _ m); by intros [= <-].
Qed.

Lemma connect_finish_cases {E} sha256 fresh now u b k s (r : result (client_error E) http) m x m' :
  connect_finish sha256 fresh now u b k s r m = (x, m') →
  (m' = m ∧ status x ≠ 201 ∧ ∀ h, r = Ok h → http_ok h = true → h_payload h = false) ∨
  (∃ h, r = Ok h ∧ http_ok h = true ∧ h_payload h = true ∧ status x = 201 ∧ detail x = fresh ∧
        m' = m ++ [{| ci_id := fresh; ci_provider := "razorpay"; ci_userId := u; ci_businessId := b;
                      ci_meta := {| apiKeyId := k; apiKeySecret := s;
                                    credentialFingerprint := fingerprintCredentials sha256 k s; verifiedAt := now |};
                      ci_createdAt := now |}]).
Proof.
  unfold connect_finish. destruct r as [h|[e|? ? ?]].
  - destruct (http_ok h) eqn:Ho; cbn [negb].
    + destruct (h_payload h) eqn:Hp; cbn [negb]; intros [= <- <-]; [right; by exists h|left].
      split_and!; [done|done|]. intros h' [= <-]. done.
    + intros [= <- <-]. left. split_and!; [done|by case_if|]. intros h' [= <-]. by rewrite Ho.
  - intros [= <- <-]. by left.
  - intros [= <- <-]. by left.
Qed.

Lemma op_step_one sha256 o m b :
  (length (razorpay_of b m) ≤ 1)%nat → (length (razorpay_of b (op_step sha256 o m).2) ≤ 1)%nat.
Proof.
  intros Hm. destruct o as [fresh now user biz k s r|user biz i]; cbn [op_step].
  - unfold connect_whole. destruct (connect_begin user biz k s m) as [x|[[[u b1] k1] s1]] eqn:Hb; [done|].
    apply connect_begin_inr in Hb as (_ & _ & _ & _ & _ & _ & Hnone).
    destruct (connect_finish sha256 fresh now u b1 k1 s1 r m) as [x m'] eqn:Hf.
    apply connect_finish_cases in Hf as [(-> & _)|(h & _ & _ & _ & _ & _ & ->)]; [done|]. cbn [snd].
    unfold razorpay_of in *. rewrite List.filter_app, length_app. cbn.
    destruct (String.eqb_spec b1 b) as [<-|]; cbn; [rewrite Hnone; cbn; lia|lia].
  - assert (sublist (disconnectRazorpay user biz i m).2 m) as Hs.
    { unfold disconnectRazorpay. destruct (non_empty user), (non_empty biz); try done.
      destruct (non_empty i) as [i'|]; [|done]. destruct (findById i' m); [|done]. case_if; [done|].
      pose proof (delete_sublist i' m). by destruct (deleteById i' m) as [[] m']. }
    apply (Window.sublist_list_filter (λ s, String.eqb (ci_businessId s) b && String.eqb (ci_provider s) "razorpay")) in Hs.
    apply sublist_length in Hs. unfold razorpay_of in *. lia.
Qed.

(** ** Properties *)

(** A connect stores a record and answers 201 exactly when the caller is
    authenticated with a business that has no Razorpay integration, both
    credentials are well formed, and one of at most three calls of Razorpay
    with these credentials returned a 2xx answer with the expected payload
    after retryable failures only; in every other case the store is left as
    it was. *)
Theorem connect_verifies_credentials {E} sha256 (fetch : string → string → Z → result E http) env draw fresh now
    user biz k s m g :
  let '(x, m', _) := connectRazorpay sha256 fetch env draw fresh now user biz k s m g in
  (status x ≠ 201 ∧ m' = m) ∨
  (status x = 201 ∧ ∃ u b k' s' n h rec,
     user = Some u ∧ biz = Some b ∧ is_empty u = false ∧ is_empty b = false ∧
     parseCredential k = Some k' ∧ parseCredential s = Some s' ∧ razorpay_of b m = [] ∧
     0 ≤ n ≤ 2 ∧ fetch k' s' n = Ok h ∧ http_ok h = true ∧ h_payload h = true ∧
     (∀ i, 0 ≤ i < n → is_failure (λ h, DEFAULT_SHOULD_RETRY (h_status h)) (fetch k' s' i) = true) ∧
     m' = m ++ [rec] ∧ ci_userId rec = u ∧ ci_businessId rec = b ∧ ci_provider rec = "razorpay" ∧
     apiKeyId (ci_meta rec) = k' ∧ apiKeySecret (ci_meta rec) = s').
Proof.
  unfold connectRazorpay. destruct (connect_begin user biz k s m) as [x|[[[u b] k'] s']] eqn:Hb.
  { left. split; [|done]. by apply connect_begin_inl in Hb. }
  apply connect_begin_inr in Hb as (-> & -> & Hu & Hbe & Hk & Hs & Hnone).
  pose proof (retry_loop_ends (fetch k' s') (λ h, DEFAULT_SHOULD_RETRY (h_status h)) caller_options env draw 2 0 g) as He.
  unfold executeWithRetry. change (Z.to_nat (o_maxRetries caller_options)) with 2%nat.
  destruct (retry_loop _ _ _ _ _ 2 0 g) as [[r g1] slept]. destruct He as (Hn & Hfail & Hend).
  destruct (connect_finish sha256 fresh now u b k' s' r m) as [x m'] eqn:Hf.
  apply connect_finish_cases in Hf as [(-> & Hx & _)|(h & -> & Ho & Hp & Hx & _ & ->)]; [by left|right].
  split; [done|]. destruct Hend as [[Hr _]|((? & ? & ? & [=]) & _)].
  exists u, b, k', s', (Z.of_nat (length slept)), h. eexists. split_and!; try done; try lia.
  rewrite Z.add_0_l in Hr. destruct (fetch k' s' (Z.of_nat (length slept))); by inversion Hr.
Qed.

(** With requests that do not overlap, a business has at most one Razorpay
    integration. *)
Theorem one_razorpay_per_business sha256 os b : (length (razorpay_of b (ops_run sha256 os [])) ≤ 1)%nat.
Proof.
  unfold ops_run. induction os as [|o os IH] using rev_ind; [cbn; lia|].
  rewrite fold_left_app. by apply op_step_one.
Qed.

(** Two connects of one business that both pass the check before either is
    verified are both stored; deleting one then leaves the other. *)
Theorem overlapping_connects_both_stored sha256 user b k1 s1 k2 s2 k1' s1' k2' s2' f1 f2 now1 now2 m
    (r1 r2 : result (client_error unit) http) h1 h2 :
  connect_begin (Some user) (Some b) k1 s1 m = inr (user, b, k1', s1') →
  connect_begin (Some user) (Some b) k2 s2 m = inr (user, b, k2', s2') →
  r1 = Ok h1 → http_ok h1 = true → h_payload h1 = true → r2 = Ok h2 → http_ok h2 = true → h_payload h2 = true →
  let m2 := (connect_finish sha256 f2 now2 user b k2' s2' r2 (connect_finish sha256 f1 now1 user b k1' s1' r1 m).2).2 in
  map ci_id (razorpay_of b m2) = [f1; f2].
Proof.
  intros H1 _ -> Ho1 Hp1 -> Ho2 Hp2. apply connect_begin_inr in H1 as (_ & _ & _ & _ & _ & _ & Hnone).
  cbn. rewrite Ho1, Ho2. cbn. rewrite Hp1, Hp2. cbn. unfold razorpay_of in *.
  rewrite !List.filter_app, Hnone. cbn. by rewrite String.eqb_refl.
Qed.

(** A state that validates was issued to the user it names at most ten
    minutes before, for a redirect whose origin is on the allow-list; and it
    does not validate again. *)
Theorem validated_state_was_initiated parse_url zod_url allowed clientId os now raw e s' :
  validateRazorpayState now (Some raw) (flow_run parse_url zod_url allowed clientId os) = (Ok e, s') →
  (∃ now0 redirect u,
     Initiate raw now0 (Some (userId e)) (Some redirect) ∈ os ∧ is_empty (userId e) = false ∧
     parse_url redirect = Some u ∧ redirectUrl e = href u ∧ origin u ∈ getAllowedOrigins allowed ∧
     (protocol u = "https:" ∨ protocol u = "http:") ∧ now ≤ now0 + STATE_TTL_MS) ∧
  (∀ now', (validateRazorpayState now' (Some raw) s').1 = Err InvalidState).
Proof.
  intros Hv. assert (token_ok raw = true) as Ht.
  { unfold validateRazorpayState in Hv. unfold token_ok. destruct raw as [|c raw]; [done|].
    destruct (STATE_MAX_LENGTH <? _) eqn:Hl; [done|]. destruct (has_control _); [done|].
    cbn [is_empty negb]. by assert ((Z.of_nat (String.length (String c raw)) <=? STATE_MAX_LENGTH) = true) as -> by lia. }
  rewrite validate_spec in Hv by done. destruct (_ !! raw) as [e0|] eqn:He; [|done].
  destruct (now <=? expiresAt e0) eqn:Hle; [|done]. injection Hv as -> <-. split.
  - apply flow_origins in He as (now0 & redirect & u & Hin & Hu & Hval & Hr & Hx). exists now0, redirect, u.
    unfold validateRedirectUrl in Hval. destruct (parse_url redirect) as [u'|] eqn:Hp; [|done].
    destruct (negb (String.eqb (protocol u') "https:") && negb (String.eqb (protocol u') "http:")) eqn:Hs; [done|].
    destruct (includes (origin u') (getAllowedOrigins allowed)) eqn:Ho; [|done]. injection Hval as ->.
    split_and!; try done; [by apply includes_spec| |lia].
    apply andb_false_iff in Hs as [?%negb_false_iff%String.eqb_eq|?%negb_false_iff%String.eqb_eq]; auto.
  - intros now'. rewrite validate_spec by done. by rewrite lookup_delete_eq.
Qed.

(** The state an initiation hands out validates, for its user and redirect,
    until its ten minutes are over, whatever else the store holds. *)
Theorem initiated_state_validates parse_url zod_url allowed clientId token now user redirect s x t exp s1 now' :
  token_ok token = true →
  initiateRazorpayConnect parse_url zod_url allowed clientId token now user redirect s = (x, Some (t, exp), s1) →
  status x = 200 ∧ t = token ∧ exp = now + STATE_TTL_MS ∧
  ∃ uid raw u, user = Some uid ∧ redirect = Some raw ∧ validateRedirectUrl parse_url allowed raw = Ok u ∧
    (validateRazorpayState now' (Some t) s1).1 =
    if now' <=? exp
    then Ok {| userId := uid; redirectUrl := href u; createdAt := now; expiresAt := exp |}
    else Err InvalidState.
Proof.
  intros Ht. unfold initiateRazorpayConnect. destruct user as [[|c user]|]; [done| |done]. cbn [non_empty or_else].
  destruct redirect as [raw|]; [|done]. destruct (zod_url raw); [|done]. cbn [negb].
  destruct (validateRedirectUrl parse_url allowed raw) as [u|] eqn:Hv; [|done].
  destruct (non_empty clientId); [|done]. intros [= <- <- <- <-].
  split_and!; [done|done|done|]. exists (String c user), raw, u. split_and!; [done|done|done|].
  rewrite validate_spec by done. by rewrite lookup_insert_eq.
Qed.

(** A disconnect removes at most one record, a Razorpay integration of the
    caller's business with the requested id, and answers 200 exactly then. *)
Theorem disconnect_own_razorpay user biz id m :
  let '(x, m') := disconnectRazorpay user biz id m in
  (status x ≠ 200 ∧ m' = m) ∨
  (status x = 200 ∧ ∃ b i rec p q, biz = Some b ∧ id = Some i ∧ m = p ++ rec :: q ∧ m' = p ++ q ∧
     ci_id rec = i ∧ ci_businessId rec = b ∧ ci_provider rec = "razorpay").
Proof.
  unfold disconnectRazorpay. destruct user as [[|c1 user]|]; [by left| |by left].
  destruct biz as [[|c2 biz]|]; [by left| |by left]. destruct id as [[|c3 id]|]; [by left| |by left].
  cbn [non_empty or_else]. destruct (findById (String c3 id) m) as [rec|] eqn:Hf; [|by left].
  destruct (negb _ || negb _) eqn:Hg; [by left|]. apply orb_false_iff in Hg as [?%negb_false_iff%String.eqb_eq ?%negb_false_iff%String.eqb_eq].
  apply delete_splits in Hf as (p & q & -> & -> & Hi). right. split; [done|].
  exists (String c2 biz), (String c3 id), rec, p, q. done.
Qed.

(** ** Concrete requests *)
Definition sample_url (s : string) : option url :=
  match strip_prefix "https://app.test" s with
  | Some _ => Some {| protocol := "https:"; origin := "https://app.test"; href := s |}
  | None => None
  end.

Lemma validated_state_was_initiated_witness :
  let os := [Initiate "tok" 0 (Some "u1") (Some "https://app.test/cb"); Validate 1 (Some "other")] in
  let e := {| userId := "u1"; redirectUrl := "https://app.test/cb"; createdAt := 0; expiresAt := 600000 |} in
  let s := flow_run sample_url (λ _, true) (Some "https://app.test, https://b.test") (Some "id") os in
  (validateRazorpayState 600000 (Some "tok") s).1 = Ok e ∧
  ∀ now', (validateRazorpayState now' (Some "tok") (delete "tok" s)).1 = Err InvalidState.
Proof.
  intros os e s. split; [reflexivity|].
  exact (proj2 (validated_state_was_initiated sample_url (λ _, true) (Some "https://app.test, https://b.test") (Some "id") os
                  600000 "tok" e (delete "tok" s) eq_refl)).
Defined.

Lemma initiated_state_validates_witness :
  ∃ uid raw u, Some "u1" = Some uid ∧ Some "https://app.test/cb" = Some raw ∧
    validateRedirectUrl sample_url (Some "https://app.test") raw = Ok u ∧
    (validateRazorpayState 600001 (Some "tok")
       (initiateRazorpayConnect sample_url (λ _, true) (Some "https://app.test") (Some "id") "tok" 0 (Some "u1")
          (Some "https://app.test/cb") ∅).2).1 = Err InvalidState.
Proof.
  exact (proj2 (proj2 (proj2 (initiated_state_validates sample_url (λ _, true) (Some "https://app.test") (Some "id") "tok" 0
           (Some "u1") (Some "https://app.test/cb") ∅ _ _ _ _ 600001 eq_refl eq_refl)))).
Defined.

Lemma overlapping_connects_both_stored_witness :
  let ok := {| h_status := 200; h_payload := true |} in
  let m1 := (connect_finish (λ s, s) "i1" 1 "u" "b" "k" "s" (@Ok (client_error unit) _ ok) []).2 in
  let m2 := (connect_finish (λ s, s) "i2" 2 "u" "b" "k" "s" (@Ok (client_error unit) _ ok) m1).2 in
  map ci_id (razorpay_of "b" m2) = ["i1"; "i2"].
Proof.
  exact (overlapping_connects_both_stored (λ s, s) "u" "b" (Some "k") (Some "s") (Some "k") (Some "s") "k" "s" "k" "s"
           "i1" "i2" 1 2 [] _ _ {| h_status := 200; h_payload := true |} {| h_status := 200; h_payload := true |} eq_refl eq_refl eq_refl eq_refl eq_refl eq_refl eq_refl eq_refl).
Defined.
