(* ===== verification/ShopifyConnect.v ===== *)
(** * Connecting Shopify: [src/services/integrations/shopify/].

    [utils.ts] (the signature of the callback), [connect.ts], [callback.ts],
    [disconnect.ts] and the tokens of [store.ts], over the state store of
    [OAuthStates] and the records of [IntegrationStore].  The callback is cut
    at its awaits.  Callback parameters are the declared strings; HMAC-SHA256
    is a parameter. *)

From S2P Require Import Prelude Numeric Hashing JsString Collections RetryBudget OutboundClient OAuthStates.
From S2P Require Import IntegrationStore AccessControl.
Import OAuthStates.Shopify.
#[local] Open Scope Z_scope.

(** Tokens and metadata are objects of strings. *)
Abbreviation object := (list (string * string)).
Abbreviation integrations := (list (string * Integration object)).

(** ** Access tokens by shop *)
Abbreviation shopTokens := (gmap string string).

Definition saveToken (sh accessToken : string) (t : shopTokens) : shopTokens := <[normalizeShop sh := accessToken]> t.
Definition getToken (sh : string) (t : shopTokens) : option string := t !! normalizeShop sh.
Definition deleteToken (sh : string) (t : shopTokens) : bool * shopTokens :=
  (bool_decide (is_Some (t !! normalizeShop sh)), delete (normalizeShop sh) t).
Definition clearAll (s : stateToShop) (t : shopTokens) : stateToShop * shopTokens := (∅, ∅).

(** ** The signature of the callback *)

(** The order of [Array.prototype.sort] on strings. *)
Definition code_unit_order (a b : string) : Z :=
  match String.compare a b with Lt => -1 | Eq => 0 | Gt => 1 end.

Definition signed_message (params : object) : string :=
  let rest := map_delete "hmac" params in
  join "&" (map (λ k, k +:+ "=" +:+ default EmptyString (map_get k rest)) (js_sort code_unit_order (map fst rest))).

Section Shopify.
Context (hmac_sha256 : string → string → string).

Definition computeShopifyHmac (secret : string) (params : object) : string := hmac_sha256 secret (signed_message params).

(** ** Starting *)
Definition DEFAULT_OAUTH_STATE_TTL_MS : Z := 600000.
Definition resolveOAuthStateTtlMs (raw : option string) : Z := parse_positive_int_env raw DEFAULT_OAUTH_STATE_TTL_MS.

(** The environment of the process. *)
Record config := { clientId : option string; clientSecret : option string; redirectUri : option string; stateTtl : option string }.

(** [state] is the fresh token; the result is the host and the state of the
    redirect, [None] when the function throws.  The clock is read for the
    expiry time and again by the store. *)
Definition startConnect (c : config) (state : string) (now now' : Z) (sh user biz : string) (s : stateToShop)
  : option (string * string) * stateToShop :=
  let shopHost := normalizeShop sh in
  match non_empty (clientId c), non_empty (redirectUri c) with
  | Some _, Some _ =>
      if negb (isValidShopHost shopHost) then (None, s)
      else (Some (shopHost, state), setOAuthState now' state shopHost user biz (now + resolveOAuthStateTtlMs (stateTtl c)) s)
  | _, _ => (None, s)
  end.

(** ** The callback *)

(** Up to the token request: an error, or the consumed record, the host and
    the code to exchange. *)
Definition callback_begin (c : config) (now : Z) (params : object) (s : stateToShop)
  : (string + ShopifyOAuthState * string * string) * stateToShop :=
  match non_empty (clientId c), non_empty (clientSecret c) with
  | Some _, Some secret =>
      match non_empty (map_get "code" params), non_empty (map_get "shop" params), non_empty (map_get "state" params) with
      | Some code, Some sh, Some state =>
          match non_empty (map_get "hmac" params) with
          | None => (inl "Missing HMAC signature", s)
          | Some provided =>
              let computedBuf := buffer_from_string (computeShopifyHmac secret params) in
              let providedBuf := buffer_from_string provided in
              if negb (length computedBuf =? length providedBuf)%nat ||
                 negb (match timingSafeEqual computedBuf providedBuf with Ok b => b | Err _ => false end)
              then (inl "Invalid HMAC signature", s)
              else
                let shopHost := normalizeShop sh in
                if negb (isValidShopHost shopHost) then (inl "Invalid shop hostname", s)
                else
                  let '(record, s) := consumeOAuthState now state s in
                  match record with
                  | Some r => if String.eqb (shop r) shopHost then (inr (r, shopHost, code), s)
                              else (inl "Invalid or expired state", s)
                  | None => (inl "Invalid or expired state", s)
                  end
          end
      | _, _, _ => (inl "Missing required callback parameters", s)
      end
  | _, _ => (inl "Shopify app not configured", s)
  end.

(** What Shopify answers: the status and the body, [None] when it is not
    JSON; inside, the access token when it is a string. *)
Record http := { h_status : Z; h_body : option (option string) }.
Definition http_ok (h : http) : bool := (200 <=? h_status h) && (h_status h <? 300).

Definition exchange {E} (r : result (client_error E) http) : result string string :=
  match r with
  | Err (GlobalRetryBudgetExceeded _ _ _) => Err "Global outbound retry budget exhausted"
  | Err (Thrown _) => Err "Token exchange request failed"
  | Ok h =>
      if negb (http_ok h) then Err "Token exchange failed"
      else match h_body h with
           | None => Err "Token response parse failed"
           | Some t => match non_empty t with None => Err "No access token in response" | Some t => Ok t end
           end
  end.

(** The token is saved and the user's Shopify integration looked up. *)
Definition persist_begin (r : ShopifyOAuthState) (shopHost accessToken : string) (t : shopTokens) (m : integrations)
  : option (Integration object) * shopTokens :=
  let t := saveToken shopHost accessToken t in
  (List.find (λ i, String.eqb (provider i) "shopify") (listByUserId (userId r) m), t).

Definition token_object (t : string) : object := [("accessToken", t)].
Definition shop_object (h : string) : object := [("shop", h)].

Definition new_integration (r : ShopifyOAuthState) (shopHost accessToken : string) : CreateIntegrationData object :=
  {| c_userId := userId r; c_businessId := businessId r; c_provider := "shopify"; c_externalId := shopHost;
     c_token := token_object accessToken; c_metadata := shop_object shopHost |}.

(** The record found for another shop is deleted (if it is of this business)
    and its token dropped; the record of this shop is updated; otherwise one
    is created.  The deletion is awaited before the rest of its branch. *)
Definition persist_delete (r : ShopifyOAuthState) (shopHost : string) (existing : option (Integration object))
    (m : integrations) : integrations :=
  match existing with
  | Some i => if String.eqb (externalId i) shopHost then m else (deleteById (businessId r) (id i) m).2
  | None => m
  end.

Definition persist_end (fresh : string) (now : Z) (r : ShopifyOAuthState) (shopHost accessToken : string)
    (existing : option (Integration object)) (t : shopTokens) (m : integrations)
  : result string string * shopTokens * integrations :=
  match existing with
  | Some i =>
      if String.eqb (externalId i) shopHost then
        match update now (businessId r) (id i) (Some (token_object accessToken)) (Some (shop_object shopHost)) m with
        | (None, m) => (Err "Failed to persist Shopify integration", t, m)
        | (Some _, m) => (Ok shopHost, t, m)
        end
      else
        (Ok shopHost, (deleteToken (externalId i) t).2, (create fresh now (new_integration r shopHost accessToken) m).2)
  | None => (Ok shopHost, t, (create fresh now (new_integration r shopHost accessToken) m).2)
  end.

(** The three steps, nothing else running in between. *)
Definition persist (fresh : string) (now : Z) (r : ShopifyOAuthState) (shopHost accessToken : string) (t : shopTokens)
    (m : integrations) : result string string * shopTokens * integrations :=
  let '(existing, t) := persist_begin r shopHost accessToken t m in
  persist_end fresh now r shopHost accessToken existing t (persist_delete r shopHost existing m).

(** The two maps of the store module, the integrations and the budget. *)
Record world := { states : stateToShop; tokens : shopTokens; records : integrations; outbound : Global.budget }.

(** One callback, nothing else running at its awaits.  [fetch host code] are
    the answers of the token request. *)
Definition handleCallback {E} (c : config) (fetch : string → string → Z → result E http) (env : Z → retry_env)
    (draw : Z → Z) (fresh : string) (now now' : Z) (params : object) (w : world) : result string string * world :=
  match callback_begin c now params (states w) with
  | (inl e, s) => (Err e, {| states := s; tokens := tokens w; records := records w; outbound := outbound w |})
  | (inr (r, shopHost, code), s) =>
      let '(x, g, _) := executeWithRetry (fetch shopHost code) (λ h, DEFAULT_SHOULD_RETRY (h_status h)) caller_options
                          env draw (outbound w) in
      match exchange x with
      | Err e => (Err e, {| states := s; tokens := tokens w; records := records w; outbound := g |})
      | Ok accessToken =>
          let '(a, t, m) := persist fresh now' r shopHost accessToken (tokens w) (records w) in
          (a, {| states := s; tokens := t; records := m; outbound := g |})
      end
  end.

(** ** Disconnecting *)

Definition already_revoked (status : Z) : bool := (status =? 401) || (status =? 403) || (status =? 404).

(** [revokeShopifyAccess], given how the request went. *)
Definition revokeShopifyAccess {E} (r : result (client_error E) Z) : result string bool :=
  match r with
  | Ok status =>
      if (200 <=? status) && (status <? 300) then Ok false
      else if already_revoked status then Ok true
      else Err "Failed to revoke Shopify access"
  | Err (GlobalRetryBudgetExceeded _ _ _) => Err "Global outbound retry budget exhausted"
  | Err (Thrown _) => Err "Failed to reach Shopify API"
  end.

(** Up to the request: a response, or the record, its host and its token. *)
Definition disconnect_begin (user biz : option string) (m : integrations)
  : response + (string * string * string * string) :=
  match non_empty user, non_empty biz with
  | Some _, Some biz =>
      match List.find (λ i, String.eqb (provider i) "shopify") (listByBusinessId biz m) with
      | None => inl {| status := 404; detail := "Shopify integration not found" |}
      | Some rec =>
          let host := normalizeShop (externalId rec) in
          match non_empty (map_get "accessToken" (token rec)) with
          | Some t => if is_empty host || negb (isValidShopHost host)
                      then inl {| status := 500; detail := "Shopify integration is missing revocation metadata" |}
                      else inr (biz, id rec, host, t)
          | None => inl {| status := 500; detail := "Shopify integration is missing revocation metadata" |}
          end
      end
  | _, _ => inl {| status := 401; detail := "Unauthorized" |}
  end.

(** After it; the deletion of the record is awaited before the token goes. *)
Definition disconnect_end {E} (biz i host : string) (r : result (client_error E) Z) (t : shopTokens) (m : integrations)
  : response * shopTokens * integrations :=
  match revokeShopifyAccess r with
  | Err e => ({| status := 502; detail := e |}, t, m)
  | Ok _ =>
      match deleteById biz i m with
      | (false, m) => ({| status := 500; detail := "Failed to disconnect Shopify integration" |}, t, m)
      | (true, m) => ({| status := 200; detail := "ok" |}, (deleteToken host t).2, m)
      end
  end.

Definition disconnectShopify {E} (fetch : string → string → Z → result E Z) (env : Z → retry_env) (draw : Z → Z)
    (user biz : option string) (w : world) : response * world :=
  match disconnect_begin user biz (records w) with
  | inl x => (x, w)
  | inr (biz, i, host, accessToken) =>
      let '(r, g, _) := executeWithRetry (fetch host accessToken) DEFAULT_SHOULD_RETRY caller_options env draw (outbound w) in
      let '(x, t, m) := disconnect_end biz i host r (tokens w) (records w) in
      (x, {| states := states w; tokens := t; records := m; outbound := g |})
  end.
End Shopify.

(** ** Lemmas *)

Lemma buffer_from_string_inj a b : buffer_from_string a = buffer_from_string b → a = b.
Proof.
  intros H. rewrite <- (String.string_of_list_byte_of_string a), <- (String.string_of_list_byte_of_string b).
  unfold buffer_from_string in H. by rewrite H.
Qed.

Lemma consume_shop_state now state (s : stateToShop) r :
  (consumeOAuthState now state s).1 = Some r ↔ s !! trim state = Some r ∧ now ≤ expiresAt r.
Proof.
  unfold consumeOAuthState. destruct (s !! trim state) as [e|]; [|by split; [|intros []]].
  destruct (expiresAt e <? now) eqn:Hx; cbn; split; try done.
  - intros [[= ->] ?]. lia.
  - intros [= ->]. split; [done|lia].
  - by intros [[= ->] _].
Qed.

(** A callback that reaches the token request carries the signature of its
    parameters, names a live state of the shop and has used it up. *)
Lemma callback_begin_inr hmac c now params s r host code s' :
  callback_begin hmac c now params s = (inr (r, host, code), s') →
  ∃ secret sh state,
    clientSecret c = Some secret ∧ map_get "hmac" params = Some (computeShopifyHmac hmac secret params) ∧
    map_get "shop" params = Some sh ∧ map_get "state" params = Some state ∧ map_get "code" params = Some code ∧
    normalizeShop sh = host ∧ isValidShopHost host = true ∧
    s !! trim state = Some r ∧ shop r = host ∧ now ≤ expiresAt r ∧ (consumeOAuthState now state s).2 = s'.
Proof.
  unfold callback_begin. intros H.
  destruct (non_empty (clientId c)); [|done]. destruct (non_empty (clientSecret c)) as [secret|] eqn:Hsec; [|done].
  destruct (non_empty (map_get "code" params)) as [code'|] eqn:Hcode; [|done].
  destruct (non_empty (map_get "shop" params)) as [sh|] eqn:Hsh; [|done].
  destruct (non_empty (map_get "state" params)) as [state|] eqn:Hst; [|done].
  destruct (non_empty (map_get "hmac" params)) as [provided|] eqn:Hmac; [|done].
  cbn zeta in H. case_if_in H; [done|]. case_if_in H; [done|].
  destruct (consumeOAuthState now state s) as [record s1] eqn:Hc.
  destruct record as [r'|]; [|done]. destruct (String.eqb_spec (shop r') (normalizeShop sh)) as [Hshop|]; [|done].
  injection H as -> <- -> ->.
  assert (∀ x y, non_empty x = Some y → x = Some y) as Hne.
  { intros [[|? ?]|] y; by intros [= <-]. }
  apply orb_false_iff in Heqb as [_ Hsig%negb_false_iff]. apply negb_false_iff in Heqb0.
  destruct (timingSafeEqual _ _) as [[]|] eqn:Ht; [|done|done].
  apply timingSafeEqual_true, buffer_from_string_inj in Ht.
  assert ((consumeOAuthState now state s).1 = Some r) as [Hl Hx]%consume_shop_state by by rewrite Hc.
  exists secret, sh, state. split_and!; try (by apply Hne); try done.
  - apply Hne in Hmac. by rewrite Ht.
  - by rewrite Hc.
Qed.

Lemma consume_deletes now state (s : stateToShop) : (consumeOAuthState now state s).2 = delete (trim state) s.
Proof.
  unfold consumeOAuthState. destruct (s !! trim state) eqn:Hl; [by case_if|]. cbn. by rewrite delete_id.
Qed.

(** The callback passes every check that comes before its state is looked at:
    the app is configured, the parameters are there, the signature is the one
    of the parameters, and the shop is a Shopify host. *)
Definition well_signed (hmac : string → string → string) (c : config) (params : object) (state : string) : Prop :=
  ∃ cid secret code sh, non_empty (clientId c) = Some cid ∧ non_empty (clientSecret c) = Some secret ∧
    non_empty (map_get "code" params) = Some code ∧ non_empty (map_get "shop" params) = Some sh ∧
    non_empty (map_get "state" params) = Some state ∧
    non_empty (map_get "hmac" params) = Some (computeShopifyHmac hmac secret params) ∧
    isValidShopHost (normalizeShop sh) = true.

#[local] Ltac unsigned := right; split_and!; [intros (? & ? & ? & ? & ? & ?); destruct_and!; congruence|done|by eauto].

(** Exactly then it deletes the state it names. *)
Lemma callback_begin_states hmac c now params s :
  let '(x, s') := callback_begin hmac c now params s in
  (∃ state, well_signed hmac c params state ∧ s' = delete (trim state) s) ∨
  ((¬ ∃ state, well_signed hmac c params state) ∧ s' = s ∧ ∃ e, x = inl e).
Proof.
  unfold callback_begin.
  destruct (non_empty (clientId c)) as [cid|] eqn:H1; [|unsigned].
  destruct (non_empty (clientSecret c)) as [secret|] eqn:H2; [|unsigned].
  destruct (non_empty (map_get "code" params)) as [code|] eqn:H3; [|unsigned].
  destruct (non_empty (map_get "shop" params)) as [sh|] eqn:H4; [|unsigned].
  destruct (non_empty (map_get "state" params)) as [state|] eqn:H5; [|unsigned].
  destruct (non_empty (map_get "hmac" params)) as [provided|] eqn:H6; [|unsigned].
  cbn zeta. destruct (_ || _)%bool eqn:Hm.
  { right. split_and!; [|done|by eauto]. intros (? & ? & sec & ? & ? & _ & Hs & _ & _ & _ & Hh & _).
    assert (sec = secret) as -> by congruence. assert (provided = computeShopifyHmac hmac secret params) as -> by congruence.
    by rewrite Nat.eqb_refl, timingSafeEqual_refl in Hm. }
  destruct (isValidShopHost (normalizeShop sh)) eqn:Hv; cbn [negb].
  2: { right. split_and!; [|done|by eauto]. intros (? & ? & ? & ? & sh' & _ & _ & _ & Hs & _ & _ & Hv').
       assert (sh' = sh) as -> by congruence. congruence. }
  pose proof (consume_deletes now state s) as Hd.
  destruct (consumeOAuthState now state s) as [record s1]. cbn in Hd. subst s1.
  assert (well_signed hmac c params state) as Hws.
  { apply orb_false_iff in Hm as [_ Hm%negb_false_iff].
    destruct (timingSafeEqual _ _) as [[]|] eqn:Ht; [|done|done]. apply timingSafeEqual_true, buffer_from_string_inj in Ht.
    exists cid, secret, code, sh. subst provided. by split_and!. }
  destruct record as [r|]; [case_if|]; left; by exists state.
Qed.

(** What persisting does to the records: operations of the state's
    business. *)
Definition persist_ops (fresh : string) (now : Z) (r : ShopifyOAuthState) (host t : string)
    (existing : option (Integration object)) : list (op object) :=
  match existing with
  | None => [Create fresh now (new_integration r host t)]
  | Some i =>
      if String.eqb (externalId i) host
      then [Update now (businessId r) (id i) (Some (token_object t)) (Some (shop_object host))]
      else [Delete (businessId r) (id i); Create fresh now (new_integration r host t)]
  end.

Lemma persist_end_records fresh now r host t existing tk m :
  (persist_end fresh now r host t existing tk (persist_delete r host existing m)).2 =
  run (persist_ops fresh now r host t existing) m.
Proof.
  unfold persist_end, persist_delete, persist_ops. destruct existing as [i|]; [|done].
  destruct (String.eqb (externalId i) host); [|done]. cbn.
  by destruct (update now (businessId r) (id i) _ _ m) as [[]].
Qed.

Lemma persist_ops_tenant fresh now r host t existing :
  Forall (λ o, tenant o = businessId r) (persist_ops fresh now r host t existing).
Proof.
  unfold persist_ops. destruct existing as [i|]; [|by repeat constructor]. case_if; by repeat constructor.
Qed.

Lemma run_other (os : list (op object)) (m : integrations) k rec b :
  run_ok os m = true → Forall (λ o, tenant o = b) os → IntegrationStore.businessId rec ≠ b →
  map_get k m = Some rec → map_get k (run os m) = Some rec.
Proof.
  intros Ho Ht Hb. revert m Ho. induction Ht as [|o os Hto Ht IH]; intros m Ho Hg; [done|].
  cbn in Ho. apply andb_true_iff in Ho as [Hf Ho]. cbn. apply (IH _ Ho). apply op_other; [done|congruence|done].
Qed.

Lemma persist_ops_ok fresh now r host t existing (m : integrations) :
  map_get fresh m = None → run_ok (persist_ops fresh now r host t existing) m = true.
Proof.
  intros Hf. unfold persist_ops. destruct existing as [i|]; cbn; [|by rewrite Hf].
  case_if; cbn; [done|]. unfold deleteById. destruct (map_get (id i) m) as [x|] eqn:Hi; cbn; [|by rewrite Hf].
  destruct (negb _); cbn; [by rewrite Hf|]. rewrite map_get_delete, Hf. by destruct (String.eqb fresh (id i)).
Qed.

Lemma found_own (u : string) (m : integrations) i :
  wf m → List.find (λ i, String.eqb (provider i) "shopify") (listByUserId u m) = Some i →
  map_get (id i) m = Some i ∧ IntegrationStore.userId i = u ∧ provider i = "shopify".
Proof.
  intros [Hn Hk] Hf. apply List.find_some in Hf as [Hin Hp%String.eqb_eq].
  apply List.filter_In in Hin as [Hin Hu%String.eqb_eq]. apply List.in_map_iff in Hin as ([k x] & Hx & Hin). cbn in Hx. subst x.
  apply list_elem_of_In, (map_get_elem k i m Hn) in Hin. by rewrite (Hk _ _ Hin).
Qed.

(** A successful persist leaves a record of the shop with the new token; a
    failed one leaves the records as they were. *)
Lemma persist_spec fresh now r host t tk tk' (m m' : integrations) a :
  wf m → persist fresh now r host t tk m = (a, tk', m') →
  match a with
  | Err _ => m' = m
  | Ok h => h = host ∧ ∃ k rec, map_get k m' = Some rec ∧ IntegrationStore.userId rec = userId r ∧
      IntegrationStore.businessId rec = businessId r ∧ provider rec = "shopify" ∧ externalId rec = host ∧
      token rec = token_object t
  end.
Proof.
  intros Hw. unfold persist. destruct (persist_begin r host t tk m) as [existing tk0] eqn:Hb.
  assert (Hf : ∀ i, existing = Some i → map_get (id i) m = Some i ∧ IntegrationStore.userId i = userId r ∧ provider i = "shopify").
  { intros i ->. unfold persist_begin in Hb. injection Hb as Hb _. by apply found_own. }
  clear Hb. unfold persist_end, persist_delete. destruct existing as [i|].
  - destruct (Hf i eq_refl) as (Hg & Hu & Hpr). destruct (String.eqb_spec (externalId i) host) as [Hx|Hx].
    + unfold update. rewrite Hg.
      destruct (String.eqb_spec (IntegrationStore.businessId i) (businessId r)); cbn [negb]; [|by intros [= <- <- <-]].
      intros [= <- <- <-]. split; [done|]. eexists (id i), _. rewrite map_get_set, String.eqb_refl. by split_and!.
    + intros [= <- <- <-]. split; [done|]. eexists fresh, _. rewrite map_get_set, String.eqb_refl. by split_and!.
  - intros [= <- <- <-]. split; [done|]. eexists fresh, _. rewrite map_get_set, String.eqb_refl. by split_and!.
Qed.

Lemma persist_other fresh now r host t tk (m : integrations) k rec :
  map_get fresh m = None → IntegrationStore.businessId rec ≠ businessId r →
  map_get k m = Some rec → map_get k (persist fresh now r host t tk m).2 = Some rec.
Proof.
  intros Hf Hb Hg. unfold persist. destruct (persist_begin r host t tk m) as [existing tk0].
  rewrite persist_end_records. by eapply run_other; [apply persist_ops_ok|apply persist_ops_tenant| |].
Qed.

Lemma host_char_plain c : host_char c = true → negb (is_space c) = true.
Proof. by destruct c as [[] [] [] [] [] [] [] []]. Qed.

Lemma alnum_host_char c : is_alnum c = true → host_char c = true.
Proof. intros H. unfold host_char. by rewrite H. Qed.

Lemma valid_host_chars s : isValidShopHost s = true → string_forallb host_char s = true.
Proof.
  unfold isValidShopHost. destruct (strip_suffix MYSHOPIFY s) as [[|c p]|] eqn:Hs; [done| |done].
  intros [Hc Hp]%andb_true_iff. apply strip_suffix_app in Hs as ->. rewrite string_forallb_app.
  cbn [string_forallb]. by rewrite (alnum_host_char c Hc), Hp.
Qed.

Lemma normalizeShop_lowered s : string_forallb is_lowered (normalizeShop s) = true.
Proof.
  unfold normalizeShop. case_if; [done|]. destruct (strip_suffix _ _); [apply to_lower_lowered|].
  by rewrite string_forallb_app, to_lower_lowered.
Qed.

(** A normalised valid host is a fixed point. *)
Lemma normalizeShop_valid s : isValidShopHost (normalizeShop s) = true → normalizeShop (normalizeShop s) = normalizeShop s.
Proof.
  intros Hv. set (h := normalizeShop s) in *. unfold normalizeShop at 1.
  rewrite (trim_fixed h), (lowered_fixed h); [|apply normalizeShop_lowered|].
  - unfold isValidShopHost in Hv. destruct (strip_suffix MYSHOPIFY h); [|done]. by destruct (is_empty h) eqn:He; [destruct h|].
  - by apply (string_forallb_impl host_char); [exact host_char_plain|apply valid_host_chars].
Qed.

(** ** Properties *)

(** The callback carries a valid signature over its parameters and names a
    state that is stored and unexpired. *)
Definition genuine (hmac : string → string → string) (c : config) (now : Z) (params : object) (s : stateToShop)
    (r : ShopifyOAuthState) : Prop :=
  ∃ secret state, clientSecret c = Some secret ∧ map_get "hmac" params = Some (computeShopifyHmac hmac secret params) ∧
    map_get "state" params = Some state ∧ s !! trim state = Some r ∧ now ≤ expiresAt r.

(** C30. A Shopify callback connects a shop only when it is genuine, and then for
    the user, the business and the shop its state was issued for: success
    leaves a record of that shop under them, with the token one of at most
    three requests returned; failure leaves the records as they were; and in
    any case the records of other businesses are untouched.  A callback with a
    valid signature and host uses up the state it names, whatever comes of it:
    an expired state, another shop's, a failed exchange, a failed write; any
    other callback fails and leaves every state as it was. *)
Theorem shopify_callback_authorised {E} hmac c (fetch : string → string → Z → result E http) env draw fresh now now'
    params w a w' :
  wf (records w) → map_get fresh (records w) = None →
  handleCallback hmac c fetch env draw fresh now now' params w = (a, w') →
  (∀ host, a = Ok host →
     ∃ r code n h t k rec, genuine hmac c now params (states w) r ∧ shop r = host ∧
       0 ≤ n ≤ 2 ∧ fetch host code n = Ok h ∧ http_ok h = true ∧ h_body h = Some (Some t) ∧
       map_get k (records w') = Some rec ∧ IntegrationStore.userId rec = userId r ∧
       IntegrationStore.businessId rec = businessId r ∧ provider rec = "shopify" ∧ externalId rec = host ∧
       token rec = token_object t) ∧
  (∀ e, a = Err e → records w' = records w) ∧
  (∀ k rec, map_get k (records w) = Some rec → map_get k (records w') = Some rec ∨
     ∃ r, genuine hmac c now params (states w) r ∧ IntegrationStore.businessId rec = businessId r) ∧
  ((∃ state, well_signed hmac c params state ∧ states w' = delete (trim state) (states w)) ∨
   ((¬ ∃ state, well_signed hmac c params state) ∧ (∃ e, a = Err e) ∧ w' = w)).
Proof.
  intros Hw Hfresh. unfold handleCallback. pose proof (callback_begin_states hmac c now params (states w)) as Hst'.
  destruct (callback_begin hmac c now params (states w)) as [[e|[[r host] code]] s] eqn:Hb.
  { intros [= <- <-]. split_and!; [done|done| |].
    - intros k rec Hk. by left.
    - destruct Hst' as [H|(H & -> & _)]; [by left|right]. split_and!; [done|by eauto|by destruct w]. }
  assert (∃ state, well_signed hmac c params state ∧ s = delete (trim state) (states w)) as Hused.
  { by destruct Hst' as [H|(_ & _ & ? & [=])]. }
  apply callback_begin_inr in Hb as (secret & sh & state & Hsec & Hmac & Hsh & Hst & Hcode & Hn & Hv & Hl & Hshop & Hle & Hs).
  assert (genuine hmac c now params (states w) r) as Hgen by (exists secret, state; by split_and!).
  pose proof (retry_loop_ends (fetch host code) (λ h, DEFAULT_SHOULD_RETRY (h_status h)) caller_options env draw 2 0 (outbound w)) as He.
  unfold executeWithRetry. change (Z.to_nat (o_maxRetries caller_options)) with 2%nat.
  destruct (retry_loop _ _ _ _ _ 2 0 (outbound w)) as [[x g] slept]. destruct He as (Hlen & _ & Hend).
  destruct (exchange x) as [t|e] eqn:Hx.
  2: { intros [= <- <-]. split_and!; [done|done|by intros k rec Hk; left|by left]. }
  destruct (persist fresh now' r host t (tokens w) (records w)) as [[a' tk] m] eqn:Hp. intros [= -> <-]. cbn.
  pose proof (persist_spec _ _ _ _ _ _ _ _ _ _ Hw Hp) as Hps. split_and!.
  - intros h ->. destruct Hps as (-> & k & rec & Hk & Hu & Hbiz & Hpr & Hext & Htok).
    unfold exchange in Hx. destruct x as [y|[]]; [|done|done].
    destruct (http_ok y) eqn:Hok; [|done]. destruct (h_body y) as [[[|ch t']|]|] eqn:Hbody; [done| |done|done]. cbn in Hx. injection Hx as <-.
    destruct Hend as [[Hy _]|((? & ? & ? & [=]) & _)]. rewrite Z.add_0_l in Hy.
    exists r, code, (Z.of_nat (length slept)), y, (String ch t'), k, rec. split_and!; try done; try lia.
    destruct (fetch host code (Z.of_nat (length slept))); by inversion Hy.
  - by intros e ->.
  - intros k rec Hk. destruct (String.eqb_spec (IntegrationStore.businessId rec) (businessId r)) as [Hbe|Hbe].
    + right. by exists r.
    + left. pose proof (persist_other fresh now' r host t (tokens w) (records w) k rec Hfresh Hbe Hk) as H. by rewrite Hp in H.
  - by left.
Qed.

(** A started connect completes: until its expiry, the callback Shopify signs
    for the same shop and state passes every check, for the user and the
    business that started it. *)
Theorem started_connect_completes hmac c state now1 now1' now2 sh user biz s host st s1 params secret sh' code :
  startConnect c state now1 now1' sh user biz s = (Some (host, st), s1) →
  trim state = state → is_empty state = false → now1' < now1 + resolveOAuthStateTtlMs (stateTtl c) →
  now2 ≤ now1 + resolveOAuthStateTtlMs (stateTtl c) →
  clientSecret c = Some secret → is_empty secret = false →
  map_get "code" params = Some code → is_empty code = false → map_get "state" params = Some st →
  map_get "shop" params = Some sh' → is_empty sh' = false → normalizeShop sh' = normalizeShop sh →
  map_get "hmac" params = Some (computeShopifyHmac hmac secret params) →
  is_empty (computeShopifyHmac hmac secret params) = false →
  ∃ s2, callback_begin hmac c now2 params s1 =
    (inr ({| shop := host; userId := user; businessId := biz; expiresAt := now1 + resolveOAuthStateTtlMs (stateTtl c) |},
          host, code), s2).
Proof.
  unfold startConnect. destruct (non_empty (clientId c)) as [cid|] eqn:Hcid; [|done].
  destruct (non_empty (redirectUri c)); [|done]. destruct (isValidShopHost (normalizeShop sh)) eqn:Hv; [|done]. cbn [negb].
  intros [= <- <- <-] Htrim Hne Hlt Hle Hsec Hsece Hcode Hcodee Hst Hsh Hshe Hsame Hmac Hmace.
  set (host := normalizeShop sh) in *. set (exp := now1 + _) in *.
  assert (setOAuthState now1' state host user biz exp s =
          <[state := {| shop := host; userId := user; businessId := biz; expiresAt := exp |}]> s) as ->.
  { unfold setOAuthState. unfold host at 1 2 3 4. rewrite (normalizeShop_valid sh) by done. fold host.
    rewrite Htrim, Hne, Hv. assert (is_empty host = false) as -> by by destruct host.
    cbn. by assert ((exp <=? now1') = false) as -> by lia. }
  assert (Hn : ∀ x, is_empty x = false → non_empty (Some x) = Some x) by by intros [].
  unfold callback_begin. rewrite Hcid, Hsec, Hcode, Hsh, Hst, Hmac, !Hn by done. cbn zeta.
  rewrite Nat.eqb_refl, timingSafeEqual_refl. cbn [negb orb]. rewrite Hsame, Hv. cbn [negb].
  unfold consumeOAuthState. rewrite Htrim, lookup_insert_eq. cbn [expiresAt].
  assert ((exp <? now2) = false) as -> by lia. cbn [shop]. rewrite String.eqb_refl. by eexists.
Qed.

(** The lookup is by user, the records are by business.  When the user's first
    Shopify record is of another business and another shop, connecting leaves
    that record in place but drops its shop's access token. *)
Theorem other_business_loses_token fresh now r host t tk (m : integrations) i :
  wf m → map_get fresh m = None → (persist_begin r host t tk m).1 = Some i →
  IntegrationStore.businessId i ≠ businessId r → externalId i ≠ host →
  let '(a, tk', m') := persist fresh now r host t tk m in
  a = Ok host ∧ map_get (id i) m' = Some i ∧ getToken (externalId i) tk' = None.
Proof.
  intros Hw Hf Hb Hbe Hx. pose proof (found_own _ _ _ Hw Hb) as (Hg & _ & _).
  pose proof (persist_other fresh now r host t tk m (id i) i Hf Hbe Hg) as Hk.
  unfold persist in *. destruct (persist_begin r host t tk m) as [existing tk0]. cbn in Hb. subst existing.
  unfold persist_end in *. destruct (String.eqb_spec (externalId i) host); [done|]. cbn in *.
  split_and!; [done|exact Hk|]. apply lookup_delete_eq.
Qed.

(** When that record is of the same shop, connecting fails, after the shop's
    token was replaced. *)
Theorem same_shop_of_other_business_fails fresh now r host t tk (m : integrations) i :
  wf m →
  (persist_begin r host t tk m).1 = Some i → IntegrationStore.businessId i ≠ businessId r → externalId i = host →
  let '(a, tk', m') := persist fresh now r host t tk m in
  a = Err "Failed to persist Shopify integration" ∧ m' = m ∧ getToken host tk' = Some t.
Proof.
  intros Hw Hb Hbe Hx. pose proof (found_own _ _ _ Hw Hb) as (Hg & _ & _).
  unfold persist. destruct (persist_begin r host t tk m) as [existing tk0] eqn:Hp. cbn in Hb. subst existing.
  unfold persist_begin in Hp. injection Hp as _ <-. unfold persist_end, persist_delete. rewrite Hx, String.eqb_refl.
  unfold update. rewrite Hg. destruct (String.eqb_spec (IntegrationStore.businessId i) (businessId r)); [done|]. cbn.
  split_and!; [done|done|]. unfold getToken, saveToken. apply lookup_insert_eq.
Qed.

(** A disconnect removes the business's Shopify record and its shop's token
    exactly when it answers 200, which takes an answer of Shopify that the
    access is revoked, now or already; otherwise both stay. *)
Theorem disconnect_revokes_first {E} (fetch : string → string → Z → result E Z) env draw user biz w :
  wf (records w) →
  let '(x, w') := disconnectShopify fetch env draw user biz w in
  states w' = states w ∧
  ((status x ≠ 200 ∧ records w' = records w ∧ tokens w' = tokens w) ∨
   (status x = 200 ∧ ∃ b rec host t n s, biz = Some b ∧ map_get (id rec) (records w) = Some rec ∧
      IntegrationStore.businessId rec = b ∧ provider rec = "shopify" ∧ host = normalizeShop (externalId rec) ∧
      map_get "accessToken" (token rec) = Some t ∧
      0 ≤ n ≤ 2 ∧ fetch host t n = Ok s ∧ ((200 ≤ s < 300) ∨ already_revoked s = true) ∧
      records w' = map_delete (id rec) (records w) ∧ tokens w' = (deleteToken host (tokens w)).2)).
Proof.
  intros [Hn Hk]. unfold disconnectShopify. destruct (disconnect_begin user biz (records w)) as [x|[[[b i] host] t]] eqn:Hb.
  { split; [done|left]. split_and!; [|done|done]. unfold disconnect_begin in Hb.
    destruct (non_empty user), (non_empty biz); try by injection Hb as <-.
    destruct (List.find _ _); [|by injection Hb as <-]. destruct (non_empty _); [|by injection Hb as <-].
    case_if_in Hb; [by injection Hb as <-|done]. }
  assert (∃ rec, biz = Some b ∧ map_get i (records w) = Some rec ∧ id rec = i ∧ IntegrationStore.businessId rec = b ∧
            provider rec = "shopify" ∧ host = normalizeShop (externalId rec) ∧ map_get "accessToken" (token rec) = Some t)
    as (rec & Hbiz & Hg & Hi & Hrb & Hpr & Hhost & Htok).
  { unfold disconnect_begin in Hb. destruct (non_empty user); [|done].
    assert (∀ x y, non_empty x = Some y → x = Some y) as Hne by (intros [[|? ?]|] y; by intros [= <-]).
    destruct (non_empty biz) as [b'|] eqn:Hbz; [|done]. destruct (List.find _ _) as [rec|] eqn:Hfd; [|done].
    destruct (non_empty (map_get _ _)) as [t'|] eqn:Ht; [|done]. case_if_in Hb; [done|]. injection Hb as -> <- <- ->.
    apply List.find_some in Hfd as [Hin Hp%String.eqb_eq]. apply List.filter_In in Hin as [Hin Hbe%String.eqb_eq].
    apply List.in_map_iff in Hin as ([k y] & Hy & Hin). cbn in Hy. subst y.
    apply list_elem_of_In, (map_get_elem k rec _ Hn) in Hin. rewrite <- (Hk _ _ Hin) in Hin.
    exists rec. split_and!; try done; by apply Hne. }
  pose proof (retry_loop_ends (fetch host t) DEFAULT_SHOULD_RETRY caller_options env draw 2 0 (outbound w)) as He.
  unfold executeWithRetry. change (Z.to_nat (o_maxRetries caller_options)) with 2%nat.
  destruct (retry_loop _ _ _ _ _ 2 0 (outbound w)) as [[x g] slept]. destruct He as (Hlen & _ & Hend).
  unfold disconnect_end. destruct (revokeShopifyAccess x) as [already|e] eqn:Hrev; cbn; [|by split; [|left]].
  unfold deleteById. rewrite Hg, Hrb, String.eqb_refl. cbn. split; [done|right]. split; [done|].
  unfold revokeShopifyAccess in Hrev. destruct x as [s|[]]; [|done|done].
  destruct Hend as [[Hy _]|((? & ? & ? & [=]) & _)]. rewrite Z.add_0_l in Hy.
  exists b, rec, host, t, (Z.of_nat (length slept)), s. rewrite Hi. split_and!; try done; try lia.
  - destruct (fetch host t (Z.of_nat (length slept))); by inversion Hy.
  - destruct ((200 <=? s) && (s <? 300)) eqn:Hs; [left; bool_lia|right]. by destruct (already_revoked s).
Qed.

(** The signed message joins the parameters without escaping: parameters can
    move into the value of another, here [shop] and [state] into [locale],
    under one signature. *)
Theorem signature_does_not_delimit hmac secret :
  let p := [("code", "c"); ("locale", "en"); ("shop", "a.myshopify.com"); ("state", "s")] in
  let q := [("code", "c"); ("locale", "en&shop=a.myshopify.com&state=s")] in
  p ≠ q ∧ computeShopifyHmac hmac secret p = computeShopifyHmac hmac secret q.
Proof. split; [done|]. unfold computeShopifyHmac. f_equal. Qed.

(** ** Concrete requests *)
Definition sample_config : config :=
  {| clientId := Some "cid"; clientSecret := Some "sec"; redirectUri := Some "https://app.test/cb"; stateTtl := None |}.

(** A signature that marks its message. *)
Definition toy_hmac (secret message : string) : string := secret +:+ "/" +:+ message.

Definition sample_params (sh : string) : object :=
  let p := [("code", "c"); ("shop", sh); ("state", "st")] in
  p ++ [("hmac", computeShopifyHmac toy_hmac "sec" p)].

Definition sample_fetch (host code : string) (k : Z) : result unit http := Ok {| h_status := 200; h_body := Some (Some "tok") |}.
Definition sample_env (k : Z) : retry_env := env_at 0 k.

(** User [u] starts a connect of [sh] for business [biz] at time 0. *)
Definition sample_world (sh biz : string) (m : integrations) : world :=
  {| states := (startConnect sample_config "st" 0 0 sh "u" biz ∅).2; tokens := ∅; records := m; outbound := small_budget 5 |}.

Definition sample_callback (sh : string) (w : world) : result string string * world :=
  handleCallback toy_hmac sample_config sample_fetch sample_env (λ _, 0) "i1" 9 9 (sample_params sh) w.

Lemma shopify_callback_authorised_witness :
  (sample_callback "acme.myshopify.com" (sample_world "Acme" "b1" [])).1 = Ok "acme.myshopify.com" ∧
  ∃ k rec, map_get k (records (sample_callback "acme.myshopify.com" (sample_world "Acme" "b1" [])).2) = Some rec ∧
    token rec = [("accessToken", "tok")].
Proof.
  split; [vm_compute; reflexivity|].
  destruct (proj1 (shopify_callback_authorised toy_hmac sample_config sample_fetch sample_env (λ _, 0) "i1" 9 9
              (sample_params "acme.myshopify.com") (sample_world "Acme" "b1" [])
              (Ok "acme.myshopify.com") (sample_callback "acme.myshopify.com" (sample_world "Acme" "b1" [])).2
              ltac:(split; [apply NoDup_nil_2|done]) eq_refl ltac:(vm_compute; reflexivity)) _ eq_refl)
    as (r & code & n & h & t & k & rec & _ & _ & _ & Hf & _ & Hb & Hk & _ & _ & _ & _ & Ht).
  exists k, rec. split; [exact Hk|]. injection Hf as <-. injection Hb as <-. exact Ht.
Defined.

Lemma started_connect_completes_witness :
  ∃ s2, callback_begin toy_hmac sample_config 600000 (sample_params "acme.myshopify.com")
          (startConnect sample_config "st" 0 0 "Acme" "u" "b" ∅).2 =
    (inr ({| shop := "acme.myshopify.com"; userId := "u"; businessId := "b"; expiresAt := 600000 |}, "acme.myshopify.com", "c"), s2).
Proof.
  exact (started_connect_completes toy_hmac sample_config "st" 0 0 600000 "Acme" "u" "b" ∅ "acme.myshopify.com" "st"
           (startConnect sample_config "st" 0 0 "Acme" "u" "b" ∅).2 (sample_params "acme.myshopify.com") "sec" "acme.myshopify.com" "c"
           eq_refl eq_refl eq_refl ltac:(vm_compute; reflexivity) ltac:(vm_compute; discriminate)
           eq_refl eq_refl eq_refl eq_refl eq_refl eq_refl eq_refl eq_refl eq_refl eq_refl).
Defined.

(** The user's shop of business [b1], while [b2] is being connected. *)
Definition first_shop : Integration object :=
  (create "i0" 1 {| c_userId := "u"; c_businessId := "b1"; c_provider := "shopify"; c_externalId := "one.myshopify.com";
                    c_token := token_object "t1"; c_metadata := shop_object "one.myshopify.com" |} []).1.
Definition second_state (host : string) : ShopifyOAuthState :=
  {| shop := host; userId := "u"; businessId := "b2"; expiresAt := 100 |}.

Lemma first_shop_wf : wf [("i0", first_shop)].
Proof. split; [apply NoDup_singleton|]. intros k rec. cbn. destruct (String.eqb_spec k "i0") as [->|]; by intros [= <-]. Qed.

Lemma other_business_loses_token_witness :
  let p := persist "i1" 2 (second_state "two.myshopify.com") "two.myshopify.com" "t2" {["one.myshopify.com" := "t1"]} [("i0", first_shop)] in
  map_get "i0" p.2 = Some first_shop ∧ getToken "one.myshopify.com" p.1.2 = None.
Proof.
  exact (proj2 (other_business_loses_token "i1" 2 (second_state "two.myshopify.com") "two.myshopify.com" "t2"
           {["one.myshopify.com" := "t1"]} [("i0", first_shop)] first_shop first_shop_wf eq_refl eq_refl
           ltac:(discriminate) ltac:(discriminate))).
Defined.

Lemma same_shop_of_other_business_fails_witness :
  (persist "i1" 2 (second_state "one.myshopify.com") "one.myshopify.com" "t2" ∅ [("i0", first_shop)]).1.1 =
  Err "Failed to persist Shopify integration".
Proof.
  exact (proj1 (same_shop_of_other_business_fails "i1" 2 (second_state "one.myshopify.com") "one.myshopify.com" "t2" ∅
           [("i0", first_shop)] first_shop first_shop_wf eq_refl ltac:(discriminate) eq_refl)).
Defined.

Lemma disconnect_revokes_first_witness :
  records (disconnectShopify (E := unit) (λ _ _ _, Ok 404) sample_env (λ _, 0) (Some "u") (Some "b1")
             {| states := ∅; tokens := ∅; records := [("i0", first_shop)]; outbound := small_budget 5 |}).2 = [].
Proof.
  pose proof (disconnect_revokes_first (E := unit) (λ _ _ _, Ok 404) sample_env (λ _, 0) (Some "u") (Some "b1")
    {| states := ∅; tokens := ∅; records := [("i0", first_shop)]; outbound := small_budget 5 |} first_shop_wf) as H.
  destruct (proj2 H) as [[Hc _]|(_ & b & rec & host & t & n & s & _ & Hg & _ & _ & _ & _ & _ & _ & _ & Hr & _)].
  - destruct Hc. vm_compute. reflexivity.
  - vm_compute. reflexivity.
Defined.
