(* ===== verification/StripeConnect.v ===== *)
(** * Connecting Stripe: [src/services/integrations/stripe/].

    [connect.ts], [callback.ts] and the integrations of [store.ts], over the
    state store of [OAuthStates].  The callback imports
    [repositories/IntegrationRepository.js], a module the repository does not
    have; the operations it calls on it are the class
    [IntegrationRepository], and [src/repositories/integration.ts] an
    instance. *)

From S2P Require Import Prelude Hashing JsString Collections RetryBudget OutboundClient OAuthStates.
From S2P Require Import IntegrationStore AccessControl.
Import OAuthStates.Stripe.
#[local] Open Scope Z_scope.

Abbreviation object := (list (string * string)).

(** ** The integrations of [store.ts] *)
Record StripeIntegration := {
  si_stripeUserId : string; si_accessToken : string; si_businessId : string; si_createdAt : Z; si_updatedAt : Z
}.

Abbreviation integrationStore := (gmap string StripeIntegration).

Definition upsertStripeIntegration (now : Z) (stripeUserId accessToken biz : string) (m : integrationStore)
  : result string StripeIntegration * integrationStore :=
  match assertNonEmptyString stripeUserId "stripeUserId", assertNonEmptyString accessToken "accessToken",
        assertNonEmptyString biz "businessId" with
  | Ok _, Ok _, Ok _ =>
      let record := {| si_stripeUserId := stripeUserId; si_accessToken := accessToken; si_businessId := biz;
                       si_createdAt := match m !! stripeUserId with Some e => si_createdAt e | None => now end;
                       si_updatedAt := now |} in
      (Ok record, <[stripeUserId := record]> m)
  | Err f, _, _ | _, Err f, _ | _, _, Err f => (Err f, m)
  end.

Definition getStripeIntegration (stripeUserId : string) (m : integrationStore) : option StripeIntegration :=
  m !! stripeUserId.

Definition resetStoresForTesting (s : stateStore) (m : integrationStore) : stateStore * integrationStore := (∅, ∅).
Definition clearStripeIntegrationStore (s : stateStore) (m : integrationStore) : stateStore * integrationStore := (∅, ∅).

(** ** Starting *)

(** [state] is the fresh token: [None] when storing it throws. *)
Definition startConnect (state : string) (now : Z) (s : stateStore) : option string * stateStore :=
  match setOAuthState state (now + 600000) s with
  | (Ok _, s) => (Some state, s)
  | (Err _, s) => (None, s)
  end.

(** ** The repository the callback writes to *)

(** What the callback asks of it.  [wf_repo] holds of every store it meets;
    [holds r T] says that record [r] is there. *)
Class IntegrationRepository (T : Type) := {
  record : Type;
  wf_repo : T → Prop;
  describes : record → string → string → string → string → object → Prop;
  holds : record → T → Prop;
  listByBusinessId : string → T → list record;
  is_account : string → record → bool;
  repo_update : Z → string → record → object → T → T;
  repo_create : string → Z → string → string → string → object → T → T;
  list_sound b s r acct : wf_repo s → r ∈ listByBusinessId b s → is_account acct r = true →
    holds r s ∧ ∃ u tok, describes r u b acct "stripe" tok;
  update_describes now b r acct tok s : wf_repo s → holds r s → (∃ u t, describes r u b acct "stripe" t) →
    ∃ r' u, holds r' (repo_update now b r tok s) ∧ describes r' u b acct "stripe" tok;
  create_describes fresh now u b acct tok s :
    ∃ r', holds r' (repo_create fresh now u b acct tok s) ∧ describes r' u b acct "stripe" tok
}.

(** [repositories/integration.ts]. *)
#[export] Program Instance integration_ts : IntegrationRepository (list (string * Integration object)) := {
  record := Integration object;
  wf_repo := wf;
  describes r u b acct p tok := userId r = u ∧ businessId r = b ∧ externalId r = acct ∧ provider r = p ∧ token r = tok;
  holds r m := map_get (id r) m = Some r;
  listByBusinessId := IntegrationStore.listByBusinessId;
  is_account acct r := String.eqb (provider r) "stripe" && String.eqb (externalId r) acct;
  repo_update now b r tok m := (update now b (id r) (Some tok) (Some []) m).2;
  repo_create fresh now u b acct tok m :=
    (create fresh now {| c_userId := u; c_businessId := b; c_provider := "stripe"; c_externalId := acct;
                         c_token := tok; c_metadata := [] |} m).2
}.
Next Obligation.
  intros b s r acct [Hn Hk] Hin [Hp%String.eqb_eq Ha%String.eqb_eq]%andb_true_iff.
  apply list_elem_of_In, List.filter_In in Hin as [Hin Hb%String.eqb_eq].
  apply List.in_map_iff in Hin as ([k y] & Hy & Hin). cbn in Hy. subst y.
  apply list_elem_of_In, (map_get_elem k r _ Hn) in Hin. rewrite (Hk _ _ Hin).
  split; [done|]. by exists (userId r), (token r).
Qed.
Next Obligation.
  intros now b r acct tok s Hw Hh (u & t & Hu & Hb & Ha & Hp & _). cbn beta in *.
  exists (default r (update now b (id r) (Some tok) (Some []) s).1), u.
  unfold update. rewrite Hh, Hb, String.eqb_refl. cbn. by rewrite map_get_set, String.eqb_refl.
Qed.
Next Obligation.
  intros fresh now u b acct tok s. exists (create fresh now {| c_userId := u; c_businessId := b; c_provider := "stripe";
    c_externalId := acct; c_token := tok; c_metadata := [] |} s).1.
  cbn. by rewrite map_get_set, String.eqb_refl.
Qed.

(** ** The callback *)

Definition isValidStripeOAuthState (state : string) : bool :=
  (String.length state =? 64)%nat && string_forallb is_lower_hex_char state.

(** The token response: the fields the code reads, [None] when absent; a
    string where the code asks for one. *)
Record token_data := { access_token : option string; stripe_user_id : option string; rest : object }.

(** What Stripe answers; the body is [None] when it is not a JSON object. *)
Record http := { h_status : Z; h_body : option token_data }.
Definition http_ok (h : http) : bool := (200 <=? h_status h) && (h_status h <? 300).

(** [Rejected]: reading the body throws and nothing catches it. *)
Inductive callback_result := Success (stripeAccountId : string) | Failure (error : string) | Rejected.

(** Up to the token request. *)
Definition callback_begin (now : Z) (code state : string) (s : stateStore) : (string + string) * stateStore :=
  let code := trim code in
  let state := trim state in
  if is_empty code || is_empty state then (inl "Missing code, or state", s)
  else if negb (isValidStripeOAuthState state) then (inl "Invalid OAuth state format", s)
  else
    let '(isValidState, s) := consumeOAuthState now state s in
    if negb isValidState then (inl "Invalid or expired state", s) else (inr code, s).

(** The access token, the account and the token object. *)
Definition exchange {E} (r : result (client_error E) http) : result callback_result (string * object) :=
  match r with
  | Err (GlobalRetryBudgetExceeded _ _ _) => Err (Failure "Global outbound retry budget exhausted")
  | Err (Thrown _) => Err (Failure "Failed to reach Stripe API")
  | Ok h =>
      if negb (http_ok h) then Err (Failure "Token exchange failed")
      else match h_body h with
      | None => Err Rejected
      | Some d =>
          match non_empty (access_token d), non_empty (stripe_user_id d) with
          | None, _ => Err (Failure "No access token in response")
          | _, None => Err (Failure "No Stripe account ID in response")
          | Some t, Some acct => Ok (acct, ("accessToken", t) :: rest d)
          end
      end
  end.

Section Callback.
Context {T : Type} `{H : IntegrationRepository T}.

(** The lookup, and after its await the write. *)
Definition find_existing (biz acct : string) (m : T) : option record := List.find (is_account acct) (listByBusinessId biz m).

Definition persist (fresh : string) (now : Z) (user biz acct : string) (tok : object) (existing : option record) (m : T) : T :=
  match existing with
  | Some r => repo_update now biz r tok m
  | None => repo_create fresh now user biz acct tok m
  end.

Definition handleCallback {E} (fetch : string → Z → result E http) (env : Z → retry_env) (draw : Z → Z)
    (fresh : string) (now now' : Z) (code state user biz : string) (s : stateStore) (m : T) (g : Global.budget)
  : callback_result * stateStore * T * Global.budget :=
  match callback_begin now code state s with
  | (inl e, s) => (Failure e, s, m, g)
  | (inr code, s) =>
      let '(x, g, _) := executeWithRetry (fetch code) (λ h, DEFAULT_SHOULD_RETRY (h_status h)) caller_options env draw g in
      match exchange x with
      | Err e => (e, s, m, g)
      | Ok (acct, tok) =>
          (Success acct, s, persist fresh now' user biz acct tok (find_existing biz acct m) m, g)
      end
  end.

(** ** Lemmas *)
Lemma consume_state_spec now state (s : stateStore) :
  consumeOAuthState now state s =
  (match s !! state with Some exp => now <=? exp | None => false end, delete state s).
Proof.
  unfold consumeOAuthState. destruct (s !! state) as [exp|]; [|done].
  rewrite (Z.leb_antisym exp now). by destruct (exp <? now).
Qed.

Lemma stripe_begin_inr now code state s code' s' :
  callback_begin now code state s = (inr code', s') →
  code' = trim code ∧ is_empty (trim code) = false ∧ isValidStripeOAuthState (trim state) = true ∧
  (∃ exp, s !! trim state = Some exp ∧ now ≤ exp) ∧ s' = delete (trim state) s.
Proof.
  unfold callback_begin. cbn zeta. destruct (is_empty (trim code) || is_empty (trim state)) eqn:He; [done|].
  destruct (isValidStripeOAuthState (trim state)) eqn:Hv; [|done]. cbn [negb]. rewrite consume_state_spec.
  destruct (s !! trim state) as [exp|]; [|done]. destruct (now <=? exp) eqn:Hle; [|done]. cbn [negb]. intros [= <- <-].
  apply orb_false_iff in He as [Hc _]. split_and!; [done|done|done| |done]. exists exp. split; [done|lia].
Qed.

Lemma persist_holds fresh now user biz acct tok m :
  wf_repo m → ∃ r u, holds r (persist fresh now user biz acct tok (find_existing biz acct m) m) ∧
    describes r u biz acct "stripe" tok.
Proof.
  intros Hw. unfold persist, find_existing. destruct (List.find _ _) as [r|] eqn:Hf.
  - apply List.find_some in Hf as [Hin%list_elem_of_In Ha]. destruct (list_sound biz m r acct Hw Hin Ha) as (Hh & u & t & Hd).
    destruct (update_describes now biz r acct tok m Hw Hh) as (r' & u' & Hr' & Hd'); [by exists u, t|]. by exists r', u'.
  - destruct (create_describes fresh now user biz acct tok m) as (r & Hr & Hd). by exists r, user.
Qed.
End Callback.

(** ** Properties *)

(** A Stripe callback succeeds only with a well-formed state that is stored
    and unexpired, and an account and a token one of at most three token
    requests returned; the business then has an integration of the account
    with that token, and the state cannot be presented again.  Every other
    outcome leaves the repository as it was. *)
Theorem stripe_callback_authorised {T E} `{H : IntegrationRepository T} (fetch : string → Z → result E http) env draw
    fresh now now' code state user biz s m g :
  wf_repo m →
  let '(a, s', m', _) := handleCallback fetch env draw fresh now now' code state user biz s m g in
  match a with
  | Success acct =>
      isValidStripeOAuthState (trim state) = true ∧ (∃ exp, s !! trim state = Some exp ∧ now ≤ exp) ∧
      s' = delete (trim state) s ∧
      ∃ n h d t, 0 ≤ n ≤ 2 ∧ fetch (trim code) n = Ok h ∧ http_ok h = true ∧ h_body h = Some d ∧
        access_token d = Some t ∧ is_empty t = false ∧ stripe_user_id d = Some acct ∧ is_empty acct = false ∧
        ∃ r u, holds r m' ∧ describes r u biz acct "stripe" (("accessToken", t) :: rest d)
  | _ => m' = m
  end.
Proof.
  intros Hw. unfold handleCallback. destruct (callback_begin now code state s) as [[e|code'] s'] eqn:Hb; [done|].
  apply stripe_begin_inr in Hb as (-> & _ & Hv & Hexp & Hs).
  pose proof (retry_loop_ends (fetch (trim code)) (λ h, DEFAULT_SHOULD_RETRY (h_status h)) caller_options env draw 2 0 g) as He.
  unfold executeWithRetry. change (Z.to_nat (o_maxRetries caller_options)) with 2%nat.
  destruct (retry_loop _ _ _ _ _ 2 0 g) as [[x g'] slept]. destruct He as (Hlen & _ & Hend).
  unfold exchange. destruct x as [h|[e|? ? ?]]; [|done|done]. destruct (http_ok h) eqn:Ho; [|done]. cbn [negb].
  destruct (h_body h) as [[at_ acct_ rest_]|] eqn:Hd; [|done]. cbn.
  destruct at_ as [[|c1 t]|]; [done| |done]. destruct acct_ as [[|c2 acct]|]; [done| |done]. cbn.
  split_and!; [done|done|done|]. destruct Hend as [[Hy _]|((? & ? & ? & [=]) & _)]. rewrite Z.add_0_l in Hy.
  eexists (Z.of_nat (length slept)), h, _, (String c1 t). split_and!; try done; try lia.
  - destruct (fetch (trim code) (Z.of_nat (length slept))); by inversion Hy.
  - by apply persist_holds.
Qed.

(** A state is not bound to who started the connect: until it expires, one
    callback with it succeeds for any user and any business, and attaches the
    account the presented code stands for. *)
Theorem stripe_state_not_bound {T E} `{H : IntegrationRepository T} (fetch : string → Z → result E http) env draw
    fresh now0 now now' code state user biz s m g h d t acct st s1 :
  startConnect state now0 s = (Some st, s1) → isValidStripeOAuthState state = true → trim state = state →
  now ≤ now0 + 600000 → is_empty (trim code) = false →
  fetch (trim code) 0 = Ok h → http_ok h = true → h_body h = Some d →
  access_token d = Some t → is_empty t = false → stripe_user_id d = Some acct → is_empty acct = false →
  wf_repo m →
  let '(a, _, m', _) := handleCallback fetch env draw fresh now now' code st user biz s1 m g in
  a = Success acct ∧ ∃ r u, holds r m' ∧ describes r u biz acct "stripe" (("accessToken", t) :: rest d).
Proof.
  intros Hst Hv Htrim Hle Hc Hf Ho Hbody Ht Hte Ha Hae Hw.
  unfold startConnect, setOAuthState in Hst. destruct (assertNonEmptyString state "state"); [|done]. injection Hst as <- <-.
  assert (is_empty state = false) as Hse by by destruct state.
  unfold handleCallback, callback_begin. rewrite Htrim, Hc, Hse, Hv, consume_state_spec, lookup_insert_eq. cbn [orb negb].
  assert ((now <=? now0 + 600000) = true) as -> by lia. cbn [negb].
  unfold executeWithRetry. change (Z.to_nat (o_maxRetries caller_options)) with 2%nat. cbn [retry_loop]. rewrite Hf.
  assert (DEFAULT_SHOULD_RETRY (h_status h) = false) as Hr.
  { unfold http_ok in Ho. unfold DEFAULT_SHOULD_RETRY. apply orb_false_iff. bool_lia. }
  cbn [is_failure]. rewrite Hr. cbn [negb answer exchange]. rewrite Ho, Hbody. cbn [negb]. rewrite Ht, Ha.
  destruct t as [|c1 t]; [done|]. destruct acct as [|c2 acct]; [done|]. cbn. split; [done|]. by apply persist_holds.
Qed.

(** Upserts keep one record per account with the time of the first. *)
Theorem upsert_keeps_creation now now' u t t' b b' m r m1 r' m2 :
  upsertStripeIntegration now u t b m = (Ok r, m1) → upsertStripeIntegration now' u t' b' m1 = (Ok r', m2) →
  si_createdAt r' = si_createdAt r ∧ si_updatedAt r' = now' ∧ getStripeIntegration u m2 = Some r' ∧
  (∀ u', u' ≠ u → getStripeIntegration u' m2 = getStripeIntegration u' m).
Proof.
  unfold upsertStripeIntegration, getStripeIntegration.
  destruct (assertNonEmptyString u _); [|done]. destruct (assertNonEmptyString t _); [|done].
  destruct (assertNonEmptyString b _); [|done]. destruct (assertNonEmptyString t' _); [|done].
  destruct (assertNonEmptyString b' _); [|done]. intros [= <- <-] [= <- <-].
  rewrite !lookup_insert_eq. split_and!; [done|done|done|]. intros u' Hu. by rewrite !lookup_insert_ne.
Qed.

(** ** Concrete requests *)
Definition sample_state : string := "0123456789abcdef0123456789abcdef0123456789abcdef0123456789abcdef".
Definition sample_fetch (code : string) (k : Z) : result unit http :=
  Ok {| h_status := 200; h_body := Some {| access_token := Some "sk"; stripe_user_id := Some "acct_1"; rest := [] |} |}.

Lemma no_records : wf_repo (T := list (string * Integration object)) [].
Proof. split; [apply NoDup_nil_2|done]. Qed.

Lemma stripe_callback_authorised_witness :
  let r := handleCallback sample_fetch (env_at 0) (λ _, 0) "i1" 5 6 "code" sample_state "u" "b" {[sample_state := 10]}
             [] (small_budget 5) in
  r.1.1.1 = Success "acct_1" ∧ r.1.1.2 = delete sample_state {[sample_state := 10]}.
Proof.
  intros r. assert (r.1.1.1 = Success "acct_1") as Ha by (vm_compute; reflexivity). unfold r in *. clear r.
  pose proof (stripe_callback_authorised sample_fetch (env_at 0) (λ _, 0) "i1" 5 6 "code" sample_state "u" "b"
           {[sample_state := 10]} [] (small_budget 5) no_records) as Hw.
  destruct (handleCallback _ _ _ _ _ _ _ _ _ _ _ _ _) as [[[a s'] m'] g']. cbn in Ha. subst a. cbn.
  split; [done|]. apply Hw.
Defined.

Lemma stripe_state_not_bound_witness :
  ∃ s2 m2 g2, handleCallback sample_fetch (env_at 0) (λ _, 0) "i1" 5 6 "victim's code" sample_state "mallory" "b2"
    (startConnect sample_state 0 ∅).2 [] (small_budget 5) = (Success "acct_1", s2, m2, g2).
Proof.
  pose proof (stripe_state_not_bound sample_fetch (env_at 0) (λ _, 0) "i1" 0 5 6 "victim's code" sample_state "mallory" "b2" ∅ []
           (small_budget 5) _ _ "sk" "acct_1" sample_state (startConnect sample_state 0 ∅).2
           eq_refl eq_refl eq_refl ltac:(lia) eq_refl eq_refl eq_refl eq_refl eq_refl eq_refl eq_refl eq_refl
           no_records) as Hw.
  destruct (handleCallback _ _ _ _ _ _ _ _ _ _ _ _ _) as [[[a s2] m2] g2]. destruct Hw as [-> _]. by exists s2, m2, g2.
Defined.

Lemma upsert_keeps_creation_witness :
  ∃ r r', si_createdAt r = 1 ∧ si_createdAt r' = si_createdAt r ∧
    getStripeIntegration "a" (upsertStripeIntegration 9 "a" "t2" "b" (upsertStripeIntegration 1 "a" "t" "b" ∅).2).2 = Some r'.
Proof.
  eexists _, _. split; [|split].
  2: exact (proj1 (upsert_keeps_creation 1 9 "a" "t" "t2" "b" "b" ∅ _ _ _ _ eq_refl eq_refl)).
  - vm_compute. reflexivity.
  - exact (proj1 (proj2 (proj2 (upsert_keeps_creation 1 9 "a" "t" "t2" "b" "b" ∅ _ _ _ _ eq_refl eq_refl)))).
Defined.
