(* ===== verification/RolePromotion.v ===== *)
(** * Roles of users: [src/repositories/rolePromotionRequestRepository.ts] and
    the user and role routes of [src/routes/admin.ts].

    The routes stand behind the modelled [requireAuth] and
    [requirePermissions] on the modelled user repository.  Between the guards
    and the answer of a route there are only in-memory operations, so a
    request is one step; the audit log is the list of what the routes write
    to it. *)

From S2P Require Import Prelude JsString Collections.
From S2P Require Import UserRepository.
From S2P Require AccessControl.
#[local] Open Scope Z_scope.

(** ** Requests for a role *)

Inductive RolePromotionRequestStatus := pending | approved | expired | rejected.

#[export] Instance status_eq_dec : EqDecision RolePromotionRequestStatus.
Proof. solve_decision. Defined.

Record RolePromotionRequest := {
  rq_id : string; targetUserId : string; requestedRole : UserRole; requestedByAdminId : string;
  status : RolePromotionRequestStatus; rq_createdAt : Z; expiresAt : Z;
  approvedByAdminId : option string; approvedAt : option Z
}.

Record request_store := {
  rolePromotionRequests : list (string * RolePromotionRequest);
  targetUserIndex : list (string * list string)
}.

Definition no_requests : request_store := {| rolePromotionRequests := []; targetUserIndex := [] |}.

Definition saveRequest (q : RolePromotionRequest) (s : request_store) : request_store :=
  let ids := default [] (map_get (targetUserId q) (targetUserIndex s)) in
  {| rolePromotionRequests := map_set (rq_id q) q (rolePromotionRequests s);
     targetUserIndex := map_set (targetUserId q) (if includes (rq_id q) ids then ids else ids ++ [rq_id q])
                          (targetUserIndex s) |}.

Definition createRolePromotionRequest (fresh : string) (now ttlMinutes : Z) (target : string) (r : UserRole) (by_ : string)
    (s : request_store) : RolePromotionRequest * request_store :=
  let q := {| rq_id := fresh; targetUserId := target; requestedRole := r; requestedByAdminId := by_; status := pending;
              rq_createdAt := now; expiresAt := now + ttlMinutes * 60 * 1000;
              approvedByAdminId := None; approvedAt := None |} in
  (q, saveRequest q s).

Definition findRolePromotionRequestById (i : string) (s : request_store) : option RolePromotionRequest :=
  map_get i (rolePromotionRequests s).

(** The record with the updates that are given. *)
Definition updated (st : option RolePromotionRequestStatus) (by_ : option string) (at_ : option Z)
    (q : RolePromotionRequest) : RolePromotionRequest :=
  {| rq_id := rq_id q; targetUserId := targetUserId q; requestedRole := requestedRole q;
     requestedByAdminId := requestedByAdminId q; status := default (status q) st;
     rq_createdAt := rq_createdAt q; expiresAt := expiresAt q;
     approvedByAdminId := match by_ with Some b => Some b | None => approvedByAdminId q end;
     approvedAt := match at_ with Some t => Some t | None => approvedAt q end |}.

Definition updateRolePromotionRequest (i : string) (st : option RolePromotionRequestStatus) (by_ : option string)
    (at_ : option Z) (s : request_store) : option RolePromotionRequest * request_store :=
  match map_get i (rolePromotionRequests s) with
  | None => (None, s)
  | Some q =>
      let next := updated st by_ at_ q in
      (Some next, saveRequest next s)
  end.

Definition status_value (s : RolePromotionRequestStatus) : string :=
  match s with pending => "pending" | approved => "approved" | expired => "expired" | rejected => "rejected" end.

Definition is_pending (q : RolePromotionRequest) : bool := bool_decide (status q = pending).

Definition findPendingRolePromotionRequestsForTarget (target : string) (s : request_store) : list RolePromotionRequest :=
  List.filter is_pending
    (omap (λ i, map_get i (rolePromotionRequests s)) (default [] (map_get target (targetUserIndex s)))).

(** One turn of the loop of [sweepExpiredRequests]. *)
Definition sweep_one (now : Z) (acc : Z * request_store) (i : string) : Z * request_store :=
  let '(count, s) := acc in
  match map_get i (rolePromotionRequests s) with
  | Some q => if is_pending q && (expiresAt q <? now)
              then (count + 1, (updateRolePromotionRequest i (Some expired) None None s).2) else (count, s)
  | None => (count, s)
  end.

Definition sweepExpiredRequests (now : Z) (s : request_store) : Z * request_store :=
  fold_left (sweep_one now) (map fst (rolePromotionRequests s)) (0, s).

Definition clearAllRolePromotionRequests (s : request_store) : request_store := no_requests.

(** ** The administration routes *)

Record audit := { au_actor : string; au_action : string; au_resourceId : string; au_outcome : string }.

Record state := { people : store; requests : request_store; audit_log : list audit }.

Definition with_people (p : store) (st : state) : state :=
  {| people := p; requests := requests st; audit_log := audit_log st |}.
Definition with_requests (q : request_store) (st : state) : state :=
  {| people := people st; requests := q; audit_log := audit_log st |}.
Definition log (actor action i outcome : string) (st : state) : state :=
  {| people := people st; requests := requests st;
     audit_log := audit_log st ++ [{| au_actor := actor; au_action := action; au_resourceId := i; au_outcome := outcome |}] |}.

(** What [requirePermissions] reads of a stored role: nothing of a falsy one;
    a truthy one whose text is empty names no permissions, like ["[]"]. *)
Definition role_key (r : UserRole) : string :=
  match r with
  | Text s => s
  | NotText truthy text => if negb truthy then EmptyString else if is_empty text then "[]" else text
  end.

Abbreviation answer := AccessControl.response.
Definition answer_with (s : Z) (d : string) : answer := {| AccessControl.status := s; AccessControl.detail := d |}.

(** [PATCH /users/:id]; the fields of the body, which is not validated, are
    those [updateUser] reads. *)
Definition patch_user (now : Z) (actor i : string) (updates : UpdateUserData) (st : state) : answer * state :=
  match findUserById i (people st) with
  | None => (answer_with 404 "User not found", log actor "UPDATE_USER" i "not_found" st)
  | Some _ =>
      let '(u, p) := updateUser now i updates (people st) in
      match u with
      | None => (answer_with 404 "User not found", log actor "UPDATE_USER" i "not_found" (with_people p st))
      | Some _ => (answer_with 200 EmptyString, log actor "UPDATE_USER" i "success" (with_people p st))
      end
  end.

(** [POST /users/:id/role]; [valid]: the body asks for [business_admin]. *)
Definition promote_user (now : Z) (actor i : string) (valid : bool) (st : state) : answer * state :=
  let audited := log actor "PROMOTE_USER_ROLE" i in
  if negb valid then (answer_with 400 "role must be business_admin", audited "invalid_input" st)
  else if String.eqb actor i then (answer_with 403 "Self-promotion is not allowed", audited "forbidden_self_promotion" st)
  else
    let '(promotion, p) := promoteUserToBusinessAdmin now i (people st) in
    let st := with_people p st in
    match promotion with
    | NotFound => (answer_with 404 "User not found", audited "not_found" st)
    | AlreadyBusinessAdmin _ => (answer_with 200 EmptyString, audited "noop" st)
    | InvalidCurrentRole _ => (answer_with 409 "User cannot be promoted from current role", audited "conflict" st)
    | Promoted _ => (answer_with 200 EmptyString, audited "success" st)
    end.

(** [DELETE /users/:id] *)
Definition delete_user (actor i : string) (st : state) : answer * state :=
  match findUserById i (people st) with
  | None => (answer_with 404 "User not found", log actor "DELETE_USER" i "not_found" st)
  | Some _ =>
      let '(deleted, p) := deleteUser i (people st) in
      if negb deleted then (answer_with 404 "User not found", log actor "DELETE_USER" i "not_found" (with_people p st))
      else (answer_with 204 EmptyString, log actor "DELETE_USER" i "success" (with_people p st))
  end.

(** [createRolePromotionRequestSchema] on a body with a text as its target. *)
Definition requestable (r : UserRole) : bool :=
  bool_decide (r = user) || bool_decide (r = business_admin) || bool_decide (r = admin).

(** [POST /role-requests]; [body]: the target, when it is a text, and the
    role. *)
Definition create_request (fresh : string) (now ttlMinutes : Z) (actor : string) (body : option (string * UserRole))
    (st : state) : answer * state :=
  match body with
  | None => (answer_with 400 "Bad Request", st)
  | Some (target, r) =>
      if negb (requestable r) then (answer_with 400 "Bad Request", st)
      else match findUserById target (people st) with
      | None => (answer_with 404 "Target user not found", st)
      | Some _ =>
          if existsb (λ q, bool_decide (requestedRole q = r))
               (findPendingRolePromotionRequestsForTarget target (requests st))
          then (answer_with 409 "Pending request for this role already exists", st)
          else
            let '(q, rs) := createRolePromotionRequest fresh now ttlMinutes target r actor (requests st) in
            (answer_with 201 (rq_id q), log actor "CREATE_ROLE_PROMOTION_REQUEST" (rq_id q) EmptyString (with_requests rs st))
      end
  end.

(** [POST /role-requests/:id/approve] *)
Definition approve_request (now : Z) (actor i : string) (st : state) : answer * state :=
  match findRolePromotionRequestById i (requests st) with
  | None => (answer_with 404 "Role promotion request not found", st)
  | Some q =>
      if negb (is_pending q) then (answer_with 409 ("Request is already " +:+ status_value (status q)), st)
      else if expiresAt q <? now then
        (answer_with 409 "Role promotion request has expired",
         with_requests (updateRolePromotionRequest i (Some expired) None None (requests st)).2 st)
      else if String.eqb (requestedByAdminId q) actor then
        (answer_with 403 "Self-approval is not allowed",
         log actor "APPROVE_ROLE_PROMOTION_REQUEST" i "forbidden_self_approval" st)
      else match findUserById (targetUserId q) (people st) with
           | None => (answer_with 404 "Target user no longer exists", st)
           | Some _ =>
               let '(updated, rs) := updateRolePromotionRequest i (Some approved) (Some actor) (Some now) (requests st) in
               let st := with_requests rs st in
               match updated with
               | None => (answer_with 500 "Failed to update request", st)
               | Some _ =>
                   let p := (updateUser now (targetUserId q)
                               {| u_email := None; u_passwordHash := None; u_resetToken := Keep;
                                  u_resetTokenExpiry := Keep; u_role := Some (requestedRole q) |} (people st)).2 in
                   (answer_with 200 EmptyString, log actor "APPROVE_ROLE_PROMOTION_REQUEST" i "success" (with_people p st))
               end
           end
  end.

(** What can happen to users and requests.  Each route carries the HTTP
    request that its guards see; the body and the parameters the handler reads
    are spelled out. *)
Inductive event :=
| PatchUser (r : AccessControl.request) (now : Z) (i : string) (updates : UpdateUserData)
| PromoteUser (r : AccessControl.request) (now : Z) (i : string) (valid : bool)
| DeleteUser (r : AccessControl.request) (i : string)
| CreateRequest (r : AccessControl.request) (fresh : string) (now : Z) (body : option (string * UserRole))
| ApproveRequest (r : AccessControl.request) (now : Z) (i : string)
| Sweep (now : Z)
| Signup (fresh : string) (now : Z) (mail hash : string).

Section Routes.
Context (verifyToken : string → option string) (ttlMinutes : Z).

(** The guards of the routes. *)
Definition admin_guard (p : store) : AccessControl.request → AccessControl.outcome :=
  AccessControl.andThen
    (AccessControl.requireAuth verifyToken (λ i, (λ u, role_key (role u)) <$> findUserById i p))
    (AccessControl.requirePermissions [AccessControl.ADMIN_MANAGE_USERS] AccessControl.no_options).

Definition guarded (r : AccessControl.request) (handler : string → state → answer * state) (st : state) : answer * state :=
  match admin_guard (people st) r with
  | AccessControl.Respond x => (x, st)
  | AccessControl.Next r =>
      match AccessControl.r_user r with
      | Some u => handler (AccessControl.u_id u) st
      | None => (answer_with 500 "Internal Server Error", st)
      end
  end.

Definition step (e : event) (st : state) : answer * state :=
  match e with
  | PatchUser r now i updates => guarded r (λ a, patch_user now a i updates) st
  | PromoteUser r now i valid => guarded r (λ a, promote_user now a i valid) st
  | DeleteUser r i => guarded r (λ a, delete_user a i) st
  | CreateRequest r fresh now body => guarded r (λ a, create_request fresh now ttlMinutes a body) st
  | ApproveRequest r now i => guarded r (λ a, approve_request now a i) st
  | Sweep now => (answer_with 0 EmptyString, with_requests (sweepExpiredRequests now (requests st)).2 st)
  | Signup fresh now mail hash => (answer_with 201 EmptyString, with_people (createUser fresh now mail hash (people st)).2 st)
  end.

Definition run (es : list event) (st : state) : state := fold_left (λ st e, (step e st).2) es st.
End Routes.

(** ** Lemmas *)

(** Ids of new requests and users are not in use. *)
Definition fresh_event (e : event) (st : state) : bool :=
  match e with
  | CreateRequest _ fresh _ _ =>
      match map_get fresh (rolePromotionRequests (requests st)) with None => true | Some _ => false end
  | Signup fresh now mail hash => fresh_id (Create fresh now mail hash) (people st)
  | _ => true
  end.

Section Proofs.
Context (verifyToken : string → option string) (ttlMinutes : Z).
Abbreviation step := (step verifyToken ttlMinutes).
Abbreviation run := (run verifyToken ttlMinutes).

(** The role a request acts with: the stored one or, when that is falsy, the
    one the client names in a header. *)
Definition acting_role (r : AccessControl.request) (u : User) : string :=
  default "user" (AccessControl.or_else (Some (role_key (role u))) (AccessControl.non_empty (AccessControl.x_user_role r))).

(** The user whose token a request carries, when it acts as administrator. *)
Definition acting_admin (p : store) (r : AccessControl.request) : option string :=
  match AccessControl.bearer (AccessControl.authorization r) ≫= verifyToken with
  | Some uid => match findUserById uid p with
                | Some u => if String.eqb (acting_role r u) "admin" && negb (is_empty uid) then Some uid else None
                | None => None
                end
  | None => None
  end.

(** [a] is signed in and has a stored role that reads "admin"; or a stored
    role that is falsy, and names itself administrator. *)
Definition manages (p : store) (r : AccessControl.request) (a : string) : Prop :=
  ∃ token u, AccessControl.bearer (AccessControl.authorization r) = Some token ∧ verifyToken token = Some a ∧
    findUserById a p = Some u ∧
    (role_key (role u) = "admin" ∨ role_key (role u) = EmptyString ∧ AccessControl.x_user_role r = Some "admin").

Lemma acting_role_admin r u :
  acting_role r u = "admin" ↔
  role_key (role u) = "admin" ∨ role_key (role u) = EmptyString ∧ AccessControl.x_user_role r = Some "admin".
Proof.
  unfold acting_role. destruct (role_key (role u)) as [|c k]; cbn.
  - destruct (AccessControl.x_user_role r) as [[|c k]|]; cbn; (split; [intros; right; split; congruence|intros [?|[_ ?]]; congruence]).
  - split; [by left|intros [?|[? _]]; congruence].
Qed.

Lemma acting_manages p r a : acting_admin p r = Some a → manages p r a.
Proof.
  unfold acting_admin, manages. destruct (AccessControl.bearer _) as [tok|]; [|done]. cbn [mbind option_bind].
  destruct (verifyToken tok) as [uid|] eqn:Hv; [|done]. destruct (findUserById uid p) as [u|] eqn:Hu; [|done].
  case_if; [|done]. intros [= <-]. apply andb_true_iff in Heqb as [Hr%String.eqb_eq _].
  exists tok, u. split_and!; [done..|by apply acting_role_admin].
Qed.

(** Only "admin" may manage users; some names of [Object.prototype] make the
    check throw. *)
Lemma permissions_of_role k :
  (∃ l, AccessControl.getUserPermissions k = Some l ∧
        AccessControl.has_permission l AccessControl.ADMIN_MANAGE_USERS = String.eqb k "admin") ∨
  (AccessControl.getUserPermissions k = None ∧ String.eqb k "admin" = false).
Proof.
  unfold AccessControl.getUserPermissions.
  destruct (String.eqb_spec k "user") as [->|]; [left; by eexists|].
  destruct (String.eqb_spec k "business_admin") as [->|]; [left; by eexists|].
  destruct (String.eqb_spec k "admin") as [->|]; [left; by eexists|].
  case_if; [by right|left; by eexists].
Qed.

(** The guards let exactly those through. *)
Lemma guarded_spec r h st :
  match acting_admin (people st) r with
  | Some a => guarded verifyToken r h st = h a st
  | None => ∃ x, guarded verifyToken r h st = (x, st)
  end.
Proof.
  unfold acting_admin, guarded, admin_guard, AccessControl.andThen, AccessControl.requireAuth.
  destruct (AccessControl.bearer (AccessControl.authorization r)) as [tok|]; cbn [mbind option_bind]; [|by eexists].
  destruct (verifyToken tok) as [uid|]; [|by eexists].
  destruct (findUserById uid (people st)) as [u|]; cbn [fmap option_fmap option_map]; [|by eexists].
  unfold AccessControl.requirePermissions. cbn [AccessControl.r_user AccessControl.with_user AccessControl.u_userId].
  destruct (is_empty uid); [rewrite andb_false_r; by eexists|]. rewrite andb_true_r.
  fold (acting_role r u). cbn [AccessControl.u_role AccessControl.x_user_role AccessControl.with_user].
  change (default "user" _) with (acting_role r u). generalize (acting_role r u) as k. intros k.
  unfold AccessControl.createContext. destruct (permissions_of_role k) as [(l & -> & Hl)|[-> ->]]; [|by eexists].
  cbn [fmap option_fmap option_map]. unfold AccessControl.checkPermissions, AccessControl.missing. cbn -[AccessControl.has_permission]. rewrite Hl.
  destruct (String.eqb k "admin"); cbn; [done|by eexists].
Qed.

(** Requests are stored under their ids. *)
Definition keyed (s : request_store) : Prop := ∀ i q, map_get i (rolePromotionRequests s) = Some q → rq_id q = i.

Lemma update_get i st b a s j :
  keyed s →
  map_get j (rolePromotionRequests (updateRolePromotionRequest i st b a s).2) =
  if String.eqb j i then updated st b a <$> map_get i (rolePromotionRequests s) else map_get j (rolePromotionRequests s).
Proof.
  intros Hk. unfold updateRolePromotionRequest. destruct (map_get i (rolePromotionRequests s)) as [q|] eqn:Hq; cbn [snd].
  - cbn -[updated map_set]. rewrite map_get_set. change (rq_id (updated st b a q)) with (rq_id q). by rewrite (Hk _ _ Hq).
  - destruct (String.eqb_spec j i) as [->|]; done.
Qed.

Lemma save_keyed q s : keyed s → keyed (saveRequest q s).
Proof. intros Hk i q'. cbn. rewrite map_get_set. destruct (String.eqb_spec i (rq_id q)) as [->|]; [by intros [= <-]|apply Hk]. Qed.

Lemma update_keyed i st b a s : keyed s → keyed (updateRolePromotionRequest i st b a s).2.
Proof. intros Hk. unfold updateRolePromotionRequest. case_match; [by apply save_keyed|done]. Qed.

Definition overdue (now : Z) (q : RolePromotionRequest) : bool := is_pending q && (expiresAt q <? now).

(** What a sweep makes of a request. *)
Definition swept (now : Z) (q : RolePromotionRequest) : RolePromotionRequest :=
  if overdue now q then updated (Some expired) None None q else q.

Lemma sweep_one_get now n s i j :
  keyed s →
  let s' := (sweep_one now (n, s) i).2 in
  keyed s' ∧ map_get j (rolePromotionRequests s') =
             if String.eqb j i then swept now <$> map_get i (rolePromotionRequests s) else map_get j (rolePromotionRequests s).
Proof.
  intros Hk. cbn -[updateRolePromotionRequest]. destruct (map_get i (rolePromotionRequests s)) as [q|] eqn:Hq.
  - cbn [fmap option_fmap option_map]. unfold swept. fold (overdue now q). destruct (overdue now q); cbn [snd].
    + split; [by apply update_keyed|]. by rewrite update_get, Hq.
    + split; [done|]. by destruct (String.eqb_spec j i) as [->|].
  - split; [done|]. by destruct (String.eqb_spec j i) as [->|].
Qed.

Lemma swept_idem now q : swept now (swept now q) = swept now q.
Proof. unfold swept at 2 3. destruct (overdue now q) eqn:H; [done|]. unfold swept. by rewrite H. Qed.

Lemma sweep_fold_get now ids : ∀ n s j,
  keyed s →
  let s' := (fold_left (sweep_one now) ids (n, s)).2 in
  keyed s' ∧ map_get j (rolePromotionRequests s') =
             if includes j ids then swept now <$> map_get j (rolePromotionRequests s) else map_get j (rolePromotionRequests s).
Proof.
  induction ids as [|i ids IH]; intros n s j Hk; [done|]. cbn [fold_left].
  destruct (sweep_one now (n, s) i) as [n1 s1] eqn:E. destruct (sweep_one_get now n s i j Hk) as [Hk1 Hg].
  rewrite E in Hk1, Hg. cbn [snd] in Hk1, Hg. destruct (IH n1 s1 j Hk1) as [Hk2 H2]. split; [done|]. rewrite H2, Hg.
  cbn [includes existsb]. destruct (String.eqb_spec j i) as [->|Hj]; cbn [orb]; [|done].
  rewrite <- option_fmap_compose. case_if; [|done]. apply option_fmap_ext. intros q. apply swept_idem.
Qed.

(** A sweep treats every request. *)
Lemma sweep_get now s j :
  keyed s →
  let s' := (sweepExpiredRequests now s).2 in
  keyed s' ∧ map_get j (rolePromotionRequests s') = swept now <$> map_get j (rolePromotionRequests s).
Proof.
  intros Hk. destruct (sweep_fold_get now (map fst (rolePromotionRequests s)) 0 s j Hk) as [Hk' Hg].
  split; [done|]. unfold sweepExpiredRequests. rewrite Hg. case_if; [done|].
  destruct (map_get j (rolePromotionRequests s)) as [q|] eqn:Hq; [|done]. exfalso.
  apply map_get_Some in Hq. apply not_true_iff_false in Heqb. apply Heqb. unfold includes. apply existsb_exists. exists j.
  split; [|apply String.eqb_refl]. apply in_map_iff. exists (j, q). split; [done|by apply list_elem_of_In].
Qed.

(** *** Requests *)

(** The requests for a target are listed under it. *)
Definition indexed (s : request_store) : Prop :=
  ∀ i q, map_get i (rolePromotionRequests s) = Some q → i ∈ default [] (map_get (targetUserId q) (targetUserIndex s)).

Lemma save_indexed q s :
  indexed s → (∀ q0, map_get (rq_id q) (rolePromotionRequests s) = Some q0 → targetUserId q0 = targetUserId q) →
  indexed (saveRequest q s).
Proof.
  intros Hi Ht i q'. cbn. rewrite !map_get_set.
  set (ids := default [] (map_get (targetUserId q) (targetUserIndex s))).
  assert (Hin : ∀ k, k ∈ ids ∨ k = rq_id q → k ∈ if includes (rq_id q) ids then ids else ids ++ [rq_id q]).
  { intros k Hk. destruct (includes (rq_id q) ids) eqn:E.
    - apply includes_spec in E. by destruct Hk as [?| ->].
    - apply elem_of_app. by rewrite list_elem_of_singleton. }
  destruct (String.eqb_spec i (rq_id q)) as [->|Hne].
  - intros [= <-]. rewrite String.eqb_refl. apply Hin. by right.
  - intros Hq'. pose proof (Hi _ _ Hq') as H'.
    destruct (String.eqb_spec (targetUserId q') (targetUserId q)) as [He|]; [|done]. apply Hin. left. unfold ids. by rewrite <- He.
Qed.

Lemma update_indexed i st b a s : keyed s → indexed s → indexed (updateRolePromotionRequest i st b a s).2.
Proof.
  intros Hk Hi. unfold updateRolePromotionRequest.
  destruct (map_get i (rolePromotionRequests s)) as [q|] eqn:Hq; [|done]. apply save_indexed; [done|].
  cbn. rewrite (Hk _ _ Hq), Hq. by intros q0 [= ->].
Qed.

Lemma sweep_indexed now s : keyed s → indexed s → indexed (sweepExpiredRequests now s).2.
Proof.
  unfold sweepExpiredRequests. generalize 0 as n, (map fst (rolePromotionRequests s)) as ids. intros n ids. revert n s.
  induction ids as [|i ids IH]; intros n s Hk Hi; [done|]. cbn [fold_left].
  destruct (sweep_one now (n, s) i) as [n1 s1] eqn:E.
  pose proof (proj1 (sweep_one_get now n s i EmptyString Hk)) as Hk1. rewrite E in Hk1. apply IH; [done|].
  unfold sweep_one in E. destruct (map_get i (rolePromotionRequests s)) as [q|]; [|by injection E as <- <-].
  destruct (is_pending q && (expiresAt q <? now)); injection E as <- <-; [by apply update_indexed|done].
Qed.

Lemma pending_listed i q s :
  indexed s → map_get i (rolePromotionRequests s) = Some q → status q = pending →
  q ∈ findPendingRolePromotionRequestsForTarget (targetUserId q) s.
Proof.
  intros Hi Hq Hp. unfold findPendingRolePromotionRequestsForTarget. apply list_elem_of_In, filter_In. split.
  - apply list_elem_of_In, list_elem_of_omap. exists i. split; [by apply Hi|done].
  - unfold is_pending. by apply bool_decide_eq_true.
Qed.

(** How a request may change: not at all, or from pending to expired, or to
    approved by somebody else than its author. *)
Definition evolves (q0 q : RolePromotionRequest) : Prop :=
  (rq_id q, targetUserId q, requestedRole q, requestedByAdminId q, expiresAt q) =
  (rq_id q0, targetUserId q0, requestedRole q0, requestedByAdminId q0, expiresAt q0) ∧
  (q = q0 ∨ status q0 = pending ∧
     (status q = expired ∨ status q = approved ∧ ∃ b, approvedByAdminId q = Some b ∧ b ≠ requestedByAdminId q)).

Lemma evolves_refl q : evolves q q.
Proof. split; [done|by left]. Qed.

(** [e] created the request [q] with id [j] in state [st]. *)
Definition creates (e : event) (st : state) (j : string) (q : RolePromotionRequest) : Prop :=
  ∃ r now, e = CreateRequest r j now (Some (targetUserId q, requestedRole q)) ∧
    acting_admin (people st) r = Some (requestedByAdminId q) ∧ expiresAt q = now + ttlMinutes * 60 * 1000 ∧
    status q = pending ∧ rq_id q = j ∧
    (∀ k q', map_get k (rolePromotionRequests (requests st)) = Some q' → status q' = pending →
       targetUserId q' = targetUserId q → requestedRole q' ≠ requestedRole q).

Definition moves (e : event) (st : state) (j : string) (before after : option RolePromotionRequest) : Prop :=
  match before, after with
  | None, None => True
  | Some q0, Some q => evolves q0 q
  | None, Some q => creates e st j q
  | Some _, None => False
  end.

Lemma moves_refl e st j o : moves e st j o o.
Proof. destruct o; [apply evolves_refl|done]. Qed.

Abbreviation all_requests st := (rolePromotionRequests (requests st)).

Lemma create_moves r fresh now body a st j :
  keyed (requests st) → indexed (requests st) → fresh_event (CreateRequest r fresh now body) st = true →
  acting_admin (people st) r = Some a →
  let st' := (create_request fresh now ttlMinutes a body st).2 in
  keyed (requests st') ∧ indexed (requests st') ∧
  moves (CreateRequest r fresh now body) st j (map_get j (all_requests st)) (map_get j (all_requests st')).
Proof.
  intros Hk Hi Hf Ha. cbn in Hf. unfold create_request.
  destruct body as [[target ro]|]; [|cbn; split_and!; [done|done|apply moves_refl]].
  destruct (requestable ro); cbn [negb]; [|cbn; split_and!; [done|done|apply moves_refl]].
  destruct (findUserById target (people st)); [|cbn; split_and!; [done|done|apply moves_refl]].
  destruct (existsb _ _) eqn:Hex; [cbn; split_and!; [done|done|apply moves_refl]|]. cbn -[saveRequest].
  destruct (map_get fresh (all_requests st)) eqn:Hnone; [done|].
  set (q := {| rq_id := fresh; targetUserId := target |}). split_and!.
  - by apply save_keyed.
  - apply save_indexed; [done|]. cbn. by rewrite Hnone.
  - cbn [rolePromotionRequests saveRequest]. rewrite map_get_set. change (rq_id q) with fresh.
    destruct (String.eqb_spec j fresh) as [->|]; [|apply moves_refl]. rewrite Hnone.
    exists r, now. split_and!; [done|done|done|done|done|]. intros k q' Hq' Hp Ht Hr.
    apply not_true_iff_false in Hex. apply Hex, existsb_exists. exists q'. split.
    + change (targetUserId q) with target in Ht. rewrite <- Ht. by apply list_elem_of_In, pending_listed with k.
    + by apply bool_decide_eq_true.
Qed.

Lemma approve_moves e now a i st j :
  keyed (requests st) → indexed (requests st) →
  let st' := (approve_request now a i st).2 in
  keyed (requests st') ∧ indexed (requests st') ∧ moves e st j (map_get j (all_requests st)) (map_get j (all_requests st')).
Proof.
  intros Hk Hi. unfold approve_request, findRolePromotionRequestById.
  assert (keyed (requests st) ∧ indexed (requests st) ∧ moves e st j (map_get j (all_requests st)) (map_get j (all_requests st)))
    as Hsame by (split_and!; [done|done|apply moves_refl]).
  destruct (map_get i (all_requests st)) as [q|] eqn:Hq; [|exact Hsame].
  destruct (is_pending q) eqn:Hp; cbn [negb]; [|exact Hsame]. apply bool_decide_eq_true in Hp.
  destruct (expiresAt q <? now).
  { cbn -[updateRolePromotionRequest]. split_and!; [by apply update_keyed|by apply update_indexed|].
    rewrite update_get by done. destruct (String.eqb_spec j i) as [->|]; [|apply moves_refl]. rewrite Hq. cbn.
    split; [done|]. right. split; [done|by left]. }
  destruct (String.eqb_spec (requestedByAdminId q) a) as [|Hne]; [exact Hsame|].
  destruct (findUserById (targetUserId q) (people st)); [|exact Hsame].
  pose proof (update_get i (Some approved) (Some a) (Some now) (requests st) j Hk) as Hg.
  pose proof (update_keyed i (Some approved) (Some a) (Some now) _ Hk) as Hk'.
  pose proof (update_indexed i (Some approved) (Some a) (Some now) _ Hk Hi) as Hi'.
  destruct (updateRolePromotionRequest i (Some approved) (Some a) (Some now) (requests st)) as [[w|] rs];
    cbn [snd] in *; cbn [snd requests with_requests with_people log]; (split_and!; [done|done|]); rewrite Hg;
    (destruct (String.eqb_spec j i) as [->|]; [|apply moves_refl]); rewrite Hq; (split; [done|]); right;
    (split; [done|]); right; (split; [done|]); exists a; by split.
Qed.

Lemma sweep_moves e now st j :
  keyed (requests st) → indexed (requests st) →
  let s' := (sweepExpiredRequests now (requests st)).2 in
  keyed s' ∧ indexed s' ∧ moves e st j (map_get j (all_requests st)) (map_get j (rolePromotionRequests s')).
Proof.
  intros Hk Hi. destruct (sweep_get now (requests st) j Hk) as [Hk' Hg].
  split_and!; [done|by apply sweep_indexed|]. rewrite Hg. destruct (map_get j (all_requests st)) as [q|]; [|done].
  cbn. unfold swept. destruct (overdue now q) eqn:Ho; [|apply evolves_refl].
  apply andb_true_iff in Ho as [Hp%bool_decide_eq_true _]. split; [done|]. right. split; [done|by left].
Qed.

(** A route is its handler for an administrator and nothing otherwise. *)
Ltac through_guard :=
  match goal with
  | |- context [guarded ?v ?r ?h ?s] =>
      let Hg := fresh "Hg" in
      pose proof (guarded_spec r h s) as Hg;
      destruct (acting_admin (people s) r) as [a|] eqn:Ha; [rewrite Hg; clear Hg|destruct Hg as [x ->]]
  end.

(** One event, one request. *)
Lemma step_moves e st j :
  keyed (requests st) → indexed (requests st) → fresh_event e st = true →
  let st' := (step e st).2 in
  keyed (requests st') ∧ indexed (requests st') ∧ moves e st j (map_get j (all_requests st)) (map_get j (all_requests st')).
Proof.
  intros Hk Hi Hf.
  assert (keyed (requests st) ∧ indexed (requests st) ∧ moves e st j (map_get j (all_requests st)) (map_get j (all_requests st)))
    as Hsame by (split_and!; [done|done|apply moves_refl]).
  destruct e as [r now i u|r now i v|r i|r fresh now body|r now i|now|fresh now mail hash]; unfold RolePromotion.step.
  - through_guard; [|exact Hsame]. unfold patch_user. destruct (findUserById i (people st)); [|exact Hsame].
    destruct (updateUser now i u (people st)) as [[w|] p]; exact Hsame.
  - through_guard; [|exact Hsame]. unfold promote_user. destruct (negb v); [exact Hsame|]. destruct (String.eqb a i); [exact Hsame|].
    destruct (promoteUserToBusinessAdmin now i (people st)) as [[| | |] p]; exact Hsame.
  - through_guard; [|exact Hsame]. unfold delete_user. destruct (findUserById i (people st)); [|exact Hsame].
    destruct (deleteUser i (people st)) as [[|] p]; exact Hsame.
  - through_guard; [|exact Hsame]. by apply create_moves.
  - through_guard; [|exact Hsame]. by apply approve_moves.
  - by apply sweep_moves.
  - exact Hsame.
Qed.

(** *** Roles *)

Definition role_of (i : string) (st : state) : option UserRole := role <$> findUserById i (people st).

Lemma promote_get now i s j :
  sound s →
  map_get j (users (promoteUserToBusinessAdmin now i s).2) = map_get j (users s) ∨
  j = i ∧ (∃ u, map_get i (users s) = Some u ∧ role u = user ∧
             map_get j (users (promoteUserToBusinessAdmin now i s).2) = Some (set_role now business_admin u)).
Proof.
  intros Hs. unfold promoteUserToBusinessAdmin. destruct (map_get i (users s)) as [u|] eqn:Hu; [|by left].
  destruct (s_id _ Hs i u Hu) as [Hid _]. case_if; [by left|]. case_if; [by left|].
  apply negb_false_iff, bool_decide_eq_true in Heqb0. cbn.
  rewrite map_get_set, Hid. destruct (String.eqb_spec j i) as [->|]; [right|by left]. split; [done|]. by exists u.
Qed.

(** Users after a step: one of the repository's operations, or none. *)
Lemma step_people_sound e st : sound (people st) → fresh_event e st = true → sound (people (step e st).2).
Proof.
  intros Hs Hf.
  destruct e as [r now i u|r now i v|r i|r fresh now body|r now i|now|fresh now mail hash]; unfold RolePromotion.step;
    [through_guard; [|done]|through_guard; [|done]|through_guard; [|done]|through_guard; [|done]|through_guard; [|done]| |].
  - unfold patch_user. destruct (findUserById i (people st)); [|done].
    pose proof (updateUser_sound now i u (people st) Hs). by destruct (updateUser now i u (people st)) as [[w|] p].
  - unfold promote_user. destruct (negb v); [done|]. destruct (String.eqb a i); [done|].
    pose proof (step_sound (Promote now i) (people st) Hs eq_refl) as H. cbn in H.
    by destruct (promoteUserToBusinessAdmin now i (people st)) as [[| | |] p].
  - unfold delete_user. destruct (findUserById i (people st)); [|done].
    pose proof (step_sound (Delete i) (people st) Hs eq_refl) as H. cbn in H. by destruct (deleteUser i (people st)) as [[|] p].
  - unfold create_request. destruct body as [[target ro]|]; [|done]. destruct (requestable ro); [|done]. cbn [negb].
    destruct (findUserById target (people st)); [|done]. by case_if.
  - unfold approve_request. destruct (findRolePromotionRequestById i (requests st)) as [q|]; [|done].
    do 3 (case_if; [done|]). destruct (findUserById (targetUserId q) (people st)); [|done].
    destruct (updateRolePromotionRequest i _ _ _ _) as [[w|] rs]; [|done]. by apply updateUser_sound.
  - done.
  - by apply (step_sound (Create fresh now mail hash)).
Qed.

Lemma updated_role now i d st j r0 r1 :
  sound (people st) → role_of j st = Some r0 →
  role <$> findUserById j (updateUser now i d (people st)).2 = Some r1 → r0 ≠ r1 →
  j = i ∧ u_role d = Some r1.
Proof.
  intros Hs H0 H1 Hne. unfold role_of, findUserById in *. rewrite updateUser_get in H1 by done.
  destruct (String.eqb_spec j i) as [->|]; [|congruence]. split; [done|].
  destruct (map_get i (users (people st))) as [u|]; [|done]. cbn in H0, H1. destruct (u_role d); [done|].
  cbn in H1. congruence.
Qed.

(** What can change the role of a user. *)
Lemma step_role e st i r0 r1 :
  sound (people st) → fresh_event e st = true →
  role_of i st = Some r0 → role_of i (step e st).2 = Some r1 → r0 ≠ r1 →
  match e with
  | PatchUser r _ j u => j = i ∧ u_role u = Some r1 ∧ ∃ a, acting_admin (people st) r = Some a
  | PromoteUser r _ j _ => j = i ∧ r0 = user ∧ r1 = business_admin ∧ ∃ a, acting_admin (people st) r = Some a ∧ a ≠ i
  | ApproveRequest r now j =>
      ∃ b q, acting_admin (people st) r = Some b ∧ map_get j (all_requests st) = Some q ∧ status q = pending ∧
        now ≤ expiresAt q ∧ requestedByAdminId q ≠ b ∧ targetUserId q = i ∧ requestedRole q = r1
  | _ => False
  end.
Proof.
  intros Hs Hf H0 H1 Hne.
  assert (Hsame : role_of i st = Some r1 → False) by congruence.
  destruct e as [r now j u|r now j v|r j|r fresh now body|r now j|now|fresh now mail hash]; unfold RolePromotion.step in H1;
    [revert H1; through_guard; [|by intros ?%Hsame]..| |].
  - unfold patch_user. destruct (findUserById j (people st)); [|by intros ?%Hsame].
    pose proof (updated_role now j u st i r0 r1 Hs H0) as Hu.
    destruct (updateUser now j u (people st)) as [[w|] p]; intros H1; destruct (Hu H1 Hne) as [-> Hr]; split_and!; eauto.
  - unfold promote_user. destruct (negb v); [by intros ?%Hsame|].
    destruct (String.eqb_spec a j) as [->|Haj]; [by intros ?%Hsame|].
    destruct (promote_get now j (people st) i Hs) as [He|(-> & u & Hu & Hru & He)].
    + unfold role_of, findUserById in Hsame.
      destruct (promoteUserToBusinessAdmin now j (people st)) as [[| | |] p]; cbn in *;
        unfold role_of, findUserById; cbn; rewrite He; by intros ?%Hsame.
    + unfold role_of, findUserById in H0. rewrite Hu in H0. cbn in H0.
      destruct (promoteUserToBusinessAdmin now j (people st)) as [[| | |] p]; cbn in He;
        unfold role_of, findUserById; cbn; rewrite He; cbn; intros [= <-]; split_and!; try congruence; by exists a.
  - unfold delete_user. destruct (findUserById j (people st)) as [w|] eqn:Hj; [|by intros ?%Hsame].
    unfold findUserById in Hj. unfold deleteUser. rewrite Hj. cbn [negb snd]. unfold role_of, findUserById. cbn -[map_delete].
    rewrite map_get_delete. case_if; [done|]. by intros ?%Hsame.
  - unfold create_request. destruct body as [[target ro]|]; [|by intros ?%Hsame].
    destruct (requestable ro); cbn [negb]; [|by intros ?%Hsame].
    destruct (findUserById target (people st)); [|by intros ?%Hsame]. by case_if; intros ?%Hsame.
  - unfold approve_request, findRolePromotionRequestById. destruct (map_get j (all_requests st)) as [q|] eqn:Hq; [|by intros ?%Hsame].
    destruct (is_pending q) eqn:Hp; [|by intros ?%Hsame]. destruct (Z.ltb_spec (expiresAt q) now); [by intros ?%Hsame|].
    destruct (String.eqb_spec (requestedByAdminId q) a); [by intros ?%Hsame|]. cbn [negb].
    destruct (findUserById (targetUserId q) (people st)); [|by intros ?%Hsame].
    destruct (updateRolePromotionRequest j _ _ _ _) as [[w|] rs]; [|by intros ?%Hsame]. intros H1.
    destruct (updated_role now (targetUserId q) _ st i r0 r1 Hs H0 H1 Hne) as [-> [= Hr]].
    exists a, q. apply bool_decide_eq_true in Hp. by split_and!.
  - by apply Hsame.
  - apply Hsame. revert H1. unfold role_of, findUserById. cbn. rewrite map_get_set.
    destruct (String.eqb_spec i fresh) as [->|]; [|done]. unfold role_of, findUserById in H0.
    cbn in Hf. apply andb_true_iff in Hf as [_ Hf]. by destruct (map_get fresh (users (people st))).
Qed.

(** *** Runs *)

Fixpoint fresh_run (es : list event) (st : state) : bool :=
  match es with [] => true | e :: es => fresh_event e st && fresh_run es (step e st).2 end.

Lemma fresh_run_app es es' st : fresh_run (es ++ es') st = fresh_run es st && fresh_run es' (run es st).
Proof. revert st. induction es as [|e es IH]; intros st; [done|]. cbn. by rewrite IH, andb_assoc. Qed.

Lemma roles_run_snoc es e st : run (es ++ [e]) st = (step e (run es st)).2.
Proof. unfold RolePromotion.run. by rewrite fold_left_app. Qed.

(** At most one pending request per target and role; whoever approved a
    request did not make it. *)
Record inv (st : state) : Prop := {
  i_people : sound (people st);
  i_keyed : keyed (requests st);
  i_indexed : indexed (requests st);
  i_pending : ∀ j k q q', map_get j (all_requests st) = Some q → map_get k (all_requests st) = Some q' →
    status q = pending → status q' = pending → targetUserId q = targetUserId q' → requestedRole q = requestedRole q' → j = k;
  i_approved : ∀ j q, map_get j (all_requests st) = Some q → status q = approved →
    ∃ b, approvedByAdminId q = Some b ∧ b ≠ requestedByAdminId q
}.

Lemma inv_start st : sound (people st) → requests st = no_requests → inv st.
Proof. intros Hs Hr. split; rewrite ?Hr; done. Qed.

Lemma roles_step_inv e st : inv st → fresh_event e st = true → inv (step e st).2.
Proof.
  intros Hi Hf. pose proof (λ j, step_moves e st j (i_keyed _ Hi) (i_indexed _ Hi) Hf) as Hm.
  destruct (Hm EmptyString) as (Hk & Hx & _). split; [by apply step_people_sound, Hf; apply Hi|done|done| |].
  - assert (Hback : ∀ j q, map_get j (all_requests (step e st).2) = Some q → status q = pending →
              map_get j (all_requests st) = Some q ∨ map_get j (all_requests st) = None ∧ creates e st j q).
    { intros j q Hq Hp. destruct (Hm j) as (_ & _ & Hj). rewrite Hq in Hj.
      destruct (map_get j (all_requests st)) as [q0|]; [|by right]. cbn in Hj.
      destruct Hj as [_ [->|[_ [?|[? _]]]]]; [by left|congruence|congruence]. }
    intros j k q q' Hj Hq Hp Hp' Ht Hr.
    destruct (Hback j q Hj Hp) as [Hj0|[_ (r & now & He & _ & _ & _ & _ & Hno)]],
             (Hback k q' Hq Hp') as [Hk0|[_ (r' & now' & He' & _ & _ & _ & _ & Hno')]].
    + by apply (i_pending _ Hi j k q q').
    + by destruct (Hno' j q Hj0 Hp Ht).
    + by destruct (Hno k q' Hk0 Hp').
    + congruence.
  - intros j q Hq Ha. destruct (Hm j) as (_ & _ & Hj). rewrite Hq in Hj.
    destruct (map_get j (all_requests st)) as [q0|] eqn:H0.
    + cbn in Hj. destruct Hj as [_ [->|[_ [?|[_ H]]]]]; [by apply (i_approved _ Hi j)|congruence|done].
    + destruct Hj as (r & now & _ & _ & _ & Hp & _). congruence.
Qed.

Lemma roles_run_inv es st : inv st → fresh_run es st = true → inv (run es st).
Proof.
  revert st. induction es as [|e es IH]; intros st Hi; [done|]. cbn. intros [Hf Hfs]%andb_true_iff.
  by apply IH, Hfs; apply roles_step_inv.
Qed.

(** Every request was made by an administrator of its time. *)
Lemma request_made es st0 j q :
  inv st0 → requests st0 = no_requests → fresh_run es st0 = true → map_get j (all_requests (run es st0)) = Some q →
  ∃ es1 es2 r now, es = es1 ++ CreateRequest r j now (Some (targetUserId q, requestedRole q)) :: es2 ∧
    acting_admin (people (run es1 st0)) r = Some (requestedByAdminId q) ∧ expiresAt q = now + ttlMinutes * 60 * 1000.
Proof.
  intros Hi Hr. revert j q. induction es as [|e es IH] using rev_ind; intros j q Hf.
  { cbn. by rewrite Hr. }
  rewrite fresh_run_app in Hf. apply andb_true_iff in Hf as [Hf Hfe]. cbn in Hfe. rewrite andb_true_r in Hfe.
  pose proof (roles_run_inv es st0 Hi Hf) as Hi'. rewrite roles_run_snoc. intros Hq.
  destruct (step_moves e (run es st0) j (i_keyed _ Hi') (i_indexed _ Hi') Hfe) as (_ & _ & Hm). rewrite Hq in Hm.
  destruct (map_get j (all_requests (run es st0))) as [q0|] eqn:H0; cbn in Hm.
  - destruct (IH j q0 Hf H0) as (es1 & es2 & r & now & -> & Ha & Hx). destruct Hm as [[= _ Ht Hro Hby He] _].
    exists es1, (es2 ++ [e]), r, now. rewrite Ht, Hro, Hby, He. split_and!; [by rewrite <- app_assoc|done|done].
  - destruct Hm as (r & now & -> & Ha & Hx & _). by exists es, [], r, now.
Qed.

Lemma evolves_trans q0 q1 q2 : evolves q0 q1 → evolves q1 q2 → evolves q0 q2.
Proof.
  intros [He1 H1] [He2 H2]. split; [congruence|]. destruct H1 as [->|[Hp H1]]; [done|].
  right. split; [done|]. destruct H2 as [->|[Hp2 H2]]; [done|]. destruct H1 as [?|[? _]]; congruence.
Qed.

Lemma run_evolves es st j q :
  inv st → fresh_run es st = true → map_get j (all_requests st) = Some q →
  ∃ q', map_get j (all_requests (run es st)) = Some q' ∧ evolves q q'.
Proof.
  revert st q. induction es as [|e es IH]; intros st q Hi; cbn.
  { intros _ Hq. exists q. split; [done|apply evolves_refl]. }
  intros [Hf Hfs]%andb_true_iff Hq.
  destruct (step_moves e st j (i_keyed _ Hi) (i_indexed _ Hi) Hf) as (_ & _ & Hm). rewrite Hq in Hm.
  destruct (map_get j (all_requests (step e st).2)) as [q1|] eqn:H1; [|done].
  destruct (IH _ q1 (roles_step_inv e st Hi Hf) Hfs H1) as (q' & Hq' & Hev). exists q'. split; [done|]. by eapply evolves_trans.
Qed.

(** ** Theorems *)

(** C22. The role of a user changes only by an update of the user (to any JSON
    value), by somebody other than the user making a plain user business
    administrator, or by the approval, before it expires, of a request that
    somebody else made for exactly that user and role; and whoever does any of
    that [manages] users when doing it: signed in, with the stored role
    "admin", or with a falsy stored role and the request header
    [x-user-role: admin]. *)
Theorem role_change_authorised st0 es e i r0 r1 :
  sound (people st0) → requests st0 = no_requests → fresh_run (es ++ [e]) st0 = true →
  let st := run es st0 in
  role_of i st = Some r0 → role_of i (step e st).2 = Some r1 → r0 ≠ r1 →
  match e with
  | PatchUser r _ j u => j = i ∧ u_role u = Some r1 ∧ ∃ a, manages (people st) r a
  | PromoteUser r _ j _ =>
      j = i ∧ r0 = user ∧ r1 = business_admin ∧ ∃ a, manages (people st) r a ∧ a ≠ i
  | ApproveRequest r now j =>
      ∃ a b es1 es2 rc nowc, manages (people st) r b ∧ a ≠ b ∧
        es = es1 ++ CreateRequest rc j nowc (Some (i, r1)) :: es2 ∧
        manages (people (run es1 st0)) rc a ∧ now ≤ nowc + ttlMinutes * 60 * 1000
  | _ => False
  end.
Proof.
  intros Hs Hr Hf st H0 H1 Hne. rewrite fresh_run_app in Hf. apply andb_true_iff in Hf as [Hf Hfe].
  cbn in Hfe. rewrite andb_true_r in Hfe. pose proof (inv_start st0 Hs Hr) as Hi.
  pose proof (step_role e st i r0 r1 (i_people _ (roles_run_inv es st0 Hi Hf)) Hfe H0 H1 Hne) as H.
  destruct e as [| | | |r now j| |]; [| |exact H|exact H| |exact H|exact H].
  { destruct H as (-> & Hu & a & Ha). split_and!; [done..|]. exists a. by apply acting_manages. }
  { destruct H as (-> & -> & -> & a & Ha & Hn). split_and!; [done..|]. exists a. split; [by apply acting_manages|done]. }
  destruct H as (b & q & Hb & Hq & _ & Hx & Hab & <- & <-).
  destruct (request_made es st0 j q Hi Hr Hf Hq) as (es1 & es2 & rc & nowc & He & Ha & Hexp).
  exists (requestedByAdminId q), b, es1, es2, rc, nowc.
  split_and!; [by apply acting_manages|done|done|by apply acting_manages|lia].
Qed.

(** A request leaves the pending state once and for all, to expired or to
    approved by an administrator who did not make it; what it asks for never
    changes, and there is one pending request per target and role. *)
Theorem request_settles_once st0 es es' :
  sound (people st0) → requests st0 = no_requests → fresh_run (es ++ es') st0 = true →
  let s := all_requests (run es st0) in
  let s' := all_requests (run (es ++ es') st0) in
  (∀ j q, map_get j s = Some q → ∃ q', map_get j s' = Some q' ∧
     targetUserId q' = targetUserId q ∧ requestedRole q' = requestedRole q ∧
     requestedByAdminId q' = requestedByAdminId q ∧ (status q ≠ pending → q' = q) ∧
     (status q = pending → status q' ≠ rejected)) ∧
  (∀ j q, map_get j s' = Some q → status q = approved → ∃ b, approvedByAdminId q = Some b ∧ b ≠ requestedByAdminId q) ∧
  (∀ j k q q', map_get j s' = Some q → map_get k s' = Some q' → status q = pending → status q' = pending →
     targetUserId q = targetUserId q' → requestedRole q = requestedRole q' → j = k).
Proof.
  intros Hs Hr Hf s s'. pose proof (inv_start st0 Hs Hr) as Hi0. pose proof (roles_run_inv _ st0 Hi0 Hf) as Hi'.
  rewrite fresh_run_app in Hf. apply andb_true_iff in Hf as [Hf Hf']. pose proof (roles_run_inv es st0 Hi0 Hf) as Hi.
  assert (He : run (es ++ es') st0 = run es' (run es st0)) by apply fold_left_app.
  split_and!; [|apply (i_approved _ Hi')|apply (i_pending _ Hi')].
  intros j q Hq. destruct (run_evolves es' _ j q Hi Hf' Hq) as (q' & Hq' & [[= _ H1 H2 H3 _] H]). exists q'.
  unfold s'. rewrite He. split_and!; [done|done|done|done| |].
  - intros Hp. by destruct H as [?|[? _]].
  - intros Hp. destruct H as [->|[_ [?|[? _]]]]; congruence.
Qed.
End Proofs.

(** One administrator suffices for any role, and for any password, through
    the update of a user. *)
Lemma one_admin_suffices verifyToken ttlMinutes st a r now i u r1 hash :
  sound (people st) → acting_admin verifyToken (people st) r = Some a → findUserById i (people st) = Some u →
  let st' := (step verifyToken ttlMinutes (PatchUser r now i
    {| u_email := None; u_passwordHash := Some hash; u_resetToken := Keep; u_resetTokenExpiry := Keep;
       u_role := Some r1 |}) st).2 in
  (λ v, (role v, passwordHash v)) <$> findUserById i (people st') = Some (r1, hash).
Proof.
  intros Hs Ha Hu. unfold step. pose proof (guarded_spec verifyToken r) as Hg.
  specialize (Hg (λ a, patch_user now a i {| u_email := None; u_passwordHash := Some hash; u_resetToken := Keep;
                                             u_resetTokenExpiry := Keep; u_role := Some r1 |}) st).
  rewrite Ha in Hg. rewrite Hg. unfold patch_user. rewrite Hu. unfold findUserById in *. unfold updateUser. rewrite Hu.
  destruct (s_id _ Hs i u Hu) as [Hid _]. cbn -[apply_updates map_set]. rewrite map_get_set.
  change (id (apply_updates _ _ u)) with (id u). by rewrite Hid, String.eqb_refl.
Qed.

(** A user whose stored role is falsy, which an update of the user can make it,
    manages users, the own role included, with a header of the own request. *)
Theorem cleared_role_trusts_header verifyToken ttlMinutes st r token i u now r1 :
  sound (people st) → AccessControl.bearer (AccessControl.authorization r) = Some token → verifyToken token = Some i →
  findUserById i (people st) = Some u → role_key (role u) = EmptyString → AccessControl.x_user_role r = Some "admin" →
  let updates := {| u_email := None; u_passwordHash := None; u_resetToken := Keep; u_resetTokenExpiry := Keep; u_role := Some r1 |} in
  role_of i (step verifyToken ttlMinutes (PatchUser r now i updates) st).2 = Some r1.
Proof.
  intros Hs Hb Hv Hu Hr Hx updates. destruct (s_id _ Hs i u Hu) as [Hid Hne].
  assert (acting_admin verifyToken (people st) r = Some i) as Ha.
  { unfold acting_admin. rewrite Hb. cbn [mbind option_bind]. rewrite Hv, Hu.
    rewrite (proj2 (acting_role_admin r u)) by by right. by destruct i. }
  unfold step. pose proof (guarded_spec verifyToken r (λ a, patch_user now a i updates) st) as Hg. rewrite Ha in Hg. rewrite Hg.
  unfold patch_user. rewrite Hu. unfold findUserById in Hu. unfold updateUser. rewrite Hu. unfold role_of, findUserById.
  cbn -[apply_updates map_set]. rewrite map_get_set. change (id (apply_updates _ _ u)) with (id u).
  by rewrite Hid, String.eqb_refl.
Qed.

(** ** Witnesses *)

Definition request_as (token : string) (claimed : option string) : AccessControl.request :=
  {| AccessControl.authorization := Some ("Bearer " +:+ token); AccessControl.x_user_role := claimed;
     AccessControl.x_business_id := None; AccessControl.body := λ _, None; AccessControl.params := λ _, None;
     AccessControl.r_user := None; AccessControl.r_business := None; AccessControl.permissionContext := None |}.

Definition admin_request (token : string) : AccessControl.request := request_as token None.

(** Two administrators and a user. *)
Definition staff : store :=
  UserRepository.run
    [Create "a1" 0 "a1@x.io" "h"; Create "a2" 0 "a2@x.io" "h"; Create "u1" 0 "u1@x.io" "h";
     Update 1 "a1" {| u_email := None; u_passwordHash := None; u_resetToken := Keep; u_resetTokenExpiry := Keep; u_role := Some admin |};
     Update 1 "a2" {| u_email := None; u_passwordHash := None; u_resetToken := Keep; u_resetTokenExpiry := Keep; u_role := Some admin |}]
    empty_store.

Lemma staff_sound : sound staff.
Proof. apply run_sound; [apply sound_empty|reflexivity]. Qed.

Definition start : state := {| people := staff; requests := no_requests; audit_log := [] |}.

Definition asked : list event := [CreateRequest (admin_request "a1") "q1" 10 (Some ("u1", admin))].
Definition granted : event := ApproveRequest (admin_request "a2") 20 "q1".

(** An administrator clears the role of [u1], who then takes any. *)
Example cleared_role_escalates :
  let set_to s := {| u_email := None; u_passwordHash := None; u_resetToken := Keep; u_resetTokenExpiry := Keep; u_role := Some (Text s) |} in
  let cleared := PatchUser (admin_request "a1") 1 "u1" (set_to EmptyString) in
  let taken := PatchUser (request_as "u1" (Some "admin")) 2 "u1" (set_to "admin") in
  (role_of "u1" (run Some 60 [taken] start), role_of "u1" (run Some 60 [cleared; taken] start)) = (Some user, Some admin).
Proof. reflexivity. Qed.

Example own_approval_refused :
  AccessControl.status (step Some 60 (ApproveRequest (admin_request "a1") 20 "q1") (run Some 60 asked start)).1 = 403.
Proof. reflexivity. Qed.

Lemma role_change_authorised_witness :
  role_of "u1" (run Some 60 asked start) = Some user ∧
  role_of "u1" (step Some 60 granted (run Some 60 asked start)).2 = Some admin ∧
  ∃ a b, manages Some staff (admin_request "a2") b ∧ a ≠ b.
Proof.
  split; [reflexivity|]. split; [reflexivity|].
  destruct (role_change_authorised Some 60 start asked granted "u1" user admin staff_sound eq_refl eq_refl eq_refl eq_refl
    ltac:(discriminate)) as (a & b & _ & _ & _ & _ & Hb & Hab & _). exists a, b. exact (conj Hb Hab).
Defined.

Lemma request_settles_once_witness :
  ∃ q, map_get "q1" (rolePromotionRequests (requests (run Some 60 (asked ++ [granted; Sweep 999999999]) start))) = Some q ∧
       requestedByAdminId q = "a1" ∧ status q = approved.
Proof.
  destruct (request_settles_once Some 60 start (asked ++ [granted]) [Sweep 999999999] staff_sound eq_refl eq_refl) as [H _].
  destruct (H "q1" _ eq_refl) as (q' & Hq & _ & _ & Hby & Hst & _). exists q'.
  split; [exact Hq|]. split; [exact Hby|]. rewrite (Hst ltac:(discriminate)). reflexivity.
Defined.
