(* ===== verification/Periods.v ===== *)
(** * Analytics periods: [src/services/analytics/periods.ts].

    A [Date] is its time value, the milliseconds since 1970-01-01T00:00Z; the
    operations of [Date] the source uses ([Date.UTC] on a year, a month and
    day 1, [getUTCFullYear], [getUTCMonth]) follow the arithmetic of the
    ECMAScript specification.  They agree with the runtime on the range of
    [Date], 271821 years around 1970.  Timestamps in seconds are integers. *)

From Stdlib Require Import Sorting.Sorted.
From S2P Require Import Prelude Numeric Hashing JsString Collections.
From S2P Require Attestation.
#[local] Open Scope Z_scope.

(** [lia] decides quotients and remainders by constants. *)
#[local] Ltac Zify.zify_post_hook ::= Z.to_euclidean_division_equations.

(** ** The calendar of [Date] *)
Module Calendar.

Definition msPerDay : Z := 86400000.

(** [DayFromYear]: the day number of January 1st. *)
Definition day_from_year (y : Z) : Z := 365 * (y - 1970) + (y - 1969) / 4 - (y - 1901) / 100 + (y - 1601) / 400.

Definition leap (y : Z) : bool := (y mod 4 =? 0) && (negb (y mod 100 =? 0) || (y mod 400 =? 0)).
Definition year_length (y : Z) : Z := if leap y then 366 else 365.

(** The day within the year on which month [m] (0 to 11) starts; for 12 the
    length of the year. *)
Definition month_start (l : bool) (m : Z) : Z :=
  match m with
  | 1 => 31 | 2 => 59 | 3 => 90 | 4 => 120 | 5 => 151 | 6 => 181
  | 7 => 212 | 8 => 243 | 9 => 273 | 10 => 304 | 11 => 334 | 12 => 365 | _ => 0
  end + (if l && (2 <=? m) then 1 else 0).

(** [MakeDay] on the first of a month: months out of range carry into the
    year. *)
Definition make_day (y m : Z) : Z :=
  let ym := y + m / 12 in day_from_year ym + month_start (leap ym) (m mod 12).

(** [Date.UTC(y, m, 1)]: the years 0 to 99 are 1900 to 1999. *)
Definition Date_UTC (y m : Z) : Z :=
  let yr := if (0 <=? y) && (y <=? 99) then 1900 + y else y in make_day yr m * msPerDay.

(** [YearFromTime] on a day number: the estimate by the mean length of a year
    is off by one at most. *)
Definition year_of_day (d : Z) : Z :=
  let e := 1970 + d * 400 / 146097 in
  if d <? day_from_year e then e - 1 else if day_from_year (e + 1) <=? d then e + 1 else e.

(** [MonthFromTime] on the day within the year. *)
Definition month_of_day (l : bool) (d : Z) : Z :=
  Z.of_nat (length (List.filter (λ m, month_start l m <=? d) [1; 2; 3; 4; 5; 6; 7; 8; 9; 10; 11])).

Definition getUTCFullYear (t : Z) : Z := year_of_day (t / msPerDay).
Definition getUTCMonth (t : Z) : Z :=
  let d := t / msPerDay in let y := year_of_day d in month_of_day (leap y) (d - day_from_year y).

(** *** Months in one line: month [k] is month [k mod 12] of year [k / 12]. *)
Definition first_day (k : Z) : Z := make_day 0 k.
Definition month_index (t : Z) : Z := 12 * getUTCFullYear t + getUTCMonth t.

Lemma make_day_index y m : make_day y m = first_day (12 * y + m).
Proof.
  unfold first_day, make_day. replace (0 + (12 * y + m) / 12) with (y + m / 12) by lia.
  by replace ((12 * y + m) mod 12) with (m mod 12) by lia.
Qed.

Lemma div_step a b n : 0 < n → (a + 1 - b) / n = (a - b) / n + (if (a + 1 - b) mod n =? 0 then 1 else 0).
Proof.
  intros Hn. pose proof (Z.div_mod (a - b) n). pose proof (Z.mod_pos_bound (a - b) n Hn).
  pose proof (Z.div_mod (a + 1 - b) n). pose proof (Z.mod_pos_bound (a + 1 - b) n Hn).
  destruct (Z.eqb_spec ((a + 1 - b) mod n) 0); nia.
Qed.

Lemma day_from_year_succ y : day_from_year (y + 1) = day_from_year y + year_length y.
Proof.
  unfold day_from_year, year_length, leap. rewrite !div_step by lia.
  replace (y + 1 - 1969) with (y + -492 * 4) by lia. replace (y + 1 - 1901) with (y + -19 * 100) by lia.
  replace (y + 1 - 1601) with (y + -4 * 400) by lia. rewrite !Z_mod_plus_full.
  assert (y mod 100 = 0 → y mod 4 = 0) by lia. assert (y mod 400 = 0 → y mod 100 = 0) by lia.
  destruct (Z.eqb_spec (y mod 4) 0), (Z.eqb_spec (y mod 100) 0), (Z.eqb_spec (y mod 400) 0); cbn [andb orb negb]; lia.
Qed.

Lemma month_cases m : 0 ≤ m < 12 →
  m = 0 ∨ m = 1 ∨ m = 2 ∨ m = 3 ∨ m = 4 ∨ m = 5 ∨ m = 6 ∨ m = 7 ∨ m = 8 ∨ m = 9 ∨ m = 10 ∨ m = 11.
Proof. lia. Qed.

Lemma month_start_succ l m : 0 ≤ m < 11 → 28 ≤ month_start l (m + 1) - month_start l m ≤ 31.
Proof.
  intros Hm. destruct l; destruct (month_cases m) as [-> |[-> |[-> |[-> |[-> |[-> |[-> |[-> |[-> |[-> |[-> | ->]]]]]]]]]]];
    try lia; vm_compute; split; discriminate.
Qed.

Lemma month_start_ends y : month_start (leap y) 0 = 0 ∧ month_start (leap y) (11 + 1) = year_length y.
Proof. unfold year_length. by destruct (leap y). Qed.

(** A month has 28 to 31 days. *)
Lemma first_day_succ k : 28 ≤ first_day (k + 1) - first_day k ≤ 31.
Proof.
  unfold first_day, make_day. rewrite !Z.add_0_l.
  assert (0 ≤ k mod 12 < 12) as Hm by lia.
  destruct (Z.eq_dec (k mod 12) 11) as [E|E].
  - replace ((k + 1) / 12) with (k / 12 + 1) by lia. replace ((k + 1) mod 12) with 0 by lia.
    rewrite E, day_from_year_succ. unfold year_length, month_start. destruct (leap (k / 12)), (leap (k / 12 + 1)); cbn; lia.
  - replace ((k + 1) / 12) with (k / 12) by lia. replace ((k + 1) mod 12) with (k mod 12 + 1) by lia.
    pose proof (month_start_succ (leap (k / 12)) (k mod 12)). lia.
Qed.

Lemma first_day_mono k k' : k ≤ k' → first_day k ≤ first_day k'.
Proof.
  intros H. replace k' with (k + Z.of_nat (Z.to_nat (k' - k))) by lia. induction (Z.to_nat (k' - k)) as [|n IH]; [by rewrite Z.add_0_r|].
  rewrite Nat2Z.inj_succ, <- Z.add_1_r, Z.add_assoc. pose proof (first_day_succ (k + Z.of_nat n)). lia.
Qed.

Lemma year_of_day_spec d : day_from_year (year_of_day d) ≤ d < day_from_year (year_of_day d + 1).
Proof.
  unfold year_of_day. set (e := 1970 + d * 400 / 146097).
  assert (day_from_year (e - 1) ≤ d < day_from_year (e + 2)) as H.
  { unfold day_from_year, e. split; lia. }
  replace (e + 2) with (e + 1 + 1) in H by lia.
  destruct (Z.ltb_spec d (day_from_year e)) as [H1|H1]; [replace (e - 1 + 1) with e by lia; lia|].
  destruct (Z.leb_spec (day_from_year (e + 1)) d); lia.
Qed.

Lemma month_of_day_spec (l : bool) d : 0 ≤ d < (if l then 366 else 365) →
  0 ≤ month_of_day l d < 12 ∧ month_start l (month_of_day l d) ≤ d < month_start l (month_of_day l d + 1).
Proof.
  intros Hd. unfold month_of_day.
  assert (Forall (λ d, 0 ≤ month_of_day l d < 12 ∧
            month_start l (month_of_day l d) ≤ d < month_start l (month_of_day l d + 1)) (seqZ 0 (if l then 366 else 365))) as H.
  { destruct l; apply (bool_decide_unpack _); vm_compute; exact I. }
  rewrite Forall_forall in H. apply H. apply elem_of_seqZ. destruct l; lia.
Qed.

(** A time lies in the month [getUTCFullYear] and [getUTCMonth] tell. *)
Lemma month_index_spec t :
  0 ≤ getUTCMonth t < 12 ∧ first_day (month_index t) * msPerDay ≤ t < first_day (month_index t + 1) * msPerDay.
Proof.
  unfold month_index, getUTCFullYear, getUTCMonth. set (d := t / msPerDay). set (y := year_of_day d).
  pose proof (year_of_day_spec d) as Hy. fold y in Hy. rewrite day_from_year_succ in Hy. unfold year_length in Hy.
  destruct (month_of_day_spec (leap y) (d - day_from_year y)) as [Hm Hd]; [destruct (leap y); lia|].
  set (m := month_of_day _ _) in *. split; [done|].
  assert (first_day (12 * y + m) = day_from_year y + month_start (leap y) m) as E1.
  { rewrite <- make_day_index. unfold make_day. by rewrite Z.div_small, Z.mod_small, Z.add_0_r by lia. }
  assert (first_day (12 * y + m + 1) = day_from_year y + month_start (leap y) (m + 1)) as E2.
  { destruct (Z.eq_dec m 11) as [E|E].
    - rewrite E. replace (12 * y + 11 + 1) with (12 * (y + 1) + 0) by lia. rewrite <- make_day_index.
      unfold make_day. change (0 / 12) with 0. change (0 mod 12) with 0. rewrite Z.add_0_r, day_from_year_succ.
      destruct (month_start_ends (y + 1)) as [-> _], (month_start_ends y) as [_ ->]. lia.
    - replace (12 * y + m + 1) with (12 * y + (m + 1)) by lia. rewrite <- make_day_index.
      unfold make_day. by rewrite Z.div_small, Z.mod_small, Z.add_0_r by lia. }
  rewrite E1, E2. unfold d, msPerDay in *. lia.
Qed.

Lemma month_index_unique t k : first_day k * msPerDay ≤ t < first_day (k + 1) * msPerDay ↔ month_index t = k.
Proof.
  pose proof (month_index_spec t) as [_ H]. unfold msPerDay in *. split; [|intros <-; lia].
  intros Hk. destruct (Z.lt_trichotomy (month_index t) k) as [Hl|[|Hl]]; [|done|].
  - pose proof (first_day_mono (month_index t + 1) k). lia.
  - pose proof (first_day_mono (k + 1) (month_index t)). lia.
Qed.
End Calendar.
Import Calendar.

(** ** The helpers *)

(** [/^\d{4}-(?:0[1-9]|1[0-2])$/] *)
Definition PERIOD_REGEX (s : string) : bool :=
  match s with
  | String a (String b (String c (String d (String h (String e (String f EmptyString)))))) =>
      is_digit a && is_digit b && is_digit c && is_digit d && Ascii.eqb h "-" &&
      ((Ascii.eqb e "0" && in_range 49 57 f) || (Ascii.eqb e "1" && in_range 48 50 f))
  | _ => false
  end.

Inductive PeriodParseError := INVALID_PERIOD (value : string).

Record PeriodBounds := { bounds_start : Z; bounds_end : Z }.

(** [Number] of a string of digits. *)
Definition Number (s : string) : Z := default 0 (digits_prefix None s).

Definition parsePeriodToBounds (period : string) : result PeriodParseError PeriodBounds :=
  if negb (PERIOD_REGEX period) then Err (INVALID_PERIOD period)
  else
    let parts := map Number (split_on "-" period) in
    let year := nth 0 parts 0 in
    let month := nth 1 parts 0 in
    Ok {| bounds_start := Date_UTC year (month - 1); bounds_end := Date_UTC year month |}.

Definition dateToPeriod (date : Z) : string :=
  show_Z (getUTCFullYear date) +:+ "-" +:+ pad2 (show_Z (getUTCMonth date + 1)).

Definition currentPeriod (now : Z) : string := dateToPeriod now.

Definition isTimestampInPeriod (timestampSeconds : Z) (period : string) : result PeriodParseError bool :=
  (λ b, let tsMs := timestampSeconds * 1000 in (bounds_start b <=? tsMs) && (tsMs <? bounds_end b))
    <$> parsePeriodToBounds period.

(** [attestationRepository.listByBusiness]: the creation times are compared
    as times. *)
Definition listByBusiness (b : string) (store : list Attestation.Submit.Attestation)
  : list Attestation.Submit.Attestation :=
  js_sort (λ x y, Attestation.Submit.attestedAt y - Attestation.Submit.attestedAt x)
    (List.filter (λ a, String.eqb (Attestation.Submit.businessId a) b) store).

(** [Array.from(new Set(l))] *)
Definition set_of (l : list string) : list string :=
  fold_left (λ acc x, if includes x acc then acc else acc ++ [x]) l [].

Definition listAttestedPeriodsForBusiness (localeCompare : string → string → Z) (b : string)
    (store : list Attestation.Submit.Attestation) : list string :=
  js_sort (λ x y, localeCompare y x) (set_of (map Attestation.Submit.period (listByBusiness b store))).

Example march : parsePeriodToBounds "2024-03" =
  Ok {| bounds_start := 1709251200000; bounds_end := 1711929600000 |}.
Proof. reflexivity. Qed.
Example fall_back : dateToPeriod 1730433540000 = "2024-11" ∧ dateToPeriod (-1) = "1969-12".
Proof. by vm_compute. Qed.

(** ** Labels *)

Definition digit_char (k : Z) : ascii := ascii_of_nat (Z.to_nat (48 + k)).
Definition pair_label (m : Z) : string := String (digit_char (m / 10)) (String (digit_char (m mod 10)) EmptyString).

(** [YYYY-MM] *)
Definition label (y m : Z) : string :=
  String (digit_char (y / 1000)) (String (digit_char (y / 100 mod 10)) (String (digit_char (y / 10 mod 10))
    (String (digit_char (y mod 10)) (String "-" (pair_label m))))).

Lemma digit_char_facts k : 0 ≤ k ≤ 9 →
  digit_val (digit_char k) = Some k ∧ Ascii.eqb (digit_char k) "-" = false ∧ is_digit (digit_char k) = true.
Proof.
  intros Hk. assert (Forall (λ k, digit_val (digit_char k) = Some k ∧ Ascii.eqb (digit_char k) "-" = false ∧
    is_digit (digit_char k) = true) (seqZ 0 10)) as H by (apply (bool_decide_unpack _); vm_compute; exact I).
  rewrite Forall_forall in H. apply H, elem_of_seqZ. lia.
Qed.

Lemma digit_char_val k : 0 ≤ k ≤ 9 → digit_val (digit_char k) = Some k.
Proof. apply digit_char_facts. Qed.
Lemma digit_char_dash k : 0 ≤ k ≤ 9 → Ascii.eqb (digit_char k) "-" = false.
Proof. apply digit_char_facts. Qed.
Lemma digit_char_digit k : 0 ≤ k ≤ 9 → is_digit (digit_char k) = true.
Proof. apply digit_char_facts. Qed.

Lemma in_range_char lo hi c : in_range lo hi c = true → 48 ≤ lo → hi ≤ 57 →
  ∃ k, c = digit_char k ∧ lo - 48 ≤ k ≤ hi - 48.
Proof.
  unfold in_range, digit_char. intros H Hl Hh. exists (code c - 48). split; [|lia].
  replace (48 + (code c - 48)) with (code c) by lia. unfold code. by rewrite Nat2Z.id, ascii_nat_embedding.
Qed.

(** The strings the expression accepts are the labels. *)
Lemma regex_label s : PERIOD_REGEX s = true → ∃ y m, s = label y m ∧ 0 ≤ y ≤ 9999 ∧ 1 ≤ m ≤ 12.
Proof.
  unfold PERIOD_REGEX. do 7 (destruct s as [|? s]; [done|]). destruct s; [|done].
  rewrite !andb_true_iff, orb_true_iff, !andb_true_iff. intros (((((Ha & Hb) & Hc) & Hd) & Hh) & Hef).
  apply in_range_char in Ha as (k1 & -> & ?), Hb as (k2 & -> & ?), Hc as (k3 & -> & ?), Hd as (k4 & -> & ?); [|lia..].
  apply Ascii.eqb_eq in Hh as ->.
  exists (1000 * k1 + 100 * k2 + 10 * k3 + k4). unfold label, pair_label.
  replace ((1000 * k1 + 100 * k2 + 10 * k3 + k4) / 1000) with k1 by lia.
  replace ((1000 * k1 + 100 * k2 + 10 * k3 + k4) / 100 mod 10) with k2 by lia.
  replace ((1000 * k1 + 100 * k2 + 10 * k3 + k4) / 10 mod 10) with k3 by lia.
  replace ((1000 * k1 + 100 * k2 + 10 * k3 + k4) mod 10) with k4 by lia.
  destruct Hef as [[He Hf]|[He Hf]]; apply Ascii.eqb_eq in He as ->;
    (apply in_range_char in Hf as (k & -> & ?); [|lia..]).
  - exists k. rewrite Z.div_small, Z.mod_small by lia. split; [done|lia].
  - exists (10 + k). replace ((10 + k) / 10) with 1 by lia. replace ((10 + k) mod 10) with k by lia.
    split; [done|lia].
Qed.

Lemma label_regex y m : 0 ≤ y ≤ 9999 → 1 ≤ m ≤ 12 → PERIOD_REGEX (label y m) = true.
Proof.
  intros Hy Hm. unfold label, pair_label. cbn [PERIOD_REGEX].
  rewrite !digit_char_digit by lia. cbn [andb Ascii.eqb Bool.eqb].
  assert (Forall (λ m, (Ascii.eqb (digit_char (m / 10)) "0" && in_range 49 57 (digit_char (m mod 10))) ||
    (Ascii.eqb (digit_char (m / 10)) "1" && in_range 48 50 (digit_char (m mod 10))) = true) (seqZ 1 12)) as H
    by (apply (bool_decide_unpack _); vm_compute; exact I).
  rewrite Forall_forall in H. apply H, elem_of_seqZ. lia.
Qed.

Lemma label_parts y m : 0 ≤ y ≤ 9999 → 1 ≤ m ≤ 12 → map Number (split_on "-" (label y m)) = [y; m].
Proof.
  intros Hy Hm. unfold label, pair_label. cbn [split_on].
  rewrite !digit_char_dash by lia. cbn [Ascii.eqb Bool.eqb map]. unfold Number.
  cbn [digits_prefix]. rewrite !digit_char_val by lia. cbn [default from_option Datatypes.id].
  f_equal; [lia|]. f_equal. lia.
Qed.

Lemma show_label y m : 1000 ≤ y ≤ 9999 → 1 ≤ m ≤ 12 → show_Z y +:+ "-" +:+ pad2 (show_Z m) = label y m.
Proof.
  intros Hy Hm.
  assert (Forall (λ y, show_Z y = String (digit_char (y / 1000)) (String (digit_char (y / 100 mod 10))
    (String (digit_char (y / 10 mod 10)) (String (digit_char (y mod 10)) EmptyString)))) (seqZ 1000 9000)) as H
    by (apply (bool_decide_unpack _); vm_compute; exact I).
  rewrite Forall_forall in H. rewrite H by (apply elem_of_seqZ; lia).
  assert (Forall (λ m, pad2 (show_Z m) = pair_label m) (seqZ 1 12)) as H'
    by (apply (bool_decide_unpack _); vm_compute; exact I).
  rewrite Forall_forall in H'. rewrite H' by (apply elem_of_seqZ; lia). done.
Qed.

Lemma label_inj y m y' m' : 0 ≤ y ≤ 9999 → 1 ≤ m ≤ 12 → 0 ≤ y' ≤ 9999 → 1 ≤ m' ≤ 12 →
  label y m = label y' m' → y = y' ∧ m = m'.
Proof.
  intros Hy Hm Hy' Hm' E. pose proof (label_parts y m Hy Hm) as H. rewrite E, label_parts in H by done.
  by injection H.
Qed.

(** The bounds of a label are those of its month. *)
Lemma label_bounds y m : 100 ≤ y ≤ 9999 → 1 ≤ m ≤ 12 →
  parsePeriodToBounds (label y m) =
  Ok {| bounds_start := first_day (12 * y + m - 1) * msPerDay; bounds_end := first_day (12 * y + m) * msPerDay |}.
Proof.
  intros Hy Hm. unfold parsePeriodToBounds. rewrite label_regex, label_parts by lia. cbn [negb nth].
  unfold Date_UTC. assert ((y <=? 99) = false) as -> by lia. rewrite andb_false_r.
  rewrite !make_day_index. by replace (12 * y + (m - 1)) with (12 * y + m - 1) by lia.
Qed.

Lemma dateToPeriod_label t : 1000 ≤ getUTCFullYear t ≤ 9999 →
  dateToPeriod t = label (getUTCFullYear t) (getUTCMonth t + 1).
Proof. intros Hy. apply show_label; [done|]. pose proof (month_index_spec t). lia. Qed.

Lemma set_of_spec l : NoDup (set_of l) ∧ ∀ x, x ∈ set_of l ↔ x ∈ l.
Proof.
  unfold set_of.
  enough (∀ acc, NoDup acc → NoDup (fold_left (λ acc x, if includes x acc then acc else acc ++ [x]) l acc) ∧
            ∀ x, x ∈ fold_left (λ acc x, if includes x acc then acc else acc ++ [x]) l acc ↔ x ∈ acc ∨ x ∈ l) as H.
  { destruct (H [] (NoDup_nil_2)) as [Hn Hx]. split; [done|]. intros x. rewrite Hx. set_solver. }
  induction l as [|y l IH]; intros acc Hn; cbn; [split; [done|set_solver]|].
  destruct (includes y acc) eqn:E.
  - destruct (IH acc Hn) as [H1 H2]. apply includes_spec in E. split; [done|]. intros x. rewrite H2. set_solver.
  - apply includes_false in E. destruct (IH (acc ++ [y])) as [H1 H2].
    { apply NoDup_app. split_and!; [done|set_solver|apply NoDup_singleton]. }
    split; [done|]. intros x. rewrite H2. set_solver.
Qed.

(** The year a period string names. *)
Definition named_year (p : string) : Z := nth 0 (map Number (split_on "-" p)) 0.

(** ** Theorems *)

(** The two ways of classifying a timestamp agree: it lies within the
    bounds of a period exactly when the period is the label of its UTC year
    and month; and a string that is not [YYYY-MM] is rejected. *)
Theorem timestamp_in_period_iff_label ts p :
  1000 ≤ getUTCFullYear (ts * 1000) ≤ 9999 → 100 ≤ named_year p ∨ PERIOD_REGEX p = false →
  isTimestampInPeriod ts p =
  if PERIOD_REGEX p then Ok (String.eqb (dateToPeriod (ts * 1000)) p) else Err (INVALID_PERIOD p).
Proof.
  intros Hts Hp. destruct (PERIOD_REGEX p) eqn:Hr; [|unfold isTimestampInPeriod, parsePeriodToBounds; by rewrite Hr].
  destruct Hp as [Hp|]; [|done]. destruct (regex_label p Hr) as (y & m & -> & Hy & Hm).
  unfold named_year in Hp. rewrite label_parts in Hp by done. cbn in Hp.
  unfold isTimestampInPeriod. rewrite label_bounds, dateToPeriod_label by lia. cbn [fmap result_fmap bounds_start bounds_end]. f_equal.
  pose proof (month_index_spec (ts * 1000)) as [Hmo _].
  pose proof (month_index_unique (ts * 1000) (12 * y + m - 1)) as Hu.
  replace (12 * y + m - 1 + 1) with (12 * y + m) in Hu by lia. unfold month_index in Hu.
  apply eq_true_iff_eq. rewrite andb_true_iff, Z.leb_le, Z.ltb_lt, Hu, String.eqb_eq. split.
  - intros E. f_equal; lia.
  - intros E. apply label_inj in E; lia.
Qed.

Lemma timestamp_in_period_iff_label_witness :
  isTimestampInPeriod 1711929599 "2024-03" = Ok true ∧ isTimestampInPeriod 1711929600 "2024-03" = Ok false.
Proof.
  split.
  - rewrite (timestamp_in_period_iff_label 1711929599 "2024-03"); [reflexivity|vm_compute; split; discriminate|left; vm_compute; discriminate].
  - rewrite (timestamp_in_period_iff_label 1711929600 "2024-03"); [reflexivity|vm_compute; split; discriminate|left; vm_compute; discriminate].
Defined.

(** A period from year 1000 on round-trips: the label of its first and
    of its last millisecond is the period itself; it has 28 to 31 days and the
    next period starts where it ends. *)
Theorem period_bounds_round_trip y m :
  1000 ≤ y ≤ 9999 → 1 ≤ m ≤ 12 →
  ∃ b, parsePeriodToBounds (label y m) = Ok b ∧
    dateToPeriod (bounds_start b) = label y m ∧ dateToPeriod (bounds_end b - 1) = label y m ∧
    28 * msPerDay ≤ bounds_end b - bounds_start b ≤ 31 * msPerDay ∧
    (12 * y + m < 12 * 9999 + 12 → ∃ b', parsePeriodToBounds (label (y + m / 12) (m mod 12 + 1)) = Ok b' ∧
       bounds_start b' = bounds_end b).
Proof.
  intros Hy Hm. rewrite label_bounds by lia. eexists. split; [done|]. cbn.
  pose proof (first_day_succ (12 * y + m - 1)) as Hs. replace (12 * y + m - 1 + 1) with (12 * y + m) in Hs by lia.
  assert (∀ t, first_day (12 * y + m - 1) * msPerDay ≤ t < first_day (12 * y + m) * msPerDay → dateToPeriod t = label y m) as Hl.
  { intros t Ht. pose proof (month_index_unique t (12 * y + m - 1)) as Hu.
    replace (12 * y + m - 1 + 1) with (12 * y + m) in Hu by lia. apply Hu in Ht.
    pose proof (month_index_spec t) as [Hmo _]. unfold month_index in Ht.
    rewrite dateToPeriod_label by lia. f_equal; lia. }
  unfold msPerDay in *. split_and!; [apply Hl; lia|apply Hl; lia|lia|lia|].
  intros Hlt. rewrite label_bounds by lia. eexists. split; [done|]. cbn. f_equal. f_equal. lia.
Qed.

Lemma period_bounds_round_trip_witness :
  ∃ b, parsePeriodToBounds "2024-12" = Ok b ∧ dateToPeriod (bounds_end b - 1) = "2024-12".
Proof.
  destruct (period_bounds_round_trip 2024 12 ltac:(lia) ltac:(lia)) as (b & H1 & _ & H2 & _). by exists b.
Defined.

(** The first hundred years are read as the twentieth century: the bounds
    of [00YY-MM] are those of [19YY-MM]. *)
Theorem early_years_are_shifted y m :
  0 ≤ y ≤ 99 → 1 ≤ m ≤ 12 →
  parsePeriodToBounds (label y m) = parsePeriodToBounds (label (1900 + y) m).
Proof.
  intros Hy Hm. rewrite (label_bounds (1900 + y) m) by lia. unfold parsePeriodToBounds. rewrite label_regex, label_parts by lia.
  cbn [negb nth]. unfold Date_UTC. assert (((0 <=? y) && (y <=? 99)) = true) as -> by lia. rewrite !make_day_index.
  by replace (12 * (1900 + y) + (m - 1)) with (12 * (1900 + y) + m - 1) by lia.
Qed.

Lemma early_years_are_shifted_witness : parsePeriodToBounds "0024-03" = parsePeriodToBounds "1924-03".
Proof. exact (early_years_are_shifted 24 3 ltac:(lia) ltac:(lia)). Defined.

(** The periods of a business are listed once each, and exactly those it
    attested, latest first. *)
Lemma attested_periods_listed localeCompare (lt : string → string → Prop) b store :
  (∀ x y z, lt x y → lt y z → lt x z) →
  (∀ x y, localeCompare x y ≤ 0 → x ≠ y → lt x y) → (∀ x y, 0 < localeCompare x y → lt y x) →
  let l := listAttestedPeriodsForBusiness localeCompare b store in
  NoDup l ∧ StronglySorted (λ x y, lt y x) l ∧
  ∀ p, p ∈ l ↔ ∃ a, a ∈ store ∧ Attestation.Submit.businessId a = b ∧ Attestation.Submit.period a = p.
Proof.
  intros Ht Hle Hgt l. unfold l, listAttestedPeriodsForBusiness, listByBusiness.
  destruct (set_of_spec (map Attestation.Submit.period (listByBusiness b store))) as [Hn Hs].
  fold (listByBusiness b store). split_and!.
  - by rewrite js_sort_perm.
  - apply (js_sort_sorted _ (λ _, True)); [|intros; apply Hle; [lia|done]|intros; apply Hgt; lia| |done].
    + intros x y z H1 H2. by apply (Ht z y x).
    + apply Forall_true. done.
  - intros p. rewrite js_sort_perm, Hs. unfold listByBusiness. rewrite list_elem_of_In, in_map_iff.
    setoid_rewrite <- list_elem_of_In. setoid_rewrite js_sort_perm. setoid_rewrite list_elem_of_In.
    setoid_rewrite filter_In. setoid_rewrite String.eqb_eq. naive_solver.
Qed.
