(* ===== verification/SorobanSubmission.v ===== *)
(** * Submission to Soroban: [src/services/soroban/submitAttestation.ts].

    The deduplication window in Redis and one submission.  The configuration
    is read by [SorobanClient]; the Stellar SDK and the RPC server are a
    record of answers; what is thrown is a [SorobanSubmissionError], an open
    circuit breaker or anything else.  The
    degraded queue of the same file is [DegradedQueue], the functions around
    the scheduler [FairQueue]. *)

From Stdlib Require Import QArith.QArith QArith.Qround.
From S2P Require Import Prelude Numeric Hashing JsString Collections.
From S2P Require Words Doubles SorobanClient.
Abbreviation double := Doubles.double.
Abbreviation Config := SorobanClient.SorobanClientConfig.
#[local] Open Scope Z_scope.

(** ** Data *)

(** [number | bigint]; [Num None] is [NaN] or an infinity. *)
Inductive js_timestamp := BigInt (n : Z) | Num (x : option Q).

Record SubmitAttestationParams := {
  business : string; period : string; merkleRoot : string; timestamp : js_timestamp; version : string;
  sourcePublicKey : string; signerSecret : option string; submit : option bool; userId : option string
}.

Inductive result_status := pending | confirmed | unsigned | queued.

Record SubmitAttestationResult := {
  txHash : string; status : result_status; unsignedXdr : option string; ledger : option Z;
  resultMerkleRoot : option string; resultTimestamp : option Q
}.

(** What may be thrown; of a [SorobanSubmissionError] only the code is kept,
    its message goes to the log. *)
Inductive thrown :=
| SorobanSubmissionError (code : string)
| CircuitBreakerOpen
| OtherError.

(** ** The deduplication window *)

Definition ATTESTATION_DEDUPE_PREFIX : string := "attestation:dedupe".
Definition DEFAULT_ATTESTATION_DEDUPE_TTL_MS : Z := 300000.
Definition MIN_ATTESTATION_DEDUPE_TTL_MS : Z := 30000.

(** [parsed] is [Number(raw)], [None] when it is not finite. *)
Definition resolveAttestationDedupeTtlMs (raw : option string) (Number : string → option Q) : Z :=
  match raw with
  | None | Some EmptyString => DEFAULT_ATTESTATION_DEDUPE_TTL_MS
  | Some raw =>
      match Number raw with
      | None => DEFAULT_ATTESTATION_DEDUPE_TTL_MS
      | Some parsed =>
          if negb (Qeq_bool parsed (inject_Z (Qfloor parsed))) || (Qfloor parsed <? 1)
          then DEFAULT_ATTESTATION_DEDUPE_TTL_MS
          else Z.max MIN_ATTESTATION_DEDUPE_TTL_MS (Qfloor parsed)
      end
  end.

(** The keys Redis holds: the value and the time at which it expires. *)
Abbreviation dedupe_store := (gmap string (string * Z)).

(** Redis as one submission finds it: configured at all, and answering the
    [GET] and the [SET]. *)
Record redis := { configured : bool; get_up : bool; set_up : bool }.

Section Dedupe.
Context (sha256 : string → string) (String_of : js_timestamp → string).

Definition dedupe_fields (p : SubmitAttestationParams) : list string :=
  [business p; period p; merkleRoot p; String_of (timestamp p); version p].

Definition computeAttestationDedupeKey (p : SubmitAttestationParams) : string := sha256 (join "|" (dedupe_fields p)).

Definition redis_key (p : SubmitAttestationParams) : string :=
  ATTESTATION_DEDUPE_PREFIX +:+ ":" +:+ computeAttestationDedupeKey p.

(** A failing [GET] counts as a miss. *)
Definition checkAttestationDedupe (p : SubmitAttestationParams) (up : bool) (now : Z) (m : dedupe_store) : bool :=
  if up then match m !! redis_key p with Some (_, e) => now <? e | None => false end else false.

Definition markAttestationSubmitted (p : SubmitAttestationParams) (tx : string) (up : bool) (now ttlMs : Z)
    (m : dedupe_store) : dedupe_store :=
  if up then <[redis_key p := (tx, now + ttlMs)]> m else m.

Definition assertNotDuplicate (p : SubmitAttestationParams) (r : redis) (now : Z) (m : dedupe_store)
  : result thrown unit :=
  if negb (configured r) then Ok tt
  else if checkAttestationDedupe p (get_up r) now m
       then Err (SorobanSubmissionError "DEDUPED")
       else Ok tt.

Definition markAsSubmitted (p : SubmitAttestationParams) (tx : string) (r : redis) (now ttlMs : Z) (m : dedupe_store)
  : dedupe_store :=
  if negb (configured r) then m else markAttestationSubmitted p tx (set_up r) now ttlMs m.
End Dedupe.

(** ** Validation *)

Definition normalizeTimestamp (t : js_timestamp) : result thrown Z :=
  match t with
  | BigInt n => Ok n
  | Num (Some x) =>
      if Qle_bool 0 x then Ok (Qfloor x)
      else Err (SorobanSubmissionError "VALIDATION_ERROR")
  | Num None => Err (SorobanSubmissionError "VALIDATION_ERROR")
  end.

(** The answer of [sendTransaction]; a hash that is not a string is [None]. *)
Record send_response := { hash : option string; send_status : string }.

(** [None]: not an object. The hash is returned for the caller to use. *)
Definition validateSendTransactionResponse (r : option send_response) : result thrown (string * send_response) :=
  match r with
  | None => Err (SorobanSubmissionError "INVALID_RESPONSE")
  | Some r =>
      match hash r with
      | Some h =>
          if negb (is_digest_hex h) then
            Err (SorobanSubmissionError "INVALID_RESPONSE")
          else if negb (includes (send_status r) ["PENDING"; "DUPLICATE"; "ERROR"; "TRY_AGAIN_LATER"]) then
            Err (SorobanSubmissionError "INVALID_RESPONSE")
          else Ok (h, r)
      | None => Err (SorobanSubmissionError "INVALID_RESPONSE")
      end
  end.

(** A field of the decoded value: its text is [String(x)], its number
    [Number(x)], [None] when not finite. *)
Inductive field := Missing | Null | Present (text : string) (number : option Q).

(** [returnValue]: absent, not decodable, not an object, or an object. *)
Inductive return_value := NoValue | Undecodable | NotObject | Native (merkle_root timestamp : field).

Record tx_response := { tx_status : string; returnValue : return_value; tx_ledger : Z }.

(** [n] attempts left, [k] made. *)
Fixpoint poll (getTransaction : nat → result thrown tx_response) (n k : nat) : result thrown tx_response :=
  match n with
  | O => Err (SorobanSubmissionError "CONFIRMATION_TIMEOUT")
  | S n =>
      match getTransaction k with
      | Err e => Err e
      | Ok t =>
          if String.eqb (tx_status t) "SUCCESS" then Ok t
          else if String.eqb (tx_status t) "FAILED" then
            Err (SorobanSubmissionError "CONFIRMATION_FAILED")
          else poll getTransaction n (S k)
      end
  end.

Definition CONFIRMATION_MAX_ATTEMPTS : nat := 15.

Definition waitForConfirmation (getTransaction : nat → result thrown tx_response) : result thrown tx_response :=
  poll getTransaction CONFIRMATION_MAX_ATTEMPTS 0.

Definition text_of (f : field) : string := match f with Present s _ => s | _ => EmptyString end.

Definition validateConfirmedResult (t : tx_response) (submittedMerkleRoot : string) : result thrown (string * Q) :=
  match returnValue t with
  | NoValue => Err (SorobanSubmissionError "RESULT_VALIDATION_FAILED")
  | Undecodable => Err (SorobanSubmissionError "RESULT_VALIDATION_FAILED")
  | NotObject => Err (SorobanSubmissionError "RESULT_VALIDATION_FAILED")
  | Native root ts =>
      let onChainRoot := text_of root in
      if is_empty onChainRoot then
        Err (SorobanSubmissionError "RESULT_VALIDATION_FAILED")
      else if negb (String.eqb onChainRoot submittedMerkleRoot) then
        Err (SorobanSubmissionError "RESULT_MISMATCH")
      else
        match ts with
        | Null => Ok (onChainRoot, 0%Q)
        | Present _ (Some x) => Ok (onChainRoot, x)
        | _ => Err (SorobanSubmissionError "RESULT_VALIDATION_FAILED")
        end
  end.

(** ** One submission *)

(** The process: its environment, [Number] on the texts there, and the
    passphrase the SDK has for the test network. *)
Record host := { env : string → option string; Number : string → double; TESTNET : string }.

(** The SDK and the network: the validation of contract ids and keys, whether
    the constructor of a server takes the URL, the account and the contract,
    the prepared transaction (its hash and XDR), the public key of a secret,
    and the answers to the transaction and to each poll. *)
Record network := {
  isValidContract : string → bool;
  acceptsUrl : string → bool → bool;
  isValidEd25519PublicKey : string → bool;
  getAccount : string → result thrown unit;
  prepareTransaction : Config → SubmitAttestationParams → Z → result thrown (string * string);
  publicKeyOf : string → result thrown string;
  sendTransaction : SubmitAttestationParams → result thrown (option send_response);
  getTransaction : nat → result thrown tx_response
}.

(** The outer [catch]. *)
Definition wrap (e : thrown) : thrown :=
  match e with
  | SorobanSubmissionError _ => e
  | CircuitBreakerOpen => SorobanSubmissionError "SOROBAN_CIRCUIT_BREAKER_OPEN"
  | OtherError => SorobanSubmissionError "SOROBAN_NETWORK_ERROR"
  end.

Definition wrapped {A} (r : result thrown A) : result thrown A := match r with Ok a => Ok a | Err e => Err (wrap e) end.

(** What a submission leaves: its answer, whether a signed transaction went
    out, and the deduplication store. *)
Record outcome := { answer : result thrown SubmitAttestationResult; sent : bool; dedupe : dedupe_store }.

Section Flow.
Context (sha256 : string → string) (String_of : js_timestamp → string).
Context (hs : host) (ttlMs : Z).

(** The configuration and a server for it.  Both throw plain errors, outside
    the [try] of [submitAttestation]. *)
Definition connect (c : network) : result thrown Config :=
  match SorobanClient.getSorobanConfig (TESTNET hs) (isValidContract c) (env hs) with
  | Err _ => Err OtherError
  | Ok cfg =>
      if negb (acceptsUrl c (SorobanClient.rpcUrl cfg) (SorobanClient.allowHttp (SorobanClient.rpcUrl cfg))) then Err OtherError
      else match SorobanClient.getSorobanRetryPolicy (Number hs) (env hs) SorobanClient.no_overrides with
           | Err _ => Err OtherError
           | Ok _ => Ok cfg
           end
  end.

(** The prepared transaction: its hash and XDR. *)
Definition build (c : network) (cfg : Config) (p : SubmitAttestationParams) : result thrown (string * string) :=
  getAccount c (sourcePublicKey p) ≫= λ _,
  normalizeTimestamp (timestamp p) ≫= λ ts,
  prepareTransaction c cfg p ts.

Definition check_signer (c : network) (p : SubmitAttestationParams) : result thrown unit :=
  match (match signerSecret p with Some s => Some s | None => env hs "SOROBAN_SOURCE_SECRET" end) with
  | None | Some EmptyString => Err (SorobanSubmissionError "MISSING_SIGNER")
  | Some secret =>
      publicKeyOf c secret ≫= λ k,
      if negb (String.eqb k (sourcePublicKey p))
      then Err (SorobanSubmissionError "SIGNER_MISMATCH")
      else Ok tt
  end.

(** Confirmation of an accepted transaction. *)
Definition confirm (c : network) (p : SubmitAttestationParams) (h : string) : result thrown SubmitAttestationResult :=
  match (waitForConfirmation (getTransaction c) ≫= λ t,
         validateConfirmedResult t (merkleRoot p) ≫= λ v,
         Ok {| txHash := h; status := confirmed; unsignedXdr := None; ledger := Some (tx_ledger t);
               resultMerkleRoot := Some v.1; resultTimestamp := Some v.2 |}) with
  | Err (SorobanSubmissionError code) =>
      if String.eqb code "CONFIRMATION_TIMEOUT"
      then Ok {| txHash := h; status := pending; unsignedXdr := None; ledger := None;
                 resultMerkleRoot := None; resultTimestamp := None |}
      else Err (SorobanSubmissionError code)
  | r => r
  end.

(** [submitAttestation]; the mark is not awaited, it is in the store when the
    call ends.  The feature flag only writes to the log. *)
Definition submitAttestation (c : network) (r : redis) (now : Z) (p : SubmitAttestationParams) (m : dedupe_store)
  : outcome :=
  let fails e := {| answer := Err e; sent := false; dedupe := m |} in
  match connect c with
  | Err e => fails e
  | Ok cfg =>
  if negb (isValidEd25519PublicKey c (sourcePublicKey p)) then
    fails (SorobanSubmissionError "VALIDATION_ERROR")
  else
    let shouldSubmit := default true (submit p) in
    match (if shouldSubmit then assertNotDuplicate sha256 String_of p r now m else Ok tt) with
    | Err e => fails e
    | Ok _ =>
        match build c cfg p with
        | Err e => fails (wrap e)
        | Ok (preparedHash, xdr) =>
            if negb shouldSubmit then
              {| answer := Ok {| txHash := preparedHash; status := unsigned; unsignedXdr := Some xdr; ledger := None;
                                 resultMerkleRoot := None; resultTimestamp := None |};
                 sent := false; dedupe := m |}
            else
              match check_signer c p with
              | Err e => fails (wrap e)
              | Ok _ =>
                  match sendTransaction c p ≫= validateSendTransactionResponse with
                  | Err e => {| answer := Err (wrap e); sent := true; dedupe := m |}
                  | Ok (h, response) =>
                      if includes (send_status response) ["ERROR"; "TRY_AGAIN_LATER"] then
                        {| answer := Err (SorobanSubmissionError "SUBMIT_FAILED");
                           sent := true; dedupe := m |}
                      else
                        {| answer := wrapped (confirm c p h); sent := true;
                           dedupe := markAsSubmitted sha256 String_of p h r now ttlMs m |}
                  end
              end
        end
    end
  end.
End Flow.

(** ** One submission: lemmas *)

(** The network took the transaction. *)
Definition accepted (c : network) (p : SubmitAttestationParams) : bool :=
  match sendTransaction c p ≫= validateSendTransactionResponse with
  | Ok (_, response) => negb (includes (send_status response) ["ERROR"; "TRY_AGAIN_LATER"])
  | Err _ => false
  end.

(** A poll that neither ends nor fails the wait. *)
Definition undecided (c : network) (k : nat) : Prop :=
  ∃ t, getTransaction c k = Ok t ∧ tx_status t ≠ "SUCCESS" ∧ tx_status t ≠ "FAILED".

Lemma poll_success c n k t :
  poll (getTransaction c) n k = Ok t →
  ∃ i, (k ≤ i < k + n)%nat ∧ getTransaction c i = Ok t ∧ tx_status t = "SUCCESS" ∧
    ∀ j, (k ≤ j < i)%nat → undecided c j.
Proof.
  revert k. induction n as [|n IH]; intros k; cbn [poll]; [done|].
  destruct (getTransaction c k) as [u|e] eqn:Hg; [|done].
  destruct (String.eqb_spec (tx_status u) "SUCCESS") as [Hs|Hs].
  - intros [= <-]. exists k. split_and!; [lia|lia|done|done|lia].
  - destruct (String.eqb_spec (tx_status u) "FAILED") as [|Hf]; [done|].
    intros H. destruct (IH _ H) as (i & Hi & Ht & Hst & Hj). exists i. split_and!; [lia|lia|done|done|].
    intros j Hjk. destruct (decide (j = k)) as [->|]; [by exists u|apply Hj; lia].
Qed.

Lemma validated_root t root v : validateConfirmedResult t root = Ok v → v.1 = root.
Proof.
  unfold validateConfirmedResult. destruct (returnValue t) as [| | |r ts]; try done.
  destruct (is_empty _); [done|]. destruct (String.eqb_spec (text_of r) root) as [->|]; [|done]. cbn [negb].
  by destruct ts as [| |? []]; intros [= <-].
Qed.

Section Outcomes.
Context (sha256 : string → string) (String_of : js_timestamp → string) (hs : host) (ttlMs : Z).
Abbreviation submission := (submitAttestation sha256 String_of hs ttlMs).

(** The only errors outside the [try]. *)
Lemma connect_error c e : connect hs c = Err e → e = OtherError.
Proof.
  unfold connect. destruct (SorobanClient.getSorobanConfig _ _ _); [|by intros [= <-]]. case_if; [by intros [= <-]|].
  by destruct (SorobanClient.getSorobanRetryPolicy _ _ _); [|intros [= <-]].
Qed.

Lemma submission_unconnected c r now p m e :
  connect hs c = Err e → submission c r now p m = {| answer := Err OtherError; sent := false; dedupe := m |}.
Proof. intros He. unfold submitAttestation. rewrite He. by rewrite (connect_error _ _ He). Qed.

Lemma wrap_code e : ∃ code, wrap e = SorobanSubmissionError code.
Proof. destruct e; cbn; eauto. Qed.

Lemma wrapped_code {A} e : ∃ code, Err (A := A) (wrap e) = Err (SorobanSubmissionError code).
Proof. destruct (wrap_code e) as [code ->]. by eexists. Qed.

Lemma confirm_cases c p h res :
  confirm c p h = Ok res →
  (status res = confirmed ∧ resultMerkleRoot res = Some (merkleRoot p) ∧
   ∃ k t, (k < CONFIRMATION_MAX_ATTEMPTS)%nat ∧ getTransaction c k = Ok t ∧ tx_status t = "SUCCESS" ∧
     ∀ j, (j < k)%nat → undecided c j) ∨
  status res = pending.
Proof.
  unfold confirm, waitForConfirmation. destruct (poll _ _ _) as [t|[code| |]] eqn:Hp; cbn [mbind result_bind].
  2:{ case_if; [intros [= <-]; by right|done]. }
  2,3: done.
  destruct (validateConfirmedResult t (merkleRoot p)) as [v|[code| |]] eqn:Hv; cbn [mbind result_bind].
  2:{ case_if; [intros [= <-]; by right|done]. }
  2,3: done.
  intros [= <-]. left. cbn. rewrite (validated_root _ _ _ Hv). split_and!; [done..|].
  apply poll_success in Hp as (k & Hk & Hg & Hs & Hj). exists k, t. split_and!; [lia|done|done|].
  intros j Hjk. apply Hj. lia.
Qed.

(** The way a submission that went out ends. *)
Lemma submission_sent c r now p m :
  let o := submission c r now p m in
  sent o = true →
  default true (submit p) = true ∧ assertNotDuplicate sha256 String_of p r now m = Ok tt ∧
  ((accepted c p = true ∧ ∃ h, answer o = wrapped (confirm c p h) ∧
      dedupe o = markAsSubmitted sha256 String_of p h r now ttlMs m) ∨
   (accepted c p = false ∧ dedupe o = m ∧ ∃ code, answer o = Err (SorobanSubmissionError code))).
Proof.
  intros o. unfold o, submitAttestation, accepted. destruct (connect hs c) as [cfg|]; [|done]. case_if; [done|].
  destruct (default true (submit p)) eqn:Hs; cbn [negb].
  2:{ destruct (build c cfg p) as [[]|]; done. }
  destruct (assertNotDuplicate _ _ _ _ _ _) as [[]|]; [|done].
  destruct (build c cfg p) as [[ph xdr]|]; [|done]. destruct (check_signer _ c p); [|done].
  destruct (sendTransaction c p ≫= validateSendTransactionResponse) as [[h resp]|e] eqn:Hsend.
  - intros Ho. split_and!; [done..|]. destruct (includes (send_status resp) _); cbn; [right|left]; eauto.
  - intros Ho. split_and!; [done..|]. right. split_and!; [done..|]. destruct (wrap_code e) as [code ->]. eauto.
Qed.

Lemma submission_not_sent c r now p m :
  let o := submission c r now p m in
  sent o = false →
  dedupe o = m ∧
  ((connect hs c = Err OtherError ∧ answer o = Err OtherError) ∨
   (is_ok (connect hs c) = true ∧ ∃ code, answer o = Err (SorobanSubmissionError code)) ∨
   (submit p = Some false ∧ ∃ res, answer o = Ok res ∧ status res = unsigned)).
Proof.
  intros o. unfold o, submitAttestation.
  destruct (connect hs c) as [cfg|e] eqn:Hcon; [|apply connect_error in Hcon as ->; intros _; split; [done|by left]].
  case_if; [intros _; split; [done|right; left; split; [done|by eexists]]|].
  destruct (default true (submit p)) eqn:Hs; cbn [negb].
  - destruct (assertNotDuplicate _ _ _ _ _ _) as [[]|e] eqn:Hd.
    2:{ intros _. split; [done|]. right; left. split; [done|]. unfold assertNotDuplicate in Hd.
        case_if_in Hd; [done|]. case_if_in Hd; [injection Hd as <-; by eexists|done]. }
    destruct (build c cfg p) as [[ph xdr]|e]; [|intros _; split; [done|]; right; left; split; [done|]; apply wrapped_code].
    destruct (check_signer _ c p) as [|e]; [|intros _; split; [done|]; right; left; split; [done|]; apply wrapped_code].
    destruct (sendTransaction c p ≫= validateSendTransactionResponse) as [[h resp]|e]; [|done].
    by destruct (includes _ _).
  - assert (submit p = Some false) as Hp by (destruct (submit p) as [[]|]; done).
    destruct (build c cfg p) as [[ph xdr]|e]; intros _; (split; [done|]).
    + right; right. split; [done|]. by eexists.
    + right; left. split; [done|]. apply wrapped_code.
Qed.

(** The mark of a key stays until its expiry. *)
Definition marked_until (k : string) (e : Z) (m : dedupe_store) : Prop := ∃ v e', m !! k = Some (v, e') ∧ e ≤ e'.

Lemma submission_keeps_mark c r now p m k e :
  marked_until k e m → e ≤ now + ttlMs → marked_until k e (dedupe (submission c r now p m)).
Proof.
  intros Hm He. destruct (sent (submission c r now p m)) eqn:Hs.
  - apply submission_sent in Hs as (_ & _ & [(_ & h & _ & ->)|(_ & -> & _)]); [|done].
    unfold markAsSubmitted, markAttestationSubmitted. case_if; [done|]. case_if; [|done].
    destruct (decide (redis_key sha256 String_of p = k)) as [<-|Hn].
    + unfold marked_until. rewrite lookup_insert_eq. eauto.
    + unfold marked_until. by rewrite lookup_insert_ne.
  - by apply submission_not_sent in Hs as (-> & _).
Qed.

Lemma submission_deduped c r now p m e :
  configured r = true → get_up r = true → marked_until (redis_key sha256 String_of p) e m → now < e →
  default true (submit p) = true → sent (submission c r now p m) = false.
Proof.
  intros Hc Hg (v & e' & Hm & He) Hn Hs. unfold submitAttestation. destruct (connect hs c); [|done]. case_if; [done|]. rewrite Hs.
  unfold assertNotDuplicate, checkAttestationDedupe. rewrite Hc, Hg, Hm. cbn [negb].
  by assert ((now <? e') = true) as -> by lia.
Qed.
End Outcomes.

(** ** Sequences of submissions *)
Record call := { c_network : network; c_redis : redis; c_now : Z; c_params : SubmitAttestationParams }.

Section Sequence.
Context (sha256 : string → string) (String_of : js_timestamp → string) (hs : host) (ttlMs : Z).

Definition submit_call (x : call) (m : dedupe_store) : outcome :=
  submitAttestation sha256 String_of hs ttlMs (c_network x) (c_redis x) (c_now x) (c_params x) m.

Fixpoint submit_all (calls : list call) (m : dedupe_store) : list outcome :=
  match calls with
  | [] => []
  | x :: calls => let o := submit_call x m in o :: submit_all calls (dedupe o)
  end.

Definition redis_works (r : redis) : Prop := configured r = true ∧ get_up r = true ∧ set_up r = true.

Lemma marked_run calls m k e t0 :
  Forall (λ x, redis_works (c_redis x)) calls → Forall (λ x, t0 ≤ c_now x) calls → e ≤ t0 + ttlMs →
  marked_until k e m →
  ∀ j x o, calls !! j = Some x → submit_all calls m !! j = Some o → redis_key sha256 String_of (c_params x) = k →
    sent o = true → e ≤ c_now x.
Proof.
  revert m. induction calls as [|y calls IH]; intros m Hr Ht He Hm j x o; [done|].
  apply Forall_cons in Hr as [Hy Hr]. apply Forall_cons in Ht as [Hty Ht].
  destruct j as [|j]; cbn.
  - intros [= <-] [= <-] Hk Hs. destruct (Z.le_gt_cases e (c_now y)) as [|Hlt]; [done|]. exfalso.
    pose proof (submission_sent _ _ _ _ _ _ _ _ _ Hs) as (Hsub & _).
    unfold submit_call in Hs. rewrite (submission_deduped _ _ _ _ _ _ _ _ _ e) in Hs; [done|apply Hy|apply Hy| |lia|done].
    by rewrite Hk.
  - intros Hx Ho. refine (IH (dedupe (submit_call y m)) Hr Ht He _ j x o Hx Ho).
    apply submission_keeps_mark; [done|lia].
Qed.
End Sequence.

(** ** Theorems *)

(** C10. Every way a submission can end.  When the configuration cannot be
    read or the server not be constructed, a plain error is thrown and nothing
    was sent or marked; every other error is a [SorobanSubmissionError].
    [confirmed] means that a signed transaction went out, that one of the first
    fifteen polls found it successful, after polls that decided nothing, and
    that the contract returned the submitted root; [unsigned] is answered only
    on request; and without a signed transaction nothing is marked. *)
Theorem submission_outcomes sha256 String_of hs ttlMs c r now p m :
  let o := submitAttestation sha256 String_of hs ttlMs c r now p m in
  (match connect hs c with
   | Err _ => o = {| answer := Err OtherError; sent := false; dedupe := m |}
   | Ok _ => ∀ e, answer o = Err e → ∃ code, e = SorobanSubmissionError code
   end) ∧
  (∀ res, answer o = Ok res →
     match status res with
     | confirmed => sent o = true ∧ resultMerkleRoot res = Some (merkleRoot p) ∧
         ∃ k t, (k < CONFIRMATION_MAX_ATTEMPTS)%nat ∧ getTransaction c k = Ok t ∧ tx_status t = "SUCCESS" ∧
           ∀ j, (j < k)%nat → undecided c j
     | pending => sent o = true ∧ accepted c p = true
     | unsigned => sent o = false ∧ submit p = Some false
     | queued => False
     end) ∧
  (submit p = Some false → sent o = false) ∧
  (sent o = false → dedupe o = m).
Proof.
  intros o. destruct (connect hs c) as [cfg|e0] eqn:Hcon.
  2:{ assert (o = {| answer := Err OtherError; sent := false; dedupe := m |}) as -> by by apply (submission_unconnected _ _ _ _ _ _ _ _ _ e0).
      by split_and!. }
  subst o. destruct (sent _) eqn:Hs.
  - destruct (submission_sent _ _ _ _ _ _ _ _ _ Hs) as (Hsub & _ & Hc).
    split_and!; [| |intros Hf; by rewrite Hf in Hsub|done].
    + intros e. destruct Hc as [(_ & h & -> & _)|(_ & _ & code & ->)]; [|intros [= <-]; by eexists].
      unfold wrapped. destruct (confirm c p h); [done|]. intros [= <-]. apply wrap_code.
    + intros res. destruct Hc as [(Ha & h & -> & _)|(_ & _ & code & ->)]; [|done].
      unfold wrapped. destruct (confirm c p h) as [res'|] eqn:Hcf; [|done]. intros [= <-].
      by destruct (confirm_cases _ _ _ _ Hcf) as [(-> & Hroot & Hpoll)| ->].
  - destruct (submission_not_sent _ _ _ _ _ _ _ _ _ Hs) as (Hd & Hc). rewrite Hcon in Hc.
    destruct Hc as [[? _]|[(_ & code & ->)|(Hf & res & -> & Hu)]]; [done|split_and!; [by intros e [= <-]; eexists|done..]|].
    split_and!; [done| |done|done]. intros res' [= <-]. by rewrite Hu.
Qed.

(** C11. One transaction per attestation and window: in a sequence of
    submissions at non-decreasing times with a working Redis, two of the same
    attestation (the same business, period, root, timestamp and version) that
    the network both accepted are at least the length of the window apart,
    which is 30 seconds or more whatever the environment says. *)
Theorem one_submission_per_window sha256 String_of hs raw Number m calls i j x y ox oy :
  let ttlMs := resolveAttestationDedupeTtlMs raw Number in
  let outs := submit_all sha256 String_of hs ttlMs calls m in
  Forall (λ x, redis_works (c_redis x)) calls →
  (∀ i j x y, (i ≤ j)%nat → calls !! i = Some x → calls !! j = Some y → c_now x ≤ c_now y) →
  (i < j)%nat → calls !! i = Some x → calls !! j = Some y → outs !! i = Some ox → outs !! j = Some oy →
  dedupe_fields String_of (c_params x) = dedupe_fields String_of (c_params y) →
  sent ox = true → accepted (c_network x) (c_params x) = true → sent oy = true →
  30000 ≤ ttlMs ∧ c_now x + ttlMs ≤ c_now y.
Proof.
  intros ttlMs outs Hr Hmono Hij Hx Hy Hox Hoy Hf Hsx Hax Hsy. split.
  { unfold ttlMs, resolveAttestationDedupeTtlMs. destruct raw as [[|a raw]|]; [by vm_compute| |by vm_compute].
    destruct (Number _); [|by vm_compute]. case_if; [by vm_compute|]. unfold MIN_ATTESTATION_DEDUPE_TTL_MS. lia. }
  clearbody ttlMs. unfold outs in *. clear outs. revert m i j Hij Hx Hy Hox Hoy Hmono.
  induction calls as [|z calls IH]; intros m i j Hij Hx Hy Hox Hoy Hmono; [done|].
  apply Forall_cons in Hr as [Hz Hr]. destruct j as [|j]; [lia|]. cbn in Hy, Hoy. destruct i as [|i]; cbn in Hx, Hox.
  - injection Hx as ->. injection Hox as <-.
    apply (marked_run sha256 String_of hs ttlMs calls (dedupe (submit_call sha256 String_of hs ttlMs x m))
             (redis_key sha256 String_of (c_params y)) (c_now x + ttlMs) (c_now x)) with j oy; try done.
    + apply Forall_lookup. intros n u Hu. exact (Hmono 0%nat (S n) x u ltac:(lia) eq_refl Hu).
    + destruct (submission_sent _ _ _ _ _ _ _ _ _ Hsx) as (_ & _ & [(_ & h & _ & Hd)|(Ha & _)]); [|congruence].
      unfold submit_call. rewrite Hd. unfold markAsSubmitted, markAttestationSubmitted.
      destruct Hz as (-> & _ & ->). cbn [negb]. unfold redis_key, computeAttestationDedupeKey. rewrite <- Hf.
      unfold marked_until. rewrite lookup_insert_eq. exists h, (c_now x + ttlMs). split; [done|lia].
  - apply (IH Hr _ i j ltac:(lia) Hx Hy Hox Hoy).
    intros a b u v Hab Ha Hb. exact (Hmono (S a) (S b) u v ltac:(lia) Ha Hb).
Qed.

(** ** Witnesses *)

Definition sample_params (s : option bool) : SubmitAttestationParams :=
  {| business := "b"; period := "2024-03"; merkleRoot := "ab"; timestamp := BigInt 5; version := "1.0.0";
     sourcePublicKey := "G"; signerSecret := Some "S"; submit := s; userId := None |}.

Definition show_timestamp (t : js_timestamp) : string := match t with BigInt n => show_Z n | Num _ => "n" end.

Definition hash64 : string := "0000000000000000000000000000000000000000000000000000000000000000".

(** A process with a contract id and nothing else. *)
Definition sample_host : host := {|
  env name := if String.eqb name "SOROBAN_CONTRACT_ID" then Some "C" else None; Number _ := Doubles.zero; TESTNET := "Test"
|}.

(** A network that takes the transaction and reports [status] at the second
    poll. *)
Definition sample_network (status : string) : network := {|
  isValidContract := λ _, true;
  acceptsUrl := λ _ _, true;
  isValidEd25519PublicKey := λ _, true;
  getAccount := λ _, Ok tt;
  prepareTransaction := λ _ _ _, Ok ("ph", "xdr");
  publicKeyOf := λ _, Ok "G";
  sendTransaction := λ _, Ok (Some {| hash := Some hash64; send_status := "PENDING" |});
  getTransaction := λ k, Ok {| tx_status := if (k =? 1)%nat then status else "NOT_FOUND";
                               returnValue := Native (Present "ab" None) (Present "5" (Some 5%Q)); tx_ledger := 7 |}
|}.

Definition redis_up : redis := {| configured := true; get_up := true; set_up := true |}.

Lemma one_submission_per_window_witness :
  let x t := {| c_network := sample_network "SUCCESS"; c_redis := redis_up; c_now := t; c_params := sample_params None |} in
  sent <$> submit_all (λ s, s) show_timestamp sample_host 300000 [x 0; x 299999; x 300000] ∅ = [true; false; true] ∧
  0 + 300000 ≤ 300000.
Proof.
  intros x. split; [reflexivity|].
  refine (proj2 (one_submission_per_window (λ s, s) show_timestamp sample_host None (λ _, None) ∅ [x 0; x 300000] 0 1
            (x 0) (x 300000)
            (submitAttestation (λ s, s) show_timestamp sample_host 300000 (sample_network "SUCCESS") redis_up 0 (sample_params None) ∅)
            (submitAttestation (λ s, s) show_timestamp sample_host 300000 (sample_network "SUCCESS") redis_up 300000 (sample_params None)
               (dedupe (submitAttestation (λ s, s) show_timestamp sample_host 300000 (sample_network "SUCCESS") redis_up 0 (sample_params None) ∅)))
            _ _ _ eq_refl eq_refl eq_refl eq_refl eq_refl eq_refl eq_refl _)).
  - repeat constructor.
  - intros [|[|i]] [|[|j]] u v Hij [= <-] [= <-]; cbn; lia.
  - lia.
  - vm_compute. reflexivity.
Defined.
