(* ===== verification/DegradedQueue.v ===== *)
(** * The degraded queue: [src/services/soroban/submitAttestation.ts].

    While the circuit breaker is open, attestations wait in memory.  The items
    are mutable objects that several drains may hold at once, so the queue is
    a list of references into a heap, and a drain stops at each
    [await submitAttestation]: enqueues, drains and settling submissions are
    the events of a world, in any order. *)

From S2P Require Import Prelude Numeric Hashing JsString Collections SorobanSubmission.
#[local] Open Scope Z_scope.

Inductive QueuedAttestationStatus := Queued | Processing | Failed.

Record QueueItem := {
  params : SubmitAttestationParams;
  idempotencyKey : string;
  queuedAt : Z;
  nextAttemptAt : Z;
  attempts : Z;
  item_status : QueuedAttestationStatus
}.

Inductive reason := Disabled | Invalid | Duplicate | QueueFull.

Definition DEFAULT_DEGRADED_QUEUE_MAX_ITEMS : Z := 1000.
Definition DEFAULT_DEGRADED_QUEUE_BACKOFF_MS : Z := 5000.
Definition MAX_DEGRADED_QUEUE_BACKOFF_MS : Z := 60000.

(** [SOROBAN_DEGRADED_QUEUE_MAX_ITEMS] *)
Definition resolveQueuedAttestationQueueLimit (raw : option string) : Z :=
  match raw with
  | None => DEFAULT_DEGRADED_QUEUE_MAX_ITEMS
  | Some raw =>
      if is_empty (trim raw) then DEFAULT_DEGRADED_QUEUE_MAX_ITEMS
      else match parse_int raw with
           | None => DEFAULT_DEGRADED_QUEUE_MAX_ITEMS
           | Some value => if value <? 1 then DEFAULT_DEGRADED_QUEUE_MAX_ITEMS else value
           end
  end.

Definition getQueuedAttestationBackoffMs (attempts : Z) : Z :=
  let base := DEFAULT_DEGRADED_QUEUE_BACKOFF_MS * 2 ^ Z.max 0 (attempts - 1) in
  Z.min MAX_DEGRADED_QUEUE_BACKOFF_MS base.

(** The store: references into the heap of item objects; [next] is the next
    unused reference. *)
Record queue := { heap : gmap nat QueueItem; store : list nat; next : nat }.

Definition resetQueuedAttestationStore (q : queue) : queue := {| heap := heap q; store := []; next := next q |}.

Definition key_of (q : queue) (o : nat) : option string := idempotencyKey <$> heap q !! o.

(** [findIndex] by idempotency key. *)
Fixpoint find_index (q : queue) (key : string) (l : list nat) (i : nat) : option (nat * nat) :=
  match l with
  | [] => None
  | o :: l => if bool_decide (key_of q o = Some key) then Some (i, o) else find_index q key l (S i)
  end.

(** Mutation of an object; a detached one too. *)
Definition mutate (f : QueueItem → QueueItem) (o : nat) (q : queue) : queue :=
  {| heap := alter f o (heap q); store := store q; next := next q |}.

(** [splice(index, 1)] *)
Definition splice (index : nat) (q : queue) : queue :=
  {| heap := heap q; store := take index (store q) ++ drop (S index) (store q); next := next q |}.

Definition processing (i : QueueItem) : QueueItem :=
  {| params := params i; idempotencyKey := idempotencyKey i; queuedAt := queuedAt i;
     nextAttemptAt := nextAttemptAt i; attempts := attempts i; item_status := Processing |}.

Definition failed_at (now : Z) (i : QueueItem) : QueueItem :=
  let n := attempts i + 1 in
  {| params := params i; idempotencyKey := idempotencyKey i; queuedAt := queuedAt i;
     nextAttemptAt := now + getQueuedAttestationBackoffMs n; attempts := n; item_status := Failed |}.

Definition trimmed (p : SubmitAttestationParams) : SubmitAttestationParams :=
  {| business := trim (business p); period := trim (period p); merkleRoot := trim (merkleRoot p);
     timestamp := timestamp p; version := trim (version p); sourcePublicKey := sourcePublicKey p;
     signerSecret := signerSecret p; submit := submit p; userId := userId p |}.

Section Queue.
Context (sha256 : string → string) (String_of : js_timestamp → string).

(** [enabled] is [isSorobanQueueEnabled()]; [now] the two readings of the
    clock, in one millisecond. *)
Definition enqueueQueuedAttestation (enabled : bool) (limit : Z) (p : SubmitAttestationParams)
    (key : option string) (now : Z) (q : queue) : result reason nat * queue :=
  if negb enabled then (Err Disabled, q)
  else
    let normalized := trimmed p in
    if is_empty (business normalized) || is_empty (period normalized) || is_empty (merkleRoot normalized) then
      (Err Invalid, q)
    else
      let idempotencyKey := default (computeAttestationDedupeKey sha256 String_of normalized) key in
      match find_index q idempotencyKey (store q) 0 with
      | Some _ => (Err Duplicate, q)
      | None =>
          if limit <=? Z.of_nat (length (store q)) then (Err QueueFull, q)
          else
            let item := {| params := normalized; idempotencyKey := idempotencyKey; queuedAt := now;
                           nextAttemptAt := now; attempts := 0; item_status := Queued |} in
            (Ok (next q), {| heap := <[next q := item]> (heap q); store := store q ++ [next q]; next := S (next q) |})
      end.
End Queue.

(** ** Drains *)

(** A drain suspended at its [await]: the keys of the due items that are left,
    the index and the object it captured, and the results so far. *)
Record drain := {
  todo : list string; index : nat; current : nat;
  results : list (nat * result thrown SubmitAttestationResult)
}.

(** [limit]: [None] when it is not finite. *)
Definition bounded_limit (limit : option Z) : Z :=
  match limit with Some l => Z.max 1 (Z.min 100 l) | None => 10 end.

Definition due (q : queue) (now : Z) (o : nat) : bool :=
  match heap q !! o with Some i => nextAttemptAt i <=? now | None => false end.

Definition queued_at (q : queue) (o : nat) : Z := from_option queuedAt 0 (heap q !! o).

Definition dueItems (limit : option Z) (now : Z) (q : queue) : list nat :=
  take (Z.to_nat (bounded_limit limit))
    (js_sort (λ a b, queued_at q a - queued_at q b) (List.filter (due q now) (store q))).

(** The loop up to its next [await], or to its end. *)
Fixpoint advance (keys : list string) (results : list (nat * result thrown SubmitAttestationResult)) (q : queue)
  : queue * (drain + list (nat * result thrown SubmitAttestationResult)) :=
  match keys with
  | [] => (q, inr results)
  | key :: keys =>
      match find_index q key (store q) 0 with
      | None => advance keys results q
      | Some (i, o) =>
          (mutate processing o q, inl {| todo := keys; index := i; current := o; results := results |})
      end
  end.

Definition start_drain (limit : option Z) (now : Z) (q : queue)
  : queue * (drain + list (nat * result thrown SubmitAttestationResult)) :=
  advance (omap (key_of q) (dueItems limit now q)) [] q.

(** The answers after which the item leaves the queue. *)
Definition removes (a : result thrown SubmitAttestationResult) : bool :=
  match a with
  | Ok _ => true
  | Err (SorobanSubmissionError code) => includes code ["DEDUPED"; "VALIDATION_ERROR"]
  | Err _ => false
  end.

(** [await submitAttestation(...)] settles with [a]. *)
Definition settle (a : result thrown SubmitAttestationResult) (now : Z) (d : drain) (q : queue)
  : queue * (drain + list (nat * result thrown SubmitAttestationResult)) :=
  let q := match a with Ok _ => q | Err _ => mutate (failed_at now) (current d) q end in
  let q := if removes a then splice (index d) q else q in
  advance (todo d) (results d ++ [(current d, a)]) q.

(** ** The queue with its drains *)

Record world := {
  w_queue : queue;
  drains : gmap nat drain;
  (** every settled submission, in order *)
  w_log : list (nat * result thrown SubmitAttestationResult)
}.

Inductive event :=
| Enqueue (limit : Z) (p : SubmitAttestationParams) (key : option string) (now : Z)
| StartDrain (d : nat) (limit : option Z) (now : Z)
| Settle (d : nat) (a : result thrown SubmitAttestationResult) (now : Z).

Section World.
Context (sha256 : string → string) (String_of : js_timestamp → string).

(** A drain that waits again is kept, one that returned is gone. *)
Definition park (d : nat) (r : queue * (drain + list (nat * result thrown SubmitAttestationResult)))
    (log : list (nat * result thrown SubmitAttestationResult)) (w : world) : world :=
  {| w_queue := r.1;
     drains := match r.2 with inl dr => <[d := dr]> (drains w) | inr _ => delete d (drains w) end;
     w_log := w_log w ++ log |}.

Definition step (e : event) (w : world) : world :=
  match e with
  | Enqueue limit p key now =>
      {| w_queue := (enqueueQueuedAttestation sha256 String_of true limit p key now (w_queue w)).2;
         drains := drains w; w_log := w_log w |}
  | StartDrain d limit now =>
      match drains w !! d with
      | Some _ => w
      | None => park d (start_drain limit now (w_queue w)) [] w
      end
  | Settle d a now =>
      match drains w !! d with
      | None => w
      | Some dr => park d (settle a now dr (w_queue w)) [(current dr, a)] w
      end
  end.

Definition run (es : list event) (w : world) : world := fold_left (λ w e, step e w) es w.

Definition empty_world : world :=
  {| w_queue := {| heap := ∅; store := []; next := 0 |}; drains := ∅; w_log := [] |}.

(** No drain starts while another one runs. *)
Fixpoint one_at_a_time (es : list event) (w : world) : bool :=
  match es with
  | [] => true
  | e :: es =>
      (match e with StartDrain _ _ _ => bool_decide (drains w = ∅) | _ => true end) && one_at_a_time es (step e w)
  end.
End World.

(** ** The degraded queue: lemmas *)

(** Objects in the store exist, each once, with different keys. *)
Record queue_ok (q : queue) : Prop := {
  ok_heap : ∀ o, o ∈ store q → is_Some (heap q !! o);
  ok_nodup : NoDup (store q);
  ok_keys : ∀ o o', o ∈ store q → o' ∈ store q → key_of q o = key_of q o' → o = o';
  ok_next : ∀ o, is_Some (heap q !! o) → (o < next q)%nat
}.

(** Two queues that differ only in fields other than the keys. *)
Record same_shape (q q' : queue) : Prop := {
  same_store : store q' = store q;
  same_next : next q' = next q;
  same_keys : ∀ o, key_of q' o = key_of q o
}.

Lemma same_shape_refl q : same_shape q q.
Proof. by split. Qed.

Lemma same_shape_trans q1 q2 q3 : same_shape q1 q2 → same_shape q2 q3 → same_shape q1 q3.
Proof. intros [s1 n1 k1] [s2 n2 k2]. split; [congruence|congruence|]. intros o. by rewrite k2. Qed.

Lemma key_is_some q o : is_Some (key_of q o) ↔ is_Some (heap q !! o).
Proof. unfold key_of. by rewrite fmap_is_Some. Qed.

Lemma same_shape_ok q q' : same_shape q q' → queue_ok q → queue_ok q'.
Proof.
  intros [Hs Hn Hk] [H1 H2 H3 H4]. split; rewrite ?Hs, ?Hn.
  - intros o Ho. apply key_is_some. rewrite Hk. by apply key_is_some, H1.
  - done.
  - intros o o'. rewrite !Hk. by apply H3.
  - intros o Ho. apply H4, key_is_some. rewrite <- Hk. by apply key_is_some.
Qed.

Lemma mutate_shape f o q : (∀ i, idempotencyKey (f i) = idempotencyKey i) → same_shape q (mutate f o q).
Proof.
  intros Hf. split; [done|done|]. intros o'. unfold key_of, mutate. cbn.
  destruct (decide (o = o')) as [<-|Hn]; [|by rewrite lookup_alter_ne].
  rewrite lookup_alter_eq. destruct (heap q !! o); [|done]. cbn. by rewrite Hf.
Qed.

Lemma find_index_Some q key l i j o :
  find_index q key l i = Some (j, o) → ∃ n, j = (i + n)%nat ∧ l !! n = Some o ∧ key_of q o = Some key.
Proof.
  revert i. induction l as [|x l IH]; intros i; cbn; [done|]. case_bool_decide as Hk.
  - intros [= <- <-]. exists 0%nat. split_and!; [lia|done|done].
  - intros H. apply IH in H as (n & -> & Hn & Ho). exists (S n). split_and!; [lia|done|done].
Qed.

Lemma find_index_None q key l i : find_index q key l i = None → ∀ o, o ∈ l → key_of q o ≠ Some key.
Proof.
  revert i. induction l as [|x l IH]; intros i; cbn; [set_solver|]. case_bool_decide as Hk; [done|].
  intros H o Ho. apply elem_of_cons in Ho as [->|Ho]; [done|by apply (IH _ H)].
Qed.

(** Where a drain waits, it holds a valid index. *)
Lemma advance_spec keys res q q' r :
  advance keys res q = (q', r) →
  same_shape q q' ∧ match r with inl d => store q' !! index d = Some (current d) | inr _ => True end.
Proof.
  revert res. induction keys as [|k keys IH]; intros res; cbn.
  - intros [= <- <-]. split; [apply same_shape_refl|done].
  - destruct (find_index q k (store q) 0) as [[i o]|] eqn:Hf; [|apply IH].
    intros [= <- <-]. split; [by apply mutate_shape|].
    apply find_index_Some in Hf as (n & -> & Hn & _). by rewrite Nat.add_0_l.
Qed.

Lemma splice_lookup (l : list nat) i o :
  NoDup l → l !! i = Some o → ∀ x, x ∈ take i l ++ drop (S i) l ↔ x ∈ l ∧ x ≠ o.
Proof.
  intros Hn Hl x. rewrite <- (take_drop_middle l i o Hl) in Hn at 1.
  rewrite <- (take_drop_middle l i o Hl) at 3. rewrite !elem_of_app, elem_of_cons.
  apply NoDup_app in Hn as (_ & Hn1 & Hn2). apply NoDup_cons in Hn2 as [Hn2 _].
  split; [|intuition congruence]. intros [H|H].
  - split; [by left|]. intros ->. apply (Hn1 o H). by left.
  - split; [by right; right|]. by intros ->.
Qed.

Lemma splice_sublist (l : list nat) i : take i l ++ drop (S i) l `sublist_of` l.
Proof.
  rewrite <- (take_drop i l) at 3. apply sublist_app; [done|].
  replace (S i) with (i + 1)%nat by lia. rewrite <- drop_drop. apply sublist_drop.
Qed.

Lemma splice_ok i q : queue_ok q → queue_ok (splice i q).
Proof.
  intros [H1 H2 H3 H4]. pose proof (splice_sublist (store q) i) as Hsub.
  assert (∀ o, o ∈ take i (store q) ++ drop (S i) (store q) → o ∈ store q) as Hin.
  { intros o Ho. apply (sublist_submseteq _ _) in Hsub. by apply (elem_of_submseteq _ _ _ Ho). }
  split; cbn.
  - intros o Ho. by apply H1, Hin.
  - by apply (sublist_NoDup _ (store q)).
  - intros o o' Ho Ho'. by apply H3; apply Hin.
  - done.
Qed.

Section Worlds.
Context (sha256 : string → string) (String_of : js_timestamp → string).
Abbreviation world_step := (step sha256 String_of).

Lemma enqueue_cases limit p key now q :
  (enqueueQueuedAttestation sha256 String_of true limit p key now q).2 = q ∨
  ∃ item, (enqueueQueuedAttestation sha256 String_of true limit p key now q).2 =
      {| heap := <[next q := item]> (heap q); store := store q ++ [next q]; next := S (next q) |} ∧
    Z.of_nat (length (store q)) < limit ∧ ∀ o, o ∈ store q → key_of q o ≠ Some (idempotencyKey item).
Proof.
  unfold enqueueQueuedAttestation. cbn [negb]. case_if; [by left|].
  destruct (find_index _ _ _ _) eqn:Hf; [by left|]. case_if; [by left|]. right. eexists. split_and!; [done|lia|].
  exact (find_index_None _ _ _ _ Hf).
Qed.

Lemma enqueue_ok limit p key now q :
  queue_ok q → queue_ok (enqueueQueuedAttestation sha256 String_of true limit p key now q).2.
Proof.
  intros Hq. destruct (enqueue_cases limit p key now q) as [->|(item & -> & _ & Hk)]; [done|].
  destruct Hq as [H1 H2 H3 H4].
  assert (next q ∉ store q) as Hfresh by (intros Hin; apply H1, H4 in Hin; lia).
  assert (∀ o, o ∈ store q → heap q !! o = <[next q := item]> (heap q) !! o) as Hh.
  { intros o Ho. rewrite lookup_insert_ne; [done|]. by intros <-. }
  split; cbn.
  - intros o Ho. apply elem_of_app in Ho as [Ho|Ho]; [rewrite <- Hh by done; by apply H1|].
    apply list_elem_of_singleton in Ho as ->. rewrite lookup_insert_eq. by eexists.
  - apply NoDup_app. split_and!; [done| |apply NoDup_singleton].
    intros o Ho Hn. apply list_elem_of_singleton in Hn as ->. done.
  - unfold key_of. cbn. intros o o' Ho Ho'.
    apply elem_of_app in Ho as [Ho|Ho]; apply elem_of_app in Ho' as [Ho'|Ho'].
    + rewrite <- !Hh by done. by apply H3.
    + apply list_elem_of_singleton in Ho' as ->. rewrite <- (Hh o), lookup_insert_eq by done. intros E. by destruct (Hk o Ho).
    + apply list_elem_of_singleton in Ho as ->. rewrite <- (Hh o'), lookup_insert_eq by done. intros E.
      destruct (Hk o' Ho'). symmetry. done.
    + apply list_elem_of_singleton in Ho, Ho'. congruence.
  - intros o [x Hx]. destruct (decide (o = next q)) as [->|Hn]; [lia|].
    rewrite lookup_insert_ne in Hx by done. pose proof (H4 o ltac:(by eexists)). lia.
Qed.

(** The queue after an answer, before the loop goes on. *)
Definition settled (a : result thrown SubmitAttestationResult) (now : Z) (d : drain) (q : queue) : queue :=
  let q := match a with Ok _ => q | Err _ => mutate (failed_at now) (current d) q end in
  if removes a then splice (index d) q else q.

Lemma settled_store a now d q :
  store (settled a now d q) =
  if removes a then take (index d) (store q) ++ drop (S (index d)) (store q) else store q.
Proof. unfold settled. destruct a, (removes _); done. Qed.

Lemma settled_next a now d q : next (settled a now d q) = next q.
Proof. unfold settled. destruct a, (removes _); done. Qed.

Lemma settled_ok a now d q : queue_ok q → queue_ok (settled a now d q).
Proof.
  intros Hq. unfold settled.
  assert (queue_ok (match a with Ok _ => q | Err _ => mutate (failed_at now) (current d) q end)) as H.
  { destruct a; [done|]. eapply same_shape_ok; [|done]. by apply mutate_shape. }
  case_if; [by apply splice_ok|done].
Qed.

Lemma queue_step_ok e w : queue_ok (w_queue w) → queue_ok (w_queue (world_step e w)).
Proof.
  intros Hq. destruct e as [limit p key now|d limit now|d a now]; cbn.
  - by apply enqueue_ok.
  - destruct (drains w !! d); [done|]. cbn. unfold start_drain.
    destruct (advance _ _ _) as [q' r] eqn:Ha. apply advance_spec in Ha as [Ha _]. by eapply same_shape_ok.
  - destruct (drains w !! d) as [dr|]; [|done]. cbn. fold (settled a now dr (w_queue w)). unfold settle.
    fold (settled a now dr (w_queue w)). destruct (advance _ _ _) as [q' r] eqn:Ha.
    apply advance_spec in Ha as [Ha _]. eapply same_shape_ok; [exact Ha|]. by apply settled_ok.
Qed.
End Worlds.

Section Single.
Context (sha256 : string → string) (String_of : js_timestamp → string).
Abbreviation world_step := (step sha256 String_of).

Lemma store_length_step e w L :
  queue_ok (w_queue w) → (match e with Enqueue l _ _ _ => l ≤ L | _ => True end) →
  Z.of_nat (length (store (w_queue w))) ≤ L → Z.of_nat (length (store (w_queue (world_step e w)))) ≤ L.
Proof.
  intros Hq He HL. destruct e as [limit p key now|d limit now|d a now]; cbn [step w_queue].
  - destruct (enqueue_cases sha256 String_of limit p key now (w_queue w)) as [->|(item & -> & Hl & _)]; [done|].
    cbn. rewrite length_app. cbn. lia.
  - destruct (drains w !! d); [done|]. cbn. unfold start_drain.
    destruct (advance _ _ _) as [q' r] eqn:Ha. apply advance_spec in Ha as [[Hs _ _] _]. cbn. by rewrite Hs.
  - destruct (drains w !! d) as [dr|]; [|done]. cbn. unfold settle. fold (settled a now dr (w_queue w)).
    destruct (advance _ _ _) as [q' r] eqn:Ha. apply advance_spec in Ha as [[Hs _ _] _]. cbn. rewrite Hs, settled_store.
    case_if; [|done]. rewrite length_app, length_take, length_drop. lia.
Qed.

(** Settled answers that removed the object. *)
Definition gone (o : nat) (log : list (nat * result thrown SubmitAttestationResult)) : Prop :=
  ∃ a, (o, a) ∈ log ∧ removes a = true.

Lemma gone_snoc o log o' a : gone o (log ++ [(o', a)]) ↔ gone o log ∨ (o = o' ∧ removes a = true).
Proof.
  unfold gone. split.
  - intros (b & Hb & Hr). apply elem_of_app in Hb as [Hb|Hb]; [left; eauto|].
    apply list_elem_of_singleton in Hb as [= -> ->]. by right.
  - intros [(b & Hb & Hr)|[-> Hr]]; [exists b|exists a]; (split; [|done]); apply elem_of_app; [by left|right].
    by apply list_elem_of_singleton.
Qed.

Lemma empty_ok : queue_ok (w_queue empty_world).
Proof. split; cbn; [set_solver|apply NoDup_nil_2|set_solver|]. intros o [x Hx]. by rewrite lookup_empty in Hx. Qed.

Lemma run_ok_from_empty es : queue_ok (w_queue (run sha256 String_of es empty_world)).
Proof.
  pose proof empty_ok as H. revert H. generalize empty_world. induction es as [|e es IH]; intros w Hw; [done|]. by apply IH, queue_step_ok.
Qed.

(** With one drain at a time: the drain's index points at its object, and an
    object is in the queue unless an answer removed it. *)
Record single (w : world) : Prop := {
  single_queue : queue_ok (w_queue w);
  single_drain : drains w = ∅ ∨ ∃ d dr, drains w = {[d := dr]} ∧ store (w_queue w) !! index dr = Some (current dr);
  single_log : ∀ o a, (o, a) ∈ w_log w → (o < next (w_queue w))%nat;
  single_exact : ∀ o, (o < next (w_queue w))%nat → o ∈ store (w_queue w) ↔ ¬ gone o (w_log w)
}.

Lemma single_empty : single empty_world.
Proof.
  split; cbn.
  - exact empty_ok.
  - by left.
  - set_solver.
  - lia.
Qed.

Lemma single_step e w :
  single w → (match e with StartDrain _ _ _ => drains w = ∅ | _ => True end) → single (world_step e w).
Proof.
  intros [Hq Hd Hl Hx] He. destruct e as [limit p key now|d limit now|d a now].
  - pose proof (enqueue_ok sha256 String_of limit p key now _ Hq) as Hq'. cbn [step].
    destruct (enqueue_cases sha256 String_of limit p key now (w_queue w)) as [Hsame|(item & Hnew & _ & _)].
    { split; cbn [w_queue drains w_log]; rewrite ?Hsame; done. }
    split; cbn [w_queue drains w_log]; rewrite ?Hnew; cbn [store next].
    + by rewrite <- Hnew.
    + destruct Hd as [|(d & dr & Hdr & Hi)]; [by left|]. right. exists d, dr. split; [done|].
      by apply lookup_app_l_Some.
    + intros o a Ho. apply Hl in Ho. lia.
    + intros o Ho. destruct (decide (o = next (w_queue w))) as [->|Hn].
      * split; [|by intros _; apply elem_of_app; right; apply list_elem_of_singleton].
        intros _ (a & Ha & _). apply Hl in Ha. lia.
      * rewrite <- Hx by lia. rewrite elem_of_app, list_elem_of_singleton. intuition.
  - cbn. rewrite He, lookup_empty. unfold park, start_drain.
    destruct (advance _ _ _) as [q' r] eqn:Ha. apply advance_spec in Ha as [Hs Hi].
    pose proof (same_shape_ok _ _ Hs Hq) as Hq'. destruct Hs as [Hs Hn _].
    split; cbn; rewrite ?app_nil_r, ?Hs, ?Hn; [done| |done|done].
    destruct r as [dr|res]; [|by left; rewrite He, delete_empty]. right. exists d, dr. rewrite He, insert_empty.
    split; [done|]. by rewrite Hs in Hi.
  - cbn. destruct (drains w !! d) as [dr|] eqn:Hdw; [|by split].
    destruct Hd as [Hd|(d' & dr' & Hd & Hi)]; [by rewrite Hd, lookup_empty in Hdw|].
    rewrite Hd in Hdw. apply lookup_singleton_Some in Hdw as [-> ->].
    unfold park, settle. fold (settled a now dr (w_queue w)).
    pose proof (settled_ok a now dr _ Hq) as Hq1.
    destruct (advance _ _ _) as [q' r] eqn:Ha. apply advance_spec in Ha as [Hs Hv].
    pose proof (same_shape_ok _ _ Hs Hq1) as Hq'. destruct Hs as [Hs Hn _]. rewrite settled_store in Hs. rewrite settled_next in Hn.
    assert (current dr ∈ store (w_queue w)) as Hin by (by apply list_elem_of_lookup_2 in Hi).
    assert (current dr < next (w_queue w))%nat as Hlt by (by apply (ok_next _ Hq), (ok_heap _ Hq)).
    split; cbn; rewrite ?Hs, ?Hn; [done| | |].
    + destruct r as [dr2|res]; [|left; rewrite Hd; apply delete_singleton_eq].
      right. exists d, dr2. rewrite Hd, insert_singleton_eq. by rewrite <- Hs.
    + intros o b Ho. apply elem_of_app in Ho as [Ho|Ho]; [by apply (Hl _ b)|].
      by apply list_elem_of_singleton in Ho as [= -> _].
    + intros o Ho. rewrite gone_snoc. destruct (removes a).
      * rewrite (splice_lookup _ _ _ (ok_nodup _ Hq) Hi), Hx by done. intuition congruence.
      * rewrite Hx by done. intuition congruence.
Qed.

Lemma single_run es w : single w → one_at_a_time sha256 String_of es w = true → single (run sha256 String_of es w).
Proof.
  revert w. induction es as [|e es IH]; intros w Hw; cbn; [done|]. intros [He Ho]%andb_true_iff.
  apply IH; [|done]. apply single_step; [done|]. destruct e; [done| |done]. by apply bool_decide_eq_true in He.
Qed.
End Single.

(** Marking an object as processed changes neither what is due nor its
    order. *)
Lemma dueItems_processing limit now o q : dueItems limit now (mutate processing o q) = dueItems limit now q.
Proof.
  unfold dueItems. f_equal. cbn [store mutate].
  assert (∀ x, due (mutate processing o q) now x = due q now x) as Hdue.
  { intros x. unfold due, mutate. cbn. destruct (decide (o = x)) as [<-|Hn]; [|by rewrite lookup_alter_ne].
    rewrite lookup_alter_eq. by destruct (heap q !! o). }
  assert (∀ x, queued_at (mutate processing o q) x = queued_at q x) as Hat.
  { intros x. unfold queued_at, mutate. cbn. destruct (decide (o = x)) as [<-|Hn]; [|by rewrite lookup_alter_ne].
    rewrite lookup_alter_eq. by destruct (heap q !! o). }
  rewrite (filter_ext _ _ Hdue). apply js_sort_ext. intros x y. by rewrite !Hat.
Qed.

Lemma find_index_head q key o l i :
  key_of q o = Some key → find_index q key (o :: l) i = Some (i, o).
Proof. intros H. cbn. by rewrite bool_decide_true. Qed.

(** The steps of a drain that holds the first object only. *)
Section Steps.
Context (sha256 : string → string) (String_of : js_timestamp → string).

Definition holds (o : nat) : drain := {| todo := []; index := 0; current := o; results := [] |}.

Lemma start_head lim now q o l i :
  store q = o :: l → dueItems lim now q = [o] → heap q !! o = Some i →
  start_drain lim now q = (mutate processing o q, inl (holds o)).
Proof.
  intros Hs Hd Hi. assert (key_of q o = Some (idempotencyKey i)) as Hk by (unfold key_of; by rewrite Hi).
  unfold start_drain. rewrite Hd. cbn [omap list_omap]. rewrite Hk. cbn [advance]. by rewrite Hs, find_index_head.
Qed.

Lemma start_step d lim now w q' dr :
  drains w !! d = None → start_drain lim now (w_queue w) = (q', inl dr) →
  step sha256 String_of (StartDrain d lim now) w =
  {| w_queue := q'; drains := <[d := dr]> (drains w); w_log := w_log w |}.
Proof. intros Hd Hs. cbn [step]. rewrite Hd, Hs. unfold park. by rewrite app_nil_r. Qed.

Lemma settle_step d a now w dr :
  drains w !! d = Some dr → todo dr = [] →
  step sha256 String_of (Settle d a now) w =
  {| w_queue := settled a now dr (w_queue w); drains := delete d (drains w); w_log := w_log w ++ [(current dr, a)] |}.
Proof. intros Hd Ht. cbn [step]. rewrite Hd. unfold settle. by rewrite Ht. Qed.

Lemma due_single lim now q o i :
  store q = [o] → heap q !! o = Some i → nextAttemptAt i ≤ now → dueItems lim now q = [o].
Proof.
  intros Hs Hi Hn. unfold dueItems. rewrite Hs. cbn [List.filter]. unfold due. rewrite Hi.
  assert ((nextAttemptAt i <=? now) = true) as -> by lia. cbn [js_sort fold_left sort_insert].
  apply take_ge. cbn. unfold bounded_limit. destruct lim; lia.
Qed.

Lemma heap_mutate f o q i : heap q !! o = Some i → heap (mutate f o q) !! o = Some (f i).
Proof. intros Hi. cbn. by rewrite lookup_alter_eq, Hi. Qed.
End Steps.

(** Under every interleaving of enqueues, drains and settling submissions
    the degraded queue keeps its invariant: objects exist, occur once and
    have different idempotency keys, and the queue never exceeds the largest
    limit it was given. *)
Theorem degraded_queue_invariant sha256 String_of es L :
  0 ≤ L → Forall (λ e, match e with Enqueue l _ _ _ => l ≤ L | _ => True end) es →
  let q := w_queue (run sha256 String_of es empty_world) in
  queue_ok q ∧ Z.of_nat (length (store q)) ≤ L.
Proof.
  intros HL Hes. cbn zeta.
  assert (queue_ok (w_queue empty_world) ∧ Z.of_nat (length (store (w_queue empty_world))) ≤ L) as H
    by (split; [apply single_empty|done]).
  revert H. generalize empty_world. induction Hes as [|e es He _ IH]; intros w Hw; [done|].
  destruct Hw as [Hq Hl]. apply IH. split; [by apply queue_step_ok|by apply store_length_step].
Qed.

(** C39. As long as no drain starts while another one runs, the queue loses
    nothing: an object that was ever enqueued is in the queue exactly when no
    answer to its own submission was a success, [DEDUPED] or
    [VALIDATION_ERROR]. *)
Theorem single_drain_loses_nothing sha256 String_of es :
  one_at_a_time sha256 String_of es empty_world = true →
  let w := run sha256 String_of es empty_world in
  ∀ o, (o < next (w_queue w))%nat →
    o ∈ store (w_queue w) ↔ ¬ ∃ a, (o, a) ∈ w_log w ∧ removes a = true.
Proof. intros H w. exact (single_exact _ (single_run _ _ es _ single_empty H)). Qed.

(** Two drains that overlap do lose: when both start while item [a] is
    the oldest due one and both of their submissions succeed, [a] was
    submitted twice and the item behind it has left the queue although it was
    never submitted. *)
Theorem overlapping_drains_lose_items sha256 String_of w d1 d2 now a b rest ra rb :
  d1 ≠ d2 → drains w = ∅ → queue_ok (w_queue w) → store (w_queue w) = a :: b :: rest →
  head (dueItems (Some 1) now (w_queue w)) = Some a →
  let w' := run sha256 String_of
    [StartDrain d1 (Some 1) now; StartDrain d2 (Some 1) now; Settle d1 (Ok ra) now; Settle d2 (Ok rb) now] w in
  store (w_queue w') = rest ∧ w_log w' = w_log w ++ [(a, Ok ra); (a, Ok rb)].
Proof.
  intros Hd Hw Hq Hs Hdue w'. destruct w as [q ds log]. cbn in Hw, Hq, Hs, Hdue. subst ds.
  assert (dueItems (Some 1) now q = [a]) as Ha.
  { unfold dueItems in Hdue |- *. change (Z.to_nat (bounded_limit (Some 1))) with 1%nat in *.
    destruct (js_sort _ _) as [|x l]; [done|]. cbn in *. by injection Hdue as ->. }
  destruct (ok_heap _ Hq a ltac:(rewrite Hs; by left)) as [ia Hia].
  set (q1 := mutate processing a q). pose proof (heap_mutate processing a q ia Hia) as Hia1. fold q1 in Hia1.
  unfold w', run. cbn [fold_left].
  rewrite (start_step _ _ d1 _ _ _ q1 (holds a)) by (try done; by apply (start_head _ _ _ _ (b :: rest) ia)).
  rewrite (start_step _ _ d2 _ _ _ (mutate processing a q1) (holds a)).
  2:{ cbn. by rewrite lookup_insert_ne. }
  2:{ apply (start_head _ _ _ _ (b :: rest) (processing ia)); [done| |done]. cbn [w_queue]. unfold q1.
      by rewrite dueItems_processing. }
  cbn [w_queue drains w_log].
  rewrite (settle_step _ _ d1 _ _ _ (holds a)) by (try done; cbn; by rewrite lookup_insert_ne, lookup_insert_eq).
  rewrite (settle_step _ _ d2 _ _ _ (holds a)) by (try done; cbn; by rewrite lookup_delete_ne, lookup_insert_eq).
  cbn [w_queue w_log current holds]. rewrite !settled_store. cbn -[take drop]. rewrite Hs. split; [done|].
  by rewrite <- (assoc_L app).
Qed.

(** An attestation whose transaction failed on chain is dropped: the
    queue retries the item, the retry runs into the item's own deduplication
    mark, and the answer [DEDUPED] removes it although nothing was recorded. *)
Theorem failed_on_chain_is_dropped sha256 String_of hs ttlMs c1 c2 r now1 now2 m w d lim a i e :
  let p := params i in
  let submission := submitAttestation sha256 String_of hs ttlMs in
  let o1 := submission c1 r now1 p m in
  let o2 := submission c2 r now2 p (dedupe o1) in
  let w1 := run sha256 String_of [StartDrain d lim now1; Settle d (answer o1) now1] w in
  let w2 := run sha256 String_of [StartDrain d lim now2; Settle d (answer o2) now2] w1 in
  default true (submit p) = true → redis_works r →
  drains w = ∅ → store (w_queue w) = [a] → heap (w_queue w) !! a = Some i → nextAttemptAt i ≤ now1 →
  sent o1 = true → accepted c1 p = true → answer o1 = Err e → removes (Err e) = false →
  is_ok (connect hs c2) = true → isValidEd25519PublicKey c2 (sourcePublicKey p) = true →
  now1 + getQueuedAttestationBackoffMs (attempts i + 1) ≤ now2 < now1 + ttlMs →
  store (w_queue w1) = [a] ∧ answer o2 = Err (SorobanSubmissionError "DEDUPED") ∧ sent o2 = false ∧
  store (w_queue w2) = [].
Proof.
  intros p submission o1 o2 w1 w2 Hsub Hr Hd Hs Hi Hn Hs1 Ha1 He Hrem Hcon Hv Hnow.
  destruct w as [q ds log]. cbn in Hd, Hs, Hi. subst ds.
  assert (sent o2 = false ∧ answer o2 = Err (SorobanSubmissionError "DEDUPED")) as [Hs2 Ha2].
  { destruct (submission_sent _ _ _ _ _ _ _ _ _ Hs1) as (_ & _ & [(_ & h & _ & Hdd)|(Ha & _)]); [|congruence].
    destruct Hr as (Hc & Hg & Hset). unfold o2, submission, submitAttestation. destruct (connect hs c2); [|done]. rewrite Hv, Hsub. cbn [negb].
    unfold assertNotDuplicate, checkAttestationDedupe. rewrite Hc, Hg. unfold o1, submission. rewrite Hdd.
    unfold markAsSubmitted, markAttestationSubmitted. rewrite Hc, Hset. cbn [negb]. rewrite lookup_insert_eq.
    by assert ((now2 <? now1 + ttlMs) = true) as -> by lia. }
  set (q1 := mutate processing a q). pose proof (heap_mutate processing a q i Hi) as Hi1. fold q1 in Hi1.
  assert (w1 = {| w_queue := mutate (failed_at now1) a q1; drains := ∅; w_log := log ++ [(a, answer o1)] |}) as Hw1.
  { unfold w1, run. cbn [fold_left].
    rewrite (start_step _ _ _ _ _ _ q1 (holds a)) by (try done; apply (start_head _ _ _ _ [] i); try done; by apply (due_single _ _ _ _ i)).
    rewrite (settle_step _ _ _ _ _ _ (holds a)) by (try done; by apply lookup_insert_eq).
    cbn [w_queue drains w_log current holds]. rewrite delete_insert_eq, delete_empty. unfold settled. by rewrite He, Hrem. }
  pose proof (heap_mutate (failed_at now1) a q1 _ Hi1) as Hi2. set (q2 := mutate (failed_at now1) a q1) in *.
  split_and!; [by rewrite Hw1|done|done|].
  unfold w2. rewrite Hw1. unfold run. cbn [fold_left].
  rewrite (start_step _ _ _ _ _ _ (mutate processing a q2) (holds a)).
  2:{ apply lookup_empty. }
  2:{ apply (start_head _ _ _ _ [] (failed_at now1 (processing i))); [done| |done].
      apply (due_single _ _ _ _ (failed_at now1 (processing i))); [done|done|]. cbn. lia. }
  rewrite (settle_step _ _ _ _ _ _ (holds a)) by (try done; by apply lookup_insert_eq).
  cbn [w_queue]. rewrite settled_store, Ha2. cbn -[take drop]. by rewrite Hs.
Qed.

(** ** Witnesses *)

Definition enqueue_at (t : Z) (b : string) : event :=
  Enqueue 2 {| business := b; period := "2024-03"; merkleRoot := "ab"; timestamp := BigInt 5; version := "1.0.0";
               sourcePublicKey := "G"; signerSecret := Some "S"; submit := None; userId := None |} None t.

Lemma degraded_queue_invariant_witness :
  let q := w_queue (run (λ s, s) show_timestamp [enqueue_at 0 "b1"; enqueue_at 1 "b1"; enqueue_at 2 "b2"; enqueue_at 3 "b3"]
             empty_world) in
  store q = [0%nat; 1%nat] ∧ Z.of_nat (length (store q)) ≤ 2.
Proof.
  split; [reflexivity|].
  refine (proj2 (degraded_queue_invariant (λ s, s) show_timestamp
    [enqueue_at 0 "b1"; enqueue_at 1 "b1"; enqueue_at 2 "b2"; enqueue_at 3 "b3"] 2 _ _)).
  - lia.
  - repeat constructor; cbn; lia.
Defined.

Definition some_result : SubmitAttestationResult :=
  {| txHash := hash64; status := confirmed; unsignedXdr := None; ledger := None; resultMerkleRoot := None;
     resultTimestamp := None |}.

Lemma single_drain_loses_nothing_witness :
  let es := [enqueue_at 0 "b1"; enqueue_at 0 "b2"; StartDrain 1 (Some 2) 5; Settle 1 (Ok some_result) 6;
             Settle 1 (Err OtherError) 7] in
  1%nat ∈ store (w_queue (run (λ s, s) show_timestamp es empty_world)).
Proof.
  intros es.
  refine (proj2 (single_drain_loses_nothing (λ s, s) show_timestamp es eq_refl 1%nat _) _).
  - vm_compute. lia.
  - intros (a & Ha & Hr).
    change (w_log (run (λ s, s) show_timestamp es empty_world)) with
      [(0%nat, Ok some_result); (1%nat, Err (E := thrown) (A := SubmitAttestationResult) OtherError)] in Ha.
    apply elem_of_cons in Ha as [[=]|Ha]. apply list_elem_of_singleton in Ha as [= ->]. discriminate.
Defined.

Lemma overlapping_drains_lose_items_witness :
  let w := run (λ s, s) show_timestamp [enqueue_at 0 "b1"; enqueue_at 1 "b2"] empty_world in
  let w' := run (λ s, s) show_timestamp
    [StartDrain 1 (Some 1) 5; StartDrain 2 (Some 1) 5; Settle 1 (Ok some_result) 5; Settle 2 (Ok some_result) 5] w in
  store (w_queue w') = [] ∧ w_log w' = [(0%nat, Ok some_result); (0%nat, Ok some_result)].
Proof.
  intros w w'.
  refine (overlapping_drains_lose_items (λ s, s) show_timestamp w 1 2 5 0 1 [] some_result some_result _ _ _ _ _).
  - lia.
  - reflexivity.
  - exact (run_ok_from_empty (λ s, s) show_timestamp [enqueue_at 0 "b1"; enqueue_at 1 "b2"]).
  - reflexivity.
  - reflexivity.
Defined.

Lemma failed_on_chain_is_dropped_witness :
  let w := run (λ s, s) show_timestamp [Enqueue 5 (sample_params (Some true)) None 0] empty_world in
  let i := {| params := sample_params (Some true); idempotencyKey := "b|2024-03|ab|5|1.0.0"; queuedAt := 0;
              nextAttemptAt := 0; attempts := 0; item_status := Queued |} in
  let submission := submitAttestation (λ s, s) show_timestamp sample_host 300000 in
  let o1 := submission (sample_network "FAILED") redis_up 10 (params i) ∅ in
  let o2 := submission (sample_network "SUCCESS") redis_up 6000 (params i) (dedupe o1) in
  let w1 := run (λ s, s) show_timestamp [StartDrain 1 None 10; Settle 1 (answer o1) 10] w in
  store (w_queue w1) = [0%nat] ∧
  store (w_queue (run (λ s, s) show_timestamp [StartDrain 1 None 6000; Settle 1 (answer o2) 6000] w1)) = [].
Proof.
  intros w i submission o1 o2 w1.
  destruct (failed_on_chain_is_dropped (λ s, s) show_timestamp sample_host 300000 (sample_network "FAILED")
    (sample_network "SUCCESS") redis_up 10 6000 ∅ w 1 None 0 i (SorobanSubmissionError "CONFIRMATION_FAILED")
    eq_refl ltac:(repeat split) eq_refl eq_refl eq_refl ltac:(vm_compute; discriminate) eq_refl eq_refl eq_refl eq_refl
    eq_refl eq_refl ltac:(vm_compute; split; [discriminate|reflexivity])) as (H1 & _ & _ & H2).
  exact (conj H1 H2).
Defined.
