(* ===== verification/FairQueue.v ===== *)
(** * The fair batch scheduler: [src/services/soroban/submitAttestation.ts].

    The two entry points around [DrrScheduler], and the specification they
    refine: one first-in first-out queue per tenant. *)

From Stdlib Require Import QArith.QArith.
From S2P Require Import Prelude Collections DrrScheduler SorobanSubmission.
Import Prelude.Simulation.
#[local] Open Scope Z_scope.

Record EnqueueParams := { e_params : SubmitAttestationParams; e_tenantId : string; e_tier : string }.

(** The number of the tenant's items after the call. *)
Definition enqueueToBatchScheduler (p : EnqueueParams) (now : Z) (s : scheduler EnqueueParams)
  : nat * scheduler EnqueueParams :=
  let s := enqueue {| tenantId := e_tenantId p; tier := e_tier p; payload := p; enqueuedAt := now |} s in
  (match stats_tenants s !! e_tenantId p with Some (depth, _, _) => depth | None => 0%nat end, s).

(** [submit i p]: how [submitAttestation(p)] settles, called for the item at
    position [i]; the callback catches, so no promise is rejected.  A drain
    gives the arguments of the calls it makes, in order, and its answer. *)
Definition processBatchSchedulerDrain (submit : nat → EnqueueParams → result thrown SubmitAttestationResult) (fuel : nat)
    (batchSize : Z) (s : scheduler EnqueueParams)
  : option (list EnqueueParams * list (string * result thrown SubmitAttestationResult) * scheduler EnqueueParams) :=
  match dequeueBatch fuel batchSize s with
  | None => None
  | Some (s, items) => Some (map payload items, imap (λ i it, (tenantId it, submit i (payload it))) items, s)
  end.

(** ** The fair scheduler refines one queue per tenant *)

Inductive label :=
| Enqueued (p : EnqueueParams)
| Drained (batchSize : Z) (submitted : list EnqueueParams) (answers : list (string * result thrown SubmitAttestationResult)).

(** [p] is at the front of its tenant's queue and is taken off it. *)
Definition pops (f : string → list EnqueueParams) (p : EnqueueParams) (f' : string → list EnqueueParams) : Prop :=
  (∃ rest, f (e_tenantId p) = p :: rest ∧ f' (e_tenantId p) = rest) ∧ ∀ id, id ≠ e_tenantId p → f' id = f id.

(** One item after the other is taken from the front of its tenant's queue. *)
Inductive pop_all : (string → list EnqueueParams) → list EnqueueParams → (string → list EnqueueParams) → Prop :=
| pop_none f f' : (∀ id, f' id = f id) → pop_all f [] f'
| pop_next f p f1 more f' : pops f p f1 → pop_all f1 more f' → pop_all f (p :: more) f'.

(** The specification: a queue per tenant.  A drain submits items one after
    the other, each from the front of its tenant's queue, answers for each one
    under its tenant, submits at most [batchSize], and stops short only when
    nothing is pending. *)
Definition fifo_spec : lts label := {|
  Simulation.state := string → list EnqueueParams;
  initial f := ∀ id, f id = [];
  transition f e f' :=
    match e with
    | Enqueued p => ∀ id, f' id = if String.eqb (e_tenantId p) id then f id ++ [p] else f id
    | Drained batchSize submitted answers =>
        pop_all f submitted f' ∧ map fst answers = map e_tenantId submitted ∧
        Z.of_nat (length submitted) ≤ Z.max 0 batchSize ∧
        (Z.of_nat (length submitted) < batchSize → ∀ id, f' id = [])
    end
|}.

Definition fair_system : lts label := {|
  Simulation.state := scheduler EnqueueParams;
  initial s := ∃ env overrides q, (1 <= q)%Q ∧ s = new_scheduler env overrides q;
  transition s e s' :=
    match e with
    | Enqueued p => ∃ now, (enqueueToBatchScheduler p now s).2 = s'
    | Drained batchSize submitted answers =>
        ∃ submit fuel, processBatchSchedulerDrain submit fuel batchSize s = Some (submitted, answers, s')
    end
|}.

Definition of_tenant (id : string) (l : list EnqueueParams) : list EnqueueParams :=
  List.filter (λ p, String.eqb (e_tenantId p) id) l.

(** Items that are, tenant by tenant, the front of the queues can be popped. *)
Lemma pop_all_fronts f served f' : (∀ id, f id = of_tenant id served ++ f' id) → pop_all f served f'.
Proof.
  revert f. induction served as [|p served IH]; intros f Hf; [by constructor|].
  apply (pop_next f p (λ id, of_tenant id served ++ f' id)); [|by apply IH]. split.
  - exists (of_tenant (e_tenantId p) served ++ f' (e_tenantId p)). rewrite Hf. unfold of_tenant. cbn. by rewrite String.eqb_refl.
  - intros id Hn. rewrite Hf. unfold of_tenant. cbn. destruct (String.eqb_spec (e_tenantId p) id); [congruence|done].
Qed.

Definition implements (s : scheduler EnqueueParams) (f : string → list EnqueueParams) : Prop :=
  DrrScheduler.wf s ∧ (∀ id, f id = map payload (queue_of (tenants s) id)) ∧
  ∀ id it, it ∈ queue_of (tenants s) id → e_tenantId (payload it) = tenantId it.

Lemma dequeue_loop_fuel (k fuel : nat) bs (s : scheduler EnqueueParams) r x :
  dequeue_loop fuel bs s r = Some x → dequeue_loop (fuel + k) bs s r = Some x.
Proof.
  revert s r. induction fuel as [|fuel IH]; intros s r; cbn [dequeue_loop Nat.add].
  - case_if; [done|]. intros H. destruct k; cbn [dequeue_loop]; by rewrite Heqb.
  - case_if; [|done]. destruct (round bs s r). apply IH.
Qed.

(** What a drain that returns has done. *)
Lemma dequeue_done fuel bs (s s' : scheduler EnqueueParams) items :
  DrrScheduler.wf s → dequeueBatch fuel bs s = Some (s', items) →
  DrrScheduler.wf s' ∧ (∀ id, queue_of (tenants s) id = items_of id items ++ queue_of (tenants s') id) ∧
  Z.of_nat (length items) ≤ Z.max 0 bs ∧
  (Z.of_nat (length items) < bs → ∀ id, queue_of (tenants s') id = []).
Proof.
  intros Hw. unfold dequeueBatch. case_if; [intros [= <- <-]; split_and!; [done|done|cbn; lia|cbn; lia]|]. intros Hd.
  apply (dequeue_loop_fuel (depth_of (tenants s) + length (activeOrder s))) in Hd.
  destruct (dequeue_loop_spec (fuel + (depth_of (tenants s) + length (activeOrder s))) bs s [] Hw ltac:(cbn; lia) ltac:(lia))
    as (s1 & r1 & Hd1 & Hw1 & Hst & _ & Hle & Hz). rewrite Hd in Hd1. injection Hd1 as <- <-.
  split_and!; [done|intros id; symmetry; apply (Hst id)|lia|].
  intros Hlt id. specialize (Hz Hlt). unfold queue_of. destruct (tenants s' !! id) as [st|] eqn:Hid; [|done].
  pose proof (depth_of_update (tenants s') id st st Hid) as Hu. pose proof (depth_of_delete (tenants s') id st Hid) as Hdel.
  destruct (queue st); [done|]. cbn [length] in *. lia.
Qed.

Lemma of_tenant_items id items :
  (∀ it : item EnqueueParams, it ∈ items → e_tenantId (payload it) = tenantId it) →
  of_tenant id (map payload items) = map payload (items_of id items).
Proof.
  induction items as [|it items IH]; intros Hi; [done|]. unfold of_tenant, items_of in *. cbn.
  rewrite (Hi it) by by left. specialize (IH (λ x Hx, Hi x (list_elem_of_further _ _ _ Hx))).
  case_if; cbn; by rewrite IH.
Qed.

Lemma imap_fst (submit : nat → EnqueueParams → result thrown SubmitAttestationResult) (items : list (item EnqueueParams)) :
  map fst (imap (λ i it, (tenantId it, submit i (payload it))) items) = map tenantId items.
Proof. revert submit. induction items as [|it items IH]; intros submit; [done|]. cbn. f_equal. apply (IH (submit ∘ S)). Qed.

Lemma served_items s s' (items : list (item EnqueueParams)) :
  DrrScheduler.wf s → (∀ id, queue_of (tenants s) id = items_of id items ++ queue_of (tenants s') id) →
  ∀ it, it ∈ items → it ∈ queue_of (tenants s) (tenantId it).
Proof.
  intros _ Hq it Hit. rewrite Hq. apply elem_of_app. left. unfold items_of. apply list_elem_of_In, filter_In.
  split; [by apply list_elem_of_In|apply String.eqb_refl].
Qed.

Lemma fair_simulation : simulation fair_system fifo_spec implements.
Proof.
  split.
  - intros s (env & overrides & q & Hq & ->). exists (λ _, []). split; [done|]. split_and!.
    + by apply new_scheduler_wf.
    + intros id. unfold queue_of. cbn. by rewrite lookup_empty.
    + intros id it. unfold queue_of. cbn. rewrite lookup_empty. by intros ?%elem_of_nil.
  - intros s e s' f (Hw & Hf & Hi) Ht. destruct e as [p|bs submitted answers].
    + destruct Ht as (now & <-). cbn. set (it := {| tenantId := _; tier := _; payload := p; enqueuedAt := now |}).
      destruct (enqueue_appends it s Hw) as (Hw' & Hq & Ho & _).
      exists (λ id, if String.eqb (e_tenantId p) id then f id ++ [p] else f id). split; [done|].
      split_and!; [done| |].
      * intros id. destruct (String.eqb_spec (e_tenantId p) id) as [<-|Hn].
        -- change (e_tenantId p) with (tenantId it) at 2. by rewrite Hq, map_app, Hf.
        -- by rewrite (Ho id) by (by intros ->).
      * intros id x Hx. destruct (decide (id = tenantId it)) as [->|Hn].
        -- rewrite Hq in Hx. apply elem_of_app in Hx as [Hx|Hx]; [by apply (Hi (tenantId it))|].
           by apply list_elem_of_singleton in Hx as ->.
        -- rewrite (Ho id Hn) in Hx. by apply (Hi id).
    + destruct Ht as (submit & fuel & Hp). unfold processBatchSchedulerDrain in Hp.
      destruct (dequeueBatch fuel bs s) as [[s1 items]|] eqn:Hd; [|done]. injection Hp as <- <- <-.
      destruct (dequeue_done _ _ _ _ _ Hw Hd) as (Hw1 & Hq & Hle & Hz).
      assert (∀ it, it ∈ items → e_tenantId (payload it) = tenantId it) as Hit.
      { intros it Hx. apply (Hi (tenantId it)). by apply (served_items s s1 items). }
      exists (λ id, map payload (queue_of (tenants s1) id)). split.
      * split_and!.
        -- apply pop_all_fronts. intros id. by rewrite Hf, Hq, map_app, of_tenant_items.
        -- rewrite imap_fst, map_map. apply map_ext_in. intros it Hx. symmetry. apply Hit. by apply list_elem_of_In.
        -- by rewrite length_map.
        -- rewrite length_map. intros Hlt id. by rewrite (Hz Hlt).
      * split_and!; [done|done|]. intros id it Hx. apply (Hi id). rewrite Hq. apply elem_of_app. by right.
Qed.

(** C18. The scheduler with its two entry points refines the specification
    "one queue per tenant": every trace of enqueued parameters and of drains,
    with the parameters they submit in order and the answers they give, is a
    trace of the specification, where each submitted item is taken from the
    front of its tenant's queue; and a drain always returns. *)
Theorem fair_scheduler_refines_fifos :
  refines fair_system fifo_spec ∧
  ∀ s0 t s submit bs, initial fair_system s0 → steps fair_system s0 t s →
    ∃ fuel r, processBatchSchedulerDrain submit fuel bs s = Some r.
Proof.
  split; [exact (simulation_refines _ _ _ fair_simulation)|].
  intros s0 t s submit bs Hi Hs.
  destruct (sim_initial _ _ _ fair_simulation s0 Hi) as (a & _ & HR).
  destruct (simulation_steps _ _ _ _ _ _ _ fair_simulation HR Hs) as (a' & _ & Hw & _).
  exists (depth_of (tenants s) + length (activeOrder s))%nat.
  unfold processBatchSchedulerDrain, dequeueBatch. case_if; [by eexists|].
  destruct (dequeue_loop_spec _ bs s [] Hw ltac:(cbn; lia) (Nat.le_refl _)) as (s1 & r1 & -> & _). by eexists.
Qed.
