(* ===== verification/StartupReplay.v ===== *)
(** * Replay of failed submissions: [src/startup/replayFailedSubmissions.ts].

    At startup the audit log is read page by page ([AuditChain]), the failed
    submissions are parsed and deduplicated, and each is submitted again under
    the Soroban retry budget ([RetryBudget.Soroban]).  The log does not change
    between the pages.  While a submission is awaited, its own retries may be
    recorded in the budget. *)

From Stdlib Require Import QArith.QArith.
From S2P Require Import Prelude Numeric JsString Collections Window AuditChain.
From S2P Require Import RetryBudget.
Import RetryBudget.Soroban.
#[local] Open Scope Z_scope.

Definition SUBMIT_FAILED_ACTION : string := "ATTESTATION_SUBMIT_FAILED".

(** ** Parsing *)

(** A value of the untyped metadata; a number that is not finite is
    [VNumber None]. *)
Inductive js_value := VString (s : string) | VNumber (x : option Q) | VBigInt (n : Z) | VOther.

(** [entry.metadata?.params], when it is an object. *)
Record raw_params := {
  m_business : js_value; m_period : js_value; m_merkleRoot : js_value; m_timestamp : js_value; m_version : js_value
}.

Inductive replay_timestamp := NumberTs (x : Q) | BigIntTs (n : Z).

Record ReplayEntryParams := {
  business : string; period : string; merkleRoot : string; ts : replay_timestamp; version : string
}.

(** [Number.isFinite(Number(n))] for a bigint. *)
Definition bigint_finite (n : Z) : bool := Z.abs n <? 2 ^ 1024 - 2 ^ 970.

Definition parseReplayParams (m : option raw_params) : option ReplayEntryParams :=
  match m with
  | Some {| m_business := VString b; m_period := VString p; m_merkleRoot := VString r; m_timestamp := t;
            m_version := VString v |} =>
      match t with
      | VNumber (Some x) =>
          if Qle_bool 0 x then Some {| business := b; period := p; merkleRoot := r; ts := NumberTs x; version := v |}
          else None
      | VBigInt n =>
          if negb (bigint_finite n) || (n <? 0) then None
          else Some {| business := b; period := p; merkleRoot := r; ts := BigIntTs n; version := v |}
      | _ => None
      end
  | _ => None
  end.

Definition isExpired (now : Z) (entryTimestamp maxAgeDays : Z) : bool :=
  entryTimestamp <? now - maxAgeDays * 24 * 60 * 60 * 1000.

Definition replay_key (p : ReplayEntryParams) : string := business p +:+ ":" +:+ period p +:+ ":" +:+ merkleRoot p.

Fixpoint dedupe_loop (l : list ReplayEntryParams) (seen : list string) : list ReplayEntryParams :=
  match l with
  | [] => []
  | p :: l => if includes (replay_key p) seen then dedupe_loop l seen else p :: dedupe_loop l (replay_key p :: seen)
  end.

Definition deduplicateEntries (l : list ReplayEntryParams) : list ReplayEntryParams := dedupe_loop l [].

Record ReplaySummary := {
  scanned : Z; attempted : Z; succeeded : Z; failed : Z; skippedExpired : Z; skippedBudget : Z
}.

(** ** The run *)
Section Replay.
Context (localeCompare : string → string → Z) (params_of : AuditLog → option raw_params).
Context (maxAgeDays : Z).

Definition replay_query : AuditLogQuery :=
  {| actorId := None; q_action := Some SUBMIT_FAILED_ACTION; q_resource := None; from := NoDate; to := NoDate;
     limit := Some 50; cursor := NoCursor |}.

(** One entry of a page: counted, and collected when it is recent and
    parses. *)
Definition scan_entry (now : Z) (acc : ReplaySummary * list ReplayEntryParams) (e : AuditLog)
  : ReplaySummary * list ReplayEntryParams :=
  let '(s, l) := acc in
  let s := {| scanned := scanned s + 1; attempted := attempted s; succeeded := succeeded s; failed := failed s;
              skippedExpired := skippedExpired s; skippedBudget := skippedBudget s |} in
  if isExpired now (timestamp e) maxAgeDays then
    ({| scanned := scanned s; attempted := attempted s; succeeded := succeeded s; failed := failed s;
        skippedExpired := skippedExpired s + 1; skippedBudget := skippedBudget s |}, l)
  else match parseReplayParams (params_of e) with
       | None => (s, l)
       | Some p => (s, l ++ [p])
       end.

Definition empty_summary : ReplaySummary :=
  {| scanned := 0; attempted := 0; succeeded := 0; failed := 0; skippedExpired := 0; skippedBudget := 0 |}.

(** One turn of the second loop: the clock readings of the budget, the
    retries recorded while the submission was awaited, and how it ended. *)
Record turn := { clock : readings; others : list Z; accepted : bool }.

Definition skip (n : nat) (s : ReplaySummary) : ReplaySummary :=
  {| scanned := scanned s; attempted := attempted s; succeeded := succeeded s; failed := failed s;
     skippedExpired := skippedExpired s; skippedBudget := skippedBudget s + Z.of_nat n |}.

Definition count (ok : bool) (s : ReplaySummary) : ReplaySummary :=
  {| scanned := scanned s; attempted := attempted s + 1;
     succeeded := if ok then succeeded s + 1 else succeeded s;
     failed := if ok then failed s else failed s + 1;
     skippedExpired := skippedExpired s; skippedBudget := skippedBudget s |}.

Definition record_others (l : list Z) (b : budget) : budget :=
  {| attempts := attempts b ++ l; maxRetries := maxRetries b |}.

(** [keys]: both environment keys are set.  Returns the entries submitted with
    the stamps recorded for them. *)
Fixpoint replay_loop (keys : bool) (l : list ReplayEntryParams) (turns : list turn) (b : budget) (s : ReplaySummary)
  : list (ReplayEntryParams * Z) * ReplaySummary :=
  match l, turns with
  | [], _ => ([], s)
  | p :: l', t :: turns =>
      if negb keys then ([], skip (length l) s)
      else
        let '(ok, b) := canRetry (at_check (clock t)) b in
        if negb ok then ([], skip (length l) s)
        else
          let b := recordRetry (at_prune (clock t)) (at_push (clock t)) (record_others (others t) b) in
          let '(sub, s) := replay_loop keys l' turns b (count (accepted t) s) in
          ((p, at_push (clock t)) :: sub, s)
  | _ :: _, [] => ([], s)
  end.

(** [fuel] pages; [now]: the clock while scanning.  There is one turn per
    collected entry. *)
Definition replayFailedSubmissions (fuel : nat) (now : Z) (keys : bool) (turns : list turn) (b : budget)
    (logs : list AuditLog) : option (list (ReplayEntryParams * Z) * ReplaySummary) :=
  match follow localeCompare fuel replay_query logs with
  | None => None
  | Some pages =>
      let '(s, collected) := fold_left (λ acc page, fold_left (scan_entry now) page acc) pages (empty_summary, []) in
      Some (replay_loop keys (deduplicateEntries collected) turns b s)
  end.
End Replay.

(** ** Lemmas *)

Lemma dedupe_loop_spec l seen :
  NoDup (replay_key <$> dedupe_loop l seen) ∧
  (∀ p, p ∈ dedupe_loop l seen → p ∈ l ∧ replay_key p ∉ seen) ∧
  (∀ p, p ∈ l → replay_key p ∈ seen ∨ ∃ p', p' ∈ dedupe_loop l seen ∧ replay_key p' = replay_key p).
Proof.
  revert seen. induction l as [|x l IH]; intros seen; cbn; [split_and!; [apply NoDup_nil_2|set_solver|set_solver]|].
  destruct (includes (replay_key x) seen) eqn:E.
  - destruct (IH seen) as (H1 & H2 & H3). apply includes_spec in E. split_and!; [done| |].
    { intros p Hp. destruct (H2 p Hp). split; [by right|done]. }
    intros p Hp. apply elem_of_cons in Hp as [->|Hp]; [by left|by apply H3].
  - destruct (IH (replay_key x :: seen)) as (H1 & H2 & H3). apply includes_false in E. split_and!.
    + cbn. apply NoDup_cons. split; [|done]. intros (p & Hk & Hp)%list_elem_of_fmap. destruct (H2 p Hp) as [_ Hn].
      apply Hn. rewrite <- Hk. by left.
    + intros p Hp. apply elem_of_cons in Hp as [->|Hp]; [split; [by left|done]|].
      destruct (H2 p Hp) as [Hin Hn]. split; [by right|]. intros Hs. apply Hn. by right.
    + intros p Hp. apply elem_of_cons in Hp as [->|Hp]; [right; exists x; split; [by left|done]|].
      destruct (H3 p Hp) as [Hk|(p' & Hp' & Hk)].
      * apply elem_of_cons in Hk as [Hk|Hk]; [right; exists x; split; [by left|done]|by left].
      * right. exists p'. split; [by right|done].
Qed.

Lemma omap_length_le {A B} (f : A → option B) l : (length (omap f l) ≤ length l)%nat.
Proof. induction l as [|x l IH]; [done|]. cbn. destruct (f x); cbn; lia. Qed.

Lemma dedupe_length l seen : (length (dedupe_loop l seen) ≤ length l)%nat.
Proof.
  revert seen. induction l as [|x l IH]; intros seen; [done|]. cbn.
  case_if; cbn; [specialize (IH seen)|specialize (IH (replay_key x :: seen))]; lia.
Qed.

Section ReplayLemmas.
Context (params_of : AuditLog → option raw_params) (maxAgeDays now : Z).

(** The entries that are collected. *)
Definition replayable (e : AuditLog) : option ReplayEntryParams :=
  if isExpired now (timestamp e) maxAgeDays then None else parseReplayParams (params_of e).

Lemma scan_page l s c :
  let '(s', c') := fold_left (scan_entry params_of maxAgeDays now) l (s, c) in
  c' = c ++ omap replayable l ∧ scanned s' = scanned s + Z.of_nat (length l) ∧
  attempted s' = attempted s ∧ succeeded s' = succeeded s ∧ failed s' = failed s ∧ skippedBudget s' = skippedBudget s.
Proof.
  revert s c. induction l as [|e l IH]; intros s c; cbn [fold_left]; [cbn; rewrite app_nil_r; split_and!; (done || lia)|].
  unfold scan_entry at 2. cbn [omap list_omap length]. unfold replayable at 1.
  destruct (isExpired _ _ _); [|destruct (parseReplayParams _) as [p|]].
  all: match goal with IH : ∀ _ _, _ |- context [fold_left ?f ?r (?s1, ?c1)] =>
         specialize (IH s1 c1); destruct (fold_left f r (s1, c1)) as [s' c'] end.
  all: match goal with IH : _ ∧ _ |- _ => destruct IH as (-> & H1 & H2 & H3 & H4 & H5) end.
  all: cbn in *; rewrite <- ?(assoc_L app); split_and!; (done || lia).
Qed.

Lemma scan_pages pages acc :
  fold_left (λ acc page, fold_left (scan_entry params_of maxAgeDays now) page acc) pages acc =
  fold_left (scan_entry params_of maxAgeDays now) (concat pages) acc.
Proof. revert acc. induction pages as [|l pages IH]; intros acc; [done|]. cbn. by rewrite fold_left_app, IH. Qed.

Lemma replay_loop_counts keys l turns b s :
  (length l ≤ length turns)%nat →
  let '(sub, s') := replay_loop keys l turns b s in
  map fst sub = take (length sub) l ∧
  attempted s' = attempted s + Z.of_nat (length sub) ∧
  succeeded s' + failed s' = succeeded s + failed s + Z.of_nat (length sub) ∧
  skippedBudget s' = skippedBudget s + Z.of_nat (length l - length sub) ∧ scanned s' = scanned s.
Proof.
  revert turns b s. induction l as [|p l IH]; intros turns b s Hlen; cbn [replay_loop]; [destruct turns; cbn; split_and!; (done || lia)|].
  destruct turns as [|t turns]; [cbn in Hlen; lia|].
  destruct keys; cbn [negb]; [|cbn; split_and!; (done || lia)].
  destruct (canRetry _ b) as [ok b1]. destruct ok; cbn [negb]; [|cbn; split_and!; (done || lia)].
  match goal with |- context [replay_loop true l turns ?b2 ?s2] =>
    specialize (IH turns b2 s2); destruct (replay_loop true l turns b2 s2) as [sub s'] end.
  destruct IH as (H1 & H2 & H3 & H4 & H5); [cbn in Hlen; lia|]. cbn [length] in *.
  assert (succeeded (count (accepted t) s) + failed (count (accepted t) s) = succeeded s + failed s + 1) as Hc
    by (unfold count; destruct (accepted t); cbn; lia).
  rewrite Hc in H3. cbn in H2, H4, H5. cbn. split_and!; [by f_equal|lia..].
Qed.
End ReplayLemmas.

(** *** The budget *)

(** The log holds every stamp of [history] that a later window can see; it
    may hold stamps of other calls as well. *)
Definition log_contains (w now : Z) (log history : list Z) : Prop :=
  ∃ kept, log_covers w now kept history ∧ kept `sublist_of` log.

Lemma log_contains_prune w now now' log history :
  now ≤ now' → log_contains w now log history → log_contains w now' (prune_front (now' - w) log) history.
Proof.
  intros Hle (kept & Hc & Hs). destruct (prune_front_suffix (now' - w) log) as (old & He & Hold).
  rewrite He in Hs. apply sublist_app_r in Hs as (k1 & k2 & -> & H1 & H2).
  exists k2. split; [|done]. apply (log_covers_later _ _ now') in Hc; [|done].
  destruct Hc as (gone & -> & Hg). exists (gone ++ k1). rewrite <- (assoc_L app). split; [done|].
  apply Forall_app. split; [done|]. apply Forall_forall. intros x Hx. rewrite Forall_forall in Hold. apply Hold.
  apply (elem_of_submseteq k1 old); [done|by apply sublist_submseteq].
Qed.

Lemma log_contains_push w now log history t :
  log_contains w now log history → log_contains w now (log ++ [t]) (history ++ [t]).
Proof.
  intros (kept & Hc & Hs). exists (kept ++ [t]). split; [by apply log_covers_push|]. by apply sublist_app.
Qed.

Lemma log_contains_others w now log history l : log_contains w now log history → log_contains w now (log ++ l) history.
Proof. intros (kept & Hc & Hs). exists kept. split; [done|]. by apply sublist_inserts_r. Qed.

Lemma log_contains_later w now now' log history :
  now ≤ now' → log_contains w now log history → log_contains w now' log history.
Proof. intros Hle (kept & Hc & Hs). exists kept. split; [by eapply log_covers_later|done]. Qed.

Lemma replay_loop_bounded keys l turns b s history from :
  monotone from (map clock turns) →
  log_contains windowMs from (attempts b) history → windows_bounded windowMs (maxRetries b) history →
  windows_bounded windowMs (maxRetries b) (history ++ map snd (replay_loop keys l turns b s).1).
Proof.
  revert turns b s history from. induction l as [|p l IH]; intros turns b s history from Hm Hc Hb.
  { destruct turns; cbn; by rewrite app_nil_r. }
  destruct turns as [|t turns]; [cbn; by rewrite app_nil_r|]. cbn [replay_loop].
  destruct keys; cbn [negb]; [|cbn; by rewrite app_nil_r].
  cbn in Hm. destruct Hm as (Hf & Hp & Hs & Hm). unfold canRetry.
  pose proof (log_contains_prune windowMs from (at_check (clock t)) _ _ Hf Hc) as Hc1.
  set (b1 := pruneExpiredAttempts (at_check (clock t)) b) in *.
  destruct (Z.of_nat (length (attempts b1)) <? maxRetries b1) eqn:E; cbn [negb]; [|cbn; by rewrite app_nil_r].
  set (b2 := recordRetry _ _ _).
  destruct (replay_loop true l turns b2 (count (accepted t) s)) as [sub s'] eqn:Er. cbn [map fst snd].
  rewrite (cons_middle (at_push (clock t)) history), (assoc_L app).
  change (map snd sub) with (map snd (sub, s').1). rewrite <- Er.
  apply (IH turns b2 (count (accepted t) s) (history ++ [at_push (clock t)]) (at_push (clock t))); [done| |].
  - apply log_contains_push. apply (log_contains_later _ (at_prune (clock t))); [done|].
    apply (log_contains_prune _ (at_check (clock t))); [done|]. by apply log_contains_others.
  - destruct Hc1 as (kept & Hk & Hsub). apply sublist_length in Hsub. unfold b1 in E. cbn in E, Hsub.
    apply (admit_bounded _ _ _ kept).
    + unfold windowMs. lia.
    + exact Hb.
    + apply (log_covers_later _ (at_check (clock t))); [lia|done].
    + change (maxRetries b2) with (maxRetries b). lia.
Qed.

(** ** Theorems *)

(** C34. A replay accounts for the log: it scans every failed submission once,
    submits a prefix of the deduplicated recent entries, each key at most
    once, counts every submission as succeeded or failed and the rest as
    skipped; and every recent entry that parses is represented. *)
Theorem replay_accounts localeCompare params_of maxAgeDays now keys turns b logs :
  locale_ok localeCompare logs → NoDup (AuditChain.id <$> logs) → Forall (λ e, AuditChain.id e ≠ EmptyString) logs →
  (length logs ≤ length turns)%nat →
  ∃ sub s todo,
    replayFailedSubmissions localeCompare params_of maxAgeDays (S (length logs)) now keys turns b logs = Some (sub, s) ∧
    let rows := List.filter (λ e, String.eqb (action e) SUBMIT_FAILED_ACTION) logs in
    scanned s = Z.of_nat (length rows) ∧
    map fst sub = take (length sub) todo ∧ NoDup (replay_key <$> todo) ∧
    (∀ p, p ∈ todo → ∃ e, e ∈ rows ∧ replayable params_of maxAgeDays now e = Some p) ∧
    (∀ e p, e ∈ rows → replayable params_of maxAgeDays now e = Some p → ∃ p', p' ∈ todo ∧ replay_key p' = replay_key p) ∧
    attempted s = Z.of_nat (length sub) ∧ succeeded s + failed s = attempted s ∧
    attempted s + skippedBudget s = Z.of_nat (length todo).
Proof.
  intros Hloc Hnd Hids Hturns.
  assert (∀ l, List.filter (after_cursor NoCursor) l = l) as Hf.
  { intros l. induction l as [|x l IH]; [done|]. cbn in *. by rewrite IH. }
  destruct (follow_pages localeCompare (S (length logs)) replay_query NoCursor logs []
    (js_sort (row_compare localeCompare) (List.filter (selected replay_query) logs))) as (pages & Hp & Hcat); try done.
  { rewrite js_sort_perm. pose proof (List.filter_length_le (selected replay_query) logs). lia. }
  change (at_cursor replay_query NoCursor) with replay_query in Hp.
  assert (List.filter (selected replay_query) logs = List.filter (λ e, String.eqb (action e) SUBMIT_FAILED_ACTION) logs) as Hsel.
  { apply filter_ext. intros e. unfold selected, replay_query, matches. cbn [actorId q_action q_resource from to].
    rewrite !andb_true_r. cbn [andb]. apply eq_true_iff_eq. unfold SUBMIT_FAILED_ACTION. rewrite !String.eqb_eq. done. }
  set (rows := List.filter (λ e, String.eqb (action e) SUBMIT_FAILED_ACTION) logs) in *. rewrite Hsel in Hcat.
  assert (concat pages ≡ₚ rows) as Hperm by (rewrite Hcat; apply js_sort_perm).
  unfold replayFailedSubmissions. rewrite Hp, scan_pages.
  pose proof (scan_page params_of maxAgeDays now (concat pages) empty_summary []) as Hscan.
  destruct (fold_left _ (concat pages) _) as [s0 collected]. destruct Hscan as (-> & Hs0 & Ha0 & Hok0 & Hf0 & Hb0).
  cbn [app] in *. set (collected := omap (replayable params_of maxAgeDays now) (concat pages)).
  destruct (dedupe_loop_spec collected []) as (Hn & Hin & Hall). fold (deduplicateEntries collected) in Hn, Hin, Hall.
  pose proof (replay_loop_counts keys (deduplicateEntries collected) turns b s0) as Hc.
  destruct (replay_loop _ _ _ _ _) as [sub s]. exists sub, s, (deduplicateEntries collected). split; [done|].
  destruct Hc as (H1 & H2 & H3 & H4 & H5).
  { pose proof (dedupe_length collected []) as Hd. pose proof (omap_length_le (replayable params_of maxAgeDays now) (concat pages)) as Hl.
    fold collected in Hl. unfold deduplicateEntries. rewrite (Permutation_length Hperm) in Hl.
    pose proof (List.filter_length_le (λ e, String.eqb (action e) SUBMIT_FAILED_ACTION) logs) as Hr. fold rows in Hr. lia. }
  cbn in Hs0, Ha0, Hok0, Hf0, Hb0. rewrite (Permutation_length Hperm) in Hs0. split_and!; [lia|done|done| | |lia|lia|].
  - intros p Hpin. destruct (Hin p Hpin) as [Hc _]. unfold collected in Hc.
    apply list_elem_of_omap in Hc as (e & He & Hr). exists e. split; [by rewrite <- Hperm|done].
  - intros e p He Hr. destruct (Hall p) as [Hk|Hk]; [|by apply elem_of_nil in Hk|done].
    unfold collected. apply list_elem_of_omap. exists e. split; [by rewrite Hperm|done].
  - assert (length sub ≤ length (deduplicateEntries collected))%nat; [|lia].
    apply (f_equal length) in H1. rewrite length_map, length_take in H1. lia.
Qed.

(** The replay respects the retry budget: whatever retries the awaited
    submissions record themselves, at most [maxRetries] replays start in any
    60-second window. *)
Theorem replay_within_budget localeCompare params_of maxAgeDays fuel now keys turns b logs sub s start :
  monotone start (map clock turns) → attempts b = [] → 0 ≤ maxRetries b →
  replayFailedSubmissions localeCompare params_of maxAgeDays fuel now keys turns b logs = Some (sub, s) →
  windows_bounded windowMs (maxRetries b) (map snd sub).
Proof.
  intros Hm Hb H0. unfold replayFailedSubmissions. destruct (follow _ _ _ _) as [pages|]; [|done].
  destruct (fold_left _ pages _) as [s0 collected]. intros [= Hr].
  pose proof (replay_loop_bounded keys (deduplicateEntries collected) turns b s0 [] start Hm) as H.
  rewrite Hr in H. apply H.
  - exists []. rewrite Hb. split; [apply log_covers_refl|done].
  - intros a. cbn. lia.
Qed.

(** ** Examples *)

Definition sample_entry (i : string) (t : Z) (m : string) : AuditLog :=
  {| AuditChain.id := i; userId := "u"; action := SUBMIT_FAILED_ACTION; resource := "attestation"; resourceId := None;
     metadata := Some m; contentHash := None; timestamp := t; chainHash := EmptyString; seq := 0 |}.

(** The parameters are in the metadata under their root. *)
Definition sample_params_of (e : AuditLog) : option raw_params :=
  (λ m, {| m_business := VString "b"; m_period := VString "2024-03"; m_merkleRoot := VString m;
           m_timestamp := VBigInt 5; m_version := VString "1.0.0" |}) <$> metadata e.

Definition sample_turn (t : Z) : turn :=
  {| clock := {| at_check := t; at_prune := t + 1; at_push := t + 1 |}; others := []; accepted := true |}.

Definition sample_logs : list AuditLog := [sample_entry "1" 5 "r1"; sample_entry "2" 6 "r2"; sample_entry "3" 7 "r1"].

(** Two distinct roots under a budget of one: one submitted, one skipped. *)
Example replay_run :
  (λ '(sub, s), (map (merkleRoot ∘ fst) sub, scanned s, attempted s, skippedBudget s)) <$>
    replayFailedSubmissions sample_locale sample_params_of 7 4 8 true [sample_turn 10; sample_turn 20; sample_turn 30]
      {| attempts := []; maxRetries := 1 |} sample_logs = Some (["r1"], 3, 1, 1).
Proof. vm_compute. reflexivity. Qed.

Lemma replay_accounts_witness :
  ∃ sub s todo,
    replayFailedSubmissions sample_locale sample_params_of 7 4 8 true [sample_turn 10; sample_turn 20; sample_turn 30]
      {| attempts := []; maxRetries := 1 |} sample_logs = Some (sub, s) ∧
    scanned s = 3 ∧ attempted s + skippedBudget s = Z.of_nat (length (A := ReplayEntryParams) todo).
Proof.
  destruct (replay_accounts sample_locale sample_params_of 7 8 true [sample_turn 10; sample_turn 20; sample_turn 30]
    {| attempts := []; maxRetries := 1 |} sample_logs) as (sub & s & todo & H & Hs & _ & _ & _ & _ & _ & _ & Ht).
  - intros a b [->|[->|[->|[]%elem_of_nil]%elem_of_cons]%elem_of_cons]%elem_of_cons
      [->|[->|[->|[]%elem_of_nil]%elem_of_cons]%elem_of_cons]%elem_of_cons; vm_compute; repeat split; intros; done.
  - apply (bool_decide_unpack _). vm_compute. exact I.
  - repeat constructor; discriminate.
  - cbn. lia.
  - exists sub, s, todo. exact (conj H (conj Hs Ht)).
Defined.

Lemma replay_within_budget_witness : windows_bounded windowMs 1 [11].
Proof.
  refine (replay_within_budget sample_locale sample_params_of 7 4 8 true [sample_turn 10; sample_turn 20; sample_turn 30]
    {| attempts := []; maxRetries := 1 |} sample_logs
    [({| business := "b"; period := "2024-03"; merkleRoot := "r1"; ts := BigIntTs 5; version := "1.0.0" |}, 11)]
    {| scanned := 3; attempted := 1; succeeded := 1; failed := 0; skippedExpired := 0; skippedBudget := 1 |} 0 _ _ _ _).
  - cbn. lia.
  - reflexivity.
  - cbn. lia.
  - vm_compute. reflexivity.
Defined.

(** The parts of the key are not escaped: different attestations may share
    one, and only the first of them is replayed. *)
Example colon_merges_entries :
  let p b per := {| business := b; period := per; merkleRoot := "r"; ts := BigIntTs 5; version := "1.0.0" |} in
  deduplicateEntries [p "acme:eu" "2024-03"; p "acme" "eu:2024-03"] = [p "acme:eu" "2024-03"].
Proof. reflexivity. Qed.
