(* ===== verification/HedgedRequest.v ===== *)
(** * Hedged requests: [src/utils/hedged-request.ts].

    Any number of requests run at once and share the count of hedges in
    flight.  An event is a call, a timer, a completion of an operation (the
    handler it runs) or an abort, in any order; a step does what the handler
    does.  Operations are promises: neither throws synchronously. *)

From S2P Require Import Prelude Numeric Hashing JsString.
From stdpp Require Import gmap.
#[local] Open Scope Z_scope.

Section Hedge.
Context {V E : Type}.

(** What the promise of the caller does.  A failed operation may reject with
    a value that is not truthy ([None]); a missing value is [null]. *)
Inductive error := AbortError | Failure (e : E).
Inductive settlement := Resolve (v : option V) | Reject (e : error).

(** The variables of one call, and what is still to come: the operations in
    flight, the timer, and the abort listener. *)
Record request := {
  settled : option settlement;
  hedgeStarted : bool;
  primaryDone : bool;
  primaryError : option E;
  primary_running : bool;
  hedge_running : bool;
  hedgeTimer : bool;
  listening : bool
}.

(** A call with a signal that is aborted already, and any other. *)
Definition aborted_call : request :=
  {| settled := Some (Reject AbortError); hedgeStarted := false; primaryDone := false; primaryError := None;
     primary_running := false; hedge_running := false; hedgeTimer := false; listening := false |}.
Definition new_call : request :=
  {| settled := None; hedgeStarted := false; primaryDone := false; primaryError := None;
     primary_running := true; hedge_running := false; hedgeTimer := true; listening := true |}.

Definition onSettle (err : option error) (value : option V) (r : request) : request :=
  match settled r with
  | Some _ => r
  | None =>
      {| settled := Some (match err with Some e => Reject e | None => Resolve value end);
         hedgeStarted := hedgeStarted r; primaryDone := primaryDone r; primaryError := primaryError r;
         primary_running := primary_running r; hedge_running := hedge_running r;
         hedgeTimer := false; listening := false |}
  end.

Definition with_primary (e : option E) (r : request) : request :=
  {| settled := settled r; hedgeStarted := hedgeStarted r; primaryDone := true; primaryError := e;
     primary_running := false; hedge_running := hedge_running r; hedgeTimer := hedgeTimer r; listening := listening r |}.
Definition with_hedge (started running : bool) (r : request) : request :=
  {| settled := settled r; hedgeStarted := started; primaryDone := primaryDone r; primaryError := primaryError r;
     primary_running := primary_running r; hedge_running := running; hedgeTimer := hedgeTimer r; listening := listening r |}.
Definition timer_off (r : request) : request :=
  {| settled := settled r; hedgeStarted := hedgeStarted r; primaryDone := primaryDone r; primaryError := primaryError r;
     primary_running := primary_running r; hedge_running := hedge_running r; hedgeTimer := false; listening := listening r |}.

(** ** One call *)

Inductive event :=
| PrimaryOk (v : V)
| PrimaryFail (e : option E)
| Timer
| HedgeOk (v : V)
| HedgeFail
| Abort.

Definition primary_then (v : V) (r : request) : request := onSettle None (Some v) (with_primary (primaryError r) r).

Definition primary_catch (e : option E) (r : request) : request :=
  let r := with_primary e r in
  if hedgeStarted r then r else onSettle (Failure <$> e) None r.

(** [free]: the cap leaves room for a hedge. *)
Definition on_timer (free : bool) (r : request) : request :=
  let r := timer_off r in
  match settled r with
  | Some _ => r
  | None => if free then with_hedge true true r else r
  end.

Definition hedge_then (v : V) (r : request) : request := onSettle None (Some v) (with_hedge (hedgeStarted r) false r).

Definition hedge_catch (r : request) : request :=
  let r := with_hedge (hedgeStarted r) false r in
  if primaryDone r then onSettle (Failure <$> primaryError r) None r else r.

Definition on_abort (r : request) : request := onSettle (Some AbortError) None r.

(** The event can happen, and what it does. *)
Definition enabled (e : event) (r : request) : bool :=
  match e with
  | PrimaryOk _ | PrimaryFail _ => primary_running r
  | Timer => hedgeTimer r
  | HedgeOk _ | HedgeFail => hedge_running r
  | Abort => listening r
  end.

Definition handle (free : bool) (e : event) (r : request) : request :=
  match e with
  | PrimaryOk v => primary_then v r
  | PrimaryFail err => primary_catch err r
  | Timer => on_timer free r
  | HedgeOk v => hedge_then v r
  | HedgeFail => hedge_catch r
  | Abort => on_abort r
  end.

(** ** All calls *)

Record state := {
  concurrentHedges : Z; maxConcurrentHedges : Z; hedgeWins : Z; hedgeSkipped : Z;
  calls : gmap nat request
}.

Definition DEFAULT_MAX_CONCURRENT_HEDGES : Z := 5.
Definition initial : state :=
  {| concurrentHedges := 0; maxConcurrentHedges := DEFAULT_MAX_CONCURRENT_HEDGES; hedgeWins := 0; hedgeSkipped := 0;
     calls := ∅ |}.

Definition setMaxConcurrentHedges (n : Z) (s : state) : state :=
  {| concurrentHedges := concurrentHedges s; maxConcurrentHedges := Z.max 1 n; hedgeWins := hedgeWins s;
     hedgeSkipped := hedgeSkipped s; calls := calls s |}.

(** [SOROBAN_HEDGE_MAX_CONCURRENT] *)
Definition initializeHedgeConcurrencyFromEnv (raw : option string) (s : state) : state :=
  match raw with
  | None | Some EmptyString => s
  | Some raw => match parse_int raw with
                | Some parsed => if 1 <=? parsed
                                 then {| concurrentHedges := concurrentHedges s; maxConcurrentHedges := parsed;
                                         hedgeWins := hedgeWins s; hedgeSkipped := hedgeSkipped s; calls := calls s |}
                                 else s
                | None => s
                end
  end.

Definition has_room (s : state) : bool := concurrentHedges s <? maxConcurrentHedges s.

(** How an event changes the count of hedges and the counters. *)
Definition hedge_delta (free : bool) (e : event) (r : request) : Z :=
  match e with
  | HedgeOk _ | HedgeFail => -1
  | Timer => match settled r with None => if free then 1 else 0 | Some _ => 0 end
  | _ => 0
  end.

Definition on_event (i : nat) (e : event) (r : request) (s : state) : state :=
  let free := has_room s in
  {| concurrentHedges := concurrentHedges s + hedge_delta free e r;
     maxConcurrentHedges := maxConcurrentHedges s;
     hedgeWins := hedgeWins s + match e with HedgeOk _ => 1 | _ => 0 end;
     hedgeSkipped := hedgeSkipped s + match e, settled r with Timer, None => if free then 0 else 1 | _, _ => 0 end;
     calls := <[i := handle free e r]> (calls s) |}.

Inductive action := Call (i : nat) (aborted : bool) | On (i : nat) (e : event) | SetMax (n : Z).

Definition step (a : action) (s : state) : option state :=
  match a with
  | Call i aborted =>
      match calls s !! i with
      | Some _ => None
      | None => Some {| concurrentHedges := concurrentHedges s; maxConcurrentHedges := maxConcurrentHedges s;
                        hedgeWins := hedgeWins s; hedgeSkipped := hedgeSkipped s;
                        calls := <[i := if aborted then aborted_call else new_call]> (calls s) |}
      end
  | On i e =>
      match calls s !! i with
      | Some r => if enabled e r then Some (on_event i e r s) else None
      | None => None
      end
  | SetMax n => Some (setMaxConcurrentHedges n s)
  end.

Fixpoint run (acts : list action) (s : state) : option state :=
  match acts with [] => Some s | a :: acts => step a s ≫= run acts end.

(** ** Lemmas *)

(** *** Counting hedges *)

Definition weight (r : request) : Z := if hedge_running r then 1 else 0.
Definition in_flight (m : gmap nat request) : Z := map_fold (λ _ r n, weight r + n) 0 m.

Lemma in_flight_new i r m : m !! i = None → in_flight (<[i:=r]> m) = weight r + in_flight m.
Proof. intros Hi. unfold in_flight. rewrite map_fold_insert_L; [done|intros; lia|done]. Qed.

Lemma in_flight_update i r r' m :
  m !! i = Some r → in_flight (<[i:=r']> m) = in_flight m - weight r + weight r'.
Proof.
  intros Hi. rewrite <- insert_delete_eq, in_flight_new by apply lookup_delete_eq.
  assert (in_flight m = weight r + in_flight (delete i m)) as ->; [|lia].
  rewrite <- (insert_id m i r Hi) at 1. rewrite <- insert_delete_eq. apply in_flight_new, lookup_delete_eq.
Qed.

Lemma in_flight_nonneg m : 0 <= in_flight m.
Proof.
  induction m as [|i r m Hi IH] using map_ind; [done|]. rewrite in_flight_new by done. unfold weight. case_if; lia.
Qed.

(** The timer never fires on a call with a hedge in flight. *)
Definition timer_first (r : request) : Prop := hedgeTimer r = true → hedge_running r = false.

Lemma handle_timer_first free e r : enabled e r = true → timer_first r → timer_first (handle free e r).
Proof.
  unfold timer_first. destruct r as [[x|] hs pd pe pr hr ht li], e; cbn; destruct free, hs, pd, hr, ht; cbn; done.
Qed.

(** The change of the counter is the change of the hedges in flight. *)
Lemma handle_weight free e r :
  enabled e r = true → timer_first r → weight (handle free e r) = weight r + hedge_delta free e r.
Proof.
  unfold timer_first, weight. destruct r as [[x|] hs pd pe pr hr ht li], e; cbn; destruct free, hs, pd, hr, ht; cbn;
    try done; intros _ H; by specialize (H eq_refl).
Qed.

(** The invariant of the shared state under a bound [M] on the cap. *)
Record inv (M : Z) (s : state) : Prop := {
  i_timer : ∀ i r, calls s !! i = Some r → timer_first r;
  i_count : concurrentHedges s = in_flight (calls s);
  i_cap : maxConcurrentHedges s <= M;
  i_bound : concurrentHedges s <= M
}.

Definition cap_within (M : Z) (a : action) : bool := match a with SetMax n => Z.max 1 n <=? M | _ => true end.

Lemma hedges_step_inv M a s s' : inv M s → cap_within M a = true → step a s = Some s' → inv M s'.
Proof.
  intros [Ht Hc Hm Hb] Ha. destruct a as [i aborted|i e|n]; cbn.
  - destruct (calls s !! i) eqn:Hi; [done|]. intros [= <-]. split; cbn; [|rewrite in_flight_new by done|done|done].
    + intros j r. destruct (decide (j = i)) as [->|]; [rewrite lookup_insert_eq|by rewrite lookup_insert_ne; [apply Ht|]].
      intros [= <-]. by destruct aborted.
    + by destruct aborted.
  - destruct (calls s !! i) as [r|] eqn:Hi; [|done]. destruct (enabled e r) eqn:He; [|done]. intros [= <-].
    pose proof (handle_weight (has_room s) e r He (Ht _ _ Hi)) as Hw.
    split; cbn.
    + intros j r'. destruct (decide (j = i)) as [->|]; [rewrite lookup_insert_eq|by rewrite lookup_insert_ne; [apply Ht|]].
      intros [= <-]. apply handle_timer_first; [done|by eapply Ht].
    + rewrite (in_flight_update i r) by done. lia.
    + done.
    + unfold hedge_delta, has_room. destruct e; try lia. destruct (settled r); [lia|].
      destruct (Z.ltb_spec (concurrentHedges s) (maxConcurrentHedges s)); lia.
  - intros [= <-]. cbn in Ha. apply Z.leb_le in Ha. by split.
Qed.

Lemma hedges_run_inv M acts s s' : inv M s → forallb (cap_within M) acts = true → run acts s = Some s' → inv M s'.
Proof.
  revert s. induction acts as [|a acts IH]; intros s Hi; cbn; [by intros _ [= <-]|].
  intros [Ha Has]%andb_true_iff. destruct (step a s) as [s1|] eqn:Hs; [|done]. cbn. apply IH; [by eapply hedges_step_inv|done].
Qed.

Lemma hedges_initial_inv M : DEFAULT_MAX_CONCURRENT_HEDGES <= M → inv M initial.
Proof. unfold DEFAULT_MAX_CONCURRENT_HEDGES. intros HM. split; cbn; [intros i r; by rewrite lookup_empty|done|done|lia]. Qed.

Lemma run_app acts acts' s : run (acts ++ acts') s = run acts s ≫= run acts'.
Proof. revert s. induction acts as [|a acts IH]; intros s; cbn; [done|]. destruct (step a s); [apply IH|done]. Qed.

Lemma run_snoc acts a s s' : run (acts ++ [a]) s = Some s' ↔ ∃ s1, run acts s = Some s1 ∧ step a s1 = Some s'.
Proof.
  rewrite run_app. destruct (run acts s) as [s1|]; cbn; [|split; [done|by intros (? & ? & _)]]. split.
  - intros H. exists s1. split; [done|]. by destruct (step a s1).
  - by intros (s0 & [= <-] & ->).
Qed.

(** *** One call in a run *)

(** How far the two failures of call [i] have come: 1 after the failure of its
    hedge, 2 when the failure of its primary came after that. *)
Definition advance (k : nat) (e : event) : nat :=
  match e, k with
  | HedgeFail, O => 1
  | PrimaryFail _, S O => 2
  | _, _ => k
  end%nat.
Definition failures (i : nat) (acts : list action) : nat :=
  fold_left (λ k a, match a with On j e => if decide (j = i) then advance k e else k | _ => k end) acts 0%nat.

(** No abort reached call [i]. *)
Definition not_aborted (i : nat) (acts : list action) : Prop := (Call i true ∉ acts) ∧ (On i Abort ∉ acts).

Lemma step_present a s s' i r : step a s = Some s' → calls s !! i = Some r → ∃ r', calls s' !! i = Some r'.
Proof.
  intros Hs Hi. destruct a as [j aborted|j e|n]; cbn in Hs.
  - destruct (calls s !! j) eqn:Hj; [done|]. injection Hs as <-. exists r. cbn. rewrite lookup_insert_ne; congruence.
  - destruct (calls s !! j) as [r0|] eqn:Hj; [|done]. case_if_in Hs; [|done]. injection Hs as <-. cbn.
    destruct (decide (j = i)) as [->|]; [rewrite lookup_insert_eq; eauto|rewrite lookup_insert_ne by done; eauto].
  - injection Hs as <-. eauto.
Qed.

(** What the variables of a call that was not aborted say about its failures:
    it is open and waiting, with both operations in flight, with one of them
    after the other failed, or with none of them; or it is settled. *)
Definition tracks (k : nat) (r : request) : bool :=
  eqb (primaryDone r) (negb (primary_running r)) && negb (hedgeTimer r && hedgeStarted r) &&
  match settled r, hedgeStarted r, primary_running r, hedge_running r, k with
  | None, false, true, false, O | None, true, true, true, O | None, true, false, true, O
  | None, true, true, false, S O | None, true, false, false, S (S O) => true
  | Some _, _, true, false, O | Some _, _, false, _, O | Some _, _, false, false, S O => true
  | _, _, _, _, _ => false
  end.

Lemma handle_tracks free e k r :
  e ≠ Abort → enabled e r = true → tracks k r = true → tracks (advance k e) (handle free e r) = true.
Proof.
  intros Ha He Hk. destruct r as [[x|] hs pd pe pr hr ht li], e; try done; unfold tracks in *; cbn in He, Hk |- *;
    destruct free, hs, pd, pr, hr, ht; try done; destruct k as [|[|[|k]]]; done.
Qed.

Lemma failures_snoc i acts a :
  failures i (acts ++ [a]) =
  match a with On j e => if decide (j = i) then advance (failures i acts) e else failures i acts | _ => failures i acts end.
Proof. unfold failures. by rewrite fold_left_app. Qed.

Lemma run_absent i acts s : run acts initial = Some s → calls s !! i = None → failures i acts = 0%nat.
Proof.
  revert s. induction acts as [|a acts IH] using rev_ind; intros s; [done|].
  intros (s1 & H1 & Hs)%run_snoc Hn. assert (calls s1 !! i = None) as Hn1.
  { destruct (calls s1 !! i) as [r1|] eqn:Hr; [|done]. destruct (step_present a s1 s i r1 Hs Hr). congruence. }
  rewrite failures_snoc. destruct a as [j aborted|j e|n]; [by apply (IH s1)| |by apply (IH s1)].
  case_decide; [|by apply (IH s1)]. subst j. cbn in Hs. by rewrite Hn1 in Hs.
Qed.

Lemma run_tracks i acts s r :
  run acts initial = Some s → calls s !! i = Some r → not_aborted i acts → tracks (failures i acts) r = true.
Proof.
  revert s r. induction acts as [|a acts IH] using rev_ind; intros s r; [by intros [= <-]|].
  intros (s1 & H1 & Hs)%run_snoc Hr [Hc Ha].
  assert (not_aborted i acts) as Hna by (split; intros H; [apply Hc|apply Ha]; apply elem_of_app; by left).
  rewrite failures_snoc. destruct a as [j aborted|j e|n]; cbn in Hs.
  - destruct (calls s1 !! j) eqn:Hj; [done|]. injection Hs as <-. cbn in Hr.
    destruct (decide (j = i)) as [->|]; [|rewrite lookup_insert_ne in Hr by done; by apply (IH s1)].
    rewrite lookup_insert_eq in Hr. injection Hr as <-. destruct aborted; [destruct Hc; apply elem_of_app; right; by constructor|].
    by rewrite (run_absent i acts s1).
  - destruct (calls s1 !! j) as [r0|] eqn:Hj; [|done]. destruct (enabled e r0) eqn:He; [|done]. injection Hs as <-. cbn in Hr.
    destruct (decide (j = i)) as [->|]; [|rewrite lookup_insert_ne in Hr by done; by apply (IH s1)].
    rewrite lookup_insert_eq in Hr. injection Hr as <-. apply handle_tracks; [|done|by apply (IH s1)].
    intros ->. apply Ha, elem_of_app. right. by constructor.
  - injection Hs as <-. by apply (IH s1).
Qed.

(** A settled call stays as it is. *)
Lemma handle_settled free e r x : settled r = Some x → settled (handle free e r) = Some x.
Proof. destruct r as [[y|] hs pd pe pr hr ht li]; [|done]. cbn. intros [= ->]. destruct e; cbn; destruct hs, pd; done. Qed.

Lemma run_settled i acts s s' r x :
  run acts s = Some s' → calls s !! i = Some r → settled r = Some x →
  ∃ r', calls s' !! i = Some r' ∧ settled r' = Some x.
Proof.
  revert s r. induction acts as [|a acts IH]; intros s r; cbn; [intros [= <-]; eauto|].
  destruct (step a s) as [s1|] eqn:Hs; [|done]. cbn. intros Hrun Hr Hx.
  assert (∃ r1, calls s1 !! i = Some r1 ∧ settled r1 = Some x) as (r1 & H1 & Hx1); [|by apply (IH s1 r1)].
  destruct a as [j aborted|j e|n]; cbn in Hs.
  - destruct (calls s !! j) eqn:Hj; [done|]. injection Hs as <-. exists r. split; [|done]. cbn.
    rewrite lookup_insert_ne; [done|congruence].
  - destruct (calls s !! j) as [r0|] eqn:Hj; [|done]. case_if_in Hs; [|done]. injection Hs as <-. cbn.
    destruct (decide (j = i)) as [->|]; [|rewrite lookup_insert_ne by done; eauto].
    rewrite lookup_insert_eq. eexists. split; [done|]. apply handle_settled. congruence.
  - injection Hs as <-. eauto.
Qed.

(** Where an answer comes from. *)
Definition source (i : nat) (acts : list action) (x : settlement) : Prop :=
  match x with
  | Resolve (Some v) => On i (PrimaryOk v) ∈ acts ∨ On i (HedgeOk v) ∈ acts
  | Resolve None => On i (PrimaryFail None) ∈ acts
  | Reject (Failure e) => On i (PrimaryFail (Some e)) ∈ acts
  | Reject AbortError => Call i true ∈ acts ∨ On i Abort ∈ acts
  end.

Record sourced (i : nat) (acts : list action) (r : request) : Prop := {
  so_settled : ∀ x, settled r = Some x → source i acts x;
  so_failed : settled r = None → primaryDone r = true → On i (PrimaryFail (primaryError r)) ∈ acts
}.

Lemma source_mono i acts a x : source i acts x → source i (acts ++ [a]) x.
Proof. unfold source. destruct x as [[v|]|[|e]]; rewrite ?elem_of_app; tauto. Qed.

Lemma handle_sourced i acts free e r :
  sourced i acts r → sourced i (acts ++ [On i e]) (handle free e r).
Proof.
  intros [Hs Hf]. assert (On i e ∈ acts ++ [On i e]) as Hin by (apply elem_of_app; right; by constructor).
  destruct (settled r) as [y|] eqn:Hy.
  { pose proof (handle_settled free e r y Hy) as Hh. split; rewrite Hh; [|done].
    intros x [= <-]. by apply source_mono, Hs. }
  assert (Hf' : primaryDone r = true → On i (PrimaryFail (primaryError r)) ∈ acts ++ [On i e]).
  { intros Hd. apply elem_of_app. left. by apply Hf. }
  destruct r as [x hs pd pe pr hr ht li]. cbn in Hy, Hf'. subst x.
  destruct e as [v|[e|]| |v| |]; cbn; try destruct free; try destruct hs; try destruct pd; (split; cbn; [intros x [= <-]|]);
    try done; try (destruct pe; by apply Hf'); cbn; tauto.
Qed.

Lemma run_sourced i acts s r :
  run acts initial = Some s → calls s !! i = Some r → sourced i acts r.
Proof.
  revert s r. induction acts as [|a acts IH] using rev_ind; intros s r; [by intros [= <-]|].
  intros (s1 & H1 & Hs)%run_snoc Hr.
  assert (Hkeep : ∀ r1, calls s1 !! i = Some r1 → sourced i (acts ++ [a]) r1).
  { intros r1 Hr1. destruct (IH s1 r1 H1 Hr1) as [Hx Hf]. split.
    - intros x Hsx. by apply source_mono, Hx.
    - intros Hn Hd. apply elem_of_app. left. by apply Hf. }
  destruct a as [j aborted|j e|n]; cbn in Hs.
  - destruct (calls s1 !! j) eqn:Hj; [done|]. injection Hs as <-. cbn in Hr.
    destruct (decide (j = i)) as [->|]; [|rewrite lookup_insert_ne in Hr by done; by apply Hkeep].
    rewrite lookup_insert_eq in Hr. injection Hr as <-. destruct aborted; split; cbn; try done.
    intros x [= <-]. left. apply elem_of_app. right. by constructor.
  - destruct (calls s1 !! j) as [r0|] eqn:Hj; [|done]. case_if_in Hs; [|done]. injection Hs as <-. cbn in Hr.
    destruct (decide (j = i)) as [->|]; [|rewrite lookup_insert_ne in Hr by done; by apply Hkeep].
    rewrite lookup_insert_eq in Hr. injection Hr as <-. apply handle_sourced. by apply (IH s1).
  - injection Hs as <-. by apply Hkeep.
Qed.

(** ** Theorems *)

(** However calls, timers, completions and aborts interleave, the counter
    is the number of hedges in flight, and it never exceeds the largest cap
    that was in force. *)
Theorem hedges_within_cap M acts s :
  DEFAULT_MAX_CONCURRENT_HEDGES <= M → forallb (cap_within M) acts = true → run acts initial = Some s →
  concurrentHedges s = in_flight (calls s) ∧ 0 <= concurrentHedges s <= M.
Proof.
  intros HM Ha Hr. pose proof (hedges_run_inv M acts _ _ (hedges_initial_inv M HM) Ha Hr) as Hi.
  pose proof (in_flight_nonneg (calls s)) as Hn. rewrite <- (i_count _ _ Hi) in Hn.
  split_and!; [apply Hi|done|apply Hi].
Qed.

(** C33. A call that nobody aborts and whose operations have ended has its
    answer, unless both failed, the hedge before the primary: then it has
    none, and never gets one whatever else happens. *)
Theorem hedged_call_settles i acts acts' s s' r :
  run acts initial = Some s → calls s !! i = Some r → not_aborted i (acts ++ acts') →
  primary_running r = false → hedge_running r = false →
  (failures i acts ≠ 2%nat → settled r ≠ None) ∧
  (failures i acts = 2%nat → run acts' s = Some s' → ∃ r', calls s' !! i = Some r' ∧ settled r' = None).
Proof.
  intros Hr Hi Hna Hp Hh.
  assert (not_aborted i acts) as Hna1 by (destruct Hna as [Hc Ha]; split; intros H; [apply Hc|apply Ha]; apply elem_of_app; by left).
  pose proof (run_tracks i acts s r Hr Hi Hna1) as Ht. unfold tracks in Ht. rewrite Hp, Hh in Ht. split.
  - intros Hk Hs. rewrite Hs in Ht. apply andb_true_iff in Ht as [_ Ht].
    by destruct (hedgeStarted r), (failures i acts) as [|[|[|k]]].
  - intros Hk Hr'. assert (run (acts ++ acts') initial = Some s') as Hrun by (rewrite run_app, Hr; exact Hr').
    assert (∃ r', calls s' !! i = Some r') as [r' Hi'].
    { clear -Hr' Hi. revert s r Hr' Hi. induction acts' as [|a acts' IH]; intros s r; cbn; [intros [= <-]; eauto|].
      destruct (step a s) as [s1|] eqn:Hs; [|done]. cbn. intros Hr' Hi.
      assert (∃ r1, calls s1 !! i = Some r1) as [r1 H1]; [|by apply (IH s1 r1)].
      by apply (step_present a s s1 i r). }
    exists r'. split; [done|]. pose proof (run_tracks i _ s' r' Hrun Hi' Hna) as Ht'.
    assert (failures i (acts ++ acts') = 2%nat) as Hk'.
    { unfold failures in *. rewrite fold_left_app, Hk. clear. induction acts' as [|a acts' IH]; [done|]. cbn.
      destruct a as [|j e|]; [done| |done]. destruct (decide (j = i)); [|done]. by destruct e. }
    rewrite Hk' in Ht'. unfold tracks in Ht'. apply andb_true_iff in Ht' as [_ Ht'].
    by destruct (settled r'), (hedgeStarted r'), (primary_running r'), (hedge_running r').
Qed.

(** The first settlement of a call is its last, and the value it resolves
    with is the value one of its operations resolved with. *)
Theorem hedged_call_answer i acts acts' s s' r x :
  run acts initial = Some s → calls s !! i = Some r → settled r = Some x → run acts' s = Some s' →
  (∃ r', calls s' !! i = Some r' ∧ settled r' = Some x) ∧ source i acts x.
Proof.
  intros Hr Hi Hx Hr'. split; [by apply (run_settled i acts' s s' r)|]. by apply (run_sourced i acts s r Hr Hi).
Qed.
End Hedge.

Arguments request : clear implicits.
Arguments event : clear implicits.
Arguments action : clear implicits.
Arguments state : clear implicits.

(** ** Witnesses *)

(** The hedge of call 0 fails, then its primary. *)
Definition both_fail : list (action string string) :=
  [Call 0 false; On 0 Timer; On 0 HedgeFail; On 0 (PrimaryFail (Some "primary"))].

(** The other order. *)
Definition both_fail_in_turn : list (action string string) :=
  [Call 0 false; On 0 Timer; On 0 (PrimaryFail (Some "primary")); On 0 HedgeFail].

Example second_order_answers :
  (λ s, settled <$> calls s !! 0%nat) <$> run both_fail_in_turn initial = Some (Some (Some (Reject (Failure "primary")))).
Proof. vm_compute. reflexivity. Qed.

(** The state a run leaves. *)
Definition final (acts : list (action string string)) : state string string := default initial (run acts initial).

Lemma hedges_within_cap_witness :
  concurrentHedges (final [Call 0 false; On 0 Timer]) = 1 ∧
  0 <= concurrentHedges (final [Call 0 false; On 0 Timer]) <= 5.
Proof.
  split; [vm_compute; reflexivity|].
  exact (proj2 (hedges_within_cap 5 [Call 0 false; On 0 Timer] (final [Call 0 false; On 0 Timer])
    ltac:(vm_compute; discriminate) eq_refl ltac:(vm_compute; reflexivity))).
Defined.

Lemma hedged_call_settles_witness :
  ∃ r, calls (final (both_fail ++ [Call 1 false])) !! 0%nat = Some r ∧ settled r = None.
Proof.
  destruct (hedged_call_settles 0 both_fail [Call 1 false] (final both_fail) (final (both_fail ++ [Call 1 false]))
    {| settled := None; hedgeStarted := true; primaryDone := true; primaryError := Some "primary";
       primary_running := false; hedge_running := false; hedgeTimer := false; listening := true |}
    ltac:(vm_compute; reflexivity) ltac:(vm_compute; reflexivity)
    ltac:(split; cbn; intros Hin; repeat (apply elem_of_cons in Hin as [Hin|Hin]; [discriminate|]);
      by apply elem_of_nil in Hin) eq_refl eq_refl) as [_ H].
  exact (H eq_refl ltac:(vm_compute; reflexivity)).
Defined.

Lemma hedged_call_answer_witness :
  source (E := string) 0 [Call 0 false; On 0 Timer; On 0 (HedgeOk "b")] (Resolve (Some "b")).
Proof.
  refine (proj2 (hedged_call_answer 0 [Call 0 false; On 0 Timer; On 0 (HedgeOk "b")] []
    (final [Call 0 false; On 0 Timer; On 0 (HedgeOk "b")]) _
    {| settled := Some (Resolve (Some "b")); hedgeStarted := true; primaryDone := false; primaryError := None;
       primary_running := true; hedge_running := false; hedgeTimer := false; listening := false |} _
    ltac:(vm_compute; reflexivity) ltac:(vm_compute; reflexivity) eq_refl eq_refl)).
Defined.
