(* ===== verification/WebhookDelivery.v ===== *)
(** * Outbound webhooks: [src/services/webhooks/dispatcher.ts].

    Signing a delivery, verifying it at the consumer, the event filters of a
    subscription, and the delivery up to its receipt.  HMAC is a parameter
    with 64 lower-case hexadecimal digits; the serialised payload is a
    string; [fetch], the certificate and the receipt table are arguments and
    answers. *)

From S2P Require Import Prelude Numeric Hashing JsString Collections.
#[local] Open Scope Z_scope.

(** ** Payloads and filters *)

(** A parsed payload; a number carries its [String(n)]. *)
Inductive json :=
| JNull
| JBool (b : bool)
| JNumber (shown : string)
| JString (s : string)
| JArray (l : list json)
| JObject (l : list (string * json)).

(** The last binding of a key, as after [JSON.parse]. *)
Definition member (k : string) (l : list (string * json)) : option json := map_get k (rev l).

(** One step of a path: an own member of an object, an index of an array, or
    its length. *)
Definition json_get (part : string) (j : json) : option json :=
  match j with
  | JObject l => member part l
  | JArray l =>
      if String.eqb part "length" then Some (JNumber (show_Z (Z.of_nat (length l))))
      else match parse_int part with
           | Some i => if (0 <=? i) && String.eqb (show_Z i) part then l !! Z.to_nat i else None
           | None => None
           end
  | _ => None
  end.

(** [String(v)] *)
Fixpoint json_string (j : json) : string :=
  match j with
  | JNull => "null"
  | JBool b => if b then "true" else "false"
  | JNumber s | JString s => s
  | JArray l => join "," (map (λ v, match v with JNull => EmptyString | v => json_string v end) l)
  | JObject _ => "[object Object]"
  end.

Fixpoint resolve_parts (parts : list string) (j : json) : option json :=
  match parts with
  | [] => Some j
  | p :: parts => json_get p j ≫= resolve_parts parts
  end.

Definition resolveDotPath (obj : json) (path : string) : option json := resolve_parts (split_on "." path) obj.

Fixpoint objectFilterMatches (filter : list (string * string)) (payload : json) : bool :=
  match filter with
  | [] => true
  | (key, expectedValue) :: rest =>
      match resolveDotPath payload key with
      | None => false
      | Some v => if negb (String.eqb (json_string v) expectedValue) then false else objectFilterMatches rest payload
      end
  end.

Inductive filter_rule := Always (b : bool) | When (fields : list (string * string)).

Record WebhookSubscription := {
  ws_id : string; businessId : string; url : string; secret : string;
  maxPayloadSize : option Z;
  eventFilters : option (list (string * filter_rule))
}.

Definition rule_allows (r : filter_rule) (payload : json) : bool :=
  match r with Always b => b | When fields => objectFilterMatches fields payload end.

(** [filters[k]]; every object has a [__proto__], whose entries are none. *)
Definition filter_at (filters : list (string * filter_rule)) (k : string) : option filter_rule :=
  match map_get k filters with
  | Some r => Some r
  | None => if String.eqb k "__proto__" then Some (When []) else None
  end.

(** The loop over the segment wildcards: [i] segments are kept. *)
Fixpoint wildcard_loop (filters : list (string * filter_rule)) (segments : list string) (payload : json)
    (fuel i : nat) : option bool :=
  match fuel with
  | O => None
  | S fuel =>
      match filter_at filters (join "." (take i segments ++ ["*"])) with
      | Some r => Some (rule_allows r payload)
      | None => wildcard_loop filters segments payload fuel (S i)
      end
  end.

Definition shouldDeliverEvent (eventType : string) (payload : json) (sub : WebhookSubscription) : bool :=
  match eventFilters sub with
  | None | Some [] => true
  | Some filters =>
      match filter_at filters eventType with
      | Some r => rule_allows r payload
      | None =>
          let segments := split_on "." eventType in
          match wildcard_loop filters segments payload (length segments) 0 with
          | Some b => b
          | None => match filter_at filters "**" with
                    | Some r => rule_allows r payload
                    | None => true
                    end
          end
      end
  end.

Definition filtered (filters : list (string * filter_rule)) : WebhookSubscription :=
  {| ws_id := "s"; businessId := "b"; url := "https://x.io"; secret := "k"; maxPayloadSize := None;
     eventFilters := Some filters |}.

Example blanket_before_specific :
  shouldDeliverEvent "payment.captured" JNull (filtered [("payment.*", Always false); ("*", Always true)]) = true.
Proof. reflexivity. Qed.
Example by_field :
  shouldDeliverEvent "payment.captured" (JObject [("data", JObject [("amount", JNumber "5")])])
    (filtered [("payment.captured", When [("data.amount", "5")])]) = true.
Proof. reflexivity. Qed.

(** ** Signing *)

Record WebhookDeliveryReceipt := { delivery_id : string; attempt : Z; signature : string; timestamp : string }.

(** A header of a request: absent, once, or several times. *)
Inductive header := One (s : string) | Many (l : list string).
Definition headers := string → option header.

Record PayloadTooLarge := { payloadSize : Z; allowed : Z }.

Section Dispatch.
Context (hmac : string → string → string).

Definition signed_message (deliveryId attempt timestamp payload : string) : string :=
  join "." [deliveryId; attempt; timestamp; payload].

Definition delivery_headers (r : WebhookDeliveryReceipt) : list (string * string) :=
  [("Content-Type", "application/json");
   ("X-Veritasor-Delivery-Id", delivery_id r);
   ("X-Veritasor-Attempt", show_Z (attempt r));
   ("X-Veritasor-Timestamp", timestamp r);
   ("X-Veritasor-Signature", signature r)].

(** [deliveryId] is the random id and [now] the clock in milliseconds. *)
Definition signAndPrepareDelivery (deliveryId : string) (now : Z) (serializedPayload : string) (sub : WebhookSubscription)
    (n : Z) : result PayloadTooLarge (list (string * string) * WebhookDeliveryReceipt) :=
  let size := Z.of_nat (String.length serializedPayload) in
  let limit := default size (maxPayloadSize sub) in
  if limit <? size then Err {| payloadSize := size; allowed := limit |}
  else
    let ts := show_Z (now / 1000) in
    let r := {| delivery_id := deliveryId; attempt := n; timestamp := ts;
                signature := hmac (secret sub) (signed_message deliveryId (show_Z n) ts serializedPayload) |} in
    Ok (delivery_headers r, r).

(** ** Verifying *)

Definition getHeader (h : headers) (name : string) : option header :=
  match h name with Some v => Some v | None => h (to_lower name) end.

(** A header that is not falsy, as text; an empty list reads as
    [undefined]. *)
Definition header_text (h : option header) : option string :=
  match h with
  | Some (One EmptyString) | None => None
  | Some (One s) => Some s
  | Some (Many l) => Some (default "undefined" (head l))
  end.

Definition verifyWebhookSignature (now toleranceMs : Z) (payload : string) (h : headers) (key : string) : bool :=
  match header_text (getHeader h "X-Veritasor-Delivery-Id"), header_text (getHeader h "X-Veritasor-Attempt"),
        header_text (getHeader h "X-Veritasor-Timestamp"), header_text (getHeader h "X-Veritasor-Signature") with
  | Some deliveryId, Some n, Some ts, Some sig =>
      match parse_int ts with
      | None => false
      | Some t =>
          if toleranceMs / 1000 <? Z.abs (now / 1000 - t) then false
          else
            let expected := buffer_from_hex (hmac key (signed_message deliveryId n ts payload)) in
            match timingSafeEqual expected (buffer_from_hex sig) with Ok b => b | Err _ => false end
      end
  | _, _, _, _ => false
  end.

(** ** Delivering *)

(** How [fetch] ended: a status and a body, or a message. *)
Inductive fetched := Answered (statusCode : Z) (body : string) | NetworkError (message : string).

Record delivery_receipt := {
  dr_deliveryId : string; attemptNumber : Z; subscriptionId : string; dr_businessId : string; dr_url : string;
  statusCode : Z; latencyMs : Z; signatureVersion : Z; dr_signature : string; responseBody : string
}.

Inductive delivery_error := TooLarge (e : PayloadTooLarge) | CertificateExpired (validTo : Z).

(** [validTo]: the expiry of the client certificate, when mutual TLS is
    configured; [sent] and [done_]: the clock around the request. *)
Definition sendWebhookDelivery (deliveryId : string) (now : Z) (validTo : option Z) (certNow sent done_ : Z)
    (answer : fetched) (serializedPayload : string) (sub : WebhookSubscription) (n : Z)
  : result delivery_error delivery_receipt :=
  match signAndPrepareDelivery deliveryId now serializedPayload sub n with
  | Err e => Err (TooLarge e)
  | Ok (_, r) =>
      let expired := match validTo with Some v => v <? certNow | None => false end in
      if expired then Err (CertificateExpired (default 0 validTo))
      else
        let '(code, body) := match answer with
                             | Answered code text =>
                                 (code, if 2048 <? Z.of_nat (String.length text) then String.substring 0 2048 text else text)
                             | NetworkError m => (0, m)
                             end in
        Ok {| dr_deliveryId := delivery_id r; attemptNumber := n; subscriptionId := ws_id sub;
              dr_businessId := businessId sub; dr_url := url sub; statusCode := code; latencyMs := done_ - sent;
              signatureVersion := 1; dr_signature := signature r; responseBody := body |}
  end.

(** ** Lemmas *)

(** The headers as the consumer's framework presents them: lower-case names. *)
Definition received (l : list (string * string)) : headers :=
  λ name, One <$> map_get name (map (λ '(k, v), (to_lower k, v)) l).

Context {Hhex : ∀ key, HexDigest (hmac key)}.

(** The four headers, each present once. *)
Definition four_headers (d n ts sig : string) : headers :=
  received [("X-Veritasor-Delivery-Id", d); ("X-Veritasor-Attempt", n);
            ("X-Veritasor-Timestamp", ts); ("X-Veritasor-Signature", sig)].

Lemma received_delivery (r : WebhookDeliveryReceipt) name :
  In name ["X-Veritasor-Delivery-Id"; "X-Veritasor-Attempt"; "X-Veritasor-Timestamp"; "X-Veritasor-Signature"] →
  getHeader (received (delivery_headers r)) name =
  getHeader (four_headers (delivery_id r) (show_Z (attempt r)) (timestamp r) (signature r)) name.
Proof. intros H. repeat (destruct H as [<-|H]; [reflexivity|]). done. Qed.

Lemma getHeader_four d n ts sig :
  getHeader (four_headers d n ts sig) "X-Veritasor-Delivery-Id" = Some (One d) ∧
  getHeader (four_headers d n ts sig) "X-Veritasor-Attempt" = Some (One n) ∧
  getHeader (four_headers d n ts sig) "X-Veritasor-Timestamp" = Some (One ts) ∧
  getHeader (four_headers d n ts sig) "X-Veritasor-Signature" = Some (One sig).
Proof. by split_and!. Qed.

Lemma header_text_one s : s ≠ EmptyString → header_text (Some (One s)) = Some s.
Proof. by destruct s. Qed.

(** What an accepted delivery carries. *)
Lemma delivery_verify_spec now tol payload h key :
  verifyWebhookSignature now tol payload h key = true ↔
  ∃ d n ts sig t,
    header_text (getHeader h "X-Veritasor-Delivery-Id") = Some d ∧
    header_text (getHeader h "X-Veritasor-Attempt") = Some n ∧
    header_text (getHeader h "X-Veritasor-Timestamp") = Some ts ∧
    header_text (getHeader h "X-Veritasor-Signature") = Some sig ∧
    parse_int ts = Some t ∧ Z.abs (now / 1000 - t) ≤ tol / 1000 ∧
    buffer_from_hex (hmac key (signed_message d n ts payload)) = buffer_from_hex sig.
Proof.
  unfold verifyWebhookSignature. split.
  - destruct (header_text (getHeader h "X-Veritasor-Delivery-Id")) as [d|]; [|done].
    destruct (header_text (getHeader h "X-Veritasor-Attempt")) as [n|]; [|done].
    destruct (header_text (getHeader h "X-Veritasor-Timestamp")) as [ts|]; [|done].
    destruct (header_text (getHeader h "X-Veritasor-Signature")) as [sig|]; [|done].
    destruct (parse_int ts) as [t|] eqn:Ht; [|done]. destruct (Z.ltb_spec (tol / 1000) (Z.abs (now / 1000 - t))); [done|].
    destruct (timingSafeEqual _ _) as [b|] eqn:He; [|done]. intros ->. apply timingSafeEqual_true in He.
    exists d, n, ts, sig, t. by split_and!.
  - intros (d & n & ts & sig & t & -> & -> & -> & -> & -> & Ht & He).
    rewrite (proj2 (Z.ltb_ge _ _) Ht), He. by rewrite timingSafeEqual_refl.
Qed.

Lemma signature_non_empty key m : hmac key m ≠ EmptyString.
Proof. intros H. pose proof (digest_length (hmac key) m) as Hl. by rewrite H in Hl. Qed.

Lemma text_non_empty n : 0 ≤ n → show_Z n ≠ EmptyString.
Proof.
  intros Hn. unfold show_Z. rewrite (proj2 (Z.ltb_ge n 0)) by lia.
  destruct (decimal_head 20 n EmptyString ltac:(lia)) as (d & r & _ & ->). done.
Qed.

(** ** Theorems *)

(** The consumer accepts a delivery that the dispatcher prepared exactly
    while the clock readings are within the tolerance. *)
Theorem prepared_delivery_verifies deliveryId now now' tol payload sub n hs r :
  signAndPrepareDelivery deliveryId now payload sub n = Ok (hs, r) →
  deliveryId ≠ EmptyString → 0 ≤ n → 0 ≤ now / 1000 < 10 ^ 20 →
  verifyWebhookSignature now' tol payload (received hs) (secret sub) = true ↔
  Z.abs (now' / 1000 - now / 1000) ≤ tol / 1000.
Proof.
  unfold signAndPrepareDelivery. case_if; [done|]. intros [= <- <-] Hd Hn Hts.
  rewrite delivery_verify_spec. rewrite !received_delivery by (cbn; tauto). cbn [delivery_id attempt timestamp signature].
  set (sig := hmac (secret sub) _).
  destruct (getHeader_four deliveryId (show_Z n) (show_Z (now / 1000)) sig) as (-> & -> & -> & ->).
  rewrite !header_text_one by first [done|apply signature_non_empty|apply text_non_empty; lia].
  assert (Hp : parse_int (show_Z (now / 1000)) = Some (now / 1000)).
  { rewrite <- (string_app_nil_r (show_Z (now / 1000))). by apply parse_show. }
  split.
  - intros (d & n' & ts & sig' & t & _ & _ & [= <-] & _ & Ht & H & _). rewrite Hp in Ht. by injection Ht as <-.
  - intros H. by exists deliveryId, (show_Z n), (show_Z (now / 1000)), sig, (now / 1000).
Qed.

(** What a consumer accepts under headers without dots, when the
    signature was made by the dispatcher for headers without dots and no other
    message has it, is what was signed: with different payloads or different headers it is refused.  The
    code does not require the first condition. *)
Theorem accepted_delivery_is_signed now tol payload h key d n ts payload0 :
  (∀ m, hmac key m = hmac key (signed_message d n ts payload0) → m = signed_message d n ts payload0) →
  verifyWebhookSignature now tol payload h key = true →
  header_text (getHeader h "X-Veritasor-Signature") = Some (hmac key (signed_message d n ts payload0)) →
  (∀ name s, In name ["X-Veritasor-Delivery-Id"; "X-Veritasor-Attempt"; "X-Veritasor-Timestamp"] →
     header_text (getHeader h name) = Some s → lacks "." s = true) →
  lacks "." d = true → lacks "." n = true → lacks "." ts = true →
  payload = payload0 ∧ header_text (getHeader h "X-Veritasor-Delivery-Id") = Some d ∧
  header_text (getHeader h "X-Veritasor-Attempt") = Some n ∧ header_text (getHeader h "X-Veritasor-Timestamp") = Some ts.
Proof.
  intros Hone Hv Hsig Hl Hd Hn Hts. apply delivery_verify_spec in Hv as (d' & n' & ts' & sig & t & H1 & H2 & H3 & H4 & _ & _ & He).
  rewrite Hsig in H4. injection H4 as <-. apply digest_buffer_inj in He; [|apply Hhex|apply Hhex].
  apply Hone in He. unfold signed_message in He. cbn [join] in He.
  pose proof (Hl _ _ (or_introl eq_refl) H1) as L1. pose proof (Hl _ _ (or_intror (or_introl eq_refl)) H2) as L2.
  pose proof (Hl _ _ (or_intror (or_intror (or_introl eq_refl))) H3) as L3.
  assert (Hs : ∀ a a' b b', lacks "." a = true → lacks "." a' = true → a +:+ "." +:+ b = a' +:+ "." +:+ b' → a = a' ∧ b = b').
  { intros a a' b b' Ha Ha'. by apply (sep_split (λ c, negb (Ascii.eqb c "."))). }
  apply Hs in He as [-> He]; [|done|done]. apply Hs in He as [-> He]; [|done|done].
  apply Hs in He as [-> ->]; [|done|done]. by split_and!.
Qed.

(** A signed payload that contains a dot can be cut there: moving the part
    before it into the timestamp header leaves a request with the same
    signature, accepted for the shorter payload. *)
Theorem payload_can_be_truncated now tol d n t a b key :
  d ≠ EmptyString → 0 ≤ n → 0 ≤ t < 10 ^ 20 → Z.abs (now / 1000 - t) ≤ tol / 1000 →
  let sig := hmac key (signed_message d (show_Z n) (show_Z t) (a +:+ "." +:+ b)) in
  verifyWebhookSignature now tol (a +:+ "." +:+ b) (four_headers d (show_Z n) (show_Z t) sig) key = true ∧
  verifyWebhookSignature now tol b (four_headers d (show_Z n) (show_Z t +:+ "." +:+ a) sig) key = true.
Proof.
  intros Hd Hn Ht Hnow sig.
  assert (Hts : ∀ s, show_Z t +:+ s ≠ EmptyString).
  { intros s. pose proof (text_non_empty t ltac:(lia)). by destruct (show_Z t). }
  split; apply delivery_verify_spec; eexists d, (show_Z n), _, sig, t;
    rewrite (proj1 (getHeader_four _ _ _ _)), (proj1 (proj2 (getHeader_four _ _ _ _))),
      (proj1 (proj2 (proj2 (getHeader_four _ _ _ _)))), (proj2 (proj2 (proj2 (getHeader_four _ _ _ _))));
    rewrite !header_text_one by first [done|apply signature_non_empty|apply Hts|apply text_non_empty; lia];
    (split_and!; [done|done|done|done| |done|]).
  - rewrite <- (string_app_nil_r (show_Z t)). by apply parse_show.
  - done.
  - by apply parse_show.
  - unfold sig, signed_message. cbn [join]. by rewrite !string_app_assoc.
Qed.
End Dispatch.

(** The keys a filter is looked up under, in this order. *)
Definition candidates (eventType : string) : list string :=
  let segments := split_on "." eventType in
  eventType :: map (λ i, join "." (take i segments ++ ["*"])) (seq 0 (length segments)) ++ ["**"].

Lemma wildcard_loop_spec filters segments payload n i :
  wildcard_loop filters segments payload n i =
  (λ r, rule_allows r payload) <$> head (omap (λ k, filter_at filters (join "." (take k segments ++ ["*"]))) (seq i n)).
Proof.
  revert i. induction n as [|n IH]; intros i; [done|]. cbn. by destruct (filter_at filters _).
Qed.

(** The first rule decides among the exact type, the wildcards from the
    blanket one to the one below the last segment, and the recursive wildcard;
    without any, everything is delivered.  So a rule for [*] overrules every
    more specific wildcard. *)
Theorem first_rule_decides eventType payload sub :
  shouldDeliverEvent eventType payload sub =
  match eventFilters sub with
  | None | Some [] => true
  | Some filters => match head (omap (filter_at filters) (candidates eventType)) with
                    | Some r => rule_allows r payload
                    | None => true
                    end
  end.
Proof.
  unfold shouldDeliverEvent. destruct (eventFilters sub) as [[|f filters]|]; [done| |done].
  unfold candidates. set (fs := f :: filters). cbn [omap list_omap].
  destruct (filter_at fs eventType) as [r|]; [done|]. rewrite wildcard_loop_spec, omap_app, head_app.
  assert (∀ l, omap (filter_at fs) (map (λ i, join "." (take i (split_on "." eventType) ++ ["*"])) l) =
               omap (λ k, filter_at fs (join "." (take k (split_on "." eventType) ++ ["*"]))) l) as ->.
  { induction l as [|k l IH]; [done|]. cbn. by rewrite IH. }
  destruct (head _) as [r|]; [done|]. cbn. by destruct (filter_at fs "**").
Qed.

(** ** Witnesses *)

Definition toy_hmac (key message : string) : string := toy_hash (key +:+ message).

#[local] Instance toy_hmac_hex key : HexDigest (toy_hmac key).
Proof. intros s. apply toy_hash_digest. Qed.

Definition shop : WebhookSubscription :=
  {| ws_id := "s1"; businessId := "b1"; url := "https://x.io"; secret := "k"; maxPayloadSize := Some 100;
     eventFilters := None |}.

Lemma prepared_delivery_verifies_witness :
  verifyWebhookSignature toy_hmac 1700000200000 300000 "{}"
    (received (delivery_headers {| delivery_id := "d"; attempt := 1; timestamp := "1700000000";
       signature := toy_hmac "k" "d.1.1700000000.{}" |})) "k" = true.
Proof.
  exact (proj2 (prepared_delivery_verifies toy_hmac "d" 1700000000000 1700000200000 300000 "{}" shop 1 _ _ eq_refl
    ltac:(discriminate) ltac:(lia) ltac:(split; vm_compute; congruence)) ltac:(vm_compute; congruence)).
Defined.

(** One message has a code of its own. *)
Definition single_hmac (key m : string) : string :=
  if String.eqb m "d.1.1700000000.{}" then zeros 64 EmptyString else zeros 63 "1".

#[local] Instance single_hmac_hex key : HexDigest (single_hmac key).
Proof. intros s. unfold single_hmac. by destruct (String.eqb s "d.1.1700000000.{}"). Qed.

Lemma accepted_delivery_is_signed_witness :
  let h := four_headers "d" "1" "1700000000" (single_hmac "k" "d.1.1700000000.{}") in
  verifyWebhookSignature single_hmac 1700000200000 300000 "{}" h "k" = true ∧
  header_text (getHeader h "X-Veritasor-Attempt") = Some "1".
Proof.
  intros h. assert (verifyWebhookSignature single_hmac 1700000200000 300000 "{}" h "k" = true) as Hv by (vm_compute; reflexivity).
  split; [exact Hv|].
  refine (proj1 (proj2 (proj2 (accepted_delivery_is_signed single_hmac 1700000200000 300000 "{}" h "k" "d" "1" "1700000000" "{}"
    _ Hv eq_refl _ eq_refl eq_refl eq_refl)))).
  - intros m. unfold single_hmac. destruct (String.eqb_spec m "d.1.1700000000.{}") as [->|]; [reflexivity|discriminate].
  - intros name s Hin. repeat (destruct Hin as [<-|Hin]; [cbn; intros [= <-]; reflexivity|]). destruct Hin.
Defined.

Lemma payload_can_be_truncated_witness :
  let sig := toy_hmac "k" "d.1.1700000000.[1.5]" in
  verifyWebhookSignature toy_hmac 1700000200000 300000 "[1.5]" (four_headers "d" "1" "1700000000" sig) "k" = true ∧
  verifyWebhookSignature toy_hmac 1700000200000 300000 "5]" (four_headers "d" "1" "1700000000.[1" sig) "k" = true.
Proof.
  exact (payload_can_be_truncated toy_hmac 1700000200000 300000 "d" 1 1700000000 "[1" "5]" "k" ltac:(discriminate)
    ltac:(lia) ltac:(lia) ltac:(vm_compute; congruence)).
Defined.
