(* ===== verification/TokenFamilies.v ===== *)
(** * Token families: the rotation-aware tokens of [src/utils/jwt.ts].

    Every refresh consumes its token and mints a pair in the same family; a
    consumed token that comes back compromises the family.  Signing,
    verifying and decoding by [jsonwebtoken], with the secrets, audiences and
    lifetimes the code passes, are parameters.  The operation that
    [withFamilyLock] runs contains no [await], so a refresh is one step. *)

From S2P Require Import Prelude.
From stdpp Require Import gmap strings.
#[local] Open Scope Z_scope.

(** The claims the code looks at; [None] when absent or not a string. *)
Record claims := {
  c_jti : option string; c_familyId : option string; c_userId : option string; c_email : option string;
  c_type : option string
}.

(** What [jwt.verify] throws. *)
Inductive jwt_error := Jwt_TokenExpiredError | Jwt_JsonWebTokenError | Jwt_other.

(** The codes of [JWTError]; [Thrown] is any other exception. *)
Inductive JWTError :=
| TOKEN_EXPIRED | TOKEN_INVALID | TOKEN_REUSED | TOKEN_REVOKED | TYPE_MISMATCH | FAMILY_COMPROMISED | Thrown.

Record EnhancedTokenPayload := { jti : string; familyId : string; userId : string; email : string; type_ : string }.

Definition given (s : option string) : option string :=
  match s with Some (String c r) => Some (String c r) | _ => None end.

(** The guard and what it guarantees. *)
Definition assertRotationClaims (c : claims) : option EnhancedTokenPayload :=
  match given (c_jti c), given (c_familyId c), given (c_userId c), given (c_email c), c_type c with
  | Some j, Some f, Some u, Some e, Some t =>
      if String.eqb t "access" || String.eqb t "refresh"
      then Some {| jti := j; familyId := f; userId := u; email := e; type_ := t |} else None
  | _, _, _, _, _ => None
  end.

Record TokenRotationFamily := {
  f_userId : string; currentJti : option string; blacklistedJtis : gset string; issuedJtis : gset string;
  lastRotation : Z; concurrentRefreshDetected : bool; createdAt : Z
}.

Record state := { tokenFamilies : gmap string TokenRotationFamily; jtiBlacklist : gset string }.

Definition initial : state := {| tokenFamilies := ∅; jtiBlacklist := ∅ |}.

Definition put (f : string) (fam : TokenRotationFamily) (s : state) : state :=
  {| tokenFamilies := <[f := fam]> (tokenFamilies s); jtiBlacklist := jtiBlacklist s |}.
Definition revoke_all (js : gset string) (s : state) : state :=
  {| tokenFamilies := tokenFamilies s; jtiBlacklist := jtiBlacklist s ∪ js |}.

Definition new_family (now : Z) (u : string) : TokenRotationFamily :=
  {| f_userId := u; currentJti := None; blacklistedJtis := ∅; issuedJtis := ∅; lastRotation := now;
     concurrentRefreshDetected := false; createdAt := now |}.

Definition getOrCreateFamily (now : Z) (f u : string) (s : state) : TokenRotationFamily * state :=
  match tokenFamilies s !! f with
  | Some fam => (fam, s)
  | None => (new_family now u, put f (new_family now u) s)
  end.

Definition isTokenBlacklisted (j : string) (s : state) : bool := bool_decide (j ∈ jtiBlacklist s).

Definition with_consumed (j : string) (fam : TokenRotationFamily) : TokenRotationFamily :=
  {| f_userId := f_userId fam; currentJti := currentJti fam; blacklistedJtis := blacklistedJtis fam ∪ {[j]};
     issuedJtis := issuedJtis fam; lastRotation := lastRotation fam;
     concurrentRefreshDetected := concurrentRefreshDetected fam; createdAt := createdAt fam |}.
Definition with_issued (j : string) (fam : TokenRotationFamily) : TokenRotationFamily :=
  {| f_userId := f_userId fam; currentJti := currentJti fam; blacklistedJtis := blacklistedJtis fam;
     issuedJtis := issuedJtis fam ∪ {[j]}; lastRotation := lastRotation fam;
     concurrentRefreshDetected := concurrentRefreshDetected fam; createdAt := createdAt fam |}.
Definition with_compromised (fam : TokenRotationFamily) : TokenRotationFamily :=
  {| f_userId := f_userId fam; currentJti := currentJti fam; blacklistedJtis := blacklistedJtis fam;
     issuedJtis := issuedJtis fam; lastRotation := lastRotation fam;
     concurrentRefreshDetected := true; createdAt := createdAt fam |}.
Definition with_rotation (now : Z) (fam : TokenRotationFamily) : TokenRotationFamily :=
  {| f_userId := f_userId fam; currentJti := currentJti fam; blacklistedJtis := blacklistedJtis fam;
     issuedJtis := issuedJtis fam; lastRotation := now;
     concurrentRefreshDetected := concurrentRefreshDetected fam; createdAt := createdAt fam |}.
Definition with_current (j : option string) (fam : TokenRotationFamily) : TokenRotationFamily :=
  {| f_userId := f_userId fam; currentJti := j; blacklistedJtis := blacklistedJtis fam;
     issuedJtis := issuedJtis fam; lastRotation := lastRotation fam;
     concurrentRefreshDetected := concurrentRefreshDetected fam; createdAt := createdAt fam |}.

(** [family] is optional and an empty string counts as absent. *)
Definition blacklistToken (j : string) (f : option string) (s : state) : state :=
  let s := revoke_all {[j]} s in
  match given f with
  | Some f => match tokenFamilies s !! f with Some fam => put f (with_consumed j fam) s | None => s end
  | None => s
  end.

(** Registering a new token with its family. *)
Definition issue (now : Z) (j f u : string) (s : state) : state :=
  let '(fam, s) := getOrCreateFamily now f u s in put f (with_issued j fam) s.

Definition revokeTokenFamily (f : string) (s : state) : state :=
  match tokenFamilies s !! f with
  | None => s
  | Some fam =>
      {| tokenFamilies := delete f (tokenFamilies s);
         jtiBlacklist := jtiBlacklist s ∪ issuedJtis fam ∪ blacklistedJtis fam |}
  end.

Definition outlived (now maxAgeMs : Z) (fam : TokenRotationFamily) : bool := maxAgeMs <? now - createdAt fam.

Definition clearExpiredFamilies (now maxAgeMs : Z) (s : state) : Z * state :=
  let kept := filter (λ p, outlived now maxAgeMs p.2 = false) (tokenFamilies s) in
  (Z.of_nat (size (tokenFamilies s)) - Z.of_nat (size kept),
   {| tokenFamilies := kept; jtiBlacklist := jtiBlacklist s |}).

(** *** Lemmas on the state *)

(** Nothing is taken back: consumed and issued ids, the mark of a compromised
    family and the global list only grow. *)
Definition fam_le (a b : TokenRotationFamily) : Prop :=
  blacklistedJtis a ⊆ blacklistedJtis b ∧ issuedJtis a ⊆ issuedJtis b ∧
  (concurrentRefreshDetected a = true → concurrentRefreshDetected b = true) ∧ createdAt a = createdAt b.

Definition grows (s s' : state) : Prop :=
  jtiBlacklist s ⊆ jtiBlacklist s' ∧
  ∀ f a, tokenFamilies s !! f = Some a → ∃ b, tokenFamilies s' !! f = Some b ∧ fam_le a b.

#[local] Instance fam_le_preorder : PreOrder fam_le.
Proof.
  split; [by intros a|]. intros a b c (H1 & H2 & H3 & H4) (H5 & H6 & H7 & H8).
  split_and!; [set_solver|set_solver|auto|congruence].
Qed.

#[local] Instance grows_preorder : PreOrder grows.
Proof.
  split.
  - intros s. split; [done|]. intros f a Ha. exists a. by split.
  - intros s1 s2 s3 [Hb1 Hf1] [Hb2 Hf2]. split; [set_solver|]. intros f a Ha.
    destruct (Hf1 f a Ha) as (b & Hb & Hab). destruct (Hf2 f b Hb) as (c & Hc & Hbc). exists c. split; [done|]. by transitivity b.
Qed.

Lemma put_grows f b s : (∀ a, tokenFamilies s !! f = Some a → fam_le a b) → grows s (put f b s).
Proof.
  intros Hle. split; [done|]. intros g a Ha. cbn. destruct (decide (f = g)) as [<-|Hne].
  - rewrite lookup_insert_eq. exists b. split; [done|]. by apply Hle.
  - rewrite lookup_insert_ne by done. exists a. by split.
Qed.

Lemma revoke_all_grows js s : grows s (revoke_all js s).
Proof. split; cbn; [set_solver|]. intros f a Ha. exists a. by split. Qed.

Lemma getOrCreate_grows now f u s : grows s (getOrCreateFamily now f u s).2.
Proof.
  unfold getOrCreateFamily. destruct (tokenFamilies s !! f) as [a|] eqn:Ha; cbn [snd]; [done|].
  apply put_grows. congruence.
Qed.

Lemma getOrCreate_get now f u s :
  let '(fam, s') := getOrCreateFamily now f u s in
  tokenFamilies s' !! f = Some fam ∧ jtiBlacklist s' = jtiBlacklist s ∧
  fam = default (new_family now u) (tokenFamilies s !! f).
Proof.
  unfold getOrCreateFamily. destruct (tokenFamilies s !! f) as [a|] eqn:Ha; [by split_and!|].
  cbn. rewrite lookup_insert_eq. by split_and!.
Qed.

(** Replacing the record [getOrCreateFamily] returned by a larger one. *)
Lemma update_family_grows now f u s h :
  (∀ a, fam_le a (h a)) → let '(fam, s') := getOrCreateFamily now f u s in grows s (put f (h fam) s').
Proof.
  intros Hh. pose proof (getOrCreate_grows now f u s) as Hg. pose proof (getOrCreate_get now f u s) as Hl.
  destruct (getOrCreateFamily now f u s) as [fam s']. cbn [snd] in Hg. destruct Hl as [Hl _].
  etransitivity; [exact Hg|]. apply put_grows. intros a Ha. assert (a = fam) as -> by congruence. apply Hh.
Qed.

Lemma issue_grows now j f u s : grows s (issue now j f u s).
Proof.
  unfold issue. pose proof (update_family_grows now f u s (with_issued j)) as H.
  destruct (getOrCreateFamily now f u s). apply H. intros a. by split_and!; cbn; [|set_solver| |].
Qed.

(** The id [j] of family [f] has been used up. *)
Definition consumed (j f : string) (s : state) : Prop :=
  j ∈ jtiBlacklist s ∨ ∃ fam, tokenFamilies s !! f = Some fam ∧ j ∈ blacklistedJtis fam.

Lemma grows_consumed j f s s' : grows s s' → consumed j f s → consumed j f s'.
Proof.
  intros [Hb Hf] [Hj|(a & Ha & Hj)]; [left; set_solver|]. destruct (Hf f a Ha) as (b & Hb' & Hle & _).
  right. exists b. split; [done|set_solver].
Qed.

(** What [issue] leaves. *)
Lemma issue_get now j f u s g :
  tokenFamilies (issue now j f u s) !! g =
    (if decide (g = f) then Some (with_issued j (default (new_family now u) (tokenFamilies s !! f)))
     else tokenFamilies s !! g) ∧
  jtiBlacklist (issue now j f u s) = jtiBlacklist s.
Proof.
  unfold issue, getOrCreateFamily. destruct (tokenFamilies s !! f) as [a|] eqn:Ha; cbn; (split; [|done]);
    (destruct (decide (g = f)) as [->|Hne]; [by rewrite lookup_insert_eq|rewrite !lookup_insert_ne by done; done]).
Qed.

Lemma issue_consumed now j f u s k : consumed k f (issue now j f u s) → consumed k f s.
Proof.
  destruct (issue_get now j f u s f) as [Hg Hb]. unfold consumed. rewrite Hg, Hb, decide_True by done.
  intros [?|(a & [= <-] & Hk)]; [by left|]. cbn in Hk. right.
  destruct (tokenFamilies s !! f) as [fam|]; [by exists fam|]. cbn in Hk. set_solver.
Qed.

Lemma issue_flag now j f u s :
  (∀ fam, tokenFamilies s !! f = Some fam → concurrentRefreshDetected fam = false) →
  ∀ fam, tokenFamilies (issue now j f u s) !! f = Some fam → concurrentRefreshDetected fam = false.
Proof.
  intros Hf fam. rewrite (proj1 (issue_get now j f u s f)), decide_True by done. intros [= <-]. cbn.
  destruct (tokenFamilies s !! f) as [a|]; [by apply Hf|done].
Qed.

Lemma blacklistToken_grows j f s : grows s (blacklistToken j f s).
Proof.
  unfold blacklistToken. destruct (given f) as [g|]; [|apply revoke_all_grows].
  destruct (tokenFamilies (revoke_all {[j]} s) !! g) as [fam|] eqn:Hg; [|apply revoke_all_grows].
  etransitivity; [apply revoke_all_grows|]. apply put_grows. intros a Ha. assert (a = fam) as -> by congruence.
  by split_and!; cbn; [set_solver|..].
Qed.

Lemma rotation_le now j a : fam_le a (with_rotation now (with_consumed j a)).
Proof. split_and!; cbn; [set_solver|done|done|done]. Qed.

Lemma revoke_blacklist f s : jtiBlacklist s ⊆ jtiBlacklist (revokeTokenFamily f s).
Proof. unfold revokeTokenFamily. destruct (tokenFamilies s !! f); cbn; set_solver. Qed.

Lemma revoke_consumed g j f s : consumed j f s → consumed j f (revokeTokenFamily g s).
Proof.
  intros Hc. unfold revokeTokenFamily. destruct (tokenFamilies s !! g) as [fam|] eqn:Hfam; [|done].
  destruct Hc as [Hj|(a & Ha & Hj)]; [left; cbn; set_solver|]. destruct (decide (f = g)) as [->|Hne].
  - assert (a = fam) as -> by congruence. left. cbn. set_solver.
  - right. exists a. cbn. by rewrite lookup_delete_ne.
Qed.

Lemma clear_consumed now m j f s :
  consumed j f s → (∀ fam, tokenFamilies s !! f = Some fam → outlived now m fam = false) →
  consumed j f (clearExpiredFamilies now m s).2.
Proof.
  intros [Hj|(a & Ha & Hj)] Hs; [by left|]. right. exists a. split; [|done]. cbn.
  apply map_lookup_filter_Some. split; [done|]. by apply Hs.
Qed.

Lemma new_family_clean j now u : j ∉ blacklistedJtis (new_family now u).
Proof. set_solver. Qed.

(** ** Tokens *)

Section Tokens.
Context (sign_access sign_refresh : Z → claims → string)
        (verify_access verify_refresh : Z → string → result jwt_error claims)
        (decode : string → option claims).

Definition token_claims (j f u e t : string) : claims :=
  {| c_jti := Some j; c_familyId := Some f; c_userId := Some u; c_email := Some e; c_type := Some t |}.

(** [j] and, without a family, [fresh] are random ids. *)
Definition family_or (f : option string) (fresh : string) : string := default fresh (given f).

Definition generateAccessToken (now : Z) (j fresh u e : string) (f : option string) (s : state) : string * state :=
  let f := family_or f fresh in
  (sign_access now (token_claims j f u e "access"), issue now j f u s).

Definition generateRefreshTokenWithFamily (now : Z) (j fresh u e : string) (f : option string) (s : state) : string * state :=
  let f := family_or f fresh in
  (sign_refresh now (token_claims j f u e "refresh"), issue now j f u s).

Definition generateTokenPair (now : Z) (j1 j2 fresh u e : string) (f : option string) (s : state)
  : (string * string * string) * state :=
  let f := family_or f fresh in
  let '(a, s) := generateAccessToken now j1 fresh u e (Some f) s in
  let '(r, s) := generateRefreshTokenWithFamily now j2 fresh u e (Some f) s in
  ((a, r, f), s).

Definition jwt_failure (e : jwt_error) : JWTError :=
  match e with Jwt_TokenExpiredError => TOKEN_EXPIRED | _ => TOKEN_INVALID end.

Definition verifyAccessToken (now : Z) (token : string) (s : state) : result JWTError EnhancedTokenPayload :=
  match verify_access (now / 1000) token with
  | Err e => Err (jwt_failure e)
  | Ok c =>
      match assertRotationClaims c with
      | None => Err TOKEN_INVALID
      | Some p =>
          if isTokenBlacklisted (jti p) s then Err TOKEN_REVOKED
          else if negb (String.eqb (type_ p) "access") then Err TYPE_MISMATCH
          else Ok p
      end
  end.

Definition verifyRefreshTokenRotationAware (now : Z) (token : string) (s : state)
  : result JWTError EnhancedTokenPayload * state :=
  match verify_refresh (now / 1000) token with
  | Err e => (Err (jwt_failure e), s)
  | Ok c =>
      match assertRotationClaims c with
      | None => (Err TOKEN_INVALID, s)
      | Some p =>
          if negb (String.eqb (type_ p) "refresh") then (Err TYPE_MISMATCH, s)
          else if isTokenBlacklisted (jti p) s then (Err TOKEN_REVOKED, s)
          else
            let '(fam, s) := getOrCreateFamily now (familyId p) (userId p) s in
            if concurrentRefreshDetected fam then (Err FAMILY_COMPROMISED, s)
            else if bool_decide (jti p ∈ blacklistedJtis fam) then
              (Err TOKEN_REUSED, revoke_all (issuedJtis fam) (put (familyId p) (with_compromised fam) s))
            else (Ok p, s)
      end
  end.

(** A verified token [p] is exchanged; [j1] and [j2] are the ids of the new
    pair. *)
Definition rotate (now : Z) (j1 j2 : string) (p : EnhancedTokenPayload) (s : state)
  : result JWTError (string * string * string) * state :=
  let f := familyId p in
  let '(fam, s) := getOrCreateFamily now f (userId p) s in
  let s := put f (with_rotation now (with_consumed (jti p) fam)) s in
  let '((a, r, _), s) := generateTokenPair now j1 j2 f (userId p) (email p) (Some f) s in
  match decode r, tokenFamilies s !! f with
  | Some c, Some fam => (Ok (a, r, f), put f (with_current (c_jti c) fam) s)
  | _, _ => (Err Thrown, s)
  end.

Definition refreshTokenPair (now : Z) (j1 j2 : string) (token : string) (s : state)
  : result JWTError (string * string * string) * state :=
  let '(v, s) := verifyRefreshTokenRotationAware now token s in
  match v with
  | Err e => (Err e, s)
  | Ok p => rotate now j1 j2 p s
  end.

(** ** Runs *)

Inductive op :=
| Pair (now : Z) (j1 j2 fresh u e : string) (f : option string)
| Access (now : Z) (j fresh u e : string) (f : option string)
| RefreshOnly (now : Z) (j fresh u e : string) (f : option string)
| Check (now : Z) (token : string)
| Refresh (now : Z) (j1 j2 token : string)
| Blacklist (j : string) (f : option string)
| Revoke (f : string)
| Clear (now maxAgeMs : Z).

Definition step (o : op) (s : state) : state :=
  match o with
  | Pair now j1 j2 fresh u e f => (generateTokenPair now j1 j2 fresh u e f s).2
  | Access now j fresh u e f => (generateAccessToken now j fresh u e f s).2
  | RefreshOnly now j fresh u e f => (generateRefreshTokenWithFamily now j fresh u e f s).2
  | Check now token => (verifyRefreshTokenRotationAware now token s).2
  | Refresh now j1 j2 token => (refreshTokenPair now j1 j2 token s).2
  | Blacklist j f => blacklistToken j f s
  | Revoke f => revokeTokenFamily f s
  | Clear now maxAgeMs => (clearExpiredFamilies now maxAgeMs s).2
  end.

Definition run (os : list op) (s : state) : state := fold_left (λ s o, step o s) os s.

(** ** Lemmas *)

Lemma pair_grows now j1 j2 fresh u e f s : grows s (generateTokenPair now j1 j2 fresh u e f s).2.
Proof. unfold generateTokenPair. cbn. etransitivity; apply issue_grows. Qed.

Lemma verify_grows now token s : grows s (verifyRefreshTokenRotationAware now token s).2.
Proof.
  unfold verifyRefreshTokenRotationAware. destruct (verify_refresh (now / 1000) token) as [c|]; [|done].
  destruct (assertRotationClaims c) as [p|]; [|done]. destruct (negb (String.eqb (type_ p) "refresh")); [done|].
  destruct (isTokenBlacklisted (jti p) s); [done|].
  pose proof (update_family_grows now (familyId p) (userId p) s with_compromised) as H.
  pose proof (getOrCreate_grows now (familyId p) (userId p) s) as Hg.
  destruct (getOrCreateFamily now (familyId p) (userId p) s) as [fam s']. cbn [snd] in Hg.
  destruct (concurrentRefreshDetected fam); [exact Hg|]. case_if; [|exact Hg]. cbn [snd].
  etransitivity; [|apply revoke_all_grows]. apply H. intros a. by split_and!.
Qed.

Lemma rotate_grows now j1 j2 p s : grows s (rotate now j1 j2 p s).2.
Proof.
  unfold rotate.
  pose proof (update_family_grows now (familyId p) (userId p) s (λ a, with_rotation now (with_consumed (jti p) a))) as H1.
  destruct (getOrCreateFamily now (familyId p) (userId p) s) as [fam s2].
  pose proof (pair_grows now j1 j2 (familyId p) (userId p) (email p) (Some (familyId p))
    (put (familyId p) (with_rotation now (with_consumed (jti p) fam)) s2)) as H2.
  destruct (generateTokenPair _ _ _ _ _ _ _ _) as [[[a r] g] s3]. cbn [snd] in H2.
  assert (grows s s3) as H3.
  { etransitivity; [|exact H2]. apply H1. intros b. apply rotation_le. }
  destruct (decode r) as [c|]; [|exact H3]. destruct (tokenFamilies s3 !! familyId p) as [fam3|] eqn:Hf; [|exact H3].
  etransitivity; [exact H3|]. apply put_grows. intros b Hb. assert (b = fam3) as -> by congruence. by split_and!.
Qed.

Lemma refresh_grows now j1 j2 token s : grows s (refreshTokenPair now j1 j2 token s).2.
Proof.
  unfold refreshTokenPair. pose proof (verify_grows now token s) as Hv.
  destruct (verifyRefreshTokenRotationAware now token s) as [[p|] s1]; cbn [snd] in Hv; [|exact Hv].
  etransitivity; [exact Hv|apply rotate_grows].
Qed.

(** The cleanup does not reach family [f]. *)
Definition spares (f : string) (o : op) (s : state) : bool :=
  match o with
  | Clear now m => match tokenFamilies s !! f with Some fam => negb (outlived now m fam) | None => true end
  | _ => true
  end.

Fixpoint spared (f : string) (os : list op) (s : state) : bool :=
  match os with [] => true | o :: os => spares f o s && spared f os (step o s) end.

Lemma step_grows o s : match o with Revoke _ | Clear _ _ => True | _ => grows s (step o s) end.
Proof.
  destruct o as [now j1 j2 fresh u e f|now j fresh u e f|now j fresh u e f|now token|now j1 j2 token|j f|f|now m]; unfold step; try done.
  - apply pair_grows.
  - apply issue_grows.
  - apply issue_grows.
  - apply verify_grows.
  - apply refresh_grows.
  - apply blacklistToken_grows.
Qed.

Lemma step_blacklist o s : jtiBlacklist s ⊆ jtiBlacklist (step o s).
Proof.
  pose proof (step_grows o s) as H.
  destruct o; try exact (proj1 H); cbn; [apply revoke_blacklist|done].
Qed.

Lemma run_blacklist os s : jtiBlacklist s ⊆ jtiBlacklist (run os s).
Proof. revert s. induction os as [|o os IH]; intros s; [done|]. cbn. etransitivity; [apply (step_blacklist o)|apply IH]. Qed.

Lemma step_consumed o j f s : consumed j f s → spares f o s = true → consumed j f (step o s).
Proof.
  intros Hc Hs. pose proof (step_grows o s) as Hg.
  destruct o as [| | | | | |g|now m]; try (by apply (grows_consumed j f s)); cbn [step].
  - by apply revoke_consumed.
  - apply clear_consumed; [done|]. intros fam Hfam. cbn in Hs. rewrite Hfam in Hs. by apply negb_true_iff.
Qed.

Lemma run_consumed os j f s : consumed j f s → spared f os s = true → consumed j f (run os s).
Proof.
  revert s. induction os as [|o os IH]; intros s Hc; [done|]. cbn. intros [Ho Hos]%andb_true_iff.
  apply IH; [by apply step_consumed|done].
Qed.

(** What verification accepts. *)
Lemma verify_ok now token s p :
  (verifyRefreshTokenRotationAware now token s).1 = Ok p ↔
  (∃ c, verify_refresh (now / 1000) token = Ok c ∧ assertRotationClaims c = Some p) ∧ type_ p = "refresh" ∧
  ¬ consumed (jti p) (familyId p) s ∧
  (∀ fam, tokenFamilies s !! familyId p = Some fam → concurrentRefreshDetected fam = false).
Proof.
  clear sign_access sign_refresh verify_access decode.
  unfold verifyRefreshTokenRotationAware. destruct (verify_refresh (now / 1000) token) as [c|e]; [|naive_solver].
  destruct (assertRotationClaims c) as [q|] eqn:Hq; [|naive_solver].
  assert (Hone : ∀ p, (∃ c0, Ok (E := jwt_error) c = Ok c0 ∧ assertRotationClaims c0 = Some p) ↔ p = q) by naive_solver.
  rewrite Hone. destruct (String.eqb_spec (type_ q) "refresh") as [Ht|Ht]; cbn [negb]; [|naive_solver].
  unfold isTokenBlacklisted. pose proof (getOrCreate_get now (familyId q) (userId q) s) as Hl.
  destruct (getOrCreateFamily now (familyId q) (userId q) s) as [fam s1]. destruct Hl as (_ & _ & Hfam).
  unfold consumed. case_bool_decide as Hb; [naive_solver|].
  assert (Hlook : match tokenFamilies s !! familyId q with
                  | Some a => fam = a
                  | None => concurrentRefreshDetected fam = false ∧ (jti q ∉ blacklistedJtis fam) end).
  { destruct (tokenFamilies s !! familyId q) as [a|]; [done|]. rewrite Hfam. cbn [default from_option]. split; [done|apply new_family_clean]. }
  clear Hfam. destruct (tokenFamilies s !! familyId q) as [a|] eqn:Ha.
  - subst a. destruct (concurrentRefreshDetected fam) eqn:Hc; [naive_solver congruence|].
    case_bool_decide as Hj; cbn; split; naive_solver congruence.
  - destruct Hlook as [-> Hj]. rewrite (bool_decide_eq_false_2 _ Hj). cbn. split; naive_solver congruence.
Qed.

Lemma rotate_consumes now j1 j2 p s : consumed (jti p) (familyId p) (rotate now j1 j2 p s).2.
Proof.
  unfold rotate. destruct (getOrCreateFamily now (familyId p) (userId p) s) as [fam s2].
  set (s3 := put (familyId p) (with_rotation now (with_consumed (jti p) fam)) s2).
  assert (consumed (jti p) (familyId p) s3) as H3.
  { right. exists (with_rotation now (with_consumed (jti p) fam)). cbn. rewrite lookup_insert_eq. split; [done|].
    cbn. apply elem_of_union. right. by apply elem_of_singleton. }
  pose proof (pair_grows now j1 j2 (familyId p) (userId p) (email p) (Some (familyId p)) s3) as Hg.
  destruct (generateTokenPair _ _ _ _ _ _ _ s3) as [[[a r] g] s4]. cbn [snd] in Hg.
  apply (grows_consumed _ _ _ _ Hg) in H3.
  destruct (decode r) as [c|]; [|done]. destruct (tokenFamilies s4 !! familyId p) as [fam4|] eqn:Hf; [|done].
  apply (grows_consumed _ _ s4); [|done]. apply put_grows.
  intros b Hb. assert (b = fam4) as -> by congruence. by split_and!.
Qed.

(** The exchange succeeds when the new token can be decoded. *)
Lemma rotate_ok now j1 j2 p s :
  (∀ t c, decode (sign_refresh t c) ≠ None) → ∃ x, (rotate now j1 j2 p s).1 = Ok x.
Proof.
  intros Hd. unfold rotate. destruct (getOrCreateFamily now (familyId p) (userId p) s) as [fam s2].
  set (s3 := put _ _ s2).
  pose proof (pair_grows now j1 j2 (familyId p) (userId p) (email p) (Some (familyId p)) s3) as [_ Hg].
  destruct (Hg (familyId p) (with_rotation now (with_consumed (jti p) fam))) as (b & Hb & _); [apply lookup_insert_eq|].
  assert (Hfst : ∃ a t c f, (generateTokenPair now j1 j2 (familyId p) (userId p) (email p) (Some (familyId p)) s3).1 =
                            (a, sign_refresh t c, f)) by (unfold generateTokenPair; cbn; eauto).
  destruct Hfst as (a & t & c & f & Hfst).
  destruct (generateTokenPair _ _ _ _ _ _ _ s3) as [[[a' r'] f'] s4]. cbn [fst snd] in *. injection Hfst as -> -> ->.
  destruct (decode (sign_refresh t c)) as [d|] eqn:Hdec; [|by destruct (Hd t c)]. rewrite Hb. by eexists.
Qed.

Lemma refresh_consumes now j1 j2 token s x s' :
  refreshTokenPair now j1 j2 token s = (Ok x, s') →
  ∃ p, (∃ c, verify_refresh (now / 1000) token = Ok c ∧ assertRotationClaims c = Some p) ∧
    ¬ consumed (jti p) (familyId p) s ∧ consumed (jti p) (familyId p) s'.
Proof.
  unfold refreshTokenPair. pose proof (verify_ok now token s) as Hv.
  destruct (verifyRefreshTokenRotationAware now token s) as [[p|] s1]; [|done]. cbn [fst] in Hv.
  destruct (proj1 (Hv p) eq_refl) as (Hc & _ & Hn & _). intros Hr. exists p. split_and!; [done|done|].
  pose proof (rotate_consumes now j1 j2 p s1) as H. by rewrite Hr in H.
Qed.

Lemma consumed_refused now j1 j2 token p s :
  (∀ c, verify_refresh (now / 1000) token = Ok c → assertRotationClaims c = Some p) →
  consumed (jti p) (familyId p) s → ∃ e, (refreshTokenPair now j1 j2 token s).1 = Err e.
Proof.
  intros Hp Hc. destruct (refreshTokenPair now j1 j2 token s) as [[x|e] s'] eqn:Hr; [|by exists e]. exfalso.
  destruct (refresh_consumes _ _ _ _ _ _ _ Hr) as (q & (c & Hv & Hq) & Hn & _). apply Hp in Hv. by assert (q = p) as -> by congruence.
Qed.

Lemma assert_token_claims j f u e t :
  Forall (λ x, x ≠ EmptyString) [j; f; u; e] → String.eqb t "access" || String.eqb t "refresh" = true →
  assertRotationClaims (token_claims j f u e t) = Some {| jti := j; familyId := f; userId := u; email := e; type_ := t |}.
Proof.
  intros H Ht. rewrite !Forall_cons in H. destruct H as (Hj & Hf & Hu & He & _). unfold assertRotationClaims. cbn.
  destruct j, f, u, e; try done. cbn. by rewrite Ht.
Qed.

(** ** Theorems *)

(** C26. A refresh token works once.  After a refresh, whatever happens to the
    tokens of any family, presenting a token with the same id and family is
    refused, as long as the cleanup does not remove the family. *)
Theorem refresh_works_once now j1 j2 token s x s1 :
  refreshTokenPair now j1 j2 token s = (Ok x, s1) →
  ∃ p, (∃ c, verify_refresh (now / 1000) token = Ok c ∧ assertRotationClaims c = Some p) ∧
    ∀ os now' j1' j2' token' p',
      spared (familyId p) os s1 = true →
      (∀ c, verify_refresh (now' / 1000) token' = Ok c → assertRotationClaims c = Some p') →
      jti p' = jti p → familyId p' = familyId p →
      ∃ e, (refreshTokenPair now' j1' j2' token' (run os s1)).1 = Err e.
Proof.
  intros Hr. destruct (refresh_consumes _ _ _ _ _ _ _ Hr) as (p & Hp & _ & Hc). exists p. split; [done|].
  intros os now' j1' j2' token' p' Hs Hp' Hj Hf. apply (consumed_refused _ _ _ _ p'); [done|]. rewrite Hj, Hf.
  by apply run_consumed.
Qed.

(** C27. A consumed token that comes back, while its family is kept and not
    compromised yet, is answered TOKEN_REUSED, and from then on every token
    issued in the family so far is refused, as an access token and as a
    refresh token, whatever happens later. *)
Theorem reuse_revokes_family now j1 j2 token p fam s :
  (∃ c, verify_refresh (now / 1000) token = Ok c ∧ assertRotationClaims c = Some p) → type_ p = "refresh" →
  tokenFamilies s !! familyId p = Some fam → concurrentRefreshDetected fam = false →
  jti p ∈ blacklistedJtis fam → jti p ∉ jtiBlacklist s →
  let '(answer, s1) := refreshTokenPair now j1 j2 token s in
  answer = Err TOKEN_REUSED ∧
  ∀ os now' token' p', jti p' ∈ issuedJtis fam →
    ((∀ c, verify_access (now' / 1000) token' = Ok c → assertRotationClaims c = Some p') →
     ∃ e, verifyAccessToken now' token' (run os s1) = Err e) ∧
    ((∀ c, verify_refresh (now' / 1000) token' = Ok c → assertRotationClaims c = Some p') →
     ∀ j1' j2', ∃ e, (refreshTokenPair now' j1' j2' token' (run os s1)).1 = Err e).
Proof.
  intros (c & Hv & Hp) Ht Hf Hc Hj Hn. unfold refreshTokenPair at 1, verifyRefreshTokenRotationAware.
  rewrite Hv, Hp, Ht. cbn [negb String.eqb]. unfold isTokenBlacklisted, getOrCreateFamily.
  rewrite (bool_decide_eq_false_2 _ Hn), Hf, Hc, (bool_decide_eq_true_2 _ Hj).
  set (s1 := revoke_all _ _). split; [done|]. intros os now' token' p' Hi.
  assert (Hb : jti p' ∈ jtiBlacklist (run os s1)).
  { apply (run_blacklist os s1). cbn. apply elem_of_union. by right. }
  split.
  - intros Hp'. unfold verifyAccessToken. destruct (verify_access (now' / 1000) token') as [c'|e]; [|by eexists].
    rewrite (Hp' c' eq_refl). unfold isTokenBlacklisted. rewrite (bool_decide_eq_true_2 _ Hb). by eexists.
  - intros Hp' j1' j2'. apply (consumed_refused _ _ _ _ p'); [done|by left].
Qed.

(** The cleanup forgets what a family consumed: once the family is older
    than the limit it is removed, and a consumed refresh token that has not
    expired is exchanged for a new pair again. *)
Theorem cleanup_reopens_consumed_token now maxAgeMs now' j1 j2 token p fam s :
  tokenFamilies s !! familyId p = Some fam → jti p ∈ blacklistedJtis fam → (jti p ∉ jtiBlacklist s) →
  maxAgeMs < now - createdAt fam →
  (∃ c, verify_refresh (now' / 1000) token = Ok c ∧ assertRotationClaims c = Some p) → type_ p = "refresh" →
  (∀ t c, decode (sign_refresh t c) ≠ None) →
  (∃ e, (refreshTokenPair now' j1 j2 token s).1 = Err e) ∧
  (∃ x, (refreshTokenPair now' j1 j2 token (clearExpiredFamilies now maxAgeMs s).2).1 = Ok x).
Proof.
  intros Hf Hj Hn Hold (c & Hv & Hp) Ht Hd. split.
  - apply (consumed_refused _ _ _ _ p); [congruence|]. right. by exists fam.
  - set (s1 := (clearExpiredFamilies now maxAgeMs s).2).
    assert (tokenFamilies s1 !! familyId p = None) as Hnone.
    { cbn. apply map_lookup_filter_None. right. intros a Ha. cbn. assert (a = fam) as -> by congruence.
      unfold outlived. by rewrite (proj2 (Z.ltb_lt _ _) Hold). }
    assert ((verifyRefreshTokenRotationAware now' token s1).1 = Ok p) as Hok.
    { apply verify_ok. split_and!; [by exists c|done| |congruence]. intros [H|(a & Ha & _)]; [done|congruence]. }
    unfold refreshTokenPair. destruct (verifyRefreshTokenRotationAware now' token s1) as [v s2]. cbn [fst] in Hok.
    subst v. by apply rotate_ok.
Qed.

(** What the verification of a refresh token answers: it accepts exactly
    the live tokens of type refresh in a family that is not compromised,
    reports reuse exactly for a consumed token of such a family, passes on the
    expiry, and changes nothing but the family it looked at. *)
Theorem refresh_verification_answers now token s :
  let '(answer, s') := verifyRefreshTokenRotationAware now token s in
  (∀ p, answer = Ok p ↔
     (∃ c, verify_refresh (now / 1000) token = Ok c ∧ assertRotationClaims c = Some p) ∧ type_ p = "refresh" ∧
     ¬ consumed (jti p) (familyId p) s ∧
     (∀ fam, tokenFamilies s !! familyId p = Some fam → concurrentRefreshDetected fam = false)) ∧
  (answer = Err TOKEN_REUSED ↔
     ∃ c p fam, verify_refresh (now / 1000) token = Ok c ∧ assertRotationClaims c = Some p ∧ type_ p = "refresh" ∧
       (jti p ∉ jtiBlacklist s) ∧ tokenFamilies s !! familyId p = Some fam ∧
       concurrentRefreshDetected fam = false ∧ jti p ∈ blacklistedJtis fam) ∧
  (answer = Err TOKEN_EXPIRED ↔ verify_refresh (now / 1000) token = Err Jwt_TokenExpiredError) ∧
  (∀ f, (∀ c p, verify_refresh (now / 1000) token = Ok c → assertRotationClaims c = Some p → familyId p ≠ f) →
     tokenFamilies s' !! f = tokenFamilies s !! f).
Proof.
  clear sign_access sign_refresh verify_access decode.
  pose proof (verify_ok now token s) as Hok.
  destruct (verifyRefreshTokenRotationAware now token s) as [answer s'] eqn:Hv. cbn [fst] in Hok.
  split; [exact Hok|clear Hok]. revert Hv. unfold verifyRefreshTokenRotationAware.
  destruct (verify_refresh (now / 1000) token) as [c|e].
  2:{ intros [= <- <-]. split_and!; [|destruct e; naive_solver|done]. split; [destruct e; done|naive_solver]. }
  destruct (assertRotationClaims c) as [p|] eqn:Hp.
  2:{ intros [= <- <-]. split_and!; [|done|done]. split; [done|naive_solver congruence]. }
  destruct (String.eqb_spec (type_ p) "refresh") as [Ht|Ht]; cbn [negb].
  2:{ intros [= <- <-]. split_and!; [|done|done]. split; [done|naive_solver congruence]. }
  unfold isTokenBlacklisted. case_bool_decide as Hb.
  { intros [= <- <-]. split_and!; [|done|done]. split; [done|naive_solver congruence]. }
  unfold getOrCreateFamily. destruct (tokenFamilies s !! familyId p) as [fam|] eqn:Hfam.
  - destruct (concurrentRefreshDetected fam) eqn:Hc.
    { intros [= <- <-]. split_and!; [|done|done]. split; [done|naive_solver congruence]. }
    case_bool_decide as Hj; intros [= <- <-].
    + split_and!; [|done|].
      * split; [|done]. intros _. by exists c, p, fam.
      * intros f Hf. cbn. apply lookup_insert_ne. by apply (Hf c p).
    + split_and!; [|done|done]. split; [done|naive_solver congruence].
  - cbn. rewrite bool_decide_eq_false_2 by apply (new_family_clean (jti p) now (userId p)). intros [= <- <-]. split_and!; [|done|].
    + split; [done|naive_solver congruence].
    + intros f Hf. cbn. apply lookup_insert_ne. by apply (Hf c p).
Qed.

(** A new pair works: right after it is issued its access token is
    accepted and its refresh token is exchanged, when the ids are new and the
    family is not compromised. *)
Theorem new_pair_works now j1 j2 fresh u e f s :
  Forall (λ x, x ≠ EmptyString) [j1; j2; family_or f fresh; u; e] →
  (verify_access (now / 1000) (sign_access now (token_claims j1 (family_or f fresh) u e "access")) =
     Ok (token_claims j1 (family_or f fresh) u e "access")) →
  (verify_refresh (now / 1000) (sign_refresh now (token_claims j2 (family_or f fresh) u e "refresh")) =
     Ok (token_claims j2 (family_or f fresh) u e "refresh")) → (∀ t c, decode (sign_refresh t c) ≠ None) →
  ¬ consumed j1 (family_or f fresh) s → ¬ consumed j2 (family_or f fresh) s →
  (∀ fam, tokenFamilies s !! family_or f fresh = Some fam → concurrentRefreshDetected fam = false) →
  let '((a, r, g), s') := generateTokenPair now j1 j2 fresh u e f s in
  (∃ p, verifyAccessToken now a s' = Ok p ∧ userId p = u ∧ familyId p = g) ∧
  (∀ j1' j2', ∃ x, (refreshTokenPair now j1' j2' r s').1 = Ok x).
Proof.
  intros H Ha Hr Hd H1 H2 Hflag. rewrite !Forall_cons in H. destruct H as (Hj1 & Hj2 & Hf & Hu & He & _).
  set (g := family_or f fresh) in *. unfold generateTokenPair. cbn [generateAccessToken generateRefreshTokenWithFamily].
  assert (Hg : family_or (Some g) fresh = g) by (unfold family_or, given; by destruct g).
  fold g. rewrite Hg. set (s' := issue now j2 g u (issue now j1 g u s)). split.
  - exists {| jti := j1; familyId := g; userId := u; email := e; type_ := "access" |}. split_and!; [|done|done].
    unfold verifyAccessToken. rewrite Ha, assert_token_claims by (done || by rewrite !Forall_cons).
    unfold isTokenBlacklisted. cbn. rewrite bool_decide_eq_false_2; [done|]. intros Hj. apply H1.
    apply (issue_consumed now j1 g u), (issue_consumed now j2 g u). by left.
  - intros j1' j2'.
    assert ((verifyRefreshTokenRotationAware now (sign_refresh now (token_claims j2 g u e "refresh")) s').1 =
            Ok {| jti := j2; familyId := g; userId := u; email := e; type_ := "refresh" |}) as Hok.
    { apply verify_ok. split_and!.
      - eexists. split; [apply Hr|]. apply assert_token_claims; [by rewrite !Forall_cons|done].
      - done.
      - cbn. intros Hc. apply H2. by apply (issue_consumed now j1 g u), (issue_consumed now j2 g u).
      - cbn. intros fam. by apply issue_flag, issue_flag. }
    unfold refreshTokenPair. destruct (verifyRefreshTokenRotationAware now _ s') as [v s2]. cbn [fst] in Hok.
    subst v. by apply rotate_ok.
Qed.
End Tokens.

(** ** Witnesses *)

(** A toy scheme: a token names the id of its claims and its kind. *)
Definition toy_sign (kind : string) (now : Z) (c : claims) : string := kind +:+ ":" +:+ default EmptyString (c_jti c).
Definition toy_verify (kind : string) (now : Z) (token : string) : result jwt_error claims :=
  if String.eqb token (kind +:+ ":j1") then Ok (token_claims "j1" "fam" "u1" "u@x.io" kind)
  else if String.eqb token (kind +:+ ":j2") then Ok (token_claims "j2" "fam" "u1" "u@x.io" kind)
  else Err Jwt_JsonWebTokenError.
Definition toy_decode (token : string) : option claims := Some (token_claims "j3" "fam" "u1" "u@x.io" "refresh").

Abbreviation toy_refresh :=
  (refreshTokenPair (toy_sign "access") (toy_sign "refresh") (toy_verify "refresh") toy_decode).
Abbreviation toy_run := (run (toy_sign "access") (toy_sign "refresh") (toy_verify "refresh") toy_decode).

(** A pair whose refresh token has been used. *)
Definition used : state := toy_run [Pair 0 "j1" "j2" "fam" "u1" "u@x.io" None; Refresh 10 "j4" "j5" "refresh:j2"] initial.

Lemma refresh_works_once_witness :
  let s := toy_run [Pair 0 "j1" "j2" "fam" "u1" "u@x.io" None] initial in
  ∃ e, (toy_refresh 20 "j6" "j7" "refresh:j2" (toy_run [Access 15 "j8" "x" "u1" "u@x.io" (Some "fam")] (toy_refresh 10 "j4" "j5" "refresh:j2" s).2)).1 = Err e.
Proof.
  intros s.
  destruct (refresh_works_once (toy_sign "access") (toy_sign "refresh") (toy_verify "refresh") toy_decode
    10 "j4" "j5" "refresh:j2" s _ (toy_refresh 10 "j4" "j5" "refresh:j2" s).2 ltac:(vm_compute; reflexivity))
    as (p & (c & Hc & Hp) & H).
  vm_compute in Hc. injection Hc as <-. vm_compute in Hp. injection Hp as <-.
  apply (H [Access 15 "j8" "x" "u1" "u@x.io" (Some "fam")] 20 "j6" "j7" "refresh:j2"
    {| jti := "j2"; familyId := "fam"; userId := "u1"; email := "u@x.io"; type_ := "refresh" |}).
  - reflexivity.
  - intros c Hc. vm_compute in Hc. injection Hc as <-. reflexivity.
  - reflexivity.
  - reflexivity.
Defined.

Definition presented : EnhancedTokenPayload :=
  {| jti := "j2"; familyId := "fam"; userId := "u1"; email := "u@x.io"; type_ := "refresh" |}.
Definition used_family : TokenRotationFamily := default (new_family 0 "u1") (tokenFamilies used !! "fam").

Lemma reuse_revokes_family_witness :
  (toy_refresh 20 "j6" "j7" "refresh:j2" used).1 = Err TOKEN_REUSED ∧
  ∃ e, verifyAccessToken (toy_verify "access") 30 "access:j1" (toy_refresh 20 "j6" "j7" "refresh:j2" used).2 = Err e.
Proof.
  pose proof (reuse_revokes_family (toy_sign "access") (toy_sign "refresh") (toy_verify "access") (toy_verify "refresh") toy_decode
    20 "j6" "j7" "refresh:j2" presented used_family used
    ltac:(eexists; split; reflexivity) eq_refl ltac:(vm_compute; reflexivity) ltac:(vm_compute; reflexivity)
    ltac:(apply (bool_decide_unpack _); vm_compute; exact I) ltac:(apply (bool_decide_unpack _); vm_compute; exact I)) as H.
  destruct (toy_refresh 20 "j6" "j7" "refresh:j2" used) as [answer s1]. destruct H as [Ha H]. split; [exact Ha|].
  apply (H [] 30 "access:j1" {| jti := "j1"; familyId := "fam"; userId := "u1"; email := "u@x.io"; type_ := "access" |}).
  - apply (bool_decide_unpack _). vm_compute. exact I.
  - intros c Hc. vm_compute in Hc. injection Hc as <-. reflexivity.
Defined.

Lemma cleanup_reopens_consumed_token_witness :
  (∃ e, (toy_refresh 2000 "j6" "j7" "refresh:j2" used).1 = Err e) ∧
  ∃ x, (toy_refresh 2000 "j6" "j7" "refresh:j2" (clearExpiredFamilies 1000 500 used).2).1 = Ok x.
Proof.
  exact (cleanup_reopens_consumed_token (toy_sign "access") (toy_sign "refresh") (toy_verify "refresh") toy_decode
    1000 500 2000 "j6" "j7" "refresh:j2" presented used_family used ltac:(vm_compute; reflexivity)
    ltac:(apply (bool_decide_unpack _); vm_compute; exact I) ltac:(apply (bool_decide_unpack _); vm_compute; exact I)
    ltac:(vm_compute; reflexivity) ltac:(eexists; split; reflexivity) eq_refl ltac:(discriminate)).
Defined.

Lemma new_pair_works_witness :
  ∃ x, (toy_refresh 5 "j6" "j7" "refresh:j2" (generateTokenPair (toy_sign "access") (toy_sign "refresh") 5 "j1" "j2" "fam" "u1" "u@x.io" None initial).2).1 = Ok x.
Proof.
  pose proof (new_pair_works (toy_sign "access") (toy_sign "refresh") (toy_verify "access") (toy_verify "refresh") toy_decode
    5 "j1" "j2" "fam" "u1" "u@x.io" None initial) as H.
  refine (proj2 (H _ eq_refl eq_refl ltac:(discriminate) _ _ _) "j6" "j7").
  - repeat constructor; discriminate.
  - intros [Hj|(a & Ha & _)]; [revert Hj; apply (bool_decide_unpack _); vm_compute; exact I|discriminate].
  - intros [Hj|(a & Ha & _)]; [revert Hj; apply (bool_decide_unpack _); vm_compute; exact I|discriminate].
  - discriminate.
Defined.
