(* ===== verification/MtlsRevocation.v ===== *)
(** * Revocation of client certificates: [src/middleware/mtlsRevocation.ts]
    and the middleware [src/middleware/mtls.ts].

    [MtlsRevocationChecker] cut at the runs of OpenSSL it awaits.  What
    OpenSSL prints, the parsing of dates, SHA-256 and the encoding of
    certificates are arguments; temporary files are left out. *)

From S2P Require Import Prelude Hashing Numeric JsString.
#[local] Open Scope Z_scope.

Inductive RevocationStatus := good | revoked | unknown | stale_ocsp | ocsp_unavailable | crl_unavailable.
Inductive source := from_ocsp | from_crl | from_none.

#[export] Instance status_eq_dec : EqDecision RevocationStatus.
Proof. solve_decision. Defined.

Record RevocationDecision := { ok : bool; status : RevocationStatus; src : source; cacheTtlMs : option Z }.

Definition refuse (s : RevocationStatus) (from : source) : RevocationDecision :=
  {| ok := false; status := s; src := from; cacheTtlMs := None |}.

(** [config.mtls.revocation]. *)
Record revocation_config := { enabled : bool; crlPath : option string; ocspCacheTtlMs : Z }.

(** A path that is set and not empty. *)
Definition crl_configured (c : revocation_config) : option string :=
  match crlPath c with Some ((String _ _) as p) => Some p | _ => None end.

(** ** Reading what OpenSSL prints *)

(** The rest of [s] after the first occurrence of [p], without case. *)
Fixpoint after_ci (p s : string) : option string :=
  match strip_prefix_ci p s with
  | Some r => Some r
  | None => match s with EmptyString => None | String _ r => after_ci p r end
  end.

Definition not_newline (c : ascii) : bool := negb ((code c =? 10) || (code c =? 13)).

Section Parsing.
(** [new Date(text).getTime()], [None] when it is not a number; it is none on
    the empty text. *)
Context (parse_date : string → option Z).

(** The pattern [Next Update:\s*(.+)]: the rest of the line, trimmed. *)
Definition next_update (stdout : string) : option Z :=
  match after_ci "Next Update:" stdout with
  | None => None
  | Some r => parse_date (trim (span not_newline (trim_start r)).1)
  end.

Definition parseOcspText (stdout : string) : RevocationStatus * option Z :=
  let normalized := to_lower stdout in
  (if contains ": good" normalized then good else if contains ": revoked" normalized then revoked else unknown,
   next_update stdout).

(** The pattern [nextupdate=(.+)]: the first occurrence with a character after
    it on its line. *)
Fixpoint line_after_ci (p s : string) : option string :=
  let later := match s with EmptyString => None | String _ r => line_after_ci p r end in
  match strip_prefix_ci p s with
  | Some r => let line := (span not_newline r).1 in if is_empty line then later else Some line
  | None => later
  end.

Definition parseCrlNextUpdate (stdout : string) : option Z :=
  line_after_ci "nextupdate=" stdout ≫= λ l, parse_date (trim l).
End Parsing.

Definition computeOcspCacheTtlMs (nextUpdate : option Z) (now configuredTtlMs : Z) : Z :=
  match nextUpdate with
  | None => configuredTtlMs
  | Some t => Z.max 1000 (Z.min configuredTtlMs (t - now))
  end.

(** ** The decisions *)
Section Checker.
Context (parse_date : string → option Z) (c : revocation_config).

(** [verifyOcspResponse], on the output of [openssl ocsp] or its failure; the
    clock is read for the staleness and again for the time to live. *)
Definition verifyOcspResponse (now now' : Z) (out : option string) : RevocationDecision :=
  match out with
  | None => refuse ocsp_unavailable from_ocsp
  | Some stdout =>
      let '(s, nextUpdate) := parseOcspText parse_date stdout in
      match s with
      | revoked => {| ok := false; status := revoked; src := from_ocsp;
                      cacheTtlMs := Some (computeOcspCacheTtlMs nextUpdate now' (ocspCacheTtlMs c)) |}
      | good =>
          match nextUpdate with
          | None => refuse stale_ocsp from_ocsp
          | Some t =>
              if t <=? now then refuse stale_ocsp from_ocsp
              else {| ok := true; status := good; src := from_ocsp;
                      cacheTtlMs := Some (computeOcspCacheTtlMs (Some t) now' (ocspCacheTtlMs c)) |}
          end
      | _ => refuse unknown from_ocsp
      end
  end.

(** What the two runs for the revocation list gave: what [openssl verify]
    printed on both streams and what [openssl crl] printed, or the message of
    the failure. *)
Definition verifyViaCrl (now : Z) (out : result string (string * string * string)) : RevocationDecision :=
  match crl_configured c with
  | None => refuse crl_unavailable from_crl
  | Some _ =>
      match out with
      | Ok (stdout, stderr, nextUpdateStdout) =>
          let ttl := computeOcspCacheTtlMs (parseCrlNextUpdate parse_date nextUpdateStdout) now (ocspCacheTtlMs c) in
          let combined := to_lower (stdout +:+ String (ascii_of_nat 10) stderr) in
          if contains "certificate revoked" combined
          then {| ok := false; status := revoked; src := from_crl; cacheTtlMs := Some ttl |}
          else {| ok := true; status := good; src := from_crl; cacheTtlMs := Some ttl |}
      | Err detail =>
          if contains "certificate revoked" (to_lower detail) then refuse revoked from_crl
          else refuse crl_unavailable from_crl
      end
  end.

(** ** The cache *)
Abbreviation cache := (gmap string (RevocationDecision * Z)).

Definition getCached (now : Z) (k : string) (m : cache) : option RevocationDecision * cache :=
  match m !! k with
  | None => (None, m)
  | Some (d, expiresAtMs) => if expiresAtMs <=? now then (None, delete k m) else (Some d, m)
  end.

Definition cache_ttl (d : RevocationDecision) : Z := Z.max 1000 (default (ocspCacheTtlMs c) (cacheTtlMs d)).

Definition setCached (now : Z) (k : string) (d : RevocationDecision) (m : cache) : cache :=
  <[k := (d, now + cache_ttl d)]> m.

Definition clearCache (m : cache) : cache := ∅.

(** ** [verifyClientCertificate] *)
Context (sha256 : list Byte.byte → string).

(** The serial number without colons, in lower case. *)
Definition normalizeSerialNumber (serial : option string) : string :=
  to_lower (join EmptyString (split_on ":" (default EmptyString serial))).

(** A response that is there and not empty. *)
Definition getStapledOcspResponse (r : option (list Byte.byte)) : option (list Byte.byte) :=
  match r with Some ((_ :: _) as b) => Some b | _ => None end.

Definition ocsp_key (serial : option string) (stapled : list Byte.byte) : string :=
  "ocsp:" +:+ normalizeSerialNumber serial +:+ ":" +:+ sha256 stapled.

Definition crl_key (serial : option string) : string :=
  "crl:" +:+ normalizeSerialNumber serial +:+ ":" +:+ default EmptyString (crlPath c).

(** Either a decision, or the check to run next. *)
Inductive next := Decided (d : RevocationDecision) | RunOcsp (stapled : list Byte.byte) | RunCrl.

(** From the revocation list's key on. *)
Definition consult_crl (now : Z) (serial : option string) (m : cache) : next * cache :=
  let '(cached, m) := getCached now (crl_key serial) m in
  (match cached with Some d => Decided d | None => RunCrl end, m).

Definition verify_begin (now : Z) (serial : option string) (stapled : option (list Byte.byte)) (m : cache) : next * cache :=
  if negb (enabled c) then (Decided {| ok := true; status := good; src := from_none; cacheTtlMs := None |}, m)
  else
    match getStapledOcspResponse stapled with
    | Some b =>
        let '(cached, m) := getCached now (ocsp_key serial b) m in
        (match cached with Some d => Decided d | None => RunOcsp b end, m)
    | None =>
        match crl_configured c with
        | None => (Decided (refuse ocsp_unavailable from_ocsp), m)
        | Some _ => consult_crl now serial m
        end
    end.

(** After the OCSP run; [now] is the clock when its decision is cached, or the
    list is consulted. *)
Definition ocsp_done (now : Z) (serial : option string) (b : list Byte.byte) (d : RevocationDecision) (m : cache) : next * cache :=
  if ok d || bool_decide (status d = revoked) then (Decided d, setCached now (ocsp_key serial b) d m)
  else match crl_configured c with
       | None => (Decided d, m)
       | Some _ => consult_crl now serial m
       end.

Definition crl_done (now : Z) (serial : option string) (d : RevocationDecision) (m : cache) : RevocationDecision * cache :=
  (d, setCached now (crl_key serial) d m).

(** ** Interleaved verifications

    Any number of verifications run together; each step below is one of
    theirs. *)
Inductive step :=
| Began (now : Z) (serial : option string) (stapled : option (list Byte.byte))
| OcspDone (now t t' : Z) (serial : option string) (b : list Byte.byte) (out : option string)
| CrlDone (now t : Z) (serial : option string) (out : result string (string * string * string))
| Cleared.

Definition apply (s : step) (m : cache) : cache :=
  match s with
  | Began now serial stapled => (verify_begin now serial stapled m).2
  | OcspDone now t t' serial b out => (ocsp_done now serial b (verifyOcspResponse t t' out) m).2
  | CrlDone now t serial out => (crl_done now serial (verifyViaCrl t out) m).2
  | Cleared => clearCache m
  end.

Definition run (ss : list step) : cache := fold_left (λ m s, apply s m) ss ∅.

(** [s] verified [d] under the key [k] at [now]. *)
Definition verified (s : step) (k : string) (now : Z) (d : RevocationDecision) : Prop :=
  match s with
  | OcspDone n t t' serial b out => n = now ∧ k = ocsp_key serial b ∧ d = verifyOcspResponse t t' out
  | CrlDone n t serial out => n = now ∧ k = crl_key serial ∧ d = verifyViaCrl t out
  | _ => False
  end.

(** ** Lemmas *)
Lemma getCached_sub now k m : (getCached now k m).2 ⊆ m.
Proof. unfold getCached. destruct (m !! k) as [[d x]|]; [|done]. case_if; [apply delete_subseteq|done]. Qed.

Lemma getCached_Some now k m d : (getCached now k m).1 = Some d → ∃ x, m !! k = Some (d, x) ∧ now < x.
Proof.
  unfold getCached. destruct (m !! k) as [[d' x]|]; [|done]. destruct (x <=? now) eqn:Hx; [done|].
  intros [= ->]. exists x. split; [done|lia].
Qed.

Lemma consult_crl_sub now serial m : (consult_crl now serial m).2 ⊆ m.
Proof. unfold consult_crl. pose proof (getCached_sub now (crl_key serial) m). by destruct (getCached _ _ m). Qed.

Lemma verify_begin_sub now serial stapled m : (verify_begin now serial stapled m).2 ⊆ m.
Proof.
  unfold verify_begin. case_if; [done|]. destruct (getStapledOcspResponse stapled) as [b|].
  - pose proof (getCached_sub now (ocsp_key serial b) m). by destruct (getCached _ _ m).
  - destruct (crl_configured c); [apply consult_crl_sub|done].
Qed.

(** Every cached decision was verified under its key. *)
Lemma run_verified ss k d x :
  run ss !! k = Some (d, x) → ∃ s now, s ∈ ss ∧ verified s k now d ∧ x = now + cache_ttl d.
Proof.
  revert k d x. induction ss as [|s ss IH] using rev_ind; intros k d x; [done|].
  unfold run. rewrite fold_left_app. cbn [fold_left]. change (fold_left _ ss ∅) with (run ss).
  assert (Hold : ∀ m, m ⊆ run ss → m !! k = Some (d, x) →
            ∃ s' now, s' ∈ ss ++ [s] ∧ verified s' k now d ∧ x = now + cache_ttl d).
  { intros m Hm Hl. destruct (IH k d x (lookup_weaken _ _ _ _ Hl Hm)) as (s' & now & Hin & Hv).
    exists s', now. split; [apply elem_of_app; by left|done]. }
  destruct s as [now serial stapled|now t t' serial b out|now t serial out|]; cbn [apply].
  - apply Hold, verify_begin_sub.
  - unfold ocsp_done. destruct (ok _ || _); cbn [snd].
    + unfold setCached. destruct (decide (ocsp_key serial b = k)) as [<-|Hne]; [rewrite lookup_insert_eq|rewrite lookup_insert_ne by done; by apply Hold].
      intros [= <- <-]. eexists _, now. split; [apply elem_of_app; right; by apply list_elem_of_singleton|]. by split_and!.
    + destruct (crl_configured c); [apply Hold, consult_crl_sub|by apply Hold].
  - cbn [crl_done snd]. unfold setCached. destruct (decide (crl_key serial = k)) as [<-|Hne]; [rewrite lookup_insert_eq|rewrite lookup_insert_ne by done; by apply Hold].
    intros [= <- <-]. eexists _, now. split; [apply elem_of_app; right; by apply list_elem_of_singleton|]. by split_and!.
  - done.
Qed.

Lemma accepted_ttl d k s now :
  verified s k now d → ok d = true → cache_ttl d ≤ Z.max 1000 (ocspCacheTtlMs c).
Proof.
  assert (∀ u t, computeOcspCacheTtlMs u t (ocspCacheTtlMs c) ≤ Z.max 1000 (ocspCacheTtlMs c)) as Ht.
  { intros [u|] t; cbn; lia. }
  unfold cache_ttl. destruct s as [|n t t' serial b out|n t serial out|]; [done| | |done]; intros (_ & _ & ->).
  - unfold verifyOcspResponse. destruct out as [stdout|]; [|done]. destruct (parseOcspText _ stdout) as [[] u]; try done.
    destruct u as [u|]; [|done]. destruct (u <=? t); [done|]. cbn [cacheTtlMs default from_option id]. intros _.
    pose proof (Ht (Some u) t'). cbn in *. lia.
  - unfold verifyViaCrl. destruct (crl_configured c); [|done]. destruct out as [[[o e] n']|e].
    + case_if; [done|]. cbn. intros _. pose proof (Ht (parseCrlNextUpdate parse_date n') t). lia.
    + by case_if.
Qed.
End Checker.

(** ** The middleware *)

Record tls_peer := { has_cert : bool; authorized : bool }.

Inductive middleware_outcome := Next | Respond (status : Z) (code : string).

(** [handleMtls] up to its end, given the revocation decision; [Err] is what it
    throws.  [None] for the revocation settings is the configuration as
    [config/index.ts] builds it, which has none; the last statement assigns to
    a name no scope declares. *)
Definition handleMtls (mtls_enabled : bool) (c : option revocation_config) (p : tls_peer) (d : RevocationDecision)
    (cn : option string) (cnAllowlist : list string) : result string middleware_outcome :=
  if negb mtls_enabled then Ok Next
  else if negb (has_cert p) || negb (authorized p) then Ok (Respond 495 "MTLS_UNAUTHORIZED")
  else match c with
  | None => Err "Cannot read properties of undefined (reading 'enabled')"
  | Some _ =>
      if negb (ok d) then
        Ok (Respond 403 (if bool_decide (status d = revoked) then "MTLS_CERT_REVOKED" else "MTLS_REVOCATION_CHECK_FAILED"))
      else if negb (length cnAllowlist =? 0)%nat &&
              negb (match cn with Some ((String _ _) as n) => includes n cnAllowlist | _ => false end)
      then Ok (Respond 403 "MTLS_CN_NOT_ALLOWED")
      else Err "authenticated is not defined"
  end.

Definition mtlsMiddleware (mtls_enabled : bool) (c : option revocation_config) (p : tls_peer) (d : RevocationDecision)
    (cn : option string) (cnAllowlist : list string) : middleware_outcome :=
  match handleMtls mtls_enabled c p d cn cnAllowlist with
  | Ok o => o
  | Err _ => Respond 503 "MTLS_INTERNAL_ERROR"
  end.

(** ** Properties *)

(** However verifications interleave, a certificate is accepted from the cache
    only if a verification under the same key, of its serial number (and of
    the same stapled response), accepted less than the configured time to live
    ago, or one second where that is shorter. *)
Theorem cached_acceptance_is_fresh parse_date c sha256 ss now serial stapled d m :
  enabled c = true → ok d = true →
  verify_begin c sha256 now serial stapled (run parse_date c sha256 ss) = (Decided d, m) →
  ∃ s k t, s ∈ ss ∧ verified parse_date c sha256 s k t d ∧ now < t + Z.max 1000 (ocspCacheTtlMs c) ∧
    (k = crl_key c serial ∨ ∃ b, stapled = Some b ∧ k = ocsp_key sha256 serial b).
Proof.
  intros He Hok. set (m0 := run parse_date c sha256 ss).
  assert (Hget : ∀ k, (getCached now k m0).1 = Some d → ∃ s t, s ∈ ss ∧ verified parse_date c sha256 s k t d ∧
            now < t + Z.max 1000 (ocspCacheTtlMs c)).
  { intros k (x & Hk & Hx)%getCached_Some. apply run_verified in Hk as (s & t & Hin & Hv & ->).
    exists s, t. split_and!; [done|done|]. pose proof (accepted_ttl _ _ _ _ _ _ _ Hv Hok). lia. }
  unfold verify_begin, consult_crl. rewrite He. cbn [negb].
  destruct (getStapledOcspResponse stapled) as [b|] eqn:Hb.
  - destruct (getCached now (ocsp_key sha256 serial b) m0) as [[d'|] m'] eqn:Hg; [|done]. intros [= -> _].
    destruct (Hget (ocsp_key sha256 serial b)) as (s & t & Hin & Hv & Ht); [by rewrite Hg|].
    exists s, (ocsp_key sha256 serial b), t. split_and!; [done|done|done|]. right. exists b. split; [|done].
    unfold getStapledOcspResponse in Hb. destruct stapled as [[|? ?]|]; [done|by injection Hb as <-|done].
  - destruct (crl_configured c) as [pth|].
    + destruct (getCached now (crl_key c serial) m0) as [[d'|] m'] eqn:Hg; [|done]. intros [= -> _].
      destruct (Hget (crl_key c serial)) as (s & t & Hin & Hv & Ht); [by rewrite Hg|].
      exists s, (crl_key c serial), t. split_and!; [done|done|done|by left].
    + intros [= <- _]. done.
Qed.

(** The list's decisions are kept by serial number alone: until it expires, a
    decision made for one certificate is given to any other with the same
    serial number, whoever issued it. *)
Theorem crl_decision_shared_by_serial c sha256 now now' serial serial' d m p :
  enabled c = true → crlPath c = Some p → is_empty p = false →
  normalizeSerialNumber serial' = normalizeSerialNumber serial → now' < now + cache_ttl c d →
  (verify_begin c sha256 now' serial' None (crl_done c now serial d m).2).1 = Decided d.
Proof.
  intros He Hp Hne Hs Ht. unfold verify_begin, crl_configured, consult_crl. rewrite He, Hp.
  destruct p as [|a p]; [done|]. cbn [negb getStapledOcspResponse].
  assert (crl_key c serial' = crl_key c serial) as -> by (unfold crl_key; by rewrite Hs).
  unfold getCached, crl_done, setCached. cbn [snd]. rewrite lookup_insert_eq.
  by assert ((now + cache_ttl c d <=? now') = false) as -> by lia.
Qed.

(** A text that says [: good] anywhere is read as good, whatever else it
    says. *)
Theorem good_masks_revoked parse_date c stdout now now' t :
  contains ": good" (to_lower stdout) = true → next_update parse_date stdout = Some t → now < t →
  ok (verifyOcspResponse parse_date c now now' (Some stdout)) = true.
Proof.
  intros Hg Hn Ht. unfold verifyOcspResponse, parseOcspText. rewrite Hg, Hn.
  by assert ((t <=? now) = false) as -> by lia.
Qed.

(** With mTLS enabled no request gets past the middleware. *)
Theorem mtls_enabled_blocks_all c p d cn allow : mtlsMiddleware true c p d cn allow ≠ Next.
Proof. unfold mtlsMiddleware, handleMtls. cbn [negb]. repeat case_match; naive_solver. Qed.

(** ** A concrete run *)
Definition sample_cfg : revocation_config := {| enabled := true; crlPath := Some "/crl.pem"; ocspCacheTtlMs := 5000 |}.
Definition sample_date (s : string) : option Z := if String.eqb s "LATER" then Some 100000 else None.
Definition line (a b : string) : string := a +:+ String (ascii_of_nat 10) b.
Definition good_text : string := line "client-cert.pem: good" "    Next Update: LATER".

Lemma cached_acceptance_is_fresh_witness :
  let ss := [OcspDone 10 9 9 (Some "0A:1b") [Byte.x01] (Some good_text)] in
  (verify_begin sample_cfg (λ _, "h") 5009 (Some "0a1B") (Some [Byte.x01]) (run sample_date sample_cfg (λ _, "h") ss)).1 =
  Decided {| ok := true; status := good; src := from_ocsp; cacheTtlMs := Some 5000 |} ∧
  ∃ s k t, s ∈ ss ∧ verified sample_date sample_cfg (λ _, "h") s k t
    {| ok := true; status := good; src := from_ocsp; cacheTtlMs := Some 5000 |} ∧ 5009 < t + Z.max 1000 5000.
Proof.
  intros ss. split; [vm_compute; reflexivity|].
  destruct (cached_acceptance_is_fresh sample_date sample_cfg (λ _, "h") ss 5009 (Some "0a1B") (Some [Byte.x01])
              {| ok := true; status := good; src := from_ocsp; cacheTtlMs := Some 5000 |}
              (run sample_date sample_cfg (λ _, "h") ss) eq_refl eq_refl ltac:(vm_compute; reflexivity))
    as (s & k & t & Hin & Hv & Ht & _).
  exists s, k, t. split; [exact Hin|]. split; [exact Hv|exact Ht].
Defined.

Lemma crl_decision_shared_by_serial_witness :
  let d := verifyViaCrl sample_date sample_cfg 0 (Ok ("client-cert.pem: OK", "", "nextUpdate=LATER")) in
  (verify_begin sample_cfg (λ _, "h") 4999 (Some "0a1b") None (crl_done sample_cfg 0 (Some "0A:1B") d ∅).2).1 = Decided d.
Proof.
  exact (crl_decision_shared_by_serial sample_cfg (λ _, "h") 0 4999 (Some "0A:1B") (Some "0a1b")
           (verifyViaCrl sample_date sample_cfg 0 (Ok ("client-cert.pem: OK", "", "nextUpdate=LATER"))) ∅ "/crl.pem"
           eq_refl eq_refl eq_refl eq_refl ltac:(vm_compute; reflexivity)).
Defined.

Lemma good_masks_revoked_witness :
  ok (verifyOcspResponse sample_date sample_cfg 0 0 (Some (line "client-cert.pem: revoked" (line "Cert Status: good" "Next Update: LATER")))) = true.
Proof.
  exact (good_masks_revoked sample_date sample_cfg (line "client-cert.pem: revoked" (line "Cert Status: good" "Next Update: LATER"))
           0 0 100000 eq_refl eq_refl eq_refl).
Defined.
