(* ===== verification/WebhookSubscriptions.v ===== *)
(** * Webhook subscriptions: [src/repositories/webhookSubscriptionRepository.ts]
    and the routes of [src/routes/webhook-subscriptions.ts] that change them.

    The table is the list of its rows; what its migration enforces, the unique
    index and the width of the version, is in the statements as refusals, and
    that generated ids are new is a hypothesis of runs ([fresh_run]).  A
    subscription is specified by its history ([subscription_is_its_history]):
    the requests the database took about its id.  Identifiers are UUID texts, which PostgreSQL
    orders as text.  Filters and mTLS settings are a type [J]. *)

From Stdlib Require Import Sorting.Sorted.
From S2P Require Import Prelude Hashing JsString Collections Window Keyset AuditChain.
#[local] Open Scope Z_scope.

Section Subscriptions.
Context {J : Type}.

Record WebhookSubscription := {
  id : string; businessId : string; url : string; secret : string; eventFilters : J; enabled : bool;
  maxPayloadSize : option Z; secretVersion : Z; mtlsConfig : option J; createdAt : Z; updatedAt : Z
}.

Abbreviation table := (list WebhookSubscription).

(** How PostgreSQL refuses a statement. *)
Inductive sql_error := UndefinedColumn | UniqueViolation | IntegerOutOfRange.

(** Another row has the business and the URL. *)
Definition url_taken (i b u : string) (t : table) : bool :=
  existsb (λ r, negb (String.eqb (id r) i) && String.eqb (businessId r) b && String.eqb (url r) u) t.

Record CreateInput := {
  i_url : string; i_secret : string; i_eventFilters : option J; i_enabled : option bool;
  i_maxPayloadSize : option Z; i_mtlsConfig : option J
}.

(** [has_mtls] tells whether the table has a column [mtls_config]: no migration
    creates it, and the INSERT always names it.  [empty] is the empty object,
    [fresh] the generated id. *)
Definition create (has_mtls : bool) (empty : J) (fresh : string) (now : Z) (b : string) (input : CreateInput) (t : table)
  : result sql_error WebhookSubscription * table :=
  if negb has_mtls then (Err UndefinedColumn, t)
  else if url_taken fresh b (i_url input) t then (Err UniqueViolation, t)
  else
    let r := {| id := fresh; businessId := b; url := i_url input; secret := i_secret input;
                eventFilters := default empty (i_eventFilters input); enabled := default true (i_enabled input);
                maxPayloadSize := i_maxPayloadSize input; secretVersion := 1; mtlsConfig := i_mtlsConfig input;
                createdAt := now; updatedAt := now |} in
    (Ok r, t ++ [r]).

Definition is_row (i b : string) (r : WebhookSubscription) : bool := String.eqb (id r) i && String.eqb (businessId r) b.

Definition getById (i b : string) (t : table) : option WebhookSubscription := List.find (is_row i b) t.

Definition countByBusiness (b : string) (t : table) : Z :=
  Z.of_nat (length (List.filter (λ r, String.eqb (businessId r) b) t)).

Definition remove (i b : string) (t : table) : bool * table :=
  (existsb (is_row i b) t, List.filter (λ r, negb (is_row i b r)) t).

(** ** Updates: the fields that are not [undefined]. *)
Record UpdateInput := {
  u_url : option string; u_secret : option string; u_eventFilters : option J; u_enabled : option bool;
  u_maxPayloadSize : option (option Z); u_mtlsConfig : option (option J)
}.

Definition is_set {A} (o : option A) : bool := match o with Some _ => true | None => false end.

Definition nothing_set (u : UpdateInput) : bool :=
  negb (is_set (u_url u) || is_set (u_secret u) || is_set (u_eventFilters u) || is_set (u_enabled u) ||
        is_set (u_maxPayloadSize u) || is_set (u_mtlsConfig u)).

(** The SET list. *)
Definition set_fields (now : Z) (u : UpdateInput) (r : WebhookSubscription) : WebhookSubscription :=
  {| id := id r; businessId := businessId r; url := default (url r) (u_url u); secret := default (secret r) (u_secret u);
     eventFilters := default (eventFilters r) (u_eventFilters u); enabled := default (enabled r) (u_enabled u);
     maxPayloadSize := default (maxPayloadSize r) (u_maxPayloadSize u);
     secretVersion := if is_set (u_secret u) then secretVersion r + 1 else secretVersion r;
     mtlsConfig := default (mtlsConfig r) (u_mtlsConfig u); createdAt := createdAt r; updatedAt := now |}.

Definition INT4_MAX : Z := 2 ^ 31 - 1.

Definition update (has_mtls : bool) (now : Z) (i b : string) (u : UpdateInput) (t : table)
  : result sql_error (option WebhookSubscription) * table :=
  if nothing_set u then (Ok (getById i b t), t)
  else if is_set (u_mtlsConfig u) && negb has_mtls then (Err UndefinedColumn, t)
  else
    match getById i b t with
    | None => (Ok None, t)
    | Some r =>
        let r' := set_fields now u r in
        if INT4_MAX <? secretVersion r' then (Err IntegerOutOfRange, t)
        else if url_taken i b (url r') t then (Err UniqueViolation, t)
        else (Ok (Some r'), map (λ x, if is_row i b x then set_fields now u x else x) t)
    end.

(** ** Listing *)
Record ListQuery := { q_businessId : option string; q_enabled : option bool; q_cursor : option string; q_limit : option Z }.

(** A string that is there and not empty. *)
Definition given (s : option string) : option string := match s with Some (String _ _ as x) => Some x | _ => None end.

Definition selected (q : ListQuery) (r : WebhookSubscription) : bool :=
  match given (q_businessId q) with Some b => String.eqb (businessId r) b | None => true end &&
  match q_enabled q with Some e => Bool.eqb (enabled r) e | None => true end.

Definition after_id (c : string) (r : WebhookSubscription) : bool := str_lt c (id r).

(** [ORDER BY id ASC]. *)
Definition id_order (a b : WebhookSubscription) : Z :=
  if String.eqb (id a) (id b) then 0 else if str_lt (id a) (id b) then -1 else 1.

Definition resolve_limit (l : option Z) : nat := Z.to_nat (Z.min (default 20 l) 100).

Definition list_subscriptions (q : ListQuery) (t : table) : page (R := WebhookSubscription) (C := string) :=
  full_page id (resolve_limit (q_limit q))
    (select id_order (λ r, selected q r && beyond after_id (given (q_cursor q)) r) t).

(** ** The routes that create *)

Definition MAX_SUBSCRIPTIONS_PER_BUSINESS : Z := 10.

Inductive create_error := ConflictError | Database (e : sql_error).

(** The capacity check and, after its await, the insertion. *)
Definition capacity_left (b : string) (t : table) : bool := countByBusiness b t <? MAX_SUBSCRIPTIONS_PER_BUSINESS.

Definition post_subscription (has_mtls : bool) (empty : J) (fresh : string) (now : Z) (b : string) (input : CreateInput)
    (t : table) : result create_error WebhookSubscription * table :=
  if negb (capacity_left b t) then (Err ConflictError, t)
  else match create has_mtls empty fresh now b input t with
       | (Ok r, t) => (Ok r, t)
       | (Err e, t) => (Err (Database e), t)
       end.

(** ** Runs *)
Inductive op :=
| Create (fresh : string) (now : Z) (b : string) (input : CreateInput)
| Update (now : Z) (i b : string) (u : UpdateInput)
| Remove (i b : string).

Definition tenant (o : op) : string := match o with Create _ _ b _ | Update _ _ b _ | Remove _ b => b end.

Definition op_apply (has_mtls : bool) (empty : J) (o : op) (t : table) : table :=
  match o with
  | Create fresh now b input => (create has_mtls empty fresh now b input t).2
  | Update now i b u => (update has_mtls now i b u t).2
  | Remove i b => (remove i b t).2
  end.

(** The generated ids are new. *)
Definition fresh_id (o : op) (t : table) : bool :=
  match o with Create fresh _ _ _ => negb (existsb (λ r, String.eqb (id r) fresh) t) | _ => true end.

Fixpoint fresh_run has_mtls empty (os : list op) (t : table) : bool :=
  match os with [] => true | o :: os => fresh_id o t && fresh_run has_mtls empty os (op_apply has_mtls empty o t) end.

Definition run has_mtls empty (os : list op) (t : table) : table := fold_left (λ t o, op_apply has_mtls empty o t) os t.

(** The primary key and the unique index, and versions from 1 to the largest
    integer of the column. *)
Record valid (t : table) : Prop := {
  valid_ids : NoDup (id <$> t);
  valid_urls : NoDup ((λ r, (businessId r, url r)) <$> t);
  valid_versions : Forall (λ r, 1 ≤ secretVersion r ≤ INT4_MAX) t
}.
End Subscriptions.
Arguments WebhookSubscription J : clear implicits.
Arguments CreateInput J : clear implicits.
Arguments UpdateInput J : clear implicits.
Arguments op J : clear implicits.

(** ** Order of the ids *)
Lemma code_inj c d : code c = code d → c = d.
Proof.
  unfold code. intros H%Nat2Z.inj. by rewrite <- (ascii_nat_embedding c), <- (ascii_nat_embedding d), H.
Qed.

Lemma str_lt_total a b : a ≠ b → str_lt a b = false → str_lt b a = true.
Proof.
  revert b. induction a as [|c a IH]; intros [|d b]; cbn; try done.
  intros Hne [H1 H2]%orb_false_iff. apply orb_true_iff. destruct (Z.eq_dec (code c) (code d)) as [He|He].
  - apply code_inj in He as ->. right. rewrite Z.eqb_refl in *. cbn in *. apply IH; [congruence|done].
  - left. lia.
Qed.

Section Proofs.
Context {J : Type}.
Implicit Types (t : list (WebhookSubscription J)) (r : WebhookSubscription J).

Definition before r r' : Prop := str_lt (id r) (id r') = true.

Lemma before_trans x y z : before x y → before y z → before x z.
Proof. apply str_lt_trans. Qed.
Lemma before_irrefl x : ¬ before x x.
Proof. unfold before. by rewrite str_lt_irrefl. Qed.

Lemma ids_inj t x y : NoDup (id <$> t) → x ∈ t → y ∈ t → id x = id y → x = y.
Proof.
  intros Hn [i Hi]%list_elem_of_lookup [j Hj]%list_elem_of_lookup He. assert (i = j) as ->; [|congruence].
  apply (NoDup_lookup (id <$> t) i j (id x) Hn); rewrite list_lookup_fmap; [by rewrite Hi|by rewrite Hj; cbn; rewrite He].
Qed.

Lemma id_order_decides t : NoDup (id <$> t) → decides id_order before t.
Proof.
  intros Hn. unfold id_order, before. split; intros x y Hx Hy; destruct (String.eqb_spec (id x) (id y)) as [He|He].
  - intros _ Hne. by destruct Hne; eapply ids_inj.
  - by destruct (str_lt (id x) (id y)).
  - done.
  - destruct (str_lt (id x) (id y)) eqn:Hl; [done|]. intros _. by apply str_lt_total.
Qed.

(** ** Rows found by id *)
Lemma is_row_spec i b r : is_row i b r = true ↔ id r = i ∧ businessId r = b.
Proof. unfold is_row. by rewrite andb_true_iff, !String.eqb_eq. Qed.

Lemma getById_Some i b t r : getById i b t = Some r → r ∈ t ∧ id r = i ∧ businessId r = b.
Proof. intros [H%list_elem_of_In [-> ->]%is_row_spec]%List.find_some. done. Qed.

Lemma getById_in t r : NoDup (id <$> t) → r ∈ t → getById (id r) (businessId r) t = Some r.
Proof.
  intros Hn Hr. unfold getById. destruct (List.find _ t) as [r'|] eqn:Hf.
  - apply getById_Some in Hf as (Hr' & He & _). f_equal. by eapply ids_inj.
  - pose proof (List.find_none _ _ Hf r (proj1 (list_elem_of_In _ _) Hr)) as Hno.
    by rewrite (proj2 (is_row_spec _ _ _)) in Hno.
Qed.

Lemma url_taken_false i b u t :
  url_taken i b u t = false ↔ ∀ r, r ∈ t → id r ≠ i → (businessId r, url r) ≠ (b, u).
Proof.
  unfold url_taken. rewrite <- not_true_iff_false, existsb_exists. split.
  - intros H r Hr Hi [= <- <-]. apply H. exists r. split; [by apply list_elem_of_In|].
    rewrite !String.eqb_refl, !andb_true_r. by apply negb_true_iff, String.eqb_neq.
  - intros H (r & Hr%list_elem_of_In & [[Hi%negb_true_iff%String.eqb_neq Hb%String.eqb_eq]%andb_true_iff Hu%String.eqb_eq]%andb_true_iff).
    apply (H r Hr Hi). congruence.
Qed.

Lemma NoDup_fmap_snoc {A B} (f : A → B) l x : NoDup (f <$> l) → (∀ y, y ∈ l → f y ≠ f x) → NoDup (f <$> (l ++ [x])).
Proof.
  intros Hn Hx. rewrite fmap_app. apply NoDup_app. split_and!; [done| |apply NoDup_singleton].
  intros z (y & -> & Hy)%list_elem_of_fmap Hz%list_elem_of_singleton. by apply (Hx y Hy).
Qed.

Lemma NoDup_fmap_filter {A B} (f : A → B) p l : NoDup (f <$> l) → NoDup (f <$> List.filter p l).
Proof.
  induction l as [|x l IH]; cbn; [done|]. intros [Hx Hn]%NoDup_cons. destruct (p x); [|by apply IH].
  cbn. constructor; [|by apply IH]. intros (y & He & [Hy _]%filter_in)%list_elem_of_fmap. apply Hx.
  apply list_elem_of_fmap. by exists y.
Qed.

Lemma Forall_filter {A} (P : A → Prop) p l : Forall P l → Forall P (List.filter p l).
Proof. rewrite !Forall_forall. intros H x [Hx _]%filter_in. by apply H. Qed.

(** What an update does to the table, when it succeeds and when not. *)
Lemma update_cases hm now i b u t :
  ((update hm now i b u t).2 = t ∧ (is_set (u_secret u) = true → ∀ x, (update hm now i b u t).1 ≠ Ok (Some x))) ∨
  ∃ r, getById i b t = Some r ∧ secretVersion (set_fields now u r) ≤ INT4_MAX ∧
       url_taken i b (url (set_fields now u r)) t = false ∧
       update hm now i b u t =
         (Ok (Some (set_fields now u r)), map (λ x, if is_row i b x then set_fields now u x else x) t).
Proof.
  unfold update. destruct (nothing_set u) eqn:Hn.
  { left. split; [done|]. intros Hs. unfold nothing_set in Hn. rewrite Hs in Hn. by destruct (is_set (u_url u)). }
  case_if; [by left|]. destruct (getById i b t) as [r|]; [|by left].
  destruct (INT4_MAX <? _) eqn:Hv; [by left|]. destruct (url_taken i b _ t) eqn:Hu; [by left|].
  right. exists r. split_and!; [done|lia|done|done].
Qed.

(** The row an update or a removal is about, and the rows around it. *)
Lemma row_split i b t r :
  NoDup (id <$> t) → getById i b t = Some r →
  ∃ l1 l2, t = l1 ++ r :: l2 ∧ (∀ y, y ∈ l1 ++ l2 → id y ≠ i ∧ is_row i b y = false) ∧
    ∀ g, map (λ x, if is_row i b x then g x else x) t = l1 ++ g r :: l2.
Proof.
  intros Hn Hg. pose proof (getById_Some _ _ _ _ Hg) as (Hr & Hri & Hrb).
  apply list_elem_of_split in Hr as (l1 & l2 & ->). exists l1, l2.
  assert (Ho : ∀ y, y ∈ l1 ++ l2 → id y ≠ i ∧ is_row i b y = false).
  { intros y Hy. assert (id y ≠ i) as Hne.
    { rewrite fmap_app, fmap_cons in Hn. apply NoDup_app in Hn as (_ & Hd & [Hx _]%NoDup_cons). intros He.
      apply elem_of_app in Hy as [Hy|Hy].
      - apply (Hd (id y)); [by apply list_elem_of_fmap_2|]. rewrite He, <- Hri. by left.
      - apply Hx. rewrite Hri, <- He. by apply list_elem_of_fmap_2. }
    split; [done|]. destruct (is_row i b y) eqn:He; [|done]. by apply is_row_spec in He as [? _]. }
  split_and!; [done|exact Ho|]. intros g. rewrite map_app. cbn.
  assert (is_row i b r = true) as -> by by apply is_row_spec.
  assert (Hm : ∀ l, (∀ y, y ∈ l → is_row i b y = false) → map (λ x, if is_row i b x then g x else x) l = l).
  { induction l as [|y l IH]; [done|]. intros Hl. cbn. rewrite Hl by by left. f_equal. apply IH. intros z Hz. apply Hl. by right. }
  rewrite !Hm; [done|intros y Hy; apply Ho, elem_of_app; by right|intros y Hy; apply Ho, elem_of_app; by left].
Qed.

Lemma NoDup_fmap_replace {A B} (f : A → B) l1 x y l2 :
  NoDup (f <$> (l1 ++ x :: l2)) → (∀ z, z ∈ l1 ++ l2 → f z ≠ f y) → NoDup (f <$> (l1 ++ y :: l2)).
Proof.
  rewrite <- !Permutation_middle, !fmap_cons. intros [_ Hn]%NoDup_cons Hy. apply NoDup_cons. split; [|done].
  intros (z & He & Hz)%list_elem_of_fmap. by apply (Hy z).
Qed.

Lemma update_valid hm now i b u t : valid t → valid (update hm now i b u t).2.
Proof.
  intros [Hi Hu Hv]. destruct (update_cases hm now i b u t) as [[-> _]|(r & Hg & Hver & Hurl & ->)]; [done|]. cbn [snd].
  pose proof (getById_Some _ _ _ _ Hg) as (_ & Hri & Hrb). rewrite url_taken_false in Hurl.
  destruct (row_split _ _ _ _ Hi Hg) as (l1 & l2 & -> & Ho & ->). split.
  - apply (NoDup_fmap_replace _ l1 r _ l2 Hi). intros z Hz. cbn. rewrite Hri. by apply Ho.
  - apply (NoDup_fmap_replace _ l1 r _ l2 Hu). intros z Hz. cbn. rewrite Hrb. apply Hurl; [|by apply Ho].
    rewrite <- Permutation_middle. by right.
  - rewrite <- Permutation_middle in Hv |- *. apply Forall_cons in Hv as [Hr Hv]. apply Forall_cons. split; [|done].
    cbn in *. destruct (is_set (u_secret u)); lia.
Qed.

Lemma create_valid hm e fresh now b input t :
  existsb (λ r, String.eqb (id r) fresh) t = false → valid t → valid (create hm e fresh now b input t).2.
Proof.
  intros Hf [Hi Hu Hv]. unfold create. case_if; [done|]. destruct (url_taken fresh b (i_url input) t) eqn:Hurl; [done|]. cbn [snd].
  assert (Hid : ∀ y, y ∈ t → id y ≠ fresh).
  { intros y Hy He. rewrite <- not_true_iff_false, existsb_exists in Hf. apply Hf. exists y.
    split; [by apply list_elem_of_In|by apply String.eqb_eq]. }
  rewrite url_taken_false in Hurl. split.
  - by apply NoDup_fmap_snoc.
  - apply NoDup_fmap_snoc; [done|]. intros y Hy. apply Hurl; [done|by apply Hid].
  - apply Forall_app. split; [done|]. by apply Forall_singleton.
Qed.

Lemma apply_valid hm e o t : fresh_id o t = true → valid t → valid (op_apply hm e o t).
Proof.
  destruct o as [fresh now b input|now i b u|i b]; cbn.
  - intros Hf%negb_true_iff. by apply create_valid.
  - intros _. apply update_valid.
  - intros _ [Hi Hu Hv]. split; [by apply NoDup_fmap_filter|by apply NoDup_fmap_filter|by apply Forall_filter].
Qed.

Lemma run_valid hm e os t : fresh_run hm e os t = true → valid t → valid (run hm e os t).
Proof.
  revert t. induction os as [|o os IH]; intros t; cbn; [done|]. intros [Hf Ho]%andb_true_iff Hv.
  apply IH; [done|]. by apply apply_valid.
Qed.

(** ** Other rows, and the rows of other businesses *)
Lemma update_keeps hm now i b u t r :
  r ∈ t → is_row i b r = false → r ∈ (update hm now i b u t).2.
Proof.
  intros Hr Hn. destruct (update_cases hm now i b u t) as [[-> _]|(x & _ & _ & _ & ->)]; [done|]. cbn.
  apply list_elem_of_In, in_map_iff. exists r. rewrite Hn. split; [done|by apply list_elem_of_In].
Qed.

Lemma op_apply_keeps hm e o t r :
  r ∈ t → match o with Update _ i b _ | Remove i b => is_row i b r = false | Create _ _ _ _ => True end →
  r ∈ op_apply hm e o t.
Proof.
  destruct o as [fresh now b input|now i b u|i b]; cbn; intros Hr Ho.
  - unfold create. case_if; [done|]. case_if; [done|]. cbn. apply elem_of_app. by left.
  - by apply update_keeps.
  - apply filter_in. by rewrite Ho.
Qed.

(** ** Secret versions *)

(** The updates of row [(i, b)] in a run that carried a secret and
    succeeded. *)
Fixpoint rotations hm e (i b : string) (os : list (op J)) t : Z :=
  match os with
  | [] => 0
  | o :: os =>
      (match o with
       | Update now i' b' u =>
           if String.eqb i' i && String.eqb b' b && is_set (u_secret u) &&
              match (update hm now i' b' u t).1 with Ok (Some _) => true | _ => false end
           then 1 else 0
       | _ => 0
       end) + rotations hm e i b os (op_apply hm e o t)
  end.

Definition removes (i b : string) (o : op J) : bool :=
  match o with Remove i' b' => String.eqb i' i && String.eqb b' b | _ => false end.

Lemma version_step hm e i b o t r :
  fresh_id o t = true → valid t → getById i b t = Some r → removes i b o = false →
  ∃ r', getById i b (op_apply hm e o t) = Some r' ∧
    secretVersion r' = secretVersion r + (rotations hm e i b [o] t).
Proof.
  intros Hf Hv Hg Hrm. pose proof (apply_valid hm e o t Hf Hv) as Hv'. pose proof (getById_Some _ _ _ _ Hg) as (Hr & Hi & Hb).
  assert (Hkeep : r ∈ op_apply hm e o t → rotations hm e i b [o] t = 0 →
            ∃ r', getById i b (op_apply hm e o t) = Some r' ∧ secretVersion r' = secretVersion r + (rotations hm e i b [o] t)).
  { intros Hin ->. exists r. split; [|lia]. rewrite <- Hi, <- Hb. apply getById_in; [apply Hv'|done]. }
  assert (Hother : ∀ i' b', String.eqb i' i && String.eqb b' b = false → is_row i' b' r = false).
  { intros i' b' Hn. unfold is_row. rewrite Hi, Hb. by rewrite (String.eqb_sym i), (String.eqb_sym b). }
  destruct o as [fresh now b' input|now i' b' u|i' b']; cbn [rotations removes] in *.
  - apply Hkeep; [by apply op_apply_keeps|done].
  - destruct (String.eqb i' i && String.eqb b' b) eqn:Hsame.
    2: { apply Hkeep; [apply op_apply_keeps; [done|by apply Hother]|done]. }
    apply andb_true_iff in Hsame as [->%String.eqb_eq ->%String.eqb_eq]. cbn [andb].
    destruct (update_cases hm now i b u t) as [[Hsame Hno]|(r1 & Hg1 & _ & _ & Hup)].
    + cbn [op_apply]. rewrite Hsame. exists r. split; [done|].
      destruct (is_set (u_secret u)); [|cbn; lia]. specialize (Hno eq_refl).
      destruct (update hm now i b u t).1 as [[x|]|]; [by destruct (Hno x)|cbn; lia..].
    + rewrite Hg in Hg1. injection Hg1 as <-. cbn [op_apply] in *. rewrite Hup in *. cbn [fst snd] in *. exists (set_fields now u r). split.
      * subst i b. apply (getById_in _ (set_fields now u r)); [apply Hv'|]. apply list_elem_of_In, in_map_iff. exists r.
        rewrite (proj2 (is_row_spec (id r) (businessId r) r)) by done. split; [done|by apply list_elem_of_In].
      * cbn. destruct (is_set (u_secret u)); cbn; lia.
  - apply Hkeep; [|done]. apply op_apply_keeps; [done|by apply Hother].
Qed.

Lemma version_run hm e i b os t r :
  fresh_run hm e os t = true → valid t → getById i b t = Some r → forallb (λ o, negb (removes i b o)) os = true →
  ∃ r', getById i b (run hm e os t) = Some r' ∧ secretVersion r' = secretVersion r + rotations hm e i b os t.
Proof.
  revert t r. induction os as [|o os IH]; intros t r; cbn [fresh_run forallb]; [exists r; split; [done|cbn; lia]|].
  intros [Hf Hos]%andb_true_iff Hv Hg [Hrm%negb_true_iff Hrms]%andb_true_iff.
  destruct (version_step hm e i b o t r Hf Hv Hg Hrm) as (r1 & Hg1 & H1).
  destruct (IH _ r1 Hos (apply_valid hm e o t Hf Hv) Hg1 Hrms) as (r2 & Hg2 & H2). exists r2. split; [done|].
  cbn [rotations] in *. lia.
Qed.

(** ** The history of a subscription *)

(** The database took the operation: a row was inserted, an update found its
    row, a removal removed one. *)
Definition takes hm e (o : op J) t : bool :=
  match o with
  | Create fresh now b input => is_ok (create hm e fresh now b input t).1
  | Update now i b u => match (update hm now i b u t).1 with Ok (Some _) => true | _ => false end
  | Remove i b => (remove i b t).1
  end.

Fixpoint taken hm e (os : list (op J)) t : list (op J) :=
  match os with
  | [] => []
  | o :: os => (if takes hm e o t then [o] else []) ++ taken hm e os (op_apply hm e o t)
  end.

(** A subscription since it was created: when, with what input, and the
    updates since, with their times. *)
Abbreviation life := (Z * CreateInput J * list (Z * UpdateInput J))%type (only parsing).

Definition live (i b : string) (l : option life) (o : op J) : option life :=
  match o with
  | Create fresh now b' input => if decide (fresh = i ∧ b' = b) then Some (now, input, []) else l
  | Update now i' b' u =>
      if decide (i' = i ∧ b' = b) then (λ '(born, input, us), (born, input, us ++ [(now, u)])) <$> l else l
  | Remove i' b' => if decide (i' = i ∧ b' = b) then None else l
  end.

Definition history (i b : string) (os : list (op J)) : option life := fold_left (live i b) os None.

(** The value a field was last given. *)
Definition latest {A} (init : A) (field : UpdateInput J → option A) (us : list (Z * UpdateInput J)) : A :=
  default init (last (omap (λ u, field u.2) us)).

(** The row of a life: every field has the value it was last given, and the
    version counts the secrets. *)
Definition row_of (e : J) (i b : string) (l : life) : WebhookSubscription J :=
  let '(born, input, us) := l in
  {| id := i; businessId := b; url := latest (i_url input) u_url us; secret := latest (i_secret input) u_secret us;
     eventFilters := latest (default e (i_eventFilters input)) u_eventFilters us;
     enabled := latest (default true (i_enabled input)) u_enabled us;
     maxPayloadSize := latest (i_maxPayloadSize input) u_maxPayloadSize us;
     secretVersion := 1 + Z.of_nat (length (omap (λ u, u_secret u.2) us));
     mtlsConfig := latest (i_mtlsConfig input) u_mtlsConfig us;
     createdAt := born; updatedAt := default born (last (omap (λ u, if nothing_set u.2 then None else Some u.1) us)) |}.

Lemma latest_snoc {A} (init : A) f us now u : latest init f (us ++ [(now, u)]) = default (latest init f us) (f u).
Proof. unfold latest. rewrite omap_app. cbn. destruct (f u); cbn; [by rewrite last_snoc|by rewrite app_nil_r]. Qed.

Lemma row_of_snoc e i b born input us now u :
  row_of e i b (born, input, us ++ [(now, u)]) =
  if nothing_set u then row_of e i b (born, input, us) else set_fields now u (row_of e i b (born, input, us)).
Proof.
  unfold row_of, set_fields. cbn [id businessId url secret eventFilters enabled maxPayloadSize secretVersion mtlsConfig createdAt updatedAt].
  rewrite !latest_snoc, !omap_app, length_app. cbn [omap list_omap snd fst]. destruct (nothing_set u) eqn:Hn.
  - unfold nothing_set in Hn. rewrite negb_true_iff, !orb_false_iff in Hn. destruct u as [[] [] [] [] [] []]; cbn in *; try by destruct_and!.
    by rewrite !app_nil_r, Nat.add_0_r.
  - rewrite last_snoc. f_equal. destruct (u_secret u); cbn; lia.
Qed.

Lemma getById_map i b g (p : WebhookSubscription J → bool) t :
  (∀ x, id (g x) = id x ∧ businessId (g x) = businessId x) →
  getById i b (map (λ x, if p x then g x else x) t) = (λ x, if p x then g x else x) <$> getById i b t.
Proof.
  intros Hg. unfold getById. induction t as [|x t IH]; [done|]. cbn.
  assert (is_row i b (if p x then g x else x) = is_row i b x) as ->.
  { destruct (p x); [|done]. unfold is_row. by destruct (Hg x) as [-> ->]. }
  by destruct (is_row i b x).
Qed.

Lemma getById_snoc i b t r :
  getById i b (t ++ [r]) = match getById i b t with Some x => Some x | None => if is_row i b r then Some r else None end.
Proof. unfold getById. induction t as [|x t IH]; [done|]. cbn. by destruct (is_row i b x). Qed.

Lemma getById_filter i b i' b' t :
  getById i b (List.filter (λ r, negb (is_row i' b' r)) t) = if decide (i' = i ∧ b' = b) then None else getById i b t.
Proof.
  unfold getById. induction t as [|x t IH]; [by case_decide|]. cbn.
  destruct (is_row i' b' x) eqn:H'; cbn [negb]; [|cbn; destruct (is_row i b x) eqn:H; [|done]; case_decide as Hd; [|done]].
  - rewrite IH. case_decide as Hd; [done|]. destruct (is_row i b x) eqn:H; [|done].
    apply is_row_spec in H' as [? ?], H as [? ?]. destruct Hd. split; congruence.
  - destruct Hd as [-> ->]. congruence.
Qed.

(** One operation: the row stays the row of the life. *)
Lemma live_step hm e i b o t l :
  fresh_id o t = true → getById i b t = row_of e i b <$> l →
  getById i b (op_apply hm e o t) = row_of e i b <$> (if takes hm e o t then live i b l o else l).
Proof.
  destruct o as [fresh now b' input|now i' b' u|i' b']; intros Hf Hg; cbn [op_apply takes live].
  - unfold create. case_if; [done|]. case_if; [done|]. cbn [fst snd is_ok]. rewrite getById_snoc, Hg. unfold is_row at 1. cbn. case_decide as Hd.
    + destruct Hd as [-> ->]. destruct l as [l|]; cbn; [exfalso|by rewrite !String.eqb_refl].
      apply getById_Some in Hg as (Hin & Hr & _). cbn in Hf. apply negb_true_iff in Hf.
      rewrite <- not_true_iff_false, existsb_exists in Hf. apply Hf. eexists. split; [by apply list_elem_of_In|]. by apply String.eqb_eq.
    + destruct l; [done|]. cbn. destruct (String.eqb_spec fresh i), (String.eqb_spec b' b); naive_solver.
  - unfold update. destruct (nothing_set u) eqn:Hn; cbn [fst snd].
    + rewrite Hg. destruct (getById i' b' t) eqn:Hg'; [|done]. case_decide as Hd; [|done].
      destruct l as [[[born input] us]|]; [|done]. cbn [fmap option_fmap option_map]. by rewrite row_of_snoc, Hn.
    + case_if; [done|]. destruct (getById i' b' t) as [r|] eqn:Hg'; [|done]. case_if; [done|]. case_if; [done|]. cbn [fst snd].
      rewrite getById_map by done. rewrite Hg. case_decide as Hd.
      * destruct Hd as [-> ->]. rewrite Hg in Hg'. destruct l as [[[born input] us]|]; [|done]. cbn [fmap option_fmap option_map].
        rewrite row_of_snoc, Hn. f_equal. assert (is_row i b (row_of e i b (born, input, us)) = true) as -> by by apply is_row_spec. done.
      * destruct l as [[[born input] us]|]; [|done]. cbn [fmap option_fmap option_map].
        destruct (is_row i' b' _) eqn:Hr; [|done]. apply is_row_spec in Hr as [? ?]. cbn in *. destruct Hd. split; congruence.
  - unfold remove. cbn [fst snd]. rewrite getById_filter, Hg. case_decide as Hd; [|by case_if].
    destruct Hd as [-> ->]. destruct (existsb _ t) eqn:Hx; [done|]. destruct l as [l|]; [|done]. cbn in Hg |- *.
    apply getById_Some in Hg as (Hin & Hr & Hb). rewrite <- not_true_iff_false, existsb_exists in Hx. destruct Hx.
    exists (row_of e i b l). split; [by apply list_elem_of_In|by apply is_row_spec].
Qed.

Lemma live_run hm e i b os t l :
  fresh_run hm e os t = true → getById i b t = row_of e i b <$> l →
  getById i b (run hm e os t) = row_of e i b <$> fold_left (live i b) (taken hm e os t) l.
Proof.
  revert t l. induction os as [|o os IH]; intros t l; cbn [fresh_run taken]; [done|].
  intros [Hf Hos]%andb_true_iff Hg. rewrite fold_left_app. apply (IH _ _ Hos). rewrite (live_step hm e i b o t l Hf Hg).
  by destruct (takes hm e o t).
Qed.

(** When the next operation is taken. *)
Lemma remove_taken i b t : (remove i b t).1 = true ↔ is_Some (getById i b t).
Proof.
  cbn. rewrite existsb_exists. split.
  - intros (r & Hin & Hr). destruct (getById i b t) eqn:Hg; [by eexists|].
    by rewrite (List.find_none _ _ Hg r Hin) in Hr.
  - intros [r (Hin & Hi & Hb)%getById_Some]. exists r. split; [by apply list_elem_of_In|by apply is_row_spec].
Qed.

Lemma create_taken e fresh now b input t :
  valid t → (∀ j r, getById j b t = Some r → url r ≠ i_url input) → takes true e (Create fresh now b input) t = true.
Proof.
  intros [Hn _ _] Hu. cbn. unfold create. cbn [negb].
  assert (url_taken fresh b (i_url input) t = false) as ->; [|done]. apply url_taken_false. intros r Hr _ [= <- He].
  by apply (Hu (id r) r); [apply getById_in|].
Qed.

Lemma update_taken hm e now i b u t r :
  valid t → getById i b t = Some r → hm = true ∨ u_mtlsConfig u = None → secretVersion r < INT4_MAX →
  (∀ j r', j ≠ i → getById j b t = Some r' → url r' ≠ default (url r) (u_url u)) → takes hm e (Update now i b u) t = true.
Proof.
  intros [Hn _ _] Hg Hm Hv Hu. cbn. unfold update. destruct (nothing_set u); [by rewrite Hg|].
  assert (is_set (u_mtlsConfig u) && negb hm = false) as -> by by destruct Hm as [->| ->]; [apply andb_false_r|].
  rewrite Hg. assert ((INT4_MAX <? secretVersion (set_fields now u r)) = false) as ->.
  { cbn. destruct (is_set (u_secret u)); lia. }
  assert (url_taken i b (url (set_fields now u r)) t = false) as ->; [|done]. apply url_taken_false.
  intros x Hx Hi [= <- He]. by apply (Hu (id x) x Hi); [apply getById_in|].
Qed.

(** ** Capacity *)

(** Requests one after the other: creations behind the capacity check. *)
Definition request hm e (o : op J) t :=
  match o with Create fresh now b input => (post_subscription hm e fresh now b input t).2 | _ => op_apply hm e o t end.

Lemma count_map b g (p : WebhookSubscription J → bool) t :
  (∀ x, businessId (g x) = businessId x) → countByBusiness b (map (λ x, if p x then g x else x) t) = countByBusiness b t.
Proof.
  intros Hg. unfold countByBusiness. f_equal. induction t as [|x t IH]; [done|]. cbn.
  assert (businessId (if p x then g x else x) = businessId x) as -> by by destruct (p x).
  destruct (String.eqb _ b); cbn; by rewrite IH.
Qed.

Lemma request_capacity hm e o t b :
  countByBusiness b t ≤ MAX_SUBSCRIPTIONS_PER_BUSINESS → countByBusiness b (request hm e o t) ≤ MAX_SUBSCRIPTIONS_PER_BUSINESS.
Proof.
  intros Hc. destruct o as [fresh now b' input|now i b' u|i b']; cbn.
  - unfold post_subscription, capacity_left. destruct (countByBusiness b' t <? _) eqn:Hl; [|done]. cbn [negb].
    unfold create. case_if; [done|]. case_if; [done|]. cbn.
    unfold countByBusiness in *. rewrite List.filter_app, length_app. cbn.
    destruct (String.eqb_spec b' b) as [->|]; cbn; lia.
  - destruct (update_cases hm now i b' u t) as [[-> _]|(r & _ & _ & _ & ->)]; [done|]. cbn. by rewrite count_map.
  - unfold countByBusiness in *. enough (length (List.filter (λ r, String.eqb (businessId r) b) (List.filter (λ r, negb (is_row i b' r)) t))
      ≤ length (List.filter (λ r, String.eqb (businessId r) b) t))%nat by lia.
    apply sublist_length, Window.sublist_list_filter. clear. induction t as [|x t IH]; cbn; [constructor|].
    destruct (is_row i b' x); cbn; by constructor.
Qed.

(** ** Pages *)
Definition at_cursor (q : ListQuery) (c : option string) : ListQuery :=
  {| q_businessId := q_businessId q; q_enabled := q_enabled q; q_cursor := c; q_limit := q_limit q |}.

Lemma list_page q c t :
  NoDup (id <$> t) → match c with Some c => c ≠ EmptyString | None => True end →
  list_subscriptions (at_cursor q c) t =
  full_page id (resolve_limit (q_limit q)) (List.filter (beyond after_id c) (select id_order (selected q) t)).
Proof.
  intros Hn Hc. unfold list_subscriptions. cbn [at_cursor q_limit q_cursor].
  assert (given c = c) as -> by by destruct c as [[|? ?]|].
  change (selected (J := J) (at_cursor q c)) with (selected (J := J) q).
  f_equal. apply (select_and id_order before before_trans before_irrefl); [by apply id_order_decides|by apply NoDup_fmap_1 in Hn].
Qed.
End Proofs.

(** ** Properties *)

(** The table keeps its shape: whatever is created, updated and removed, ids
    are unique, no business has two subscriptions of one URL, and versions are
    between 1 and the largest integer of the column. *)
Theorem subscriptions_stay_valid {J} hm (e : J) os : fresh_run hm e os [] = true → valid (run hm e os []).
Proof. intros Hf. apply run_valid; [done|]. split; [apply NoDup_nil_2|apply NoDup_nil_2|constructor]. Qed.

(** C40. A subscription is its history.  After any requests, each with a new id
    where it creates, the row of an id and a business is there exactly when a
    request of that business created it and none of that business removed that
    id since; it then holds the values its creation and its updates last gave
    its secret, its URL, its filters and its other fields, the time of its
    creation and of its last change, and a version one above the number of its
    rotated secrets.  So no request on another id or of another business
    changes or removes it.  Further, a removal succeeds exactly when the row
    is there; an update of it succeeds as long as its version can grow and no
    other subscription of the business has the URL; and a creation succeeds
    when none has it, provided the table has the column for mTLS. *)
Theorem subscription_is_its_history {J} hm (e : J) os i b :
  fresh_run hm e os [] = true →
  let t := run hm e os [] in let l := history i b (taken hm e os []) in
  getById i b t = row_of e i b <$> l ∧
  ((remove i b t).1 = true ↔ is_Some l) ∧
  (∀ now u r, getById i b t = Some r → hm = true ∨ u_mtlsConfig u = None → secretVersion r < INT4_MAX →
     (∀ j r', j ≠ i → getById j b t = Some r' → url r' ≠ default (url r) (u_url u)) →
     takes hm e (Update now i b u) t = true) ∧
  (∀ fresh now input, fresh_id (Create fresh now b input) t = true → hm = true →
     (∀ j r, getById j b t = Some r → url r ≠ i_url input) → takes hm e (Create fresh now b input) t = true).
Proof.
  intros Hf t l. assert (getById i b t = row_of e i b <$> l) as Hg by by apply live_run.
  assert (valid t) as Hv by (apply run_valid; [done|]; split; [apply NoDup_nil_2|apply NoDup_nil_2|constructor]).
  split_and!; [done| | |].
  - by rewrite remove_taken, Hg, fmap_is_Some.
  - intros now u r. by apply update_taken.
  - intros fresh now input _ ->. by apply create_taken.
Qed.

(** The version of a subscription counts the rotations of its secret: as long
    as it is not removed, it grows by one with every successful update that
    carries a secret, and with nothing else. *)
Theorem version_counts_rotations {J} hm (e : J) i b os t r :
  fresh_run hm e os t = true → valid t → getById i b t = Some r → forallb (λ o, negb (removes i b o)) os = true →
  ∃ r', getById i b (run hm e os t) = Some r' ∧ secretVersion r' = secretVersion r + rotations hm e i b os t.
Proof. apply version_run. Qed.

(** Requests that do not overlap never take a business over ten
    subscriptions. *)
Theorem capacity_respected {J} hm (e : J) os b :
  countByBusiness b (fold_left (λ t o, request hm e o t) os []) ≤ MAX_SUBSCRIPTIONS_PER_BUSINESS.
Proof.
  induction os as [|o os IH] using rev_ind; [cbn; unfold MAX_SUBSCRIPTIONS_PER_BUSINESS, countByBusiness; cbn; lia|].
  rewrite fold_left_app. by apply request_capacity.
Qed.

(** The check and the insertion are separate: with one place left, two
    requests that both pass the check before either inserts are both served. *)
Theorem overlapping_posts_exceed_capacity {J} (e : J) f1 f2 now1 now2 b input1 input2 t r1 r2 t1 t2 :
  countByBusiness b t = MAX_SUBSCRIPTIONS_PER_BUSINESS - 1 → capacity_left b t = true ∧
  (create true e f1 now1 b input1 t = (Ok r1, t1) → create true e f2 now2 b input2 t1 = (Ok r2, t2) →
   countByBusiness b t2 = MAX_SUBSCRIPTIONS_PER_BUSINESS + 1).
Proof.
  intros Hc. split; [unfold capacity_left; lia|]. unfold create. cbn [negb].
  destruct (url_taken f1 b _ t); [done|]. intros [= <- <-]. destruct (url_taken f2 b _ _); [done|]. intros [= <- <-].
  unfold countByBusiness in *. rewrite !List.filter_app, !length_app. cbn. rewrite String.eqb_refl. cbn.
  unfold MAX_SUBSCRIPTIONS_PER_BUSINESS in *. lia.
Qed.

(** Following the cursors of the list from its first page enumerates the
    selected subscriptions, each once, in the order of their ids, whatever the
    page size. *)
Theorem subscription_pages_enumerate {J} (q : ListQuery) (t : list (WebhookSubscription J)) :
  NoDup (id <$> t) → Forall (λ r, id r ≠ EmptyString) t → (0 < resolve_limit (q_limit q))%nat →
  let rows := select id_order (selected q) t in
  collect (λ c, list_subscriptions (at_cursor q c) t) (S (length rows)) None = Some rows ∧
  (∀ r, r ∈ rows ↔ r ∈ t ∧ selected q r = true) ∧ StronglySorted before rows.
Proof.
  intros Hn Hne Hl rows. pose proof (id_order_decides t Hn) as Hd. pose proof (NoDup_fmap_1 _ _ Hn) as Hnd.
  assert (StronglySorted before rows) as Hs by by apply select_sorted; [exact before_trans|..].
  split_and!; [|intros r; apply select_in|done].
  rewrite (collect_ext _ (λ c, full_page id (resolve_limit (q_limit q)) (List.filter (beyond after_id c) rows)) (λ c, c ≠ EmptyString)).
  - apply (collect_all before id after_id before_trans before_irrefl (λ _, True)); [done|by apply full_honest| |done].
    by apply Forall_true.
  - intros c Hc. split; [by apply list_page|]. rewrite list_page by done. fold rows. intros c' Hx.
    pose proof (full_honest id _ Hl (List.filter (beyond after_id c) rows)) as Hh. rewrite Hx in Hh.
    destruct Hh as (l & x & l' & He & _ & ->). rewrite Forall_forall in Hne. apply Hne.
    assert (x ∈ List.filter (beyond after_id c) rows) as [Hin _]%filter_in by (rewrite He; apply elem_of_app; right; by left).
    by apply select_in in Hin as [Hin _].
  - done.
Qed.

(** ** A concrete table *)
Definition sample_input (u : string) : CreateInput unit :=
  {| i_url := u; i_secret := "s"; i_eventFilters := None; i_enabled := None; i_maxPayloadSize := None; i_mtlsConfig := None |}.
Definition rotate_secret (u : option string) : UpdateInput unit :=
  {| u_url := u; u_secret := Some "s2"; u_eventFilters := None; u_enabled := None; u_maxPayloadSize := None; u_mtlsConfig := None |}.
Definition sample_ops : list (op unit) :=
  [Create "b" 1 "acme" (sample_input "https://x"); Create "a" 2 "acme" (sample_input "https://y");
   Update 3 "a" "acme" (rotate_secret None); Update 4 "a" "acme" (rotate_secret (Some "https://x"))].

Lemma subscriptions_stay_valid_witness :
  map (λ r, (id r, url r, secretVersion r)) (run true tt sample_ops []) = [("b", "https://x", 1); ("a", "https://y", 2)] ∧
  valid (run true tt sample_ops []).
Proof. split; [reflexivity|]. exact (subscriptions_stay_valid true tt sample_ops eq_refl). Defined.

(** Both rotations, one of them with a URL that is taken, and a removal by
    another business, which is refused. *)
Lemma subscription_is_its_history_witness :
  let os := sample_ops ++ [Remove "a" "other"; Remove "b" "acme"] in
  (λ r, (secret r, secretVersion r, url r, createdAt r, updatedAt r)) <$> getById "a" "acme" (run true tt os []) =
    Some ("s2", 2, "https://y", 2, 3) ∧
  getById "b" "acme" (run true tt os []) = None ∧
  getById "a" "acme" (run true tt os []) =
    row_of tt "a" "acme" <$> Some (2, sample_input "https://y", [(3, rotate_secret None)]).
Proof.
  intros os. split_and!; [reflexivity..|]. exact (proj1 (subscription_is_its_history true tt os "a" "acme" eq_refl)).
Defined.

Lemma version_counts_rotations_witness :
  let t := run true tt (take 2 sample_ops) [] in
  ∃ r', getById "a" "acme" (run true tt (drop 2 sample_ops) t) = Some r' ∧ secretVersion r' = 1 + 1.
Proof.
  intros t. refine (version_counts_rotations true tt "a" "acme" (drop 2 sample_ops) t _ eq_refl _ eq_refl eq_refl).
  exact (run_valid true tt (take 2 sample_ops) [] eq_refl ltac:(split; [apply NoDup_nil_2|apply NoDup_nil_2|constructor])).
Defined.

Lemma subscription_pages_enumerate_witness :
  map id <$> collect (λ c, list_subscriptions
    (at_cursor {| q_businessId := Some "acme"; q_enabled := None; q_cursor := None; q_limit := Some 1 |} c) (run true tt sample_ops [])) 3 None =
  Some ["a"; "b"].
Proof.
  exact (f_equal (λ o : option (list (WebhookSubscription unit)), map id <$> o) (proj1 (subscription_pages_enumerate
    {| q_businessId := Some "acme"; q_enabled := None; q_cursor := None; q_limit := Some 1 |} (run true tt sample_ops [])
    ltac:(apply (bool_decide_unpack _); vm_compute; exact I) ltac:(vm_compute; repeat constructor; done)
    ltac:(vm_compute; apply le_n)))).
Defined.

(** Nine subscriptions of one business. *)
Definition nine : list (WebhookSubscription unit) :=
  mjoin (map (λ n, (create true tt (show_Z n) 0 "acme" (sample_input (show_Z n)) []).2) (seqZ 0 9)).

Lemma overlapping_posts_exceed_capacity_witness :
  ∃ r1 r2 t1 t2, create true tt "x" 0 "acme" (sample_input "u") nine = (Ok r1, t1) ∧
    create true tt "y" 0 "acme" (sample_input "v") t1 = (Ok r2, t2) ∧ countByBusiness "acme" t2 = 10 + 1.
Proof.
  do 4 eexists. split; [reflexivity|]. split; [reflexivity|].
  exact (proj2 (overlapping_posts_exceed_capacity tt "x" "y" 0 0 "acme" (sample_input "u") (sample_input "v") nine _ _ _ _ eq_refl)
           eq_refl eq_refl).
Defined.
