(* ===== verification/Businesses.v ===== *)
(** * Businesses: [src/repositories/business.ts] and the cursors of
    [src/utils/pagination.ts].

    The module keeps businesses in a [Map], and lists the table of the same
    name in PostgreSQL.  Timestamps of the table are microseconds; the driver
    hands them out as dates, in milliseconds.  Base64, JSON and the text form
    of timestamps are parameters, as is the collation of names. *)

From Stdlib Require Import Sorting.Sorted.
From S2P Require Import Prelude Collections Keyset AuditChain WebhookSubscriptions.
#[local] Open Scope Z_scope.

(** ** The map *)

Inductive ReportingPeriod := weekly | monthly.

Record Business := {
  id : string; userId : string; name : string; email : string; industry : option string; description : option string;
  website : option string; reportingPeriod : ReportingPeriod; reportingTimezone : string;
  lastReminderSentAt : option string; createdAt : Z; updatedAt : Z
}.

Abbreviation businesses := (list (string * Business)).

Record CreateBusinessData := {
  c_userId : string; c_name : string; c_email : string; c_industry : option string; c_description : option string;
  c_website : option string; c_reportingPeriod : option ReportingPeriod; c_reportingTimezone : option string
}.

Definition create (fresh : string) (now : Z) (d : CreateBusinessData) (m : businesses) : Business * businesses :=
  let b := {| id := fresh; userId := c_userId d; name := c_name d; email := c_email d; industry := c_industry d;
              description := c_description d; website := c_website d;
              reportingPeriod := default monthly (c_reportingPeriod d);
              reportingTimezone := default "UTC" (c_reportingTimezone d); lastReminderSentAt := None;
              createdAt := now; updatedAt := now |} in
  (b, map_set fresh b m).

Definition getById (i : string) (m : businesses) : option Business := map_get i m.

(** An [Error] in the result carries the missing id. *)
Definition getByIds (ids : list string) (m : businesses) : list (result string Business) :=
  map (λ i, match map_get i m with Some b => Ok b | None => Err i end) ids.

Definition getByUserId (u : string) (m : businesses) : option Business :=
  List.find (λ b, String.eqb (userId b) u) (map snd m).

Definition getAll (m : businesses) : list Business := map snd m.

(** The fields [update] looks at; [None] is [undefined]. *)
Record UpdateBusinessData := {
  u_name : option string; u_industry : option (option string); u_description : option (option string);
  u_website : option (option string); u_email : option string; u_reportingPeriod : option ReportingPeriod;
  u_reportingTimezone : option string
}.

Definition update (now : Z) (i : string) (d : UpdateBusinessData) (m : businesses) : option Business * businesses :=
  match map_get i m with
  | None => (None, m)
  | Some b =>
      let b := {| id := id b; userId := userId b; name := default (name b) (u_name d); email := email b;
                  industry := default (industry b) (u_industry d); description := default (description b) (u_description d);
                  website := default (website b) (u_website d); reportingPeriod := reportingPeriod b;
                  reportingTimezone := reportingTimezone b; lastReminderSentAt := lastReminderSentAt b;
                  createdAt := createdAt b; updatedAt := now |} in
      (Some b, map_set i b m)
  end.

Definition setLastReminderSentAt (now : Z) (i sentAt : string) (m : businesses) : bool * businesses :=
  match map_get i m with
  | None => (false, m)
  | Some b =>
      (true, map_set i {| id := id b; userId := userId b; name := name b; email := email b; industry := industry b;
                          description := description b; website := website b; reportingPeriod := reportingPeriod b;
                          reportingTimezone := reportingTimezone b; lastReminderSentAt := Some sentAt;
                          createdAt := createdAt b; updatedAt := now |} m)
  end.

Definition clearAll (m : businesses) : businesses := [].

(** Businesses are stored under their ids. *)
Definition well_keyed (m : businesses) : Prop := NoDup m.*1 ∧ Forall (λ kb, id kb.2 = kb.1) m.

(** ** The table *)

(** The columns the listing uses. *)
Record BusinessRow := { r_id : string; r_name : string; r_industry : option string; r_created_at : Z }.

Inductive sort_by := ByCreatedAt | ByName.
Inductive sort_order := Asc | Desc.

Record BusinessListOptions := {
  o_limit : nat; o_cursor : option string; o_sortBy : sort_by; o_sortOrder : sort_order; o_industry : option string
}.

(** [encodeCursor] and [decodeCursor]: a payload [{ value, id }] as base64 of
    its JSON text. *)
Class CursorCodec := {
  encodeCursor : string * string → string;
  decodeCursor : string → option (string * string);
  decode_encode p : decodeCursor (encodeCursor p) = Some p;
  encode_nonempty p : encodeCursor p ≠ EmptyString
}.

(** [toISOString] of a time in milliseconds, and what PostgreSQL reads a text
    as, in microseconds. *)
Class TimestampText := {
  iso : Z → string;
  read_timestamp : string → option Z;
  read_iso ms : read_timestamp (iso ms) = Some (1000 * ms)
}.

(** The collation of the column [name]: a total order on the texts. *)
Class Collation := {
  name_cmp : string → string → Z;
  name_cmp_zero a b : name_cmp a b = 0 ↔ a = b;
  name_cmp_flip a b : name_cmp b a = - name_cmp a b;
  name_cmp_trans a b c : name_cmp a b < 0 → name_cmp b c < 0 → name_cmp a c < 0
}.

Section Listing.
Context {codec : CursorCodec} {texts : TimestampText} {collation : Collation}.

(** A sort key with its tie breaker. *)
Inductive sort_key := KTime (us : Z) | KName (s : string).

Definition key_of (s : sort_by) (r : BusinessRow) : sort_key :=
  match s with ByCreatedAt => KTime (r_created_at r) | ByName => KName (r_name r) end.

Definition column_cmp (a b : sort_key) : Z :=
  match a, b with KTime x, KTime y => x - y | KName x, KName y => name_cmp x y | _, _ => 0 end.

Definition id_cmp (i j : string) : Z := if String.eqb i j then 0 else if str_lt i j then -1 else 1.

(** The row value comparison [(column, id)]. *)
Definition key_cmp (a b : sort_key * string) : Z :=
  if negb (column_cmp a.1 b.1 =? 0) then column_cmp a.1 b.1 else id_cmp a.2 b.2.

Definition directed (o : sort_order) (c : Z) : Z := match o with Asc => c | Desc => - c end.

(** [ORDER BY column, id]. *)
Definition row_order (o : sort_order) (s : sort_by) (a b : BusinessRow) : Z :=
  directed o (key_cmp (key_of s a, r_id a) (key_of s b, r_id b)).

(** [(column, id) > cursor], [<] when descending. *)
Definition beyond_key (o : sort_order) (s : sort_by) (c : sort_key * string) (r : BusinessRow) : bool :=
  0 <? directed o (key_cmp (key_of s r, r_id r) c).

(** The cursor of a row: its date in milliseconds, or its name. *)
Definition cursor_value (s : sort_by) (r : BusinessRow) : string :=
  match s with ByCreatedAt => iso (r_created_at r / 1000) | ByName => r_name r end.

Definition row_cursor (s : sort_by) (r : BusinessRow) : string := encodeCursor (cursor_value s r, r_id r).

(** What the database makes of the value; [None] is an error. *)
Definition read_key (s : sort_by) (v : string) : option sort_key :=
  match s with ByCreatedAt => KTime <$> read_timestamp v | ByName => Some (KName v) end.

Definition of_industry (i : option string) (r : BusinessRow) : bool :=
  match i with None => true | Some i => match r_industry r with Some j => String.eqb j i | None => false end end.

Inductive list_error := InvalidTimestamp.

(** The first page, or the page after a cursor that decodes; another cursor is
    ignored. *)
Definition list_businesses (q : BusinessListOptions) (t : list BusinessRow)
  : result list_error (page (R := BusinessRow) (C := string)) :=
  let s := o_sortBy q in
  let fetch sel := Ok (peek_page (row_cursor s) (o_limit q) (select (row_order (o_sortOrder q) s) sel t)) in
  match o_cursor q with
  | None | Some EmptyString => fetch (of_industry (o_industry q))
  | Some c =>
      match decodeCursor c with
      | None => fetch (of_industry (o_industry q))
      | Some (v, i) =>
          match read_key s v with
          | None => Err InvalidTimestamp
          | Some k => fetch (λ r, of_industry (o_industry q) r && beyond_key (o_sortOrder q) s (k, i) r)
          end
      end
  end.

(** ** Order *)
Definition comes_before (o : sort_order) (s : sort_by) (a b : BusinessRow) : Prop := row_order o s a b < 0.

Lemma id_cmp_flip i j : id_cmp j i = - id_cmp i j.
Proof.
  unfold id_cmp. rewrite (String.eqb_sym j i). destruct (String.eqb_spec i j) as [|Hne]; [done|].
  destruct (str_lt i j) eqn:Hl; [|by rewrite (str_lt_total i j Hne Hl)].
  destruct (str_lt j i) eqn:Hl'; [|done]. pose proof (str_lt_trans _ _ _ Hl Hl') as Hx. by rewrite str_lt_irrefl in Hx.
Qed.

Lemma id_cmp_neg i j : id_cmp i j < 0 ↔ str_lt i j = true.
Proof.
  unfold id_cmp. destruct (String.eqb_spec i j) as [->|]; [by rewrite str_lt_irrefl|]. by destruct (str_lt i j).
Qed.

Lemma id_cmp_zero i j : id_cmp i j = 0 ↔ i = j.
Proof. unfold id_cmp. destruct (String.eqb_spec i j) as [->|]; [done|]. by destruct (str_lt i j). Qed.

Lemma column_cmp_flip a b : column_cmp b a = - column_cmp a b.
Proof. destruct a, b; cbn; try done; [lia|apply name_cmp_flip]. Qed.

Lemma key_cmp_flip a b : key_cmp b a = - key_cmp a b.
Proof.
  unfold key_cmp. rewrite (column_cmp_flip a.1 b.1), id_cmp_flip.
  destruct (Z.eqb_spec (column_cmp a.1 b.1) 0) as [->|]; [done|]. destruct (Z.eqb_spec (- column_cmp a.1 b.1) 0); [lia|done].
Qed.

(** The keys of one column. *)
Definition in_column (s : sort_by) (k : sort_key) : Prop :=
  match s, k with ByCreatedAt, KTime _ | ByName, KName _ => True | _, _ => False end.

Lemma key_of_column s r : in_column s (key_of s r).
Proof. by destruct s. Qed.

Lemma column_cmp_zero s a b : in_column s a → in_column s b → column_cmp a b = 0 → a = b.
Proof. destruct s, a, b; cbn; try done; intros _ _ Hz; f_equal; [lia|by apply name_cmp_zero]. Qed.

Lemma column_cmp_trans s a b c : in_column s a → in_column s b → in_column s c →
  column_cmp a b < 0 → column_cmp b c < 0 → column_cmp a c < 0.
Proof. destruct s, a, b, c; cbn; try done; intros _ _ _; [lia|apply name_cmp_trans]. Qed.

Lemma key_cmp_neg a b : key_cmp a b < 0 ↔ column_cmp a.1 b.1 < 0 ∨ column_cmp a.1 b.1 = 0 ∧ id_cmp a.2 b.2 < 0.
Proof. unfold key_cmp. destruct (Z.eqb_spec (column_cmp a.1 b.1) 0) as [->|]; cbn; lia. Qed.

Lemma key_cmp_trans s a b c : in_column s a.1 → in_column s b.1 → in_column s c.1 →
  key_cmp a b < 0 → key_cmp b c < 0 → key_cmp a c < 0.
Proof.
  intros Ha Hb Hc. rewrite !key_cmp_neg. intros [H1|[H1 H1']] [H2|[H2 H2']].
  - left. by eapply (column_cmp_trans s a.1 b.1).
  - left. apply (column_cmp_zero s) in H2; [|done..]. by rewrite <- H2.
  - left. apply (column_cmp_zero s) in H1; [|done..]. by rewrite H1.
  - right. split.
    + apply (column_cmp_zero s) in H1; [|done..]. by rewrite H1.
    + apply id_cmp_neg. apply id_cmp_neg in H1', H2'. by apply (str_lt_trans _ b.2).
Qed.

Lemma key_cmp_zero s a b : in_column s a.1 → in_column s b.1 → key_cmp a b = 0 → a = b.
Proof.
  intros Ha Hb. unfold key_cmp. destruct (Z.eqb_spec (column_cmp a.1 b.1) 0) as [Hz|]; [|done]. cbn.
  intros Hi%id_cmp_zero. apply (column_cmp_zero s) in Hz; [|done..]. destruct a, b; cbn in *; by subst.
Qed.

Lemma row_order_flip o s a b : row_order o s b a = - row_order o s a b.
Proof. unfold row_order. rewrite key_cmp_flip. by destruct o. Qed.

Lemma comes_before_irrefl o s a : ¬ comes_before o s a a.
Proof. unfold comes_before. pose proof (row_order_flip o s a a). lia. Qed.

Lemma comes_before_trans o s a b c : comes_before o s a b → comes_before o s b c → comes_before o s a c.
Proof.
  unfold comes_before, row_order. destruct o; cbn; intros H1 H2.
  - by eapply (key_cmp_trans s _ (_, r_id b)); [apply key_of_column..| |].
  - rewrite <- key_cmp_flip in *. by eapply (key_cmp_trans s _ (key_of s b, r_id b)); [apply key_of_column..| |].
Qed.

(** Ids are the table's primary key. *)
Definition distinct_ids (t : list BusinessRow) : Prop := NoDup (map r_id t).

Lemma same_row t a b : distinct_ids t → a ∈ t → b ∈ t → r_id a = r_id b → a = b.
Proof.
  unfold distinct_ids. induction t as [|x t IH]; cbn; [by intros _ Hin%elem_of_nil|].
  intros [Hx Hn]%NoDup_cons. rewrite !elem_of_cons. intros [->|Ha] [->|Hb] He; [done| | |by apply IH].
  - destruct Hx. rewrite He. by apply list_elem_of_fmap_2.
  - destruct Hx. rewrite <- He. by apply list_elem_of_fmap_2.
Qed.

Lemma row_order_decides o s t : distinct_ids t → decides (row_order o s) (comes_before o s) t.
Proof.
  intros Hd. split; intros a b Ha Hb.
  - intros Hle Hne. unfold comes_before. destruct (decide (row_order o s a b = 0)) as [Hz|]; [|lia]. destruct Hne.
    apply (same_row t); [done..|].
    assert (key_cmp (key_of s a, r_id a) (key_of s b, r_id b) = 0) as Hk by (revert Hz; unfold row_order; destruct o; cbn; lia).
    apply (key_cmp_zero s) in Hk; [by inversion Hk|apply key_of_column..].
  - unfold comes_before. rewrite (row_order_flip o s a b). lia.
Qed.

(** ** Pages *)

(** What a cursor is good for: the keys the database reads back from it. *)
Definition whole_key (s : sort_by) (r : BusinessRow) : Prop :=
  match s with ByCreatedAt => (r_created_at r) mod 1000 = 0 | ByName => True end.

Lemma read_cursor_value s r : whole_key s r → read_key s (cursor_value s r) = Some (key_of s r).
Proof.
  destruct s; cbn; [|done]. intros Hm. rewrite read_iso. cbn. do 2 f_equal.
  pose proof (Z.div_mod (r_created_at r) 1000). lia.
Qed.

Definition after_cursor (o : sort_order) (s : sort_by) (c : string) (r : BusinessRow) : bool :=
  match decodeCursor c with
  | Some (v, i) => match read_key s v with Some k => beyond_key o s (k, i) r | None => false end
  | None => false
  end.

Lemma after_cursor_spec o s a b : whole_key s a →
  after_cursor o s (row_cursor s a) b = true ↔ comes_before o s a b.
Proof.
  intros Hw. unfold after_cursor, row_cursor, comes_before. rewrite decode_encode, read_cursor_value by done.
  unfold beyond_key. rewrite Z.ltb_lt, (row_order_flip o s b a). unfold row_order. lia.
Qed.

Definition with_cursor (q : BusinessListOptions) (c : option string) : BusinessListOptions :=
  {| o_limit := o_limit q; o_cursor := c; o_sortBy := o_sortBy q; o_sortOrder := o_sortOrder q; o_industry := o_industry q |}.

(** The rows a listing is about, in its order. *)
Definition wanted (q : BusinessListOptions) (t : list BusinessRow) : list BusinessRow :=
  select (row_order (o_sortOrder q) (o_sortBy q)) (of_industry (o_industry q)) t.

Definition list_page (q : BusinessListOptions) (t : list BusinessRow) (c : option string) :=
  peek_page (row_cursor (o_sortBy q)) (o_limit q)
    (List.filter (beyond (after_cursor (o_sortOrder q) (o_sortBy q)) c) (wanted q t)).

Lemma listed_page q t c :
  distinct_ids t → match c with Some c => ∃ r, whole_key (o_sortBy q) r ∧ c = row_cursor (o_sortBy q) r | None => True end →
  list_businesses (with_cursor q c) t = Ok (list_page q t c).
Proof.
  intros Hd. unfold list_businesses, list_page, with_cursor. cbn [o_cursor o_sortBy o_limit o_sortOrder o_industry].
  destruct c as [c|].
  - intros (r & Hw & ->). unfold row_cursor at 1. destruct (encodeCursor _) eqn:He; [by apply encode_nonempty in He|].
    cbn [beyond]. unfold wanted.
    rewrite <- (select_and _ (comes_before (o_sortOrder q) (o_sortBy q))); [|apply comes_before_trans|apply comes_before_irrefl|by apply row_order_decides|by apply (NoDup_fmap_1 r_id)].
    unfold after_cursor, row_cursor. rewrite decode_encode, read_cursor_value by done.
    do 2 f_equal. unfold select. f_equal. apply List.filter_ext. intros x. cbn [beyond].
    by rewrite decode_encode, read_cursor_value by done.
  - intros _. cbn [beyond]. by rewrite filter_everything.
Qed.

(** The pages a client sees, an error as an empty one. *)
Definition shown_page (q : BusinessListOptions) (t : list BusinessRow) (c : option string) : page (R := BusinessRow) (C := string) :=
  match list_businesses (with_cursor q c) t with Ok p => p | Err _ => {| items := []; next := None |} end.

Lemma wanted_sorted q t : distinct_ids t → StronglySorted (comes_before (o_sortOrder q) (o_sortBy q)) (wanted q t).
Proof.
  intros Hd. apply select_sorted; [apply comes_before_trans|by apply row_order_decides|exact (NoDup_fmap_1 r_id t Hd)].
Qed.

Lemma wanted_in q t r : r ∈ wanted q t → r ∈ t ∧ of_industry (o_industry q) r = true.
Proof. apply select_in. Qed.

Lemma next_of_row q t c c' : (0 < o_limit q)%nat →
  next (list_page q t c) = Some c' → ∃ r, r ∈ wanted q t ∧ c' = row_cursor (o_sortBy q) r.
Proof.
  intros Hl Hx. unfold list_page in Hx. pose proof (peek_honest (row_cursor (o_sortBy q)) (o_limit q) Hl) as Hh.
  specialize (Hh (List.filter (beyond (after_cursor (o_sortOrder q) (o_sortBy q)) c) (wanted q t))). rewrite Hx in Hh.
  destruct Hh as (l & x & l' & He & _ & ->). exists x. split; [|done].
  assert (x ∈ l ++ x :: l') as Hin by (apply elem_of_app; right; by left). rewrite <- He in Hin. by apply filter_in in Hin as [].
Qed.

(** When the sort keys survive the cursor - names always do, creation
    times when they are whole milliseconds - following the cursors from the
    first page lists every business of the industry asked for, each exactly
    once, in the order asked for, without an error. *)
Theorem business_pages_enumerate q t :
  distinct_ids t → Forall (whole_key (o_sortBy q)) t → (0 < o_limit q)%nat →
  collect (shown_page q t) (S (length (wanted q t))) None = Some (wanted q t) ∧
  StronglySorted (comes_before (o_sortOrder q) (o_sortBy q)) (wanted q t) ∧
  ∀ r, r ∈ wanted q t ↔ r ∈ t ∧ of_industry (o_industry q) r = true.
Proof.
  intros Hd Hw Hl. split_and!; [|by apply wanted_sorted|intros r; apply select_in].
  rewrite Forall_forall in Hw.
  rewrite (collect_ext _ (list_page q t) (λ c, ∃ r, whole_key (o_sortBy q) r ∧ c = row_cursor (o_sortBy q) r)); [| |done].
  - apply (collect_all (comes_before (o_sortOrder q) (o_sortBy q)) (row_cursor (o_sortBy q)) _
             (comes_before_trans _ _) (comes_before_irrefl _ _) (whole_key (o_sortBy q))); [|by apply peek_honest| |by apply wanted_sorted].
    + intros x r Hx _. by apply after_cursor_spec.
    + apply Forall_forall. intros r [Hr _]%wanted_in. by apply Hw.
  - intros c Hc. unfold shown_page. rewrite listed_page by done. split; [done|]. intros c' (r & Hr & ->)%next_of_row; [|done].
    exists r. split; [|done]. apply wanted_in in Hr as [Hr _]. by apply Hw.
Qed.

(** *** Cursors in milliseconds *)

(** What a cursor of a creation time selects. *)
Lemma after_time_cursor o x r :
  after_cursor o ByCreatedAt (row_cursor ByCreatedAt x) r = true ↔
  0 < directed o (key_cmp (KTime (r_created_at r), r_id r) (KTime (1000 * (r_created_at x / 1000)), r_id x)).
Proof.
  unfold after_cursor, row_cursor, cursor_value. rewrite decode_encode. cbn [read_key]. rewrite read_iso. cbn.
  unfold beyond_key. by rewrite Z.ltb_lt.
Qed.

Lemma listed_after q t x : distinct_ids t → o_sortBy q = ByCreatedAt →
  list_businesses (with_cursor q (Some (row_cursor ByCreatedAt x))) t = Ok (list_page q t (Some (row_cursor ByCreatedAt x))).
Proof.
  intros Hd Hs. set (x' := {| r_id := r_id x; r_name := r_name x; r_industry := r_industry x;
                              r_created_at := 1000 * (r_created_at x / 1000) |}).
  assert (row_cursor ByCreatedAt x = row_cursor ByCreatedAt x') as ->.
  { unfold row_cursor, cursor_value. cbn. do 3 f_equal. rewrite Z.mul_comm, Z.div_mul by lia. done. }
  apply listed_page; [done|]. exists x'. rewrite Hs. split; [|done]. cbn. rewrite Z.mul_comm. by apply Z.mod_mul.
Qed.

(** A creation time loses its microseconds in the cursor.  Ascending: when
    every business on the first page was created after the millisecond of the
    last one shown began, the page after its cursor is the first page again,
    cursor included, so the client never gets past it. *)
Theorem cursor_repeats_page q t x :
  distinct_ids t → o_sortBy q = ByCreatedAt → o_sortOrder q = Asc →
  next (list_page q t None) = Some (row_cursor ByCreatedAt x) →
  Forall (λ r, 1000 * (r_created_at x / 1000) < r_created_at r) (wanted q t) →
  list_businesses (with_cursor q (Some (row_cursor ByCreatedAt x))) t = list_businesses (with_cursor q None) t.
Proof.
  intros Hd Hs Ho Hx Hf. rewrite listed_after by done. rewrite listed_page by done. f_equal. unfold list_page. f_equal.
  cbn [beyond]. rewrite filter_everything. rewrite Hs, Ho.
  assert (Forall (λ r, after_cursor Asc ByCreatedAt (row_cursor ByCreatedAt x) r = true) (wanted q t)) as Ha.
  { eapply Forall_impl; [done|]. cbn. intros r Hr. apply after_time_cursor. cbn. unfold key_cmp. cbn.
    destruct (Z.eqb_spec (r_created_at r - 1000 * (r_created_at x / 1000)) 0); cbn; lia. }
  by apply filter_all.
Qed.

(** Descending: a business created in the same millisecond as the last one
    shown, but after that millisecond began, is on no page after its cursor. *)
Theorem cursor_skips_business q t x y :
  distinct_ids t → o_sortBy q = ByCreatedAt → o_sortOrder q = Desc →
  1000 * (r_created_at x / 1000) < r_created_at y →
  ∃ p, list_businesses (with_cursor q (Some (row_cursor ByCreatedAt x))) t = Ok p ∧ y ∉ items p.
Proof.
  intros Hd Hs Ho Hy. eexists. split; [by apply listed_after|]. unfold list_page, peek_page. cbn [items].
  set (rows := List.filter _ _). intros Hin.
  assert (y ∈ rows) as [_ Ha]%filter_in.
  { destruct (o_limit q <? length (take (S (o_limit q)) rows))%nat; by repeat apply subseteq_take in Hin. }
  rewrite Ho, Hs in Ha. cbn [beyond] in Ha. apply after_time_cursor in Ha. revert Ha. cbn. unfold key_cmp. cbn.
  destruct (Z.eqb_spec (r_created_at y - 1000 * (r_created_at x / 1000)) 0); cbn; lia.
Qed.
End Listing.

(** ** The map's operations *)
Inductive op :=
  | Create (fresh : string) (now : Z) (d : CreateBusinessData)
  | Update (now : Z) (i : string) (d : UpdateBusinessData)
  | SetReminder (now : Z) (i sentAt : string).

Definition step (m : businesses) (o : op) : businesses :=
  match o with
  | Create i now d => (create i now d m).2
  | Update now i d => (update now i d m).2
  | SetReminder now i s => (setLastReminderSentAt now i s m).2
  end.

(** What never changes of a business: its id, owner, e-mail, reporting period,
    time zone and creation time. *)
Definition fixed_part (b : Business) : string * string * string * ReportingPeriod * string * Z :=
  (id b, userId b, email b, reportingPeriod b, reportingTimezone b, createdAt b).

(** The ids [randomUUID] gives are fresh. *)
Definition fresh_in (m : businesses) (o : op) : Prop :=
  match o with Create i _ _ => map_get i m = None | _ => True end.

Lemma step_fixed m o i b : fresh_in m o → map_get i m = Some b →
  ∃ b', map_get i (step m o) = Some b' ∧ fixed_part b' = fixed_part b.
Proof.
  intros Hf Hb. destruct o as [k now d|now k d|now k s]; cbn in *;
    unfold create, update, setLastReminderSentAt; try destruct (map_get k m) as [b0|] eqn:Hk; cbn; try (by exists b).
  all: rewrite map_get_set; destruct (String.eqb_spec i k) as [->|]; [|by exists b].
  all: try congruence; rewrite Hk in Hb; injection Hb as ->; by eexists.
Qed.

(** Whatever creates, updates and reminders follow, a business stays
    findable by its id, and keeps its id, owner, e-mail, reporting period, time
    zone and creation time - also when an update asks for another e-mail,
    period or time zone. *)
Theorem business_fixed_part ops m i b :
  (∀ k m' o, ops !! k = Some o → m' = foldl step m (take k ops) → fresh_in m' o) → getById i m = Some b →
  ∃ b', getById i (foldl step m ops) = Some b' ∧ fixed_part b' = fixed_part b.
Proof.
  unfold getById. revert m b. induction ops as [|o ops IH]; intros m b Hf Hb; [by exists b|].
  destruct (step_fixed m o i b) as (b1 & Hb1 & E1); [by apply (Hf O)|done|].
  destruct (IH (step m o) b1) as (b2 & Hb2 & E2); [|done|].
  - intros k m' o' Hk Hm. by apply (Hf (S k)).
  - exists b2. split; [done|congruence].
Qed.

(** ** Concrete codecs *)

(** A payload written as the bits of its stdpp encoding. *)
Fixpoint show_bits (p : positive) : string :=
  match p with xH => "." | xO p => String "0" (show_bits p) | xI p => String "1" (show_bits p) end.
Fixpoint read_bits (s : string) : option positive :=
  match s with
  | "." => Some xH
  | String "0" s => xO <$> read_bits s
  | String "1" s => xI <$> read_bits s
  | _ => None
  end.

Lemma read_show_bits p : read_bits (show_bits p) = Some p.
Proof. induction p as [p IH|p IH|]; [| |done]; cbn; rewrite IH; by destruct p. Qed.

#[export] Program Instance bits_codec : CursorCodec :=
  {| encodeCursor p := show_bits (encode p); decodeCursor s := read_bits s ≫= decode |}.
Next Obligation. intros p. cbn. rewrite read_show_bits. cbn. apply countable.decode_encode. Qed.
Next Obligation. intros p. cbn. by destruct (encode p) as [q|q|]. Qed.

#[export] Program Instance bits_time : TimestampText :=
  {| iso t := show_bits (encode t); read_timestamp s := Z.mul 1000 <$> (read_bits s ≫= decode) |}.
Next Obligation. intros t. cbn. by rewrite read_show_bits; cbn; rewrite countable.decode_encode. Qed.

#[export] Program Instance code_collation : Collation := {| name_cmp := id_cmp |}.
Next Obligation. apply id_cmp_zero. Qed.
Next Obligation. apply id_cmp_flip. Qed.
Next Obligation. intros a b c. cbn. rewrite !id_cmp_neg. apply str_lt_trans. Qed.

Definition row (i n : string) (t : Z) : BusinessRow := {| r_id := i; r_name := n; r_industry := Some "food"; r_created_at := t |}.
Definition query (s : sort_by) (o : sort_order) : BusinessListOptions :=
  {| o_limit := 1; o_cursor := None; o_sortBy := s; o_sortOrder := o; o_industry := Some "food" |}.
Definition sample : list BusinessRow := [row "b" "Zest" 3001500; row "a" "Able" 3001200; row "c" "Able" 4000000].

Lemma business_pages_enumerate_witness :
  collect (shown_page (query ByName Asc) sample) 4 None =
  Some [row "a" "Able" 3001200; row "c" "Able" 4000000; row "b" "Zest" 3001500].
Proof.
  refine (proj1 (business_pages_enumerate (query ByName Asc) sample _ _ _)).
  - apply (bool_decide_unpack _). vm_compute. exact I.
  - repeat constructor.
  - cbn. lia.
Defined.

(** The first page of one business, "a", is also the second. *)
Lemma cursor_repeats_page_witness :
  let q := query ByCreatedAt Asc in
  list_businesses (with_cursor q (Some (row_cursor ByCreatedAt (row "a" "Able" 3001200)))) sample =
  list_businesses (with_cursor q None) sample ∧
  (λ p, items p) <$> (match list_businesses (with_cursor q None) sample with Ok p => Some p | Err _ => None end) =
  Some [row "a" "Able" 3001200].
Proof.
  split; [|reflexivity]. apply cursor_repeats_page; [|done|done|reflexivity|].
  - apply (bool_decide_unpack _). vm_compute. exact I.
  - vm_compute. repeat constructor.
Defined.

Lemma cursor_skips_business_witness :
  ∃ p, list_businesses (with_cursor (query ByCreatedAt Desc) (Some (row_cursor ByCreatedAt (row "b" "Zest" 3001500)))) sample = Ok p ∧
    row "a" "Able" 3001200 ∉ items p.
Proof.
  apply cursor_skips_business; [|done|done|done].
  apply (bool_decide_unpack _). vm_compute. exact I.
Defined.

Definition acme : CreateBusinessData :=
  {| c_userId := "u"; c_name := "Acme"; c_email := "a@x"; c_industry := None; c_description := None; c_website := None;
     c_reportingPeriod := None; c_reportingTimezone := None |}.
Definition new_email : UpdateBusinessData :=
  {| u_name := Some "Acme Ltd"; u_industry := None; u_description := None; u_website := None; u_email := Some "b@x";
     u_reportingPeriod := Some weekly; u_reportingTimezone := None |}.

Lemma business_fixed_part_witness :
  ∃ b', getById "1" (foldl step (create "1" 5 acme []).2 [Update 6 "1" new_email; SetReminder 7 "1" "now"]) = Some b' ∧
    fixed_part b' = ("1", "u", "a@x", monthly, "UTC", 5).
Proof.
  apply (business_fixed_part _ _ _ (create "1" 5 acme []).1); [|reflexivity].
  intros [|[|k]] m o; cbn; [intros [= <-]; done..|]. by destruct k.
Defined.
