(* ===== verification/AttestationStream.v ===== *)
(** * The attestation stream: [src/ws/attestationStream.ts].

    The broadcaster and the WebSocket server around it, one step per event the
    process receives.  Sockets are numbers; [clients] is the set [wss.clients]
    of the WebSocket library, which drops a socket when it emits its close
    event.  Verifying tokens and looking up businesses are arguments of the
    events, as is what the socket has buffered. *)

From S2P Require Import Prelude JsString Collections.
#[local] Open Scope Z_scope.

(** ** Configuration

    [parseInt] of the variables; [None] is [NaN], which no comparison holds
    of. *)
Record config := { max_conns : option Z; backpressure : option Z }.

Definition at_least (n : Z) (bound : option Z) : bool := match bound with Some b => b <=? n | None => false end.
Definition exceeds (n : Z) (bound : option Z) : bool := match bound with Some b => b <? n | None => false end.

(** ** State *)

Inductive event_type := submitted | revoked.
Record AttestationEvent := {
  type : event_type; ev_businessId : string; attestationId : string; period : string; txHash : option string; timestamp : string
}.

(** What the handlers keep on a socket. [handlers] tells whether pong, close
    and error handlers are attached; [isAlive] is false while undefined. *)
Record AuthedSocket := { userId : string; businessId : string; isAlive : bool; is_open : bool; handlers : bool }.

Record AttestationBroadcaster := { sockets : list nat; connCounts : gmap string Z }.

Record server := {
  clients : list nat; info : gmap nat AuthedSocket; lookups : gmap nat string; broadcaster : AttestationBroadcaster
}.

Definition init : server :=
  {| clients := []; info := ∅; lookups := ∅; broadcaster := {| sockets := []; connCounts := ∅ |} |}.

Inductive action :=
  | Close (s : nat) (reason : string)
  | Send (s : nat) (e : AttestationEvent)
  | Ping (s : nat)
  | Terminate (s : nat)
  | Uncaught (s : nat).

(** ** The broadcaster *)

Definition is_member (s : nat) (l : list nat) : bool := existsb (Nat.eqb s) l.

(** [buffered] is each socket's [bufferedAmount]. *)
Definition receives (c : config) (inf : gmap nat AuthedSocket) (buffered : nat → Z) (e : AttestationEvent) (s : nat) : bool :=
  match inf !! s with
  | None => false
  | Some k => String.eqb (businessId k) (ev_businessId e) && is_open k && negb (exceeds (buffered s) (backpressure c))
  end.

Definition publish (c : config) (inf : gmap nat AuthedSocket) (buffered : nat → Z) (e : AttestationEvent)
    (b : AttestationBroadcaster) : list action :=
  map (λ s, Send s e) (List.filter (receives c inf buffered e) (sockets b)).

Definition add (c : config) (s : nat) (user : string) (b : AttestationBroadcaster) : bool * AttestationBroadcaster :=
  let count := default 0 (connCounts b !! user) in
  if at_least count (max_conns c) then (false, b)
  else (true, {| sockets := if is_member s (sockets b) then sockets b else sockets b ++ [s];
                 connCounts := <[user := count + 1]> (connCounts b) |}).

Definition remove (s : nat) (user : string) (b : AttestationBroadcaster) : AttestationBroadcaster :=
  if negb (is_member s (sockets b)) then b
  else
    let count := default 1 (connCounts b !! user) in
    {| sockets := List.filter (λ x, negb (Nat.eqb x s)) (sockets b);
       connCounts := if count <=? 1 then delete user (connCounts b) else <[user := count - 1]> (connCounts b) |}.

(** ** Connections *)

(** The token of an upgrade request: the header, else the query parameter. *)
Definition extractToken (authorization token_param : option string) : option string :=
  match authorization ≫= strip_prefix "Bearer " with Some t => Some t | None => token_param end.

(** [!x] of an optional string. *)
Definition absent (s : option string) : bool := match s with None | Some EmptyString => true | _ => false end.

Definition set_info (s : nat) (f : AuthedSocket → AuthedSocket) (sv : server) : server :=
  {| clients := clients sv; info := alter f s (info sv); lookups := lookups sv; broadcaster := broadcaster sv |}.

Definition set_broadcaster (b : AttestationBroadcaster) (sv : server) : server :=
  {| clients := clients sv; info := info sv; lookups := lookups sv; broadcaster := b |}.

(** [close] and [terminate]: the socket is no longer open. *)
Definition shut (k : AuthedSocket) : AuthedSocket :=
  {| userId := userId k; businessId := businessId k; isAlive := isAlive k; is_open := false; handlers := handlers k |}.

Definition with_alive (a : bool) (k : AuthedSocket) : AuthedSocket :=
  {| userId := userId k; businessId := businessId k; isAlive := a; is_open := is_open k; handlers := handlers k |}.

Definition identified (user business : string) (k : AuthedSocket) : AuthedSocket :=
  {| userId := user; businessId := business; isAlive := true; is_open := is_open k; handlers := handlers k |}.

Definition attach (k : AuthedSocket) : AuthedSocket :=
  {| userId := userId k; businessId := businessId k; isAlive := isAlive k; is_open := is_open k; handlers := true |}.

Definition raw_socket : AuthedSocket :=
  {| userId := EmptyString; businessId := EmptyString; isAlive := false; is_open := true; handlers := false |}.

(** A connection, up to the lookup of the business; [verifyToken] gives the
    user of the token's payload. *)
Definition connection (verifyToken : string → option string) (s : nat) (authorization token_param : option string)
    (sv : server) : server * list action :=
  let sv := {| clients := clients sv ++ [s]; info := <[s := raw_socket]> (info sv); lookups := lookups sv;
               broadcaster := broadcaster sv |} in
  let token := extractToken authorization token_param in
  if absent token then (set_info s shut sv, [Close s "Unauthorized"])
  else
    match token ≫= verifyToken with
    | None => (set_info s shut sv, [Close s "Unauthorized"])
    | Some user =>
        ({| clients := clients sv; info := info sv; lookups := <[s := user]> (lookups sv); broadcaster := broadcaster sv |}, [])
    end.

(** After the lookup; a lookup that throws gives [None]. *)
Definition resolved (c : config) (s : nat) (business : option string) (sv : server) : server * list action :=
  match lookups sv !! s with
  | None => (sv, [])
  | Some user =>
      let sv := {| clients := clients sv; info := info sv; lookups := delete s (lookups sv); broadcaster := broadcaster sv |} in
      if absent business then (set_info s shut sv, [Close s "No business associated with this account"])
      else
        let sv := set_info s (identified user (default EmptyString business)) sv in
        let '(added, b) := add c s user (broadcaster sv) in
        if added then (set_info s attach (set_broadcaster b sv), [])
        else (set_info s shut sv, [Close s "Too many connections"])
  end.

(** ** Events of a socket: without handlers, a pong and a close pass unseen,
    and an error is thrown by the emitter. *)

Definition drop_socket (s : nat) (sv : server) : server :=
  match info sv !! s with None => sv | Some k => set_broadcaster (remove s (userId k) (broadcaster sv)) sv end.

Definition has_handlers (s : nat) (sv : server) : bool := match info sv !! s with Some k => handlers k | None => false end.

Definition pong (s : nat) (sv : server) : server := if has_handlers s sv then set_info s (with_alive true) sv else sv.

Definition closed (s : nat) (sv : server) : server :=
  let sv := {| clients := List.filter (λ x, negb (Nat.eqb x s)) (clients sv); info := alter shut s (info sv);
               lookups := lookups sv; broadcaster := broadcaster sv |} in
  if has_handlers s sv then drop_socket s sv else sv.

Definition errored (s : nat) (sv : server) : server * list action :=
  if has_handlers s sv then (drop_socket s sv, []) else (sv, [Uncaught s]).

(** ** The heartbeat *)
Definition beat (s : nat) (sv : server) : server * list action :=
  match info sv !! s with
  | None => (sv, [])
  | Some k =>
      if negb (isAlive k) then (set_info s shut (drop_socket s sv), [Terminate s])
      else (set_info s (with_alive false) sv, [Ping s])
  end.

Fixpoint beats (l : list nat) (sv : server) : server * list action :=
  match l with
  | [] => (sv, [])
  | s :: l => let '(sv, a) := beat s sv in let '(sv, a') := beats l sv in (sv, a ++ a')
  end.

Definition heartbeat (sv : server) : server * list action := beats (clients sv) sv.

(** ** Runs *)
Inductive event :=
  | Connection (s : nat) (authorization token_param : option string)
  | Resolved (s : nat) (business : option string)
  | Pong (s : nat)
  | Closed (s : nat)
  | Errored (s : nat)
  | Heartbeat
  | Publish (buffered : nat → Z) (e : AttestationEvent).

Definition step (c : config) (verifyToken : string → option string) (e : event) (sv : server) : server * list action :=
  match e with
  | Connection s a t => connection verifyToken s a t sv
  | Resolved s b => resolved c s b sv
  | Pong s => (pong s sv, [])
  | Closed s => (closed s sv, [])
  | Errored s => errored s sv
  | Heartbeat => heartbeat sv
  | Publish buffered e => (sv, publish c (info sv) buffered e (broadcaster sv))
  end.

Definition run (c : config) (verifyToken : string → option string) (es : list event) (sv : server) : server :=
  fold_left (λ sv e, (step c verifyToken e sv).1) es sv.

(** ** The invariant *)

Definition owner (sv : server) (s : nat) : option string := userId <$> info sv !! s.

Definition conns_of (u : string) (sv : server) : Z :=
  Z.of_nat (length (List.filter (λ s, bool_decide (owner sv s = Some u)) (sockets (broadcaster sv)))).

(** The socket numbers of new connections are new. *)
Definition fresh (e : event) (sv : server) : bool :=
  match e with Connection s _ _ => bool_decide (info sv !! s = None) | _ => true end.

Fixpoint fresh_run c verifyToken (es : list event) (sv : server) : bool :=
  match es with [] => true | e :: es => fresh e sv && fresh_run c verifyToken es (step c verifyToken e sv).1 end.

Record valid (c : config) (sv : server) : Prop := {
  v_sockets : NoDup (sockets (broadcaster sv));
  v_known : ∀ s, s ∈ sockets (broadcaster sv) → ∃ k, info sv !! s = Some k ∧ handlers k = true ∧ lookups sv !! s = None;
  v_counts : ∀ u, default 0 (connCounts (broadcaster sv) !! u) = conns_of u sv;
  v_positive : ∀ u n, connCounts (broadcaster sv) !! u = Some n → 0 < n;
  v_max : ∀ u m, max_conns c = Some m → conns_of u sv ≤ Z.max 0 m;
  v_clients : NoDup (clients sv) ∧ ∀ s, s ∈ clients sv ∨ is_Some (lookups sv !! s) → is_Some (info sv !! s)
}.

Lemma is_member_spec s l : is_member s l = true ↔ s ∈ l.
Proof.
  unfold is_member. rewrite existsb_exists, list_elem_of_In. split; [by intros (x & Hx & ->%Nat.eqb_eq)|].
  intros Hs. exists s. by rewrite Nat.eqb_refl.
Qed.

(** The counts only depend on the members and their owners. *)
Lemma conns_of_ext u sv sv' :
  sockets (broadcaster sv') = sockets (broadcaster sv) →
  (∀ s, s ∈ sockets (broadcaster sv) → owner sv' s = owner sv s) → conns_of u sv' = conns_of u sv.
Proof.
  intros Hs Ho. unfold conns_of. rewrite Hs. do 2 f_equal. apply filter_ext_in. intros s Hin%list_elem_of_In.
  by rewrite Ho.
Qed.

(** Changing a socket without changing its owner or taking its handlers. *)
Definition harmless (f : AuthedSocket → AuthedSocket) : Prop :=
  ∀ k, userId (f k) = userId k ∧ (handlers k = true → handlers (f k) = true).

Lemma shut_harmless : harmless shut. Proof. by intros k. Qed.
Lemma with_alive_harmless a : harmless (with_alive a). Proof. by intros k. Qed.
Lemma attach_harmless : harmless attach. Proof. by intros k. Qed.

Lemma info_alter s f x (m : gmap nat AuthedSocket) k :
  m !! x = Some k → alter f s m !! x = Some (if Nat.eqb x s then f k else k).
Proof.
  intros Hk. destruct (Nat.eqb_spec x s) as [->|Hne]; [by rewrite lookup_alter_eq, Hk|by rewrite lookup_alter_ne].
Qed.

Lemma set_info_valid c s f sv : harmless f → valid c sv → valid c (set_info s f sv).
Proof.
  intros Hf [Hn Hk Hc Hp Hm [Hcl Hinfo]].
  assert (He : ∀ u, conns_of u (set_info s f sv) = conns_of u sv).
  { intros u. apply conns_of_ext; [done|]. intros x (k & Hx & _)%Hk. unfold owner. cbn.
    rewrite (info_alter s f x _ k Hx), Hx. cbn. destruct (Nat.eqb x s); [by rewrite (proj1 (Hf k))|done]. }
  split; cbn; try done.
  - intros x Hx. destruct (Hk x Hx) as (k & Hi & Hh & Hl). exists (if Nat.eqb x s then f k else k).
    split_and!; [by apply info_alter| |done]. destruct (Nat.eqb x s); [by apply (Hf k)|done].
  - intros u. by rewrite He.
  - intros u m Hmax. rewrite He. by apply Hm.
  - split; [done|]. intros x Hx. destruct (Hinfo x Hx) as [k Hi]. eexists. by apply info_alter.
Qed.

Lemma filter_without s l : NoDup l → s ∈ l →
  ∀ (p : nat → bool), length (List.filter p l) = (length (List.filter p (List.filter (λ x, negb (Nat.eqb x s)) l)) + if p s then 1 else 0)%nat.
Proof.
  induction 1 as [|x l Hx Hn IH]; [by intros ?%not_elem_of_nil|]. intros Hs p. cbn. apply elem_of_cons in Hs as [<-|Hs].
  - rewrite Nat.eqb_refl. cbn.
    assert (List.filter (λ x, negb (Nat.eqb x s)) l = l) as ->.
    { clear IH Hn. induction l as [|y l IH]; [done|]. apply not_elem_of_cons in Hx as [Hne Hx]. cbn.
      destruct (Nat.eqb_spec y s) as [->|]; [done|]. cbn. by rewrite IH. }
    destruct (p s); cbn; lia.
  - destruct (Nat.eqb_spec x s) as [->|]; [done|]. cbn. specialize (IH Hs p).
    destruct (p x); cbn; rewrite IH; lia.
Qed.

Lemma in_without s l x : x ∈ List.filter (λ x, negb (Nat.eqb x s)) l ↔ x ∈ l ∧ x ≠ s.
Proof.
  rewrite !list_elem_of_In, filter_In. destruct (Nat.eqb_spec x s); cbn; intuition congruence.
Qed.

Lemma nodup_without s l : NoDup l → NoDup (List.filter (λ x, negb (Nat.eqb x s)) l).
Proof.
  induction 1 as [|x l Hx Hn IH]; [constructor|]. cbn. destruct (negb (Nat.eqb x s)); [|done]. constructor; [|done].
  by intros [Hin _]%in_without.
Qed.

(** Members leave with their own count. *)
Lemma drop_valid c s sv : valid c sv → valid c (drop_socket s sv).
Proof.
  intros Hv. pose proof Hv as [Hn Hk Hc Hp Hm Hcl]. unfold drop_socket. destruct (info sv !! s) as [k|] eqn:Hi; [|done].
  unfold remove. destruct (is_member s (sockets (broadcaster sv))) eqn:Hs; cbn [negb]; [|by destruct sv, broadcaster0].
  apply is_member_spec in Hs. set (u := userId k). set (sv' := set_broadcaster _ sv).
  assert (Hcount : ∀ v, conns_of v sv = conns_of v sv' + if decide (v = u) then 1 else 0).
  { intros v. unfold conns_of. cbn. change (owner sv') with (owner sv).
    rewrite (filter_without s (sockets (broadcaster sv)) Hn Hs).
    assert (owner sv s = Some u) as -> by by (unfold owner; rewrite Hi).
    destruct (decide (v = u)) as [->|Hne]; [rewrite bool_decide_true by done; lia|].
    rewrite bool_decide_false by congruence. lia. }
  assert (Hu : default 1 (connCounts (broadcaster sv) !! u) = conns_of u sv).
  { rewrite <- Hc. destruct (connCounts (broadcaster sv) !! u) eqn:E; [done|]. cbn. exfalso.
    specialize (Hc u). rewrite E in Hc. cbn in Hc. specialize (Hcount u). rewrite decide_True in Hcount by done.
    unfold conns_of at 2 in Hcount. lia. }
  split; cbn.
  - by apply nodup_without.
  - intros x [Hx _]%in_without. by apply Hk.
  - intros v. specialize (Hcount v). destruct (decide (v = u)) as [->|Hne].
    + destruct (Z.leb_spec (default 1 (connCounts (broadcaster sv) !! u)) 1).
      * rewrite lookup_delete_eq. cbn. unfold conns_of in *. lia.
      * rewrite lookup_insert_eq. cbn. lia.
    + rewrite <- (Z.add_0_r (conns_of v sv')), <- Hcount, <- Hc.
      destruct (_ <=? _); [by rewrite lookup_delete_ne|by rewrite lookup_insert_ne].
  - intros v n Hl. destruct (decide (v = u)) as [->|Hne].
    + destruct (Z.leb_spec (default 1 (connCounts (broadcaster sv) !! u)) 1); [by rewrite lookup_delete_eq in Hl|].
      rewrite lookup_insert_eq in Hl. injection Hl as <-. lia.
    + apply (Hp v). destruct (_ <=? _); [by rewrite lookup_delete_ne in Hl|by rewrite lookup_insert_ne in Hl].
  - intros v m Hmax. specialize (Hcount v). specialize (Hm v m Hmax). case_decide; lia.
  - done.
Qed.

Lemma add_valid c s u sv sv' k :
  valid c sv → info sv !! s = Some k → lookups sv !! s = None → s ∉ sockets (broadcaster sv) →
  userId k = u → (add c s u (broadcaster sv)).1 = true →
  sv' = set_info s attach (set_broadcaster (add c s u (broadcaster sv)).2 sv) → valid c sv'.
Proof.
  intros Hv Hi Hl Hs Hu Hadd ->. pose proof Hv as [Hn Hk Hc Hp Hm Hcl]. unfold add in *.
  destruct (at_least _ _) eqn:Hmax; [done|]. cbn [snd].
  destruct (is_member s _) eqn:Hmem; [by apply is_member_spec in Hmem|]. clear Hmem Hadd.
  match goal with |- valid _ ?x => set (sv1 := x) end.
  assert (Hown : ∀ x, owner sv1 x = owner sv x).
  { intros x. unfold owner. cbn. destruct (decide (x = s)) as [->|]; [by rewrite lookup_alter_eq, Hi|by rewrite lookup_alter_ne]. }
  assert (Hcount : ∀ v, conns_of v sv1 = conns_of v sv + if decide (v = u) then 1 else 0).
  { intros v. unfold conns_of. cbn. rewrite List.filter_app, length_app. cbn.
    rewrite (List.filter_ext _ (λ x, bool_decide (owner sv x = Some v))) by (intros x; by rewrite Hown).
    rewrite Hown. assert (owner sv s = Some u) as -> by (unfold owner; rewrite Hi; cbn; by rewrite Hu).
    destruct (decide (v = u)) as [->|Hne]; [rewrite bool_decide_true by done; cbn; lia|].
    rewrite bool_decide_false by congruence. cbn. lia. }
  split; cbn.
  - apply NoDup_app. split_and!; [done| |apply NoDup_singleton]. by intros x Hx ->%list_elem_of_singleton.
  - intros x [Hx| ->%list_elem_of_singleton]%elem_of_app.
    + destruct (Hk x Hx) as (kx & Hix & Hh & Hlx). exists (if Nat.eqb x s then attach kx else kx).
      split_and!; [by apply info_alter|by destruct (Nat.eqb x s)|done].
    + exists (attach k). split_and!; [by rewrite lookup_alter_eq, Hi|done|done].
  - intros v. rewrite Hcount, <- Hc. destruct (decide (v = u)) as [->|]; [by rewrite lookup_insert_eq|].
    rewrite lookup_insert_ne by done. lia.
  - intros v n. destruct (decide (v = u)) as [->|]; [|rewrite lookup_insert_ne by done; apply Hp].
    rewrite lookup_insert_eq, Hc. intros [= <-]. unfold conns_of. lia.
  - intros v m Hmx. rewrite Hcount. destruct (decide (v = u)) as [->|]; [|specialize (Hm v m Hmx); lia].
    rewrite Hc, Hmx in Hmax. cbn in Hmax. lia.
  - destruct Hcl as [Hcl Hinfo]. split; [done|]. intros x Hx. destruct (Hinfo x Hx) as [kx Hix].
    eexists. by apply info_alter.
Qed.

Lemma resolved_valid c s b sv : valid c sv → valid c (resolved c s b sv).1.
Proof.
  intros Hv. unfold resolved. destruct (lookups sv !! s) as [user|] eqn:Hl; [|done].
  set (sv0 := {| clients := _; info := _; lookups := delete s _; broadcaster := _ |}).
  assert (s ∉ sockets (broadcaster sv)) as Hs by (intros (k & _ & _ & ?)%(v_known c sv Hv); congruence).
  destruct (proj2 (v_clients c sv Hv) s) as [k Hk]; [right; by rewrite Hl|].
  assert (Hv0 : valid c sv0).
  { destruct Hv as [Hn Hkn Hc Hp Hm [Hcl Hi]]. split; [done| |done..|].
    - intros x Hx. destruct (Hkn x Hx) as (kx & ? & ? & ?). exists kx. split_and!; [done..|]. cbn.
      by rewrite lookup_delete_ne by congruence.
    - cbn. split; [done|]. intros x [Hx|Hx]; apply Hi; [by left|right]. apply lookup_delete_is_Some in Hx. by apply Hx. }
  destruct (absent b); [by apply set_info_valid; [apply shut_harmless|]|].
  set (business := default EmptyString b). set (sv1 := set_info s (identified user business) sv0).
  assert (Hv1 : valid c sv1).
  { assert (Hne : ∀ x, x ∈ sockets (broadcaster sv0) → info sv1 !! x = info sv0 !! x).
    { intros x Hx. cbn. rewrite lookup_alter_ne; [done|]. intros ->. by apply Hs. }
    assert (He : ∀ u, conns_of u sv1 = conns_of u sv0).
    { intros u. apply conns_of_ext; [done|]. intros x Hx. unfold owner. by rewrite Hne. }
    destruct Hv0 as [Hn Hkn Hc Hp Hm [Hcl Hi]]. split; cbn [broadcaster sv1 set_info lookups clients]; try done.
    - intros x Hx. rewrite Hne by done. by apply Hkn.
    - intros u. by rewrite He.
    - intros u m Hmx. rewrite He. by apply Hm.
    - split; [done|]. intros x Hx. destruct (Hi x Hx) as [kx Hx']. eexists. by apply info_alter. }
  destruct (add c s user (broadcaster sv1)) as [added b'] eqn:Hadd. destruct added; cbn [fst].
  - eapply (add_valid c s user sv1 _ (identified user business k)); [done|..|by rewrite Hadd|by rewrite Hadd].
    + cbn. by rewrite lookup_alter_eq, Hk.
    + cbn. apply lookup_delete_eq.
    + done.
    + done.
  - by apply set_info_valid; [apply shut_harmless|].
Qed.

Lemma connection_valid c vt s a t sv : info sv !! s = None → valid c sv → valid c (connection vt s a t sv).1.
Proof.
  intros Hs [Hn Hk Hc Hp Hm [Hcl Hi]]. unfold connection.
  set (sv0 := {| clients := _; info := _; lookups := _; broadcaster := _ |}).
  assert (Hns : s ∉ sockets (broadcaster sv)) by (intros (k & ? & _)%Hk; congruence).
  assert (Hls : lookups sv !! s = None).
  { destruct (lookups sv !! s) eqn:E; [|done]. destruct (Hi s) as [k ?]; [right; by rewrite E|congruence]. }
  assert (He : ∀ u, conns_of u sv0 = conns_of u sv).
  { intros u. apply conns_of_ext; [done|]. intros x Hx. unfold owner. cbn. rewrite lookup_insert_ne; [done|]. intros ->. done. }
  assert (Hv0 : valid c sv0).
  { split; cbn; try done.
    - intros x Hx. rewrite lookup_insert_ne by (intros ->; done). by apply Hk.
    - intros u. by rewrite He.
    - intros u m Hmx. rewrite He. by apply Hm.
    - split.
      + apply NoDup_app. split_and!; [done| |apply NoDup_singleton]. intros x Hx ->%list_elem_of_singleton.
        destruct (Hi s) as [k ?]; [by left|congruence].
      + intros x Hx. destruct (decide (x = s)) as [->|]; [by rewrite lookup_insert_eq|]. rewrite lookup_insert_ne by done.
        apply Hi. destruct Hx as [[Hx| ->%list_elem_of_singleton]%elem_of_app|Hx]; [by left|done|by right]. }
  destruct (absent _); [by apply set_info_valid; [apply shut_harmless|]|].
  destruct (_ ≫= vt) as [user|]; [|by apply set_info_valid; [apply shut_harmless|]]. cbn [fst].
  destruct Hv0 as [? Hk0 ? ? ? [Hcl0 Hi0]]. split; [done| |done..|].
  - intros x Hx. destruct (Hk0 x Hx) as (k & ? & ? & ?). exists k. split_and!; [done..|]. cbn.
    by rewrite lookup_insert_ne by (intros ->; done).
  - cbn. split; [done|]. intros x [Hx|Hx]; [apply Hi0; by left|]. destruct (decide (x = s)) as [->|].
    + rewrite lookup_insert_eq. done.
    + rewrite lookup_insert_ne in Hx by done. apply Hi0. by right.
Qed.

Lemma closed_valid c s sv : valid c sv → valid c (closed s sv).
Proof.
  intros Hv. unfold closed. set (sv0 := {| clients := _; info := _; lookups := _; broadcaster := _ |}).
  assert (Hv0 : valid c sv0).
  { destruct (set_info_valid c s shut sv shut_harmless Hv) as [Hn Hk Hc Hp Hm [Hcl Hi]]. split; try done.
    split; [by apply nodup_without|]. intros x Hx. apply Hi. destruct Hx as [[Hx _]%in_without|Hx]; [by left|by right]. }
  destruct (has_handlers s sv0); [by apply drop_valid|done].
Qed.

Lemma beat_valid c s sv : valid c sv → valid c (beat s sv).1.
Proof.
  intros Hv. unfold beat. destruct (info sv !! s) as [k|]; [|done]. destruct (isAlive k); cbn.
  - by apply set_info_valid; [apply with_alive_harmless|].
  - by apply set_info_valid; [apply shut_harmless|apply drop_valid].
Qed.

Lemma beats_fst s l sv : (beats (s :: l) sv).1 = (beats l (beat s sv).1).1.
Proof. cbn. destruct (beat s sv) as [sv1 a]. cbn. by destruct (beats l sv1). Qed.

Lemma beats_valid c l sv : valid c sv → valid c (beats l sv).1.
Proof.
  revert sv. induction l as [|s l IH]; intros sv Hv; [done|]. rewrite beats_fst. by apply IH, beat_valid.
Qed.

Lemma step_valid c vt e sv : fresh e sv = true → valid c sv → valid c (step c vt e sv).1.
Proof.
  intros Hf Hv. destruct e as [s a t|s b|s|s|s| |buffered e]; cbn in *.
  - apply connection_valid; [by apply bool_decide_eq_true in Hf|done].
  - by apply resolved_valid.
  - unfold pong. destruct (has_handlers s sv); [by apply set_info_valid; [apply with_alive_harmless|]|done].
  - by apply closed_valid.
  - unfold errored. destruct (has_handlers s sv); [by apply drop_valid|done].
  - by apply beats_valid.
  - done.
Qed.

Lemma stream_run_valid c vt es sv : fresh_run c vt es sv = true → valid c sv → valid c (run c vt es sv).
Proof.
  revert sv. induction es as [|e es IH]; intros sv; [done|]. cbn [fresh_run]. intros [Hf Hes]%andb_true_iff Hv.
  by apply (IH (step c vt e sv).1); [|apply step_valid].
Qed.

Lemma init_valid c : valid c init.
Proof.
  split; cbn.
  - constructor.
  - by intros s ?%not_elem_of_nil.
  - intros u. by rewrite lookup_empty.
  - intros u n. by rewrite lookup_empty.
  - intros u m _. unfold conns_of. cbn. lia.
  - split; [constructor|]. intros s [?%not_elem_of_nil|[x Hx]]; [done|by rewrite lookup_empty in Hx].
Qed.

(** ** Where members come from *)

(** [s] presented a token of [user], and the lookup gave [business]. *)
Definition admitted (vt : string → option string) (es : list event) (s : nat) (k : AuthedSocket) : Prop :=
  (∃ a t token, Connection s a t ∈ es ∧ extractToken a t = Some token ∧ vt token = Some (userId k)) ∧
  Resolved s (Some (businessId k)) ∈ es ∧ businessId k ≠ EmptyString.

Definition presented (vt : string → option string) (es : list event) (s : nat) (user : string) : Prop :=
  ∃ a t token, Connection s a t ∈ es ∧ extractToken a t = Some token ∧ vt token = Some user.

Definition explained vt es (sv : server) : Prop :=
  (∀ s user, lookups sv !! s = Some user → presented vt es s user) ∧
  (∀ s k, s ∈ sockets (broadcaster sv) → info sv !! s = Some k → admitted vt es s k).

Lemma presented_more vt es e s user : presented vt es s user → presented vt (es ++ [e]) s user.
Proof.
  intros (a & t & token & Hin & He). exists a, t, token. split; [apply elem_of_app; by left|done].
Qed.

Lemma admitted_more vt es e s k : admitted vt es s k → admitted vt (es ++ [e]) s k.
Proof.
  intros [Hp [Hr Hb]]. split; [by apply presented_more|]. split; [apply elem_of_app; by left|done].
Qed.

Lemma explained_more vt es e sv : explained vt es sv → explained vt (es ++ [e]) sv.
Proof.
  intros [Hl Hs]. split; [intros s user Hx; by apply presented_more, Hl|]. intros s k H1 H2. by apply admitted_more, Hs.
Qed.

(** Steps that add no member and keep what is known of the members. *)
Lemma explained_step vt es (sv sv' : server) :
  (∀ s user, lookups sv' !! s = Some user → lookups sv !! s = Some user) →
  (∀ s k', s ∈ sockets (broadcaster sv') → info sv' !! s = Some k' →
     s ∈ sockets (broadcaster sv) ∧ ∃ k, info sv !! s = Some k ∧ userId k = userId k' ∧ businessId k = businessId k') →
  explained vt es sv → explained vt es sv'.
Proof.
  intros Hl Hs [H1 H2]. split; [intros s user Hx; by apply H1, Hl|].
  intros s k' Hin Hi. destruct (Hs s k' Hin Hi) as (Hin0 & k & Hk & Hu & Hb). specialize (H2 s k Hin0 Hk).
  unfold admitted in *. by rewrite <- Hu, <- Hb.
Qed.

Definition labels_kept (f : AuthedSocket → AuthedSocket) : Prop :=
  ∀ k, userId (f k) = userId k ∧ businessId (f k) = businessId k.

Lemma explained_set_info vt es s f sv : labels_kept f → explained vt es sv → explained vt es (set_info s f sv).
Proof.
  intros Hf. apply explained_step; [done|]. cbn. intros x k' Hx Hi. split; [done|].
  destruct (info sv !! x) as [k|] eqn:Hk.
  - rewrite (info_alter s f x _ k Hk) in Hi. injection Hi as <-. exists k. destruct (Nat.eqb x s); [|done].
    destruct (Hf k). by split_and!.
  - destruct (decide (x = s)) as [->|]; [by rewrite lookup_alter_eq, Hk in Hi|by rewrite lookup_alter_ne, Hk in Hi].
Qed.

Lemma explained_drop vt es s sv : explained vt es sv → explained vt es (drop_socket s sv).
Proof.
  unfold drop_socket. destruct (info sv !! s) as [k0|]; [|done]. apply explained_step; [done|].
  cbn. intros x k' Hx Hi. split; [|by exists k']. unfold remove in Hx. destruct (is_member s _); [|done]. cbn in Hx.
  by apply in_without in Hx as [].
Qed.

Lemma shut_labels : labels_kept shut. Proof. by intros k. Qed.
Lemma with_alive_labels a : labels_kept (with_alive a). Proof. by intros k. Qed.
Lemma attach_labels : labels_kept attach. Proof. by intros k. Qed.
Create HintDb stream.
#[local] Hint Resolve explained_set_info explained_drop shut_labels with_alive_labels attach_labels : stream.

Lemma explained_beats vt es l sv : explained vt es sv → explained vt es (beats l sv).1.
Proof.
  revert sv. induction l as [|s l IH]; intros sv He; [done|]. rewrite beats_fst. apply IH. unfold beat.
  destruct (info sv !! s) as [k|]; [|done]. destruct (isAlive k); cbn; auto with stream.
Qed.

Lemma explained_resolved c vt es s b sv : explained vt es sv → explained vt (es ++ [Resolved s b]) (resolved c s b sv).1.
Proof.
  intros He%(explained_more vt es (Resolved s b)). unfold resolved.
  destruct (lookups sv !! s) as [user|] eqn:Hl; [|done].
  set (sv0 := {| clients := _; info := _; lookups := delete s _; broadcaster := _ |}).
  assert (He0 : explained vt (es ++ [Resolved s b]) sv0).
  { revert He. apply explained_step; cbn; [|intros x k Hx Hk; split; [done|by exists k]].
    intros x u Hx. by apply lookup_delete_Some in Hx as []. }
  destruct (absent b) eqn:Hb; [cbn [fst]; by auto with stream|]. destruct b as [b|]; [|done]. cbn [default].
  destruct (add c s user _) as [added b'] eqn:Hadd.
  assert (Hs : ∀ k, info sv !! s = Some k → admitted vt (es ++ [Resolved s (Some b)]) s (identified user b k)).
  { intros k Hk. split; [by apply (proj1 He s user)|]. cbn. split; [apply elem_of_app; right; by left|]. intros ->. done. }
  assert (Hrest : ∀ b0 k x, info (set_info s (identified user b) sv0) !! x = Some k →
            (x ≠ s → x ∈ sockets b0 → x ∈ sockets (broadcaster sv)) → x ∈ sockets b0 → admitted vt (es ++ [Resolved s (Some b)]) x k).
  { intros b0 k x Hi Hin Hx. cbn in Hi. destruct (decide (x = s)) as [->|Hne].
    - rewrite lookup_alter_eq in Hi. destruct (info sv !! s) as [k0|] eqn:Hk0; [|done]. injection Hi as <-. by apply Hs.
    - rewrite lookup_alter_ne in Hi by done. apply (proj2 He); auto. }
  unfold add in Hadd. destruct (at_least _ _); injection Hadd as <- <-; cbn [fst].
  - apply explained_set_info; [apply shut_labels|]. split; [apply He0|]. intros x k Hx Hi.
    by eapply (Hrest (broadcaster sv0)).
  - apply explained_set_info; [apply attach_labels|]. split; [apply He0|]. intros x k Hx Hi.
    eapply (Hrest _ k x Hi); [|exact Hx]. intros Hne. cbn. destruct (is_member s _); [done|].
    intros [?| ->%list_elem_of_singleton]%elem_of_app; done.
Qed.

Lemma explained_connection c vt es s a t sv :
  valid c sv → info sv !! s = None → explained vt es sv →
  explained vt (es ++ [Connection s a t]) (connection vt s a t sv).1.
Proof.
  intros Hv Hs He%(explained_more vt es (Connection s a t)). unfold connection.
  set (sv0 := {| clients := _; info := _; lookups := _; broadcaster := _ |}).
  assert (He0 : explained vt (es ++ [Connection s a t]) sv0).
  { revert He. apply explained_step; [done|]. cbn. intros x k Hx Hk. split; [done|]. exists k.
    rewrite lookup_insert_ne in Hk; [done|]. intros ->. apply (v_known c sv Hv) in Hx as (? & ? & _). congruence. }
  destruct (absent _); [cbn [fst]; by auto with stream|]. destruct (extractToken a t) as [token|] eqn:Ht; [|cbn; by auto with stream].
  cbn [mbind option_bind]. destruct (vt token) as [user|] eqn:Hu; [|cbn; by auto with stream].
  split; [|apply He0]. cbn. intros x u. destruct (decide (x = s)) as [->|]; [|rewrite lookup_insert_ne by done; apply He0].
  rewrite lookup_insert_eq. intros [= <-]. exists a, t, token. split; [apply elem_of_app; right; by left|done].
Qed.

Lemma stream_run_snoc c vt es e sv : run c vt (es ++ [e]) sv = (step c vt e (run c vt es sv)).1.
Proof. unfold run. by rewrite fold_left_app. Qed.

Lemma stream_fresh_app c vt es es' sv :
  fresh_run c vt (es ++ es') sv = fresh_run c vt es sv && fresh_run c vt es' (run c vt es sv).
Proof.
  revert sv. induction es as [|e es IH]; intros sv; [done|]. cbn [fresh_run app]. by rewrite IH, andb_assoc.
Qed.

Lemma run_explained c vt es : fresh_run c vt es init = true → explained vt es (run c vt es init).
Proof.
  induction es as [|e es IH] using rev_ind.
  - intros _. split; cbn; [intros s user Hl; by rewrite lookup_empty in Hl|by intros s k ?%not_elem_of_nil].
  - rewrite stream_fresh_app. cbn [fresh_run]. rewrite andb_true_r. intros [Hes Hf]%andb_true_iff. rewrite stream_run_snoc.
    pose proof (stream_run_valid c vt es init Hes (init_valid c)) as Hv. specialize (IH Hes).
    destruct e as [s a t|s b|s|s|s| |buffered e]; cbn [step fst].
    + apply (explained_connection c); [done|by apply bool_decide_eq_true in Hf|done].
    + by apply explained_resolved.
    + apply explained_more. unfold pong. destruct (has_handlers _ _); auto with stream.
    + apply explained_more. unfold closed. set (sv0 := {| clients := _; info := _; lookups := _; broadcaster := _ |}).
      assert (explained vt es sv0) by (apply (explained_set_info vt es s shut) in IH; [done|apply shut_labels]).
      destruct (has_handlers _ _); auto with stream.
    + apply explained_more. unfold errored. destruct (has_handlers _ _); cbn; auto with stream.
    + apply explained_more. by apply explained_beats.
    + by apply explained_more.
Qed.

(** ** Properties *)

(** An event only goes to open sockets of its business that keep up, each
    once: to users whose token was verified and whose business, when it was
    looked up, was the event's.  Of the sockets in the set, all of these get
    it. *)
Theorem stream_isolated c vt es buffered ev s :
  fresh_run c vt es init = true →
  let sv := run c vt es init in
  let sent := (step c vt (Publish buffered ev) sv).2 in
  NoDup sent ∧
  (Send s ev ∈ sent ↔
     ∃ k, s ∈ sockets (broadcaster sv) ∧ info sv !! s = Some k ∧ admitted vt es s k ∧
          businessId k = ev_businessId ev ∧ is_open k = true ∧ exceeds (buffered s) (backpressure c) = false).
Proof.
  intros Hf sv sent. pose proof (stream_run_valid c vt es init Hf (init_valid c)) as Hv. pose proof (run_explained c vt es Hf) as [_ He].
  assert (Hsent : sent = (λ s, Send s ev) <$> List.filter (receives c (info sv) buffered ev) (sockets (broadcaster sv))) by done.
  split.
  - rewrite Hsent. apply NoDup_fmap_2; [by intros x y [= ->]|]. apply NoDup_ListNoDup, List.NoDup_filter, NoDup_ListNoDup, Hv.
  - rewrite Hsent, list_elem_of_fmap. split.
    + intros (x & [= <-] & Hx). apply list_elem_of_In, filter_In in Hx as [Hx%list_elem_of_In Hr].
      unfold receives in Hr. destruct (info sv !! s) as [k|] eqn:Hk; [|done].
      apply andb_true_iff in Hr as [[Hb%String.eqb_eq Ho]%andb_true_iff Hx'%negb_true_iff]. exists k.
      split_and!; [done|done|by apply He|done..].
    + intros (k & Hx & Hk & _ & Hb & Ho & Hbuf). exists s. split; [done|].
      apply list_elem_of_In, filter_In. split; [by apply list_elem_of_In|]. unfold receives.
      by rewrite Hk, Hb, String.eqb_refl, Ho, Hbuf.
Qed.

(** The count of a user is the number of the user's sockets in the set,
    and never more than the limit. *)
Theorem connections_counted c vt es u m :
  fresh_run c vt es init = true → max_conns c = Some m →
  let sv := run c vt es init in
  default 0 (connCounts (broadcaster sv) !! u) = conns_of u sv ∧ conns_of u sv ≤ Z.max 0 m.
Proof.
  intros Hf Hm sv. destruct (stream_run_valid c vt es init Hf (init_valid c)) as [_ _ Hc _ Hmax _]. by split; [apply Hc|apply (Hmax u)].
Qed.

(** *** Pruning *)

Lemma beat_other s s' sv : s ≠ s' → info (beat s' sv).1 !! s = info sv !! s ∧
  (s ∈ sockets (broadcaster (beat s' sv).1) ↔ s ∈ sockets (broadcaster sv)).
Proof.
  intros Hne. unfold beat. destruct (info sv !! s') as [k|] eqn:Hk; [|done]. destruct (isAlive k); cbn.
  - by rewrite lookup_alter_ne.
  - unfold drop_socket. rewrite Hk. cbn. rewrite lookup_alter_ne by done. split; [done|]. unfold remove.
    destruct (is_member s' _); [|done]. cbn. rewrite in_without. tauto.
Qed.

Lemma beats_other s l sv : s ∉ l → info (beats l sv).1 !! s = info sv !! s ∧
  (s ∈ sockets (broadcaster (beats l sv).1) ↔ s ∈ sockets (broadcaster sv)).
Proof.
  revert sv. induction l as [|x l IH]; intros sv; [done|]. intros [Hne Hl]%not_elem_of_cons. rewrite beats_fst.
  destruct (IH (beat x sv).1 Hl) as [-> ->]. by apply beat_other.
Qed.

Lemma beat_clients s sv : clients (beat s sv).1 = clients sv.
Proof.
  unfold beat, drop_socket. destruct (info sv !! s) as [k|]; [|done]. by destruct (isAlive k).
Qed.

Lemma beats_clients l sv : clients (beats l sv).1 = clients sv.
Proof.
  revert sv. induction l as [|x l IH]; intros sv; [done|]. by rewrite beats_fst, IH, beat_clients.
Qed.

(** What a beat does to the socket it is for. *)
Lemma beat_self s sv k : info sv !! s = Some k →
  (∃ k', info (beat s sv).1 !! s = Some k' ∧ isAlive k' = false) ∧
  (isAlive k = false → s ∉ sockets (broadcaster (beat s sv).1)).
Proof.
  intros Hk. unfold beat. rewrite Hk. destruct (isAlive k) eqn:Ha; cbn.
  - rewrite lookup_alter_eq, Hk. split; [by eexists|done].
  - unfold drop_socket. rewrite Hk. cbn. rewrite lookup_alter_eq, Hk. split; [by eexists|]. intros _. unfold remove.
    destruct (is_member s _) eqn:Hm; cbn.
    + by intros [_ ?]%in_without.
    + intros Hin%is_member_spec. congruence.
Qed.

Lemma heartbeat_self c s sv k : valid c sv → s ∈ clients sv → info sv !! s = Some k →
  (∃ k', info (heartbeat sv).1 !! s = Some k' ∧ isAlive k' = false) ∧
  (isAlive k = false → s ∉ sockets (broadcaster (heartbeat sv).1)).
Proof.
  intros Hv Hs Hk. unfold heartbeat. pose proof (proj1 (v_clients c sv Hv)) as Hn. revert Hn Hs Hk. generalize (clients sv) as l.
  intros l Hn. clear Hv. revert sv. induction Hn as [|x l Hx Hn IH]; [by intros sv ?%not_elem_of_nil|]. intros sv Hs Hk.
  rewrite beats_fst. destruct (decide (x = s)) as [->|Hne].
  - destruct (beats_other s l (beat s sv).1 Hx) as [-> ->]. by apply beat_self.
  - apply elem_of_cons in Hs as [?|Hs]; [done|]. apply IH; [done|].
    by rewrite (proj1 (beat_other s x sv ltac:(done))).
Qed.

(** [s] has not been heard of, or has left. *)
Definition unheard (s : nat) (sv : server) : Prop :=
  (s ∉ sockets (broadcaster sv) ∧ s ∉ clients sv) ∨
  (s ∈ clients sv ∧ ∃ k, info sv !! s = Some k ∧ isAlive k = false).

Definition quiet_for (s : nat) (e : event) : Prop :=
  match e with Pong x | Resolved x _ | Connection x _ _ => x ≠ s | _ => True end.

Lemma set_info_info s f sv x : info (set_info s f sv) !! x = (if Nat.eqb x s then f <$> info sv !! x else info sv !! x).
Proof.
  cbn. destruct (Nat.eqb_spec x s) as [->|]; [apply lookup_alter_eq|by apply lookup_alter_ne].
Qed.

(** What another socket's connection leaves alone. *)
Lemma resolved_other c s x b sv : x ≠ s →
  clients (resolved c x b sv).1 = clients sv ∧ info (resolved c x b sv).1 !! s = info sv !! s ∧
  (s ∈ sockets (broadcaster (resolved c x b sv).1) ↔ s ∈ sockets (broadcaster sv)).
Proof.
  intros Hne. unfold resolved. destruct (lookups sv !! x) as [user|]; [|done].
  destruct (absent b); [by cbn; rewrite lookup_alter_ne|]. unfold add. cbn [broadcaster set_info].
  destruct (at_least _ _); cbn; rewrite !lookup_alter_ne by done; [done|]. split_and!; [done..|].
  destruct (is_member x _); [done|]. rewrite elem_of_app, list_elem_of_singleton. intuition congruence.
Qed.

Lemma connection_other vt s x a t sv : x ≠ s →
  (s ∈ clients (connection vt x a t sv).1 ↔ s ∈ clients sv) ∧ info (connection vt x a t sv).1 !! s = info sv !! s ∧
  broadcaster (connection vt x a t sv).1 = broadcaster sv.
Proof.
  intros Hne. unfold connection. destruct (absent _); [|destruct (_ ≫= vt)]; cbn.
  all: rewrite ?lookup_alter_ne, lookup_insert_ne by done; rewrite elem_of_app, list_elem_of_singleton; intuition congruence.
Qed.

Lemma drop_other s x sv : s ≠ x → s ∈ sockets (broadcaster (drop_socket x sv)) ↔ s ∈ sockets (broadcaster sv).
Proof.
  intros Hne. unfold drop_socket. destruct (info sv !! x) as [k|]; [|done]. cbn. unfold remove.
  destruct (is_member x _); [|done]. cbn. rewrite in_without. tauto.
Qed.

Lemma drop_self s sv k : info sv !! s = Some k → s ∉ sockets (broadcaster (drop_socket s sv)).
Proof.
  intros Hk. unfold drop_socket. rewrite Hk. cbn. unfold remove. destruct (is_member s _) eqn:Hm; cbn.
  - by intros [_ ?]%in_without.
  - intros Hin%is_member_spec. congruence.
Qed.

Lemma drop_rest s sv : clients (drop_socket s sv) = clients sv ∧ info (drop_socket s sv) = info sv.
Proof. unfold drop_socket. by destruct (info sv !! s). Qed.

Lemma unheard_step c vt s e sv : valid c sv → quiet_for s e → unheard s sv → unheard s (step c vt e sv).1.
Proof.
  intros Hv Hq Hu. destruct e as [x a t|x b|x|x|x| |buffered e]; cbn [step fst quiet_for] in *.
  - destruct (connection_other vt s x a t sv Hq) as (Hc & Hi & Hb). unfold unheard. by rewrite Hc, Hi, Hb.
  - destruct (resolved_other c s x b sv Hq) as (Hc & Hi & Hb). unfold unheard. by rewrite Hc, Hi, Hb.
  - unfold pong. destruct (has_handlers x sv); [|done]. unfold unheard. rewrite set_info_info. cbn.
    by destruct (Nat.eqb_spec s x) as [->|].
  - unfold closed. set (sv0 := {| clients := _; info := _; lookups := _; broadcaster := _ |}).
    destruct (decide (s = x)) as [->|Hne].
    + left. destruct (has_handlers x sv0) eqn:Hh.
      * destruct (drop_rest x sv0) as [-> _]. split; [|cbn; by intros [_ ?]%in_without].
        unfold has_handlers in Hh. destruct (info sv0 !! x) as [k|] eqn:Hk; [by eapply drop_self|done].
      * split; [|cbn; by intros [_ ?]%in_without]. intros Hin. destruct (v_known c sv Hv x Hin) as (k & Hk & Hk' & _).
        unfold has_handlers in Hh. cbn in Hh. by rewrite lookup_alter_eq, Hk in Hh; cbn in Hh; rewrite Hk' in Hh.
    + assert (Hu0 : unheard s sv0) by (unfold unheard; cbn; rewrite in_without, lookup_alter_ne by done; unfold unheard in Hu; tauto).
      destruct (has_handlers x sv0); [|done]. destruct (drop_rest x sv0) as [Hc Hi]. unfold unheard.
      by rewrite Hc, Hi, drop_other.
  - unfold errored. destruct (has_handlers x sv); [cbn [fst]|done]. destruct (drop_rest x sv) as [Hc Hi]. unfold unheard.
    rewrite Hc, Hi. destruct Hu as [[Hs Hcl]|Hu]; [left; split; [|done]|by right].
    destruct (decide (s = x)) as [->|Hne]; [|by rewrite drop_other].
    unfold drop_socket. destruct (info sv !! x); [|done]. cbn. unfold remove. destruct (is_member x _); [|done]. cbn.
    by intros [??]%in_without.
  - destruct Hu as [[Hs Hcl]|[Hcl (k & Hk & Ha)]].
    + left. unfold heartbeat. rewrite beats_clients. split; [|done].
      by rewrite (proj2 (beats_other s (clients sv) sv Hcl)).
    + right. unfold heartbeat. rewrite beats_clients. split; [done|]. by apply (heartbeat_self c s sv k Hv Hcl Hk).
  - done.
Qed.

(** A socket that stays silent between two heartbeats is no longer in the
    set after the second: no pong, no new lookup - whatever else happens. *)
Theorem silent_socket_pruned c vt es es' s :
  fresh_run c vt (es ++ Heartbeat :: es' ++ [Heartbeat]) init = true →
  s ∈ clients (run c vt es init) → Forall (quiet_for s) es' →
  s ∉ sockets (broadcaster (run c vt (es ++ Heartbeat :: es' ++ [Heartbeat]) init)).
Proof.
  rewrite stream_fresh_app. intros [Hf Hf']%andb_true_iff Hs Hq. unfold run at 1. rewrite fold_left_app.
  change (fold_left _ es init) with (run c vt es init). pose proof (stream_run_valid c vt es init Hf (init_valid c)) as Hv.
  generalize dependent (run c vt es init). intros sv Hf' Hs Hv. cbn [fresh_run fresh step andb fst] in Hf'.
  cbn [fold_left]. change (fold_left _ _ _) with (run c vt (es' ++ [Heartbeat]) (step c vt Heartbeat sv).1).
  rewrite stream_run_snoc. assert (Hv1 : valid c (step c vt Heartbeat sv).1) by by apply beats_valid.
  destruct (proj2 (v_clients c sv Hv) s) as [k Hk]; [by left|].
  assert (Hu : unheard s (step c vt Heartbeat sv).1).
  { right. cbn. unfold heartbeat. rewrite beats_clients. split; [done|]. by apply (heartbeat_self c s sv k Hv Hs Hk). }
  cbn [step] in Hf'. rewrite stream_fresh_app in Hf'. apply andb_true_iff in Hf' as [Hf' _].
  change (heartbeat sv).1 with (step c vt Heartbeat sv).1 in Hf'.
  revert Hv1 Hu Hf'. generalize (step c vt Heartbeat sv).1. intros sv1 Hv1 Hu Hf1.
  assert (unheard s (run c vt es' sv1) ∧ valid c (run c vt es' sv1)) as [Hu' Hv'].
  { clear -Hq Hu Hv1 Hf1. revert sv1 Hv1 Hu Hf1. induction es' as [|e es' IH]; intros sv1 Hv1 Hu Hf1; [done|].
    apply Forall_cons in Hq as [He Hq]. cbn in Hf1. apply andb_true_iff in Hf1 as [Hfe Hf1].
    apply (IH Hq (step c vt e sv1).1); [by apply step_valid|by apply unheard_step|done]. }
  destruct Hu' as [[Hn Hc]|[Hc (k' & Hk' & Ha)]]; cbn.
  - unfold heartbeat. by rewrite (proj2 (beats_other s _ _ Hc)).
  - by apply (heartbeat_self c s _ k' Hv' Hc Hk').
Qed.

(** *** Sockets that close during the lookup *)

Definition not_about (s : nat) (e : event) : Prop :=
  match e with Connection x _ _ | Resolved x _ | Pong x | Closed x | Errored x => x ≠ s | _ => True end.

Lemma orphan_step c vt s e sv : not_about s e → s ∈ sockets (broadcaster sv) → s ∉ clients sv →
  s ∈ sockets (broadcaster (step c vt e sv).1) ∧ s ∉ clients (step c vt e sv).1.
Proof.
  intros Hq Hs Hc. destruct e as [x a t|x b|x|x|x| |buffered e]; cbn [step fst not_about] in *.
  - destruct (connection_other vt s x a t sv Hq) as (Hc' & _ & ->). by rewrite Hc'.
  - destruct (resolved_other c s x b sv Hq) as (-> & _ & Hb). by rewrite Hb.
  - unfold pong. by destruct (has_handlers x sv).
  - unfold closed. set (sv0 := {| clients := _; info := _; lookups := _; broadcaster := _ |}).
    assert (s ∉ clients sv0) by (cbn; by intros [? _]%in_without).
    destruct (has_handlers x sv0); [|done]. destruct (drop_rest x sv0) as [-> _]. by rewrite drop_other.
  - unfold errored. destruct (has_handlers x sv); [cbn [fst]|done]. destruct (drop_rest x sv) as [-> _]. by rewrite drop_other.
  - unfold heartbeat. rewrite beats_clients. by rewrite (proj2 (beats_other s (clients sv) sv Hc)).
  - done.
Qed.

(** When a socket closes while its business is looked up, its close event
    finds no handler; once the lookup is done it joins the set and nothing
    that happens to other sockets takes it out again: it keeps counting
    against its user's limit. *)
Theorem closed_lookup_leaks c vt es es' s user b :
  fresh_run c vt (es ++ Closed s :: Resolved s (Some b) :: es') init = true →
  lookups (run c vt es init) !! s = Some user → b ≠ EmptyString →
  at_least (default 0 (connCounts (broadcaster (run c vt es init)) !! user)) (max_conns c) = false →
  Forall (not_about s) es' →
  let sv := run c vt (es ++ Closed s :: Resolved s (Some b) :: es') init in
  s ∈ sockets (broadcaster sv) ∧ s ∉ clients sv.
Proof.
  intros Hf Hl Hb Hmax Hq. cbn zeta. unfold run. rewrite fold_left_app. change (fold_left _ es init) with (run c vt es init).
  rewrite stream_fresh_app in Hf. apply andb_true_iff in Hf as [Hf _].
  pose proof (stream_run_valid c vt es init Hf (init_valid c)) as Hv. generalize dependent (run c vt es init). intros sv Hl Hmax Hv.
  cbn [fold_left step fst].
  assert (Hns : s ∉ sockets (broadcaster sv)) by (intros (k & _ & _ & ?)%(v_known c sv Hv); congruence).
  assert (Hcl : broadcaster (closed s sv) = broadcaster sv ∧ lookups (closed s sv) = lookups sv ∧ s ∉ clients (closed s sv)).
  { unfold closed. set (sv0 := {| clients := _; info := _; lookups := _; broadcaster := _ |}).
    assert (s ∉ clients sv0) by (cbn; by intros [_ ?]%in_without).
    destruct (has_handlers s sv0); [|done]. unfold drop_socket. destruct (info sv0 !! s); [|done]. cbn.
    split_and!; [|done..]. unfold remove. destruct (is_member s _) eqn:Hm; [|done]. by apply is_member_spec in Hm. }
  destruct Hcl as (Hb1 & Hl1 & Hc1).
  assert (Hin : s ∈ sockets (broadcaster (resolved c s (Some b) (closed s sv)).1) ∧ s ∉ clients (resolved c s (Some b) (closed s sv)).1).
  { unfold resolved. rewrite Hl1, Hl. destruct b; [done|]. cbn [absent set_info broadcaster]. unfold add. rewrite Hb1, Hmax.
    destruct (is_member s _) eqn:Hm; [by apply is_member_spec in Hm|]. cbn. split; [|done]. apply elem_of_app. right. by left. }
  destruct Hin as [Hin Hout]. generalize dependent (resolved c s (Some b) (closed s sv)).1. clear -Hq.
  induction es' as [|e es' IH]; intros sv Hin Hout; [done|]. apply Forall_cons in Hq as [He Hq].
  destruct (orphan_step c vt s e sv He Hin Hout). by apply IH.
Qed.

(** An error of a socket that was refused for its token is thrown by the
    emitter: only sockets in the set have a handler. *)
Theorem unauthenticated_error_uncaught c vt es s a t :
  info (run c vt es init) !! s = None → (extractToken a t ≫= vt) = None →
  (step c vt (Errored s) (run c vt (es ++ [Connection s a t]) init)).2 = [Uncaught s].
Proof.
  intros Hs Hn. rewrite stream_run_snoc. generalize dependent (run c vt es init). intros sv Hs. cbn [step]. unfold connection.
  destruct (absent _); [|rewrite Hn]; cbn; unfold errored, has_handlers; cbn; by rewrite lookup_alter_eq, lookup_insert_eq.
Qed.

(** ** Concrete runs *)
Definition five : config := {| max_conns := Some 1; backpressure := Some 65536 |}.
Definition users (t : string) : option string := if String.eqb t "good" then Some "u" else None.
Definition joined : list event := [Connection 1 (Some "Bearer good") None; Resolved 1 (Some "acme")].
Definition news : AttestationEvent :=
  {| type := submitted; ev_businessId := "acme"; attestationId := "a"; period := "2026-01"; txHash := None; timestamp := "t" |}.

Lemma stream_isolated_witness :
  Send 1 news ∈ (step five users (Publish (λ _, 0) news) (run five users joined init)).2.
Proof.
  apply (proj2 (stream_isolated five users joined (λ _, 0) news 1 ltac:(vm_compute; reflexivity))).
  eexists. split_and!; [by left|reflexivity| |reflexivity..].
  split; [|split; [right; by left|done]]. exists (Some "Bearer good"), None, "good". split; [by left|done].
Defined.

Lemma connections_counted_witness :
  conns_of "u" (run five users (joined ++ [Connection 2 None (Some "good"); Resolved 2 (Some "acme")]) init) ≤ 1.
Proof.
  exact (proj2 (connections_counted five users (joined ++ [Connection 2 None (Some "good"); Resolved 2 (Some "acme")]) "u" 1
                  ltac:(vm_compute; reflexivity) eq_refl)).
Defined.

Lemma silent_socket_pruned_witness :
  1%nat ∉ sockets (broadcaster (run five users (joined ++ Heartbeat :: [Connection 2 None None] ++ [Heartbeat]) init)).
Proof.
  apply silent_socket_pruned; [vm_compute; reflexivity|by left|]. by repeat constructor.
Defined.

(** The second connection of the user is refused, for good. *)
Lemma closed_lookup_leaks_witness :
  let sv := run five users ([Connection 1 (Some "Bearer good") None] ++ Closed 1 :: Resolved 1 (Some "acme") ::
                 [Heartbeat; Heartbeat; Heartbeat]) init in
  (1%nat ∈ sockets (broadcaster sv) ∧ 1%nat ∉ clients sv) ∧
  (step five users (Resolved 2 (Some "acme")) (step five users (Connection 2 None (Some "good")) sv).1).2 =
  [Close 2 "Too many connections"].
Proof.
  split; [|vm_compute; reflexivity].
  apply (closed_lookup_leaks five users _ _ 1 "u"); [vm_compute; reflexivity|reflexivity|done|reflexivity|]. by repeat constructor.
Defined.

Lemma unauthenticated_error_uncaught_witness :
  (step five users (Errored 7) (run five users [Connection 7 None None] init)).2 = [Uncaught 7].
Proof. exact (unauthenticated_error_uncaught five users [] 7 None None eq_refl eq_refl). Defined.
