(* ===== verification/Lifecycle.v ===== *)
(** * Process lifecycle: [src/startup/readiness.ts] and [src/shutdown.ts].

    [Readiness] is the report the process computes before it listens; the
    environment is a function from names to values, the database probe an
    argument.  [Shutdown] is the graceful shutdown as a state machine over the
    events the process sees: signals, the deadline, and the ends of the steps
    it awaits. *)

From S2P Require Import Prelude Numeric Hashing JsString.
#[local] Open Scope Z_scope.

Module Readiness.

Inductive DependencyName := config_jwt | config_soroban | config_stripe | config_mtls | database.

#[export] Instance dependency_eq_dec : EqDecision DependencyName.
Proof. solve_decision. Defined.

(** [reason] is there exactly when the dependency is not ready. *)
Record DependencyReadinessResult := { dependency : DependencyName; reason : option string }.
Definition ready (r : DependencyReadinessResult) : bool := match reason r with None => true | Some _ => false end.

Definition JWT_SECRET_MIN_LENGTH_PROD : Z := 32.
Definition JWT_SECRET_MIN_LENGTH_DEV : Z := 8.
Definition STARTUP_CHECK_TIMEOUT_MS : Z := 2500.

Definition pass (d : DependencyName) : DependencyReadinessResult := {| dependency := d; reason := None |}.
Definition fail (d : DependencyName) (why : string) : DependencyReadinessResult := {| dependency := d; reason := Some why |}.

Section Checks.
Context (env : string → option string).

Definition trimmed (name : string) : string := default EmptyString (trim <$> env name).
Definition is_true (name : string) : bool := String.eqb (to_lower (trimmed name)) "true".
Definition missing (name : string) : bool := is_empty (trimmed name).

Definition isProduction : bool := match env "NODE_ENV" with Some e => String.eqb e "production" | None => false end.

Definition checkJwt : DependencyReadinessResult :=
  let len := Z.of_nat (String.length (trimmed "JWT_SECRET")) in
  let minLength := if isProduction then JWT_SECRET_MIN_LENGTH_PROD else JWT_SECRET_MIN_LENGTH_DEV in
  if len <? minLength
  then fail config_jwt
         (if isProduction
          then "JWT_SECRET must be at least " +:+ show_Z JWT_SECRET_MIN_LENGTH_PROD +:+ " characters in production (got " +:+ show_Z len +:+ ")"
          else "JWT_SECRET must be at least " +:+ show_Z JWT_SECRET_MIN_LENGTH_DEV +:+ " characters (got " +:+ show_Z len +:+ ")")
  else pass config_jwt.

Definition checkSorobanConfig : DependencyReadinessResult :=
  if negb isProduction then pass config_soroban
  else if missing "SOROBAN_CONTRACT_ID" then fail config_soroban "SOROBAN_CONTRACT_ID must be set in production"
  else pass config_soroban.

Definition checkStripeConfig : DependencyReadinessResult :=
  if negb isProduction then pass config_stripe
  else if missing "STRIPE_WEBHOOK_SECRET" then fail config_stripe "STRIPE_WEBHOOK_SECRET must be set in production"
  else pass config_stripe.

Definition checkMtlsConfig : DependencyReadinessResult :=
  if negb (is_true "MTLS_ENABLED") then pass config_mtls
  else if is_true "MTLS_SPIFFE_ENABLED" && missing "SPIFFE_TRUST_DOMAIN"
  then fail config_mtls "SPIFFE_TRUST_DOMAIN must be set when MTLS_SPIFFE_ENABLED=true"
  else if is_true "MTLS_OCSP_ENABLED" && missing "MTLS_CRL_PATH"
  then fail config_mtls "MTLS_CRL_PATH must be set when MTLS_OCSP_ENABLED=true"
  else if missing "MTLS_CA_PATH" || missing "MTLS_CERT_PATH" || missing "MTLS_KEY_PATH"
  then fail config_mtls "MTLS_CA_PATH, MTLS_CERT_PATH, and MTLS_KEY_PATH must be set when MTLS_ENABLED=true and MTLS_SPIFFE_ENABLED is not true"
  else pass config_mtls.

(** ** Redaction: the pattern [postgres(?:ql)?:\/\/[^\s]*], without case. *)

(** What follows a match of the scheme at the start of the text. *)
Definition after_scheme (s : string) : option string :=
  match strip_prefix_ci "postgresql://" s with Some r => Some r | None => strip_prefix_ci "postgres://" s end.

Fixpoint drop_word (s : string) : string :=
  match s with EmptyString => EmptyString | String c r => if is_space c then s else drop_word r end.

(** [fuel] bounds the characters looked at. *)
Fixpoint redact (fuel : nat) (s : string) : string :=
  match fuel with
  | O => EmptyString
  | S fuel =>
      match after_scheme s with
      | Some r => "[redacted]" +:+ redact fuel (drop_word r)
      | None => match s with EmptyString => EmptyString | String c r => String c (redact fuel r) end
      end
  end.

Definition sanitiseDbError (message : string) : string := redact (S (String.length message)) message.

(** The probe's outcome: the message of its error, if it failed. *)
Definition checkDatabase (probe : option string) : DependencyReadinessResult :=
  match probe with
  | None => pass database
  | Some message =>
      fail database (if String.eqb message "timeout"
                     then "database probe timed out after " +:+ show_Z STARTUP_CHECK_TIMEOUT_MS +:+ " ms"
                     else "database connection failed: " +:+ sanitiseDbError message)
  end.

Record StartupReadinessReport := { all_ready : bool; checks : list DependencyReadinessResult }.

Definition runStartupDependencyReadinessChecks (probe : option string) : StartupReadinessReport :=
  let checks := [checkJwt; checkSorobanConfig; checkStripeConfig; checkMtlsConfig]
                ++ (if missing "DATABASE_URL" then [] else [checkDatabase probe]) in
  {| all_ready := forallb ready checks; checks := checks |}.

(** ** What a ready report means *)

Definition mtls_configured : Prop :=
  is_true "MTLS_ENABLED" = true →
  missing "MTLS_CA_PATH" = false ∧ missing "MTLS_CERT_PATH" = false ∧ missing "MTLS_KEY_PATH" = false ∧
  (is_true "MTLS_SPIFFE_ENABLED" = true → missing "SPIFFE_TRUST_DOMAIN" = false) ∧
  (is_true "MTLS_OCSP_ENABLED" = true → missing "MTLS_CRL_PATH" = false).

Lemma checkMtlsConfig_ready : ready checkMtlsConfig = true ↔ mtls_configured.
Proof.
  unfold checkMtlsConfig, mtls_configured. destruct (is_true "MTLS_ENABLED"); [|done]. cbn [negb].
  destruct (is_true "MTLS_SPIFFE_ENABLED"), (missing "SPIFFE_TRUST_DOMAIN"), (is_true "MTLS_OCSP_ENABLED"),
    (missing "MTLS_CRL_PATH"), (missing "MTLS_CA_PATH"), (missing "MTLS_CERT_PATH"), (missing "MTLS_KEY_PATH"); cbn; intuition congruence.
Qed.

(** The report is ready exactly when the secret is long enough, production
    has its contract and webhook secret, mTLS - when enabled - has its files,
    and the database - when configured - answered the probe. *)
Theorem readiness_report_sound probe :
  all_ready (runStartupDependencyReadinessChecks probe) = true ↔
  (if isProduction then 32 else 8) ≤ Z.of_nat (String.length (trimmed "JWT_SECRET")) ∧
  (isProduction = true → missing "SOROBAN_CONTRACT_ID" = false ∧ missing "STRIPE_WEBHOOK_SECRET" = false) ∧
  mtls_configured ∧ (missing "DATABASE_URL" = false → probe = None).
Proof.
  unfold runStartupDependencyReadinessChecks. cbn [all_ready]. rewrite forallb_app. cbn [forallb].
  rewrite !andb_true_iff, checkMtlsConfig_ready. unfold checkJwt, checkSorobanConfig, checkStripeConfig,
    JWT_SECRET_MIN_LENGTH_PROD, JWT_SECRET_MIN_LENGTH_DEV.
  assert (Hdb : forallb ready (if missing "DATABASE_URL" then [] else [checkDatabase probe]) = true ↔
                (missing "DATABASE_URL" = false → probe = None)).
  { destruct (missing "DATABASE_URL"); [done|]. cbn. rewrite andb_true_r. destruct probe; cbn; intuition congruence. }
  rewrite Hdb. destruct isProduction; cbn [negb].
  - destruct (Z.ltb_spec (Z.of_nat (String.length (trimmed "JWT_SECRET"))) 32), (missing "SOROBAN_CONTRACT_ID"),
      (missing "STRIPE_WEBHOOK_SECRET"); cbn; intuition (try congruence; lia).
  - destruct (Z.ltb_spec (Z.of_nat (String.length (trimmed "JWT_SECRET"))) 8); cbn; intuition (try congruence; lia).
Qed.

(** With SPIFFE the certificates come from the workload API, yet the
    report is only ready with certificate files too. *)
Theorem spiffe_still_needs_files probe :
  is_true "MTLS_ENABLED" = true → is_true "MTLS_SPIFFE_ENABLED" = true → missing "MTLS_CA_PATH" = true →
  all_ready (runStartupDependencyReadinessChecks probe) = false.
Proof.
  intros He _ Hm. apply not_true_iff_false. rewrite readiness_report_sound. intros (_ & _ & Hc & _).
  destruct (Hc He) as [? _]. congruence.
Qed.
End Checks.

(** ** No connection string gets through *)
Lemma strip_prefix_ci_length p s r : strip_prefix_ci p s = Some r → (String.length r ≤ String.length s)%nat.
Proof.
  revert s. induction p as [|c p IH]; intros [|d s]; cbn; try (by intros [= <-]); try done.
  destruct (Ascii.eqb _ _); [|done]. intros H%IH. lia.
Qed.

Lemma after_scheme_length s r : after_scheme s = Some r → (String.length r < String.length s)%nat.
Proof.
  unfold after_scheme. destruct (strip_prefix_ci "postgresql://" s) eqn:H.
  - intros [= ->]. destruct s as [|d s]; [done|]. cbn in H. destruct (Ascii.eqb _ _); [|done].
    apply (strip_prefix_ci_length "ostgresql://") in H. cbn. lia.
  - intros H'. destruct s as [|d s]; [done|]. cbn in H'. destruct (Ascii.eqb _ _); [|done].
    apply (strip_prefix_ci_length "ostgres://") in H'. cbn. lia.
Qed.

Lemma drop_word_length s : (String.length (drop_word s) ≤ String.length s)%nat.
Proof. induction s as [|c s IH]; [done|]. cbn. destruct (is_space c); cbn; lia. Qed.

Lemma redact_prefix p fuel s x :
  string_forallb (λ c, negb (Ascii.eqb (lower_char c) "[")) p = true → (String.length s < fuel)%nat →
  strip_prefix_ci p (redact fuel s) = Some x → ∃ y, strip_prefix_ci p s = Some y.
Proof.
  revert fuel s. induction p as [|c p IH]; intros fuel s; [by exists s|]. intros [Hc Hp]%andb_true_iff Hf.
  destruct fuel as [|fuel]; [lia|]. cbn [redact]. destruct (after_scheme s) as [r|].
  - change ("[redacted]" +:+ redact fuel (drop_word r)) with (String "["%char ("redacted]" +:+ redact fuel (drop_word r))). cbn [strip_prefix_ci].
    destruct (Ascii.eqb (lower_char c) _); [done|]. done.
  - destruct s as [|d s]; [done|]. cbn in *. destruct (Ascii.eqb (lower_char c) (lower_char d)); [|done]. apply IH; [exact Hp|lia].
Qed.

Lemma redact_scheme fuel s : (String.length s < fuel)%nat → after_scheme s = None → after_scheme (redact fuel s) = None.
Proof.
  intros Hf. unfold after_scheme. destruct (strip_prefix_ci "postgresql://" s) eqn:H1; [done|]. intros H2.
  destruct (strip_prefix_ci "postgresql://" (redact fuel s)) eqn:H3.
  { apply redact_prefix in H3 as [y Hy]; [congruence|done|done]. }
  destruct (strip_prefix_ci "postgres://" (redact fuel s)) eqn:H4; [|done].
  apply redact_prefix in H4 as [y Hy]; [congruence|done|done].
Qed.

(** Some part of [s] starts like a connection string. *)
Fixpoint contains_url (s : string) : bool :=
  match after_scheme s with Some _ => true | None => match s with EmptyString => false | String _ r => contains_url r end end.

Lemma contains_url_cons c s : after_scheme (String c s) = None → contains_url (String c s) = contains_url s.
Proof. intros H. cbn [contains_url]. by rewrite H. Qed.

Lemma redact_clean fuel s : (String.length s < fuel)%nat → contains_url (redact fuel s) = false.
Proof.
  revert s. induction fuel as [|fuel IH]; intros s Hf; [lia|]. destruct (after_scheme s) as [r|] eqn:Ha.
  - cbn [redact]. rewrite Ha. pose proof (after_scheme_length s r Ha). pose proof (drop_word_length r).
    specialize (IH (drop_word r)). generalize dependent (redact fuel (drop_word r)). intros t Ht.
    do 10 (rewrite string_cons_app; rewrite contains_url_cons by reflexivity). change (EmptyString +:+ t) with t. apply Ht. lia.
  - pose proof (redact_scheme (S fuel) s Hf Ha) as Hr. cbn [redact] in *. rewrite Ha in *.
    destruct s as [|c s]; [done|]. rewrite contains_url_cons by done. cbn in Hf. apply IH. lia.
Qed.

Lemma redact_id fuel s : (String.length s < fuel)%nat → contains_url s = false → redact fuel s = s.
Proof.
  revert s. induction fuel as [|fuel IH]; intros s Hf; [lia|]. cbn [redact]. destruct s as [|c s]; [done|].
  cbn [contains_url]. destruct (after_scheme _); [done|]. intros Hs. f_equal. apply IH; [cbn in Hf; lia|done].
Qed.

(** A redacted message contains no connection string, whatever the driver
    put in its error, and a message that has none is reported as it is. *)
Theorem redaction_hides_urls m :
  contains_url (sanitiseDbError m) = false ∧ (contains_url m = false → sanitiseDbError m = m).
Proof. split; [apply redact_clean; lia|apply redact_id; lia]. Qed.

Definition dev_env (name : string) : option string := if String.eqb name "JWT_SECRET" then Some " 12345678 " else None.
Definition spiffe_env (name : string) : option string :=
  if String.eqb name "SPIFFE_TRUST_DOMAIN" then Some "example.org" else if String.eqb name "JWT_SECRET" then Some "0123456789"
  else if String.eqb name "MTLS_ENABLED" || String.eqb name "MTLS_SPIFFE_ENABLED" then Some "TRUE" else None.

Example ready_dev : all_ready (runStartupDependencyReadinessChecks dev_env (Some "x")) = true.
Proof. reflexivity. Qed.

Example redacted : sanitiseDbError "at PostgreSQL://u:p@h/db now" = "at [redacted] now".
Proof. reflexivity. Qed.

Lemma spiffe_still_needs_files_witness : all_ready (runStartupDependencyReadinessChecks spiffe_env None) = false.
Proof. exact (spiffe_still_needs_files spiffe_env None eq_refl eq_refl eq_refl). Defined.
End Readiness.

Module Shutdown.

(** ** The deadline *)
Definition getDefaultTimeoutMs (raw : option string) : Z :=
  match raw ≫= parse_int with Some n => if 0 <? n then n else 15000 | None => 15000 end.

(** [setTimeout] waits one millisecond when the delay does not fit 31 bits. *)
Definition timer_delay (ms : Z) : Z := if (1 <=? ms) && (ms <? 2 ^ 31) then ms else 1.

(** ** The sequence *)
Inductive phase := Running | ClosingServer | EndingPool | CleaningUp | Exited (code : Z).

(** What the process sees: a signal, the deadline of the first one, and how
    each awaited step ended. *)
Inductive event := Signal | Deadline | ServerClosed (ok : bool) | PoolEnded (ok : bool) | CleanedUp (ok : bool).

Inductive action := CloseServer | EndPool | RunCleanup | Exit (code : Z).

#[export] Instance action_eq_dec : EqDecision action.
Proof. solve_decision. Defined.

Section Orchestrator.
(** Whether an [onCleanup] hook was given. *)
Context (has_cleanup : bool).

Definition after_pool : phase * list action :=
  if has_cleanup then (CleaningUp, [RunCleanup]) else (Exited 0, [Exit 0]).

(** [handler] and [performShutdown].  After the exit nothing runs. *)
Definition step (e : event) (p : phase) : phase * list action :=
  match p, e with
  | Exited c, _ => (Exited c, [])
  | Running, Signal => (ClosingServer, [CloseServer])
  | Running, _ => (Running, [])
  | _, Signal | _, Deadline => (Exited 1, [Exit 1])
  | ClosingServer, ServerClosed true => (EndingPool, [EndPool])
  | ClosingServer, ServerClosed false => (Exited 1, [Exit 1])
  | EndingPool, PoolEnded _ => after_pool
  | CleaningUp, CleanedUp _ => (Exited 0, [Exit 0])
  | _, _ => (p, [])
  end.

Fixpoint run (es : list event) (p : phase) : phase * list action :=
  match es with [] => (p, []) | e :: es => let '(p, a) := step e p in let '(p, a') := run es p in (p, a ++ a') end.

Lemma run_fst e es p : (run (e :: es) p).1 = (run es (step e p).1).1.
Proof. cbn. destruct (step e p) as [q a]. cbn. by destruct (run es q). Qed.
Lemma run_snd e es p : (run (e :: es) p).2 = (step e p).2 ++ (run es (step e p).1).2.
Proof. cbn. destruct (step e p) as [q a]. cbn. by destruct (run es q). Qed.

Lemma run_exited es c : run es (Exited c) = (Exited c, []).
Proof. induction es as [|e es IH]; [done|]. cbn. by rewrite IH. Qed.

(** The whole sequence when nothing goes wrong. *)
Definition clean_actions : list action := [CloseServer; EndPool] ++ (if has_cleanup then [RunCleanup] else []) ++ [Exit 0].

(** The actions still to come from a phase, if it ends with 0. *)
Definition rest (p : phase) : list action :=
  match p with
  | Running => clean_actions
  | ClosingServer => [EndPool] ++ (if has_cleanup then [RunCleanup] else []) ++ [Exit 0]
  | EndingPool => (if has_cleanup then [RunCleanup] else []) ++ [Exit 0]
  | CleaningUp => [Exit 0]
  | Exited _ => []
  end.

Lemma step_rest e p q a : step e p = (q, a) → q = Exited 1 ∨ rest p = a ++ rest q.
Proof.
  destruct p as [| | | |c], e as [| |[]|ok|ok]; cbn; unfold after_pool, clean_actions; intros [= <- <-] || intros H.
  all: try (by right). all: try (by left). all: destruct has_cleanup; injection H as <- <-; by right.
Qed.

Lemma run_rest es p q a : run es p = (q, a) → q = Exited 1 ∨ rest p = a ++ rest q.
Proof.
  revert p q a. induction es as [|e es IH]; intros p q a; cbn; [intros [= <- <-]; by right|].
  destruct (step e p) as [p1 a1] eqn:Hs. destruct (run es p1) as [p2 a2] eqn:Hr. intros [= <- <-].
  apply step_rest in Hs as [->|Hs]; [rewrite run_exited in Hr; injection Hr as <- <-; by left|].
  apply IH in Hr as [Hr|Hr]; [by left|]. right. by rewrite Hs, Hr, app_assoc.
Qed.

Lemma step_code e p c : (step e p).1 = Exited c → p = Exited c ∨ c = 0 ∨ c = 1.
Proof.
  destruct p as [| | | |c'], e as [| |[]|ok|ok]; cbn; unfold after_pool; try (intros [= <-]; by auto); destruct has_cleanup; cbn;
    intros [= <-]; auto.
Qed.

Lemma run_code es p c : (run es p).1 = Exited c → p = Exited c ∨ c = 0 ∨ c = 1.
Proof.
  revert p. induction es as [|e es IH]; intros p; [by left|]. rewrite run_fst. intros [H|H]%IH; [by apply step_code in H|by right].
Qed.

Lemma journal_app es es' p : run (es ++ es') p = ((run es' (run es p).1).1, (run es p).2 ++ (run es' (run es p).1).2).
Proof.
  revert p. induction es as [|e es IH]; intros p; cbn; [by destruct (run es' p)|].
  destruct (step e p) as [q a]. rewrite IH. destruct (run es q) as [q' a']. cbn. by rewrite app_assoc.
Qed.

Lemma not_running_stays es p : p ≠ Running → (run es p).1 ≠ Running.
Proof.
  revert p. induction es as [|e es IH]; intros p Hp; [done|]. rewrite run_fst. apply IH.
  destruct p as [| | | |c], e as [| |[]|ok|ok]; cbn; unfold after_pool; try done; by destruct has_cleanup.
Qed.

(** After the first signal the deadline, or another signal, ends the
    process, however the awaited steps go; only the whole sequence - server
    closed, pool ended, hook run, in this order, each once - ends it with
    code 0, and every other end is code 1. *)
Theorem shutdown_outcomes es es' :
  (∀ e, e ∈ [Signal; Deadline] → e ∈ es' → ∃ c, (run (es ++ Signal :: es') Running).1 = Exited c) ∧
  (∀ c, (run es Running).1 = Exited c → (c = 0 ∧ (run es Running).2 = clean_actions) ∨ c = 1).
Proof.
  split.
  - intros e He (l & l' & ->)%list_elem_of_split. rewrite journal_app. cbn [fst]. rewrite run_fst, journal_app. cbn [fst]. rewrite run_fst.
    set (p := (run es Running).1). assert (Hp : (step Signal p).1 ≠ Running) by by destruct p.
    pose proof (not_running_stays l _ Hp) as Hq. generalize dependent (run l (step Signal p).1).1. intros q Hq.
    assert (∃ c, (step e q).1 = Exited c) as [c ->].
    { apply elem_of_cons in He as [->|He%list_elem_of_singleton]; [|subst e]; destruct q; try done; by eexists. }
    exists c. by rewrite run_exited.
  - intros c Hc. destruct (run_code es Running c Hc) as [?|[Hz|Hz]]; [done| |by right]. left. subst c. split; [done|].
    destruct (run_rest es Running (run es Running).1 (run es Running).2) as [H|H]; [by destruct (run es Running)|congruence|].
    rewrite Hc in H. cbn in H. by rewrite app_nil_r in H.
Qed.
End Orchestrator.

(** A deadline that does not fit the timer's 31 bits is accepted from the
    environment and fires after one millisecond. *)
Theorem long_deadline_fires_at_once raw n :
  parse_int raw = Some n → 2 ^ 31 ≤ n → timer_delay (getDefaultTimeoutMs (Some raw)) = 1.
Proof.
  intros Hp Hn. unfold getDefaultTimeoutMs, timer_delay. cbn [mbind option_bind]. rewrite Hp.
  destruct (Z.ltb_spec 0 n); [|lia]. destruct (Z.ltb_spec n (2 ^ 31)); [lia|]. by rewrite andb_false_r.
Qed.

Lemma shutdown_outcomes_witness :
  run true [Deadline; Signal; ServerClosed true; PoolEnded false; CleanedUp false; Signal] Running =
    (Exited 0, [CloseServer; EndPool; RunCleanup; Exit 0]) ∧
  ∃ c, (run true ([] ++ Signal :: [ServerClosed true; Deadline; PoolEnded true]) Running).1 = Exited c.
Proof.
  split; [reflexivity|].
  apply (proj1 (shutdown_outcomes true [] [ServerClosed true; Deadline; PoolEnded true]) Deadline); [right; left|right; left].
Defined.

Lemma long_deadline_fires_at_once_witness : timer_delay (getDefaultTimeoutMs (Some "3000000000")) = 1.
Proof. apply (long_deadline_fires_at_once "3000000000" 3000000000); [reflexivity|lia]. Defined.
End Shutdown.
