(* ===== verification/DbClient.v ===== *)
(** * The database client: [src/db/client.ts] and [src/db/retry.ts].

    [Client] is [PgClient]: how it decides on prepared statements and what it
    then sends to the pool.  The pool is a function on an abstract database
    state; each statement may run on another connection.  [Retry] is the retry
    loop for transient connection errors. *)

From Stdlib Require Import QArith.QArith QArith.Qround.
From S2P Require Import Prelude Numeric Hashing JsString.
#[local] Open Scope Z_scope.

Module Client.

Inductive mode := session | transaction | statement | mode_unknown.

#[export] Instance mode_eq_dec : EqDecision mode.
Proof. solve_decision. Defined.

Definition read_mode (s : string) : option mode :=
  if String.eqb s "session" then Some session
  else if String.eqb s "transaction" then Some transaction
  else if String.eqb s "statement" then Some statement
  else None.

Record PgBouncerDetectionResult := { pool_mode : mode; detected : bool; safe : bool }.

(** [pgbouncerMode] of the options, then the environment. *)
Definition detectPgBouncerMode (env : string → option string) (overrideMode : option mode) : PgBouncerDetectionResult :=
  match overrideMode with
  | Some m => {| pool_mode := m; detected := true; safe := bool_decide (m = session) |}
  | None =>
      match (to_lower <$> env "PGBOUNCER_MODE") ≫= read_mode with
      | Some m => {| pool_mode := m; detected := true; safe := bool_decide (m = session) |}
      | None =>
          let set name := match env name with Some s => negb (is_empty s) | None => false end in
          if set "PGPGBOUNCER" || set "PGPOOL_MODE"
          then {| pool_mode := mode_unknown; detected := true; safe := true |}
          else {| pool_mode := session; detected := false; safe := true |}
      end
  end.

Record PgClient := { disablePreparedStatements : bool; pgbouncerMode : PgBouncerDetectionResult }.

Definition new (env : string → option string) (disable : bool) (overrideMode : option mode) : PgClient :=
  let d := detectPgBouncerMode env overrideMode in
  {| disablePreparedStatements := disable || bool_decide (pool_mode d = transaction); pgbouncerMode := d |}.

(** ** Queries *)

Definition usePrepared (c : PgClient) (text : string) (disablePrepared : bool) : bool :=
  negb (disablePreparedStatements c) && negb disablePrepared &&
  contains "where" (to_lower text) && negb (contains "select *" (to_lower text)) && (100 <? Z.of_nat (String.length text)).

Section Pool.
Context {S R E V : Type}.

(** [pool.query(text, params)] on some connection. *)
Context (pool_query : string → list V → S → result E R * S).

Definition executeUnnamed (text : string) (params : list V) (s : S) : result E R * S := pool_query text params s.

(** PREPARE, EXECUTE and DEALLOCATE; an error of any of them falls back to the
    plain statement. *)
Definition executePrepared (name text : string) (params : list V) (s : S) : result E R * S :=
  match pool_query ("PREPARE " +:+ name +:+ " AS " +:+ text) [] s with
  | (Err _, s) => executeUnnamed text params s
  | (Ok _, s) =>
      match pool_query ("EXECUTE " +:+ name) params s with
      | (Err _, s) => executeUnnamed text params s
      | (Ok result, s) =>
          match pool_query ("DEALLOCATE " +:+ name) [] s with
          | (Err _, s) => executeUnnamed text params s
          | (Ok _, s) => (Ok result, s)
          end
      end
  end.

(** Through the exported [db] the counter's increment is set on the proxy's
    target while it is read from the client, so the name is always the first. *)
Definition statement_name : string := "prep_0".

Definition query (c : PgClient) (text : string) (params : list V) (disablePrepared : bool) (s : S) : result E R * S :=
  if usePrepared c text disablePrepared && bool_decide (pool_mode (pgbouncerMode c) = transaction)
  then executeUnnamed text params s
  else if usePrepared c text disablePrepared then executePrepared statement_name text params s
  else executeUnnamed text params s.

(** ** Properties *)

(** In transaction mode, found or given, no prepared statement is sent:
    every query goes to the pool as it is. *)
Theorem transaction_mode_unnamed env disable overrideMode text params disablePrepared s :
  pool_mode (detectPgBouncerMode env overrideMode) = transaction →
  query (new env disable overrideMode) text params disablePrepared s = pool_query text params s.
Proof.
  intros Hm. unfold query, new, usePrepared. cbn [disablePreparedStatements pgbouncerMode].
  by rewrite Hm, bool_decide_true, orb_true_r by done.
Qed.

(** Statement mode is reported as unsafe, but a long statement with a
    WHERE clause is still prepared by name. *)
Theorem statement_mode_still_prepares env text params s :
  contains "where" (to_lower text) = true → contains "select *" (to_lower text) = false →
  100 < Z.of_nat (String.length text) →
  safe (pgbouncerMode (new env false (Some statement))) = false ∧
  query (new env false (Some statement)) text params false s = executePrepared statement_name text params s.
Proof.
  intros H1 H2 H3. split; [done|]. unfold query, usePrepared. cbn. rewrite H1, H2.
  by rewrite (proj2 (Z.ltb_lt _ _) H3).
Qed.

(** When a statement ran as EXECUTE but its DEALLOCATE fails - on another
    connection of the pool there is nothing to deallocate - it is sent again:
    the answer is the second run's, on the state the first one left. *)
Theorem failed_deallocate_runs_twice name text params s s1 s2 s3 p r e :
  pool_query ("PREPARE " +:+ name +:+ " AS " +:+ text) [] s = (Ok p, s1) →
  pool_query ("EXECUTE " +:+ name) params s1 = (Ok r, s2) →
  pool_query ("DEALLOCATE " +:+ name) [] s2 = (Err e, s3) →
  executePrepared name text params s = pool_query text params s3.
Proof. intros H1 H2 H3. unfold executePrepared. by rewrite H1, H2, H3. Qed.
End Pool.

(** Two connections that know names of prepared statements, the connection
    each statement gets, and a counter of the updates that ran. *)
Record two_connections := { names : bool → list string; turns : list bool; updates : Z }.

Definition serve (sql : string) (params : list unit) (s : two_connections) : result string unit * two_connections :=
  let c := default true (head (turns s)) in
  let next n u := {| names := λ b, if Bool.eqb b c then n else names s b; turns := tail (turns s); updates := u |} in
  match strip_prefix "PREPARE prep_0" sql, strip_prefix "EXECUTE " sql, strip_prefix "DEALLOCATE " sql with
  | Some _, _, _ => if includes "prep_0" (names s c) then (Err "exists", next (names s c) (updates s))
                    else (Ok tt, next ("prep_0" :: names s c) (updates s))
  | _, Some n, _ => if includes n (names s c) then (Ok tt, next (names s c) (updates s + 1))
                    else (Err "missing", next (names s c) (updates s))
  | _, _, Some n => if includes n (names s c) then (Ok tt, next (List.filter (λ x, negb (String.eqb x n)) (names s c)) (updates s))
                    else (Err "missing", next (names s c) (updates s))
  | _, _, _ => (Ok tt, next (names s c) (updates s + 1))
  end.

Definition start : two_connections := {| names := λ _, []; turns := [true; true; false; true]; updates := 0 |}.

Lemma transaction_mode_unnamed_witness :
  let env n := if String.eqb n "PGBOUNCER_MODE" then Some "Transaction" else None in
  query serve (new env false None) "select 1 where true" [] false start = serve "select 1 where true" [] start.
Proof. apply transaction_mode_unnamed. reflexivity. Defined.

Definition long_update : string :=
  "UPDATE sessions SET renewals = renewals + 1, renewed_at = now(), expires_at = now() + interval '1 day' WHERE user_id IS NOT NULL".

Lemma statement_mode_still_prepares_witness :
  query serve (new (λ _, None) false (Some statement)) long_update [] false start =
  executePrepared serve "prep_0" long_update [] start.
Proof. exact (proj2 (statement_mode_still_prepares serve (λ _, None) long_update [] start eq_refl eq_refl eq_refl)). Defined.

(** The update is counted twice for one query. *)
Lemma failed_deallocate_runs_twice_witness :
  let run := executePrepared serve "prep_0" long_update [] start in
  (∃ s3, run = serve long_update [] s3) ∧ updates run.2 = 2.
Proof.
  split; [|reflexivity]. eexists. eapply (failed_deallocate_runs_twice serve).
  - vm_compute. reflexivity.
  - vm_compute. reflexivity.
  - vm_compute. reflexivity.
Defined.
End Client.

Module Retry.

(** ** Numbers of the environment: [Number(text)], as far as comparisons with
    whole numbers go. *)
Inductive number := NaN | Infinite | Finite (q : Q).

(** [Math.max(0, x)]. *)
Definition max0 (x : number) : number :=
  match x with Finite q => Finite (if Qle_bool 0 q then q else 0%Q) | _ => x end.

Definition at_most (n : Z) (x : number) : bool :=
  match x with NaN => false | Infinite => true | Finite q => Qle_bool (inject_Z n) q end.
Definition at_least (n : Z) (x : number) : bool :=
  match x with NaN | Infinite => false | Finite q => Qle_bool q (inject_Z n) end.

(** ** Transient errors *)
Record error := { is_Error : bool; code : option string; message : string }.

Definition PG_TRANSIENT_CODES : list string :=
  ["08000"; "08003"; "08006"; "08001"; "08004"; "57P01"; "57P02"; "57P03"].
Definition NODE_TRANSIENT_CODES : list string :=
  ["ECONNRESET"; "ECONNREFUSED"; "ECONNABORTED"; "EPIPE"; "ETIMEDOUT"; "EHOSTUNREACH"; "ENETUNREACH"].

Definition isTransientConnectionError (e : error) : bool :=
  is_Error e &&
  (match code e with Some c => includes c PG_TRANSIENT_CODES || includes c NODE_TRANSIENT_CODES | None => false end
   || contains "connection terminated" (to_lower (message e))).

(** ** Backoff, with whole numbers of milliseconds *)
Section Retry.
Context (base_ms max_ms : Z) (max_retries : number).

Definition pgBouncerBackoffMs (attempt draw : Z) : Z := round_random_mul draw (Z.min max_ms (base_ms * 2 ^ attempt)).

(** ** The loop *)
Context {St A : Type}.

(** The operation, on the state it changes even when it fails. *)
Context (fn : St → result error A * St).

Inductive outcome := Returned (a : A) | Threw (e : error) | ThrewUndefined.

(** [draws] gives the draw of each attempt.  The result, the delays slept and
    the state; [None] when [fuel] rounds do not end it. *)
Fixpoint retry_from (fuel : nat) (attempt : Z) (lastError : option error) (draws : Z → Z) (s : St)
  : option (outcome * list Z * St) :=
  match fuel with
  | O => None
  | S fuel =>
      if negb (at_most attempt max_retries)
      then Some (match lastError with Some e => Threw e | None => ThrewUndefined end, [], s)
      else
        match fn s with
        | (Ok a, s) => Some (Returned a, [], s)
        | (Err e, s) =>
            if negb (isTransientConnectionError e) || at_least attempt max_retries then Some (Threw e, [], s)
            else
              match retry_from fuel (attempt + 1) (Some e) draws s with
              | Some (o, delays, s) => Some (o, pgBouncerBackoffMs (attempt + 1) (draws attempt) :: delays, s)
              | None => None
              end
        end
  end.

Definition withPgBouncerRetry (fuel : nat) (draws : Z → Z) (s : St) : option (outcome * list Z * St) :=
  retry_from fuel 0 None draws s.

(** ** Specification: run until an outcome that is not a transient error, but
    no more than [n + 1] times. *)
Fixpoint attempts (n : nat) (s : St) : outcome * nat * St :=
  match fn s with
  | (Ok a, s) => (Returned a, 1%nat, s)
  | (Err e, s) =>
      match n with
      | O => (Threw e, 1%nat, s)
      | S n => if isTransientConnectionError e then let '(o, k, s) := attempts n s in (o, (1 + k)%nat, s) else (Threw e, 1%nat, s)
      end
  end.

Lemma at_most_floor n q : Qle_bool (inject_Z n) q = (n <=? Qfloor q).
Proof.
  apply eq_iff_eq_true. rewrite Qle_bool_iff, Z.leb_le. split.
  - intros H%Qfloor_resp_le. by rewrite Qfloor_Z in H.
  - intros H. apply (Qle_trans _ (inject_Z (Qfloor q))); [by rewrite <- Zle_Qle|apply Qfloor_le].
Qed.

Lemma at_least_floor n q : n < Qfloor q → Qle_bool q (inject_Z n) = false.
Proof.
  intros Hn. apply not_true_iff_false. rewrite Qle_bool_iff. intros H%Qfloor_resp_le. rewrite Qfloor_Z in H. lia.
Qed.

(** The [i]-th delay is within the window of retry [i + 1]. *)
Definition delays_ok (from : Z) (delays : list Z) : Prop :=
  ∀ i d, delays !! i = Some d → 0 ≤ d ≤ Z.min max_ms (base_ms * 2 ^ (from + Z.of_nat i + 1)).

Lemma delays_ok_cons from d ds : 0 ≤ d ≤ Z.min max_ms (base_ms * 2 ^ (from + 1)) → delays_ok (from + 1) ds → delays_ok from (d :: ds).
Proof.
  intros Hd Hds [|i] x; [cbn; intros [= <-]; by rewrite Z.add_0_r|]. intros Hx. specialize (Hds i x Hx).
  by replace (from + Z.of_nat (S i) + 1) with (from + 1 + Z.of_nat i + 1) by lia.
Qed.

Lemma backoff_bounds attempt draw : 0 < base_ms → 0 < max_ms → 0 ≤ attempt → is_draw draw = true →
  0 ≤ pgBouncerBackoffMs attempt draw ≤ Z.min max_ms (base_ms * 2 ^ attempt).
Proof. intros Hb Hm Ha Hd. apply round_random_mul_bounds; [done|]. assert (0 < 2 ^ attempt) by (by apply Z.pow_pos_nonneg). nia. Qed.

Lemma retry_more_fuel fuel fuel' attempt lastError draws s r : (fuel ≤ fuel')%nat →
  retry_from fuel attempt lastError draws s = Some r → retry_from fuel' attempt lastError draws s = Some r.
Proof.
  revert fuel' attempt lastError s r. induction fuel as [|fuel IH]; intros fuel' attempt lastError s r Hf; [done|].
  destruct fuel' as [|fuel']; [lia|]. cbn [retry_from]. destruct (negb _); [done|].
  destruct (fn s) as [[a|e] s']; [done|]. destruct (negb _ || _); [done|].
  destruct (retry_from fuel _ _ _ _) as [x|] eqn:Hr; [|done]. by rewrite (IH fuel' _ _ _ x ltac:(lia) Hr).
Qed.

Lemma retry_attempts q n attempt lastError draws s fuel :
  max_retries = Finite q → 0 < base_ms → 0 < max_ms → (∀ i, is_draw (draws i) = true) →
  0 ≤ attempt → Qfloor q = attempt + Z.of_nat n → (n + 2 ≤ fuel)%nat →
  ∃ delays, retry_from fuel attempt lastError draws s = Some ((attempts n s).1.1, delays, (attempts n s).2) ∧
    delays_ok attempt delays ∧ ((attempts n s).1.2 ≤ S (length delays) ≤ S (attempts n s).1.2)%nat.
Proof.
  intros Hq Hb Hm Hd. revert attempt lastError s fuel. induction n as [|n IH]; intros attempt lastError s fuel Ha Hn Hf.
  - destruct fuel as [|fuel]; [lia|]. cbn [retry_from attempts]. rewrite Hq. cbn [at_most at_least].
    rewrite at_most_floor, (proj2 (Z.leb_le _ _)) by lia. cbn [negb].
    destruct (fn s) as [[a|e] s']; cbn [fst snd].
    1: { eexists. split_and!; [done|by intros i d|cbn; lia..]. }
    destruct (negb (isTransientConnectionError e) || Qle_bool q (inject_Z attempt)).
    { eexists. split_and!; [done|by intros i d|cbn; lia..]. }
    destruct fuel as [|fuel]; [lia|]. cbn [retry_from]. rewrite Hq. cbn [at_most]. rewrite at_most_floor, (proj2 (Z.leb_gt _ _)) by lia.
    eexists. split_and!; [done| |cbn; lia..]. apply delays_ok_cons; [apply backoff_bounds; [done..|lia|done]|by intros i d].
  - destruct fuel as [|fuel]; [lia|]. cbn [retry_from attempts]. rewrite Hq. cbn [at_most at_least].
    rewrite at_most_floor, (proj2 (Z.leb_le _ _)), at_least_floor by lia. cbn [negb].
    destruct (fn s) as [[a|e] s']; cbn [fst snd].
    1: { eexists. split_and!; [done|by intros i d|cbn; lia..]. }
    rewrite orb_false_r. destruct (isTransientConnectionError e); cbn [negb].
    2: { eexists. split_and!; [done|by intros i d|cbn; lia..]. }
    destruct (IH (attempt + 1) (Some e) s' fuel) as (delays & -> & Hds & Hk); [lia..|].
    destruct (attempts n s') as [[o k] s'']. cbn [fst snd] in *. eexists. split_and!; [done| |cbn; lia..].
    apply delays_ok_cons; [apply backoff_bounds; [done..|lia|done]|done].
Qed.

(** The loop always ends: it runs the operation until it succeeds or fails
    with an error that is not transient, and otherwise once more than the
    whole part of the limit; the outcome and the state are the last run's, and
    it sleeps between the runs, each time within the exponential window and
    the cap. *)
Theorem db_retry_runs q draws s :
  max_retries = Finite q → Qle_bool 0 q = true → 0 < base_ms → 0 < max_ms → (∀ i, is_draw (draws i) = true) →
  let n := Z.to_nat (Qfloor q) in
  let '(o, runs, s') := attempts n s in
  ∃ delays, (∀ fuel, (n + 2 ≤ fuel)%nat → withPgBouncerRetry fuel draws s = Some (o, delays, s')) ∧
    (runs ≤ S n)%nat ∧ (runs ≤ S (length delays) ≤ S runs)%nat ∧ delays_ok 0 delays ∧ o ≠ ThrewUndefined.
Proof.
  intros Hq H0 Hb Hm Hd n. assert (Hfl : Qfloor q = 0 + Z.of_nat n).
  { subst n. apply Qle_bool_iff, Qfloor_resp_le in H0. change (Qfloor 0) with 0 in H0. lia. }
  pose proof (retry_attempts q n 0 None draws s (n + 2) Hq Hb Hm Hd ltac:(lia) Hfl ltac:(lia)) as (delays & Hr & Hds & Hk).
  assert (Hruns : ((attempts n s).1.2 ≤ S n)%nat ∧ (attempts n s).1.1 ≠ ThrewUndefined).
  { clear. revert s. induction n as [|n IH]; intros s; cbn; destruct (fn s) as [[a|e] s']; cbn; [split; [lia|done]..|].
    destruct (isTransientConnectionError e); [|cbn; split; [lia|done]]. specialize (IH s'). destruct (attempts n s') as [[o k] s'']. cbn in *.
    destruct IH. split; [lia|done]. }
  destruct (attempts n s) as [[o runs] s'] eqn:Hat. cbn [fst snd] in *. exists delays. split_and!; try tauto; try lia.
  intros fuel Hf. by eapply retry_more_fuel.
Qed.

(** A limit that is not a number makes every call fail without running the
    operation: what is thrown is undefined. *)
Theorem nan_limit_never_runs fuel draws s :
  max_retries = NaN → (0 < fuel)%nat → withPgBouncerRetry fuel draws s = Some (ThrewUndefined, [], s).
Proof. intros Hn Hf. destruct fuel; [lia|]. unfold withPgBouncerRetry. cbn. by rewrite Hn. Qed.
End Retry.

(** A write whose answer is lost with its connection is run again: a
    reset after the server did the work counts as transient. *)
Theorem lost_answer_repeats_write base_ms max_ms draws (e : error) (n : Z) :
  isTransientConnectionError e = true →
  let insert (s : Z) := (if s =? n then Err e else Ok tt, s + 1) in
  ∃ delays, withPgBouncerRetry base_ms max_ms (Finite 3) insert 5 draws n = Some (Returned tt, delays, n + 2).
Proof.
  intros He insert. unfold withPgBouncerRetry. cbn [retry_from]. subst insert. cbn. rewrite Z.eqb_refl, He. cbn.
  destruct (Z.eqb_spec (n + 1) n); [lia|]. eexists. do 2 f_equal. lia.
Qed.

Definition reset : error := {| is_Error := true; code := Some "ECONNRESET"; message := "read ECONNRESET" |}.
Definition flaky (s : nat) : result error nat * nat := (if (s <? 2)%nat then Err reset else Ok s, S s).

Lemma db_retry_runs_witness :
  let '(o, runs, s') := attempts flaky 3 0%nat in
  ∃ delays, (∀ fuel, (5 ≤ fuel)%nat → withPgBouncerRetry 50 2000 (Finite 3) flaky fuel (λ _, 0) 0%nat = Some (o, delays, s')) ∧
    (runs ≤ 4)%nat ∧ (runs ≤ S (length delays) ≤ S runs)%nat ∧ delays_ok 50 2000 0 delays ∧ o ≠ ThrewUndefined.
Proof. exact (db_retry_runs 50 2000 (Finite 3) flaky 3 (λ _, 0) 0%nat eq_refl eq_refl ltac:(lia) ltac:(lia) (λ _, eq_refl)). Defined.

Lemma nan_limit_never_runs_witness : withPgBouncerRetry 50 2000 NaN flaky 1 (λ _, 0) 0%nat = Some (ThrewUndefined, [], 0%nat).
Proof. exact (nan_limit_never_runs 50 2000 NaN flaky 1 (λ _, 0) 0%nat eq_refl ltac:(lia)). Defined.

Lemma lost_answer_repeats_write_witness :
  ∃ delays, withPgBouncerRetry 50 2000 (Finite 3) (λ s, (if s =? 7 then Err reset else Ok tt, s + 1)) 5 (λ _, 0) 7 =
            Some (Returned tt, delays, 9).
Proof. exact (lost_answer_repeats_write 50 2000 (λ _, 0) reset 7 eq_refl). Defined.
End Retry.
