(* ===== verification/RevenueReports.v ===== *)
(** * Revenue reports: [src/services/analytics/revenueReports.ts] and
    [revenueReportSchema.ts].

    The report over a month or a range of months of the in-memory
    attestations.  Its amounts are placeholders computed from the number of
    attestations; the five percent are taken in double precision. *)

From S2P Require Import Prelude Numeric Hashing JsString Collections AuditChain Periods.
From S2P Require Attestation.
#[local] Open Scope Z_scope.
Import Attestation.Submit(att_id, attestedAt, period).

(** ** The schema *)

(** [/^(20[2-9]\d|210[0-5])-(0[1-9]|1[0-2])$/] *)
Definition SCHEMA_REGEX (s : string) : bool :=
  match s with
  | String a (String b (String c (String d (String h (String e (String f EmptyString)))))) =>
      ((Ascii.eqb a "2" && Ascii.eqb b "0" && in_range 50 57 c && is_digit d) ||
       (Ascii.eqb a "2" && Ascii.eqb b "1" && Ascii.eqb c "0" && in_range 48 53 d)) &&
      Ascii.eqb h "-" &&
      ((Ascii.eqb e "0" && in_range 49 57 f) || (Ascii.eqb e "1" && in_range 48 50 f))
  | _ => false
  end.

Definition suspiciousPatterns : list string :=
  ["<"; ">"; "&"; String (ascii_of_nat 34) EmptyString; "'"; ";"; "\"; "/"; "/*"; "*/"; "--"].

Definition periodString (s : string) : bool :=
  (String.length s <=? 7)%nat && (7 <=? String.length s)%nat && SCHEMA_REGEX s &&
  (let parts := map Number (split_on "-" s) in
   (2020 <=? nth 0 parts 0) && (nth 0 parts 0 <=? 2105) && (1 <=? nth 1 parts 0) && (nth 1 parts 0 <=? 12)) &&
  negb (existsb (λ p, contains p s) suspiciousPatterns).

Definition given (s : option string) : bool := match s with Some (String _ _) => true | _ => false end.
Definition optional (s : option string) : bool := match s with Some s => periodString s | None => true end.

Definition revenueReportQuerySchema (per from to : option string) : bool :=
  optional per && optional from && optional to &&
  ((given per && negb (given from) && negb (given to)) || (negb (given per) && given from && given to)).

(** ** The report *)
Definition MAX_RANGE_MONTHS : Z := 24.

Inductive TimeWindowError := InvalidQuery | MissingWindow | InvalidPeriod | FromAfterTo | RangeTooLong (months : Z).

(** [/^\d{4}-\d{2}$/] *)
Definition MONTH_REGEX (s : string) : bool :=
  match s with
  | String a (String b (String c (String d (String h (String e (String f EmptyString)))))) =>
      is_digit a && is_digit b && is_digit c && is_digit d && Ascii.eqb h "-" && is_digit e && is_digit f
  | _ => false
  end.

Definition parsePeriod (value : string) : result TimeWindowError (Z * Z) :=
  if negb (MONTH_REGEX value) then Err InvalidPeriod
  else
    let parts := map Number (split_on "-" value) in
    let month := nth 1 parts 0 in
    if (month <? 1) || (12 <? month) then Err InvalidPeriod else Ok (nth 0 parts 0, month).

Definition toOrdinal (p : Z * Z) : Z := p.1 * 12 + (p.2 - 1).

Record RevenueReport := { window : string; total : Z; net : Z; currency : string; breakdown : list (string * Z) }.

(** [0.95] is [8556839292003942 / 2^53]. *)
Definition ninety_five_percent : Z := 8556839292003942.

Definition report (resolvedPeriod : string) (l : list Attestation.Submit.Attestation) : option RevenueReport :=
  match l with
  | [] => None
  | _ =>
      let total := Z.of_nat (length l) * 100 in
      Some {| window := resolvedPeriod; total := total; net := round_random_mul ninety_five_percent total;
              currency := "USD"; breakdown := map (λ a, (att_id a, attestedAt a)) l |}
  end.

(** JavaScript's [a.period >= from && a.period <= to]. *)
Definition between (from to p : string) : bool := negb (str_lt p from) && negb (str_lt to p).

Definition getRevenueReport (b : string) (per from to : option string) (store : list Attestation.Submit.Attestation)
  : result TimeWindowError (option RevenueReport) :=
  if negb (revenueReportQuerySchema per from to) then Err InvalidQuery
  else if negb (given per) && negb (given from && given to) then Err MissingWindow
  else
    let attestations := listByBusiness b store in
    match per with
    | Some ((String _ _) as p) =>
        match parsePeriod p with
        | Err e => Err e
        | Ok _ => Ok (report p (List.filter (λ a, String.eqb (period a) p) attestations))
        end
    | _ =>
        let f := default EmptyString from in
        let t := default EmptyString to in
        match parsePeriod f, parsePeriod t with
        | Err e, _ | Ok _, Err e => Err e
        | Ok pf, Ok pt =>
            if toOrdinal pt <? toOrdinal pf then Err FromAfterTo
            else
              let months := toOrdinal pt - toOrdinal pf + 1 in
              if MAX_RANGE_MONTHS <? months then Err (RangeTooLong months)
              else Ok (report (f +:+ " to " +:+ t) (List.filter (λ a, between f t (period a)) attestations))
        end
    end.

(** ** Labels and their order *)

Lemma code_digit k : 0 ≤ k ≤ 9 → code (digit_char k) = 48 + k.
Proof. intros Hk. unfold code, digit_char. rewrite nat_ascii_embedding by lia. lia. Qed.

Lemma str_lt_digits j k a b : 0 ≤ j ≤ 9 → 0 ≤ k ≤ 9 →
  str_lt (String (digit_char j) a) (String (digit_char k) b) = (j <? k) || ((j =? k) && str_lt a b).
Proof.
  intros Hj Hk. cbn [str_lt]. rewrite !code_digit by done. f_equal; [|f_equal].
  - destruct (Z.ltb_spec (48 + j) (48 + k)), (Z.ltb_spec j k); lia.
  - destruct (Z.eqb_spec (48 + j) (48 + k)), (Z.eqb_spec j k); lia.
Qed.

Lemma str_lt_same c a b : str_lt (String c a) (String c b) = str_lt a b.
Proof. cbn [str_lt]. by rewrite Z.ltb_irrefl, Z.eqb_refl. Qed.

(** Solves [0 ≤ d ≤ 9] for a digit [d]. *)
Ltac digit_bounds :=
  match goal with
  | |- 0 ≤ ?x mod 10 ≤ 9 => let H := fresh in pose proof (Z.mod_pos_bound x 10 ltac:(lia)) as H; lia
  | |- 0 ≤ ?x / ?d ≤ 9 => split; [apply Z.div_pos; lia|apply Z.lt_succ_r, Z.div_lt_upper_bound; lia]
  end.

(** Months of four-digit years are ordered like their labels. *)
Lemma label_lt y m y' m' : 0 ≤ y ≤ 9999 → 1 ≤ m ≤ 12 → 0 ≤ y' ≤ 9999 → 1 ≤ m' ≤ 12 →
  str_lt (label y m) (label y' m') = (toOrdinal (y, m) <? toOrdinal (y', m')).
Proof.
  intros Hy Hm Hy' Hm'. unfold label, pair_label, toOrdinal. cbn [fst snd].
  rewrite !str_lt_digits by digit_bounds. rewrite str_lt_same, !str_lt_digits by digit_bounds.
  cbn [str_lt]. rewrite andb_false_r, orb_false_r.
  pose proof (Z.div_mod m 10). pose proof (Z.div_mod m' 10). pose proof (Z.mod_pos_bound m 10). pose proof (Z.mod_pos_bound m' 10).
  assert (∀ x, 0 ≤ x ≤ 9999 → x = 1000 * (x / 1000) + 100 * (x / 100 mod 10) + 10 * (x / 10 mod 10) + x mod 10 ∧
            0 ≤ x / 100 mod 10 ≤ 9 ∧ 0 ≤ x / 10 mod 10 ≤ 9 ∧ 0 ≤ x mod 10 ≤ 9) as Hx.
  { intros x Hx. pose proof (Z.div_mod x 10). pose proof (Z.div_mod (x / 10) 10). pose proof (Z.div_mod (x / 100) 10).
    rewrite !Z.div_div in * by lia. change (10 * 10) with 100 in *. change (100 * 10) with 1000 in *.
    pose proof (Z.mod_pos_bound x 10). pose proof (Z.mod_pos_bound (x / 10) 10). pose proof (Z.mod_pos_bound (x / 100) 10). lia. }
  destruct (Hx y Hy) as (Ey & ? & ? & ?), (Hx y' Hy') as (Ey' & ? & ? & ?). clear Hx.
  apply eq_true_iff_eq. rewrite !orb_true_iff, !andb_true_iff, !orb_true_iff, !andb_true_iff, !Z.ltb_lt, !Z.eqb_eq. lia.
Qed.

(** ** Accepted windows *)

Definition in_years (y m : Z) : Prop := 2020 ≤ y ≤ 2105 ∧ 1 ≤ m ≤ 12.

Lemma schema_period s : SCHEMA_REGEX s = true → PERIOD_REGEX s = true.
Proof.
  unfold SCHEMA_REGEX, PERIOD_REGEX. do 7 (destruct s as [|? s]; [done|]). destruct s; [|done].
  rewrite !andb_true_iff, !orb_true_iff, !andb_true_iff. unfold is_digit, in_range.
  rewrite !andb_true_iff, !Z.leb_le, !Ascii.eqb_eq. intros [[[(((-> & ->) & ?) & ?)|(((-> & ->) & ->) & ?)] ->] Hf];
    pose proof (eq_refl : code "0" = 48); pose proof (eq_refl : code "1" = 49); pose proof (eq_refl : code "2" = 50); split_and!; try done; lia.
Qed.

(** What the schema accepts: the labels of the years 2020 to 2105. *)
Lemma periodString_label s : periodString s = true ↔ ∃ y m, s = label y m ∧ in_years y m.
Proof.
  unfold in_years. split.
  - unfold periodString. rewrite !andb_true_iff. intros [[[_ Hs] Hb] _]. apply schema_period, regex_label in Hs as (y & m & -> & Hy & Hm).
    rewrite label_parts in Hb by lia. cbn [nth] in Hb. exists y, m. split; [done|]. rewrite !Z.leb_le in Hb. lia.
  - intros (y & m & -> & Hy & Hm).
    assert (Forall (λ y, Forall (λ m, periodString (label y m) = true) (seqZ 1 12)) (seqZ 2020 86)) as H
      by (apply (bool_decide_unpack _); vm_compute; exact I).
    rewrite Forall_forall in H. specialize (H y ltac:(apply elem_of_seqZ; lia)). rewrite Forall_forall in H.
    apply H, elem_of_seqZ. lia.
Qed.

Lemma parsePeriod_label y m : 0 ≤ y ≤ 9999 → 1 ≤ m ≤ 12 → parsePeriod (label y m) = Ok (y, m).
Proof.
  intros Hy Hm. unfold parsePeriod. rewrite label_parts by done. cbn [nth].
  assert (MONTH_REGEX (label y m) = true) as ->.
  { pose proof (label_regex y m Hy Hm) as Hr. revert Hr. unfold PERIOD_REGEX, MONTH_REGEX, label, pair_label.
    rewrite !andb_true_iff. unfold is_digit, in_range. rewrite orb_true_iff, !andb_true_iff, !Z.leb_le, !Ascii.eqb_eq.
    intros (((? & ?) & _) & [[-> ?]|[-> ?]]);
      pose proof (eq_refl : code "0" = 48); pose proof (eq_refl : code "1" = 49); split_and!; try done; lia. }
  cbn [negb]. destruct (Z.ltb_spec m 1), (Z.ltb_spec 12 m); try lia. done.
Qed.

Lemma given_label y m : given (Some (label y m)) = true.
Proof. done. Qed.

(** The months from [y-m] to [y'-m'], both included. *)
Definition months (y m y' m' : Z) : Z := toOrdinal (y', m') - toOrdinal (y, m) + 1.

Lemma range_report b y m y' m' store : in_years y m → in_years y' m' →
  getRevenueReport b None (Some (label y m)) (Some (label y' m')) store =
  if months y m y' m' <? 1 then Err FromAfterTo
  else if 24 <? months y m y' m' then Err (RangeTooLong (months y m y' m'))
  else Ok (report (label y m +:+ " to " +:+ label y' m')
             (List.filter (λ a, between (label y m) (label y' m') (period a)) (listByBusiness b store))).
Proof.
  intros H1 H2. unfold getRevenueReport, revenueReportQuerySchema. cbn [optional].
  rewrite (proj2 (periodString_label (label y m))), (proj2 (periodString_label (label y' m'))) by eauto.
  rewrite !given_label. cbn [given andb orb negb from_option]. unfold Datatypes.id.
  unfold in_years in *. rewrite !parsePeriod_label by lia.
  unfold months, MAX_RANGE_MONTHS. destruct (Z.ltb_spec (toOrdinal (y', m')) (toOrdinal (y, m))) as [Hlt|Hge].
  - by rewrite (proj2 (Z.ltb_lt _ 1)) by lia.
  - by rewrite (proj2 (Z.ltb_ge _ 1)) by lia.
Qed.

Lemma between_labels y m y' m' ya ma : in_years y m → in_years y' m' → 0 ≤ ya ≤ 9999 → 1 ≤ ma ≤ 12 →
  between (label y m) (label y' m') (label ya ma) = true ↔
  toOrdinal (y, m) ≤ toOrdinal (ya, ma) ≤ toOrdinal (y', m').
Proof.
  unfold in_years, between. intros H1 H2 Hy Hm. rewrite !label_lt by lia.
  rewrite andb_true_iff, !negb_true_iff, !Z.ltb_ge. lia.
Qed.

Lemma listByBusiness_in b store a : a ∈ listByBusiness b store ↔ a ∈ store ∧ Attestation.Submit.businessId a = b.
Proof.
  unfold listByBusiness. rewrite js_sort_perm, !list_elem_of_In, filter_In, String.eqb_eq. done.
Qed.

(** A range of months is refused when it is reversed or longer than two
    years; otherwise the report lists exactly the attestations of the business
    whose month lies in it: comparing the texts is comparing the months. *)
Theorem range_report_exact b y m y' m' store :
  in_years y m → in_years y' m' →
  let n := months y m y' m' in
  let r := getRevenueReport b None (Some (label y m)) (Some (label y' m')) store in
  (n < 1 → r = Err FromAfterTo) ∧ (24 < n → r = Err (RangeTooLong n)) ∧
  (1 ≤ n ≤ 24 → ∃ l, r = Ok (report (label y m +:+ " to " +:+ label y' m') l) ∧
     ∀ a ya ma, period a = label ya ma → 0 ≤ ya ≤ 9999 → 1 ≤ ma ≤ 12 →
       (a ∈ l ↔ (a ∈ store ∧ Attestation.Submit.businessId a = b) ∧ toOrdinal (y, m) ≤ toOrdinal (ya, ma) ≤ toOrdinal (y', m'))).
Proof.
  intros H1 H2 n r. assert (Hr := range_report b y m y' m' store H1 H2). fold n r in Hr. split_and!.
  - intros Hn. rewrite Hr. by rewrite (proj2 (Z.ltb_lt n 1)) by lia.
  - intros Hn. rewrite Hr. rewrite (proj2 (Z.ltb_ge n 1)) by lia. by rewrite (proj2 (Z.ltb_lt 24 n)).
  - intros Hn. rewrite Hr, (proj2 (Z.ltb_ge n 1)), (proj2 (Z.ltb_ge 24 n)) by lia. eexists. split; [done|].
    intros a ya ma Hp Hy Hm. rewrite list_elem_of_In, filter_In, <- list_elem_of_In, listByBusiness_in, Hp, between_labels by done. done.
Qed.

(** A report is computed for a single month alone, or for a range of at
    most two years alone; every other query is an error. *)
Theorem window_accepted_iff b per from to store :
  is_ok (getRevenueReport b per from to store) = true ↔
  (∃ y m, per = Some (label y m) ∧ from = None ∧ to = None ∧ in_years y m) ∨
  (∃ y m y' m', per = None ∧ from = Some (label y m) ∧ to = Some (label y' m') ∧
     in_years y m ∧ in_years y' m' ∧ 1 ≤ months y m y' m' ≤ 24).
Proof.
  split.
  - intros Hok. assert (revenueReportQuerySchema per from to = true) as Hs.
    { unfold getRevenueReport in Hok. by destruct (revenueReportQuerySchema per from to). }
    assert (Hlabel : ∀ o, optional o = true → o = None ∨ ∃ y m, o = Some (label y m) ∧ in_years y m).
    { intros [s|]; [|by left]. cbn. intros (y & m & -> & Hy)%periodString_label. right. eauto. }
    unfold revenueReportQuerySchema in Hs. apply andb_true_iff in Hs as [[[Hp Hf]%andb_true_iff Ht]%andb_true_iff Hs].
    apply Hlabel in Hp as [->|(y & m & -> & Hy)], Hf as [->|(y1 & m1 & -> & Hy1)], Ht as [->|(y2 & m2 & -> & Hy2)]; try done.
    + right. exists y1, m1, y2, m2. split_and!; try done; rewrite range_report in Hok by done;
        destruct (Z.ltb_spec (months y1 m1 y2 m2) 1), (Z.ltb_spec 24 (months y1 m1 y2 m2)); done.
    + left. eauto 10.
  - intros [(y & m & -> & -> & -> & Hy)|(y & m & y' & m' & -> & -> & -> & H1 & H2 & Hn)].
    + unfold getRevenueReport, revenueReportQuerySchema. cbn [optional].
      rewrite (proj2 (periodString_label (label y m))) by eauto. rewrite given_label. cbn [given andb orb negb].
      unfold in_years in Hy. change (match label y m with EmptyString => _ | String _ _ => ?x end) with x.
      by rewrite parsePeriod_label by lia.
    + rewrite range_report by done. by rewrite (proj2 (Z.ltb_ge _ 1)), (proj2 (Z.ltb_ge 24 _)) by lia.
Qed.

(** ** Amounts *)

Lemma fl53_ge_err m : m ≤ fl53 m ∨ (0 < Z.log2 m - 52 ∧ m - 2 ^ (Z.log2 m - 53) ≤ fl53 m).
Proof.
  unfold fl53. case_if; [left; lia|]. right. split; [lia|].
  pose proof (rne_shift_error m (Z.log2 m - 52)) as He.
  replace (Z.log2 m - 52 - 1) with (Z.log2 m - 53) in He by lia. lia.
Qed.

Lemma half_ulp m : 0 < m → 2 ^ (Z.log2 m - 53) * 2 ^ 53 ≤ m ∨ Z.log2 m - 53 < 0.
Proof.
  intros Hm. destruct (Z.lt_ge_cases (Z.log2 m) 53) as [|Hl]; [right; lia|left].
  rewrite <- Z.pow_add_r by lia. replace (Z.log2 m - 53 + 53) with (Z.log2 m) by lia. by apply Z.log2_spec.
Qed.

Lemma ninety_five n : 0 < n < 2 ^ 40 → round_random_mul ninety_five_percent (n * 100) = 95 * n.
Proof.
  intros Hn. unfold round_random_mul, ninety_five_percent. set (m := 8556839292003942 * (n * 100)).
  assert (Hhalf : 2 ^ (Z.log2 m - 53) * 2 ^ 53 ≤ m ∨ Z.log2 m - 53 < 0) by (apply half_ulp; lia).
  assert (Hm : m = 95 * n * 2 ^ 53 - 40 * n) by (subst m; change (2 ^ 53) with 9007199254740992; lia).
  assert (Hp : ∀ k, k < 0 → 2 ^ k = 0) by (intros k Hk; by apply Z.pow_neg_r).
  assert (2 ^ (Z.log2 m - 53) ≤ 95 * n) as He.
  { destruct Hhalf as [Hh|Hh]; [|rewrite Hp by done; lia]. change (2 ^ 53) with 9007199254740992 in *. lia. }
  pose proof (fl53_le_err m) as Hu. pose proof (fl53_ge_err m) as Hl. generalize dependent (fl53 m). intros f Hu Hl.
  change (2 ^ 53) with 9007199254740992 in *. change (2 ^ 54) with 18014398509481984. change (2 ^ 40) with 1099511627776 in Hn.
  symmetry. apply (Z.div_unique_pos _ _ _ (2 * f + 9007199254740992 - 18014398509481984 * (95 * n))); lia.
Qed.

(** The placeholder amounts: a dollar for each attestation, 95 cents net,
    exactly, although the five percent are taken in binary floating point. *)
Theorem report_amounts w l r :
  report w l = Some r → Z.of_nat (length l) < 2 ^ 40 →
  total r = 100 * Z.of_nat (length (breakdown r)) ∧ net r = 95 * Z.of_nat (length (breakdown r)) ∧
  (breakdown r).*1 = map att_id l.
Proof.
  destruct l as [|a l]; [done|]. intros [= <-] Hl. cbn [total net breakdown].
  change (_ :: map _ l) with (map (λ a, (att_id a, attestedAt a)) (a :: l)). rewrite length_map.
  cbn [length] in *. split_and!; [lia|apply ninety_five; lia|].
  change (fst <$> ?x) with (map fst x). by rewrite map_map.
Qed.

(** ** The records of the module *)
Definition seeded : list Attestation.Submit.Attestation :=
  [{| att_id := "att_1"; Attestation.Submit.businessId := "biz_1"; period := "2025-10"; attestedAt := 1761998400000;
      Attestation.Submit.att_status := Some Attestation.Submit.Active; Attestation.Submit.revokedAt := None;
      Attestation.Submit.revokeReason := None |};
   {| att_id := "att_2"; Attestation.Submit.businessId := "biz_1"; period := "2025-11"; attestedAt := 1764590400000;
      Attestation.Submit.att_status := Some Attestation.Submit.Revoked; Attestation.Submit.revokedAt := None;
      Attestation.Submit.revokeReason := None |};
   {| att_id := "att_3"; Attestation.Submit.businessId := "biz_2"; period := "2025-Q4"; attestedAt := 1767614400000;
      Attestation.Submit.att_status := Some Attestation.Submit.Active; Attestation.Submit.revokedAt := None;
      Attestation.Submit.revokeReason := None |}].

Definition total_of (r : result TimeWindowError (option RevenueReport)) : option Z :=
  match r with Ok (Some r) => Some (total r) | _ => None end.

(** The attestation of the fourth quarter of 2025 is not in the report of its
    own three months, but in the one that ends a month later. *)
Example quarter_text : getRevenueReport "biz_2" None (Some "2025-10") (Some "2025-12") seeded = Ok None ∧
  total_of (getRevenueReport "biz_2" None (Some "2025-10") (Some "2026-01") seeded) = Some 100.
Proof. split; reflexivity. Qed.

(** A revoked attestation counts like any other. *)
Example revoked_counts : total_of (getRevenueReport "biz_1" (Some "2025-11") None None seeded) = Some 100.
Proof. reflexivity. Qed.

Lemma range_report_exact_witness :
  ∃ l, getRevenueReport "biz_1" None (Some (label 2025 10)) (Some (label 2025 11)) seeded =
       Ok (report (label 2025 10 +:+ " to " +:+ label 2025 11) l) ∧ map att_id (List.filter (λ a, String.eqb (period a) "2025-11") l) = ["att_2"].
Proof.
  destruct (proj2 (proj2 (range_report_exact "biz_1" 2025 10 2025 11 seeded ltac:(split; lia) ltac:(split; lia)))
              ltac:(split; vm_compute; discriminate)) as (l & Hl & _).
  exists (List.filter (λ a, between (label 2025 10) (label 2025 11) (period a)) (listByBusiness "biz_1" seeded)).
  split; [|vm_compute; reflexivity]. rewrite Hl. rewrite range_report in Hl by (split; lia). symmetry. exact Hl.
Defined.

Lemma report_amounts_witness : ∀ r, report "2025-11" (listByBusiness "biz_1" seeded) = Some r → net r = 190.
Proof.
  intros r Hr. destruct (report_amounts "2025-11" (listByBusiness "biz_1" seeded) r Hr ltac:(vm_compute; reflexivity)) as (_ & -> & _).
  vm_compute in Hr. injection Hr as <-. vm_compute. reflexivity.
Defined.
