(* ===== verification/Reminders.v ===== *)
(** * Attestation reminders: [src/jobs/attestationReminder.ts], run through
    [src/jobs/jobRunner.ts].

    Time zones are a function from a zone and an instant to the offset of
    local time, [None] for a zone [Intl] refuses; the text of dates is an
    interface.  Instants are in milliseconds. *)

From S2P Require Import Prelude Collections Periods Businesses.
Import Calendar.
#[local] Open Scope Z_scope.

(** Dates as texts: [toISOString] and [new Date(text)]. *)
Class DateText := { toISOString : Z → string; parse_date : string → option Z; parse_iso t : parse_date (toISOString t) = Some t;
                    iso_nonempty t : toISOString t ≠ EmptyString }.

Section Reminders.
Context {dates : DateText} (offset : string → Z → option Z).

(** ** The next boundary *)

(** The weekday of a day number, Sunday is 0. *)
Definition weekday (d : Z) : Z := (d + 4) mod 7.

Definition daysUntilMonday (dow : Z) : Z :=
  if dow =? 1 then 7 else let k := (8 - dow) mod 7 in if k =? 0 then 7 else k.

(** The fields [Intl.DateTimeFormat] gives, then [Date.UTC] of them. *)
Definition nextPeriodBoundary (reference : Z) (tz : string) (period : ReportingPeriod) : option Z :=
  match offset tz reference with
  | None => None
  | Some o =>
      let local := reference + o in
      let year := getUTCFullYear local in
      let month := getUTCMonth local + 1 in
      let day := local / msPerDay - first_day (month_index local) + 1 in
      Some match period with
           | weekly => Date_UTC year (month - 1) + (day + daysUntilMonday (weekday (local / msPerDay)) - 1) * msPerDay
           | monthly => Date_UTC year month
           end
  end.

(** The instant a business is measured from; [None] for a text that is no
    date. *)
Definition reference_of (b : Business) : option Z :=
  match lastReminderSentAt b with Some ((String _ _) as s) => parse_date s | _ => Some (createdAt b) end.

Definition zone_of (b : Business) : string :=
  match reportingTimezone b with EmptyString => "UTC" | z => z end.

(** [None] when [Intl] throws: for a zone or a date it refuses. *)
Definition shouldSendReminder (b : Business) (now : Z) : option bool :=
  match reference_of b with
  | None => None
  | Some r => (λ boundary, boundary <=? now) <$> nextPeriodBoundary r (zone_of b) (reportingPeriod b)
  end.

(** ** The job *)

Record JobOutcome := { itemsProcessed : Z; success : bool }.

(** Goes through the copies [getAll] gave; [None] when one of them throws, in
    which case what was written before stays.  The job is taken to run within
    the instant it is given. *)
Fixpoint remind (now : Z) (l : list Business) (reminded : Z) (m : businesses) : option Z * businesses :=
  match l with
  | [] => (Some reminded, m)
  | b :: l =>
      match shouldSendReminder b now with
      | None => (None, m)
      | Some false => remind now l reminded m
      | Some true => remind now l (reminded + 1) (setLastReminderSentAt now (id b) (toISOString now) m).2
      end
  end.

Definition attestationReminderJob (now : Z) (m : businesses) : JobOutcome * businesses :=
  match remind now (getAll m) 0 m with
  | (Some n, m) => ({| itemsProcessed := n; success := true |}, m)
  | (None, m) => ({| itemsProcessed := 0; success := false |}, m)
  end.

(** ** Boundaries as day numbers *)

(** Weeks start on Mondays; day 0 was a Thursday. *)
Definition week_of (d : Z) : Z := (d + 3) / 7.
Definition week_start (w : Z) : Z := 7 * w - 3.

Lemma days_until_monday d : d + daysUntilMonday (weekday d) = week_start (week_of d + 1).
Proof.
  unfold weekday, week_of, week_start.
  pose proof (Z.div_mod (d + 3) 7). pose proof (Z.mod_pos_bound (d + 3) 7). set (q := (d + 3) / 7) in *. set (r := (d + 3) mod 7) in *.
  assert ((d + 4) mod 7 = if r =? 6 then 0 else r + 1) as ->.
  { replace (d + 4) with ((if r =? 6 then 0 else r + 1) + (q + if r =? 6 then 1 else 0) * 7) by (destruct (Z.eqb_spec r 6); lia).
    rewrite Z.mod_add by lia. apply Z.mod_small. destruct (Z.eqb_spec r 6); lia. }
  assert (daysUntilMonday (if r =? 6 then 0 else r + 1) = 7 - r) as ->; [|lia].
  assert (Forall (λ r, daysUntilMonday (if r =? 6 then 0 else r + 1) = 7 - r) (seqZ 0 7)) as Hall
    by (apply (bool_decide_unpack _); vm_compute; exact I).
  rewrite Forall_forall in Hall. apply Hall, elem_of_seqZ. lia.
Qed.

(** The period a day belongs to, and the first day of a period. *)
Definition period_of (p : ReportingPeriod) (local : Z) : Z :=
  match p with weekly => week_of (local / msPerDay) | monthly => month_index local end.
Definition period_start (p : ReportingPeriod) (k : Z) : Z :=
  match p with weekly => week_start k | monthly => first_day k end.

(** The instants the code is used for: their local years are not those of the
    first century, which [Date.UTC] reads as of the twentieth. *)
Definition modern (local : Z) : Prop := 100 ≤ getUTCFullYear local.

Lemma Date_UTC_first y m : 100 ≤ y → Date_UTC y m = first_day (12 * y + m) * msPerDay.
Proof.
  intros Hy. unfold Date_UTC. destruct (Z.leb_spec y 99); [lia|]. rewrite andb_false_r. by rewrite make_day_index.
Qed.

Lemma boundary_eq reference tz p o :
  offset tz reference = Some o → modern (reference + o) →
  nextPeriodBoundary reference tz p = Some (period_start p (period_of p (reference + o) + 1) * msPerDay).
Proof.
  intros Ho Hm. unfold nextPeriodBoundary. rewrite Ho. f_equal. destruct p; cbn [period_of period_start].
  - rewrite Date_UTC_first by done. rewrite <- days_until_monday. unfold month_index.
    replace (getUTCMonth (reference + o) + 1 - 1) with (getUTCMonth (reference + o)) by lia. lia.
  - rewrite Date_UTC_first by done. do 2 f_equal. unfold month_index. lia.
Qed.

(** An instant is past the start of a period exactly when its own period is
    that one or later. *)
Lemma period_start_le p k t : period_start p k * msPerDay <= t ↔ k <= period_of p t.
Proof.
  destruct p; cbn [period_start period_of].
  - unfold week_start, week_of, msPerDay. pose proof (Z.div_mod t 86400000). pose proof (Z.mod_pos_bound t 86400000).
    set (d := t / 86400000) in *. pose proof (Z.div_mod (d + 3) 7). pose proof (Z.mod_pos_bound (d + 3) 7). lia.
  - destruct (month_index_spec t) as [_ Ht]. unfold msPerDay in *. split; intros H.
    + destruct (Z.le_gt_cases k (month_index t)) as [|Hk]; [done|]. pose proof (first_day_mono (month_index t + 1) k). lia.
    + pose proof (first_day_mono k (month_index t) H). lia.
Qed.

Lemma shouldSend_iff b now r o :
  reference_of b = Some r → offset (zone_of b) r = Some o → modern (r + o) →
  shouldSendReminder b now = Some (period_of (reportingPeriod b) (r + o) <? period_of (reportingPeriod b) now).
Proof.
  intros Hr Ho Hm. unfold shouldSendReminder. rewrite Hr, (boundary_eq r _ _ o Ho Hm). cbn. f_equal.
  apply eq_true_iff_eq. rewrite Z.leb_le, Z.ltb_lt, period_start_le. lia.
Qed.

(** What the job writes on a business it reminds. *)
Definition reminded_at (now : Z) (b : Business) : Business :=
  {| id := id b; userId := userId b; name := name b; email := email b; industry := industry b; description := description b;
     website := website b; reportingPeriod := reportingPeriod b; reportingTimezone := reportingTimezone b;
     lastReminderSentAt := Some (toISOString now); createdAt := createdAt b; updatedAt := now |}.

Lemma reference_reminded now b : reference_of (reminded_at now b) = Some now.
Proof.
  unfold reference_of. cbn. destruct (toISOString now) eqn:E; [by apply iso_nonempty in E|]. by rewrite <- E, parse_iso.
Qed.

(** ** Properties *)

(** Where local time is universal time, a reminder is due exactly when a
    new week or month has begun since the last one, and once sent it is not
    due again before the next begins. *)
Theorem utc_reminder_once_per_period b now now' r :
  (∀ t, offset (zone_of b) t = Some 0) → reference_of b = Some r → modern r → modern now →
  shouldSendReminder b now = Some (period_of (reportingPeriod b) r <? period_of (reportingPeriod b) now) ∧
  (shouldSendReminder (reminded_at now b) now' = Some true ↔
     period_of (reportingPeriod b) now < period_of (reportingPeriod b) now').
Proof.
  intros Ho Hr Hm Hm'. split.
  - rewrite (shouldSend_iff b now r 0); rewrite ?Z.add_0_r; auto.
  - rewrite (shouldSend_iff (reminded_at now b) now' now 0); rewrite ?Z.add_0_r; auto using reference_reminded.
    cbn [reportingPeriod reminded_at]. rewrite <- Z.ltb_lt. split; [by intros [= ->]|by intros ->].
Qed.

(** West of Greenwich, from the universal midnight that ends the local
    period's last day until the local one, a reminder that was just sent is due
    at once and again at every later run: the boundary is taken at universal
    midnight, and the date at the local one. *)
Theorem west_of_utc_repeats b now now' o :
  offset (zone_of b) now = Some o → modern (now + o) →
  period_of (reportingPeriod b) (now + o) < period_of (reportingPeriod b) now →
  now <= now' → shouldSendReminder (reminded_at now b) now' = Some true.
Proof.
  intros Ho Hm Hlt Hle. rewrite (shouldSend_iff (reminded_at now b) now' now o); auto using reference_reminded.
  f_equal. apply Z.ltb_lt. cbn [reportingPeriod reminded_at].
  apply (Z.lt_le_trans _ _ _ Hlt). apply period_start_le.
  assert (period_start (reportingPeriod b) (period_of (reportingPeriod b) now) * msPerDay <= now) by by apply period_start_le.
  lia.
Qed.

(** ** The whole job *)

Definition due (now : Z) (b : Business) : bool := default false (shouldSendReminder b now).

Lemma set_reminder now b m : map_get (id b) m = Some b →
  (setLastReminderSentAt now (id b) (toISOString now) m).2 = map_set (id b) (reminded_at now b) m.
Proof. intros Hb. unfold setLastReminderSentAt. by rewrite Hb. Qed.

(** The businesses of [l] that are due are reminded, in order, up to the first
    one that cannot be judged. *)
Lemma remind_spec now l n m : NoDup (map id l) → Forall (λ b, map_get (id b) m = Some b) l →
  Forall (λ b, is_Some (shouldSendReminder b now)) l →
  let '(r, m') := remind now l n m in
  r = Some (n + Z.of_nat (length (List.filter (due now) l))) ∧
  ∀ i, map_get i m' = (λ b, if due now b && includes i (map id l) then reminded_at now b else b) <$> map_get i m.
Proof.
  revert n m. induction l as [|b l IH]; intros n m Hn Hm Hs; cbn [remind].
  - split; [cbn; f_equal; lia|]. intros i. destruct (map_get i m) as [b|]; cbn; [by rewrite andb_false_r|done].
  - apply NoDup_cons in Hn as [Hb Hn]. apply Forall_cons in Hm as [Hmb Hm], Hs as [[d Hd] Hs].
    assert (Hdue : due now b = d) by (unfold due; by rewrite Hd). rewrite Hd. destruct d.
    + rewrite (set_reminder now b m Hmb).
      assert (Hm' : Forall (λ x, map_get (id x) (map_set (id b) (reminded_at now b) m) = Some x) l).
      { rewrite Forall_forall in Hm |- *. intros x Hx. rewrite map_get_set. destruct (String.eqb_spec (id x) (id b)) as [He|]; [|by apply Hm].
        destruct Hb. rewrite <- He. by apply list_elem_of_fmap_2. }
      specialize (IH (n + 1) _ Hn Hm' Hs). destruct (remind now l (n + 1) _) as [r m']. destruct IH as [-> IH]. split.
      * cbn [List.filter]. rewrite Hdue. cbn [length]. f_equal. lia.
      * intros i. rewrite IH, map_get_set. cbn [map]. destruct (String.eqb_spec i (id b)) as [->|Hne].
        -- rewrite Hmb. cbn. rewrite String.eqb_refl, Hdue. cbn. f_equal.
           destruct (includes (id b) (map id l)) eqn:Hin; [apply includes_spec in Hin; by destruct Hb|by rewrite andb_false_r].
        -- destruct (map_get i m); [|done]. cbn. by rewrite (proj2 (String.eqb_neq _ _) Hne).
    + specialize (IH n m Hn Hm Hs). destruct (remind now l n m) as [r m']. destruct IH as [-> IH]. split.
      * cbn [List.filter]. by rewrite Hdue.
      * intros i. rewrite IH. cbn [map]. destruct (map_get i m) as [x|] eqn:Hx; [|done]. cbn. f_equal.
        destruct (String.eqb_spec i (id b)) as [->|Hne]; [|done]. rewrite Hmb in Hx. injection Hx as <-. by rewrite Hdue.
Qed.

Lemma getAll_keyed m : well_keyed m →
  NoDup (map id (getAll m)) ∧ Forall (λ b, map_get (id b) m = Some b) (getAll m) ∧
  ∀ i b, map_get i m = Some b → includes i (map id (getAll m)) = true.
Proof.
  intros [Hn Hk]. unfold getAll. assert (map id (map snd m) = m.*1) as ->.
  { rewrite map_map. apply map_ext_Forall. done. }
  split_and!; [done| |].
  - apply Forall_forall. intros b Hb. apply list_elem_of_fmap in Hb as ([k b'] & -> & Hin).
    pose proof (proj1 (Forall_forall _ _) Hk _ Hin) as Hid. cbn in Hid |- *. rewrite Hid. by apply map_get_elem.
  - intros i b Hb%map_get_Some. apply includes_spec, list_elem_of_fmap. by exists (i, b).
Qed.

(** When every business can be judged, the job reminds exactly the ones
    that are due: it records its time on them, leaves the others alone, and
    reports how many they were. *)
Theorem job_reminds_due now m :
  well_keyed m → Forall (λ b, is_Some (shouldSendReminder b now)) (getAll m) →
  let '(o, m') := attestationReminderJob now m in
  success o = true ∧ itemsProcessed o = Z.of_nat (length (List.filter (due now) (getAll m))) ∧
  ∀ i, getById i m' = (λ b, if due now b then reminded_at now b else b) <$> getById i m.
Proof.
  intros Hw Hs. destruct (getAll_keyed m Hw) as (Hn & Hm & Hin). unfold attestationReminderJob, getById.
  pose proof (remind_spec now (getAll m) 0 m Hn Hm Hs) as Hr. destruct (remind now (getAll m) 0 m) as [r m'].
  destruct Hr as [-> Hr]. cbn. split_and!; [done|done|]. intros i. rewrite Hr. destruct (map_get i m) as [b|] eqn:Hb; [|done].
  cbn. by rewrite (Hin i b Hb), andb_true_r.
Qed.

Lemma remind_app now l l' n m :
  remind now (l ++ l') n m = match remind now l n m with (Some n, m) => remind now l' n m | r => r end.
Proof.
  revert n m. induction l as [|b l IH]; intros n m; [done|]. cbn. destruct (shouldSendReminder b now) as [[]|]; auto.
Qed.

(** A business whose time zone or date cannot be read stops the job: it
    reports a failure with nothing processed, the businesses before it were
    reminded if due, and those after it never are. *)
Theorem unreadable_business_stops_job now m l b l' :
  well_keyed m → getAll m = l ++ b :: l' → Forall (λ b, is_Some (shouldSendReminder b now)) l → shouldSendReminder b now = None →
  let '(o, m') := attestationReminderJob now m in
  o = {| itemsProcessed := 0; success := false |} ∧
  Forall (λ x, getById (id x) m' = Some x) (b :: l') ∧
  Forall (λ x, getById (id x) m' = Some (if due now x then reminded_at now x else x)) l.
Proof.
  intros Hw Hl Hs Hb. destruct (getAll_keyed m Hw) as (Hn & Hm & _). unfold attestationReminderJob, getById. rewrite Hl in *.
  rewrite map_app in Hn. apply NoDup_app in Hn as (Hn & Hdis & _). apply Forall_app in Hm as [Hm Hm'].
  rewrite remind_app. pose proof (remind_spec now l 0 m Hn Hm Hs) as Hr. destruct (remind now l 0 m) as [r m1].
  destruct Hr as [-> Hr]. cbn [remind]. rewrite Hb. split_and!; [done| |].
  - rewrite Forall_forall in Hm' |- *. intros x Hx. rewrite Hr, (Hm' x Hx). cbn.
    destruct (includes (id x) (map id l)) eqn:Hi; [|by rewrite andb_false_r]. apply includes_spec in Hi.
    destruct (Hdis _ Hi). change (map id (b :: l')) with (id <$> (b :: l')). by apply list_elem_of_fmap_2.
  - rewrite Forall_forall in Hm |- *. intros x Hx. rewrite Hr, (Hm x Hx). cbn.
    assert (includes (id x) (map id l) = true) as -> by (apply includes_spec; change (map id l) with (id <$> l); by apply list_elem_of_fmap_2).
    by rewrite andb_true_r.
Qed.
End Reminders.

(** ** Concrete zones: [UTC], New York in winter, and a zone that does not
    exist. *)
Definition zones (z : string) (t : Z) : option Z :=
  if String.eqb z "UTC" then Some 0 else if String.eqb z "America/New_York" then Some (-18000000) else None.

#[export] Program Instance bits_dates : DateText :=
  {| toISOString t := show_bits (encode t); parse_date s := read_bits s ≫= decode |}.
Next Obligation. intros t. cbn. rewrite read_show_bits. cbn. apply countable.decode_encode. Qed.
Next Obligation. intros t. cbn. by destruct (encode t) as [q|q|]. Qed.

Definition business (i z : string) (p : ReportingPeriod) (created : Z) : Business :=
  {| id := i; userId := i; name := i; email := i; industry := None; description := None; website := None; reportingPeriod := p;
     reportingTimezone := z; lastReminderSentAt := None; createdAt := created; updatedAt := created |}.

(** 2026-01-10, and Monday 2026-02-02 at 01:00, Sunday evening in New York. *)
Definition january : Z := 1768003200000.
Definition sunday_evening : Z := 1769994000000.

Lemma utc_reminder_once_per_period_witness :
  shouldSendReminder zones (business "a" "UTC" monthly january) sunday_evening = Some true.
Proof.
  exact (proj1 (utc_reminder_once_per_period zones (business "a" "UTC" monthly january) sunday_evening sunday_evening january
                  (λ _, eq_refl) eq_refl ltac:(vm_compute; discriminate) ltac:(vm_compute; discriminate))).
Defined.

Lemma west_of_utc_repeats_witness :
  shouldSendReminder zones (reminded_at sunday_evening (business "a" "America/New_York" weekly january)) (sunday_evening + 300000) = Some true.
Proof.
  exact (west_of_utc_repeats zones (business "a" "America/New_York" weekly january) sunday_evening (sunday_evening + 300000) (-18000000)
           eq_refl ltac:(vm_compute; discriminate) ltac:(vm_compute; reflexivity) ltac:(vm_compute; discriminate)).
Defined.

Definition two_good : businesses :=
  [("a", business "a" "UTC" monthly january); ("b", business "b" "UTC" monthly sunday_evening)].

Lemma job_reminds_due_witness : itemsProcessed (attestationReminderJob zones sunday_evening two_good).1 = 1.
Proof.
  pose proof (job_reminds_due zones sunday_evening two_good
    ltac:(split; [apply (bool_decide_unpack _); vm_compute; exact I|repeat constructor])
    ltac:(repeat (constructor; [vm_compute; eexists; reflexivity|]); constructor)) as H.
  destruct (attestationReminderJob zones sunday_evening two_good) as [o m']. destruct H as (_ & Hn & _). cbn [fst]. rewrite Hn. vm_compute. reflexivity.
Defined.

Lemma unreadable_business_stops_job_witness :
  let m := [("x", business "x" "Mars/Base" monthly january); ("a", business "a" "UTC" monthly january)] in
  getById "a" (attestationReminderJob zones sunday_evening m).2 = Some (business "a" "UTC" monthly january).
Proof.
  intros m. pose proof (unreadable_business_stops_job zones sunday_evening m [] (business "x" "Mars/Base" monthly january)
    [business "a" "UTC" monthly january] ltac:(split; [apply (bool_decide_unpack _); vm_compute; exact I|repeat constructor])
    eq_refl ltac:(constructor) eq_refl) as H.
  destruct (attestationReminderJob zones sunday_evening m) as [o m']. destruct H as (_ & Hf & _).
  apply Forall_cons in Hf as [_ Hf]. apply Forall_cons in Hf as [Ha _]. exact Ha.
Defined.
