(* ===== verification/BusinessInput.v ===== *)
(** * Business input: [src/services/business/normalize.ts], [schemas.ts],
    [create.ts] and [update.ts].

    Texts are ASCII, on which [normalize('NFC')] changes nothing and [\p{L}]
    and [\p{N}] are letters and digits.  A schema gives [None] where [zod]
    reports an issue. *)

From S2P Require Import Prelude Numeric Hashing JsString Words Regex Collections Businesses.
#[local] Open Scope Z_scope.

(** ** Normalisation *)

Definition normalizeName (name : string) : string := single_spaced (trim name).

(** [endsWith('/') && !endsWith('://')], and the text without its last
    character. *)
Definition slash_to_strip (s : string) : option string :=
  match strip_suffix "/" s with
  | Some r => match strip_suffix "://" s with Some _ => None | None => Some r end
  | None => None
  end.

Fixpoint strip_slashes (fuel : nat) (s : string) : string :=
  match fuel with
  | O => s
  | S f => match slash_to_strip s with Some r => strip_slashes f r | None => s end
  end.

Definition has_protocol (s : string) : bool :=
  match strip_prefix "http://" s, strip_prefix "https://" s with None, None => false | _, _ => true end.

Definition normalizeUrl (url : string) : string :=
  let n := to_lower (trim url) in
  if is_empty n then EmptyString
  else let n := if has_protocol n then n else "https://" +:+ n in strip_slashes (String.length n) n.

(** [value.length > 0 ? value : null], and [value || null]. *)
Definition or_null (s : string) : option string := if is_empty s then None else Some s.

Definition normalizeOptionalString (value : string) : option string := or_null (trim value).
Definition normalizeIndustry (industry : string) : option string := or_null (single_spaced (trim industry)).

Definition newline : ascii := ascii_of_nat 10.
Definition newline_text : string := String newline EmptyString.

Definition normalizeDescription (description : string) : option string :=
  let t := trim description in
  if is_empty t then None else Some (join newline_text (map single_spaced (split_on newline t))).

Definition upper_char (c : ascii) : ascii := if in_range 97 122 c then ascii_of_nat (nat_of_ascii c - 32) else c.
Definition to_upper (s : string) : string := string_map upper_char s.

Definition normalizeCountryCode (code : string) : option string := or_null (to_upper (trim code)).

(** [text.replace(/<[^>]*>/g, '')]; [open] is the text since a [<] that has
    not been closed. *)
Fixpoint remove_tags (open : option string) (s : string) : string :=
  match s with
  | EmptyString => default EmptyString open
  | String c r =>
      match open with
      | None => if Ascii.eqb c "<" then remove_tags (Some "<") r else String c (remove_tags None r)
      | Some t => if Ascii.eqb c ">" then remove_tags None r else remove_tags (Some (t +:+ String c EmptyString)) r
      end
  end.
Definition sanitizeText (text : string) : string := remove_tags None text.

(** ** Patterns *)

Definition is_letter (c : ascii) : bool := in_range 65 90 c || in_range 97 122 c.
Definition is_alnum (c : ascii) : bool := is_letter c || is_digit c.
Definition name_char (c : ascii) : bool :=
  is_alnum c || is_space c || existsb (Ascii.eqb c) ["-"; "'"; "&"; "."; ","]%char.

Definition BUSINESS_NAME_PATTERN : regex := plus (Class name_char).
Definition INDUSTRY_PATTERN : regex := plus (Class name_char).
Definition COUNTRY_CODE_PATTERN : regex := Seq (Class (in_range 65 90)) (Class (in_range 65 90)).

Definition host : regex :=
  Alt (Seq (Class is_alnum) (Seq (plus (Seq (Star (Class (λ c, is_alnum c || Ascii.eqb c "-"))) (char ".")))
        (Seq (Class is_letter) (plus (Class is_letter)))))
      (Alt (lit "localhost") (lit "127.0.0.1")).

Definition protocol : regex := Seq (lit "http") (Seq (opt (lit "s")) (lit "://")).
Definition path : regex := Seq (char "/") (Star (Class (λ c, negb (is_space c)))).

Definition port : regex := Seq (char ":") (plus (Class is_digit)).
Definition site : regex := Seq (opt (lit "www.")) (Seq host (Seq (opt port) (opt path))).
Definition URL_PATTERN : regex := Seq (opt protocol) site.

(** The validators of [normalize.ts]. *)
Definition isValidBusinessName (name : string) : bool :=
  string_forallb (λ c, negb (in_range 9 13 c)) name && matches BUSINESS_NAME_PATTERN name.
Definition isValidCountryCode (code : string) : bool := matches COUNTRY_CODE_PATTERN code.
Definition isValidUrl (url : string) : bool := matches URL_PATTERN url.

(** ** Schemas *)

Definition BUSINESS_NAME_MAX_LENGTH : nat := 255.
Definition INDUSTRY_MAX_LENGTH : nat := 100.
Definition DESCRIPTION_MAX_LENGTH : nat := 2000.
Definition WEBSITE_MAX_LENGTH : nat := 2048.

Definition is_control (allowNewlines : bool) (c : ascii) : bool :=
  if allowNewlines then in_range 0 8 c || in_range 11 12 c || in_range 14 31 c || in_range 127 127 c
  else in_range 0 31 c || in_range 127 127 c.

Definition containsControlChars (s : string) (allowNewlines : bool) : bool :=
  negb (string_forallb (λ c, negb (is_control allowNewlines c)) s).

Definition BLOCKED_URL_SCHEMES : list string := ["javascript"; "data"; "vbscript"; "file"; "ftp"].

Definition starts_with (p s : string) : bool := match strip_prefix p s with Some _ => true | None => false end.

Definition hasBlockedScheme (url : string) : bool :=
  starts_with "//" url || existsb (λ p, starts_with (p +:+ ":") url || starts_with (p +:+ "%3a") url) BLOCKED_URL_SCHEMES.

(** The pipelines on a text; [None] is an issue. *)
Definition ensure (b : bool) (s : string) : option string := if b then Some s else None.
Definition safeString (allowNewlines : bool) (s : string) : option string := ensure (negb (containsControlChars s allowNewlines)) s.
Definition max_length (n : nat) (s : string) : option string := ensure (String.length s <=? n)%nat s.

Definition name_text (s : string) : option string :=
  safeString false s ≫= λ s, ensure (negb (is_empty s)) s ≫= λ s, max_length BUSINESS_NAME_MAX_LENGTH s ≫= λ s,
  let t := trim s in ensure (matches BUSINESS_NAME_PATTERN t) t.
Definition industry_text (s : string) : option string :=
  safeString false s ≫= λ s, max_length INDUSTRY_MAX_LENGTH s ≫= λ s,
  let t := trim s in ensure (is_empty t || matches INDUSTRY_PATTERN t) t.
Definition description_text (s : string) : option string :=
  safeString true s ≫= λ s, max_length DESCRIPTION_MAX_LENGTH s ≫= λ s, Some (trim s).
Definition website_text (s : string) : option string :=
  safeString false s ≫= λ s, max_length WEBSITE_MAX_LENGTH s ≫= λ s,
  let t := to_lower (trim s) in ensure (negb (hasBlockedScheme t)) t ≫= λ t, ensure (is_empty t || matches URL_PATTERN t) t.
Definition country_text (s : string) : option string :=
  ensure (String.length s =? 2)%nat s ≫= λ s, let t := to_upper s in
  ensure (negb (containsControlChars t false) && matches COUNTRY_CODE_PATTERN t) t.

(** A field of the body, and of the parsed input. *)
Inductive json := JNull | JText (s : string) | JOther.
Inductive value := Undefined | Null | Text (s : string).

(** [''] becomes [null]. *)
Definition blank_to_null (s : string) : value := if is_empty s then Null else Text s.

(** [.optional().nullable()] with the last [transform] of the creation
    schema, and [.nullable().optional()] with that of the update schema. *)
Definition create_field (text : string → option string) (f : option json) : option value :=
  match f with None | Some JNull => Some Null | Some JOther => None | Some (JText s) => blank_to_null <$> text s end.
Definition update_field (text : string → option string) (f : option json) : option value :=
  match f with None => Some Undefined | Some JNull => Some Null | Some JOther => None | Some (JText s) => blank_to_null <$> text s end.

(** The country of the creation schema, empty before its checks. *)
Definition create_country (f : option json) : option value :=
  match f with None | Some JNull | Some (JText EmptyString) => Some Null | Some JOther => None | Some (JText s) => Text <$> country_text s end.

Record body := { b_name : option json; b_industry : option json; b_description : option json; b_country : option json; b_website : option json }.

Record input := { i_name : value; i_industry : value; i_description : value; i_country : value; i_website : value }.

(** [None] for the body is one that is no object. *)
Definition parseCreateBusinessInput (b : option body) : option input :=
  b ≫= λ b,
  (match b_name b with Some (JText s) => name_text s | _ => None end) ≫= λ n,
  create_field industry_text (b_industry b) ≫= λ i, create_field description_text (b_description b) ≫= λ d,
  create_country (b_country b) ≫= λ c, create_field website_text (b_website b) ≫= λ w,
  Some {| i_name := Text n; i_industry := i; i_description := d; i_country := c; i_website := w |}.

Definition parseUpdateBusinessInput (b : option body) : option input :=
  b ≫= λ b,
  (match b_name b with None => Some Undefined | Some (JText s) => Text <$> name_text s | _ => None end) ≫= λ n,
  update_field industry_text (b_industry b) ≫= λ i, update_field description_text (b_description b) ≫= λ d,
  update_field country_text (b_country b) ≫= λ c, update_field website_text (b_website b) ≫= λ w,
  Some {| i_name := n; i_industry := i; i_description := d; i_country := c; i_website := w |}.

(** ** Storage *)

Definition of_option (o : option string) : value := match o with Some s => Text s | None => Null end.
Definition on_text (f : string → value) (v : value) : value := match v with Text s => f s | v => v end.

Definition formatForStorage (d : input) : input :=
  {| i_name := on_text (λ s, Text (normalizeName s)) (i_name d);
     i_industry := on_text (λ s, of_option (normalizeIndustry s)) (i_industry d);
     i_description := on_text (λ s, of_option (normalizeDescription s)) (i_description d);
     i_country := on_text (λ s, of_option (normalizeCountryCode s)) (i_country d);
     i_website := on_text (λ s, of_option (or_null (normalizeUrl s))) (i_website d) |}.

Definition to_option (v : value) : option string := match v with Text s => Some s | _ => None end.

(** [None] is [undefined]. *)
Definition to_update (v : value) : option (option string) :=
  match v with Undefined => None | Null => Some None | Text s => Some (Some s) end.

(** ** Handlers *)

Record user := { user_id : string; user_email : option string }.

Inductive response := Unauthorized401 | Exists409 | Invalid400 | Created201 (b : Business) | NotFound404 | Updated200 (b : Business) | Failed500.

Definition signed_in (u : option user) : option user :=
  match u with Some {| user_id := EmptyString |} | None => None | Some u => Some u end.

(** Up to the first [await] that matters: who asks, and whether they have a
    business. *)
Definition create_check (u : option user) (m : businesses) : option response :=
  match signed_in u with
  | None => Some Unauthorized401
  | Some u => match getByUserId (user_id u) m with Some _ => Some Exists409 | None => None end
  end.

(** From the validation on. *)
Definition create_store (fresh : string) (now : Z) (u : user) (b : option body) (m : businesses) : response * businesses :=
  match parseCreateBusinessInput b with
  | None => (Invalid400, m)
  | Some i =>
      let d := formatForStorage i in
      let '(x, m) := create fresh now
        {| c_userId := user_id u; c_name := default EmptyString (to_option (i_name d)); c_email := default EmptyString (user_email u);
           c_industry := to_option (i_industry d); c_description := to_option (i_description d);
           c_website := to_option (i_website d); c_reportingPeriod := None; c_reportingTimezone := None |} m in
      (Created201 x, m)
  end.

(** A call that nothing interrupts. *)
Definition createBusiness (fresh : string) (now : Z) (u : option user) (b : option body) (m : businesses) : response * businesses :=
  match create_check u m, u with
  | Some r, _ => (r, m)
  | None, Some u => create_store fresh now u b m
  | None, None => (Unauthorized401, m)
  end.

Definition updateBusiness (now : Z) (u : option user) (b : option body) (m : businesses) : response * businesses :=
  match signed_in u with
  | None => (Unauthorized401, m)
  | Some u =>
      match getByUserId (user_id u) m with
      | None => (NotFound404, m)
      | Some x =>
          match parseUpdateBusinessInput b with
          | None => (Invalid400, m)
          | Some i =>
              let d := formatForStorage i in
              match update now (id x)
                {| u_name := to_option (i_name d); u_industry := to_update (i_industry d); u_description := to_update (i_description d);
                   u_website := to_update (i_website d); u_email := None; u_reportingPeriod := None; u_reportingTimezone := None |} m with
              | (Some y, m) => (Updated200 y, m)
              | (None, m) => (Failed500, m)
              end
          end
      end
  end.

(** ** Names and industries *)

Lemma single_spaced_idem s : single_spaced (single_spaced s) = single_spaced s.
Proof. unfold single_spaced at 1. by rewrite single_spaced_words. Qed.

Lemma normalizeName_idem s : normalizeName (normalizeName s) = normalizeName s.
Proof. unfold normalizeName. by rewrite single_spaced_trim, single_spaced_idem. Qed.

Lemma trim_nonempty t : trim t = t → nonempty t = true → trim_end t ≠ EmptyString.
Proof.
  intros Ht Hn. assert (stops is_space t = true) as Hs by (rewrite <- Ht; apply trim_stops).
  unfold trim in Ht. rewrite (trim_start_fixed t Hs) in Ht. rewrite Ht. by destruct t.
Qed.

Lemma normalizeName_nonempty t : trim t = t → nonempty t = true → nonempty (normalizeName t) = true.
Proof. intros Ht Hn. unfold normalizeName. rewrite Ht. by apply single_spaced_nonempty, trim_nonempty. Qed.

Lemma normalizeIndustry_idem s t : normalizeIndustry s = Some t → normalizeIndustry t = Some t.
Proof.
  unfold normalizeIndustry, or_null. destruct (is_empty (single_spaced (trim s))) eqn:E; [done|]. intros [= <-].
  by rewrite single_spaced_trim, single_spaced_idem, E.
Qed.

(** ** Descriptions *)

(** The last line of a text that does not end in white space. *)
Lemma last_line t : nonempty t = true → trim_end t = t →
  ∃ ls l, split_on newline t = ls ++ [l] ∧ nonempty l = true ∧ trim_end l = l.
Proof.
  intros Hn He. destruct (split_on_cons newline t) as (p & ps & Hs). pose proof (join_split_on newline t) as Hj. rewrite Hs in Hj |- *.
  destruct (p :: ps) as [|l ls _] using rev_ind; [by subst t|]. exists ls, l. split; [done|]. destruct ls as [|q ls].
  - cbn in Hj. by subst t.
  - rewrite join_app in Hj by done. fold newline_text in Hj. rewrite <- Hj in He. apply trim_end_suffix in He. split; [|by apply (trim_end_suffix newline_text)].
    destruct l; [|done]. by vm_compute in He.
Qed.

Lemma first_line t : nonempty t = true → stops is_space t = true →
  ∃ l ls, split_on newline t = l :: ls ∧ nonempty l = true ∧ stops is_space l = true.
Proof.
  destruct t as [|c t]; [done|]. intros _ Hc. cbn in Hc. cbn [split_on]. destruct (split_on_cons newline t) as (p & ps & ->).
  destruct (Ascii.eqb c newline) eqn:E; [apply Ascii.eqb_eq in E as ->; by vm_compute in Hc|]. by exists (String c p), ps.
Qed.

Lemma single_spaced_stops s : stops is_space (single_spaced s) = true.
Proof. apply join_stops, words_are_words. Qed.

Lemma join_first_stops sep l ls : nonempty l = true → stops is_space l = true → stops is_space (join sep (l :: ls)) = true.
Proof. destruct l as [|c l]; [done|]. by destruct ls. Qed.

Lemma stops_trim_end l : nonempty l = true → stops is_space l = true → trim_end l ≠ EmptyString.
Proof.
  destruct l as [|c l]; [done|]. cbn. destruct (is_space c) eqn:Hc; [done|]. intros _ _. by destruct (trim_end l).
Qed.

Definition description_lines (t : string) : string := join newline_text (map single_spaced (split_on newline t)).

Lemma description_trimmed t : nonempty t = true → trim t = t → trim (description_lines t) = description_lines t ∧ nonempty (description_lines t) = true.
Proof.
  intros Hn Ht. assert (stops is_space t = true) as Hs by (rewrite <- Ht; apply trim_stops).
  assert (trim_end t = t) as He by (unfold trim in Ht; by rewrite (trim_start_fixed t Hs) in Ht).
  destruct (first_line t Hn Hs) as (f & fs & Hf & Hfn & Hfs). destruct (last_line t Hn He) as (ls & l & Hl & Hln & Hle).
  assert (nonempty (single_spaced f) = true) as Hf' by by apply single_spaced_nonempty, stops_trim_end.
  assert (nonempty (single_spaced l) = true) as Hl' by (apply single_spaced_nonempty; rewrite Hle; by destruct l).
  unfold description_lines. split.
  - unfold trim. rewrite trim_start_fixed.
    + rewrite Hl, map_app. cbn [map]. apply join_trim_end; [done|]. pose proof (single_spaced_trim l) as H. unfold trim in H.
      by rewrite trim_start_fixed in H by apply single_spaced_stops.
    + rewrite Hf. cbn [map]. apply join_first_stops; [done|apply single_spaced_stops].
  - rewrite Hf. cbn [map]. destruct (single_spaced f) as [|c w]; [done|]. by destruct (map single_spaced fs).
Qed.

Lemma description_lines_idem t : description_lines (description_lines t) = description_lines t.
Proof.
  unfold description_lines at 1. unfold description_lines at 1. unfold newline_text at 2. rewrite split_on_join.
  - rewrite map_map. unfold description_lines. f_equal. apply map_ext. intros l. apply single_spaced_idem.
  - by destruct (split_on_cons newline t) as (p & ps & ->).
  - apply Forall_fmap. pose proof (split_on_lacks newline t) as Hl. eapply Forall_impl; [exact Hl|]. intros l. by apply single_spaced_lacks.
Qed.

Lemma normalizeDescription_idem s t : normalizeDescription s = Some t → normalizeDescription t = Some t.
Proof.
  unfold normalizeDescription. destruct (is_empty (trim s)) eqn:E; [done|]. intros [= <-]. fold (description_lines (trim s)).
  destruct (description_trimmed (trim s)) as [Ht Hn]; [unfold nonempty; by rewrite E|apply trim_idem|].
  rewrite Ht. unfold nonempty in Hn. apply negb_true_iff in Hn. rewrite Hn. f_equal. apply description_lines_idem.
Qed.

(** ** Web sites *)

Lemma app_suffix (a b x y : string) : a +:+ b = x +:+ y → (String.length y ≤ String.length b)%nat → ∃ b', b = b' +:+ y ∧ x = a +:+ b'.
Proof.
  revert x. induction a as [|c a IH]; intros x He Hl; [by exists x|]. rewrite string_cons_app in He. destruct x as [|d x].
  - change (EmptyString +:+ y) with y in He. subst y. exfalso. cbn in Hl. rewrite string_length_app in Hl. lia.
  - rewrite string_cons_app in He. injection He as -> He. destruct (IH x He Hl) as (b' & -> & ->). by exists b'.
Qed.

Lemma slash_to_strip_app s r : slash_to_strip s = Some r → s = r +:+ "/".
Proof.
  unfold slash_to_strip. destruct (strip_suffix "/" s) as [t|] eqn:E; [|done]. apply strip_suffix_app in E.
  destruct (strip_suffix "://" s); [done|]. by intros [= <-].
Qed.

(** The loop ends with nothing left to strip. *)
Lemma strip_slashes_done n s : (String.length s ≤ n)%nat → slash_to_strip (strip_slashes n s) = None.
Proof.
  revert s. induction n as [|n IH]; intros s Hn; [destruct s; [done|cbn in Hn; lia]|]. cbn. destruct (slash_to_strip s) as [r|] eqn:E; [|done].
  apply slash_to_strip_app in E as ->. apply IH. rewrite string_length_app in Hn. cbn in Hn. lia.
Qed.

Lemma strip_slashes_fixed n s : slash_to_strip s = None → strip_slashes n s = s.
Proof. intros H. destruct n; [done|]. cbn. by rewrite H. Qed.

(** Stripping stays behind a part without slashes. *)
Lemma strip_slashes_keeps n u w p : nonempty w = true → lacks "/" w = true →
  ∃ p' rest, strip_slashes n (u +:+ w +:+ p) = u +:+ w +:+ p' ∧ p = p' +:+ rest.
Proof.
  intros Hn Hw. revert p. induction n as [|n IH]; intros p; [by exists p, EmptyString; rewrite string_app_nil_r|]. cbn [strip_slashes].
  destruct (slash_to_strip _) as [r|] eqn:E; [|by exists p, EmptyString; rewrite string_app_nil_r]. apply slash_to_strip_app in E.
  destruct p as [|c p].
  - rewrite string_app_nil_r in E. apply app_suffix in E as (w' & -> & _); [|destruct w; [done|cbn; lia]].
    by rewrite lacks_app, andb_false_r in Hw.
  - rewrite string_app_assoc in E. apply app_suffix in E as (p' & Hp & ->); [|cbn; lia]. rewrite <- string_app_assoc.
    destruct (IH p') as (q & rest & -> & ->). exists q, (rest +:+ "/"). split; [done|]. by rewrite Hp, string_app_assoc.
Qed.

(** The parts of a site. *)
Definition host_char (c : ascii) : bool := is_alnum c || Ascii.eqb c "-" || Ascii.eqb c ".".

Ltac by_chars := let c := fresh in intros c; destruct c as [[] [] [] [] [] [] [] []]; done.

Lemma host_chars w : in_lang (Seq (opt (lit "www.")) host) w → string_forallb host_char w = true ∧ lacks "/" w = true.
Proof. intros H. split; (eapply in_lang_forallb; [|exact H]); cbn; repeat split; by_chars. Qed.

Lemma site_parts t : in_lang site t → ∃ w q p, t = w +:+ q +:+ p ∧
  in_lang (Seq (opt (lit "www.")) host) w ∧ in_lang (opt port) q ∧ in_lang (opt path) p.
Proof.
  intros (a & b & -> & Ha & (h & r & -> & Hh & (q & p & -> & Hq & Hp)%in_seq_inv)%in_seq_inv)%in_seq_inv.
  exists (a +:+ h), q, p. split; [by rewrite !string_app_assoc|]. auto with regex.
Qed.

Lemma parts_site w q p : in_lang (Seq (opt (lit "www.")) host) w → in_lang (opt port) q → in_lang (opt path) p → in_lang site (w +:+ q +:+ p).
Proof.
  intros (a & h & -> & Ha & Hh)%in_seq_inv Hq Hp. rewrite <- string_app_assoc. unfold site. auto with regex.
Qed.

(** A prefix of a path is a path, or empty. *)
Lemma path_prefix p rest : in_lang (opt path) (p +:+ rest) → in_lang (opt path) p.
Proof.
  rewrite !in_opt. destruct p as [|c p]; [auto|]. intros [H|H]; [done|right].
  apply in_seq_inv in H as (t & u & He & (d & -> & Hd)%in_class_inv & Hu%in_star_class).
  rewrite string_cons_app in He. change (String d EmptyString +:+ u) with (String d u) in He. injection He as -> <-. rewrite string_forallb_app in Hu. apply andb_true_iff in Hu as [Hu _].
  apply (in_seq _ _ (String d EmptyString) p); [by constructor|by apply in_star_class].
Qed.

(** Without a protocol in the pattern, the text has none. *)
Lemma site_no_protocol t : in_lang site t → has_protocol t = false.
Proof.
  intros (w & q & p & -> & Hw & Hq & Hp)%site_parts. destruct (host_chars w Hw) as [Hc _].
  assert (Hs : stops host_char (q +:+ p) = true).
  { apply in_opt in Hq as [->|(a & b & -> & (c & -> & <-%Ascii.eqb_eq)%in_class_inv & _)%in_seq_inv]; [|done].
    apply in_opt in Hp as [->|(a & b & -> & (c & -> & <-%Ascii.eqb_eq)%in_class_inv & _)%in_seq_inv]; done. }
  pose proof (span_app host_char w (q +:+ p) Hc Hs) as Hspan. unfold has_protocol.
  assert (Hno : ∀ pre head, strip_prefix pre (w +:+ q +:+ p) ≠ None → (∀ r, (span host_char (pre +:+ r)).1 = head) →
    matches (Seq (opt (lit "www.")) host) head = false → False).
  { intros pre head Hpre Hhead Hm. assert (∃ r, w +:+ q +:+ p = pre +:+ r) as [r Hr].
    { clear -Hpre. revert Hpre. generalize (w +:+ q +:+ p). induction pre as [|c pre IH]; intros s Hs; [by exists s|].
      destruct s as [|d s]; [done|]. cbn in Hs. destruct (Ascii.eqb_spec c d) as [->|]; [|done]. destruct (IH s Hs) as [r ->]. by exists r. }
    rewrite Hr in Hspan. specialize (Hhead r). rewrite Hspan in Hhead. cbn in Hhead. subst head.
    apply matches_spec in Hw. congruence. }
  destruct (strip_prefix "http://" _) eqn:E; [|destruct (strip_prefix "https://" _) eqn:E'; [|done]]; exfalso.
  - apply (Hno "http://" "http"); [by rewrite E|done|reflexivity].
  - apply (Hno "https://" "https"); [by rewrite E'|done|reflexivity].
Qed.

Lemma protocol_words a : in_lang protocol a ↔ a = "http://" ∨ a = "https://".
Proof.
  split.
  - intros (x & y & -> & ->%in_lit & (b & c & -> & Hb & ->%in_lit)%in_seq_inv)%in_seq_inv.
    apply in_opt in Hb as [->| ->%in_lit]; auto.
  - intros [->| ->]; by apply matches_spec.
Qed.

Lemma protocol_has a b : in_lang protocol a → has_protocol (a +:+ b) = true.
Proof. intros [->| ->]%protocol_words; unfold has_protocol; [done|]. by destruct (strip_prefix "http://" _). Qed.

(** A site with its protocol, in lower case, without slashes to strip. *)
Definition full_url (r : string) : Prop := in_lang (Seq protocol site) r ∧ string_forallb is_lowered r = true ∧ slash_to_strip r = None.

Lemma url_unspaced r : in_lang URL_PATTERN r → unspaced r = true.
Proof. intros H. eapply in_lang_forallb; [|exact H]. cbn. repeat split; by_chars. Qed.

Lemma full_url_pattern r : in_lang (Seq protocol site) r → in_lang URL_PATTERN r.
Proof. intros (a & b & -> & Ha & Hb)%in_seq_inv. apply in_seq; [by apply in_right|done]. Qed.

Lemma url_nonempty r : in_lang URL_PATTERN r → is_empty r = false.
Proof. destruct r; [|done]. intros H%matches_spec. by vm_compute in H. Qed.

(** Normalisation leaves such a text alone. *)
Lemma full_url_fixed r : full_url r → normalizeUrl r = r.
Proof.
  intros (Hr & Hl & Hs). pose proof (full_url_pattern r Hr) as Hp. unfold normalizeUrl.
  rewrite (trim_fixed r) by by apply url_unspaced. rewrite (lowered_fixed r Hl), (url_nonempty r Hp).
  apply in_seq_inv in Hr as (a & b & -> & Ha & Hb). rewrite protocol_has by done. by apply strip_slashes_fixed.
Qed.

Lemma optional_port_no_slash q : in_lang (opt port) q → lacks "/" q = true.
Proof. intros H. eapply in_lang_forallb; [|exact H]. cbn. repeat split; by_chars. Qed.

Lemma host_nonempty w : in_lang (Seq (opt (lit "www.")) host) w → nonempty w = true.
Proof. destruct w; [|done]. intros H%matches_spec. by vm_compute in H. Qed.

(** Stripping slashes leaves a site, and only ever shortens. *)
Lemma strip_site n a t : in_lang site t → ∃ t' rest, strip_slashes n (a +:+ t) = a +:+ t' ∧ in_lang site t' ∧ t = t' +:+ rest.
Proof.
  intros (w & q & p & -> & Hw & Hq & Hp)%site_parts. rewrite (string_app_assoc w q p).
  destruct (strip_slashes_keeps n a (w +:+ q) p) as (p' & rest & He & ->).
  - pose proof (host_nonempty w Hw). by destruct w.
  - rewrite lacks_app, (optional_port_no_slash q Hq), andb_true_r. exact (proj2 (host_chars w Hw)).
  - exists (w +:+ q +:+ p'), rest. rewrite He. rewrite !string_app_assoc. split_and!; [done| |done].
    rewrite <- string_app_assoc. apply parts_site; [done..|]. by apply path_prefix in Hp.
Qed.

Lemma normalizeUrl_full t : in_lang URL_PATTERN t → string_forallb is_lowered t = true → full_url (normalizeUrl t).
Proof.
  intros Hp Hl. unfold normalizeUrl. rewrite (trim_fixed t) by by apply url_unspaced. rewrite (lowered_fixed t Hl), (url_nonempty t Hp).
  set (n := if has_protocol t then t else "https://" +:+ t).
  assert (∃ a b, n = a +:+ b ∧ in_lang protocol a ∧ in_lang site b ∧ string_forallb is_lowered n = true) as (a & b & Hn & Ha & Hb & Hln).
  { unfold n. apply in_seq_inv in Hp as (a & b & -> & Ha & Hb). apply in_opt in Ha as [->|Ha].
    - change (EmptyString +:+ b) with b in *. rewrite (site_no_protocol b Hb). exists "https://", b. split_and!; [done|by apply matches_spec|done|].
      by rewrite string_forallb_app, Hl.
    - rewrite protocol_has by done. by exists a, b. }
  pose proof (strip_slashes_done (String.length n) n (le_n _)) as Hd. rewrite Hn in *.
  destruct (strip_site (String.length (a +:+ b)) a b Hb) as (b' & rest & He & Hb' & ->). rewrite He in *.
  split_and!; [by apply in_seq| |done]. rewrite string_app_assoc, string_forallb_app in Hln. by apply andb_true_iff in Hln as [? _].
Qed.

(** ** The pipelines of the schemas *)

Lemma ensure_Some b s t : ensure b s = Some t ↔ b = true ∧ t = s.
Proof. unfold ensure. destruct b; split; [by intros [= ->]|by intros [_ ->]|done|by intros [? _]]. Qed.

Ltac pipeline H := repeat (apply bind_Some in H as (?x & ?Hx & H)); repeat match goal with
  | E : ensure _ _ = Some _ |- _ => apply ensure_Some in E as [? ->]
  | E : safeString _ _ = Some _ |- _ => unfold safeString in E
  | E : max_length _ _ = Some _ |- _ => unfold max_length in E
  end;
  try match goal with E : negb (containsControlChars _ _) = true |- _ => apply negb_true_iff in E; rename E into Hc end;
  try match goal with E : (String.length _ <=? _)%nat = true |- _ => rename E into Hl end;
  try match goal with E : (String.length _ =? _)%nat = true |- _ => rename E into Hl end;
  try match goal with E : negb (hasBlockedScheme _) = true |- _ => rename E into Hb end.

Lemma string_map_forallb p f s : string_forallb p (string_map f s) = string_forallb (λ c, p (f c)) s.
Proof. induction s as [|c s IH]; [done|]. cbn. by rewrite IH. Qed.

Lemma string_map_length f s : String.length (string_map f s) = String.length s.
Proof. induction s as [|c s IH]; [done|]. cbn. by rewrite IH. Qed.

Lemma no_control_trim nl s : containsControlChars s nl = false → containsControlChars (trim s) nl = false.
Proof. unfold containsControlChars. rewrite !negb_false_iff. apply trim_forallb. Qed.

Lemma no_control_map nl f s : (∀ c, is_control nl c = false → is_control nl (f c) = false) →
  containsControlChars s nl = false → containsControlChars (string_map f s) nl = false.
Proof.
  intros Hf. unfold containsControlChars. rewrite !negb_false_iff, string_map_forallb. apply string_forallb_impl.
  intros c. rewrite !negb_true_iff. apply Hf.
Qed.

Lemma short_trim n s : (String.length s <=? n)%nat = true → (String.length (trim s) <=? n)%nat = true.
Proof. rewrite !Nat.leb_le. pose proof (trim_length s). lia. Qed.

Lemma name_text_spec s t : name_text s = Some t →
  trim t = t ∧ is_empty t = false ∧ string_forallb name_char t = true ∧ containsControlChars t false = false ∧ name_text t = Some t.
Proof.
  intros H. unfold name_text in H. pipeline H. rename H into Hp.
  assert (is_empty (trim s) = false) as Hne by (destruct (trim s); [by vm_compute in Hp|done]).
  split_and!; [apply trim_idem|done| |by apply no_control_trim|].
  - apply matches_spec in Hp. eapply in_lang_forallb; [|exact Hp]. cbn. auto.
  - unfold name_text, safeString, max_length, ensure. rewrite (no_control_trim _ _ Hc). cbn. rewrite Hne. cbn.
    rewrite (short_trim _ _ Hl). cbn. by rewrite trim_idem, Hp.
Qed.

Lemma industry_text_spec s t : industry_text s = Some t → trim t = t ∧ industry_text t = Some t.
Proof.
  intros H. unfold industry_text in H. pipeline H. rename H into Hp.
  split; [apply trim_idem|]. unfold industry_text, safeString, max_length, ensure. rewrite (no_control_trim _ _ Hc). cbn.
  rewrite (short_trim _ _ Hl). cbn. by rewrite trim_idem, Hp.
Qed.

Lemma description_text_spec s t : description_text s = Some t → trim t = t ∧ description_text t = Some t.
Proof.
  intros H. unfold description_text in H. pipeline H. injection H as <-.
  split; [apply trim_idem|]. unfold description_text, safeString, max_length, ensure. rewrite (no_control_trim _ _ Hc). cbn.
  rewrite (short_trim _ _ Hl). cbn. by rewrite trim_idem.
Qed.

Lemma website_text_spec s t : website_text s = Some t →
  (t = EmptyString ∨ in_lang URL_PATTERN t) ∧ string_forallb is_lowered t = true ∧ website_text t = Some t.
Proof.
  intros H. unfold website_text in H. pipeline H.  rename H into Hp.
  set (t := to_lower (trim s)) in *. assert (t = EmptyString ∨ in_lang URL_PATTERN t) as Ht.
  { apply orb_true_iff in Hp as [He|Hp%matches_spec]; [left; by destruct t|by right]. }
  assert (to_lower t = t) as Hlow by apply lowered_fixed, to_lower_lowered.
  assert (trim t = t) as Htr by (destruct Ht as [->|Ht]; [done|by apply trim_fixed, url_unspaced]).
  split_and!; [done|apply to_lower_lowered|]. unfold website_text, safeString, max_length, ensure.
  assert (containsControlChars t false = false) as -> by (apply no_control_map; [by_chars|by apply no_control_trim]).
  assert ((String.length t <=? WEBSITE_MAX_LENGTH)%nat = true) as Hlt by (unfold t, to_lower; rewrite string_map_length; by apply short_trim).
  cbn [negb mbind option_bind]. rewrite Hlt. cbn [mbind option_bind]. rewrite Htr, Hlow, Hb. cbn [mbind option_bind]. by rewrite Hp.
Qed.

Lemma to_upper_idem s : to_upper (to_upper s) = to_upper s.
Proof. unfold to_upper. induction s as [|c s IH]; [done|]. cbn. rewrite IH. f_equal. clear IH. revert c. by_chars. Qed.

Lemma country_text_spec s t : country_text s = Some t → isValidCountryCode t = true ∧ country_text t = Some t ∧ is_empty t = false.
Proof.
  intros H. unfold country_text in H. pipeline H. rename H into Hp.
  pose proof (to_upper_idem s) as Hu.
  pose proof Hp as [_ Hm]%andb_true_iff. split_and!; [done| |].
  - unfold country_text, ensure. assert ((String.length (to_upper s) =? 2)%nat = true) as -> by (unfold to_upper; by rewrite string_map_length).
    cbn [mbind option_bind]. by rewrite Hu, Hp.
  - by destruct s.
Qed.

(** ** Properties of the schemas *)

Definition as_json (v : value) : option json := match v with Undefined => None | Null => Some JNull | Text s => Some (JText s) end.
Definition as_body (i : input) : body :=
  {| b_name := as_json (i_name i); b_industry := as_json (i_industry i); b_description := as_json (i_description i);
     b_country := as_json (i_country i); b_website := as_json (i_website i) |}.

(** The pipelines accept what they give. *)
Definition again (text : string → option string) : Prop := ∀ s t, text s = Some t → text t = Some t.

Lemma create_field_again text f v : again text → create_field text f = Some v → create_field text (as_json v) = Some v.
Proof.
  intros Ht. destruct f as [[|s|]|]; cbn; [by intros [= <-]| |done|by intros [= <-]].
  intros (t & Hs & ->)%fmap_Some. unfold blank_to_null. destruct (is_empty t) eqn:E; [done|]. cbn. rewrite (Ht s t Hs). cbn.
  unfold blank_to_null. by rewrite E.
Qed.

Lemma update_field_again text f v : again text → update_field text f = Some v → update_field text (as_json v) = Some v.
Proof.
  intros Ht. destruct f as [[|s|]|]; cbn; [by intros [= <-]| |done|by intros [= <-]].
  intros (t & Hs & ->)%fmap_Some. unfold blank_to_null. destruct (is_empty t) eqn:E; [done|]. cbn. rewrite (Ht s t Hs). cbn.
  unfold blank_to_null. by rewrite E.
Qed.

Lemma create_country_again f v : create_country f = Some v → create_country (as_json v) = Some v.
Proof.
  destruct f as [[|[|c s]|]|]; cbn [create_country]; [by intros [= <-]|by intros [= <-]| |done|by intros [= <-]].
  intros (t & (_ & Ht & Hn)%country_text_spec & ->)%fmap_Some. cbn [as_json create_country]. destruct t; [done|]. by rewrite Ht.
Qed.

Lemma industry_again : again industry_text.
Proof. intros s t H. apply (industry_text_spec _ _ H). Qed.
Lemma description_again : again description_text.
Proof. intros s t H. apply (description_text_spec _ _ H). Qed.
Lemma website_again : again website_text.
Proof. intros s t H. apply (website_text_spec _ _ H). Qed.
Lemma country_again : again country_text.
Proof. intros s t H. apply (country_text_spec _ _ H). Qed.
#[local] Hint Resolve industry_again description_again website_again country_again : core.

(** Names the parsed fields of a successful parse. *)
Ltac open_parse H := repeat (let x := fresh "v" in let E := fresh "E" in apply bind_Some in H as (x & E & H)).

(** Parses the fields again. *)
Ltac parse_again := repeat match goal with
  | E : create_field _ _ = Some _ |- _ => apply create_field_again in E; [|solve [auto]]; rewrite E; clear E
  | E : update_field _ _ = Some _ |- _ => apply update_field_again in E; [|solve [auto]]; rewrite E; clear E
  | E : create_country _ = Some _ |- _ => apply create_country_again in E; rewrite E; clear E
  end.

Lemma create_parses_again b i : parseCreateBusinessInput b = Some i → parseCreateBusinessInput (Some (as_body i)) = Some i.
Proof.
  intros H.
  unfold parseCreateBusinessInput in H. open_parse H. injection H as <-. unfold parseCreateBusinessInput, as_body.
  destruct (b_name v) as [[|s|]|]; try discriminate.
  match goal with E : name_text _ = Some _ |- _ => apply name_text_spec in E as (_ & _ & _ & _ & Hn) end.
  cbn [mbind option_bind b_name b_industry b_description b_country b_website i_name i_industry i_description i_country i_website].
  cbn [as_json]. rewrite Hn. by parse_again.
Qed.

Lemma update_parses_again b i : parseUpdateBusinessInput b = Some i → parseUpdateBusinessInput (Some (as_body i)) = Some i.
Proof.
  intros H.
  unfold parseUpdateBusinessInput in H. open_parse H. injection H as <-. unfold parseUpdateBusinessInput, as_body.
  assert ((match as_json v0 with None => Some Undefined | Some (JText s) => Text <$> name_text s | _ => None end) = Some v0) as Hn.
  { destruct (b_name v) as [[|s|]|]; try discriminate; [|by match goal with E : Some _ = Some v0 |- _ => injection E as <- end].
    match goal with E : Text <$> _ = Some v0 |- _ => apply fmap_Some in E as (t & (_ & _ & _ & _ & Ht)%name_text_spec & ->) end.
    cbn. by rewrite Ht. }
  cbn [mbind option_bind b_name b_industry b_description b_country b_website i_name i_industry i_description i_country i_website].
  rewrite Hn. by parse_again.
Qed.

(** What a schema has accepted it accepts again, unchanged: the route's
    validation and the handler's own agree. *)
Theorem parsed_input_parses_again b i :
  (parseCreateBusinessInput b = Some i → parseCreateBusinessInput (Some (as_body i)) = Some i) ∧
  (parseUpdateBusinessInput b = Some i → parseUpdateBusinessInput (Some (as_body i)) = Some i).
Proof. split; [apply create_parses_again|apply update_parses_again]. Qed.

(** ** What is stored *)

Definition normal_business (b : Business) : Prop :=
  (isValidBusinessName (name b) = true ∧ normalizeName (name b) = name b) ∧
  (∀ s, industry b = Some s → normalizeIndustry s = Some s) ∧
  (∀ s, description b = Some s → normalizeDescription s = Some s) ∧
  (∀ s, website b = Some s → isValidUrl s = true ∧ has_protocol s = true ∧ normalizeUrl s = s).

Definition all_normal (m : businesses) : Prop := ∀ i b, map_get i m = Some b → normal_business b.

(** A field that is a text has a property. *)
Definition when_text (P : string → Prop) (v : value) : Prop := match v with Text s => P s | _ => True end.

Definition normal_fields (d : input) : Prop :=
  when_text (λ s, isValidBusinessName s = true ∧ normalizeName s = s) (i_name d) ∧
  when_text (λ s, normalizeIndustry s = Some s) (i_industry d) ∧
  when_text (λ s, normalizeDescription s = Some s) (i_description d) ∧
  when_text (λ s, isValidUrl s = true ∧ has_protocol s = true ∧ normalizeUrl s = s) (i_website d).

Lemma normal_name t : trim t = t → is_empty t = false → string_forallb name_char t = true → isValidBusinessName (normalizeName t) = true.
Proof.
  intros Ht Hn Hc. unfold normalizeName. rewrite Ht. unfold isValidBusinessName. apply andb_true_iff. split.
  - apply join_forallb; [done|]. eapply Forall_impl; [apply words_are_words|]. intros w [_ Hw]%andb_true_iff.
    eapply string_forallb_impl; [|exact Hw]. by_chars.
  - apply matches_spec. pose proof (single_spaced_nonempty t) as Hne.
    assert (string_forallb name_char (single_spaced t) = true) as Hs by (apply join_forallb; [done|by apply words_forallb]).
    destruct (single_spaced t) as [|c s]; [discriminate Hne; apply trim_nonempty; [done|unfold nonempty; by rewrite Hn]|].
    cbn in Hs. apply andb_true_iff in Hs as [Hc' Hs]. apply (in_seq _ _ (String c EmptyString) s); [by constructor|by apply in_star_class].
Qed.

Lemma full_url_valid r : full_url r → isValidUrl r = true ∧ has_protocol r = true ∧ normalizeUrl r = r.
Proof.
  intros H. pose proof H as (Hr & _ & _). split_and!; [by apply matches_spec, full_url_pattern| |by apply full_url_fixed].
  apply in_seq_inv in Hr as (a & b & -> & Ha & _). by apply protocol_has.
Qed.

Lemma of_option_text P o : (∀ s, o = Some s → P s) → when_text P (of_option o).
Proof. destruct o; cbn; auto. Qed.

Lemma format_website t : in_lang URL_PATTERN t → string_forallb is_lowered t = true →
  when_text (λ s, isValidUrl s = true ∧ has_protocol s = true ∧ normalizeUrl s = s) (of_option (or_null (normalizeUrl t))).
Proof.
  intros Hp Hl. apply of_option_text. unfold or_null. destruct (is_empty _); [done|]. intros s [= <-]. by apply full_url_valid, normalizeUrl_full.
Qed.

(** The formatted fields of an accepted body are normal. *)
Lemma format_field (f : string → value) P v :
  (∀ s, v = Text s → when_text P (f s)) → when_text P (on_text f v).
Proof. destruct v; cbn; auto. Qed.

Lemma field_text (parse : (string → option string) → option json → option value) text f v s :
  (parse = create_field ∨ parse = update_field) → parse text f = Some v → v = Text s → ∃ s0, text s0 = Some s ∧ is_empty s = false.
Proof.
  intros [-> | ->] H ->; destruct f as [[|s0|]|]; try discriminate; cbn in H; apply fmap_Some in H as (t & Ht & He);
    unfold blank_to_null in He; destruct (is_empty t) eqn:E; try discriminate; injection He as ->; eauto.
Qed.

Lemma format_normal parse n i d c w fi fd fw :
  (parse = create_field ∨ parse = update_field) →
  when_text (λ t, trim t = t ∧ is_empty t = false ∧ string_forallb name_char t = true) n →
  parse industry_text fi = Some i → parse description_text fd = Some d → parse website_text fw = Some w →
  normal_fields (formatForStorage {| i_name := n; i_industry := i; i_description := d; i_country := c; i_website := w |}).
Proof.
  intros Hparse Hn Hi Hd Hw. unfold formatForStorage, normal_fields. cbn [i_name i_industry i_description i_website]. split_and!; apply format_field; intros s ->.
  - cbn in *. destruct Hn as (Ht & He & Hc). split; [by apply normal_name|apply normalizeName_idem].
  - apply of_option_text. intros t. apply normalizeIndustry_idem.
  - apply of_option_text. intros t. apply normalizeDescription_idem.
  - destruct (field_text parse _ _ _ s Hparse Hw eq_refl) as (s0 & (Hu & Hl & _)%website_text_spec & He).
    destruct Hu as [->|Hu]; [done|]. by apply format_website.
Qed.

Lemma create_normal b i : parseCreateBusinessInput b = Some i → normal_fields (formatForStorage i) ∧ ∃ s, i_name (formatForStorage i) = Text s.
Proof.
  intros H. unfold parseCreateBusinessInput in H. open_parse H. injection H as <-. split; [|by eexists].
  destruct (b_name v) as [[|s|]|]; try discriminate.
  match goal with E : name_text _ = Some _ |- _ => apply name_text_spec in E as (Ht & Hn & Hc & _ & _) end.
  eapply (format_normal create_field); [by left|by cbn|eassumption..].
Qed.

Lemma update_normal b i : parseUpdateBusinessInput b = Some i → normal_fields (formatForStorage i).
Proof.
  intros H. unfold parseUpdateBusinessInput in H. open_parse H. injection H as <-.
  eapply (format_normal update_field); [by right| |eassumption..]. destruct (b_name v) as [[|s|]|]; try discriminate.
  - match goal with E : Text <$> _ = Some v0 |- _ => apply fmap_Some in E as (t & (Ht & Hn & Hc & _ & _)%name_text_spec & ->) end. done.
  - by match goal with E : Some _ = Some v0 |- _ => injection E as <- end.
Qed.

(** The writers of the map, each as one step: what follows the check of a
    creation, an update, and the job that records reminders. *)
Inductive step (m : businesses) : businesses → Prop :=
| step_create fresh now u b : step m (create_store fresh now u b m).2
| step_update now u b : step m (updateBusiness now u b m).2
| step_reminder now i t : step m (setLastReminderSentAt now i t m).2.

Lemma map_set_normal i b m : all_normal m → normal_business b → all_normal (map_set i b m).
Proof.
  intros Hm Hb j x. rewrite map_get_set. destruct (String.eqb j i); [by intros [= <-]|apply Hm].
Qed.

Lemma when_to_option P v s : when_text P v → to_option v = Some s → P s.
Proof. destruct v; try done. by intros H [= ->]. Qed.

Lemma when_to_update (P : string → Prop) v old s : when_text P v → (∀ t, old = Some t → P t) → default old (to_update v) = Some s → P s.
Proof. destruct v; cbn; auto; [done|]. by intros H _ [= ->]. Qed.

Lemma step_normal m m' : step m m' → all_normal m → all_normal m'.
Proof.
  intros Hs Hm. destruct Hs as [fresh now u b|now u b|now i t].
  - unfold create_store. destruct (parseCreateBusinessInput b) as [i|] eqn:E; [|done].
    destruct (create_normal b i E) as [(Hn & Hi & Hd & Hw) [s Hs]]. generalize dependent (formatForStorage i). intros d Hn Hi Hd Hw Hs. apply map_set_normal; [done|].
    unfold normal_business. cbn. rewrite Hs in Hn |- *. split_and!; [apply Hn|apply Hn| | |]; intros t Ht;
      [exact (when_to_option _ _ _ Hi Ht)|exact (when_to_option _ _ _ Hd Ht)|exact (when_to_option _ _ _ Hw Ht)].
  - unfold updateBusiness. destruct (signed_in u) as [u'|]; [|done]. destruct (getByUserId (user_id u') m) as [x|]; [|done].
    destruct (parseUpdateBusinessInput b) as [i|] eqn:E; [|done]. unfold update. destruct (map_get (id x) m) as [y|] eqn:Hy; [|done].
    destruct (update_normal b i E) as (Hn & Hi & Hd & Hw). generalize dependent (formatForStorage i). intros d Hn Hi Hd Hw. destruct (Hm _ _ Hy) as (Hn' & Hi' & Hd' & Hw').
    apply map_set_normal; [done|]. unfold normal_business. cbn.
    split_and!; [destruct (i_name d); cbn in *; tauto..| | |]; intros t Ht;
      [exact (when_to_update _ _ _ _ Hi Hi' Ht)|exact (when_to_update _ _ _ _ Hd Hd' Ht)|exact (when_to_update _ _ _ _ Hw Hw' Ht)].
  - unfold setLastReminderSentAt. destruct (map_get i m) as [y|] eqn:Hy; [|done]. apply map_set_normal; [done|]. exact (Hm _ _ Hy).
Qed.

(** Whatever the bodies sent and however the calls interleave, every
    stored business has a valid name with single spaces, an industry and a
    description in normal form or none, and a web site that is none or a valid
    address with its protocol that normalisation leaves alone. *)
Theorem stored_businesses_normal m : rtc step [] m → all_normal m.
Proof.
  intros H. assert (all_normal []) as H0 by done. revert H0. induction H as [|m m1 m2 Hs _ IH]; [done|]. intros H. by apply IH, (step_normal m).
Qed.

(** ** One business per user *)

Definition owners (m : businesses) : list string := map userId (getAll m).
Definition one_per_user (m : businesses) : Prop := NoDup (owners m).

Lemma getByUserId_None u m : getByUserId u m = None ↔ u ∉ owners m.
Proof.
  unfold getByUserId, owners, getAll. induction (map snd m) as [|b l IH]; [split; [by intros _ ?%elem_of_nil|done]|].
  cbn. rewrite not_elem_of_cons. destruct (String.eqb_spec (userId b) u) as [->|Hne]; [split; [done|by intros [? _]]|].
  rewrite IH. split; [by split|by intros [_ ?]].
Qed.

Lemma getByUserId_Some u m b : getByUserId u m = Some b → userId b = u ∧ ∃ k, (k, b) ∈ m.
Proof.
  unfold getByUserId. intros [Hin Hu%String.eqb_eq]%find_some. split; [done|].
  apply in_map_iff in Hin as ([k b'] & <- & Hin). exists k. by apply list_elem_of_In.
Qed.

Lemma owners_new k b m : map_get k m = None → owners (map_set k b m) = owners m ++ [userId b].
Proof.
  unfold owners, getAll. induction m as [|[k' b'] m IH]; [done|]. cbn. destruct (String.eqb k k'); [done|]. intros H. cbn. by rewrite IH.
Qed.

Lemma owners_kept k b x m : map_get k m = Some x → userId b = userId x → owners (map_set k b m) = owners m.
Proof.
  unfold owners, getAll. intros Hg Hu. induction m as [|[k' b'] m IH]; [done|]. cbn in *. destruct (String.eqb_spec k k') as [->|].
  - injection Hg as ->. cbn. by rewrite Hu.
  - cbn. by rewrite IH.
Qed.

(** Creation, answered. *)
Lemma create_store_spec fresh now u b m i : parseCreateBusinessInput b = Some i →
  ∃ x, create_store fresh now u b m = (Created201 x, map_set fresh x m) ∧ id x = fresh ∧ userId x = user_id u ∧
    Text (name x) = i_name (formatForStorage i) ∧ industry x = to_option (i_industry (formatForStorage i)) ∧
    description x = to_option (i_description (formatForStorage i)) ∧ website x = to_option (i_website (formatForStorage i)).
Proof.
  intros Hi. unfold create_store. rewrite Hi. destruct (create_normal b i Hi) as [_ [s Hs]].
  generalize dependent (formatForStorage i). intros d Hs. eexists. split; [reflexivity|]. cbn. by rewrite Hs.
Qed.

(** A creation that nothing interrupts answers, in this order: 401 without
    a user, 409 when the user has a business, 400 for a body the schema
    refuses, all without a change; otherwise 201 with the business, which is
    stored under the new id, belongs to the user and is found for them, while
    every other business stays.  No user ever gets a second business so. *)
Theorem creation_outcomes fresh now u b m :
  map_get fresh m = None → one_per_user m →
  let '(r, m') := createBusiness fresh now u b m in
  one_per_user m' ∧
  match signed_in u with
  | None => r = Unauthorized401 ∧ m' = m
  | Some v =>
      match getByUserId (user_id v) m, parseCreateBusinessInput b with
      | Some _, _ => r = Exists409 ∧ m' = m
      | None, None => r = Invalid400 ∧ m' = m
      | None, Some i => ∃ x, r = Created201 x ∧ getByUserId (user_id v) m' = Some x ∧ getById fresh m' = Some x ∧
          (∀ j, j ≠ fresh → getById j m' = getById j m)
      end
  end.
Proof.
  intros Hf Ho. unfold createBusiness, create_check. destruct u as [v|]; [|done].
  assert (signed_in (Some v) = None ∨ signed_in (Some v) = Some v) as [-> | ->].
  { unfold signed_in. destruct v as [[] e]; auto. }
  { done. }
  destruct (getByUserId (user_id v) m) as [y|] eqn:Hy; [done|]. destruct (parseCreateBusinessInput b) as [i|] eqn:Hi.
  - destruct (create_store_spec fresh now v b m i Hi) as (x & -> & Hid & Hu & _). apply getByUserId_None in Hy. split.
    + unfold one_per_user in *. rewrite owners_new, Hu by done. apply NoDup_app. split_and!; [done| |apply NoDup_singleton].
      by intros w Hw ->%list_elem_of_singleton.
    + exists x. split_and!; [done| | |].
      * clear -Hf Hy Hu. unfold owners, getAll, getByUserId in *. induction m as [|[k' b'] m IH]; cbn in *.
        -- by rewrite Hu, String.eqb_refl.
        -- apply not_elem_of_cons in Hy as [Hne Hy]. destruct (String.eqb fresh k'); [done|]. cbn.
           rewrite (proj2 (String.eqb_neq _ _)) by done. by apply IH.
      * unfold getById. by rewrite map_get_set, String.eqb_refl.
      * intros j Hj. unfold getById. by rewrite map_get_set, (proj2 (String.eqb_neq _ _) Hj).
  - unfold create_store. by rewrite Hi.
Qed.

(** Two creations by one user that overlap, each past its check before the
    other stores, both succeed: the user has two businesses, and the second is
    not found for them. *)
Theorem overlapping_creations_duplicate f1 f2 t1 t2 u b1 b2 m i1 i2 :
  create_check (Some u) m = None → map_get f1 m = None → map_get f2 m = None → f1 ≠ f2 →
  parseCreateBusinessInput b1 = Some i1 → parseCreateBusinessInput b2 = Some i2 →
  ∃ x y, create_store f1 t1 u b1 m = (Created201 x, map_set f1 x m) ∧
    create_store f2 t2 u b2 (map_set f1 x m) = (Created201 y, map_set f2 y (map_set f1 x m)) ∧
    userId x = userId y ∧ id x ≠ id y ∧ ¬ one_per_user (map_set f2 y (map_set f1 x m)).
Proof.
  intros Hc H1 H2 Hne Hi1 Hi2. destruct (create_store_spec f1 t1 u b1 m i1 Hi1) as (x & Hx & Hid & Hu & _).
  destruct (create_store_spec f2 t2 u b2 (map_set f1 x m) i2 Hi2) as (y & Hy & Hid' & Hu' & _). exists x, y.
  split_and!; [done|done|congruence|congruence|]. unfold one_per_user.
  rewrite owners_new by (rewrite map_get_set; by rewrite (proj2 (String.eqb_neq _ _)) by congruence).
  rewrite owners_new by done. rewrite Hu, Hu', NoDup_app. intros (_ & Hd & _). apply (Hd (user_id u)).
  - apply elem_of_app. right. by left.
  - by left.
Qed.

(** ** Updates *)

(** The value a field has after an update. *)
Definition updated (v : value) (old : option string) : option string := match v with Undefined => old | Null => None | Text s => Some s end.

(** An update of a user's business that the schema accepts changes the
    fields it gives, clears those it gives as [null] or blank, keeps the others,
    and touches no other business; owners never change. *)
Theorem update_is_partial now u b m x i :
  well_keyed m → getByUserId (user_id u) m = Some x → user_id u ≠ EmptyString → parseUpdateBusinessInput b = Some i →
  let d := formatForStorage i in
  ∃ y, updateBusiness now (Some u) b m = (Updated200 y, map_set (id x) y m) ∧
    id y = id x ∧ userId y = userId x ∧ email y = email x ∧ createdAt y = createdAt x ∧ updatedAt y = now ∧
    name y = default (name x) (to_option (i_name d)) ∧ industry y = updated (i_industry d) (industry x) ∧
    description y = updated (i_description d) (description x) ∧ website y = updated (i_website d) (website x) ∧
    owners (map_set (id x) y m) = owners m.
Proof.
  intros [Hn Hk] Hx Hu Hi d. destruct (getByUserId_Some _ _ _ Hx) as (_ & k & Hin).
  assert (map_get (id x) m = Some x) as Hg.
  { pose proof (proj1 (Forall_forall _ _) Hk _ Hin) as Hid. cbn in Hid. rewrite Hid. by apply map_get_elem. }
  unfold updateBusiness, signed_in. destruct u as [[|c w] e]; [done|]. cbn [user_id] in *. rewrite Hx, Hi. fold d. clearbody d. unfold update. rewrite Hg.
  eexists. split; [reflexivity|]. cbn. split_and!; try done; [by destruct (i_industry d)|by destruct (i_description d)|by destruct (i_website d)|].
  by apply (owners_kept _ _ x).
Qed.

(** The country a body gives is checked and then dropped: nothing of what
    is answered or stored depends on which accepted country it was. *)
Theorem country_not_stored fresh now u n i d c c' w m :
  create_country c ≠ None → create_country c' ≠ None →
  let b c := Some {| b_name := n; b_industry := i; b_description := d; b_country := c; b_website := w |} in
  create_store fresh now u (b c) m = create_store fresh now u (b c') m.
Proof.
  intros Hc Hc' b. unfold create_store, b, parseCreateBusinessInput. cbn. destruct (match n with Some (JText s) => name_text s | _ => None end) as [n0|]; [|done].
  cbn. destruct (create_field industry_text i); [|done]. cbn. destruct (create_field description_text d); [|done]. cbn.
  destruct (create_country c), (create_country c'); try done. cbn. by destruct (create_field website_text w).
Qed.

(** ** Sanitising *)

(** A [<] with a [>] somewhere after it; [open] when a [<] came before. *)
Fixpoint has_tag (open : bool) (s : string) : bool :=
  match s with EmptyString => false | String c r => (open && Ascii.eqb c ">") || has_tag (open || Ascii.eqb c "<") r end.

Lemma lacks_close o s : lacks ">" s = true → has_tag o s = false.
Proof.
  revert o. induction s as [|c s IH]; [done|]. intros o. unfold lacks in *. cbn [string_forallb has_tag]. intros [Hc%negb_true_iff Hs]%andb_true_iff.
  by rewrite Hc, andb_false_r, (IH _ Hs).
Qed.

(** A sanitised text has no tag left, and a text without one is not
    changed. *)
Theorem sanitized_has_no_tag s : has_tag false (sanitizeText s) = false ∧ (has_tag false s = false → sanitizeText s = s).
Proof.
  unfold sanitizeText. split.
  - assert (has_tag false (remove_tags None s) = false ∧ ∀ t, lacks ">" t = true → has_tag false (remove_tags (Some t) s) = false) as [H _]; [|exact H].
    induction s as [|c s [IH IH']]; [split; [done|intros t; apply lacks_close]|]. cbn [remove_tags]. split.
    + destruct (Ascii.eqb c "<") eqn:E; [by apply IH'|]. cbn [has_tag]. by rewrite E.
    + intros t Ht. destruct (Ascii.eqb c ">") eqn:E; [exact IH|]. apply IH'. rewrite lacks_app, Ht. unfold lacks. cbn [string_forallb]. by rewrite E.
  - assert ((has_tag false s = false → remove_tags None s = s) ∧ ∀ t, has_tag true s = false → remove_tags (Some t) s = t +:+ s) as [H _]; [|exact H].
    induction s as [|c s [IH IH']]; [split; [done|intros t _; cbn; by rewrite string_app_nil_r]|]. cbn [remove_tags has_tag]. split.
    + intros [_ H]%orb_false_iff. destruct (Ascii.eqb c "<") eqn:E; [apply Ascii.eqb_eq in E as ->; by apply (IH' "<")|by rewrite IH].
    + intros t [Hc H]%orb_false_iff. cbn [andb] in Hc. rewrite Hc, (IH' _ H). by rewrite <- string_app_assoc.
Qed.

(** ** Concrete inputs *)

Definition acme : body :=
  {| b_name := Some (JText "  Acme   Corp "); b_industry := Some (JText "  "); b_description := None; b_country := Some (JText "ng");
     b_website := Some (JText " EXAMPLE.com/shop// ") |}.
Definition ada : user := {| user_id := "u1"; user_email := Some "ada@example.com" |}.

Example acme_stored :
  ∃ b, (createBusiness "b1" 5 (Some ada) (Some acme) []).1 = Created201 b ∧ name b = "Acme Corp" ∧ industry b = None ∧
    website b = Some "https://example.com/shop".
Proof. eexists. split; [vm_compute; reflexivity|]. done. Qed.

(** Validated or not, a country of any length is upper-cased. *)
Example long_country : normalizeCountryCode "usa" = Some "USA".
Proof. reflexivity. Qed.

(** A blank country is accepted by one schema and refused by the other. *)
Example blank_country : create_country (Some (JText EmptyString)) = Some Null ∧ update_field country_text (Some (JText EmptyString)) = None.
Proof. done. Qed.

Example sanitized : sanitizeText "<script>alert(1)</script>" = "alert(1)".
Proof. reflexivity. Qed.

Example blocked_scheme : website_text "javascript:alert(1)" = None ∧ website_text "//evil.com" = None ∧ website_text "10.0.0.1" = None.
Proof. vm_compute. done. Qed.

Lemma stored_businesses_normal_witness : all_normal (create_store "b1" 5 ada (Some acme) []).2.
Proof. exact (stored_businesses_normal _ (rtc_once _ _ (step_create [] "b1" 5 ada (Some acme)))). Defined.

Lemma parsed_input_parses_again_witness :
  ∃ i, parseCreateBusinessInput (Some acme) = Some i ∧ parseCreateBusinessInput (Some (as_body i)) = Some i.
Proof.
  eexists. split; [vm_compute; reflexivity|]. apply (proj1 (parsed_input_parses_again (Some acme) _)). vm_compute. reflexivity.
Defined.

Lemma creation_outcomes_witness : (createBusiness "b1" 5 (Some ada) None []).1 = Invalid400.
Proof.
  pose proof (creation_outcomes "b1" 5 (Some ada) None [] eq_refl ltac:(constructor)) as H.
  destruct (createBusiness "b1" 5 (Some ada) None []) as [r m']. destruct H as [_ [H _]]. exact H.
Defined.

Lemma overlapping_creations_duplicate_witness :
  ∃ x y, userId x = userId y ∧ id x ≠ id y ∧ ¬ one_per_user (map_set "b2" y (map_set "b1" x [])).
Proof.
  destruct (parseCreateBusinessInput (Some acme)) as [i|] eqn:E; [|vm_compute in E; discriminate].
  destruct (overlapping_creations_duplicate "b1" "b2" 5 6 ada (Some acme) (Some acme) [] i i eq_refl eq_refl eq_refl
    ltac:(discriminate) E E) as (x & y & _ & _ & H). by exists x, y.
Defined.

Definition rename : body :=
  {| b_name := Some (JText "Acme 2"); b_industry := None; b_description := None; b_country := None; b_website := Some JNull |}.

Lemma update_is_partial_witness :
  let m := (createBusiness "b1" 5 (Some ada) (Some acme) []).2 in
  ∃ y, (updateBusiness 9 (Some ada) (Some rename) m).1 = Updated200 y ∧ name y = "Acme 2" ∧ website y = None.
Proof.
  intros m. destruct (getByUserId "u1" m) as [x|] eqn:Ex; [|vm_compute in Ex; discriminate].
  destruct (parseUpdateBusinessInput (Some rename)) as [i|] eqn:Ei; [|vm_compute in Ei; discriminate].
  destruct (update_is_partial 9 ada (Some rename) m x i) as (y & Hu & _ & _ & _ & _ & _ & Hn & _ & _ & Hw & _);
    [split; [apply (bool_decide_unpack _); vm_compute; exact I|vm_compute; repeat constructor]|exact Ex|discriminate|exact Ei|].
  exists y. rewrite Hu. vm_compute in Ei. injection Ei as <-. split_and!; [done|rewrite Hn; vm_compute; done|rewrite Hw; vm_compute; done].
Defined.

Lemma country_not_stored_witness :
  create_store "b1" 5 ada (Some acme) [] =
  create_store "b1" 5 ada (Some {| b_name := b_name acme; b_industry := b_industry acme; b_description := b_description acme;
                                   b_country := None; b_website := b_website acme |}) [].
Proof.
  exact (country_not_stored "b1" 5 ada (b_name acme) (b_industry acme) (b_description acme) (b_country acme) None (b_website acme) []
    ltac:(discriminate) ltac:(discriminate)).
Defined.
