(* ===== verification/RequestAuth.v ===== *)
(** * Identities on requests: [src/middleware/optionalAuth.ts],
    [src/middleware/auth.ts] and the routes of [src/routes/businesses.ts] that
    the latter guards, with [src/services/business/get.ts].

    [optionalAuth] never refuses: it sets or clears the request's user and
    reports an event.  The other middleware takes a header for the identity. *)

From S2P Require Import Prelude Numeric Hashing JsString Words Collections Businesses BusinessInput.
#[local] Open Scope Z_scope.

(** ** Optional authentication *)

Inductive AuthEventType :=
| NO_TOKEN | MALFORMED_HEADER | INVALID_TOKEN | EXPIRED_TOKEN | WRONG_ISSUER | WRONG_AUDIENCE
| USER_NOT_FOUND | AUTH_SUCCESS | DATABASE_ERROR | UNEXPECTED_ERROR.

Record TokenExtractionResult := {
  token : option string; eventType : AuthEventType; headerPresent : bool; hasBearerPrefix : bool; tokenLength : option nat
}.

Definition malformed (bearer : bool) (len : nat) : TokenExtractionResult :=
  {| token := None; eventType := MALFORMED_HEADER; headerPresent := true; hasBearerPrefix := bearer; tokenLength := Some len |}.

Definition extractAndClassifyToken (authHeader : option string) : TokenExtractionResult :=
  match authHeader with
  | None => {| token := None; eventType := NO_TOKEN; headerPresent := false; hasBearerPrefix := false; tokenLength := None |}
  | Some h =>
      if is_empty (trim h) then malformed false 0
      else
        match split_spaces h with
        | [] => malformed false 0
        | [p] => malformed (String.eqb (to_lower p) "bearer") 0
        | p :: rest =>
            if negb (String.eqb (to_lower p) "bearer") then malformed false (String.length h - String.length p)
            else
              let t := join " " rest in
              if is_empty t || is_empty (trim t) then malformed true 0
              else {| token := Some (trim t); eventType := AUTH_SUCCESS; headerPresent := true; hasBearerPrefix := true;
                      tokenLength := Some (String.length (trim t)) |}
        end
  end.

(** [\w] *)
Definition is_word_char (c : ascii) : bool := is_alnum c || Ascii.eqb c "_".

(** The longest runs of [\w] characters; the others become spaces. *)
Definition word_runs (s : string) : list string := words (string_map (λ c, if is_word_char c then c else " "%char) s).

(** [/\b(a|b)\b/i.test(s)] for words [a], [b] in lower case: such a match is a
    whole run. *)
Definition mentions (l : list string) (s : string) : bool := existsb (λ r, existsb (String.eqb (to_lower r)) l) (word_runs s).

Definition JWT_EXPIRY_ERROR := mentions ["expired"; "exp"].
Definition JWT_ISSUER_ERROR := mentions ["issuer"; "iss"].
Definition JWT_AUDIENCE_ERROR := mentions ["audience"; "aud"].

(** [None] is a thrown value that is no [Error]. *)
Definition classify_error (message : option string) : AuthEventType :=
  match message with
  | None => INVALID_TOKEN
  | Some m =>
      if JWT_EXPIRY_ERROR m then EXPIRED_TOKEN else if JWT_ISSUER_ERROR m then WRONG_ISSUER
      else if JWT_AUDIENCE_ERROR m then WRONG_AUDIENCE else INVALID_TOKEN
  end.

(** What verification does: throws, gives nothing, or a user id. *)
Inductive verification := Threw (message : option string) | NoPayload | Payload (uid : string).

Record req_user := { ru_id : string; ru_userId : string; ru_email : option string }.

(** The account [findUserById] gives; [None] for a lookup that throws. *)
Definition optionalAuth (verifyToken : string → verification) (findUserById : string → option (option user))
  (authHeader : option string) (stale : option req_user) : option req_user * AuthEventType :=
  let e := extractAndClassifyToken authHeader in
  match token e with
  | None => (None, eventType e)
  | Some t =>
      match verifyToken t with
      | Threw m => (None, classify_error m)
      | NoPayload => (None, INVALID_TOKEN)
      | Payload uid =>
          match findUserById uid with
          | None => (None, DATABASE_ERROR)
          | Some None => (None, USER_NOT_FOUND)
          | Some (Some u) => (Some {| ru_id := user_id u; ru_userId := user_id u; ru_email := user_email u |}, AUTH_SUCCESS)
          end
      end
  end.

(** ** The header middleware and the routes behind it *)

Record request := { x_user_id : option string; payload : option body; param_id : string }.

(** [None] is the error passed on, a 401. *)
Definition requireAuth (r : request) : option req_user :=
  match x_user_id r with
  | Some (String _ _ as u) => Some {| ru_id := u; ru_userId := u; ru_email := Some EmptyString |}
  | _ => None
  end.

Record PublicBusiness := {
  p_id : string; p_name : string; p_industry : option string; p_description : option string; p_website : option string; p_createdAt : Z
}.
Definition public_fields (b : Business) : PublicBusiness :=
  {| p_id := id b; p_name := name b; p_industry := industry b; p_description := description b; p_website := website b; p_createdAt := createdAt b |}.

Definition as_user (u : req_user) : user := {| user_id := ru_id u; user_email := ru_email u |}.

Inductive answer := Refused401 | Body400 | Service (r : response) | Mine200 (b : Business) | Public200 (b : PublicBusiness) | Missing404.

Definition getMyBusiness (u : req_user) (m : businesses) : answer :=
  match getByUserId (ru_id u) m with Some b => Mine200 b | None => Missing404 end.

Definition getBusinessById (r : request) (m : businesses) : answer :=
  match getById (param_id r) m with Some b => Public200 (public_fields b) | None => Missing404 end.

(** [GET /me], [PATCH /me] and [POST /]; [validateBody] hands on the parsed
    body. *)
Definition get_me (r : request) (m : businesses) : answer :=
  match requireAuth r with None => Refused401 | Some u => getMyBusiness u m end.

Definition patch_me (now : Z) (r : request) (m : businesses) : answer * businesses :=
  match requireAuth r with
  | None => (Refused401, m)
  | Some u =>
      match parseUpdateBusinessInput (payload r) with
      | None => (Body400, m)
      | Some i => let '(a, m) := updateBusiness now (Some (as_user u)) (Some (as_body i)) m in (Service a, m)
      end
  end.

Definition post_business (fresh : string) (now : Z) (r : request) (m : businesses) : answer * businesses :=
  match requireAuth r with
  | None => (Refused401, m)
  | Some u =>
      match parseCreateBusinessInput (payload r) with
      | None => (Body400, m)
      | Some i => let '(a, m) := createBusiness fresh now (Some (as_user u)) (Some (as_body i)) m in (Service a, m)
      end
  end.

(** ** Tokens of a header *)

(** A header that gives a token starts with [bearer] in some case and has the
    token's words after it. *)
Lemma extracted h t : token (extractAndClassifyToken h) = Some t →
  ∃ s p rest, h = Some s ∧ split_spaces s = p :: rest ∧ to_lower p = "bearer" ∧ t = trim (join " " rest) ∧ is_empty t = false.
Proof.
  unfold extractAndClassifyToken. destruct h as [s|]; [|done]. destruct (is_empty (trim s)); [done|].
  destruct (split_spaces s) as [|p [|q rest]] eqn:E; [done..|].
  destruct (String.eqb_spec (to_lower p) "bearer") as [Hp|]; cbn [negb]; [|done].
  destruct (is_empty (join " " (q :: rest)) || is_empty (trim (join " " (q :: rest)))) eqn:Et; [done|]. cbn [token]. intros [= <-].
  apply orb_false_iff in Et as [_ Et]. by exists s, p, (q :: rest).
Qed.

(** ** Properties *)

(** A request leaves optional authentication with a user exactly when its
    header is [bearer], in any case, and words that join to a token which
    verifies and names an account that is found; the user is that account.  A
    user left from before never survives, and the event is a success exactly
    then. *)
Theorem optional_auth_sets_verified_user verify find h stale :
  let '(u, e) := optionalAuth verify find h stale in
  (∀ v, u = Some v → ∃ s p rest uid a, h = Some s ∧ split_spaces s = p :: rest ∧ to_lower p = "bearer" ∧
      verify (trim (join " " rest)) = Payload uid ∧ find uid = Some (Some a) ∧
      v = {| ru_id := user_id a; ru_userId := user_id a; ru_email := user_email a |}) ∧
  (e = AUTH_SUCCESS ↔ u ≠ None) ∧ ∀ stale', optionalAuth verify find h stale' = (u, e).
Proof.
  unfold optionalAuth. destruct (token (extractAndClassifyToken h)) as [t|] eqn:Et.
  - destruct (extracted h t Et) as (s & p & rest & -> & Hs & Hp & -> & _).
    destruct (verify (trim (join " " rest))) as [m| |uid] eqn:Ev.
    + split_and!; [done| |done]. split; [|done]. unfold classify_error. destruct m as [m|]; [|done].
      destruct (JWT_EXPIRY_ERROR m), (JWT_ISSUER_ERROR m), (JWT_AUDIENCE_ERROR m); done.
    + split_and!; done.
    + destruct (find uid) as [[a|]|] eqn:Ef; [|split_and!; done..]. split_and!; [|done|done].
      intros v [= <-]. exists s, p, rest, uid, a. done.
  - split_and!; [done| |done]. split; [|done]. unfold extractAndClassifyToken in *. destruct h as [s|]; [|done].
    destruct (is_empty (trim s)); [done|]. destruct (split_spaces s) as [|p [|q rest]]; [done..|]. destruct (negb _); [done|].
    destruct (_ || _); [done|]. discriminate Et.
Qed.

(** The token of a header is read back: any case of [bearer], one or more
    spaces, and a token without white space. *)
Theorem bearer_token_read p t pad :
  to_lower p = "bearer" → unspaced p = true → is_word t = true → Forall (λ c, c = " "%char) (String.list_ascii_of_string pad) →
  token (extractAndClassifyToken (Some (p +:+ String " " (pad +:+ t)))) = Some t.
Proof.
  intros Hp Hup Ht Hpad. assert (∀ s, split_spaces (String " " (pad +:+ s)) = EmptyString :: split_spaces s ∨ stops is_space s = false) as Hsplit.
  { intros s. destruct (stops is_space s) eqn:Es; [left|by right]. clear Ht. induction pad as [|c pad IH].
    - change (EmptyString +:+ s) with s. destruct s as [|d s]; [done|]. cbn in Es. apply negb_true_iff in Es. cbn [split_spaces]. by rewrite Es.
    - cbn in Hpad. apply Forall_cons in Hpad as [-> Hpad]. rewrite string_cons_app. specialize (IH Hpad).
      change (split_spaces (String " " (String " " (pad +:+ s)))) with (split_spaces (String " " (pad +:+ s))). exact IH. }
  pose proof Ht as [Hn Hu]%andb_true_iff. assert (stops is_space t = true) as Hst by (rewrite <- (string_app_nil_r t); by apply word_stops).
  assert (split_spaces (p +:+ String " " (pad +:+ t)) = p :: split_spaces t) as Hs.
  { clear -Hup Hsplit Hst. destruct (Hsplit t) as [Hsplit'|]; [|congruence]. induction p as [|c p IH]; [exact Hsplit'|].
    unfold unspaced in Hup. cbn in Hup. apply andb_true_iff in Hup as [Hc%negb_true_iff Hup]. rewrite string_cons_app. cbn [split_spaces].
    by rewrite Hc, (IH Hup). }
  unfold extractAndClassifyToken. rewrite Hs, (split_one t Hu), Hp.
  assert (is_empty (trim (p +:+ String " " (pad +:+ t))) = false) as ->.
  { destruct p as [|c p]; [done|]. unfold unspaced in Hup. cbn in Hup. apply andb_true_iff in Hup as [Hc%negb_true_iff _].
    rewrite string_cons_app. unfold trim. cbn [trim_start]. rewrite Hc. cbn [trim_end]. rewrite Hc. by destruct (trim_end _). }
  cbn [String.eqb Ascii.eqb Bool.eqb negb join]. rewrite (trim_fixed t Hu). destruct t as [|c t]; [done|]. reflexivity.
Qed.

(** The verifier of this repository answers [null] for every token it
    refuses and never throws; behind it the events for expired tokens, wrong
    issuers and wrong audiences are never reported. *)
Theorem no_claim_events verify find h stale :
  (∀ t m, verify t ≠ Threw m) →
  (optionalAuth verify find h stale).2 ∈ [NO_TOKEN; MALFORMED_HEADER; INVALID_TOKEN; USER_NOT_FOUND; AUTH_SUCCESS; DATABASE_ERROR].
Proof.
  intros Hv. unfold optionalAuth. destruct (token (extractAndClassifyToken h)) as [t|] eqn:Et.
  - destruct (verify t) as [m| |uid] eqn:E; [by destruct (Hv t m)|cbn; set_solver|]. destruct (find uid) as [[a|]|]; cbn; set_solver.
  - cbn [snd]. unfold extractAndClassifyToken. destruct h as [s|]; [|cbn; set_solver].
    destruct (is_empty (trim s)); [cbn; set_solver|]. destruct (split_spaces s) as [|p [|q rest]]; [cbn; set_solver..|].
    destruct (negb _); [cbn; set_solver|]. destruct (_ || _); cbn; set_solver.
Qed.

(** The business routes take the header [x-user-id] for the caller: a
    request reads a business whole, with its owner's address,
    and changes it, by naming the owner. *)
Theorem header_acts_as_owner now r m x i :
  well_keyed m → x_user_id r = Some (userId x) → userId x ≠ EmptyString → getByUserId (userId x) m = Some x →
  parseUpdateBusinessInput (payload r) = Some i →
  get_me r m = Mine200 x ∧
  ∃ y, patch_me now r m = (Service (Updated200 y), map_set (id x) y m) ∧ name y = default (name x) (to_option (i_name (formatForStorage i))).
Proof.
  intros Hw Hx Hne Hu Hi. unfold get_me, patch_me, requireAuth. rewrite Hx, Hi. destruct (userId x) as [|c w] eqn:E; [done|].
  split; [unfold getMyBusiness; cbn; by rewrite Hu|].
  pose proof (update_parses_again (payload r) i Hi) as Hi'.
  destruct (update_is_partial now (as_user {| ru_id := String c w; ru_userId := String c w; ru_email := Some EmptyString |}) (Some (as_body i)) m x i)
    as (y & Hy & _ & _ & _ & _ & _ & Hn & _); [done|done|done|exact Hi'|]. exists y. by rewrite Hy.
Qed.

(** The public route shows six fields of a business, and nothing else of
    it matters: neither its owner's address nor its settings. *)
Theorem public_view_hides_owner r m m' :
  (∀ i, public_fields <$> getById i m = public_fields <$> getById i m') → getBusinessById r m = getBusinessById r m'.
Proof.
  intros H. specialize (H (param_id r)). apply (f_equal (from_option Public200 Missing404)) in H. unfold getBusinessById.
  by destruct (getById (param_id r) m), (getById (param_id r) m').
Qed.

(** A creation through the route is the handler's, on the body as sent:
    the middleware's parsing changes nothing. *)
Theorem route_creation fresh now r m u i :
  requireAuth r = Some u → parseCreateBusinessInput (payload r) = Some i →
  post_business fresh now r m = (Service (createBusiness fresh now (Some (as_user u)) (payload r) m).1,
                                 (createBusiness fresh now (Some (as_user u)) (payload r) m).2).
Proof.
  intros Hu Hi. unfold post_business. rewrite Hu, Hi. unfold createBusiness.
  destruct (create_check (Some (as_user u)) m); [done|]. unfold create_store. by rewrite Hi, (create_parses_again _ _ Hi).
Qed.

(** ** Concrete requests *)

Definition verify_good (t : string) : verification := if String.eqb t "good" then Payload "u1" else NoPayload.
Definition find_ada (i : string) : option (option user) := Some (if String.eqb i "u1" then Some ada else None).

Example good_token : optionalAuth verify_good find_ada (Some "BEARER   good") None =
  (Some {| ru_id := "u1"; ru_userId := "u1"; ru_email := Some "ada@example.com" |}, AUTH_SUCCESS).
Proof. reflexivity. Qed.

Example whole_words : classify_error (Some "unexpected audience") = WRONG_AUDIENCE ∧ classify_error (Some "jwt expired") = EXPIRED_TOKEN.
Proof. split; reflexivity. Qed.

Lemma bearer_token_read_witness : token (extractAndClassifyToken (Some "Bearer  good")) = Some "good".
Proof. exact (bearer_token_read "Bearer" "good" " " eq_refl eq_refl eq_refl ltac:(repeat constructor)). Defined.

Lemma no_claim_events_witness :
  (optionalAuth verify_good find_ada (Some "Bearer old") None).2 ∈ [NO_TOKEN; MALFORMED_HEADER; INVALID_TOKEN; USER_NOT_FOUND; AUTH_SUCCESS; DATABASE_ERROR].
Proof.
  refine (no_claim_events verify_good find_ada (Some "Bearer old") None _).
  intros t m. unfold verify_good. destruct (String.eqb t "good"); discriminate.
Defined.

Lemma header_acts_as_owner_witness :
  let m := (createBusiness "b1" 5 (Some ada) (Some acme) []).2 in
  let r := {| x_user_id := Some "u1"; payload := Some rename; param_id := EmptyString |} in
  ∃ y, (patch_me 9 r m).1 = Service (Updated200 y) ∧ name y = "Acme 2".
Proof.
  intros m r. destruct (getByUserId "u1" m) as [x|] eqn:Ex; [|vm_compute in Ex; discriminate].
  destruct (parseUpdateBusinessInput (Some rename)) as [i|] eqn:Ei; [|vm_compute in Ei; discriminate].
  assert (userId x = "u1") as Hu by (vm_compute in Ex; injection Ex as <-; reflexivity).
  destruct (header_acts_as_owner 9 r m x i) as [_ (y & Hy & Hn)];
    [split; [apply (bool_decide_unpack _); vm_compute; exact I|vm_compute; repeat constructor]
    |rewrite Hu; reflexivity|rewrite Hu; discriminate|rewrite Hu; exact Ex|exact Ei|].
  exists y. rewrite Hy. vm_compute in Ei. injection Ei as <-. split; [reflexivity|rewrite Hn; vm_compute; reflexivity].
Defined.

Lemma public_view_hides_owner_witness :
  let m := (createBusiness "b1" 5 (Some ada) (Some acme) []).2 in
  let m' := (setLastReminderSentAt 9 "b1" "t" m).2 in
  getBusinessById {| x_user_id := None; payload := None; param_id := "b1" |} m = getBusinessById {| x_user_id := None; payload := None; param_id := "b1" |} m'.
Proof.
  intros m m'. apply public_view_hides_owner. intros i. unfold m', m, getById. vm_compute. destruct i as [|[] [|[] []]]; try reflexivity.
  all: repeat match goal with |- context [match ?b with true => _ | false => _ end] => destruct b end; reflexivity.
Defined.

Lemma route_creation_witness :
  let r := {| x_user_id := Some "u1"; payload := Some acme; param_id := EmptyString |} in
  ∃ b, (post_business "b1" 5 r []).1 = Service (Created201 b).
Proof.
  intros r. destruct (parseCreateBusinessInput (Some acme)) as [i|] eqn:Ei; [|vm_compute in Ei; discriminate].
  rewrite (route_creation "b1" 5 r [] {| ru_id := "u1"; ru_userId := "u1"; ru_email := Some EmptyString |} i eq_refl Ei).
  eexists. vm_compute. reflexivity.
Defined.
