(* ===== verification/Migrations.v ===== *)
(** * Migration files: [src/db/migrate.ts].

    The directory is a list of file names with their contents; the runner the
    header of the source speaks of is not in the repository. *)

From stdpp Require Import sorting.
From Stdlib Require Import Sorting.Sorted.
From S2P Require Import Prelude Numeric Hashing JsString Words Collections AuditChain Periods WebhookSubscriptions.
#[local] Open Scope Z_scope.

Abbreviation directory := (list (string * string)).

Definition ends_with (suffix s : string) : bool := match strip_suffix suffix s with Some _ => true | None => false end.

(** The version a file stands for, if it is an up-migration. *)
Definition version_of (f : string) : option string :=
  match strip_suffix ".up.sql" f with
  | Some v => Some v
  | None => match strip_suffix ".sql" f with Some v => if ends_with ".down.sql" f then None else Some v | None => None end
  end.

(** [[...versions].sort()]: by code units. *)
Definition code_order (a b : string) : Z := if String.eqb a b then 0 else if str_lt a b then -1 else 1.

Definition discoverMigrations (d : directory) : list string :=
  js_sort code_order (fold_left set_add (omap version_of d.*1) []).

Definition access (d : directory) (f : string) : bool := match map_get f d with Some _ => true | None => false end.

(** An [Error] carries the version. *)
Definition getUpSql (version : string) (d : directory) : result string string :=
  match map_get (version +:+ ".up.sql") d with
  | Some sql => Ok sql
  | None => match map_get (version +:+ ".sql") d with Some sql => Ok sql | None => Err version end
  end.

Definition getDownSql (version : string) (d : directory) : option string := map_get (version +:+ ".down.sql") d.

Definition versionHasCompanionDown (version : string) (d : directory) : bool := access d (version +:+ ".down.sql").

Record MigrationLintResult := { l_version : string; hasCompanion : bool; isLegacy : bool }.
Record LintMigrationReport := { total : nat; withCompanion : nat; legacy : nat; results : list MigrationLintResult }.

Definition lintMigrationCompanion (version : string) (d : directory) : MigrationLintResult :=
  {| l_version := version; hasCompanion := versionHasCompanionDown version d; isLegacy := access d (version +:+ ".sql") |}.

Definition lintAllMigrations (d : directory) : LintMigrationReport :=
  let results := map (λ v, lintMigrationCompanion v d) (discoverMigrations d) in
  {| total := length results; withCompanion := length (List.filter hasCompanion results);
     legacy := length (List.filter isLegacy results); results := results |}.

Definition show_nat (n : nat) : string := show_Z (Z.of_nat n).

Definition formatLintMigrationReport (r : LintMigrationReport) : string :=
  let head := ["Migration companion lint";
               "Total: " +:+ show_nat (total r) +:+ " | With companion: " +:+ show_nat (withCompanion r) +:+
               " | Legacy (up-only): " +:+ show_nat (legacy r); EmptyString] in
  join (String (ascii_of_nat 10) EmptyString)
    (if (legacy r =? 0)%nat then head ++ ["All migrations have companion .down.sql files."]
     else head ++ ["Legacy migrations (no .down.sql companion):"] ++
          map (λ l, "  - " +:+ l_version l) (List.filter isLegacy (results r)) ++
          [EmptyString; "Create a companion .down.sql or migrate to the paired (.up.sql/.down.sql) format."]).

Inductive DurationError := EmptyDuration | InvalidDuration.

(** [/^(\d+)(ms|s|m)?$/], then the unit.  Numbers are integers here, which is
    exact up to [2^53]. *)
Definition parseDurationMs (s : string) : result DurationError Z :=
  let t := trim s in
  if is_empty t then Err EmptyDuration
  else
    let '(ds, unit) := span is_digit t in
    if is_empty ds then Err InvalidDuration
    else match unit with
         | EmptyString | "ms" => Ok (Number ds)
         | "s" => Ok (Number ds * 1000)
         | "m" => Ok (Number ds * 60 * 1000)
         | _ => Err InvalidDuration
         end.

(** ** Properties *)

Lemma code_order_neg a b : code_order a b <= 0 → a ≠ b → str_lt a b = true.
Proof. unfold code_order. destruct (String.eqb_spec a b); [done|]. destruct (str_lt a b); [done|lia]. Qed.

Lemma code_order_pos a b : 0 < code_order a b → str_lt b a = true.
Proof.
  unfold code_order. destruct (String.eqb_spec a b); [lia|]. destruct (str_lt a b) eqn:E; [lia|]. intros _. by apply str_lt_total.
Qed.

(** Sorting members by distinct names forgets the order they had. *)
Lemma members_sort_unique {V} (l l' : list (string * V)) : NoDup l.*1 → l ≡ₚ l' →
  js_sort (λ a b, code_order a.1 b.1) l = js_sort (λ a b, code_order a.1 b.1) l'.
Proof.
  intros Hn Hp. set (lt := λ a b : string * V, str_lt a.1 b.1 = true).
  assert (∀ l, NoDup l.*1 → StronglySorted lt (js_sort (λ a b, code_order a.1 b.1) l)) as Hs.
  { intros l0 Hl. apply (js_sort_sorted _ (λ x, x ∈ l0) lt).
    - intros x y z. apply str_lt_trans.
    - intros [k v] [k' v'] H1 H2 Hle Hne. apply code_order_neg in Hle; [done|]. cbn. intros ->. apply Hne. f_equal.
      apply (map_get_elem _ _ _ Hl) in H1, H2. congruence.
    - intros x y _ _. apply code_order_pos.
    - by apply Forall_forall.
    - by apply (NoDup_fmap_1 fst). }
  apply (StronglySorted_unique_strong lt); [|by apply Hs|apply Hs; by rewrite <- Hp|by rewrite !js_sort_perm].
  intros x y _ _ H1 H2. unfold lt in *. pose proof (str_lt_trans _ _ _ H1 H2) as H. by rewrite str_lt_irrefl in H.
Qed.

Lemma strip_suffix_Some suffix p : strip_suffix suffix (p +:+ suffix) = Some p.
Proof.
  unfold strip_suffix. rewrite string_length_app. replace (String.length p + String.length suffix - String.length suffix)%nat with (String.length p) by lia.
  assert (String.substring (String.length p) (String.length suffix) (p +:+ suffix) = suffix) as ->.
  { induction p as [|c p IH]; [apply substring_all|]. rewrite string_cons_app. exact IH. }
  rewrite String.eqb_refl. assert ((String.length suffix <=? String.length p + String.length suffix)%nat = true) as -> by (apply Nat.leb_le; lia).
  cbn. f_equal. induction p as [|c p IH]; [by destruct suffix|]. rewrite string_cons_app. cbn. by rewrite IH.
Qed.

Lemma version_of_spec f v : version_of f = Some v ↔
  f = v +:+ ".up.sql" ∨ (f = v +:+ ".sql" ∧ ends_with ".up.sql" f = false ∧ ends_with ".down.sql" f = false).
Proof.
  unfold version_of, ends_with. destruct (strip_suffix ".up.sql" f) as [w|] eqn:E.
  - apply strip_suffix_app in E as ->. split.
    + intros [= ->]. by left.
    + intros [H|(_ & ? & _)]; [|done]. f_equal. assert (strip_suffix ".up.sql" (w +:+ ".up.sql") = strip_suffix ".up.sql" (v +:+ ".up.sql")) as H'
        by by rewrite H. rewrite !strip_suffix_Some in H'. by injection H'.
  - destruct (strip_suffix ".sql" f) as [w|] eqn:E'.
    + apply strip_suffix_app in E'. destruct (strip_suffix ".down.sql" f) eqn:E''.
      * split; [done|]. intros [H|(_ & _ & ?)]; [|done]. rewrite H, strip_suffix_Some in E. done.
      * split.
        -- intros [= ->]. by right.
        -- intros [H|(H & _)]; [by rewrite H, strip_suffix_Some in E|]. f_equal.
           assert (strip_suffix ".sql" (w +:+ ".sql") = strip_suffix ".sql" (v +:+ ".sql")) as H' by (rewrite <- E', <- H; reflexivity).
           rewrite !strip_suffix_Some in H'. by injection H'.
    + split; [done|]. intros [H|(H & _)]; [by rewrite H, strip_suffix_Some in E|by rewrite H, strip_suffix_Some in E'].
Qed.

Lemma discovered d v : v ∈ discoverMigrations d ↔ ∃ f, f ∈ d.*1 ∧ version_of f = Some v.
Proof.
  unfold discoverMigrations. rewrite js_sort_perm. destruct (set_adds (omap version_of d.*1) [] ltac:(constructor)) as (_ & _ & Hin).
  rewrite Hin, elem_of_nil, list_elem_of_omap. split; [intros [[]|H]; exact H|by right].
Qed.

(** The migrations are listed once each in the order of their names: the
    versions with an [.up.sql] file or an [.sql] file that is no down
    migration, and each of them has a migration to read. *)
Theorem migrations_discovered d :
  NoDup (discoverMigrations d) ∧ StronglySorted (λ a b, str_lt a b = true) (discoverMigrations d) ∧
  (∀ v, v ∈ discoverMigrations d ↔
     v +:+ ".up.sql" ∈ d.*1 ∨ (v +:+ ".sql" ∈ d.*1 ∧ ends_with ".up.sql" (v +:+ ".sql") = false ∧ ends_with ".down.sql" (v +:+ ".sql") = false)) ∧
  ∀ v, v ∈ discoverMigrations d → is_ok (getUpSql v d) = true.
Proof.
  destruct (set_adds (omap version_of d.*1) [] ltac:(constructor)) as (Hn & _ & _).
  assert (Hin : ∀ v, v ∈ discoverMigrations d ↔
    v +:+ ".up.sql" ∈ d.*1 ∨ (v +:+ ".sql" ∈ d.*1 ∧ ends_with ".up.sql" (v +:+ ".sql") = false ∧ ends_with ".down.sql" (v +:+ ".sql") = false)).
  { intros v. rewrite discovered. setoid_rewrite version_of_spec. split.
    - intros (f & Hf & [->|(-> & H1 & H2)]); auto.
    - intros [H|(H & H1 & H2)]; eauto 6. }
  split_and!; [unfold discoverMigrations; by rewrite js_sort_perm| |done|].
  - unfold discoverMigrations. apply (js_sort_sorted code_order (λ _, True) (λ a b, str_lt a b = true)); [exact str_lt_trans| | | |done].
    + intros a b _ _. apply code_order_neg.
    + intros a b _ _. apply code_order_pos.
    + by apply Forall_true.
  - intros v Hv%Hin. unfold getUpSql.
    assert (∀ f, f ∈ d.*1 → ∃ c, map_get f d = Some c) as Hget.
    { clear. intros f. induction d as [|[g c] d IH]; [by intros ?%elem_of_nil|]. cbn. rewrite elem_of_cons.
      destruct (String.eqb_spec f g) as [->|Hne]; [by exists c|]. intros [?|?]; [done|auto]. }
    destruct (map_get (v +:+ ".up.sql") d) eqn:E; [done|]. destruct Hv as [H|[H _]]; apply Hget in H as [c Hc]; [congruence|by rewrite Hc].
Qed.

(** The lint counts as legacy what has a bare [.sql] file, whatever its
    companions, and says that all migrations have their companion when none
    is legacy, also when a paired one has none. *)
Theorem lint_misses_missing_companion d v :
  v +:+ ".up.sql" ∈ d.*1 → access d (v +:+ ".down.sql") = false → Forall (λ w, access d (w +:+ ".sql") = false) (discoverMigrations d) →
  let r := lintAllMigrations d in
  (withCompanion r < total r)%nat ∧ legacy r = 0%nat ∧
  ∃ pre, formatLintMigrationReport r = pre +:+ "All migrations have companion .down.sql files.".
Proof.
  intros Hup Hd Hl r. assert (v ∈ discoverMigrations d) as Hv.
  { apply discovered. exists (v +:+ ".up.sql"). split; [done|]. apply version_of_spec. by left. }
  assert (legacy r = 0%nat) as Hleg.
  { cbn. clear -Hl. induction Hl as [|w l Hw _ IH]; [done|]. cbn. by rewrite Hw. }
  split_and!; [|done|].
  - cbn. rewrite length_map. clear -Hv Hd. induction (discoverMigrations d) as [|w l IH]; [by apply elem_of_nil in Hv|]. cbn.
    assert (∀ l, (length (List.filter hasCompanion (map (λ v, lintMigrationCompanion v d) l)) ≤ length l)%nat) as Hle.
    { clear. intros l. rewrite <- (length_map (λ v, lintMigrationCompanion v d) l). apply filter_length_le. }
    apply elem_of_cons in Hv as [->|Hv].
    + unfold versionHasCompanionDown. rewrite Hd. specialize (Hle l). lia.
    + specialize (IH Hv). destruct (versionHasCompanionDown w d); cbn; lia.
  - unfold formatLintMigrationReport. rewrite Hleg. cbn [Nat.eqb]. rewrite join_app by done. eexists. by rewrite string_app_assoc.
Qed.

Lemma decimal_digits f n acc : string_forallb is_digit acc = true → string_forallb is_digit (decimal_aux f n acc) = true.
Proof.
  revert n acc. induction f as [|f IH]; intros n acc Ha; [done|]. cbn [decimal_aux].
  assert (string_forallb is_digit (String (ascii_of_nat (Z.to_nat (48 + n mod 10))) acc) = true) as H.
  { cbn [string_forallb]. rewrite Ha, andb_true_r. pose proof (Z.mod_pos_bound n 10 ltac:(lia)).
    assert (∃ k : nat, n mod 10 = Z.of_nat k ∧ (k < 10)%nat) as (k & -> & Hk) by (exists (Z.to_nat (n mod 10)); lia).
    do 10 (destruct k as [|k]; [done|]). lia. }
  case_if; [done|]. by apply IH.
Qed.

Lemma shown_digits n : 0 ≤ n < 10 ^ 20 → string_forallb is_digit (show_Z n) = true ∧ Number (show_Z n) = n ∧ is_empty (show_Z n) = false.
Proof.
  intros Hn. unfold show_Z. rewrite (proj2 (Z.ltb_ge n 0)) by lia. split_and!.
  - by apply decimal_digits.
  - unfold Number. destruct (digits_decimal 20 n EmptyString None ltac:(lia) ltac:(lia)) as [k ->]. cbn. lia.
  - destruct (decimal_head 20 n EmptyString ltac:(lia)) as (d & r & _ & ->). done.
Qed.

(** A duration of digits with a unit, or none for milliseconds, is read as
    that many milliseconds; white space around it does not matter. *)
Theorem duration_read s n :
  0 ≤ n ≤ 2 ^ 37 →
  (trim s = show_Z n → parseDurationMs s = Ok n) ∧ (trim s = show_Z n +:+ "ms" → parseDurationMs s = Ok n) ∧
  (trim s = show_Z n +:+ "s" → parseDurationMs s = Ok (n * 1000)) ∧ (trim s = show_Z n +:+ "m" → parseDurationMs s = Ok (n * 60000)).
Proof.
  intros Hn.
  assert (Hspan : ∀ u, stops is_digit u = true → span is_digit (show_Z n +:+ u) = (show_Z n, u) ∧ Number (show_Z n) = n ∧ is_empty (show_Z n) = false ∧ is_empty (show_Z n +:+ u) = false).
  { intros u Hu. destruct (shown_digits n ltac:(lia)) as (Hd & Hv & He). split_and!; [by apply span_app|done|done|by destruct (show_Z n)]. }
  unfold parseDurationMs. split_and!; intros ->.
  - destruct (Hspan EmptyString eq_refl) as (H1 & H2 & H3 & _). rewrite string_app_nil_r in H1. by rewrite H1, H2, H3.
  - destruct (Hspan "ms" eq_refl) as (H1 & H2 & H3 & H4). by rewrite H4, H1, H2, H3.
  - destruct (Hspan "s" eq_refl) as (H1 & H2 & H3 & H4). by rewrite H4, H1, H2, H3.
  - destruct (Hspan "m" eq_refl) as (H1 & H2 & H3 & H4). rewrite H4, H1, H2, H3. f_equal. lia.
Qed.

(** ** A concrete directory *)

Definition sample : directory :=
  [("002_b.up.sql", "b"); ("001_a.sql", "a"); ("002_b.down.sql", "-b"); ("003_c.up.sql", "c"); ("README.md", EmptyString)].

Example sample_versions : discoverMigrations sample = ["001_a"; "002_b"; "003_c"].
Proof. vm_compute. reflexivity. Qed.

(** A bare file with a down migration is counted as legacy and as one with a
    companion. *)
Example legacy_with_companion :
  lintMigrationCompanion "1" [("1.sql", EmptyString); ("1.down.sql", EmptyString)] = {| l_version := "1"; hasCompanion := true; isLegacy := true |}.
Proof. reflexivity. Qed.

Lemma lint_misses_missing_companion_witness :
  ∃ pre, formatLintMigrationReport (lintAllMigrations [("003_c.up.sql", "c")]) = pre +:+ "All migrations have companion .down.sql files.".
Proof.
  apply (lint_misses_missing_companion [("003_c.up.sql", "c")] "003_c"); [by left|reflexivity|].
  apply (bool_decide_unpack _). vm_compute. exact I.
Defined.

Lemma duration_read_witness : parseDurationMs " 5s " = Ok 5000.
Proof. apply (duration_read " 5s " 5 ltac:(lia)). reflexivity. Defined.
