(* ===== verification/Anomaly.v ===== *)
(** * Revenue anomalies: [src/services/revenue/anomalyDetection.ts].

    Amounts are binary64 numbers.  The texts of the details are kept as what
    they are printed from.  Locale comparison and the readers of numbers are
    arguments; the score hook is a function that does not throw. *)

From Stdlib Require Import Sorting.Sorted.
From stdpp Require Import sorting.
From S2P Require Import Prelude Doubles Numeric Hashing JsString Collections.
From S2P Require Businesses.
Import Businesses(Collation, name_cmp, name_cmp_zero, name_cmp_flip, name_cmp_trans, code_collation).
#[local] Open Scope Z_scope.

Record MonthlyRevenue := { period : string; amount : double }.

Inductive AnomalyFlag := ok | unusual_drop | unusual_spike | insufficient_data.

#[export] Instance AnomalyFlag_eq_dec : EqDecision AnomalyFlag.
Proof. solve_decision. Defined.

Inductive Detail :=
| NoAnomaly
| NeedMore (minDataPoints : double) (received : nat)
| HookScored (f : AnomalyFlag) (at_period : string) (s : double)
| Dropped (absChange baseline : double) (curr : MonthlyRevenue)
| Spiked (absChange baseline : double) (curr : MonthlyRevenue).

Record AnomalyResult := { score : double; flag : AnomalyFlag; detail : Detail }.

Record CalibrationConfig := {
  c_dropThreshold : option double; c_spikeThreshold : option double; c_minDataPoints : option double; c_rollingWindow : option double;
  c_scoreHook : option (MonthlyRevenue → MonthlyRevenue → double → option (double * AnomalyFlag))
}.
Definition no_calibration : CalibrationConfig :=
  {| c_dropThreshold := None; c_spikeThreshold := None; c_minDataPoints := None; c_rollingWindow := None; c_scoreHook := None |}.

(** ** The defaults *)

Definition resolveFloatEnv (parseFloat : string → double) (raw : option string) (fallback : double) (validate : double → bool) : double :=
  match raw with
  | None => fallback
  | Some r => if is_empty (trim r) then fallback
              else let parsed := parseFloat r in if is_nan parsed || negb (validate parsed) then fallback else parsed
  end.

Definition resolveIntEnv (raw : option string) (fallback : Z) (validate : Z → bool) : Z :=
  match raw with
  | None => fallback
  | Some r => if is_empty (trim r) then fallback
              else match parse_int r with Some n => if validate n then n else fallback | None => fallback end
  end.

Record Defaults := { DROP_THRESHOLD : double; SPIKE_THRESHOLD : double; MIN_DATA_POINTS : Z; DEFAULT_SIGMA_MULTIPLIER : double }.

Definition module_defaults (parseFloat : string → double) (drop spike min sigma : option string) : Defaults :=
  {| DROP_THRESHOLD := resolveFloatEnv parseFloat drop (literal 4 10) (λ v, (zero <? v)%double && (v <=? of_Z 1)%double);
     SPIKE_THRESHOLD := resolveFloatEnv parseFloat spike (of_Z 3) (λ v, (zero <? v)%double);
     MIN_DATA_POINTS := resolveIntEnv min 2 (λ v, 2 <=? v);
     DEFAULT_SIGMA_MULTIPLIER := resolveFloatEnv parseFloat sigma (of_Z 2) (λ v, (zero <? v)%double) |}.

Section Detection.
Context (env : Defaults) (localeCompare : string → string → Z).

Definition by_period (series : list MonthlyRevenue) : list MonthlyRevenue := js_sort (λ a b, localeCompare (period a) (period b)) series.

(** [.reduce((sum, x) => sum + x, 0)], and the count as a number. *)
Definition sum (l : list double) : double := fold_left dadd l zero.
Definition count {A} (l : list A) : double := of_Z (Z.of_nat (length l)).

(** ** Scoring *)

(** [sorted.slice(start, i)] for a window that need not be whole: indices
    truncate towards zero. *)
Definition whole (x : double) : Z :=
  match x with
  | S754_finite s m e => cond_Zopp s (if 0 <=? e then Zpos m * 2 ^ e else Zpos m / 2 ^ (- e))
  | S754_infinity s => if s then - 2 ^ 1024 else 2 ^ 1024
  | _ => 0
  end.

Definition rollingAverage (sorted : list MonthlyRevenue) (i : nat) (window : double) : double :=
  let start := Z.to_nat (whole (Math_max zero (of_Z (Z.of_nat i) - window)%double)) in
  let slice := List.filter (λ p, negb (amount p =? zero)%double) (drop start (take i sorted)) in
  match slice with [] => zero | _ => (sum (map amount slice) / count slice)%double end.

Definition window_of (c : CalibrationConfig) : double := Math_max (of_Z 1) (default (of_Z 3) (c_rollingWindow c)).
Definition drop_of (c : CalibrationConfig) : double := default (DROP_THRESHOLD env) (c_dropThreshold c).
Definition spike_of (c : CalibrationConfig) : double := default (SPIKE_THRESHOLD env) (c_spikeThreshold c).

(** What one month says: its change against the baseline, [None] when that is
    zero. *)
Definition change_at (c : CalibrationConfig) (sorted : list MonthlyRevenue) (i : nat) (curr : MonthlyRevenue) : option double :=
  let baseline := rollingAverage sorted i (window_of c) in
  if (baseline =? zero)%double then None else Some ((amount curr - baseline) / baseline)%double.

Definition consider (c : CalibrationConfig) (sorted : list MonthlyRevenue) (i : nat) (prev curr : MonthlyRevenue) (worst : AnomalyResult) : AnomalyResult :=
  let baseline := rollingAverage sorted i (window_of c) in
  match change_at c sorted i curr with
  | None => worst
  | Some change =>
      match (match c_scoreHook c with Some h => h prev curr change | None => None end) with
      | Some (s, f) => if (score worst <? s)%double then {| score := s; flag := f; detail := HookScored f (period curr) s |} else worst
      | None =>
          let absChange := SFabs change in
          let s := Math_min absChange (of_Z 1) in
          if (change <=? - drop_of c)%double && (score worst <? s)%double
          then {| score := s; flag := unusual_drop; detail := Dropped absChange baseline curr |}
          else if (spike_of c <=? change)%double && (score worst <? s)%double
          then {| score := s; flag := unusual_spike; detail := Spiked absChange baseline curr |}
          else worst
      end
  end.

(** The loop from index [i] on; [prev] is the month before. *)
Fixpoint scan (c : CalibrationConfig) (sorted : list MonthlyRevenue) (i : nat) (prev : MonthlyRevenue) (l : list MonthlyRevenue) (worst : AnomalyResult) : AnomalyResult :=
  match l with
  | [] => worst
  | curr :: l => scan c sorted (S i) curr l (consider c sorted i prev curr worst)
  end.

Definition scoreSeriesAnomaly (sorted : list MonthlyRevenue) (c : CalibrationConfig) : AnomalyResult :=
  let start := {| score := zero; flag := ok; detail := NoAnomaly |} in
  match sorted with [] => start | first :: l => scan c sorted 1 first l start end.

Definition min_points (c : CalibrationConfig) : double := default (of_Z (MIN_DATA_POINTS env)) (c_minDataPoints c).

Definition detectRevenueAnomaly (series : list MonthlyRevenue) (c : CalibrationConfig) : AnomalyResult :=
  if (count series <? min_points c)%double
  then {| score := zero; flag := insufficient_data; detail := NeedMore (min_points c) (length series) |}
  else scoreSeriesAnomaly (by_period series) c.

(** ** Calibration *)

Record CalibrationResult := { dropThreshold : double; spikeThreshold : double; mean : double; stdDev : double }.
Definition default_calibration : CalibrationResult :=
  {| dropThreshold := DROP_THRESHOLD env; spikeThreshold := SPIKE_THRESHOLD env; mean := zero; stdDev := zero |}.

Fixpoint changes (prev : MonthlyRevenue) (l : list MonthlyRevenue) : list double :=
  match l with
  | [] => []
  | curr :: l =>
      let rest := changes curr l in
      if (amount prev =? zero)%double then rest else ((amount curr - amount prev) / amount prev)%double :: rest
  end.

(** [x ** 2], taken as the product. *)
Definition square (x : double) : double := (x * x)%double.

Definition calibrateFromSeries (series : list MonthlyRevenue) (sigmaMultiplier : option double) : CalibrationResult :=
  let sigma := default (DEFAULT_SIGMA_MULTIPLIER env) sigmaMultiplier in
  if (length series <? 2)%nat then default_calibration
  else
    match by_period series with
    | [] => default_calibration
    | first :: l =>
        match changes first l with
        | [] => default_calibration
        | cs =>
            let mean := (sum cs / count cs)%double in
            let variance := (sum (map (λ c, square (c - mean)%double) cs) / count cs)%double in
            let stdDev := dsqrt variance in
            let dropBound := (mean - sigma * stdDev)%double in
            let spikeBound := (mean + sigma * stdDev)%double in
            {| dropThreshold := if (dropBound <? zero)%double then SFabs dropBound else DROP_THRESHOLD env;
               spikeThreshold := if (zero <? spikeBound)%double then spikeBound else SPIKE_THRESHOLD env;
               mean := mean; stdDev := stdDev |}
        end
    end.

(** A calibration spread into a configuration. *)
Definition calibrated (r : CalibrationResult) : CalibrationConfig :=
  {| c_dropThreshold := Some (dropThreshold r); c_spikeThreshold := Some (spikeThreshold r);
     c_minDataPoints := None; c_rollingWindow := None; c_scoreHook := None |}.
(** ** What a month is worth *)

(** The flag and the score of one month, before it is compared with the
    worst. *)
Definition verdict (c : CalibrationConfig) (sorted : list MonthlyRevenue) (i : nat) (curr : MonthlyRevenue) : option (double * AnomalyFlag) :=
  change_at c sorted i curr ≫= λ change,
  let s := Math_min (SFabs change) (of_Z 1) in
  if (change <=? - drop_of c)%double then Some (s, unusual_drop)
  else if (spike_of c <=? change)%double then Some (s, unusual_spike) else None.

Lemma consider_verdict c sorted i prev curr worst : c_scoreHook c = None →
  match verdict c sorted i curr with
  | Some (s, f) => if (score worst <? s)%double then score (consider c sorted i prev curr worst) = s ∧ flag (consider c sorted i prev curr worst) = f
                   else consider c sorted i prev curr worst = worst
  | None => consider c sorted i prev curr worst = worst
  end.
Proof.
  intros Hh. unfold verdict, consider. destruct (change_at c sorted i curr) as [ch|]; [|done]. rewrite Hh. cbn [mbind option_bind].
  destruct (ch <=? - drop_of c)%double; cbn [andb].
  - destruct (score worst <? _)%double; [done|]. by rewrite andb_false_r.
  - destruct (spike_of c <=? ch)%double; cbn [andb]; [|done]. by destruct (score worst <? _)%double.
Qed.

Lemma verdict_score c sorted i curr s f : (zero <? drop_of c)%double = true → (zero <? spike_of c)%double = true →
  verdict c sorted i curr = Some (s, f) →
  (zero <? s)%double = true ∧ (s <=? of_Z 1)%double = true ∧ (f = unusual_drop ∨ f = unusual_spike).
Proof.
  intros Hd Hs. unfold verdict. destruct (change_at c sorted i curr) as [ch|]; [|done]. cbn [mbind option_bind].
  assert (Hmin : ∀ ch, (zero <? SFabs ch)%double = true →
    (zero <? Math_min (SFabs ch) (of_Z 1))%double = true ∧ (Math_min (SFabs ch) (of_Z 1) <=? of_Z 1)%double = true).
  { intros x Hx. destruct (lt_nan _ _ Hx) as [_ Hn].
    destruct (min_cases (SFabs x) (of_Z 1) Hn eq_refl) as [[-> Hle]|[-> _]]; [done|]. split; reflexivity. }
  destruct (ch <=? - drop_of c)%double eqn:E1.
  - intros [= <- <-]. assert ((ch <? zero)%double = true) as Hneg by (eapply le_lt_trans; [exact E1|by apply opp_neg]).
    assert ((zero <? SFabs ch)%double = true) as Habs.
    { rewrite (abs_neg _ Hneg). apply opp_le in E1. by apply (lt_le_trans _ (drop_of c)). }
    destruct (Hmin ch Habs). auto.
  - destruct (spike_of c <=? ch)%double eqn:E2; [|done]. intros [= <- <-].
    assert ((zero <? ch)%double = true) as Hpos by by apply (lt_le_trans _ (spike_of c)).
    assert ((zero <? SFabs ch)%double = true) as Habs by by rewrite abs_pos. destruct (Hmin ch Habs). auto.
Qed.

(** The invariant of the loop: [worst] is the verdict of a month before [i],
    and no month before [i] has a greater score. *)
Definition worst_upto (c : CalibrationConfig) (sorted : list MonthlyRevenue) (i : nat) (r : AnomalyResult) : Prop :=
  is_nan (score r) = false ∧
  ((score r = zero ∧ flag r = ok) ∨
   ∃ j curr, (0 < j < i)%nat ∧ sorted !! j = Some curr ∧ verdict c sorted j curr = Some (score r, flag r)) ∧
  ∀ j curr s f, (0 < j < i)%nat → sorted !! j = Some curr → verdict c sorted j curr = Some (s, f) → (s <=? score r)%double = true.

Lemma consider_worst c sorted i prev curr worst :
  c_scoreHook c = None → (zero <? drop_of c)%double = true → (zero <? spike_of c)%double = true → (0 < i)%nat →
  sorted !! i = Some curr → worst_upto c sorted i worst → worst_upto c sorted (S i) (consider c sorted i prev curr worst).
Proof.
  intros Hh Hd Hs Hi Hcurr (Hn & Hfrom & Hmax). pose proof (consider_verdict c sorted i prev curr worst Hh) as Hv.
  assert (Hsame : ∀ r, (∀ s f, verdict c sorted i curr = Some (s, f) → (s <=? score r)%double = true) →
    is_nan (score r) = false → (score worst <=? score r)%double = true →
    ((score r = zero ∧ flag r = ok) ∨
      ∃ j curr, (0 < j < S i)%nat ∧ sorted !! j = Some curr ∧ verdict c sorted j curr = Some (score r, flag r)) →
    worst_upto c sorted (S i) r).
  { intros r Hr Hnr Hwr Hfr. split_and!; [done|done|]. intros j x s f Hj Hx Hjv. destruct (decide (j = i)) as [->|].
    - rewrite Hcurr in Hx. injection Hx as <-. by apply (Hr s f).
    - apply (le_trans _ (score worst)); [|done]. apply (Hmax j x s f); [lia|done..]. }
  assert (Hkeep : (∀ s f, verdict c sorted i curr = Some (s, f) → (s <=? score worst)%double = true) → worst_upto c sorted (S i) worst).
  { intros Hle. apply Hsame; [done|done|by apply le_refl|]. destruct Hfrom as [?|(j & x & ? & ? & ?)]; [by left|right]. exists j, x. split; [lia|done]. }
  destruct (verdict c sorted i curr) as [[s f]|] eqn:E; [|rewrite Hv; apply Hkeep; congruence].
  destruct (verdict_score c sorted i curr s f Hd Hs E) as (Hpos & _ & _). destruct (lt_nan _ _ Hpos) as [_ Hsn].
  destruct (score worst <? s)%double eqn:Hlt.
  - destruct Hv as [Hs' Hf']. apply Hsame; rewrite ?Hs', ?Hf'; [intros s' f' [= <- <-]; by apply le_refl|done|by apply lt_le|].
    right. exists i, curr. split_and!; [lia|lia|done|done].
  - rewrite Hv. apply Hkeep. intros s' f' [= <- <-]. by apply not_lt_le.
Qed.

Lemma scan_worst c sorted i prev l worst :
  c_scoreHook c = None → (zero <? drop_of c)%double = true → (zero <? spike_of c)%double = true → (0 < i)%nat →
  (∀ k, sorted !! (i + k)%nat = l !! k) → worst_upto c sorted i worst → worst_upto c sorted (i + length l) (scan c sorted i prev l worst).
Proof.
  intros Hh Hd Hs. revert i prev worst. induction l as [|curr l IH]; intros i prev worst Hi Hl Hw; cbn [scan length].
  - by rewrite Nat.add_0_r.
  - rewrite Nat.add_succ_r, <- Nat.add_succ_l. apply IH; [lia| |].
    + intros k. specialize (Hl (S k)). rewrite Nat.add_succ_r in Hl. exact Hl.
    + apply consider_worst; try done. specialize (Hl 0%nat). by rewrite Nat.add_0_r in Hl.
Qed.

Lemma series_worst c sorted :
  c_scoreHook c = None → (zero <? drop_of c)%double = true → (zero <? spike_of c)%double = true →
  worst_upto c sorted (length sorted) (scoreSeriesAnomaly sorted c).
Proof.
  intros Hh Hd Hs. unfold scoreSeriesAnomaly. set (start := {| score := zero; flag := ok; detail := NoAnomaly |}).
  assert (∀ i, (i ≤ 1)%nat → worst_upto c sorted i start) as Hstart by (intros i Hi; split_and!; [done|by left|intros j x s' f' Hj; lia]).
  destruct sorted as [|first l] eqn:E; [apply Hstart; cbn; lia|]. rewrite <- E in *.
  assert (length sorted = 1 + length l)%nat as -> by by rewrite E. apply scan_worst; [done..|lia|by intros k; rewrite E|]. by apply Hstart.
Qed.

(** ** Properties *)

(** With positive thresholds and no hook, and enough months, the result is
    the worst month: either no month after the first is out of bounds and the
    flag is [ok] with score zero, or the flag and the score are those of a month
    that is, the score is above zero and at most one, and no other month scores
    more. *)
Theorem worst_month_reported c series :
  c_scoreHook c = None → (zero <? drop_of c)%double = true → (zero <? spike_of c)%double = true →
  (count series <? min_points c)%double = false →
  let r := detectRevenueAnomaly series c in
  let sorted := by_period series in
  let month_verdict i := if (i =? 0)%nat then None else sorted !! i ≫= verdict c sorted i in
  (flag r = ok ∧ score r = zero ∧ (∀ i, month_verdict i = None)) ∨
  ((flag r = unusual_drop ∨ flag r = unusual_spike) ∧ (zero <? score r)%double = true ∧ (score r <=? of_Z 1)%double = true ∧
   (∃ i, month_verdict i = Some (score r, flag r)) ∧
   ∀ i s f, month_verdict i = Some (s, f) → (s <=? score r)%double = true).
Proof.
  intros Hh Hd Hs Hn r sorted month_verdict. unfold r, detectRevenueAnomaly. rewrite Hn. fold sorted.
  destruct (series_worst c sorted Hh Hd Hs) as (Hnan & Hfrom & Hmax).
  set (R := scoreSeriesAnomaly sorted c) in *.
  assert (Hmv : ∀ i p, month_verdict i = Some p → ∃ curr, (0 < i < length sorted)%nat ∧ sorted !! i = Some curr ∧ verdict c sorted i curr = Some p).
  { intros i p. unfold month_verdict. destruct (Nat.eqb_spec i 0); [done|]. destruct (sorted !! i) as [curr|] eqn:E; [|done]. cbn. intros Hp.
    exists curr. split_and!; [lia|by apply lookup_lt_Some in E|done|done]. }
  assert (Hle : ∀ i s f, month_verdict i = Some (s, f) → (s <=? score R)%double = true).
  { intros i s f (curr & Hi & Hc & Hv)%Hmv. by apply (Hmax i curr s f). }
  destruct Hfrom as [[Hz Hok]|(j & curr & Hj & Hc & Hv)].
  - left. split_and!; [done|done|]. intros i. destruct (month_verdict i) as [[s f]|] eqn:E; [|done]. exfalso.
    pose proof (Hle i s f E) as Hle'. destruct (Hmv i _ E) as (curr & _ & _ & Hv). destruct (verdict_score c sorted i curr s f Hd Hs Hv) as (Hp & _).
    rewrite Hz in Hle'. apply le_not_lt in Hle'. congruence.
  - right. destruct (verdict_score c sorted j curr _ _ Hd Hs Hv) as (Hp & H1 & Hf). split_and!; [done..| |done].
    exists j. unfold month_verdict. rewrite (proj2 (Nat.eqb_neq _ _)) by lia. by rewrite Hc.
Qed.

(** *** Unreadable amounts *)

Lemma add_nan x : dadd NaN x = NaN ∧ dadd x NaN = NaN.
Proof. split; [done|]. by destruct x as [|[]| |]. Qed.

Lemma sum_nan l acc : is_nan acc = true ∨ NaN ∈ l → fold_left dadd l acc = NaN.
Proof.
  revert acc. induction l as [|x l IH]; intros acc [H|H]; cbn.
  - by destruct acc.
  - by apply elem_of_nil in H.
  - apply IH. left. destruct acc; try done.
  - apply elem_of_cons in H as [<-|H]; apply IH; [left|by right]. by rewrite (proj2 (add_nan acc)).
Qed.

Lemma div_nan_l x : ddiv NaN x = NaN.
Proof. done. Qed.
Lemma sub_nan_l x : dsub NaN x = NaN.
Proof. done. Qed.
Lemma sub_nan_r x : dsub x NaN = NaN.
Proof. by destruct x as [|[]| |]. Qed.

Lemma nan_change_silent c sorted i curr : change_at c sorted i curr = Some NaN → verdict c sorted i curr = None.
Proof.
  unfold verdict. intros ->. cbn [mbind option_bind]. assert (∀ x, (NaN <=? x)%double = false ∧ (x <=? NaN)%double = false) as Hn.
  { intros x. split; apply not_true_iff_false; intros H%le_nan; by destruct H. }
  by rewrite (proj1 (Hn _)), (proj2 (Hn _)).
Qed.

Lemma window_start i : (i ≤ 1000)%nat → whole (Math_max zero (of_Z (Z.of_nat i) - of_Z 3)%double) = Z.max 0 (Z.of_nat i - 3).
Proof.
  intros Hi. assert (Forall (λ i, whole (Math_max zero (of_Z (Z.of_nat i) - of_Z 3)%double) = Z.max 0 (Z.of_nat i - 3)) (seq 0 1001)) as Hall
    by (apply (bool_decide_unpack _); vm_compute; exact I).
  rewrite Forall_forall in Hall. apply Hall, elem_of_seq. lia.
Qed.

(** An amount that is not a number is never out of bounds, and with the
    default window it hides the three months after it: none of them is, however
    far it falls. *)
Theorem unreadable_amount_hides c series i k p curr :
  c_rollingWindow c = None → (i ≤ 1000)%nat → (0 < i)%nat → by_period series !! k = Some p → amount p = NaN →
  (k ≤ i ≤ k + 3)%nat → by_period series !! i = Some curr → verdict c (by_period series) i curr = None.
Proof.
  intros Hw Hi Hpos Hk Hp Hki Hc. set (sorted := by_period series) in *. destruct (decide (i = k)) as [->|Hne].
  - rewrite Hk in Hc. injection Hc as <-. destruct (rollingAverage sorted k (window_of c) =? zero)%double eqn:E; [unfold verdict, change_at; by rewrite E|].
    apply nan_change_silent. unfold change_at. rewrite E, Hp. done.
  - apply nan_change_silent. unfold change_at.
    assert (rollingAverage sorted i (window_of c) = NaN) as ->.
    { unfold rollingAverage, window_of. rewrite Hw. change (Math_max (of_Z 1) (default (of_Z 3) None)) with (of_Z 3). rewrite window_start by done.
      set (slice := List.filter _ _). assert (p ∈ slice) as Hin.
      { apply list_elem_of_In, filter_In. split; [|by rewrite Hp]. apply list_elem_of_In, list_elem_of_lookup.
        exists (k - (i - 3))%nat. rewrite lookup_drop, lookup_take_lt by lia. by replace (Z.to_nat (Z.max 0 (Z.of_nat i - 3)) + (k - (i - 3)))%nat with k by lia. }
      destruct slice as [|q slice]; [by apply elem_of_nil in Hin|]. unfold sum.
      rewrite (sum_nan (map amount (q :: slice)) zero); [done|]. right. rewrite <- Hp. by apply list_elem_of_fmap_2. }
    cbn. by destruct (amount curr) as [|[]| |].
Qed.

(** *** The order of the input *)

(** A total order leaves one way to sort distinct periods. *)
Lemma by_period_order series series' :
  (∀ a b, localeCompare a b = 0 ↔ a = b) → (∀ a b, localeCompare b a = - localeCompare a b) →
  (∀ a b c, localeCompare a b < 0 → localeCompare b c < 0 → localeCompare a c < 0) →
  series ≡ₚ series' → NoDup (map period series) → by_period series = by_period series'.
Proof.
  intros Hz Hf Ht Hp Hn. set (before := λ a b, localeCompare (period a) (period b) < 0).
  assert (Hsort : ∀ l, NoDup (map period l) → StronglySorted before (by_period l)).
  { intros l Hl. assert (∀ x y, x ∈ l → y ∈ l → period x = period y → x = y) as Hinj.
    { clear -Hl. induction l as [|z l IH]; [by intros ?? ?%elem_of_nil|]. cbn in Hl. apply NoDup_cons in Hl as [Hz Hl].
      intros x y [->|Hx]%elem_of_cons [->|Hy]%elem_of_cons He; [done| | |by apply IH].
      - destruct Hz. change (map period l) with (period <$> l). rewrite He. by apply list_elem_of_fmap_2.
      - destruct Hz. change (map period l) with (period <$> l). rewrite <- He. by apply list_elem_of_fmap_2. }
    apply (js_sort_sorted _ (λ x, x ∈ l) before).
    - intros x y z. apply Ht.
    - intros x y Hx Hy Hle Hne. unfold before. assert (localeCompare (period x) (period y) ≠ 0) by (intros H%Hz; by apply Hne, Hinj). lia.
    - intros x y _ _ Hgt. unfold before. rewrite Hf. lia.
    - by apply Forall_forall.
    - by apply (NoDup_fmap_1 period). }
  apply (StronglySorted_unique_strong before).
  - intros x y _ _ Hxy Hyx. unfold before in *. rewrite Hf in Hyx. lia.
  - by apply Hsort.
  - apply Hsort. change (NoDup (period <$> series')). by rewrite <- Hp.
  - unfold by_period. by rewrite !js_sort_perm.
Qed.
End Detection.

(** The order in which months are given does not matter, for detection or
    for calibration: with distinct periods the result is the same. *)
Theorem order_does_not_matter {collation : Collation} env c sigma series series' :
  series ≡ₚ series' → NoDup (map period series) →
  detectRevenueAnomaly env name_cmp series c = detectRevenueAnomaly env name_cmp series' c ∧
  calibrateFromSeries env name_cmp series sigma = calibrateFromSeries env name_cmp series' sigma.
Proof.
  intros Hp Hn. assert (by_period name_cmp series = by_period name_cmp series') as He
    by (apply (by_period_order name_cmp); [apply name_cmp_zero|apply name_cmp_flip|apply name_cmp_trans|done|done]).
  assert (length series = length series') as Hl by by rewrite Hp.
  unfold detectRevenueAnomaly, calibrateFromSeries, count. by rewrite He, Hl.
Qed.

(** ** Concrete series *)

Definition standard : Defaults := module_defaults (λ _, NaN) None None None None.
Definition month (p : string) (a : Z) : MonthlyRevenue := {| period := p; amount := of_Z a |}.
Definition text_compare (a b : string) : Z := if String.eqb a b then 0 else if String.leb a b then -1 else 1.

(** ** Calibrated thresholds *)

Definition valid_defaults (d : Defaults) : Prop :=
  (zero <? DROP_THRESHOLD d)%double = true ∧ (DROP_THRESHOLD d <=? of_Z 1)%double = true ∧ (zero <? SPIKE_THRESHOLD d)%double = true ∧
  2 ≤ MIN_DATA_POINTS d ∧ (zero <? DEFAULT_SIGMA_MULTIPLIER d)%double = true.

Lemma float_env_valid parseFloat raw fallback validate : validate fallback = true → validate (resolveFloatEnv parseFloat raw fallback validate) = true.
Proof.
  intros Hf. unfold resolveFloatEnv. destruct raw as [r|]; [|done]. destruct (is_empty (trim r)); [done|].
  destruct (is_nan (parseFloat r) || negb (validate (parseFloat r))) eqn:E; [done|]. apply orb_false_iff in E as [_ E]. by apply negb_false_iff.
Qed.

Lemma module_defaults_valid parseFloat drop spike min sigma : valid_defaults (module_defaults parseFloat drop spike min sigma).
Proof.
  unfold valid_defaults, module_defaults. cbn [DROP_THRESHOLD SPIKE_THRESHOLD MIN_DATA_POINTS DEFAULT_SIGMA_MULTIPLIER].
  pose proof (float_env_valid parseFloat drop (literal 4 10) (λ v, (zero <? v)%double && (v <=? of_Z 1)%double) ltac:(vm_compute; reflexivity)) as Hd.
  apply andb_true_iff in Hd as [Hd Hd']. split_and!; [done|done| | |].
  - by apply (float_env_valid parseFloat spike (of_Z 3) (λ v, (zero <? v)%double)).
  - unfold resolveIntEnv. destruct min as [r|]; [|done]. destruct (is_empty (trim r)); [done|]. destruct (parse_int r) as [n|]; [|done].
    destruct (Z.leb_spec 2 n); [done|lia].
  - by apply (float_env_valid parseFloat sigma (of_Z 2) (λ v, (zero <? v)%double)).
Qed.

Lemma abs_or_default x d : (zero <? d)%double = true → (zero <? (if (x <? zero)%double then SFabs x else d))%double = true.
Proof. intros Hd. destruct (x <? zero)%double eqn:E; [|done]. rewrite (abs_neg x E). by destruct x as [[]|[]| |[]]. Qed.

Lemma self_or_default x d : (zero <? d)%double = true → (zero <? (if (zero <? x)%double then x else d))%double = true.
Proof. intros Hd. by destruct (zero <? x)%double eqn:E. Qed.

(** Whatever the environment and the training series, not-a-number amounts
    included, the thresholds of a calibration are above zero: detection with
    them is covered by [worst_month_reported]. *)
Theorem calibrated_thresholds_positive parseFloat drop spike min sigma localeCompare series multiplier :
  let r := calibrateFromSeries (module_defaults parseFloat drop spike min sigma) localeCompare series multiplier in
  (zero <? dropThreshold r)%double = true ∧ (zero <? spikeThreshold r)%double = true.
Proof.
  destruct (module_defaults_valid parseFloat drop spike min sigma) as (Hd & _ & Hs & _). set (env := module_defaults parseFloat drop spike min sigma) in *.
  cbv zeta. unfold calibrateFromSeries. destruct (length series <? 2)%nat; [done|]. destruct (by_period localeCompare series) as [|first l]; [done|].
  destruct (changes first l) as [|x cs]; [done|]. cbn [dropThreshold spikeThreshold]. split.
  - by apply abs_or_default.
  - by apply self_or_default.
Qed.

Example documented_drop :
  let r := detectRevenueAnomaly standard text_compare
    [month "2026-01" 10000; month "2026-02" 10500; month "2026-03" 3000] no_calibration in
  flag r = unusual_drop.
Proof. vm_compute. reflexivity. Qed.

(** A loss that shrinks is flagged as a drop: the change is measured against a
    negative baseline. *)
Example rise_from_a_loss_flagged :
  flag (detectRevenueAnomaly standard text_compare [month "2026-01" (-100); month "2026-02" (-50)] no_calibration) = unusual_drop.
Proof. vm_compute. reflexivity. Qed.

(** Calibrated on a series that alternates, the drop threshold is above one,
    and no fall of revenue is flagged any more, not even to nothing. *)
Example calibration_blinds :
  let cal := calibrateFromSeries standard text_compare
    [month "2025-01" 100; month "2025-02" 1000; month "2025-03" 100; month "2025-04" 1000; month "2025-05" 100] None in
  (of_Z 1 <? dropThreshold cal)%double = true ∧
  flag (detectRevenueAnomaly standard text_compare [month "2026-01" 1000; month "2026-02" 1000; month "2026-03" 0] (calibrated cal)) = ok.
Proof. vm_compute. done. Qed.

(** Above the threshold of three, a spike always scores one. *)
Example spike_scores_one :
  score (detectRevenueAnomaly standard text_compare [month "2026-01" 100; month "2026-02" 400] no_calibration) = of_Z 1.
Proof. vm_compute. reflexivity. Qed.

Definition is_Some_bool {A} (o : option A) : bool := match o with Some _ => true | None => false end.

Lemma worst_month_reported_witness :
  let series := [month "2026-01" 10000; month "2026-02" 10500; month "2026-03" 3000] in
  flag (detectRevenueAnomaly standard text_compare series no_calibration) ≠ ok.
Proof.
  intros series.
  destruct (worst_month_reported standard text_compare no_calibration series eq_refl ltac:(vm_compute; reflexivity) ltac:(vm_compute; reflexivity)
    ltac:(vm_compute; reflexivity)) as [(_ & _ & H)|(H & _)]; [|destruct H as [-> | ->]; discriminate].
  specialize (H 2%nat). apply (f_equal is_Some_bool) in H. vm_compute in H. discriminate H.
Defined.

Definition hidden_fall : list MonthlyRevenue :=
  [month "2026-01" 1000; {| period := "2026-02"; amount := NaN |}; month "2026-03" 0].

Lemma unreadable_amount_hides_witness :
  verdict standard no_calibration (by_period text_compare hidden_fall) 2 (month "2026-03" 0) = None.
Proof.
  exact (unreadable_amount_hides standard text_compare no_calibration hidden_fall 2 1 {| period := "2026-02"; amount := NaN |} (month "2026-03" 0)
    eq_refl ltac:(lia) ltac:(lia) ltac:(vm_compute; reflexivity) eq_refl ltac:(lia) ltac:(vm_compute; reflexivity)).
Defined.

Lemma order_does_not_matter_witness :
  detectRevenueAnomaly standard (@name_cmp code_collation) [month "2026-02" 3; month "2026-01" 9] no_calibration =
  detectRevenueAnomaly standard (@name_cmp code_collation) [month "2026-01" 9; month "2026-02" 3] no_calibration.
Proof.
  apply (order_does_not_matter (collation := code_collation) standard no_calibration None [month "2026-02" 3; month "2026-01" 9] [month "2026-01" 9; month "2026-02" 3]);
    [constructor|apply (bool_decide_unpack _); vm_compute; exact I].
Defined.
