(* ===== verification/RevenuePipeline.v ===== *)
(** * From raw revenue to an attestation package:
    [src/services/revenue/normalize.ts] and
    [src/services/attestation/integrateRevenueChecks.ts].

    Amounts are binary64.  The texts of details and warnings are left out, as
    are identifiers; the JSON text of an entry is an interface. *)

From S2P Require Import Prelude Doubles Numeric Hashing JsString Collections.
From S2P Require Merkle Reminders BusinessInput Anomaly.
Import Reminders(DateText, toISOString, parse_date).
Import Anomaly(MonthlyRevenue, AnomalyFlag, ok, AnomalyResult, score, flag, whole, sum).
#[local] Open Scope Z_scope.

(** ** Entries *)

Inductive raw_date := DateNumber (seconds : double) | DateString (s : string).

Record RawRevenueInput := {
  r_id : string; r_amount : double; r_currency : option string; r_date : option raw_date; r_source : option string
}.

Inductive entry_type := payment | refund.

Record NormalizedRevenue := {
  id : string; amount : double; currency : string; date : string; type : entry_type; source : string
}.

Inductive pipeline_error :=
| RangeError (* [toISOString] of an invalid date *)
| NoEntries | TooManyEntries (n : nat) | TreeFailed (e : Merkle.build_error) | ProofFailed (i : nat) | ProofTooLong (i : nat).

(** The time value of [new Date(ms)]. *)
Definition time_clip (ms : double) : option Z :=
  if isFinite ms && (-8640000000000000 <=? whole ms) && (whole ms <=? 8640000000000000) then Some (whole ms) else None.

(** A text that is not the empty one. *)
Definition truthy (s : option string) : option string := match s with Some (String _ _) => s | _ => None end.

Section Normalization.
Context {dates : DateText}.

(** [now] is the clock of the call. *)
Definition normalizeRevenueEntry (now : Z) (raw : RawRevenueInput) : result pipeline_error NormalizedRevenue :=
  let type := if (r_amount raw <? zero)%double then refund else payment in
  let currency := match truthy (r_currency raw) with Some c => BusinessInput.to_upper c | None => "USD" end in
  let source := default "unknown" (truthy (r_source raw)) in
  let entry d := {| id := r_id raw; amount := r_amount raw; currency := currency; date := d; type := type; source := source |} in
  match r_date raw with
  | Some (DateNumber s) => match time_clip (s * of_Z 1000)%double with Some t => Ok (entry (toISOString t)) | None => Err RangeError end
  | Some (DateString (String _ _ as s)) => Ok (entry (toISOString (default now (parse_date s))))
  | _ => Ok (entry (toISOString now))
  end.

(** [entries.map(...)], where the first error is thrown. *)
Fixpoint normalize_all (now : Z) (l : list RawRevenueInput) : result pipeline_error (list NormalizedRevenue) :=
  match l with
  | [] => Ok []
  | r :: l =>
      match normalizeRevenueEntry now r with
      | Err e => Err e
      | Ok x => match normalize_all now l with Err e => Err e | Ok xs => Ok (x :: xs) end
      end
  end.
End Normalization.

(** ** Drift *)

Definition DEFAULT_MIN_ENTRIES : double := of_Z 5.
Definition DEFAULT_DRIFT_THRESHOLD : double := literal 25 100.

Record NormalizationBaseline := { refundRate : double; unknownSourceRate : double; usdRate : double; meanAmount : double }.

Inductive DriftFlag := no_drift | refund_rate_drift | unknown_source_drift | usd_rate_drift | amount_drift | drift_insufficient.

Record DriftCheck := { metric : string; expected : double; observed : double; d_score : double; d_flag : DriftFlag }.

Record NormalizationDriftResult := { hasDrift : bool; overallScore : double; checks : list DriftCheck }.

Record DriftOptions := { threshold : option double; minEntries : option double }.

Definition buildDriftCheck (metric : string) (expected observed threshold : double) (driftFlag : DriftFlag) : DriftCheck :=
  let relativeDeviation :=
    if (expected =? zero)%double then if (observed =? zero)%double then zero else of_Z 1
    else (SFabs (observed - expected) / expected)%double in
  {| metric := metric; expected := expected; observed := observed; d_score := Math_min relativeDeviation (of_Z 1);
     d_flag := if (threshold <? relativeDeviation)%double then driftFlag else no_drift |}.

(** [Math.max(...l)] *)
Definition max_of (l : list double) : double := fold_left Math_max l (S754_infinity true).

Definition rate (p : NormalizedRevenue → bool) (entries : list NormalizedRevenue) : double :=
  (of_Z (Z.of_nat (length (List.filter p entries))) / of_Z (Z.of_nat (length entries)))%double.

Definition is_refund (e : NormalizedRevenue) : bool := match type e with refund => true | payment => false end.
Definition drifted (c : DriftCheck) : bool := match d_flag c with no_drift => false | _ => true end.

Definition meanAbsAmount (entries : list NormalizedRevenue) : double :=
  (sum (map (λ e, SFabs (amount e)) entries) / of_Z (Z.of_nat (length entries)))%double.

Definition detectNormalizationDrift (entries : list NormalizedRevenue) (b : NormalizationBaseline) (o : DriftOptions) : NormalizationDriftResult :=
  let t := default DEFAULT_DRIFT_THRESHOLD (threshold o) in
  let m := default DEFAULT_MIN_ENTRIES (minEntries o) in
  let n := of_Z (Z.of_nat (length entries)) in
  if (n <? m)%double
  then {| hasDrift := false; overallScore := zero;
          checks := [{| metric := "entry_count"; expected := m; observed := n; d_score := zero; d_flag := drift_insufficient |}] |}
  else
    let checks :=
      [buildDriftCheck "refund_rate" (refundRate b) (rate is_refund entries) t refund_rate_drift;
       buildDriftCheck "unknown_source_rate" (unknownSourceRate b) (rate (λ e, String.eqb (source e) "unknown") entries) t unknown_source_drift;
       buildDriftCheck "usd_rate" (usdRate b) (rate (λ e, String.eqb (currency e) "USD") entries) t usd_rate_drift;
       buildDriftCheck "mean_amount" (meanAmount b) (meanAbsAmount entries) t amount_drift] in
    {| hasDrift := existsb drifted checks; overallScore := max_of (map d_score checks); checks := checks |}.

(** ** Reporting *)

(** [Number.EPSILON] *)
Definition EPSILON : double := literal 1 (2 ^ 52).

Definition roundAmount (value : double) (decimals : nat) : double :=
  if negb (isFinite value) then zero
  else let factor := of_Z (10 ^ Z.of_nat decimals) in (Math_round ((value + EPSILON) * factor) / factor)%double.

Record bucket := { payments : double; refunds : double; count : Z }.
Definition no_bucket : bucket := {| payments := zero; refunds := zero; count := 0 |}.

Definition add_entry (m : list (string * bucket)) (e : NormalizedRevenue) : list (string * bucket) :=
  let b := default no_bucket (map_get (currency e) m) in
  map_set (currency e)
    (match type e with
     | refund => {| payments := payments b; refunds := (refunds b + amount e)%double; count := count b + 1 |}
     | payment => {| payments := (payments b + amount e)%double; refunds := refunds b; count := count b + 1 |}
     end) m.

Record AggregateRevenueResult := { a_currency : string; a_total : double; a_payments : double; a_refunds : double; a_count : Z }.

Definition report_bucket (decimals : nat) (kb : string * bucket) : AggregateRevenueResult :=
  let p := roundAmount (payments kb.2) decimals in
  let r := roundAmount (refunds kb.2) decimals in
  {| a_currency := kb.1; a_total := roundAmount (p + r)%double decimals; a_payments := p; a_refunds := r; a_count := count kb.2 |}.

Definition aggregateRevenue (entries : list NormalizedRevenue) (decimals : nat) : list AggregateRevenueResult :=
  map (report_bucket decimals) (fold_left add_entry entries []).

(** ** The package *)

(** [JSON.stringify] of the fields of an entry. *)
Class LeafText := { leaf_text : NormalizedRevenue → string; leaf_nonempty e : leaf_text e ≠ EmptyString }.

Record AttestationRevenueSummary := {
  anomaly : AnomalyResult; drift : NormalizationDriftResult; normalizedEntries : list NormalizedRevenue;
  merkleRoot : string; merkleProofs : list (nat * list Merkle.proof_step); warnings : nat
}.

Definition default_baseline : NormalizationBaseline :=
  {| refundRate := literal 5 100; unknownSourceRate := literal 2 100; usdRate := literal 8 10; meanAmount := of_Z 150 |}.

Definition no_history : AnomalyResult := {| score := zero; flag := ok; Anomaly.detail := Anomaly.NoAnomaly |}.

Definition flag_ok (f : AnomalyFlag) : bool := match f with ok => true | _ => false end.

Section Package.
Context {dates : DateText} {text : LeafText} (hash : string → string) (env : Anomaly.Defaults) (localeCompare : string → string → Z)
  (MERKLE_MAX_LEAVES : Z).

Fixpoint proofs_from (leaves : list string) (i n : nat) : result pipeline_error (list (nat * list Merkle.proof_step)) :=
  match n with
  | O => Ok []
  | S n =>
      match Merkle.generateProof hash leaves (Some (Z.of_nat i)) with
      | Err _ => Err (ProofFailed i)
      | Ok p =>
          if (Merkle.MERKLE_PROOF_MAX_STEPS <? length p)%nat then Err (ProofTooLong i)
          else match proofs_from leaves (S i) n with Err e => Err e | Ok ps => Ok ((i, p) :: ps) end
      end
  end.

(** [warnings] counts them. *)
Definition integrateRevenueChecks (now : Z) (rawEntries : list RawRevenueInput) (monthlySeries : list MonthlyRevenue)
    (baseline : NormalizationBaseline) : result pipeline_error AttestationRevenueSummary :=
  match normalize_all now rawEntries with
  | Err e => Err e
  | Ok entries =>
      if (length entries =? 0)%nat then Err NoEntries
      else if MERKLE_MAX_LEAVES <? Z.of_nat (length entries) then Err (TooManyEntries (length entries))
      else
        let anomaly := match monthlySeries with [] => no_history | _ => Anomaly.detectRevenueAnomaly env localeCompare monthlySeries Anomaly.no_calibration end in
        let w := match monthlySeries with [] => 1%nat | _ => if flag_ok (flag anomaly) then 0%nat else 1%nat end in
        let drift := detectNormalizationDrift entries baseline {| threshold := None; minEntries := None |} in
        let leaves := map leaf_text entries in
        match Merkle.buildTree hash MERKLE_MAX_LEAVES leaves with
        | Err e => Err (TreeFailed e)
        | Ok tree =>
            match proofs_from leaves 0 (length leaves) with
            | Err e => Err e
            | Ok ps => Ok {| anomaly := anomaly; drift := drift; normalizedEntries := entries; merkleRoot := Merkle.getRoot tree;
                             merkleProofs := ps; warnings := (w + if hasDrift drift then 1 else 0)%nat |}
            end
        end
  end.
End Package.

(** [reason] is the branch taken. *)
Inductive reason := HighAnomaly | HighDrift | AllPassed.

Definition shouldProceedWithAttestation (s : AttestationRevenueSummary) : bool * reason :=
  if negb (flag_ok (flag (anomaly s))) && (literal 7 10 <? score (anomaly s))%double then (false, HighAnomaly)
  else if hasDrift (drift s) && (literal 5 10 <? overallScore (drift s))%double then (false, HighDrift)
  else (true, AllPassed).

(** ** Normalised entries *)

Definition as_raw (e : NormalizedRevenue) : RawRevenueInput :=
  {| r_id := id e; r_amount := amount e; r_currency := Some (currency e); r_date := Some (DateString (date e)); r_source := Some (source e) |}.

Lemma truthy_Some s c : truthy s = Some c → c ≠ EmptyString ∧ ∀ d, d ≠ EmptyString → truthy (Some d) = Some d.
Proof. destruct s as [[|a s]|]; try done. intros [= <-]. split; [done|]. by intros []. Qed.

Lemma to_upper_nonempty s : s ≠ EmptyString → BusinessInput.to_upper s ≠ EmptyString.
Proof. by destruct s. Qed.

(** Normalisation is idempotent: a normalised entry, taken as raw input at
    any later time, normalises to itself. *)
Theorem normalized_entry_fixed {dates : DateText} now now' raw e :
  normalizeRevenueEntry now raw = Ok e → normalizeRevenueEntry now' (as_raw e) = Ok e.
Proof.
  intros H. unfold normalizeRevenueEntry in H.
  set (cur := match truthy (r_currency raw) with Some c => BusinessInput.to_upper c | None => "USD" end) in H.
  set (src := default "unknown" (truthy (r_source raw))) in H.
  assert (Hc : truthy (Some cur) = Some cur ∧ BusinessInput.to_upper cur = cur).
  { unfold cur. destruct (truthy (r_currency raw)) as [c|] eqn:E; [|done]. destruct (truthy_Some _ _ E) as [Hn Ht].
    split; [by apply Ht, to_upper_nonempty|apply BusinessInput.to_upper_idem]. }
  assert (Hs : truthy (Some src) = Some src).
  { unfold src. destruct (truthy (r_source raw)) as [c|] eqn:E; [|done]. destruct (truthy_Some _ _ E) as [Hn Ht]. cbn. by apply Ht. }
  assert (∃ t, e = {| id := r_id raw; amount := r_amount raw; currency := cur; date := toISOString t;
                      type := if (r_amount raw <? zero)%double then refund else payment; source := src |}) as [t ->].
  { destruct (r_date raw) as [[n|[|c s]]|]; [destruct (time_clip _) as [t|]; [|done]| | |]; injection H as <-; by eexists. }
  unfold normalizeRevenueEntry, as_raw. cbn [r_currency r_source r_date r_amount r_id id amount currency date source].
  destruct Hc as [-> ->]. rewrite Hs. destruct (toISOString t) as [|c s] eqn:E; [by apply Reminders.iso_nonempty in E|].
  rewrite <- E, Reminders.parse_iso. done.
Qed.

Lemma normalize_all_spec {dates : DateText} now l :
  match normalize_all now l with
  | Ok es => Forall2 (λ r e, normalizeRevenueEntry now r = Ok e) l es
  | Err e => e = RangeError ∧ Exists (λ r, normalizeRevenueEntry now r = Err RangeError) l
  end.
Proof.
  induction l as [|r l IH]; [constructor|]. cbn. destruct (normalizeRevenueEntry now r) as [x|e] eqn:E.
  - destruct (normalize_all now l) as [xs|e]; [by constructor|]. destruct IH as [-> IH]. split; [done|by right].
  - assert (e = RangeError) as ->.
    { unfold normalizeRevenueEntry in E. destruct (r_date r) as [[n|[|c s]]|]; [destruct (time_clip _)|..]; congruence. }
    split; [done|by left].
Qed.

(** ** The package *)

Section PackageProperties.
Context {dates : DateText} {text : LeafText} (hash : string → string) `{!HexDigest hash} (env : Anomaly.Defaults)
  (localeCompare : string → string → Z).

Lemma proofs_from_spec max leaves tree i n :
  max ≤ 16777216 → Merkle.buildTree hash max leaves = Ok tree → (i + n ≤ length leaves)%nat →
  ∃ ps, proofs_from hash leaves i n = Ok ps ∧ length ps = n ∧
    ∀ j, (j < n)%nat → ∃ p, ps !! j = Some ((i + j)%nat, p) ∧
      Merkle.verifyProof hash (Some (leaves !!! (i + j)%nat)) (Merkle.forget_proof p) (Some (Merkle.getRoot tree)) = true.
Proof.
  intros Hmax Ht. revert i. induction n as [|n IH]; intros i Hi; [exists []; split_and!; [done|done|lia]|].
  destruct (Merkle.proof_of_leaf hash max leaves tree i Hmax Ht ltac:(lia)) as (p & Hp & Hv & Hl). cbn [proofs_from]. rewrite Hp.
  pose proof (Merkle.buildTree_inv hash max leaves tree Ht) as (_ & Hle & _).
  assert ((Merkle.MERKLE_PROOF_MAX_STEPS <? length p)%nat = false) as ->.
  { apply Nat.ltb_ge. rewrite Hl. apply Merkle.height_bound. lia. }
  destruct (IH (S i) ltac:(lia)) as (ps & -> & Hlen & Hps). exists ((i, p) :: ps). split_and!; [done|cbn; lia|].
  intros [|j] Hj; [exists p; by rewrite Nat.add_0_r|]. destruct (Hps j ltac:(lia)) as (q & Hq & Hqv). exists q.
  rewrite Nat.add_succ_r. split; [exact Hq|exact Hqv].
Qed.

(** C13. A package is made for every batch of one to the maximal number of
    entries whose numeric dates are dates, and only then; it has one proof per
    entry, and each proof verifies the entry's leaf against the package's root.
    The failures of the tree and of the proofs the code guards against do not
    occur. *)
Theorem package_proofs_verify max now raw series baseline :
  max ≤ 16777216 →
  match integrateRevenueChecks hash env localeCompare max now raw series baseline with
  | Ok s =>
      (0 < length raw)%nat ∧ Z.of_nat (length raw) ≤ max ∧
      Forall2 (λ r e, normalizeRevenueEntry now r = Ok e) raw (normalizedEntries s) ∧ length (merkleProofs s) = length raw ∧
      ∀ i e, normalizedEntries s !! i = Some e → ∃ p, merkleProofs s !! i = Some (i, p) ∧
        Merkle.verifyProof hash (Some (leaf_text e)) (Merkle.forget_proof p) (Some (merkleRoot s)) = true
  | Err RangeError => Exists (λ r, normalizeRevenueEntry now r = Err RangeError) raw
  | Err NoEntries => raw = []
  | Err (TooManyEntries n) => n = length raw ∧ max < Z.of_nat n
  | Err _ => False
  end.
Proof.
  intros Hmax. unfold integrateRevenueChecks. pose proof (normalize_all_spec now raw) as Hn.
  destruct (normalize_all now raw) as [es|e]; [|by destruct Hn as [-> Hn]]. pose proof (Forall2_length _ _ _ Hn) as Hlen.
  destruct (Nat.eqb_spec (length es) 0) as [H0|H0]; [by destruct raw; [|cbn in Hlen; lia]|].
  destruct (Z.ltb_spec max (Z.of_nat (length es))); [by rewrite Hlen|].
  set (leaves := map leaf_text es). pose proof (Merkle.buildTree_accepts hash max leaves) as Hb.
  assert (length leaves = length es) as Hll by apply length_map.
  destruct (Merkle.buildTree hash max leaves) as [tree|[]] eqn:Ht.
  - destruct (proofs_from_spec max leaves tree 0 (length leaves) Hmax Ht ltac:(lia)) as (ps & -> & Hps & Hv).
    cbn [normalizedEntries merkleProofs merkleRoot]. split_and!; [lia|lia|done|lia|].
    intros i e He. pose proof (lookup_lt_Some _ _ _ He) as Hi. destruct (Hv i ltac:(lia)) as (p & Hp & Hpv). exists p. split; [done|].
    rewrite Nat.add_0_l in Hpv. rewrite (list_lookup_total_correct leaves i (leaf_text e)) in Hpv; [done|].
    unfold leaves. change (map leaf_text es) with (leaf_text <$> es). by rewrite list_lookup_fmap, He.
  - exfalso. rewrite Hb in Hll. cbn in Hll. lia.
  - exfalso. rewrite Hll in Hb. lia.
  - exfalso. apply list_elem_of_fmap in Hb as (e & He & _). symmetry in He. by apply leaf_nonempty in He.
  - done.
Qed.
End PackageProperties.

(** ** Unreadable amounts *)

Lemma max_nan_list l acc : is_nan acc = true ∨ NaN ∈ l → fold_left Math_max l acc = NaN.
Proof.
  revert acc. induction l as [|x l IH]; intros acc [H|H]; cbn.
  - by destruct acc.
  - by apply elem_of_nil in H.
  - apply IH. left. by rewrite max_nan, H.
  - apply elem_of_cons in H as [<-|H]; apply IH; [left|by right]. by rewrite max_nan, orb_true_r.
Qed.

(** One amount that is not a number switches the drift check off: the
    overall score is not a number, which is not above the limit, and unless the
    anomaly check objects the package proceeds, whatever else has drifted. *)
Theorem unreadable_amount_hides_drift entries b o s :
  (of_Z (Z.of_nat (length entries)) <? default DEFAULT_MIN_ENTRIES (minEntries o))%double = false →
  (meanAmount b =? zero)%double = false → NaN ∈ map amount entries →
  drift s = detectNormalizationDrift entries b o → flag (anomaly s) = ok →
  overallScore (drift s) = NaN ∧ shouldProceedWithAttestation s = (true, AllPassed).
Proof.
  intros Hn Hb Hnan Hd Hf. assert (overallScore (drift s) = NaN) as Ho.
  { rewrite Hd. unfold detectNormalizationDrift. rewrite Hn. cbn [overallScore]. apply max_nan_list. right. apply list_elem_of_fmap.
    exists (buildDriftCheck "mean_amount" (meanAmount b) (meanAbsAmount entries) (default DEFAULT_DRIFT_THRESHOLD (threshold o)) amount_drift).
    split; [|do 3 right; left]. assert (meanAbsAmount entries = NaN) as ->.
    { unfold meanAbsAmount, sum. rewrite Anomaly.sum_nan; [done|]. right. apply list_elem_of_fmap in Hnan as (e & He & Hin).
      apply list_elem_of_fmap. exists e. by rewrite <- He. }
    unfold buildDriftCheck. cbn [d_score]. by rewrite Hb. }
  split; [done|]. unfold shouldProceedWithAttestation. rewrite Hf, Ho. cbn [flag_ok negb andb].
  assert (∀ x, (x <? NaN)%double = false) as -> by (intros x; apply not_true_iff_false; intros H%lt_nan; by destruct H). by rewrite andb_false_r.
Qed.

(** ** Aggregates *)

Definition of_currency (c : string) (es : list NormalizedRevenue) : list NormalizedRevenue := List.filter (λ e, String.eqb (currency e) c) es.

Definition tally (es : list NormalizedRevenue) (c : string) : bucket :=
  let mine := of_currency c es in
  {| payments := sum (map amount (List.filter (λ e, negb (is_refund e)) mine)); refunds := sum (map amount (List.filter is_refund mine));
     count := Z.of_nat (length mine) |}.

Definition currencies (es : list NormalizedRevenue) : list string := fold_left Words.set_add (map currency es) [].

Lemma map_get_map {V} (f : string → V) c ks : map_get c (map (λ k, (k, f k)) ks) = if existsb (String.eqb c) ks then Some (f c) else None.
Proof. induction ks as [|k ks IH]; [done|]. cbn. by destruct (String.eqb_spec c k) as [->|]. Qed.

Lemma map_set_map {V} (f f' : string → V) c ks : NoDup ks → (∀ k, k ≠ c → f' k = f k) →
  map_set c (f' c) (map (λ k, (k, f k)) ks) = map (λ k, (k, f' k)) (Words.set_add ks c).
Proof.
  intros Hn Hf. unfold Words.set_add. induction Hn as [|k ks Hk Hn IH]; [done|]. cbn. destruct (String.eqb_spec c k) as [->|Hne]; cbn.
  - f_equal. apply map_ext_in. intros k' Hk'%list_elem_of_In. rewrite Hf; [done|]. by intros ->.
  - rewrite IH. destruct (existsb _ ks); cbn; by rewrite Hf.
Qed.

Lemma sum_snoc l x : sum (l ++ [x]) = (sum l + x)%double.
Proof. unfold sum. by rewrite fold_left_app. Qed.

Lemma tally_snoc es e c : tally (es ++ [e]) c =
  if String.eqb (currency e) c
  then match type e with
       | refund => {| payments := payments (tally es c); refunds := (refunds (tally es c) + amount e)%double; count := count (tally es c) + 1 |}
       | payment => {| payments := (payments (tally es c) + amount e)%double; refunds := refunds (tally es c); count := count (tally es c) + 1 |}
       end
  else tally es c.
Proof.
  unfold tally, of_currency. rewrite List.filter_app. cbn [List.filter]. destruct (String.eqb (currency e) c); [|by rewrite app_nil_r].
  rewrite !List.filter_app, !map_app, length_app. cbn. unfold is_refund at 2 4. destruct (type e); cbn; rewrite ?app_nil_r, sum_snoc; f_equal; lia.
Qed.

Lemma buckets_spec es : fold_left add_entry es [] = map (λ c, (c, tally es c)) (currencies es).
Proof.
  induction es as [|e es IH] using rev_ind; [done|]. unfold currencies in *. rewrite map_app, !fold_left_app, IH. cbn [map fold_left].
  set (ks := fold_left Words.set_add (map currency es) []) in *.
  pose proof (Words.set_adds (map currency es) [] (NoDup_nil_2)) as (Hn & _ & Hin). fold ks in Hn, Hin.
  unfold add_entry. rewrite map_get_map.
  assert (default no_bucket (if existsb (String.eqb (currency e)) ks then Some (tally es (currency e)) else None) = tally es (currency e)) as ->.
  { destruct (existsb _ ks) eqn:E; [done|]. cbn. unfold tally, of_currency.
    assert (List.filter (λ e', String.eqb (currency e') (currency e)) es = []) as ->; [|done].
    assert (currency e ∉ map currency es) as Hne.
    { intros H. apply not_true_iff_false in E. apply E, existsb_exists. exists (currency e). rewrite String.eqb_refl. split; [|done].
      apply list_elem_of_In, Hin. by right. }
    clear -Hne. induction es as [|e' es IH]; [done|]. cbn in *. apply not_elem_of_cons in Hne as [Hne Hr].
    destruct (String.eqb_spec (currency e') (currency e)); [congruence|by apply IH]. }
  rewrite <- (map_set_map (tally es) (tally (es ++ [e])) (currency e)); [|done|].
  - f_equal. rewrite tally_snoc, String.eqb_refl. by destruct (type e).
  - intros k Hk. rewrite tally_snoc. by destruct (String.eqb_spec (currency e) k).
Qed.

(** The report has one row for each currency that occurs, in the order in
    which the currencies first occur; its count is the number of entries in
    that currency, and its payments and refunds are the rounded sums, in the
    order of the entries, of the payments and the refunds in that currency. *)
Theorem aggregate_spec entries decimals :
  let row c :=
    let mine := of_currency c entries in
    let p := roundAmount (sum (map amount (List.filter (λ e, negb (is_refund e)) mine))) decimals in
    let r := roundAmount (sum (map amount (List.filter is_refund mine))) decimals in
    {| a_currency := c; a_total := roundAmount (p + r)%double decimals; a_payments := p; a_refunds := r; a_count := Z.of_nat (length mine) |} in
  aggregateRevenue entries decimals = map row (currencies entries) ∧
  NoDup (currencies entries) ∧ ∀ c, c ∈ currencies entries ↔ c ∈ map currency entries.
Proof.
  intros row. unfold aggregateRevenue. rewrite buckets_spec, map_map. split; [done|].
  destruct (Words.set_adds (map currency entries) [] (NoDup_nil_2)) as (Hn & _ & Hin). split; [done|].
  intros c. rewrite (Hin c), elem_of_nil. tauto.
Qed.

(** ** Concrete packages *)

#[local] Existing Instance Reminders.bits_dates.

#[local] Program Instance currency_text : LeafText := {| leaf_text e := ("{" ++ currency e ++ "}")%string |}.
Next Obligation. done. Qed.

Definition raw (a : double) : RawRevenueInput :=
  {| r_id := "r"; r_amount := a; r_currency := Some "eur"; r_date := None; r_source := Some "stripe" |}.
Definition entry (a : double) : NormalizedRevenue :=
  {| id := "r"; amount := a; currency := "EUR"; date := "2026-01-01T00:00:00.000Z"; type := if (a <? zero)%double then refund else payment; source := "stripe" |}.

(** Rounding is not symmetric: an eighth is rounded away from zero, minus an
    eighth is not. *)
Example rounding_is_not_symmetric :
  roundAmount (literal 1 8) 2 = literal 13 100 ∧ roundAmount (literal (-1) 8) 2 = literal (-12) 100.
Proof. vm_compute. done. Qed.

(** The report depends on the order in which the amounts are added. *)
Example aggregate_depends_on_order :
  let big := of_Z (10 ^ 16) in
  map a_total (aggregateRevenue [entry big; entry (of_Z 1); entry (of_Z 1)] 0) ≠
  map a_total (aggregateRevenue [entry (of_Z 1); entry (of_Z 1); entry big] 0).
Proof. vm_compute. discriminate. Qed.

(** One amount that is not a number zeroes the payments of its currency. *)
Example unreadable_amount_zeroes_payments :
  map (λ r, (a_payments r, a_count r)) (aggregateRevenue [entry (of_Z 100); entry NaN] 2) = [(zero, 2)].
Proof. vm_compute. reflexivity. Qed.

(** A number that is not a date is thrown; a text that is not one is taken for now. *)
Example unreadable_dates :
  let with_date d := {| r_id := "r"; r_amount := of_Z 1; r_currency := None; r_date := Some d; r_source := None |} in
  normalizeRevenueEntry 5 (with_date (DateNumber NaN)) = Err RangeError ∧
  match normalizeRevenueEntry 5 (with_date (DateString "soon")) with Ok e => date e = toISOString 5 | Err _ => False end.
Proof. vm_compute. done. Qed.

Lemma normalized_entry_fixed_witness : normalizeRevenueEntry 7 (as_raw (match normalizeRevenueEntry 5 (raw (of_Z 3)) with Ok e => e | Err _ => entry zero end))
  = normalizeRevenueEntry 5 (raw (of_Z 3)).
Proof. exact (normalized_entry_fixed 5 7 (raw (of_Z 3)) _ eq_refl). Defined.

Lemma package_proofs_verify_witness :
  match integrateRevenueChecks toy_hash Anomaly.standard Anomaly.text_compare 1000 5 [raw (of_Z 3); raw (of_Z 4)] [] default_baseline with
  | Ok s => length (merkleProofs s) = 2%nat
  | Err _ => False
  end.
Proof.
  pose proof (package_proofs_verify toy_hash Anomaly.standard Anomaly.text_compare 1000 5 [raw (of_Z 3); raw (of_Z 4)] [] default_baseline
    ltac:(lia)) as H.
  destruct (integrateRevenueChecks toy_hash Anomaly.standard Anomaly.text_compare 1000 5 [raw (of_Z 3); raw (of_Z 4)] [] default_baseline) as [s|e] eqn:E.
  - destruct H as (_ & _ & _ & H & _). exact H.
  - vm_compute in E. discriminate E.
Defined.

Definition drifted_package : AttestationRevenueSummary :=
  let entries := map entry [NaN; of_Z (-1); of_Z (-1); of_Z (-1); of_Z (-1)] in
  {| anomaly := no_history; drift := detectNormalizationDrift entries default_baseline {| threshold := None; minEntries := None |};
     normalizedEntries := entries; merkleRoot := EmptyString; merkleProofs := []; warnings := 1 |}.

Lemma unreadable_amount_hides_drift_witness :
  hasDrift (drift drifted_package) = true ∧ shouldProceedWithAttestation drifted_package = (true, AllPassed).
Proof.
  split; [vm_compute; reflexivity|].
  exact (proj2 (unreadable_amount_hides_drift (normalizedEntries drifted_package) default_baseline {| threshold := None; minEntries := None |} drifted_package
    ltac:(vm_compute; reflexivity) ltac:(vm_compute; reflexivity) ltac:(apply elem_of_cons; left; reflexivity) eq_refl eq_refl)).
Defined.
