(* ===== verification/SecretLoader.v ===== *)
(** * Secrets: [src/utils/secret-loader.ts].

    The answers of Vault, the cloud services and the disk are inputs of the
    operations.  Parsers, the printing of numbers and the cipher of the disk
    cache are arguments or interfaces.  The constants of the lease renewal
    and its metrics are declared nowhere in the program: reading them throws. *)

From S2P Require Import Prelude Doubles Numeric Hashing JsString Words Collections.
From S2P Require Businesses.
#[local] Open Scope Z_scope.

Inductive json :=
| JNull | JBool (b : bool) | JNum (n : double) | JStr (s : string) | JArr (l : list json) | JObj (fields : list (string * json)).

Inductive secret_error := SecretNotFoundError (key : string) | SecretNotLoadedError | SecretLoadError | ReferenceError | ParseError.

Abbreviation secrets_map := (list (string * string)).

(** [String(value)] of a number. *)
Class NumberText := { show_number : double → string; show_number_nonempty n : show_number n ≠ EmptyString }.

(** ** The base class *)

Record adapter := { loaded : bool; secrets : secrets_map }.
Definition fresh_adapter : adapter := {| loaded := false; secrets := [] |}.

Definition ensureLoaded (a : adapter) : option secret_error := if loaded a then None else Some SecretNotLoadedError.

Definition toSecretValue (value : option string) (key : string) : result secret_error string :=
  match value with None | Some EmptyString => Err (SecretNotFoundError key) | Some v => Ok v end.

Definition normalizeSecretKey (key : string) : string := trim key.

Section Loader.
Context {numbers : NumberText}.

Definition usable (v : json) : option string :=
  match v with
  | JStr EmptyString => None
  | JStr s => Some s
  | JNum n => Some (show_number n)
  | JBool b => Some (if b then "true" else "false")
  | _ => None
  end.

Definition normalizeSecretValues (values : list (string * json)) : secrets_map :=
  fold_left (λ m kv, match usable kv.2 with Some v => map_set (normalizeSecretKey kv.1) v m | None => m end) values [].

(** [new Map(entries)] *)
Definition map_of (entries : secrets_map) : secrets_map := fold_left (λ m kv, map_set kv.1 kv.2 m) entries [].

(** ** The environment *)

Definition env_reload (env : secrets_map) (a : adapter) : adapter :=
  {| loaded := true; secrets := map_of (map (λ kv, (normalizeSecretKey kv.1, kv.2)) (List.filter (λ kv, negb (is_empty (trim kv.2))) env)) |}.

Definition env_get (env : secrets_map) (key : string) : result secret_error string :=
  toSecretValue (map_get (normalizeSecretKey key) env) (normalizeSecretKey key).

(** ** A file *)

Definition adapter_get (a : adapter) (key : string) : result secret_error string :=
  match ensureLoaded a with
  | Some e => Err e
  | None => toSecretValue (map_get (normalizeSecretKey key) (secrets a)) (normalizeSecretKey key)
  end.

Definition first_nonempty (a b : option string) : option string :=
  match a with None | Some EmptyString => b | _ => a end.

Section Parsing.
Context (JSON_parse : string → option json) (dotenv_parse : string → list (string * string)).

(** [read] is what the file of the resolved path holds, if it can be read. *)
Definition file_reload (env : secrets_map) (filePath : string) (read : string → option string) (a : adapter) : result secret_error unit * adapter :=
  match first_nonempty (Some filePath) (map_get "SECRET_FILE_PATH" env) with
  | None => (Err SecretLoadError, a)
  | Some p =>
      if is_empty (trim p) then (Err SecretLoadError, a)
      else
        match read p with
        | None => (Err ParseError, a)
        | Some raw =>
            match (match trim raw with
                   | String "{" _ => match JSON_parse raw with Some (JObj fields) => Some fields | _ => None end
                   | _ => Some (map (λ kv, (kv.1, JStr kv.2)) (dotenv_parse raw))
                   end) with
            | None => (Err ParseError, a)
            | Some parsed =>
                match normalizeSecretValues parsed with
                | [] => (Err SecretLoadError, a)
                | normalized => (Ok tt, {| loaded := true; secrets := normalized |})
                end
            end
        end
  end.

(** ** Vault *)

Record VaultLease := { leaseId : string; leaseDurationSeconds : double; renewable : bool }.

Record vault := { v_adapter : adapter; lease : option VaultLease; renewalTimer : option Z }.
Definition fresh_vault : vault := {| v_adapter := fresh_adapter; lease := None; renewalTimer := None |}.

(** The answer of an endpoint: no response, or a status with a body that may
    be JSON. *)
Inductive response := NoResponse | Response (status : Z) (body : option json).
Definition is_ok (status : Z) : bool := (200 <=? status) && (status <=? 299).

Fixpoint drop_leading (c : ascii) (s : string) : string :=
  match s with String d r => if Ascii.eqb d c then drop_leading c r else s | EmptyString => EmptyString end.
Fixpoint drop_trailing (c : ascii) (s : string) : string :=
  match s with
  | EmptyString => EmptyString
  | String d r => match drop_trailing c r with EmptyString => if Ascii.eqb d c then EmptyString else String d EmptyString | r' => String d r' end
  end.

Definition vault_url (baseUrl secretPath : string) : string := (drop_trailing "/" baseUrl ++ "/" ++ drop_leading "/" secretPath)%string.

Definition resolveVaultPayload (body : json) : option (list (string * json)) :=
  match body with
  | JObj fields => match map_get "data" fields with Some (JObj candidate) => Some candidate | _ => Some fields end
  | _ => None
  end.

Definition resolveVaultLease (body : json) : option VaultLease :=
  match body with
  | JObj envelope =>
      match map_get "lease_id" envelope, map_get "lease_duration" envelope with
      | Some (JStr (String _ _ as l)), Some (JNum d) =>
          if (d <=? zero)%double then None
          else Some {| leaseId := l; leaseDurationSeconds := d;
                       renewable := match map_get "renewable" envelope with Some (JBool true) => true | _ => false end |}
      | _, _ => None
      end
  | _ => None
  end.

Definition fetchFromVault (r : response) : result secret_error (secrets_map * option VaultLease) :=
  match r with
  | NoResponse => Err SecretLoadError
  | Response status body =>
      if negb (is_ok status) then Err SecretLoadError
      else match body with
           | None => Err SecretLoadError
           | Some b => match resolveVaultPayload b with
                       | None => Err SecretLoadError
                       | Some payload => Ok (normalizeSecretValues payload, resolveVaultLease b)
                       end
           end
  end.

Definition cancelScheduledRenewal (v : vault) : vault := {| v_adapter := v_adapter v; lease := lease v; renewalTimer := None |}.

(** The delay is computed from names that are not declared. *)
Definition renewalDelayMs (leaseDurationSeconds : double) : result secret_error Z := Err ReferenceError.

Definition scheduleRenewalIfEligible (v : vault) : result secret_error unit * vault :=
  match lease v with
  | Some l =>
      if renewable l then match renewalDelayMs (leaseDurationSeconds l) with
                          | Err e => (Err e, v)
                          | Ok d => (Ok tt, {| v_adapter := v_adapter v; lease := lease v; renewalTimer := Some d |})
                          end
      else (Ok tt, v)
  | None => (Ok tt, v)
  end.

(** [vaultLeaseSecondsRemaining] is not declared. *)
Definition vault_reload (r : response) (v : vault) : result secret_error unit * vault :=
  let v := cancelScheduledRenewal v in
  match fetchFromVault r with
  | Err e => (Err e, v)
  | Ok (s, l) =>
      let v := {| v_adapter := {| loaded := true; secrets := s |}; lease := l; renewalTimer := renewalTimer v |} in
      match l with Some _ => (Err ReferenceError, v) | None => scheduleRenewalIfEligible v end
  end.

Definition renewed_lease (l : VaultLease) (body : list (string * json)) : VaultLease :=
  {| leaseId := match map_get "lease_id" body with Some (JStr (String _ _ as i)) => i | _ => leaseId l end;
     leaseDurationSeconds := match map_get "lease_duration" body with
                             | Some (JNum d) => if (zero <? d)%double then d else leaseDurationSeconds l
                             | _ => leaseDurationSeconds l
                             end;
     renewable := match map_get "renewable" body with Some (JBool false) => false | _ => true end |}.

(** With a lease, every way through ends at a name that is not declared: the
    [finally] block reads one. *)
Definition renew (r : response) (v : vault) : result secret_error unit * vault :=
  match lease v with
  | None => (Ok tt, v)
  | Some l =>
      let v :=
        match r with
        | NoResponse | Response _ None | Response _ (Some JNull) => v
        | Response status (Some body) =>
            if (status =? 403) || (status =? 404) || negb (is_ok status) then v
            else {| v_adapter := v_adapter v; lease := Some (renewed_lease l (match body with JObj fields => fields | _ => [] end));
                    renewalTimer := renewalTimer v |}
        end in
      (Err ReferenceError, v)
  end.

(** ** Cloud services *)

(** [None] is a failure of any call, or of loading the client. *)
Definition object_entries (j : json) : option (list (string * json)) :=
  match j with
  | JObj fields => Some fields
  | JArr l => Some (imap (λ i x, (show_Z (Z.of_nat i), x)) l)
  | _ => None
  end.

Definition aws_reload (answer : option (option string)) : adapter :=
  {| loaded := true;
     secrets := match answer with
                | Some (Some (String _ _ as text)) =>
                    match JSON_parse text with
                    | None => [("AWS_SECRET", text)]
                    | Some j => match object_entries j with Some fields => normalizeSecretValues fields | None => [] end
                    end
                | _ => []
                end |}.

Definition gsm_reload (env : secrets_map) (answer : option (option string)) : adapter :=
  {| loaded := true;
     secrets := match answer with
                | Some (Some (String _ _ as payload)) => [(default "DEFAULT_SECRET" (map_get "GSM_SECRET_NAME" env), payload)]
                | _ => []
                end |}.

(** [get] of both: any secret stands in for one that is missing. *)
Definition cloud_get (a : adapter) (key : string) : result secret_error string :=
  match ensureLoaded a with
  | Some e => Err e
  | None =>
      match map_get (normalizeSecretKey key) (secrets a) with
      | Some (String _ _ as v) => Ok v
      | _ => toSecretValue (snd <$> head (secrets a)) key
      end
  end.

(** ** The primary adapter *)

Inductive primary := FileAdapter (filePath : string) (a : adapter) | VaultAdapter (v : vault) | AwsSecretsAdapter (a : adapter) | GsmSecretAdapter (a : adapter).

(** What the outside says to one [reload]. *)
Record answers := { read_file : string → option string; vault_says : response; cloud_says : option (option string) }.

Definition primary_reload (env : secrets_map) (w : answers) (p : primary) : result secret_error unit * primary :=
  match p with
  | FileAdapter path a => let '(r, a) := file_reload env path (read_file w) a in (r, FileAdapter path a)
  | VaultAdapter v => let '(r, v) := vault_reload (vault_says w) v in (r, VaultAdapter v)
  | AwsSecretsAdapter _ => (Ok tt, AwsSecretsAdapter (aws_reload (cloud_says w)))
  | GsmSecretAdapter _ => (Ok tt, GsmSecretAdapter (gsm_reload env (cloud_says w)))
  end.

Definition primary_adapter (p : primary) : adapter :=
  match p with FileAdapter _ a | AwsSecretsAdapter a | GsmSecretAdapter a => a | VaultAdapter v => v_adapter v end.

Definition vault_get (v : vault) (key : string) : result secret_error string :=
  match ensureLoaded (v_adapter v) with
  | Some e => Err e
  | None => toSecretValue (map_get (normalizeSecretKey key) (secrets (v_adapter v))) key
  end.

Definition primary_get (p : primary) (key : string) : result secret_error string :=
  match p with
  | FileAdapter _ a => adapter_get a key
  | VaultAdapter v => vault_get v key
  | AwsSecretsAdapter a | GsmSecretAdapter a => cloud_get a key
  end.

(** ** The disk cache *)

(** KMS and the cipher, and the text of the secrets with its reader. *)
Class DiskCipher := { box : Type; encrypt : string → box; decrypt : box → option string; decrypt_encrypt s : decrypt (encrypt s) = Some s }.
Class RecordText := {
  show_record : secrets_map → string; read_record : string → option secrets_map;
  read_show m : NoDup m.*1 → ∃ l, read_record (show_record m) = Some l ∧ NoDup l.*1 ∧ ∀ k, map_get k l = map_get k m
}.

Context {cipher : DiskCipher} {record : RecordText}.

(** The file: absent, not readable as a cache, or sealed.  [expiresAt] may
    have been written as [null], which compares as zero. *)
Inductive cache_file := NoFile | BadFile | Sealed (encryptedData : box) (expiresAt : option double).

(** Whether the calls of one save or load succeed: all, none that matters, or
    all up to the writing of the file. *)
Inductive cache_io := Works | Fails | FailsWriting.

Definition expiry (ttlMinutes : double) (now : Z) : option double :=
  let e := (of_Z now + ttlMinutes * of_Z 60 * of_Z 1000)%double in if isFinite e then Some e else None.

Definition cache_save (ttlMinutes : double) (io : cache_io) (now : Z) (m : secrets_map) (f : cache_file) : cache_file :=
  match io with
  | Works => Sealed (encrypt (show_record m)) (expiry ttlMinutes now)
  | FailsWriting => BadFile
  | Fails => f
  end.

Definition cache_load (io : cache_io) (now : Z) (f : cache_file) : option secrets_map :=
  match f with
  | Sealed b e =>
      if (default zero e <? of_Z now)%double then None
      else match io with Works => (decrypt b ≫= read_record) | _ => None end
  | _ => None
  end.

(** ** The failover loader *)

(** [cache_ttl] is [None] when no disk cache is configured. *)
Record failover := { f_adapter : adapter; primaryAdapter : primary; fallbackAdapter : adapter; cache_ttl : option double; cache : cache_file }.

(** [Map] of a [Map]. *)
Definition f_load (m : secrets_map) (f : failover) : failover :=
  {| f_adapter := {| loaded := true; secrets := m |}; primaryAdapter := primaryAdapter f; fallbackAdapter := fallbackAdapter f;
     cache_ttl := cache_ttl f; cache := cache f |}.
Definition with_primary (p : primary) (f : failover) : failover :=
  {| f_adapter := f_adapter f; primaryAdapter := p; fallbackAdapter := fallbackAdapter f; cache_ttl := cache_ttl f; cache := cache f |}.
Definition with_cache (c : cache_file) (f : failover) : failover :=
  {| f_adapter := f_adapter f; primaryAdapter := primaryAdapter f; fallbackAdapter := fallbackAdapter f; cache_ttl := cache_ttl f; cache := c |}.
Definition with_fallback (a : adapter) (f : failover) : failover :=
  {| f_adapter := f_adapter f; primaryAdapter := primaryAdapter f; fallbackAdapter := a; cache_ttl := cache_ttl f; cache := cache f |}.

(** The way out of a failed or late primary. *)
Definition fall_back (env : secrets_map) (io : cache_io) (now : Z) (f : failover) : failover :=
  match cache_ttl f ≫= λ _, cache_load io now (cache f) with
  | Some cached => f_load cached f
  | None => let a := env_reload env (fallbackAdapter f) in f_load (secrets a) (with_fallback a f)
  end.

(** [reload], when the primary settles within the timeout... *)
Definition failover_reload (env : secrets_map) (w : answers) (io : cache_io) (now : Z) (f : failover) : failover :=
  let '(r, p) := primary_reload env w (primaryAdapter f) in
  let f := with_primary p f in
  match r with
  | Ok _ =>
      let f := f_load (secrets (primary_adapter p)) f in
      match cache_ttl f with Some ttl => with_cache (cache_save ttl io now (secrets (f_adapter f)) (cache f)) f | None => f end
  | Err _ => fall_back env io now f
  end.

(** ... and when it does not: its own work arrives later. *)
Definition late_arrival (env : secrets_map) (w : answers) (f : failover) : failover :=
  with_primary (snd (primary_reload env w (primaryAdapter f))) f.

Definition failover_get (env : secrets_map) (f : failover) (key : string) : result secret_error string :=
  match ensureLoaded (f_adapter f) with
  | Some e => Err e
  | None =>
      match map_get (normalizeSecretKey key) (secrets (f_adapter f)) with
      | Some direct => Ok direct
      | None => match env_get env key with
                | Err (SecretNotFoundError _) => toSecretValue None key
                | r => r
                end
      end
  end.

(** ** Creation *)

Record SecretLoaderOptions := {
  provider : option string; fallbackEnabled : option bool; awsRegion : option string; vaultBaseUrl : option string;
  vaultSecretPath : option string; gcpProjectId : option string
}.
Definition no_options : SecretLoaderOptions :=
  {| provider := None; fallbackEnabled := None; awsRegion := None; vaultBaseUrl := None; vaultSecretPath := None; gcpProjectId := None |}.

Inductive loader := EnvLoader (a : adapter) | PlainLoader (p : primary) | FailoverLoader (f : failover).

(** [??] and a value that counts as one. *)
Definition setting (o : option string) (env : secrets_map) (name : string) : option string :=
  match o with Some v => Some v | None => map_get name env end.
Definition present (o : option string) : option string := match o with None | Some EmptyString => None | _ => o end.

Definition create_primary (o : SecretLoaderOptions) (env : secrets_map) (p : string) : result secret_error primary :=
  if String.eqb p "file" then
    match first_nonempty (map_get "SECRET_FILE_PATH" env) (vaultBaseUrl o) with
    | None | Some EmptyString => Err SecretLoadError
    | Some path => Ok (FileAdapter path fresh_adapter)
    end
  else if String.eqb p "aws" then
    match present (setting (awsRegion o) env "AWS_REGION") with None => Err SecretLoadError | Some _ => Ok (AwsSecretsAdapter fresh_adapter) end
  else if String.eqb p "vault" then
    match present (setting (vaultBaseUrl o) env "VAULT_BASE_URL"), present (setting (vaultSecretPath o) env "VAULT_SECRET_PATH") with
    | Some _, Some _ => Ok (VaultAdapter fresh_vault)
    | _, _ => Err SecretLoadError
    end
  else if String.eqb p "gsm" then
    match present (setting (gcpProjectId o) env "GCP_PROJECT_ID") with None => Err SecretLoadError | Some _ => Ok (GsmSecretAdapter fresh_adapter) end
  else Err SecretLoadError.

(** [Number] reads the lifetime of the cache; [file] is what the cache path
    holds. *)
Definition createSecretLoader (Number : string → double) (o : SecretLoaderOptions) (env : secrets_map) (file : cache_file) : result secret_error loader :=
  let p := default "env" (setting (provider o) env "SECRET_PROVIDER") in
  if String.eqb p "env" then Ok (EnvLoader fresh_adapter)
  else
    match create_primary o env p with
    | Err e => Err e
    | Ok primary =>
        if default true (fallbackEnabled o)
        then
          let ttl := match present (map_get "SECRET_CACHE_TTL_MINUTES" env) with Some t => Number t | None => of_Z (60 * 24) end in
          let ttl := match present (map_get "SECRET_CACHE_KMS_KEY_ID" env), present (map_get "SECRET_CACHE_PATH" env) with
                     | Some _, Some _ => Some ttl
                     | _, _ => None
                     end in
          Ok (FailoverLoader {| f_adapter := fresh_adapter; primaryAdapter := primary; fallbackAdapter := fresh_adapter; cache_ttl := ttl; cache := file |})
        else Ok (PlainLoader primary)
    end.

Definition loader_get (env : secrets_map) (l : loader) (key : string) : result secret_error string :=
  match l with EnvLoader _ => env_get env key | PlainLoader p => primary_get p key | FailoverLoader f => failover_get env f key end.

(** [reload] of any loader, with a primary in time. *)
Definition loader_reload (env : secrets_map) (w : answers) (io : cache_io) (now : Z) (l : loader) : result secret_error unit * loader :=
  match l with
  | EnvLoader a => (Ok tt, EnvLoader (env_reload env a))
  | PlainLoader p => let '(r, p) := primary_reload env w p in (r, PlainLoader p)
  | FailoverLoader f => (Ok tt, FailoverLoader (failover_reload env w io now f))
  end.

(** ** Steps *)

Inductive event :=
| Reload (w : answers) (io : cache_io) (now : Z)   (* the primary settles in time *)
| TimedOut (io : cache_io) (now : Z)               (* it does not *)
| Late (w : answers).                              (* and then it does *)

Definition step (env : secrets_map) (ev : event) (f : failover) : failover :=
  match ev with
  | Reload w io now => failover_reload env w io now f
  | TimedOut io now => fall_back env io now f
  | Late w => late_arrival env w f
  end.

Definition settles (ev : event) : bool := match ev with Late _ => false | _ => true end.

(** ** Normalised values *)

Definition good_map (m : secrets_map) : Prop := NoDup m.*1 ∧ Forall (λ kv, kv.2 ≠ EmptyString) m.

Lemma map_set_forall {V} (P : string * V → Prop) k v m : P (k, v) → Forall P m → Forall P (map_set k v m).
Proof.
  intros Hk. induction 1 as [|[j w] m Hj Hm IH]; cbn; [by constructor|]. destruct (String.eqb k j); by constructor.
Qed.

Lemma good_set k v m : v ≠ EmptyString → good_map m → good_map (map_set k v m).
Proof. intros Hv [Hn Hf]. split; [by apply map_set_nodup|by apply map_set_forall]. Qed.

Lemma usable_nonempty v s : usable v = Some s → s ≠ EmptyString.
Proof. destruct v as [|[]|n|[]| |]; cbn; try done; try (by intros [= <-]). intros [= <-]. apply show_number_nonempty. Qed.

Lemma good_nil : good_map [].
Proof. split; [constructor|constructor]. Qed.
#[local] Hint Resolve good_nil : core.

Lemma normalized_good values : good_map (normalizeSecretValues values).
Proof.
  unfold normalizeSecretValues. enough (∀ m, good_map m → good_map (fold_left (λ m kv, match usable kv.2 with Some v => map_set (normalizeSecretKey kv.1) v m | None => m end) values m)) by auto.
  induction values as [|[k v] values IH]; intros m Hm; [done|]. cbn. apply IH. destruct (usable v) eqn:E; [|done].
  apply good_set; [by eapply usable_nonempty|done].
Qed.

Lemma map_of_good entries : Forall (λ kv, kv.2 ≠ EmptyString) entries → good_map (map_of entries).
Proof.
  unfold map_of. intros He. enough (∀ m, good_map m → good_map (fold_left (λ m kv, map_set kv.1 kv.2 m) entries m)) by auto.
  induction He as [|[k v] entries Hv _ IH]; intros m Hm; [done|]. cbn. by apply IH, good_set.
Qed.

Lemma trimmed_value_nonempty s : is_empty (trim s) = false → s ≠ EmptyString.
Proof. by intros H ->. Qed.

Lemma env_reload_good env a : good_map (secrets (env_reload env a)).
Proof.
  apply map_of_good. apply Forall_forall. intros kv Hin. apply list_elem_of_fmap in Hin as ([k v] & -> & Hin).
  apply list_elem_of_In, filter_In in Hin as [_ Hv]. cbn in *. apply trimmed_value_nonempty. by apply negb_true_iff.
Qed.

Lemma vault_reload_good r v : good_map (secrets (v_adapter v)) → good_map (secrets (v_adapter (snd (vault_reload r v)))).
Proof.
  intros Hv. unfold vault_reload, fetchFromVault. destruct r as [|status [b|]]; cbn; try done; destruct (negb _); try done.
  destruct (resolveVaultPayload b); [|done]. destruct (resolveVaultLease b); cbn; apply normalized_good.
Qed.

Lemma primary_reload_good env w p :
  good_map (secrets (primary_adapter p)) → good_map (secrets (primary_adapter (snd (primary_reload env w p)))).
Proof.
  intros Hp. destruct p as [path a|v|a|a]; cbn.
  - unfold file_reload. destruct (first_nonempty _ _) as [q|]; [|done]. destruct (is_empty _); [done|]. destruct (read_file w q) as [raw|]; [|done].
    destruct (match trim raw with String "{" _ => _ | _ => _ end) as [parsed|]; [|done].
    pose proof (normalized_good parsed) as Hg. by destruct (normalizeSecretValues parsed).
  - pose proof (vault_reload_good (vault_says w) v Hp) as Hg. by destruct (vault_reload _ _).
  - destruct (cloud_says w) as [[[|c s]|]|]; cbn; try done. destruct (JSON_parse _) as [j|]; [|split; [apply NoDup_singleton|by constructor]].
    destruct (object_entries j); [apply normalized_good|done].
  - destruct (cloud_says w) as [[[|c s]|]|]; cbn; try done. split; [apply NoDup_singleton|by constructor].
Qed.

(** ** The invariant of the failover loader *)

Definition cache_good (c : cache_file) : Prop :=
  match c with Sealed b _ => ∀ l, (decrypt b ≫= read_record) = Some l → Forall (λ kv, kv.2 ≠ EmptyString) l | _ => True end.

Definition failover_inv (f : failover) : Prop :=
  Forall (λ kv, kv.2 ≠ EmptyString) (secrets (f_adapter f)) ∧ good_map (secrets (primary_adapter (primaryAdapter f))) ∧ cache_good (cache f).

Lemma saved_again m l : NoDup m.*1 → (decrypt (encrypt (show_record m)) ≫= read_record) = Some l → NoDup l.*1 ∧ ∀ k, map_get k l = map_get k m.
Proof.
  intros Hn H. rewrite decrypt_encrypt in H. cbn in H. destruct (read_show m Hn) as (l' & H' & Hnl & Hg). rewrite H' in H. by injection H as ->.
Qed.

Lemma cache_save_good ttl io now m c : good_map m → cache_good c → cache_good (cache_save ttl io now m c).
Proof.
  intros [Hn Hm] Hc. destruct io; cbn; try done. intros l Hl. destruct (saved_again m l Hn Hl) as [Hnl Hg].
  apply Forall_forall. intros [k v] Hin. apply (map_get_elem k v l Hnl) in Hin. rewrite Hg in Hin. apply map_get_Some in Hin.
  apply (proj1 (Forall_forall _ _) Hm _ Hin).
Qed.

Lemma fall_back_inv env io now f : failover_inv f → failover_inv (fall_back env io now f) ∧ loaded (f_adapter (fall_back env io now f)) = true.
Proof.
  intros (Hs & Hp & Hc). unfold fall_back. destruct (cache_ttl f ≫= _) as [cached|] eqn:E.
  - split; [|done]. split_and!; cbn; [|done|done]. destruct (cache_ttl f); [|done]. cbn in E. unfold cache_load in E.
    destruct (cache f) as [| |b e]; try done. destruct (_ <? _)%double; [done|]. destruct io; [|done..]. by apply Hc.
  - split; [|done]. split_and!; cbn; [exact (proj2 (env_reload_good env (fallbackAdapter f)))|done|done].
Qed.

Lemma failover_step_inv env ev f : failover_inv f → failover_inv (step env ev f).
Proof.
  intros Hi. pose proof Hi as (Hs & Hp & Hc). destruct ev as [w io now|io now|w]; cbn.
  - unfold failover_reload. pose proof (primary_reload_good env w _ Hp) as Hg. destruct (primary_reload env w (primaryAdapter f)) as [[[]|e] p]; cbn in Hg.
    + destruct (cache_ttl _) eqn:E; split_and!; cbn; try done; [apply Hg| |apply Hg]. by apply cache_save_good.
    + by apply fall_back_inv.
  - by apply fall_back_inv.
  - split_and!; [done|by apply primary_reload_good|done].
Qed.

Lemma settled_is_loaded env ev f : settles ev = true → loaded (f_adapter (step env ev f)) = true.
Proof.
  destruct ev as [w io now|io now|]; try done; intros _; cbn; unfold failover_reload, fall_back.
  - destruct (primary_reload _ _ _) as [[[]|e] p]; [by destruct (cache_ttl _)|]. by destruct (cache_ttl _ ≫= _).
  - by destruct (cache_ttl _ ≫= _).
Qed.

Lemma stays_loaded env ev f : loaded (f_adapter f) = true → loaded (f_adapter (step env ev f)) = true.
Proof. intros Hl. destruct (settles ev) eqn:E; [by apply settled_is_loaded|]. by destruct ev. Qed.

Definition run (env : secrets_map) (evs : list event) (f : failover) : failover := fold_left (λ f ev, step env ev f) evs f.

Lemma failover_run_inv env evs f : failover_inv f → failover_inv (run env evs f).
Proof. revert f. induction evs as [|ev evs IH]; intros f Hf; [done|]. by apply IH, failover_step_inv. Qed.

Lemma run_loaded env evs f : loaded (f_adapter f) = true ∨ existsb settles evs = true → loaded (f_adapter (run env evs f)) = true.
Proof.
  revert f. induction evs as [|ev evs IH]; intros f; cbn; [by intros [H|H]|]. intros H. apply IH.
  destruct (settles ev) eqn:E; [left; by apply settled_is_loaded|]. destruct H as [H|H]; [left; by apply stays_loaded|by right].
Qed.

Lemma toSecretValue_cases v k : (∃ s, toSecretValue v k = Ok s ∧ s ≠ EmptyString) ∨ toSecretValue v k = Err (SecretNotFoundError k).
Proof. destruct v as [[]|]; cbn; [by right|left; by eexists|by right]. Qed.

(** Whatever the primary, the disk and the clock do, once a reload has
    settled, in time or not, the failover loader answers every key with a
    secret that is not empty or with the error that names that key: it never
    fails to reload, is never again unloaded, and no failure of the primary
    shows. *)
Theorem failover_loader_answers env evs f key :
  failover_inv f → existsb settles evs = true →
  (∃ v, failover_get env (run env evs f) key = Ok v ∧ v ≠ EmptyString) ∨
  failover_get env (run env evs f) key = Err (SecretNotFoundError key).
Proof.
  intros Hi He. pose proof (failover_run_inv env evs f Hi) as (Hs & _). pose proof (run_loaded env evs f (or_intror He)) as Hl.
  unfold failover_get, ensureLoaded. rewrite Hl. destruct (map_get _ _) as [v|] eqn:E.
  - left. exists v. split; [done|]. apply map_get_Some in E. apply (proj1 (Forall_forall _ _) Hs _ E).
  - unfold env_get. destruct (toSecretValue_cases (map_get (normalizeSecretKey key) env) (normalizeSecretKey key)) as [(s & -> & Hn)| ->]; [left; by exists s|by right].
Qed.

(** ** Outages *)

Lemma reload_ok_spec env w ttl io now f :
  cache_ttl f = Some ttl → fst (primary_reload env w (primaryAdapter f)) = Ok tt →
  let f' := failover_reload env w io now f in
  let m := secrets (primary_adapter (snd (primary_reload env w (primaryAdapter f)))) in
  f_adapter f' = {| loaded := true; secrets := m |} ∧ cache f' = cache_save ttl io now m (cache f) ∧ cache_ttl f' = Some ttl.
Proof.
  intros Ht Hr f' m. unfold f', m, failover_reload. destruct (primary_reload env w (primaryAdapter f)) as [[[]|e] p]; [|done]. cbn. by rewrite Ht.
Qed.

Lemma fall_back_cached env io now f ttl l :
  cache_ttl f = Some ttl → cache_load io now (cache f) = Some l → f_adapter (fall_back env io now f) = {| loaded := true; secrets := l |}.
Proof. intros Ht Hl. unfold fall_back. by rewrite Ht; cbn; rewrite Hl. Qed.

Definition fails (env : secrets_map) (ev : event) (f : failover) : Prop :=
  match ev with
  | Reload w _ _ => ∃ e, fst (primary_reload env w (primaryAdapter f)) = Err e
  | TimedOut _ _ => True
  | Late _ => False
  end.

Lemma failing_step env ev io now f :
  fails env ev f → (ev = TimedOut io now ∨ ∃ w, ev = Reload w io now) →
  ∃ p, step env ev f = fall_back env io now (with_primary p f).
Proof.
  intros Hf [->|[w ->]]; cbn.
  - exists (primaryAdapter f). by destruct f.
  - cbn in Hf. destruct Hf as [e He]. unfold failover_reload. destruct (primary_reload env w (primaryAdapter f)) as [r p]. cbn in He. subst r. by exists p.
Qed.

(** Until the disk cache expires, an outage of the primary does not show:
    when a reload has succeeded and been saved, and the next one fails or times
    out, every key has the answer it had. *)
Theorem outage_served_from_cache env w ttl now f ev now' key :
  cache_ttl f = Some ttl → good_map (secrets (primary_adapter (primaryAdapter f))) →
  fst (primary_reload env w (primaryAdapter f)) = Ok tt →
  (default zero (expiry ttl now) <? of_Z now')%double = false →
  let f' := failover_reload env w Works now f in
  fails env ev f' → (ev = TimedOut Works now' ∨ ∃ w', ev = Reload w' Works now') →
  failover_get env (step env ev f') key = failover_get env f' key.
Proof.
  intros Ht Hg Hr He f' Hf Hev. destruct (reload_ok_spec env w ttl Works now f Ht Hr) as (Ha & Hc & Ht'). fold f' in Ha, Hc, Ht'.
  pose proof (primary_reload_good env w _ Hg) as [Hn _].
  destruct (failing_step env ev Works now' f' Hf Hev) as [p ->].
  set (m := secrets (primary_adapter (snd (primary_reload env w (primaryAdapter f))))) in *.
  assert (∃ l, cache_load Works now' (cache (with_primary p f')) = Some l ∧ ∀ k, map_get k l = map_get k m) as (l & Hl & Hlm).
  { cbn [cache with_primary]. rewrite Hc. cbn. rewrite He, decrypt_encrypt. cbn. destruct (read_show m Hn) as (l & H & _ & Hlm). by exists l. }
  unfold failover_get. rewrite (fall_back_cached env Works now' (with_primary p f') ttl l Ht' Hl), Ha. cbn. by rewrite Hlm.
Qed.

(** What is left when no secret is loaded. *)
Definition env_only (env : secrets_map) (key : string) : result secret_error string :=
  match env_get env key with Err (SecretNotFoundError _) => toSecretValue None key | r => r end.

Definition is_cloud (p : primary) : bool := match p with AwsSecretsAdapter _ | GsmSecretAdapter _ => true | _ => false end.

Lemma cloud_outage env w p : is_cloud p = true → cloud_says w = None →
  fst (primary_reload env w p) = Ok tt ∧ secrets (primary_adapter (snd (primary_reload env w p))) = [].
Proof. intros Hp Hw. destruct p; try done; cbn; by rewrite Hw. Qed.

(** The cloud adapters report an outage as a success with no secrets: the
    loader then has nothing but the environment, and the cache it would have
    fallen back on is overwritten with the empty map, so that a timeout within
    its lifetime finds nothing either. *)
Theorem cloud_outage_wipes_cache env w ttl now f now' key :
  cache_ttl f = Some ttl → is_cloud (primaryAdapter f) = true → cloud_says w = None →
  (default zero (expiry ttl now) <? of_Z now')%double = false →
  let f' := failover_reload env w Works now f in
  failover_get env f' key = env_only env key ∧ failover_get env (step env (TimedOut Works now') f') key = env_only env key.
Proof.
  intros Ht Hp Hw He f'. destruct (cloud_outage env w _ Hp Hw) as [Hr Hm].
  destruct (reload_ok_spec env w ttl Works now f Ht Hr) as (Ha & Hc & Ht'). fold f' in Ha, Hc, Ht'. rewrite Hm in Ha, Hc.
  assert (∀ g, loaded (f_adapter g) = true → (∀ k, map_get k (secrets (f_adapter g)) = None) → failover_get env g key = env_only env key) as Hget.
  { intros g Hl Hg. unfold failover_get, ensureLoaded. by rewrite Hl, Hg. }
  split; [apply Hget; by rewrite Ha|]. destruct (read_show [] (NoDup_nil_2)) as (l & Hl & _ & Hk). cbn [step].
  rewrite (Hget (fall_back env Works now' f')); [done| |]; rewrite (fall_back_cached env Works now' f' ttl l Ht'); try done.
  all: rewrite Hc; cbn; by rewrite He, decrypt_encrypt.
Qed.

(** ** Leases *)

(** A lease is fatal: when Vault's answer carries one, the reload fails
    after it has read the secrets, and the failover loader goes on as if Vault
    had not answered. *)
Theorem leased_secrets_not_served env w status body l v f io now key :
  vault_says w = Response status (Some body) → is_ok status = true → resolveVaultLease body = Some l → primaryAdapter f = VaultAdapter v →
  fst (primary_reload env w (primaryAdapter f)) = Err ReferenceError ∧
  failover_get env (failover_reload env w io now f) key =
  failover_get env (failover_reload env {| read_file := read_file w; vault_says := NoResponse; cloud_says := cloud_says w |} io now f) key.
Proof.
  intros Hw Hs Hl Hp. unfold failover_reload. rewrite Hp. cbn [primary_reload]. rewrite Hw. cbn [vault_says]. unfold vault_reload. cbn [fetchFromVault].
  rewrite Hs. cbn [negb]. destruct body as [| | | | |fields]; try done.
  assert (∃ payload, resolveVaultPayload (JObj fields) = Some payload) as [payload ->] by (cbn; repeat case_match; by eexists).
  rewrite Hl. cbn [fst]. split; [done|]. unfold fall_back. cbn [cache_ttl cache with_primary]. by destruct (cache_ttl f ≫= _).
Qed.

Inductive vault_event := VReload (r : response) | VRenew (r : response) | VStop.
Definition vault_step (v : vault) (ev : vault_event) : vault :=
  match ev with VReload r => snd (vault_reload r v) | VRenew r => snd (renew r v) | VStop => cancelScheduledRenewal v end.

(** No renewal of a lease is ever scheduled, whatever Vault answers. *)
Theorem lease_never_scheduled evs : renewalTimer (fold_left vault_step evs fresh_vault) = None.
Proof.
  enough (∀ v, renewalTimer v = None → renewalTimer (fold_left vault_step evs v) = None) by auto.
  induction evs as [|ev evs IH]; intros v Hv; [done|]. apply IH. destruct ev as [r|r|]; [| |done]; cbn.
  - unfold vault_reload. destruct (fetchFromVault r) as [[s [l|]]|e]; done.
  - unfold renew. destruct (lease v); [|done]. destruct r as [|status [[]|]]; cbn; try done; by destruct (_ || _).
Qed.

(** ** Without a failover *)

(** The cloud adapters answer a key they do not have with the first secret
    they do have. *)
Theorem unknown_key_gets_first_secret a key k v m :
  loaded a = true → secrets a = (k, v) :: m → v ≠ EmptyString → map_get (normalizeSecretKey key) (secrets a) = None →
  cloud_get a key = Ok v.
Proof. intros Hl Hs Hv Hk. unfold cloud_get, ensureLoaded. rewrite Hl, Hk, Hs. by destruct v. Qed.

Lemma create_primary_fresh o env name p : create_primary o env name = Ok p → loaded (primary_adapter p) = false.
Proof. unfold create_primary. repeat case_match; by intros [= <-]. Qed.

Lemma unloaded_loader_refuses Number o env file l key :
  createSecretLoader Number o env file = Ok l →
  loader_get env l key = if String.eqb (default "env" (setting (provider o) env "SECRET_PROVIDER")) "env" then env_get env key else Err SecretNotLoadedError.
Proof.
  unfold createSecretLoader. destruct (String.eqb _ "env"); [by intros [= <-]|].
  destruct (create_primary _ _ _) as [p|e] eqn:E; [|done]. apply create_primary_fresh in E.
  destruct (default true _); intros [= <-]; [done|]. destruct p; cbn in *; unfold adapter_get, vault_get, cloud_get, ensureLoaded; by rewrite E.
Qed.
End Parsing.
End Loader.

(** ** Concrete loaders: numbers are printed as their sign, the cipher is the
    identity, and texts are written in bits. *)

#[local] Program Instance sign_text : NumberText := {| show_number n := if Doubles.sign n then "-" else "+" |}.
Next Obligation. intros n. cbn. case_match; discriminate. Qed.

#[local] Program Instance plain_cipher : DiskCipher := {| box := string; encrypt s := s; decrypt s := Some s |}.
Next Obligation. done. Qed.

#[local] Program Instance bits_record : RecordText := {| show_record m := Businesses.show_bits (encode m); read_record s := Businesses.read_bits s ≫= decode |}.
Next Obligation. intros m Hn. exists m. rewrite Businesses.read_show_bits. cbn. by rewrite countable.decode_encode. Qed.

Definition parse_secret (s : string) : option json :=
  match s with String "{" _ => Some (JObj [("KEY", JStr s)]) | _ => None end.
Definition no_dotenv (s : string) : list (string * string) := [].

Definition hour : Z := 3600000.
Definition failing_over (p : primary) : failover :=
  {| f_adapter := fresh_adapter; primaryAdapter := p; fallbackAdapter := fresh_adapter; cache_ttl := Some (of_Z 1440); cache := NoFile |}.
Definition heard (file : option string) (r : response) (c : option (option string)) : answers :=
  {| read_file := λ _, file; vault_says := r; cloud_says := c |}.
Definition kv_secret : response := Response 200 (Some (JObj [("data", JObj [("KEY", JStr "s3cret")])])).
Definition leased_secret : response :=
  Response 200 (Some (JObj [("lease_id", JStr "l"); ("lease_duration", JNum (of_Z 60)); ("renewable", JBool true); ("data", JObj [("KEY", JStr "s3cret")])])).

(** The second version of Vault's key-value store nests the secrets one level
    deeper; the loader finds none there and does not notice. *)
Example nested_data_is_empty :
  snd (vault_reload (Response 200 (Some (JObj [("data", JObj [("data", JObj [("KEY", JStr "s3cret")]); ("metadata", JObj [])])]))) fresh_vault) =
  {| v_adapter := {| loaded := true; secrets := [] |}; lease := None; renewalTimer := None |}.
Proof. reflexivity. Qed.

Lemma failover_loader_answers_witness :
  failover_get [] (run parse_secret no_dotenv [] [TimedOut Works 5; Late (heard None kv_secret None)] (failing_over (VaultAdapter fresh_vault))) "KEY"
  = Err (SecretNotFoundError "KEY").
Proof.
  destruct (failover_loader_answers parse_secret no_dotenv [] [TimedOut Works 5; Late (heard None kv_secret None)]
    (failing_over (VaultAdapter fresh_vault)) "KEY") as [(v & Hv & _)|H]; [|reflexivity| |exact H].
  - split_and!; [constructor|split; constructor|exact I].
  - vm_compute in Hv. discriminate Hv.
Defined.

Lemma outage_served_from_cache_witness :
  let f' := failover_reload parse_secret no_dotenv [] (heard None kv_secret None) Works hour (failing_over (VaultAdapter fresh_vault)) in
  failover_get [] (step parse_secret no_dotenv [] (Reload (heard None NoResponse None) Works (2 * hour)) f') "KEY" = Ok "s3cret".
Proof.
  intros f'. unfold f'.
  rewrite (outage_served_from_cache parse_secret no_dotenv [] (heard None kv_secret None) (of_Z 1440) hour (failing_over (VaultAdapter fresh_vault))
    (Reload (heard None NoResponse None) Works (2 * hour)) (2 * hour) "KEY").
  - vm_compute. reflexivity.
  - reflexivity.
  - split; constructor.
  - reflexivity.
  - vm_compute. reflexivity.
  - eexists. reflexivity.
  - right. eexists. reflexivity.
Defined.

Lemma cloud_outage_wipes_cache_witness :
  let f := failover_reload parse_secret no_dotenv [] (heard None NoResponse (Some (Some "{}"))) Works hour (failing_over (AwsSecretsAdapter fresh_adapter)) in
  let f' := failover_reload parse_secret no_dotenv [] (heard None NoResponse None) Works (2 * hour) f in
  failover_get [] f "KEY" = Ok "{}" ∧ failover_get [] (step parse_secret no_dotenv [] (TimedOut Works (3 * hour)) f') "KEY" = Err (SecretNotFoundError "KEY").
Proof.
  intros f f'. split; [vm_compute; reflexivity|].
  exact (proj2 (cloud_outage_wipes_cache parse_secret no_dotenv [] (heard None NoResponse None) (of_Z 1440) (2 * hour) f (3 * hour) "KEY"
    eq_refl eq_refl eq_refl ltac:(vm_compute; reflexivity))).
Defined.

Lemma leased_secrets_not_served_witness :
  failover_get [] (failover_reload parse_secret no_dotenv [] (heard None leased_secret None) Works hour (failing_over (VaultAdapter fresh_vault))) "KEY"
  = Err (SecretNotFoundError "KEY").
Proof.
  etransitivity.
  - eapply (proj2 (leased_secrets_not_served parse_secret no_dotenv [] (heard None leased_secret None) 200 _ _ fresh_vault
      (failing_over (VaultAdapter fresh_vault)) Works hour "KEY" eq_refl eq_refl ltac:(vm_compute; reflexivity) eq_refl)).
  - vm_compute. reflexivity.
Defined.

Lemma unknown_key_gets_first_secret_witness :
  cloud_get {| loaded := true; secrets := [("DB_PASSWORD", "hunter2")] |} "JWT_SECRET" = Ok "hunter2".
Proof.
  apply (unknown_key_gets_first_secret {| loaded := true; secrets := [("DB_PASSWORD", "hunter2")] |} "JWT_SECRET" "DB_PASSWORD" "hunter2" []);
    [reflexivity|reflexivity|discriminate|reflexivity].
Defined.
