(* ===== verification/EgressIps.v ===== *)
(** * The manifest of egress addresses:
    [src/services/webhooks/egressIpAllowList.ts].

    HMAC and the dates' texts are arguments.  The loader of the signing key is
    the one of [SecretLoader]. *)

From Stdlib Require Import Sorting.Sorted.
From stdpp Require Import sorting.
From S2P Require Import Prelude Numeric Hashing JsString Words Collections AuditChain.
Import Words.JsonText.
From S2P Require SecretLoader Migrations WebhookSubscriptions.
#[local] Open Scope Z_scope.

Definition WEBHOOK_EGRESS_IPS : list string := ["203.0.113.10"; "203.0.113.11"; "203.0.113.12"].
Definition MANIFEST_VERSION : Z := 1.

Record EgressIpManifest := { version : Z; ips : list string; signedAt : string }.
Record SignedEgressIpManifest := { manifest : EgressIpManifest; signature : string }.

(** [sort()] without a comparison. *)
Definition sorted_texts (l : list string) : list string := js_sort Migrations.code_order l.

Definition canonicaliseManifest (m : EgressIpManifest) : string :=
  json_object [("ips", json_array (map json_string (sorted_texts (ips m)))); ("signedAt", json_string (signedAt m)); ("version", show_Z (version m))].

Section Manifest.
Context (hmac : string → string → string).

Definition computeManifestSignature (data signingKey : string) : string := hmac signingKey data.

Definition verifyManifestSignature (signed : SignedEgressIpManifest) (signingKey : string) : bool :=
  let expected := computeManifestSignature (canonicaliseManifest (manifest signed)) signingKey in
  match timingSafeEqual (buffer_from_hex expected) (buffer_from_hex (signature signed)) with Ok b => b | Err _ => false end.

Definition DEV_KEY : string := "dev-insecure-signing-key-do-not-use-in-production".

Section Signing.
Context {numbers : SecretLoader.NumberText} {cipher : SecretLoader.DiskCipher} {record : SecretLoader.RecordText}
  (Number : string → Doubles.double) (toISOString : Z → string).

(** The key of a fresh loader, then of the environment, then the fixed one. *)
Definition signing_key (env : list (string * string)) (l : SecretLoader.loader) : string :=
  match SecretLoader.loader_get env l "WEBHOOK_EGRESS_SIGNING_KEY" with
  | Ok k => k
  | Err _ => match SecretLoader.present (map_get "WEBHOOK_EGRESS_SIGNING_KEY" env) with Some k => k | None => DEV_KEY end
  end.

Definition getSignedManifest (env : list (string * string)) (file : SecretLoader.cache_file) (now : Z)
  : result SecretLoader.secret_error SignedEgressIpManifest :=
  match SecretLoader.createSecretLoader Number SecretLoader.no_options env file with
  | Err e => Err e
  | Ok l =>
      let m := {| version := MANIFEST_VERSION; ips := sorted_texts WEBHOOK_EGRESS_IPS; signedAt := toISOString now |} in
      Ok {| manifest := m; signature := computeManifestSignature (canonicaliseManifest m) (signing_key env l) |}
  end.
End Signing.

(** ** The canonical text *)

Definition code_le (a b : string) : Prop := a = b ∨ str_lt a b = true.

Lemma code_le_antisymm a b : code_le a b → code_le b a → a = b.
Proof.
  intros [->|Hab] [Hba|Hba]; try done. pose proof (str_lt_trans a b a Hab Hba) as H. by rewrite str_lt_irrefl in H.
Qed.

Lemma insert_code_sorted x l : StronglySorted code_le l → StronglySorted code_le (sort_insert Migrations.code_order x l).
Proof.
  induction 1 as [|y l Hs IH Hf]; [by repeat constructor|]. cbn. destruct (Z.leb_spec (Migrations.code_order y x) 0) as [Hle|Hgt].
  - constructor; [done|]. rewrite (sort_insert_perm Migrations.code_order x l). constructor; [|done].
    destruct (decide (y = x)) as [->|Hne]; [by left|right]. by apply Migrations.code_order_neg.
  - apply Migrations.code_order_pos in Hgt. constructor; [by constructor|]. constructor; [by right|].
    eapply Forall_impl; [exact Hf|]. intros z [<-|Hz]; right; [done|by eapply str_lt_trans].
Qed.

Lemma sorted_texts_sorted l : StronglySorted code_le (sorted_texts l).
Proof.
  unfold sorted_texts, js_sort. enough (∀ acc, StronglySorted code_le acc → StronglySorted code_le (fold_left (λ acc x, sort_insert Migrations.code_order x acc) l acc)) as H
    by (apply H; constructor).
  induction l as [|x l IH]; intros acc Hs; [done|]. cbn. by apply IH, insert_code_sorted.
Qed.

Lemma sorted_texts_eq l l' : sorted_texts l = sorted_texts l' ↔ l ≡ₚ l'.
Proof.
  split.
  - intros H. rewrite <- (js_sort_perm Migrations.code_order l), <- (js_sort_perm Migrations.code_order l'). by unfold sorted_texts in H; rewrite H.
  - intros H. apply (StronglySorted_unique_strong code_le); [|apply sorted_texts_sorted..|].
    + intros a b. intros. by apply code_le_antisymm.
    + unfold sorted_texts. by rewrite !js_sort_perm.
Qed.

Definition plain_version (m : EgressIpManifest) : Prop := 0 ≤ version m < 10 ^ 20.

Lemma show_Z_inj n n' r r' : 0 ≤ n < 10 ^ 20 → 0 ≤ n' < 10 ^ 20 → show_Z n +:+ String "}" r = show_Z n' +:+ String "}" r' → n = n'.
Proof.
  intros Hn Hn' H. pose proof (parse_show n (String "}" r) Hn eq_refl) as Hp. rewrite H, (parse_show n' _ Hn') in Hp; [|done]. by injection Hp.
Qed.

Lemma canonical_inj m m' : plain_version m → plain_version m' → canonicaliseManifest m = canonicaliseManifest m' ↔
  version m = version m' ∧ signedAt m = signedAt m' ∧ ips m ≡ₚ ips m'.
Proof.
  intros Hv Hv'. rewrite <- sorted_texts_eq. split; [|by unfold canonicaliseManifest; intros (-> & -> & ->)].
  unfold canonicaliseManifest, json_object. cbn [map join]. unfold json_member. cbn [fst snd]. rewrite <- !string_app_assoc. intros H.
  apply string_app_cancel in H. apply json_string_inj in H as [_ H]. unfold json_array in H. rewrite <- !string_app_assoc in H.
  do 2 apply string_app_cancel in H. apply json_strings_inj in H as [Hips H]. apply string_app_cancel in H. apply json_string_inj in H as [_ H].
  apply string_app_cancel in H. apply json_string_inj in H as [Hat H]. apply string_app_cancel in H. apply json_string_inj in H as [_ H].
  apply string_app_cancel in H. apply show_Z_inj in H; done.
Qed.

Lemma manifest_verify_spec signed key `{!HexDigest (hmac key)} :
  verifyManifestSignature signed key = true ↔
  buffer_from_hex (signature signed) = buffer_from_hex (computeManifestSignature (canonicaliseManifest (manifest signed)) key).
Proof.
  unfold verifyManifestSignature. split.
  - destruct (timingSafeEqual _ _) as [b|] eqn:E; [intros ->|done]. by apply timingSafeEqual_true in E.
  - intros ->. by rewrite timingSafeEqual_refl.
Qed.

(** A signature stands for one manifest: two manifests that verify with it
    under one key have the same version, the same time and, up to their order,
    the same addresses, unless their canonical texts are a collision of the
    HMAC. *)
Theorem signature_binds_manifest key m m' sig `{!HexDigest (hmac key)} :
  plain_version m → plain_version m' →
  verifyManifestSignature {| manifest := m; signature := sig |} key = true →
  verifyManifestSignature {| manifest := m'; signature := sig |} key = true →
  (version m = version m' ∧ signedAt m = signedAt m' ∧ ips m ≡ₚ ips m') ∨
  (canonicaliseManifest m ≠ canonicaliseManifest m' ∧ hmac key (canonicaliseManifest m) = hmac key (canonicaliseManifest m')).
Proof.
  intros Hv Hv' H%manifest_verify_spec H'%manifest_verify_spec; [|done..]. cbn [signature manifest] in *. rewrite H in H'.
  unfold computeManifestSignature in H'. apply digest_buffer_inj in H'; [|apply digest_hex..].
  destruct (decide (canonicaliseManifest m = canonicaliseManifest m')) as [He|Hne]; [left; by apply canonical_inj|by right].
Qed.

(** ** The signing key *)

Section Key.
Context {numbers : SecretLoader.NumberText} {cipher : SecretLoader.DiskCipher} {record : SecretLoader.RecordText}
  (Number : string → Doubles.double) (toISOString : Z → string).

(** The loader made for the manifest is never loaded: with any provider
    but the environment, the secret it holds is not used.  The manifest is
    signed with the variable of that name or, where there is none, with the
    fixed key of the source. *)
Theorem manifest_ignores_secret_store env file now s :
  getSignedManifest Number toISOString env file now = Ok s →
  let key := default DEV_KEY (SecretLoader.present (map_get "WEBHOOK_EGRESS_SIGNING_KEY" env)) in
  signature s = computeManifestSignature (canonicaliseManifest (manifest s)) key ∧
  (HexDigest (hmac key) → verifyManifestSignature s key = true).
Proof.
  unfold getSignedManifest. destruct (SecretLoader.createSecretLoader _ _ _ _) as [l|] eqn:E; [|done]. intros [= <-]. cbn zeta.
  assert (signing_key env l = default DEV_KEY (SecretLoader.present (map_get "WEBHOOK_EGRESS_SIGNING_KEY" env))) as Hk.
  { unfold signing_key. rewrite (SecretLoader.unloaded_loader_refuses Number SecretLoader.no_options env file l _ E). destruct (String.eqb _ "env").
    - unfold SecretLoader.env_get. change (SecretLoader.normalizeSecretKey "WEBHOOK_EGRESS_SIGNING_KEY") with "WEBHOOK_EGRESS_SIGNING_KEY".
      by destruct (map_get "WEBHOOK_EGRESS_SIGNING_KEY" env) as [[]|].
    - by destruct (map_get "WEBHOOK_EGRESS_SIGNING_KEY" env) as [[]|]. }
  cbn [manifest signature]. rewrite Hk. split; [done|]. intros Hh. apply manifest_verify_spec; [done|]. cbn [manifest signature]. done.
Qed.
End Key.
End Manifest.

(** ** Concrete manifests *)

Definition keyed (key s : string) : string := toy_hash (key +:+ s).
#[local] Instance keyed_digest key : HexDigest (keyed key).
Proof. intros s. apply toy_hash_digest. Qed.

Definition first_manifest : EgressIpManifest := {| version := 1; ips := ["203.0.113.11"; "203.0.113.10"]; signedAt := "2026-01-01T00:00:00.000Z" |}.

(** The order of the addresses does not change the text. *)
Example canonical_text : canonicaliseManifest first_manifest =
  canonicaliseManifest {| version := 1; ips := ["203.0.113.10"; "203.0.113.11"]; signedAt := "2026-01-01T00:00:00.000Z" |}.
Proof. vm_compute. reflexivity. Qed.

(** Letters past the digest are not looked at, nor is the case of the digest. *)
Example signature_with_a_tail :
  verifyManifestSignature keyed {| manifest := first_manifest; signature := keyed "k" (canonicaliseManifest first_manifest) +:+ "zz" |} "k" = true.
Proof. vm_compute. reflexivity. Qed.

Lemma signature_binds_manifest_witness :
  let m' := {| version := 1; ips := rev (ips first_manifest); signedAt := signedAt first_manifest |} in
  let sig := keyed "k" (canonicaliseManifest first_manifest) in
  (version first_manifest = version m' ∧ signedAt first_manifest = signedAt m' ∧ ips first_manifest ≡ₚ ips m') ∨
  (canonicaliseManifest first_manifest ≠ canonicaliseManifest m' ∧
   keyed "k" (canonicaliseManifest first_manifest) = keyed "k" (canonicaliseManifest m')).
Proof.
  intros m' sig. apply (signature_binds_manifest keyed "k" first_manifest m' sig).
  - unfold plain_version. cbn. lia.
  - unfold plain_version. cbn. lia.
  - vm_compute. reflexivity.
  - vm_compute. reflexivity.
Defined.

#[local] Existing Instances SecretLoader.sign_text SecretLoader.plain_cipher SecretLoader.bits_record.
Definition vault_env : list (string * string) :=
  [("SECRET_PROVIDER", "vault"); ("VAULT_BASE_URL", "https://vault"); ("VAULT_SECRET_PATH", "secret")].

Lemma manifest_ignores_secret_store_witness :
  match getSignedManifest keyed (λ _, Doubles.of_Z 0) show_Z vault_env SecretLoader.NoFile 0 with
  | Ok s => verifyManifestSignature keyed s DEV_KEY = true
  | Err _ => False
  end.
Proof.
  pose proof (manifest_ignores_secret_store keyed (λ _, Doubles.of_Z 0) show_Z vault_env SecretLoader.NoFile 0) as H.
  destruct (getSignedManifest keyed (λ _, Doubles.of_Z 0) show_Z vault_env SecretLoader.NoFile 0) as [s|e] eqn:E.
  - exact (proj2 (H s eq_refl) _).
  - vm_compute in E. discriminate E.
Defined.
