(* ===== verification/AuditJobs.v ===== *)
(** * The jobs on the audit log: the anchor of the chain root
    ([src/jobs/auditAnchorJob.ts]) and the signed export
    ([src/jobs/auditSignedExport.ts]).

    HMAC, SHA-256, OpenPGP, the archive format and the text of a log record
    are arguments or interfaces. *)

From S2P Require Import Prelude Numeric Hashing JsString Words Collections AuditChain.
Import Words.JsonText.
From S2P Require SecretLoader Reminders.
Import Reminders(JobOutcome, itemsProcessed, success).
#[local] Open Scope Z_scope.

(** ** The anchor *)

Record AnchorRecord := { anchoredAt : string; anchoredRoot : option string; entryCount : Z; chainValid : bool }.

Section Anchor.
Context (hmac sha256 : string → string) (toISOString : Z → string).

(** Verification may throw, and then so does the anchor: its timer does not
    catch. *)
Definition anchorChainRoot (now : Z) (logs : list AuditLog) : result timing_error AnchorRecord :=
  match verifyChain hmac sha256 toISOString logs with
  | Err e => Err e
  | Ok v => Ok {| anchoredAt := toISOString now; anchoredRoot := chainRoot v; entryCount := checkedCount v; chainValid := valid v |}
  end.

Context `{!HexDigest hmac}.

Lemma linked_app prev l l' : linked hmac sha256 toISOString prev (l ++ l') → linked hmac sha256 toISOString prev l.
Proof. revert prev. induction l as [|e l IH]; intros prev; [done|]. cbn. intros [He Hl]. split; [done|by eapply IH]. Qed.

(** C4. An anchor pins the history before it.  Take the anchor of a written
    log, and any later list of entries, however it came about, that verifies
    whose hashes are all well-formed digests, and whose entry at the anchored
    count carries the anchored root: up to there the two agree entry by entry
    in their canonical texts and hashes (not in their fields, when a field
    holds the separator), or they exhibit a collision of the HMAC. *)
Theorem anchor_pins_history now ws record forged r :
  let logs := write_all hmac sha256 toISOString ws in
  let o := take (Z.to_nat (entryCount record)) (js_sort (λ a b, seq a - seq b) forged) in
  anchorChainRoot now logs = Ok record →
  Forall (λ e, is_digest_hex (chainHash e) = true) forged → verifyChain hmac sha256 toISOString forged = Ok r → valid r = true →
  Z.of_nat (length o) = entryCount record → chainHash <$> last o = anchoredRoot record →
  chainValid record = true ∧
  (collision hmac (chain_inputs sha256 toISOString GENESIS_SENTINEL logs) (chain_inputs sha256 toISOString GENESIS_SENTINEL o) ∨
   Forall2 (λ e e', canonicaliseEntry sha256 toISOString e = canonicaliseEntry sha256 toISOString e' ∧ chainHash e = chainHash e') logs o).
Proof.
  intros logs o Ha Hd Hv Hok Hlen Hroot. destruct (write_all_ok hmac sha256 toISOString ws) as (Hl & Hn & _). fold logs in Hl, Hn.
  unfold anchorChainRoot in Ha. rewrite (linked_verifies hmac sha256 toISOString logs Hl Hn) in Ha.
  injection Ha as <-. cbn [entryCount anchoredRoot chainValid chainRoot checkedCount valid] in *. split; [done|].
  destruct (verify_valid hmac sha256 toISOString forged r Hd Hv Hok) as (Hlo & _). apply linked_binding; [done..|lia|done| |].
  - rewrite <- (take_drop (Z.to_nat (Z.of_nat (length logs))) (js_sort _ forged)) in Hlo. by apply linked_app in Hlo.
  - unfold end_hash, getCurrentChainRoot in *. destruct (last o), (last logs); cbn in Hroot; congruence.
Qed.
End Anchor.

(** ** The export *)

Record AuditExportManifest := {
  exportVersion : Z; exportedAt : string; recordCount : Z; logsFileSha256 : string; signingKeyFingerprint : string
}.

(** [JSON.stringify(value, null, 2)] of an object. *)
Definition newline : string := String (ascii_of_nat 10) EmptyString.
Definition pretty_object (fields : list (string * string)) : string :=
  "{" +:+ newline +:+ join ("," +:+ newline) (map (λ kv, "  " +:+ json_string kv.1 +:+ ": " +:+ kv.2) fields) +:+ newline +:+ "}".

Definition manifest_text (m : AuditExportManifest) : string :=
  pretty_object [("exportVersion", show_Z (exportVersion m)); ("exportedAt", json_string (exportedAt m)); ("recordCount", show_Z (recordCount m));
                 ("logsFileSha256", json_string (logsFileSha256 m)); ("signingKeyFingerprint", json_string (signingKeyFingerprint m))].

(** OpenPGP: reading and unlocking keys, signing, and the verdicts on each
    signature of a text. *)
Class OpenPgp := {
  PrivateKey : Type; PublicKey : Type; readPrivateKey : string → option PrivateKey; decryptKey : PrivateKey → string → option PrivateKey;
  getFingerprint : PrivateKey → string; public : PrivateKey → PublicKey; pgp_sign : PrivateKey → string → option string;
  pgp_verdicts : PublicKey → string → string → option (list bool);
  sign_verifies k text sig : pgp_sign k text = Some sig → pgp_verdicts (public k) text sig = Some [true]
}.
Class Archive := { archive : Type; pack : list (string * string) → option archive; unpack : archive → option (list (string * string));
                   unpack_pack files a : pack files = Some a → unpack a = Some files }.
Class LogText := { log_text : AuditLog → string; log_text_line e : lacks (ascii_of_nat 10) (log_text e) = true }.

Inductive export_error := NotConfigured | KeyUnreadable | NotPacked | NotSigned | LoaderFailed (e : SecretLoader.secret_error).

Section SignedExport.
Context {pgp : OpenPgp} {tar : Archive} {text : LogText} {numbers : SecretLoader.NumberText} {cipher : SecretLoader.DiskCipher}
  {record : SecretLoader.RecordText} (sha256Hex : string → string) (toISOString : Z → string) (Number : string → Doubles.double).

Definition serialiseLogsAsNdjson (logs : list AuditLog) : string := join newline (map log_text logs).

(** What [loader.get] and the environment give for a name. *)
Definition secret_or_env (env : list (string * string)) (l : SecretLoader.loader) (name : string) : option string :=
  match SecretLoader.loader_get env l name with Ok v => Some v | Err _ => map_get name env end.

Definition loadSigningKey (env : list (string * string)) (file : SecretLoader.cache_file) : result export_error PrivateKey :=
  match SecretLoader.createSecretLoader Number SecretLoader.no_options env file with
  | Err e => Err (LoaderFailed e)
  | Ok l =>
      match SecretLoader.present (secret_or_env env l "AUDIT_EXPORT_PGP_PRIVATE_KEY") with
      | None => Err NotConfigured
      | Some armored =>
          match readPrivateKey armored with
          | None => Err KeyUnreadable
          | Some k => match SecretLoader.present (secret_or_env env l "AUDIT_EXPORT_PGP_PASSPHRASE") with
                      | None => Ok k
                      | Some p => match decryptKey k p with None => Err KeyUnreadable | Some k => Ok k end
                      end
          end
      end
  end.

Definition verifyExportSignature (t sig : string) (k : PublicKey) : bool :=
  match pgp_verdicts k t sig with Some (b :: _) => b | _ => false end.

Record AuditExportResult := { tarballBuffer : archive; manifestSignature : string; manifest : AuditExportManifest; r_recordCount : Z }.

Definition generateSignedAuditExport (env : list (string * string)) (file : SecretLoader.cache_file) (now : Z) (auditLogs : list AuditLog)
  : result export_error AuditExportResult :=
  let logs := getAllAuditLogs auditLogs in
  let ndjson := serialiseLogsAsNdjson logs in
  match loadSigningKey env file with
  | Err e => Err e
  | Ok k =>
      let m := {| exportVersion := 1; exportedAt := toISOString now; recordCount := Z.of_nat (length logs);
                  logsFileSha256 := sha256Hex ndjson; signingKeyFingerprint := getFingerprint k |} in
      let manifestJson := manifest_text m in
      match pack [("audit-logs.json", ndjson); ("manifest.json", manifestJson)] with
      | None => Err NotPacked
      | Some tarball =>
          match pgp_sign k manifestJson with
          | None => Err NotSigned
          | Some sig => Ok {| tarballBuffer := tarball; manifestSignature := sig; manifest := m; r_recordCount := Z.of_nat (length logs) |}
          end
      end
  end.

Definition auditSignedExportJob (env : list (string * string)) (file : SecretLoader.cache_file) (now : Z) (auditLogs : list AuditLog) : JobOutcome :=
  match generateSignedAuditExport env file now auditLogs with
  | Ok r => {| itemsProcessed := r_recordCount r; success := true |}
  | Err _ => {| itemsProcessed := 0; success := false |}
  end.

(** ** Properties *)

Lemma getAllAuditLogs_perm logs : getAllAuditLogs logs ≡ₚ logs.
Proof. apply js_sort_perm. Qed.

(** An export carries its own proof: its archive holds exactly the log and
    the manifest, the signature verifies over the manifest in the archive, the
    manifest has the digest of the log file beside it, and the lines of that
    file are the texts of all entries, as many as the manifest counts. *)
Theorem export_is_consistent env file now auditLogs r k :
  generateSignedAuditExport env file now auditLogs = Ok r → loadSigningKey env file = Ok k →
  ∃ nd, unpack (tarballBuffer r) = Some [("audit-logs.json", nd); ("manifest.json", manifest_text (manifest r))] ∧
    verifyExportSignature (manifest_text (manifest r)) (manifestSignature r) (public k) = true ∧
    logsFileSha256 (manifest r) = sha256Hex nd ∧ recordCount (manifest r) = Z.of_nat (length auditLogs) ∧
    (auditLogs ≠ [] → split_on (ascii_of_nat 10) nd ≡ₚ map log_text auditLogs).
Proof.
  unfold generateSignedAuditExport. intros H Hk. rewrite Hk in H. destruct (pack _) as [a|] eqn:Ea; [|done].
  destruct (pgp_sign _ _) as [sig|] eqn:Es; [|done]. injection H as <-. cbn [tarballBuffer manifestSignature manifest].
  eexists. split_and!; [by apply unpack_pack| |done| |].
  - unfold verifyExportSignature. by rewrite (sign_verifies _ _ _ Es).
  - cbn. f_equal. apply Permutation_length, getAllAuditLogs_perm.
  - intros Hne. unfold serialiseLogsAsNdjson, newline. rewrite split_on_join.
    + apply Permutation_map, getAllAuditLogs_perm.
    + intros Hm. apply map_eq_nil in Hm. apply Hne, Permutation_nil. rewrite <- Hm. apply getAllAuditLogs_perm.
    + apply Forall_forall. intros s Hs. apply list_elem_of_fmap in Hs as (e & -> & _). apply log_text_line.
Qed.

Lemma secret_is_env env file l name :
  SecretLoader.createSecretLoader Number SecretLoader.no_options env file = Ok l → SecretLoader.normalizeSecretKey name = name →
  SecretLoader.present (secret_or_env env l name) = SecretLoader.present (map_get name env).
Proof.
  intros Hl Hn. unfold secret_or_env. rewrite (SecretLoader.unloaded_loader_refuses Number SecretLoader.no_options env file l name Hl).
  destruct (String.eqb _ "env"); [|done]. unfold SecretLoader.env_get. rewrite Hn. by destruct (map_get name env) as [[]|].
Qed.

(** The key of the export comes from the environment alone: with the key
    in the secret store only, every run of the job fails and exports
    nothing. *)
Theorem export_needs_environment env file now auditLogs :
  SecretLoader.present (map_get "AUDIT_EXPORT_PGP_PRIVATE_KEY" env) = None →
  auditSignedExportJob env file now auditLogs = {| itemsProcessed := 0; success := false |}.
Proof.
  intros He. unfold auditSignedExportJob, generateSignedAuditExport, loadSigningKey.
  destruct (SecretLoader.createSecretLoader _ _ _ _) as [l|] eqn:El; [|done].
  by rewrite (secret_is_env env file l _ El), He.
Qed.
End SignedExport.

(** ** Concrete anchors and exports *)

Definition anchored_log : list AuditLog := write_all toy_hash toy_hash show_Z [sample_write "01" 5; sample_write "02" 5].

(** A hash that is not hexadecimal makes the anchor throw. *)
Example anchor_throws :
  let broken e := with_hash "broken" e in
  match anchorChainRoot toy_hash toy_hash show_Z 9 (map broken anchored_log) with Err _ => True | Ok _ => False end.
Proof. vm_compute. exact I. Qed.

(** Of a chain that breaks at its first entry the anchor counts no entry. *)
Example broken_chain_counts_none :
  let broken e := with_hash GENESIS_SENTINEL e in
  match anchorChainRoot toy_hash toy_hash show_Z 9 (map broken anchored_log) with Ok r => entryCount r = 0 ∧ chainValid r = false | Err _ => False end.
Proof. vm_compute. done. Qed.

Lemma anchor_pins_history_witness :
  let later := write_all toy_hash toy_hash show_Z [sample_write "01" 5; sample_write "02" 5; sample_write "03" 6] in
  let o := take 2 (js_sort (λ a b, seq a - seq b) later) in
  collision toy_hash (chain_inputs toy_hash show_Z GENESIS_SENTINEL anchored_log) (chain_inputs toy_hash show_Z GENESIS_SENTINEL o) ∨
  Forall2 (λ e e', canonicaliseEntry toy_hash show_Z e = canonicaliseEntry toy_hash show_Z e' ∧ chainHash e = chainHash e') anchored_log o.
Proof.
  intros later o.
  refine (proj2 (anchor_pins_history toy_hash toy_hash show_Z 9 [sample_write "01" 5; sample_write "02" 5]
    {| anchoredAt := show_Z 9; anchoredRoot := getCurrentChainRoot anchored_log; entryCount := 2; chainValid := true |} later
    {| valid := true; checkedCount := 3; brokenAtIndex := None; brokenAtId := None; chainRoot := getCurrentChainRoot later |} _ _ _ _ _ _)).
  - vm_compute. reflexivity.
  - apply (bool_decide_unpack _). vm_compute. exact I.
  - vm_compute. reflexivity.
  - reflexivity.
  - vm_compute. reflexivity.
  - vm_compute. reflexivity.
Defined.

(** A signer whose signature is the signed text. *)
#[local] Program Instance copying_pgp : OpenPgp :=
  {| PrivateKey := string; PublicKey := string; readPrivateKey := Some; decryptKey k p := Some k; getFingerprint k := k; public k := k;
     pgp_sign k t := Some (k +:+ t); pgp_verdicts k t sig := Some [String.eqb (k +:+ t) sig] |}.
Next Obligation. intros k t sig [= <-]. cbn. by rewrite String.eqb_refl. Qed.
#[local] Program Instance listing_archive : Archive := {| archive := list (string * string); pack := Some; unpack := Some |}.
Next Obligation. by intros files a [= ->]. Qed.
#[local] Program Instance hash_text : LogText := {| log_text e := "{}" |}.
Next Obligation. done. Qed.
#[local] Existing Instances SecretLoader.sign_text SecretLoader.plain_cipher SecretLoader.bits_record.

Lemma export_is_consistent_witness :
  match generateSignedAuditExport toy_hash show_Z (λ _, Doubles.of_Z 0) [("AUDIT_EXPORT_PGP_PRIVATE_KEY", "key")] SecretLoader.NoFile 9 anchored_log with
  | Ok r => recordCount (manifest r) = 2 ∧ verifyExportSignature (manifest_text (manifest r)) (manifestSignature r) "key" = true
  | Err _ => False
  end.
Proof.
  pose proof (export_is_consistent toy_hash show_Z (λ _, Doubles.of_Z 0) [("AUDIT_EXPORT_PGP_PRIVATE_KEY", "key")] SecretLoader.NoFile 9 anchored_log) as H.
  destruct (generateSignedAuditExport toy_hash show_Z (λ _, Doubles.of_Z 0) [("AUDIT_EXPORT_PGP_PRIVATE_KEY", "key")] SecretLoader.NoFile 9 anchored_log)
    as [r|e] eqn:E.
  - destruct (H r "key" eq_refl eq_refl) as (nd & _ & Hs & _ & Hc & _). exact (conj Hc Hs).
  - vm_compute in E. discriminate E.
Defined.

Lemma export_needs_environment_witness :
  auditSignedExportJob toy_hash show_Z (λ _, Doubles.of_Z 0)
    [("SECRET_PROVIDER", "vault"); ("VAULT_BASE_URL", "https://vault"); ("VAULT_SECRET_PATH", "secret")] SecretLoader.NoFile 9 anchored_log
  = {| itemsProcessed := 0; success := false |}.
Proof. exact (export_needs_environment toy_hash show_Z (λ _, Doubles.of_Z 0)
    [("SECRET_PROVIDER", "vault"); ("VAULT_BASE_URL", "https://vault"); ("VAULT_SECRET_PATH", "secret")] SecretLoader.NoFile 9 anchored_log eq_refl). Defined.
