(* ===== verification/AdaptiveBatch.v ===== *)
(** * The controller of the batch size: [src/services/soroban/adaptiveBatchSize.ts].

    Sizes, fees and settings are binary64.  The fee statistics are the answer
    of the RPC server; [Number] and [parseInt] are arguments. *)

From S2P Require Import Prelude Doubles Numeric Hashing JsString Collections.
#[local] Open Scope Z_scope.

Record AdaptiveBatchConfig := {
  minBatchSize : double; maxBatchSize : double; ewmaAlpha : double; feeSpikeMultiplier : double; sensitivity : double;
  volatilityDampening : double; sampleIntervalMs : double
}.

Definition DEFAULT_ADAPTIVE_BATCH_CONFIG : AdaptiveBatchConfig :=
  {| minBatchSize := of_Z 1; maxBatchSize := of_Z 100; ewmaAlpha := literal 3 10; feeSpikeMultiplier := of_Z 2;
     sensitivity := literal 5 10; volatilityDampening := literal 5 10; sampleIntervalMs := of_Z 60000 |}.

(** ** Settings *)

Section Settings.
Context (Number : string → double) (env : list (string * string)).

Definition parsePositiveIntEnv (name : string) (fallback : double) : double :=
  match map_get name env with
  | None => fallback
  | Some raw => match parse_int (trim raw) with Some v => if v <=? 0 then fallback else of_Z v | None => fallback end
  end.

Definition parseDecimalEnv (name : string) (fallback min max : double) : double :=
  match map_get name env with
  | None => fallback
  | Some raw =>
      let v := Number raw in
      if negb (isFinite v) || (v <? min)%double || (max <? v)%double then fallback else v
  end.

(** The overrides of a caller replace fields. *)
Definition getAdaptiveBatchConfig (overrides : AdaptiveBatchConfig → AdaptiveBatchConfig) : AdaptiveBatchConfig :=
  let d := DEFAULT_ADAPTIVE_BATCH_CONFIG in
  overrides
    {| minBatchSize := parsePositiveIntEnv "SOROBAN_ADAPTIVE_BATCH_MIN_SIZE" (minBatchSize d);
       maxBatchSize := parsePositiveIntEnv "SOROBAN_ADAPTIVE_BATCH_MAX_SIZE" (maxBatchSize d);
       ewmaAlpha := parseDecimalEnv "SOROBAN_ADAPTIVE_BATCH_EWMA_ALPHA" (ewmaAlpha d) (literal 1 100) (of_Z 1);
       feeSpikeMultiplier := parseDecimalEnv "SOROBAN_ADAPTIVE_BATCH_SPIKE_MULTIPLIER" (feeSpikeMultiplier d) (of_Z 1) (of_Z 10);
       sensitivity := parseDecimalEnv "SOROBAN_ADAPTIVE_BATCH_SENSITIVITY" (sensitivity d) (literal 1 100) (of_Z 2);
       volatilityDampening := parseDecimalEnv "SOROBAN_ADAPTIVE_BATCH_VOLATILITY_DAMPENING" (volatilityDampening d) zero (of_Z 1);
       sampleIntervalMs := parsePositiveIntEnv "SOROBAN_ADAPTIVE_BATCH_SAMPLE_INTERVAL_MS" (sampleIntervalMs d) |}.
End Settings.

(** ** Samples *)

Record FeeSample := { fee : double; volatility : double }.

(** From the percentiles the server reports, as numbers. *)
Definition sampleSorobanFeeStats (p10 p50 p90 : double) : FeeSample :=
  {| fee := p50;
     volatility := if (zero <? p50)%double && (zero <? p90)%double && (zero <=? p10)%double then ((p90 - p10) / p50)%double else zero |}.

(** ** The controller *)

Record AdaptiveBatchSizeController := {
  ewmaFee : option double; currentBatchSize : double; lastSampleTime : Z; config : AdaptiveBatchConfig; feeSampleCount : Z
}.

Definition new_controller (c : AdaptiveBatchConfig) : AdaptiveBatchSizeController :=
  {| ewmaFee := None; currentBatchSize := maxBatchSize c; lastSampleTime := 0; config := c; feeSampleCount := 0 |}.

Definition reset (s : AdaptiveBatchSizeController) : AdaptiveBatchSizeController := new_controller (config s).

Definition observed (f : double) (s : AdaptiveBatchSizeController) : AdaptiveBatchSizeController :=
  {| ewmaFee := Some match ewmaFee s with
                     | None => f
                     | Some e => (ewmaAlpha (config s) * f + (of_Z 1 - ewmaAlpha (config s)) * e)%double
                     end;
     currentBatchSize := currentBatchSize s; lastSampleTime := lastSampleTime s; config := config s; feeSampleCount := feeSampleCount s + 1 |}.

Definition resized (size : double) (s : AdaptiveBatchSizeController) : AdaptiveBatchSizeController :=
  {| ewmaFee := ewmaFee s; currentBatchSize := size; lastSampleTime := lastSampleTime s; config := config s; feeSampleCount := feeSampleCount s |}.

(** The fee against the average before it. *)
Definition ratio_of (f : double) (s : AdaptiveBatchSizeController) : double := (f / default f (ewmaFee s))%double.

Definition scaled_size (c : AdaptiveBatchConfig) (size ratio vol : double) : double :=
  let rawScale := (of_Z 1 + (of_Z 1 - ratio) * sensitivity c)%double in
  let dampening := (of_Z 1 - volatilityDampening c * Math_min vol (of_Z 1))%double in
  let adjustedScale := (of_Z 1 + (rawScale - of_Z 1) * dampening)%double in
  Math_round (size * adjustedScale)%double.

Definition valid_fee (f : double) : bool := isFinite f && negb (f <=? zero)%double.

Definition tune (f vol : double) (s : AdaptiveBatchSizeController) : AdaptiveBatchSizeController :=
  if negb (valid_fee f) then s
  else
    let ratio := ratio_of f s in
    let s' := observed f s in
    let c := config s in
    if (feeSpikeMultiplier c <? ratio)%double then resized (minBatchSize c) s'
    else resized (Math_max (minBatchSize c) (Math_min (maxBatchSize c) (scaled_size c (currentBatchSize s) ratio vol))) s'.

Definition at_time (now : Z) (s : AdaptiveBatchSizeController) : AdaptiveBatchSizeController :=
  {| ewmaFee := ewmaFee s; currentBatchSize := currentBatchSize s; lastSampleTime := now; config := config s; feeSampleCount := feeSampleCount s |}.

Definition throttled (now : Z) (s : AdaptiveBatchSizeController) : bool :=
  (of_Z (now - lastSampleTime s) <? sampleIntervalMs (config s))%double.

(** [stats] is [None] when the server does not answer, which is thrown. *)
Definition sampleAndTune (now : Z) (stats : option FeeSample) (s : AdaptiveBatchSizeController) : option bool * AdaptiveBatchSizeController :=
  if throttled now s then (Some false, s)
  else match stats with
       | None => (None, s)
       | Some x => (Some true, tune (fee x) (volatility x) (at_time now s))
       end.

(** ** Properties *)

Inductive op := Tune (f vol : double) | Sample (now : Z) (stats : option FeeSample) | ResetAll.
Definition apply_op (s : AdaptiveBatchSizeController) (o : op) : AdaptiveBatchSizeController :=
  match o with Tune f vol => tune f vol s | Sample now stats => snd (sampleAndTune now stats s) | ResetAll => reset s end.

Definition in_bounds (c : AdaptiveBatchConfig) (size : double) : Prop :=
  (minBatchSize c <=? size)%double = true ∧ (size <=? maxBatchSize c)%double = true.

Lemma tune_config f vol s : config (tune f vol s) = config s.
Proof. unfold tune. destruct (negb _); [done|]. by destruct (_ <? _)%double. Qed.

(** The size after a sample. *)
Lemma tune_size f vol s : (minBatchSize (config s) <=? maxBatchSize (config s))%double = true →
  let size := currentBatchSize (tune f vol s) in
  (valid_fee f = false ∧ size = currentBatchSize s) ∨ in_bounds (config s) size ∨
  (is_nan (scaled_size (config s) (currentBatchSize s) (ratio_of f s) vol) = true ∧ is_nan size = true).
Proof.
  intros Hlh size. unfold size, tune. destruct (valid_fee f); [|by left]. right. cbn [negb]. destruct (le_nan _ _ Hlh) as [Hlo Hhi].
  destruct (_ <? ratio_of f s)%double; cbn [currentBatchSize resized].
  - left. split; [by apply le_refl|done].
  - set (x := scaled_size _ _ _ _). destruct (is_nan x) eqn:E; [right|left; by apply clamp_bounds].
    split; [done|]. by rewrite max_nan, min_nan, E, !orb_true_r.
Qed.

(** With a minimum that is not above the maximum, the batch size is
    between them after every sequence of samples and resets, as long as no
    scaled size came out as not a number; then it is not a number either. *)
Theorem batch_size_in_bounds c ops :
  (minBatchSize c <=? maxBatchSize c)%double = true →
  let s := fold_left apply_op ops (new_controller c) in
  config s = c ∧ (in_bounds c (currentBatchSize s) ∨ is_nan (currentBatchSize s) = true).
Proof.
  intros Hlh. cbn zeta. enough (∀ s, config s = c → in_bounds c (currentBatchSize s) ∨ is_nan (currentBatchSize s) = true →
    config (fold_left apply_op ops s) = c ∧
    (in_bounds c (currentBatchSize (fold_left apply_op ops s)) ∨ is_nan (currentBatchSize (fold_left apply_op ops s)) = true)) as H.
  { apply H; [done|]. left. split; [done|]. apply le_refl. by apply le_nan in Hlh as []. }
  assert (∀ s f vol, config s = c → in_bounds c (currentBatchSize s) ∨ is_nan (currentBatchSize s) = true →
    in_bounds c (currentBatchSize (tune f vol s)) ∨ is_nan (currentBatchSize (tune f vol s)) = true) as Htune.
  { intros s f vol Hc Hs. destruct (tune_size f vol s) as [[_ ->]|[H|[_ H]]]; rewrite ?Hc in *; auto. }
  induction ops as [|o ops IH]; intros s Hc Hs; [done|]. cbn [fold_left]. apply IH.
  - destruct o as [f vol|now stats|]; cbn; [by rewrite tune_config| |done]. unfold sampleAndTune. destruct (throttled _ _); [done|].
    destruct stats; [by cbn; rewrite tune_config|done].
  - destruct o as [f vol|now stats|]; cbn [apply_op]; [by apply Htune| |].
    + unfold sampleAndTune. destruct (throttled _ _); [done|]. destruct stats; [by apply Htune|done].
    + left. cbn. rewrite Hc. split; [done|]. apply le_refl. by apply le_nan in Hlh as [].
Qed.

(** A fee above the spike multiple of the average of the fees before it
    puts the size at the minimum at once; an invalid fee changes nothing. *)
Theorem spike_drops_to_minimum f vol s :
  (valid_fee f = true → (feeSpikeMultiplier (config s) <? ratio_of f s)%double = true → currentBatchSize (tune f vol s) = minBatchSize (config s)) ∧
  (valid_fee f = false → tune f vol s = s).
Proof.
  unfold tune. split.
  - intros -> Hr. cbn. by rewrite Hr.
  - by intros ->.
Qed.

(** The times at which a sequence of calls samples. *)
Fixpoint samples (calls : list (Z * option FeeSample)) (s : AdaptiveBatchSizeController) : list Z :=
  match calls with
  | [] => []
  | (now, stats) :: calls =>
      let '(r, s) := sampleAndTune now stats s in
      match r with Some true => now :: samples calls s | _ => samples calls s end
  end.

Fixpoint spaced (interval : double) (last : Z) (l : list Z) : Prop :=
  match l with [] => True | t :: l => (of_Z (t - last) <? interval)%double = false ∧ spaced interval t l end.

Lemma tune_time f vol s : lastSampleTime (tune f vol s) = lastSampleTime s.
Proof. unfold tune. destruct (negb _); [done|]. by destruct (_ <? _)%double. Qed.

(** Calls made one after the other sample no more often than the interval
    allows, whatever the server answers. *)
Theorem samples_are_spaced calls s : spaced (sampleIntervalMs (config s)) (lastSampleTime s) (samples calls s).
Proof.
  revert s. induction calls as [|[now stats] calls IH]; intros s; [exact I|]. cbn. unfold sampleAndTune.
  destruct (throttled now s) eqn:E; [apply IH|]. destruct stats as [x|]; [|apply IH]. split; [exact E|].
  pose proof (IH (tune (fee x) (volatility x) (at_time now s))) as H. by rewrite tune_config, tune_time in H.
Qed.

(** ** Concrete controllers *)

Definition after (fees : list Z) (s : AdaptiveBatchSizeController) : AdaptiveBatchSizeController :=
  fold_left (λ s f, tune (of_Z f) zero s) fees s.
Definition default_controller : AdaptiveBatchSizeController := new_controller DEFAULT_ADAPTIVE_BATCH_CONFIG.

(** One spike, and the size never recovers: from one, half the sensitivity is
    always rounded away. *)
Example stuck_after_a_spike :
  currentBatchSize (after [100; 300] default_controller) = of_Z 1 ∧
  currentBatchSize (after ([100; 300] ++ repeat 100 40) default_controller) = of_Z 1 ∧
  currentBatchSize (after ([100; 300] ++ repeat 1 40) default_controller) = of_Z 1.
Proof. vm_compute. done. Qed.

(** A minimum above the maximum wins. *)
Example minimum_above_maximum :
  let c := {| minBatchSize := of_Z 50; maxBatchSize := of_Z 10; ewmaAlpha := literal 3 10; feeSpikeMultiplier := of_Z 2;
              sensitivity := literal 5 10; volatilityDampening := literal 5 10; sampleIntervalMs := of_Z 60000 |} in
  currentBatchSize (after [100] (new_controller c)) = of_Z 50.
Proof. vm_compute. reflexivity. Qed.

Lemma batch_size_in_bounds_witness :
  (minBatchSize DEFAULT_ADAPTIVE_BATCH_CONFIG <=? maxBatchSize DEFAULT_ADAPTIVE_BATCH_CONFIG)%double = true ∧
  config (fold_left apply_op [Tune (of_Z 100) zero; ResetAll] default_controller) = DEFAULT_ADAPTIVE_BATCH_CONFIG.
Proof.
  split; [vm_compute; reflexivity|].
  exact (proj1 (batch_size_in_bounds DEFAULT_ADAPTIVE_BATCH_CONFIG [Tune (of_Z 100) zero; ResetAll] ltac:(vm_compute; reflexivity))).
Defined.

Lemma spike_drops_to_minimum_witness :
  currentBatchSize (tune (of_Z 300) zero (after [100] default_controller)) = of_Z 1.
Proof.
  exact (proj1 (spike_drops_to_minimum (of_Z 300) zero (after [100] default_controller)) ltac:(vm_compute; reflexivity) ltac:(vm_compute; reflexivity)).
Defined.
