(* ===== verification/Jwks.v ===== *)
(** * The keys of access tokens: [src/utils/jwks.ts].

    Key objects, their import and export, hashing and the text of JSON are
    arguments or interfaces; the secret loader's answers are inputs.  Names of
    fields are not array indices. *)

From Stdlib Require Import Sorting.Sorted.
From stdpp Require Import sorting.
From S2P Require Import Prelude Numeric Hashing JsString Words Collections AuditChain.
From S2P Require Import SecretLoader.
From S2P Require Migrations WebhookSubscriptions BusinessInput.
#[local] Open Scope Z_scope.

Abbreviation fields := (list (string * json)).

Inductive algorithm := RS256 | EdDSA.
Definition alg_name (a : algorithm) : string := match a with RS256 => "RS256" | EdDSA => "EdDSA" end.
Definition alg_of (s : string) : option algorithm :=
  if String.eqb s "RS256" then Some RS256 else if String.eqb s "EdDSA" then Some EdDSA else None.

Inductive jwks_error :=
| SecretFailed (e : secret_error) | UnsupportedJwk | NotAnArray | NotAnObject | MissingKid | UnsupportedPrivateKey | UnsupportedAlgorithm | KeyRefused.

(** ** Canonical values *)

Fixpoint normalizeJwkValue (value : json) : json :=
  match value with
  | JArr l => JArr (map normalizeJwkValue l)
  | JObj fs => JObj (js_sort (λ a b, Migrations.code_order a.1 b.1) (map (λ kv, (kv.1, normalizeJwkValue kv.2)) fs))
  | _ => value
  end.

(** [toString] of a value, as far as it can be a name. *)
Fixpoint name_text (v : json) : option string :=
  match v with JStr s => Some s | JArr [x] => name_text x | _ => None end.

(** [a ?? b] of a field. *)
Definition nullish (f : option json) : option json := match f with Some JNull => None | _ => f end.

Class KeyObjects := {
  PublicKey : Type; PrivateKey : Type;
  importJwk : fields → option PublicKey; exportJwk : PublicKey → fields;
  privateJwk : fields → option PrivateKey; privatePem : string → option PrivateKey;
  createPublicKey : PrivateKey → PublicKey; is_ed25519 : PrivateKey → bool;
  generateKeyPair : Z → algorithm → PrivateKey; (* a draw *)
  import_export k fs : (∀ name v, map_get name (exportJwk k) = Some v → map_get name fs = Some v) → importJwk fs = Some k;
  export_private k : map_get "use" (exportJwk k) = None ∧ map_get "alg" (exportJwk k) = None ∧ map_get "kid" (exportJwk k) = None
}.

Section Jwks.
Context {keys : KeyObjects} (hash : string → string) (stringify : json → string) (JSON_parse : string → option json).

Definition computeKid (jwk : fields) : string := hash (stringify (normalizeJwkValue (JObj jwk))).

Definition parseJsonSecret (secret : string) : json := default (JStr secret) (JSON_parse secret).

Definition determineAlgorithmFromJwk (jwk : fields) : result jwks_error algorithm :=
  match (nullish (map_get "alg" jwk) ≫= name_text) ≫= alg_of with
  | Some a => Ok a
  | None =>
      match map_get "kty" jwk, map_get "crv" jwk with
      | Some (JStr "RSA"), _ => Ok RS256
      | Some (JStr "OKP"), Some (JStr "Ed25519") => Ok EdDSA
      | _, _ => Err UnsupportedJwk
      end
  end.

Definition usable_kid (f : option json) : bool := match f with Some (JStr k) => negb (is_empty (trim k)) | _ => false end.

Definition normalizeJwk (jwk : fields) : result jwks_error fields :=
  match (match nullish (map_get "alg" jwk) with
         | Some a => Ok a
         | None => match determineAlgorithmFromJwk jwk with Ok a => Ok (JStr (alg_name a)) | Err e => Err e end
         end) with
  | Err e => Err e
  | Ok alg =>
      let normalized := map_set "alg" alg (map_set "use" (default (JStr "sig") (nullish (map_get "use" jwk))) jwk) in
      Ok (if usable_kid (map_get "kid" normalized) then normalized else map_set "kid" (JStr (computeKid normalized)) normalized)
  end.

Fixpoint normalize_entries (l : list json) : result jwks_error (list fields) :=
  match l with
  | [] => Ok []
  | JObj entry :: l =>
      match normalizeJwk entry with
      | Err e => Err e
      | Ok jwk =>
          match map_get "kid" jwk with
          | None | Some (JStr EmptyString) => Err MissingKid
          | _ => match normalize_entries l with Err e => Err e | Ok r => Ok (jwk :: r) end
          end
      end
  | _ :: _ => Err NotAnObject
  end.

Definition parseJwksFromSecret (value : string) : result jwks_error (list fields) :=
  match parseJsonSecret value with JArr l => normalize_entries l | _ => Err NotAnArray end.

(** ** The signing key *)

Definition or_refused {A} (o : option A) : result jwks_error A := match o with Some x => Ok x | None => Err KeyRefused end.

Definition parsePrivateKeySecret (raw : json) : result jwks_error PrivateKey :=
  match raw with
  | JObj fs => match map_get "kty" fs with Some _ => or_refused (privateJwk fs) | None => Err UnsupportedPrivateKey end
  | JStr s =>
      match parseJsonSecret s with
      | JObj fs => match map_get "kty" fs with Some _ => or_refused (privateJwk fs) | None => or_refused (privatePem s) end
      | _ => or_refused (privatePem s)
      end
  | _ => Err UnsupportedPrivateKey
  end.

Definition trimmed_kid (f : option string) : option string := present (trim <$> f).

Definition exportPublicJwk (publicKey : PublicKey) (alg : algorithm) (kid : option string) : result jwks_error fields :=
  let jwk := exportJwk publicKey in
  let own := match map_get "kid" jwk with Some (JStr k) => trimmed_kid (Some k) | _ => None end in
  let k := match trimmed_kid kid with Some k => k | None => match own with Some k => k | None => computeKid jwk end end in
  normalizeJwk (map_set "kid" (JStr k) (map_set "alg" (JStr (alg_name alg)) (map_set "use" (JStr "sig") jwk))).

Record KeyBundle := { kid : string; alg : algorithm; publicJwk : fields; publicKey : PublicKey; privateKey : option PrivateKey }.

Definition kid_of (jwk : fields) : string := match map_get "kid" jwk with Some (JStr k) => k | _ => EmptyString end.

(** What the secret loader answers. *)
Definition optional_secret (r : result secret_error string) : result jwks_error (option string) :=
  match r with Ok v => Ok (Some v) | Err (SecretNotFoundError _) => Ok None | Err e => Err (SecretFailed e) end.

Record secret_answers := { JWT_PRIVATE_KEY : result secret_error string; JWT_PRIVATE_KEY_KID : result secret_error string; JWT_PUBLIC_JWKS : result secret_error string }.

(** [env_alg] is [JWT_SIGNING_ALGORITHM]. *)
Definition createKeyBundleFromPrivateKey (env_alg : option string) (kid_secret : result secret_error string) (secret : string) : result jwks_error KeyBundle :=
  match parsePrivateKeySecret (parseJsonSecret secret) with
  | Err e => Err e
  | Ok k =>
      match (match env_alg with Some a => alg_of (BusinessInput.to_upper a) | None => Some (if is_ed25519 k then EdDSA else RS256) end) with
      | None => Err UnsupportedAlgorithm
      | Some algorithm =>
          match optional_secret kid_secret with
          | Err e => Err e
          | Ok kidFromSecret =>
              match exportPublicJwk (createPublicKey k) algorithm kidFromSecret with
              | Err e => Err e
              | Ok jwk => Ok {| kid := kid_of jwk; alg := algorithm; publicJwk := jwk; publicKey := createPublicKey k; privateKey := Some k |}
              end
          end
      end
  end.

Definition generateFallbackSigningKey (env_alg : option string) (draw : Z) : result jwks_error KeyBundle :=
  let a := match env_alg with
           | Some a => match alg_of (BusinessInput.to_upper a) with Some RS256 => RS256 | _ => EdDSA end
           | None => RS256
           end in
  let k := generateKeyPair draw a in
  match exportPublicJwk (createPublicKey k) a None with
  | Err e => Err e
  | Ok jwk => Ok {| kid := kid_of jwk; alg := a; publicJwk := jwk; publicKey := createPublicKey k; privateKey := Some k |}
  end.

Definition convertKeyBundle (jwk : fields) : result jwks_error KeyBundle :=
  match determineAlgorithmFromJwk jwk with
  | Err e => Err e
  | Ok a =>
      match importJwk jwk with
      | None => Err KeyRefused
      | Some k => match normalizeJwk jwk with
                  | Err e => Err e
                  | Ok n => Ok {| kid := kid_of jwk; alg := a; publicJwk := n; publicKey := k; privateKey := None |}
                  end
      end
  end.

(** ** The manager *)

Record RetiredKeyBundle := { bundle : KeyBundle; retireAt : Z }.

Record JwksManager := {
  activeKeys : list (string * KeyBundle); retiredKeys : list (string * RetiredKeyBundle); signingKey : option KeyBundle;
  cacheExpiresAt : Z; cacheTtlSeconds : Z; graceWindowSeconds : Z
}.
Definition new_manager : JwksManager :=
  {| activeKeys := []; retiredKeys := []; signingKey := None; cacheExpiresAt := 0; cacheTtlSeconds := 300; graceWindowSeconds := 300 |}.

Definition buildSigningKey (env_alg : option string) (s : secret_answers) : result jwks_error (option KeyBundle) :=
  match optional_secret (JWT_PRIVATE_KEY s) with
  | Err e => Err e
  | Ok None => Ok None
  | Ok (Some raw) =>
      match createKeyBundleFromPrivateKey env_alg (JWT_PRIVATE_KEY_KID s) raw with Err e => Err e | Ok b => Ok (Some b) end
  end.

Fixpoint set_bundles (l : list fields) (m : list (string * KeyBundle)) : result jwks_error (list (string * KeyBundle)) :=
  match l with
  | [] => Ok m
  | jwk :: l =>
      match normalizeJwk jwk with
      | Err e => Err e
      | Ok n => match convertKeyBundle n with Err e => Err e | Ok b => set_bundles l (map_set (kid b) b m) end
      end
  end.

Definition has_kid (k : string) (jwk : fields) : bool := match map_get "kid" jwk with Some (JStr j) => String.eqb j k | _ => false end.

Definition published (current : option KeyBundle) (publicJwks : list fields) : list fields :=
  match current with
  | Some b => if existsb (has_kid (kid b)) publicJwks then publicJwks else publicJwks ++ [publicJwk b]
  | None => publicJwks
  end.

Definition buildActiveKeyMap (env_alg : option string) (draw : Z) (s : secret_answers) (current : option KeyBundle)
  : result jwks_error (list (string * KeyBundle)) :=
  match (match optional_secret (JWT_PUBLIC_JWKS s) with
         | Err e => Err e
         | Ok None => Ok []
         | Ok (Some raw) => parseJwksFromSecret raw
         end) with
  | Err e => Err e
  | Ok fromSecret =>
      let publicJwks := published current fromSecret in
      match publicJwks, current with
      | [], None => match generateFallbackSigningKey env_alg draw with Err e => Err e | Ok b => set_bundles [publicJwk b] [] end
      | _, _ => set_bundles publicJwks []
      end
  end.

Definition parsePositiveInt (value : option string) (fallback : Z) : Z :=
  match present value with
  | None => fallback
  | Some v => match parse_int v with Some n => if 0 <? n then n else fallback | None => fallback end
  end.

(** Keys that are gone are retired, and those retired long enough dropped. *)
Definition retire (now grace : Z) (next : list (string * KeyBundle)) (m : list (string * KeyBundle)) (retired : list (string * RetiredKeyBundle))
  : list (string * RetiredKeyBundle) :=
  List.filter (λ kr, negb (retireAt kr.2 <=? now))
    (fold_left (λ r kb, match map_get kb.1 next with
                        | Some _ => r
                        | None => map_set kb.1 {| bundle := kb.2; retireAt := now + grace * 1000 |} r
                        end) m retired).

Record reload_input := {
  ri_now : Z; ri_ttl : option string; ri_grace : option string; ri_alg : option string; ri_draw : Z; ri_secrets : secret_answers
}.

Definition reload (i : reload_input) (m : JwksManager) : result jwks_error unit * JwksManager :=
  let ttl := parsePositiveInt (ri_ttl i) 300 in
  let grace := parsePositiveInt (ri_grace i) 300 in
  let configured :=
    {| activeKeys := activeKeys m; retiredKeys := retiredKeys m; signingKey := signingKey m; cacheExpiresAt := cacheExpiresAt m;
       cacheTtlSeconds := ttl; graceWindowSeconds := grace |} in
  match buildSigningKey (ri_alg i) (ri_secrets i) with
  | Err e => (Err e, configured)
  | Ok signing =>
      match buildActiveKeyMap (ri_alg i) (ri_draw i) (ri_secrets i) signing with
      | Err e => (Err e, configured)
      | Ok next =>
          (Ok tt, {| activeKeys := next; retiredKeys := retire (ri_now i) grace next (activeKeys m) (retiredKeys m); signingKey := signing;
                     cacheExpiresAt := ri_now i + ttl * 1000; cacheTtlSeconds := ttl; graceWindowSeconds := grace |})
      end
  end.

Definition ensureLoaded (i : reload_input) (m : JwksManager) : result jwks_error unit * JwksManager :=
  if (cacheExpiresAt m <=? ri_now i) || (length (activeKeys m) =? 0)%nat then reload i m else (Ok tt, m).

Definition getJwksResponse (m : JwksManager) : list fields := map (λ kb, publicJwk kb.2) (activeKeys m).

Definition getVerificationKey (now : Z) (k : string) (m : JwksManager) : option KeyBundle * JwksManager :=
  match map_get k (activeKeys m) with
  | Some b => (Some b, m)
  | None =>
      match map_get k (retiredKeys m) with
      | Some r =>
          if now <? retireAt r then (Some (bundle r), m)
          else (None, {| activeKeys := activeKeys m; retiredKeys := map_delete k (retiredKeys m); signingKey := signingKey m;
                         cacheExpiresAt := cacheExpiresAt m; cacheTtlSeconds := cacheTtlSeconds m; graceWindowSeconds := graceWindowSeconds m |})
      | None => (None, m)
      end
  end.

(** ** Fields *)

Lemma normalize_fields jwk n : normalizeJwk jwk = Ok n →
  (∀ name, name ≠ "use" → name ≠ "alg" → name ≠ "kid" → map_get name n = map_get name jwk) ∧
  (∀ a, nullish (map_get "alg" jwk) = Some a → map_get "alg" n = Some a) ∧
  (usable_kid (map_get "kid" jwk) = true → map_get "kid" n = map_get "kid" jwk).
Proof.
  unfold normalizeJwk. destruct (match nullish (map_get "alg" jwk) with Some a => _ | None => _ end) as [alg|] eqn:Ea; [|done].
  set (normalized := map_set "alg" alg _). intros [= <-].
  assert (∀ name, name ≠ "use" → name ≠ "alg" → map_get name normalized = map_get name jwk) as Hn.
  { intros name Hu Ha. unfold normalized. rewrite !map_get_set. by rewrite (proj2 (String.eqb_neq _ _) Ha), (proj2 (String.eqb_neq _ _) Hu). }
  assert (map_get "alg" normalized = Some alg) as Halg by (unfold normalized; by rewrite map_get_set).
  split_and!.
  - intros name Hu Ha Hk. destruct (usable_kid _); [by apply Hn|]. rewrite map_get_set, (proj2 (String.eqb_neq _ _) Hk). by apply Hn.
  - intros a Hnull. rewrite Hnull in Ea. injection Ea as <-. by destruct (usable_kid _); [|rewrite map_get_set].
  - intros Hk. rewrite (Hn "kid") by done. rewrite Hk. by apply Hn.
Qed.

Lemma alg_of_name a : alg_of (alg_name a) = Some a.
Proof. by destruct a. Qed.

Lemma convert_kid jwk b : convertKeyBundle jwk = Ok b → kid b = kid_of jwk.
Proof.
  unfold convertKeyBundle. destruct (determineAlgorithmFromJwk jwk), (importJwk jwk), (normalizeJwk jwk); try done. by intros [= <-].
Qed.

Definition well_keyed (m : list (string * KeyBundle)) : Prop := NoDup m.*1 ∧ Forall (λ kb, kid kb.2 = kb.1) m.

Lemma set_bundles_wk l m m' : set_bundles l m = Ok m' → well_keyed m → well_keyed m'.
Proof.
  revert m. induction l as [|jwk l IH]; intros m; cbn; [by intros [= ->]|]. destruct (normalizeJwk jwk) as [n|]; [|done].
  destruct (convertKeyBundle n) as [b|]; [|done]. intros H [Hn Hf]. apply (IH _ H). split; [by apply map_set_nodup|by apply map_set_forall].
Qed.

Lemma set_bundles_get l m m' : set_bundles l m = Ok m' →
  (∀ k, is_Some (map_get k m) → is_Some (map_get k m')) ∧
  ∀ jwk, jwk ∈ l → ∃ n b, normalizeJwk jwk = Ok n ∧ convertKeyBundle n = Ok b ∧ is_Some (map_get (kid b) m').
Proof.
  revert m. induction l as [|jwk l IH]; intros m; cbn.
  { intros [= ->]. split; [done|]. by intros jwk ?%elem_of_nil. }
  destruct (normalizeJwk jwk) as [n|] eqn:En; [|done]. destruct (convertKeyBundle n) as [b|] eqn:Eb; [|done]. intros H.
  destruct (IH _ H) as [Hk Hl]. split.
  - intros k Hs. apply Hk. rewrite map_get_set. by destruct (String.eqb k (kid b)).
  - intros jwk' [->|Hin]%elem_of_cons; [|by apply Hl]. exists n, b. split_and!; [done..|]. apply Hk. rewrite map_get_set, String.eqb_refl. by eexists.
Qed.

Lemma set_bundles_snoc l jwk m m' : set_bundles (l ++ [jwk]) m = Ok m' →
  ∃ n b, normalizeJwk jwk = Ok n ∧ convertKeyBundle n = Ok b ∧ map_get (kid b) m' = Some b.
Proof.
  revert m. induction l as [|j l IH]; intros m; cbn.
  - destruct (normalizeJwk jwk) as [n|] eqn:En; [|done]. destruct (convertKeyBundle n) as [b|] eqn:Eb; [|done]. intros [= <-].
    exists n, b. by rewrite map_get_set, String.eqb_refl.
  - destruct (normalizeJwk j) as [n|]; [|done]. destruct (convertKeyBundle n) as [b|]; [|done]. apply IH.
Qed.

(** ** The signing key is published *)

Definition kid_hash : Prop := ∀ s, is_empty (trim (hash s)) = false.
Context (hash_is_kid : kid_hash).

Lemma trimmed_usable f k : trimmed_kid f = Some k → is_empty (trim k) = false.
Proof.
  unfold trimmed_kid. destruct f as [s|]; [|done]. cbn. destruct (trim s) as [|c r] eqn:E; [done|]. intros [= <-]. rewrite <- E, trim_idem, E. done.
Qed.

(** What is published for a key reads back as that key. *)
Lemma exported_jwk k a o jwk : exportPublicJwk k a o = Ok jwk →
  usable_kid (map_get "kid" jwk) = true ∧ map_get "alg" jwk = Some (JStr (alg_name a)) ∧
  (∀ name v, map_get name (exportJwk k) = Some v → map_get name jwk = Some v).
Proof.
  unfold exportPublicJwk. set (kd := match trimmed_kid o with Some k => k | None => _ end). intros H.
  assert (is_empty (trim kd) = false) as Hkd.
  { unfold kd. destruct (trimmed_kid o) eqn:E; [by eapply trimmed_usable|].
    destruct (map_get "kid" (exportJwk k)) as [[]|]; try apply hash_is_kid. cbv iota beta. destruct (trimmed_kid (Some s)) eqn:E'; [by eapply trimmed_usable|apply hash_is_kid]. }
  destruct (export_private k) as (Hu & Ha & Hk).
  apply normalize_fields in H as (Hname & Halg & Hkid). rewrite map_get_set in Hkid. cbn [String.eqb] in Hkid. change (("kid" =? "kid")%string) with true in Hkid.
  cbn in Hkid. rewrite Hkd in Hkid. specialize (Hkid eq_refl). split_and!.
  - rewrite Hkid. cbn. by rewrite Hkd.
  - apply Halg. by rewrite !map_get_set.
  - intros name v Hv. assert (name ≠ "use" ∧ name ≠ "alg" ∧ name ≠ "kid") as (H1 & H2 & H3) by (split_and!; intros ->; congruence).
    rewrite Hname by done. rewrite !map_get_set.
    by rewrite (proj2 (String.eqb_neq _ _) H1), (proj2 (String.eqb_neq _ _) H2), (proj2 (String.eqb_neq _ _) H3).
Qed.

Lemma exported_converts k a o jwk n b : exportPublicJwk k a o = Ok jwk → normalizeJwk jwk = Ok n → convertKeyBundle n = Ok b →
  kid b = kid_of jwk ∧ publicKey b = k ∧ alg b = a.
Proof.
  intros (Hk & Ha & He)%exported_jwk (Hname & Halg & Hkid)%normalize_fields Hb. specialize (Hkid Hk).
  assert (map_get "alg" n = Some (JStr (alg_name a))) as Han by (apply Halg; by rewrite Ha).
  assert (importJwk n = Some k) as Hi.
  { apply import_export. intros name v Hv. destruct (export_private k) as (H1 & H2 & H3). rewrite Hname; [by apply He|intros ->; congruence..]. }
  pose proof (convert_kid n b Hb) as Hkb. unfold convertKeyBundle, determineAlgorithmFromJwk in Hb. rewrite Han in Hb. cbn [nullish mbind option_bind name_text] in Hb.
  rewrite alg_of_name, Hi in Hb. destruct (normalizeJwk n); [|done]. injection Hb as <-. split_and!; [|done..]. cbn in *. unfold kid_of. by rewrite Hkid.
Qed.

Lemma signing_exported env_alg s b : buildSigningKey env_alg s = Ok (Some b) →
  ∃ o, exportPublicJwk (publicKey b) (alg b) o = Ok (publicJwk b) ∧ kid b = kid_of (publicJwk b).
Proof.
  unfold buildSigningKey. destruct (optional_secret _) as [[raw|]|]; try done. unfold createKeyBundleFromPrivateKey.
  destruct (parsePrivateKeySecret _) as [k|]; [|done]. destruct (match env_alg with Some a => _ | None => _ end) as [a|]; [|done].
  destruct (optional_secret _) as [o|]; [|done]. destruct (exportPublicJwk _ _ _) as [jwk|] eqn:E; [|done]. intros [= <-]. by exists o.
Qed.

(** The key that signs can be verified with: after a reload that succeeds
    with a signing key, its identifier is among the active keys; and unless
    the published set of the secret store has an entry of its own by that
    identifier, the key and the algorithm there are those of the signing
    key. *)
Theorem signing_key_published i m m' b :
  reload i m = (Ok tt, m') → signingKey m' = Some b →
  is_Some (map_get (kid b) (activeKeys m')) ∧
  ((∀ raw l, JWT_PUBLIC_JWKS (ri_secrets i) = Ok raw → parseJwksFromSecret raw = Ok l → existsb (has_kid (kid b)) l = false) →
   ∃ b', map_get (kid b) (activeKeys m') = Some b' ∧ publicKey b' = publicKey b ∧ alg b' = alg b).
Proof.
  unfold reload. destruct (buildSigningKey _ _) as [signing|] eqn:Es; [|done]. destruct (buildActiveKeyMap _ _ _ _) as [next|] eqn:En; [|done].
  intros [= <-] Hb. cbn in Hb. subst signing. cbn [activeKeys]. destruct (signing_exported _ _ b Es) as (o & He & Hkb).
  destruct (exported_jwk _ _ _ _ He) as (Hus & _ & _). unfold buildActiveKeyMap in En.
  destruct (match optional_secret (JWT_PUBLIC_JWKS (ri_secrets i)) with Err e => _ | Ok _ => _ end) as [l|] eqn:El; [|done].
  assert (set_bundles (published (Some b) l) [] = Ok next) as Hset by (by destruct (published (Some b) l)). clear En. cbn [published] in Hset.
  assert (existsb (has_kid (kid b)) l = false → ∃ b', map_get (kid b) next = Some b' ∧ publicKey b' = publicKey b ∧ alg b' = alg b) as Hfresh.
  { intros Hn. rewrite Hn in Hset. destruct (set_bundles_snoc _ _ _ _ Hset) as (n & b' & H1 & H2 & H3).
    destruct (exported_converts _ _ _ _ _ _ He H1 H2) as (Hk & Hp & Ha). rewrite Hk, <- Hkb in H3. by exists b'. }
  split.
  - destruct (existsb (has_kid (kid b)) l) eqn:Ex; [|destruct (Hfresh eq_refl) as (b' & -> & _); by eexists].
    apply existsb_exists in Ex as (jwk & Hin%list_elem_of_In & Hk). destruct (set_bundles_get _ _ _ Hset) as [_ Hall].
    destruct (Hall jwk Hin) as (n & b' & H1 & H2 & H3). unfold has_kid in Hk. destruct (map_get "kid" jwk) as [[| | |j| |]|] eqn:Ej; try done.
    apply String.eqb_eq in Hk. subst j. apply normalize_fields in H1 as (_ & _ & Hkid). rewrite Ej in Hkid.
    assert (usable_kid (Some (JStr (kid b))) = true) as Hu.
    { rewrite Hkb. unfold kid_of. unfold usable_kid in Hus. by destruct (map_get "kid" (publicJwk b)) as [[]|]. }
    specialize (Hkid Hu). apply convert_kid in H2. unfold kid_of in H2. rewrite Hkid in H2. by rewrite H2 in H3.
  - intros Hno. apply Hfresh. destruct (JWT_PUBLIC_JWKS (ri_secrets i)) as [raw|[]]; try done; cbn in El; [by eapply Hno|by injection El as <-].
Qed.

(** Without any secret a key is published that nobody holds: the private
    half of the generated key is dropped, and there is no signing key. *)
Theorem generated_key_cannot_sign i m m' e1 e2 :
  JWT_PRIVATE_KEY (ri_secrets i) = Err (SecretNotFoundError e1) → JWT_PUBLIC_JWKS (ri_secrets i) = Err (SecretNotFoundError e2) →
  reload i m = (Ok tt, m') → signingKey m' = None ∧ activeKeys m' ≠ [] ∧ Forall (λ kb, privateKey kb.2 = None) (activeKeys m').
Proof.
  intros H1 H2. unfold reload, buildSigningKey, buildActiveKeyMap. rewrite H1, H2. cbn [optional_secret published].
  destruct (generateFallbackSigningKey _ _) as [b|]; [|done]. cbn [set_bundles]. destruct (normalizeJwk _) as [n|]; [|done].
  destruct (convertKeyBundle n) as [b'|] eqn:E; [|done]. intros [= <-]. cbn. split_and!; [done..|]. constructor; [|constructor]. cbn.
  unfold convertKeyBundle in E. destruct (determineAlgorithmFromJwk n), (importJwk n), (normalizeJwk n); try done. by injection E as <-.
Qed.

(** ** Rotation *)

Inductive jwks_event := EReload (i : reload_input) | EVerify (now : Z) (k : string).
Definition event_time (ev : jwks_event) : Z := match ev with EReload i => ri_now i | EVerify now _ => now end.
Definition jwks_step (m : JwksManager) (ev : jwks_event) : JwksManager :=
  match ev with EReload i => snd (reload i m) | EVerify now k => snd (getVerificationKey now k m) end.

(** Times do not decrease, and [k] does not come back. *)
Fixpoint without (k : string) (from : Z) (evs : list jwks_event) (m : JwksManager) : Prop :=
  match evs with
  | [] => True
  | ev :: evs => from ≤ event_time ev ∧ map_get k (activeKeys (jwks_step m ev)) = None ∧ without k (event_time ev) evs (jwks_step m ev)
  end.

Definition last_time (from : Z) (evs : list jwks_event) : Z := fold_left (λ _ ev, event_time ev) evs from.

Definition retired_until (k : string) (b : KeyBundle) (until now : Z) (m : JwksManager) : Prop :=
  NoDup (retiredKeys m).*1 ∧ map_get k (activeKeys m) = None ∧
  (map_get k (retiredKeys m) = Some {| bundle := b; retireAt := until |} ∨ (map_get k (retiredKeys m) = None ∧ until ≤ now)).

Lemma map_get_filter {V} (p : string * V → bool) k m : NoDup m.*1 →
  map_get k (List.filter p m) = match map_get k m with Some v => if p (k, v) then Some v else None | None => None end.
Proof.
  induction m as [|[j v] m IH]; intros Hn; [done|]. apply NoDup_cons in Hn as [Hj Hn]. cbn. destruct (p (j, v)) eqn:E; cbn.
  - destruct (String.eqb_spec k j) as [->|]; [by rewrite E|by apply IH].
  - rewrite IH by done. destruct (String.eqb_spec k j) as [->|]; [|done]. rewrite E. destruct (map_get j m) as [w|] eqn:Ew; [|done].
    apply map_get_Some in Ew. destruct Hj. apply list_elem_of_fmap. by exists (j, w).
Qed.

Lemma filter_nodup_keys {V} (p : string * V → bool) m : NoDup m.*1 → NoDup (List.filter p m).*1.
Proof.
  induction m as [|[j v] m IH]; intros Hn; [done|]. apply NoDup_cons in Hn as [Hj Hn]. cbn. destruct (p (j, v)); [|by apply IH]. apply NoDup_cons.
  split; [|by apply IH]. intros Hin. apply Hj. apply list_elem_of_fmap in Hin as ([i w] & -> & Hin%list_elem_of_In%filter_In).
  destruct Hin as [Hin%list_elem_of_In _]. apply list_elem_of_fmap. by exists (i, w).
Qed.

Definition retire_one (now grace : Z) (next : list (string * KeyBundle)) (r : list (string * RetiredKeyBundle)) (kb : string * KeyBundle) :=
  match map_get kb.1 next with
  | Some _ => r
  | None => map_set kb.1 {| bundle := kb.2; retireAt := now + grace * 1000 |} r
  end.

Lemma retire_all now grace next m r k : NoDup m.*1 →
  map_get k (fold_left (retire_one now grace next) m r) =
  match map_get k m with
  | Some b => match map_get k next with Some _ => map_get k r | None => Some {| bundle := b; retireAt := now + grace * 1000 |} end
  | None => map_get k r
  end.
Proof.
  revert r. induction m as [|[j b] m IH]; intros r Hn; [done|]. apply NoDup_cons in Hn as [Hj Hn]. cbn [fold_left map_get]. rewrite IH by done.
  unfold retire_one at 1 2. cbn [fst snd]. destruct (String.eqb_spec k j) as [->|Hne].
  - assert (map_get j m = None) as ->.
    { destruct (map_get j m) as [w|] eqn:Ew; [|done]. apply map_get_Some in Ew. destruct Hj. apply list_elem_of_fmap. by exists (j, w). }
    destruct (map_get j next); [done|]. by rewrite map_get_set, String.eqb_refl.
  - destruct (map_get j next); [done|]. by rewrite map_get_set, (proj2 (String.eqb_neq _ _) Hne).
Qed.

Lemma retire_nodup now grace next m r : NoDup r.*1 → NoDup (retire now grace next m r).*1.
Proof.
  intros Hr. unfold retire. apply filter_nodup_keys. revert r Hr. induction m as [|[j b] m IH]; intros r Hr; [done|]. cbn [fold_left fst snd].
  apply IH. destruct (map_get j next); [done|by apply map_set_nodup].
Qed.

Lemma retire_get now grace next m r k : NoDup m.*1 → NoDup r.*1 →
  map_get k (retire now grace next m r) =
  match map_get k (fold_left (retire_one now grace next) m r) with Some x => if retireAt x <=? now then None else Some x | None => None end.
Proof.
  intros Hm Hr. unfold retire. change (λ r kb, match map_get kb.1 next with Some _ => r | None => _ end) with (retire_one now grace next).
  rewrite map_get_filter.
  - destruct (map_get k _) as [x|]; [|done]. cbn. by destruct (retireAt x <=? now).
  - clear k. revert r Hr. induction m as [|[j b] m IH]; intros r Hr; [done|]. apply NoDup_cons in Hm as [_ Hm]. cbn. apply IH; [done|].
    unfold retire_one. cbn. destruct (map_get j next); [done|by apply map_set_nodup].
Qed.

Definition keys_ok (m : JwksManager) : Prop := well_keyed (activeKeys m) ∧ NoDup (retiredKeys m).*1.

Lemma build_wk env_alg draw s current next : buildActiveKeyMap env_alg draw s current = Ok next → well_keyed next.
Proof.
  unfold buildActiveKeyMap. destruct (match optional_secret _ with Err e => _ | Ok _ => _ end) as [l|]; [|done].
  assert (well_keyed []) as Hnil by (split; constructor).
  destruct (published current l) as [|x xs], current as [c|]; intros H; [by eapply set_bundles_wk| |by eapply set_bundles_wk..].
  destruct (generateFallbackSigningKey _ _); [|done]. by eapply set_bundles_wk.
Qed.

Lemma reload_cases i m : (∃ e, reload i m = (Err e, snd (reload i m)) ∧ activeKeys (snd (reload i m)) = activeKeys m ∧
    retiredKeys (snd (reload i m)) = retiredKeys m ∧ signingKey (snd (reload i m)) = signingKey m) ∨
  (fst (reload i m) = Ok tt ∧ well_keyed (activeKeys (snd (reload i m))) ∧
   retiredKeys (snd (reload i m)) = retire (ri_now i) (parsePositiveInt (ri_grace i) 300) (activeKeys (snd (reload i m))) (activeKeys m) (retiredKeys m)).
Proof.
  unfold reload. destruct (buildSigningKey _ _) as [signing|e]; [|left; by exists e].
  destruct (buildActiveKeyMap _ _ _ _) as [next|e] eqn:E; [right|left; by exists e]. split_and!; [done|by eapply build_wk|done].
Qed.

Lemma keys_ok_step m ev : keys_ok m → keys_ok (jwks_step m ev).
Proof.
  intros [Ha Hr]. destruct ev as [i|now k]; cbn.
  - destruct (reload_cases i m) as [(e & _ & H1 & H2 & _)|(_ & H1 & H2)]; split; rewrite ?H1, ?H2; try done. by apply retire_nodup.
  - unfold getVerificationKey. destruct (map_get k (activeKeys m)); [done|]. destruct (map_get k (retiredKeys m)); [|done].
    destruct (_ <? _); [done|]. split; [done|]. cbn. by apply map_delete_nodup.
Qed.

Lemma retired_until_step k b until now m ev : keys_ok m →
  retired_until k b until now m → now ≤ event_time ev → map_get k (activeKeys (jwks_step m ev)) = None →
  retired_until k b until (event_time ev) (jwks_step m ev).
Proof.
  intros Hok (Hn & Ha & Hr) Ht Ha'. split_and!; [by apply keys_ok_step|done|]. destruct Hok as [[Hna _] _]. destruct ev as [i|t j]; cbn in *.
  - destruct (reload_cases i m) as [(e & _ & _ & -> & _)|(_ & _ & ->)]; [destruct Hr as [?|[? ?]]; [by left|right; split; [done|lia]]|].
    rewrite retire_get, retire_all, Ha by done. destruct Hr as [->|[-> ?]]; [|right; split; [done|lia]]. cbn.
    destruct (Z.leb_spec until (ri_now i)); [by right|by left].
  - unfold getVerificationKey in *. destruct (map_get j (activeKeys m)); [destruct Hr as [?|[? ?]]; [by left|right; split; [done|lia]]|].
    destruct (map_get j (retiredKeys m)) as [r|] eqn:Ej; [|destruct Hr as [?|[? ?]]; [by left|right; split; [done|lia]]].
    destruct (Z.ltb_spec t (retireAt r)); cbn; [destruct Hr as [?|[? ?]]; [by left|right; split; [done|lia]]|].
    rewrite map_get_delete. destruct (String.eqb_spec k j) as [->|]; [|destruct Hr as [?|[? ?]]; [by left|right; split; [done|lia]]].
    right. split; [done|]. destruct Hr as [Hr|[Hr _]]; rewrite Hr in Ej; [|done]. injection Ej as <-. done.
Qed.

Lemma retired_until_run k b until now m evs : keys_ok m → retired_until k b until now m → without k now evs m →
  retired_until k b until (last_time now evs) (fold_left jwks_step evs m).
Proof.
  revert now m. induction evs as [|ev evs IH]; intros now m Hok Hr Hw; [done|]. destruct Hw as (Ht & Ha & Hw). cbn.
  apply IH; [by apply keys_ok_step|by apply (retired_until_step k b until now)|done].
Qed.

(** C31. A key that a reload drops is good for the grace window and no longer:
    through any later reloads, failed or not, and lookups that do not bring it
    back, it verifies exactly before the reload's time plus the window. *)
Theorem dropped_key_verifies_until_grace i m k b evs t :
  keys_ok m → map_get k (activeKeys m) = Some b → fst (reload i m) = Ok tt → map_get k (activeKeys (snd (reload i m))) = None →
  without k (ri_now i) evs (snd (reload i m)) → last_time (ri_now i) evs ≤ t →
  fst (getVerificationKey t k (fold_left jwks_step evs (snd (reload i m)))) =
  if t <? ri_now i + parsePositiveInt (ri_grace i) 300 * 1000 then Some b else None.
Proof.
  intros Hok Hb Hr Hk Hw Ht. set (until := ri_now i + parsePositiveInt (ri_grace i) 300 * 1000).
  assert (retired_until k b until (ri_now i) (snd (reload i m))) as Hret.
  { split_and!; [by apply (keys_ok_step m (EReload i))|done|]. destruct (reload_cases i m) as [(e & He & _)|(_ & _ & ->)]; [by rewrite He in Hr|].
    destruct Hok as [[Hn _] Hrn]. rewrite retire_get, retire_all, Hb, Hk by done. cbn. fold until. destruct (Z.leb_spec until (ri_now i)); [by right|by left]. }
  apply (retired_until_run _ _ _ _ _ evs) in Hret; [|by apply (keys_ok_step m (EReload i))|done].
  destruct Hret as (_ & Ha & Hret). unfold getVerificationKey. rewrite Ha. destruct Hret as [->|[-> ?]]; cbn [retireAt bundle].
  - by destruct (t <? until).
  - destruct (Z.ltb_spec t until); [lia|done].
Qed.

(** ** Identifiers *)

Lemma canonical_fields_perm (fs fs' : fields) : NoDup fs.*1 → fs ≡ₚ fs' →
  js_sort (λ a b, Migrations.code_order a.1 b.1) fs = js_sort (λ a b, Migrations.code_order a.1 b.1) fs'.
Proof. apply Migrations.members_sort_unique. Qed.

(** The computed identifier of a key does not depend on the order of its
    fields. *)
Theorem kid_ignores_field_order (fs fs' : fields) : NoDup fs.*1 → fs ≡ₚ fs' → computeKid fs = computeKid fs'.
Proof.
  intros Hn Hp. unfold computeKid. do 2 f_equal. cbn [normalizeJwkValue]. f_equal. apply canonical_fields_perm.
  - rewrite <- list_fmap_compose in *. cbn. exact Hn.
  - by rewrite Hp.
Qed.
End Jwks.

(** ** Concrete keys: a key is a text, its own public half. *)

Definition read_x (fs : fields) : option string := match map_get "x" fs with Some (JStr k) => Some k | _ => None end.

#[local] Program Instance text_keys : KeyObjects :=
  {| PublicKey := string; PrivateKey := string;
     importJwk := read_x;
     exportJwk k := [("kty", JStr "OKP"); ("crv", JStr "Ed25519"); ("x", JStr k)];
     privateJwk fs := None; privatePem := Some; createPublicKey k := k; is_ed25519 k := true; generateKeyPair draw a := alg_name a |}.
Next Obligation. intros k fs H. unfold read_x. by rewrite (H "x" (JStr k) eq_refl). Qed.
Next Obligation. done. Qed.

Definition constant_hash (s : string) : string := "kid".
Definition no_text (j : json) : string := EmptyString.
Definition opaque_text (s : string) : option json := None.

Lemma constant_hash_ok : kid_hash constant_hash.
Proof. by intros s. Qed.

Definition missing (k : string) : result secret_error string := Err (SecretNotFoundError k).
Definition with_key (now : Z) (pem id : string) : reload_input :=
  {| ri_now := now; ri_ttl := None; ri_grace := Some "60"; ri_alg := None; ri_draw := 7;
     ri_secrets := {| JWT_PRIVATE_KEY := Ok pem; JWT_PRIVATE_KEY_KID := Ok id; JWT_PUBLIC_JWKS := missing "JWT_PUBLIC_JWKS" |} |}.
Definition keyless (now draw : Z) : reload_input :=
  {| ri_now := now; ri_ttl := None; ri_grace := None; ri_alg := None; ri_draw := draw;
     ri_secrets := {| JWT_PRIVATE_KEY := missing "JWT_PRIVATE_KEY"; JWT_PRIVATE_KEY_KID := missing "JWT_PRIVATE_KEY_KID"; JWT_PUBLIC_JWKS := missing "JWT_PUBLIC_JWKS" |} |}.

Abbreviation reload_text := (reload constant_hash no_text opaque_text).
Definition first_keys : JwksManager := snd (reload_text (with_key 1000 "one" "k1") new_manager).

(** The algorithm of the environment is not compared with the key. *)
Example algorithm_not_checked :
  match createKeyBundleFromPrivateKey constant_hash no_text opaque_text (Some "rs256") (missing "JWT_PRIVATE_KEY_KID") "pem" with
  | Ok b => alg b = RS256 ∧ map_get "crv" (publicJwk b) = Some (JStr "Ed25519")
  | Err _ => False
  end.
Proof. vm_compute. done. Qed.

Lemma signing_key_published_witness :
  match signingKey first_keys with
  | Some b => ∃ b', map_get (kid b) (activeKeys first_keys) = Some b' ∧ publicKey b' = publicKey b ∧ alg b' = alg b
  | None => False
  end.
Proof.
  pose proof (signing_key_published constant_hash no_text opaque_text constant_hash_ok (with_key 1000 "one" "k1") new_manager first_keys) as H.
  destruct (signingKey first_keys) as [b|] eqn:E.
  - apply (H b ltac:(vm_compute; reflexivity) eq_refl). intros raw l Hr. discriminate Hr.
  - vm_compute in E. discriminate E.
Defined.

Lemma generated_key_cannot_sign_witness : signingKey (snd (reload_text (keyless 0 5) new_manager)) = None.
Proof.
  pose proof (generated_key_cannot_sign constant_hash no_text opaque_text (keyless 0 5) new_manager) as H.
  assert (fst (reload_text (keyless 0 5) new_manager) = Ok tt) as Hf by (vm_compute; reflexivity).
  destruct (reload_text (keyless 0 5) new_manager) as [r m']. cbn [fst snd] in *. subst r.
  apply (H m' "JWT_PRIVATE_KEY" "JWT_PUBLIC_JWKS"); reflexivity.
Defined.

Lemma dropped_key_verifies_until_grace_witness :
  let m := snd (reload_text (with_key 2000 "two" "k2") first_keys) in
  let first := match map_get "k1" (activeKeys first_keys) with Some b => b | None => {| kid := EmptyString; alg := RS256; publicJwk := []; publicKey := EmptyString; privateKey := None |} end in
  fst (getVerificationKey 61999 "k1" m) = Some first ∧ fst (getVerificationKey 62000 "k1" m) = None.
Proof.
  intros m first.
  assert (keys_ok first_keys) as Hok.
  { split; [split|]; vm_compute.
    - apply NoDup_singleton.
    - constructor; [reflexivity|constructor].
    - constructor. }
  pose proof (dropped_key_verifies_until_grace constant_hash no_text opaque_text (with_key 2000 "two" "k2") first_keys "k1" first []) as H.
  split.
  - exact (H 61999 Hok ltac:(vm_compute; reflexivity) ltac:(vm_compute; reflexivity) ltac:(vm_compute; reflexivity) I ltac:(cbn; lia)).
  - exact (H 62000 Hok ltac:(vm_compute; reflexivity) ltac:(vm_compute; reflexivity) ltac:(vm_compute; reflexivity) I ltac:(cbn; lia)).
Defined.

Lemma kid_ignores_field_order_witness :
  computeKid toy_hash no_text [("kty", JStr "OKP"); ("x", JStr "k")] = computeKid toy_hash no_text [("x", JStr "k"); ("kty", JStr "OKP")].
Proof.
  apply kid_ignores_field_order.
  - apply (bool_decide_unpack _). vm_compute. exact I.
  - constructor.
Defined.
