(* ===== verification/JwtTokens.v ===== *)
(** * Access and refresh tokens: the issuing and verifying half of
    [src/utils/jwt.ts]

    The library [jsonwebtoken] is an interface with the laws it documents;
    the secret loader's answers, the keys of [Jwks] and the environment are
    inputs.  Times are seconds, as in the claims. *)

From stdpp Require Import countable.
From S2P Require Import Prelude Numeric Hashing JsString Words Collections.
From S2P Require Import SecretLoader Jwks.
From S2P Require Businesses.
#[local] Open Scope Z_scope.

Record TokenPayload := { userId : string; email : string }.

(** The claims of a token; [exp], [iss] and [aud] may be absent. *)
Record jwt_claims := { c_userId : string; c_email : string; c_jti : string; c_iat : Z; c_exp : option Z; c_iss : option string; c_aud : option string }.
Record jwt_header := { h_alg : string; h_kid : option string }.

Inductive jwt_key `{KeyObjects} := Secret (s : string) | SignWith (k : PrivateKey) | VerifyWith (k : PublicKey).

Record verify_options := { o_issuer : string; o_audience : string; o_algorithms : list string }.

(** The checks on claims: the time is before [exp], if there is one, and
    issuer and audience are those asked for. *)
Definition claims_valid (now : Z) (o : verify_options) (c : jwt_claims) : bool :=
  match c_exp c with Some e => now <? e | None => true end &&
  match c_iss c with Some i => String.eqb i (o_issuer o) | None => false end &&
  match c_aud c with Some a => String.eqb a (o_audience o) | None => false end.

(** What a signature proves to a key. *)
Class JwtLibrary `{KeyObjects} := {
  key_pair : PrivateKey → PublicKey → bool;
  jwt_sign : jwt_key → jwt_header → jwt_claims → string;
  jwt_decode : string → option jwt_header;
  jwt_verify : Z → jwt_key → verify_options → string → option jwt_claims;
  key_pair_own k : key_pair k (createPublicKey k) = true;
  decode_signed k h c : jwt_decode (jwt_sign k h c) = Some h;
  verify_signed now k k' o h c :
    jwt_verify now k' o (jwt_sign k h c) =
    if (match k, k' with Secret s, Secret s' => String.eqb s s' | SignWith p, VerifyWith q => key_pair p q | _, _ => false end) &&
       includes (h_alg h) (o_algorithms o) && claims_valid now o c
    then Some c else None;
  verify_checks now k o t c : jwt_verify now k o t = Some c →
    (∃ h, jwt_decode t = Some h ∧ h_alg h ∈ o_algorithms o) ∧ claims_valid now o c = true
}.

(** ** Secrets *)

Inductive jwt_secret_error := SecretRequired | LoaderFailed (e : secret_error).

Record jwt_env := {
  JWT_SECRET : result secret_error string; config_jwtSecret : option string; production : bool;
  JWT_REFRESH_SECRET : result secret_error string; env_refresh_secret : option string;
  JWT_ISSUER : string; JWT_AUDIENCE : string; JWT_REFRESH_AUDIENCE : string
}.

Definition truthy_text (s : option string) : option string := match s with Some (String _ _) => s | _ => None end.

Definition getPrimaryJwtSecret (e : jwt_env) : result jwt_secret_error string :=
  match JWT_SECRET e with
  | Ok s => Ok s
  | Err (SecretNotFoundError _) =>
      match truthy_text (config_jwtSecret e) with
      | Some s => Ok s
      | None => if negb (production e) then Ok "dev-secret-key" else Err SecretRequired
      end
  | Err x => Err (LoaderFailed x)
  end.

Definition getRefreshJwtSecret (e : jwt_env) : result jwt_secret_error string :=
  match JWT_REFRESH_SECRET e with
  | Ok s => Ok s
  | Err (SecretNotFoundError _) =>
      match truthy_text (env_refresh_secret e) with
      | Some s => Ok s
      | None => if negb (production e) then Ok "dev-refresh-secret-key" else getPrimaryJwtSecret e
      end
  | Err x => Err (LoaderFailed x)
  end.

Section Tokens.
Context {keys : KeyObjects} {library : @JwtLibrary keys} (e : jwt_env).

(** The claims that [jwt.sign] adds: [expiresIn], issuer and audience. *)
Definition claims_for (now expiresIn : Z) (aud jti : string) (p : TokenPayload) : jwt_claims :=
  {| c_userId := userId p; c_email := email p; c_jti := jti; c_iat := now; c_exp := Some (now + expiresIn); c_iss := Some (JWT_ISSUER e); c_aud := Some aud |}.

Definition generateToken (signing : option KeyBundle) (now : Z) (jti : string) (p : TokenPayload) : result jwt_secret_error string :=
  let c := claims_for now 3600 (JWT_AUDIENCE e) jti p in
  match signing with
  | Some {| kid := k; alg := a; privateKey := Some key |} => Ok (jwt_sign (SignWith key) {| h_alg := alg_name a; h_kid := Some k |} c)
  | _ => match getPrimaryJwtSecret e with Err x => Err x | Ok secret => Ok (jwt_sign (Secret secret) {| h_alg := "HS256"; h_kid := None |} c) end
  end.

Definition generateRefreshToken (now : Z) (jti : string) (p : TokenPayload) : result jwt_secret_error string :=
  match getRefreshJwtSecret e with
  | Err x => Err x
  | Ok secret => Ok (jwt_sign (Secret secret) {| h_alg := "HS256"; h_kid := None |} (claims_for now 604800 (JWT_REFRESH_AUDIENCE e) jti p))
  end.

Inductive key_info := KeyFor (k : PublicKey) (a : algorithm) | NoKey (hasKid : bool).

Definition getVerificationKeyInfo (now_ms : Z) (token : string) (m : JwksManager) : key_info * JwksManager :=
  match jwt_decode token ≫= h_kid with
  | None | Some EmptyString => (NoKey false, m)
  | Some k =>
      match getVerificationKey now_ms k m with
      | (Some b, m) => (KeyFor (publicKey b) (alg b), m)
      | (None, m) => (NoKey true, m)
      end
  end.

(** [now] is in milliseconds; the library compares seconds. *)
Definition verifyToken (now : Z) (token : string) (m : JwksManager) : option jwt_claims * JwksManager :=
  let '(info, m) := getVerificationKeyInfo now token m in
  let o algs := {| o_issuer := JWT_ISSUER e; o_audience := JWT_AUDIENCE e; o_algorithms := algs |} in
  match info with
  | KeyFor k a => (jwt_verify (now / 1000) (VerifyWith k) (o [alg_name a]) token, m)
  | NoKey true => (None, m)
  | NoKey false =>
      match getPrimaryJwtSecret e with
      | Err _ => (None, m)
      | Ok secret => (jwt_verify (now / 1000) (Secret secret) (o ["HS256"]) token, m)
      end
  end.

Definition verifyRefreshToken (now : Z) (token : string) : option jwt_claims :=
  match getRefreshJwtSecret e with
  | Err _ => None
  | Ok secret => jwt_verify (now / 1000) (Secret secret) {| o_issuer := JWT_ISSUER e; o_audience := JWT_REFRESH_AUDIENCE e; o_algorithms := ["HS256"] |} token
  end.

(** ** Properties *)

(** Whether the ring has the key a token was signed with. *)
Definition ring_has (now : Z) (b : KeyBundle) (m : JwksManager) : Prop :=
  kid b ≠ EmptyString ∧ ∃ b' key, (getVerificationKey now (kid b) m).1 = Some b' ∧ privateKey b = Some key ∧ key_pair key (publicKey b') = true ∧ alg b' = alg b.

Lemma claims_for_valid now t ttl aud jti p algs :
  claims_valid t {| o_issuer := JWT_ISSUER e; o_audience := aud; o_algorithms := algs |} (claims_for now ttl aud jti p) = (t <? now + ttl).
Proof. unfold claims_valid. cbn. by rewrite !String.eqb_refl, !andb_true_r. Qed.

Lemma kid_info now token m k b m' : jwt_decode token ≫= h_kid = Some k → k ≠ EmptyString → getVerificationKey now k m = (Some b, m') →
  getVerificationKeyInfo now token m = (KeyFor (publicKey b) (alg b), m').
Proof. intros H Hk Hb. unfold getVerificationKeyInfo. rewrite H. destruct k as [|c k]; [done|]. by rewrite Hb. Qed.

Lemma no_kid_info now k h c m : h_kid h = None → getVerificationKeyInfo now (jwt_sign k h c) m = (NoKey false, m).
Proof. intros Hh. unfold getVerificationKeyInfo. rewrite decode_signed. cbn. by rewrite Hh. Qed.

(** An access token is accepted, with the user it was made for, exactly
    during its hour, as long as the ring has its key, or with the same secret
    when no key signs. *)
Theorem access_token_accepted signing m minted now jti p t :
  generateToken signing minted jti p = Ok t →
  match signing with Some b => match privateKey b with Some _ => ring_has now b m | None => True end | None => True end →
  fst (verifyToken now t m) = if now / 1000 <? minted + 3600 then Some (claims_for minted 3600 (JWT_AUDIENCE e) jti p) else None.
Proof.
  unfold generateToken, verifyToken. destruct signing as [[k a jwk pk [key|]]|].
  - intros [= <-] (Hk & b' & key' & Hb & Hp & Hm & Ha). cbn [privateKey kid alg] in *. injection Hp as <-.
    destruct (getVerificationKey now k m) as [ob m'] eqn:E. cbn in Hb. subst ob. rewrite (kid_info now _ m k b' m'); [|by rewrite decode_signed|done|done].
    cbn [fst]. rewrite verify_signed, Hm, Ha, claims_for_valid. cbn [o_algorithms h_alg]. unfold includes. cbn [existsb]. by rewrite String.eqb_refl.
  - destruct (getPrimaryJwtSecret e) as [s|] eqn:Es; [|done]. intros [= <-] _. rewrite no_kid_info by done.
    cbn [fst]. rewrite verify_signed, claims_for_valid, String.eqb_refl. done.
  - destruct (getPrimaryJwtSecret e) as [s|] eqn:Es; [|done]. intros [= <-] _. rewrite no_kid_info by done.
    cbn [fst]. rewrite verify_signed, claims_for_valid, String.eqb_refl. done.
Qed.

(** The same for refresh tokens and their seven days. *)
Theorem refresh_token_accepted minted now jti p t :
  generateRefreshToken minted jti p = Ok t →
  verifyRefreshToken now t = if now / 1000 <? minted + 604800 then Some (claims_for minted 604800 (JWT_REFRESH_AUDIENCE e) jti p) else None.
Proof.
  unfold generateRefreshToken, verifyRefreshToken. destruct (getRefreshJwtSecret e) as [s|]; [|done]. intros [= <-].
  by rewrite verify_signed, claims_for_valid, String.eqb_refl.
Qed.

(** Neither kind of token passes for the other, whatever the keys and even
    when both kinds fall back to one secret, if their audiences differ. *)
Theorem token_kinds_apart signing m minted now jti p t :
  JWT_AUDIENCE e ≠ JWT_REFRESH_AUDIENCE e →
  (generateRefreshToken minted jti p = Ok t → fst (verifyToken now t m) = None) ∧
  (generateToken signing minted jti p = Ok t → verifyRefreshToken now t = None).
Proof.
  intros Ha. split.
  - unfold generateRefreshToken. destruct (getRefreshJwtSecret e) as [s|]; [|done]. intros [= <-]. unfold verifyToken. rewrite no_kid_info by done.
    destruct (getPrimaryJwtSecret e) as [s'|]; [|done]. cbn [fst]. rewrite verify_signed. unfold claims_valid. cbn [claims_for c_aud o_audience].
    destruct (String.eqb_spec (JWT_REFRESH_AUDIENCE e) (JWT_AUDIENCE e)); [congruence|]. by rewrite !andb_false_r.
  - intros Ht. unfold verifyRefreshToken. destruct (getRefreshJwtSecret e) as [s'|]; [|done].
    assert (∃ k h, t = jwt_sign k h (claims_for minted 3600 (JWT_AUDIENCE e) jti p)) as (k & h & ->).
    { unfold generateToken in Ht. destruct signing as [[? ? ? ? [?|]]|]; [injection Ht as <-; eauto| |];
        (destruct (getPrimaryJwtSecret e) as [s|]; [|done]; injection Ht as <-; eauto). }
    rewrite verify_signed. unfold claims_valid. cbn [claims_for c_aud o_audience].
    destruct (String.eqb_spec (JWT_AUDIENCE e) (JWT_REFRESH_AUDIENCE e)); [congruence|]. by rewrite !andb_false_r.
Qed.

(** No confusion of algorithms: an accepted access token names a key of
    the ring and has that key's algorithm, or names none and has HS256; its
    time has not passed, and issuer and audience are this service's. *)
Theorem accepted_token_checked now t m c :
  fst (verifyToken now t m) = Some c →
  (∃ h, jwt_decode t = Some h ∧
    ((∃ k b, h_kid h = Some k ∧ k ≠ EmptyString ∧ fst (getVerificationKey now k m) = Some b ∧ h_alg h = alg_name (alg b)) ∨
     (truthy_text (h_kid h) = None ∧ h_alg h = "HS256" ∧ ∃ s, getPrimaryJwtSecret e = Ok s))) ∧
  (∀ x, c_exp c = Some x → now / 1000 < x) ∧ c_iss c = Some (JWT_ISSUER e) ∧ c_aud c = Some (JWT_AUDIENCE e).
Proof.
  unfold verifyToken, getVerificationKeyInfo. intros H.
  assert (∀ k algs, jwt_verify (now / 1000) k {| o_issuer := JWT_ISSUER e; o_audience := JWT_AUDIENCE e; o_algorithms := algs |} t = Some c →
    (∃ h, jwt_decode t = Some h ∧ h_alg h ∈ algs) ∧ (∀ x, c_exp c = Some x → now / 1000 < x) ∧ c_iss c = Some (JWT_ISSUER e) ∧ c_aud c = Some (JWT_AUDIENCE e)) as Hv.
  { intros k algs [Hh Hc]%verify_checks. split; [done|]. unfold claims_valid in Hc. cbn in Hc. apply andb_true_iff in Hc as [[Hx Hi]%andb_true_iff Ha].
    split; [|destruct (c_iss c), (c_aud c); try done; apply String.eqb_eq in Hi as ->; by apply String.eqb_eq in Ha as ->].
    intros x Ex. rewrite Ex in Hx. lia. }
  destruct (jwt_decode t) as [h|] eqn:Ed; cbn in H.
  - destruct (h_kid h) as [[|ch k]|] eqn:Ek.
    + destruct (getPrimaryJwtSecret e) as [s|] eqn:Es; [|done]. destruct (Hv _ _ H) as [(h' & Eh & Ha) Hr]. split; [|done].
      injection Eh as <-. exists h. split; [done|]. right. rewrite Ek. apply list_elem_of_singleton in Ha. eauto.
    + destruct (getVerificationKey now (String ch k) m) as [[b|] m'] eqn:Eb; [|done]. destruct (Hv _ _ H) as [(h' & Eh & Ha) Hr]. split; [|done].
      injection Eh as <-. exists h. split; [done|]. left. apply list_elem_of_singleton in Ha. exists (String ch k), b. by rewrite Eb.
    + destruct (getPrimaryJwtSecret e) as [s|] eqn:Es; [|done]. destruct (Hv _ _ H) as [(h' & Eh & Ha) Hr]. split; [|done].
      injection Eh as <-. exists h. split; [done|]. right. rewrite Ek. apply list_elem_of_singleton in Ha. eauto.
  - destruct (getPrimaryJwtSecret e) as [s|] eqn:Es; [|done]. destruct (Hv _ _ H) as [(h' & Eh & Ha) Hr]. done.
Qed.

(** In production a primary secret is never made up. *)
Theorem production_secret_configured s :
  production e = true → getPrimaryJwtSecret e = Ok s → JWT_SECRET e = Ok s ∨ config_jwtSecret e = Some s.
Proof.
  unfold getPrimaryJwtSecret. intros ->. destruct (JWT_SECRET e) as [s'|[]]; try done; [by intros [= ->]; left|].
  destruct (config_jwtSecret e) as [[|c s']|]; cbn; try done. intros [= <-]. by right.
Qed.

(** ** With the keys of [Jwks] *)

Section Keys.
Context (hash : string → string) (stringify : json → string) (JSON_parse : string → option json).
Context (hash_is_kid : kid_hash hash).

Lemma signing_own_key env_alg s b : buildSigningKey hash stringify JSON_parse env_alg s = Ok (Some b) →
  kid b ≠ EmptyString ∧ ∃ k, privateKey b = Some k ∧ publicKey b = createPublicKey k.
Proof.
  intros H. destruct (signing_exported hash stringify JSON_parse env_alg s b H) as (o & Ho & Hk). split.
  - destruct (exported_jwk hash stringify hash_is_kid _ _ _ _ Ho) as (Hu & _ & _). rewrite Hk. unfold kid_of. unfold usable_kid in Hu.
    destruct (map_get "kid" (publicJwk b)) as [[]|]; try done. intros ->. done.
  - unfold buildSigningKey in H. destruct (optional_secret _) as [[raw|]|]; try done. unfold createKeyBundleFromPrivateKey in H.
    destruct (parsePrivateKeySecret _ _) as [k|]; [|done]. destruct (match env_alg with Some a => _ | None => _ end) as [a|]; [|done].
    destruct (optional_secret _) as [o'|]; [|done]. destruct (exportPublicJwk _ _ _ _ _) as [jwk|]; [|done]. injection H as <-. by exists k.
Qed.

(** After a reload that has a signing key, the tokens it signs are accepted
    during their hour by the same ring, unless the published set of the
    secret store has another key by that name. *)
Theorem reloaded_key_accepts_its_tokens i m m' b minted now jti p t :
  reload hash stringify JSON_parse i m = (Ok tt, m') → signingKey m' = Some b →
  (∀ raw l, JWT_PUBLIC_JWKS (ri_secrets i) = Ok raw → parseJwksFromSecret hash stringify JSON_parse raw = Ok l → existsb (has_kid (kid b)) l = false) →
  generateToken (signingKey m') minted jti p = Ok t →
  fst (verifyToken now t m') = if now / 1000 <? minted + 3600 then Some (claims_for minted 3600 (JWT_AUDIENCE e) jti p) else None.
Proof.
  intros Hr Hb Hp Ht. apply (access_token_accepted (signingKey m') m' minted now jti p t Ht). rewrite Hb.
  destruct (signing_key_published hash stringify JSON_parse hash_is_kid i m m' b Hr Hb) as [_ Hpub]. destruct (Hpub Hp) as (b' & Hg & Hpk & Ha).
  assert (∃ a s, buildSigningKey hash stringify JSON_parse a s = Ok (Some b)) as (a & s & Hbuild).
  { unfold reload in Hr. destruct (buildSigningKey _ _ _ _ _) as [signing|] eqn:Es; [|done]. destruct (buildActiveKeyMap _ _ _ _ _ _ _) as [nx|]; [|done].
    injection Hr as <-. cbn in Hb. subst signing. eauto. }
  destruct (signing_own_key _ _ _ Hbuild) as (Hk & key & Hpriv & Hpub'). rewrite Hpriv. split; [done|]. exists b', key.
  unfold getVerificationKey. rewrite Hg. cbn [fst]. split_and!; [done|done| |done]. rewrite Hpk, Hpub'. apply key_pair_own.
Qed.
End Keys.
End Tokens.

(** ** A concrete library: a token is the text of its key, header and claims. *)

Section Concrete.
#[local] Existing Instance Jwks.text_keys.

Definition key_code (k : jwt_key) : nat * string := match k with Secret s => (0%nat, s) | SignWith p => (1%nat, p) | VerifyWith p => (2%nat, p) end.
Definition claims_code (c : jwt_claims) := (c_userId c, c_email c, c_jti c, c_iat c, c_exp c, c_iss c, c_aud c).
Definition claims_of x : jwt_claims :=
  let '(u, m, j, i, x, s, a) := x in {| c_userId := u; c_email := m; c_jti := j; c_iat := i; c_exp := x; c_iss := s; c_aud := a |}.

Definition text_sign (k : jwt_key) (h : jwt_header) (c : jwt_claims) : string := Businesses.show_bits (encode ((key_code k, (h_alg h, h_kid h)), claims_code c)).
Definition text_read (t : string) : option ((nat * string) * jwt_header * jwt_claims) :=
  match Businesses.read_bits t ≫= decode with
  | Some ((k, (a, d)), c) => Some (k, {| h_alg := a; h_kid := d |}, claims_of c)
  | None => None
  end.

Lemma text_read_sign k h c : text_read (text_sign k h c) = Some (key_code k, h, c).
Proof. unfold text_read, text_sign. rewrite Businesses.read_show_bits. cbn [mbind option_bind]. rewrite decode_encode. by destruct h, c. Qed.

Definition text_verify (now : Z) (k : jwt_key) (o : verify_options) (t : string) : option jwt_claims :=
  match text_read t with
  | Some ((n, s), h, c) =>
      if (match n, k with O, Secret s' => String.eqb s s' | S O, VerifyWith q => String.eqb s q | _, _ => false end) &&
         includes (h_alg h) (o_algorithms o) && claims_valid now o c
      then Some c else None
  | None => None
  end.

#[local] Instance text_library : JwtLibrary.
Proof.
  refine {| key_pair := String.eqb; jwt_sign := text_sign; jwt_decode t := (λ x, x.1.2) <$> text_read t; jwt_verify := text_verify |}.
  - intros k. apply String.eqb_refl.
  - intros k h c. by rewrite text_read_sign.
  - intros now k k' o h c. unfold text_verify. rewrite text_read_sign. by destruct k, k'.
  - intros now k o t c. unfold text_verify. destruct (text_read t) as [[[[n s] h] c']|]; [|done].
    destruct (_ && includes _ _) eqn:E; cbn [andb]; [|done]. destruct (claims_valid now o c') eqn:Ec; [|done]. intros [= <-].
    apply andb_true_iff in E as [_ E%includes_spec]. split; [|done]. by exists h.
Defined.

Definition no_secret : result secret_error string := Err (SecretNotFoundError "JWT_SECRET").
Definition dev : jwt_env :=
  {| JWT_SECRET := no_secret; config_jwtSecret := None; production := false; JWT_REFRESH_SECRET := no_secret; env_refresh_secret := None;
     JWT_ISSUER := "api"; JWT_AUDIENCE := "client"; JWT_REFRESH_AUDIENCE := "refresh" |}.
Definition alice : TokenPayload := {| userId := "u1"; email := "a@x" |}.
Definition text_of (r : result jwt_secret_error string) : string := match r with Ok t => t | Err _ => EmptyString end.

Definition dev_token : string := text_of (generateToken dev None 100 "j" alice).
Definition ring_token : string := text_of (generateToken dev (signingKey first_keys) 100 "j" alice).
Definition refresh_token : string := text_of (generateRefreshToken dev 100 "j" alice).

Example ring_token_kid : jwt_decode ring_token ≫= h_kid = Some "k1".
Proof. vm_compute. reflexivity. Qed.

(** Under one audience and one secret a refresh token is an access token. *)
Definition merged : jwt_env :=
  {| JWT_SECRET := Ok "s"; config_jwtSecret := None; production := true; JWT_REFRESH_SECRET := no_secret; env_refresh_secret := None;
     JWT_ISSUER := "api"; JWT_AUDIENCE := "same"; JWT_REFRESH_AUDIENCE := "same" |}.
Example one_audience_mixes_kinds :
  c_userId <$> fst (verifyToken merged 200000 (text_of (generateRefreshToken merged 100 "j" alice)) new_manager) = Some "u1".
Proof. vm_compute. reflexivity. Qed.

Lemma access_token_accepted_witness :
  fst (verifyToken dev 3699999 dev_token new_manager) = Some (claims_for dev 100 3600 "client" "j" alice).
Proof.
  rewrite (access_token_accepted dev None new_manager 100 3699999 "j" alice dev_token); [vm_compute; reflexivity|vm_compute; reflexivity|exact I].
Defined.

Lemma token_kinds_apart_witness :
  (generateRefreshToken dev 100 "j" alice = Ok refresh_token → fst (verifyToken dev 200000 refresh_token new_manager) = None) ∧
  (generateToken dev None 100 "j" alice = Ok refresh_token → verifyRefreshToken dev 200000 refresh_token = None).
Proof. apply (token_kinds_apart dev None new_manager 100 200000 "j" alice refresh_token). discriminate. Defined.

Lemma accepted_token_checked_witness :
  let c := claims_for dev 100 3600 "client" "j" alice in
  (∃ h, jwt_decode dev_token = Some h ∧
    ((∃ k b, h_kid h = Some k ∧ k ≠ EmptyString ∧ fst (getVerificationKey 200000 k new_manager) = Some b ∧ h_alg h = alg_name (alg b)) ∨
     (truthy_text (h_kid h) = None ∧ h_alg h = "HS256" ∧ ∃ s, getPrimaryJwtSecret dev = Ok s))) ∧
  (∀ x, c_exp c = Some x → 200 < x) ∧ c_iss c = Some "api" ∧ c_aud c = Some "client".
Proof. apply (accepted_token_checked dev 200000 dev_token new_manager). vm_compute. reflexivity. Defined.

Lemma reloaded_key_accepts_its_tokens_witness :
  fst (verifyToken dev 200000 ring_token first_keys) = Some (claims_for dev 100 3600 "client" "j" alice).
Proof.
  destruct (signingKey first_keys) as [b|] eqn:Eb; [|vm_compute in Eb; discriminate Eb].
  rewrite (reloaded_key_accepts_its_tokens dev constant_hash no_text opaque_text constant_hash_ok (with_key 1000 "one" "k1") new_manager first_keys b
    100 200000 "j" alice ring_token); [vm_compute; reflexivity|vm_compute; reflexivity|exact Eb| |vm_compute; reflexivity].
  intros raw l Hr. discriminate Hr.
Defined.
End Concrete.
