(* ===== verification/AttestationRoutes.v ===== *)
(** * The routes of attestations: [src/routes/attestations.ts], with
    [getPagination] of [src/utils/pagination.ts] and [list] of
    [src/repositories/attestationRepository.ts].

    A handler takes the validated request and the user's id; the answers of
    the chain are those of [SorobanSubmission], the rows those of
    [AttestationRepository].  [formatPaginatedResponse] is exported nowhere in
    the program and is a parameter; [checks] stands for
    [RevenuePipeline.integrateRevenueChecks] at the time and its baseline.  Rows created in one microsecond are
    listed in the order of the table.  [uuid_in] is PostgreSQL's reading of an
    identifier, [None] being its error.  Revoking is cut at its [await]s, and
    its queries may fail; in the other routes the database answers.  Rate limits and idempotency stand in
    front of the handlers and are modelled with their components. *)

From Stdlib Require QArith.QArith_base.
From S2P Require Import Prelude Numeric Hashing JsString Words Collections.
From S2P Require Merkle SorobanSubmission DegradedQueue AttestationRepository AuditChain Businesses RevenuePipeline Doubles Anomaly Reminders.
Import AttestationRepository.Repo.
Import Prelude.Replies.
#[local] Open Scope Z_scope.

Inductive http_error := HttpError (status : Z) (code : string) | Unhandled.

(** ** Requests *)

(** [none] is [Number.isInteger] failing on [Number(s)]. *)
Section Schemas.
Context (to_integer : string → option Z).

Definition sized (lo hi : nat) (s : string) : bool := ((lo <=? String.length s) && (String.length s <=? hi))%nat.

(** An optional text of bounded length. *)
Definition optional_text (hi : nat) (f : option string) : option (option string) :=
  match f with None => Some None | Some s => if sized 1 hi s then Some (Some s) else None end.

Definition coerced (lo hi : Z) (fallback : Z) (f : option string) : option Z :=
  match f with
  | None => Some fallback
  | Some s => match to_integer s with Some n => if (lo <=? n) && (n <=? hi) then Some n else None | None => None end
  end.

Inductive status_filter := only_submitted | only_revoked.
Definition status_of (s : string) : option status_filter :=
  if String.eqb s "submitted" then Some only_submitted else if String.eqb s "revoked" then Some only_revoked else None.

Record list_query := { q_businessId : option string; q_period : option string; q_status : option status_filter; q_page : Z; q_limit : Z }.

(** [MAX] bounds the page numbers [z.number().int()] takes. *)
Definition listQuerySchema (MAX : Z) (query : list (string * string)) : option list_query :=
  if forallb (λ kv, existsb (String.eqb kv.1) ["businessId"; "period"; "status"; "page"; "limit"]) query
  then
    optional_text 255 (map_get "businessId" query) ≫= λ b,
    optional_text 50 (map_get "period" query) ≫= λ p,
    (match map_get "status" query with None => Some None | Some s => Some <$> status_of s end) ≫= λ st,
    coerced 1 MAX 1 (map_get "page" query) ≫= λ pg,
    coerced 1 100 20 (map_get "limit" query) ≫= λ l,
    Some {| q_businessId := b; q_period := p; q_status := st; q_page := pg; q_limit := l |}
  else None.
End Schemas.

Definition ATTESTATION_ID_MAX_LENGTH : nat := 512.

(** [SAFE_ID_PATTERN] *)
Definition safe_char (c : ascii) : bool := negb (in_range 0 31 c) && negb (in_range 127 127 c).

Definition parseIdParam (i : string) : result http_error string :=
  if is_empty i then Err (HttpError 400 "VALIDATION_ERROR")
  else if (ATTESTATION_ID_MAX_LENGTH <? String.length i)%nat then Err (HttpError 400 "VALIDATION_ERROR")
  else if string_forallb safe_char i then Ok i
  else Err (HttpError 400 "VALIDATION_ERROR").

(** [page] and [limit] are numbers that passed the schema. *)
Definition getPagination (page limit : Z) : Z * Z * Z :=
  let p := Z.max 1 (if page =? 0 then 1 else page) in
  let l := Z.min 100 (Z.max 1 (if limit =? 0 then 20 else limit)) in
  (p, l, (p - 1) * l).

(** ** Rows *)

Inductive route_status := rs_submitted | rs_revoked.
#[export] Instance route_status_eq_dec : EqDecision route_status.
Proof. solve_decision. Defined.

(** [timestamp] is never sent back. *)
Record RouteAttestation := {
  ra_id : string; ra_businessId : string; ra_period : string; ra_attestedAt : Z; ra_merkleRoot : string; ra_txHash : string;
  ra_status : route_status; ra_revokedAt : option Z; ra_version : Z
}.

Definition view (r : Attestation) : RouteAttestation :=
  {| ra_id := id r; ra_businessId := businessId r; ra_period := period r; ra_attestedAt := createdAt r; ra_merkleRoot := merkleRoot r;
     ra_txHash := txHash r; ra_status := if decide (status r = revoked) then rs_revoked else rs_submitted;
     ra_revokedAt := if decide (status r = revoked) then Some (updatedAt r) else None; ra_version := version r |}.

(** [attestationRepository.list] with a [businessId] filter. *)
Definition list_rows (biz : string) (limit offset : Z) (t : table) : table * Z :=
  let mine := List.filter (λ r, String.eqb (businessId r) biz) t in
  (take (Z.to_nat limit) (drop (Z.to_nat offset) (js_sort (λ a b, createdAt b - createdAt a) mine)), Z.of_nat (length mine)).

Definition listByBusinessId (biz : string) (page limit : Z) (t : table) : list RouteAttestation * Z :=
  let '(rows, total) := list_rows biz limit ((page - 1) * limit) t in (map view rows, total).

Definition route_getById (i biz : string) (t : table) : option RouteAttestation :=
  match getById i t with Some r => if String.eqb (businessId r) biz then Some (view r) else None | None => None end.

Definition resolveBusinessIdForUser (u : string) (m : Businesses.businesses) : option string := Businesses.id <$> Businesses.getByUserId u m.

(** A value that counts as one in JavaScript. *)
Definition truthy_id (o : option string) : option string := match o with Some EmptyString => None | _ => o end.

(** ** Reading *)

Definition passes (q : list_query) (a : RouteAttestation) : bool :=
  match q_period q with Some p => String.eqb (ra_period a) p | None => true end &&
  match q_status q with
  | Some only_submitted => bool_decide (ra_status a = rs_submitted)
  | Some only_revoked => bool_decide (ra_status a = rs_revoked)
  | None => true
  end.

Definition list_route {page : Type} (formatPaginatedResponse : list RouteAttestation → Z → Z → Z → page)
    (u : string) (q : list_query) (m : Businesses.businesses) (t : table) : result http_error page :=
  match truthy_id (match q_businessId q with Some b => Some b | None => resolveBusinessIdForUser u m end) with
  | None => Err (HttpError 404 "BUSINESS_NOT_FOUND")
  | Some biz =>
      let '(pg, limit, _) := getPagination (q_page q) (q_limit q) in
      let '(items, total) := listByBusinessId biz pg limit t in
      Ok (formatPaginatedResponse (List.filter (passes q) items) total pg limit)
  end.

Section ById.
Context (uuid_in : string → option string).

(** The business of the user, then the row, if it is that business's; the
    query fails on a text that is no identifier. *)
Definition own_row (u i : string) (m : Businesses.businesses) (t : table) : result http_error RouteAttestation :=
  match truthy_id (resolveBusinessIdForUser u m) with
  | None => Err (HttpError 404 "BUSINESS_NOT_FOUND")
  | Some biz =>
      match uuid_in i with
      | None => Err Unhandled
      | Some i => match route_getById i biz t with None => Err (HttpError 404 "ATTESTATION_NOT_FOUND") | Some a => Ok a end
      end
  end.

Definition get_route (u i : string) (m : Businesses.businesses) (t : table) : result http_error RouteAttestation :=
  match parseIdParam i with Err e => Err e | Ok i => own_row u i m t end.

(** [leaves] and [leafIndex] passed the schema: no leaf is empty, there is one,
    and the index is not negative. *)
Definition proof_route (hash : string → string) (u i : string) (leaves : list string) (leafIndex : Z) (m : Businesses.businesses) (t : table)
  : result http_error (string * list Merkle.proof_step * string) :=
  match parseIdParam i with
  | Err e => Err e
  | Ok i =>
      match own_row u i m t with
      | Err e => Err e
      | Ok a =>
          if decide (ra_status a = rs_revoked) then Err (HttpError 404 "ATTESTATION_NOT_FOUND")
          else if (leafIndex <? 0) || (Z.of_nat (length leaves) <=? leafIndex) then Err (HttpError 404 "LEAF_NOT_FOUND")
          else
            let leaf := leaves !!! Z.to_nat leafIndex in
            if is_empty (ra_merkleRoot a) then Err (HttpError 404 "MERKLE_ROOT_NOT_FOUND")
            else
              match Merkle.generateProof hash leaves (Some leafIndex) with
              | Err _ => Err Unhandled
              | Ok p =>
                  if Merkle.verifyProof hash (Some leaf) (Merkle.forget_proof p) (Some (ra_merkleRoot a))
                  then Ok (leaf, p, ra_merkleRoot a)
                  else Err (HttpError 400 "INVALID_LEAVES")
              end
      end
  end.

(** ** Revoking *)

(** The [catch]: what is not an [AppError] becomes one. *)
Definition revoke_error (e : http_error) : http_error :=
  match e with HttpError _ _ => e | Unhandled => HttpError 500 "REVOKE_FAILED" end.

(** [handleRevoke] up to the update: an answer, or the row to revoke.  [ok]:
    the queries for the business and the row are answered. *)
Definition revoke_begin (ok : bool) (u i : string) (m : Businesses.businesses) (t : table) : result http_error string :=
  match parseIdParam i with
  | Err e => Err e
  | Ok i =>
      if negb ok then Err (revoke_error Unhandled)
      else match own_row u i m t with
           | Err e => Err (revoke_error e)
           | Ok a => if decide (ra_status a = rs_revoked) then Err (HttpError 400 "ALREADY_REVOKED") else Ok i
           end
  end.

(** The update and the answer; [reason] is read and not used. *)
Definition revoke_end (rep : reply) (now : Z) (i : string) (t : table) : result http_error RouteAttestation * table :=
  match uuid_in i with
  | None => (Err (revoke_error Unhandled), t)
  | Some i =>
      let '(updated, t') := updateStatus now i revoked None t in
      let t' := if applied rep then t' else t in
      if answered rep
      then match updated with
           | Ok (Some r) => (Ok (view r), t')
           | _ => (Err (HttpError 500 "REVOKE_FAILED"), t')
           end
      else (Err (revoke_error Unhandled), t')
  end.

(** Both, with the table as the queries find it ([t]) and as the update finds
    it ([t']). *)
Definition handleRevoke (ok : bool) (rep : reply) (now : Z) (u i : string) (m : Businesses.businesses) (t t' : table)
  : result http_error RouteAttestation * table :=
  match revoke_begin ok u i m t with Err e => (Err e, t') | Ok i => revoke_end rep now i t' end.
End ById.

(** ** Submitting *)

Abbreviation chain_params := SorobanSubmission.SubmitAttestationParams.
Abbreviation chain_result := SorobanSubmission.SubmitAttestationResult.

(** The environment of one submission, and what the chain answers. *)
Record submit_env := {
  submissionEnabled : bool; sourceKey : option string; queueEnabled : bool; queueLimit : Z;
  chain : chain_params → result SorobanSubmission.thrown chain_result
}.

Definition pending_result (uuid : string) : chain_result :=
  {| SorobanSubmission.txHash := "pending_" +:+ uuid; SorobanSubmission.status := SorobanSubmission.pending; SorobanSubmission.unsignedXdr := None;
     SorobanSubmission.ledger := None; SorobanSubmission.resultMerkleRoot := None; SorobanSubmission.resultTimestamp := None |}.
Definition queued_result (uuid : string) : chain_result :=
  {| SorobanSubmission.txHash := "queued_" +:+ uuid; SorobanSubmission.status := SorobanSubmission.queued; SorobanSubmission.unsignedXdr := None;
     SorobanSubmission.ledger := None; SorobanSubmission.resultMerkleRoot := None; SorobanSubmission.resultTimestamp := None |}.

Definition gateway_codes : list string :=
  ["SUBMIT_FAILED"; "SOROBAN_NETWORK_ERROR"; "INVALID_RESPONSE"; "CONFIRMATION_FAILED"; "RESULT_VALIDATION_FAILED"; "RESULT_MISMATCH"].

Record state := {
  rows : table; queue : DegradedQueue.queue; logs : list AuditChain.AuditLog; published : list (string * string) (* business, attestation *)
}.
Definition with_rows (t : table) (s : state) : state := {| rows := t; queue := queue s; logs := logs s; published := published s |}.
Definition with_queue (q : DegradedQueue.queue) (s : state) : state := {| rows := rows s; queue := q; logs := logs s; published := published s |}.
Definition with_logs (l : list AuditChain.AuditLog) (s : state) : state := {| rows := rows s; queue := queue s; logs := l; published := published s |}.
Definition publish (biz i : string) (s : state) : state :=
  {| rows := rows s; queue := queue s; logs := logs s; published := published s ++ [(biz, i)] |}.

Section Submit.
Context (hmac sha256 : string → string) (toISOString : Z → string) (String_of : SorobanSubmission.js_timestamp → string)
  (failure_metadata : string → chain_params → string).

(** [fresh]: the identifiers drawn; the user of a request is known. *)
Record request_ids := { uuid : string; row_id : string; log_id : string }.

Definition failure_log (u : string) (code : string) (p : chain_params) : AuditChain.AuditLogInput :=
  {| AuditChain.in_userId := u; AuditChain.in_action := "ATTESTATION_SUBMIT_FAILED"; AuditChain.in_resource := "attestation";
     AuditChain.in_resourceId := Some (SorobanSubmission.business p); AuditChain.in_metadata := Some (failure_metadata code p);
     AuditChain.in_contentHash := None |}.

(** The parameters of the queue leave the keys out. *)
Definition queue_params (u : string) (p : chain_params) : chain_params :=
  {| SorobanSubmission.business := SorobanSubmission.business p; SorobanSubmission.period := SorobanSubmission.period p;
     SorobanSubmission.merkleRoot := SorobanSubmission.merkleRoot p; SorobanSubmission.timestamp := SorobanSubmission.timestamp p;
     SorobanSubmission.version := SorobanSubmission.version p; SorobanSubmission.sourcePublicKey := EmptyString; SorobanSubmission.signerSecret := None;
     SorobanSubmission.submit := Some (default true (SorobanSubmission.submit p)); SorobanSubmission.userId := Some u |}.

Definition queue_key (u : string) (p : chain_params) : string :=
  SorobanSubmission.business p +:+ ":" +:+ SorobanSubmission.period p +:+ ":" +:+ u.

(** An open circuit: the submission is put on the queue, when it can be. *)
Definition enqueue_degraded (v : submit_env) (ids : request_ids) (now : Z) (u : string) (p : chain_params) (s : state)
  : result http_error chain_result * state :=
  let '(r, q) := DegradedQueue.enqueueQueuedAttestation sha256 String_of (queueEnabled v) (queueLimit v) (queue_params u p) (Some (queue_key u p)) now (queue s) in
  match r with
  | Ok _ => (Ok (queued_result (uuid ids)), with_queue q s)
  | Err _ => (Err (HttpError 503 "SOROBAN_DEGRADED"), with_queue q s)
  end.

(** What a failure of the chain becomes. *)
Definition chain_failure (v : submit_env) (ids : request_ids) (now : Z) (u : string) (p : chain_params) (e : SorobanSubmission.thrown) (s : state)
  : result http_error chain_result * state :=
  match e with
  | SorobanSubmission.CircuitBreakerOpen => enqueue_degraded v ids now u p s
  | SorobanSubmission.OtherError => (Err Unhandled, s)
  | SorobanSubmission.SorobanSubmissionError code =>
      if String.eqb code "VALIDATION_ERROR" then (Err (HttpError 400 code), s)
      else if String.eqb code "MISSING_SIGNER" || String.eqb code "SIGNER_MISMATCH" then (Err (HttpError 503 code), s)
      else if existsb (String.eqb code) gateway_codes
      then (Err (HttpError 502 code),
            with_logs (AuditChain.createAuditLog hmac sha256 toISOString (log_id ids) now (failure_log u code p) None (logs s)).2 s)
      else if String.eqb code "SOROBAN_CIRCUIT_BREAKER_OPEN" then enqueue_degraded v ids now u p s
      else (Err Unhandled, s)
  end.

Definition submitOnChain (v : submit_env) (ids : request_ids) (now : Z) (u : string) (p : chain_params) (s : state)
  : result http_error chain_result * state :=
  let shouldSubmit := default true (SorobanSubmission.submit p) in
  if shouldSubmit && negb (submissionEnabled v) then (Ok (pending_result (uuid ids)), s)
  else
    match truthy_id (sourceKey v) with
    | None => (Err (HttpError 503 "SOROBAN_NOT_CONFIGURED"), s)
    | Some key =>
        let p' := {| SorobanSubmission.business := SorobanSubmission.business p; SorobanSubmission.period := SorobanSubmission.period p;
                     SorobanSubmission.merkleRoot := SorobanSubmission.merkleRoot p; SorobanSubmission.timestamp := SorobanSubmission.timestamp p;
                     SorobanSubmission.version := SorobanSubmission.version p; SorobanSubmission.sourcePublicKey := key;
                     SorobanSubmission.signerSecret := SorobanSubmission.signerSecret p; SorobanSubmission.submit := Some shouldSubmit;
                     SorobanSubmission.userId := SorobanSubmission.userId p |} in
        match chain v p' with
        | Ok r => (Ok r, s)
        | Err e => chain_failure v ids now u p e s
        end
    end.

(** A body that passed the schema. *)
Record submit_body := {
  b_businessId : option string; b_period : string; b_merkleRoot : option string; b_timestamp : option Z; b_version : string;
  b_submit : option bool; b_revenueEntries : option (list RevenuePipeline.RawRevenueInput); b_monthlySeries : option (list Anomaly.MonthlyRevenue)
}.

Inductive submit_response :=
| Created (a : RouteAttestation) (onChain : chain_result) (summary : option RevenuePipeline.AttestationRevenueSummary)
| Accepted (biz root : string) (onChain : chain_result).

(** The root to attest: of the revenue package, or given. *)
Definition root_of (checks : list RevenuePipeline.RawRevenueInput → list Anomaly.MonthlyRevenue → result RevenuePipeline.pipeline_error RevenuePipeline.AttestationRevenueSummary)
    (b : submit_body) : result http_error (string * option RevenuePipeline.AttestationRevenueSummary) :=
  match b_revenueEntries b with
  | Some ((_ :: _) as entries) =>
      match checks entries (default [] (b_monthlySeries b)) with
      | Err _ => Err Unhandled
      | Ok summary =>
          if (RevenuePipeline.shouldProceedWithAttestation summary).1 then Ok (RevenuePipeline.merkleRoot summary, Some summary)
          else Err (HttpError 400 "VALIDATION_ERROR")
      end
  | _ => match truthy_id (b_merkleRoot b) with Some r => Ok (r, None) | None => Err (HttpError 400 "VALIDATION_ERROR") end
  end.

Definition post_business (u : string) (b : submit_body) (m : Businesses.businesses) : result http_error string :=
  let own := resolveBusinessIdForUser u m in
  match truthy_id (match b_businessId b with Some x => Some x | None => own end) with
  | None => Err (HttpError 404 "BUSINESS_NOT_FOUND")
  | Some biz =>
      match truthy_id (b_businessId b), truthy_id own with
      | Some x, Some y => if String.eqb x y then Ok biz else Err (HttpError 403 "FORBIDDEN")
      | _, _ => Ok biz
      end
  end.

Definition attestation_params (u biz root : string) (now : Z) (b : submit_body) : chain_params :=
  {| SorobanSubmission.business := biz; SorobanSubmission.period := b_period b; SorobanSubmission.merkleRoot := root;
     SorobanSubmission.timestamp := SorobanSubmission.Num (Some (QArith_base.inject_Z (default now (b_timestamp b)))); SorobanSubmission.version := b_version b;
     SorobanSubmission.sourcePublicKey := EmptyString; SorobanSubmission.signerSecret := None; SorobanSubmission.submit := b_submit b;
     SorobanSubmission.userId := Some u |}.

Definition saveAttestation (ids : request_ids) (now : Z) (biz per root tx : string) (t : table) : result http_error RouteAttestation * table :=
  match create (row_id ids) now {| c_businessId := biz; c_period := per; c_merkleRoot := root; c_txHash := tx; c_status := submitted |} t with
  | (Ok r, t) => (Ok {| ra_id := id r; ra_businessId := businessId r; ra_period := period r; ra_attestedAt := createdAt r; ra_merkleRoot := merkleRoot r;
                        ra_txHash := txHash r; ra_status := rs_submitted; ra_revokedAt := None; ra_version := version r |}, t)
  | (Err _, t) => (Err Unhandled, t)
  end.

Definition post_route (checks : list RevenuePipeline.RawRevenueInput → list Anomaly.MonthlyRevenue → result RevenuePipeline.pipeline_error RevenuePipeline.AttestationRevenueSummary)
    (v : submit_env) (ids : request_ids) (now : Z) (u : string) (b : submit_body) (m : Businesses.businesses) (s : state)
  : result http_error submit_response * state :=
  match post_business u b m with
  | Err e => (Err e, s)
  | Ok biz =>
      match root_of checks b with
      | Err e => (Err e, s)
      | Ok (root, summary) =>
          match submitOnChain v ids now u (attestation_params u biz root now b) s with
          | (Err e, s) => (Err e, s)
          | (Ok onChain, s) =>
              match SorobanSubmission.status onChain with
              | SorobanSubmission.queued => (Ok (Accepted biz root onChain), s)
              | _ =>
                  match saveAttestation ids now biz (b_period b) root (SorobanSubmission.txHash onChain) (rows s) with
                  | (Err e, t) => (Err e, with_rows t s)
                  | (Ok saved, t) => (Ok (Created saved onChain summary), publish biz (ra_id saved) (with_rows t s))
                  end
              end
          end
      end
  end.
End Submit.

(** ** Properties *)

Lemma truthy_some o b : truthy_id o = Some b → o = Some b ∧ b ≠ EmptyString.
Proof. destruct o as [[]|]; try done. by intros [= <-]. Qed.

(** Whoever is logged in can list the attestations of any business: with a
    business in the query the answer does not depend on the user. *)
Theorem listing_ignores_user {page} (format : list RouteAttestation → Z → Z → Z → page) u u' q m m' t b :
  q_businessId q = Some b → list_route format u q m t = list_route format u' q m' t ∧
  (b ≠ EmptyString → ∃ pg, list_route format u q m t = Ok pg).
Proof.
  intros Hb. unfold list_route. rewrite Hb. split; [done|]. intros Hne. destruct b; [done|]. cbn [truthy_id].
  destruct (getPagination _ _) as [[pg limit] off], (listByBusinessId _ _ _ _). by eexists.
Qed.

Lemma find_filter {A} (p : A → bool) l : List.find p l = head (List.filter p l).
Proof. induction l as [|x l IH]; [done|]. cbn. by destruct (p x). Qed.

Lemma own_row_spec uuid_in u i m t a : own_row uuid_in u i m t = Ok a →
  ∃ k r, uuid_in i = Some k ∧ getById k t = Some r ∧ a = view r ∧ resolveBusinessIdForUser u m = Some (businessId r) ∧ businessId r ≠ EmptyString.
Proof.
  unfold own_row. destruct (truthy_id _) as [biz|] eqn:E; [|done]. apply truthy_some in E as [E Hne].
  destruct (uuid_in i) as [k|]; [|done]. unfold route_getById.
  destruct (getById k t) as [r|] eqn:Hr; [|done]. destruct (String.eqb_spec (businessId r) biz) as [<-|]; [|done]. intros [= <-]. by exists k, r.
Qed.

Lemma parse_id i j : parseIdParam i = Ok j → j = i.
Proof. unfold parseIdParam. destruct (is_empty i); [done|]. destruct (_ <? _)%nat; [done|]. destruct (string_forallb _ _); [|done]. by intros [= <-]. Qed.

(** Reading one attestation, unlike listing, is confined to the user's own
    business: what it answers is the row by that identifier, and it belongs to
    the business of the user. *)
Theorem reading_is_own uuid_in u i m t a :
  get_route uuid_in u i m t = Ok a →
  ∃ k r, uuid_in i = Some k ∧ getById k t = Some r ∧ a = view r ∧ resolveBusinessIdForUser u m = Some (businessId r).
Proof.
  unfold get_route. destruct (parseIdParam i) as [j|] eqn:E; [|done]. apply parse_id in E as ->.
  intros (k & r & H1 & H2 & H3 & H4 & _)%own_row_spec. by exists k, r.
Qed.


(** The update of a row by its key, as the table has it. *)
Lemma revoke_update now k t :
  (updateStatus now k revoked None t).1 = Ok (set_status now revoked <$> getById k t) ∧
  (updateStatus now k revoked None t).2 = AttestationRepository.Batch.mark now [k] t.
Proof.
  split; [|apply AttestationRepository.Batch.updateStatus_mark].
  unfold updateStatus, sql_update, updated_or_conflict, getById. rewrite find_filter.
  assert (List.filter (where_id k None) t = List.filter (has_id k) t) as ->.
  { apply List.filter_ext. intros x. unfold where_id. by rewrite andb_true_r. }
  by destruct (List.filter (has_id k) t).
Qed.

Lemma revoke_end_spec uuid_in rep now i k t :
  uuid_in i = Some k →
  revoke_end uuid_in rep now i t =
    (match rep, getById k t with
     | Answered, Some r => Ok (view (set_status now revoked r))
     | _, _ => Err (HttpError 500 "REVOKE_FAILED")
     end, if applied rep then AttestationRepository.Batch.mark now [k] t else t).
Proof.
  intros Hk. unfold revoke_end. rewrite Hk. destruct (revoke_update now k t) as [H1 H2].
  destruct (updateStatus now k revoked None t) as [x t']. cbn in H1, H2. subst x t'.
  destruct rep; cbn; [by destruct (getById k t)|done..].
Qed.


(** Between its read and its update nothing holds the row: two revocations
    that both read it before either updates both succeed. *)
Lemma overlapping_revokes_both_succeed uuid_in u i m t now now' :
  is_ok (revoke_begin uuid_in true u i m t) = true →
  let '(a, t1) := handleRevoke uuid_in true Answered now u i m t t in
  let '(b, t2) := handleRevoke uuid_in true Answered now' u i m t t1 in
  is_ok a = true ∧ is_ok b = true.
Proof.
  unfold handleRevoke. destruct (revoke_begin uuid_in true u i m t) as [j|] eqn:Hb; [|done]. intros _.
  unfold revoke_begin in Hb. destruct (parseIdParam i) as [j'|] eqn:E; [|done]. apply parse_id in E as ->. cbn in Hb.
  destruct (own_row uuid_in u i m t) as [a|] eqn:Eo; [|done]. apply own_row_spec in Eo as (k & r & Hk & Hr & -> & _).
  case_match; [done|]. injection Hb as <-. rewrite !(revoke_end_spec uuid_in _ _ i k) by done. rewrite Hr. cbn [applied].
  assert (∃ r', getById k (AttestationRepository.Batch.mark now [k] t) = Some r') as [r' ->]; [|done].
  clear -Hr. unfold getById, AttestationRepository.Batch.mark in *. induction t as [|x t IH]; [done|]. cbn [map List.find] in *.
  assert (has_id k (if includes (id x) [k] then set_status now revoked x else x) = has_id k x) as -> by (by case_if).
  destruct (has_id k x); [by eexists|by apply IH].
Qed.

(** A proof is served only if it verifies the chosen leaf against the root
    that was attested; and it is served whenever the leaves are those of the
    attested tree. *)
Theorem served_proof_verifies uuid_in hash `{!HexDigest hash} u i leaves k m t a :
  parseIdParam i = Ok i → own_row uuid_in u i m t = Ok a → ra_status a = rs_submitted → (k < length leaves)%nat →
  (∀ leaf p root, proof_route uuid_in hash u i leaves (Z.of_nat k) m t = Ok (leaf, p, root) →
     leaf = leaves !!! k ∧ root = ra_merkleRoot a ∧ Merkle.verifyProof hash (Some leaf) (Merkle.forget_proof p) (Some root) = true) ∧
  (∀ max tree, max ≤ 16777216 → Merkle.buildTree hash max leaves = Ok tree → ra_merkleRoot a = Merkle.getRoot tree →
     ∃ p, proof_route uuid_in hash u i leaves (Z.of_nat k) m t = Ok (leaves !!! k, p, ra_merkleRoot a)).
Proof.
  intros Hi Ho Hs Hk. unfold proof_route. rewrite Hi, Ho, Hs. destruct (decide (rs_submitted = rs_revoked)); [done|].
  assert ((Z.of_nat k <? 0) || (Z.of_nat (length leaves) <=? Z.of_nat k) = false) as -> by lia. rewrite Nat2Z.id. split.
  - intros leaf p root. destruct (is_empty _); [done|]. destruct (Merkle.generateProof _ _ _) as [q|]; [|done].
    destruct (Merkle.verifyProof _ _ _ _) eqn:Ev; [|done]. by intros [= <- <- <-].
  - intros max tree Hmax Ht Hroot. destruct (Merkle.proof_of_leaf hash max leaves tree k Hmax Ht Hk) as (p & Hp & Hv & _).
    assert (is_empty (ra_merkleRoot a) = false) as ->.
    { destruct (ra_merkleRoot a) eqn:E; [|done]. rewrite <- Hroot in Hv. unfold Merkle.verifyProof in Hv. cbn in Hv. done. }
    rewrite Hp, Hroot, Hv. by exists p.
Qed.

#[local] Instance result_status_eq_dec : EqDecision SorobanSubmission.result_status.
Proof. solve_decision. Defined.

Section Posting.
Context (hmac sha256 : string → string) (toISOString : Z → string) (String_of : SorobanSubmission.js_timestamp → string)
  (failure_metadata : string → chain_params → string)
  (checks : list RevenuePipeline.RawRevenueInput → list Anomaly.MonthlyRevenue → result RevenuePipeline.pipeline_error RevenuePipeline.AttestationRevenueSummary).

Abbreviation submitOnChain := (submitOnChain hmac sha256 toISOString String_of failure_metadata).
Abbreviation chain_failure := (chain_failure hmac sha256 toISOString String_of failure_metadata).
Abbreviation enqueue_degraded := (enqueue_degraded sha256 String_of).
Abbreviation post_route := (post_route hmac sha256 toISOString String_of failure_metadata checks).

(** What the way to the chain leaves alone, and what it does to the queue. *)
Definition framed (ids : request_ids) (s : state) (out : result http_error chain_result * state) : Prop :=
  rows out.2 = rows s ∧ published out.2 = published s ∧
  (queue out.2 = queue s ∨
   DegradedQueue.store (queue out.2) = DegradedQueue.store (queue s) ++ [DegradedQueue.next (queue s)] ∧ out.1 = Ok (queued_result (uuid ids))).

Lemma frame_same ids s r : framed ids s (r, s).
Proof. split_and!; [done|done|by left]. Qed.

Lemma enqueue_degraded_frame v ids now u p s : framed ids s (enqueue_degraded v ids now u p s).
Proof.
  unfold AttestationRoutes.enqueue_degraded, DegradedQueue.enqueueQueuedAttestation.
  assert (framed ids s (Err (HttpError 503 "SOROBAN_DEGRADED"), with_queue (queue s) s)) as H by (split_and!; [done|done|by left]).
  destruct (negb _); [exact H|]. destruct (_ || _); [exact H|]. destruct (DegradedQueue.find_index _ _ _ _); [exact H|].
  destruct (_ <=? _); [exact H|]. split_and!; [done|done|by right].
Qed.

Lemma chain_failure_frame v ids now u p e s : framed ids s (chain_failure v ids now u p e s).
Proof.
  unfold AttestationRoutes.chain_failure. destruct e as [code| |]; [|apply enqueue_degraded_frame|apply frame_same].
  destruct (String.eqb code "VALIDATION_ERROR"); [apply frame_same|]. destruct (_ || _); [apply frame_same|].
  destruct (existsb _ _); [split_and!; [done|done|by left]|].
  destruct (String.eqb code _); [apply enqueue_degraded_frame|apply frame_same].
Qed.

Lemma submitOnChain_frame v ids now u p s : framed ids s (submitOnChain v ids now u p s).
Proof.
  unfold AttestationRoutes.submitOnChain. destruct (_ && _); [apply frame_same|]. destruct (truthy_id _); [|apply frame_same].
  destruct (chain v _); [apply frame_same|apply chain_failure_frame].
Qed.
Lemma saveAttestation_cases ids now biz per root tx t :
  (existsb (has_key biz per) t = false ∧ ∃ row,
     saveAttestation ids now biz per root tx t = (Ok (view row), t ++ [row]) ∧ id row = row_id ids ∧ businessId row = biz ∧ period row = per ∧
     merkleRoot row = root ∧ txHash row = tx ∧ status row = submitted ∧ version row = 1) ∨
  ((existsb (has_key biz per) t = true ∨ existsb (has_id (row_id ids)) t = true) ∧ saveAttestation ids now biz per root tx t = (Err Unhandled, t)).
Proof.
  unfold saveAttestation, create. cbn [c_businessId c_period]. destruct (existsb (has_key biz per) t); [right; split; [by left|done]|].
  destruct (existsb _ t); [right; split; [by right|done]|]. left. split; [done|].
  exists {| id := row_id ids; businessId := biz; period := per; merkleRoot := root; txHash := tx; status := submitted; version := 1; createdAt := now; updatedAt := now |}.
  by split.
Qed.

(** What a submission does to the rows, to the subscribers and to the queue
    of the degraded chain.  An answer 201 has stored one new row, with the
    business, period, root and transaction the answer reports, under a key no
    row had, and has told the subscribers of it once; an answer 202 has stored
    and told nothing, and the submission waits on the queue unless the chain
    itself said it was queued; any error leaves rows and subscribers alone. *)
Theorem posting_outcomes v ids now u b m s :
  match post_route v ids now u b m s with
  | (Ok (Created a onChain _), s') =>
      ∃ row, a = view row ∧ rows s' = rows s ++ [row] ∧ published s' = published s ++ [(businessId row, id row)] ∧
        period row = b_period b ∧ status row = submitted ∧ txHash row = SorobanSubmission.txHash onChain ∧
        existsb (has_key (businessId row) (period row)) (rows s) = false ∧
        SorobanSubmission.status onChain ≠ SorobanSubmission.queued ∧ post_business u b m = Ok (businessId row)
  | (Ok (Accepted biz _ onChain), s') =>
      rows s' = rows s ∧ published s' = published s ∧ SorobanSubmission.status onChain = SorobanSubmission.queued ∧ post_business u b m = Ok biz ∧
      (queue s' = queue s ∨ DegradedQueue.store (queue s') = DegradedQueue.store (queue s) ++ [DegradedQueue.next (queue s)])
  | (Err _, s') => rows s' = rows s ∧ published s' = published s
  end.
Proof.
  unfold AttestationRoutes.post_route. destruct (post_business u b m) as [biz|]; [|done]. destruct (root_of checks b) as [[root summary]|]; [|done].
  pose proof (submitOnChain_frame v ids now u (attestation_params u biz root now b) s) as (Hr & Hp & Hq).
  destruct (submitOnChain _ _ _ _ _ _) as [[c|e] s1]; cbn in Hr, Hp, Hq; [|done].
  assert (queue s1 = queue s ∨ DegradedQueue.store (queue s1) = DegradedQueue.store (queue s) ++ [DegradedQueue.next (queue s)]) as Hq'
    by (destruct Hq as [|[? _]]; auto).
  destruct (decide (SorobanSubmission.status c = SorobanSubmission.queued)) as [Hc|Hc]; [rewrite Hc; by rewrite Hr, Hp|].
  destruct (saveAttestation_cases ids now biz (b_period b) root (SorobanSubmission.txHash c) (rows s1)) as [[He (row & -> & Hi & Hb & Hpe & _ & Ht & Hs & _)]|[_ ->]];
    destruct (SorobanSubmission.status c) eqn:Es; try done; try (rewrite <- Hr, <- Hp; done).
  all: exists row; rewrite Hb, Hpe, Hi; cbn; rewrite <- Hr, <- Hp; split_and!; try done; by rewrite ?Hi, ?Es.
Qed.

(** The chain is asked before the rows are: a second submission of a
    business's period reaches the chain with the first one's key, and only
    then fails, as an internal error, with whatever the chain recorded left
    without a row. *)
Theorem duplicate_reaches_chain v ids now u b m s biz root sm key c :
  post_business u b m = Ok biz → root_of checks b = Ok (root, sm) → existsb (has_key biz (b_period b)) (rows s) = true →
  submissionEnabled v = true → truthy_id (sourceKey v) = Some key →
  (∀ p, SorobanSubmission.business p = biz → SorobanSubmission.period p = b_period b → chain v p = Ok c) →
  SorobanSubmission.status c ≠ SorobanSubmission.queued →
  post_route v ids now u b m s = (Err Unhandled, s).
Proof.
  intros Hb Hr Hd He Hk Hc Hq. unfold AttestationRoutes.post_route. rewrite Hb, Hr. unfold AttestationRoutes.submitOnChain. rewrite He, andb_false_r, Hk, Hc by done.
  destruct (saveAttestation_cases ids now biz (b_period b) root (SorobanSubmission.txHash c) (rows s)) as [[He' _]|[_ ->]]; [by rewrite Hd in He'|].
  unfold with_rows. destruct s. by destruct (SorobanSubmission.status c).
Qed.
End Posting.

(** A user who has a business can submit for no other; a user who has none
    can submit for any. *)
Theorem submitting_for_others u b m :
  match resolveBusinessIdForUser u m with
  | Some own => own ≠ EmptyString → ∀ biz, post_business u b m = Ok biz → biz = own
  | None => ∀ biz, b_businessId b = Some biz → biz ≠ EmptyString → post_business u b m = Ok biz
  end.
Proof.
  unfold post_business. destruct (resolveBusinessIdForUser u m) as [own|]; cbn.
  - intros Hne biz. destruct own as [|c own]; [done|]. destruct (b_businessId b) as [[|c' x]|]; cbn; [done| |by intros [= <-]].
    destruct (String.eqb_spec (String c' x) (String c own)) as [E|E]; cbn in *.
    + injection E as -> ->. rewrite Ascii.eqb_refl, String.eqb_refl. cbn. by intros [= <-].
    + destruct (_ : bool) eqn:Eb; [|done]. exfalso. apply E. by apply String.eqb_eq.
  - intros biz -> Hne. by destruct biz.
Qed.

(** ** Concrete runs *)

Definition shop : Businesses.businesses := (Businesses.create "b" 5 (Businesses.Build_CreateBusinessData "u" "Acme" "a@x" None None None None None) []).2.

Definition row_of (i biz per root : string) (st : AttestationStatus) (at_ : Z) : Attestation :=
  {| id := i; businessId := biz; period := per; merkleRoot := root; txHash := "tx"; status := st; version := 1; createdAt := at_; updatedAt := at_ |}.

Definition books : table :=
  [row_of "1" "b" "2026-01" (Merkle.getRoot Merkle.sample_tree) submitted 10; row_of "2" "b" "2026-02" "r2" revoked 20; row_of "3" "c" "2026-01" "r3" submitted 30].

Definition page_of : list RouteAttestation → Z → Z → Z → list string * Z := λ items total _ _, (map ra_id items, total).
Definition asked (st : option status_filter) (limit : Z) : list_query :=
  {| q_businessId := Some "b"; q_period := None; q_status := st; q_page := 1; q_limit := limit |}.

(** The filter on the status works on the page that was read, and the total
    counts every row: the first page of one row, asked for submitted rows, is
    empty and promises two. *)
Example filtered_after_paging :
  list_route page_of "u" (asked None 20) shop books = Ok (["2"; "1"], 2) ∧
  list_route page_of "u" (asked (Some only_submitted) 1) shop books = Ok ([], 2).
Proof. by split. Qed.

Lemma listing_ignores_user_witness :
  list_route page_of "u" (asked None 20) shop books = list_route page_of "stranger" (asked None 20) [] books ∧
  ("b" ≠ EmptyString → ∃ pg, list_route page_of "u" (asked None 20) shop books = Ok pg).
Proof. apply (listing_ignores_user page_of "u" "stranger" (asked None 20) shop [] books "b"). reflexivity. Defined.

Lemma reading_is_own_witness :
  get_route Some "u" "3" shop books = Err (HttpError 404 "ATTESTATION_NOT_FOUND") ∧
  ∃ k r, Some "2" = Some k ∧ getById k books = Some r ∧ view (row_of "2" "b" "2026-02" "r2" revoked 20) = view r ∧ resolveBusinessIdForUser "u" shop = Some (businessId r).
Proof. split; [reflexivity|]. apply reading_is_own. reflexivity. Defined.

(** A revocation, and a second one after it; one that is overtaken by the
    removal of the row; and one of a text that is no identifier. *)
Example revoked_once :
  let '(r, t) := handleRevoke Some true Answered 99 "u" "1" shop books books in
  (ra_revokedAt <$> (match r with Ok a => Some a | Err _ => None end)) = Some (Some 99) ∧
  handleRevoke Some true Answered 100 "u" "1" shop t t = (Err (HttpError 400 "ALREADY_REVOKED"), t) ∧
  handleRevoke Some true Answered 99 "u" "1" shop books [] = (Err (HttpError 500 "REVOKE_FAILED"), []) ∧
  handleRevoke (λ _, None) true Answered 99 "u" "1" shop books books = (Err (HttpError 500 "REVOKE_FAILED"), books).
Proof. vm_compute. by split_and!. Qed.

Lemma served_proof_verifies_witness :
  ∃ p, proof_route Some toy_hash "u" "1" Merkle.sample_leaves 4 shop books = Ok ("2025-05:3.20", p, Merkle.getRoot Merkle.sample_tree).
Proof.
  assert (own_row Some "u" "1" shop books = Ok (view (row_of "1" "b" "2026-01" (Merkle.getRoot Merkle.sample_tree) submitted 10))) as Ho by reflexivity.
  apply (proj2 (served_proof_verifies Some toy_hash "u" "1" Merkle.sample_leaves 4 shop books _ eq_refl Ho eq_refl ltac:(cbn; lia)) 1048576 Merkle.sample_tree).
  - lia.
  - exact Merkle.sample_tree_built.
  - reflexivity.
Defined.

Definition no_checks (e : list RevenuePipeline.RawRevenueInput) (m : list Anomaly.MonthlyRevenue) : result RevenuePipeline.pipeline_error RevenuePipeline.AttestationRevenueSummary :=
  Err RevenuePipeline.NoEntries.
Definition body (biz : option string) (per : string) : submit_body :=
  {| b_businessId := biz; b_period := per; b_merkleRoot := Some "root"; b_timestamp := None; b_version := "1.0.0"; b_submit := None;
     b_revenueEntries := None; b_monthlySeries := None |}.
Definition confirmed_result : chain_result :=
  {| SorobanSubmission.txHash := "0xabc"; SorobanSubmission.status := SorobanSubmission.confirmed; SorobanSubmission.unsignedXdr := None;
     SorobanSubmission.ledger := Some 7; SorobanSubmission.resultMerkleRoot := None; SorobanSubmission.resultTimestamp := None |}.
Definition env_of (answer : result SorobanSubmission.thrown chain_result) (enabled : bool) : submit_env :=
  {| submissionEnabled := enabled; sourceKey := Some "GKEY"; queueEnabled := true; queueLimit := 10; chain := λ _, answer |}.
Definition before : state := {| rows := books; queue := {| DegradedQueue.heap := ∅; DegradedQueue.store := []; DegradedQueue.next := 0 |}; logs := []; published := [] |}.
Definition ids1 : request_ids := {| uuid := "x"; row_id := "9"; log_id := "l" |}.
Definition post (v : submit_env) (u : string) (b : submit_body) : result http_error submit_response * state :=
  post_route (λ _, EmptyString) (λ s, s) (λ _, EmptyString) (λ _, EmptyString) (λ c _, c) no_checks v ids1 50 u b shop before.

(** With submission switched off the row says "submitted" all the same, under a
    hash no chain knows. *)
Example unsubmitted_is_submitted :
  let '(r, s) := post (env_of (Err SorobanSubmission.OtherError) false) "u" (body None "2026-03") in
  map (λ r, (period r, status r, txHash r)) (drop 3 (rows s)) = [("2026-03", submitted, "pending_x")] ∧ published s = [("b", "9")].
Proof. vm_compute. by split. Qed.

(** A repeated submission the chain's service refuses is an internal error
    here; an open circuit is an accepted request on the queue. *)
Example refusals :
  (post (env_of (Err (SorobanSubmission.SorobanSubmissionError "DEDUPED")) true) "u" (body None "2026-03")).1 = Err Unhandled ∧
  (post (env_of (Err (SorobanSubmission.SorobanSubmissionError "INVALID_RESPONSE")) true) "u" (body None "2026-03")).1 = Err (HttpError 502 "INVALID_RESPONSE") ∧
  (let '(r, s) := post (env_of (Err SorobanSubmission.CircuitBreakerOpen) true) "u" (body None "2026-03") in
   r = Ok (Accepted "b" "root" (queued_result "x")) ∧ DegradedQueue.store (queue s) = [0%nat] ∧ rows s = books).
Proof. vm_compute. by split_and!. Qed.

Lemma duplicate_reaches_chain_witness : post (env_of (Ok confirmed_result) true) "u" (body None "2026-02") = (Err Unhandled, before).
Proof.
  apply (duplicate_reaches_chain _ _ _ _ _ _ _ _ _ _ _ _ _ "b" "root" None "GKEY" confirmed_result); try reflexivity. discriminate.
Defined.
