(* ===== verification/GraphqlGuard.v ===== *)
(** * The guards of the GraphQL endpoints: [src/routes/admin.graphql.ts],
    [src/graphql/persistedQueries.ts], [src/graphql/publicAttestationSchema.ts]
    and [scripts/sync-persisted-queries.ts].

    A document is the tree the GraphQL library parses; arguments, aliases and
    directives, which the guards never look at, are left out.  HMAC is an
    argument.  A manifest is the object of its two documented fields, in that
    order, and the queries are listed as [Object.entries] lists them. *)

From S2P Require Import Prelude Numeric Hashing JsString Words Collections.
Import Words.JsonText.
#[local] Open Scope nat_scope.

(** ** Documents *)

Inductive selection :=
| Field (name : string) (sub : option (list selection))
| InlineFragment (sub : list selection)
| FragmentSpread (name : string).

Inductive operation_kind := query | mutation | subscription.
#[export] Instance operation_kind_eq_dec : EqDecision operation_kind.
Proof. solve_decision. Defined.

Inductive definition :=
| Operation (kind : operation_kind) (selections : list selection)
| Fragment (name : string) (selections : list selection).

Abbreviation document := (list definition).

(** ** The depth of the queries *)

Definition MAX_QUERY_DEPTH : nat := 5.

(** [walk]: the selections at a depth, and the deepest level seen so far. *)
Fixpoint walk_selection (s : selection) (currentDepth maxDepth : nat) : nat :=
  match s with
  | Field _ (Some sub) =>
      let maxDepth := fold_left (λ m s, walk_selection s (S currentDepth) m) sub maxDepth in
      if maxDepth <? S currentDepth then S currentDepth else maxDepth
  | _ => maxDepth
  end.

Definition walk (selections : list selection) (currentDepth maxDepth : nat) : nat :=
  let maxDepth := fold_left (λ m s, walk_selection s currentDepth m) selections maxDepth in
  if maxDepth <? currentDepth then currentDepth else maxDepth.

Definition getOperationDepth (d : document) : nat :=
  fold_left (λ m def, match def with Operation query l => walk l 1 m | _ => m end) d 0.

Inductive rejection := MutationsNotAllowed | TooDeep.

(** The validation of the operations: the first one to be rejected decides. *)
Fixpoint validate_loop (all defs : document) : option rejection :=
  match defs with
  | [] => None
  | Operation mutation _ :: _ => Some MutationsNotAllowed
  | Operation query _ :: rest => if MAX_QUERY_DEPTH <? getOperationDepth all then Some TooDeep else validate_loop all rest
  | _ :: rest => validate_loop all rest
  end.
Definition validate_operations (d : document) : option rejection := validate_loop d d.

(** ** Introspection *)

Definition INTROSPECTION_FIELD_NAMES : list string := ["__schema"; "__type"].

(** A loop that returns on [true]; [None] is a call stack that overflows. *)
Definition orelse (a b : option bool) : option bool := match a with Some false => b | _ => a end.
Definition any {A} (f : A → option bool) (l : list A) : option bool := fold_right (λ x r, orelse (f x) r) (Some false) l.

Fixpoint selection_introspects (spread : string → option bool) (s : selection) : option bool :=
  match s with
  | Field name sub =>
      if includes name INTROSPECTION_FIELD_NAMES then Some true
      else match sub with Some l => any (selection_introspects spread) l | None => Some false end
  | InlineFragment l => any (selection_introspects spread) l
  | FragmentSpread name => spread name
  end.

(** [fuel] bounds the spreads followed one inside the other. *)
Fixpoint containsIntrospectionField (fuel : nat) (fragmentMap : list (string * list selection)) (selections : list selection) : option bool :=
  any (selection_introspects (λ name,
    match map_get name fragmentMap with
    | None => Some false
    | Some sub => match fuel with O => None | S fuel => containsIntrospectionField fuel fragmentMap sub end
    end)) selections.

Definition fragment_map (d : document) : list (string * list selection) :=
  fold_left (λ m def, match def with Fragment n l => map_set n l m | _ => m end) d [].

Definition isIntrospectionQuery (fuel : nat) (d : document) : option bool :=
  any (λ def, match def with Operation _ l => containsIntrospectionField fuel (fragment_map d) l | _ => Some false end) d.

(** [true]: the document is reported. *)
Definition introspectionGateRule (enableIntrospection : bool) (fuel : nat) (d : document) : option bool :=
  if enableIntrospection then Some false else isIntrospectionQuery fuel d.

(** ** Persisted queries *)

Inductive persisted_extension := PersistedObject (sha256Hash : option string) | PersistedText (s : string).
Record graphql_params := {
  p_query : option string; p_persistedQuery : option persisted_extension; p_documentId : option string; p_queryId : option string
}.

Definition truthy (o : option string) : bool := match o with Some s => negb (is_empty s) | None => false end.

Definition extractPersistedKey (p : graphql_params) : option string :=
  match p_persistedQuery p with
  | Some (PersistedText s) => Some s
  | o =>
      let hash := match o with Some (PersistedObject h) => h | _ => None end in
      if truthy hash then hash else if truthy (p_documentId p) then p_documentId p else p_queryId p
  end.

(** The registry: hashes to queries. *)
Abbreviation registry := (list (string * string)).
Definition registry_has (r : registry) (k : string) : bool := match map_get k r with Some _ => true | None => false end.

Inductive params_rejection := PERSISTED_QUERY_ONLY | PERSISTED_QUERY_NOT_FOUND.
Definition onParams (allowArbitraryOperations : bool) (store : registry) (p : graphql_params) : option params_rejection :=
  if allowArbitraryOperations then None
  else
    let key := extractPersistedKey p in
    if negb (truthy key) && truthy (p_query p) then Some PERSISTED_QUERY_ONLY
    else if truthy key && negb (registry_has store (default EmptyString key)) then Some PERSISTED_QUERY_NOT_FOUND
    else None.

(** The status of the answer; [errors] is the number of errors of a JSON body. *)
Definition onResponse (allowArbitraryOperations : bool) (status : Z) (errors : option nat) : Z :=
  if negb allowArbitraryOperations && (status =? 200)%Z then
    match errors with Some (S _) => 400%Z | _ => status end
  else status.

Inductive registry_error := HashCollisionError (hash : string) | ManifestSignatureError.

(** Names an object literal answers without having them. *)
Definition inherited : list string :=
  ["constructor"; "hasOwnProperty"; "isPrototypeOf"; "propertyIsEnumerable"; "toLocaleString"; "toString"; "valueOf"; "__proto__";
   "__defineGetter__"; "__defineSetter__"; "__lookupGetter__"; "__lookupSetter__"].

Fixpoint validate_queries (queries validated : registry) : result registry_error registry :=
  match queries with
  | [] => Ok validated
  | (h, q) :: rest =>
      match map_get h validated with
      | Some q' => if String.eqb q' q then validate_queries rest (map_set h q validated) else Err (HashCollisionError h)
      | None => if includes h inherited then Err (HashCollisionError h) else validate_queries rest (map_set h q validated)
      end
  end.
Definition PersistedQueryRegistry (queries : registry) : result registry_error registry := validate_queries queries [].

Record PersistedQueryManifest := { version : Z; queries : registry }.
Record SignedManifest := { manifest : PersistedQueryManifest; signature : string; timestamp : string }.

(** [JSON.stringify(manifest)] *)
Definition manifest_text (m : PersistedQueryManifest) : string :=
  json_object [("version", show_Z (version m)); ("queries", json_object (map (λ kv, (kv.1, json_string kv.2)) (queries m)))].

Section Manifests.
Context (hmac : string → string → string).

Definition signManifest (m : PersistedQueryManifest) (secret : string) : string := hmac secret (manifest_text m).

Definition verifySignature (s : SignedManifest) (secret : string) : bool :=
  match timingSafeEqual (buffer_from_string (signature s)) (buffer_from_string (signManifest (manifest s) secret)) with Ok b => b | Err _ => false end.

Definition fromSignedManifest (s : SignedManifest) (secret : string) : result registry_error registry :=
  if verifySignature s secret then PersistedQueryRegistry (queries (manifest s)) else Err ManifestSignatureError.

(** [existing]: the file already there, when it can be read and parsed. *)
Definition syncPersistedQueries (secret now : string) (input : PersistedQueryManifest) (existing : option SignedManifest) : SignedManifest :=
  let newSignature := signManifest input secret in
  let published := {| manifest := input; signature := newSignature; timestamp := now |} in
  match existing with
  | Some e => if String.eqb (signature e) newSignature && (version (manifest e) =? version input)%Z then e else published
  | None => published
  end.
End Manifests.

(** ** The [@auth] directive of the public schema *)

Record auth_directive := { requireTenancy : bool; role : option string }.
Record graphql_user := { userId : string; user_role : string }.

(** Whether the field is resolved; a field that is not is [null]. *)
Definition auth_resolves (d : auth_directive) (user : option graphql_user) (source_businessId : option string) : bool :=
  let tenancy :=
    if requireTenancy d then
      match user with
      | None => false
      | Some u => negb (truthy source_businessId && negb (String.eqb (userId u) (default EmptyString source_businessId)))
      end
    else true in
  let by_role :=
    if truthy (role d) then match user with None => false | Some u => String.eqb (user_role u) (default EmptyString (role d)) end else true in
  tenancy && by_role.

(** ** Properties: the depth *)

Section SelectionInd.
Context (P : selection → Prop)
  (HF0 : ∀ n, P (Field n None)) (HF : ∀ n l, Forall P l → P (Field n (Some l)))
  (HI : ∀ l, Forall P l → P (InlineFragment l)) (HS : ∀ n, P (FragmentSpread n)).

Fixpoint selection_ind' (s : selection) : P s :=
  let all := fix all (l : list selection) : Forall P l :=
    match l with [] => Forall_nil_2 P | s :: l => Forall_cons_2 P s l (selection_ind' s) (all l) end in
  match s with
  | Field n None => HF0 n
  | Field n (Some l) => HF n l (all l)
  | InlineFragment l => HI l (all l)
  | FragmentSpread n => HS n
  end.
End SelectionInd.

(** The levels of fields the walk sees below a selection: those of a fragment
    are none of them. *)
Fixpoint seen_levels (s : selection) : nat :=
  match s with Field _ (Some l) => S (fold_right (λ s m, seen_levels s `max` m) 0 l) | _ => 0 end.
Definition seen_depth (l : list selection) : nat := S (fold_right (λ s m, seen_levels s `max` m) 0 l).

Lemma walk_fold l d m : Forall (λ s, ∀ d m, walk_selection s d m = m `max` (if decide (seen_levels s = 0) then 0 else d + seen_levels s)) l →
  fold_left (λ m s, walk_selection s d m) l m =
  m `max` (let k := fold_right (λ s m, seen_levels s `max` m) 0 l in if decide (k = 0) then 0 else d + k).
Proof.
  intros Hl. revert m. induction Hl as [|s l Hs Hl IH]; intros m; cbn [fold_left fold_right]; cbn zeta; [case_decide; lia|].
  rewrite IH, Hs. cbn zeta. repeat case_decide; lia.
Qed.

Lemma walk_selection_seen s d m : walk_selection s d m = m `max` (if decide (seen_levels s = 0) then 0 else d + seen_levels s).
Proof.
  revert d m. induction s as [n|n l IH|l _|n] using selection_ind'; intros d m; cbn [walk_selection seen_levels]; [case_decide; lia| |case_decide; lia|case_decide; lia].
  rewrite walk_fold by exact IH. cbn zeta. set (k := fold_right _ _ _). repeat case_decide; try lia; match goal with |- context [?a <? ?b] => destruct (Nat.ltb_spec a b) end; lia.
Qed.

Lemma walk_seen l d m : walk l (S d) m = m `max` (d + seen_depth l).
Proof.
  unfold walk, seen_depth. rewrite walk_fold by (apply Forall_true; intros s; apply walk_selection_seen). cbn zeta.
  set (k := fold_right _ _ _). case_decide; match goal with |- context [?a <? ?b] => destruct (Nat.ltb_spec a b) end; lia.
Qed.

Lemma operation_depth_le d n : getOperationDepth d ≤ n ↔ ∀ l, Operation query l ∈ d → seen_depth l ≤ n.
Proof.
  unfold getOperationDepth. enough (∀ m, fold_left (λ m def, match def with Operation query l => walk l 1 m | _ => m end) d m ≤ n ↔
    m ≤ n ∧ ∀ l, Operation query l ∈ d → seen_depth l ≤ n) as H by (rewrite H; intuition lia).
  induction d as [|def d IH]; intros m; cbn [fold_left].
  - split; [intros H; split; [done|intros l []%elem_of_nil]|by intros [? _]].
  - rewrite IH. setoid_rewrite elem_of_cons. destruct def as [[]|]; [|naive_solver..]. rewrite walk_seen. split.
    + intros [Hm H]. split; [lia|]. intros l [[= ->]|Hl]; [lia|by apply H].
    + intros [Hm H]. split; [|naive_solver]. specialize (H selections (or_introl eq_refl)). lia.
Qed.

(** The validation of the operations lets a document through exactly when it
    has no mutation and no query nests fields deeper than the limit, counting
    the fields written outside fragments. *)
Lemma guard_accepts_iff d :
  validate_operations d = None ↔
  (∀ l, Operation mutation l ∉ d) ∧ (∀ l, Operation query l ∈ d → seen_depth l ≤ MAX_QUERY_DEPTH).
Proof.
  unfold validate_operations.
  assert (∀ defs, validate_loop d defs = None ↔
    (∀ l, Operation mutation l ∉ defs) ∧ ((∃ l, Operation query l ∈ defs) → getOperationDepth d ≤ MAX_QUERY_DEPTH)) as H.
  { induction defs as [|def defs IH]; cbn [validate_loop].
    - split; [|done]. intros _. split; [intros l; apply not_elem_of_nil|intros [l []%elem_of_nil]].
    - setoid_rewrite elem_of_cons. destruct def as [[]|].
      + destruct (Nat.ltb_spec MAX_QUERY_DEPTH (getOperationDepth d)); [|naive_solver].
        split; [done|]. intros [_ Hq]. enough (getOperationDepth d ≤ MAX_QUERY_DEPTH) by lia. apply Hq. eexists. by left.
      + split; [done|]. intros [Hm _]. exfalso. eapply Hm. by left.
      + naive_solver.
      + naive_solver. }
  rewrite H. split; intros [Hm Hq]; (split; [done|]).
  - intros l Hl. exact (proj1 (operation_depth_le _ _) (Hq (ex_intro _ l Hl)) l Hl).
  - intros _. by apply operation_depth_le.
Qed.

(** The levels a selection asks for when the fragments are looked into. *)
Section Levels.
Context (frags : list (string * list selection)).
Inductive asks : selection → nat → Prop :=
| asks_field n sub : asks (Field n sub) 1
| asks_deeper n l s k : s ∈ l → asks s k → asks (Field n (Some l)) (S k)
| asks_inline l s k : s ∈ l → asks s k → asks (InlineFragment l) k
| asks_spread n l s k : map_get n frags = Some l → s ∈ l → asks s k → asks (FragmentSpread n) k.
End Levels.

Fixpoint fragment_free (s : selection) : bool :=
  match s with Field _ None => true | Field _ (Some l) => forallb fragment_free l | _ => false end.

Lemma fold_max_ge (f : selection → nat) l s : s ∈ l → f s ≤ fold_right (λ s m, f s `max` m) 0 l.
Proof. induction 1; cbn; lia. Qed.

Lemma asks_seen frags s k : asks frags s k → fragment_free s = true → k ≤ S (seen_levels s).
Proof.
  induction 1 as [n sub|n l s k Hs H IH|l s k Hs H IH|]; cbn [fragment_free seen_levels]; intros Hf; [lia| |done|done].
  pose proof (proj1 (List.forallb_forall _ _) Hf s (proj1 (list_elem_of_In _ _) Hs)) as Hfs. specialize (IH Hfs).
  pose proof (fold_max_ge seen_levels l s Hs). lia.
Qed.

Fixpoint deep (n : nat) : selection := match n with O => Field "f" None | S n => Field "f" (Some [deep n]) end.

Lemma deep_asks frags n : asks frags (deep n) (S n).
Proof. induction n as [|n IH]; [constructor|]. eapply asks_deeper; [by left|exact IH]. Qed.

(** For a query written without fragments the limit is what it says: no
    accepted query asks for more levels of fields.  Behind a fragment, inline
    or named, any number of levels is accepted. *)
Theorem depth_limit_is_for_plain_queries :
  (∀ d l s k, validate_operations d = None → Operation query l ∈ d → s ∈ l → fragment_free s = true → asks (fragment_map d) s k → k ≤ MAX_QUERY_DEPTH) ∧
  (∀ n, let s := InlineFragment [deep n] in validate_operations [Operation query [s]] = None ∧ asks [] s (S n)) ∧
  (∀ n, let d := [Operation query [FragmentSpread "F"]; Fragment "F" [deep n]] in
     validate_operations d = None ∧ asks (fragment_map d) (FragmentSpread "F") (S n)).
Proof.
  split_and!.
  - intros d l s k [_ Hd]%guard_accepts_iff Hl Hs Hf Hk. specialize (Hd l Hl). apply asks_seen in Hk; [|done].
    pose proof (fold_max_ge seen_levels l s Hs). unfold seen_depth in Hd. lia.
  - intros n. split; [done|]. eapply asks_inline; [by left|apply deep_asks].
  - intros n. split; [done|]. eapply asks_spread; [done|by left|apply deep_asks].
Qed.

(** ** Properties: introspection *)

(** A field of introspection can be reached from the selection. *)
Section Reach.
Context (frags : list (string * list selection)).
Inductive reaches : selection → Prop :=
| reaches_field n sub : n ∈ INTROSPECTION_FIELD_NAMES → reaches (Field n sub)
| reaches_sub n l s : s ∈ l → reaches s → reaches (Field n (Some l))
| reaches_inline l s : s ∈ l → reaches s → reaches (InlineFragment l)
| reaches_spread n l s : map_get n frags = Some l → s ∈ l → reaches s → reaches (FragmentSpread n).
End Reach.

Definition decides (P : Prop) (o : option bool) : Prop := match o with Some true => P | Some false => ¬ P | None => True end.

Lemma any_decides {A} (f : A → option bool) (P : A → Prop) l :
  Forall (λ x, decides (P x) (f x)) l → decides (∃ x, x ∈ l ∧ P x) (any f l).
Proof.
  induction 1 as [|x l Hx Hl IH]; [by intros (x & []%elem_of_nil & _)|]. cbn. destruct (f x) as [[]|]; cbn in *; [| |done].
  - exists x. split; [by left|done].
  - change (fold_right _ _ l) with (any f l). destruct (any f l) as [[]|]; cbn in *; [| |done].
    + destruct IH as (y & Hy & HP). exists y. split; [by right|done].
    + intros (y & [->|Hy]%elem_of_cons & HP); [done|]. apply IH. by exists y.
Qed.

Lemma decides_iff P Q o : (P ↔ Q) → decides P o → decides Q o.
Proof. destruct o as [[]|]; cbn; tauto. Qed.

Lemma selection_decides frags spread s :
  (∀ n, decides (∃ l x, map_get n frags = Some l ∧ x ∈ l ∧ reaches frags x) (spread n)) → decides (reaches frags s) (selection_introspects spread s).
Proof.
  intros Hsp. induction s as [n|n l IH|l IH|n] using selection_ind'; cbn [selection_introspects].
  - destruct (includes n _) eqn:E; cbn; [apply reaches_field; by apply includes_spec|]. inversion 1. subst. by apply includes_false in E.
  - destruct (includes n _) eqn:E; cbn; [apply reaches_field; by apply includes_spec|]. apply includes_false in E.
    apply (any_decides _ (reaches frags)) in IH. eapply decides_iff; [|exact IH]. split; [intros (x & Hx & H); by eapply reaches_sub|].
    inversion 1; subst; [done|]. by eexists.
  - apply (any_decides _ (reaches frags)) in IH. eapply decides_iff; [|exact IH]. split; [intros (x & Hx & H); by eapply reaches_inline|].
    inversion 1; subst. by eexists.
  - eapply decides_iff; [|apply Hsp]. split; [intros (l & x & Hl & Hx & H); by eapply reaches_spread|]. inversion 1; subst. by eexists _, _.
Qed.

Lemma contains_decides fuel frags l : decides (∃ s, s ∈ l ∧ reaches frags s) (containsIntrospectionField fuel frags l).
Proof.
  revert l. induction fuel as [|fuel IH]; intros l; cbn [containsIntrospectionField]; apply any_decides, Forall_true; intros s; apply selection_decides; intros n;
    destruct (map_get n frags) as [sub|]; cbn; [done|naive_solver| |naive_solver].
  eapply decides_iff; [|apply IH]. naive_solver.
Qed.

Lemma any_answers {A} (f : A → option bool) l : Forall (λ x, is_Some (f x)) l → is_Some (any f l).
Proof. induction 1 as [|x l [b Hb] Hl [c IH]]; [by eexists|]. unfold any in *. cbn. rewrite Hb, IH. destruct b; by eexists. Qed.

(** The spreads written in a selection. *)
Fixpoint spreads (s : selection) : list string :=
  match s with Field _ None => [] | Field _ (Some l) | InlineFragment l => flat_map spreads l | FragmentSpread n => [n] end.

Lemma selection_answers spread s : (∀ n, n ∈ spreads s → is_Some (spread n)) → is_Some (selection_introspects spread s).
Proof.
  induction s as [n|n l IH|l IH|n] using selection_ind'; cbn [selection_introspects spreads]; intros H.
  - destruct (includes _ _); by eexists.
  - destruct (includes _ _); [by eexists|]. apply any_answers. rewrite Forall_forall in *. intros x Hx. apply IH; [done|]. intros m Hm. apply H.
    apply list_elem_of_In, in_flat_map. exists x. by rewrite <- !list_elem_of_In.
  - apply any_answers. rewrite Forall_forall in *. intros x Hx. apply IH; [done|]. intros m Hm. apply H.
    apply list_elem_of_In, in_flat_map. exists x. by rewrite <- !list_elem_of_In.
  - apply H. by left.
Qed.

(** The fragments can be ranked so that each spreads lower ones only. *)
Definition ranked (rank : string → nat) (frags : list (string * list selection)) : Prop :=
  ∀ n l s m, map_get n frags = Some l → s ∈ l → m ∈ spreads s → map_get m frags ≠ None → rank m < rank n.

Lemma contains_answers rank frags fuel l : ranked rank frags →
  (∀ s m, s ∈ l → m ∈ spreads s → map_get m frags ≠ None → rank m < fuel) → is_Some (containsIntrospectionField fuel frags l).
Proof.
  intros Hr. revert l. induction fuel as [|fuel IH]; intros l Hl; cbn [containsIntrospectionField]; apply any_answers, Forall_forall; intros s Hs;
    apply selection_answers; intros n Hn; specialize (Hl s n Hs Hn); destruct (map_get n frags) as [sub|] eqn:E; try by eexists.
  - specialize (Hl ltac:(done)). lia.
  - specialize (Hl ltac:(done)). apply IH. intros s' m Hs' Hm Hd. specialize (Hr n sub s' m E Hs' Hm Hd). lia.
Qed.

(** C32. The introspection gate, on a document whose fragments do not spread each
    other in a circle, answers, and reports it exactly when an operation
    reaches a field of introspection, through whatever fragments. *)
Theorem introspection_is_found rank fuel d :
  ranked rank (fragment_map d) → (∀ n, rank n < fuel) →
  ∃ b, introspectionGateRule false fuel d = Some b ∧
    (b = true ↔ ∃ k l s, Operation k l ∈ d ∧ s ∈ l ∧ reaches (fragment_map d) s).
Proof.
  intros Hr Hf. cbn [introspectionGateRule]. unfold isIntrospectionQuery.
  match goal with |- context [any ?f d] => assert (is_Some (any f d)) as [b Hb] end.
  { apply any_answers, Forall_forall. intros [k l|] _; [|by eexists]. eapply contains_answers; [exact Hr|]. intros. apply Hf. }
  exists b. split; [exact Hb|].
  match goal with H : any ?f d = _ |- _ =>
    pose proof (any_decides f (λ def, ∃ k l s, def = Operation k l ∧ s ∈ l ∧ reaches (fragment_map d) s) d) as Hd end.
  rewrite Hb in Hd. assert (decides (∃ def, def ∈ d ∧ ∃ k l s, def = Operation k l ∧ s ∈ l ∧ reaches (fragment_map d) s) (Some b)) as H.
  { apply Hd, Forall_forall. intros [k l|] _; cbn; [|naive_solver]. eapply decides_iff; [|apply contains_decides]. naive_solver. }
  destruct b; cbn in H; split; naive_solver.
Qed.

(** A fragment that begins with itself, which validation has yet to refuse,
    overflows the stack of the gate, whatever its size. *)
Theorem circular_fragment_overflows n rest fuel rest' :
  let d := [Operation query (FragmentSpread n :: rest); Fragment n (FragmentSpread n :: rest')] in
  introspectionGateRule false fuel d = None.
Proof.
  cbn [introspectionGateRule]. unfold isIntrospectionQuery, fragment_map. cbn [fold_left map_set any fold_right].
  assert (∀ rest, containsIntrospectionField fuel [(n, FragmentSpread n :: rest')] (FragmentSpread n :: rest) = None) as ->; [|done].
  induction fuel as [|fuel IH]; intros r; cbn [containsIntrospectionField any fold_right selection_introspects map_get]; rewrite String.eqb_refl; [done|].
  by rewrite IH.
Qed.

(** ** Properties: persisted queries *)

(** With arbitrary operations switched off, parameters that pass bring the
    key of a persisted query, or no query text at all. *)
Theorem only_persisted_pass store p :
  onParams false store p = None →
  (∃ k, extractPersistedKey p = Some k ∧ k ≠ EmptyString ∧ registry_has store k = true) ∨
  (truthy (extractPersistedKey p) = false ∧ truthy (p_query p) = false).
Proof.
  unfold onParams. destruct (extractPersistedKey p) as [[|c k]|]; cbn; destruct (truthy (p_query p)); cbn; try done; try (intros _; by right).
  all: destruct (registry_has store _) eqn:E; [|done]; intros _; left; eexists; split_and!; [reflexivity|done|exact E].
Qed.

Lemma map_set_fresh (k : string) (v : string) m : k ∉ m.*1 → map_set k v m = m ++ [(k, v)].
Proof.
  induction m as [|[k' v'] m IH]; cbn; [done|]. intros H. apply not_elem_of_cons in H as [Hk Hm].
  destruct (String.eqb_spec k k') as [->|_]; [done|]. by rewrite IH.
Qed.

Lemma validate_queries_spec qs acc : NoDup (acc ++ qs).*1 → Forall (λ k, k ∉ inherited) acc.*1 →
  validate_queries qs acc =
    match List.find (λ kv, includes kv.1 inherited) qs with Some (h, _) => Err (HashCollisionError h) | None => Ok (acc ++ qs) end.
Proof.
  revert acc. induction qs as [|[h q] qs IH]; intros acc Hn Hi; cbn [validate_queries List.find]; [by rewrite app_nil_r|].
  assert (h ∉ acc.*1) as Hh. { rewrite fmap_app in Hn. apply NoDup_app in Hn as (_ & Hd & _). intros Hin. apply (Hd h Hin). by left. }
  assert (map_get h acc = None) as ->. { destruct (map_get h acc) eqn:E; [|done]. apply map_get_Some in E. exfalso. apply Hh. by apply (list_elem_of_fmap_2 fst) in E. }
  cbn [fst]. destruct (includes h inherited) eqn:E; [done|]. apply includes_false in E. rewrite map_set_fresh by done.
  rewrite IH; [by rewrite <- app_assoc|by rewrite <- app_assoc|].
  rewrite fmap_app. apply Forall_app. split; [done|]. by apply Forall_singleton.
Qed.

(** The registry holds the queries of the manifest, as they are, unless a
    hash is a name every object answers to: that, and never two queries under
    one hash, is the collision it can report. *)
Theorem registry_holds_manifest qs : NoDup qs.*1 →
  match PersistedQueryRegistry qs with
  | Ok r => r = qs ∧ ∀ h, h ∈ qs.*1 → h ∉ inherited
  | Err e => ∃ h, e = HashCollisionError h ∧ h ∈ qs.*1 ∧ h ∈ inherited
  end.
Proof.
  intros Hn. unfold PersistedQueryRegistry. rewrite validate_queries_spec by (done || constructor).
  destruct (List.find _ qs) as [[h q]|] eqn:E.
  - apply List.find_some in E as [Hin Hi]. exists h. split_and!; [done| |by apply includes_spec].
    by apply list_elem_of_In, (list_elem_of_fmap_2 fst) in Hin.
  - split; [done|]. intros h (kv & -> & Hin)%list_elem_of_fmap. apply list_elem_of_In in Hin. apply includes_false. exact (List.find_none _ _ E _ Hin).
Qed.

(** ** Properties: the signed manifest *)

Lemma json_pairs_inj (l l' : registry) r r' :
  join "," (map (λ kv, json_member (kv.1, json_string kv.2)) l) +:+ String "}" r =
  join "," (map (λ kv, json_member (kv.1, json_string kv.2)) l') +:+ String "}" r' → l = l' ∧ r = r'.
Proof.
  assert (∀ kv r, ∃ t, json_member (kv.1, json_string kv.2) +:+ r = String quotation_mark t) as Hhead.
  { intros kv t. unfold json_member. rewrite <- string_app_assoc. apply json_string_nonempty. }
  assert (∀ kv l r, ∃ t, join "," (map (λ kv, json_member (kv.1, json_string kv.2)) (kv :: l)) +:+ r = String quotation_mark t) as Hjoin.
  { intros kv t z. destruct t; cbn [map join]; rewrite <- ?string_app_assoc; apply Hhead. }
  assert (∀ (a b : string * string) r r', json_member (a.1, json_string a.2) +:+ r = json_member (b.1, json_string b.2) +:+ r' → a = b ∧ r = r') as Hone.
  { intros [k v] [k' v'] z z'. unfold json_member. cbn [fst snd]. rewrite <- !string_app_assoc. intros H. apply json_string_inj in H as [-> H].
    apply string_app_cancel in H. by apply json_string_inj in H as [-> ->]. }
  revert l'. induction l as [|kv l IH]; intros [|kv' l'] H.
  - by injection H as ->.
  - destruct (Hjoin kv' l' (String "}" r')) as [t Ht]. by rewrite Ht in H.
  - destruct (Hjoin kv l (String "}" r)) as [t Ht]. by rewrite Ht in H.
  - destruct l as [|x l], l' as [|x' l']; cbn [map join] in H; rewrite <- ?string_app_assoc in H; apply Hone in H as [-> H].
    + by injection H as ->.
    + by rewrite !string_cons_app in H.
    + by rewrite !string_cons_app in H.
    + apply string_app_cancel in H. destruct (IH (x' :: l')) as [[= -> ->] ->]; [done|done].
Qed.

Definition plain_version (m : PersistedQueryManifest) : Prop := (0 ≤ version m < 10 ^ 20)%Z.

Lemma manifest_text_inj m m' : plain_version m → plain_version m' → manifest_text m = manifest_text m' → m = m'.
Proof.
  destruct m as [v q], m' as [v' q']. intros Hv Hv'. unfold manifest_text, json_object. cbn [map join version queries]. unfold json_member. cbn [fst snd].
  rewrite !map_map. cbn [fst snd]. rewrite <- !string_app_assoc. intros H. do 3 apply string_app_cancel in H.
  assert (v = v') as ->.
  { apply (f_equal parse_int) in H. rewrite !parse_show in H by done. by injection H. }
  do 5 apply string_app_cancel in H. apply (json_pairs_inj q q' "}" "}") in H as [-> _]. done.
Qed.

Section Signed.
Context (hmac : string → string → string).

Lemma verifySignature_spec s secret : verifySignature hmac s secret = true ↔ signature s = signManifest hmac (manifest s) secret.
Proof.
  unfold verifySignature. split.
  - destruct (timingSafeEqual _ _) as [b|] eqn:E; [intros ->|done]. apply timingSafeEqual_true in E. unfold buffer_from_string in E.
    apply (f_equal String.string_of_list_byte) in E. by rewrite !String.string_of_list_byte_of_string in E.
  - intros ->. by rewrite timingSafeEqual_refl.
Qed.

(** A signature stands for one manifest: two registries loaded under one
    signature and secret hold the same queries, unless the texts of their
    manifests are a collision of the HMAC. *)
Theorem loaded_queries_are_signed secret s s' r r' :
  plain_version (manifest s) → plain_version (manifest s') → NoDup (queries (manifest s)).*1 → NoDup (queries (manifest s')).*1 →
  signature s = signature s' → fromSignedManifest hmac s secret = Ok r → fromSignedManifest hmac s' secret = Ok r' →
  (r = r' ∧ r = queries (manifest s)) ∨
  (manifest_text (manifest s) ≠ manifest_text (manifest s') ∧ hmac secret (manifest_text (manifest s)) = hmac secret (manifest_text (manifest s'))).
Proof.
  intros Hv Hv' Hn Hn' He. unfold fromSignedManifest.
  destruct (verifySignature hmac s secret) eqn:E; [|done]. destruct (verifySignature hmac s' secret) eqn:E'; [|done].
  apply verifySignature_spec in E, E'. intros Hr Hr'. pose proof (registry_holds_manifest _ Hn) as H. pose proof (registry_holds_manifest _ Hn') as H'.
  rewrite Hr in H. rewrite Hr' in H'. destruct H as [-> _], H' as [-> _].
  destruct (decide (manifest_text (manifest s) = manifest_text (manifest s'))) as [Ht|Ht].
  - left. apply manifest_text_inj in Ht; [|done..]. by rewrite Ht.
  - right. split; [done|]. unfold signManifest in *. congruence.
Qed.

(** What a synchronisation leaves in the file has the signature and the
    version of the manifest it was given, and a file it wrote loads.  A file
    it left alone because signature and version matched loads only if its
    queries are the signed ones, or collide: one that was tampered with is
    reported as up to date and refused when it is loaded. *)
Theorem synchronised_manifest secret now input existing :
  let s := syncPersistedQueries hmac secret now input existing in
  signature s = signManifest hmac input secret ∧ version (manifest s) = version input ∧
  (manifest s = input → fromSignedManifest hmac s secret = PersistedQueryRegistry (queries input)) ∧
  (manifest s ≠ input → existing = Some s ∧
     (plain_version (manifest s) → plain_version input → ∀ r, fromSignedManifest hmac s secret = Ok r →
      manifest_text (manifest s) ≠ manifest_text input ∧ hmac secret (manifest_text (manifest s)) = hmac secret (manifest_text input))).
Proof.
  cbn zeta. set (s := syncPersistedQueries _ _ _ _ _).
  assert (signature s = signManifest hmac input secret ∧ version (manifest s) = version input ∧ (manifest s ≠ input → existing = Some s)) as (H1 & H2 & H3).
  { subst s. unfold syncPersistedQueries. destruct existing as [e|]; [|done]. destruct (String.eqb_spec (signature e) (signManifest hmac input secret)); cbn; [|done].
    destruct (Z.eqb_spec (version (manifest e)) (version input)); done. }
  split_and!; [done|done| |].
  - intros He. unfold fromSignedManifest. assert (verifySignature hmac s secret = true) as ->; [|by rewrite He].
    apply verifySignature_spec. by rewrite He.
  - intros Hne. split; [by apply H3|]. intros Hv Hv' r. unfold fromSignedManifest. destruct (verifySignature hmac s secret) eqn:E; [|done]. intros _.
    apply verifySignature_spec in E. split; [|unfold signManifest in *; congruence]. intros Ht. apply Hne. by apply manifest_text_inj.
Qed.
End Signed.

(** ** Properties: the directive *)

(** A field that requires tenancy is shown to the user whose identifier is
    the business's, not to the owner of the business: an owner, whose
    identifier is another, sees [null]. *)
Theorem tenancy_compares_identifiers d u biz :
  requireTenancy d = true → biz ≠ EmptyString → (auth_resolves d (Some u) (Some biz) = true → userId u = biz) ∧ auth_resolves d None (Some biz) = false.
Proof.
  intros Hd Hb. unfold auth_resolves. rewrite Hd. destruct biz as [|c biz]; [done|]. cbn [truthy is_empty negb default andb]. change (id (String c biz)) with (String c biz). split; [|done].
  cbn zeta. destruct (String.eqb_spec (userId u) (String c biz)) as [He|He]; cbn [negb andb]; [intros _; exact He|discriminate].
Qed.

(** ** Concrete documents *)

Definition nested : document := [Operation query [Field "users" (Some [Field "auditLogs" (Some [Field "id" None])])]].
Definition evading : document := [Operation query [FragmentSpread "F"]; Fragment "F" [Field "a" (Some [InlineFragment [Field "__schema" None]])]].

Example depths : getOperationDepth nested = 3 ∧ getOperationDepth [Operation query [deep 6]] = 7 ∧
  validate_operations [Operation query [deep 5]] = Some TooDeep ∧ validate_operations [Operation query [deep 4]] = None ∧
  validate_operations [Operation query []; Operation mutation []] = Some MutationsNotAllowed ∧ validate_operations [Operation subscription [deep 9]] = None.
Proof. vm_compute. by split_and!. Qed.

Lemma introspection_is_found_witness :
  ∃ b, introspectionGateRule false 1 evading = Some b ∧ (b = true ↔ ∃ k l s, Operation k l ∈ evading ∧ s ∈ l ∧ reaches (fragment_map evading) s).
Proof.
  apply (introspection_is_found (λ _, 0)); [|intros; lia].
  intros n l s m Hl Hs Hm. unfold fragment_map in Hl. cbn in Hl. destruct (String.eqb n "F"); [|discriminate].
  injection Hl as <-. apply list_elem_of_singleton in Hs as ->. cbn in Hm. by apply not_elem_of_nil in Hm.
Defined.

Example introspection_seen : introspectionGateRule false 1 evading = Some true ∧ validate_operations evading = None.
Proof. vm_compute. by split. Qed.

Definition sample_queries : registry := [("h1", "{ users { id } }"); ("h2", "{ businesses { id } }")].
Definition sample_manifest : PersistedQueryManifest := {| version := 3; queries := sample_queries |}.
Definition keyed (key s : string) : string := toy_hash (key +:+ s).
Definition sample_signed : SignedManifest := syncPersistedQueries keyed "k" "now" sample_manifest None.

Lemma only_persisted_pass_witness :
  let p := {| p_query := None; p_persistedQuery := Some (PersistedObject (Some "h1")); p_documentId := None; p_queryId := None |} in
  (∃ k, extractPersistedKey p = Some k ∧ k ≠ EmptyString ∧ registry_has sample_queries k = true) ∨
  (truthy (extractPersistedKey p) = false ∧ truthy (p_query p) = false).
Proof. apply only_persisted_pass. reflexivity. Defined.

Lemma registry_holds_manifest_witness :
  match PersistedQueryRegistry (("toString", "{ a }") :: sample_queries) with
  | Ok r => r = ("toString", "{ a }") :: sample_queries ∧ ∀ h, h ∈ (("toString", "{ a }") :: sample_queries).*1 → h ∉ inherited
  | Err e => ∃ h, e = HashCollisionError h ∧ h ∈ (("toString", "{ a }") :: sample_queries).*1 ∧ h ∈ inherited
  end.
Proof. apply registry_holds_manifest. apply (bool_decide_unpack _). vm_compute. exact I. Defined.

Lemma loaded_queries_are_signed_witness :
  (sample_queries = sample_queries ∧ sample_queries = queries sample_manifest) ∨
  (manifest_text sample_manifest ≠ manifest_text sample_manifest ∧ keyed "k" (manifest_text sample_manifest) = keyed "k" (manifest_text sample_manifest)).
Proof.
  apply (loaded_queries_are_signed keyed "k" sample_signed {| manifest := sample_manifest; signature := signature sample_signed; timestamp := "later" |}).
  - split; reflexivity || discriminate.
  - split; reflexivity || discriminate.
  - apply (bool_decide_unpack _). vm_compute. exact I.
  - apply (bool_decide_unpack _). vm_compute. exact I.
  - reflexivity.
  - vm_compute. reflexivity.
  - vm_compute. reflexivity.
Defined.

Lemma tenancy_compares_identifiers_witness :
  let d := {| requireTenancy := true; role := None |} in
  (auth_resolves d (Some {| userId := "owner"; user_role := "user" |}) (Some "shop") = true → "owner" = "shop") ∧ auth_resolves d None (Some "shop") = false.
Proof. apply (tenancy_compares_identifiers {| requireTenancy := true; role := None |} {| userId := "owner"; user_role := "user" |}); [reflexivity|discriminate]. Defined.
