(* ===== verification/Gdpr.v ===== *)
(** * The data export of a user: [src/services/user/createGdprExport.ts],
    [dataExportService.ts], [src/repositories/dataExportRepository.ts] and the
    export routes of [src/routes/users.ts].

    Buffers are strings of bytes.  Compression, AES-256-GCM, PBKDF2, HMAC and
    the text of the bundle are an interface with the laws the code relies on.
    A value in Redis is what its text parses to; the three kinds of keys have
    prefixes of their own, so each kind is a map; an entry has the time it
    expires at, if any, and is read as absent from then on ([live]).  A Redis
    command may fail: a read gives nothing ([ok] is false), a write fails
    without or with its effect ([reply]).  Each command is a step of its own,
    so requests and the background processing interleave there; the users and
    the audit log stay what they are during a run. *)

From S2P Require Import Prelude Numeric Hashing JsString Words Collections.
From S2P Require AuditChain UserRepository.
Import Prelude.Replies.
#[local] Open Scope Z_scope.

(** ** The bundle *)

Record LogEntry := { l_id : string; l_action : string; l_resource : string; l_timestamp : Z; l_metadata : option string }.
Record GdprExportData := {
  g_id : string; g_email : string; g_createdAt : Z; g_updatedAt : Z; g_role : UserRepository.UserRole;
  auditLogs : list LogEntry; exportedAt : Z
}.

Class ExportCrypto := {
  gzip : string → string;
  gunzip : string → option string;
  aes_encrypt : string → string → string → string * string; (* key, iv, text: the cipher text and its tag *)
  aes_decrypt : string → string → string → string → option string; (* key, iv, tag, cipher text *)
  pbkdf2 : string → string → string; (* password, salt *)
  hmac : string → string → string; (* key, data: the digest in hex *)
  stringify : GdprExportData → string;
  parse : string → option GdprExportData;
  gunzip_gzip t : gunzip (gzip t) = Some t;
  aes_round_trip key iv t : let '(c, tag) := aes_encrypt key iv t in aes_decrypt key iv tag c = Some t;
  aes_tag_length key iv t : String.length (aes_encrypt key iv t).2 = 16%nat;
  parse_stringify d : parse (stringify d) = Some d
}.

Inductive export_error := UserNotFound (u : string) | RequireNotDefined | AuthenticationFailed | Tampered | ParseFailed | RedisDown.

(** [require_defined]: whether the module system defines [require]. *)
Record export_env := { require_defined : bool; export_secret : option string }.

Record GdprExport := { encryptedData : string; iv : string; salt : string; signature : string }.

Section Bundle.
Context {crypto : ExportCrypto} (env : export_env).

Definition deriveEncryptionKey (salt : string) : result export_error string :=
  if require_defined env
  then Ok (pbkdf2 (match export_secret env with Some (String _ _ as s) => s | _ => "default-export-secret" end) salt)
  else Err RequireNotDefined.

Definition createSignature (data userId : string) : string := hmac userId data.
Definition verifySignature (data signature userId : string) : bool := String.eqb (createSignature data userId) signature.

(** [getAuditLogsByUser]: the newest first. *)
Definition logs_of (u : string) (logs : list AuditChain.AuditLog) : list AuditChain.AuditLog :=
  js_sort (λ a b, AuditChain.timestamp b - AuditChain.timestamp a) (List.filter (λ l, String.eqb (AuditChain.userId l) u) logs).

Definition bundle (user : UserRepository.User) (logs : list AuditChain.AuditLog) (now : Z) : GdprExportData :=
  {| g_id := UserRepository.id user; g_email := UserRepository.email user; g_createdAt := UserRepository.createdAt user;
     g_updatedAt := UserRepository.updatedAt user; g_role := UserRepository.role user;
     auditLogs := map (λ l, {| l_id := AuditChain.id l; l_action := AuditChain.action l; l_resource := AuditChain.resource l;
                               l_timestamp := AuditChain.timestamp l; l_metadata := AuditChain.metadata l |}) logs;
     exportedAt := now |}.

Definition createGdprExport (users : UserRepository.store) (logs : list AuditChain.AuditLog) (rnd_salt rnd_iv : string) (now : Z) (userId : string)
  : result export_error GdprExport :=
  match UserRepository.findUserById userId users with
  | None => Err (UserNotFound userId)
  | Some user =>
      let compressedData := gzip (stringify (bundle user (logs_of userId logs) now)) in
      match deriveEncryptionKey rnd_salt with
      | Err e => Err e
      | Ok key =>
          let '(encrypted, authTag) := aes_encrypt key rnd_iv compressedData in
          Ok {| encryptedData := authTag +:+ encrypted; iv := rnd_iv; salt := rnd_salt;
                signature := createSignature (rnd_salt +:+ rnd_iv +:+ authTag +:+ encrypted) userId |}
      end
  end.

Definition slice_from (n : nat) (s : string) : string := String.substring n (String.length s - n) s.

(** A cipher that cannot be set up fails as one that does not authenticate. *)
Definition decryptGdprExport (encryptedData iv salt signature userId : string) : result export_error GdprExportData :=
  let authTag := String.substring 0 16 encryptedData in
  let actualEncrypted := slice_from 16 encryptedData in
  match deriveEncryptionKey salt with
  | Err e => Err e
  | Ok key =>
      match aes_decrypt key iv authTag actualEncrypted ≫= gunzip with
      | None => Err AuthenticationFailed
      | Some decompressed =>
          if verifySignature (salt +:+ iv +:+ encryptedData) signature userId
          then match parse decompressed with Some d => Ok d | None => Err ParseFailed end
          else Err Tampered
      end
  end.
End Bundle.

(** ** The records in Redis *)

Inductive export_status := pending | processing | completed | failed.
#[export] Instance export_status_eq_dec : EqDecision export_status.
Proof. solve_decision. Defined.

Record DataExport := {
  e_id : string; e_userId : string; e_status : export_status; e_createdAt : Z; e_completedAt : option Z; e_expiresAt : Z;
  e_error : option export_error; e_archiveSize : option Z
}.
Record TokenData := { t_exportId : string; downloaded : bool }.

Definition EXPORT_TTL_SECONDS : Z := 7 * 24 * 60 * 60.
Definition ARCHIVE_TTL_SECONDS : Z := 7 * 24 * 60 * 60.
Definition TOKEN_TTL_SECONDS : Z := 24 * 60 * 60.

(** A record and the time it expires at. *)
Abbreviation entry A := (prod A (option Z)).
Definition live {A} (now : Z) (o : option (entry A)) : option A :=
  match o with Some (a, Some t) => if now <? t then Some a else None | Some (a, None) => Some a | None => None end.
Definition setex {A} (now ttl : Z) (a : A) : entry A := (a, Some (now + ttl * 1000)).

Definition new_export (fresh userId : string) (now : Z) : DataExport :=
  {| e_id := fresh; e_userId := userId; e_status := pending; e_createdAt := now; e_completedAt := None;
     e_expiresAt := now + EXPORT_TTL_SECONDS * 1000; e_error := None; e_archiveSize := None |}.

(** The record [updateDataExportStatus] writes. *)
Definition with_status (now : Z) (s : export_status) (error : option export_error) (size : option Z) (e : DataExport) : DataExport :=
  {| e_id := e_id e; e_userId := e_userId e; e_status := s; e_createdAt := e_createdAt e;
     e_completedAt := if bool_decide (s = completed) || bool_decide (s = failed) then Some now else e_completedAt e;
     e_expiresAt := e_expiresAt e; e_error := match error with Some x => Some x | None => e_error e end;
     e_archiveSize := match size with Some x => Some x | None => e_archiveSize e end |}.

(** ** Processing in the background

    [updateDataExportStatus] reads and then writes; the places between its
    commands, and between those of the processing, are the counters. *)
Inductive counter :=
| MarkGet | MarkSet (e : DataExport)
| Build
| Store (r : GdprExport)
| DoneGet (size : Z) | DoneSet (size : Z) (e : DataExport)
| FailGet (x : export_error) | FailSet (x : export_error) (e : DataExport)
| Ended.

Record world := {
  exports : gmap string (entry DataExport); tokens : gmap string (entry TokenData); archives : gmap string (entry GdprExport);
  jobs : gmap string (string * counter); (* by export: the user and the counter *)
  reads : gmap nat (string * TokenData) (* downloads that have read their token *)
}.
Definition with_exports x w := {| exports := x; tokens := tokens w; archives := archives w; jobs := jobs w; reads := reads w |}.
Definition with_tokens x w := {| exports := exports w; tokens := x; archives := archives w; jobs := jobs w; reads := reads w |}.
Definition with_archives x w := {| exports := exports w; tokens := tokens w; archives := x; jobs := jobs w; reads := reads w |}.
Definition with_jobs x w := {| exports := exports w; tokens := tokens w; archives := archives w; jobs := x; reads := reads w |}.
Definition with_reads x w := {| exports := exports w; tokens := tokens w; archives := archives w; jobs := jobs w; reads := x |}.

Section Service.
Context {crypto : ExportCrypto} (env : export_env) (users : UserRepository.store) (logs : list AuditChain.AuditLog).

(** One step of [processExportAsync], at most one command: where it goes, and
    the world. *)
Definition process_step (rep : reply) (now : Z) (rnd_salt rnd_iv : string) (i u : string) (c : counter) (w : world) : counter * world :=
  let next c' := if answered rep then c' else FailGet RedisDown in
  let put e := if applied rep then with_exports (<[i := setex now EXPORT_TTL_SECONDS e]> (exports w)) w else w in
  match c with
  | MarkGet => (next match live now (exports w !! i) with Some e => MarkSet e | None => Build end, w)
  | MarkSet e => (next Build, put (with_status now processing None None e))
  | Build =>
      (match createGdprExport env users logs rnd_salt rnd_iv now u with Ok r => Store r | Err x => FailGet x end, w)
  | Store r =>
      (next (DoneGet (Z.of_nat (String.length (encryptedData r)))),
       if applied rep then with_archives (<[i := setex now ARCHIVE_TTL_SECONDS r]> (archives w)) w else w)
  | DoneGet n => (next match live now (exports w !! i) with Some e => DoneSet n e | None => Ended end, w)
  | DoneSet n e => (next Ended, put (with_status now completed None (Some n) e))
  | FailGet x =>
      (if answered rep then match live now (exports w !! i) with Some e => FailSet x e | None => Ended end else Ended, w)
  | FailSet x e => (Ended, put (with_status now failed (Some x) None e))
  | Ended => (Ended, w)
  end.

(** ** Requests *)

(** [createDataExport], then the processing is started. *)
Definition initiateDataExport (rep : reply) (fresh : string) (now : Z) (userId : string) (w : world) : result export_error DataExport * world :=
  let e := new_export fresh userId now in
  let w := if applied rep then with_exports (<[fresh := setex now EXPORT_TTL_SECONDS e]> (exports w)) w else w in
  if answered rep then (Ok e, with_jobs (<[fresh := (userId, MarkGet)]> (jobs w)) w) else (Err RedisDown, w).

(** The status, and a token when the export is completed. *)
Definition getExportStatus (ok : bool) (rep : reply) (fresh : string) (now : Z) (i : string) (w : world)
  : result export_error (option (export_status * option string)) * world :=
  if ok then
    match live now (exports w !! i) with
    | None => (Ok None, w)
    | Some e =>
        if decide (e_status e = completed) then
          let token := {| t_exportId := e_id e; downloaded := false |} in
          let w := if applied rep then with_tokens (<[fresh := setex now TOKEN_TTL_SECONDS token]> (tokens w)) w else w in
          (if answered rep then Ok (Some (completed, Some fresh)) else Err RedisDown, w)
        else (Ok (Some (e_status e, None)), w)
    end
  else (Err RedisDown, w).

(** [consumeDownloadToken]: the read, and the write that answers. *)
Definition consume_get (ok : bool) (now : Z) (d : nat) (token : string) (w : world) : world :=
  if ok then
    match live now (tokens w !! token) with
    | Some t => if downloaded t then w else with_reads (<[d := (token, t)]> (reads w)) w
    | None => w
    end
  else w.

(** [SET] without an expiry: the token is kept for good. *)
Definition consume_set (rep : reply) (d : nat) (w : world) : option string * world :=
  match reads w !! d with
  | None => (None, w)
  | Some (token, t) =>
      let w := with_reads (delete d (reads w)) w in
      (if answered rep then Some (t_exportId t) else None,
       if applied rep then with_tokens (<[token := ({| t_exportId := t_exportId t; downloaded := true |}, None)]> (tokens w)) w else w)
  end.

Definition getExportArchive (ok : bool) (now : Z) (i : string) (w : world) : option string :=
  if ok then encryptedData <$> live now (archives w !! i) else None.

Definition deleteDataExport (i : string) (w : world) : bool * world :=
  (bool_decide (is_Some (exports w !! i)), with_exports (delete i (exports w)) w).

Inductive response := Download (archive : string) | StatusBody (s : export_status) (token : option string) | Code (status : Z).

(** The routes, when nothing runs between their commands and none fails. *)
Definition status_route (fresh : string) (now : Z) (user i : string) (w : world) : response * world :=
  if (String.length i <? 32)%nat then (Code 400, w)
  else match getExportStatus true Answered fresh now i w with
       | (Ok (Some (s, t)), w) => (StatusBody s t, w)
       | (Ok None, w) => (Code 404, w)
       | (Err _, w) => (Code 500, w)
       end.

Definition download_route (fresh : string) (now : Z) (user token : string) (w : world) : response * world :=
  if (String.length token <? 32)%nat then (Code 400, w)
  else match consume_set Answered 0 (consume_get true now 0 token w) with
       | (None, w) => (Code 410, w)
       | (Some i, w) =>
           match getExportStatus true Answered fresh now i w with
           | (Ok None, w) => (Code 404, w)
           | (Err _, w) => (Code 500, w)
           | (Ok (Some (s, _)), w) =>
               if decide (s = completed) then
                 match getExportArchive true now i w with Some a => (Download a, w) | None => (Code 404, w) end
               else (Code 202, w)
           end
       end.

(** ** Runs *)

Inductive event :=
| Initiate (rep : reply) (fresh : string) (now : Z) (user : string)
| Process (rep : reply) (now : Z) (rnd_salt rnd_iv : string) (i : string)
| Status (ok : bool) (rep : reply) (fresh : string) (now : Z) (i : string)
| ConsumeGet (ok : bool) (now : Z) (d : nat) (token : string)
| ConsumeSet (rep : reply) (d : nat).

(** The world, and the token a download was granted for. *)
Definition step (ev : event) (w : world) : world * option string :=
  match ev with
  | Initiate ok f now u => ((initiateDataExport ok f now u w).2, None)
  | Process ok now s v i =>
      match jobs w !! i with
      | Some (u, c) => let '(c', w') := process_step ok now s v i u c w in (with_jobs (<[i := (u, c')]> (jobs w')) w', None)
      | None => (w, None)
      end
  | Status ok ok' f now i => ((getExportStatus ok ok' f now i w).2, None)
  | ConsumeGet ok now d t => (consume_get ok now d t w, None)
  | ConsumeSet ok d => let '(r, w') := consume_set ok d w in (w', match r with Some _ => fst <$> reads w !! d | None => None end)
  end.

Fixpoint run (evs : list event) (w : world) : world * list string :=
  match evs with
  | [] => (w, [])
  | ev :: evs => let '(w, g) := step ev w in let '(w', gs) := run evs w in (w', option_list g ++ gs)
  end.
End Service.

Definition empty_world : world := {| exports := ∅; tokens := ∅; archives := ∅; jobs := ∅; reads := ∅ |}.

(** ** Properties: the bundle *)

Lemma substring_app_prefix (a b : string) n : String.length a = n → String.substring 0 n (a +:+ b) = a.
Proof. intros <-. induction a as [|c a IH]; [by destruct b|]. rewrite string_cons_app. cbn. by rewrite IH. Qed.

Lemma substring_app_suffix (a b : string) n m : String.length a = n → m = String.length b → String.substring n m (a +:+ b) = b.
Proof. intros <- ->. induction a as [|c a IH]; [apply substring_all|]. rewrite string_cons_app. exact IH. Qed.

Section BundleProperties.
Context {crypto : ExportCrypto} (env : export_env).

(** What is exported for a user decrypts, with the same parts and the same
    user, to the bundle that was made: the user's record and entries of the
    audit log, the newest first. *)
Theorem export_decrypts users logs rs rv now u r :
  createGdprExport env users logs rs rv now u = Ok r →
  ∃ user, UserRepository.findUserById u users = Some user ∧
    decryptGdprExport env (encryptedData r) (iv r) (salt r) (signature r) u = Ok (bundle user (logs_of u logs) now).
Proof.
  unfold createGdprExport. destruct (UserRepository.findUserById u users) as [user|]; [|done].
  destruct (deriveEncryptionKey env rs) as [key|] eqn:Hk; [|done].
  pose proof (aes_tag_length key rv (gzip (stringify (bundle user (logs_of u logs) now)))) as Hl.
  pose proof (aes_round_trip key rv (gzip (stringify (bundle user (logs_of u logs) now)))) as Hr.
  destruct (aes_encrypt _ _ _) as [c tag]. cbn in Hl. intros [= <-]. exists user. split; [done|].
  unfold decryptGdprExport. cbn [encryptedData iv salt signature]. rewrite Hk. rewrite substring_app_prefix by done.
  assert (slice_from 16 (tag +:+ c) = c) as ->.
  { unfold slice_from. apply substring_app_suffix; [done|]. rewrite string_length_app. lia. }
  rewrite Hr. cbn. rewrite gunzip_gzip. unfold verifySignature. rewrite String.eqb_refl. by rewrite parse_stringify.
Qed.

(** Two exports accepted for a user under one signature are one export:
    same salt, vector and cipher text, unless the HMAC collides. *)
Theorem accepted_export_is_signed u sig d d' enc enc' v v' s s' :
  decryptGdprExport env enc v s sig u = Ok d → decryptGdprExport env enc' v' s' sig u = Ok d' →
  String.length s = String.length s' → String.length v = String.length v' →
  (s = s' ∧ v = v' ∧ enc = enc' ∧ d = d') ∨
  (s +:+ v +:+ enc ≠ s' +:+ v' +:+ enc' ∧ hmac u (s +:+ v +:+ enc) = hmac u (s' +:+ v' +:+ enc')).
Proof.
  intros Hd Hd' Hs Hv. assert (∀ enc v s d, decryptGdprExport env enc v s sig u = Ok d → hmac u (s +:+ v +:+ enc) = sig) as Hsig.
  { clear. intros enc v s d. unfold decryptGdprExport. destruct (deriveEncryptionKey _ _); [|done]. destruct (_ ≫= _); [|done].
    destruct (verifySignature _ _ _) eqn:E; [|done]. intros _. by apply String.eqb_eq in E. }
  pose proof (Hsig _ _ _ _ Hd) as H. pose proof (Hsig _ _ _ _ Hd') as H'.
  destruct (decide (s +:+ v +:+ enc = s' +:+ v' +:+ enc')) as [He|He]; [left|right; split; [done|by rewrite H]].
  assert (∀ (a a' b b' : string), String.length a = String.length a' → a +:+ b = a' +:+ b' → a = a' ∧ b = b') as Hcut.
  { clear. induction a as [|c a IH]; intros [|c' a'] b b' Hl Hb; try done. cbn in Hl. rewrite !string_cons_app in Hb. injection Hb as -> Hb.
    by destruct (IH a' b b') as [-> ->]; [lia| |]. }
  apply Hcut in He as [-> He]; [|done]. apply Hcut in He as [-> ->]; [|done]. rewrite Hd in Hd'. by injection Hd' as ->.
Qed.

(** Where [require] is not defined, as in the built package, no export can
    be made: every one fails, for every user. *)
Theorem built_package_exports_nothing users logs rs rv now u :
  require_defined env = false → ∃ e, createGdprExport env users logs rs rv now u = Err e.
Proof.
  intros Hr. unfold createGdprExport, deriveEncryptionKey. rewrite Hr. destruct (UserRepository.findUserById u users); by eexists.
Qed.
End BundleProperties.

(** ** Properties: the service *)

Section ServiceProperties.
Context {crypto : ExportCrypto} (env : export_env) (users : UserRepository.store) (logs : list AuditChain.AuditLog).

Abbreviation step := (step env users logs).
Abbreviation run := (run env users logs).
Abbreviation process_step := (process_step env users logs).

(** The identifiers and tokens drawn are new. *)
Fixpoint fresh_run (evs : list event) (w : world) : bool :=
  match evs with
  | [] => true
  | ev :: evs =>
      (match ev with
       | Initiate _ f _ _ => bool_decide (jobs w !! f = None ∧ exports w !! f = None ∧ archives w !! f = None)
       | Status _ _ f _ _ => bool_decide (tokens w !! f = None)
       | _ => true
       end) && fresh_run evs (step ev w).1
  end.

Definition size_of (r : GdprExport) : Z := Z.of_nat (String.length (encryptedData r)).

(** The clock does not go back. *)
Definition event_time (ev : event) : option Z :=
  match ev with
  | Initiate _ _ now _ | Process _ now _ _ _ | Status _ _ _ now _ | ConsumeGet _ now _ _ => Some now
  | ConsumeSet _ _ => None
  end.
Fixpoint in_order (clock : Z) (evs : list event) : bool :=
  match evs with
  | [] => true
  | ev :: evs => match event_time ev with Some now => (clock <=? now) && in_order now evs | None => in_order clock evs end
  end.

(** The processing has nothing left to do but to note a failure. *)
Definition closing (c : counter) : bool := match c with FailGet _ | FailSet _ _ | Ended => true | _ => false end.

(** The archive of an export: the bundle of the user, [n] bytes, stored at or
    after [since]. *)
Definition archived (w : world) (i u : string) (since n : Z) : Prop :=
  ∃ r at_ rs rv built, archives w !! i = Some (r, Some (at_ + ARCHIVE_TTL_SECONDS * 1000)) ∧ since ≤ at_ ∧ n = size_of r ∧
    createGdprExport env users logs rs rv built u = Ok r.

(** A record of the export [i], against the job of the export, if any. *)
Record record_ok (clock : Z) (w : world) (i : string) (job : option (string * counter)) (e : DataExport) : Prop := {
  rec_id : e_id e = i;
  rec_user : ∀ u c, job = Some (u, c) → e_userId e = u;
  rec_created : e_createdAt e ≤ clock ∧ e_expiresAt e = e_createdAt e + EXPORT_TTL_SECONDS * 1000;
  rec_jobless : job = None → e_status e = pending;
  rec_completed : e_status e = completed → ∃ u c n, job = Some (u, c) ∧ closing c = true ∧ e_archiveSize e = Some n ∧ archived w i u (e_createdAt e) n;
  rec_failed : e_status e = failed → e_error e ≠ None ∧ ∃ u, job = Some (u, Ended)
}.

(** A record the processing has read: still the one of its export. *)
Definition held (clock : Z) (i u : string) (e : DataExport) : Prop :=
  e_id e = i ∧ e_userId e = u ∧ e_createdAt e ≤ clock ∧ e_expiresAt e = e_createdAt e + EXPORT_TTL_SECONDS * 1000.

(** What a counter knows. *)
Definition counter_ok (clock : Z) (w : world) (i u : string) (c : counter) : Prop :=
  match c with
  | MarkSet e | FailSet _ e => held clock i u e
  | Store r => ∃ rs rv built, createGdprExport env users logs rs rv built u = Ok r
  | DoneGet n => ∃ since, (∀ e t, exports w !! i = Some (e, t) → e_createdAt e ≤ since) ∧ archived w i u since n
  | DoneSet n e => held clock i u e ∧ archived w i u (e_createdAt e) n
  | _ => True
  end.

Definition world_ok (clock : Z) (w : world) : Prop :=
  (∀ i e t, exports w !! i = Some (e, t) → record_ok clock w i (jobs w !! i) e) ∧
  (∀ i u c, jobs w !! i = Some (u, c) → counter_ok clock w i u c).

Lemma live_Some {A} now (o : option (entry A)) a : live now o = Some a → ∃ t, o = Some (a, t).
Proof. destruct o as [[b [t|]]|]; cbn; [|by intros [= <-]; eexists|done]. case_match; [|done]. intros [= <-]. by eexists. Qed.

Lemma archived_weaken w w' i u since since' n :
  archived w i u since n → archives w' !! i = archives w !! i → since' ≤ since → archived w' i u since' n.
Proof. intros (r & at_ & rs & rv & b & Ha & Hs & Hn & Hb) He Hle. exists r, at_, rs, rv, b. rewrite He. split_and!; [done|lia|done|done]. Qed.

Lemma held_later clock clock' i u e : held clock i u e → clock ≤ clock' → held clock' i u e.
Proof. intros (? & ? & ? & ?) Hle. split_and!; [done|done|lia|done]. Qed.

(** Facts about one export outlive what does not touch it. *)
Lemma record_frame clock clock' w w' i job e :
  record_ok clock w i job e → clock ≤ clock' → archives w' !! i = archives w !! i → record_ok clock' w' i job e.
Proof.
  intros [R1 R2 [R3 R3'] R4 R5 R6] Hle Ha. split; [done|done|split; [lia|done]|done| |done].
  intros Hs. destruct (R5 Hs) as (u & c & n & ? & ? & ? & Hn). exists u, c, n. split_and!; try done. by eapply archived_weaken.
Qed.

Lemma counter_frame clock clock' w w' i u c :
  counter_ok clock w i u c → clock ≤ clock' → archives w' !! i = archives w !! i → exports w' !! i = exports w !! i → counter_ok clock' w' i u c.
Proof.
  intros Hc Hle Ha He. destruct c; try done; cbn in *.
  - by eapply held_later.
  - destruct Hc as (since & H1 & H2). exists since. split; [by rewrite He|by eapply archived_weaken].
  - destruct Hc as [? H2]. split; [by eapply held_later|by eapply archived_weaken].
  - by eapply held_later.
Qed.

Lemma process_frame rep now rs rv i u c w :
  let '(c', w') := process_step rep now rs rv i u c w in
  jobs w' = jobs w ∧ tokens w' = tokens w ∧ reads w' = reads w ∧
  ∀ j, j ≠ i → exports w' !! j = exports w !! j ∧ archives w' !! j = archives w !! j.
Proof.
  destruct c, rep; cbn; split_and!; try done; intros j Hj; split; try done; by rewrite lookup_insert_ne by done.
Qed.

(** A record that is written back with a new status. *)
Lemma written_ok clock w i u c e st err size now :
  held clock i u e → clock ≤ now →
  (st = completed → closing c = true ∧ ∃ n, size = Some n ∧ archived w i u (e_createdAt e) n) →
  (st = failed → err ≠ None ∧ c = Ended) →
  record_ok now w i (Some (u, c)) (with_status now st err size e).
Proof.
  intros (H1 & H2 & H3 & H4) Hle Hc Hf. split; cbn; [done|by intros u' c' [= <- <-]|split; [lia|done]|done| |].
  - intros Hs. destruct (Hc Hs) as (Hcl & n & -> & Ha). by exists u, c, n.
  - intros Hs. destruct (Hf Hs) as [He ->]. split; [by destruct err|by eexists].
Qed.

(** A record stays as it is while the processing goes on; it is not completed
    or failed unless the processing was closing already. *)
Lemma kept_ok clock now w w' i u c c' e :
  record_ok clock w i (Some (u, c)) e → clock ≤ now →
  (closing c = true → archives w' !! i = archives w !! i) → (closing c = true → closing c' = true) → (c = Ended → c' = Ended) →
  record_ok now w' i (Some (u, c')) e.
Proof.
  intros [R1 R2 [R3 R3'] R4 R5 R6] Hle Ha Hcl He. split; [done| |split; [lia|done]|done| |].
  - intros u' c0 [= <- <-]. by apply (R2 _ c).
  - intros Hs. destruct (R5 Hs) as (u0 & c0 & n & [= <- <-] & Hc & Hn & Har). exists u, c', n.
    split_and!; [done|by apply Hcl|done|]. by eapply archived_weaken; [|apply Ha|].
  - intros Hs. destruct (R6 Hs) as [Hne [u0 [= <- ->]]]. split; [done|]. exists u. by rewrite He.
Qed.

Lemma live_held clock now w i u c e :
  (∀ e t, exports w !! i = Some (e, t) → record_ok clock w i (Some (u, c)) e) → clock ≤ now →
  live now (exports w !! i) = Some e → held now i u e.
Proof. intros He Hle [t Ht]%live_Some. destruct (He e t Ht) as [R1 R2 [R3 R3'] _ _ _]. split_and!; [done|by apply (R2 _ c)|lia|done]. Qed.

Lemma process_ok clock rep now rs rv i u c w :
  clock ≤ now →
  (∀ e t, exports w !! i = Some (e, t) → record_ok clock w i (Some (u, c)) e) → counter_ok clock w i u c →
  let '(c', w') := process_step rep now rs rv i u c w in
  (∀ e t, exports w' !! i = Some (e, t) → record_ok now w' i (Some (u, c')) e) ∧ counter_ok now w' i u c'.
Proof.
  intros Hle He Hc.
  assert (∀ w' c', exports w' !! i = exports w !! i → (closing c = true → archives w' !! i = archives w !! i) →
            (closing c = true → closing c' = true) → (c = Ended → c' = Ended) →
            ∀ e t, exports w' !! i = Some (e, t) → record_ok now w' i (Some (u, c')) e) as Hkept.
  { intros w' c' Heq Ha Hcl Hen e t Ht. rewrite Heq in Ht. by eapply kept_ok; [apply (He e t Ht)|..]. }
  assert (∀ e, live now (exports w !! i) = Some e → held now i u e) as Hlive by (intros; by eapply live_held).
  destruct c as [|e| |r|n|n e|x|x e|]; cbn [process_step].
  - split; [by apply Hkept|]. destruct (answered rep); [|done]. destruct (live now _) eqn:E; cbn; [by apply Hlive|done].
  - split; [|by destruct (answered rep)]. destruct (applied rep); [|by apply Hkept].
    cbn. intros e' t. rewrite lookup_insert_eq. intros [= <- _]. by eapply written_ok.
  - split; [by apply Hkept|]. destruct (createGdprExport _ _ _ _ _ _ _) eqn:E; cbn; [by eexists _, _, _|done].
  - split; [apply Hkept; [by destruct (applied rep)|done..]|]. destruct rep; cbn; [|done|done].
    exists now. split; [intros e t Ht; destruct (He e t Ht) as [_ _ [? _] _ _ _]; lia|].
    destruct Hc as (rs' & rv' & b & Hb). exists r, now, rs', rv', b. cbn. rewrite lookup_insert_eq. by split_and!.
  - split; [by apply Hkept|]. destruct (answered rep); [|done]. destruct (live now _) eqn:E; cbn; [|done].
    split; [by apply Hlive|]. destruct Hc as (since & H1 & H2). apply live_Some in E as [t Ht]. eapply archived_weaken; [exact H2|done|by eapply H1].
  - destruct Hc as [Hh Ha]. split; [|by destruct (answered rep)]. destruct (applied rep); [|by apply Hkept; destruct (answered rep)].
    cbn. intros e' t. rewrite lookup_insert_eq. intros [= <- _]. eapply written_ok; [done|done| |done].
    intros _. split; [by destruct (answered rep)|]. by exists n.
  - split; [apply Hkept; [done..| |done]; intros _; destruct (answered rep), (live now _); done|].
    destruct (answered rep); [|done]. destruct (live now _) eqn:E; cbn; [by apply Hlive|done].
  - split; [|done]. destruct (applied rep); [|by apply Hkept]. cbn. intros e' t. rewrite lookup_insert_eq. intros [= <- _].
    by eapply written_ok.
  - by split; [apply Hkept|].
Qed.

(** What neither writes records nor archives nor jobs. *)
Lemma same_ok clock clock' w w' :
  world_ok clock w → clock ≤ clock' → exports w' = exports w → archives w' = archives w → jobs w' = jobs w → world_ok clock' w'.
Proof.
  intros [He Hj] Hle H1 H2 H3. split.
  - intros i e t. rewrite H1, H3. intros Hi. eapply record_frame; [by apply (He i e t)|done|by rewrite H2].
  - intros i u c. rewrite H3. intros Hi. eapply counter_frame; [by apply Hj|done|by rewrite H2|by rewrite H1].
Qed.

Lemma new_record_ok now w f u job :
  (∀ u' c, job = Some (u', c) → u' = u) → record_ok now w f job (new_export f u now).
Proof. intros Hj. split; cbn; try done. intros u' c ->. symmetry. by eapply Hj. Qed.

Lemma initiate_ok clock rep f now u w :
  world_ok clock w → clock ≤ now → jobs w !! f = None → world_ok now (initiateDataExport rep f now u w).2.
Proof.
  intros Hw Hle Hfj. pose proof Hw as [He Hj].
  destruct rep; cbn; [| by eapply same_ok |]; (split; cbn;
    [intros j e t; destruct (decide (j = f)) as [->|Hne]; rewrite ?lookup_insert_eq, ?lookup_insert_ne by done;
      [intros [= <- _]; apply new_record_ok|intros Hi; eapply record_frame; [by apply (He j e t)|done..]]|]).
  - by intros u' c [= <- <-].
  - intros j u' c. destruct (decide (j = f)) as [->|Hne]; [rewrite lookup_insert_eq; by intros [= <- <-]|].
    rewrite lookup_insert_ne by done. intros Hi. eapply counter_frame; [by apply Hj|done|done|cbn; by rewrite lookup_insert_ne].
  - intros u' c. by rewrite Hfj.
  - intros j u' c Hi. assert (j ≠ f) by (intros ->; by rewrite Hi in Hfj).
    eapply counter_frame; [by apply Hj|done|done|cbn; by rewrite lookup_insert_ne].
Qed.

Lemma process_event_ok clock rep now rs rv i w :
  world_ok clock w → clock ≤ now → world_ok now (step (Process rep now rs rv i) w).1.
Proof.
  intros Hw Hle. pose proof Hw as [He Hj]. cbn [Gdpr.step]. destruct (jobs w !! i) as [[u c]|] eqn:Hi; [|by eapply same_ok].
  pose proof (process_frame rep now rs rv i u c w) as Hfr. pose proof (process_ok clock rep now rs rv i u c w Hle) as Hok.
  destruct (process_step rep now rs rv i u c w) as [c' w']. destruct Hfr as (Fj & _ & _ & Fo). destruct Hok as [He' Hc'].
  { intros e t Ht. rewrite <- Hi. by apply (He i e t). }
  { by apply Hj. }
  cbn. split; cbn; rewrite Fj.
  - intros j e t Ht. destruct (decide (j = i)) as [->|Hne].
    + rewrite lookup_insert_eq. by eapply record_frame; [apply (He' e t Ht)|..].
    + destruct (Fo j Hne) as [Fe Fa]. rewrite lookup_insert_ne by done. rewrite Fe in Ht. by eapply record_frame; [apply (He j e t Ht)|..].
  - intros j u' c0. destruct (decide (j = i)) as [->|Hne].
    + rewrite lookup_insert_eq. intros [= <- <-]. by eapply counter_frame.
    + destruct (Fo j Hne) as [Fe Fa]. rewrite lookup_insert_ne by done. intros Hu. by eapply counter_frame; [apply (Hj j u' c0 Hu)|..].
Qed.

(** The clock after an event. *)
Definition time_after (clock : Z) (ev : event) : Z := default clock (event_time ev).

Lemma gdpr_step_ok clock ev evs w :
  world_ok clock w → fresh_run (ev :: evs) w = true → clock ≤ time_after clock ev → world_ok (time_after clock ev) (step ev w).1.
Proof.
  intros Hw Hf Hle. cbn [fresh_run] in Hf. apply andb_true_iff in Hf as [Hf _].
  destruct ev as [rep f now u|rep now rs rv i|ok rep f now i|ok now d t|rep d]; cbn [time_after event_time default id] in *.
  - apply bool_decide_eq_true in Hf as (Hfj & _ & _). by apply (initiate_ok clock).
  - by apply (process_event_ok clock).
  - cbn. unfold getExportStatus. destruct ok; [|by eapply same_ok]. destruct (live now _); [|by eapply same_ok]. case_decide; [|by eapply same_ok].
    destruct rep; by eapply same_ok.
  - cbn. unfold consume_get. destruct ok; [|by eapply same_ok]. destruct (live now _); [|by eapply same_ok]. case_match; by eapply same_ok.
  - cbn. unfold consume_set. destruct (reads w !! d) as [[tok t]|]; [|by eapply same_ok]. destruct rep; by eapply same_ok.
Qed.

Lemma in_order_cons clock ev evs :
  in_order clock (ev :: evs) = true → clock ≤ time_after clock ev ∧ in_order (time_after clock ev) evs = true.
Proof. unfold time_after. cbn. destruct (event_time ev); cbn; [|done]. intros [H1 H2]%andb_true_iff. split; [lia|done]. Qed.

Lemma gdpr_run_ok evs clock w :
  world_ok clock w → fresh_run evs w = true → in_order clock evs = true → ∃ clock', world_ok clock' (run evs w).1.
Proof.
  revert clock w. induction evs as [|ev evs IH]; intros clock w Hw Hf Ho; [by exists clock|].
  apply in_order_cons in Ho as [Hle Ho]. pose proof (gdpr_step_ok clock ev evs w Hw Hf Hle) as Hs.
  cbn [fresh_run] in Hf. apply andb_true_iff in Hf as [_ Hf].
  cbn [Gdpr.run]. destruct (step ev w) as [w1 g]. destruct (IH _ w1 Hs Hf Ho) as [c Hc]. exists c. by destruct (run evs w1).
Qed.

(** C23. Take any interleaving of requests and processing, on a clock that does
    not go back, in which any command of Redis may fail without or with its
    effect.  A record of an export keeps its identifier and is of the user it
    is processed for; it is pending if it is not processed at all.  If it
    says completed, its archive is the encrypted bundle of that user, of the
    size the record states, and is there to be read until the time the record
    says it expires at.  If it says failed, it names the error and its
    processing is over. *)
Theorem completed_exports_have_archives evs clock i e t :
  fresh_run evs empty_world = true → in_order clock evs = true →
  let w := (run evs empty_world).1 in
  exports w !! i = Some (e, t) →
  e_id e = i ∧ (∀ u c, jobs w !! i = Some (u, c) → e_userId e = u) ∧ (jobs w !! i = None → e_status e = pending) ∧
  (e_status e = completed →
     ∃ r rs rv built, createGdprExport env users logs rs rv built (e_userId e) = Ok r ∧ e_archiveSize e = Some (size_of r) ∧
       ∀ now, now < e_expiresAt e → live now (archives w !! i) = Some r) ∧
  (e_status e = failed → e_error e ≠ None ∧ jobs w !! i = Some (e_userId e, Ended)).
Proof.
  intros Hf Ho w Hi.
  assert (world_ok clock empty_world) as H0 by (split; [intros j e' t'|intros j u c]; cbn; by rewrite lookup_empty).
  destruct (gdpr_run_ok evs clock _ H0 Hf Ho) as [clock' [He _]].
  destruct (He i e t Hi) as [R1 R2 [_ R3] R4 R5 R6]. split_and!; [done|done|done| |].
  - intros Hs. destruct (R5 Hs) as (u & c & n & Hj & _ & Hn & r & at_ & rs & rv & b & Ha & Hle & -> & Hb).
    rewrite <- (R2 u c Hj) in Hb. exists r, rs, rv, b. split_and!; [done|done|]. intros now Hnow. fold w in Ha. rewrite Ha. cbn.
    unfold EXPORT_TTL_SECONDS, ARCHIVE_TTL_SECONDS in *. by rewrite (proj2 (Z.ltb_lt _ _)) by lia.
  - intros Hs. destruct (R6 Hs) as [Hne [u Hj]]. split; [done|]. by rewrite (R2 u Ended Hj).
Qed.

Definition rank (c : counter) : nat :=
  match c with
  | MarkGet => 8 | MarkSet _ => 7 | Build => 6 | Store _ => 5 | DoneGet _ => 4 | DoneSet _ _ => 3 | FailGet _ => 2 | FailSet _ _ => 1 | Ended => 0
  end.

Definition processes (i : string) (ev : event) : bool := match ev with Process _ _ _ _ j => String.eqb i j | _ => false end.

Lemma process_rank ok now rs rv i u c w : (rank (process_step ok now rs rv i u c w).1 ≤ pred (rank c))%nat.
Proof. destruct c; cbn [process_step]; destruct ok; cbn; repeat case_match; cbn; lia. Qed.

(** Whatever fails and whatever else runs, the processing of an export is
    over after eight of its steps. *)
Theorem processing_ends evs w i u c :
  jobs w !! i = Some (u, c) → fresh_run evs w = true → (rank c ≤ length (List.filter (processes i) evs))%nat →
  jobs (run evs w).1 !! i = Some (u, Ended).
Proof.
  revert w c. induction evs as [|ev evs IH]; intros w c Hi Hf Hr.
  - cbn in Hr. destruct c; cbn in Hr; try lia. exact Hi.
  - cbn [fresh_run] in Hf. apply andb_true_iff in Hf as [Hfr Hf]. cbn [Gdpr.run]. cbn [List.filter] in Hr.
    enough (∃ c', jobs (step ev w).1 !! i = Some (u, c') ∧ (rank c' ≤ length (List.filter (processes i) evs))%nat) as (c' & Hi' & Hr').
    { specialize (IH _ _ Hi' Hf Hr'). destruct (step ev w) as [w1 g]. cbn [fst] in *. by destruct (run evs w1). }
    destruct ev as [ok f now v|ok now rs rv j|ok rep f now j|ok now d t|ok d]; cbn [processes] in Hr; cbn [Gdpr.step fst].
    + exists c. split; [|done]. apply bool_decide_eq_true in Hfr as (Hfj & _ & _). unfold initiateDataExport. destruct ok; [|done|done]. cbn.
      rewrite lookup_insert_ne; [done|]. intros <-. by rewrite Hi in Hfj.
    + destruct (String.eqb_spec i j) as [<-|Hne].
      * rewrite Hi. pose proof (process_rank ok now rs rv i u c w) as Hrk. destruct (process_step ok now rs rv i u c w) as [c' w']. cbn in *.
        exists c'. rewrite lookup_insert_eq. split; [done|lia].
      * exists c. split; [|done]. destruct (jobs w !! j) as [[u' c0]|] eqn:Hj; [|done]. pose proof (process_frame ok now rs rv j u' c0 w) as Hfm.
        destruct (process_step ok now rs rv j u' c0 w) as [c' w']. destruct Hfm as [Hjobs _]. cbn. by rewrite lookup_insert_ne, Hjobs by done.
    + exists c. split; [|done]. unfold getExportStatus. destruct ok; [|done]. destruct (live now _); [|done]. case_decide; [|done]. by destruct rep.
    + exists c. split; [|done]. unfold consume_get. destruct ok; [|done]. destruct (live now _); [|done]. by case_match.
    + exists c. split; [|done]. unfold consume_set. destruct (reads w !! d) as [[tok t]|]; [|done]. by destruct ok.
Qed.

Lemma live_setex {A} now ttl (a : A) : 0 < ttl → live now (Some (setex now ttl a)) = Some a.
Proof. intros Ht. cbn. by rewrite (proj2 (Z.ltb_lt _ _)) by lia. Qed.

(** When Redis answers, an export that is requested is processed: completed,
    with its archive, if the bundle can be made, and failed with the reason if
    not. *)
Theorem requested_export_is_processed i u now rs rv w :
  let w' := (run (Initiate Answered i now u :: replicate 6 (Process Answered now rs rv i)) w).1 in
  ∃ e, live now (exports w' !! i) = Some e ∧ e_userId e = u ∧
  match createGdprExport env users logs rs rv now u with
  | Ok r => e_status e = completed ∧ e_archiveSize e = Some (size_of r) ∧ live now (archives w' !! i) = Some r
  | Err x => e_status e = failed ∧ e_error e = Some x
  end.
Proof.
  pose proof (λ ttl, @live_setex DataExport now ttl) as Hl. cbn [replicate Gdpr.run Gdpr.step initiateDataExport answered applied].
  repeat (cbn [snd fst jobs exports archives with_jobs with_exports with_archives Gdpr.process_step answered applied]; rewrite ?lookup_insert_eq, ?Hl by done).
  destruct (createGdprExport env users logs rs rv now u) as [r|x];
    repeat (cbn [snd fst jobs exports archives with_jobs with_exports with_archives Gdpr.process_step answered applied]; rewrite ?lookup_insert_eq, ?Hl by done);
    eexists; split_and!; try reflexivity. by rewrite live_setex.
Qed.

(** *** Tokens *)

(** A download reads its token when no other is between its two commands. *)
Fixpoint one_at_a_time (evs : list event) (w : world) : bool :=
  match evs with
  | [] => true
  | ev :: evs => (match ev with ConsumeGet _ _ _ _ => bool_decide (reads w = ∅) | _ => true end) && one_at_a_time evs (step ev w).1
  end.

Record tokens_ok (w : world) (granted : list string) : Prop := {
  granted_used : ∀ tok, tok ∈ granted → ∃ x, tokens w !! tok = Some ({| t_exportId := x; downloaded := true |}, None);
  read_unused : ∀ d tok t, reads w !! d = Some (tok, t) → tok ∉ granted;
  one_read : ∀ d d', is_Some (reads w !! d) → is_Some (reads w !! d') → d = d'
}.

Lemma tokens_same w w' g : tokens w' = tokens w → reads w' = reads w → tokens_ok w g → tokens_ok w' g.
Proof. intros H1 H2 [T1 T2 T3]. split; rewrite ?H1, ?H2; done. Qed.

Lemma tokens_step ev evs w g :
  tokens_ok w g → NoDup g → fresh_run (ev :: evs) w = true → one_at_a_time (ev :: evs) w = true →
  tokens_ok (step ev w).1 (g ++ option_list (step ev w).2) ∧ NoDup (g ++ option_list (step ev w).2).
Proof.
  intros HT Hg Hf Ho. cbn [fresh_run one_at_a_time] in Hf, Ho. apply andb_true_iff in Hf as [Hf _]. apply andb_true_iff in Ho as [Ho _].
  assert (∀ w', tokens w' = tokens w → reads w' = reads w → tokens_ok w' (g ++ []) ∧ NoDup (g ++ [])) as Hsame.
  { intros w' H1 H2. rewrite app_nil_r. split; [by eapply tokens_same|done]. }
  destruct ev as [rep f now u|rep now rs rv i|ok rep f now i|ok now d tok|rep d]; cbn [Gdpr.step fst snd option_list].
  - unfold initiateDataExport. destruct rep; by apply Hsame.
  - destruct (jobs w !! i) as [[u c]|]; [|by apply Hsame]. pose proof (process_frame rep now rs rv i u c w) as Hfm.
    destruct (process_step rep now rs rv i u c w) as [c' w']. destruct Hfm as (_ & H1 & H2 & _). by apply Hsame.
  - unfold getExportStatus. destruct ok; [|by apply Hsame]. destruct (live now _) as [e|]; [|by apply Hsame]. case_decide; [|by apply Hsame].
    apply bool_decide_eq_true in Hf. destruct rep; [|by apply Hsame|]; cbn; rewrite app_nil_r; (split; [|done]);
      destruct HT as [T1 T2 T3]; (split; cbn; [|done|done]); intros tok Htok; destruct (T1 tok Htok) as [x Hx]; exists x;
      (rewrite lookup_insert_ne; [done|]); intros <-; by rewrite Hx in Hf.
  - unfold consume_get. destruct ok; [|by apply Hsame]. destruct (live now _) as [t|] eqn:El; [|by apply Hsame]. destruct (downloaded t) eqn:Ed; [by apply Hsame|].
    rewrite app_nil_r. split; [|done]. apply bool_decide_eq_true in Ho. destruct HT as [T1 T2 T3]. split; cbn; [done| |].
    + intros d' tok' t'. rewrite Ho. destruct (decide (d = d')) as [<-|Hne]; [|by rewrite lookup_insert_ne, lookup_empty by done].
      rewrite lookup_insert_eq. intros [= <- <-] Hin. destruct (T1 tok Hin) as [x Hx]. rewrite Hx in El. cbn in El. by injection El as <-.
    + rewrite Ho. intros d1 d2 [x1 H1] [x2 H2]. destruct (decide (d1 = d)) as [->|]; [|by rewrite lookup_insert_ne, lookup_empty in H1 by done].
      by destruct (decide (d2 = d)) as [->|]; [|by rewrite lookup_insert_ne, lookup_empty in H2 by done].
  - unfold consume_set. destruct HT as [T1 T2 T3]. destruct (reads w !! d) as [[tok t]|] eqn:Er; [|by apply Hsame].
    assert (∀ d', delete d (reads w) !! d' = None) as Hnone.
    { intros d'. destruct (decide (d = d')) as [<-|Hne]; [apply lookup_delete_eq|]. rewrite lookup_delete_ne by done.
      destruct (reads w !! d') eqn:E; [|done]. exfalso. apply Hne, T3; by eexists. }
    assert (∀ ts, tokens_ok w g → (∀ tok', tok' ∈ g → ts !! tok' = tokens w !! tok') →
              tokens_ok (with_tokens ts (with_reads (delete d (reads w)) w)) g) as Hread.
    { intros ts _ Hts. split; cbn.
      - intros tok' Hin. rewrite Hts by done. by apply T1.
      - intros d' tok' t' H. by rewrite Hnone in H.
      - intros d' d'' [x H]. by rewrite Hnone in H. }
    pose proof (T2 d tok t Er) as Hni. destruct rep; cbn; rewrite ?app_nil_r.
    + split.
      * split; cbn.
        -- intros tok' [Hin| ->%list_elem_of_singleton]%elem_of_app.
           ++ rewrite lookup_insert_ne; [by apply T1|]. by intros <-.
           ++ rewrite lookup_insert_eq. by eexists.
        -- intros d' tok' t' H. by rewrite Hnone in H.
        -- intros d' d'' [x H]. by rewrite Hnone in H.
      * apply NoDup_app. split_and!; [done| |apply NoDup_singleton]. by intros x Hx ->%list_elem_of_singleton.
    + split; [|done]. by apply (Hread (tokens w)).
    + split; [|done]. apply Hread; [by split|]. intros tok' Hin. rewrite lookup_insert_ne; [done|]. by intros <-.
Qed.

(** Downloads that do not overlap use a token once: no token is granted
    twice, however long after, since a used one never expires. *)
Theorem download_token_single_use evs :
  fresh_run evs empty_world = true → one_at_a_time evs empty_world = true → NoDup (run evs empty_world).2.
Proof.
  enough (∀ w g, tokens_ok w g → NoDup g → fresh_run evs w = true → one_at_a_time evs w = true → NoDup (g ++ (run evs w).2)) as H.
  { intros Hf Ho. apply (H empty_world []); [|constructor|done|done]. split; cbn; [intros tok []%elem_of_nil|by intros d tok t; rewrite lookup_empty|by intros d d' [x Hx]; rewrite lookup_empty in Hx]. }
  induction evs as [|ev evs' IH]; intros w g HT Hg Hf Ho; [cbn; by rewrite app_nil_r|].
  destruct (tokens_step ev evs' w g HT Hg Hf Ho) as [HT' Hg']. cbn [fresh_run one_at_a_time] in Hf, Ho. apply andb_true_iff in Hf as [_ Hf]. apply andb_true_iff in Ho as [_ Ho].
  cbn [Gdpr.run]. destruct (step ev w) as [w1 o]. cbn [fst snd] in *. specialize (IH w1 _ HT' Hg' Hf Ho). destruct (run evs' w1). cbn [snd] in *. by rewrite app_assoc.
Qed.

(** The read and the write of a token are two commands: two downloads that
    both read it before either writes are both granted. *)
Theorem overlapping_downloads_both_granted now tok t w d d' :
  d ≠ d' → live now (tokens w !! tok) = Some t → downloaded t = false →
  (run [ConsumeGet true now d tok; ConsumeGet true now d' tok; ConsumeSet Answered d; ConsumeSet Answered d'] w).2 = [tok; tok].
Proof.
  intros Hne Hl Hd. assert (∀ w' d, tokens w' = tokens w → consume_get true now d tok w' = with_reads (<[d := (tok, t)]> (reads w')) w') as Hget.
  { intros w' d0 He. unfold consume_get. by rewrite He, Hl, Hd. }
  assert (d' ≠ d) as Hne' by congruence.
  cbn [Gdpr.run Gdpr.step]. rewrite (Hget w d) by done. cbn [snd fst]. rewrite Hget by done. unfold consume_set. cbn.
  rewrite (lookup_insert_ne _ d' d), lookup_insert_eq by done. cbn. by rewrite (lookup_delete_ne _ d d'), lookup_insert_eq by done.
Qed.

Lemma status_completed fresh now i e w :
  live now (exports w !! i) = Some e → e_status e = completed →
  getExportStatus true Answered fresh now i w =
    (Ok (Some (completed, Some fresh)), with_tokens (<[fresh := setex now TOKEN_TTL_SECONDS {| t_exportId := e_id e; downloaded := false |}]> (tokens w)) w).
Proof. intros He Hs. unfold getExportStatus. by rewrite He, Hs. Qed.

Lemma consume_live now tok t w :
  live now (tokens w !! tok) = Some t → downloaded t = false →
  ∃ w', consume_set Answered 0 (consume_get true now 0 tok w) = (Some (t_exportId t), w') ∧ exports w' = exports w ∧ archives w' = archives w ∧
    tokens w' = <[tok := ({| t_exportId := t_exportId t; downloaded := true |}, None)]> (tokens w) ∧ reads w' !! 0%nat = None.
Proof.
  intros Hl Hd. unfold consume_get. rewrite Hl, Hd. unfold consume_set. cbn [reads with_reads]. rewrite lookup_insert_eq. eexists. split; [reflexivity|].
  cbn. split_and!; [done..|]. apply lookup_delete_eq.
Qed.

Lemma consume_used now tok x w :
  tokens w !! tok = Some ({| t_exportId := x; downloaded := true |}, None) → reads w !! 0%nat = None →
  consume_set Answered 0 (consume_get true now 0 tok w) = (None, w).
Proof. intros Ht Hr. unfold consume_get. rewrite Ht. cbn. unfold consume_set. by rewrite Hr. Qed.

(** Neither route asks whose export it is: with the identifier of a
    completed export anyone draws a token, and with the token anyone is sent
    the archive; then the token is used up. *)
Theorem anyone_downloads i e r w now fresh fresh' fresh'' user user' user'' :
  live now (exports w !! i) = Some e → e_id e = i → e_status e = completed → live now (archives w !! i) = Some r →
  (32 ≤ String.length i)%nat → (32 ≤ String.length fresh)%nat → fresh ≠ fresh' →
  let '(a, w1) := status_route fresh now user i w in
  let '(b, w2) := download_route fresh' now user' fresh w1 in
  let '(c, _) := download_route fresh'' now user'' fresh w2 in
  a = StatusBody completed (Some fresh) ∧ b = Download (encryptedData r) ∧ c = Code 410.
Proof.
  intros He Hid Hs Ha Hi Hf Hne. unfold status_route, download_route. rewrite !(proj2 (Nat.ltb_ge _ _)) by done.
  rewrite (status_completed _ _ _ e) by done. set (w1 := with_tokens _ w).
  destruct (consume_live now fresh {| t_exportId := e_id e; downloaded := false |} w1) as (w2 & -> & He2 & Ha2 & Ht2 & Hr2); [|done|].
  { subst w1. cbn [tokens with_tokens]. by rewrite lookup_insert_eq, live_setex. }
  cbn [t_exportId]. rewrite Hid. rewrite (status_completed _ _ _ e) by (done || by rewrite He2).
  destruct (decide (completed = completed)); [|done]. cbn [getExportArchive archives with_tokens]. rewrite Ha2. change (archives w1) with (archives w). rewrite Ha.
  cbn [fmap option_fmap option_map]. rewrite (consume_used now fresh (e_id e)); [done| |exact Hr2].
  cbn [tokens with_tokens]. by rewrite lookup_insert_ne, Ht2, lookup_insert_eq by done.
Qed.
End ServiceProperties.

(** ** Concrete exports *)

(** Any countable type has a text that reads back. *)
Fixpoint bits_text (p : positive) : string := match p with xH => EmptyString | xO p => String "0" (bits_text p) | xI p => String "1" (bits_text p) end.
Fixpoint text_bits (s : string) : positive := match s with EmptyString => xH | String c s => if Ascii.eqb c "0" then xO (text_bits s) else xI (text_bits s) end.

Lemma text_of_bits p : text_bits (bits_text p) = p.
Proof. induction p as [p IH|p IH|]; cbn; by rewrite ?IH. Qed.

Definition entry_tuple (l : LogEntry) := (l_id l, l_action l, l_resource l, l_timestamp l, l_metadata l).
Definition tuple_entry (t : string * string * string * Z * option string) : LogEntry :=
  let '(a, b, c, d, e) := t in {| l_id := a; l_action := b; l_resource := c; l_timestamp := d; l_metadata := e |}.
Definition role_tuple (r : UserRepository.UserRole) : string + bool * string :=
  match r with UserRepository.Text s => inl s | UserRepository.NotText b s => inr (b, s) end.
Definition tuple_role (t : string + bool * string) : UserRepository.UserRole :=
  match t with inl s => UserRepository.Text s | inr (b, s) => UserRepository.NotText b s end.

Definition data_tuple (d : GdprExportData) :=
  (g_id d, g_email d, g_createdAt d, g_updatedAt d, role_tuple (g_role d), map entry_tuple (auditLogs d), exportedAt d).
Definition tuple_data (t : string * string * Z * Z * (string + bool * string) * list (string * string * string * Z * option string) * Z) : GdprExportData :=
  let '(a, b, c, d, e, f, g) := t in
  {| g_id := a; g_email := b; g_createdAt := c; g_updatedAt := d; g_role := tuple_role e; auditLogs := map tuple_entry f; exportedAt := g |}.

Lemma tuple_of_data d : tuple_data (data_tuple d) = d.
Proof.
  destruct d as [a b c d r l t]. unfold tuple_data, data_tuple. cbn. f_equal; [by destruct r|].
  rewrite map_map. rewrite <- (map_id l) at 2. apply map_ext. by intros [].
Qed.

Definition fixed_tag : string := "0123456789abcdef".

Definition toy_text (d : GdprExportData) : string := bits_text (encode (data_tuple d)).
Definition toy_parse (s : string) : option GdprExportData := tuple_data <$> decode (text_bits s).
Definition toy_decrypt (key iv tag c : string) : option string := if String.eqb tag fixed_tag then Some c else None.

Lemma toy_text_reads d : toy_parse (toy_text d) = Some d.
Proof. unfold toy_parse, toy_text. rewrite text_of_bits, decode_encode. change (Some (tuple_data (data_tuple d)) = Some d). by rewrite tuple_of_data. Qed.

#[local] Instance toy_crypto : ExportCrypto := {|
  gzip t := "gz" +:+ t; gunzip := strip_prefix "gz"; aes_encrypt key iv t := (t, fixed_tag); aes_decrypt := toy_decrypt;
  pbkdf2 secret salt := secret +:+ salt; hmac key d := toy_hash (key +:+ d); stringify := toy_text; parse := toy_parse;
  gunzip_gzip t := eq_refl; aes_round_trip key iv t := eq_refl; aes_tag_length key iv t := eq_refl; parse_stringify := toy_text_reads
|}.

Definition built : export_env := {| require_defined := false; export_secret := None |}.
Definition dev : export_env := {| require_defined := true; export_secret := None |}.
Definition ann : UserRepository.User :=
  {| UserRepository.id := "u1"; UserRepository.email := "a@x"; UserRepository.passwordHash := "h"; UserRepository.createdAt := 1; UserRepository.updatedAt := 2;
     UserRepository.resetToken := None; UserRepository.resetTokenExpiry := None; UserRepository.role := UserRepository.user |}.
Definition people : UserRepository.store := {| UserRepository.users := [("u1", ann)]; UserRepository.emailIndex := [] |}.
Definition ann_export : GdprExport :=
  match createGdprExport dev people [] "salt" "iv" 9 "u1" with Ok r => r | Err _ => {| encryptedData := EmptyString; iv := EmptyString; salt := EmptyString; signature := EmptyString |} end.
Definition ann_now : GdprExport :=
  match createGdprExport dev people [] "salt" "iv" 11 "u1" with Ok r => r | Err _ => ann_export end.
Definition x32 : string := "00000000000000000000000000000001".
Definition t32 : string := "00000000000000000000000000000002".

Lemma export_decrypts_witness :
  ∃ user, UserRepository.findUserById "u1" people = Some user ∧
    decryptGdprExport dev (encryptedData ann_export) (iv ann_export) (salt ann_export) (signature ann_export) "u1" = Ok (bundle user (logs_of "u1" []) 9).
Proof. apply (export_decrypts dev people [] "salt" "iv"). reflexivity. Defined.

Lemma accepted_export_is_signed_witness :
  let e := encryptedData ann_export in let s := salt ann_export in let v := iv ann_export in
  (s = s ∧ v = v ∧ e = e ∧ bundle ann [] 9 = bundle ann [] 9) ∨ (s +:+ v +:+ e ≠ s +:+ v +:+ e ∧ hmac "u1" (s +:+ v +:+ e) = hmac "u1" (s +:+ v +:+ e)).
Proof.
  apply (accepted_export_is_signed dev "u1" (signature ann_export)); [vm_compute; reflexivity|vm_compute; reflexivity|reflexivity|reflexivity].
Defined.

Lemma built_package_exports_nothing_witness : ∃ e, createGdprExport built people [] "salt" "iv" 9 "u1" = Err e.
Proof. apply built_package_exports_nothing. reflexivity. Defined.

(** A request processed while its status is asked for, and two downloads. *)
Definition story : list event :=
  Initiate Answered x32 10 "u1" :: repeat (Process Answered 11 "salt" "iv" x32) 3 ++ [Status true Answered t32 12 x32] ++ repeat (Process Answered 13 "salt" "iv" x32) 5 ++
  [Status true Answered t32 14 x32; ConsumeGet true 15 0 t32; ConsumeSet Answered 0; ConsumeGet true 16 1 t32; ConsumeSet Answered 1].
Definition final : world := (run dev people [] story empty_world).1.

Example story_told :
  (run dev people [] story empty_world).2 = [t32] ∧ (e_status <$> live 20 (exports final !! x32)) = Some completed ∧
  (e_status <$> live 20 (exports (run built people [] story empty_world).1 !! x32)) = Some failed.
Proof. vm_compute. by split_and!. Qed.

Lemma completed_exports_have_archives_witness :
  ∃ e t, exports final !! x32 = Some (e, t) ∧ e_id e = x32 ∧
    (e_status e = completed → ∃ r rs rv built, createGdprExport dev people [] rs rv built (e_userId e) = Ok r ∧ e_archiveSize e = Some (size_of r) ∧
       ∀ now, now < e_expiresAt e → live now (archives final !! x32) = Some r).
Proof.
  destruct (exports final !! x32) as [[e t]|] eqn:E; [|vm_compute in E; discriminate E]. exists e, t. split; [reflexivity|].
  destruct (completed_exports_have_archives dev people [] story 10 x32 e t) as (H1 & _ & _ & H2 & _); [vm_compute; reflexivity|vm_compute; reflexivity|exact E|].
  exact (conj H1 H2).
Defined.

(** What failures leave: an export that nobody processes, since the answer to
    its creation was lost; one that says failed although its archive is there,
    since the answer to its completion was lost. *)
Example pending_for_good :
  let w := (run dev people [] [Initiate Unanswered x32 10 "u1"] empty_world).1 in
  (e_status <$> live 20 (exports w !! x32), bool_decide (jobs w !! x32 = None)) = (Some pending, true).
Proof. vm_compute. reflexivity. Qed.

Example failed_with_archive :
  let w := (run dev people [] (Initiate Answered x32 10 "u1" :: repeat (Process Answered 11 "salt" "iv" x32) 5 ++
              Process Unanswered 11 "salt" "iv" x32 :: repeat (Process Answered 12 "salt" "iv" x32) 2) empty_world).1 in
  (e_status <$> live 20 (exports w !! x32), bool_decide (is_Some (live 20 (archives w !! x32)))) = (Some failed, true).
Proof. vm_compute. reflexivity. Qed.

(** The archive was stored before the record said completed, and expires
    before it: for a while the export is completed, hands out tokens, and has
    nothing to download. *)
Example completed_outlives_archive :
  let w := (run dev people [] (Initiate Answered x32 10 "u1" :: repeat (Process Answered 11 "salt" "iv" x32) 4 ++
              repeat (Process Answered 500 "salt" "iv" x32) 2) empty_world).1 in
  (e_status <$> live 604800100 (exports w !! x32), live 604800100 (archives w !! x32)) = (Some completed, None) ∧
  (status_route t32 604800100 "u1" x32 w).1 = StatusBody completed (Some t32) ∧
  (download_route "t" 604800100 "u1" t32 (status_route t32 604800100 "u1" x32 w).2).1 = Code 404.
Proof. vm_compute. by split_and!. Qed.

Lemma processing_ends_witness :
  jobs (run dev people [] (repeat (Process Refused 11 "salt" "iv" x32) 8) (step dev people [] (Initiate Answered x32 10 "u1") empty_world).1).1 !! x32 = Some ("u1", Ended).
Proof. apply (processing_ends _ _ _ _ _ _ _ MarkGet); [reflexivity|vm_compute; reflexivity|cbn; lia]. Defined.

Lemma download_token_single_use_witness : NoDup (run dev people [] story empty_world).2.
Proof. apply download_token_single_use; vm_compute; reflexivity. Defined.

Definition with_token : world := (run dev people [] (take 11 story) empty_world).1.

Lemma overlapping_downloads_both_granted_witness :
  (run dev people [] [ConsumeGet true 15 0 t32; ConsumeGet true 15 1 t32; ConsumeSet Answered 0; ConsumeSet Answered 1] with_token).2 = [t32; t32].
Proof.
  apply (overlapping_downloads_both_granted dev people [] 15 t32 {| t_exportId := x32; downloaded := false |}); [discriminate|vm_compute; reflexivity|reflexivity].
Defined.

Definition record_now : DataExport :=
  {| e_id := x32; e_userId := "u1"; e_status := completed; e_createdAt := 10; e_completedAt := Some 13; e_expiresAt := 604800010; e_error := None;
     e_archiveSize := Some (size_of ann_now) |}.

Lemma anyone_downloads_witness :
  let '(a, w1) := status_route "0000000000000000000000000000000a" 20 "stranger" x32 final in
  let '(b, w2) := download_route "b" 20 "another" "0000000000000000000000000000000a" w1 in
  let '(c, _) := download_route "c" 20 "third" "0000000000000000000000000000000a" w2 in
  a = StatusBody completed (Some "0000000000000000000000000000000a") ∧ b = Download (encryptedData ann_now) ∧ c = Code 410.
Proof.
  apply (anyone_downloads x32 record_now ann_now final 20); [vm_compute; reflexivity|reflexivity|reflexivity|vm_compute; reflexivity|cbn; lia|cbn; lia|discriminate].
Defined.
