(* ===== verification/WebhookSchema.v ===== *)
(** * What may be subscribed: [src/schemas/webhookSubscription.ts].

    Bodies are parsed JSON ([WebhookDelivery.json]).  [new URL(s).protocol] is
    an argument.  The evaluation of the filters in this file is the twin of
    the dispatcher's. *)

From S2P Require Import Prelude Numeric Hashing JsString Words Collections.
From S2P Require Import WebhookDelivery.
#[local] Open Scope Z_scope.

(** ** Filters *)

Definition MAX_FILTER_RULES : nat := 50.
Definition MAX_EVENT_TYPE_LENGTH : nat := 200.
Definition MAX_FILTER_VALUE_LENGTH : nat := 500.
Definition MAX_FILTER_DEPTH : nat := 5.

(** [[a-zA-Z0-9._*-]] *)
Definition event_type_char (c : ascii) : bool :=
  in_range 97 122 c || in_range 65 90 c || in_range 48 57 c || Ascii.eqb c "." || Ascii.eqb c "_" || Ascii.eqb c "*" || Ascii.eqb c "-".

Definition isValidEventType (value : string) : bool :=
  if (String.length value =? 0)%nat || (MAX_EVENT_TYPE_LENGTH <? String.length value)%nat then false
  else match strip_prefix "." value, strip_suffix "." value with None, None => string_forallb event_type_char value | _, _ => false end.

(** The entries of an object: a key once, with its last value. *)
Definition entries (l : list (string * json)) : list (string * json) := fold_left (λ m kv, map_set kv.1 kv.2 m) l [].

Fixpoint getDepth (val : json) : nat :=
  match val with JObject l => S (fold_right (λ kv m, Nat.max (getDepth kv.2) m) 0%nat l) | _ => 0%nat end.

(** A field of a filter object: its key and its text. *)
Definition filter_field (kv : string * json) : option (string * string) :=
  match kv with
  | (k, JString s) =>
      if ((1 <=? String.length k) && (String.length k <=? 100) && (String.length s <=? MAX_FILTER_VALUE_LENGTH))%nat then Some (k, s) else None
  | _ => None
  end.

Definition filterValueSchema (v : json) : option filter_rule :=
  match v with
  | JBool b => Some (Always b)
  | JObject l =>
      match mapM filter_field (entries l) with
      | Some fields => if (getDepth (JObject (entries l)) <=? MAX_FILTER_DEPTH)%nat then Some (When fields) else None
      | None => None
      end
  | _ => None
  end.

Definition filter_entry (kv : string * json) : option (string * filter_rule) :=
  if isValidEventType kv.1 then pair kv.1 <$> filterValueSchema kv.2 else None.

Definition eventFiltersSchema (v : json) : option (list (string * filter_rule)) :=
  match v with
  | JObject l =>
      match mapM filter_entry (entries l) with
      | Some rules => if (length rules <=? MAX_FILTER_RULES)%nat then Some rules else None
      | None => None
      end
  | _ => None
  end.

(** ** Fields *)

Definition URL_MAX_LENGTH : nat := 2048.
Definition BLOCKED_SCHEMES : list string := ["javascript"; "data"; "vbscript"; "file"; "ftp"].

Definition begins (p s : string) : bool := match strip_prefix p s with Some _ => true | None => false end.

Definition hasBlockedScheme (url : string) : bool :=
  let lower := to_lower url in
  begins "//" lower || existsb (λ s, begins (s +:+ ":") lower || begins (s +:+ "%3a") lower) BLOCKED_SCHEMES.

Section Schemas.
Context (url_protocol : string → option string).

Definition isValidUrl (value : string) : bool :=
  if (URL_MAX_LENGTH <? String.length value)%nat then false
  else if hasBlockedScheme value then false
  else match url_protocol value with Some p => String.eqb p "http:" || String.eqb p "https:" | None => false end.

Definition urlField (v : json) : option string :=
  match v with
  | JString s => if ((1 <=? String.length s) && (String.length s <=? URL_MAX_LENGTH))%nat && isValidUrl s then Some s else None
  | _ => None
  end.

Definition secretField (v : json) : option string :=
  match v with JString s => if ((32 <=? String.length s) && (String.length s <=? 512))%nat then Some s else None | _ => None end.

(** A number is an integer when it is shown as one. *)
Definition maxPayloadSizeField (v : json) : option Z :=
  match v with
  | JNumber s =>
      match parse_int s with
      | Some n => if String.eqb (show_Z n) s && (1024 <=? n) && (n <=? 10 * 1024 * 1024) then Some n else None
      | None => None
      end
  | _ => None
  end.

Definition booleanField (v : json) : option bool := match v with JBool b => Some b | _ => None end.

(** [optional()]: a missing field passes. *)
Definition optionally {A} (field : json → option A) (v : option json) : option (option A) :=
  match v with None => Some None | Some v => Some <$> field v end.

Record CreateWebhookSubscriptionInput := {
  c_url : string; c_secret : string; c_eventFilters : option (list (string * filter_rule)); c_maxPayloadSize : option Z; c_enabled : bool
}.
Record UpdateWebhookSubscriptionInput := {
  u_url : option string; u_secret : option string; u_eventFilters : option (list (string * filter_rule)); u_enabled : option bool;
  u_maxPayloadSize : option Z
}.

Definition SUBSCRIPTION_FIELDS : list string := ["url"; "secret"; "eventFilters"; "maxPayloadSize"; "enabled"].
Definition strict (l : list (string * json)) : bool := forallb (λ kv, includes kv.1 SUBSCRIPTION_FIELDS) l.

Definition createWebhookSubscriptionSchema (v : json) : option CreateWebhookSubscriptionInput :=
  match v with
  | JObject l =>
      if strict l then
        (member "url" l ≫= urlField) ≫= λ u, (member "secret" l ≫= secretField) ≫= λ s,
        optionally eventFiltersSchema (member "eventFilters" l) ≫= λ f, optionally maxPayloadSizeField (member "maxPayloadSize" l) ≫= λ m,
        optionally booleanField (member "enabled" l) ≫= λ e,
        Some {| c_url := u; c_secret := s; c_eventFilters := f; c_maxPayloadSize := m; c_enabled := default true e |}
      else None
  | _ => None
  end.

Definition updateWebhookSubscriptionSchema (v : json) : option UpdateWebhookSubscriptionInput :=
  match v with
  | JObject l =>
      if strict l then
        optionally urlField (member "url" l) ≫= λ u, optionally secretField (member "secret" l) ≫= λ s,
        optionally eventFiltersSchema (member "eventFilters" l) ≫= λ f, optionally booleanField (member "enabled" l) ≫= λ e,
        optionally maxPayloadSizeField (member "maxPayloadSize" l) ≫= λ m,
        Some {| u_url := u; u_secret := s; u_eventFilters := f; u_enabled := e; u_maxPayloadSize := m |}
      else None
  | _ => None
  end.
End Schemas.

(** ** Evaluation *)

Fixpoint matchesFilterObject (filter : list (string * string)) (payload : json) : bool :=
  match filter with
  | [] => true
  | (key, expectedValue) :: rest =>
      match resolve_parts (split_on "." key) payload with
      | None => false
      | Some actualValue => if String.eqb (json_string actualValue) expectedValue then matchesFilterObject rest payload else false
      end
  end.

Definition follow (r : filter_rule) (payload : json) : bool := match r with Always b => b | When f => matchesFilterObject f payload end.

Fixpoint first_wildcard (filters : list (string * filter_rule)) (before after : list string) : option filter_rule :=
  match after with
  | [] => None
  | s :: after =>
      match filter_at filters (join "." (before ++ ["*"])) with
      | Some r => Some r
      | None => first_wildcard filters (before ++ [s]) after
      end
  end.

Definition evaluateEventFilter (eventType : string) (eventPayload : json) (filters : list (string * filter_rule)) : bool :=
  match filters with
  | [] => true
  | _ =>
      match filter_at filters eventType with
      | Some r => follow r eventPayload
      | None =>
          match first_wildcard filters [] (split_on "." eventType) with
          | Some r => follow r eventPayload
          | None => match filter_at filters "**" with Some r => follow r eventPayload | None => true end
          end
      end
  end.

(** ** Properties: filters *)

Lemma mapM_spec {A B} (f : A → option B) l k : mapM f l = Some k ↔ Forall2 (λ x y, f x = Some y) l k.
Proof. apply mapM_Some. Qed.

Lemma entries_nodup l : NoDup (entries l).*1.
Proof.
  unfold entries. enough (∀ m : list (string * json), NoDup m.*1 → NoDup (fold_left (λ m kv, map_set kv.1 kv.2 m) l m).*1) as H by (apply H; constructor).
  induction l as [|kv l IH]; intros m Hm; [done|]. cbn. by apply IH, map_set_nodup.
Qed.

Lemma map_set_fresh_key {V} k (v : V) m : k ∉ m.*1 → map_set k v m = m ++ [(k, v)].
Proof.
  induction m as [|[k' v'] m IH]; cbn; [done|]. intros H. apply not_elem_of_cons in H as [Hk Hm].
  destruct (String.eqb_spec k k') as [->|_]; [done|]. by rewrite IH.
Qed.

Lemma entries_fixed l : NoDup l.*1 → entries l = l.
Proof.
  unfold entries. enough (∀ m : list (string * json), NoDup (m ++ l).*1 → fold_left (λ m kv, map_set kv.1 kv.2 m) l m = m ++ l) as H by (apply (H [])).
  induction l as [|[k v] l IH]; intros m Hm; [by rewrite app_nil_r|]. cbn. rewrite map_set_fresh_key.
  - rewrite IH by (by rewrite <- app_assoc). by rewrite <- app_assoc.
  - rewrite fmap_app in Hm. apply NoDup_app in Hm as (_ & Hd & _). intros Hin. apply (Hd k Hin). by left.
Qed.

Definition short_field (kv : string * string) : bool :=
  ((1 <=? String.length kv.1) && (String.length kv.1 <=? 100) && (String.length kv.2 <=? MAX_FILTER_VALUE_LENGTH))%nat.

(** The JSON of a rule, and of the rules. *)
Definition rule_json (r : filter_rule) : json :=
  match r with Always b => JBool b | When f => JObject (map (λ kv, (kv.1, JString kv.2)) f) end.
Definition rules_json (rules : list (string * filter_rule)) : json := JObject (map (λ kr, (kr.1, rule_json kr.2)) rules).

(** Rules that can be stored. *)
Definition rule_ok (r : filter_rule) : Prop := match r with Always _ => True | When f => NoDup f.*1 ∧ Forall (λ kv, short_field kv = true) f end.
Definition rules_ok (rules : list (string * filter_rule)) : Prop :=
  NoDup rules.*1 ∧ Forall (λ kr, isValidEventType kr.1 = true ∧ rule_ok kr.2) rules ∧ (length rules ≤ MAX_FILTER_RULES)%nat.

Lemma filter_field_spec kv kv' : filter_field kv = Some kv' ↔ kv = (kv'.1, JString kv'.2) ∧ short_field kv' = true.
Proof.
  destruct kv as [k v], kv' as [k' s']. unfold short_field. cbn. split.
  - destruct v; try done. destruct (_ && _) eqn:E; [|done]. by intros [= <- <-].
  - intros [[= -> ->] E]. by rewrite E.
Qed.

Lemma Forall2_keys {A B} (l : list (string * A)) (k : list (string * B)) (R : string * A → string * B → Prop) :
  Forall2 R l k → (∀ x y, R x y → x.1 = y.1) → l.*1 = k.*1.
Proof. induction 1 as [|x y l k Hxy _ IH]; intros HR; [done|]. cbn. by rewrite (HR x y Hxy), IH. Qed.

(** A filter object has no level below its own: the limit on the depth never
    refuses anything. *)
Lemma flat_depth l fields : mapM filter_field l = Some fields → (getDepth (JObject l) ≤ 1)%nat.
Proof.
  rewrite mapM_spec. intros H. cbn. enough (fold_right (λ kv m, Nat.max (getDepth kv.2) m) 0%nat l = 0%nat) as -> by lia.
  induction H as [|kv kv' l k Hkv _ IH]; [done|]. apply filter_field_spec in Hkv as [-> _]. cbn. exact IH.
Qed.

Lemma filterValue_ok v r : filterValueSchema v = Some r → rule_ok r.
Proof.
  destruct v as [|b| | | |l]; try done; [by intros [= <-]|]. cbn [filterValueSchema]. destruct (mapM filter_field (entries l)) as [f|] eqn:E; [|done].
  case_match; [|done]. intros [= <-]. apply mapM_spec in E. split.
  - rewrite <- (Forall2_keys _ _ _ E); [apply entries_nodup|]. by intros x y [-> _]%filter_field_spec.
  - clear -E. induction E as [|x y l0 k Hxy _ IH]; [done|]. apply filter_field_spec in Hxy as [_ Hs]. by constructor.
Qed.

Lemma filterValue_rule r : rule_ok r → filterValueSchema (rule_json r) = Some r.
Proof.
  destruct r as [b|f]; [done|]. intros [Hn Hf]. cbn [rule_json filterValueSchema]. rewrite entries_fixed.
  2: { rewrite <- list_fmap_compose. exact Hn. }
  assert (mapM filter_field (map (λ kv, (kv.1, JString kv.2)) f) = Some f) as E.
  { apply mapM_spec. clear Hn. induction Hf as [|kv f Hkv _ IH]; [done|]. constructor; [by apply filter_field_spec|done]. }
  rewrite E. pose proof (flat_depth _ _ E) as Hd. rewrite (proj2 (Nat.leb_le _ _)) by (unfold MAX_FILTER_DEPTH; lia). done.
Qed.

Lemma accepted_rules v rules : eventFiltersSchema v = Some rules → rules_ok rules.
Proof.
  destruct v as [| | | | |l]; try done. cbn [eventFiltersSchema]. destruct (mapM filter_entry (entries l)) as [k|] eqn:E; [|done].
  destruct (Nat.leb_spec (length k) MAX_FILTER_RULES) as [Hlen|]; [|done]. intros [= <-]. apply mapM_spec in E.
  assert (∀ x y, filter_entry x = Some y → x.1 = y.1 ∧ isValidEventType y.1 = true ∧ rule_ok y.2) as Hxy.
  { intros [a v] [b r]. unfold filter_entry. cbn. destruct (isValidEventType a) eqn:Ea; [|done]. destruct (filterValueSchema v) eqn:Ev; [|done].
    intros [= <- <-]. split_and!; [done|done|]. by eapply filterValue_ok. }
  split_and!; [|clear Hlen|done].
  + rewrite <- (Forall2_keys _ _ _ E); [apply entries_nodup|]. intros x y H. by apply Hxy.
  + induction E as [|x y l' k' H _ IH]; [done|]. constructor; [by apply (Hxy x)|done].
Qed.

(** What the schema of the filters accepts can be stored: at most fifty
    rules, one for a type, each for a well-formed type and with short fields
    only; and every such list of rules is accepted back as it is, so what was
    stored passes again. *)
Theorem filters_are_stable :
  (∀ v rules, eventFiltersSchema v = Some rules → rules_ok rules) ∧
  (∀ rules, rules_ok rules → eventFiltersSchema (rules_json rules) = Some rules).
Proof.
  split; [apply accepted_rules|].
  intros rules (Hn & Hr & Hlen). unfold rules_json. cbn [eventFiltersSchema]. rewrite entries_fixed by (by rewrite <- list_fmap_compose).
  assert (mapM filter_entry (map (λ kr, (kr.1, rule_json kr.2)) rules) = Some rules) as ->.
  { apply mapM_spec. clear Hn Hlen. induction Hr as [|[k r] rules [Hk Hr] _ IH]; [done|]. constructor; [|done].
    unfold filter_entry. cbn in *. by rewrite Hk, filterValue_rule. }
  by rewrite (proj2 (Nat.leb_le _ _)).
Qed.

(** ** Properties: evaluation *)

Lemma matches_object f payload : matchesFilterObject f payload = objectFilterMatches f payload.
Proof.
  induction f as [|[k v] f IH]; [done|]. cbn. unfold resolveDotPath. destruct (resolve_parts _ payload); [|done]. by destruct (String.eqb _ _).
Qed.

Lemma follow_allows r payload : follow r payload = rule_allows r payload.
Proof. destruct r; [done|apply matches_object]. Qed.

Lemma first_wildcard_loop filters payload before after :
  (λ r, rule_allows r payload) <$> first_wildcard filters before after =
  wildcard_loop filters (before ++ after) payload (length after) (length before).
Proof.
  revert before. induction after as [|s after IH]; intros before; [done|]. cbn [first_wildcard length wildcard_loop].
  rewrite take_app_length. destruct (filter_at _ _); [done|].
  specialize (IH (before ++ [s])). rewrite <- app_assoc in IH. rewrite IH. f_equal. rewrite length_app. cbn. lia.
Qed.

(** The two evaluations of the filters, the one of the schemas and the one
    the dispatcher runs, are one function. *)
Lemma evaluation_twin eventType payload sub :
  shouldDeliverEvent eventType payload sub = evaluateEventFilter eventType payload (default [] (eventFilters sub)).
Proof.
  unfold shouldDeliverEvent, evaluateEventFilter. destruct (eventFilters sub) as [[|f fs]|]; [done| |done]. cbn [default from_option id].
  set (filters := f :: fs). destruct (filter_at filters eventType) as [r|]; [by rewrite follow_allows|].
  pose proof (first_wildcard_loop filters payload [] (split_on "." eventType)) as H. cbn [app length] in H. rewrite <- H.
  destruct (first_wildcard _ _ _) as [r|]; cbn; [by rewrite follow_allows|]. destruct (filter_at filters "**") as [r|]; [by rewrite follow_allows|done].
Qed.

(** The rules a type of event consults, in order. *)
Lemma evaluate_candidates eventType payload filters :
  evaluateEventFilter eventType payload filters =
  match filters with [] => true | _ => match head (omap (filter_at filters) (candidates eventType)) with Some r => rule_allows r payload | None => true end end.
Proof.
  pose proof (evaluation_twin eventType payload (filtered filters)) as H.
  change (default [] (eventFilters (filtered filters))) with filters in H. rewrite <- H, first_rule_decides.
  change (eventFilters (filtered filters)) with (Some filters). by destruct filters.
Qed.

(** The two evaluations of the filters, the one of this file and the one the
    dispatcher runs, are one function: the first rule decides, among the exact
    type, the wildcards from the blanket one down, and the recursive one. *)
Theorem evaluation_is_the_dispatchers eventType payload sub :
  evaluateEventFilter eventType payload (default [] (eventFilters sub)) = shouldDeliverEvent eventType payload sub ∧
  (∀ filters, filters ≠ [] → evaluateEventFilter eventType payload filters =
     match head (omap (filter_at filters) (candidates eventType)) with Some r => rule_allows r payload | None => true end).
Proof. split; [by rewrite evaluation_twin|]. intros filters Hf. rewrite evaluate_candidates. by destruct filters. Qed.

Lemma omap_unseen (f g : string → option filter_rule) (l : list string) : (∀ k, k ∈ l → f k = g k) → omap f l = omap g l.
Proof.
  induction l as [|k l IH]; intros H; [done|]. assert (f k = g k) as Hk by (apply H; by left). assert (omap f l = omap g l) as Hl by (apply IH; intros; apply H; by right).
  cbn. rewrite Hk. destruct (g k); [f_equal|]; exact Hl.
Qed.

(** Without rules the only one found is the empty one of every object. *)
Lemma no_rules payload (l : list string) : match head (omap (filter_at []) l) with Some r => rule_allows r payload | None => true end = true.
Proof. induction l as [|k l IH]; [done|]. cbn. unfold filter_at at 1. cbn. by destruct (String.eqb k "__proto__"). Qed.

(** A rule whose pattern is none of those a type of event consults does not
    matter to it; a recursive wildcard under a prefix, which the schema
    accepts, is consulted by no event but one of that very name. *)
Theorem unconsulted_rule_is_ignored eventType payload k r filters :
  k ∉ candidates eventType → evaluateEventFilter eventType payload ((k, r) :: filters) = evaluateEventFilter eventType payload filters.
Proof.
  intros Hk. rewrite !evaluate_candidates. rewrite (omap_unseen _ (filter_at filters)).
  - destruct filters as [|f fs]; [|done].
    apply no_rules.
  - intros k' Hin. unfold filter_at. cbn. destruct (String.eqb_spec k' k) as [->|]; done.
Qed.

Lemma candidates_shape eventType k : k ∈ candidates eventType → k = eventType ∨ k = "**" ∨ ∃ i, k = join "." (take i (split_on "." eventType) ++ ["*"]).
Proof.
  unfold candidates. intros [->|Hk]%elem_of_cons; [by left|]. apply elem_of_app in Hk as [Hk| ->%list_elem_of_singleton]; [|by right; left].
  apply list_elem_of_fmap in Hk as (i & -> & _). right. right. by exists i.
Qed.

(** ** Properties: addresses *)

(** An address that is accepted is an http or https address of at most 2048
    characters, however it is cased; plain http passes, although the message
    asks for HTTPS. *)
Theorem accepted_url url_protocol u :
  urlField url_protocol (JString u) = Some u ↔
  (1 ≤ String.length u ≤ URL_MAX_LENGTH)%nat ∧ hasBlockedScheme u = false ∧ (url_protocol u = Some "http:" ∨ url_protocol u = Some "https:").
Proof.
  cbn [urlField]. unfold isValidUrl. destruct (Nat.ltb_spec URL_MAX_LENGTH (String.length u)) as [Hl|Hl].
  - rewrite andb_false_r. split; [done|lia].
  - destruct (hasBlockedScheme u); [rewrite andb_false_r; split; [done|by intros (_ & ? & _)]|].
    destruct (url_protocol u) as [p|]; [|rewrite andb_false_r; split; [done|by intros (_ & _ & [|])]].
    destruct (Nat.leb_spec 1 (String.length u)), (Nat.leb_spec (String.length u) URL_MAX_LENGTH); cbn [andb]; try (split; [done|lia]); try lia.
    destruct (String.eqb_spec p "http:") as [->|H1]; [cbn; naive_solver|]. destruct (String.eqb_spec p "https:") as [->|H2]; [cbn; naive_solver|].
    cbn. split; [done|]. intros (_ & _ & [[= ->]|[= ->]]); done.
Qed.

(** A body that is accepted creates a subscription with an http or https
    address, a secret of 32 to 512 characters, storable rules, a bounded payload
    size, and is enabled unless it says otherwise; it has no other field. *)
Theorem accepted_subscription url_protocol v c :
  createWebhookSubscriptionSchema url_protocol v = Some c →
  (url_protocol (c_url c) = Some "http:" ∨ url_protocol (c_url c) = Some "https:") ∧ (32 ≤ String.length (c_secret c) ≤ 512)%nat ∧
  (∀ rules, c_eventFilters c = Some rules → rules_ok rules) ∧ (∀ m, c_maxPayloadSize c = Some m → 1024 ≤ m ≤ 10485760) ∧
  ∃ l, v = JObject l ∧ Forall (λ kv, kv.1 ∈ SUBSCRIPTION_FIELDS) l ∧ (member "enabled" l = None → c_enabled c = true).
Proof.
  destruct v as [| | | | |l]; try done. cbn [createWebhookSubscriptionSchema]. destruct (strict l) eqn:Est; [|done].
  destruct (member "url" l ≫= urlField url_protocol) as [u|] eqn:Eu; [|done]. destruct (member "secret" l ≫= secretField) as [s|] eqn:Es; [|done]. cbn [mbind option_bind].
  destruct (optionally eventFiltersSchema _) as [f|] eqn:Ef; [|done]. cbn [mbind option_bind]. destruct (optionally maxPayloadSizeField _) as [m|] eqn:Em; [|done].
  cbn [mbind option_bind]. destruct (optionally booleanField _) as [e|] eqn:Ee; [|done]. intros [= <-]. cbn. split_and!.
  - destruct (member "url" l) as [ju|]; [|done]. cbn [mbind option_bind] in Eu. destruct ju as [| | |su| |]; try done. assert (su = u) as ->.
    { cbn [urlField] in Eu. destruct (_ && _); [|done]. by injection Eu. }
    apply accepted_url in Eu. tauto.
  - destruct (member "secret" l) as [[| | |ss| |]|]; try done. cbn [mbind option_bind secretField] in Es. destruct (Nat.leb_spec 32 (String.length ss)), (Nat.leb_spec (String.length ss) 512); try done.
    injection Es as <-. lia.
  - destruct (member "secret" l) as [[| | |ss| |]|]; try done. cbn [mbind option_bind secretField] in Es. destruct (Nat.leb_spec 32 (String.length ss)), (Nat.leb_spec (String.length ss) 512); try done.
    injection Es as <-. lia.
  - intros rules ->. unfold optionally in Ef. destruct (member "eventFilters" l) as [v|]; [|done]. destruct (eventFiltersSchema v) eqn:E; [|done]. injection Ef as ->.
    by apply accepted_rules in E.
  - intros n ->. unfold optionally in Em. destruct (member "maxPayloadSize" l) as [[| |t| | |]|]; try done. cbn [maxPayloadSizeField] in Em. destruct (parse_int t) as [z|]; [|done].
    destruct (String.eqb _ t); [|done]. cbn [andb] in Em. change (10 * 1024 * 1024) with 10485760 in Em. destruct (Z.leb_spec 1024 z), (Z.leb_spec z 10485760); try done. injection Em as ->. done.
  - exists l. split_and!; [done| |].
    + unfold strict in Est. rewrite List.forallb_forall in Est. apply Forall_forall. intros kv Hin. apply includes_spec, Est. by apply list_elem_of_In.
    + intros He. unfold optionally in Ee. rewrite He in Ee. cbn in Ee. by injection Ee as <-.
Qed.

(** ** Concrete filters *)

Definition protocols (u : string) : option string :=
  if begins "https://" (to_lower u) then Some "https:" else if begins "http://" (to_lower u) then Some "http:" else None.

Definition quiet_refunds : list (string * filter_rule) := [("payment.refunded", Always false); ("payment.*", When [("data.status", "paid")])].
Definition paid : json := JObject [("data", JObject [("status", JString "paid")])].

Example refunds_are_quiet :
  eventFiltersSchema (rules_json quiet_refunds) = Some quiet_refunds ∧
  evaluateEventFilter "payment.refunded" paid quiet_refunds = false ∧ evaluateEventFilter "payment.captured" paid quiet_refunds = true ∧
  evaluateEventFilter "payment.captured" JNull quiet_refunds = false.
Proof. vm_compute. by split_and!. Qed.

(** A blanket rule overrules the specific wildcard, a wildcard under a prefix
    takes any number of segments, and a type no rule names is delivered. *)
Example wildcards_do_not_read_as_documented :
  evaluateEventFilter "payment.captured" JNull [("payment.*", Always false); ("*", Always true)] = true ∧
  evaluateEventFilter "payment.card.captured" JNull [("payment.*", Always false)] = false ∧
  evaluateEventFilter "payment.card.captured" JNull [("payment.**", Always false)] = true.
Proof. vm_compute. by split_and!. Qed.

Lemma unconsulted_rule_is_ignored_witness :
  evaluateEventFilter "payment.captured" paid (("payment.**", Always false) :: quiet_refunds) = evaluateEventFilter "payment.captured" paid quiet_refunds.
Proof. apply unconsulted_rule_is_ignored. apply (bool_decide_unpack _). vm_compute. exact I. Defined.

Definition subscription_body : json :=
  JObject [("url", JString "HTTP://hooks.example.com"); ("secret", JString "0123456789abcdef0123456789abcdef"); ("maxPayloadSize", JNumber "2048");
           ("eventFilters", rules_json quiet_refunds)].
Definition subscription_input : CreateWebhookSubscriptionInput :=
  {| c_url := "HTTP://hooks.example.com"; c_secret := "0123456789abcdef0123456789abcdef"; c_eventFilters := Some quiet_refunds; c_maxPayloadSize := Some 2048;
     c_enabled := true |}.

Lemma accepted_subscription_witness :
  (protocols "HTTP://hooks.example.com" = Some "http:" ∨ protocols "HTTP://hooks.example.com" = Some "https:") ∧ rules_ok quiet_refunds.
Proof.
  destruct (accepted_subscription protocols subscription_body subscription_input) as (H & _ & Hf & _); [vm_compute; reflexivity|].
  split; [exact H|]. exact (Hf quiet_refunds eq_refl).
Defined.

Example refused_bodies :
  createWebhookSubscriptionSchema protocols (JObject [("url", JString "javascript:alert(1)"); ("secret", JString "0123456789abcdef0123456789abcdef")]) = None ∧
  updateWebhookSubscriptionSchema protocols (JObject [("mtlsConfig", JNull)]) = None ∧
  updateWebhookSubscriptionSchema protocols (JObject []) = Some {| u_url := None; u_secret := None; u_eventFilters := None; u_enabled := None; u_maxPayloadSize := None |}.
Proof. vm_compute. by split_and!. Qed.
