(* ===== verification/PublicAttestations.v ===== *)
(** * Public attestations and their caching: [src/routes/publicAttestations.ts]
    and [src/utils/cachePolicy.ts], with [getByMerkleRoot] of
    [src/repositories/attestationRepository.ts].

    SHA-256 in base64, HMAC, and the texts of dates are arguments.  A
    [LIMIT 1] without an order takes the first row of the table.  The column
    [id] is a UUID: [is_uuid] tells which texts PostgreSQL reads as one, and
    any other is refused. *)

From S2P Require Import Prelude Numeric Hashing JsString Words Collections Regex.
Import Words.JsonText.
From S2P Require Import AttestationRepository.
Import AttestationRepository.Repo.
#[local] Open Scope Z_scope.

(** ** Cache policies *)

Inductive cache_scope := public | private | no_store.
Record CacheDirectives := { scope : cache_scope; maxAge : Z; staleWhileRevalidate : Z; staleIfError : Z }.
Record CachePolicyEntry := { policy_name : string; policy_path : string; policy_methods : list string; directives : CacheDirectives; supportsEtag : bool }.

Definition CACHE_POLICIES : list CachePolicyEntry :=
  [{| policy_name := "public-attestations-active"; policy_path := "/api/v1/public/attestations/:hash"; policy_methods := ["GET"];
      directives := {| scope := public; maxAge := 60; staleWhileRevalidate := 60; staleIfError := 86400 |}; supportsEtag := true |};
   {| policy_name := "public-attestations-revoked"; policy_path := "/api/v1/public/attestations/:hash"; policy_methods := ["GET"];
      directives := {| scope := public; maxAge := 15; staleWhileRevalidate := 60; staleIfError := 3600 |}; supportsEtag := false |};
   {| policy_name := "webhook-egress-ips"; policy_path := "/.well-known/webhook-egress-ips"; policy_methods := ["GET"];
      directives := {| scope := public; maxAge := 3600; staleWhileRevalidate := 60; staleIfError := 86400 |}; supportsEtag := false |};
   {| policy_name := "jwks"; policy_path := "/.well-known/jwks.json"; policy_methods := ["GET"];
      directives := {| scope := public; maxAge := 300; staleWhileRevalidate := 60; staleIfError := 86400 |}; supportsEtag := true |}].

Definition formatCacheControl (d : CacheDirectives) : string :=
  let parts name :=
    join ", " ([name; "max-age=" +:+ show_Z (maxAge d)] ++
      (if 0 <? staleWhileRevalidate d then ["stale-while-revalidate=" +:+ show_Z (staleWhileRevalidate d)] else []) ++
      (if 0 <? staleIfError d then ["stale-if-error=" +:+ show_Z (staleIfError d)] else [])) in
  match scope d with no_store => "no-store" | public => parts "public" | private => parts "private" end.

(** The pattern a path is compiled to: a parameter is any text without a
    slash; of the other characters that occur only the dot is special, and it
    is any character of a line. *)
Definition word_char (c : ascii) : bool := in_range 97 122 c || in_range 65 90 c || in_range 48 57 c || Ascii.eqb c "_".
Definition not_slash : regex := plus (Class (λ c, negb (Ascii.eqb c "/"))).
Definition dot : regex := Class (λ c, negb (in_range 10 10 c || in_range 13 13 c)).

Fixpoint path_regex (in_param : bool) (path : string) : regex :=
  match path with
  | EmptyString => Eps
  | String c rest =>
      if in_param && word_char c then path_regex true rest
      else
        match rest with
        | String d _ =>
            if Ascii.eqb c ":" && word_char d then Seq not_slash (path_regex true rest)
            else Seq (if Ascii.eqb c "." then dot else char c) (path_regex false rest)
        | EmptyString => Seq (if Ascii.eqb c "." then dot else char c) Eps
        end
  end.

Definition getCachePolicyForRoute (path method : string) : option CachePolicyEntry :=
  List.find (λ p, includes method (policy_methods p) && matches (path_regex false (policy_path p)) path) CACHE_POLICIES.

Definition policy_named (name : string) : option CachePolicyEntry := List.find (λ p, String.eqb (policy_name p) name) CACHE_POLICIES.
Definition activePolicy := policy_named "public-attestations-active".
Definition revokedPolicy := policy_named "public-attestations-revoked".

(** ** Validators *)

Definition stripWeak (s : string) : string := match strip_prefix "W/" s with Some t => t | None => s end.

Definition matchEtag (ifNoneMatch : option string) (etag : string) : bool :=
  match ifNoneMatch with
  | None | Some EmptyString => false
  | Some h => existsb (λ s, String.eqb (stripWeak (trim s)) (stripWeak etag)) (split_on "," h)
  end.

Section Public.
Context (sha256_base64 : string → string) (hmac : string → string → string) (toISOString toUTCString : Z → string)
  (Date_parse : string → option Z) (is_uuid : string → bool) (ATTESTATION_SIGNING_SECRET : string).

Definition isNotModifiedSince (ifModifiedSince : option string) (lastModified : Z) : bool :=
  match ifModifiedSince with
  | None | Some EmptyString => false
  | Some h => match Date_parse h with Some d => lastModified / 1000 <=? d / 1000 | None => false end
  end.

Definition status_text (s : AttestationStatus) : string :=
  match s with pending => "pending" | submitted => "submitted" | confirmed => "confirmed" | failed => "failed" | revoked => "revoked" end.

Record public_payload := {
  p_id : string; p_businessId : string; p_period : string; p_merkleRoot : string; p_txHash : string; p_status : string; p_attestedAt : string
}.
Definition payload_of (r : Attestation) : public_payload :=
  {| p_id := id r; p_businessId := businessId r; p_period := period r; p_merkleRoot := merkleRoot r; p_txHash := txHash r;
     p_status := status_text (status r); p_attestedAt := toISOString (createdAt r) |}.

Definition payload_fields (p : public_payload) : list (string * string) :=
  [("attestedAt", p_attestedAt p); ("businessId", p_businessId p); ("id", p_id p); ("merkleRoot", p_merkleRoot p); ("period", p_period p);
   ("status", p_status p); ("txHash", p_txHash p)].
Definition sortedJson (p : public_payload) : string := json_object (map (λ kv, (kv.1, json_string kv.2)) (payload_fields p)).

Definition computeEtag (p : public_payload) : string := String quotation_mark (sha256_base64 (sortedJson p) +:+ String quotation_mark EmptyString).

Definition signPayload (p : public_payload) : option string :=
  if is_empty ATTESTATION_SIGNING_SECRET then None else Some ("sha256=" +:+ hmac ATTESTATION_SIGNING_SECRET (sortedJson p)).

(** ** The route *)

Definition getByMerkleRoot (root : string) (t : table) : option Attestation := List.find (λ r, String.eqb (merkleRoot r) root) t.

Inductive response :=
| BadRequest | NotFound | ServerError
| Gone (cacheControl : string)
| NotModified (etag lastModified cacheControl : string)
| Found (payload : public_payload) (etag lastModified cacheControl : string) (signature : option string).

Definition cache_of (p : option CachePolicyEntry) (fallback : string) : string :=
  match p with Some p => formatCacheControl (directives p) | None => fallback end.

Definition public_route (hash : string) (ifNoneMatch ifModifiedSince : option string) (t : table) : response :=
  if ((1 <=? String.length hash) && (String.length hash <=? 512))%nat then
    match (match getByMerkleRoot hash t with Some r => Ok (Some r) | None => if is_uuid hash then Ok (getById hash t) else Err tt end) with
    | Err _ => ServerError
    | Ok None => NotFound
    | Ok (Some r) =>
        if decide (status r = revoked) then Gone (cache_of revokedPolicy "public, max-age=15, stale-while-revalidate=60")
        else
          let payload := payload_of r in
          let etag := computeEtag payload in
          let lastModified := toUTCString (createdAt r) in
          let cacheControl := cache_of activePolicy "public, max-age=60, stale-while-revalidate=60" in
          if matchEtag ifNoneMatch etag then NotModified etag lastModified cacheControl
          else if isNotModifiedSince ifModifiedSince (createdAt r) then NotModified etag lastModified cacheControl
          else Found payload etag lastModified cacheControl (signPayload payload)
    end
  else BadRequest.

(** ** Properties *)

Lemma status_text_inj s s' : status_text s = status_text s' → s = s'.
Proof. by destruct s, s'. Qed.

Lemma sortedJson_inj p p' : sortedJson p = sortedJson p' → p = p'.
Proof.
  destruct p, p'. unfold sortedJson, json_object, payload_fields. cbn. unfold json_member. cbn [fst snd]. rewrite <- !string_app_assoc. intros H.
  repeat first [apply json_string_inj in H as [? H] | apply string_app_cancel in H]. by subst.
Qed.

(** A revoked attestation is never served, nor confirmed as unchanged, to
    anyone who finds it, whatever validators they send: the answer is that it
    is gone, and may be kept for fifteen seconds. *)
Theorem revoked_is_gone hash inm ims t r :
  (1 ≤ String.length hash ≤ 512)%nat → status r = revoked →
  getByMerkleRoot hash t = Some r ∨ (getByMerkleRoot hash t = None ∧ is_uuid hash = true ∧ getById hash t = Some r) →
  public_route hash inm ims t = Gone "public, max-age=15, stale-while-revalidate=60, stale-if-error=3600".
Proof.
  intros Hl Hs Hr. unfold public_route. rewrite (proj2 (Nat.leb_le 1 _)), (proj2 (Nat.leb_le _ 512)) by lia. cbn [andb].
  assert ((match getByMerkleRoot hash t with Some r => Ok (Some r) | None => if is_uuid hash then Ok (getById hash t) else Err tt end) = Ok (Some r)) as ->.
  { destruct Hr as [->|(-> & -> & ->)]; done. }
  rewrite Hs. by destruct (decide (revoked = revoked)).
Qed.

(** A text of base64 digits. *)
Definition base64_char (c : ascii) : bool :=
  in_range 97 122 c || in_range 65 90 c || in_range 48 57 c || Ascii.eqb c "+" || Ascii.eqb c "/" || Ascii.eqb c "=".
Definition base64_digest : Prop := ∀ s, string_forallb base64_char (sha256_base64 s) = true ∧ String.length (sha256_base64 s) = 44%nat.

Lemma stripWeak_quoted s : stripWeak (String quotation_mark s) = String quotation_mark s.
Proof. reflexivity. Qed.

Lemma served_tag_matches p p' : base64_digest →
  matchEtag (Some (computeEtag p)) (computeEtag p') = true ↔ sha256_base64 (sortedJson p) = sha256_base64 (sortedJson p').
Proof.
  intros Hb. unfold matchEtag, computeEtag. set (q := String quotation_mark EmptyString).
  assert (∀ s, lacks "," (String quotation_mark (sha256_base64 s +:+ q)) = true) as Hl.
  { intros s. unfold lacks. cbn [string_forallb]. rewrite string_forallb_app. change (string_forallb _ q) with true. rewrite andb_true_r. apply andb_true_iff. split; [done|].
    eapply string_forallb_impl; [|apply (Hb s)]. intros c. destruct (Ascii.eqb_spec c ",") as [->|]; done. }
  assert (∀ s, trim (String quotation_mark (sha256_base64 s +:+ q)) = String quotation_mark (sha256_base64 s +:+ q)) as Ht.
  { intros s. apply trim_fixed. cbn [string_forallb]. rewrite string_forallb_app. change (string_forallb _ q) with true. rewrite andb_true_r. apply andb_true_iff. split; [done|].
    eapply string_forallb_impl; [|apply (Hb s)]. intros c Hc. destruct c as [[] [] [] [] [] [] [] []]; cbn in *; done. }
  rewrite split_on_one by apply Hl. cbn [existsb]. rewrite orb_false_r, Ht, !stripWeak_quoted. split.
  - intros [= H]%String.eqb_eq. apply string_app_inj in H as [H _]; [done|]. by rewrite !(proj2 (Hb _)).
  - intros ->. apply String.eqb_refl.
Qed.
(** A client that sends back the entity tag it was given is told that nothing
    changed exactly when the public fields are what they were, unless two
    different texts of fields have one digest. *)
Theorem unchanged_iff_same_fields hash hash' ims t t' p etag lm cc sg r :
  base64_digest → public_route hash None ims t = Found p etag lm cc sg →
  getByMerkleRoot hash' t' = Some r → (1 ≤ String.length hash' ≤ 512)%nat → status r ≠ revoked →
  (payload_of r = p → ∃ lm' cc', public_route hash' (Some etag) None t' = NotModified etag lm' cc') ∧
  ((∃ e l c, public_route hash' (Some etag) None t' = NotModified e l c) →
     payload_of r = p ∨ (sortedJson (payload_of r) ≠ sortedJson p ∧ sha256_base64 (sortedJson (payload_of r)) = sha256_base64 (sortedJson p))).
Proof.
  intros Hb Hf Hr Hl Hs. assert (etag = computeEtag p) as ->.
  { unfold public_route in Hf. destruct (_ && _); [|done]. destruct (match getByMerkleRoot hash t with Some _ => _ | None => _ end) as [[r0|]|]; try done.
    destruct (decide _); [done|]. cbn [matchEtag] in Hf. destruct (isNotModifiedSince _ _); [done|]. by injection Hf as <- <- _ _ _. }
  assert (∀ tag, public_route hash' (Some tag) None t' =
    if matchEtag (Some tag) (computeEtag (payload_of r)) then NotModified (computeEtag (payload_of r)) (toUTCString (createdAt r)) (cache_of activePolicy "public, max-age=60, stale-while-revalidate=60")
    else Found (payload_of r) (computeEtag (payload_of r)) (toUTCString (createdAt r)) (cache_of activePolicy "public, max-age=60, stale-while-revalidate=60") (signPayload (payload_of r))) as Hroute.
  { intros tag. unfold public_route. rewrite (proj2 (Nat.leb_le 1 _)), (proj2 (Nat.leb_le _ 512)) by lia. cbn [andb]. rewrite Hr. destruct (decide _); done. }
  rewrite Hroute. pose proof (served_tag_matches p (payload_of r) Hb) as Hm. split.
  - intros Hp. rewrite Hp in *. rewrite (proj2 Hm eq_refl). by eexists _, _.
  - destruct (matchEtag _ _); [|by intros (? & ? & ? & ?)]. intros _. destruct (decide (sortedJson (payload_of r) = sortedJson p)) as [He|He].
    + left. by apply sortedJson_inj.
    + right. split; [done|]. symmetry. by apply Hm.
Qed.

(** The date validator only knows when the row was made: a client that asks
    by date is told nothing changed whatever became of the attestation, short
    of its revocation. *)
Theorem date_validator_misses_changes hash ims d t r :
  (1 ≤ String.length hash ≤ 512)%nat → getByMerkleRoot hash t = Some r → status r ≠ revoked →
  ims ≠ EmptyString → Date_parse ims = Some d → createdAt r ≤ d →
  ∃ e l c, public_route hash None (Some ims) t = NotModified e l c.
Proof.
  intros Hl Hr Hs Hne Hd Hle. unfold public_route. rewrite (proj2 (Nat.leb_le 1 _)), (proj2 (Nat.leb_le _ 512)) by lia. cbn [andb]. rewrite Hr.
  destruct (decide _); [done|]. cbn [matchEtag]. unfold isNotModifiedSince. destruct ims; [done|]. rewrite Hd, (proj2 (Z.leb_le _ _)).
  - by eexists _, _, _.
  - by apply Z.div_le_mono.
Qed.

(** A signature that is sent is that of the payload it is sent with, and
    stands for it: two payloads signed alike are one, or collide. *)
Theorem signed_payload hash inm ims t p etag lm cc sg :
  public_route hash inm ims t = Found p etag lm cc (Some sg) →
  ATTESTATION_SIGNING_SECRET ≠ EmptyString ∧ sg = "sha256=" +:+ hmac ATTESTATION_SIGNING_SECRET (sortedJson p) ∧
  ∀ p', signPayload p' = Some sg →
    p' = p ∨ (sortedJson p' ≠ sortedJson p ∧ hmac ATTESTATION_SIGNING_SECRET (sortedJson p') = hmac ATTESTATION_SIGNING_SECRET (sortedJson p)).
Proof.
  intros Hf. assert (signPayload p = Some sg) as Hsg.
  { unfold public_route in Hf. destruct (_ && _); [|done]. destruct (match getByMerkleRoot hash t with Some _ => _ | None => _ end) as [[r0|]|]; try done.
    destruct (decide _); [done|]. destruct (matchEtag _ _); [done|]. destruct (isNotModifiedSince _ _); [done|]. by injection Hf as <- _ _ _ <-. }
  unfold signPayload in *. destruct ATTESTATION_SIGNING_SECRET as [|c s] eqn:Es; [done|]. cbn [is_empty] in *. injection Hsg as <-. split_and!; [done|done|].
  intros p' [= H]. destruct (decide (sortedJson p' = sortedJson p)) as [He|He]; [left; by apply sortedJson_inj|right]. split; done.
Qed.

(** A Merkle root nobody attested is not answered as unknown: the text,
    which is no UUID, is refused by the database and the answer is an internal
    error. *)
Theorem unknown_root_is_an_error hash inm ims t :
  (1 ≤ String.length hash ≤ 512)%nat → getByMerkleRoot hash t = None → is_uuid hash = false → public_route hash inm ims t = ServerError.
Proof.
  intros Hl Hr Hu. unfold public_route. rewrite (proj2 (Nat.leb_le 1 _)), (proj2 (Nat.leb_le _ 512)) by lia. cbn [andb]. by rewrite Hr, Hu.
Qed.
End Public.

(** ** Properties: the matrix of policies *)

Lemma in_char c r s : in_lang r s → in_lang (Seq (char c) r) (String c s).
Proof. intros H. change (String c s) with (String c EmptyString +:+ s). constructor; [|done]. constructor. apply Ascii.eqb_refl. Qed.

Lemma in_not_slash h : h ≠ EmptyString → lacks "/" h = true → in_lang not_slash h.
Proof.
  destruct h as [|c h]; [done|]. unfold lacks. cbn [string_forallb]. intros _ [Hc Hh]%andb_true_iff. change (String c h) with (String c EmptyString +:+ h).
  constructor; [by constructor|]. by apply in_star_class.
Qed.

(** The matrix answers a public attestation's path with the policy of the
    active ones; the policy of the revoked, which has the same path, is never
    the answer, for no path and no method. *)
Theorem revoked_policy_is_unreachable :
  (∀ h, h ≠ EmptyString → lacks "/" h = true → getCachePolicyForRoute ("/api/v1/public/attestations/" +:+ h) "GET" = activePolicy) ∧
  (∀ path method p, getCachePolicyForRoute path method = Some p → policy_name p ≠ "public-attestations-revoked").
Proof.
  split.
  - intros h Hne Hh. unfold getCachePolicyForRoute, CACHE_POLICIES. cbn [List.find policy_methods policy_path].
    assert (matches (path_regex false "/api/v1/public/attestations/:hash") ("/api/v1/public/attestations/" +:+ h) = true) as ->; [|done].
    apply matches_spec. cbn -[not_slash char]. do 28 apply in_char. rewrite <- (string_app_nil_r h). constructor; [by apply in_not_slash|constructor].
  - intros path method p. unfold getCachePolicyForRoute, CACHE_POLICIES. cbn [List.find policy_methods policy_path].
    generalize (includes method ["GET"] && matches (path_regex false "/api/v1/public/attestations/:hash") path) as b1.
    generalize (includes method ["GET"] && matches (path_regex false "/.well-known/webhook-egress-ips") path) as b2.
    generalize (includes method ["GET"] && matches (path_regex false "/.well-known/jwks.json") path) as b3.
    intros [] [] []; intros [= <-]; discriminate.
Qed.

Example policies :
  (formatCacheControl ∘ directives <$> activePolicy) = Some "public, max-age=60, stale-while-revalidate=60, stale-if-error=86400" ∧
  (policy_name <$> getCachePolicyForRoute "/.well-known/jwksXjson" "GET") = Some "jwks" ∧
  getCachePolicyForRoute "/.well-known/jwks.json" "HEAD" = None ∧ getCachePolicyForRoute "/api/v1/public/attestations/a/b" "GET" = None.
Proof. vm_compute. by split_and!. Qed.

(** ** Concrete requests *)

Definition toy_base64 (s : string) : string := hex_digits 44 (checksum 5381 s).

Lemma toy_base64_digest : base64_digest toy_base64.
Proof.
  intros s. destruct (hex_digits_hex 44 (checksum 5381 s)) as [Hl Hf]. split; [|done].
  eapply string_forallb_impl; [|exact Hf]. intros c Hc. unfold base64_char, is_lower_hex_char, in_range in *. lia.
Qed.

Definition keyed (key s : string) : string := toy_hash (key +:+ s).
Definition plain_uuid (s : string) : bool := (String.length s =? 36)%nat.
Definition asked (secret hash : string) (inm ims : option string) (t : table) : response :=
  public_route toy_base64 keyed show_Z show_Z parse_int plain_uuid secret hash inm ims t.

Definition row_of (root : string) (st : AttestationStatus) : Attestation :=
  {| id := "i"; businessId := "b"; period := "2026-01"; merkleRoot := root; txHash := "tx"; status := st; version := 1; createdAt := 61000; updatedAt := 61000 |}.
Definition first_answer : response := asked "k" "root" None None [row_of "root" submitted].
Definition first_payload : public_payload := payload_of show_Z (row_of "root" submitted).

Lemma revoked_is_gone_witness :
  asked "k" "root" (Some (computeEtag toy_base64 first_payload)) None [row_of "root" revoked] =
  Gone "public, max-age=15, stale-while-revalidate=60, stale-if-error=3600".
Proof. apply (revoked_is_gone toy_base64 keyed show_Z show_Z parse_int plain_uuid "k" "root" _ None _ (row_of "root" revoked)); [cbn; lia|reflexivity|left; reflexivity]. Defined.

Lemma unchanged_iff_same_fields_witness :
  ∃ lm cc, asked "k" "root" (Some (computeEtag toy_base64 first_payload)) None [row_of "root" submitted] = NotModified (computeEtag toy_base64 first_payload) lm cc.
Proof.
  apply (proj1 (unchanged_iff_same_fields toy_base64 keyed show_Z show_Z parse_int plain_uuid "k" "root" "root" None [row_of "root" submitted] [row_of "root" submitted]
    first_payload (computeEtag toy_base64 first_payload) "61000" "public, max-age=60, stale-while-revalidate=60, stale-if-error=86400"
    (Some ("sha256=" +:+ keyed "k" (sortedJson first_payload))) (row_of "root" submitted) toy_base64_digest eq_refl eq_refl ltac:(cbn; lia) ltac:(discriminate))).
  reflexivity.
Defined.

(** Confirmed since, and unchanged by the date. *)
Lemma date_validator_misses_changes_witness :
  ∃ e l c, asked "k" "root" None (Some "61000") [row_of "root" confirmed] = NotModified e l c.
Proof.
  apply (date_validator_misses_changes toy_base64 keyed show_Z show_Z parse_int plain_uuid "k" "root" "61000" 61000 _ (row_of "root" confirmed));
    [cbn; lia|reflexivity|discriminate|discriminate|reflexivity|reflexivity].
Defined.

Lemma signed_payload_witness :
  "k" ≠ EmptyString ∧ "sha256=" +:+ keyed "k" (sortedJson first_payload) = "sha256=" +:+ keyed "k" (sortedJson first_payload).
Proof.
  destruct (signed_payload toy_base64 keyed show_Z show_Z parse_int plain_uuid "k" "root" None None [row_of "root" submitted] first_payload
    (computeEtag toy_base64 first_payload) "61000" "public, max-age=60, stale-while-revalidate=60, stale-if-error=86400"
    ("sha256=" +:+ keyed "k" (sortedJson first_payload)) eq_refl) as (H1 & H2 & _). split; [exact H1|exact H2].
Defined.

Lemma unknown_root_is_an_error_witness :
  asked "k" "00000000000000000000000000000000000000000000000000000000000000ff" None None [row_of "root" submitted] = ServerError.
Proof. apply unknown_root_is_an_error; [cbn; lia|reflexivity|reflexivity]. Defined.
