(* ===== verification/Svid.v ===== *)
(** * Workload identity: [src/spiffe/svidProvider.ts], [spiffeId.ts] and the
    mapping of responses in [workloadApiClient.ts].

    The provider is a state machine: its events are the timer, the answers of
    fetches in flight, what the streams deliver, and [stop].  A stream that
    was stopped delivers nothing (its listeners are removed).  Certificates
    are read by an argument.  [Infinity] delays do not arise below 1024
    failures in a row, and past them the cap is the same. *)

From S2P Require Import Prelude Numeric Hashing JsString Words Collections Doubles.
#[local] Open Scope Z_scope.

(** ** Identities *)

Definition begins (p s : string) : bool := match strip_prefix p s with Some _ => true | None => false end.

Definition isSpiffeIdInTrustDomain (id trustDomain : string) : bool :=
  let normalizedDomain := trim trustDomain in
  if is_empty normalizedDomain then false else begins ("spiffe://" +:+ normalizedDomain +:+ "/") id.

(** [split(', ')] *)
Fixpoint split_comma_space (s : string) : list string :=
  match s with
  | EmptyString => [EmptyString]
  | String c rest =>
      match rest with
      | String d rest' =>
          if Ascii.eqb c "," && Ascii.eqb d " " then EmptyString :: split_comma_space rest'
          else match split_comma_space rest with p :: ps => String c p :: ps | [] => [] end
      | EmptyString => [String c EmptyString]
      end
  end.

Definition extractSpiffeIdFromCert (subjectAltName : option string) (trustDomain : string) : option string :=
  match subjectAltName with
  | None | Some EmptyString => None
  | Some san =>
      if is_empty (trim trustDomain) then None
      else
        head (omap (λ entry,
          match strip_prefix "URI:spiffe://" entry with
          | None => None
          | Some rest => let spiffeId := "spiffe://" +:+ rest in if isSpiffeIdInTrustDomain spiffeId trustDomain then Some spiffeId else None
          end) (split_comma_space san))
  end.

Definition parseSpiffeIdAllowlist (raw : option string) : list string :=
  match raw with
  | None => []
  | Some raw => if is_empty (trim raw) then [] else List.filter nonempty (map trim (split_on "," raw))
  end.

(** ** Responses *)

Record X509SvidRecord := { x509Svid : string; privateKey : string; spiffeId : string }.
Record WorkloadX509Response := { svids : list X509SvidRecord; bundles : list (string * list string) }.

(** [mapResponse]: the bundles, then the federated ones, in one map. *)
Definition mapResponse (svids : list X509SvidRecord) (own federated : list (string * list string)) : WorkloadX509Response :=
  {| svids := svids; bundles := fold_left (λ m kv, map_set kv.1 kv.2 m) (own ++ federated) [] |}.

Inductive address_error := NotAUnixSocket.
Definition parseSocketAddress (socketAddress : string) : result address_error string :=
  let trimmed := trim socketAddress in
  match strip_prefix "unix://" trimmed with
  | Some path => Ok ("unix:" +:+ path)
  | None => if begins "unix:" trimmed then Ok trimmed else Err NotAUnixSocket
  end.

Record TlsIdentityMaterial := { ca : string; cert : string; key : string; identity : string; expiresAt : Z }.
Inductive spiffe_error := NoSvid | NoBundle | BadCertificate | FetchFailed.

Definition newline : string := String (ascii_of_nat 10) EmptyString.

Section Provider.
Context (certificate_expiry : string → option Z) (trustDomain : string).

Definition pickSvidForTrustDomain (l : list X509SvidRecord) : option X509SvidRecord :=
  List.find (λ s, begins ("spiffe://" +:+ trustDomain +:+ "/") (spiffeId s)) l.

Definition responseToTlsMaterial (r : WorkloadX509Response) : result spiffe_error TlsIdentityMaterial :=
  match pickSvidForTrustDomain (svids r) with
  | None => Err NoSvid
  | Some svid =>
      match map_get trustDomain (bundles r) with
      | None | Some [] => Err NoBundle
      | Some authorities =>
          match certificate_expiry (x509Svid svid) with
          | None => Err BadCertificate
          | Some e => Ok {| ca := join newline (map trim authorities); cert := x509Svid svid; key := privateKey svid; identity := spiffeId svid; expiresAt := e |}
          end
      end
  end.

(** ** The provider *)

Inductive job := RefreshFromFetch | ReconnectAfterApiRestart.
#[local] Instance job_eq_dec : EqDecision job.
Proof. solve_decision. Defined.

Record options := { refreshRatio : double; reconnectBaseMs : Z; reconnectMaxMs : Z }.
Definition default_options : options := {| refreshRatio := literal 7 10; reconnectBaseMs := 500; reconnectMaxMs := 30000 |}.
Context (opts : options).

(** [opened]: the streams that still deliver; [fetching]: the fetches in flight. *)
Record SvidProvider := {
  material : option TlsIdentityMaterial; refreshTimer : option (job * Z); stopWatch : option nat; reconnectAttempts : nat; stopped : bool;
  opened : list nat; next_watch : nat; fetching : list job; rotations : list TlsIdentityMaterial
}.
Definition with_timer (t : option (job * Z)) (p : SvidProvider) : SvidProvider :=
  {| material := material p; refreshTimer := t; stopWatch := stopWatch p; reconnectAttempts := reconnectAttempts p; stopped := stopped p;
     opened := opened p; next_watch := next_watch p; fetching := fetching p; rotations := rotations p |}.
Definition with_attempts (n : nat) (p : SvidProvider) : SvidProvider :=
  {| material := material p; refreshTimer := refreshTimer p; stopWatch := stopWatch p; reconnectAttempts := n; stopped := stopped p;
     opened := opened p; next_watch := next_watch p; fetching := fetching p; rotations := rotations p |}.
Definition with_fetching (l : list job) (p : SvidProvider) : SvidProvider :=
  {| material := material p; refreshTimer := refreshTimer p; stopWatch := stopWatch p; reconnectAttempts := reconnectAttempts p; stopped := stopped p;
     opened := opened p; next_watch := next_watch p; fetching := l; rotations := rotations p |}.

(** [Math.floor] of a double. *)
Definition Math_floor (x : double) : Z :=
  match x with SpecFloat.S754_finite s m e => let v := if s then Zneg m else Zpos m in if 0 <=? e then v * 2 ^ e else v / 2 ^ (- e) | _ => 0 end.

(** How long Node's [setTimeout], the default of [setTimeoutFn], waits: a delay
    that is not between 1 and the largest 32-bit integer counts as 1. *)
Definition timeout_delay (d : Z) : Z := if (1 <=? d) && (d <=? 2 ^ 31 - 1) then d else 1.

Definition scheduleRefresh (now e : Z) (p : SvidProvider) : SvidProvider :=
  let ttlMs := e - now in
  if ttlMs <=? 0 then with_timer None p
  else with_timer (Some (RefreshFromFetch, now + timeout_delay (Z.max 1000 (Math_floor (of_Z ttlMs * refreshRatio opts)%double)))) p.

Definition applyMaterial (now : Z) (r : WorkloadX509Response) (p : SvidProvider) : result spiffe_error SvidProvider :=
  match responseToTlsMaterial r with
  | Err e => Err e
  | Ok next =>
      Ok (scheduleRefresh now (expiresAt next)
        {| material := Some next; refreshTimer := refreshTimer p; stopWatch := stopWatch p; reconnectAttempts := reconnectAttempts p; stopped := stopped p;
           opened := opened p; next_watch := next_watch p; fetching := fetching p;
           rotations := match material p with Some _ => rotations p ++ [next] | None => rotations p end |})
  end.

Definition reconnect_delay (n : nat) : Z := Z.min (reconnectMaxMs opts) (reconnectBaseMs opts * 2 ^ Z.of_nat n).

Definition handleWatchError (now : Z) (p : SvidProvider) : SvidProvider :=
  if stopped p then p
  else with_attempts (S (reconnectAttempts p)) (with_timer (Some (ReconnectAfterApiRestart, now + timeout_delay (reconnect_delay (reconnectAttempts p)))) p).

(** Stopping the stream in use, and opening one. *)
Definition close_watch (p : SvidProvider) : SvidProvider :=
  {| material := material p; refreshTimer := refreshTimer p; stopWatch := None; reconnectAttempts := reconnectAttempts p; stopped := stopped p;
     opened := match stopWatch p with Some w => List.filter (λ x, negb (Nat.eqb x w)) (opened p) | None => opened p end;
     next_watch := next_watch p; fetching := fetching p; rotations := rotations p |}.
Definition open_watch (p : SvidProvider) : SvidProvider :=
  {| material := material p; refreshTimer := refreshTimer p; stopWatch := Some (next_watch p); reconnectAttempts := reconnectAttempts p; stopped := stopped p;
     opened := next_watch p :: opened p; next_watch := S (next_watch p); fetching := fetching p; rotations := rotations p |}.

Definition new_provider : SvidProvider :=
  {| material := None; refreshTimer := None; stopWatch := None; reconnectAttempts := 0; stopped := false; opened := []; next_watch := 0; fetching := []; rotations := [] |}.

(** [start], with the answer of its fetch. *)
Definition start (now : Z) (r : result spiffe_error WorkloadX509Response) (p : SvidProvider) : result spiffe_error SvidProvider :=
  match r with
  | Err e => Err e
  | Ok r => match applyMaterial now r p with Err e => Err e | Ok p => Ok (open_watch p) end
  end.

Definition stop (p : SvidProvider) : SvidProvider :=
  let p := close_watch (with_timer None p) in
  {| material := material p; refreshTimer := refreshTimer p; stopWatch := stopWatch p; reconnectAttempts := reconnectAttempts p; stopped := true;
     opened := opened p; next_watch := next_watch p; fetching := fetching p; rotations := rotations p |}.

Definition getTlsMaterial (p : SvidProvider) : option TlsIdentityMaterial := material p.
Definition getSecondsUntilExpiry (now : Z) (p : SvidProvider) : option Z := (λ m, Z.max 0 ((expiresAt m - now) / 1000)) <$> material p.

(** A callback of the timer: the fetch it makes. *)
Definition timer_fires (now : Z) (p : SvidProvider) : SvidProvider :=
  match refreshTimer p with
  | Some (j, due) =>
      if due <=? now then let p := with_timer None p in if stopped p then p else with_fetching (fetching p ++ [j]) p
      else p
  | None => p
  end.

(** The rest of a callback, once its fetch has answered. *)
Definition fetched (now : Z) (j : job) (r : result spiffe_error WorkloadX509Response) (p : SvidProvider) : SvidProvider :=
  match r with
  | Err _ => handleWatchError now p
  | Ok r =>
      let p := match j with ReconnectAfterApiRestart => with_attempts 0 p | RefreshFromFetch => p end in
      match applyMaterial now r p with
      | Err _ => handleWatchError now p
      | Ok p => match j with ReconnectAfterApiRestart => open_watch (close_watch p) | RefreshFromFetch => p end
      end
  end.

Fixpoint remove_one (j : job) (l : list job) : option (list job) :=
  match l with [] => None | x :: l => if decide (x = j) then Some l else cons x <$> remove_one j l end.

Inductive event :=
| Timer
| Fetched (j : job) (r : result spiffe_error WorkloadX509Response)
| Update (w : nat) (r : WorkloadX509Response)
| WatchError (w : nat)
| Stop.

Definition step (now : Z) (ev : event) (p : SvidProvider) : SvidProvider :=
  match ev with
  | Timer => timer_fires now p
  | Fetched j r => match remove_one j (fetching p) with Some l => fetched now j r (with_fetching l p) | None => p end
  | Update w r =>
      if existsb (Nat.eqb w) (opened p) then
        let p := with_attempts 0 p in match applyMaterial now r p with Ok p => p | Err _ => handleWatchError now p end
      else p
  | WatchError w => if existsb (Nat.eqb w) (opened p) then handleWatchError now p else p
  | Stop => stop p
  end.

Definition run (evs : list (Z * event)) (p : SvidProvider) : SvidProvider := fold_left (λ p ev, step ev.1 ev.2 p) evs p.
(** ** Properties *)

Definition in_domain (m : TlsIdentityMaterial) : Prop := begins ("spiffe://" +:+ trustDomain +:+ "/") (identity m) = true.

Lemma material_in_domain r m : responseToTlsMaterial r = Ok m → in_domain m ∧ certificate_expiry (cert m) = Some (expiresAt m).
Proof.
  unfold responseToTlsMaterial, in_domain. destruct (pickSvidForTrustDomain _) as [s|] eqn:E; [|done]. apply List.find_some in E as [_ E].
  destruct (map_get _ _) as [[|a l]|]; [done| |done]. destruct (certificate_expiry _) eqn:Ec; [|done]. by intros [= <-].
Qed.

(** What every step keeps: the material of the own domain, and one stream at
    most, the one that [stopWatch] stops; there is one until [stop]. *)
Record provider_ok (p : SvidProvider) : Prop := {
  has_material : ∃ m, material p = Some m ∧ in_domain m ∧ certificate_expiry (cert m) = Some (expiresAt m);
  one_stream : opened p = option_list (stopWatch p);
  stream_until_stop : stopped p = false → stopWatch p ≠ None
}.

Lemma provider_same p p' : material p' = material p → opened p' = opened p → stopWatch p' = stopWatch p → stopped p' = stopped p →
  provider_ok p → provider_ok p'.
Proof. intros H1 H2 H3 H4 [P1 P2 P3]. split; rewrite ?H1, ?H2, ?H3, ?H4; done. Qed.

Lemma apply_cases now r p p' : applyMaterial now r p = Ok p' →
  ∃ m, responseToTlsMaterial r = Ok m ∧ material p' = Some m ∧ opened p' = opened p ∧ stopWatch p' = stopWatch p ∧ stopped p' = stopped p ∧
    next_watch p' = next_watch p ∧ fetching p' = fetching p ∧
    rotations p' = (match material p with Some _ => rotations p ++ [m] | None => rotations p end) ∧ (∀ d, refreshTimer p' ≠ Some (ReconnectAfterApiRestart, d)) ∧
    (now < expiresAt m → refreshTimer p' ≠ None).
Proof.
  unfold applyMaterial. destruct (responseToTlsMaterial r) as [m|] eqn:E; [|done]. intros [= <-]. exists m. split; [done|].
  unfold scheduleRefresh. destruct (Z.leb_spec (expiresAt m - now) 0); cbn; split_and!; try done. lia.
Qed.

Lemma apply_ok now r p p' : (opened p = option_list (stopWatch p)) → (stopped p = false → stopWatch p ≠ None) → applyMaterial now r p = Ok p' → provider_ok p'.
Proof.
  intros H1 H2 (m & Hm & E1 & E2 & E3 & E4 & _)%apply_cases. split; rewrite ?E1, ?E2, ?E3, ?E4; [|done|done]. exists m. split; [done|]. by eapply material_in_domain.
Qed.

Lemma watch_error_ok now p : provider_ok p → provider_ok (handleWatchError now p).
Proof. intros Hp. unfold handleWatchError. destruct (stopped p) eqn:E; [done|]. by eapply provider_same, Hp. Qed.

Lemma close_none p : opened p = option_list (stopWatch p) → opened (close_watch p) = [].
Proof. intros H. cbn. rewrite H. destruct (stopWatch p) as [w|]; cbn; [by rewrite Nat.eqb_refl|done]. Qed.

Lemma reopen_ok p : provider_ok p → provider_ok (open_watch (close_watch p)).
Proof. intros [P1 P2 P3]. split; [done| |done]. change (next_watch p :: opened (close_watch p) = [next_watch p]). by rewrite close_none. Qed.

Lemma provider_step_ok now ev p : provider_ok p → provider_ok (step now ev p).
Proof.
  intros Hp. destruct ev as [|j r|w r|w|]; cbn [step].
  - unfold timer_fires. destruct (refreshTimer p) as [[j due]|]; [|done]. destruct (due <=? now); [|done]. cbn. destruct (stopped p) eqn:E; by eapply provider_same, Hp.
  - destruct (remove_one j (fetching p)) as [l|]; [|done]. unfold fetched. destruct r as [r|e]; [|apply watch_error_ok; by eapply provider_same, Hp].
    set (q := match j with RefreshFromFetch => with_fetching l p | ReconnectAfterApiRestart => with_attempts 0 (with_fetching l p) end).
    assert (provider_ok q) as Hq by (subst q; destruct j; by eapply provider_same, Hp).
    destruct (applyMaterial now r q) as [p'|] eqn:E; [|by apply watch_error_ok]. destruct Hq as [Q1 Q2 Q3]. apply (apply_ok _ _ _ _ Q2 Q3) in E.
    destruct j; [done|by apply reopen_ok].
  - destruct (existsb _ _); [|done]. assert (provider_ok (with_attempts 0 p)) as Hq by (by eapply provider_same, Hp).
    destruct (applyMaterial now r (with_attempts 0 p)) as [p'|] eqn:E; [|by apply watch_error_ok]. destruct Hq as [Q1 Q2 Q3]. by apply (apply_ok _ _ _ _ Q2 Q3) in E.
  - destruct (existsb _ _); [by apply watch_error_ok|done].
  - destruct Hp as [P1 P2 P3]. split; [done| |done]. change (opened (close_watch (with_timer None p)) = []). by apply close_none.
Qed.

Lemma provider_run_ok evs p : provider_ok p → provider_ok (run evs p).
Proof. revert p. induction evs as [|ev evs IH]; intros p Hp; [done|]. by apply IH, provider_step_ok. Qed.

(** C36. A provider that started serves an identity of its own trust domain, with
    the expiry of that certificate, after any sequence of answers, good and
    bad, updates and failures; it listens to one stream at most, and to one
    until it is stopped. *)
Theorem identity_is_own now r p evs :
  start now r new_provider = Ok p →
  let q := run evs p in
  (∃ m, getTlsMaterial q = Some m ∧ in_domain m ∧ certificate_expiry (cert m) = Some (expiresAt m)) ∧
  opened q = option_list (stopWatch q) ∧ (stopped q = false → stopWatch q ≠ None).
Proof.
  intros Hs q. enough (provider_ok q) as [H1 H2 H3] by done. apply provider_run_ok. unfold start in Hs. destruct r as [r|]; [|done].
  destruct (applyMaterial now r new_provider) as [p'|] eqn:E; [|done]. injection Hs as <-. apply apply_cases in E as (m & Hm & E1 & E2 & _).
  split; [|cbn; by rewrite E2|done]. exists m. split; [done|]. by eapply material_in_domain.
Qed.

(** A failure never costs the identity: an answer that fails, or that has no
    identity or bundle for the domain, leaves the material as it is and, until
    [stop], the next attempt is scheduled within the cap. *)
Theorem failure_keeps_identity now j r p l :
  remove_one j (fetching p) = Some l → (∀ x m, r = Ok x → responseToTlsMaterial x ≠ Ok m) → stopped p = false → 1 ≤ reconnectMaxMs opts → 0 ≤ reconnectBaseMs opts →
  let q := step now (Fetched j r) p in
  material q = material p ∧ rotations q = rotations p ∧ ∃ d, refreshTimer q = Some (ReconnectAfterApiRestart, now + d) ∧ 0 ≤ d ≤ reconnectMaxMs opts.
Proof.
  intros Hl Hr Hs Hm Hb. cbn [step]. rewrite Hl. unfold fetched.
  assert (∀ p', stopped p' = false → material p' = material p → rotations p' = rotations p → material (handleWatchError now p') = material p ∧ rotations (handleWatchError now p') = rotations p ∧
    ∃ d, refreshTimer (handleWatchError now p') = Some (ReconnectAfterApiRestart, now + d) ∧ 0 ≤ d ≤ reconnectMaxMs opts) as He.
  { intros p' H1 H2 H3. unfold handleWatchError. rewrite H1. cbn. split_and!; [done|done|]. exists (timeout_delay (reconnect_delay (reconnectAttempts p'))). split; [done|].
    unfold timeout_delay. case_if; [|lia]. unfold reconnect_delay. pose proof (Z.pow_nonneg 2 (Z.of_nat (reconnectAttempts p'))). nia. }
  destruct r as [x|]; [|by apply He]. unfold applyMaterial. destruct (responseToTlsMaterial x) as [m|] eqn:E; [by exfalso; eapply Hr|]. apply He; by destruct j.
Qed.

(** The delays before reconnecting never shrink and never exceed the cap. *)
Theorem backoff_grows_to_cap n : 0 ≤ reconnectBaseMs opts → reconnect_delay n ≤ reconnect_delay (S n) ≤ reconnectMaxMs opts.
Proof.
  intros Hb. unfold reconnect_delay. rewrite Nat2Z.inj_succ, Z.pow_succ_r by lia. pose proof (Z.pow_nonneg 2 (Z.of_nat n)). nia.
Qed.

Lemma inert_step now ev q :
  opened q = [] → fetching q = [] → refreshTimer q = None → stopped q = true → stopWatch q = None → step now ev q = q.
Proof.
  destruct q as [m t sw n st op nw fe ro]. cbn. intros -> -> -> -> ->. by destruct ev.
Qed.

(** Stopped with nothing in flight, the provider stays as it is, whatever
    is still delivered. *)
Theorem stopped_for_good evs now p :
  provider_ok p → fetching p = [] → run evs (step now Stop p) = step now Stop p.
Proof.
  intros [_ Ho _] Hf. assert (opened (stop p) = []) as Hop by (change (opened (close_watch (with_timer None p)) = []); by apply close_none).
  cbn [step]. induction evs as [|[t ev] evs IH]; [done|]. unfold run in *. cbn [fold_left fst snd]. by rewrite inert_step.
Qed.

(** Stopped while a reconnection's fetch is in flight, the provider opens a
    stream again when a good answer comes, and this stream goes on rotating. *)
Theorem stop_reopens_stream now now' p r m l :
  remove_one ReconnectAfterApiRestart (fetching p) = Some l → responseToTlsMaterial r = Ok m →
  let q := step now' (Fetched ReconnectAfterApiRestart (Ok r)) (step now Stop p) in
  stopped q = true ∧ stopWatch q = Some (next_watch p) ∧
  ∀ now'' r' m', responseToTlsMaterial r' = Ok m' → getTlsMaterial (step now'' (Update (next_watch p) r') q) = Some m'.
Proof.
  intros Hl Hm. cbn [step]. change (fetching (stop p)) with (fetching p). rewrite Hl. unfold fetched.
  destruct (applyMaterial now' r (with_attempts 0 (with_fetching l (stop p)))) as [q|] eqn:E; [|by unfold applyMaterial in E; rewrite Hm in E].
  apply apply_cases in E as (m1 & Hm1 & E1 & E2 & E3 & E4 & E5 & _). cbn in E4, E5. split_and!; [done|by rewrite <- E5|].
  intros now'' r' m' Hm'. change (opened (open_watch (close_watch q))) with (next_watch q :: opened (close_watch q)).
  rewrite E5. cbn [existsb]. rewrite Nat.eqb_refl. cbn [orb].
  unfold applyMaterial. rewrite Hm'. unfold scheduleRefresh. by destruct (_ <=? 0).
Qed.

(** An identity that lives long, with a refresh due after more than the longest
    timeout, is fetched again after a millisecond, and so on for ever. *)
Theorem long_lived_identity_polls now m p :
  0 < expiresAt m - now → 2 ^ 31 - 1 < Math_floor (of_Z (expiresAt m - now) * refreshRatio opts)%double →
  refreshTimer (scheduleRefresh now (expiresAt m) p) = Some (RefreshFromFetch, now + 1).
Proof.
  intros H1 H2. unfold scheduleRefresh. rewrite (proj2 (Z.leb_gt _ _)) by lia. cbn. unfold timeout_delay.
  rewrite (proj2 (Z.leb_gt (Z.max _ _) _)) by lia. by rewrite andb_false_r.
Qed.

(** Recovery: when a reconnection is due, its timer and one good answer give
    the new identity, a fresh stream and a reset backoff. *)
Theorem reconnection_recovers now now' due p r m :
  provider_ok p → stopped p = false → fetching p = [] → refreshTimer p = Some (ReconnectAfterApiRestart, due) → due ≤ now → responseToTlsMaterial r = Ok m →
  let q := run [(now, Timer); (now', Fetched ReconnectAfterApiRestart (Ok r))] p in
  getTlsMaterial q = Some m ∧ reconnectAttempts q = 0%nat ∧ opened q = [next_watch p] ∧ stopWatch q = Some (next_watch p) ∧ rotations q = rotations p ++ [m].
Proof.
  intros [(m0 & Hm0 & _) Ho _] Hs Hf Ht Hd Hm. unfold run. cbn [fold_left fst snd step]. unfold timer_fires. rewrite Ht.
  rewrite (proj2 (Z.leb_le _ _) Hd). change (stopped (with_timer None p)) with (stopped p). rewrite Hs. cbn [fetching with_fetching with_timer]. rewrite Hf.
  change (remove_one ReconnectAfterApiRestart ([] ++ [ReconnectAfterApiRestart])) with (Some (@nil job)). cbv beta iota. unfold fetched.
  set (q0 := with_attempts 0 _). unfold applyMaterial. rewrite Hm. change (material q0) with (material p). rewrite Hm0.
  unfold scheduleRefresh. destruct (_ <=? 0); cbn [getTlsMaterial material reconnectAttempts stopWatch next_watch with_timer rotations open_watch close_watch opened];
    (split_and!; [done|done| |done|done]); cbn; rewrite Ho; destruct (stopWatch p) as [w|]; cbn; by rewrite ?Nat.eqb_refl.
Qed.

(** A refresh in flight when the stream fails cancels the reconnection that
    the failure scheduled: the provider goes on with the stream that failed. *)
Theorem refresh_cancels_reconnect now now' w p r m :
  fetching p = [RefreshFromFetch] → stopped p = false → existsb (Nat.eqb w) (opened p) = true → responseToTlsMaterial r = Ok m →
  let q := step now' (Fetched RefreshFromFetch (Ok r)) (step now (WatchError w) p) in
  (∃ d, refreshTimer (step now (WatchError w) p) = Some (ReconnectAfterApiRestart, d)) ∧
  (∀ d, refreshTimer q ≠ Some (ReconnectAfterApiRestart, d)) ∧ fetching q = [] ∧ stopWatch q = stopWatch p ∧ opened q = opened p.
Proof.
  intros Hf Hs Hw Hm. cbn [step]. rewrite Hw.
  assert (∃ d, handleWatchError now p = with_attempts (S (reconnectAttempts p)) (with_timer (Some (ReconnectAfterApiRestart, d)) p)) as [d ->]
    by (unfold handleWatchError; rewrite Hs; by eexists).
  set (p1 := with_attempts _ _). change (fetching p1) with (fetching p). rewrite Hf.
  change (remove_one RefreshFromFetch [RefreshFromFetch]) with (Some (@nil job)). cbv beta iota. split; [by eexists|]. unfold fetched.
  destruct (applyMaterial now' r (with_fetching [] p1)) as [q|] eqn:E; [|by unfold applyMaterial in E; rewrite Hm in E].
  apply apply_cases in E as (m1 & Hm1 & E1 & E2 & E3 & E4 & E5 & E6 & E7 & E8 & _). by rewrite E2, E3, E6.
Qed.
End Provider.

(** ** Identities of peers *)

Lemma strip_prefix_spec p s t : strip_prefix p s = Some t ↔ s = p +:+ t.
Proof.
  revert s. induction p as [|c p IH]; intros s; [by split; [intros [= ->]|intros ->]|]. rewrite string_cons_app.
  destruct s as [|d s]; cbn [strip_prefix]; [done|]. destruct (Ascii.eqb_spec c d) as [->|N]; [|split; [done|congruence]].
  rewrite IH. split; [by intros ->|congruence].
Qed.

Lemma begins_prefix p s : begins p s = true ↔ ∃ t, s = p +:+ t.
Proof.
  unfold begins. split.
  - destruct (strip_prefix p s) as [t|] eqn:E; [|done]. intros _. exists t. by apply strip_prefix_spec in E.
  - intros [t E%strip_prefix_spec]. by rewrite E.
Qed.

Lemma omap_head_in {A B} (f : A → option B) (l : list A) y : head (omap f l) = Some y → ∃ x, x ∈ l ∧ f x = Some y.
Proof.
  intros H. assert (y ∈ omap f l) as (x & Hx & Hf)%list_elem_of_omap by (destruct (omap f l); [done|injection H as ->; by left]). by exists x.
Qed.

(** The identity read from a certificate is one of its URI names, of the
    domain, and it is [spiffe://domain/path]. *)
Theorem extracted_identity_in_domain san td id :
  extractSpiffeIdFromCert (Some san) td = Some id →
  ∃ rest, id = "spiffe://" +:+ rest ∧ ("URI:" +:+ id) ∈ split_comma_space san ∧ ∃ path, id = ("spiffe://" +:+ trim td +:+ "/") +:+ path.
Proof.
  unfold extractSpiffeIdFromCert. destruct san as [|c san]; [done|]. destruct (is_empty (trim td)) eqn:Et; [done|].
  intros (e & He & H)%omap_head_in. destruct (strip_prefix "URI:spiffe://" e) as [rest|] eqn:Er; [|done].
  destruct (isSpiffeIdInTrustDomain _ td) eqn:Ei; [|done]. injection H as <-. exists rest. split; [done|]. split.
  - apply strip_prefix_spec in Er. rewrite Er in He. exact He.
  - unfold isSpiffeIdInTrustDomain in Ei. rewrite Et in Ei. by apply begins_prefix in Ei.
Qed.

(** A federated bundle of the own domain replaces the own one. *)
Theorem federated_bundle_wins svids own federated td authorities :
  map_get td (bundles (mapResponse svids own (federated ++ [(td, authorities)]))) = Some authorities.
Proof.
  cbn [bundles mapResponse]. rewrite app_assoc, fold_left_app. cbn [fold_left fst snd]. by rewrite map_get_set, String.eqb_refl.
Qed.

(** ** Examples and witnesses *)

Definition td_expiry (pem : string) : option Z := if String.eqb pem "late" then Some 1000000 else if String.eqb pem "early" then Some 2000 else None.
Definition td_svid (pem : string) : X509SvidRecord := {| x509Svid := pem; privateKey := "k"; spiffeId := "spiffe://td/api" |}.
Definition td_response (pem : string) : WorkloadX509Response := mapResponse [td_svid pem] [("td", ["root "])] [].
Definition td_material (pem : string) (e : Z) : TlsIdentityMaterial := {| ca := "root"; cert := pem; key := "k"; identity := "spiffe://td/api"; expiresAt := e |}.

Example td_material_of_response : responseToTlsMaterial td_expiry "td" (td_response "late") = Ok (td_material "late" 1000000).
Proof. reflexivity. Qed.
Example other_domain_refused : responseToTlsMaterial td_expiry "t" (td_response "late") = Err NoSvid.
Proof. reflexivity. Qed.
Example sans_read : extractSpiffeIdFromCert (Some "DNS:x, URI:spiffe://other/api, URI:spiffe://td/api") " td" = Some "spiffe://td/api".
Proof. reflexivity. Qed.
Example allowlist_read : parseSpiffeIdAllowlist (Some "a, ,b") = ["a"; "b"].
Proof. reflexivity. Qed.
Example sockets_read : map parseSocketAddress [" unix:///run/a.sock"; "unix:/run/a.sock"; "/run/a.sock"] = [Ok "unix:/run/a.sock"; Ok "unix:/run/a.sock"; Err NotAUnixSocket].
Proof. reflexivity. Qed.

Definition td_start : result spiffe_error SvidProvider := start td_expiry "td" default_options 0 (Ok (td_response "late")) new_provider.
Definition td_running : SvidProvider := match td_start with Ok p => p | Err _ => new_provider end.

(** The refresh is due at 0.7 of the lifetime. *)
Example td_timer : refreshTimer td_running = Some (RefreshFromFetch, 700000).
Proof. vm_compute. reflexivity. Qed.

(** An expired certificate is served, and no timer is left to replace it. *)
Example expired_without_timer :
  let p := step td_expiry "td" default_options 5000 (Update 0 (td_response "early")) td_running in
  getSecondsUntilExpiry 5000 p = Some 0 ∧ refreshTimer p = None.
Proof. vm_compute. done. Qed.

Lemma identity_is_own_witness :
  let q := run td_expiry "td" default_options [(10, WatchError 0); (600, Timer); (700, Fetched ReconnectAfterApiRestart (Ok (td_response "early")))] td_running in
  getTlsMaterial q = Some (td_material "early" 2000) ∧
  ((∃ m, getTlsMaterial q = Some m ∧ in_domain "td" m ∧ td_expiry (cert m) = Some (expiresAt m)) ∧
   opened q = option_list (stopWatch q) ∧ (stopped q = false → stopWatch q ≠ None)).
Proof.
  split; [vm_compute; reflexivity|].
  apply (identity_is_own td_expiry "td" default_options 0 (Ok (td_response "late")) td_running [(10, WatchError 0); (600, Timer); (700, Fetched ReconnectAfterApiRestart (Ok (td_response "early")))]).
  vm_compute. reflexivity.
Defined.

Definition td_refreshing : SvidProvider := step td_expiry "td" default_options 700000 Timer td_running.

Lemma failure_keeps_identity_witness :
  let q := step td_expiry "td" default_options 700100 (Fetched RefreshFromFetch (Err FetchFailed)) td_refreshing in
  material q = material td_refreshing ∧ rotations q = rotations td_refreshing ∧ ∃ d, refreshTimer q = Some (ReconnectAfterApiRestart, 700100 + d) ∧ 0 ≤ d ≤ 30000.
Proof.
  apply (failure_keeps_identity td_expiry "td" default_options 700100 RefreshFromFetch (Err FetchFailed) td_refreshing []);
    [vm_compute; reflexivity|done|vm_compute; reflexivity|done|done].
Defined.

(** Forty-five days, refreshed at seven tenths. *)
Lemma long_lived_identity_polls_witness :
  refreshTimer (scheduleRefresh default_options 0 (expiresAt (td_material "late" 3888000000)) td_running) = Some (RefreshFromFetch, 0 + 1).
Proof. apply (long_lived_identity_polls default_options 0 (td_material "late" 3888000000) td_running); vm_compute; reflexivity. Defined.

Lemma backoff_grows_to_cap_witness : reconnect_delay default_options 2 ≤ reconnect_delay default_options 3 ≤ 30000.
Proof. apply (backoff_grows_to_cap default_options 2). done. Defined.

Lemma reconnection_recovers_witness :
  let p := step td_expiry "td" default_options 10 (WatchError 0) td_running in
  let q := run td_expiry "td" default_options [(510, Timer); (600, Fetched ReconnectAfterApiRestart (Ok (td_response "early")))] p in
  getTlsMaterial q = Some (td_material "early" 2000) ∧ reconnectAttempts q = 0%nat ∧ opened q = [next_watch p] ∧ stopWatch q = Some (next_watch p) ∧
  rotations q = rotations p ++ [td_material "early" 2000].
Proof.
  apply (reconnection_recovers td_expiry "td" default_options 510 600 510); [|vm_compute; reflexivity..|done|reflexivity].
  split; [eexists; split; [vm_compute; reflexivity|split; vm_compute; reflexivity]|vm_compute; reflexivity|done].
Defined.

Lemma refresh_cancels_reconnect_witness :
  let w := step td_expiry "td" default_options 700010 (WatchError 0) td_refreshing in
  let q := step td_expiry "td" default_options 700100 (Fetched RefreshFromFetch (Ok (td_response "late"))) w in
  (∃ d, refreshTimer w = Some (ReconnectAfterApiRestart, d)) ∧
  (∀ d, refreshTimer q ≠ Some (ReconnectAfterApiRestart, d)) ∧ fetching q = [] ∧ stopWatch q = stopWatch td_refreshing ∧ opened q = opened td_refreshing.
Proof.
  apply (refresh_cancels_reconnect td_expiry "td" default_options 700010 700100 0 td_refreshing (td_response "late") (td_material "late" 1000000));
    vm_compute; reflexivity.
Defined.
