(* ===== verification/RevenueConsumer.v ===== *)
(** * Consuming revenue events: [src/services/revenue/kafkaConsumer.ts]

    The consumer of one partition as a state machine over a log of messages.
    What the callback, the dead-letter topic and the broker answer are inputs
    of each delivery.  A handler that throws leaves the position where it is,
    and a rebalance goes back to the committed offset. *)

From S2P Require Import Prelude Doubles Numeric Hashing JsString Collections.
From S2P Require Reminders BusinessInput RevenuePipeline.
Import Reminders(DateText, toISOString, parse_date).
Import RevenuePipeline(RawRevenueInput, NormalizedRevenue, raw_date, DateNumber, DateString, normalizeRevenueEntry, pipeline_error).
#[local] Open Scope Z_scope.

(** ** Payloads *)

(** A member of a parsed object: absent, [null] or [false]; a text; a number;
    anything else, which is truthy. *)
Inductive field := Falsy | Text (s : string) | Number (d : double) | Other.

Record payload := { p_id : field; p_amount : field; p_currency : field; p_date : field; p_source : field }.

(** What [JSON.parse] gives. *)
Inductive parsed := NotJson | Scalar | Object (p : payload).

Definition isValidRevenuePayload (val : parsed) : option (string * double * payload) :=
  match val with
  | Object p => match p_id p, p_amount p with Text (String _ _ as id), Number a => Some (id, a, p) | _, _ => None end
  | _ => None
  end.

Definition truthy (f : field) : bool :=
  match f with Falsy => false | Text s => negb (is_empty s) | Number d => negb (d =? zero)%double | Other => true end.

Inductive failure := EmptyMessage | InvalidJson | MissingFields | TypeError | Invalid (e : pipeline_error) | CallbackFailed.

(** An entry, and its source when that is no text. *)
Record revenue_entry := { entry : NormalizedRevenue; odd_source : option field }.

Section Consumer.
Context {dates : DateText} (JSON_parse : string → parsed).

(** [normalizeRevenueEntry(parsed as RawRevenueInput)]: the cast checks nothing. *)
Definition normalize (now : Z) (id : string) (amount : double) (p : payload) : result failure revenue_entry :=
  let raw c s := {| RevenuePipeline.r_id := id; RevenuePipeline.r_amount := amount; RevenuePipeline.r_currency := c;
    RevenuePipeline.r_date := match p_date p with Number d => Some (DateNumber d) | Text s => Some (DateString s) | _ => None end; RevenuePipeline.r_source := s |} in
  let finish c :=
    let s := match p_source p with Text s => Some s | _ => None end in
    match normalizeRevenueEntry now (raw c s) with
    | Err e => Err (Invalid e)
    | Ok e => Ok {| entry := e; odd_source := match p_source p with Text _ => None | f => if truthy f then Some f else None end |}
    end in
  match p_currency p with
  | Text c => finish (Some c)
  | f => if truthy f then Err TypeError else finish None
  end.

(** What the handler makes of a message before the callback. *)
Definition read_message (now : Z) (value : option string) : result failure revenue_entry :=
  match value with
  | None | Some EmptyString => Err EmptyMessage
  | Some raw =>
      match JSON_parse raw with
      | NotJson => Err InvalidJson
      | val => match isValidRevenuePayload val with None => Err MissingFields | Some (id, a, p) => normalize now id a p end
      end
  end.

(** ** The handler *)

(** Its calls, in order. *)
Inductive effect := OnRevenue (e : revenue_entry) | SendToDlt (f : failure) | CommitOffset (o : Z).

(** The double nearest to a whole number, ties to even: [Number(text)] and
    the sum, below 2^1024. *)
Definition round_whole (z : Z) : Z :=
  if z <? 2 ^ 53 then z
  else
    let k := Z.log2 z - 52 in
    let q := z / 2 ^ k in
    let r := z - q * 2 ^ k in
    (if (2 * r <? 2 ^ k) || ((2 * r =? 2 ^ k) && Z.even q) then q else q + 1) * 2 ^ k.
Definition next_offset (offset : Z) : Z := round_whole (round_whole offset + 1).

Definition eachMessage (now : Z) (offset : Z) (value : option string) (callback_ok : bool) : list effect :=
  match read_message now value with
  | Err f => [SendToDlt f; CommitOffset (next_offset offset)]
  | Ok e => if callback_ok then [OnRevenue e; CommitOffset (next_offset offset)] else [OnRevenue e; SendToDlt CallbackFailed; CommitOffset (next_offset offset)]
  end.

(** ** A partition *)

Record partition := {
  position : Z; committed : Z;
  handled : list (Z * revenue_entry); refused : list (Z * revenue_entry); dlt : list (Z * failure); dropped : list (Z * failure)
}.

Definition begin_at (o : Z) : partition := {| position := o; committed := o; handled := []; refused := []; dlt := []; dropped := [] |}.

(** What the environment answers while a message is handled. *)
Record answers := { callback_ok : bool; dlt_ok : bool; commit_ok : bool }.

Definition apply_effect (a : answers) (offset : Z) (p : partition) (f : effect) : partition :=
  match f with
  | OnRevenue e =>
      if callback_ok a
      then {| position := position p; committed := committed p; handled := (offset, e) :: handled p; refused := refused p; dlt := dlt p; dropped := dropped p |}
      else {| position := position p; committed := committed p; handled := handled p; refused := (offset, e) :: refused p; dlt := dlt p; dropped := dropped p |}
  | SendToDlt f =>
      if dlt_ok a
      then {| position := position p; committed := committed p; handled := handled p; refused := refused p; dlt := (offset, f) :: dlt p; dropped := dropped p |}
      else {| position := position p; committed := committed p; handled := handled p; refused := refused p; dlt := dlt p; dropped := (offset, f) :: dropped p |}
  | CommitOffset o =>
      if commit_ok a
      then {| position := offset + 1; committed := o; handled := handled p; refused := refused p; dlt := dlt p; dropped := dropped p |}
      else p
  end.

Inductive event := Deliver (now : Z) (a : answers) | Rebalance.

Context (base : Z) (log : list (option string)).

Definition message_at (o : Z) : option (option string) := if o <? base then None else log !! Z.to_nat (o - base).

Definition step (p : partition) (ev : event) : partition :=
  match ev with
  | Deliver now a =>
      match message_at (position p) with
      | None => p
      | Some value => fold_left (apply_effect a (position p)) (eachMessage now (position p) value (callback_ok a)) p
      end
  | Rebalance => {| position := committed p; committed := committed p; handled := handled p; refused := refused p; dlt := dlt p; dropped := dropped p |}
  end.

Definition run (evs : list event) (p : partition) : partition := fold_left step evs p.

(** ** Properties *)

Definition settled (p : partition) (o : Z) : Prop := o ∈ (handled p).*1 ∨ o ∈ (dlt p).*1 ∨ o ∈ (dropped p).*1.

Definition readable (o : Z) (e : revenue_entry) : Prop := ∃ value now, message_at o = Some value ∧ read_message now value = Ok e.
Definition unreadable (o : Z) (f : failure) : Prop := ∃ value now, message_at o = Some value ∧ read_message now value = Err f.

(** What the books say is true of the log. *)
Record books_ok (p : partition) : Prop := {
  handled_readable : Forall (λ oe, readable oe.1 oe.2) (handled p ++ refused p);
  dead_justified : Forall (λ og, unreadable og.1 og.2 ∨ og.2 = CallbackFailed ∧ og.1 ∈ (refused p).*1) (dlt p ++ dropped p)
}.

Record partition_ok (p : partition) : Prop := {
  books : books_ok p;
  in_order : base ≤ committed p ≤ position p ∧ position p ≤ base + Z.of_nat (length log);
  nothing_skipped : ∀ o, base ≤ o < position p → settled p o
}.

Lemma next_offset_exact o : 0 ≤ o < 2 ^ 53 → next_offset o = o + 1.
Proof.
  intros Ho. unfold next_offset. assert (round_whole o = o) as -> by (unfold round_whole; destruct (Z.ltb_spec o (2 ^ 53)); lia).
  destruct (decide (o + 1 = 2 ^ 53)) as [->|]; [reflexivity|]. unfold round_whole. destruct (Z.ltb_spec (o + 1) (2 ^ 53)); lia.
Qed.

Lemma message_at_range o v : message_at o = Some v → base ≤ o < base + Z.of_nat (length log).
Proof. unfold message_at. destruct (Z.ltb_spec o base); [done|]. intros Hl%lookup_lt_Some. lia. Qed.

Lemma effect_settled a off p f o : settled p o → settled (apply_effect a off p f) o.
Proof.
  unfold settled. destruct f; cbn; [destruct (callback_ok a)|destruct (dlt_ok a)|destruct (commit_ok a)]; cbn; rewrite ?elem_of_cons; tauto.
Qed.

Definition justified (p : partition) (off : Z) (f : effect) : Prop :=
  match f with
  | OnRevenue e => readable off e
  | SendToDlt f => unreadable off f ∨ f = CallbackFailed ∧ off ∈ (refused p).*1
  | CommitOffset _ => True
  end.

Lemma effect_books a off p f : books_ok p → justified p off f → books_ok (apply_effect a off p f).
Proof.
  intros [[H1 H1']%Forall_app [H2 H2']%Forall_app] Hj.
  assert (∀ x l, Forall (λ og : Z * failure, unreadable og.1 og.2 ∨ og.2 = CallbackFailed ∧ og.1 ∈ (refused p).*1) l →
    Forall (λ og, unreadable og.1 og.2 ∨ og.2 = CallbackFailed ∧ og.1 ∈ x :: (refused p).*1) l) as Hw.
  { intros x l Hl. eapply Forall_impl; [done|]. intros [o g] [Hu|[Hc Hin]]; [by left|right; split; [done|by right]]. }
  destruct f as [e|f|o]; cbn in *; [destruct (callback_ok a)|destruct (dlt_ok a)|destruct (commit_ok a); [|by split; rewrite Forall_app]];
    split; cbn; repeat (rewrite Forall_app || rewrite Forall_cons); auto.
Qed.

(** The bookkeeping of a delivery, before its commit. *)
Definition book (a : answers) (now off : Z) (value : option string) (p : partition) : partition :=
  match read_message now value with
  | Err f => apply_effect a off p (SendToDlt f)
  | Ok e => let p := apply_effect a off p (OnRevenue e) in if callback_ok a then p else apply_effect a off p (SendToDlt CallbackFailed)
  end.

Lemma step_deliver now a value p : message_at (position p) = Some value →
  step p (Deliver now a) = apply_effect a (position p) (book a now (position p) value p) (CommitOffset (next_offset (position p))).
Proof. intros E. cbn [step]. rewrite E. unfold eachMessage, book. destruct (read_message now value) as [e|f]; [destruct (callback_ok a) eqn:Hc|]; reflexivity. Qed.

Lemma book_spec a now off value p : message_at off = Some value → books_ok p →
  books_ok (book a now off value p) ∧ (∀ o, settled p o → settled (book a now off value p) o) ∧ settled (book a now off value p) off ∧
  position (book a now off value p) = position p ∧ committed (book a now off value p) = committed p ∧
  (dlt_ok a = true → dropped (book a now off value p) = dropped p).
Proof.
  intros Hm Hp. unfold book. destruct (read_message now value) as [e|f] eqn:Hr.
  - assert (books_ok (apply_effect a off p (OnRevenue e))) as Hb by (apply effect_books; [done|]; by exists value, now).
    destruct (callback_ok a) eqn:Hc.
    + split_and!; [done|intros o; apply effect_settled| |by cbn; rewrite Hc..]. left. cbn. rewrite Hc. by left.
    + split_and!.
      * apply effect_books; [done|]. right. split; [done|]. cbn. rewrite Hc. by left.
      * intros o Ho. by apply effect_settled, effect_settled.
      * right. cbn. rewrite Hc. destruct (dlt_ok a); cbn; [left|right]; by left.
      * cbn. rewrite Hc. by destruct (dlt_ok a).
      * cbn. rewrite Hc. by destruct (dlt_ok a).
      * cbn. rewrite Hc. by intros ->.
  - split_and!.
    + apply effect_books; [done|]. left. by exists value, now.
    + intros o. apply effect_settled.
    + right. cbn. destruct (dlt_ok a); cbn; [left|right]; by left.
    + cbn. by destruct (dlt_ok a).
    + cbn. by destruct (dlt_ok a).
    + cbn. by intros ->.
Qed.

Hypothesis base_nonneg : 0 ≤ base.
Hypothesis offsets_exact : base + Z.of_nat (length log) ≤ 2 ^ 53.

Lemma partition_step_ok ev p : partition_ok p → partition_ok (step p ev).
Proof.
  intros Hp. destruct ev as [now a|].
  - destruct (message_at (position p)) as [value|] eqn:E; [|cbn; by rewrite E]. rewrite (step_deliver _ _ _ _ E).
    destruct Hp as [Hb Ho Hn]. pose proof (message_at_range _ _ E) as Hr.
    destruct (book_spec a now _ _ p E Hb) as (B & Hs & Hs' & E1 & E2 & _). set (p1 := book _ _ _ _ _) in *.
    rewrite next_offset_exact by lia. split.
    + by apply effect_books.
    + cbn. destruct (commit_ok a); cbn; lia.
    + intros o Hlt. apply effect_settled. destruct (decide (o = position p)) as [->|]; [done|]. apply Hs, Hn.
      cbn in Hlt. destruct (commit_ok a); cbn in Hlt; lia.
  - destruct Hp as [[Hb Hb'] Ho Hn]. split; [by split|cbn; lia|]. intros o Hlt. apply (Hn o). cbn in Hlt. lia.
Qed.

Lemma begin_ok : partition_ok (begin_at base).
Proof. split; [split; constructor|cbn; lia|cbn; lia]. Qed.

Lemma partition_run_ok evs p : partition_ok p → partition_ok (run evs p).
Proof. revert p. induction evs as [|ev evs IH]; intros p Hp; [done|]. by apply IH, partition_step_ok. Qed.

(** C14. No message before the committed offset was skipped: each was handled
    by the callback, is in the dead-letter topic, or was lost there; what the
    books hold was read from that message, and nothing readable was given up
    unless the callback refused it.  This holds after any deliveries,
    failures and rebalances. *)
Theorem committed_means_settled evs :
  let p := run evs (begin_at base) in
  (∀ o, base ≤ o < committed p → settled p o) ∧ books_ok p ∧ base ≤ committed p ≤ position p.
Proof.
  intros p. destruct (partition_run_ok evs _ begin_ok) as [Hb Ho Hn]. fold p in Hb, Ho, Hn. split_and!; [|done|lia|lia]. intros o Hlt. apply Hn. lia.
Qed.

Lemma dropped_step ev p : match ev with Deliver _ a => dlt_ok a = true | Rebalance => True end → dropped (step p ev) = dropped p.
Proof.
  destruct ev as [now a|]; [|done]. intros Hd. cbn [step]. destruct (message_at (position p)) as [value|]; [|done].
  unfold eachMessage. destruct (read_message now value); [destruct (callback_ok a) eqn:Hc|]; cbn; rewrite ?Hc, ?Hd; cbn; by destruct (commit_ok a).
Qed.

(** While the dead-letter topic answers, nothing is lost. *)
Theorem nothing_lost_with_dlt evs :
  Forall (λ ev, match ev with Deliver _ a => dlt_ok a = true | Rebalance => True end) evs →
  let p := run evs (begin_at base) in
  dropped p = [] ∧ ∀ o, base ≤ o < committed p → o ∈ (handled p).*1 ∨ o ∈ (dlt p).*1.
Proof.
  intros Hd p. assert (∀ q, dropped q = [] → dropped (run evs q) = []) as H.
  { unfold run. induction Hd as [|ev evs Hev Hd IH]; intros q Hq; [done|]. cbn. apply IH. by rewrite dropped_step. }
  split; [by apply H|]. intros o Ho.
  destruct (partition_run_ok evs _ begin_ok) as [_ Hi Hn]. assert (base ≤ o < position (run evs (begin_at base))) as Hlt by (unfold p in Ho; lia).
  destruct (Hn o Hlt) as [|[|Hin]]; [by left|by right|]. rewrite H in Hin by done. by apply elem_of_nil in Hin.
Qed.

(** C15. No message stalls the partition: as many committed deliveries as there
    are messages reach the end of the log, whatever the messages are and
    whatever the callback and the dead-letter topic answer. *)
Theorem poison_never_stalls evs :
  Forall (λ ev, match ev with Deliver _ a => commit_ok a = true | Rebalance => False end) evs → (length log ≤ length evs)%nat →
  committed (run evs (begin_at base)) = base + Z.of_nat (length log).
Proof.
  intros Hc Hl. assert (∀ p, partition_ok p → committed p = position p →
    committed (run evs p) = Z.min (position p + Z.of_nat (length evs)) (base + Z.of_nat (length log))) as H.
  { clear Hl. unfold run. induction Hc as [|ev evs Hev Hc IH]; intros p Hp Heq; [destruct Hp; cbn; lia|].
    destruct ev as [now a|]; [|done]. pose proof (partition_step_ok (Deliver now a) p Hp) as Hp'. cbn [fold_left length].
    destruct (message_at (position p)) as [value|] eqn:E.
    - pose proof (message_at_range _ _ E) as Hr. rewrite (step_deliver _ _ _ _ E) in *. cbn in Hp' |- *. rewrite Hev in *.
      rewrite next_offset_exact in * by lia. rewrite IH by done. cbn. lia.
    - cbn [step] in *. rewrite E in *. rewrite IH by done. destruct Hp as [_ Ho _].
      assert (position p = base + Z.of_nat (length log)); [|lia]. destruct (decide (position p < base + Z.of_nat (length log))); [|lia].
      unfold message_at in E. destruct (Z.ltb_spec (position p) base); [lia|]. apply lookup_ge_None in E. lia. }
  rewrite H; [cbn; lia|apply begin_ok|done].
Qed.
End Consumer.

(** ** Starting and stopping *)

Record lifecycle := { running : bool; producer_up : bool; consumer_up : bool; consuming : bool }.
Definition new_consumer : lifecycle := {| running := false; producer_up := false; consumer_up := false; consuming := false |}.

(** The steps of [start] that fail or not; [true] says that it returned. *)
Record start_answers := { producer_connects : bool; consumer_connects : bool; subscribes : bool; runs : bool }.

Definition start (a : start_answers) (c : lifecycle) : lifecycle * bool :=
  if running c then (c, true)
  else if negb (producer_connects a) then ({| running := true; producer_up := producer_up c; consumer_up := consumer_up c; consuming := consuming c |}, false)
  else if negb (consumer_connects a) then ({| running := true; producer_up := true; consumer_up := consumer_up c; consuming := consuming c |}, false)
  else if negb (subscribes a && runs a) then ({| running := true; producer_up := true; consumer_up := true; consuming := consuming c |}, false)
  else ({| running := true; producer_up := true; consumer_up := true; consuming := true |}, true).

(** A failure while disconnecting is logged. *)
Definition stop (consumer_disconnects producer_disconnects : bool) (c : lifecycle) : lifecycle :=
  if negb (running c) then c
  else if negb consumer_disconnects then {| running := false; producer_up := producer_up c; consumer_up := consumer_up c; consuming := consuming c |}
  else {| running := false; producer_up := producer_up c && negb producer_disconnects; consumer_up := false; consuming := false |}.

(** [createRevenueConsumer]: the configuration, when it is enabled. *)
Record KafkaConsumerConfig := { brokers : list string; topic : string; groupId : string; clientId : option string }.
Definition createRevenueConsumer (env : string → option string) : option KafkaConsumerConfig :=
  let enabled := to_lower (default EmptyString (env "KAFKA_ENABLED")) in
  if negb (String.eqb enabled "true") && negb (String.eqb enabled "1") then None
  else Some {| brokers := List.filter (λ b, negb (is_empty b)) (map trim (split_on "," (default "localhost:9092" (env "KAFKA_BROKERS"))));
               topic := default "revenue.events" (env "KAFKA_REVENUE_TOPIC"); groupId := default "veritasor-revenue-consumer" (env "KAFKA_GROUP_ID");
               clientId := env "KAFKA_CLIENT_ID" |}.

(** A start that works consumes; stopping a started consumer undoes it. *)
Theorem start_then_stop a c : running c = false → (start a c).2 = true →
  consuming (start a c).1 = true ∧ stop true true (start a c).1 = new_consumer.
Proof.
  unfold start. intros ->. destruct (producer_connects a), (consumer_connects a), (subscribes a), (runs a); try done.
Qed.

(** After a start that failed, starting again returns at once and consumes
    nothing. *)
Theorem failed_start_sticks a a' : (start a new_consumer).2 = false →
  start a' (start a new_consumer).1 = ((start a new_consumer).1, true) ∧ consuming (start a new_consumer).1 = false.
Proof. unfold start. cbn. destruct (producer_connects a), (consumer_connects a), (subscribes a), (runs a); try done. Qed.

(** ** Examples and witnesses *)

Section Examples.
#[local] Existing Instance Reminders.bits_dates.

Definition toy_parse (s : string) : parsed :=
  if String.eqb s "good" then Object {| p_id := Text "r1"; p_amount := Number (of_Z 5); p_currency := Text "usd"; p_date := Number (of_Z 0); p_source := Falsy |}
  else if String.eqb s "odd" then Object {| p_id := Text "r2"; p_amount := Number (of_Z 5); p_currency := Falsy; p_date := Falsy; p_source := Other |}
  else if String.eqb s "wrong" then Object {| p_id := Text "r3"; p_amount := Number (of_Z 5); p_currency := Other; p_date := Falsy; p_source := Falsy |}
  else if String.eqb s "3" then Scalar
  else NotJson.

Definition toy_log : list (option string) := [Some "good"; None; Some "{"; Some "3"; Some "wrong"; Some "good"].
Definition all_ok : answers := {| callback_ok := true; dlt_ok := true; commit_ok := true |}.
Definition refusing : answers := {| callback_ok := false; dlt_ok := true; commit_ok := true |}.
Definition no_commit : answers := {| callback_ok := true; dlt_ok := true; commit_ok := false |}.
Definition dlt_down : answers := {| callback_ok := true; dlt_ok := false; commit_ok := true |}.

Example toy_run :
  let p := run toy_parse 10 toy_log (repeat (Deliver 0 all_ok) 5 ++ [Deliver 0 refusing]) (begin_at 10) in
  (handled p).*1 = [10] ∧ committed p = 16 ∧ dlt p = [(15, CallbackFailed); (14, TypeError); (13, MissingFields); (12, InvalidJson); (11, EmptyMessage)].
Proof. vm_compute. done. Qed.

(** A message whose commit failed is handled again. *)
Example handled_twice : (handled (run toy_parse 10 toy_log [Deliver 0 no_commit; Rebalance; Deliver 0 all_ok] (begin_at 10))).*1 = [10; 10].
Proof. reflexivity. Qed.

(** A message is lost when the dead-letter topic does not answer. *)
Example lost_without_dlt :
  let p := run toy_parse 11 (tail toy_log) [Deliver 0 dlt_down] (begin_at 11) in committed p = 12 ∧ handled p = [] ∧ dlt p = [] ∧ dropped p = [(11, EmptyMessage)].
Proof. done. Qed.

(** A source that is no text reaches the callback. *)
Example odd_source_passes : (λ e, odd_source e) <$> read_message toy_parse 0 (Some "odd") = Ok (Some Other).
Proof. reflexivity. Qed.

(** Past 2^53 the committed offset is the message's own. *)
Example offset_past_2_53 : next_offset (2 ^ 53) = 2 ^ 53.
Proof. reflexivity. Qed.

Definition mixed : list event := [Deliver 0 all_ok; Deliver 0 all_ok; Rebalance; Deliver 0 no_commit; Deliver 0 all_ok].

Lemma committed_means_settled_witness :
  let p := run toy_parse 10 toy_log mixed (begin_at 10) in
  committed p = 13 ∧ (∀ o, 10 ≤ o < committed p → settled p o) ∧ books_ok toy_parse 10 toy_log p ∧ 10 ≤ committed p ≤ position p.
Proof. split; [reflexivity|]. apply (committed_means_settled toy_parse 10 toy_log); [lia|cbn; lia]. Defined.

Lemma nothing_lost_with_dlt_witness :
  let p := run toy_parse 10 toy_log mixed (begin_at 10) in dropped p = [] ∧ ∀ o, 10 ≤ o < committed p → o ∈ (handled p).*1 ∨ o ∈ (dlt p).*1.
Proof. apply (nothing_lost_with_dlt toy_parse 10 toy_log); [lia|cbn; lia|repeat constructor]. Defined.

Lemma poison_never_stalls_witness : committed (run toy_parse 10 toy_log (repeat (Deliver 0 dlt_down) 6) (begin_at 10)) = 16.
Proof. apply (poison_never_stalls toy_parse 10 toy_log); [lia|cbn; lia|repeat constructor|cbn; lia]. Defined.

Lemma start_then_stop_witness :
  consuming (start {| producer_connects := true; consumer_connects := true; subscribes := true; runs := true |} new_consumer).1 = true ∧
  stop true true (start {| producer_connects := true; consumer_connects := true; subscribes := true; runs := true |} new_consumer).1 = new_consumer.
Proof. by apply start_then_stop. Defined.
End Examples.
