(* ===== verification/RazorpayFetch.v ===== *)
(** * Fetching payments page by page: [src/services/revenue/razorpayFetch.ts]

    The service is an argument: what it answers for a range of seconds, a page
    size and a number of payments to skip.  The loop takes fuel, one unit a
    page; a service that serves the pages of a finite list ends it. *)

From S2P Require Import Prelude Numeric Hashing JsString Doubles.
From S2P Require Reminders RevenuePipeline.
Import Reminders(DateText, toISOString, parse_date).
Import RevenuePipeline(time_clip, truthy).
#[local] Open Scope Z_scope.

(** [amount] and [created_at] when they are numbers. *)
Record item := { it_id : string; it_amount : option double; it_created_at : option double; it_status : string; it_currency : option string }.

Record RevenueEntry := { id : string; amount : double; currency : string; date : string; raw : item }.

Inductive fetch_error := MissingCredentials | ApiError (status : Z) (text : string) | RangeError.

(** A response that is not [ok], or the items of its body. *)
Inductive response := NotOk (status : Z) (text : string) | Page (items : list item).

Definition pageSize : nat := 100.

Section Fetch.
Context {dates : DateText} (now : Z) (service : option Z → option Z → nat → nat → response).

(** [createdAt ? new Date(createdAt * 1000) : new Date()] *)
Definition date_of (it : item) : result fetch_error string :=
  match it_created_at it with
  | Some s =>
      if (s =? zero)%double || is_nan s then Ok (toISOString now)
      else match time_clip (s * of_Z 1000)%double with Some t => Ok (toISOString t) | None => Err RangeError end
  | None => Ok (toISOString now)
  end.

Definition captured (it : item) : bool := String.eqb (it_status it) "captured".

Definition entry_of (it : item) (date : string) : RevenueEntry :=
  {| id := it_id it; amount := match it_amount it with Some a => (a / of_Z 100)%double | None => NaN end;
     currency := default "INR" (truthy (it_currency it)); date := date; raw := it |}.

(** The loop over the items of a page. *)
Fixpoint push_items (items : list item) (results : list RevenueEntry) : result fetch_error (list RevenueEntry) :=
  match items with
  | [] => Ok results
  | it :: items =>
      match date_of it with
      | Err e => Err e
      | Ok date => push_items items (if captured it then results ++ [entry_of it date] else results)
      end
  end.

(** [while (true)]: [None] when the fuel ran out. *)
Fixpoint fetch_pages (fuel : nat) (from to : option Z) (skip : nat) (results : list RevenueEntry) : option (result fetch_error (list RevenueEntry)) :=
  match fuel with
  | O => None
  | S fuel =>
      match service from to pageSize skip with
      | NotOk status text => Some (Err (ApiError status text))
      | Page items =>
          match push_items items results with
          | Err e => Some (Err e)
          | Ok results => if (length items <? pageSize)%nat then Some (Ok results) else fetch_pages fuel from to (skip + pageSize) results
          end
      end
  end.

(** [Math.floor(new Date(text).getTime() / 1000)], [NaN] when it is no date. *)
Definition seconds (text : string) : option Z := (λ t, t / 1000) <$> parse_date text.

Definition fetchRazorpayRevenue (fuel : nat) (key secret : option string) (startDate endDate : string) : option (result fetch_error (list RevenueEntry)) :=
  match truthy key, truthy secret with
  | Some _, Some _ => fetch_pages fuel (seconds startDate) (seconds endDate) 0 []
  | _, _ => Some (Err MissingCredentials)
  end.

(** ** Properties *)

(** The entries of payments: the captured ones, in order. *)
Definition entries_of (l : list item) : result fetch_error (list RevenueEntry) := push_items l [].

Lemma push_items_app l l' acc :
  push_items (l ++ l') acc = match push_items l acc with Ok acc => push_items l' acc | Err e => Err e end.
Proof. revert acc. induction l as [|it l IH]; intros acc; [done|]. cbn. destruct (date_of it); [apply IH|done]. Qed.

Lemma push_items_spec l acc r : push_items l acc = Ok r →
  ∃ ds, Forall2 (λ it d, date_of it = Ok d) l ds ∧ r = acc ++ map (λ p, entry_of p.1 p.2) (List.filter (λ p, captured p.1) (zip l ds)).
Proof.
  revert acc. induction l as [|it l IH]; cbn; intros acc H; [injection H as <-; exists []; by rewrite app_nil_r|].
  destruct (date_of it) as [d|] eqn:E; [|done]. apply IH in H as (ds & Hd & ->). exists (d :: ds). split; [by constructor|].
  cbn. destruct (captured it); [|done]. by rewrite <- app_assoc.
Qed.

(** A service that serves the pages of one list. *)
Definition serves (from to : option Z) (l : list item) : Prop := ∀ count skip, service from to count skip = Page (take count (drop skip l)).

Lemma pages_from from to l : serves from to l → ∀ fuel skip acc, (length l < skip + fuel * pageSize)%nat → (0 < fuel)%nat →
  fetch_pages fuel from to skip acc = Some (push_items (drop skip l) acc).
Proof.
  intros Hs. induction fuel as [|fuel IH]; intros skip acc Hl Hf; [lia|]. cbn [fetch_pages]. rewrite Hs. rewrite length_take, length_drop.
  rewrite <- (take_drop pageSize (drop skip l)) at 2. rewrite push_items_app.
  destruct (push_items (take pageSize (drop skip l)) acc) as [acc'|]; [|done].
  destruct (Nat.ltb_spec (Nat.min pageSize (length l - skip)) pageSize) as [Hlt|Hge].
  - rewrite (drop_ge (drop skip l)); [done|]. rewrite length_drop. lia.
  - rewrite IH; [|unfold pageSize in *; lia|]; [by rewrite drop_drop|]. destruct fuel; unfold pageSize in *; lia.
Qed.

(** Fetching the pages of a list gives the entries of the whole list: every
    captured payment once, in order, and one unit of fuel per page and one
    more are enough. *)
Theorem pages_give_everything fuel key secret startDate endDate l :
  truthy key ≠ None → truthy secret ≠ None → serves (seconds startDate) (seconds endDate) l → (length l < fuel * pageSize)%nat →
  fetchRazorpayRevenue fuel key secret startDate endDate = Some (entries_of l) ∧
  ∀ r, entries_of l = Ok r → map raw r = List.filter captured l.
Proof.
  intros Hk Hs Hl Hf. split.
  - unfold fetchRazorpayRevenue. destruct (truthy key); [|done]. destruct (truthy secret); [|done].
    rewrite (pages_from _ _ l) by (done || destruct fuel; lia). done.
  - intros r (ds & Hd & ->)%push_items_spec. cbn [app]. rewrite map_map. clear Hl Hf.
    induction Hd as [|it d l ds E Hd IH]; [done|]. cbn. destruct (captured it); cbn; [f_equal|]; exact IH.
Qed.

(** A page that is refused fails the whole fetch, whatever came before. *)
Theorem refused_page_fails fuel from to skip acc status text :
  service from to pageSize skip = NotOk status text → fetch_pages (S fuel) from to skip acc = Some (Err (ApiError status text)).
Proof. intros H. cbn. by rewrite H. Qed.

(** A service that does not look at [skip] and has a full page is asked for
    ever. *)
Theorem full_page_forever from to l fuel skip acc :
  (∀ count skip, service from to count skip = Page (take count l)) → (pageSize ≤ length l)%nat → (∀ it, it ∈ l → ∃ d, date_of it = Ok d) →
  fetch_pages fuel from to skip acc = None.
Proof.
  intros Hs Hl Hd. assert (∀ acc, ∃ r, push_items (take pageSize l) acc = Ok r) as Hp.
  { assert (∀ it, it ∈ take pageSize l → ∃ d, date_of it = Ok d) as H by (intros it Hit; apply Hd; eapply subseteq_take, Hit).
    clear Hd Hl. induction (take pageSize l) as [|it k IH]; intros acc0; [by exists acc0|]. cbn.
    destruct (H it) as [d ->]; [by left|]. apply IH. intros it' Hit. apply H. by right. }
  revert skip acc. induction fuel as [|fuel IH]; intros skip acc; [done|]. cbn [fetch_pages]. rewrite Hs. destruct (Hp acc) as [r ->].
  rewrite length_take, Nat.min_l by done. rewrite Nat.ltb_irrefl. apply IH.
Qed.
End Fetch.

(** ** Examples and witnesses *)

Section Examples.
#[local] Existing Instance Reminders.bits_dates.

Definition payment (n : nat) : item :=
  {| it_id := show_Z (Z.of_nat n); it_amount := Some (of_Z 150); it_created_at := Some (of_Z 1); it_status := if Nat.even n then "captured" else "failed"; it_currency := None |}.
Definition payments : list item := map payment (seq 0 250).
Definition toy_service (from to : option Z) (count skip : nat) : response := Page (take count (drop skip payments)).

(** A payment that was not captured, and whose date is out of range, fails the
    fetch. *)
Example uncaptured_date_fails :
  entries_of 0 [{| it_id := "a"; it_amount := None; it_created_at := Some (of_Z (10 ^ 15)); it_status := "failed"; it_currency := None |}] = Err RangeError.
Proof. vm_compute. reflexivity. Qed.

(** A payment that arrives between two pages of a list with the newest first
    is seen twice. *)
Example shifted_page_repeats :
  let service := λ (_ _ : option Z) count skip, Page (take count (drop skip (if (skip =? 0)%nat then payments else payment 1000 :: payment 1001 :: payments))) in
  match fetchRazorpayRevenue 0 service 4 (Some "k") (Some "s") "" "" with Some (Ok r) => (length r =? 126)%nat | _ => false end = true.
Proof. vm_compute. reflexivity. Qed.

Lemma pages_give_everything_witness :
  fetchRazorpayRevenue 0 toy_service 3 (Some "k") (Some "s") "" "" = Some (entries_of 0 payments) ∧
  ∀ r, entries_of 0 payments = Ok r → map raw r = List.filter captured payments.
Proof. apply (pages_give_everything 0 toy_service); [done|done|done|]. unfold payments. rewrite length_map, length_seq. unfold pageSize. lia. Defined.
End Examples.
