(* ===== verification/Monitoring.v ===== *)
(** * Health checks and the PgBouncer scraper: [src/routes/health.ts] and
    [src/services/pgbouncerScraper.ts]

    What the checks of the dependencies answer is an input.  The scraper is a
    state machine over its timers and the scrape in flight. *)

From S2P Require Import Prelude.
#[local] Open Scope Z_scope.

Module Health.

Inductive DependencyStatus := up | down.

Inductive overall := ok | degraded | unhealthy.

Record HealthResponseBody := {
  status : overall; deep_mode : bool; db : option DependencyStatus; redis : option DependencyStatus;
  soroban : option DependencyStatus; email : option DependencyStatus; dependencies : option (list (string * DependencyStatus))
}.

Definition is_down (s : option DependencyStatus) : bool := match s with Some down => true | _ => false end.

(** What the environment configures, and what the checks then answer. *)
Record checks := { c_db : option DependencyStatus; c_redis : option DependencyStatus; c_soroban : option DependencyStatus; c_email : option DependencyStatus }.

Definition dependency (name : string) (s : option DependencyStatus) : list (string * DependencyStatus) := match s with Some s => [(name, s)] | None => [] end.

(** [GET /] *)
Definition health (mode : option string) (c : checks) : Z * HealthResponseBody :=
  let isDeepMode := match mode with Some m => String.eqb m "deep" | None => false end in
  let soroban := if isDeepMode then c_soroban c else None in
  let email := if isDeepMode then c_email c else None in
  let '(status, code) :=
    if isDeepMode then
      let criticalDown := is_down (c_db c) || is_down soroban || is_down email in
      if criticalDown then (unhealthy, 503)
      else if is_down (c_db c) || is_down (c_redis c) || is_down soroban || is_down email then (degraded, 200)
      else (ok, 200)
    else (if is_down (c_db c) then degraded else ok, 200) in
  let deps := dependency "database" (c_db c) ++ dependency "redis" (c_redis c) ++ dependency "soroban" soroban ++ dependency "email" email in
  (code, {| status := status; deep_mode := isDeepMode; db := c_db c; redis := c_redis c; soroban := soroban; email := email;
            dependencies := match deps with [] => None | _ => Some deps end |}).

(** [GET /ready]: the code and whether it says [ok]. *)
Definition ready (db : option DependencyStatus) : Z * bool := if is_down db then (503, false) else (200, true).

(** The service is reported unavailable exactly in deep mode with the
    database, the chain or the mail server down; and as well exactly when
    nothing it looked at, but Redis in shallow mode, is down. *)
Theorem health_outcomes mode c :
  let deep := match mode with Some m => String.eqb m "deep" | None => false end in
  let r := health mode c in
  (r.1 = 503 ↔ deep = true ∧ (c_db c = Some down ∨ c_soroban c = Some down ∨ c_email c = Some down)) ∧
  (r.1 = 503 ↔ status r.2 = unhealthy) ∧
  (status r.2 = ok ↔ c_db c ≠ Some down ∧ (deep = true → c_redis c ≠ Some down ∧ c_soroban c ≠ Some down ∧ c_email c ≠ Some down)).
Proof.
  cbv zeta. unfold health. destruct (match mode with Some m => String.eqb m "deep" | None => false end), c as [[[]|] [[]|] [[]|] [[]|]]; cbn; intuition congruence.
Qed.

(** A database that is down is answered 200 in shallow mode. *)
Example shallow_outage : (health None {| c_db := Some down; c_redis := None; c_soroban := None; c_email := None |}).1 = 200 ∧ ready (Some down) = (503, false).
Proof. done. Qed.
End Health.

Module PgBouncer.

Definition MIN_SCRAPE_INTERVAL_MS : Z := 1000.
Definition MAX_SCRAPE_INTERVAL_MS : Z := 300000.
Definition MIN_QUERY_TIMEOUT_MS : Z := 100.
Definition MAX_QUERY_TIMEOUT_MS : Z := 30000.
Definition clamp (value min max : Z) : Z := Z.min max (Z.max min value).
Definition getPgBouncerScrapeIntervalMs (configured : Z) : Z := clamp configured MIN_SCRAPE_INTERVAL_MS MAX_SCRAPE_INTERVAL_MS.
Definition getPgBouncerQueryTimeoutMs (configured interval : Z) : Z :=
  clamp configured MIN_QUERY_TIMEOUT_MS (Z.min MAX_QUERY_TIMEOUT_MS (getPgBouncerScrapeIntervalMs interval)).

Lemma timeout_within_interval t i :
  MIN_SCRAPE_INTERVAL_MS ≤ getPgBouncerScrapeIntervalMs i ≤ MAX_SCRAPE_INTERVAL_MS ∧
  MIN_QUERY_TIMEOUT_MS ≤ getPgBouncerQueryTimeoutMs t i ≤ Z.min MAX_QUERY_TIMEOUT_MS (getPgBouncerScrapeIntervalMs i).
Proof.
  unfold getPgBouncerQueryTimeoutMs, getPgBouncerScrapeIntervalMs, clamp, MIN_SCRAPE_INTERVAL_MS, MAX_SCRAPE_INTERVAL_MS, MIN_QUERY_TIMEOUT_MS, MAX_QUERY_TIMEOUT_MS. lia.
Qed.

Inductive reason := authentication | timeout | connection | query | unknown.
Definition classifyError (code : option string) : reason :=
  match code with
  | None | Some EmptyString => unknown
  | Some c =>
      if includes c ["28P01"; "28000"] then authentication
      else if includes c ["ETIMEDOUT"; "57014"] then timeout
      else if includes c ["ECONNREFUSED"; "ECONNRESET"; "EHOSTUNREACH"; "ENOTFOUND"] then connection
      else query
  end.

(** [live]: the timers that were set and neither fired nor were cleared;
    [pools]: the pools that were made and not ended. *)
Record scraper := { started : bool; timer : option nat; live : list nat; next_timer : nat; scrapeInProgress : bool; pool : option nat; pools : list nat; next_pool : nat }.
Definition idle : scraper := {| started := false; timer := None; live := []; next_timer := 0; scrapeInProgress := false; pool := None; pools := []; next_pool := 0 |}.

(** The end of [runCycle]. *)
Definition cycle_ends (s : scraper) : scraper :=
  if started s
  then {| started := true; timer := Some (next_timer s); live := next_timer s :: live s; next_timer := S (next_timer s); scrapeInProgress := scrapeInProgress s;
          pool := pool s; pools := pools s; next_pool := next_pool s |}
  else s.

(** [runCycle] up to the answer of [scrapeOnce]: a second scrape returns at
    once. *)
Definition runCycle (s : scraper) : scraper :=
  if scrapeInProgress s then cycle_ends s
  else
    match pool s with
    | Some _ => {| started := started s; timer := timer s; live := live s; next_timer := next_timer s; scrapeInProgress := true; pool := pool s; pools := pools s; next_pool := next_pool s |}
    | None => {| started := started s; timer := timer s; live := live s; next_timer := next_timer s; scrapeInProgress := true;
                 pool := Some (next_pool s); pools := next_pool s :: pools s; next_pool := S (next_pool s) |}
    end.

Definition drop (x : option nat) (l : list nat) : list nat := match x with Some x => List.filter (λ y, negb (Nat.eqb x y)) l | None => l end.

Inductive event := Start | Stop | Fire (t : nat) | ScrapeDone.
#[local] Instance event_eq_dec : EqDecision event.
Proof. solve_decision. Defined.

Definition step (s : scraper) (ev : event) : scraper :=
  match ev with
  | Start =>
      if started s then s
      else runCycle {| started := true; timer := timer s; live := live s; next_timer := next_timer s; scrapeInProgress := scrapeInProgress s;
                       pool := pool s; pools := pools s; next_pool := next_pool s |}
  | Stop =>
      {| started := false; timer := None; live := drop (timer s) (live s); next_timer := next_timer s; scrapeInProgress := scrapeInProgress s;
         pool := None; pools := drop (pool s) (pools s); next_pool := next_pool s |}
  | Fire t =>
      if existsb (Nat.eqb t) (live s)
      then runCycle {| started := started s; timer := timer s; live := drop (Some t) (live s); next_timer := next_timer s; scrapeInProgress := scrapeInProgress s;
                       pool := pool s; pools := pools s; next_pool := next_pool s |}
      else s
  | ScrapeDone =>
      if scrapeInProgress s
      then cycle_ends {| started := started s; timer := timer s; live := live s; next_timer := next_timer s; scrapeInProgress := false;
                         pool := pool s; pools := pools s; next_pool := next_pool s |}
      else s
  end.
Definition run (evs : list event) (s : scraper) : scraper := fold_left step evs s.

(** The cycles that go on: waiting for a timer, or for the scrape. *)
Definition loops (s : scraper) : nat := (length (live s) + if scrapeInProgress s then 1 else 0)%nat.

Record scraper_ok (s : scraper) : Prop := {
  timers_distinct : NoDup (live s);
  timers_known : Forall (λ t, (t < next_timer s)%nat) (live s)
}.

Lemma drop_length t l : NoDup l → existsb (Nat.eqb t) l = true → S (length (drop (Some t) l)) = length l.
Proof.
  cbn. induction 1 as [|x l Hx _ IH]; [done|]. cbn. destruct (Nat.eqb_spec t x) as [->|N]; cbn; [intros _|by intros H; rewrite IH].
  f_equal. clear IH. induction l as [|y l IH]; [done|]. cbn. apply not_elem_of_cons in Hx as [Hy Hx].
  destruct (Nat.eqb_spec x y); [done|]. cbn. f_equal. by apply IH.
Qed.

Lemma drop_ok x s l : NoDup l → Forall (λ t, (t < s)%nat) l → NoDup (drop x l) ∧ Forall (λ t, (t < s)%nat) (drop x l).
Proof.
  intros Hn Hf. destruct x as [x|]; [|done]. cbn. split.
  - apply NoDup_ListNoDup, List.NoDup_filter, NoDup_ListNoDup, Hn.
  - rewrite Forall_forall in *. intros t Ht. apply Hf. apply list_elem_of_In in Ht. apply List.filter_In in Ht as [Ht _]. by apply list_elem_of_In.
Qed.

Lemma ends_ok s : scraper_ok s → scraper_ok (cycle_ends s).
Proof.
  intros [H1 H2]. unfold cycle_ends. destruct (started s); [|done]. split; cbn.
  - constructor; [|done]. intros Hin. rewrite Forall_forall in H2. apply H2 in Hin. lia.
  - constructor; [lia|]. eapply Forall_impl; [done|]. cbn. lia.
Qed.

Lemma cycle_ok s : scraper_ok s → scraper_ok (runCycle s).
Proof. intros Hs. unfold runCycle. destruct (scrapeInProgress s); [by apply ends_ok|]. destruct Hs. by destruct (pool s). Qed.

Lemma scrape_step_ok ev s : scraper_ok s → scraper_ok (step s ev).
Proof.
  intros Hs. destruct Hs as [H1 H2] eqn:E. destruct ev as [| |t|]; cbn [step].
  - destruct (started s); [done|]. by apply cycle_ok.
  - destruct (drop_ok (timer s) _ _ H1 H2). by split.
  - destruct (existsb _ _); [|done]. destruct (drop_ok (Some t) _ _ H1 H2). apply cycle_ok. by split.
  - destruct (scrapeInProgress s); [|done]. by apply ends_ok.
Qed.

Lemma cycle_loops s : loops (runCycle s) = if scrapeInProgress s then loops (cycle_ends s) else S (loops s).
Proof. unfold runCycle, loops. destruct (scrapeInProgress s) eqn:E; [done|]. rewrite ?E. destruct (pool s); cbn; lia. Qed.

Lemma ends_loops s : loops (cycle_ends s) = if started s then S (loops s) else loops s.
Proof. unfold cycle_ends, loops. by destruct (started s). Qed.

(** While it runs, no event makes or ends a loop; stopped, no event but
    [Start] makes one. *)
Lemma step_loops ev s : scraper_ok s → ev ≠ Stop →
  (started s = true → loops (step s ev) = loops s ∧ started (step s ev) = true) ∧
  (started s = false → ev ≠ Start → (loops (step s ev) ≤ loops s)%nat ∧ started (step s ev) = false) ∧
  (started s = false → ev = Start → loops (step s ev) = S (loops s) ∧ started (step s ev) = true).
Proof.
  intros [H1 H2] Hev. destruct ev as [| |t|]; [|by destruct Hev| |]; cbn [step].
  - split_and!; intros Hs.
    + by rewrite Hs.
    + intros Hn. by destruct Hn.
    + intros _. rewrite Hs, cycle_loops, ends_loops. unfold runCycle, cycle_ends, loops. cbn.
      destruct (scrapeInProgress s) eqn:E; [done|]. by destruct (pool s).
  - destruct (existsb _ _) eqn:Et; [|split_and!; intros Hs; by rewrite ?Hs]. pose proof (drop_length _ _ H1 Et) as Hl. cbn [drop] in Hl.
    rewrite cycle_loops, ends_loops. unfold runCycle, cycle_ends, loops. cbn [started scrapeInProgress live pool].
    split_and!; intros Hs; rewrite ?Hs; [|intros _|intros [=]]; destruct (scrapeInProgress s); cbn; try lia; destruct (pool s); cbn; split; (lia || done).
  - destruct (scrapeInProgress s) eqn:E; [|split_and!; intros Hs; by rewrite ?Hs].
    rewrite ends_loops. unfold cycle_ends, loops. cbn [started scrapeInProgress live]. rewrite E.
    split_and!; intros Hs; rewrite ?Hs; [|intros _|intros [=]]; cbn; split; (lia || done).
Qed.

(** Every [Start] that does something finds no loop left over. *)
Fixpoint restarts_quiet (evs : list event) (s : scraper) : Prop :=
  match evs with
  | [] => True
  | ev :: evs => (match ev with Start => started s = true ∨ loops s = 0%nat | _ => True end) ∧ restarts_quiet evs (step s ev)
  end.

(** One loop at most goes on, and one as long as the scraper is started,
    if it is never started again before the last loop has ended. *)
Theorem single_loop evs :
  restarts_quiet evs idle → (loops (run evs idle) ≤ 1)%nat ∧ (started (run evs idle) = true → loops (run evs idle) = 1%nat).
Proof.
  assert (∀ s, scraper_ok s → ((loops s ≤ 1)%nat ∧ (started s = true → loops s = 1%nat)) → restarts_quiet evs s →
    (loops (run evs s) ≤ 1)%nat ∧ (started (run evs s) = true → loops (run evs s) = 1%nat)) as H.
  { unfold run. induction evs as [|ev evs IH]; intros s Hs Hl Hq; [done|]. destruct Hq as [Hq Hr]. cbn [fold_left].
    apply IH; [by apply scrape_step_ok| |done]. clear IH. destruct Hl as [Hl Hst].
    destruct (decide (ev = Stop)) as [->|Hev].
    - destruct Hs as [H1 H2]. cbn. split; [|done]. unfold loops in *. cbn.
      assert (length (drop (timer s) (live s)) ≤ length (live s))%nat by (destruct (timer s); cbn; [apply List.filter_length_le|done]). lia.
    - destruct (step_loops ev s Hs Hev) as (S1 & S2 & S3). destruct (started s) eqn:Es.
      + destruct (S1 eq_refl) as [E1 E2]. rewrite E1. split; [done|]. intros _. by apply Hst.
      + destruct (decide (ev = Start)) as [->|Hne].
        * destruct (S3 eq_refl eq_refl) as [E1 E2]. rewrite E1. destruct Hq as [|Hq]; [done|]. rewrite Hq. split; [lia|done].
        * destruct (S2 eq_refl Hne) as [E1 E2]. split; [lia|]. by rewrite E2. }
  intros Hq. apply H; [split; constructor|split; [cbn; lia|done]|done].
Qed.

(** Started again while a scrape is in flight, the scraper has two loops; the
    next [Stop] clears one timer, and the other makes a pool that is never
    ended. *)
Example restart_doubles_loops :
  let two := run [Start; Stop; Start; ScrapeDone] idle in
  loops two = 2%nat ∧ live two = [1%nat; 0%nat] ∧
  let after := run [Stop; Fire 0; ScrapeDone] two in started after = false ∧ loops after = 0%nat ∧ pools after = [1%nat].
Proof. vm_compute. done. Qed.

Lemma single_loop_witness :
  let s := run [Start; ScrapeDone; Fire 0; Stop; ScrapeDone; Start] idle in (loops s ≤ 1)%nat ∧ (started s = true → loops s = 1%nat).
Proof. apply single_loop. vm_compute. repeat split; auto. Defined.
End PgBouncer.
