(* ===== verification/Tracing.v ===== *)
(** * Traces and logs: [src/tracing/], [src/utils/logger.ts] and
    [src/middleware/requestLogger.ts].

    [Sampler] decides which traces are kept, [Redaction] what of spans and
    log records leaves the process. *)

From S2P Require Import Prelude Doubles Numeric Hashing JsString Words Collections.
From S2P Require Import SecretLoader.

(** ** The sampler of traces: [src/tracing/sampler.ts].

    Draws are numbers from zero up to one; [Number] and [JSON.parse] are
    arguments.  The counter of decisions is left out. *)
Module Sampler.
#[local] Open Scope Z_scope.

Record RouteRule := { route : string; rate : double }.
Record SamplerConfig := { defaultRate : double; hotRoutes : list RouteRule; rareRoutes : list RouteRule }.

Definition valid_rate (n : double) : bool := isFinite n && negb (n <? zero)%double && negb (of_Z 1 <? n)%double.

Inductive config_error := BadRate | BadJson | NotArray | BadItem (i : nat) | BadItemRate (i : nat).

Section Parsing.
Context (Number : string → double) (JSON_parse : string → option json).

Definition parseRate (raw : option string) (defaultValue : double) : result config_error double :=
  match raw with
  | None => Ok defaultValue
  | Some r => if is_empty (trim r) then Ok defaultValue
              else let n := Number (trim r) in if valid_rate n then Ok n else Err BadRate
  end.

Fixpoint parse_items (i : nat) (l : list json) : result config_error (list RouteRule) :=
  match l with
  | [] => Ok []
  | JObj fields :: l =>
      match map_get "route" fields, map_get "rate" fields with
      | Some (JStr r), Some (JNum n) =>
          if valid_rate n
          then match parse_items (S i) l with Ok rules => Ok ({| route := r; rate := n |} :: rules) | Err e => Err e end
          else Err (BadItemRate i)
      | _, _ => Err (BadItem i)
      end
  | _ :: _ => Err (BadItem i)
  end.

Definition parseRouteRules (raw : option string) : result config_error (list RouteRule) :=
  match raw with
  | None => Ok []
  | Some r =>
      if is_empty (trim r) then Ok []
      else match JSON_parse r with None => Err BadJson | Some (JArr l) => parse_items 0 l | Some _ => Err NotArray end
  end.

Definition loadSamplerConfig (env : list (string * string)) : result config_error SamplerConfig :=
  match parseRate (map_get "OTEL_SAMPLING_DEFAULT_RATE" env) (of_Z 1), parseRouteRules (map_get "OTEL_SAMPLING_HOT_ROUTES" env),
        parseRouteRules (map_get "OTEL_SAMPLING_RARE_ROUTES" env) with
  | Ok d, Ok h, Ok r => Ok {| defaultRate := d; hotRoutes := h; rareRoutes := r |}
  | Err e, _, _ | _, Err e, _ | _, _, Err e => Err e
  end.
End Parsing.

(** ** Matching *)

Definition startsWith (s p : string) : bool := match strip_prefix p s with Some _ => true | None => false end.

Definition better (r : string) (best : option RouteRule) (rule : RouteRule) : option RouteRule :=
  if startsWith r (route rule)
  then match best with
       | Some b => if (String.length (route b) <? String.length (route rule))%nat then Some rule else best
       | None => Some rule
       end
  else best.

Definition matchRule (r : string) (rules : list RouteRule) : option RouteRule := fold_left (better r) rules None.

Inductive rule_type := rare | hot | by_default.

Definition resolveRate (c : SamplerConfig) (r : string) : double * rule_type :=
  match matchRule r (rareRoutes c) with
  | Some m => (rate m, rare)
  | None => match matchRule r (hotRoutes c) with Some m => (rate m, hot) | None => (defaultRate c, by_default) end
  end.

(** The attributes that count. *)
Definition shouldSample (c : SamplerConfig) (http_route http_target : option string) (draw : double) : bool :=
  let r := default EmptyString (match http_route with Some x => Some x | None => http_target end) in
  let '(rt, _) := resolveRate c r in
  (of_Z 1 <=? rt)%double || ((zero <? rt)%double && (draw <? rt)%double).

(** ** Properties *)

Lemma better_spec r rules best :
  match fold_left (better r) rules best with
  | None => best = None ∧ Forall (λ x, startsWith r (route x) = false) rules
  | Some m =>
      (Some m = best ∨ (m ∈ rules ∧ startsWith r (route m) = true)) ∧
      Forall (λ x, startsWith r (route x) = true → (String.length (route x) ≤ String.length (route m))%nat) rules ∧
      (∀ b, best = Some b → (String.length (route b) ≤ String.length (route m))%nat)
  end.
Proof.
  revert best. induction rules as [|x rules IH]; intros best; cbn [fold_left].
  - destruct best as [b|]; [|done]. split_and!; [by left|constructor|by intros b' [= ->]].
  - specialize (IH (better r best x)). destruct (fold_left _ rules _) as [m|].
    + destruct IH as (Hin & Hall & Hb). unfold better in Hin, Hb. split_and!.
      * destruct (startsWith r (route x)) eqn:E; [|destruct Hin as [?|[? ?]]; [by left|right; split; [by right|done]]].
        destruct best as [b|].
        -- destruct (_ <? _)%nat; (destruct Hin as [[= ->]|[? ?]]; [|right; split; [by right|done]]); [right; split; [by left|done]|by left].
        -- destruct Hin as [[= ->]|[? ?]]; right; (split; [|done]); [by left|by right].
      * constructor; [|done]. intros E. rewrite E in Hb. destruct best as [b|]; [|by apply Hb].
        destruct (Nat.ltb_spec (String.length (route b)) (String.length (route x))); [by apply Hb|]. specialize (Hb b eq_refl). lia.
      * intros b ->. destruct (startsWith r (route x)); [|by apply Hb].
        destruct (Nat.ltb_spec (String.length (route b)) (String.length (route x))); [specialize (Hb x eq_refl); lia|by apply Hb].
    + destruct IH as [Hn Hall]. unfold better in Hn. destruct (startsWith r (route x)) eqn:E; [destruct best as [b|]; [by destruct (_ <? _)%nat|done]|].
      split; [done|by constructor].
Qed.

(** The rule that matches is one with the longest prefix of the route, and
    there is none only when no rule's prefix matches. *)
Theorem longest_prefix_matches r rules :
  match matchRule r rules with
  | Some m => m ∈ rules ∧ startsWith r (route m) = true ∧
              ∀ x, x ∈ rules → startsWith r (route x) = true → (String.length (route x) ≤ String.length (route m))%nat
  | None => ∀ x, x ∈ rules → startsWith r (route x) = false
  end.
Proof.
  pose proof (better_spec r rules None) as H. unfold matchRule. destruct (fold_left _ _ _) as [m|].
  - destruct H as ([?|[Hin Hm]] & Hall & _); [done|]. split_and!; [done..|]. intros x Hx. by apply (proj1 (Forall_forall _ _) Hall x Hx).
  - destruct H as [_ Hall]. intros x Hx. apply (proj1 (Forall_forall _ _) Hall x Hx).
Qed.

Definition valid_config (c : SamplerConfig) : Prop :=
  valid_rate (defaultRate c) = true ∧ Forall (λ x, valid_rate (rate x) = true) (hotRoutes c ++ rareRoutes c).

Lemma parse_items_valid i l rules : parse_items i l = Ok rules → Forall (λ x, valid_rate (rate x) = true) rules.
Proof.
  revert i rules. induction l as [|j l IH]; intros i rules; cbn; [by intros [= <-]|]. destruct j as [| | | | |fields]; try done.
  destruct (map_get "route" fields) as [[]|], (map_get "rate" fields) as [[]|]; try done. destruct (valid_rate _) eqn:E; [|done].
  destruct (parse_items (S i) l) eqn:El; [|done]. intros [= <-]. constructor; [done|by eapply IH].
Qed.

Lemma parse_rules_valid JSON_parse raw rules : parseRouteRules JSON_parse raw = Ok rules → Forall (λ x, valid_rate (rate x) = true) rules.
Proof.
  unfold parseRouteRules. destruct raw as [r|]; [|by intros [= <-]]. destruct (is_empty _); [by intros [= <-]|].
  destruct (JSON_parse r) as [[]|]; try done. apply parse_items_valid.
Qed.

Lemma resolved_rate_valid c r : valid_config c → valid_rate (resolveRate c r).1 = true.
Proof.
  intros [Hd Hr]. unfold resolveRate. pose proof (longest_prefix_matches r (rareRoutes c)) as Hrare. pose proof (longest_prefix_matches r (hotRoutes c)) as Hhot.
  destruct (matchRule r (rareRoutes c)) as [m|].
  - destruct Hrare as [Hin _]. apply (proj1 (Forall_forall _ _) Hr m). apply elem_of_app. by right.
  - destruct (matchRule r (hotRoutes c)) as [m|]; [|done]. destruct Hhot as [Hin _]. apply (proj1 (Forall_forall _ _) Hr m). apply elem_of_app. by left.
Qed.

(** A configuration that loads has rates between zero and one, and decides
    by comparing the draw with the rate of the route: a rate of one samples
    every draw below one, a rate of zero none. *)
Theorem loaded_sampler_decides Number JSON_parse env c http_route http_target draw :
  loadSamplerConfig Number JSON_parse env = Ok c → (zero <=? draw)%double = true → (draw <? of_Z 1)%double = true →
  let r := default EmptyString (match http_route with Some x => Some x | None => http_target end) in
  valid_rate (resolveRate c r).1 = true ∧ shouldSample c http_route http_target draw = (draw <? (resolveRate c r).1)%double.
Proof.
  intros Hc H0 H1 r. assert (valid_config c) as Hv.
  { unfold loadSamplerConfig in Hc. destruct (parseRate _ _ _) as [d|] eqn:Ed; [|done].
    destruct (parseRouteRules JSON_parse (map_get "OTEL_SAMPLING_HOT_ROUTES" env)) as [h|] eqn:Eh; [|done].
    destruct (parseRouteRules JSON_parse (map_get "OTEL_SAMPLING_RARE_ROUTES" env)) as [ra|] eqn:Er; [|done]. injection Hc as <-.
    split; cbn; [|apply Forall_app; split; by eapply parse_rules_valid].
    unfold parseRate in Ed. destruct (map_get _ env) as [s|]; [|by injection Ed as <-]. destruct (is_empty _); [by injection Ed as <-|].
    destruct (valid_rate _) eqn:E; [|done]. injection Ed as <-. done. }
  pose proof (resolved_rate_valid c r Hv) as Hr. split; [done|]. unfold shouldSample. fold r. destruct (resolveRate c r) as [rt ty]. cbn [fst] in *.
  destruct (of_Z 1 <=? rt)%double eqn:E1; [symmetry; by eapply lt_le_trans|]. cbn. destruct (zero <? rt)%double eqn:E0; [done|].
  symmetry. apply not_true_iff_false. intros Hlt. apply not_true_iff_false in E0. apply E0. by eapply le_lt_trans.
Qed.

(** ** Concrete rules *)

Definition no_number (s : string) : double := of_Z 1.
Definition no_json (s : string) : option json := None.

(** A rare rule wins over a longer hot one. *)
Example rare_wins_over_longer_hot :
  resolveRate {| defaultRate := of_Z 1; hotRoutes := [{| route := "/api/v1/health"; rate := zero |}]; rareRoutes := [{| route := "/api"; rate := of_Z 1 |}] |}
    "/api/v1/health" = (of_Z 1, rare).
Proof. reflexivity. Qed.

(** Prefixes are texts, not path segments. *)
Example prefixes_are_texts :
  match matchRule "/healthcare" [{| route := "/health"; rate := zero |}] with Some m => route m = "/health" | None => False end.
Proof. reflexivity. Qed.

Lemma loaded_sampler_decides_witness :
  match loadSamplerConfig no_number no_json [] with
  | Ok c => shouldSample c None None (literal 1 2) = true
  | Err _ => False
  end.
Proof.
  cbn [loadSamplerConfig map_get parseRate parseRouteRules].
  rewrite (proj2 (loaded_sampler_decides no_number no_json [] {| defaultRate := of_Z 1; hotRoutes := []; rareRoutes := [] |} None None (literal 1 2)
    eq_refl ltac:(vm_compute; reflexivity) ltac:(vm_compute; reflexivity))).
  vm_compute. reflexivity.
Defined.
End Sampler.

(** ** Redaction of spans and logs: [src/tracing/sanitizer.ts],
    [src/utils/logger.ts] and the identifiers of
    [src/middleware/requestLogger.ts]

    Values are trees; [JSON.parse] is an argument.  Names of members are
    distinct from [__proto__], and their order is kept. *)
Module Redaction.
#[local] Open Scope Z_scope.
#[local] Set Warnings "-register-all".

(** ** Values *)

(** [Other] is a number, a boolean or anything else without members. *)
Inductive value :=
| Null
| Other (text : string)
| Str (s : string)
| Arr (l : list value)
| Obj (kvs : list (string * value))
| ErrorValue (name message : string) (stack : option string)
| DateValue (text : string).

Section ValueInd.
Variable P : value → Prop.
Hypothesis null_case : P Null.
Hypothesis other_case : ∀ t, P (Other t).
Hypothesis str_case : ∀ s, P (Str s).
Hypothesis arr_case : ∀ l, Forall P l → P (Arr l).
Hypothesis obj_case : ∀ kvs, Forall (λ kv, P kv.2) kvs → P (Obj kvs).
Hypothesis error_case : ∀ n m s, P (ErrorValue n m s).
Hypothesis date_case : ∀ t, P (DateValue t).

Fixpoint value_tree_ind (v : value) : P v :=
  match v with
  | Null => null_case
  | Other t => other_case t
  | Str s => str_case s
  | Arr l => arr_case l ((fix all l := match l return Forall P l with [] => Forall_nil_2 _ | x :: l => Forall_cons_2 _ _ _ (value_tree_ind x) (all l) end) l)
  | Obj kvs =>
      obj_case kvs ((fix all l := match l return Forall (λ kv, P kv.2) l with [] => Forall_nil_2 _ | x :: l => Forall_cons_2 _ _ _ (value_tree_ind x.2) (all l) end) kvs)
  | ErrorValue n m s => error_case n m s
  | DateValue t => date_case t
  end.
End ValueInd.

Definition REDACTED : value := Str "[REDACTED]".

(** ** Walking a value

    Both sanitizers replace the members whose name is hidden, and go down the
    others; they differ in the names and in what they do to leaves. *)
Section Walk.
Context (hide : string → bool) (text : string → string) (leaf : value → value).

Fixpoint walk (v : value) : value :=
  match v with
  | Null => Null
  | Other t => Other t
  | Str s => Str (text s)
  | Arr l => Arr (map walk l)
  | Obj kvs => Obj (map (λ kv, (kv.1, if hide kv.1 then REDACTED else walk kv.2)) kvs)
  | ErrorValue _ _ _ | DateValue _ => leaf v
  end.

Definition walk_members (kvs : list (string * value)) : list (string * value) := map (λ kv, (kv.1, if hide kv.1 then REDACTED else walk kv.2)) kvs.

(** A value whose hidden members are redacted, at any depth. *)
Inductive clean : value → Prop :=
| clean_null : clean Null
| clean_other t : clean (Other t)
| clean_str s : clean (Str s)
| clean_date t : clean (DateValue t)
| clean_arr l : Forall clean l → clean (Arr l)
| clean_obj kvs : Forall (λ kv, (hide kv.1 = true ∧ kv.2 = REDACTED) ∨ (hide kv.1 = false ∧ clean kv.2)) kvs → clean (Obj kvs).

(** Values that differ in hidden members only. *)
Inductive same_public : value → value → Prop :=
| same_refl v : same_public v v
| same_arr l l' : Forall2 same_public l l' → same_public (Arr l) (Arr l')
| same_obj kvs kvs' : Forall2 (λ kv kv', kv.1 = kv'.1 ∧ (hide kv.1 = true ∨ same_public kv.2 kv'.2)) kvs kvs' → same_public (Obj kvs) (Obj kvs').

Hypothesis leaf_clean : ∀ v, clean (leaf v).

Lemma walk_clean v : clean (walk v).
Proof.
  induction v using value_tree_ind; cbn; try constructor; try apply leaf_clean.
  - rewrite Forall_map. done.
  - rewrite Forall_map. eapply Forall_impl; [done|]. intros [k w] Hw. cbn in *. destruct (hide k); [by left|by right].
Qed.

(** What is hidden does not matter. *)
Lemma walk_hides v : ∀ v', same_public v v' → walk v = walk v'.
Proof.
  induction v using value_tree_ind; intros v' Hs; inversion Hs as [|l1 l2 Hl|l1 l2 Hl]; subst; try done; cbn; f_equal.
  - clear Hs. revert l2 Hl. induction H as [|x l Hx _ IH]; intros l2 Hl; inversion Hl; subst; [done|]. cbn. f_equal; auto.
  - clear Hs. revert l2 Hl. induction H as [|[k w] l Hw _ IH]; intros l2 Hl; inversion Hl as [|? [k' w'] ? ? [Hk Hh]]; subst; [done|].
    cbn in *. subst k'. f_equal; [|auto]. destruct (hide k) eqn:E; [done|]. destruct Hh as [|Hh]; [done|]. by rewrite (Hw _ Hh).
Qed.

(** A clean value whose texts are already rewritten stays as it is. *)
Context (text_ok : string → Prop).
Hypothesis text_makes_ok : ∀ s, text_ok (text s).
Hypothesis text_keeps_ok : ∀ s, text_ok s → text s = s.

Inductive settled_text : value → Prop :=
| text_null : settled_text Null
| text_other t : settled_text (Other t)
| text_str s : text_ok s → settled_text (Str s)
| text_date t : leaf (DateValue t) = DateValue t → settled_text (DateValue t)
| text_arr l : Forall settled_text l → settled_text (Arr l)
| text_obj kvs : Forall (λ kv, settled_text kv.2) kvs → settled_text (Obj kvs).

Lemma walk_clean_id v : clean v → settled_text v → walk v = v.
Proof.
  induction v using value_tree_ind; intros Hc Ht; inversion Hc; inversion Ht; subst; try done; cbn; f_equal.
  - by apply text_keeps_ok.
  - rewrite <- (map_id l) at 2. apply map_ext_in. intros x Hx%list_elem_of_In. rewrite Forall_forall in *. naive_solver.
  - rewrite <- (map_id kvs) at 2. apply map_ext_in. intros [k w] Hx%list_elem_of_In.
    match goal with H : Forall (λ kv, _ ∨ _) _ |- _ => rename H into Hh end.
    rewrite Forall_forall in *. specialize (Hh _ Hx). cbn in *. destruct Hh as [[-> ->]|[-> Hh]]; [done|]. f_equal.
    match goal with H : ∀ x, x ∈ kvs → clean x.2 → _ |- _ => apply (H _ Hx Hh) end. naive_solver.
Qed.

Hypothesis redacted_settled : text_ok "[REDACTED]".
Hypothesis leaf_settled : ∀ v, settled_text (leaf v).

Lemma walk_settled v : settled_text (walk v).
Proof.
  induction v using value_tree_ind; cbn; try constructor; try apply leaf_settled; try done.
  - by rewrite Forall_map.
  - rewrite Forall_map. eapply Forall_impl; [done|]. intros [k w] Hw. cbn in *. destruct (hide k); [by constructor|done].
Qed.

Lemma walk_idem v : walk (walk v) = walk v.
Proof. apply walk_clean_id; [apply walk_clean|apply walk_settled]. Qed.
End Walk.

(** ** Spans *)

Definition DENYLIST : list string :=
  ["user.email"; "email"; "enduser.email"; "http.request.header.authorization"; "http.response.header.set-cookie"; "token"; "access_token"; "refresh_token";
   "api_key"; "apikey"; "secret"; "password"; "reset_token"; "code"; "revenue"; "revenue_amount"; "amount"; "gross_revenue"; "net_revenue";
   "transaction_amount"; "user.id"; "user_id"; "account_id"; "customer_id"; "jwt"; "bearer"; "x-api-key"; "x-auth-token"].

Definition isDenylisted (key : string) : bool := includes (to_lower key) DENYLIST.

(** Errors and dates have no members of their own. *)
Definition span_leaf (v : value) : value := Obj [].
Definition redactValue : value → value := walk isDenylisted (λ s, s) span_leaf.

Abbreviation Attributes := (list (string * value)).
Definition sanitizeAttributes (attrs : option Attributes) : option Attributes := walk_members isDenylisted (λ s, s) span_leaf <$> attrs.

Record SpanPart := { part_name : string; part_attributes : option Attributes }.
Record ReadableSpan := { span_name : string; attributes : option Attributes; events : list SpanPart; links : list SpanPart }.

Definition sanitize_part (p : SpanPart) : SpanPart := {| part_name := part_name p; part_attributes := sanitizeAttributes (part_attributes p) |}.
Definition sanitizeSpan (span : ReadableSpan) : ReadableSpan :=
  {| span_name := span_name span; attributes := Some (default [] (sanitizeAttributes (attributes span)));
     events := map sanitize_part (events span); links := map sanitize_part (links span) |}.

(** [export]: what the wrapped exporter is given. *)
Definition export_spans (spans : list ReadableSpan) : list ReadableSpan := map sanitizeSpan spans.

(** ** Logs *)

Definition SENSITIVE_LOG_FIELDS : list string :=
  ["authorization"; "cookie"; "set-cookie"; "password"; "passwordhash"; "token"; "accesstoken"; "access_token"; "refreshtoken"; "refresh_token";
   "resettoken"; "reset_token"; "resetlink"; "secret"; "apikey"; "api_key"; "x-api-key"; "x-auth-token"; "email"].

Definition field_char (c : ascii) : bool := in_range 97 122 c || is_digit c || Ascii.eqb c "_" || Ascii.eqb c "-".
Fixpoint keep_chars (p : ascii → bool) (s : string) : string :=
  match s with EmptyString => EmptyString | String c r => if p c then String c (keep_chars p r) else keep_chars p r end.
Definition normalizeFieldName (key : string) : string := keep_chars field_char (to_lower key).
Definition sensitive (key : string) : bool := nonempty key && includes (normalizeFieldName key) SENSITIVE_LOG_FIELDS.

Definition is_control (c : ascii) : bool := (nat_of_ascii c <? 32)%nat || (nat_of_ascii c =? 127)%nat.
(** [replace(/[\r\n\t\u0000-\u001f\u007f]+/g, " ")] *)
Fixpoint sanitizeString (s : string) : string :=
  match s with
  | EmptyString => EmptyString
  | String c r =>
      if is_control c then match r with String d _ => if is_control d then sanitizeString r else String " " (sanitizeString r) | EmptyString => " " end
      else String c (sanitizeString r)
  end.

Definition undefined : value := Other "undefined".
Definition log_leaf (v : value) : value :=
  match v with
  | ErrorValue n m st =>
      Obj [("name", Str (sanitizeString n)); ("message", Str (sanitizeString m));
           ("stack", match st with Some (String _ _ as t) => Str (sanitizeString t) | _ => undefined end)]
  | DateValue t => DateValue t
  | _ => undefined
  end.

(** [sanitizeLogValue(value)], and with a name. *)
Definition sanitizeLogValue : value → value := walk sensitive sanitizeString log_leaf.
Definition sanitizeLogValue_at (key : string) (v : value) : value := if sensitive key then REDACTED else sanitizeLogValue v.
Definition sanitize_context (c : Attributes) : Attributes := walk_members sensitive sanitizeString log_leaf c.

Definition assign (target source : Attributes) : Attributes := fold_left (λ m kv, map_set kv.1 kv.2 m) source target.

Section LogEntry.
Context (JSON_parse : string → option value) (show : value → string).

(** One argument of a call: what it adds to the context or the messages. *)
Definition log_arg (acc : Attributes * list string) (arg : option value) : Attributes * list string :=
  match arg with
  | None => acc
  | Some (Str s) => match JSON_parse s with Some (Obj kvs) => (assign acc.1 kvs, acc.2) | _ => (acc.1, acc.2 ++ [s]) end
  | Some (Obj kvs) => (assign acc.1 kvs, acc.2)
  | Some (ErrorValue n m st) =>
      (map_set "err" (Obj [("name", Str n); ("message", Str m); ("stack", match st with Some t => Str t | None => undefined end)]) acc.1, acc.2)
  | Some v => (acc.1, acc.2 ++ [show v])
  end.
Definition normalizeLogArgs (args : list (option value)) : Attributes * option string :=
  let '(context, messages) := fold_left log_arg args ([], []) in (context, match messages with [] => None | _ => Some (join " " messages) end).

Definition message_member (message : option string) : Attributes :=
  match message with Some (String _ _ as m) => [("message", Str (sanitizeString m))] | _ => [] end.

(** [buildLogEntry], with the scope's context, the active span's identifiers
    and the time. *)
Definition buildLogEntry (scope trace : Attributes) (timestamp level : string) (args : list (option value)) : Attributes :=
  let '(context, message) := normalizeLogArgs args in
  assign (assign (assign (assign (assign [] (sanitize_context scope)) trace) (sanitize_context context)) (message_member message))
    [("timestamp", Str timestamp); ("level", Str level)].

(** [runWithLoggerContext]: the context inside. *)
Definition merge_context (current new : Attributes) : Attributes := assign (assign [] current) (sanitize_context new).
End LogEntry.

(** ** Identifiers and queries of requests *)

Definition correlation_char (c : ascii) : bool :=
  in_range 65 90 c || in_range 97 122 c || is_digit c || includes (String c EmptyString) ["."; "_"; ":"; "/"; "="; "@"; "-"].

(** A header: absent, one value, or several. *)
Definition sanitizeCorrelationId (header : list string) : option string :=
  match header with
  | [] => None
  | candidate :: _ =>
      let t := trim candidate in
      if (8 <=? String.length t)%nat && (String.length t <=? 128)%nat && string_forallb correlation_char t then Some t else None
  end.

Definition correlation_id (x_correlation_id x_request_id : list string) (randomUUID : string) : string :=
  match sanitizeCorrelationId x_correlation_id with
  | Some id => id
  | None => default randomUUID (sanitizeCorrelationId x_request_id)
  end.

Definition REDACTED_QUERY_PARAMS : list string := ["token"; "access_token"; "refresh_token"; "api_key"; "apikey"; "secret"; "password"; "reset_token"; "code"].
Definition redactQuery (query : Attributes) : Attributes :=
  map (λ kv, (kv.1, if includes (to_lower kv.1) REDACTED_QUERY_PARAMS then REDACTED else kv.2)) query.

(** ** Properties of spans *)

Lemma span_leaf_clean v : clean isDenylisted (span_leaf v).
Proof. constructor. constructor. Qed.

Lemma members_clean hide text leaf kvs : (∀ v, clean hide (leaf v)) → clean hide (Obj (walk_members hide text leaf kvs)).
Proof. intros Hl. apply (walk_clean hide text leaf Hl (Obj kvs)). Qed.

Lemma members_hide hide text leaf kvs kvs' : same_public hide (Obj kvs) (Obj kvs') → walk_members hide text leaf kvs = walk_members hide text leaf kvs'.
Proof. intros H. pose proof (walk_hides hide text leaf _ _ H) as E. by injection E. Qed.

Definition same_attributes (a b : option Attributes) : Prop :=
  match a, b with Some x, Some y => same_public isDenylisted (Obj x) (Obj y) | None, None => True | _, _ => False end.
Definition same_part (p q : SpanPart) : Prop := part_name p = part_name q ∧ same_attributes (part_attributes p) (part_attributes q).
Definition same_span (s t : ReadableSpan) : Prop :=
  span_name s = span_name t ∧ same_attributes (attributes s) (attributes t) ∧ Forall2 same_part (events s) (events t) ∧ Forall2 same_part (links s) (links t).

Definition attributes_clean (a : option Attributes) : Prop := match a with Some kvs => clean isDenylisted (Obj kvs) | None => True end.
Definition span_clean (s : ReadableSpan) : Prop :=
  attributes_clean (attributes s) ∧ Forall (λ p, attributes_clean (part_attributes p)) (events s ++ links s).

Lemma attributes_hide a b : same_attributes a b → sanitizeAttributes a = sanitizeAttributes b.
Proof. destruct a as [x|], b as [y|]; try done. cbn. intros H. unfold sanitizeAttributes. cbn. f_equal. by apply members_hide. Qed.

Lemma attributes_cleaned a : attributes_clean (sanitizeAttributes a).
Proof. destruct a; [|done]. apply members_clean, span_leaf_clean. Qed.

Lemma parts_hide l l' : Forall2 same_part l l' → map sanitize_part l = map sanitize_part l'.
Proof.
  induction 1 as [|p q l l' [Hn Ha] _ IH]; [done|]. cbn. rewrite IH. f_equal. unfold sanitize_part. by rewrite Hn, (attributes_hide _ _ Ha).
Qed.

(** Denylisted members, in the attributes of a span, of its events and of
    its links, at any depth, never reach the exporter: they are replaced, and
    spans that differ in them only are exported alike. *)
Theorem denylisted_never_exported spans spans' :
  Forall2 same_span spans spans' → export_spans spans = export_spans spans' ∧ Forall span_clean (export_spans spans).
Proof.
  intros H. split.
  - induction H as [|s t l l' (Hn & Ha & He & Hl) _ IH]; [done|]. cbn. f_equal; [|done]. unfold sanitizeSpan.
    by rewrite Hn, (attributes_hide _ _ Ha), (parts_hide _ _ He), (parts_hide _ _ Hl).
  - clear H. unfold export_spans. rewrite Forall_map. apply Forall_true. intros s. split.
    + cbn. pose proof (attributes_cleaned (attributes s)) as H. destruct (sanitizeAttributes _); [done|]. constructor. constructor.
    + cbn. rewrite <- map_app, Forall_map. apply Forall_true. intros p. apply attributes_cleaned.
Qed.

(** Exporting twice is exporting once. *)
Theorem export_idempotent spans : export_spans (export_spans spans) = export_spans spans.
Proof.
  assert (∀ a, sanitizeAttributes (sanitizeAttributes a) = sanitizeAttributes a) as Ha.
  { intros [kvs|]; [|done]. unfold sanitizeAttributes. cbn. f_equal.
    pose proof (walk_idem isDenylisted (λ s, s) span_leaf span_leaf_clean (λ _, True) (λ _, I) (λ _ _, eq_refl) I) as H.
    assert (∀ v, settled_text span_leaf (λ _, True) (span_leaf v)) as Hs by (intros v; constructor; constructor).
    specialize (H Hs (Obj kvs)). by injection H. }
  assert (∀ l, map sanitize_part (map sanitize_part l) = map sanitize_part l) as Hp.
  { intros l. rewrite map_map. apply map_ext. intros p. unfold sanitize_part. cbn. by rewrite Ha. }
  unfold export_spans. rewrite map_map. apply map_ext. intros s. unfold sanitizeSpan. cbn. rewrite !Hp. f_equal.
  pose proof (Ha (attributes s)) as H. destruct (sanitizeAttributes (attributes s)) as [x|]; [|done].
  exact H.
Qed.

(** ** Properties of logs *)

Definition no_control (s : string) : Prop := string_forallb (λ c, negb (is_control c)) s = true.

Lemma sanitize_no_control s : no_control (sanitizeString s).
Proof.
  unfold no_control. induction s as [|c s IH]; [done|]. cbn [sanitizeString]. destruct (is_control c) eqn:Hc.
  - destruct s as [|d r]; [done|]. destruct (is_control d); [exact IH|]. cbn. exact IH.
  - cbn [string_forallb]. by rewrite Hc.
Qed.

Lemma no_control_fixed s : no_control s → sanitizeString s = s.
Proof.
  unfold no_control. induction s as [|c s IH]; [done|]. cbn. intros [Hc%negb_true_iff Hs]%andb_true_iff. by rewrite Hc, IH.
Qed.

Lemma log_leaf_clean v : clean sensitive (log_leaf v).
Proof.
  destruct v as [| | | | |n m st|]; try (constructor; done). constructor. cbn.
  constructor; [right; split; [reflexivity|constructor]|]. constructor; [right; split; [reflexivity|constructor]|].
  constructor; [|constructor]. right. split; [reflexivity|]. destruct st as [[|]|]; constructor.
Qed.

Lemma log_leaf_settled v : settled_text log_leaf no_control (log_leaf v).
Proof.
  destruct v as [| | | | |n m st|]; try (constructor; done). constructor.
  constructor; [constructor; apply sanitize_no_control|]. constructor; [constructor; apply sanitize_no_control|].
  constructor; [|constructor]. destruct st as [[|]|]; constructor. apply sanitize_no_control.
Qed.

(** What a member of an entry may be. *)
Definition member_ok (kv : string * value) : Prop :=
  if sensitive kv.1 then kv.2 = REDACTED else clean sensitive kv.2 ∧ settled_text log_leaf no_control kv.2.

Lemma context_ok c : Forall member_ok (sanitize_context c).
Proof.
  unfold sanitize_context, walk_members. rewrite Forall_map. apply Forall_true. intros [k v]. unfold member_ok. cbn [fst snd].
  destruct (sensitive k); [done|]. split; [apply walk_clean, log_leaf_clean|].
  apply walk_settled; [apply sanitize_no_control|done|apply log_leaf_settled].
Qed.

Lemma assign_ok target source : Forall member_ok target → Forall member_ok source → Forall member_ok (assign target source).
Proof.
  unfold assign. intros Ht Hs. revert target Ht. induction Hs as [|[k v] l Hv _ IH]; intros target Ht; [done|]. cbn. apply IH. clear IH.
  induction Ht as [|[k' v'] m Hm Ht IH]; [by constructor|]. cbn. destruct (String.eqb k k'); by constructor.
Qed.

(** A log entry keeps secrets and stays on its line: whatever is logged,
    members with a sensitive name are redacted at any depth, and no text in
    it, but the names of members, has a control character. *)
Theorem log_entry_safe JSON_parse show scope trace timestamp level args :
  Forall member_ok trace → no_control timestamp → no_control level →
  Forall member_ok (buildLogEntry JSON_parse show scope trace timestamp level args).
Proof.
  intros Ht Hs Hl. unfold buildLogEntry. destruct (normalizeLogArgs _ _ _) as [context message].
  assert (∀ k s, sensitive k = false → no_control s → member_ok (k, Str s)) as Hm.
  { intros k s Hk Hc. unfold member_ok. cbn. rewrite Hk. by split; constructor. }
  repeat apply assign_ok; try apply context_ok; [constructor|done| |].
  - destruct message as [[|c m]|]; [constructor| |constructor]. constructor; [|constructor].
    apply (Hm "message"); [vm_compute; reflexivity|apply sanitize_no_control].
  - constructor; [apply (Hm "timestamp"); [vm_compute; reflexivity|exact Hs]|].
    constructor; [apply (Hm "level"); [vm_compute; reflexivity|exact Hl]|constructor].
Qed.

(** Contexts that differ in sensitive members only are logged alike. *)
Theorem sensitive_context_hidden c c' : same_public sensitive (Obj c) (Obj c') → sanitize_context c = sanitize_context c'.
Proof. apply members_hide. Qed.

(** ** Properties of requests *)

(** The identifier that is logged and sent back has 8 to 128 letters, digits
    and harmless signs, or is the generated one: no header can be split
    with it. *)
Theorem correlation_id_bounds xc xr uuid :
  let id := correlation_id xc xr uuid in
  id = uuid ∨ (8 ≤ String.length id ≤ 128)%nat ∧ string_forallb correlation_char id = true ∧ no_control id.
Proof.
  assert (∀ h id, sanitizeCorrelationId h = Some id → (8 ≤ String.length id ≤ 128)%nat ∧ string_forallb correlation_char id = true ∧ no_control id) as H.
  { intros [|c h] id; [done|]. unfold sanitizeCorrelationId. destruct (Nat.leb_spec 8 (String.length (trim c))); [|done].
    destruct (Nat.leb_spec (String.length (trim c)) 128); [|done]. destruct (string_forallb _ _) eqn:E; [|done]. intros [= <-].
    split_and!; [done|done|done|]. eapply string_forallb_impl; [|exact E]. intros d. by destruct d as [[] [] [] [] [] [] [] []]. }
  unfold correlation_id. destruct (sanitizeCorrelationId xc) as [id|] eqn:E; [right; eauto|].
  destruct (sanitizeCorrelationId xr) as [id|] eqn:E'; [right; cbn; eauto|by left].
Qed.

(** ** Examples and witnesses *)

Definition span_of (token : string) : ReadableSpan :=
  {| span_name := "GET"; attributes := Some [("http.method", Str "GET"); ("body", Obj [("Token", Str token); ("list", Arr [Obj [("password", Str token)]])])];
     events := [{| part_name := "login"; part_attributes := Some [("jwt", Str token)] |}]; links := [{| part_name := "parent"; part_attributes := None |}] |}.

Example span_sanitized :
  attributes (sanitizeSpan (span_of "s3cret")) = Some [("http.method", Str "GET"); ("body", Obj [("Token", REDACTED); ("list", Arr [Obj [("password", REDACTED)]])])].
Proof. reflexivity. Qed.

(** Names are compared whole, so what the logs hide the spans may show; and
    values are not looked at. *)
Example span_shows_access_token :
  isDenylisted "accessToken" = false ∧ sensitive "accessToken" = true ∧ redactValue (Str "Bearer abc, me@example.com") = Str "Bearer abc, me@example.com".
Proof. done. Qed.

Definition line_break : string := String (ascii_of_nat 13) (String (ascii_of_nat 10) EmptyString).
Example strings_sanitized : sanitizeString ("a" +:+ line_break +:+ "b") = "a b".
Proof. reflexivity. Qed.

Definition toy_parse (s : string) : option value := if String.eqb s "{json}" then Some (Obj [("email", Str "me@example.com"); ("n", Other "1")]) else None.

Example entry_built :
  buildLogEntry toy_parse (λ _, "?") [("correlationId", Str "c")] [] "now" "info" [Some (Str "hello"); Some (Str "{json}"); None; Some (Str line_break)]
  = [("correlationId", Str "c"); ("email", REDACTED); ("n", Other "1"); ("message", Str "hello  "); ("timestamp", Str "now"); ("level", Str "info")].
Proof. vm_compute. reflexivity. Qed.

(** A secret in a message is written as it is. *)
Example message_shows_secret : message_member (Some "token=abc") = [("message", Str "token=abc")].
Proof. reflexivity. Qed.

Lemma span_of_alike t t' : same_span (span_of t) (span_of t').
Proof.
  split; [done|]. split; [|split].
  - cbn. constructor. constructor; [split; [done|right; constructor]|]. constructor; [|constructor]. split; [done|]. right. cbn.
    constructor. constructor; [split; [done|by left]|]. constructor; [|constructor]. split; [done|]. right. cbn.
    constructor. constructor; [|constructor]. constructor. constructor; [|constructor]. split; [done|by left].
  - constructor; [|constructor]. split; [done|]. cbn. constructor. constructor; [|constructor]. split; [done|by left].
  - constructor; [|constructor]. by split.
Qed.

Lemma denylisted_never_exported_witness :
  export_spans [span_of "a"] = export_spans [span_of "b"] ∧ Forall span_clean (export_spans [span_of "a"]).
Proof. apply (denylisted_never_exported [span_of "a"] [span_of "b"]). constructor; [apply span_of_alike|constructor]. Defined.

Lemma log_entry_safe_witness :
  Forall member_ok (buildLogEntry toy_parse (λ _, "?") [] [("trace_id", Str "ab")] "now" "info" [Some (Obj [("Api_Key", Str "k")]); Some (Str line_break)]).
Proof.
  apply log_entry_safe; [|done|done]. constructor; [|constructor]. unfold member_ok. assert (sensitive "trace_id" = false) as E by (vm_compute; reflexivity).
  cbn [fst]. rewrite E. by split; constructor.
Defined.
End Redaction.
