(* ===== verification/HttpMiddleware.v ===== *)
(** * Middleware around every response: [src/middleware/apiVersion.ts],
    [errorHandler.ts] and [compression.ts].

    [ApiVersion] negotiates the version, [ErrorEnvelope] answers what handlers
    throw, [Compression] encodes bodies. *)

From S2P Require Import Prelude Numeric Hashing JsString Words Collections.
From S2P Require Regex.

(** ** API version negotiation: [src/middleware/apiVersion.ts].

    A request's signals, in order: path, two headers, query, [Accept].  The
    response carries the version and a [Vary] header merged with what was
    there. *)
Module ApiVersion.
#[local] Open Scope Z_scope.

Definition quote : ascii := ascii_of_nat 34.

Definition SUPPORTED_API_VERSIONS : list string := ["v1"].
Definition DEFAULT_API_VERSION : string := "v1".
Definition MAX_VERSION_DIGITS : nat := 3.
Definition ACCEPT_HEADER_MAX : nat := 1024.

Inductive ApiNegotiationSource := FromPath | FromXApiVersion | FromAcceptVersion | FromQuery | FromAccept | FromDefault.

(** A header of Node's [IncomingHttpHeaders], and a value of a parsed query:
    of a list only its first element is looked at, [None] if that is no
    text. *)
Inductive header := One (s : string) | Many (l : list string).
Inductive query_value := QText (s : string) | QList (l : list (option string)) | QObject.

Record request := {
  path : string; x_api_version : option header; accept_version : option header; accept : option header;
  apiVersion : option query_value; api_version : option query_value
}.

Definition text_of (h : option header) : option string := match h with Some (One s) => Some s | _ => None end.

Definition isSupportedLabel (l : string) : bool := existsb (String.eqb l) SUPPORTED_API_VERSIONS.
Definition majorToLabel (major : Z) : string := "v" +:+ show_Z major.

(** The group of [/^v?(\d+)$/i]. *)
Definition token_digits (s : string) : option string :=
  let ds := match s with String "v" r | String "V" r => r | _ => s end in
  if nonempty ds && string_forallb is_digit ds then Some ds else None.

Definition major_of (digits : string) : option Z :=
  if (MAX_VERSION_DIGITS <? String.length digits)%nat then None
  else match parse_int digits with Some n => if n <? 1 then None else Some n | None => None end.

Definition parseVersionToken (raw : option string) : option Z :=
  match raw with
  | None => None
  | Some raw =>
      let s := trim raw in
      if (String.length s =? 0)%nat || (32 <? String.length s)%nat then None else token_digits s ≫= major_of
  end.

Definition resolveMajor (major : Z) : string * bool :=
  let l := majorToLabel major in
  if isSupportedLabel l then (l, false) else (DEFAULT_API_VERSION, true).

(** A value in quotes, without them. *)
Definition unquote (v : string) : string :=
  match v with
  | String c _ =>
      if Ascii.eqb c quote then
        match strip_suffix (String quote EmptyString) v with Some (String _ r) => r | Some EmptyString => EmptyString | None => v end
      else v
  | EmptyString => v
  end.

Definition param_version (param : string) : option Z :=
  let p := to_lower (trim param) in
  match span (λ c, negb (Ascii.eqb c "=")) p with
  | (_, EmptyString) => None
  | (k, String _ v) =>
      let key := trim k in
      let val := unquote (trim v) in
      if String.eqb key "version" || String.eqb key "api-version" || String.eqb key "v" then parseVersionToken (Some val) else None
  end.

Fixpoint first_some {A B} (f : A → option B) (l : list A) : option B :=
  match l with [] => None | x :: l => match f x with Some b => Some b | None => first_some f l end end.

Definition extractVersionFromAccept (acceptHeader : option string) : option Z :=
  match acceptHeader with
  | None => None
  | Some h =>
      if (ACCEPT_HEADER_MAX <? String.length h)%nat then None
      else first_some (λ segment, first_some param_version (tl (split_on ";" segment))) (split_on "," h)
  end.

(** The group of [/^\/api\/v(\d+)/]. *)
Definition path_digits (p : string) : option string :=
  match strip_prefix "/api/v" p with
  | None => None
  | Some r => let ds := (span is_digit r).1 in if is_empty ds then None else Some ds
  end.

Definition query_text (r : request) : option string :=
  match (match apiVersion r with Some v => Some v | None => api_version r end) with
  | Some (QText s) => Some s
  | Some (QList (Some s :: _)) => Some s
  | _ => None
  end.

Record negotiated := { version : string; fallback : bool; source : ApiNegotiationSource }.

Definition resolved (major : Z) (s : ApiNegotiationSource) : negotiated :=
  let '(v, f) := resolveMajor major in {| version := v; fallback := f; source := s |}.

Definition negotiateApiVersion (r : request) : negotiated :=
  match path_digits (path r) ≫= major_of with
  | Some n => resolved n FromPath
  | None =>
  match parseVersionToken (text_of (x_api_version r)) with
  | Some n => resolved n FromXApiVersion
  | None =>
  match parseVersionToken (text_of (accept_version r)) with
  | Some n => resolved n FromAcceptVersion
  | None =>
  match parseVersionToken (query_text r) with
  | Some n => resolved n FromQuery
  | None =>
  match extractVersionFromAccept (text_of (accept r)) with
  | Some n => resolved n FromAccept
  | None => {| version := DEFAULT_API_VERSION; fallback := false; source := FromDefault |}
  end end end end end.

(** ** The response *)

(** The comma-separated tokens of a header. *)
Definition tokens (s : string) : list string := List.filter nonempty (map trim (split_on "," s)).

Definition mergeVaryHeader (current : option header) (extra : string) : option header :=
  let s := match current with Some (One s) => s | Some (Many l) => join ", " l | None => EmptyString end in
  let all := fold_left set_add (tokens extra) (fold_left set_add (tokens s) []) in
  match all with [] => current | _ => Some (One (join ", " all)) end.

Record response := { API_Version : option string; API_Version_Fallback : bool; Vary : option header }.

(** What the two middlewares leave in the request and write to the
    response; without the first one the default version is announced. *)
Definition versionResponseMiddleware (n : option negotiated) (res : response) : response :=
  {| API_Version := Some (match n with Some n => version n | None => DEFAULT_API_VERSION end);
     API_Version_Fallback := match n with Some n => fallback n | None => false end || API_Version_Fallback res;
     Vary := mergeVaryHeader (Vary res) "Accept, X-API-Version, Accept-Version" |}.

Definition apiVersionMiddleware (r : request) : option negotiated := Some (negotiateApiVersion r).

(** ** Tokens of a version *)

Lemma all_digits_prefix ds rest a :
  string_forallb is_digit ds = true → stops (λ c, match digit_val c with Some _ => true | None => false end) rest = true →
  nonempty ds = true →
  ∃ k, digits_prefix a (ds +:+ rest) = Some (default 0 a * 10 ^ Z.of_nat (String.length ds) + k) ∧ 0 ≤ k < 10 ^ Z.of_nat (String.length ds).
Proof.
  revert a. induction ds as [|c ds IH]; [done|]. intros a Hd Hr _. cbn in Hd. apply andb_true_iff in Hd as [Hc Hd].
  rewrite string_cons_app. cbn [digits_prefix String.length]. rewrite Nat2Z.inj_succ, Z.pow_succ_r by lia.
  unfold is_digit, in_range, code in Hc. unfold digit_val. rewrite Hc. apply andb_true_iff in Hc as [H1%Z.leb_le H2%Z.leb_le].
  destruct ds as [|d ds].
  - cbn [String.length]. change (EmptyString +:+ rest) with rest. change (10 ^ Z.of_nat 0) with 1.
    exists (Z.of_nat (nat_of_ascii c) - 48). split; [|lia].
    destruct rest as [|e rest]; [cbn; f_equal; lia|]. cbn in Hr |- *. destruct (digit_val e); [done|f_equal; lia].
  - destruct (IH (Some (10 * default 0 a + (Z.of_nat (nat_of_ascii c) - 48))) Hd Hr eq_refl) as (k & -> & Hk).
    set (m := 10 ^ Z.of_nat (String.length (String d ds))) in *. cbn [from_option]. unfold Datatypes.id.
    exists ((Z.of_nat (nat_of_ascii c) - 48) * m + k). split; [f_equal; lia|nia].
Qed.

Lemma parse_int_digits ds : string_forallb is_digit ds = true → parse_int ds = digits_prefix None ds.
Proof.
  destruct ds as [|c ds]; [done|]. cbn [string_forallb]. intros [Hc _]%andb_true_iff.
  destruct c as [[] [] [] [] [] [] [] []]; try done.
Qed.

Lemma major_of_spec ds n : string_forallb is_digit ds = true → nonempty ds = true →
  major_of ds = Some n ↔ (String.length ds ≤ 3)%nat ∧ digits_prefix None ds = Some n ∧ 1 ≤ n.
Proof.
  intros Hd Hn. unfold major_of, MAX_VERSION_DIGITS. rewrite parse_int_digits by done.
  destruct (Nat.ltb_spec 3 (String.length ds)); [split; [done|lia]|].
  destruct (digits_prefix None ds) as [k|]; [|split; [done|by intros (_ & ? & _)]].
  destruct (Z.ltb_spec k 1); split; [done|intros (_ & [= ->] & ?); lia|intros [= ->]; split_and!; [lia|done|done]|by intros (_ & ? & _)].
Qed.

Lemma major_bound ds n : major_of ds = Some n → string_forallb is_digit ds = true → nonempty ds = true → 1 ≤ n ≤ 999.
Proof.
  intros H Hd Hn. apply major_of_spec in H as (Hl & Hp & H1); [|done..].
  destruct (all_digits_prefix ds EmptyString None Hd eq_refl Hn) as (k & Hk & Hb). rewrite string_app_nil_r, Hp in Hk.
  injection Hk as ->. change (default 0 None) with 0 in *. rewrite Z.mul_0_l, Z.add_0_l in *.
  assert (10 ^ Z.of_nat (String.length ds) <= 10 ^ 3) by (apply Z.pow_le_mono_r; lia). lia.
Qed.

Lemma span_forall p s : string_forallb p (span p s).1 = true.
Proof.
  induction s as [|c s IH]; [done|]. cbn. destruct (p c) eqn:Hc; [|done]. destruct (span p s) as [a b]. cbn in *. by rewrite Hc, IH.
Qed.

Lemma token_bound raw n : parseVersionToken raw = Some n → 1 ≤ n ≤ 999.
Proof.
  unfold parseVersionToken. destruct raw as [raw|]; [|done]. case_if; [done|]. unfold token_digits.
  set (ds := match trim raw with String "v" r | String "V" r => r | _ => trim raw end).
  destruct (nonempty ds && string_forallb is_digit ds) eqn:E; [|done]. cbn. apply andb_true_iff in E as [? ?]. intros H'. by apply (major_bound ds).
Qed.

Lemma first_some_in {A B} (f : A → option B) l b : first_some f l = Some b → ∃ x, x ∈ l ∧ f x = Some b.
Proof.
  induction l as [|x l IH]; [done|]. cbn. destruct (f x) as [b'|] eqn:E.
  - intros [= ->]. exists x. split; [by left|done].
  - intros H. destruct (IH H) as (y & Hy & Hf). exists y. split; [by right|done].
Qed.

Lemma accept_bound h n : extractVersionFromAccept h = Some n → 1 ≤ n ≤ 999.
Proof.
  unfold extractVersionFromAccept. destruct h as [h|]; [|done]. case_if; [done|].
  intros (seg & _ & (p & _ & Hp)%first_some_in)%first_some_in. unfold param_version in Hp.
  destruct (span _ _) as [k [|c v]]; [done|]. destruct (_ || _ || _); [|done]. by apply token_bound in Hp.
Qed.

Lemma path_bound p n : path_digits p ≫= major_of = Some n → 1 ≤ n ≤ 999.
Proof.
  unfold path_digits. destruct (strip_prefix _ p) as [r|]; [|done]. pose proof (span_forall is_digit r) as Hs.
  destruct (is_empty (span is_digit r).1) eqn:E; [done|]. cbn. intros H. apply (major_bound _ _ H); [done|]. unfold nonempty. by rewrite E.
Qed.

Lemma resolve_major n : 1 ≤ n ≤ 999 → resolveMajor n = ("v1", negb (n =? 1)).
Proof.
  intros Hn. assert (Forall (λ n, resolveMajor n = ("v1", negb (n =? 1))) (seqZ 1 999)) as Hall
    by (apply (bool_decide_unpack _); vm_compute; exact I).
  rewrite Forall_forall in Hall. apply Hall, elem_of_seqZ. lia.
Qed.

(** ** Properties *)

(** The signals of a request, in the order of their precedence. *)
Definition signals (r : request) : list (option Z * ApiNegotiationSource) :=
  [(path_digits (path r) ≫= major_of, FromPath); (parseVersionToken (text_of (x_api_version r)), FromXApiVersion);
   (parseVersionToken (text_of (accept_version r)), FromAcceptVersion); (parseVersionToken (query_text r), FromQuery);
   (extractVersionFromAccept (text_of (accept r)), FromAccept)].

Lemma signal_bound r n s : (Some n, s) ∈ signals r → 1 ≤ n ≤ 999.
Proof.
  unfold signals. rewrite !elem_of_cons, elem_of_nil.
  intros [E|[E|[E|[E|[E|[]]]]]]; apply (f_equal fst) in E; symmetry in E; eauto using path_bound, token_bound, accept_bound.
Qed.

Lemma negotiate_signals r :
  negotiateApiVersion r =
  match first_some (λ '(o, s), (λ n, (n, s)) <$> o) (signals r) with
  | Some (n, s) => resolved n s
  | None => {| version := DEFAULT_API_VERSION; fallback := false; source := FromDefault |}
  end.
Proof.
  unfold negotiateApiVersion, signals. cbn [first_some].
  destruct (path_digits (path r) ≫= major_of); [done|]. cbn. destruct (parseVersionToken (text_of (x_api_version r))); [done|].
  destruct (parseVersionToken (text_of (accept_version r))); [done|]. destruct (parseVersionToken (query_text r)); [done|].
  by destruct (extractVersionFromAccept (text_of (accept r))).
Qed.

(** The version announced is always a supported one.  The downgrade is
    flagged exactly when the first signal that carries a major version carries
    another one than the deployed; without such a signal the default is
    answered unflagged. *)
Theorem negotiated_version r :
  let o := negotiateApiVersion r in
  In (version o) SUPPORTED_API_VERSIONS ∧
  match first_some (λ '(o, s), (λ n, (n, s)) <$> o) (signals r) with
  | Some (n, s) => source o = s ∧ 1 ≤ n ≤ 999 ∧ fallback o = negb (n =? 1)
  | None => source o = FromDefault ∧ fallback o = false
  end.
Proof.
  cbv zeta. rewrite negotiate_signals. destruct (first_some _ _) as [[n s]|] eqn:E; [|split; [by left|done]].
  apply first_some_in in E as ([o s'] & Hin & Ho). destruct o as [n'|]; [|done]. cbn in Ho. injection Ho as -> ->.
  pose proof (signal_bound r n s Hin) as Hb. unfold resolved. rewrite (resolve_major n Hb). cbn. split; [by left|done].
Qed.

(** A path whose major version has more than three digits, or is zero, is
    not taken as a signal: without another one the default version is answered
    and the downgrade is not flagged. *)
Theorem long_major_not_flagged r ds rest :
  path r = "/api/v" +:+ ds +:+ rest → string_forallb is_digit ds = true → stops is_digit rest = true →
  (3 < String.length ds)%nat ∨ ds = "0" →
  x_api_version r = None → accept_version r = None → apiVersion r = None → api_version r = None → accept r = None →
  negotiateApiVersion r = {| version := "v1"; fallback := false; source := FromDefault |}.
Proof.
  intros Hp Hd Hr Hds H1 H2 H3 H4 H5. unfold negotiateApiVersion, query_text. rewrite H1, H2, H3, H4, H5.
  assert (path_digits (path r) ≫= major_of = None) as ->; [|done].
  rewrite Hp. unfold path_digits. cbn [strip_prefix]. change ("/api/v" +:+ ds +:+ rest) with
    (String "/" (String "a" (String "p" (String "i" (String "/" (String "v" (ds +:+ rest))))))). cbn [strip_prefix Ascii.eqb Bool.eqb].
  rewrite (span_app is_digit ds rest) by done. cbn [fst]. destruct Hds as [Hl| ->]; [|done].
  destruct (is_empty ds); [done|]. cbn. unfold major_of, MAX_VERSION_DIGITS. by apply Nat.ltb_lt in Hl as ->.
Qed.

(** ** Tokens and the lists they come from *)

Lemma count_digits n : 1 ≤ n ≤ 999 → token_digits (show_Z n) = Some (show_Z n) ∧ token_digits (String "v" (show_Z n)) = Some (show_Z n) ∧
  major_of (show_Z n) = Some n ∧ unspaced (show_Z n) = true ∧ (1 ≤ String.length (show_Z n) ≤ 3)%nat.
Proof.
  intros Hn. assert (Forall (λ n, token_digits (show_Z n) = Some (show_Z n) ∧ token_digits (String "v" (show_Z n)) = Some (show_Z n) ∧
    major_of (show_Z n) = Some n ∧ unspaced (show_Z n) = true ∧ (1 ≤ String.length (show_Z n) ≤ 3)%nat) (seqZ 1 999)) as Hall
    by (apply (bool_decide_unpack _); vm_compute; exact I).
  rewrite Forall_forall in Hall. apply Hall, elem_of_seqZ. lia.
Qed.

(** Every major version from 1 to 999 is read back from its decimal form,
    with or without a [v], with white space around it; nothing else than 1 to
    999 is ever read. *)
Theorem version_token_roundtrip n (pre : bool) raw :
  1 ≤ n ≤ 999 → trim raw = (if pre then String "v" (show_Z n) else show_Z n) → parseVersionToken (Some raw) = Some n.
Proof.
  intros Hn Hr. destruct (count_digits n Hn) as (H1 & H2 & H3 & _ & Hl). unfold parseVersionToken. rewrite Hr.
  destruct pre; cbn [String.length].
  - destruct (Nat.ltb_spec 32 (S (String.length (show_Z n)))); [lia|]. cbn [Nat.eqb orb]. rewrite H2. exact H3.
  - destruct (Nat.ltb_spec 32 (String.length (show_Z n))); [lia|]. destruct (Nat.eqb_spec (String.length (show_Z n)) 0); [lia|].
    cbn [orb]. rewrite H1. exact H3.
Qed.

(** *** The [Vary] header *)

Definition is_token (t : string) : bool := nonempty t && lacks "," t && String.eqb (trim t) t.

Lemma tokens_are_tokens s : Forall (λ t, is_token t = true) (tokens s).
Proof.
  apply List.Forall_forall. intros t [Ht Hn]%filter_In. apply in_map_iff in Ht as (w & <- & Hw).
  pose proof (proj1 (List.Forall_forall _ _) (split_on_lacks "," s) w Hw) as Hl. unfold is_token.
  rewrite Hn, trim_idem, String.eqb_refl. unfold lacks. by rewrite (trim_forallb _ _ Hl).
Qed.

(** What a list of tokens is joined to is split back. *)
Lemma tokens_join l : Forall (λ t, is_token t = true) l → tokens (join ", " l) = l.
Proof.
  intros Hl. unfold tokens. destruct Hl as [|w l Hw Hl]; [done|].
  assert (split_on "," (join ", " (w :: l)) = w :: map (String " ") l) as ->.
  { revert w Hw. induction Hl as [|v l Hv Hl IH]; intros w Hw; unfold is_token in Hw; apply andb_true_iff in Hw as [Hw _]; apply andb_true_iff in Hw as [_ Hw].
    - by apply split_on_one.
    - change (split_on "," (w +:+ String "," (String " " (join ", " (v :: l)))) = w :: map (String " ") (v :: l)).
      rewrite split_on_app by done. f_equal. specialize (IH v Hv). cbn [split_on Ascii.eqb Bool.eqb]. by rewrite IH. }
  cbn [map]. rewrite map_map. assert (Forall (λ t, nonempty t = true ∧ trim t = t) (w :: l)) as Hf.
  { constructor; [|eapply Forall_impl; [exact Hl|]]; [|intros t]; unfold is_token in *; rewrite !andb_true_iff in *; rewrite ?String.eqb_eq in *; tauto. }
  assert (trim w :: map (λ x, trim (String " " x)) l = w :: l) as ->.
  { apply Forall_cons in Hf as [[_ ->] Hf]. f_equal. clear Hw Hl. induction Hf as [|v l [_ Hv] _ IH]; [done|]. cbn [map]. rewrite IH. f_equal. exact Hv. }
  clear Hw Hl. induction Hf as [|v l' [Hn _] _ IH]; [done|]. cbn. by rewrite Hn, IH.
Qed.

Definition header_tokens (h : option header) : list string :=
  tokens (match h with Some (One s) => s | Some (Many l) => join ", " l | None => EmptyString end).

Definition VARY : list string := ["Accept"; "X-API-Version"; "Accept-Version"].

Definition vary_tokens (h : option header) : list string := fold_left set_add VARY (fold_left set_add (header_tokens h) []).

Lemma vary_tokens_spec h : NoDup (vary_tokens h) ∧ ∀ t, t ∈ vary_tokens h ↔ t ∈ header_tokens h ∨ t ∈ VARY.
Proof.
  unfold vary_tokens. destruct (set_adds (header_tokens h) [] ltac:(constructor)) as (Hn & _ & Hin).
  destruct (set_adds VARY _ Hn) as (Hn' & _ & Hin'). split; [done|]. intros t. rewrite Hin', Hin, elem_of_nil. tauto.
Qed.

Lemma vary_after n res : Vary (versionResponseMiddleware n res) = Some (One (join ", " (vary_tokens (Vary res)))).
Proof.
  cbn [Vary versionResponseMiddleware]. unfold mergeVaryHeader. fold (header_tokens (Vary res)).
  change (tokens "Accept, X-API-Version, Accept-Version") with VARY. fold (vary_tokens (Vary res)).
  assert ("Accept" ∈ vary_tokens (Vary res)) as Ha by (apply vary_tokens_spec; right; left).
  destruct (vary_tokens (Vary res)); [by apply elem_of_nil in Ha|done].
Qed.

Lemma header_tokens_after n res : header_tokens (Vary (versionResponseMiddleware n res)) = vary_tokens (Vary res).
Proof.
  rewrite vary_after. unfold header_tokens. apply tokens_join, Forall_forall. intros t [Ha|Ha]%vary_tokens_spec.
  - exact (proj1 (Forall_forall _ _) (tokens_are_tokens _) t Ha).
  - revert t Ha. apply Forall_forall. repeat constructor.
Qed.

(** The response's [Vary] header keeps the tokens it had, has the three
    the version depends on, has none twice, and stays as it is when the
    middleware runs again. *)
Theorem vary_merged n res :
  let res' := versionResponseMiddleware n res in
  NoDup (header_tokens (Vary res')) ∧
  (∀ t, t ∈ header_tokens (Vary res') ↔ t ∈ header_tokens (Vary res) ∨ t ∈ VARY) ∧
  Vary (versionResponseMiddleware n res') = Vary res'.
Proof.
  cbv zeta. rewrite header_tokens_after. destruct (vary_tokens_spec (Vary res)) as [Hn Hin]. split_and!; [done..|].
  rewrite (vary_after n (versionResponseMiddleware n res)).
  assert (vary_tokens (Vary (versionResponseMiddleware n res)) = vary_tokens (Vary res)) as ->; [|by rewrite vary_after].
  unfold vary_tokens at 1. rewrite header_tokens_after, (set_adds_fresh (vary_tokens (Vary res)) []) by done.
  apply set_adds_known, Forall_forall. intros t Hv. apply Hin. by right.
Qed.

(** ** Concrete requests *)

Definition plain (p : string) : request :=
  {| path := p; x_api_version := None; accept_version := None; accept := None; apiVersion := None; api_version := None |}.

Example first_major : negotiateApiVersion (plain "/api/v1/users") = {| version := "v1"; fallback := false; source := FromPath |}.
Proof. reflexivity. Qed.

(** No boundary is asked after the digits. *)
Example no_boundary : source (negotiateApiVersion (plain "/api/v2beta")) = FromPath.
Proof. reflexivity. Qed.

Example accept_parameter :
  extractVersionFromAccept (Some ("text/html;q=0.9, application/json; Version=" +:+ String quote ("2" +:+ String quote EmptyString))) = Some 2.
Proof. vm_compute. reflexivity. Qed.

Lemma long_major_not_flagged_witness :
  negotiateApiVersion (plain "/api/v1000/users") = {| version := "v1"; fallback := false; source := FromDefault |}.
Proof.
  exact (long_major_not_flagged (plain "/api/v1000/users") "1000" "/users" eq_refl eq_refl eq_refl
           ltac:(left; cbn; lia) eq_refl eq_refl eq_refl eq_refl eq_refl).
Defined.

Lemma version_token_roundtrip_witness : parseVersionToken (Some " v12 ") = Some 12.
Proof. exact (version_token_roundtrip 12 true " v12 " ltac:(lia) eq_refl). Defined.
End ApiVersion.

(** ** The error taxonomy: [src/types/errors.ts], [src/middleware/errorHandler.ts]

    What is thrown, by what the handler looks at, and the response it makes. *)
Module ErrorEnvelope.
#[local] Open Scope Z_scope.

Inductive VRTErrorCode := VRT_0001 | VRT_0002 | VRT_0003 | VRT_0004 | VRT_0005 | VRT_0006 | VRT_0007 | VRT_0008 | VRT_9999.
#[export] Instance vrt_code_eq_dec : EqDecision VRTErrorCode.
Proof. solve_decision. Defined.

(** ** Errors *)

Record ZodIssue := { path : list string; issue_message : string; issue_code : string }.

(** An [Error]'s name, message and own [code], when that is a text. *)
Record js_error := { name : string; message : string; code : option string }.

Inductive thrown :=
| ValidationErr (e : js_error) (details : list string)
| ZodErr (e : js_error) (issues : list ZodIssue)
| AppErr (e : js_error) (status : Z) (vrtCode : VRTErrorCode)
| PlainError (e : js_error)
| NotAnError (s : string).

(** The classes, by their constructors. *)
Definition AppError (message : string) (status : Z) (c : VRTErrorCode) : thrown := AppErr {| name := "AppError"; message := message; code := None |} status c.
Definition ValidationError (details : list string) : thrown := ValidationErr {| name := "ValidationError"; message := "Validation Error"; code := None |} details.
Definition app_error (n m : string) (status : Z) (c : VRTErrorCode) : thrown := AppErr {| name := n; message := m; code := None |} status c.
Definition UnauthorizedError (m : string) : thrown := app_error "UnauthorizedError" m 401 VRT_0001.
Definition AuthenticationError (m : string) : thrown := app_error "AuthenticationError" m 401 VRT_0001.
Definition AuthorizationError (m : string) : thrown := app_error "AuthorizationError" m 403 VRT_0003.
Definition NotFoundError (m : string) : thrown := app_error "NotFoundError" m 404 VRT_0004.
Definition ConflictError (m : string) : thrown := app_error "ConflictError" m 409 VRT_0005.
Definition RateLimitError (m : string) : thrown := app_error "RateLimitError" m 429 VRT_0006.
Definition DatabaseError (m : string) : thrown := app_error "DatabaseError" m 500 VRT_0007.
Definition ExternalServiceError (m : string) (status : Z) : thrown := app_error "ExternalServiceError" m status VRT_0008.

(** ** The handler *)

Inductive details := Texts (l : list string) | Issues (l : list ZodIssue).

Record ErrorEnvelope := { vrtCode : VRTErrorCode; e_message : string; e_details : option details; requestId : option string }.

Definition error_of (t : thrown) : option js_error :=
  match t with ValidationErr e _ | ZodErr e _ | AppErr e _ _ | PlainError e => Some e | NotAnError _ => None end.

(** [/^[0-9A-Z]{5}$/] *)
Definition upper_or_digit (c : ascii) : bool := in_range 48 57 c || in_range 65 90 c.
Definition is_sqlstate (s : string) : bool := (String.length s =? 5)%nat && string_forallb upper_or_digit s.

Definition isPostgresError (t : thrown) : bool :=
  match error_of t with Some {| code := Some c |} => is_sqlstate c | _ => false end.
Definition CLIENT_SAFE_POSTGRES_CONFLICT_CODES : list string := ["23503"; "23505"].
Definition conflict (t : thrown) : bool :=
  match error_of t with Some {| code := Some c |} => includes c CLIENT_SAFE_POSTGRES_CONFLICT_CODES | _ => false end.
Definition is_token_error (t : thrown) : bool :=
  match error_of t with Some e => String.eqb (name e) "JsonWebTokenError" || String.eqb (name e) "TokenExpiredError" | None => false end.

Definition generic : string := "An unexpected error occurred".

Definition createErrorEnvelope (error : thrown) (rid : option string) : ErrorEnvelope :=
  let base c m d := {| vrtCode := c; e_message := m; e_details := d; requestId := match rid with Some EmptyString => None | _ => rid end |} in
  match error with
  | ValidationErr e ds => base VRT_0002 (message e) (Some (Texts ds))
  | ZodErr _ issues => base VRT_0002 "Validation Error" (Some (Issues issues))
  | AppErr e status c => if 500 <=? status then base c generic None else base c (message e) None
  | _ =>
      if isPostgresError error then if conflict error then base VRT_0005 "Resource conflict" None else base VRT_0007 generic None
      else if is_token_error error then base VRT_0001 "Authentication required" None
      else base VRT_9999 generic None
  end.

Definition getStatusCode (error : thrown) : Z :=
  match error with
  | ValidationErr _ _ | ZodErr _ _ => 400
  | AppErr _ status _ => status
  | _ =>
      if isPostgresError error then if conflict error then 409 else 500
      else if is_token_error error then 401
      else 500
  end.

Definition errorHandler (err : thrown) (rid : option string) : Z * ErrorEnvelope := (getStatusCode err, createErrorEnvelope err rid).

Definition notFoundHandler (method path : string) (rid : option string) : Z * ErrorEnvelope :=
  (404, {| vrtCode := VRT_0004; e_message := "Cannot " +:+ method +:+ " " +:+ path; e_details := None; requestId := rid |}).

(** What the log line says of the error. *)
Definition logged_code (err : thrown) : VRTErrorCode :=
  match err with AppErr _ _ c => c | ValidationErr _ _ => VRT_0002 | _ => VRT_9999 end.

(** ** Properties *)

(** What a client may learn of an error: its class and, of a client error of
    the application, its message and details. *)
Inductive public :=
| PublicClientError (status : Z) (c : VRTErrorCode) (m : string) (d : option details)
| PublicServerError (status : Z) (c : VRTErrorCode).

Definition public_of (t : thrown) : public :=
  match t with
  | ValidationErr e ds => PublicClientError 400 VRT_0002 (message e) (Some (Texts ds))
  | ZodErr _ iss => PublicClientError 400 VRT_0002 "Validation Error" (Some (Issues iss))
  | AppErr e s c => if 500 <=? s then PublicServerError s c else PublicClientError s c (message e) None
  | _ =>
      if isPostgresError t then if conflict t then PublicClientError 409 VRT_0005 "Resource conflict" None else PublicServerError 500 VRT_0007
      else if is_token_error t then PublicClientError 401 VRT_0001 "Authentication required" None
      else PublicServerError 500 VRT_9999
  end.

Definition respond (p : public) (rid : option string) : Z * ErrorEnvelope :=
  let rid := match rid with Some EmptyString => None | _ => rid end in
  match p with
  | PublicClientError s c m d => (s, {| vrtCode := c; e_message := m; e_details := d; requestId := rid |})
  | PublicServerError s c => (s, {| vrtCode := c; e_message := generic; e_details := None; requestId := rid |})
  end.

(** The status and the body are decided by separate cascades of tests; they
    agree, and use nothing but the public part of the error. *)
Lemma handler_uses_public t rid : errorHandler t rid = respond (public_of t) rid.
Proof.
  unfold errorHandler, getStatusCode, createErrorEnvelope, public_of. destruct t as [e ds|e iss|e s c|e|s]; try done.
  - by destruct (500 <=? s).
  - by destruct (isPostgresError (PlainError e)), (conflict (PlainError e)), (is_token_error (PlainError e)).
Qed.

(** Two errors with the same public part get the same response: what a
    server error, a database error or a token error says of itself, its
    message, its name and its details never reaches the client. *)
Theorem server_errors_keep_secrets t t' rid :
  public_of t = public_of t' → errorHandler t rid = errorHandler t' rid ∧
  (500 ≤ (errorHandler t rid).1 → e_message (errorHandler t rid).2 = generic ∧ e_details (errorHandler t rid).2 = None).
Proof.
  intros Hp. rewrite !handler_uses_public, <- Hp. split; [done|]. destruct (public_of t) as [s c m d|s c] eqn:E; [|done]. cbn. intros Hs. exfalso.
  unfold public_of in E. destruct t as [e ds|e iss|e s' c'|e|s']; [injection E; lia|injection E; lia| | |].
  - destruct (Z.leb_spec 500 s'); [done|]. injection E. lia.
  - destruct (isPostgresError (PlainError e)); [destruct (conflict (PlainError e))|destruct (is_token_error (PlainError e))]; try done; injection E; lia.
  - done.
Qed.

(** The status and the code of the classes of the application. *)
Definition status_of_code (c : VRTErrorCode) : Z :=
  match c with
  | VRT_0001 => 401 | VRT_0002 => 400 | VRT_0003 => 403 | VRT_0004 => 404 | VRT_0005 => 409 | VRT_0006 => 429
  | VRT_0007 => 500 | VRT_0008 => 503 | VRT_9999 => 500
  end.

(** Unless it is an [AppError] that was given another status, an error is
    answered with the status that its code stands for. *)
Theorem code_determines_status t rid :
  match t with AppErr _ s c => s = status_of_code c | _ => True end →
  (errorHandler t rid).1 = status_of_code (vrtCode (errorHandler t rid).2).
Proof.
  rewrite handler_uses_public. unfold public_of. destruct t as [e ds|e iss|e s c|e|s]; try done.
  - intros ->. by destruct c.
  - intros _. by destruct (isPostgresError (PlainError e)), (conflict (PlainError e)), (is_token_error (PlainError e)).
Qed.

(** ** Examples and witnesses *)

Example classes :
  map (λ t, (errorHandler t None).1) [UnauthorizedError "m"; AuthorizationError "m"; NotFoundError "m"; ConflictError "m"; RateLimitError "m"; DatabaseError "m";
    ExternalServiceError "m" 503; ValidationError []] = [401; 403; 404; 409; 429; 500; 503; 400].
Proof. reflexivity. Qed.

Definition system_error (c : string) : thrown := PlainError {| name := "Error"; message := "write EPIPE"; code := Some c |}.

(** A broken pipe is reported as a database error. *)
Example broken_pipe_is_database : vrtCode (errorHandler (system_error "EPIPE") None).2 = VRT_0007 ∧ vrtCode (errorHandler (system_error "ECONNRESET") None).2 = VRT_9999.
Proof. done. Qed.

(** The code that is logged is not the one that is answered. *)
Example logged_code_differs : logged_code (system_error "23505") = VRT_9999 ∧ vrtCode (errorHandler (system_error "23505") None).2 = VRT_0005.
Proof. done. Qed.

Lemma server_errors_keep_secrets_witness :
  let db m := PlainError {| name := "error"; message := m; code := Some "42P01" |} in
  errorHandler (db "relation users") None = errorHandler (db "relation keys") None ∧
  (500 ≤ (errorHandler (db "relation users") None).1 → e_message (errorHandler (db "relation users") None).2 = generic ∧ e_details (errorHandler (db "relation users") None).2 = None).
Proof. apply server_errors_keep_secrets. reflexivity. Defined.

Lemma code_determines_status_witness : (errorHandler (ExternalServiceError "rpc" 503) None).1 = status_of_code VRT_0008.
Proof. apply (code_determines_status (ExternalServiceError "rpc" 503) None). reflexivity. Defined.
End ErrorEnvelope.

(** ** Response compression: [src/middleware/compression.ts]

    The compressors are arguments, which may fail; texts and bodies are lists
    of one-byte characters. *)
Module Compression.
#[local] Open Scope Z_scope.

Inductive encoding := zstd | br | gzip.
Definition encoding_name (e : encoding) : string := match e with zstd => "zstd" | br => "br" | gzip => "gzip" end.

Definition DEFAULT_THRESHOLD : nat := Z.to_nat 1024.
Definition DEFAULT_SESSION_COOKIE_NAMES : list string :=
  ["session"; "sid"; "connect.sid"; "sessionid"; "accesstoken"; "access_token"; "refreshtoken"; "refresh_token"; "auth"; "csrf"; "xsrf";
   "csrf_token"; "csrf-token"; "xsrf-token"].
Definition DEFAULT_CSRF_FIELD_NAMES : list string :=
  ["csrftoken"; "csrf_token"; "csrf-token"; "_csrf"; "xsrftoken"; "xsrf_token"; "xsrf-token"; "x-csrf-token"].

(** ** Negotiation *)

Definition all_digits (s : string) : bool := nonempty s && string_forallb is_digit s.
Definition digits_value (s : string) : Z := fold_left (λ v c, v * 10 + (Z.of_nat (nat_of_ascii c) - 48)) (String.list_ascii_of_string s) 0.

(** Whether [Number] of [digits.fraction] is above zero: it is unless it
    rounds to zero, at half of the smallest positive double. *)
Definition positive (digits fraction : string) : bool :=
  10 ^ Z.of_nat (String.length fraction) <? digits_value (digits +:+ fraction) * 2 ^ 1075.

(** [/^q=(\d+(?:\.\d+)?)$/i]: whether the weight it reads is above zero. *)
Definition q_positive (param : string) : option bool :=
  match strip_prefix_ci "q=" param with
  | None => None
  | Some v =>
      match split_on "." v with
      | [d] => if all_digits d then Some (positive d EmptyString) else None
      | [d; f] => if all_digits d && all_digits f then Some (positive d f) else None
      | _ => None
      end
  end.

(** A part of the header: the name it offers, and whether its weight is
    positive; the last weight counts. *)
Definition offer (part : string) : option (string * bool) :=
  match split_on ";" (trim part) with
  | [] => None
  | rawName :: params =>
      let name := to_lower (trim rawName) in
      if is_empty name then None
      else Some (name, fold_left (λ q param, default q (q_positive (trim param))) params true)
  end.
Definition offers (acceptEncoding : string) : list (string * bool) := omap offer (split_on "," acceptEncoding).

Definition supports (accepted : list (string * bool)) (name : string) : bool :=
  match map_get name accepted with Some q => q | None => default false (map_get "*" accepted) end.

Definition selectEncoding (acceptEncoding : option string) : option encoding :=
  match acceptEncoding with
  | None | Some EmptyString => None
  | Some h =>
      let accepted := fold_left (λ m kv, map_set kv.1 kv.2 m) (offers h) [] in
      if supports accepted "zstd" then Some zstd
      else if supports accepted "br" then Some br
      else if supports accepted "gzip" then Some gzip
      else None
  end.

(** ** The guard *)

Definition contains_ci (sub s : string) : bool := contains sub (to_lower s).

(** [COMPRESSIBLE_TYPE] *)
Definition compressible_type (contentType : string) : bool :=
  existsb (λ t, contains_ci t contentType) ["text"; "json"; "javascript"; "xml"; "svg"; "graphql"; "x-www-form-urlencoded"].

Definition cookie_name (cookie : string) : string := to_lower (trim (default EmptyString (head (split_on "=" cookie)))).
Definition responseSetsSessionCookie (setCookie sessionCookieNames : list string) : bool :=
  existsb (λ cookie, includes (cookie_name cookie) (map to_lower sessionCookieNames)) setCookie.

(** Whether a test holds at some position. *)
Fixpoint search (f : string → bool) (s : string) : bool :=
  f s || match s with EmptyString => false | String _ r => search f r end.

Definition quote_char (c : ascii) : bool := (nat_of_ascii c =? 34)%nat || (nat_of_ascii c =? 39)%nat.
Definition assigns (s : string) : bool := match trim_start s with String c _ => Ascii.eqb c ":" || Ascii.eqb c "=" | EmptyString => false end.
(** An optional quote, white space, and a colon or an equals sign. *)
Definition key_tail (s : string) : bool := match s with String c r => if quote_char c then assigns r else assigns s | EmptyString => false end.
Definition key_at (field s : string) : bool := match strip_prefix_ci field s with Some r => key_tail r | None => false end.

Definition bodyContainsCsrfToken (body contentType : string) (csrfFieldNames : list string) : bool :=
  if is_empty body then false
  else if negb (existsb (λ t, contains_ci t contentType) ["json"; "text"; "javascript"; "x-www-form-urlencoded"]) then false
  else existsb (λ field, search (key_at field) body) csrfFieldNames.

(** [/\bno-transform\b/i] *)
Definition word_char (c : ascii) : bool := is_digit c || in_range 65 90 c || in_range 97 122 c || Ascii.eqb c "_".
Definition starts_nonword (s : string) : bool := match s with String c _ => negb (word_char c) | EmptyString => true end.
Fixpoint search_word (after_word : bool) (s : string) : bool :=
  (negb after_word && match strip_prefix_ci "no-transform" s with Some r => starts_nonword r | None => false end) ||
  match s with EmptyString => false | String c r => search_word (word_char c) r end.
Definition no_transform (cacheControl : string) : bool := search_word false cacheControl.

(** ** The middleware *)

Record CompressionOptions := { threshold : nat; sessionCookieNames : list string; csrfFieldNames : list string }.
Definition default_options : CompressionOptions :=
  {| threshold := DEFAULT_THRESHOLD; sessionCookieNames := DEFAULT_SESSION_COOKIE_NAMES; csrfFieldNames := DEFAULT_CSRF_FIELD_NAMES |}.

(** The response before it ends. *)
Record response := {
  statusCode : Z; contentType : string; cacheControl : string; contentEncoding : option string; contentLength : option nat;
  setCookie : list string; vary : list string; compressionDisabled : bool
}.
Record sent := { s_head : response; s_body : string }.

Section Middleware.
Context (compressSync : encoding → string → option string) (opts : CompressionOptions).

Definition isEligibleForCompression (r : response) (body : string) : bool :=
  negb (compressionDisabled r) && negb (match contentEncoding r with Some (String _ _) => true | _ => false end) &&
  negb (statusCode r =? 204) && negb (statusCode r =? 304) && (threshold opts <=? String.length body)%nat && compressible_type (contentType r) &&
  negb (no_transform (cacheControl r)) && negb (responseSetsSessionCookie (setCookie r) (sessionCookieNames opts)) &&
  negb (bodyContainsCsrfToken body (contentType r) (csrfFieldNames opts)).

Definition with_vary (r : response) : response :=
  {| statusCode := statusCode r; contentType := contentType r; cacheControl := cacheControl r; contentEncoding := contentEncoding r; contentLength := contentLength r;
     setCookie := setCookie r; vary := vary r ++ ["Accept-Encoding"]; compressionDisabled := compressionDisabled r |}.
Definition with_encoding (e : encoding) (n : nat) (r : response) : response :=
  {| statusCode := statusCode r; contentType := contentType r; cacheControl := cacheControl r; contentEncoding := Some (encoding_name e); contentLength := Some n;
     setCookie := setCookie r; vary := vary r; compressionDisabled := compressionDisabled r |}.

(** [end] after the chunks written so far. *)
Definition patchedEnd (encoding : option encoding) (chunks : list string) (chunk : option string) (r : response) : sent :=
  let body := join EmptyString (match chunk with Some c => chunks ++ [c] | None => chunks end) in
  let eligible := isEligibleForCompression r body in
  let r := if eligible then with_vary r else r in
  match eligible, encoding with
  | true, Some e =>
      match compressSync e body with
      | None => {| s_head := r; s_body := body |}
      | Some compressed => {| s_head := with_encoding e (String.length compressed) r; s_body := compressed |}
      end
  | _, _ => {| s_head := r; s_body := body |}
  end.

(** A request whose handler writes chunks and ends. *)
Definition compression (acceptEncoding : option string) (chunks : list string) (chunk : option string) (r : response) : sent :=
  patchedEnd (selectEncoding acceptEncoding) chunks chunk r.

(** ** Properties *)

(** The offer that counts for a name: the last one. *)
Definition last_offer (name : string) (l : list (string * bool)) : option bool := snd <$> List.find (λ kv, String.eqb name kv.1) (rev l).

Lemma offers_map l m name :
  map_get name (fold_left (λ m kv, map_set kv.1 kv.2 m) l m) = match last_offer name l with Some q => Some q | None => map_get name m end.
Proof.
  unfold last_offer. revert m. induction l as [|[k v] l IH] using rev_ind; intros m; [done|].
  rewrite fold_left_app, rev_app_distr. cbn [fold_left fst snd rev app List.find]. rewrite map_get_set. destruct (String.eqb name k); [done|]. apply IH.
Qed.

(** What a client accepts. *)
Definition acceptable (h : string) (e : encoding) : bool :=
  match last_offer (encoding_name e) (offers h) with Some q => q | None => default false (last_offer "*" (offers h)) end.

Lemma supports_acceptable h e : supports (fold_left (λ m kv, map_set kv.1 kv.2 m) (offers h) []) (encoding_name e) = acceptable h e.
Proof. unfold supports, acceptable. rewrite !offers_map. destruct (last_offer _ _); [done|]. by destruct (last_offer "*" _). Qed.

(** The encoding is the first of zstd, br and gzip that the client accepts,
    by the last weight it gave to that name, or to the wildcard when it gave
    none; and there is none exactly when it accepts none. *)
Theorem negotiation_spec h : h ≠ EmptyString →
  selectEncoding (Some h) = List.find (acceptable h) [zstd; br; gzip].
Proof.
  intros Hh. unfold selectEncoding. destruct h as [|c h]; [done|]. cbn [List.find].
  rewrite <- !supports_acceptable. set (m := fold_left _ _ _). cbn [encoding_name].
  by destruct (supports m "zstd"), (supports m "br"), (supports m "gzip").
Qed.

Lemma selected_accepted a e : selectEncoding a = Some e → ∃ h, a = Some h ∧ acceptable h e = true.
Proof.
  destruct a as [[|c h]|]; [done| |done]. rewrite negotiation_spec by done. intros [_ H]%List.find_some. by eexists.
Qed.

(** Compression is transparent: what is sent is the written body under the
    encoding the response had, or it decodes to the written body under an
    encoding that the client accepts, with its length; status, type, cookies
    and caching are the handler's. *)
Theorem compression_transparent (decode : encoding → string → option string) a chunks chunk r :
  (∀ e x y, compressSync e x = Some y → decode e y = Some x) →
  let s := compression a chunks chunk r in
  let body := join EmptyString (match chunk with Some c => chunks ++ [c] | None => chunks end) in
  (contentEncoding (s_head s) = contentEncoding r ∧ contentLength (s_head s) = contentLength r ∧ s_body s = body ∨
   ∃ e h, a = Some h ∧ acceptable h e = true ∧ contentEncoding (s_head s) = Some (encoding_name e) ∧ decode e (s_body s) = Some body ∧
     contentLength (s_head s) = Some (String.length (s_body s)) ∧ "Accept-Encoding" ∈ vary (s_head s)) ∧
  statusCode (s_head s) = statusCode r ∧ contentType (s_head s) = contentType r ∧ setCookie (s_head s) = setCookie r ∧ cacheControl (s_head s) = cacheControl r.
Proof.
  intros Hd s body. unfold s, compression, patchedEnd. fold body. destruct (isEligibleForCompression r body) eqn:E; [|by auto].
  destruct (selectEncoding a) as [e|] eqn:Ee; [|by auto]. destruct (compressSync e body) as [y|] eqn:Ec; [|by auto].
  split; [|done]. right. apply selected_accepted in Ee as (h & -> & Ha). exists e, h. cbn. split_and!; try done; [by apply Hd|].
  apply elem_of_app. right. by left.
Qed.

Lemma search_spec f s : search f s = true ↔ ∃ a b, s = a +:+ b ∧ f b = true.
Proof.
  induction s as [|c s IH]; cbn [search].
  - rewrite orb_false_r. split; [intros H; by exists EmptyString, EmptyString|]. intros (a & b & E & H). symmetry in E. apply Regex.app_empty in E as [-> ->]. exact H.
  - rewrite orb_true_iff, IH. split.
    + intros [H|(a & b & -> & H)]; [by exists EmptyString, (String c s)|by exists (String c a), b].
    + intros ([|d a] & b & E & H); [left; cbn in E; by rewrite E|]. right. rewrite string_cons_app in E. injection E as _ ->. by exists a, b.
Qed.

Lemma strip_prefix_ci_app p p' r : to_lower p' = to_lower p → strip_prefix_ci p (p' +:+ r) = Some r.
Proof.
  revert p'. induction p as [|c p IH]; intros [|d p']; try done.
  change (String (lower_char d) (to_lower p') = String (lower_char c) (to_lower p) → strip_prefix_ci (String c p) (String d (p' +:+ r)) = Some r).
  intros E. injection E as E1 E2. cbn [strip_prefix_ci]. rewrite E1, Ascii.eqb_refl. by apply IH.
Qed.

Lemma assigns_spaces w c t : string_forallb is_space w = true → (c = ":" ∨ c = "=")%char → assigns (w +:+ String c t) = true.
Proof.
  intros Hw Hc. unfold assigns. assert (trim_start (w +:+ String c t) = String c t) as ->; [|by destruct Hc; subst c].
  induction w as [|d w IH]; [by destruct Hc; subst c|]. cbn in Hw. apply andb_true_iff in Hw as [Hd Hw]. rewrite string_cons_app. cbn. rewrite Hd. by apply IH.
Qed.

(** A key of the body that names a field, by the name without regard to
    case, perhaps a closing quote, white space, and a colon or an equals sign. *)
Definition names_field (field body : string) : Prop :=
  ∃ a field' q w c t, body = a +:+ field' +:+ q +:+ w +:+ String c t ∧ to_lower field' = to_lower field ∧
    (q = EmptyString ∨ ∃ d, q = String d EmptyString ∧ quote_char d = true) ∧ string_forallb is_space w = true ∧ (c = ":" ∨ c = "=")%char.

Lemma key_tail_spec q w c t :
  (q = EmptyString ∨ ∃ d, q = String d EmptyString ∧ quote_char d = true) → string_forallb is_space w = true → (c = ":" ∨ c = "=")%char →
  key_tail (q +:+ w +:+ String c t) = true.
Proof.
  intros Hq Hw Hc. destruct Hq as [->|(d & -> & Hd)].
  - change (key_tail (w +:+ String c t) = true). pose proof (assigns_spaces w c t Hw Hc) as Ha. destruct w as [|d w].
    + by destruct Hc; subst c.
    + rewrite string_cons_app in *. cbn [key_tail]. cbn in Hw. apply andb_true_iff in Hw as [Hd _].
      destruct (quote_char d) eqn:Hq; [|done]. unfold quote_char in Hq. unfold is_space in Hd. destruct d as [[] [] [] [] [] [] [] []]; vm_compute in Hq, Hd; done.
  - rewrite string_cons_app. cbn [key_tail]. rewrite Hd. by apply assigns_spaces.
Qed.

Lemma named_field_found field body : names_field field body → search (key_at field) body = true.
Proof.
  intros (a & f & q & w & c & t & -> & Hf & Hq & Hw & Hc). apply search_spec. exists a, (f +:+ q +:+ w +:+ String c t). split; [done|].
  unfold key_at. rewrite (strip_prefix_ci_app _ _ _ Hf). by apply key_tail_spec.
Qed.

(** The guard: a response that sets a session cookie, or whose body of a
    textual type has a key that names a CSRF field, is sent as it was
    written, whatever the client accepts. *)
Theorem secrets_never_compressed a chunks chunk r :
  let body := join EmptyString (match chunk with Some c => chunks ++ [c] | None => chunks end) in
  (∃ cookie name, cookie ∈ setCookie r ∧ name ∈ sessionCookieNames opts ∧ cookie_name cookie = to_lower name) ∨
  (existsb (λ t, contains_ci t (contentType r)) ["json"; "text"; "javascript"; "x-www-form-urlencoded"] = true ∧ ∃ field, field ∈ csrfFieldNames opts ∧ names_field field body) →
  compression a chunks chunk r = {| s_head := r; s_body := body |}.
Proof.
  intros body H. unfold compression, patchedEnd. fold body. assert (isEligibleForCompression r body = false) as ->; [|done].
  unfold isEligibleForCompression. destruct H as [(cookie & name & Hc & Hn & He)|(Ht & field & Hf & Hb)].
  - assert (responseSetsSessionCookie (setCookie r) (sessionCookieNames opts) = true) as ->; [|by rewrite andb_false_r].
    apply existsb_exists. exists cookie. split; [by apply list_elem_of_In|]. apply includes_spec. rewrite He.
    apply list_elem_of_In, in_map, list_elem_of_In, Hn.
  - assert (bodyContainsCsrfToken body (contentType r) (csrfFieldNames opts) = true) as ->; [|by rewrite andb_false_r].
    unfold bodyContainsCsrfToken. rewrite Ht. apply named_field_found in Hb as Hs. destruct body as [|c b] eqn:E.
    + destruct Hb as (a' & f & q & w & c & t & Hb & _). symmetry in Hb. by apply Regex.app_empty in Hb as [_ [_ [_ [_ Hb]%Regex.app_empty]%Regex.app_empty]%Regex.app_empty].
    + apply existsb_exists. exists field. split; [by apply list_elem_of_In|done].
Qed.
End Middleware.

(** ** Examples and witnesses *)

Example negotiated :
  map selectEncoding [Some "gzip, deflate, br"; Some "gzip;q=0.5, *;q=0"; Some "*"; Some "*, zstd;q=0.000"; Some "identity"; Some "br;q=1, zstd;Q=0.1"]
  = [Some br; Some gzip; Some zstd; Some br; None; Some zstd].
Proof. vm_compute. reflexivity. Qed.

Definition plain (type : string) (cookies : list string) : response :=
  {| statusCode := 200; contentType := type; cacheControl := "public"; contentEncoding := None; contentLength := None; setCookie := cookies; vary := []; compressionDisabled := false |}.
Definition toy_compress (e : encoding) (s : string) : option string := Some ("z" +:+ s).
Definition toy_decode (e : encoding) (s : string) : option string := strip_prefix "z" s.
Definition small : CompressionOptions := {| threshold := 4; sessionCookieNames := DEFAULT_SESSION_COOKIE_NAMES; csrfFieldNames := DEFAULT_CSRF_FIELD_NAMES |}.
Definition toy := compression toy_compress small.

Example compressed : s_body (toy (Some "br") ["ab"; "cd"] (Some "e") (plain "application/json" [])) = "zabcde".
Proof. vm_compute. reflexivity. Qed.
Example guarded :
  map (λ r, s_body (toy (Some "br") ["ab=cd"] (Some (String (ascii_of_nat 34) "CSRFToken" +:+ String (ascii_of_nat 34) " : 1")) r))
    [plain "application/json" []; plain "application/json" ["SID = 1; Path=/"]] = repeat ("ab=cd" +:+ String (ascii_of_nat 34) "CSRFToken" +:+ String (ascii_of_nat 34) " : 1") 2.
Proof. vm_compute. reflexivity. Qed.
Example no_transforms : map no_transform ["public, No-Transform"; "xno-transform"; "no-transform=1"] = [true; false; true].
Proof. reflexivity. Qed.

Definition hidden_input : string := "<input name='csrf_token' value='s3cret'>".

(** A hidden field of a form is no key with a colon or an equals sign: the
    token in it is compressed. *)
Example hidden_input_is_compressed : s_body (toy (Some "br") [hidden_input] None (plain "text/html" [])) = "z" +:+ hidden_input.
Proof. vm_compute. reflexivity. Qed.

(** XML is compressed and not searched for tokens. *)
Example xml_token_is_compressed : s_body (toy (Some "br") ["csrf_token=1"] None (plain "application/xml" [])) = "zcsrf_token=1".
Proof. vm_compute. reflexivity. Qed.

Lemma negotiation_spec_witness : selectEncoding (Some "br;q=0, gzip") = Some gzip.
Proof. rewrite (negotiation_spec "br;q=0, gzip") by done. vm_compute. reflexivity. Defined.

Lemma toy_decodes : ∀ e x y, toy_compress e x = Some y → toy_decode e y = Some x.
Proof. by intros e x y [= <-]. Qed.

Lemma compression_transparent_witness :
  let s := toy (Some "br") ["ab"; "cd"] None (plain "application/json" []) in
  (contentEncoding (s_head s) = None ∧ contentLength (s_head s) = None ∧ s_body s = "abcd" ∨
   ∃ e h, Some "br" = Some h ∧ acceptable h e = true ∧ contentEncoding (s_head s) = Some (encoding_name e) ∧ toy_decode e (s_body s) = Some "abcd" ∧
     contentLength (s_head s) = Some (String.length (s_body s)) ∧ "Accept-Encoding" ∈ vary (s_head s)) ∧
  statusCode (s_head s) = 200 ∧ contentType (s_head s) = "application/json" ∧ setCookie (s_head s) = [] ∧ cacheControl (s_head s) = "public".
Proof. apply (compression_transparent toy_compress small toy_decode (Some "br") ["ab"; "cd"] None (plain "application/json" [])). exact toy_decodes. Defined.

Lemma secrets_never_compressed_witness :
  toy (Some "br") ["x, _csrf"] (Some " = 1") (plain "text/html" []) = {| s_head := plain "text/html" []; s_body := "x, _csrf = 1" |}.
Proof.
  apply (secrets_never_compressed toy_compress small (Some "br") ["x, _csrf"] (Some " = 1")). right. split; [reflexivity|].
  exists "_csrf". split; [by apply includes_spec|]. exists "x, ", "_csrf", EmptyString, " ", "="%char, " 1".
  split; [reflexivity|]. split; [reflexivity|]. split; [by left|]. split; [reflexivity|by right].
Defined.
End Compression.
