(* ===== verification/IndexRebuild.v ===== *)
(** * Rebuilding the attestations from the chain: [scripts/rebuild-indexer.ts]

    The job reads the events of the contract page by page and upserts one
    attestation row per business and period, with a checkpoint file to resume
    from.  [scValToNative] of the Stellar SDK, the answers of the RPC server
    and what the database accepts are arguments.  A checkpoint that was saved
    is read back as it is; the file may hold anything else before. *)

From S2P Require Import Prelude Numeric Hashing JsString Words Collections.
From S2P Require AttestationRepository.
Import AttestationRepository.
#[local] Open Scope Z_scope.

(** ** Events *)

(** What [scValToNative] gives, as far as the parsers look. *)
Inductive native := NText (s : string) | NObject (fields : list (string * native)) | NOther.

Record ParsedEvent := { business : string; period : string; merkleRoot : string; txHash : string }.

Section Rebuild.
Context {ScVal : Type} (scValToNative : ScVal → option native).

Record EventResponse := { topic : list ScVal; value : ScVal; e_txHash : string; inSuccessfulContractCall : bool }.

(** [None] where the SDK throws, which the parser catches. *)
Definition parseEventTopics (topics : list ScVal) : option (string * string) :=
  match topics with
  | name :: biz :: per :: _ =>
      match scValToNative name, scValToNative biz, scValToNative per with
      | Some (NText _), Some (NText b), Some (NText p) => if nonempty b && nonempty p then Some (b, p) else None
      | _, _, _ => None
      end
  | _ => None
  end.

Definition text_field (k : string) (fields : list (string * native)) : option string :=
  match map_get k fields with Some (NText s) => Some s | _ => None end.

(** The [timestamp], which nothing reads, is left out. *)
Definition parseEventValue (v : ScVal) : option string :=
  match scValToNative v with
  | Some (NObject fields) =>
      match match text_field "merkle_root" fields with Some s => Some s | None => text_field "merkleRoot" fields end with
      | Some root => if nonempty root then Some root else None
      | None => None
      end
  | _ => None
  end.

Definition parseEventFromResponse (e : EventResponse) : option ParsedEvent :=
  match parseEventTopics (topic e) with
  | None => None
  | Some (b, p) =>
      match parseEventValue (value e) with
      | None => None
      | Some root => Some {| business := b; period := p; merkleRoot := root; txHash := e_txHash e |}
      end
  end.

Definition buildAttestationId (businessId period : string) : string := businessId +:+ ":" +:+ period.

Definition shouldProcessEvent (e : ParsedEvent) (businessIdFilter : option string) : bool :=
  match businessIdFilter with Some b => negb (nonempty b) || String.eqb (business e) b | None => true end.

(** ** Pages of events *)

Inductive request := FromLedger (startLedger : Z) | FromCursor (cursor : string).
Record page := { events : list EventResponse; page_cursor : string; latestLedger : Z }.

(** The answer to the [n]-th request, [None] for a rejection. *)
Context (getEvents : nat → request → nat → option page).

Definition truthy (s : option string) : option string := match s with Some c => if nonempty c then Some c else None | None => None end.

Definition fetchEvents (n : nat) (startLedger : option Z) (cursor : option string) (batchSize : nat) : option page :=
  match truthy cursor with
  | Some c => getEvents n (FromCursor c) batchSize
  | None => getEvents n (FromLedger (default 1 startLedger)) batchSize
  end.

(** ** Checkpoints *)

Record CheckpointData := { cp_cursor : string; lastLedger : Z; processedCount : Z }.

(** What the file holds: nothing that parses, an object with the two fields
    when they have their types, or a checkpoint of this job. *)
Inductive checkpoint_file := NoFile | Foreign (cursor : option string) (lastLedger : option Z) | Saved (d : CheckpointData).

Definition loadCheckpoint (f : checkpoint_file) : option string :=
  match f with
  | Saved d => Some (cp_cursor d)
  | Foreign (Some c) (Some _) => Some c
  | _ => None
  end.

(** ** Rows *)

Inductive action := Created | Updated | Skipped.

(** The columns the upsert writes over those of a row. *)
Definition confirm (now : Z) (e : ParsedEvent) (r : Repo.Attestation) : Repo.Attestation :=
  {| Repo.id := Repo.id r; Repo.businessId := Repo.businessId r; Repo.period := Repo.period r; Repo.merkleRoot := merkleRoot e; Repo.txHash := txHash e;
     Repo.status := Repo.confirmed; Repo.version := Repo.version r + 1; Repo.createdAt := Repo.createdAt r; Repo.updatedAt := now |}.

Definition inserted (fresh : string) (now : Z) (e : ParsedEvent) : Repo.Attestation :=
  {| Repo.id := fresh; Repo.businessId := business e; Repo.period := period e; Repo.merkleRoot := merkleRoot e; Repo.txHash := txHash e;
     Repo.status := Repo.confirmed; Repo.version := 1; Repo.createdAt := now; Repo.updatedAt := now |}.

(** What the database answers to a statement: whether it takes it (the
    business exists, texts have their formats, it can be reached), the
    generated id and the time. *)
Record db_answer := { db_ok : bool; fresh_id : string; db_now : Z }.

Definition upsertAttestation (a : db_answer) (e : ParsedEvent) (t : Repo.table) : option action * Repo.table :=
  let at_key := Repo.has_key (business e) (period e) in
  if negb (db_ok a) then (None, t)
  else if existsb at_key t then
    match Repo.sql_update (confirm (db_now a) e) at_key t with
    | (None, t) => (Some Skipped, t)
    | (Some r, t) => (Some (if Repo.version r =? 1 then Created else Updated), t)
    end
  else if existsb (Repo.has_id (fresh_id a)) t then (None, t)
  else (Some Created, t ++ [inserted (fresh_id a) (db_now a) e]).

(** ** The job *)

Record RebuildOptions := {
  dryRun : bool; fromLedger : option Z; businessId : option string; useCheckpoint : bool; batchSize : nat
}.

Record RebuildStats := { totalEvents : nat; uniqueAttestations : nat; created : nat; updated : nat; skipped : nat; errors : nat }.
Definition no_stats : RebuildStats := {| totalEvents := 0; uniqueAttestations := 0; created := 0; updated := 0; skipped := 0; errors := 0 |}.

Definition scanned (s : RebuildStats) : RebuildStats :=
  {| totalEvents := S (totalEvents s); uniqueAttestations := uniqueAttestations s; created := created s; updated := updated s; skipped := skipped s; errors := errors s |}.
Definition skip (s : RebuildStats) : RebuildStats :=
  {| totalEvents := totalEvents s; uniqueAttestations := uniqueAttestations s; created := created s; updated := updated s; skipped := S (skipped s); errors := errors s |}.
Definition fail (s : RebuildStats) : RebuildStats :=
  {| totalEvents := totalEvents s; uniqueAttestations := uniqueAttestations s; created := created s; updated := updated s; skipped := skipped s; errors := S (errors s) |}.
Definition unique (s : RebuildStats) : RebuildStats :=
  {| totalEvents := totalEvents s; uniqueAttestations := S (uniqueAttestations s); created := created s; updated := updated s; skipped := skipped s; errors := errors s |}.
Definition count (a : action) (s : RebuildStats) : RebuildStats :=
  match a with
  | Created => {| totalEvents := totalEvents s; uniqueAttestations := uniqueAttestations s; created := S (created s); updated := updated s; skipped := skipped s; errors := errors s |}
  | Updated => {| totalEvents := totalEvents s; uniqueAttestations := uniqueAttestations s; created := created s; updated := S (updated s); skipped := skipped s; errors := errors s |}
  | Skipped => skip s
  end.

Record job := { stats : RebuildStats; seenAttestations : list string; rows : Repo.table }.
Definition with_stats (f : RebuildStats → RebuildStats) (j : job) : job :=
  {| stats := f (stats j); seenAttestations := seenAttestations j; rows := rows j |}.

Context (opts : RebuildOptions).

(** [db n] answers the statement of the [n]-th event. *)
Context (db : nat → db_answer).

Definition process_event (j : job) (e : EventResponse) : job :=
  let j := with_stats scanned j in
  if negb (inSuccessfulContractCall e) then j
  else match parseEventFromResponse e with
  | None => with_stats skip j
  | Some p =>
      if negb (shouldProcessEvent p (businessId opts)) then with_stats skip j
      else
        let attestationId := buildAttestationId (business p) (period p) in
        if bool_decide (attestationId ∈ seenAttestations j) then with_stats skip j
        else
          let j := {| stats := unique (stats j); seenAttestations := seenAttestations j ++ [attestationId]; rows := rows j |} in
          if dryRun opts then with_stats (count Created) j
          else match upsertAttestation (db (totalEvents (stats j))) p (rows j) with
               | (Some a, t) => {| stats := count a (stats j); seenAttestations := seenAttestations j; rows := t |}
               | (None, t) => {| stats := fail (stats j); seenAttestations := seenAttestations j; rows := t |}
               end
  end.

Definition saveCheckpoint (cursor : option string) (ledger : Z) (j : job) (f : checkpoint_file) : checkpoint_file :=
  match cursor with
  | Some c => if useCheckpoint opts then Saved {| cp_cursor := c; lastLedger := ledger; processedCount := Z.of_nat (totalEvents (stats j)) |} else f
  | None => f
  end.

(** The loop, [true] when it came to its end: one unit of fuel a page, [n]
    pages asked for so far. *)
Fixpoint pages (fuel n : nat) (startLedger : option Z) (cursor : option string) (j : job) (f : checkpoint_file)
  : bool * option string * job * checkpoint_file :=
  match fuel with
  | O => (false, cursor, j, f)
  | S fuel =>
      match fetchEvents n startLedger cursor (batchSize opts) with
      | None => (true, cursor, with_stats fail j, f)
      | Some p =>
          match events p with
          | [] => (true, cursor, j, f)
          | _ =>
              let j := fold_left process_event (events p) j in
              let cursor := Some (page_cursor p) in
              let f := saveCheckpoint cursor (latestLedger p) j f in
              if (length (events p) <? batchSize opts)%nat then (true, cursor, j, f)
              else pages fuel (S n) startLedger cursor j f
          end
      end
  end.

(** Where the job starts, from the checkpoint if there is one. *)
Definition begin_at (f : checkpoint_file) : option Z * option string :=
  match (if useCheckpoint opts then truthy (loadCheckpoint f) else None) with
  | Some c => (None, Some c)
  | None => (fromLedger opts, None)
  end.

Definition new_job (t : Repo.table) : job := {| stats := no_stats; seenAttestations := []; rows := t |}.

Definition processEvents (fuel : nat) (t : Repo.table) (f : checkpoint_file) : bool * job * checkpoint_file :=
  let '(startLedger, cursor) := begin_at f in
  let '(ended, cursor, j, f) := pages fuel 0 startLedger cursor (new_job t) f in
  (ended, j, if ended then saveCheckpoint (truthy cursor) 0 j f else f).
End Rebuild.

(** ** Properties *)

Section Properties.
Context {ScVal : Type} (scValToNative : ScVal → option native) (opts : RebuildOptions).
Abbreviation event := (@EventResponse ScVal).
Abbreviation process := (process_event scValToNative opts).

(** The event is one of the job's: the call succeeded, it parses and passes
    the filter. *)
Definition wanted (ev : event) : option ParsedEvent :=
  if inSuccessfulContractCall ev then
    match parseEventFromResponse scValToNative ev with
    | Some p => if shouldProcessEvent p (businessId opts) then Some p else None
    | None => None
    end
  else None.

Definition key (e : ParsedEvent) : string * string := (business e, period e).
Definition is_key (b p : string) (e : ParsedEvent) : bool := String.eqb (business e) b && String.eqb (period e) p.

(** What a row says, and what an event writes. *)
Definition content (r : Repo.Attestation) : string * string * Repo.AttestationStatus := (Repo.merkleRoot r, Repo.txHash r, Repo.status r).
Definition written (e : ParsedEvent) : string * string * Repo.AttestationStatus := (merkleRoot e, txHash e, Repo.confirmed).
Definition entry (b p : string) (t : Repo.table) := content <$> List.find (Repo.has_key b p) t.

(** The entries after a rebuild from a list of events. *)
Definition rebuilt (l : list event) (b p : string) (t : Repo.table) :=
  match List.find (is_key b p) (omap wanted l) with Some e => Some (written e) | None => entry b p t end.

Lemma is_key_spec b p e : is_key b p e = true ↔ key e = (b, p).
Proof. unfold is_key, key. rewrite andb_true_iff, !String.eqb_eq. split; [by intros [-> ->]|by intros [= -> ->]]. Qed.

Lemma has_key_spec b p r : Repo.has_key b p r = true ↔ (Repo.businessId r, Repo.period r) = (b, p).
Proof. unfold Repo.has_key. rewrite andb_true_iff, !String.eqb_eq. split; [by intros [-> ->]|by intros [= -> ->]]. Qed.

Lemma find_map {A} (q : A → bool) f (l : list A) : (∀ x, q (f x) = q x) → List.find q (map f l) = f <$> List.find q l.
Proof. intros Hq. induction l as [|x l IH]; [done|]. cbn. rewrite Hq. by destruct (q x). Qed.

Lemma find_app {A} (q : A → bool) (l l' : list A) :
  List.find q (l ++ l') = match List.find q l with Some x => Some x | None => List.find q l' end.
Proof. induction l as [|x l IH]; [done|]. cbn. by destruct (q x). Qed.

Lemma find_exists {A} (q : A → bool) (l : list A) : existsb q l = match List.find q l with Some _ => true | None => false end.
Proof. induction l as [|x l IH]; [done|]. cbn. by destruct (q x). Qed.

Lemma filter_exists {A} (q : A → bool) (l : list A) : existsb q l = true → ∃ x, head (List.filter q l) = Some x.
Proof. induction l as [|x l IH]; [done|]. cbn. destruct (q x); [by eexists|exact IH]. Qed.

Lemma upsert_entry a e t act t' b p : upsertAttestation a e t = (Some act, t') →
  entry b p t' = if decide (key e = (b, p)) then Some (written e) else entry b p t.
Proof.
  unfold upsertAttestation. cbv zeta. destruct (db_ok a); [|done]. cbn [negb].
  destruct (existsb (Repo.has_key (business e) (period e)) t) eqn:Ex.
  - unfold Repo.sql_update. destruct (filter_exists _ _ Ex) as [r Hr].
    destruct (head (map _ _)) eqn:Eh; [|by destruct (List.filter _ t)]. intros [= _ <-]. unfold entry. rewrite find_map.
    2: { intros r'. by destruct (Repo.has_key (business e) _ r'). }
    rewrite find_exists in Ex. destruct (decide (key e = (b, p))) as [[= <- <-]|Hne].
    + destruct (List.find _ t) as [r'|] eqn:Ef; [|done]. apply List.find_some in Ef as [_ Ef]. cbn. by rewrite Ef.
    + destruct (List.find (Repo.has_key b p) t) as [r'|] eqn:Ef; [|done]. apply List.find_some in Ef as [_ Ef%has_key_spec]. cbn.
      destruct (Repo.has_key (business e) (period e) r') eqn:Ek; [|done]. apply has_key_spec in Ek. destruct Hne. unfold key. congruence.
  - destruct (existsb (Repo.has_id _) t); [done|]. intros [= _ <-]. unfold entry. rewrite find_app. rewrite find_exists in Ex. cbn [List.find].
    destruct (decide (key e = (b, p))) as [[= <- <-]|Hne].
    + destruct (List.find _ t); [done|]. unfold Repo.has_key. cbn. by rewrite !String.eqb_refl.
    + destruct (List.find (Repo.has_key b p) t); [done|]. destruct (Repo.has_key b p (inserted _ _ e)) eqn:Ek; [|done].
      apply has_key_spec in Ek. by destruct Hne.
Qed.

Definition id_of (e : ParsedEvent) : string := buildAttestationId (business e) (period e).

(** What an event does. *)
Lemma process_cases db j ev :
  let j' := process db j ev in
  totalEvents (stats j') = S (totalEvents (stats j)) ∧
  match wanted ev with
  | None => rows j' = rows j ∧ seenAttestations j' = seenAttestations j ∧ errors (stats j') = errors (stats j)
  | Some e =>
      if decide (id_of e ∈ seenAttestations j) then rows j' = rows j ∧ seenAttestations j' = seenAttestations j ∧ errors (stats j') = errors (stats j)
      else seenAttestations j' = seenAttestations j ++ [id_of e] ∧
        if dryRun opts then rows j' = rows j ∧ errors (stats j') = errors (stats j)
        else match upsertAttestation (db (S (totalEvents (stats j)))) e (rows j) with
             | (Some _, t) => rows j' = t ∧ errors (stats j') = errors (stats j)
             | (None, t) => rows j' = t ∧ errors (stats j') = S (errors (stats j))
             end
  end.
Proof.
  unfold process_event, wanted, id_of. destruct (inSuccessfulContractCall ev); [|done]. cbn [negb].
  destruct (parseEventFromResponse scValToNative ev) as [e|]; [|done]. destruct (shouldProcessEvent e _); [|done]. cbn [negb].
  cbn [seenAttestations with_stats]. case_decide as Hd; [by rewrite bool_decide_eq_true_2|]. rewrite bool_decide_eq_false_2 by done. destruct (dryRun opts); [done|].
  cbn [stats rows with_stats unique scanned totalEvents]. destruct (upsertAttestation _ _ _) as [[[]|] t]; done.
Qed.

Definition no_colon (s : string) : bool := string_forallb (λ c, negb (Ascii.eqb c ":")) s.

Lemma id_inj b p b' p' : no_colon b = true → no_colon b' = true → buildAttestationId b p = buildAttestationId b' p' → (b, p) = (b', p').
Proof.
  unfold buildAttestationId. revert b'. induction b as [|c b IH]; intros [|c' b'] Hb Hb' H.
  - by apply (string_app_inj ":" ":") in H as [_ ->].
  - injection H as <- _. done.
  - injection H as -> _. done.
  - cbn in Hb, Hb'. apply andb_true_iff in Hb as [_ Hb], Hb' as [_ Hb']. injection H as -> H. by apply (IH b' Hb Hb') in H as [= -> ->].
Qed.

Lemma process_errors db l j : (errors (stats j) ≤ errors (stats (fold_left (process db) l j)))%nat.
Proof.
  revert j. induction l as [|ev l IH]; intros j; [done|]. cbn. etrans; [|apply IH].
  destruct (process_cases db j ev) as [_ H]. destruct (wanted ev) as [e|]; [|lia]. destruct (decide _); [lia|]. destruct H as [_ H].
  destruct (dryRun opts); [lia|]. destruct (upsertAttestation _ _ _) as [[]]; lia.
Qed.

Definition clear (l : list event) : Prop := Forall (λ ev, ∀ e, wanted ev = Some e → no_colon (business e) = true) l.

(** Without a refused statement, the first event of a business and period
    that the job has not seen yet makes the entry. *)
Lemma fold_entry db l j b p :
  dryRun opts = false → clear l → no_colon b = true → errors (stats (fold_left (process db) l j)) = errors (stats j) →
  entry b p (rows (fold_left (process db) l j)) =
  if decide (buildAttestationId b p ∈ seenAttestations j) then entry b p (rows j) else rebuilt l b p (rows j).
Proof.
  intros Hd Hl Hb. revert j. induction Hl as [|ev l Hev Hl IH]; intros j He; [by destruct (decide _)|]. cbn [fold_left] in *.
  set (j1 := process db j ev) in *. destruct (process_cases db j ev) as [_ H]. fold j1 in H.
  pose proof (process_errors db l j1) as Hm. unfold rebuilt. cbn [omap list_omap].
  destruct (wanted ev) as [e|]; [|destruct H as (Hr & Hs & H); rewrite IH, Hr, Hs by lia; done].
  specialize (Hev e eq_refl). cbn [List.find]. destruct (decide (_ ∈ seenAttestations j)) as [Hi|Hi] in H.
  - destruct H as (Hr & Hs & H). rewrite IH, Hr, Hs by lia. case_decide as Hbp; [done|].
    destruct (is_key b p e) eqn:Ek; [|done]. apply is_key_spec in Ek. injection Ek as <- <-. done.
  - destruct H as [Hs H]. rewrite Hd in H. destruct (upsertAttestation _ _ _) as [[act|] t] eqn:Eu; [|lia].
    destruct H as [Hr H]. rewrite IH by lia. rewrite Hs, Hr, (upsert_entry _ _ _ _ _ _ _ Eu).
    assert (key e = (b, p) → buildAttestationId b p = id_of e) as Hid by (by intros [= <- <-]).
    destruct (decide (buildAttestationId b p ∈ _ ++ _)) as [Hbp|Hbp], (decide (buildAttestationId b p ∈ seenAttestations j)) as [Hbj|Hbj].
    + rewrite decide_False; [done|]. intros Hk. by rewrite Hid in Hbj.
    + apply elem_of_app in Hbp as [|Hbp%list_elem_of_singleton]; [done|]. apply id_inj in Hbp; [|done..]. injection Hbp as -> ->.
      rewrite decide_True by done. by rewrite (proj2 (is_key_spec _ _ e)).
    + destruct Hbp. apply elem_of_app. by left.
    + unfold rebuilt. rewrite (upsert_entry _ _ _ _ _ _ _ Eu). assert (key e ≠ (b, p)) as Hk.
      { intros Hk. apply Hbp, elem_of_app. right. rewrite Hid by done. by left. }
      rewrite decide_False by done. destruct (is_key b p e) eqn:Ek; [by apply is_key_spec in Ek|done].
Qed.

(** ** A served log *)

Context (getEvents : nat → request → nat → option (@page ScVal)) (log : list event) (cursor_of : nat → string) (ledger_start : Z → nat) (latest : nat → Z).

Definition page_at (n k size : nat) : @page ScVal :=
  {| events := take size (drop k log); page_cursor := cursor_of (k + length (take size (drop k log))); latestLedger := latest n |}.

(** The server answers with the events after a cursor, or from a ledger on,
    as many as it is asked for. *)
Record serves : Prop := {
  cursors_nonempty : ∀ k, nonempty (cursor_of k) = true;
  served_from_ledger : ∀ n s size, getEvents n (FromLedger s) size = Some (page_at n (ledger_start s) size);
  served_from_cursor : ∀ n k size, getEvents n (FromCursor (cursor_of k)) size = Some (page_at n k size)
}.

Definition at_position (k : nat) (startLedger : option Z) (cursor : option string) : Prop :=
  match truthy cursor with Some c => c = cursor_of k | None => k = ledger_start (default 1 startLedger) end.

Lemma fetch_at n k startLedger cursor size : serves → at_position k startLedger cursor →
  fetchEvents getEvents n startLedger cursor size = Some (page_at n k size).
Proof.
  intros [Hc Hl Hk]. unfold at_position, fetchEvents. destruct (truthy cursor); [by intros ->|]. intros ->. apply Hl.
Qed.

(** The pages that were read, up to the position [m]. *)
Lemma pages_spec db fuel n k startLedger cursor j f :
  serves → (1 ≤ batchSize opts)%nat → at_position k startLedger cursor → (k ≤ length log)%nat →
  let '(ended, cursor', j', f') := pages scValToNative getEvents opts db fuel n startLedger cursor j f in
  ∃ m, (k ≤ m ≤ length log)%nat ∧ j' = fold_left (process db) (take (m - k) (drop k log)) j ∧
    (if decide (m = k) then cursor' = cursor ∧ f' = f
     else cursor' = Some (cursor_of m) ∧ if useCheckpoint opts then loadCheckpoint f' = Some (cursor_of m) else f' = f) ∧
    (ended = true → m = length log) ∧ ((length log - k < fuel)%nat → ended = true).
Proof.
  intros Hs Hb. revert n k startLedger cursor j f. induction fuel as [|fuel IH]; intros n k startLedger cursor j f Ha Hk; cbn [pages].
  { exists k. rewrite Nat.sub_diag, decide_True by done. cbn. split_and!; (done || lia). }
  rewrite (fetch_at n k) by done. cbn [events page_cursor latestLedger page_at].
  destruct (take (batchSize opts) (drop k log)) as [|ev l] eqn:Et.
  { exists k. rewrite Nat.sub_diag, decide_True by done. apply (f_equal length) in Et. rewrite length_take, length_drop in Et. cbn in Et.
    split_and!; (done || lia). }
  rewrite <- Et. set (s := length (take (batchSize opts) (drop k log))).
  assert (s = Nat.min (batchSize opts) (length log - k)) as Hlen by (unfold s; by rewrite length_take, length_drop).
  assert (0 < s)%nat as Hpos by (unfold s; rewrite Et; cbn; lia).
  set (j1 := fold_left _ _ j). set (f1 := saveCheckpoint _ _ _ _ _).
  assert (if useCheckpoint opts then loadCheckpoint f1 = Some (cursor_of (k + s)) else f1 = f) as Hf1.
  { unfold f1, saveCheckpoint. by destruct (useCheckpoint opts). }
  assert (take s (drop k log) = take (batchSize opts) (drop k log)) as Htake.
  { destruct (decide (batchSize opts ≤ length log - k)%nat); [f_equal; lia|]. rewrite !take_ge; rewrite ?length_drop; [done|lia..]. }
  destruct (Nat.ltb_spec s (batchSize opts)) as [Hlt|Hge].
  { exists (k + s)%nat. rewrite decide_False by lia. replace (k + s - k)%nat with s by lia. rewrite Htake. split_and!; (done || lia). }
  specialize (IH (S n) (k + s)%nat startLedger (Some (cursor_of (k + s))) j1 f1).
  destruct (pages _ _ _ _ _ _ _ _ _ _) as [[[ended c'] j'] f']. destruct IH as (m & Hm & -> & Hcf & He & Hfu); [|lia|].
  { unfold at_position, truthy. by rewrite (cursors_nonempty Hs). }
  exists m. split; [lia|]. split.
  { unfold j1. rewrite <- fold_left_app, <- Htake, <- drop_drop, take_take_drop. do 2 f_equal. lia. }
  split; [|split; [done|intros; apply Hfu; lia]]. rewrite (decide_False (P := m = k)) by lia.
  destruct (decide (m = (k + s)%nat)) as [->|]; [|destruct Hcf as [-> Hcf]; split; [done|]].
  - destruct Hcf as [-> ->]. done.
  - destruct (useCheckpoint opts); [done|]. by rewrite Hcf.
Qed.

Definition starts_at (f : checkpoint_file) (k : nat) : Prop := at_position k (begin_at opts f).1 (begin_at opts f).2.

Lemma starts_at_saved f m : serves → useCheckpoint opts = true → loadCheckpoint f = Some (cursor_of m) → starts_at f m.
Proof.
  intros Hs Hu Hf. unfold starts_at, begin_at. rewrite Hu, Hf. unfold truthy. rewrite (cursors_nonempty Hs). unfold at_position, truthy. cbn.
  by rewrite (cursors_nonempty Hs).
Qed.

(** A run reads the log from where it starts up to a position [m], the end
    unless it is interrupted, and the next run starts at [m]. *)
Lemma processEvents_spec db fuel t f k :
  serves → (1 ≤ batchSize opts)%nat → starts_at f k → (k ≤ length log)%nat →
  let '(ended, j, f') := processEvents scValToNative getEvents opts db fuel t f in
  ∃ m, (k ≤ m ≤ length log)%nat ∧ j = fold_left (process db) (take (m - k) (drop k log)) (new_job t) ∧
    (useCheckpoint opts = true → starts_at f' m ∧ (m ≠ k → loadCheckpoint f' = Some (cursor_of m))) ∧
    (ended = true → m = length log) ∧ ((length log - k < fuel)%nat → ended = true).
Proof.
  intros Hs Hb Ha Hk. unfold processEvents. destruct (begin_at opts f) as [sl c] eqn:Eb.
  pose proof Ha as Ha'. unfold starts_at in Ha'. rewrite Eb in Ha'.
  pose proof (pages_spec db fuel 0 k sl c (new_job t) f Hs Hb Ha' Hk) as H.
  destruct (pages _ _ _ _ _ _ _ _ _ _) as [[[ended c'] j] f']. destruct H as (m & Hm & Hj & Hcf & He & Hfu).
  exists m. split_and!; [lia|lia|done| |done|done]. intros Hu. destruct (decide (m = k)) as [->|Hne].
  - split; [|done]. destruct Hcf as [-> ->]. destruct ended; [|done]. unfold saveCheckpoint. rewrite Hu.
    destruct (truthy c) as [x|] eqn:Ec; [|done]. unfold starts_at, begin_at. rewrite Hu. cbn [loadCheckpoint cp_cursor].
    unfold truthy in Ec. destruct c as [c|]; [|done]. destruct (nonempty c) eqn:En; [|done]. injection Ec as ->.
    unfold truthy. rewrite En. unfold at_position, truthy in *. cbn [fst snd] in *. by rewrite En in *.
  - rewrite Hu in Hcf. destruct Hcf as [-> Hf]. cbn [truthy]. rewrite (cursors_nonempty Hs). unfold saveCheckpoint. rewrite Hu.
    assert (loadCheckpoint (if ended then Saved {| cp_cursor := cursor_of m; lastLedger := 0; processedCount := Z.of_nat (totalEvents (stats j)) |} else f') =
      Some (cursor_of m)) as Hl by (by destruct ended). split; [by apply starts_at_saved|done].
Qed.

Lemma total_fold db l j : totalEvents (stats (fold_left (process db) l j)) = (totalEvents (stats j) + length l)%nat.
Proof. revert j. induction l as [|ev l IH]; intros j; cbn; [lia|]. rewrite IH. destruct (process_cases db j ev) as [-> _]. lia. Qed.

Lemma clear_sub (l l' : list event) : l ⊆ l' → clear l' → clear l.
Proof. intros Hsub. unfold clear. rewrite !Forall_forall. naive_solver. Qed.

(** A job from the beginning over the events [l]. *)
Lemma job_entry db l t b p :
  dryRun opts = false → clear l → no_colon b = true → errors (stats (fold_left (process db) l (new_job t))) = 0%nat →
  entry b p (rows (fold_left (process db) l (new_job t))) = rebuilt l b p t.
Proof.
  intros Hd Hl Hb He. rewrite fold_entry by done. rewrite decide_False; [done|]. cbn. by intros ?%elem_of_nil.
Qed.

(** A rebuild reads the whole log from where it starts and ends; if the
    database took its statements, each business and period that has an event
    there holds what the first one says, as confirmed, and every other entry
    is untouched. *)
Theorem rebuild_content db fuel t f k :
  serves → (1 ≤ batchSize opts)%nat → dryRun opts = false → clear log → starts_at f k → (k ≤ length log)%nat → (length log - k < fuel)%nat →
  let '(ended, j, _) := processEvents scValToNative getEvents opts db fuel t f in
  ended = true ∧ totalEvents (stats j) = (length log - k)%nat ∧
  (errors (stats j) = 0%nat → ∀ b p, no_colon b = true → entry b p (rows j) = rebuilt (drop k log) b p t).
Proof.
  intros Hs Hb Hd Hc Ha Hk Hf. pose proof (processEvents_spec db fuel t f k Hs Hb Ha Hk) as H.
  destruct (processEvents _ _ _ _ _ _ _) as [[ended j] f']. destruct H as (m & Hm & -> & _ & He & Hfu).
  specialize (Hfu Hf). specialize (He Hfu). subst m. rewrite take_ge by (rewrite length_drop; lia). split; [done|]. split.
  - rewrite total_fold. cbn. rewrite length_drop. lia.
  - intros H0 b p Hbc. apply job_entry; try done. eapply clear_sub; [|done]. apply subseteq_drop.
Qed.

Lemma find_key_unique b p (l l' : list ParsedEvent) e :
  NoDup (key <$> l ++ l') → List.find (is_key b p) l' = Some e → List.find (is_key b p) l = None.
Proof.
  intros Hn Hf. apply List.find_some in Hf as [Hin Hk%is_key_spec]. destruct (List.find _ l) as [e'|] eqn:E; [|done].
  apply List.find_some in E as [Hin' Hk'%is_key_spec]. rewrite fmap_app in Hn. apply NoDup_app in Hn as (_ & Hn & _). exfalso.
  apply (Hn (b, p)); [rewrite <- Hk'|rewrite <- Hk]; apply list_elem_of_fmap_2; by apply list_elem_of_In.
Qed.

(** Going again over events that were already stored changes no entry, when
    every business and period has one event. *)
Lemma rebuilt_again l a y b p t t' : NoDup (key <$> omap wanted l) → (a ≤ y)%nat → entry b p t' = rebuilt (take y l) b p t →
  rebuilt (drop a l) b p t' = rebuilt l b p t.
Proof.
  intros Hn Hy He. assert (omap wanted l = omap wanted (take a l) ++ omap wanted (drop a l)) as E by (by rewrite <- omap_app, take_drop).
  rewrite E in Hn. unfold rebuilt in *. rewrite He, E, find_app. clear He E.
  assert (take y l = take a l ++ take (y - a) (drop a l)) as -> by (rewrite take_take_drop; f_equal; lia).
  rewrite omap_app, find_app. destruct (List.find _ (omap wanted (drop a l))) as [e|] eqn:Ed.
  - by rewrite (find_key_unique _ _ _ _ _ Hn Ed).
  - destruct (List.find _ (omap wanted (take a l))); [done|]. destruct (List.find _ (omap wanted (take _ (drop a l)))) as [e|] eqn:Et; [|done].
    rewrite <- (take_drop (y - a) (drop a l)), omap_app, find_app, Et in Ed. done.
Qed.

(** C16. A rebuild that dies, after some pages and in the middle of the next, and
    is started again from its checkpoint comes to the same entries as one that
    was never interrupted, when both runs are served the same log, keep
    checkpoints and write, the database refuses no statement, and the log has
    one event for each business and period and no colon in a business id. *)
Theorem interrupted_rebuild_resumes db1 db2 fuel1 x fuel2 t f k :
  serves → (1 ≤ batchSize opts)%nat → dryRun opts = false → useCheckpoint opts = true → clear log → NoDup (key <$> omap wanted log) →
  starts_at f k → (k ≤ length log)%nat → (length log < fuel2)%nat →
  let '(_, j1, f1) := processEvents scValToNative getEvents opts db1 fuel1 t f in
  let j1' := fold_left (process db1) (take x (drop (k + totalEvents (stats j1)) log)) j1 in
  let '(ended, j2, _) := processEvents scValToNative getEvents opts db2 fuel2 (rows j1') f1 in
  ended = true ∧
  (errors (stats j1') = 0%nat → errors (stats j2) = 0%nat → ∀ b p, no_colon b = true → entry b p (rows j2) = rebuilt (drop k log) b p t).
Proof.
  intros Hs Hb Hd Hu Hc Hn Ha Hk Hf. pose proof (processEvents_spec db1 fuel1 t f k Hs Hb Ha Hk) as H.
  destruct (processEvents _ _ _ db1 _ _ _) as [[e1 j1] f1]. destruct H as (m & Hm & -> & Hsave & _). destruct (Hsave Hu) as [Hat _]. clear Hsave.
  rewrite total_fold. cbn [totalEvents stats new_job no_stats]. rewrite length_take, length_drop, Nat.min_l, Nat.add_0_l by lia.
  replace (k + (m - k))%nat with m by lia. rewrite <- fold_left_app.
  assert (take (m - k) (drop k log) ++ take x (drop m log) = take (m - k + x) (drop k log)) as ->.
  { replace (drop m log) with (drop (m - k) (drop k log)) by (rewrite drop_drop; f_equal; lia). apply take_take_drop. }
  set (j1' := fold_left _ _ _). cbv zeta. pose proof (rebuild_content db2 fuel2 (rows j1') f1 m Hs Hb Hd Hc Hat ltac:(lia) ltac:(lia)) as H.
  destruct (processEvents _ _ _ db2 _ _ _) as [[e2 j2] f2]. destruct H as (He & _ & H). split; [done|]. intros H1 H2 b p Hbc. rewrite (H H2 b p Hbc).
  replace (drop m log) with (drop (m - k) (drop k log)) by (rewrite drop_drop; f_equal; lia). apply (rebuilt_again _ _ (m - k + x)); [|lia|].
  - rewrite <- (take_drop k log), omap_app, fmap_app in Hn. by apply NoDup_app in Hn as (_ & _ & Hn).
  - apply job_entry; try done. eapply clear_sub; [|done]. etrans; [apply subseteq_take|apply subseteq_drop].
Qed.

(** ** Counters *)

Definition successful (l : list event) : nat := length (List.filter (λ ev, inSuccessfulContractCall ev) l).

Record counters_ok (j : job) : Prop := {
  seen_once : NoDup (seenAttestations j);
  unique_seen : uniqueAttestations (stats j) = length (seenAttestations j);
  unique_ended : uniqueAttestations (stats j) = (created (stats j) + updated (stats j) + errors (stats j))%nat
}.

Lemma upsert_not_skipped a e t t' : upsertAttestation a e t ≠ (Some Skipped, t').
Proof.
  unfold upsertAttestation. cbv zeta. destruct (db_ok a); [|done]. cbn [negb]. destruct (existsb (Repo.has_key _ _) t) eqn:Ex.
  - unfold Repo.sql_update. destruct (filter_exists _ _ Ex) as [r Hr]. destruct (List.filter _ t); [done|]. cbn. by destruct (_ =? 1).
  - by destruct (existsb (Repo.has_id _) t).
Qed.

Lemma counters_step db j ev : counters_ok j →
  let j' := process db j ev in
  counters_ok j' ∧ (created (stats j') + updated (stats j') + skipped (stats j') + errors (stats j') =
    created (stats j) + updated (stats j) + skipped (stats j) + errors (stats j) + successful [ev])%nat.
Proof.
  intros [Hn Hu He]. unfold process_event, successful. cbn [List.filter]. destruct (inSuccessfulContractCall ev); cbn [negb]; [|split; [by split|cbn; lia]].
  destruct (parseEventFromResponse scValToNative ev) as [e|]; [|split; [by split|cbn; lia]].
  destruct (shouldProcessEvent e _); cbn [negb]; [|split; [by split|cbn; lia]]. cbn [seenAttestations with_stats].
  destruct (decide (buildAttestationId (business e) (period e) ∈ seenAttestations j)) as [Hi|Hi].
  { rewrite bool_decide_eq_true_2 by done. split; [by split|cbn; lia]. }
  rewrite bool_decide_eq_false_2 by done. assert (NoDup (seenAttestations j ++ [buildAttestationId (business e) (period e)])) as Hn'.
  { apply NoDup_app. split_and!; [done| |apply NoDup_singleton]. by intros x Hx ->%list_elem_of_singleton. }
  destruct (dryRun opts); [split; [split; cbn; [done|rewrite length_app; cbn; lia|lia]|cbn; lia]|].
  destruct (upsertAttestation _ _ _) as [[[]|] u] eqn:Eu; [| |by apply upsert_not_skipped in Eu|];
    (split; [split; cbn; [done|rewrite length_app; cbn; lia|lia]|cbn; lia]).
Qed.

Lemma counters_fold db l j : counters_ok j →
  let j' := fold_left (process db) l j in
  counters_ok j' ∧ (created (stats j') + updated (stats j') + skipped (stats j') + errors (stats j') =
    created (stats j) + updated (stats j) + skipped (stats j) + errors (stats j) + successful l)%nat.
Proof.
  revert j. induction l as [|ev l IH]; intros j Hj; [split; [done|cbn; lia]|]. cbn [fold_left].
  destruct (counters_step db j ev Hj) as [Hj1 H1]. destruct (IH _ Hj1) as [Hj2 H2]. split; [done|]. rewrite H2, H1.
  unfold successful. cbn [List.filter]. destruct (inSuccessfulContractCall ev); cbn; lia.
Qed.

(** The counters add up: each event of a successful call is created,
    updated, skipped or failed, and the attestations are the different ones,
    each created, updated or failed. *)
Theorem rebuild_accounts db fuel t f k :
  serves → (1 ≤ batchSize opts)%nat → starts_at f k → (k ≤ length log)%nat →
  let '(_, j, _) := processEvents scValToNative getEvents opts db fuel t f in
  let s := stats j in
  (created s + updated s + skipped s + errors s = successful (take (totalEvents s) (drop k log)))%nat ∧
  uniqueAttestations s = (created s + updated s + errors s)%nat ∧ uniqueAttestations s = length (seenAttestations j) ∧ NoDup (seenAttestations j).
Proof.
  intros Hs Hb Ha Hk. pose proof (processEvents_spec db fuel t f k Hs Hb Ha Hk) as H.
  destruct (processEvents _ _ _ _ _ _ _) as [[e j] f']. destruct H as (m & Hm & -> & _).
  destruct (counters_fold db (take (m - k) (drop k log)) (new_job t)) as [[H1 H2 H3] H4]; [by split; [apply NoDup_nil|..]|].
  cbv zeta. rewrite H4, total_fold. cbn [stats new_job no_stats created updated skipped errors totalEvents].
  rewrite length_take, length_drop, Nat.min_l by lia. done.
Qed.
End Properties.

(** When a run that keeps checkpoints has read the log, every later run
    that uses the checkpoint reads nothing and changes nothing: also when the
    first one was a dry run, or the database refused its statements. *)
Theorem later_runs_are_idle {ScVal} (scValToNative : ScVal → option native) getEvents log cursor_of ledger_start latest opts opts' db db' fuel fuel' t t' f k :
  serves getEvents log cursor_of ledger_start latest → (1 ≤ batchSize opts)%nat → useCheckpoint opts = true → useCheckpoint opts' = true →
  starts_at opts cursor_of ledger_start f k → (k < length log)%nat →
  let '(ended, _, f') := processEvents scValToNative getEvents opts db fuel t f in
  ended = true → ∃ f'', processEvents scValToNative getEvents opts' db' (S fuel') t' f' = (true, new_job t', f'').
Proof.
  intros Hs Hb Hu Hu' Ha Hk. pose proof (processEvents_spec scValToNative opts getEvents log cursor_of ledger_start latest db fuel t f k Hs Hb Ha ltac:(lia)) as H.
  destruct (processEvents _ _ _ db _ _ _) as [[e j] f']. destruct H as (m & Hm & _ & Hc & He & _). intros H. specialize (He H). subst m.
  destruct (Hc Hu) as [_ Hl]. specialize (Hl ltac:(lia)). pose proof (starts_at_saved opts' getEvents log cursor_of ledger_start latest f' _ Hs Hu' Hl) as Ha'.
  unfold processEvents. destruct (begin_at opts' f') as [sl c] eqn:Eb. unfold starts_at in Ha'. rewrite Eb in Ha'. cbn [pages fst snd] in *.
  rewrite (fetch_at getEvents log cursor_of ledger_start latest 0 (length log)) by done. unfold page_at. cbn [events].
  rewrite drop_all, take_nil. by eexists.
Qed.

(** ** A chain with three events *)

Module Example.

Definition chain_event (b p root : string) : @EventResponse native :=
  {| topic := [NText "attestation_submitted"; NText b; NText p]; value := NObject [("merkle_root", NText root)]; e_txHash := "tx-" +:+ root; inSuccessfulContractCall := true |}.

Fixpoint cursor_text (k : nat) : string := match k with O => "x" | S k => String "x" (cursor_text k) end.

Definition answers (log : list (@EventResponse native)) (n : nat) (r : request) (size : nat) : option (@page native) :=
  Some (page_at log cursor_text (λ _, 7) n (match r with FromLedger _ => 0%nat | FromCursor c => (String.length c - 1)%nat end) size).

Lemma answers_serve log : serves (answers log) log cursor_text (λ _, 0%nat) (λ _, 7).
Proof.
  split; [by intros []|done|]. intros n k size. unfold answers. do 2 f_equal. induction k as [|k IH]; [done|]. cbn in *. destruct k; [done|]. cbn in *. lia.
Qed.

Definition chain := [chain_event "b1" "2024-01" "r1"; chain_event "b1" "2024-02" "r2"; chain_event "b2" "2024-01" "r3"].
Definition options : RebuildOptions := {| dryRun := false; fromLedger := None; businessId := None; useCheckpoint := true; batchSize := 2 |}.
Definition accepting (n : nat) : db_answer := {| db_ok := true; fresh_id := cursor_text n; db_now := 5 |}.
Definition refusing (n : nat) : db_answer := {| db_ok := false; fresh_id := cursor_text n; db_now := 5 |}.

(** A business and period with two events, in two pages. *)
Definition twice := [chain_event "b1" "2024-01" "r1"; chain_event "b2" "2024-01" "r3"; chain_event "b1" "2024-01" "r2"].
End Example.

Lemma rebuild_content_witness :
  Forall (λ ev, ∀ e, wanted Some Example.options ev = Some e → no_colon (business e) = true) Example.chain ∧
  let '(ended, j, _) := processEvents Some (Example.answers Example.chain) Example.options Example.accepting 4 [] NoFile in
  ended = true ∧ totalEvents (stats j) = 3%nat ∧
  (errors (stats j) = 0%nat → ∀ b p, no_colon b = true → entry b p (rows j) = rebuilt Some Example.options Example.chain b p []).
Proof.
  assert (clear Some Example.options Example.chain) as Hc by (repeat constructor; intros e [= <-]; reflexivity). split; [exact Hc|].
  apply (rebuild_content Some Example.options (Example.answers Example.chain) Example.chain Example.cursor_text (λ _, 0%nat) (λ _, 7)
    Example.accepting 4 [] NoFile 0 (Example.answers_serve _)); [cbn; lia|reflexivity|exact Hc|reflexivity|cbn; lia|cbn; lia].
Defined.

Lemma interrupted_rebuild_resumes_witness :
  let '(_, j1, f1) := processEvents Some (Example.answers Example.chain) Example.options Example.accepting 1 [] NoFile in
  let j1' := fold_left (process_event Some Example.options Example.accepting) (take 1 (drop (0 + totalEvents (stats j1)) Example.chain)) j1 in
  let '(ended, j2, _) := processEvents Some (Example.answers Example.chain) Example.options Example.accepting 4 (rows j1') f1 in
  ended = true ∧
  (errors (stats j1') = 0%nat → errors (stats j2) = 0%nat → ∀ b p, no_colon b = true →
     entry b p (rows j2) = rebuilt Some Example.options (drop 0 Example.chain) b p []).
Proof.
  apply (interrupted_rebuild_resumes Some Example.options (Example.answers Example.chain) Example.chain Example.cursor_text (λ _, 0%nat) (λ _, 7)
    Example.accepting Example.accepting 1 1 4 [] NoFile 0 (Example.answers_serve _));
    [cbn; lia|reflexivity|reflexivity|repeat constructor; intros e [= <-]; reflexivity| |reflexivity|cbn; lia|cbn; lia].
  apply (bool_decide_unpack _). vm_compute. exact I.
Defined.

Lemma rebuild_accounts_witness :
  let '(_, j, _) := processEvents Some (Example.answers Example.twice) Example.options Example.refusing 4 [] NoFile in
  let s := stats j in
  (created s + updated s + skipped s + errors s = successful (take (totalEvents s) (drop 0 Example.twice)))%nat ∧
  uniqueAttestations s = (created s + updated s + errors s)%nat ∧ uniqueAttestations s = length (seenAttestations j) ∧ NoDup (seenAttestations j).
Proof.
  apply (rebuild_accounts Some Example.options (Example.answers Example.twice) Example.twice Example.cursor_text (λ _, 0%nat) (λ _, 7)
    Example.refusing 4 [] NoFile 0 (Example.answers_serve _)); [cbn; lia|reflexivity|cbn; lia].
Defined.

Lemma later_runs_are_idle_witness :
  let '(ended, _, f') := processEvents Some (Example.answers Example.chain) Example.options Example.refusing 4 [] NoFile in
  ended = true → ∃ f'', processEvents Some (Example.answers Example.chain) Example.options Example.accepting 4 [] f' = (true, new_job [], f'').
Proof.
  apply (later_runs_are_idle Some (Example.answers Example.chain) Example.chain Example.cursor_text (λ _, 0%nat) (λ _, 7) Example.options Example.options
    Example.refusing Example.accepting 4 3 [] [] NoFile 0 (Example.answers_serve _)); [cbn; lia|reflexivity|reflexivity|reflexivity|cbn; lia].
Defined.

(** Which events are known is not part of the checkpoint: where a business
    and period has two events, an interruption between them changes what its
    row says. *)
Theorem resumption_may_differ :
  let '(_, j, f) := processEvents Some (Example.answers Example.twice) Example.options Example.accepting 1 [] NoFile in
  let '(_, resumed, _) := processEvents Some (Example.answers Example.twice) Example.options Example.accepting 4 (rows j) f in
  let '(_, whole, _) := processEvents Some (Example.answers Example.twice) Example.options Example.accepting 4 [] NoFile in
  entry "b1" "2024-01" (rows whole) = Some ("r1", "tx-r1", Repo.confirmed) ∧
  entry "b1" "2024-01" (rows resumed) = Some ("r2", "tx-r2", Repo.confirmed).
Proof. vm_compute. split; reflexivity. Qed.
