(* ===== verification/ReleaseGates.v ===== *)
(** * The checks a release has to pass: the contract snapshot
    ([src/utils/normalizeSpec.ts]), the performance baseline
    ([scripts/compare-k6.ts]) and the provenance
    ([scripts/verify-provenance.ts]).

    Files, environments and the parsing of JSON are arguments. *)

From stdpp Require Import sorting.
From Stdlib Require Import Sorting.Sorted.
From S2P Require Import Prelude Numeric Hashing JsString Words Collections.
From S2P Require Migrations Doubles.
#[local] Open Scope Z_scope.

(** ** The contract: [src/utils/normalizeSpec.ts]

    A specification is a tree of JSON values; the members of an object are
    listed in the order in which [Object.keys] gives them.  The collation of
    [localeCompare] is an argument.  [None] is a thrown [TypeError].  The
    function also writes into its argument, which is left out.  No member is
    named [__proto__]. *)
Module Contract.

(** [Atom] is a number or a boolean. *)
Inductive json := Null | Atom (text : string) | Text (s : string) | Arr (l : list json) | Obj (kvs : list (string * json)).

Definition is_object (v : json) : bool := match v with Arr _ | Obj _ => true | _ => false end.

(** [String(v)]. *)
Fixpoint text_of (v : json) : string :=
  match v with
  | Null => "null"
  | Atom t => t
  | Text s => s
  | Arr l => join "," (map (λ x, match x with Null => EmptyString | _ => text_of x end) l)
  | Obj _ => "[object Object]"
  end.

Definition chars (s : string) : list json := map (λ c, Text (String c EmptyString)) (String.list_ascii_of_string s).
Definition indexed (l : list json) : list (string * json) := imap (λ i x, (show_Z (Z.of_nat i), x)) l.

(** The own members of a value; those of [null] cannot be asked for. *)
Definition members (v : json) : option (list (string * json)) :=
  match v with Null => None | Atom _ => Some [] | Text s => Some (indexed (chars s)) | Arr l => Some (indexed l) | Obj kvs => Some kvs end.

(** [{ ...v }]. *)
Definition spread (v : json) : list (string * json) := default [] (members v).

(** The members an object has after they were set in the order of the list:
    array indices come first, in numeric order. *)
Definition is_index (k : string) : bool :=
  nonempty k && string_forallb is_digit k && (String.eqb k "0" || negb (String.prefix "0" k)) &&
  match parse_int k with Some n => n <? 2 ^ 32 - 1 | None => false end.
Definition index_of (k : string) : Z := default 0 (parse_int k).
Definition js_order (kvs : list (string * json)) : list (string * json) :=
  js_sort (λ a b, index_of a.1 - index_of b.1) (List.filter (λ kv, is_index kv.1) kvs) ++ List.filter (λ kv, negb (is_index kv.1)) kvs.

(** An object built over [Object.keys(v).sort()]. *)
Definition by_key (kvs : list (string * json)) : list (string * json) := js_sort (λ a b, Migrations.code_order a.1 b.1) kvs.
Definition rebuild (kvs : list (string * json)) : json := Obj (js_order (by_key kvs)).

(** Assigning to a member that is there. *)
Definition at_key (k : string) (f : json → json) (kvs : list (string * json)) : list (string * json) :=
  map (λ kv, (kv.1, if String.eqb kv.1 k then f kv.2 else kv.2)) kvs.

Fixpoint deepSortKeys (v : json) : json :=
  match v with
  | Arr l => Arr (map deepSortKeys l)
  | Obj kvs => rebuild (map (λ kv, (kv.1, deepSortKeys kv.2)) kvs)
  | _ => v
  end.

(** [arr.sort()]. *)
Definition sort_texts (l : list json) : list json := js_sort (λ a b, Migrations.code_order (text_of a) (text_of b)) l.

Fixpoint normalizeSchema (v : json) : json :=
  match v with
  | Obj kvs =>
      Obj (map (λ kv, (kv.1,
        if String.eqb kv.1 "required" then match kv.2 with Arr l => Arr (sort_texts l) | x => x end
        else if String.eqb kv.1 "properties" then
          match kv.2 with
          | Obj props => rebuild (map (λ p, (p.1, match p.2 with Obj _ => normalizeSchema p.2 | _ => p.2 end)) props)
          | Arr l => rebuild (indexed (map (λ y, match y with Obj _ => normalizeSchema y | _ => y end) l))
          | x => x
          end
        else if String.eqb kv.1 "oneOf" then match kv.2 with Arr l => Arr (map normalizeSchema l) | x => x end
        else if String.eqb kv.1 "items" || String.eqb kv.1 "additionalProperties" then match kv.2 with Obj _ => normalizeSchema kv.2 | _ => kv.2 end
        else kv.2)) kvs)
  | _ => Obj (spread v)
  end.

Section Normalize.
Context (localeCompare : string → string → Z).

(** [String(a.name ?? '')]. *)
Definition name_of (v : json) : option string :=
  match v with
  | Null => None
  | Obj kvs => Some (match map_get "name" kvs with None | Some Null => EmptyString | Some x => text_of x end)
  | _ => Some EmptyString
  end.

(** Nothing is compared in an array of one. *)
Definition sortByProp (l : list json) : option (list json) :=
  if (length l <? 2)%nat then Some l
  else match mapM name_of l with
       | None => None
       | Some names => Some (map snd (js_sort (λ a b, localeCompare a.1 b.1) (zip names l)))
       end.

Definition sortResponseKeys (kvs : list (string * json)) : list (string * json) :=
  js_order (js_sort (λ a b, match parse_int a.1, parse_int b.1 with Some m, Some n => m - n | _, _ => localeCompare a.1 b.1 end) kvs).

(** The schema of a media type, and of all media types of a body. *)
Definition media (v : json) : json :=
  match v with Obj kvs => Obj (at_key "schema" (λ s, if is_object s then normalizeSchema s else s) kvs) | _ => v end.
Definition content (v : json) : json :=
  match v with Obj kvs => Obj (map (λ kv, (kv.1, media kv.2)) kvs) | Arr l => Arr (map media l) | _ => v end.
Definition body (v : json) : json := match v with Obj kvs => Obj (at_key "content" content kvs) | _ => v end.

Definition responses (v : json) : json :=
  if is_object v then Obj (map (λ kv, (kv.1, body kv.2)) (sortResponseKeys (spread v))) else v.

(** An operation without the step on its parameters. *)
Definition operation_bodies (v : json) : list (string * json) := at_key "responses" responses (at_key "requestBody" body (spread v)).

Definition normalizeOperation (v : json) : option json :=
  let kvs := operation_bodies v in
  match map_get "parameters" kvs with
  | Some (Arr l) => match sortByProp l with Some l => Some (Obj (at_key "parameters" (λ _, Arr l) kvs)) | None => None end
  | _ => Some (Obj kvs)
  end.

Definition pathItem (v : json) : option json :=
  match members v with
  | None => None
  | Some kvs => rebuild <$> mapM (λ kv, pair kv.1 <$> (if is_object kv.2 then normalizeOperation kv.2 else Some kv.2)) kvs
  end.

Definition paths (v : json) : option json :=
  if is_object v then rebuild <$> mapM (λ kv, pair kv.1 <$> pathItem kv.2) (spread v) else Some v.

Definition components (v : json) : json :=
  match v with
  | Obj kvs => Obj (at_key "schemas" (λ s, if is_object s then rebuild (map (λ kv, (kv.1, normalizeSchema kv.2)) (spread s)) else s) kvs)
  | _ => v
  end.

(** Assigning to a member what a step that may throw makes of it. *)
Definition at_key_or_throw (k : string) (f : json → option json) (kvs : list (string * json)) : option (list (string * json)) :=
  match map_get k kvs with
  | Some v => match f v with Some v' => Some (at_key k (λ _, v') kvs) | None => None end
  | None => Some kvs
  end.

Definition tags (v : json) : option json := match v with Arr l => Arr <$> sortByProp l | _ => Some v end.

Definition normalizeSpec (v : json) : option json :=
  match v with
  | Obj raw =>
      match at_key_or_throw "tags" tags raw with
      | None => None
      | Some raw =>
          match at_key_or_throw "paths" paths raw with
          | None => None
          | Some raw => Some (deepSortKeys (Obj (at_key "components" components raw)))
          end
      end
  | _ => Some (deepSortKeys v)
  end.
End Normalize.

(** *** Specifications that differ in the order of members only *)

(** The same value up to the order of the members of its objects, at any
    depth; names of members are distinct, and arrays and texts as long as they
    can be. *)
Inductive same : json → json → Prop :=
| same_null : same Null Null
| same_atom t : same (Atom t) (Atom t)
| same_text s : Z.of_nat (String.length s) < 2 ^ 32 → same (Text s) (Text s)
| same_arr l l' : Z.of_nat (length l) < 2 ^ 32 → Forall2 same l l' → same (Arr l) (Arr l')
| same_obj kvs kvs1 kvs' :
    NoDup kvs.*1 → kvs ≡ₚ kvs1 → Forall2 (λ a b, a.1 = b.1 ∧ same a.2 b.2) kvs1 kvs' → same (Obj kvs) (Obj kvs').

Definition member (R : json → json → Prop) (a b : string * json) : Prop := a.1 = b.1 ∧ R a.2 b.2.
Definition related (R : json → json → Prop) (kvs kvs' : list (string * json)) : Prop :=
  NoDup kvs.*1 ∧ ∃ kvs1, kvs ≡ₚ kvs1 ∧ Forall2 (member R) kvs1 kvs'.

Fixpoint size (v : json) : nat :=
  S (match v with
     | Arr l => foldr (λ x n, size x + n) 0 l
     | Obj kvs => foldr (λ kv n, size kv.2 + n) 0 kvs
     | _ => 0
     end)%nat.

Lemma size_arr x l : x ∈ l → (size x < size (Arr l))%nat.
Proof. intros H. induction l as [|y l IH]; [by apply elem_of_nil in H|]. apply elem_of_cons in H as [->|H]; cbn in *; [lia|]. apply IH in H. lia. Qed.

Lemma size_obj kv kvs : kv ∈ kvs → (size kv.2 < size (Obj kvs))%nat.
Proof. intros H. induction kvs as [|y l IH]; [by apply elem_of_nil in H|]. apply elem_of_cons in H as [->|H]; cbn in *; [lia|]. apply IH in H. lia. Qed.

Lemma Forall2_in {A B} (R Q : A → B → Prop) l l' : Forall2 R l l' → (∀ x y, x ∈ l → R x y → Q x y) → Forall2 Q l l'.
Proof. induction 1 as [|x y l l' Hxy _ IH]; intros H; constructor; [apply H; [by left|done]|]. apply IH. intros a b Ha. apply H. by right. Qed.

Lemma related_obj kvs kvs' : same (Obj kvs) (Obj kvs') ↔ related same kvs kvs'.
Proof. split; [intros H; inversion H; subst; split; [done|by eexists]|]. intros (Hn & kvs1 & Hp & HF). by econstructor. Qed.

Lemma Forall2_perm_l {A B} (R : A → B → Prop) l l' m : l ≡ₚ m → Forall2 R l l' → ∃ m', l' ≡ₚ m' ∧ Forall2 R m m'.
Proof.
  intros Hp. revert l'. induction Hp as [|x l m _ IH|x y l|l m n _ IH1 _ IH2]; intros l' HF.
  - inversion HF; subst. by exists [].
  - inversion HF as [|? y ? l1 Hxy HF1]; subst. destruct (IH _ HF1) as (m' & Hp & Hm). exists (y :: m'). split; [by constructor|by constructor].
  - inversion HF as [|? x' ? l1 Hx HF1]; subst. inversion HF1 as [|? y' ? l2 Hy HF2]; subst. exists (y' :: x' :: l2). split; [constructor|by repeat constructor].
  - destruct (IH1 _ HF) as (m' & Hp1 & Hm). destruct (IH2 _ Hm) as (n' & Hp2 & Hn). exists n'. split; [by etrans|done].
Qed.

(** Either side may be listed in another order. *)
Lemma related_perm R kvs kvs' m m' : kvs ≡ₚ m → kvs' ≡ₚ m' → related R kvs kvs' → related R m m'.
Proof.
  intros Hp Hp' (Hn & kvs1 & Hp1 & HF). split; [by rewrite <- Hp|]. apply Forall2_flip in HF.
  destruct (Forall2_perm_l _ _ _ _ Hp' HF) as (k2 & Hp2 & H2). exists k2. apply Forall2_flip in H2. split; [by rewrite <- Hp, Hp1|done].
Qed.

Lemma map_keys {A B} (f : string * A → string * B) kvs : (∀ a, (f a).1 = a.1) → (map f kvs).*1 = kvs.*1.
Proof. intros Hk. induction kvs as [|a kvs IH]; [done|]. cbn. by rewrite Hk, IH. Qed.

Lemma related_map R Q f kvs kvs' : related R kvs kvs' → (∀ a b, a ∈ kvs → member R a b → member Q (f a) (f b)) → (∀ a, (f a).1 = a.1) →
  related Q (map f kvs) (map f kvs').
Proof.
  intros (Hn & kvs1 & Hp & HF) Hf Hk. split.
  - by rewrite map_keys.
  - exists (map f kvs1). split; [by apply Permutation_map|]. apply Forall2_fmap_2. eapply Forall2_in; [exact HF|]. intros a b Ha. apply Hf. by rewrite Hp.
Qed.

Lemma related_fst R kvs kvs' : related R kvs kvs' → NoDup kvs'.*1.
Proof.
  intros (Hn & kvs1 & Hp & HF). assert (kvs'.*1 = kvs1.*1) as ->; [|by rewrite <- Hp]. clear Hn Hp.
  induction HF as [|a b l l' [Hk _] _ IH]; [done|]. cbn. by rewrite Hk, IH.
Qed.

Lemma related_get R k kvs kvs' : related R kvs kvs' → option_Forall2 R (map_get k kvs) (map_get k kvs').
Proof.
  intros Hr. pose proof (related_fst _ _ _ Hr) as Hn'. destruct Hr as (Hn & kvs1 & Hp & HF).
  destruct (map_get k kvs) as [v|] eqn:E.
  - apply map_get_Some in E. rewrite Hp in E. apply list_elem_of_lookup in E as [i Hi].
    destruct (Forall2_lookup_l _ _ _ _ _ HF Hi) as ([k' v'] & Hi' & [Hk Hv]). cbn in Hk, Hv. subst k'.
    apply list_elem_of_lookup_2 in Hi'. apply (map_get_elem _ _ _ Hn') in Hi'. rewrite Hi'. by constructor.
  - destruct (map_get k kvs') as [v'|] eqn:E'; [|constructor]. apply map_get_Some in E'. apply list_elem_of_lookup in E' as [i Hi'].
    destruct (Forall2_lookup_r _ _ _ _ _ HF Hi') as ([k' v] & Hi & [Hk _]). cbn in Hk. subst k'.
    apply list_elem_of_lookup_2 in Hi. rewrite <- Hp in Hi. apply (map_get_elem _ _ _ Hn) in Hi. congruence.
Qed.

(** *** Sorting related lists *)

Lemma sort_related {A B} (R : A → B → Prop) (f : A → A → Z) (g : B → B → Z) l l' :
  (∀ a b a' b', R a b → R a' b' → f a a' = g b b') → Forall2 R l l' → Forall2 R (js_sort f l) (js_sort g l').
Proof.
  intros Hfg. assert (∀ a b m m', R a b → Forall2 R m m' → Forall2 R (sort_insert f a m) (sort_insert g b m')) as Hi.
  { intros a b m m' Hab. induction 1 as [|x y m m' Hxy Hm IH]; cbn; [by repeat constructor|]. rewrite (Hfg _ _ _ _ Hxy Hab).
    destruct (_ <=? 0); [by constructor|by repeat constructor]. }
  unfold js_sort. intros HF. assert (Forall2 R [] []) as H0 by constructor. revert H0. generalize (@nil A) (@nil B).
  induction HF as [|a b l l' Hab HF IH]; intros m m' Hm; [done|]. cbn. by apply IH, Hi.
Qed.

Lemma js_order_perm kvs : js_order kvs ≡ₚ kvs.
Proof.
  unfold js_order. rewrite js_sort_perm. induction kvs as [|kv kvs IH]; [done|]. cbn. destruct (is_index kv.1); cbn; [by constructor|].
  rewrite <- Permutation_middle. by constructor.
Qed.

Lemma rebuild_perm kvs : js_order (by_key kvs) ≡ₚ kvs.
Proof. rewrite js_order_perm. apply js_sort_perm. Qed.

Lemma rebuild_same kvs kvs' : related same kvs kvs' → same (rebuild kvs) (rebuild kvs').
Proof. intros H. apply related_obj. eapply related_perm; [symmetry; apply rebuild_perm..|exact H]. Qed.

Lemma text_same v w : same v w → text_of v = text_of w.
Proof.
  assert (∀ n v w, (size v < n)%nat → same v w → text_of v = text_of w) as H; [|eauto]. clear.
  induction n as [|n IH]; intros v w Hn; [lia|]. intros Hs. destruct Hs as [|t|s|l l' _ HF|kvs kvs1 kvs' _ _ _]; try done.
  cbn [text_of]. f_equal. assert (Forall2 (λ x y, same x y ∧ text_of x = text_of y) l l') as H.
  { eapply Forall2_in; [exact HF|]. intros x y Hx Hs. split; [done|]. apply IH; [|done]. pose proof (size_arr _ _ Hx). lia. }
  clear Hn HF. induction H as [|x y l l' [Hs Ht] _ IHl]; [done|]. cbn [map]. rewrite IHl. f_equal. by destruct Hs.
Qed.

(** Sorted members with equal names and values do not remember the order. *)
Lemma rebuild_eq kvs kvs' : NoDup kvs.*1 → kvs ≡ₚ kvs' → rebuild kvs = rebuild kvs'.
Proof. intros Hn Hp. unfold rebuild, by_key. by rewrite (Migrations.members_sort_unique _ _ Hn Hp). Qed.

Lemma deep_sort_same v w : same v w → deepSortKeys v = deepSortKeys w.
Proof.
  assert (∀ n v w, (size v < n)%nat → same v w → deepSortKeys v = deepSortKeys w) as H; [|eauto]. clear.
  induction n as [|n IH]; intros v w Hn; [lia|]. intros Hs. destruct Hs as [|t|s|l l' _ HF|kvs kvs1 kvs' Hk Hp HF]; try done; cbn [deepSortKeys].
  - f_equal. assert (Forall2 (λ x y, deepSortKeys x = deepSortKeys y) l l') as H.
    { eapply Forall2_in; [exact HF|]. intros x y Hx Hs. apply IH; [|done]. pose proof (size_arr _ _ Hx). lia. }
    clear Hn HF. induction H as [|x y l l' Hs _ IHl]; [done|]. cbn. by rewrite Hs, IHl.
  - assert (map (λ kv, (kv.1, deepSortKeys kv.2)) kvs1 = map (λ kv, (kv.1, deepSortKeys kv.2)) kvs') as <-.
    { assert (Forall2 (λ a b, a.1 = b.1 ∧ deepSortKeys a.2 = deepSortKeys b.2) kvs1 kvs') as H.
      { eapply Forall2_in; [exact HF|]. intros a b Ha [Hab Hs]. split; [done|]. apply IH; [|done]. rewrite <- Hp in Ha.
        pose proof (size_obj _ _ Ha). lia. }
      clear HF Hp. induction H as [|a b l l' [Hk' Hs] _ IHl]; [done|]. cbn. by rewrite Hk', Hs, IHl. }
    apply rebuild_eq; [by rewrite map_keys|by apply Permutation_map].
Qed.

(** *** Every step respects the order of members *)

Lemma show_inj m n : 0 ≤ m < 2 ^ 32 → 0 ≤ n < 2 ^ 32 → show_Z m = show_Z n → m = n.
Proof.
  intros Hm Hn H. assert (∀ k, 0 ≤ k < 2 ^ 32 → parse_int (show_Z k) = Some k) as Hp.
  { intros k Hk. pose proof (parse_show k EmptyString) as Hs. rewrite string_app_nil_r in Hs. apply Hs; [lia|done]. }
  apply Hp in Hm, Hn. congruence.
Qed.

Lemma indexed_same R l l' : Z.of_nat (length l) < 2 ^ 32 → Forall2 R l l' → related R (indexed l) (indexed l').
Proof.
  intros Hl HF. split.
  - assert (∀ l (f : nat → nat), (∀ i j, (i < length l)%nat → (j < length l)%nat → f i = f j → i = j) → (∀ i, (i < length l)%nat → Z.of_nat (f i) < 2 ^ 32) →
      NoDup (imap (λ i (x : json), (show_Z (Z.of_nat (f i)), x)) l).*1) as H.
    { clear. induction l as [|x l IH]; intros f Hi Hb; [constructor|]. cbn [imap fmap list_fmap fst]. apply NoDup_cons. split.
      - intros Hin. apply list_elem_of_fmap in Hin as ([k y] & Hk & Hin). apply elem_of_lookup_imap in Hin as (i & z & [= -> ->] & Hz). cbn in Hk.
        apply lookup_lt_Some in Hz. assert (f 0%nat = f (S i)) as Hf; [|apply Hi in Hf; cbn; lia].
        pose proof (Hb 0%nat ltac:(cbn; lia)). pose proof (Hb (S i) ltac:(cbn; lia)). apply Nat2Z.inj, show_inj; [lia|lia|done].
      - apply (IH (λ i, f (S i))); [|intros i Hlt; apply Hb; cbn; lia]. intros i j Hil Hjl Hf. apply Hi in Hf; cbn; lia. }
    apply (H l (λ i, i)); [done|lia].
  - exists (indexed l). split; [done|]. unfold indexed. assert (∀ f : nat → string, Forall2 (member R) (imap (λ i x, (f i, x)) l) (imap (λ i x, (f i, x)) l')) as H; [|apply (H (λ i, show_Z (Z.of_nat i)))].
    clear Hl. induction HF as [|x y l l' Hxy _ IH]; intros f; [constructor|]. cbn. constructor; [done|]. apply (IH (f ∘ S)).
Qed.

Lemma chars_same s : Forall2 same (chars s) (chars s).
Proof. unfold chars. induction (String.list_ascii_of_string s) as [|c l IH]; cbn; constructor; [by constructor|done]. Qed.

Lemma chars_length s : length (chars s) = String.length s.
Proof. unfold chars. rewrite length_map. induction s as [|c s IH]; [done|]. cbn. by rewrite IH. Qed.

Lemma members_same v w : same v w → option_Forall2 (related same) (members v) (members w).
Proof.
  intros H. destruct H as [|t|s Hs|l l' Hl HF|kvs kvs1 kvs' Hn Hp HF]; cbn [members]; constructor.
  - split; [constructor|]. exists []. by split.
  - apply indexed_same; [by rewrite chars_length|apply chars_same].
  - by apply indexed_same.
  - split; [done|]. by exists kvs1.
Qed.

Lemma spread_same v w : same v w → related same (spread v) (spread w).
Proof. intros H. unfold spread. destruct (members_same _ _ H); [done|]. split; [constructor|]. exists []. by split. Qed.

Lemma at_key_same k f g kvs kvs' : (∀ v w, same v w → same (f v) (g w)) → related same kvs kvs' → related same (at_key k f kvs) (at_key k g kvs').
Proof.
  intros Hf Hr. destruct Hr as (Hn & kvs1 & Hp & HF). split; [by unfold at_key; rewrite map_keys|]. exists (at_key k f kvs1). split; [by apply Permutation_map|].
  apply Forall2_fmap_2. eapply Forall2_impl; [exact HF|]. intros [a x] [b y] [Hk Hs]. cbn in Hk, Hs. subst b. split; [done|]. cbn. destruct (String.eqb a k); auto.
Qed.

Lemma arr_same (f : list json → list json) l l' : (∀ l, length (f l) = length l) →
  Z.of_nat (length l) < 2 ^ 32 → Forall2 same (f l) (f l') → same (Arr (f l)) (Arr (f l')).
Proof. intros Hf Hl HF. constructor; [by rewrite Hf|done]. Qed.

Lemma normalizeSchema_same v w : same v w → same (normalizeSchema v) (normalizeSchema w).
Proof.
  assert (∀ n v w, (size v < n)%nat → same v w → same (normalizeSchema v) (normalizeSchema w)) as H; [|eauto]. clear.
  induction n as [|n IH]; intros v w Hn; [lia|]. intros Hs.
  destruct Hs as [|t|s Hs|l l' Hl HF|kvs kvs1 kvs' Hk Hp HF]; cbn [normalizeSchema]; apply related_obj.
  - by apply (spread_same Null Null); constructor.
  - by apply (spread_same (Atom t) (Atom t)); constructor.
  - by apply (spread_same (Text s) (Text s)); constructor.
  - by apply (spread_same (Arr l) (Arr l')); constructor.
  - assert (∀ x y, (size x < n)%nat → same x y →
      same (match x with Obj _ => normalizeSchema x | _ => x end) (match y with Obj _ => normalizeSchema y | _ => y end)) as Hin.
    { intros x y Hx Hxy. pose proof (IH x y Hx Hxy) as H. destruct Hxy; try done; by econstructor. }
    eapply related_map; [split; [exact Hk|by exists kvs1]| |done]. intros [k x] [k' y] Ha [Hkk Hxy]. cbn in Hkk, Hxy. subst k'. split; [done|].
    apply size_obj in Ha. cbn [fst snd] in *. destruct (String.eqb k "required").
    { destruct Hxy as [|t|s Hs|m m' Hl HFm|ms ms1 ms' Hm Hp' HF']; [by constructor..| |by econstructor]. apply arr_same; [|done|].
      - intros l. apply Permutation_length, js_sort_perm.
      - apply (sort_related same); [|done]. intros a b a' b' H1 H2. by rewrite (text_same _ _ H1), (text_same _ _ H2). }
    destruct (String.eqb k "properties").
    { destruct Hxy as [|t|s Hs|m m' Hl HFm|ms ms1 ms' Hm Hp' HF']; [by constructor..| |]; apply rebuild_same.
      - apply indexed_same; [by rewrite length_map|]. apply Forall2_fmap_2. eapply Forall2_in; [exact HFm|]. intros a b Hab.
        apply Hin. apply size_arr in Hab. lia.
      - eapply related_map; [split; [exact Hm|by exists ms1]| |done]. intros [j a] [j' b] Hab [Hj Hs]. cbn in Hj, Hs. subst j'. split; [done|].
        apply size_obj in Hab. cbn [fst snd] in *. apply Hin; [lia|done]. }
    destruct (String.eqb k "oneOf").
    { destruct Hxy as [|t|s Hs|m m' Hl HFm|ms ms1 ms' Hm Hp' HF']; [by constructor..| |by econstructor]. apply arr_same; [apply length_map|done|].
      apply Forall2_fmap_2. eapply Forall2_in; [exact HFm|]. intros a b Hab. apply IH. apply size_arr in Hab. lia. }
    destruct (_ || _); [|done]. apply Hin; [lia|done].
Qed.

Lemma content_same v w : same v w → same (content v) (content w).
Proof.
  assert (∀ v w, same v w → same (media v) (media w)) as Hm.
  { intros x y Hxy. destruct Hxy as [|t|s Hs|l l' Hl HF|kvs kvs1 kvs' Hk Hp HF]; [by constructor..|]. apply related_obj, at_key_same; [|split; [done|by exists kvs1]].
    intros a b Hab. destruct Hab as [|t|s Hs|l l' Hl HFl|ms ms1 ms' Hm Hp' HF']; [by constructor..| |]; apply normalizeSchema_same; by econstructor. }
  intros H. destruct H as [|t|s Hs|l l' Hl HF|kvs kvs1 kvs' Hk Hp HF]; [by constructor..| |].
  - apply arr_same; [apply length_map|done|]. apply Forall2_fmap_2. eapply Forall2_impl; [exact HF|exact Hm].
  - apply related_obj. eapply related_map; [split; [exact Hk|by exists kvs1]| |done]. intros [k x] [k' y] _ [<- Hxy]. split; [done|]. by apply Hm.
Qed.

Lemma body_same v w : same v w → same (body v) (body w).
Proof.
  intros H. destruct H as [|t|s Hs|l l' Hl HF|kvs kvs1 kvs' Hk Hp HF]; [by constructor..|by econstructor|].
  apply related_obj, at_key_same; [apply content_same|split; [done|by exists kvs1]].
Qed.

Lemma components_same v w : same v w → same (components v) (components w).
Proof.
  intros H. destruct H as [|t|s Hs|l l' Hl HF|kvs kvs1 kvs' Hk Hp HF]; [by constructor..|by econstructor|].
  apply related_obj, at_key_same; [|split; [done|by exists kvs1]]. intros x y Hxy.
  assert (same (rebuild (map (λ kv, (kv.1, normalizeSchema kv.2)) (spread x))) (rebuild (map (λ kv, (kv.1, normalizeSchema kv.2)) (spread y)))) as H.
  { apply rebuild_same. eapply related_map; [by apply spread_same| |done]. intros [k a] [k' b] _ [<- Hab]. split; [done|]. by apply normalizeSchema_same. }
  destruct Hxy; by try constructor.
Qed.

Section NormalizeSame.
Context (localeCompare : string → string → Z).

Lemma name_same v w : same v w → name_of v = name_of w.
Proof.
  intros H. destruct H as [|t|s Hs|l l' Hl HF|kvs kvs1 kvs' Hk Hp HF]; try done. cbn [name_of]. f_equal.
  assert (related same kvs kvs') as Hr by (split; [done|by exists kvs1]). destruct (related_get _ "name" _ _ Hr) as [x y Hxy|]; [|done].
  pose proof (text_same _ _ Hxy) as Ht. by destruct Hxy.
Qed.

Lemma sortByProp_same l l' : Forall2 same l l' →
  option_Forall2 (λ m m', Forall2 same m m' ∧ length m = length l) (sortByProp localeCompare l) (sortByProp localeCompare l').
Proof.
  intros HF. unfold sortByProp. rewrite <- (Forall2_length _ _ _ HF). destruct (length l <? 2)%nat; [by constructor|].
  assert (mapM name_of l = mapM name_of l') as <-.
  { induction HF as [|x y l l' Hxy _ IH]; [done|]. cbn. by rewrite (name_same _ _ Hxy), IH. }
  destruct (mapM name_of l) as [names|] eqn:E; [|constructor]. constructor. apply length_mapM in E. split.
  - apply Forall2_fmap_2. eapply Forall2_impl.
    + apply (sort_related (λ a b : string * json, a.1 = b.1 ∧ same a.2 b.2)); [intros [? ?] [? ?] [? ?] [? ?] [H1 _] [H2 _]; cbn in *; by rewrite H1, H2|].
      clear E. revert names. induction HF as [|x y l l' Hxy _ IH]; intros [|k names]; constructor; [done|apply IH].
    + by intros [? ?] [? ?] [_ ?].
  - rewrite length_map, (Permutation_length (js_sort_perm _ _)), length_zip. lia.
Qed.

Lemma sortResponseKeys_perm kvs : sortResponseKeys localeCompare kvs ≡ₚ kvs.
Proof. unfold sortResponseKeys. by rewrite js_order_perm, js_sort_perm. Qed.

Lemma responses_same v w : same v w → same (responses localeCompare v) (responses localeCompare w).
Proof.
  intros H. assert (related same (map (λ kv, (kv.1, body kv.2)) (sortResponseKeys localeCompare (spread v)))
                                (map (λ kv, (kv.1, body kv.2)) (sortResponseKeys localeCompare (spread w)))) as Hr.
  { eapply related_map; [eapply related_perm; [symmetry; apply sortResponseKeys_perm..|by apply spread_same]| |done].
    intros [k a] [k' b] _ [<- Hab]. split; [done|]. by apply body_same. }
  destruct H; [by constructor..| |]; by apply related_obj.
Qed.

Lemma normalizeOperation_same v w : same v w → option_Forall2 same (normalizeOperation localeCompare v) (normalizeOperation localeCompare w).
Proof.
  intros H. unfold normalizeOperation. assert (related same (operation_bodies localeCompare v) (operation_bodies localeCompare w)) as Hr.
  { apply at_key_same; [apply responses_same|]. apply at_key_same; [apply body_same|]. by apply spread_same. }
  cbv zeta. destruct (related_get _ "parameters" _ _ Hr) as [x y Hxy|]; [|constructor; by apply related_obj].
  destruct Hxy as [|t|s Hs|l l' Hl HF|kvs kvs1 kvs' Hk Hp HF]; try (constructor; by apply related_obj).
  destruct (sortByProp_same _ _ HF) as [m m' [Hm Hlen]|]; constructor. apply related_obj, at_key_same; [|done]. intros _ _ _. constructor; [by rewrite Hlen|done].
Qed.

Lemma mapM_Forall2 {A B} (g : A → option B) (Q : B → B → Prop) l l' :
  Forall2 (λ a b, option_Forall2 Q (g a) (g b)) l l' → option_Forall2 (Forall2 Q) (mapM g l) (mapM g l').
Proof.
  induction 1 as [|x y l l' Hxy _ IH]; [by repeat constructor|]. cbn. destruct Hxy as [a b Hab|]; [|constructor]. cbn.
  destruct IH as [r r' Hr|]; constructor. by constructor.
Qed.

Lemma mapM_related f kvs kvs' : (∀ x y, same x y → option_Forall2 same (f x) (f y)) → related same kvs kvs' →
  option_Forall2 (related same) (mapM (λ kv, pair kv.1 <$> f kv.2) kvs) (mapM (λ kv, pair kv.1 <$> f kv.2) kvs').
Proof.
  intros Hf (Hn & kvs1 & Hp & HF). set (g := λ kv : string * json, pair kv.1 <$> f kv.2).
  assert (∀ l l' r, l ≡ₚ l' → mapM g l = Some r → ∃ r', mapM g l' = Some r' ∧ r ≡ₚ r') as Hperm.
  { intros l l' r Hl Hr%mapM_Some_1. destruct (Forall2_perm_l _ _ _ _ Hl Hr) as (r' & Hr' & HF'). exists r'. split; [by apply mapM_Some_2|done]. }
  assert (option_Forall2 (Forall2 (member same)) (mapM g kvs1) (mapM g kvs')) as Hg.
  { apply (mapM_Forall2 _ (member same)). eapply Forall2_impl; [exact HF|]. intros [k x] [k' y] [Hk Hxy]. cbn in Hk, Hxy. subst k'. unfold g. cbn [fst snd].
    destruct (Hf _ _ Hxy) as [a b Hab|]; constructor. by split. }
  destruct (mapM g kvs) as [r|] eqn:E.
  - destruct (Hperm _ _ _ Hp E) as (r1 & E1 & Hr1). rewrite E1 in Hg. inversion Hg as [? r' HFr E0 E2|]. constructor. split; [|by exists r1].
    assert (r.*1 = kvs.*1) as ->; [|done]. clear -E. apply mapM_Some_1 in E. induction E as [|[k x] [k' y] l l' H _ IH]; [done|].
    cbn. rewrite IH. unfold g in H. cbn in H. destruct (f x); [|done]. by injection H as ->.
  - destruct (mapM g kvs1) as [r1|] eqn:E1; [|inversion Hg; constructor]. symmetry in Hp. destruct (Hperm _ _ _ Hp E1) as (r & E2 & _). congruence.
Qed.

Lemma rebuild_option o o' : option_Forall2 (related same) o o' → option_Forall2 same (rebuild <$> o) (rebuild <$> o').
Proof. intros H. destruct H; constructor. by apply rebuild_same. Qed.

Lemma object_same v w : same v w → is_object v = is_object w.
Proof. intros H. by destruct H. Qed.

Lemma pathItem_same v w : same v w → option_Forall2 same (pathItem localeCompare v) (pathItem localeCompare w).
Proof.
  intros H. unfold pathItem. destruct (members_same _ _ H) as [kvs kvs' Hr|]; [|constructor]. apply rebuild_option.
  apply (mapM_related (λ x, if is_object x then normalizeOperation localeCompare x else Some x)); [|done].
  intros x y Hxy. rewrite <- (object_same _ _ Hxy). destruct (is_object x); [by apply normalizeOperation_same|by constructor].
Qed.

Lemma paths_same v w : same v w → option_Forall2 same (paths localeCompare v) (paths localeCompare w).
Proof.
  intros H. unfold paths. rewrite <- (object_same _ _ H). destruct (is_object v); [|by constructor]. apply rebuild_option.
  apply (mapM_related (pathItem localeCompare)); [apply pathItem_same|by apply spread_same].
Qed.

Lemma at_key_or_throw_same k f kvs kvs' : (∀ x y, same x y → option_Forall2 same (f x) (f y)) → related same kvs kvs' →
  option_Forall2 (related same) (at_key_or_throw k f kvs) (at_key_or_throw k f kvs').
Proof.
  intros Hf Hr. unfold at_key_or_throw. destruct (related_get _ k _ _ Hr) as [x y Hxy|]; [|by constructor].
  destruct (Hf _ _ Hxy) as [a b Hab|]; constructor. by apply at_key_same.
Qed.

Lemma tags_same v w : same v w → option_Forall2 same (tags localeCompare v) (tags localeCompare w).
Proof.
  intros Hxy. destruct Hxy as [|t|s Hs|l l' Hl HF|ms ms1 ms' Hm Hp HF]; try (constructor; by econstructor).
  cbn [tags]. destruct (sortByProp_same _ _ HF) as [m m' [Hm Hlen]|]; constructor. constructor; [by rewrite Hlen|done].
Qed.

(** C35. The snapshot does not depend on the order in which the members of
    the specification, at any depth, were written. *)
Theorem normal_form_ignores_order v w : same v w → normalizeSpec localeCompare v = normalizeSpec localeCompare w.
Proof.
  intros H. pose proof (deep_sort_same _ _ H) as Hd. destruct H as [|t|s Hs|l l' Hl HF|kvs kvs1 kvs' Hk Hp HF]; cbn [normalizeSpec]; try (f_equal; exact Hd).
  assert (related same kvs kvs') as Hr by (split; [done|by exists kvs1]). clear Hd Hk Hp HF.
  destruct (at_key_or_throw_same "tags" _ _ _ tags_same Hr) as [raw raw' Hraw|]; [|done].
  destruct (at_key_or_throw_same "paths" _ _ _ paths_same Hraw) as [r r' Hr'|]; [|done].
  f_equal. apply deep_sort_same, related_obj, at_key_same; [apply components_same|done].
Qed.
End NormalizeSame.

(** Two ways to write a specification. *)
Definition written_one_way : json :=
  Obj [("paths", Obj [("/b", Obj [("get", Obj [("responses", Obj [("200", Obj [("description", Text "ok")]); ("404", Obj [])]);
                                               ("parameters", Arr [Obj [("name", Text "z"); ("in", Text "query")]; Obj [("name", Text "a")]])])]); ("/a", Obj [])]);
       ("components", Obj [("schemas", Obj [("S", Obj [("required", Arr [Text "b"; Text "a"]); ("type", Text "object")])])])].
Definition written_another_way : json :=
  Obj [("components", Obj [("schemas", Obj [("S", Obj [("type", Text "object"); ("required", Arr [Text "b"; Text "a"])])])]);
       ("paths", Obj [("/a", Obj []); ("/b", Obj [("get", Obj [("parameters", Arr [Obj [("in", Text "query"); ("name", Text "z")]; Obj [("name", Text "a")]]);
                                                               ("responses", Obj [("200", Obj [("description", Text "ok")]); ("404", Obj [])])])])])].

Example normal_form_of_both :
  normalizeSpec Migrations.code_order written_one_way = normalizeSpec Migrations.code_order written_another_way ∧
  normalizeSpec Migrations.code_order written_one_way =
    Some (Obj [("components", Obj [("schemas", Obj [("S", Obj [("required", Arr [Text "a"; Text "b"]); ("type", Text "object")])])]);
               ("paths", Obj [("/a", Obj []); ("/b", Obj [("get", Obj [("parameters", Arr [Obj [("name", Text "a")]; Obj [("in", Text "query"); ("name", Text "z")]]);
                                                               ("responses", Obj [("200", Obj [("description", Text "ok")]); ("404", Obj [])])])])])]).
Proof. vm_compute. split; reflexivity. Qed.

(** The parameters of a path, which stand beside its operations, are taken
    for an operation: the array becomes an object. *)
Example path_parameters_become_an_object :
  normalizeSpec Migrations.code_order (Obj [("paths", Obj [("/a", Obj [("parameters", Arr [Obj [("name", Text "id")]])])])]) =
    Some (Obj [("paths", Obj [("/a", Obj [("parameters", Obj [("0", Obj [("name", Text "id")])])])])]).
Proof. reflexivity. Qed.

Ltac distinct_names := apply (bool_decide_unpack _); vm_compute; exact I.
Ltac same_tree :=
  lazymatch goal with
  | |- same (Text _) _ => constructor; reflexivity
  | |- same (Arr _) _ => constructor; [reflexivity|same_elements]
  | |- same (Obj ?l) _ => first [apply (same_obj l l); [distinct_names|reflexivity|same_members]
                              |lazymatch l with [?a; ?b] => apply (same_obj l [b; a]); [distinct_names|apply perm_swap|same_members] end]
  end
with same_elements := first [apply List.Forall2_nil|apply List.Forall2_cons; [same_tree|same_elements]]
with same_members := first [apply List.Forall2_nil|apply List.Forall2_cons; [split; [reflexivity|cbn [snd]; same_tree]|same_members]].

Lemma normal_form_ignores_order_witness :
  same written_one_way written_another_way ∧
  normalizeSpec Migrations.code_order written_one_way = normalizeSpec Migrations.code_order written_another_way.
Proof.
  assert (same written_one_way written_another_way) as H by (unfold written_one_way, written_another_way; same_tree).
  split; [exact H|apply (normal_form_ignores_order _ _ _ H)].
Defined.
End Contract.

(** ** Provenance: [scripts/verify-provenance.ts]

    [JSON.parse] and the base64 decoding of a [Buffer] are arguments.  What
    the file holds is not of the declared types unless the code looked:
    [Thrown] is a [TypeError] of the language. *)
Module Provenance.
Import Contract.

Inductive VerificationFailureCode :=
| MALFORMED_ENVELOPE | UNSIGNED_ENVELOPE | BAD_PAYLOAD_TYPE | MALFORMED_STATEMENT | BAD_STATEMENT_TYPE | BAD_PREDICATE_TYPE | NO_SUBJECTS
| SUBJECT_DIGEST_MISMATCH | BUILDER_MISMATCH | SOURCE_REPO_MISMATCH | Thrown.

Definition IN_TOTO_STATEMENT_TYPES : list string := ["https://in-toto.io/Statement/v1"; "https://in-toto.io/Statement/v0.1"].
Definition SLSA_V1_PREDICATE_TYPE : string := "https://slsa.dev/provenance/v1".
Definition DSSE_PAYLOAD_TYPE : string := "application/vnd.in-toto+json".
Definition EXPECTED_BUILDER_ID_PREFIX : string :=
  "https://github.com/slsa-framework/slsa-github-generator/.github/workflows/generator_generic_slsa3.yml@refs/tags/".

(** [v?.k]: [None] is [undefined]. *)
Definition get (k : string) (v : option json) : option json := match v with Some (Obj kvs) => map_get k kvs | _ => None end.
Definition text (v : option json) : option string := match v with Some (Text s) => Some s | _ => None end.
Definition absent (v : option json) : bool := match v with None | Some Null => true | _ => false end.

Section Verify.
Context (JSON_parse : string → option json) (from_base64 : string → string).

(** Lines end in a newline with or without a carriage return, which is
    trimmed away. *)
Definition first_line (raw : string) : option string := List.find nonempty (map trim (split_on (ascii_of_nat 10) raw)).

Definition signed (s : json) : bool := match text (get "sig" (Some s)) with Some s => nonempty s | None => false end.

Definition parseDsseEnvelope (raw : string) : result VerificationFailureCode string :=
  match first_line raw with
  | None => Err MALFORMED_ENVELOPE
  | Some line =>
      match JSON_parse line with
      | None => Err MALFORMED_ENVELOPE
      | Some v =>
          match text (get "payload" (Some v)), text (get "payloadType" (Some v)) with
          | Some payload, Some payloadType =>
              if negb (String.eqb payloadType DSSE_PAYLOAD_TYPE) then Err BAD_PAYLOAD_TYPE
              else match get "signatures" (Some v) with
                   | Some (Arr (s :: l)) => if forallb signed (s :: l) then Ok payload else Err UNSIGNED_ENVELOPE
                   | _ => Err UNSIGNED_ENVELOPE
                   end
          | _, _ => Err MALFORMED_ENVELOPE
          end
      end
  end.

(** A statement, and the list of its subjects. *)
Definition decodeStatement (payload : string) : result VerificationFailureCode (json * list json) :=
  match JSON_parse (from_base64 payload) with
  | None => Err MALFORMED_STATEMENT
  | Some stmt =>
      match text (get "_type" (Some stmt)) with
      | None => Err MALFORMED_STATEMENT
      | Some t =>
          if negb (existsb (String.eqb t) IN_TOTO_STATEMENT_TYPES) then Err BAD_STATEMENT_TYPE
          else match text (get "predicateType" (Some stmt)) with
               | Some p =>
                   if negb (String.eqb p SLSA_V1_PREDICATE_TYPE) then Err BAD_PREDICATE_TYPE
                   else match get "subject" (Some stmt) with
                        | Some (Arr (s :: l)) => Ok (stmt, s :: l)
                        | _ => Err NO_SUBJECTS
                        end
               | None => Err BAD_PREDICATE_TYPE
               end
      end
  end.

(** [s.digest?.sha256?.toLowerCase()]: of [null] nothing can be asked, and
    what is no text has no such method. *)
Definition subject_digest (s : json) : result VerificationFailureCode (option string) :=
  match s with
  | Null => Err Thrown
  | _ => match get "sha256" (get "digest" (Some s)) with
         | None | Some Null => Ok None
         | Some (Text d) => Ok (Some (to_lower d))
         | _ => Err Thrown
         end
  end.

Fixpoint by_digest (digest : string) (l : list json) : result VerificationFailureCode (list json) :=
  match l with
  | [] => Ok []
  | s :: l =>
      match subject_digest s with
      | Err e => Err e
      | Ok d => match by_digest digest l with
                | Err e => Err e
                | Ok r => Ok (if decide (d = Some digest) then s :: r else r)
                end
      end
  end.

(** [basename]: the part after the last slash that something follows. *)
Definition basename (p : string) : string := default EmptyString (last (List.filter nonempty (split_on "/" p))).

(** [path.basename] throws on what is no text. *)
Fixpoint by_name (name : string) (l : list json) : result VerificationFailureCode (option json) :=
  match l with
  | [] => Ok None
  | s :: l => match text (get "name" (Some s)) with
              | None => Err Thrown
              | Some n => if String.eqb (basename n) (basename name) then Ok (Some s) else by_name name l
              end
  end.

Definition findMatchingSubject (subjects : list json) (artifactSha256 : string) (artifactName : option string) : result VerificationFailureCode json :=
  match by_digest (to_lower artifactSha256) subjects with
  | Err e => Err e
  | Ok [] => Err SUBJECT_DIGEST_MISMATCH
  | Ok (s :: l) =>
      match artifactName with
      | Some name =>
          if nonempty name then
            match by_name name (s :: l) with Err e => Err e | Ok None => Err SUBJECT_DIGEST_MISMATCH | Ok (Some s) => Ok s end
          else Ok s
      | None => Ok s
      end
  end.

Fixpoint strip_slashes (l : list ascii) : list ascii :=
  match l with "/"%char :: r => strip_slashes r | _ => l end.

(** The source repository without scheme, [.git] and slashes at its end. *)
Definition normalize (repo : string) : string :=
  let r := match strip_prefix "https://" repo with Some r => r | None => match strip_prefix "http://" repo with Some r => r | None => repo end end in
  let r := match strip_suffix ".git" r with Some r => r | None => r end in
  to_lower (String.string_of_list_ascii (rev (strip_slashes (rev (String.list_ascii_of_string r))))).

Definition builder_id (stmt : json) : option json := get "id" (get "builder" (get "runDetails" (get "predicate" (Some stmt)))).
Definition source_repo (stmt : json) : option json :=
  get "repository" (get "workflow" (get "externalParameters" (get "buildDefinition" (get "predicate" (Some stmt))))).

Definition truthy (v : option json) : bool :=
  match v with
  | None | Some Null => false
  | Some (Text s) => nonempty s
  | Some (Atom t) => negb (existsb (String.eqb t) ["0"; "-0"; "false"])
  | _ => true
  end.

Definition verifyBuilderIdentity (stmt : json) (prefix : string) (expectedSourceRepo : option string) : result VerificationFailureCode (string * option json) :=
  match (if absent (builder_id stmt) then Some EmptyString else text (builder_id stmt)) with
  | None => Err Thrown
  | Some id =>
      if negb (String.prefix prefix id) then Err BUILDER_MISMATCH
      else match expectedSourceRepo with
           | Some repo =>
               if negb (nonempty repo) then Ok (id, source_repo stmt)
               else if negb (truthy (source_repo stmt)) then Err SOURCE_REPO_MISMATCH
               else match text (source_repo stmt) with
                    | None => Err Thrown
                    | Some r => if String.eqb (normalize r) (normalize repo) then Ok (id, source_repo stmt) else Err SOURCE_REPO_MISMATCH
                    end
           | None => Ok (id, source_repo stmt)
           end
  end.

Record VerifyOptions := {
  provenanceRaw : string; artifactSha256 : string; artifactName : option string; expectedSourceRepo : option string; expectedBuilderIdPrefix : option string
}.
Record VerificationReport := { subjectName : option json; sha256 : string; builderId : string; sourceRepo : option json }.

Definition verifyProvenance (o : VerifyOptions) : result VerificationFailureCode VerificationReport :=
  match parseDsseEnvelope (provenanceRaw o) with
  | Err e => Err e
  | Ok payload =>
      match decodeStatement payload with
      | Err e => Err e
      | Ok (stmt, subjects) =>
          match findMatchingSubject subjects (artifactSha256 o) (artifactName o) with
          | Err e => Err e
          | Ok s =>
              match verifyBuilderIdentity stmt (default EXPECTED_BUILDER_ID_PREFIX (expectedBuilderIdPrefix o)) (expectedSourceRepo o) with
              | Err e => Err e
              | Ok (id, repo) => Ok {| subjectName := get "name" (Some s); sha256 := to_lower (artifactSha256 o); builderId := id; sourceRepo := repo |}
              end
          end
      end
  end.

(** *** Properties *)

(** What a verified file says: which statement it holds, and that this names
    the artifact by digest and name, the builder and the repository. *)
Definition envelope (raw : string) (v : json) : Prop := ∃ line, first_line raw = Some line ∧ JSON_parse line = Some v.

Record attests (o : VerifyOptions) (v stmt s : json) (l : list json) : Prop := {
  has_envelope : envelope (provenanceRaw o) v;
  has_payload_type : get "payloadType" (Some v) = Some (Text DSSE_PAYLOAD_TYPE);
  has_signatures : ∃ sigs, get "signatures" (Some v) = Some (Arr sigs) ∧ sigs ≠ [] ∧ Forall (λ x, ∃ y, get "sig" (Some x) = Some (Text y) ∧ y ≠ EmptyString) sigs;
  has_statement : ∃ payload, get "payload" (Some v) = Some (Text payload) ∧ JSON_parse (from_base64 payload) = Some stmt;
  has_type : ∃ t, get "_type" (Some stmt) = Some (Text t) ∧ t ∈ IN_TOTO_STATEMENT_TYPES;
  has_predicate_type : get "predicateType" (Some stmt) = Some (Text SLSA_V1_PREDICATE_TYPE);
  has_subject : get "subject" (Some stmt) = Some (Arr l) ∧ s ∈ l;
  has_digest : ∃ d, get "sha256" (get "digest" (Some s)) = Some (Text d) ∧ to_lower d = to_lower (artifactSha256 o);
  has_name : ∀ name, artifactName o = Some name → name ≠ EmptyString → ∃ n, get "name" (Some s) = Some (Text n) ∧ basename n = basename name;
  has_builder : ∃ id, String.prefix (default EXPECTED_BUILDER_ID_PREFIX (expectedBuilderIdPrefix o)) id = true ∧
    (builder_id stmt = Some (Text id) ∨ absent (builder_id stmt) = true ∧ id = EmptyString);
  has_repository : ∀ repo, expectedSourceRepo o = Some repo → repo ≠ EmptyString →
    ∃ r, source_repo stmt = Some (Text r) ∧ normalize r = normalize repo
}.

Lemma text_Some v s : text v = Some s → v = Some (Text s).
Proof. destruct v as [[]|]; try done. by intros [= ->]. Qed.

Lemma nonempty_spec s : nonempty s = true ↔ s ≠ EmptyString.
Proof. by destruct s. Qed.

Lemma parse_envelope raw payload : parseDsseEnvelope raw = Ok payload →
  ∃ v sigs, envelope raw v ∧ get "payload" (Some v) = Some (Text payload) ∧ get "payloadType" (Some v) = Some (Text DSSE_PAYLOAD_TYPE) ∧
    get "signatures" (Some v) = Some (Arr sigs) ∧ sigs ≠ [] ∧ Forall (λ x, ∃ y, get "sig" (Some x) = Some (Text y) ∧ y ≠ EmptyString) sigs.
Proof.
  unfold parseDsseEnvelope. destruct (first_line raw) as [line|] eqn:El; [|done]. destruct (JSON_parse line) as [v|] eqn:Ev; [|done].
  destruct (text (get "payload" _)) as [p|] eqn:Ep; [|done]. destruct (text (get "payloadType" _)) as [t|] eqn:Et; [|done].
  destruct (String.eqb_spec t DSSE_PAYLOAD_TYPE) as [->|]; [|done]. cbn [negb].
  destruct (get "signatures" _) as [[| | |[|s l]|]|] eqn:Es; try done. destruct (forallb signed (s :: l)) eqn:Ef; [|done]. intros [= ->].
  exists v, (s :: l). apply text_Some in Ep, Et. split_and!; [by exists line|done|done|done|done|].
  apply Forall_forall. intros x Hx. rewrite forallb_forall in Ef. apply list_elem_of_In, Ef in Hx. unfold signed in Hx.
  destruct (text _) as [y|] eqn:Ey; [|done]. apply text_Some in Ey. exists y. split; [done|by apply nonempty_spec].
Qed.

Lemma decode_statement payload stmt l : decodeStatement payload = Ok (stmt, l) →
  JSON_parse (from_base64 payload) = Some stmt ∧ (∃ t, get "_type" (Some stmt) = Some (Text t) ∧ t ∈ IN_TOTO_STATEMENT_TYPES) ∧
  get "predicateType" (Some stmt) = Some (Text SLSA_V1_PREDICATE_TYPE) ∧ get "subject" (Some stmt) = Some (Arr l).
Proof.
  unfold decodeStatement. destruct (JSON_parse _) as [v|]; [|done]. destruct (text (get "_type" _)) as [t|] eqn:Et; [|done].
  destruct (existsb _ _) eqn:Ex; [|done]. cbn [negb]. destruct (text (get "predicateType" _)) as [p|] eqn:Ep; [|done].
  destruct (String.eqb_spec p SLSA_V1_PREDICATE_TYPE) as [->|]; [|done]. cbn [negb]. destruct (get "subject" _) as [[| | |[|s r]|]|] eqn:Es; try done.
  intros [= -> <-]. apply text_Some in Et, Ep. split_and!; try done. exists t. split; [done|].
  apply existsb_exists in Ex as (x & Hx & ->%String.eqb_eq). by apply list_elem_of_In.
Qed.

Lemma by_digest_spec d l r : by_digest d l = Ok r → Forall (λ s, s ∈ l ∧ ∃ x, get "sha256" (get "digest" (Some s)) = Some (Text x) ∧ to_lower x = d) r.
Proof.
  revert r. induction l as [|s l IH]; intros r; cbn [by_digest]; [by intros [= <-]|].
  destruct (subject_digest s) as [o|] eqn:Es; [|done]. destruct (by_digest d l) as [q|]; [|done]. intros [= <-]. specialize (IH q eq_refl).
  assert (Forall (λ s', s' ∈ s :: l ∧ ∃ x, get "sha256" (get "digest" (Some s')) = Some (Text x) ∧ to_lower x = d) q) as Hq.
  { eapply Forall_impl; [exact IH|]. intros x [Hx H]. split; [by right|done]. }
  case_decide as Ho; [|done]. constructor; [|done]. split; [by left|]. subst o. unfold subject_digest in Es.
  destruct (get "sha256" _) as [[]|]; destruct s; try done; (injection Es as <-; by eexists).
Qed.

Lemma by_name_spec name l s : by_name name l = Ok (Some s) → s ∈ l ∧ ∃ n, get "name" (Some s) = Some (Text n) ∧ basename n = basename name.
Proof.
  induction l as [|x l IH]; cbn [by_name]; [done|]. destruct (text _) as [n|] eqn:En; [|done]. apply text_Some in En.
  destruct (String.eqb_spec (basename n) (basename name)) as [Hn|].
  - intros [= ->]. split; [by left|]. by exists n.
  - intros [H1 H2]%IH. split; [by right|done].
Qed.

Lemma find_subject l d name s : findMatchingSubject l d name = Ok s →
  s ∈ l ∧ (∃ x, get "sha256" (get "digest" (Some s)) = Some (Text x) ∧ to_lower x = to_lower d) ∧
  ∀ n, name = Some n → n ≠ EmptyString → ∃ n', get "name" (Some s) = Some (Text n') ∧ basename n' = basename n.
Proof.
  unfold findMatchingSubject. destruct (by_digest _ l) as [[|x r]|] eqn:Ed; try done. apply by_digest_spec in Ed. rewrite Forall_forall in Ed.
  destruct name as [n|]; [|intros [= <-]; destruct (Ed x) as [H1 H2]; [by left|split_and!; done]]. destruct (nonempty n) eqn:En.
  - destruct (by_name n (x :: r)) as [[y|]|] eqn:Eb; try done. intros [= <-]. apply by_name_spec in Eb as [Hin Hn].
    destruct (Ed y Hin) as [H1 H2]. split_and!; [done|done|]. by intros ? [= <-].
  - intros [= <-]. destruct (Ed x) as [H1 H2]; [by left|]. split_and!; [done|done|]. intros ? [= <-] Hne%nonempty_spec. congruence.
Qed.

Lemma verify_builder stmt p repo id r : verifyBuilderIdentity stmt p repo = Ok (id, r) →
  r = source_repo stmt ∧ String.prefix p id = true ∧ (builder_id stmt = Some (Text id) ∨ absent (builder_id stmt) = true ∧ id = EmptyString) ∧
  ∀ x, repo = Some x → x ≠ EmptyString → ∃ y, source_repo stmt = Some (Text y) ∧ normalize y = normalize x.
Proof.
  unfold verifyBuilderIdentity. intros H.
  assert (∃ i, (if absent (builder_id stmt) then Some EmptyString else text (builder_id stmt)) = Some i) as [i Hi] by (destruct (if absent _ then _ else _); [by eexists|done]).
  rewrite Hi in H. destruct (String.prefix p i) eqn:Hp; [|done]. cbn [negb] in H.
  assert (builder_id stmt = Some (Text i) ∨ absent (builder_id stmt) = true ∧ i = EmptyString) as Hb.
  { destruct (absent (builder_id stmt)); [right; by injection Hi as <-|left; by apply text_Some]. }
  destruct repo as [x|]; [|injection H as <- <-; by split_and!]. destruct (nonempty x) eqn:Ex; cbn [negb] in H.
  - destruct (truthy _); [|done]. cbn [negb] in H. destruct (text (source_repo stmt)) as [y|] eqn:Ey; [|done]. apply text_Some in Ey.
    destruct (String.eqb_spec (normalize y) (normalize x)) as [Hn|]; [|done]. injection H as <- <-. split_and!; [done..|]. intros ? [= <-] _. by exists y.
  - injection H as <- <-. split_and!; [done..|]. intros ? [= <-] Hne%nonempty_spec. congruence.
Qed.

(** An artifact passes only if the first envelope of the file is signed and
    its statement, of the right types, has a subject of the artifact's digest
    and name, was made by the trusted builder and from the expected
    repository. *)
Theorem verified_artifact_attested o r : verifyProvenance o = Ok r →
  ∃ v stmt s l, attests o v stmt s l ∧ subjectName r = get "name" (Some s) ∧ sha256 r = to_lower (artifactSha256 o) ∧ sourceRepo r = source_repo stmt.
Proof.
  unfold verifyProvenance. destruct (parseDsseEnvelope _) as [payload|] eqn:Ep; [|done]. destruct (decodeStatement _) as [[stmt l]|] eqn:Ed; [|done].
  destruct (findMatchingSubject _ _ _) as [s|] eqn:Ef; [|done]. destruct (verifyBuilderIdentity _ _ _) as [[id repo]|] eqn:Eb; [|done]. intros [= <-].
  apply parse_envelope in Ep as (v & sigs & H1 & H2 & H3 & H4 & H5 & H6). apply decode_statement in Ed as (H7 & H8 & H9 & H10).
  apply find_subject in Ef as (H11 & H12 & H13). apply verify_builder in Eb as (-> & H14 & H15 & H16).
  exists v, stmt, s, l. split; [|done]. split; try done; by eexists.
Qed.
End Verify.

(** *** A release *)

Definition release_statement : json :=
  Obj [("_type", Text "https://in-toto.io/Statement/v1"); ("predicateType", Text SLSA_V1_PREDICATE_TYPE);
       ("subject", Arr [Obj [("name", Text "dist/app.tgz"); ("digest", Obj [("sha256", Text "AB12")])]]);
       ("predicate", Obj [("runDetails", Obj [("builder", Obj [("id", Text (EXPECTED_BUILDER_ID_PREFIX +:+ "v2.0.0"))])]);
                          ("buildDefinition", Obj [("externalParameters", Obj [("workflow", Obj [("repository", Text "https://github.com/Org/Repo.git")])])])])].
Definition release_envelope : json :=
  Obj [("payloadType", Text DSSE_PAYLOAD_TYPE); ("payload", Text "statement"); ("signatures", Arr [Obj [("sig", Text "MEUC")]])].
Definition release_parse (s : string) : option json :=
  if String.eqb s "envelope" then Some release_envelope else if String.eqb s "statement" then Some release_statement else None.
Definition release_options : VerifyOptions :=
  {| provenanceRaw := " envelope "; artifactSha256 := "ab12"; artifactName := Some "app.tgz"; expectedSourceRepo := Some "github.com/org/repo"; expectedBuilderIdPrefix := None |}.
Definition release_report : VerificationReport :=
  {| subjectName := Some (Text "dist/app.tgz"); sha256 := "ab12"; builderId := EXPECTED_BUILDER_ID_PREFIX +:+ "v2.0.0";
     sourceRepo := Some (Text "https://github.com/Org/Repo.git") |}.

Lemma verified_artifact_attested_witness :
  verifyProvenance release_parse (λ s, s) release_options = Ok release_report ∧
  ∃ v stmt s l, attests release_parse (λ s, s) release_options v stmt s l ∧ subjectName release_report = get "name" (Some s) ∧
    sha256 release_report = to_lower (artifactSha256 release_options) ∧ sourceRepo release_report = source_repo stmt.
Proof.
  assert (verifyProvenance release_parse (λ s, s) release_options = Ok release_report) as H by (vm_compute; reflexivity).
  split; [exact H|apply (verified_artifact_attested release_parse (λ s, s) release_options release_report H)].
Defined.

(** The slashes are taken off after [.git]. *)
Example trailing_slash_hides_git : normalize "https://github.com/org/repo.git/" = "github.com/org/repo.git" ∧ normalize "github.com/org/repo" = "github.com/org/repo".
Proof. vm_compute. split; reflexivity. Qed.
End Provenance.

(** ** Performance: [scripts/compare-k6.ts]

    Summaries and baselines are typed here: a metric has a kind and named
    values, [None] for what is not a number.  [parseFloat] and [parseInt] of
    the language are arguments, as is the serialised text the checksum is
    made of. *)
Module Performance.
Import Doubles.

Inductive K6MetricKind := trend | rate | counter | gauge.
#[export] Instance kind_eq_dec : EqDecision K6MetricKind.
Proof. solve_decision. Defined.

Record K6Metric := { type : K6MetricKind; values : list (string * option double) }.
Abbreviation metrics := (list (string * K6Metric)).

Definition DEFAULT_THRESHOLD_PERCENT : double := of_Z 10.
Definition TREND_FIELDS : list string := ["p(95)"; "p(99)"; "avg"; "med"; "max"].
Definition RATE_FIELDS : list string := ["rate"].
Definition COUNTER_FIELDS : list string := ["rate"].
Definition GAUGE_FIELDS : list string := ["value"].

Definition fieldsForKind (k : K6MetricKind) : list string :=
  match k with trend => TREND_FIELDS | rate => RATE_FIELDS | counter => COUNTER_FIELDS | gauge => GAUGE_FIELDS end.

Definition isHigherIsWorse (k : K6MetricKind) (field : string) : bool :=
  match k with
  | trend => true
  | counter => if String.eqb field "rate" then true else true
  | gauge => true
  | rate => true
  end.

(** [isNonNullNumber(v) ? v : null]. *)
Definition number (v : option (option double)) : option double :=
  match v with Some (Some d) => if isFinite d then Some d else None | _ => None end.

Record MetricComparison := {
  metric : string; kind : K6MetricKind; field : string; baseline : option double; current : option double;
  delta : option double; deltaPercent : option double; threshold : double; passed : bool; note : option string
}.

Definition delta_percent (b c : double) : double :=
  let safeBaseline := if (b =? zero)%double then Math_min c (literal 1 1000000000) else b in
  ((c - b) / safeBaseline * of_Z 100)%double.

Definition compareMetricField (m : string) (k : K6MetricKind) (f : string) (b c : option double) (thresholdPercent : double) : MetricComparison :=
  let without p n :=
    {| metric := m; kind := k; field := f; baseline := b; current := c; delta := None; deltaPercent := None; threshold := thresholdPercent; passed := p; note := Some n |} in
  match b, c with
  | None, None => without true "no data on either side"
  | None, Some _ => without true "baseline missing: new metric"
  | Some _, None => without false "current missing metric field"
  | Some x, Some y =>
      let p := delta_percent x y in
      let regressed := if isHigherIsWorse k f then (thresholdPercent <? p)%double else (p <? - thresholdPercent)%double in
      {| metric := m; kind := k; field := f; baseline := b; current := c; delta := Some (y - x)%double; deltaPercent := Some p; threshold := thresholdPercent;
         passed := if (x =? zero)%double && (y =? zero)%double then true else negb regressed; note := None |}
  end.

(** [/^p\(\d+\)$/]. *)
Definition is_percentile (k : string) : bool :=
  match strip_prefix "p(" k with
  | Some r => match strip_suffix ")" r with Some d => nonempty d && string_forallb is_digit d | None => false end
  | None => false
  end.

Definition values_of (m : option K6Metric) : list (string * option double) := match m with Some m => values m | None => [] end.

(** The fields that are looked at: those of the kind, and the percentiles the
    summary has. *)
Definition seenFields (k : K6MetricKind) (cur : list (string * option double)) : list string :=
  fold_left set_add (match k with trend => List.filter is_percentile cur.*1 | _ => [] end) (fieldsForKind k).

Inductive warning := NoBaseline | TypeChanged (metric : string) (from to : K6MetricKind).

Record CompareResult := { r_passed : bool; comparisons : list MetricComparison; regressions : list MetricComparison; warnings : list warning }.

Definition compare_metric (base cur : metrics) (thresholdPercent : double) (k : string) : list MetricComparison * list warning :=
  let baseMetric := map_get k base in
  let curMetric := map_get k cur in
  match match curMetric with Some m => Some m | None => baseMetric end with
  | None => ([], [])
  | Some m =>
      (map (λ f, compareMetricField k (type m) f (number (map_get f (values_of baseMetric))) (number (map_get f (values_of curMetric))) thresholdPercent)
         (seenFields (type m) (values_of curMetric)),
       match baseMetric, curMetric with
       | Some b, Some c => if decide (type b = type c) then [] else [TypeChanged k (type b) (type c)]
       | _, _ => []
       end)
  end.

Definition metric_keys (base cur : metrics) : list string := fold_left set_add (base.*1 ++ cur.*1) [].

(** [failWithoutBaseline]: the variable [K6_COMPARE_FAIL_WITHOUT_BASELINE]
    is 1. *)
Definition compareSummaries (failWithoutBaseline : bool) (b : option metrics) (cur : metrics) (thresholdPercent : double) : CompareResult :=
  let base := default [] b in
  let parts := map (compare_metric base cur thresholdPercent) (metric_keys base cur) in
  let cs := concat (map fst parts) in
  {| r_passed := match b with None => negb failWithoutBaseline | Some _ => forallb passed cs end;
     comparisons := cs; regressions := List.filter (λ c, negb (passed c)) cs;
     warnings := match b with None => [NoBaseline] | Some _ => [] end ++ concat (map snd parts) |}.

(** *** The command *)

Section Command.
Context (parseFloat parseInt : string → double).

Definition parsePositiveFloat (raw : option string) (fallback : double) : double :=
  match raw with
  | None => fallback
  | Some s => let p := parseFloat s in if negb (isFinite p) || (p <=? zero)%double || (of_Z 100 <? p)%double then fallback else p
  end.

Definition MAX_SAFE_INTEGER : double := of_Z (2 ^ 53 - 1).
Definition parsePositiveInteger (raw : option string) (fallback : double) : double :=
  match raw with
  | None => fallback
  | Some s => let p := parseInt s in if negb (isFinite p) || (p <=? zero)%double then fallback else Math_min p MAX_SAFE_INTEGER
  end.

(** The exit code of a comparison. *)
Definition exit_code (exitCodeVariable : option string) (failWithoutBaseline envFailWithoutBaseline : bool) (b : option metrics) (cur : metrics) (t : double) : double :=
  let r := compareSummaries envFailWithoutBaseline b cur t in
  let ok := match b with None => if failWithoutBaseline then false else r_passed r | Some _ => r_passed r end in
  if ok then zero else parsePositiveInteger exitCodeVariable (of_Z 10).
End Command.

(** Runs of other characters become an underscore. *)
Definition branch_char (c : ascii) : bool :=
  in_range 97 122 c || in_range 65 90 c || is_digit c || existsb (Ascii.eqb c) ["_"; "."; "/"; "-"]%char.
Fixpoint replace_runs (in_run : bool) (s : string) : string :=
  match s with
  | EmptyString => EmptyString
  | String c r => if branch_char c then String c (replace_runs false r) else if in_run then replace_runs true r else String "_" (replace_runs true r)
  end.
Definition sanitizeBranchName (branch : string) : string :=
  if is_empty (trim branch) then "main"
  else let n := replace_runs false (trim branch) in if is_empty n then "main" else n.

(** The hash in the checksum: 32 bits. *)
Definition checksum_hash (serialized : string) : Z :=
  fold_left (λ h c, (h * 31 + Z.of_nat (nat_of_ascii c)) mod 2 ^ 32) (String.list_ascii_of_string serialized) 0.

(** *** Properties *)

Lemma seen_fields k cur f : f ∈ fieldsForKind k → f ∈ seenFields k cur.
Proof.
  intros Hf. unfold seenFields. assert (NoDup (fieldsForKind k)) as Hn by (apply (bool_decide_unpack _); by destruct k; vm_compute).
  destruct (set_adds (match k with trend => List.filter is_percentile cur.*1 | _ => [] end) _ Hn) as (_ & _ & H). apply H. by left.
Qed.

Lemma metric_keys_in k base cur : k ∈ metric_keys base cur ↔ k ∈ base.*1 ∨ k ∈ cur.*1.
Proof.
  unfold metric_keys. destruct (set_adds (base.*1 ++ cur.*1) [] (NoDup_nil_2)) as (_ & _ & H). rewrite H, elem_of_nil, elem_of_app. tauto.
Qed.

Lemma keys_get {V} k (m : list (string * V)) v : map_get k m = Some v → k ∈ m.*1.
Proof. intros H%map_get_Some. apply list_elem_of_fmap. by exists (k, v). Qed.

(** With a baseline, the gate passes exactly when no comparison failed, and a
    pass covers the baseline: for each of its metrics whose kind is
    unchanged, each field of the kind that has a number there has one in the
    summary too, and is no worse by more than the threshold. *)
Theorem pass_covers_baseline e base cur t :
  let r := compareSummaries e (Some base) cur t in
  (r_passed r = true ↔ regressions r = []) ∧
  (r_passed r = true → ∀ k m f b, map_get k base = Some m → f ∈ fieldsForKind (type m) → number (map_get f (values m)) = Some b →
   (∀ m', map_get k cur = Some m' → type m' = type m) →
   ∃ m' c, map_get k cur = Some m' ∧ number (map_get f (values m')) = Some c ∧
     ((b =? zero)%double && (c =? zero)%double = true ∨ (t <? delta_percent b c)%double = false)).
Proof.
  intros r. split.
  - unfold r. cbn [compareSummaries r_passed regressions]. generalize (concat (map fst (map (compare_metric (default [] (Some base)) cur t) (metric_keys (default [] (Some base)) cur)))).
    intros cs. induction cs as [|c cs IH]; [done|]. cbn. destruct (passed c); cbn; [exact IH|done].
  - intros Hp k m f b Hk Hf Hb Hty. unfold r in Hp. cbn [compareSummaries r_passed default] in Hp. rewrite forallb_forall in Hp.
    set (curm := map_get k cur) in *. set (m1 := match curm with Some m' => m' | None => m end).
    assert (type m1 = type m) as Ht by (unfold m1; destruct curm as [m'|]; [by apply Hty|done]).
    assert (passed (compareMetricField k (type m) f (Some b) (number (map_get f (values_of curm))) t) = true) as Hc.
    { apply Hp, in_concat. exists (compare_metric base cur t k).1. split.
      - apply in_map, in_map, list_elem_of_In, metric_keys_in. left. by eapply keys_get.
      - unfold compare_metric. fold curm. rewrite Hk. replace (match curm with Some m0 => Some m0 | None => Some m end) with (Some m1) by (unfold m1; by destruct curm).
        cbn [fst]. rewrite Ht. rewrite <- Hb. apply in_map_iff. exists f. split; [done|]. by apply list_elem_of_In, seen_fields. }
    destruct curm as [m'|] eqn:Ecur; cbn [values_of] in Hc.
    + destruct (number (map_get f (values m'))) as [c|] eqn:En; [|done]. exists m', c. split_and!; [done|done|]. cbn [compareMetricField passed] in Hc.
      destruct (_ && _); [by left|right]. assert (isHigherIsWorse (type m) f = true) as Hw by (destruct (type m); cbn; by try destruct (String.eqb f "rate")).
      rewrite Hw in Hc. by destruct (t <? delta_percent b c)%double.
    + done.
Qed.

Lemma sub_self b : isFinite b = true → (b - b)%double = zero.
Proof.
  destruct b as [s| | |s m e]; try done; intros _; [by destruct s|]. unfold dsub. cbn [SFsub]. cbv zeta.
  match goal with |- context [binary_normalize _ _ ?z _ _] => assert (z = 0) as -> by (destruct s; unfold cond_Zopp; lia) end. done.
Qed.

(** A summary equal to the baseline passes, whatever the numbers. *)
Theorem unchanged_passes m k f b t : isFinite b = true → (zero <=? t)%double = true → passed (compareMetricField m k f (Some b) (Some b) t) = true.
Proof.
  intros Hb Ht. cbn [compareMetricField passed]. assert (isHigherIsWorse k f = true) as -> by (destruct k; cbn; by try destruct (String.eqb f "rate")).
  destruct ((b =? zero)%double && (b =? zero)%double) eqn:Ez; [done|].
  assert (∃ s, delta_percent b b = S754_zero s) as [s ->].
  { unfold delta_percent. rewrite sub_self by done. destruct (b =? zero)%double eqn:E0; [done|].
    destruct b as [s| | |s p e]; [by destruct s|done|done|]. by eexists. }
  cbn. rewrite le_not_lt; [done|]. destruct s; [|done]. destruct t as [[]|[]| |[]]; done.
Qed.

Lemma unchanged_passes_witness :
  isFinite (literal 1 3) = true ∧ (zero <=? of_Z 10)%double = true ∧
  passed (compareMetricField "http_req_duration" trend "p(95)" (Some (literal 1 3)) (Some (literal 1 3)) (of_Z 10)) = true.
Proof.
  assert (isFinite (literal 1 3) = true) as H1 by (vm_compute; reflexivity). assert ((zero <=? of_Z 10)%double = true) as H2 by (vm_compute; reflexivity).
  split; [exact H1|split; [exact H2|apply (unchanged_passes _ _ _ _ _ H1 H2)]].
Defined.

(** What the gate lets through and what it stops: a check that passes half
    as often, a gauge that rises from below zero, a percentile only the
    baseline has; and requests served at a higher rate. *)
Example gate_direction :
  passed (compareMetricField "checks" rate "rate" (Some (of_Z 1)) (Some (literal 1 2)) (of_Z 10)) = true ∧
  passed (compareMetricField "drift" gauge "value" (Some (of_Z (-10))) (Some (of_Z 10)) (of_Z 10)) = true ∧
  passed (compareMetricField "http_reqs" counter "rate" (Some (of_Z 100)) (Some (of_Z 120)) (of_Z 10)) = false ∧
  passed (compareMetricField "drift" gauge "value" (Some (of_Z 0)) (Some (of_Z (-1))) (of_Z 10)) = false ∧
  r_passed (compareSummaries false (Some [("d", {| type := trend; values := [("p(90)", Some (of_Z 5))] |})])
                                   [("d", {| type := trend; values := [] |})] (of_Z 10)) = true.
Proof. vm_compute. split_and!; reflexivity. Qed.

(** The name of a branch becomes a path below the directory of the
    baselines; dots and slashes stay, so it may lead out of it. *)
Lemma sanitized_branch s : string_forallb branch_char (sanitizeBranchName s) = true ∧ sanitizeBranchName s ≠ EmptyString.
Proof.
  unfold sanitizeBranchName. destruct (is_empty (trim s)); [done|]. set (n := replace_runs false (trim s)).
  assert (∀ b t, string_forallb branch_char (replace_runs b t) = true) as H.
  { intros b t. revert b. induction t as [|c t IH]; intros b; [done|]. cbn [replace_runs]. destruct (branch_char c) eqn:Ec; [cbn; by rewrite Ec, IH|].
    destruct b; [apply IH|]. cbn. by rewrite IH. }
  destruct n eqn:En; [done|]. cbn [is_empty]. split; [|done]. rewrite <- En. apply H.
Qed.

Example branch_leads_out : sanitizeBranchName " ../../secrets " = "../../secrets".
Proof. reflexivity. Qed.

Lemma fold_left_invariant {A B} (P : A → Prop) (f : A → B → A) l a : P a → (∀ a b, P a → P (f a b)) → P (fold_left f l a).
Proof. intros Ha Hf. revert a Ha. induction l as [|b l IH]; intros a Ha; [done|]. by apply IH, Hf. Qed.

(** Every step of the hash stays below [2 ^ 53], where numbers are exact. *)
Lemma checksum_exact s : 0 ≤ checksum_hash s < 2 ^ 32 ∧ ∀ h c, 0 ≤ h < 2 ^ 32 → 0 ≤ h * 31 + Z.of_nat (nat_of_ascii c) < 2 ^ 53.
Proof.
  split.
  - unfold checksum_hash. apply (fold_left_invariant (λ h, 0 ≤ h < 2 ^ 32)); [done|]. intros h c _. apply Z.mod_pos_bound. lia.
  - intros h c Hh. pose proof (nat_ascii_bounded c). lia.
Qed.
End Performance.
